(* ===== verification/_CoqProject ===== *)
-Q . S2P
Prelude.v
Strings.v
Bytes.v
Errors.v
Domain.v
Codec.v
Policy.v
SessionState.v
Session.v
Approval.v
Evolution.v
SessionSafety.v
Demo.v
SessionTheorems.v
ApprovalTheorems.v
Action.v
Template.v
TemplateTheorems.v
FixedAction.v
Decimal.v
Json.v
Llm.v
Effect.v
Sealing.v
Sealer.v
TextStreamTheorems.v
LlmTail.v
LlmObserver.v
LlmStream.v
LlmStreamSafety.v
Parameters.v
Address.v
Routing.v
Connections.v
ConnectionTheorems.v
Signed.v
Relay.v
RelayStore.v
RelayService.v
RelayDemo.v
RelayDirectory.v
SignedTheorems.v
RelayTransactions.v
RelayTheorems.v
RelayInvariant.v
RelayAccess.v
RelayInbox.v
Frame.v
Lifecycle.v
AuditRecords.v
VaultModel.v
VaultTables.v
VaultStore.v
Usage.v
VaultRows.v
KeyWrap.v
LifecycleSeals.v
VaultContent.v
VaultWorker.v
Generation.v
AuditLog.v
VaultUnlock.v
VaultMutations.v
Bootstrap.v
VaultRules.v
VaultMoves.v
VaultCommit.v
VaultOperations.v
VaultHistory.v
VaultRoundtrips.v
UsageTheorems.v
VaultEvolution.v
UsageSafety.v
VaultDemo.v
VaultProperties.v
UsageProperties.v
AuditExport.v
AuditPages.v
AuditProperties.v
