(* ===== verification/Prelude.v ===== *)
(** * Rekey: a verification development of the credential broker

    Rekey (src/) is a local broker that holds credentials in an encrypted vault
    and executes HTTP requests on behalf of agents, which only ever hold
    capability tokens. This library models the parts of it that decide who may
    do what, and proves what they promise. Paths below are relative to
    src/crates/.

    ** The program, and how its parts meet

    An agent presents a capability token over a framed socket. The broker's
    session registry authenticates it and takes a use and a slot; the policy
    evaluates the action, or the connection's rules decide a direct call; a
    decision may require an approval, given locally or by signed grants, that is
    bound to the exact request; the action or provider template fixes what is
    sent; the destination's resolved address must be public; and the lifecycle's
    gate must be open when the effect starts.

    ** Files, in dependency order

    - [Prelude]: results and early returns ([reject_if]), machine integers,
      strings as UTF-8 bytes, list scans, and the tactics [reflect_bools] and
      [walk]. [Strings]: Rust's [str] operations, slugs, decimal
      printing and parsing, maps keyed by strings.
    - [Errors]: error enums, stable codes and agent guidance
      (rekey-domain/src/error.rs, rekey-vault/src/error.rs,
      rekey-broker/src/error.rs, ipc/agent.rs).
    - [Domain]: identifiers, authorization data, capabilities, credentials and
      profiles (rekey-domain/src/ids.rs, authorization.rs, capability.rs,
      credential.rs, profile.rs).
    - [Codec]: what the program relies on of SHA-256, base64url and hex, as
      the class [Codecs] with its laws and a model instance.
    - [Policy]: rule validation, approver resolution and [evaluate]
      (rekey-policy/src/lib.rs), with the relation [decides] as specification.
    - [SessionState], [Session], [Approval]: the capability session registry
      (rekey-broker/src/session.rs, session/approval.rs), one definition per
      operation behind its mutex; every clock reading is an argument.
      [Evolution]: how one operation may change a session.
      [SessionSafety]: the registry with the permits its callers hold as a
      transition system ([step], [reachable], [later]) and its invariant.
      [Demo]: a concrete run. [SessionTheorems], [ApprovalTheorems]: the
      properties.
    - [Action], [FixedAction]: HTTP actions and their validation, [Address]:
      the public-address test (rekey-domain/src/action.rs).
    - [Template], [TemplateTheorems]: provider templates, bindings, rendering
      and request targets (rekey-domain/src/template.rs).
    - [Routing]: connections, their validation and the rule
      decision (rekey-domain/src/connection.rs, rekey-policy/src/connections.rs).
    - [Decimal], [Json], [Llm], [Parameters]: the canonical form of a call: exact
      number comparison, duplicate-free parsing, the output ceiling of model
      calls, header checks, envelope and digest (rekey-policy/src/lib.rs,
      json.rs, templates.rs). The JSON libraries are the class [Serde].
    - [Connections], [ConnectionTheorems]: the evaluation of a request against the
      enabled connections, around the rule decision of [Routing]
      (rekey-policy/src/connections.rs, presets.rs).
    - [Effect]: the state monad of the broker's streams, where [None] is a panic or
      a loop without end, with its rules of total correctness ([wp]). [Bytes],
      [Utf8]: byte strings, and where text may be cut.
    - [Sealing]: the spellings of a credential that responses are searched for
      (rekey-broker/src/executor/sealing.rs).
    - [Sealer], [TextStreamTheorems]: a text stream that is
      scanned before it is sent (executor/text_stream.rs).
    - [LlmTail], [LlmObserver], [LlmStream], [LlmStreamSafety]: the event stream of a
      model, relayed losslessly while an observer follows every text that it
      spells (executor/llm_stream.rs).
    - [Signed], [SignedTheorems]: trust files, approval grants and challenge
      envelopes with their signatures (rekey-policy/src/signed.rs,
      rekey-domain/src/ipc.rs), over the classes [Signatures] and [Documents].
    - [Relay], [RelayStore], [RelayService], [RelayDirectory]: the approval relay
      (rekey-approval-relay/src/): configuration; the store, one definition per
      method, each a transaction over a working copy in the monad [R]; tokens,
      routing and the fault latch; polling of the directory. Clocks and failures
      of files and of SQLite are the class [World], by number of reading.
      [RelayDemo]: a concrete relay. [RelayTransactions], [RelayTheorems]: rules for [R], the exact change of every
      method, [handle]. [RelayInvariant], [RelayAccess],
      [RelayInbox]: the service as a step relation, and its properties.
    - [AuditRecords]: records, queries, and what a page must be before a reader believes it
      (rekey-domain/src/audit.rs). [VaultModel], [VaultStore]: the vault's
      records, associated data, tables and appends (rekey-vault/src/model.rs,
      crypto/aad.rs, store/audit.rs, sqlite.rs, recovery.rs), in the monad [V],
      where a transaction is a working copy and the class [Host] answers clocks,
      entropy and failures by number of question. [Usage]: the sealed usage ledger
      (crypto/usage.rs, store/usage.rs). [VaultWorker]: the authority
      around them and its fault latch (authority/usage.rs, authority/audit.rs).
      [AuditLog]: paging and pruning (store/audit_query.rs, audit_prune.rs).
      [AuditExport]: the command line's export over pages
      (rekey-cli/src/commands/audit.rs, client.rs).
      [VaultRules], [UsageTheorems]: rules for [V]
      ([vwp]) and the exact effect of each operation. [VaultEvolution]: how one
      operation may change the tables, and the vault as a step relation.
      [UsageSafety]: the invariant ([book]). [VaultDemo]: a concrete vault and its
      run. [UsageProperties], [AuditPages], [AuditProperties]: the properties.
    - The life of the vault around that ledger. [VaultTables], [VaultRows]: every
      table with the constraints of its schema, and the decoding of its rows
      (store/schema.rs, sqlite.rs, wrapper.rs, policy.rs, pki.rs, lease_journal.rs,
      convert.rs). [KeyWrap], [LifecycleSeals]: keys, wrappers, recovery keys as
      text, the MAC of the header, and the seals of credentials, actions, policies,
      retention and leases (crypto/). [VaultContent]: the seals of the journal, and
      what is verified before the tables are trusted. [Generation]: the generation
      recorded in a file and in the keychain, and the commit that reserves there
      before it writes (generation_anchor.rs, store/generation.rs). [VaultUnlock]:
      proofs, the back-off, opening, closing, the confirmation of a rollback
      (bootstrap.rs, authority.rs). [VaultMutations]: passwords, recovery keys,
      credentials, policies and retention (authority/wrapper.rs, credential.rs,
      policy.rs, audit.rs). [Bootstrap]: a new vault, and the checks of a store that
      is opened (bootstrap.rs, store/sqlite.rs, store/integrity.rs). [VaultMoves],
      [VaultCommit], [VaultOperations]: the specification of a vault that is guarded
      from outside, as a step relation ([move]), and that every operation is a
      sequence of its moves ([mover_perform]). [VaultHistory]: invariants of the
      moves. [VaultRoundtrips]: what is written reads back. [VaultDemo], Module
      [VaultGuardDemo]: a vault created, opened, stocked, rewrapped and revoked
      from. [VaultProperties]: the properties.
    - [Frame]: the wire protocol's header, readers and bodies
      (rekey-domain/src/ipc.rs, rekey-broker/src/ipc/frame.rs).
    - [Lifecycle]: phases, the effect gate and execution
      slots as programs of atomic actions (rekey-broker/src/lifecycle.rs).

    ** What the theorems show

    - Sessions: in every interleaving the slots and uses of a session are exact
      ([session_accounting], [in_flight_total_exact]), revocation is final
      ([dead_session_stays_dead]), no execution starts after the time to live
      ([ttl_bounds_every_execution]) or in a closed registry, and [begin] and
      [with_live_handoff] succeed exactly under their conditions.
    - Approvals: a local approval is consumed at most once, only after review of
      the same request, never after rejection; signed grants need a quorum of
      distinct allowed approvers and are spent exactly.
    - Policy and routing: the evaluators refine declarative decisions, are
      independent of rule order, deny by default, and a denial is absolute.
    - Actions, templates and addresses: origins and headers are canonical, a
      rendered request keeps the declared path and reads back to its parts, the
      credential slot cannot be named elsewhere, private addresses are refused.
    - Canonical calls: a digest stands for one call ([digest_binds_call]),
      callers cannot supply a protected header, bodies with repeated keys or
      with numbers that canonicalisation changes are refused.
    - Connections: an authorisation comes from the only connection the request can
      mean ([authorization_sound]), its digest stands for one request
      ([local_digest_binds]), model calls stay under the signed ceiling, and no
      request makes the evaluation panic.
    - Responses: a credential is found in every spelling the code lists
      ([echoed_credential_detected]). A text stream ([text_run]) and a model
      stream ([llm_run]) are compared with references that know neither chunks
      nor buffers ([wire_text]; [wire_frames], [observe_all] and [pushed_by]):
      what the receiver has ends before the first spelling of the credential,
      at the wire ([llm_stream_withholds]) and in every text that the events
      spell ([llm_stream_withholds_text]); nothing of a model's terminal event
      precedes the settlement; what remains is released without failure; the
      runs return on every input.
    - The relay: in every history the tables keep their invariant
      ([relay_store_ok]); files are served only to current parties
      ([relay_serves_current_parties]), exactly as uploaded
      ([relay_download_exact]); a removal needs evidence and is final
      ([relay_observation_needs_evidence], [relay_removal_is_final]); a storage
      fault closes it; who follows the cursors of the inbox while the service goes
      on is shown in order, once, every request that stays theirs to see
      ([relay_inbox_pages_complete]). An accepted grant or challenge was signed, in its own domain, by the key named for it.
    - The vault: in every history of admissions, settlements, recoveries, audits and
      prunes the ledger verifies under its seal ([usage_ledger_intact]), daily
      maxima hold ([usage_budget_holds]), a settled charge is final
      ([usage_settled_once]) and the audit says exactly what was charged
      ([usage_audit_exact]); a seal fits one ledger ([usage_seal_binds]); each
      operation does what it says or nothing ([execution_admission],
      [settlement_final], [recovery_settles_all], [audit_append_reads_back],
      and a prune deletes exactly the finished executions that it may
      ([audit_prune_exact]). An export over pages is the log ([audit_export_complete]). A local decision proved by the password makes
      the audit unreadable ([password_decision_unreadable]), which is a defect.
    - The life of the vault: every history of administration is a sequence of moves
      ([history_refines_moves]): the tables change only under a generation that was
      reserved outside the database and is above every one recorded there
      ([generations_rise]), so a database put back to an older state stays closed
      until an operator confirms it ([older_database_stays_closed]). An unlocking
      verifies all content under the root ([unlock_verifies]). Credentials and versions
      agree in every history ([credentials_stay_consistent]), a revocation is for good
      ([revoked_for_good]), bundles only go forward ([bundle_versions_rise]). New
      passwords and recovery texts open the vault ([new_secrets_open]), an added
      credential is prepared with its secret ([added_credential_is_prepared]), and a
      creation proves its vault or leaves no reservation behind
      ([init_vault_outcome]).
    - Frames: encoding and decoding are inverse and reading is bounded.
    - Lifecycle: stopping is final under any interleaving, unfinished executions
      close admission, slots are counted exactly.

    ** Bounds

    Integers are [Z]; saturating, checked and wrapping operations are written out
    where the code uses them. Fuel: [dec] prints 41 digits, more than any 64-bit
    number has ([dec_spec] holds below 10^41); [scan_numbers] takes the body's
    length, and every turn consumes a byte. [release_loop] takes the bytes to send,
    [drain] the pending bytes, [boundary] and [frames_loop] one more than the bytes
    not scanned, [back_off] the length matched so far; [None] from lack of fuel is
    excluded by [text_stream_returns] and [llm_stream_returns]. [fit] takes the
    number of listed ids, and every turn drops one ([relay_revocations_fit]). [export_pages] takes more
    turns than the snapshot has sequences, and each page's cursor is smaller. Time is a count of
    milliseconds (wall clock) or nanoseconds (monotonic clock).

    ** Not modelled

    Cryptography (the cipher of the vault is the class [Aead]), SQLite, sockets, TLS, async scheduling and serde's JSON are
    outside: where a decision uses them they are parameters ([Codecs], [Serde],
    [JsonSchema], [Memchr] and [Encodings] for byte search and base64, [Graphql]
    for its parser, [Layout] for sizes of Rust types). The channel to a receiver
    is a list with the number of sends it still accepts. Display texts, tracing,
    the wiping of memory and [Notify] wake-ups carry no decision. Key derivation and
    MACs are the class [Kdf], the parsers of certificates and cloud keys [Materials].

    The directories, markers, permissions and locks around the vault's files, and with
    them backup and restore, are file handling; the executors, the sources of
    credentials, the servers, the sandbox and the plugin hosts are clients of the
    operating system and of services, whose decisions call what is modelled. The
    rotation of the vault's root key, the transitions of a lease, the issuing of
    certificates, the loading of a signed policy bundle, the signed template package and
    the derived credentials of connections are not modelled; the theorems about
    histories are about the calls of [Call]. *)

From Stdlib Require Export ZArith Ascii String Lia.
From stdpp Require Export base tactics list gmap strings numbers sorting.

(* stdpp re-exports [Nat] notations; integers of the program are [Z]. *)
#[global] Open Scope Z_scope.

(** ** Results and early returns *)

(** Rust's [Result<A, E>]. *)
Inductive result (E A : Type) : Type :=
  | Ok (a : A)
  | Err (e : E).
Arguments Ok {E A} a.
Arguments Err {E A} e.

#[export] Instance result_eq_dec `{EqDecision E, EqDecision A} :
  EqDecision (result E A).
Proof. solve_decision. Defined.

(** The [?] operator, as stdpp's monadic bind. *)
#[export] Instance result_ret {E} : MRet (result E) := fun A x => Ok x.
#[export] Instance result_bind {E} : MBind (result E) :=
  fun A B f m => match m with Ok a => f a | Err e => Err e end.
#[export] Instance result_fmap {E} : FMap (result E) :=
  fun A B f m => match m with Ok a => Ok (f a) | Err e => Err e end.

Definition is_ok {E A} (r : result E A) : bool :=
  match r with Ok _ => true | Err _ => false end.
Definition ok_or {E A} (e : E) (o : option A) : result E A :=
  match o with Some a => Ok a | None => Err e end.
Definition map_err {E F A} (f : E -> F) (r : result E A) : result F A :=
  match r with Ok a => Ok a | Err e => Err (f e) end.

(** A [for] loop whose body returns early with [?]. *)
Fixpoint try_each {E A} (f : A -> result E unit) (l : list A) : result E unit :=
  match l with
  | [] => Ok tt
  | x :: r => match f x with Ok _ => try_each f r | Err e => Err e end
  end.

Lemma try_each_Ok {E A} (f : A -> result E unit) l :
  try_each f l = Ok tt <-> forall x, x ∈ l -> f x = Ok tt.
Proof.
  induction l as [|x l IH]; cbn.
  - split; [intros _ x Hx; by apply elem_of_nil in Hx|done].
  - split.
    + intros H y Hy. destruct (f x) as [[]|] eqn:E1; [|done].
      apply elem_of_cons in Hy as [->|Hy]; [done|]. by apply IH.
    + intros H. rewrite (H x) by left. apply IH. intros y Hy. apply H. by right.
Qed.

Declare Scope rekey_scope.
Delimit Scope rekey_scope with rekey.
#[global] Open Scope rekey_scope.

(** [if cond { return Err(e); }]: the early return of a fallible function. *)
Notation "'reject_if' b 'with' e ';;' k" :=
  (if b then Err e else k)
  (at level 10, b at level 90, e at level 90, k at level 200,
   format "'reject_if'  b  'with'  e  ';;' '//' k") : rekey_scope.

(** ** Machine integers *)

Definition i64_min : Z := - 2 ^ 63.
Definition i64_max : Z := 2 ^ 63 - 1.
Definition u64_max : Z := 2 ^ 64 - 1.
Definition u32_max : Z := 2 ^ 32 - 1.
Definition u8_max : Z := 2 ^ 8 - 1.

Definition in_i64 (z : Z) : Prop := i64_min <= z <= i64_max.
Definition in_u64 (z : Z) : Prop := 0 <= z <= u64_max.
Definition in_u32 (z : Z) : Prop := 0 <= z <= u32_max.

(** [i64::saturating_add] and [i64::saturating_sub]. *)
Definition i64_saturate (z : Z) : Z := Z.max i64_min (Z.min i64_max z).
Definition i64_saturating_add (a b : Z) : Z := i64_saturate (a + b).
Definition i64_saturating_sub (a b : Z) : Z := i64_saturate (a - b).
(** [i64::checked_sub]. *)
Definition i64_checked_sub (a b : Z) : option Z :=
  if (i64_min <=? a - b) && (a - b <=? i64_max) then Some (a - b) else None.
(** [x as u64] on an [i64]: two's complement reinterpretation. *)
Definition i64_as_u64 (z : Z) : Z := z mod 2 ^ 64.
(** [u32::saturating_sub] and [u32::checked_add]. *)
Definition u32_saturating_sub (a b : Z) : Z := Z.max 0 (a - b).
Definition u32_checked_add (a b : Z) : option Z :=
  if a + b <=? u32_max then Some (a + b) else None.

Lemma i64_saturate_range z : in_i64 (i64_saturate z).
Proof. unfold in_i64, i64_saturate, i64_min, i64_max. lia. Qed.

Lemma i64_saturate_id z : in_i64 z -> i64_saturate z = z.
Proof. unfold in_i64, i64_saturate. lia. Qed.

(** ** Strings as UTF-8 bytes *)

(** A Rust [String] or [&str] is its UTF-8 bytes; [len()] counts bytes. *)
Definition slen (s : string) : Z := Z.of_nat (String.length s).
Definition llen {A} (l : list A) : Z := Z.of_nat (List.length l).
Lemma llen_app {A} (x y : list A) : llen (x ++ y) = llen x + llen y.
Proof. unfold llen. rewrite length_app. lia. Qed.
Lemma llen_nonneg {A} (l : list A) : 0 <= llen l.
Proof. unfold llen. lia. Qed.

Definition byte_of (c : ascii) : Z := Z.of_N (N_of_ascii c).
Definition in_range (lo hi : Z) (c : ascii) : bool :=
  (lo <=? byte_of c) && (byte_of c <=? hi).

(** [u8::is_ascii_digit] and friends. *)
Definition is_ascii_digit (c : ascii) : bool := in_range 48 57 c.
Definition is_ascii_lowercase (c : ascii) : bool := in_range 97 122 c.
Definition is_ascii_uppercase (c : ascii) : bool := in_range 65 90 c.
Definition is_ascii_alphanumeric (c : ascii) : bool :=
  is_ascii_digit c || is_ascii_lowercase c || is_ascii_uppercase c.

(** [s.bytes().all(p)] and [s.bytes().any(p)]. *)
Fixpoint str_all (p : ascii -> bool) (s : string) : bool :=
  match s with
  | EmptyString => true
  | String c r => p c && str_all p r
  end.
Definition str_any (p : ascii -> bool) (s : string) : bool :=
  negb (str_all (fun c => negb (p c)) s).

Definition is_empty_str (s : string) : bool :=
  match s with EmptyString => true | _ => false end.

Definition str_eqb (a b : string) : bool := bool_decide (a = b).

(** [s.contains(c)] for one ASCII character. *)
Definition str_contains (c : ascii) (s : string) : bool :=
  str_any (fun a => bool_decide (a = c)) s.

(** [s.starts_with(c)] and [s.ends_with(c)]. *)
Definition starts_with (c : ascii) (s : string) : bool :=
  match s with EmptyString => false | String a _ => bool_decide (a = c) end.

Fixpoint ends_with (c : ascii) (s : string) : bool :=
  match s with
  | EmptyString => false
  | String a EmptyString => bool_decide (a = c)
  | String _ r => ends_with c r
  end.

(** [s.strip_prefix(c)] and [s.strip_suffix(c)]. *)
Definition strip_prefix (c : ascii) (s : string) : option string :=
  match s with
  | EmptyString => None
  | String a r => if bool_decide (a = c) then Some r else None
  end.

Fixpoint strip_suffix (c : ascii) (s : string) : option string :=
  match s with
  | EmptyString => None
  | String a EmptyString => if bool_decide (a = c) then Some EmptyString else None
  | String a r => String a <$> strip_suffix c r
  end.

(** [&s[1..]] after the first byte has been checked to be ASCII. *)
Definition str_tail (s : string) : string :=
  match s with EmptyString => EmptyString | String _ r => r end.

(** [s.split(sep)]: never empty, one piece per separator plus one. *)
Fixpoint split_on (sep : ascii) (s : string) : list string :=
  match s with
  | EmptyString => [EmptyString]
  | String c r =>
      if bool_decide (c = sep) then EmptyString :: split_on sep r
      else match split_on sep r with
           | [] => [String c EmptyString]
           | h :: t => String c h :: t
           end
  end.

(** [parts.join(sep)]. *)
Definition join (sep : ascii) (parts : list string) : string :=
  String.concat (String sep EmptyString) parts.

Lemma split_on_nonempty sep s : split_on sep s <> [].
Proof.
  destruct s as [|c r]; simpl; [done|].
  case_bool_decide; [done|]. by destruct (split_on sep r).
Qed.

(** Splitting and joining again gives back the string. *)
Lemma join_split_on sep s : join sep (split_on sep s) = s.
Proof.
  unfold join. induction s as [|c r IH]; [done|]. simpl.
  pose proof (split_on_nonempty sep r) as Hne.
  case_bool_decide as Hc; destruct (split_on sep r) as [|h t] eqn:E; try done.
  - subst c. simpl in *. by rewrite IH.
  - destruct t; simpl in *; by rewrite <- IH.
Qed.

Lemma str_all_spec p s :
  str_all p s = true <-> Forall (fun c => p c = true) (list_ascii_of_string s).
Proof.
  induction s as [|c r IH]; simpl; [by split|].
  by rewrite andb_true_iff, IH, Forall_cons.
Qed.

(** ** Lists and options *)

(** [iter().find_map(f)] and [iter().find(p)]. *)
Fixpoint find_map {A B} (f : A -> option B) (l : list A) : option B :=
  match l with
  | [] => None
  | x :: r => match f x with Some b => Some b | None => find_map f r end
  end.

Definition find_first {A} (p : A -> bool) (l : list A) : option A :=
  find_map (fun x => if p x then Some x else None) l.

(** Mutating the first element an [iter_mut().find(p)] returns. *)
Fixpoint update_first {A} (p : A -> bool) (f : A -> A) (l : list A) : list A :=
  match l with
  | [] => []
  | x :: r => if p x then f x :: r else x :: update_first p f r
  end.

(** The last matching element, as a scan without early exit finds it, with the
    elements before and after it. *)
Fixpoint split_last {A} (p : A -> bool) (l : list A) : option (list A * A * list A) :=
  match l with
  | [] => None
  | x :: r =>
      match split_last p r with
      | Some (pre, y, post) => Some (x :: pre, y, post)
      | None => if p x then Some ([], x, r) else None
      end
  end.

(** The first matching element with the elements around it. *)
Fixpoint split_first {A} (p : A -> bool) (l : list A) : option (list A * A * list A) :=
  match l with
  | [] => None
  | x :: r =>
      if p x then Some ([], x, r)
      else match split_first p r with
           | Some (pre, y, post) => Some (x :: pre, y, post)
           | None => None
           end
  end.

Lemma find_first_Some {A} (p : A -> bool) l x :
  find_first p l = Some x -> x ∈ l /\ p x = true.
Proof.
  unfold find_first. induction l as [|y r IH]; simpl; [done|].
  destruct (p y) eqn:E; intros H; [simplify_eq; split; [left|done]|].
  destruct (IH H). split; [by right|done].
Qed.

Lemma find_first_None {A} (p : A -> bool) l :
  find_first p l = None <-> forall x, x ∈ l -> p x = false.
Proof.
  unfold find_first. induction l as [|y r IH]; simpl.
  - split; [intros _ x Hx; by apply elem_of_nil in Hx | done].
  - destruct (p y) eqn:E.
    + split; [done|]. intros H. rewrite H in E; [done|left].
    + rewrite IH. split.
      * intros H x Hx. apply elem_of_cons in Hx as [->|Hx]; auto.
      * intros H x Hx. apply H. by right.
Qed.
Lemma find_first_app {A} (p : A -> bool) l1 l2 :
  find_first p (l1 ++ l2) = match find_first p l1 with Some x => Some x | None => find_first p l2 end.
Proof. unfold find_first. induction l1 as [|x l1 IH]; [done|]. cbn. by destruct (p x). Qed.
Lemma find_first_map {A} (p : A -> bool) f l :
  (forall x, p (f x) = p x) -> find_first p (map f l) = f <$> find_first p l.
Proof. intros Hf. unfold find_first. induction l as [|x l IH]; [done|]. cbn. rewrite Hf. by destruct (p x). Qed.

Lemma split_last_None {A} (p : A -> bool) l :
  split_last p l = None <-> Forall (fun x => p x = false) l.
Proof.
  induction l as [|y r IH]; simpl; [by split|]. rewrite Forall_cons, <- IH.
  destruct (split_last p r) as [[[pre z] post]|], (p y); naive_solver.
Qed.

Lemma split_last_Some {A} (p : A -> bool) l pre x post :
  split_last p l = Some (pre, x, post) ->
  l = pre ++ x :: post /\ p x = true /\ Forall (fun y => p y = false) post.
Proof.
  revert pre. induction l as [|y r IH]; simpl; [done|]. intros pre H.
  destruct (split_last p r) as [[[pre' y'] post']|] eqn:E.
  - simplify_eq. destruct (IH pre') as (-> & ? & ?); [done|]. done.
  - destruct (p y) eqn:Ey; [|done]. simplify_eq. by apply split_last_None in E.
Qed.

Lemma split_first_None {A} (p : A -> bool) l :
  split_first p l = None <-> Forall (fun x => p x = false) l.
Proof.
  induction l as [|y r IH]; simpl; [by split|]. rewrite Forall_cons, <- IH.
  destruct (split_first p r) as [[[pre z] post]|], (p y); naive_solver.
Qed.

Lemma split_first_Some {A} (p : A -> bool) l pre x post :
  split_first p l = Some (pre, x, post) ->
  l = pre ++ x :: post /\ p x = true /\ Forall (fun y => p y = false) pre.
Proof.
  revert pre. induction l as [|y r IH]; simpl; [done|]. intros pre H.
  destruct (p y) eqn:Ey; [by simplify_eq|].
  destruct (split_first p r) as [[[pre' y'] post']|] eqn:E; [|done].
  simplify_eq. destruct (IH pre') as (-> & ? & ?); [done|]. eauto.
Qed.

(** [iter().retain(p)] and [filter(p)] on boolean predicates. *)
Definition retain {A} (p : A -> bool) (l : list A) : list A :=
  List.filter p l.

Lemma elem_of_retain {A} (p : A -> bool) l x :
  x ∈ retain p l <-> x ∈ l /\ p x = true.
Proof. unfold retain. by rewrite !list_elem_of_In, filter_In. Qed.
Lemma NoDup_map_retain {A B} (g : A -> B) (f : A -> bool) l : NoDup (map g l) -> NoDup (map g (retain f l)).
Proof.
  unfold retain. induction l as [|x l IH]; cbn; [done|]. intros [Hx H]%NoDup_cons. destruct (f x); [|by apply IH].
  cbn. apply NoDup_cons. split; [|by apply IH]. intros Hi. apply Hx.
  apply list_elem_of_In, in_map_iff in Hi as (y & <- & Hy). apply filter_In in Hy as [Hy _].
  by apply list_elem_of_In, in_map.
Qed.

Lemma forallb_elem {A} (p : A -> bool) l :
  forallb p l = true <-> forall x, x ∈ l -> p x = true.
Proof. rewrite forallb_forall. by setoid_rewrite list_elem_of_In. Qed.

Lemma existsb_elem {A} (p : A -> bool) l :
  existsb p l = true <-> exists x, x ∈ l /\ p x = true.
Proof. rewrite existsb_exists. by setoid_rewrite list_elem_of_In. Qed.

Lemma existsb_false_elem {A} (p : A -> bool) l :
  existsb p l = false <-> forall x, x ∈ l -> p x = false.
Proof.
  rewrite <- not_true_iff_false, existsb_elem. split.
  - intros H x Hx. apply not_true_iff_false. eauto.
  - intros H (x & Hx & E). by rewrite (H x Hx) in E.
Qed.

(** [HashSet]/[BTreeSet] duplicate scans: every [insert] returned [true]. *)
Definition all_distinct {A} `{EqDecision A} (l : list A) : bool :=
  bool_decide (NoDup l).

(** ** Automation *)

Create HintDb rekey discriminated.
Create Rewrite HintDb rekey.
#[export] Hint Rewrite @elem_of_retain @list_elem_of_In : rekey.
#[export] Hint Resolve split_on_nonempty i64_saturate_range : rekey.

(** Turns boolean tests in the context into propositions. *)
Ltac reflect_bools :=
  repeat match goal with
  | H : _ && _ = true |- _ => apply andb_true_iff in H as [? ?]
  | H : _ || _ = false |- _ => apply orb_false_iff in H as [? ?]
  | H : negb _ = true |- _ => apply negb_true_iff in H
  | H : negb _ = false |- _ => apply negb_false_iff in H
  | H : bool_decide _ = true |- _ => apply bool_decide_eq_true in H
  | H : bool_decide _ = false |- _ => apply bool_decide_eq_false in H
  | H : (_ <? _) = true |- _ => apply Z.ltb_lt in H
  | H : (_ <? _) = false |- _ => apply Z.ltb_ge in H
  | H : (_ <=? _) = true |- _ => apply Z.leb_le in H
  | H : (_ <=? _) = false |- _ => apply Z.leb_gt in H
  | H : (_ =? _) = true |- _ => apply Z.eqb_eq in H
  | H : (_ =? _) = false |- _ => apply Z.eqb_neq in H
  end.

(** Follows the branch a successful (or failing) run took: case analysis on
    every test, [match] and early return of hypothesis [H]. *)
Ltac walk_step H :=
  match type of H with
  | context [match ?x with _ => _ end] =>
      lazymatch x with
      | context [match _ with _ => _ end] => fail
      | _ => destruct x eqn:?; try done
      end
  | context [match ?x with _ => _ end] => destruct x eqn:?; try done
  end.
Ltac walk H :=
  repeat (simplify_eq; walk_step H); simplify_eq; reflect_bools.

(** Inverts a successful chain of [?]s and early returns in [H]. *)
Ltac bind_step H :=
  lazymatch type of H with
  | mbind _ ?r = Ok _ =>
      let E := fresh "E" in destruct r eqn:E; cbn [mbind result_bind] in H; [|discriminate H]
  | (let '(_, _) := ?p in _) = Ok _ => first [is_var p; destruct p|destruct p eqn:?]
  | (if ?b then _ else _) = Ok _ =>
      let E := fresh "E" in destruct b eqn:E; try discriminate H
  | Ok _ = Ok _ => injection H as H
  end.
Ltac bind_inv H := repeat bind_step H.

(** Evaluates the decisions of the goal that equality or [done] settles. *)
Ltac simpl_decide :=
  repeat match goal with
  | |- context [bool_decide ?P] =>
      first [ rewrite (bool_decide_eq_true_2 P) by done
            | rewrite (bool_decide_eq_false_2 P) by done ]
  end.
