(* ===== verification/Strings.v ===== *)
(** * Strings: Rust's [str], slugs and decimal numbers

    A Rust [str] is the string of its UTF-8 bytes. [chars] decodes the Unicode
    scalar values ([str::chars]), [of_chars] encodes them ([String] from
    characters); [trim], [is_control] and [is_whitespace] are the standard
    library's. The slug grammar of [rekey-domain/src/template.rs] and the
    routable slug of [rekey-domain/src/profile.rs] are at the end. *)

From S2P Require Import Prelude.

(** ** UTF-8 *)

Fixpoint chars (s : string) : list Z :=
  match s with
  | EmptyString => []
  | String a r =>
      let x := byte_of a in
      if x <? 128 then x :: chars r
      else match r with
      | EmptyString => [x]
      | String b r2 =>
          let y := byte_of b - 128 in
          if x <? 224 then ((x - 192) * 64 + y) :: chars r2
          else match r2 with
          | EmptyString => [x]
          | String c r3 =>
              let z := byte_of c - 128 in
              if x <? 240 then ((x - 224) * 4096 + y * 64 + z) :: chars r3
              else match r3 with
              | EmptyString => [x]
              | String d r4 =>
                  let w := byte_of d - 128 in
                  ((x - 240) * 262144 + y * 4096 + z * 64 + w) :: chars r4
              end
          end
      end
  end.

Definition byte_char (z : Z) : ascii := ascii_of_N (Z.to_N z).

Definition encode_char (c : Z) (rest : string) : string :=
  if c <? 128 then String (byte_char c) rest
  else if c <? 2048 then
    String (byte_char (192 + c / 64)) (String (byte_char (128 + c mod 64)) rest)
  else if c <? 65536 then
    String (byte_char (224 + c / 4096))
      (String (byte_char (128 + (c / 64) mod 64))
        (String (byte_char (128 + c mod 64)) rest))
  else
    String (byte_char (240 + c / 262144))
      (String (byte_char (128 + (c / 4096) mod 64))
        (String (byte_char (128 + (c / 64) mod 64))
          (String (byte_char (128 + c mod 64)) rest))).

Fixpoint of_chars (l : list Z) : string :=
  match l with
  | [] => EmptyString
  | c :: r => encode_char c (of_chars r)
  end.

(** [char::is_control]: general category Cc. *)
Definition is_control (c : Z) : bool :=
  ((0 <=? c) && (c <=? 31)) || ((127 <=? c) && (c <=? 159)).

(** [char::is_whitespace]: the White_Space property. *)
Definition is_whitespace (c : Z) : bool :=
  ((9 <=? c) && (c <=? 13)) || (c =? 32) || (c =? 133) || (c =? 160)
  || (c =? 5760) || ((8192 <=? c) && (c <=? 8202)) || (c =? 8232) || (c =? 8233)
  || (c =? 8239) || (c =? 8287) || (c =? 12288).

Fixpoint drop_while (p : Z -> bool) (l : list Z) : list Z :=
  match l with
  | [] => []
  | c :: r => if p c then drop_while p r else l
  end.

Definition trim_chars (l : list Z) : list Z :=
  rev (drop_while is_whitespace (rev (drop_while is_whitespace l))).

(** [str::trim]. *)
Definition trim (s : string) : string := of_chars (trim_chars (chars s)).

(** [s.chars().count()] and [s.chars().any(char::is_control)]. *)
Definition char_count (s : string) : Z := llen (chars s).
Definition any_control (s : string) : bool := existsb is_control (chars s).

(** A Unicode code point. *)
Definition is_scalar (c : Z) : Prop := 0 <= c < 1114112.

Lemma byte_of_char z : 0 <= z < 256 -> byte_of (byte_char z) = z.
Proof.
  intros Hz. unfold byte_of, byte_char. rewrite N_ascii_embedding by lia. lia.
Qed.

Lemma chars_encode_char c rest :
  is_scalar c -> chars (encode_char c rest) = c :: chars rest.
Proof.
  unfold is_scalar. intros Hc. unfold encode_char.
  pose proof (Z.div_mod c 64 ltac:(lia)). pose proof (Z.mod_pos_bound c 64).
  pose proof (Z.mod_pos_bound (c / 64) 64). pose proof (Z.mod_pos_bound (c / 4096) 64).
  pose proof (Z.div_mod (c / 64) 64 ltac:(lia)).
  pose proof (Z.div_mod (c / 4096) 64 ltac:(lia)).
  assert (c / 64 / 64 = c / 4096) by (rewrite Z.div_div by lia; done).
  assert (c / 4096 / 64 = c / 262144) by (rewrite Z.div_div by lia; done).
  assert (0 <= c / 262144 < 5) by
    (split; [apply Z.div_pos | apply Z.div_lt_upper_bound]; lia).
  repeat case_match; reflect_bools; cbn [chars]; rewrite !byte_of_char by lia;
    repeat (case_match; reflect_bools; try lia); f_equal; lia.
Qed.

(** Encoding then decoding gives the characters back. *)
Lemma chars_of_chars l : Forall is_scalar l -> chars (of_chars l) = l.
Proof.
  induction 1 as [|c r Hc _ IH]; [done|]. cbn [of_chars].
  by rewrite chars_encode_char, IH.
Qed.

(** ** Slugs *)

Definition is_slug_byte (c : ascii) : bool :=
  is_ascii_alphanumeric c || bool_decide (c = "."%char)
  || bool_decide (c = "_"%char) || bool_decide (c = "-"%char).

Definition first_byte (p : ascii -> bool) (s : string) : bool :=
  match s with EmptyString => false | String c _ => p c end.

Fixpoint last_byte (p : ascii -> bool) (s : string) : bool :=
  match s with
  | EmptyString => false
  | String c EmptyString => p c
  | String _ r => last_byte p r
  end.

(** [template.rs safe_value]. *)
Definition safe_value (value : string) : bool :=
  negb (is_empty_str value) && negb (str_eqb value ".") && negb (str_eqb value "..")
  && str_all is_slug_byte value.

(** [template.rs slug]. *)
Definition slug (value : string) (max : Z) : bool :=
  safe_value value && (slen value <=? max) && first_byte is_ascii_alphanumeric value.

(** [profile.rs routable_slug]. *)
Definition routable_slug (value : string) : bool :=
  (1 <=? slen value) && (slen value <=? 64)
  && first_byte is_ascii_alphanumeric value
  && last_byte is_ascii_alphanumeric value
  && str_all (fun b => is_ascii_alphanumeric b || bool_decide (b = "_"%char)
                       || bool_decide (b = "-"%char)) value.

(** ** Shared facts *)

Lemma str_all_app p a b :
  str_all p (a +:+ b) = str_all p a && str_all p b.
Proof. induction a as [|c r IH]; [done|]. simpl. by rewrite IH, andb_assoc. Qed.

Lemma str_all_impl (p q : ascii -> bool) s :
  (forall c, p c = true -> q c = true) -> str_all p s = true -> str_all q s = true.
Proof.
  intros Hpq. induction s as [|c r IH]; [done|]. simpl.
  rewrite !andb_true_iff. naive_solver.
Qed.

Lemma slug_safe value max : slug value max = true -> str_all is_slug_byte value = true.
Proof. unfold slug, safe_value. intros H. by reflect_bools. Qed.

Lemma slug_not_dots value max :
  slug value max = true -> value <> "." /\ value <> ".." /\ value <> "".
Proof.
  unfold slug, safe_value, str_eqb. intros H. reflect_bools. repeat split; auto.
  by intros ->.
Qed.

Lemma is_slug_byte_not c d :
  is_slug_byte c = true -> is_slug_byte d = false -> c <> d.
Proof. intros Hc Hd ->. congruence. Qed.

(** No slug byte is a separator, a query or fragment mark, an escape or space. *)
Lemma str_contains_slug c s :
  is_slug_byte c = false -> str_all is_slug_byte s = true -> str_contains c s = false.
Proof.
  intros Hc. unfold str_contains, str_any. intros Hs. apply negb_false_iff.
  eapply str_all_impl; [|exact Hs]. intros a Ha. apply negb_true_iff.
  apply bool_decide_eq_false. by eapply is_slug_byte_not.
Qed.

Lemma slug_no_separator value max : slug value max = true -> str_contains "/" value = false.
Proof. intros ?%slug_safe. by apply str_contains_slug. Qed.

#[export] Hint Resolve slug_safe slug_no_separator : rekey.

(** * Further operations of Rust's [str], and decimal numbers

    [split_once], [rsplit_once], [strip_prefix] on strings, ASCII case mapping,
    substring tests, and the printing and parsing of decimal integers that
    [to_string] and [str::parse] perform. All act on UTF-8 bytes, which agrees
    with the [str] versions because every pattern the program uses is ASCII. *)

Create Rewrite HintDb strings.

(** ** Searching and splitting *)

(** [s.strip_prefix(p)] for a string pattern. *)
Fixpoint strip_prefix_str (p s : string) : option string :=
  match p, s with
  | EmptyString, _ => Some s
  | String a p', String b s' => if bool_decide (a = b) then strip_prefix_str p' s' else None
  | String _ _, EmptyString => None
  end.

Definition starts_with_str (p s : string) : bool :=
  match strip_prefix_str p s with Some _ => true | None => false end.

(** [s.contains(p)] for a string pattern. *)
Fixpoint contains_str (p s : string) : bool :=
  starts_with_str p s
  || match s with EmptyString => false | String _ r => contains_str p r end.

(** [s.split_once(p)] for a string pattern, at its first occurrence. *)
Fixpoint split_once_str (p s : string) : option (string * string) :=
  match strip_prefix_str p s with
  | Some rest => Some (EmptyString, rest)
  | None =>
      match s with
      | EmptyString => None
      | String c r =>
          match split_once_str p r with
          | Some (a, b) => Some (String c a, b)
          | None => None
          end
      end
  end.
Definition split_once (c : ascii) (s : string) : option (string * string) :=
  split_once_str (String c EmptyString) s.

(** [s.rsplit_once(c)], at the last occurrence. *)
Fixpoint rsplit_once (c : ascii) (s : string) : option (string * string) :=
  match s with
  | EmptyString => None
  | String a r =>
      match rsplit_once c r with
      | Some (x, y) => Some (String a x, y)
      | None => if bool_decide (a = c) then Some (EmptyString, r) else None
      end
  end.

Lemma string_cons_app (x : ascii) (a b : string) : String x a +:+ b = String x (a +:+ b).
Proof. done. Qed.
Lemma string_nil_app (a : string) : "" +:+ a = a.
Proof. done. Qed.
#[export] Hint Rewrite string_cons_app string_nil_app : strings.
Ltac str_simpl := autorewrite with strings in *; simpl in *.

Lemma string_app_assoc (a b c : string) : (a +:+ b) +:+ c = a +:+ (b +:+ c).
Proof. induction a as [|x a IH]; [done|]. str_simpl. by rewrite IH. Qed.
Lemma string_app_nil (a : string) : a +:+ "" = a.
Proof. induction a as [|x a IH]; [done|]. str_simpl. by rewrite IH. Qed.
Lemma slen_app a b : slen (a +:+ b) = slen a + slen b.
Proof. unfold slen. induction a as [|x a IH]; [done|]. str_simpl. lia. Qed.

Lemma strip_prefix_str_app p s : strip_prefix_str p (p +:+ s) = Some s.
Proof. induction p as [|c p IH]; [done|]. simpl. by rewrite bool_decide_eq_true_2. Qed.

Lemma strip_prefix_str_Some p s r : strip_prefix_str p s = Some r <-> s = p +:+ r.
Proof.
  split; [|intros ->; apply strip_prefix_str_app].
  revert s. induction p as [|c p IH]; intros s; simpl; [by intros; simplify_eq|].
  destruct s as [|d s]; [done|]. case_bool_decide; [|done]. subst. by intros ->%IH.
Qed.

Lemma starts_with_str_spec p s : starts_with_str p s = true <-> exists r, s = p +:+ r.
Proof.
  unfold starts_with_str. destruct (strip_prefix_str p s) as [r|] eqn:E.
  - apply strip_prefix_str_Some in E. naive_solver.
  - split; [done|]. intros [r ->]. by rewrite strip_prefix_str_app in E.
Qed.

(** A substring test is the existence of an occurrence. *)
Lemma contains_str_spec p s : contains_str p s = true <-> exists a b, s = a +:+ (p +:+ b).
Proof.
  induction s as [|c s IH]; cbn [contains_str]; rewrite orb_true_iff, starts_with_str_spec.
  - split.
    + intros [[r Hr]|H]; [by exists "", r|done].
    + intros (a & b & Hb). left. destruct a as [|x a]; [by exists b|by str_simpl].
  - rewrite IH. split.
    + intros [[r Hr]|(a & b & ->)]; [by exists "", r|by exists (String c a), b].
    + intros (a & b & Hb). destruct a as [|x a]; [left; by exists b|right].
      str_simpl. simplify_eq. eauto.
Qed.

Lemma str_contains_spec c s : str_contains c s = true <-> exists a b, s = a +:+ String c b.
Proof.
  unfold str_contains, str_any. rewrite negb_true_iff. induction s as [|x s IH]; simpl.
  - split; [done|]. by intros ([|y a] & b & Hb).
  - case_bool_decide as Hx; simpl.
    + split; [|done]. intros _. exists "", s. by subst.
    + rewrite IH. split.
      * intros (a & b & ->). by exists (String x a), b.
      * intros ([|y a] & b & Hb); str_simpl; simplify_eq. eauto.
Qed.

Lemma str_contains_app c a b : str_contains c (a +:+ b) = str_contains c a || str_contains c b.
Proof.
  unfold str_contains, str_any. rewrite str_all_app. by rewrite negb_andb.
Qed.

Lemma rsplit_once_None c s : str_contains c s = false -> rsplit_once c s = None.
Proof.
  unfold str_contains, str_any. rewrite negb_false_iff.
  induction s as [|x s IH]; simpl; [done|]. case_bool_decide; [done|]. simpl. by intros ->%IH.
Qed.

Lemma rsplit_once_app c a b :
  str_contains c b = false -> rsplit_once c (a +:+ String c b) = Some (a, b).
Proof.
  intros Hb. induction a as [|x a IH]; str_simpl.
  - by rewrite rsplit_once_None, bool_decide_eq_true_2.
  - by rewrite IH.
Qed.

Lemma rsplit_once_absent c s : rsplit_once c s = None -> str_contains c s = false.
Proof.
  unfold str_contains, str_any. rewrite negb_false_iff.
  induction s as [|y s IH]; simpl; [done|].
  destruct (rsplit_once c s) as [[]|]; [done|]. case_bool_decide; [done|]. simpl. auto.
Qed.

Lemma rsplit_once_Some c s a b :
  rsplit_once c s = Some (a, b) -> s = a +:+ String c b /\ str_contains c b = false.
Proof.
  revert a. induction s as [|x s IH]; simpl; [done|]. intros a.
  destruct (rsplit_once c s) as [[a' b']|] eqn:E.
  - intros; simplify_eq. destruct (IH a') as [-> ?]; [done|]. done.
  - case_bool_decide; [|done]. intros; simplify_eq. split; [done|]. by apply rsplit_once_absent.
Qed.

Lemma split_once_str_Some p s a b :
  split_once_str p s = Some (a, b) -> s = a +:+ (p +:+ b).
Proof.
  revert a. induction s as [|c s IH]; intros a; cbn [split_once_str].
  - destruct (strip_prefix_str p "") as [r|] eqn:E; [|done]. intros; simplify_eq.
    by apply strip_prefix_str_Some in E.
  - destruct (strip_prefix_str p (String c s)) as [r|] eqn:E.
    + intros; simplify_eq. by apply strip_prefix_str_Some in E.
    + destruct (split_once_str p s) as [[x y]|]; [|done]. intros; simplify_eq.
      by rewrite (IH x).
Qed.

Lemma split_once_app c a b :
  str_contains c a = false -> split_once c (a +:+ String c b) = Some (a, b).
Proof.
  unfold split_once, str_contains, str_any. rewrite negb_false_iff.
  induction a as [|x a IH]; cbn [split_once_str].
  - intros _. simpl. by rewrite bool_decide_eq_true_2.
  - simpl. case_bool_decide as Hx; [done|]. simpl. intros H.
    rewrite bool_decide_eq_false_2 by congruence. by rewrite IH.
Qed.

(** ** ASCII case *)

Definition ascii_lower (c : ascii) : ascii :=
  if is_ascii_uppercase c then ascii_of_N (N_of_ascii c + 32) else c.
(** [s.to_ascii_lowercase()]. *)
Fixpoint to_ascii_lowercase (s : string) : string :=
  match s with
  | EmptyString => EmptyString
  | String c r => String (ascii_lower c) (to_ascii_lowercase r)
  end.
(** [a.eq_ignore_ascii_case(b)]. *)
Definition eq_ignore_ascii_case (a b : string) : bool :=
  str_eqb (to_ascii_lowercase a) (to_ascii_lowercase b).

Lemma to_ascii_lowercase_id s :
  str_all (fun c => negb (is_ascii_uppercase c)) s = true -> to_ascii_lowercase s = s.
Proof.
  induction s as [|c s IH]; [done|]. simpl. intros H. reflect_bools.
  unfold ascii_lower. rewrite IH by done.
  match goal with E : is_ascii_uppercase _ = false |- _ => by rewrite E end.
Qed.

Lemma to_ascii_lowercase_app a b :
  to_ascii_lowercase (a +:+ b) = to_ascii_lowercase a +:+ to_ascii_lowercase b.
Proof. induction a as [|c a IH]; [done|]. simpl. by rewrite IH. Qed.

(** ** Whitespace in ASCII text *)

Definition is_ascii_byte (c : ascii) : bool := byte_of c <? 128.

Lemma chars_ascii s :
  str_all is_ascii_byte s = true -> chars s = map byte_of (list_ascii_of_string s).
Proof.
  induction s as [|c s IH]; [done|]. cbn [str_all]. unfold is_ascii_byte at 1. intros H.
  apply andb_true_iff in H as [Hc Hs]. cbn [chars]. by rewrite Hc, IH.
Qed.

Lemma byte_of_nonneg c : 0 <= byte_of c.
Proof. unfold byte_of. lia. Qed.

Lemma of_chars_ascii s :
  str_all is_ascii_byte s = true -> of_chars (map byte_of (list_ascii_of_string s)) = s.
Proof.
  induction s as [|c s IH]; [done|]. cbn [str_all]. unfold is_ascii_byte at 1. intros H.
  apply andb_true_iff in H as [Hc Hs]. cbn. unfold encode_char. rewrite Hc, IH by done.
  f_equal. unfold byte_char, byte_of. rewrite N2Z.id. apply ascii_N_embedding.
Qed.

Lemma drop_while_none p l : Forall (fun c => p c = false) l -> drop_while p l = l.
Proof. destruct 1 as [|c l H]; [done|]. simpl. by rewrite H. Qed.

(** Trimming changes nothing in ASCII text without whitespace. *)
Lemma trim_id s :
  str_all (fun c => is_ascii_byte c && negb (is_whitespace (byte_of c))) s = true -> trim s = s.
Proof.
  intros H. assert (Ha : str_all is_ascii_byte s = true)
    by (eapply str_all_impl; [|exact H]; intros c E; by apply andb_true_iff in E as [? _]).
  unfold trim, trim_chars. rewrite (chars_ascii s Ha).
  assert (Hw : Forall (fun c => is_whitespace c = false) (map byte_of (list_ascii_of_string s))).
  { apply str_all_spec in H. rewrite Forall_fmap. eapply Forall_impl; [exact H|].
    intros c E. cbn in *. by reflect_bools. }
  rewrite (drop_while_none _ _ Hw), drop_while_none, rev_involutive by (by apply Forall_rev).
  by apply of_chars_ascii.
Qed.

(** ** Decimal integers *)

Definition digit_char (d : Z) : ascii := byte_char (48 + d).
Definition digit_value (c : ascii) : Z := byte_of c - 48.

(** [n.to_string()] of a non-negative integer; 40 digits cover every width. *)
Fixpoint dec_digits (fuel : nat) (n : Z) (acc : string) : string :=
  let acc' := String (digit_char (n mod 10)) acc in
  match fuel with
  | O => acc'
  | S f => if n / 10 =? 0 then acc' else dec_digits f (n / 10) acc'
  end.
Definition dec (n : Z) : string := dec_digits 40 n EmptyString.
(** [n.to_string()] of a signed integer. *)
Definition dec_signed (n : Z) : string :=
  if n <? 0 then String "-" (dec (- n)) else dec n.

(** The value of a digit string, [None] unless it is digits only. *)
Fixpoint digits_value (acc : Z) (s : string) : option Z :=
  match s with
  | EmptyString => Some acc
  | String c r => if is_ascii_digit c then digits_value (acc * 10 + digit_value c) r else None
  end.

(** [s.parse()] for an unsigned type: an optional [+], digits, no overflow. *)
Definition parse_unsigned (max : Z) (s : string) : option Z :=
  let digits := match strip_prefix "+" s with Some r => r | None => s end in
  if is_empty_str digits then None
  else match digits_value 0 digits with
       | Some v => if v <=? max then Some v else None
       | None => None
       end.

(** [s.parse::<i64>()]. *)
Definition parse_i64 (s : string) : option Z :=
  match strip_prefix "-" s with
  | Some digits =>
      if is_empty_str digits then None
      else match digits_value 0 digits with
           | Some v => if i64_min <=? - v then Some (- v) else None
           | None => None
           end
  | None => parse_unsigned i64_max s
  end.

Lemma digit_char_digit d : 0 <= d < 10 -> is_ascii_digit (digit_char d) = true.
Proof.
  intros Hd. unfold is_ascii_digit, in_range, digit_char. rewrite byte_of_char by lia. lia.
Qed.
Lemma digit_value_char d : 0 <= d < 10 -> digit_value (digit_char d) = d.
Proof. intros Hd. unfold digit_value, digit_char. rewrite byte_of_char by lia. lia. Qed.

(** Printed digits are digits, are not empty, and read back to the number. *)
Lemma dec_digits_spec f n acc v :
  0 <= n < 10 ^ (Z.of_nat f + 1) ->
  digits_value v (dec_digits f n acc) =
    digits_value (v * 10 ^ (slen (dec_digits f n acc) - slen acc) + n) acc
  /\ slen acc < slen (dec_digits f n acc)
  /\ (str_all is_ascii_digit acc = true -> str_all is_ascii_digit (dec_digits f n acc) = true).
Proof.
  revert n acc v. induction f as [|f IH]; intros n acc v Hn; cbn [dec_digits].
  - change (Z.of_nat 0 + 1) with 1 in Hn. rewrite Z.pow_1_r in Hn.
    rewrite Z.mod_small by lia. cbn [digits_value str_all].
    rewrite digit_char_digit, digit_value_char by lia.
    replace (slen (String (digit_char n) acc) - slen acc) with 1 by (unfold slen; cbn; lia).
    rewrite Z.pow_1_r. split; [done|]. split; [unfold slen; cbn; lia|done].
  - pose proof (Z.mod_pos_bound n 10 ltac:(lia)) as Hm. pose proof (Z.div_mod n 10 ltac:(lia)) as Hd.
    set (acc' := String (digit_char (n mod 10)) acc).
    assert (Hlen : slen acc' = slen acc + 1) by (unfold acc', slen; cbn; lia).
    assert (Hall : str_all is_ascii_digit acc = true -> str_all is_ascii_digit acc' = true)
      by (intros E; unfold acc'; cbn [str_all]; by rewrite digit_char_digit, E by lia).
    assert (Hstep : forall u, digits_value u acc' = digits_value (u * 10 + n mod 10) acc)
      by (intros u; unfold acc'; cbn [digits_value];
          by rewrite digit_char_digit, digit_value_char by lia).
    destruct (n / 10 =? 0) eqn:E; reflect_bools.
    + rewrite Hstep. replace (slen acc' - slen acc) with 1 by lia. rewrite Z.pow_1_r.
      split; [f_equal; lia|]. split; [lia|done].
    + assert (Hn' : 0 <= n / 10 < 10 ^ (Z.of_nat f + 1)).
      { split; [apply Z.div_pos; lia|]. apply Z.div_lt_upper_bound; [lia|].
        replace (Z.of_nat (S f) + 1) with (1 + (Z.of_nat f + 1)) in Hn by lia.
        rewrite Z.pow_add_r in Hn by lia. rewrite Z.pow_1_r in Hn. lia. }
      destruct (IH (n / 10) acc' v Hn') as (I1 & I2 & I3).
      split; [|split; [lia|auto]]. rewrite I1, Hstep. f_equal.
      replace (slen (dec_digits f (n / 10) acc') - slen acc) with
        (slen (dec_digits f (n / 10) acc') - slen acc' + 1) by lia.
      rewrite Z.pow_add_r, Z.pow_1_r by lia. lia.
Qed.

Lemma dec_spec n :
  0 <= n < 10 ^ 41 ->
  digits_value 0 (dec n) = Some n /\ str_all is_ascii_digit (dec n) = true /\ dec n <> "".
Proof.
  intros Hn. unfold dec. destruct (dec_digits_spec 40 n "" 0 Hn) as (H1 & H2 & H3).
  rewrite H1. cbn [digits_value]. split; [f_equal; lia|]. split; [by apply H3|].
  intros E. rewrite E in H2. by cbn in H2.
Qed.

Lemma digits_no_char c s :
  is_ascii_digit c = false -> str_all is_ascii_digit s = true -> str_contains c s = false.
Proof.
  intros Hc Hs. unfold str_contains, str_any. apply negb_false_iff.
  eapply str_all_impl; [|exact Hs]. intros a Ha. apply negb_true_iff, bool_decide_eq_false.
  intros ->. congruence.
Qed.

Lemma strip_prefix_digits c s :
  is_ascii_digit c = false -> str_all is_ascii_digit s = true -> strip_prefix c s = None.
Proof.
  intros Hc Hs. destruct s as [|d s]; [done|]. simpl in *. reflect_bools.
  rewrite bool_decide_eq_false_2; [done|]. intros ->. congruence.
Qed.

(** Printing then parsing an unsigned integer gives it back. *)
Lemma parse_unsigned_dec max n :
  0 <= n <= max -> max < 10 ^ 41 -> parse_unsigned max (dec n) = Some n.
Proof.
  intros Hn Hmax. destruct (dec_spec n ltac:(lia)) as (H1 & H2 & H3). unfold parse_unsigned.
  rewrite strip_prefix_digits by done.
  destruct (dec n) as [|c r] eqn:E; [done|]. cbn [is_empty_str].
  rewrite H1. by replace (n <=? max) with true by lia.
Qed.

Lemma parse_unsigned_range max s n : parse_unsigned max s = Some n -> n <= max.
Proof. unfold parse_unsigned. intros H. by walk H. Qed.

Lemma digits_value_nonneg acc s n : 0 <= acc -> digits_value acc s = Some n -> 0 <= n.
Proof.
  revert acc. induction s as [|c s IH]; intros acc Ha; simpl; [intros; by simplify_eq|].
  destruct (is_ascii_digit c) eqn:E; [|done]. apply IH.
  unfold is_ascii_digit, in_range, digit_value in *. reflect_bools. lia.
Qed.

Lemma parse_unsigned_nonneg max s n : parse_unsigned max s = Some n -> 0 <= n.
Proof.
  unfold parse_unsigned. intros H. walk H;
  match goal with E : digits_value _ _ = Some _ |- _ => by eapply digits_value_nonneg in E end.
Qed.

Lemma parse_i64_dec_signed n : in_i64 n -> parse_i64 (dec_signed n) = Some n.
Proof.
  unfold in_i64, i64_min, i64_max. intros Hn. unfold parse_i64, dec_signed.
  destruct (n <? 0) eqn:E; reflect_bools.
  - destruct (dec_spec (- n) ltac:(lia)) as (H1 & H2 & H3). cbn [strip_prefix].
    rewrite bool_decide_eq_true_2 by done.
    destruct (dec (- n)) as [|c r]; [done|]. cbn [is_empty_str]. rewrite H1. unfold i64_min.
    replace (- 2 ^ 63 <=? - - n) with true by lia. f_equal. lia.
  - destruct (dec_spec n ltac:(lia)) as (_ & H2 & _).
    rewrite strip_prefix_digits by done. apply parse_unsigned_dec; unfold i64_max; lia.
Qed.

(** Splitting at the first occurrence of a two-byte pattern. *)
Lemma split_once_str_app c p a b :
  str_contains c a = false -> split_once_str (String c p) (a +:+ (String c p +:+ b)) = Some (a, b).
Proof.
  unfold str_contains, str_any. rewrite negb_false_iff.
  induction a as [|x a IH]; intros Ha.
  - rewrite string_nil_app. pose proof (strip_prefix_str_app (String c p) b) as E.
    rewrite string_cons_app in *. cbn [split_once_str]. by rewrite E.
  - cbn [str_all] in Ha. reflect_bools. rewrite (string_cons_app x). cbn [split_once_str].
    cbn [strip_prefix_str]. rewrite bool_decide_eq_false_2 by congruence. by rewrite IH.
Qed.

(** Pieces without the separator are recovered from their join. *)
Lemma split_on_absent sep s : str_contains sep s = false -> split_on sep s = [s].
Proof.
  unfold str_contains, str_any. rewrite negb_false_iff. induction s as [|c s IH]; [done|].
  cbn. intros H. reflect_bools. rewrite bool_decide_eq_false_2 by done. by rewrite IH.
Qed.
Lemma split_on_app sep a b :
  str_contains sep a = false -> split_on sep (a +:+ String sep b) = a :: split_on sep b.
Proof.
  unfold str_contains, str_any. rewrite negb_false_iff. induction a as [|c a IH]; intros H.
  - rewrite string_nil_app. cbn [split_on]. by rewrite bool_decide_eq_true_2.
  - cbn in H. reflect_bools. rewrite string_cons_app. cbn [split_on].
    rewrite bool_decide_eq_false_2 by done. by rewrite IH.
Qed.
Lemma split_on_join sep l :
  l <> [] -> Forall (fun s => str_contains sep s = false) l -> split_on sep (join sep l) = l.
Proof.
  intros Hne HF. unfold join. induction HF as [|s l Hs HF IH]; [done|]. cbn.
  destruct l as [|s' l]; [by apply split_on_absent|].
  change (String sep "" +:+ String.concat (String sep "") (s' :: l)) with
    (String sep (String.concat (String sep "") (s' :: l))).
  rewrite split_on_app by done. by rewrite IH.
Qed.
Lemma split_on_pieces sep s : Forall (fun x => str_contains sep x = false) (split_on sep s).
Proof.
  induction s as [|c s IH]; cbn; [by repeat constructor|].
  case_bool_decide as Hc; [by constructor|].
  destruct (split_on sep s) as [|h t]; [|inversion_clear IH];
    constructor; try done; unfold str_contains, str_any in *; cbn; try done;
    rewrite ?bool_decide_eq_false_2 by done; cbn; rewrite ?negb_false_iff in *; done.
Qed.

Lemma parse_i64_range s n : parse_i64 s = Some n -> in_i64 n.
Proof.
  unfold parse_i64, in_i64. intros H. destruct (strip_prefix "-" s) as [d|].
  - destruct (is_empty_str d); [done|]. destruct (digits_value 0 d) as [v|] eqn:E; [|done].
    destruct (_ <=? _) eqn:L; [|done]. simplify_eq. apply digits_value_nonneg in E; [|lia].
    unfold i64_min, i64_max in *. lia.
  - pose proof (parse_unsigned_range _ _ _ H). pose proof (parse_unsigned_nonneg _ _ _ H).
    unfold i64_min in *. lia.
Qed.

(** ** Maps keyed by strings

    A [BTreeMap<String, A>] is the list of its pairs in iteration order, which is
    ascending by key; its keys are distinct. *)

(** [BTreeMap::get] and [contains_key]. *)
Definition map_get {A} (k : string) (l : list (string * A)) : option A :=
  find_map (fun '(k', v) => if str_eqb k' k then Some v else None) l.
Definition contains_key {A} (k : string) (l : list (string * A)) : bool :=
  match map_get k l with Some _ => true | None => false end.
Definition keys {A} (l : list (string * A)) : list string := map fst l.

Lemma map_get_Some {A} k (l : list (string * A)) v : map_get k l = Some v -> (k, v) ∈ l.
Proof.
  unfold map_get, str_eqb. induction l as [|[k' v'] l IH]; cbn; [done|].
  case_bool_decide as Hk; [intros; simplify_eq; left|]. intros H. right. auto.
Qed.
Lemma map_get_None {A} k (l : list (string * A)) : map_get k l = None <-> k ∉ keys l.
Proof.
  unfold map_get, keys, str_eqb. induction l as [|[k' v'] l IH]; cbn.
  - split; [intros _; apply not_elem_of_nil|done].
  - rewrite not_elem_of_cons, <- IH. case_bool_decide; naive_solver.
Qed.
Lemma map_get_NoDup {A} k (l : list (string * A)) v :
  NoDup (keys l) -> (k, v) ∈ l -> map_get k l = Some v.
Proof.
  unfold map_get, str_eqb, keys. induction l as [|[k' v'] l IH]; cbn; [by intros _ ?%elem_of_nil|].
  intros [Hn Hd]%NoDup_cons [?|Hin]%elem_of_cons; simplify_eq.
  - by rewrite bool_decide_eq_true_2.
  - rewrite bool_decide_eq_false_2; [auto|]. intros ->. apply Hn.
    by apply (list_elem_of_fmap_2 fst) in Hin.
Qed.
Lemma contains_key_spec {A} k (l : list (string * A)) : contains_key k l = true <-> k ∈ keys l.
Proof.
  unfold contains_key. destruct (map_get k l) eqn:E.
  - split; [intros _|done]. apply map_get_Some in E. by apply (list_elem_of_fmap_2 fst) in E.
  - apply map_get_None in E. done.
Qed.
