(* ===== verification/Bytes.v ===== *)
(** * Bytes: byte strings, sub-slices and UTF-8

    A byte string is a [list Z] of bytes. [std::str::from_utf8] and
    [str::is_char_boundary], the byte classes of [u8], lexicographic order,
    and occurrence of one byte string in another. *)

From S2P Require Import Prelude Strings.

(** ** Byte classes *)

Definition is_digit_b (b : Z) : bool := (48 <=? b) && (b <=? 57).
Definition is_alphanumeric_b (b : Z) : bool :=
  is_digit_b b || ((65 <=? b) && (b <=? 90)) || ((97 <=? b) && (b <=? 122)).
(** [(b as char).to_digit(16)], [is_ascii_hexdigit], [to_ascii_lowercase]. *)
Definition to_digit_16 (b : Z) : option Z :=
  if is_digit_b b then Some (b - 48)
  else if (65 <=? b) && (b <=? 70) then Some (b - 55)
  else if (97 <=? b) && (b <=? 102) then Some (b - 87)
  else None.
Definition is_hexdigit (b : Z) : bool :=
  match to_digit_16 b with Some _ => true | None => false end.
Definition lowercase_b (b : Z) : Z := if (65 <=? b) && (b <=? 90) then b + 32 else b.

(** ** UTF-8 *)

(** [std::str::from_utf8] succeeds: well-formed byte sequences of Unicode's
    table 3-7. *)
Definition continuation (b : Z) : bool := (128 <=? b) && (b <=? 191).
Definition second_byte (a b : Z) : bool :=
  if a =? 224 then (160 <=? b) && (b <=? 191)
  else if a =? 237 then (128 <=? b) && (b <=? 159)
  else if a =? 240 then (144 <=? b) && (b <=? 191)
  else if a =? 244 then (128 <=? b) && (b <=? 143)
  else continuation b.
Fixpoint utf8_valid (l : list Z) : bool :=
  match l with
  | [] => true
  | a :: r =>
      if a <=? 127 then utf8_valid r
      else match r with
      | [] => false
      | b :: r =>
          if (194 <=? a) && (a <=? 223) then continuation b && utf8_valid r
          else match r with
          | [] => false
          | c :: r =>
              if (224 <=? a) && (a <=? 239)
              then second_byte a b && continuation c && utf8_valid r
              else match r with
              | [] => false
              | d :: r =>
                  (240 <=? a) && (a <=? 244) && second_byte a b && continuation c
                  && continuation d && utf8_valid r
              end
          end
      end
  end.

(** [is_char_boundary] of valid text. *)
Definition is_char_boundary (text : list Z) (i : Z) : bool :=
  (i =? 0) || (i =? llen text)
  || match text !! Z.to_nat i with
     | Some b => (i <? llen text) && negb (continuation b)
     | None => false
     end.

(** ** Order *)

Fixpoint compare_bytes (a b : list Z) : comparison :=
  match a, b with
  | [], [] => Eq
  | [], _ => Lt
  | _, [] => Gt
  | x :: a, y :: b => match x ?= y with Eq => compare_bytes a b | c => c end
  end.

(** [sort_unstable_by] and [dedup_by]. *)
Fixpoint insert_bytes (x : list Z) (l : list (list Z)) : list (list Z) :=
  match l with
  | [] => [x]
  | y :: r => match compare_bytes x y with Gt => y :: insert_bytes x r | _ => x :: l end
  end.
Definition sort_bytes (l : list (list Z)) : list (list Z) := fold_right insert_bytes [] l.
Fixpoint dedup_bytes (l : list (list Z)) : list (list Z) :=
  match l with
  | x :: (y :: _) as r => if bool_decide (x = y) then dedup_bytes r else x :: dedup_bytes r
  | _ => l
  end.

Lemma insert_bytes_elem x l y : y ∈ insert_bytes x l <-> y = x \/ y ∈ l.
Proof.
  induction l as [|z l IH]; cbn; [set_solver|].
  destruct (compare_bytes x z); rewrite !elem_of_cons, ?IH; tauto.
Qed.
Lemma sort_bytes_elem l y : y ∈ sort_bytes l <-> y ∈ l.
Proof. induction l as [|x l IH]; [done|]. cbn. by rewrite insert_bytes_elem, IH, elem_of_cons. Qed.
Lemma dedup_bytes_elem l y : y ∈ dedup_bytes l <-> y ∈ l.
Proof.
  induction l as [|x l IH]; [done|]. destruct l as [|z l]; [done|].
  cbn [dedup_bytes] in *. case_bool_decide as E; [|by rewrite elem_of_cons, IH, <- elem_of_cons].
  rewrite IH, !elem_of_cons. subst. tauto.
Qed.

(** ** Occurrence *)

(** [n] occurs in [h] at offset [i]. *)
Definition occurs_at (n h : list Z) (i : nat) : Prop := exists post, drop i h = n ++ post.
Definition occurs (n h : list Z) : Prop := exists pre post, h = pre ++ n ++ post.

Lemma occurs_at_occurs n h i : occurs_at n h i -> occurs n h.
Proof. intros [post E]. exists (take i h), post. by rewrite <- E, take_drop. Qed.
Lemma occurs_exists n h : occurs n h -> exists i, (i <= length h)%nat /\ occurs_at n h i.
Proof.
  intros (pre & post & ->). exists (length pre). split; [rewrite length_app; lia|].
  exists post. by rewrite drop_app_length.
Qed.
Lemma occurs_app n pre h post : occurs n h -> occurs n (pre ++ h ++ post).
Proof.
  intros (a & b & ->). exists (pre ++ a), (b ++ post). by rewrite <- !app_assoc.
Qed.
(** An occurrence that ends within a prefix is one of the prefix. *)
Lemma occurs_at_take n h i k :
  occurs_at n h i -> (i + length n <= k)%nat -> occurs_at n (take k h) i.
Proof.
  intros [post E] Hk. exists (take (k - i - length n) post).
  rewrite skipn_firstn_comm, E, firstn_app, firstn_all2 by lia. done.
Qed.
Lemma occurs_at_drop n h i k : occurs_at n h i -> (k <= i)%nat -> occurs_at n (drop k h) (i - k).
Proof. intros [post E] Hk. exists post. rewrite drop_drop. by replace (k + (i - k))%nat with i by lia. Qed.
Lemma occurs_at_length n h i : occurs_at n h i -> n <> [] -> (i + length n <= length h)%nat.
Proof.
  intros [post E] Hn. apply (f_equal length) in E. rewrite length_drop, length_app in E.
  destruct n; [done|]. cbn in *. lia.
Qed.

(** [windows(n.len()).position(|w| w == n)], the offset of the first occurrence. *)
Definition starts_with_bytes (n h : list Z) : bool := bool_decide (take (length n) h = n).
Fixpoint find_bytes (n h : list Z) : option nat :=
  if starts_with_bytes n h then Some O
  else match h with [] => None | _ :: r => S <$> find_bytes n r end.
Lemma find_bytes_spec n h : is_Some (find_bytes n h) <-> occurs n h.
Proof.
  unfold starts_with_bytes. induction h as [|b h IH]; cbn; unfold starts_with_bytes; case_bool_decide as E.
  - split; [|done]. intros _. exists [], []. rewrite app_nil_r. rewrite <- E. by rewrite take_nil.
  - split; [by intros []|]. intros (pre & post & H). destruct E.
    symmetry in H. apply app_eq_nil in H as [_ H]. apply app_eq_nil in H as [-> _]. done.
  - split; [|done]. intros _. exists [], (drop (length n) (b :: h)). cbn [app].
    rewrite <- E at 1. by rewrite take_drop.
  - rewrite fmap_is_Some, IH. split.
    + intros (pre & post & ->). by exists (b :: pre), post.
    + intros (pre & post & H). destruct pre as [|x pre]; [|injection H as _ ->; by exists pre, post].
      destruct E. cbn [app] in H. rewrite H. by rewrite take_app_length.
Qed.

(** * The characters of a valid byte string

    Structural facts about [str]: valid UTF-8 is a sequence of characters of one to
    four bytes ([utf8_text], an induction principle), cutting it at a boundary
    leaves valid text on both sides, and a boundary is never more than three bytes
    back. *)

(** One character: its bytes after the first are continuation bytes and validity
    of what follows does not depend on it. *)
Record utf8_char (c : list Z) : Prop := {
  char_width : (1 <= length c <= 4)%nat;
  char_head : exists b r, c = b :: r /\ continuation b = false /\
              Forall (fun x => continuation x = true) r;
  char_valid r : utf8_valid (c ++ r) = utf8_valid r;
}.
Inductive utf8_text : list Z -> Prop :=
  | text_nil : utf8_text []
  | text_cons c r : utf8_char c -> utf8_text r -> utf8_text (c ++ r).

Lemma continuation_low b : b <= 127 -> continuation b = false.
Proof. intros H. unfold continuation. replace (128 <=? b) with false by (symmetry; apply Z.leb_gt; lia). done. Qed.
Lemma continuation_high b : 192 <= b -> continuation b = false.
Proof.
  intros H. unfold continuation. replace (b <=? 191) with false by (symmetry; apply Z.leb_gt; lia).
  by rewrite andb_false_r.
Qed.
Lemma second_byte_continuation a b : second_byte a b = true -> continuation b = true.
Proof.
  unfold second_byte, continuation. intros H.
  repeat case_match; reflect_bools; apply andb_true_iff; rewrite !Z.leb_le; lia.
Qed.

Ltac leb_decide :=
  repeat match goal with
  | H : (?a <=? ?b) = true |- _ => apply Z.leb_le in H
  | H : (?a <=? ?b) = false |- _ => apply Z.leb_gt in H
  end.

Lemma char_1 a : a <= 127 -> utf8_char [a].
Proof.
  intros Ha. split; [cbn; lia| |].
  - exists a, []. split; [done|]. split; [by apply continuation_low|constructor].
  - intros r. cbn [app utf8_valid]. by replace (a <=? 127) with true by (symmetry; by apply Z.leb_le).
Qed.
Lemma char_2 a b : (194 <=? a) && (a <=? 223) = true -> continuation b = true -> utf8_char [a; b].
Proof.
  intros Ha Hb. pose proof Ha as [Hlo Hhi]%andb_true_iff. leb_decide. split; [cbn; lia| |].
  - exists a, [b]. split; [done|]. split; [apply continuation_high; lia|by repeat constructor].
  - intros r. cbn [app utf8_valid]. replace (a <=? 127) with false by (symmetry; apply Z.leb_gt; lia).
    by rewrite Ha, Hb.
Qed.
Lemma char_3 a b c :
  (224 <=? a) && (a <=? 239) = true -> second_byte a b = true -> continuation c = true ->
  utf8_char [a; b; c].
Proof.
  intros Ha Hb Hc. pose proof Ha as [Hlo Hhi]%andb_true_iff. leb_decide. split; [cbn; lia| |].
  - exists a, [b; c]. split; [done|]. split; [apply continuation_high; lia|].
    repeat constructor; [by eapply second_byte_continuation|done].
  - intros r. cbn [app utf8_valid]. replace (a <=? 127) with false by (symmetry; apply Z.leb_gt; lia).
    replace (a <=? 223) with false by (symmetry; apply Z.leb_gt; lia).
    by rewrite andb_false_r, Ha, Hb, Hc.
Qed.
Lemma char_4 a b c d :
  (240 <=? a) && (a <=? 244) = true -> second_byte a b = true -> continuation c = true ->
  continuation d = true -> utf8_char [a; b; c; d].
Proof.
  intros Ha Hb Hc Hd. pose proof Ha as [Hlo Hhi]%andb_true_iff. leb_decide. split; [cbn; lia| |].
  - exists a, [b; c; d]. split; [done|]. split; [apply continuation_high; lia|].
    repeat constructor; [by eapply second_byte_continuation|done|done].
  - intros r. cbn [app utf8_valid]. replace (a <=? 127) with false by (symmetry; apply Z.leb_gt; lia).
    replace (a <=? 223) with false by (symmetry; apply Z.leb_gt; lia).
    replace (a <=? 239) with false by (symmetry; apply Z.leb_gt; lia).
    by rewrite !andb_false_r, Ha, Hb, Hc, Hd.
Qed.

Lemma utf8_text_of l : utf8_valid l = true -> utf8_text l.
Proof.
  remember (length l) as n eqn:Hn. revert l Hn.
  induction n as [n IH] using lt_wf_ind. intros l -> H.
  assert (Hrec : forall c r, l = c ++ r -> utf8_char c -> utf8_text l).
  { intros c r -> Hc. apply text_cons; [done|]. rewrite (char_valid _ Hc) in H.
    destruct Hc as [? _ _]. eapply IH; [|done|done]. rewrite length_app. lia. }
  destruct l as [|a r]; [constructor|]. cbn [utf8_valid] in H.
  destruct (a <=? 127) eqn:E1; [leb_decide; eapply (Hrec [a] r); [done|by apply char_1]|].
  destruct r as [|b r]; [done|]. destruct ((194 <=? a) && (a <=? 223)) eqn:E2.
  { apply andb_true_iff in H as [Hb _]. eapply (Hrec [a; b] r); [done|by apply char_2]. }
  destruct r as [|c r]; [done|]. destruct ((224 <=? a) && (a <=? 239)) eqn:E3.
  { apply andb_true_iff in H as [[Hb Hc]%andb_true_iff _]. eapply (Hrec [a; b; c] r); [done|by apply char_3]. }
  destruct r as [|d r]; [done|]. repeat (apply andb_true_iff in H as [H ?]).
  eapply (Hrec [a; b; c; d] r); [done|]. apply char_4; try done. by apply andb_true_iff.
Qed.
Lemma utf8_text_valid l : utf8_text l -> utf8_valid l = true.
Proof. induction 1 as [|c r Hc _ IH]; [done|]. by rewrite (char_valid _ Hc). Qed.

(** ** Boundaries *)

Definition boundary (l : list Z) (i : nat) : Prop := is_char_boundary l (Z.of_nat i) = true.

Lemma boundary_spec l i :
  boundary l i <->
  i = O \/ i = length l \/ (exists b, l !! i = Some b /\ continuation b = false).
Proof.
  unfold boundary, is_char_boundary, llen. rewrite !orb_true_iff, !Z.eqb_eq, Nat2Z.id. split.
  - intros [[H|H]|H]; [left; lia|right; left; lia|]. right. right.
    destruct (l !! i) as [b|]; [|done]. exists b. reflect_bools. done.
  - intros [->|[->|(b & E & Hb)]]; [auto|auto|]. right. rewrite E, Hb.
    apply lookup_lt_Some in E. rewrite andb_true_r. apply Z.ltb_lt. lia.
Qed.
Lemma boundary_0 l : boundary l 0.
Proof. apply boundary_spec. auto. Qed.
Lemma boundary_end l : boundary l (length l).
Proof. apply boundary_spec. auto. Qed.
Lemma boundary_le l i : boundary l i -> (i <= length l)%nat.
Proof. intros [->|[->|(b & E & _)]]%boundary_spec; [lia|lia|]. apply lookup_lt_Some in E. lia. Qed.
(** A boundary strictly inside stays one when bytes are appended. *)
Lemma boundary_app l r i : boundary l i -> (i < length l \/ i = 0)%nat -> boundary (l ++ r) i.
Proof.
  intros [->|[->|(b & E & Hb)]]%boundary_spec Hi; apply boundary_spec; [by left|left; lia|].
  right. right. exists b. split; [by apply lookup_app_l_Some|done].
Qed.

Lemma text_head r b l : utf8_text r -> r = b :: l -> continuation b = false.
Proof. intros Hr E. destruct Hr as [|c r [_ (b' & r' & -> & Hb & _) _] _]; [done|]. by simplify_eq/=. Qed.

Lemma char_cut c r i :
  utf8_char c -> utf8_text r ->
  boundary (c ++ r) i <-> i = O \/ ((length c <= i)%nat /\ boundary r (i - length c)).
Proof.
  intros [_ (b & t & -> & Hb & Ht) _] Hr. rewrite !boundary_spec, length_app. split.
  - intros [->|[->|(x & E & Hx)]]; [by left|right|].
    + split; [lia|]. right. left. lia.
    + destruct (decide (i < length (b :: t))%nat) as [Hi|Hi].
      * rewrite lookup_app_l in E by done. destruct i as [|i]; [by left|]. cbn in E.
        rewrite Forall_lookup in Ht. rewrite (Ht _ _ E) in Hx. done.
      * right. split; [lia|]. rewrite lookup_app_r in E by lia. right. right. by exists x.
  - intros [->|[Hi [H|[H|(x & E & Hx)]]]]; [by left| | |].
    + assert (i = length (b :: t)) as -> by lia. destruct r as [|y r]; [right; left; cbn; lia|].
      right. right. exists y. split; [|by eapply text_head].
      rewrite lookup_app_r by lia. by rewrite Nat.sub_diag.
    + right. left. lia.
    + right. right. exists x. by rewrite lookup_app_r.
Qed.

(** Text cut at a boundary. *)
Lemma utf8_cut l i :
  utf8_text l -> boundary l i -> utf8_text (take i l) /\ utf8_text (drop i l).
Proof.
  intros Hl. revert i. induction Hl as [|c r Hc Hr IH]; intros i Hi.
  - rewrite take_nil, drop_nil. split; constructor.
  - apply char_cut in Hi as [->|[Hle Hi]]; [split; [constructor|by apply text_cons]| |done|done].
    apply IH in Hi as [H1 H2]. rewrite take_app, drop_app, (take_ge c), (drop_ge c) by done.
    split; [by apply text_cons|done].
Qed.
Lemma utf8_text_app l r : utf8_text l -> utf8_text r -> utf8_text (l ++ r).
Proof. induction 1 as [|c l Hc _ IH]; [done|]. intros Hr. rewrite <- app_assoc. apply text_cons; auto. Qed.
(** Boundaries of what follows a boundary. *)
Lemma boundary_drop l i k :
  boundary l i -> (k <= i)%nat -> boundary (drop k l) (i - k).
Proof.
  intros [->|[->|(b & E & Hb)]]%boundary_spec Hk; apply boundary_spec.
  - left. lia.
  - right. left. by rewrite length_drop.
  - right. right. exists b. split; [|done]. rewrite lookup_drop. by replace (k + (i - k))%nat with i by lia.
Qed.

(** A boundary is at most three bytes back. *)
Lemma boundary_near l i :
  utf8_text l -> (i <= length l)%nat -> exists j, (j <= i < j + 4)%nat /\ boundary l j.
Proof.
  intros Hl. revert i. induction Hl as [|c r Hc Hr IH]; intros i Hi.
  - exists O. cbn in Hi. split; [lia|apply boundary_0].
  - rewrite length_app in Hi. pose proof (char_width _ Hc).
    destruct (decide (i < length c)%nat).
    + exists O. split; [lia|apply boundary_0].
    + destruct (IH (i - length c)%nat) as (j & Hj & Hb); [lia|]. exists (length c + j)%nat.
      split; [lia|]. apply char_cut; [done|done|]. right. split; [lia|].
      by replace (length c + j - length c)%nat with j by lia.
Qed.
