(* ===== verification/Errors.v ===== *)
(** * Errors: the typed errors of every crate and what an agent sees of them

    [DomainError] (rekey-domain), [FrameError] (rekey-domain ipc), [PolicyError]
    (rekey-policy), [AuthorityError] (rekey-vault) and [BrokerError]
    (rekey-broker), with the stable codes of the IPC error envelope. A source
    error payload that is an opaque foreign value (an IO or storage error) is
    dropped; text payloads are kept. *)

From S2P Require Import Prelude.

Inductive DomainError : Type :=
  | InvalidId
  | InvalidCredentialLabel
  | InvalidActionDefinition (reason : string)
  | InvalidCapability
  | InvalidAuthorization (reason : string)
  | InvalidAuditQuery (reason : string)
  | InvalidLaunchPlan (reason : string)
  | CapabilityExpired
  | CapabilityExhausted
  | ActionNotAllowed
  | CredentialRevoked
  | ActionDisabled
  | RequestTooLarge
  | ResponseTooLarge.

Inductive FrameError : Type :=
  | BadMagic
  | UnsupportedVersion
  | UnknownChannel
  | NonZeroReserved
  | SectionTooLarge
  | Truncated
  | InvalidField.

Inductive PolicyError : Type :=
  | PolicyMalformed
  | NotConfigured
  | PolicyTooLarge
  | UnsupportedFormat
  | PolicyExpired
  | PolicyInvalid
  | InvalidParameters
  | InvalidSignature.

Module Authority.
Inductive AuthorityError : Type :=
  | RollbackSuspected | NotInitialized | AlreadyInitialized
  | StateDirectoryNotEmpty | Locked | Draining | Faulted
  | InvalidUnlockCredential | UnlockRateLimited | EntropyUnavailable
  | ClockUnavailable | CryptoFailure | AuthenticationFailed
  | StorageUnavailable | StorageIntegrityFailed | UnsupportedVaultLayout
  | UnsupportedFormatVersion | InsecureStatePermissions | CredentialNotFound
  | CredentialSourceUnavailable | CredentialConflict | CredentialRevoked
  | ActionNotFound | PolicyTrustConflict | PolicyUnavailable
  | PolicyVersionConflict | PolicyVersionExhausted | WorkloadIdentityInvalid
  | AuthorityBusy | AuditSnapshotExpired | AuditCommitFailed
  | AuditCommitFailedAfterExecution | BackupFailed | RestoreFailed
  | Domain (e : DomainError).
End Authority.
Abbreviation AuthorityError := Authority.AuthorityError.

(** [AuthorityError::code]. *)
Definition authority_code (e : AuthorityError) : string :=
  match e with
  | Authority.RollbackSuspected => "ROLLBACK_SUSPECTED"
  | Authority.NotInitialized => "NOT_INITIALIZED"
  | Authority.AlreadyInitialized => "ALREADY_INITIALIZED"
  | Authority.StateDirectoryNotEmpty => "STATE_DIRECTORY_NOT_EMPTY"
  | Authority.Locked => "LOCKED"
  | Authority.Draining => "DRAINING"
  | Authority.Faulted => "FAULTED"
  | Authority.InvalidUnlockCredential => "INVALID_UNLOCK_CREDENTIAL"
  | Authority.UnlockRateLimited => "UNLOCK_RATE_LIMITED"
  | Authority.EntropyUnavailable => "ENTROPY_UNAVAILABLE"
  | Authority.ClockUnavailable => "CLOCK_UNAVAILABLE"
  | Authority.CryptoFailure => "CRYPTO_FAILURE"
  | Authority.AuthenticationFailed => "AUTHENTICATION_FAILED"
  | Authority.StorageUnavailable => "STORAGE_UNAVAILABLE"
  | Authority.StorageIntegrityFailed => "STORAGE_INTEGRITY_FAILED"
  | Authority.UnsupportedVaultLayout => "UNSUPPORTED_VAULT_LAYOUT"
  | Authority.UnsupportedFormatVersion => "UNSUPPORTED_FORMAT_VERSION"
  | Authority.InsecureStatePermissions => "INSECURE_STATE_PERMISSIONS"
  | Authority.CredentialNotFound => "CREDENTIAL_UNAVAILABLE"
  | Authority.CredentialSourceUnavailable => "CREDENTIAL_UNAVAILABLE"
  | Authority.CredentialConflict => "CREDENTIAL_CONFLICT"
  | Authority.CredentialRevoked => "CREDENTIAL_UNAVAILABLE"
  | Authority.ActionNotFound => "ACTION_NOT_FOUND"
  | Authority.PolicyTrustConflict => "POLICY_TRUST_CONFLICT"
  | Authority.PolicyUnavailable => "POLICY_UNAVAILABLE"
  | Authority.PolicyVersionConflict => "POLICY_VERSION_CONFLICT"
  | Authority.PolicyVersionExhausted => "POLICY_VERSION_EXHAUSTED"
  | Authority.WorkloadIdentityInvalid => "WORKLOAD_IDENTITY_INVALID"
  | Authority.AuthorityBusy => "AUTHORITY_BUSY"
  | Authority.AuditSnapshotExpired => "AUDIT_SNAPSHOT_EXPIRED"
  | Authority.AuditCommitFailed => "AUDIT_COMMIT_FAILED"
  | Authority.AuditCommitFailedAfterExecution => "AUDIT_COMMIT_FAILED_AFTER_EXECUTION"
  | Authority.BackupFailed => "BACKUP_FAILED"
  | Authority.RestoreFailed => "RESTORE_FAILED"
  | Authority.Domain ResponseTooLarge => "RESPONSE_TOO_LARGE"
  | Authority.Domain _ => "INVALID_INPUT"
  end.

(** The challenge a caller is pointed to; ids are the 128-bit values of
    [Domain.v]. *)
Record ApprovalRequired := {
  ar_challenge_id : Z;
  ar_expires_at_ms : Z;
}.

Inductive BrokerError : Type :=
  | LocalCall (code message next : string)
  | BudgetExceeded (reset_at_ms : Z)
  | BAuthority (e : AuthorityError)
  | Admission (e : AuthorityError)
  | BDomain (e : DomainError)
  | BPolicy (e : PolicyError)
  | BFrame (e : FrameError)
  | BApprovalRequired (a : ApprovalRequired)
  | ApprovalOutcomeUnconfirmed
  | Denied (reason : string)
  | Upstream (reason : string)
  | UpstreamUnconfirmed (reason : string)
  | Indeterminate (reason : string)
  | ResponseSecurityViolation
  | BIo
  | UnsupportedPlatform
  | LauncherUnavailable.

(** [BrokerError::code]. *)
Definition broker_code (e : BrokerError) : string :=
  match e with
  | LocalCall code _ _ => code
  | BudgetExceeded _ => "BUDGET_EXCEEDED"
  | BAuthority err | Admission err => authority_code err
  | BDomain InvalidCapability => "INVALID_CAPABILITY"
  | BDomain CapabilityExpired => "CAPABILITY_EXPIRED"
  | BDomain CapabilityExhausted => "CAPABILITY_EXHAUSTED"
  | BDomain ActionNotAllowed => "ACTION_DENIED"
  | BDomain ActionDisabled => "ACTION_DISABLED"
  | BDomain CredentialRevoked => "CREDENTIAL_UNAVAILABLE"
  | BDomain RequestTooLarge => "REQUEST_TOO_LARGE"
  | BDomain ResponseTooLarge => "RESPONSE_TOO_LARGE"
  | BDomain _ => "INVALID_INPUT"
  | BPolicy _ => "POLICY_INVALID"
  | BFrame _ => "INVALID_FRAME"
  | Denied _ => "REQUEST_DENIED"
  | BApprovalRequired _ => "APPROVAL_REQUIRED"
  | ApprovalOutcomeUnconfirmed => "APPROVAL_OUTCOME_UNCONFIRMED"
  | Upstream _ | UpstreamUnconfirmed _ => "UPSTREAM_FAILED"
  | Indeterminate _ => "UPSTREAM_INDETERMINATE"
  | ResponseSecurityViolation => "RESPONSE_SECURITY_VIOLATION"
  | BIo => "IPC_UNAVAILABLE"
  | UnsupportedPlatform => "UNSUPPORTED_PLATFORM"
  | LauncherUnavailable => "LAUNCHER_UNAVAILABLE"
  end.

(** [BrokerError::retryable]. *)
Definition retryable (e : BrokerError) : bool :=
  match e with
  | BAuthority Authority.AuthorityBusy | Admission Authority.AuthorityBusy
  | Upstream _ | BIo => true
  | _ => false
  end.

(** [ipc/agent.rs local_agent_code]. *)
Definition local_agent_code (err : BrokerError) : string :=
  match err with
  | Upstream reason =>
      if str_eqb reason "private-address" then "UPSTREAM_ADDRESS_BLOCKED"
      else "UPSTREAM_ERROR"
  | BPolicy PolicyExpired => "DENIED"
  | BPolicy NotConfigured => "NOT_CONFIGURED"
  | BPolicy InvalidParameters => "INVALID_INPUT"
  | _ =>
      let code := broker_code err in
      if str_eqb code "RESPONSE_SECURITY_VIOLATION" then "RESPONSE_BLOCKED"
      else if str_eqb code "UPSTREAM_FAILED" then "UPSTREAM_ERROR"
      else if str_eqb code "REQUEST_DENIED" then "DENIED"
      else if str_eqb code "CRYPTO_FAILURE"
              || str_eqb code "STORAGE_INTEGRITY_FAILED"
              || str_eqb code "CREDENTIAL_CONFLICT" then "CREDENTIAL_UNAVAILABLE"
      else code
  end.

(** [ipc/frame.rs agent_next]. *)
Definition agent_next (code : string) : string :=
  if str_eqb code "NOT_CONFIGURED" then
    "Use request_access with a reason; never ask the user for a key."
  else if str_eqb code "LOCKED" then "Use await_unlock(), then retry the call."
  else if str_eqb code "APPROVAL_REQUIRED" then
    "Use await_approval with approval.challenge_id as request_id, then retry the same call with approval_request_id set to that challenge_id."
  else if str_eqb code "DENIED" || str_eqb code "REQUEST_DENIED" then
    "Use request_access to explain the required operation."
  else if str_eqb code "BUDGET_EXCEEDED" then
    "Retry after the budget or rate window resets."
  else if str_eqb code "RESPONSE_BLOCKED" || str_eqb code "RESPONSE_SECURITY_VIOLATION" then
    "Do not retry this request: its response reflected credential material."
  else if str_eqb code "UPSTREAM_ADDRESS_BLOCKED" then
    "The target host resolved to a non-public address, commonly a local proxy's fake-IP DNS. Rekey never connects to non-public addresses: make the host resolve to its public IP (for example exclude it from the proxy's fake-IP range), then retry."
  else if str_eqb code "UPSTREAM_INDETERMINATE" then
    "Check the upstream effect before retrying; the request may have completed."
  else "Inspect the error code and connection configuration before retrying.".

(** [runtime/gateway.rs map_error]: the HTTP status of the local gateway. *)
Definition map_error_status (error : BrokerError) : Z :=
  match error with
  | BDomain (InvalidCapability | CapabilityExpired) => 401
  | BAuthority Authority.PolicyVersionConflict => 403
  | BAuthority _ | BIo => 503
  | BFrame _ => 400
  | Upstream _ | UpstreamUnconfirmed _ | Indeterminate _
  | ResponseSecurityViolation => 502
  | _ => 403
  end.

#[export] Instance DomainError_eq_dec : EqDecision DomainError.
Proof. solve_decision. Defined.
#[export] Instance FrameError_eq_dec : EqDecision FrameError.
Proof. solve_decision. Defined.
#[export] Instance PolicyError_eq_dec : EqDecision PolicyError.
Proof. solve_decision. Defined.
#[export] Instance AuthorityError_eq_dec : EqDecision AuthorityError.
Proof. solve_decision. Defined.
#[export] Instance ApprovalRequired_eq_dec : EqDecision ApprovalRequired.
Proof. solve_decision. Defined.
#[export] Instance BrokerError_eq_dec : EqDecision BrokerError.
Proof. solve_decision. Defined.

(** The failures that say why a stored credential could not be used. *)
Definition credential_failure (e : BrokerError) : bool :=
  match e with
  | BAuthority (Authority.CredentialNotFound | Authority.CredentialRevoked
               | Authority.CryptoFailure | Authority.StorageIntegrityFailed) => true
  | _ => false
  end.

(** an agent cannot tell a missing, a revoked and an undecryptable credential
    apart from the code, the retry flag, the guidance or the gateway status. *)
Theorem credential_failures_indistinguishable e1 e2
  (H1 : credential_failure e1 = true) (H2 : credential_failure e2 = true) :
  local_agent_code e1 = local_agent_code e2 /\
  retryable e1 = retryable e2 /\
  agent_next (local_agent_code e1) = agent_next (local_agent_code e2) /\
  map_error_status e1 = map_error_status e2.
Proof.
  destruct e1 as [| |[]| | | | | | | | | | | | | |], e2 as [| |[]| | | | | | | | | | | | | |];
    try discriminate; repeat split.
Qed.

Lemma credential_failures_indistinguishable_witness :
  local_agent_code (BAuthority Authority.CredentialRevoked)
  = local_agent_code (BAuthority Authority.CryptoFailure).
Proof.
  apply (credential_failures_indistinguishable
           (BAuthority Authority.CredentialRevoked) (BAuthority Authority.CryptoFailure));
    reflexivity.
Defined.

(** an error after which an upstream effect may have happened is never marked
    retryable, and its guidance never suggests a plain retry. *)
Theorem unconfirmed_effects_not_retryable reason :
  retryable (UpstreamUnconfirmed reason) = false /\
  retryable (Indeterminate reason) = false /\
  retryable ApprovalOutcomeUnconfirmed = false /\
  agent_next (local_agent_code (Indeterminate reason)) =
    "Check the upstream effect before retrying; the request may have completed.".
Proof. repeat split. Qed.
