(* ===== verification/Domain.v ===== *)
(** * Domain: identifiers, clocks, capabilities, profiles, credentials

    [rekey-domain/src]: ids.rs, time.rs, capability.rs, authorization.rs,
    credential.rs and profile.rs. An id is the big-endian value of its sixteen
    bytes, so the derived order on ids is the order of the integers. Times are
    Unix milliseconds ([i64]); a [u32]/[u64] field is a [Z]. *)

From S2P Require Import Prelude Strings Errors.

(** ** Identifiers (ids.rs) *)

(** The sixteen bytes of a UUID, as one big-endian number. *)
Abbreviation Uuid := Z (only parsing).
Abbreviation ActionId := Z (only parsing).
Abbreviation SessionId := Z (only parsing).
Abbreviation PrincipalId := Z (only parsing).
Abbreviation TenantId := Z (only parsing).
Abbreviation CredentialId := Z (only parsing).
Abbreviation PolicyRuleId := Z (only parsing).
Abbreviation ApproverId := Z (only parsing).
Abbreviation ApprovalId := Z (only parsing).
Abbreviation ApprovalRequestId := Z (only parsing).
Abbreviation RequestId := Z (only parsing).

(** Big-endian bytes: [uN::from_be_bytes] and [uN::to_be_bytes]. *)
Definition be_value (bytes : list Z) : Z :=
  fold_left (fun acc b => acc * 256 + b) bytes 0.

Fixpoint be_bytes (n : nat) (v : Z) : list Z :=
  match n with
  | O => []
  | S k => be_bytes k (v / 256) ++ [v mod 256]
  end.

Definition is_byte (b : Z) : Prop := 0 <= b < 256.

(** [$name::from_bytes]: the nil UUID is not an id. *)
Definition id_from_bytes (bytes : list Z) : result DomainError Uuid :=
  let uuid := be_value bytes in
  reject_if uuid =? 0 with InvalidId ;;
  Ok uuid.

(** [$name::from_random_bytes]: version 4, RFC 4122 variant. *)
Definition id_from_random_bytes (bytes : list Z) : Uuid :=
  let b6 := Z.lor (Z.land (nth 6 bytes 0) 15) 64 in
  let b8 := Z.lor (Z.land (nth 8 bytes 0) 63) 128 in
  be_value (<[8%nat := b8]> (<[6%nat := b6]> bytes)).

(** [$name::as_bytes]. *)
Definition id_as_bytes (uuid : Uuid) : list Z := be_bytes 16 uuid.

(** [parse_canonical_uuid]; [Uuid::try_parse] of the uuid crate is a parameter. *)
Definition parse_canonical_uuid (try_parse : string -> option Uuid) (s : string)
  : result DomainError Uuid :=
  reject_if negb (slen s =? 36) || str_any is_ascii_uppercase s with InvalidId ;;
  uuid ← ok_or InvalidId (try_parse s);
  reject_if uuid =? 0 with InvalidId ;;
  Ok uuid.

Lemma be_value_app a b :
  be_value (a ++ b) = be_value a * 256 ^ llen b + be_value b.
Proof.
  unfold be_value, llen. rewrite fold_left_app.
  generalize (fold_left (fun acc x => acc * 256 + x) a 0). intros acc. revert acc.
  induction b as [|x r IH]; intros acc; cbn [fold_left length]; [simpl; lia|].
  rewrite IH, (IH (0 * 256 + x)), Nat2Z.inj_succ, Z.pow_succ_r by lia. lia.
Qed.

Lemma be_value_snoc a x : be_value (a ++ [x]) = be_value a * 256 + x.
Proof. rewrite be_value_app. unfold be_value, llen. simpl. lia. Qed.

Lemma be_value_range bytes :
  Forall is_byte bytes -> 0 <= be_value bytes < 256 ^ llen bytes.
Proof.
  induction bytes as [|x r IH] using rev_ind; [unfold be_value, llen; simpl; lia|].
  rewrite Forall_app, Forall_singleton. intros [Hr Hx]. specialize (IH Hr).
  rewrite be_value_snoc. unfold llen, is_byte in *. rewrite length_app. cbn [length].
  rewrite Nat2Z.inj_add. change (Z.of_nat 1) with 1. rewrite Z.pow_add_r by lia. lia.
Qed.

Lemma be_bytes_value bytes :
  Forall is_byte bytes -> be_bytes (length bytes) (be_value bytes) = bytes.
Proof.
  induction bytes as [|x r IH] using rev_ind; [done|].
  rewrite Forall_app, Forall_singleton. intros [Hr Hx]. unfold is_byte in Hx.
  rewrite length_app, Nat.add_1_r. cbn [be_bytes]. rewrite be_value_snoc.
  rewrite Z.div_add_l, (Z.div_small x) by lia.
  rewrite (Z.add_comm _ x), Z_mod_plus_full, Z.mod_small by lia.
  by rewrite Z.add_0_r, IH.
Qed.

Lemma be_value_bytes n v : 0 <= v < 256 ^ Z.of_nat n -> be_value (be_bytes n v) = v.
Proof.
  revert v. induction n as [|k IH]; intros v Hv; [simpl in *; unfold be_value; simpl; lia|].
  cbn [be_bytes]. rewrite Nat2Z.inj_succ, Z.pow_succ_r in Hv by lia.
  rewrite be_value_snoc, IH.
  - pose proof (Z.div_mod v 256 ltac:(lia)). lia.
  - split; [apply Z.div_pos; lia | apply Z.div_lt_upper_bound; lia].
Qed.

Lemma length_be_bytes n v : length (be_bytes n v) = n.
Proof.
  revert v. induction n as [|k IH]; intros v; [done|]. cbn [be_bytes].
  rewrite length_app, IH. simpl. lia.
Qed.

Lemma be_bytes_is_byte n v : Forall is_byte (be_bytes n v).
Proof.
  revert v. induction n as [|k IH]; intros v; [constructor|]. cbn [be_bytes].
  rewrite Forall_app, Forall_singleton. split; [done|].
  unfold is_byte. apply Z.mod_pos_bound. lia.
Qed.

#[export] Hint Rewrite length_be_bytes : rekey.
#[export] Hint Resolve be_bytes_is_byte : rekey.

(** ** Time (time.rs) *)

(** Unix milliseconds; every clock value is an argument of the model. *)
Abbreviation Timestamp := Z (only parsing).

Definition saturating_add_ms (t : Timestamp) (ms : Z) : Timestamp :=
  i64_saturating_add t ms.

(** ** Authorization data (authorization.rs) *)

Record Principal := mkPrincipal {
  tenant_id : TenantId;
  principal_id : PrincipalId;
  principal_session_id : SessionId;
}.

Record ResourceRef := mkResourceRef {
  resource_type : string;
  resource_id : string;
}.

(** [validate_label] and the constructors that call it. *)
Definition validate_label (value field : string) : result DomainError unit :=
  reject_if is_empty_str value || negb (str_eqb (trim value) value) || any_control value
    with InvalidAuthorization (field +:+ " is invalid") ;;
  Ok tt.

Definition ResourceRef_new (resource_type id : string) : result DomainError ResourceRef :=
  _ ← validate_label resource_type "resource type";
  _ ← validate_label id "resource id";
  Ok (mkResourceRef resource_type id).

Definition SchemaId_new (value : string) : result DomainError string :=
  _ ← validate_label value "schema id";
  Ok value.

(** [PolicyVersion::new]: the terminal value of the durable range is reserved. *)
Definition PolicyVersion_new (value : Z) : result DomainError Z :=
  reject_if (value =? 0) || (i64_max <=? value)
    with InvalidAuthorization
      "policy version must fit the durable range below the reserved terminal value" ;;
  Ok value.

Inductive ApprovalMode : Type := OneTime | TimeWindow.

(** The default build: [Remote] exists only under the [lab] feature. *)
Inductive ApproverSpec : Type :=
  | LocalPresence
  | Ed25519 (keys : list string) (threshold : Z).

Record ApprovalRequirement := mkApprovalRequirement {
  req_mode : ApprovalMode;
  req_max_uses : Z;
  req_max_window_ms : option Z;
}.

Inductive DenyReason : Type :=
  | NoActiveSnapshot | SnapshotExpired | ActionNotBound | DenyInvalidParameters
  | NoMatchingPermit | ExplicitForbid | EvaluationFailed.

(** [DenyReason::code]. *)
Definition deny_code (r : DenyReason) : string :=
  match r with
  | NoActiveSnapshot => "policy-missing"
  | SnapshotExpired => "policy-expired"
  | ActionNotBound => "policy-action-unbound"
  | DenyInvalidParameters => "invalid-parameters"
  | NoMatchingPermit => "policy-no-permit"
  | ExplicitForbid => "policy-forbid"
  | EvaluationFailed => "policy-evaluation-failed"
  end.

(** A SHA-256 digest or a 32-byte key: its bytes. *)
Abbreviation Digest := (list Z) (only parsing).

Inductive Decision : Type :=
  | Allow (policy_version : Z) (snapshot_digest : Digest)
      (determining_rule : PolicyRuleId)
  | RequireApproval (policy_version : Z) (snapshot_digest : Digest)
      (determining_rule : PolicyRuleId) (approver : ApproverSpec)
      (requirement : ApprovalRequirement)
  | Deny (policy_version : option Z) (snapshot_digest : option Digest)
      (reason : DenyReason) (determining_rule : option PolicyRuleId).

(** ** Capabilities (capability.rs) *)

Definition SESSION_TTL_MAX_MS : Z := 24 * 60 * 60 * 1000.
Definition SESSION_MAX_USES_MAX : Z := 10000.
Definition SESSION_MAX_CONCURRENT_EXECUTIONS : Z := 4.
Definition CAPABILITY_TOKEN_BYTES : Z := 32.

Inductive SessionProvenance : Type := ProvAdmin | ProvWorkload.

Record ActionVersionRef := mkActionVersionRef {
  action_id : ActionId;
  version : Z;
}.

#[export] Instance Principal_eq_dec : EqDecision Principal.
Proof. solve_decision. Defined.
#[export] Instance ResourceRef_eq_dec : EqDecision ResourceRef.
Proof. solve_decision. Defined.
#[export] Instance ApprovalMode_eq_dec : EqDecision ApprovalMode.
Proof. solve_decision. Defined.
#[export] Instance ApproverSpec_eq_dec : EqDecision ApproverSpec.
Proof. solve_decision. Defined.
#[export] Instance ApprovalRequirement_eq_dec : EqDecision ApprovalRequirement.
Proof. solve_decision. Defined.
#[export] Instance DenyReason_eq_dec : EqDecision DenyReason.
Proof. solve_decision. Defined.
#[export] Instance Decision_eq_dec : EqDecision Decision.
Proof. solve_decision. Defined.
#[export] Instance SessionProvenance_eq_dec : EqDecision SessionProvenance.
Proof. solve_decision. Defined.
#[export] Instance ActionVersionRef_eq_dec : EqDecision ActionVersionRef.
Proof. solve_decision. Defined.

Record SessionGrant := mkSessionGrant {
  grant_id : SessionId;
  grant_principal : Principal;
  allowed_actions : list ActionVersionRef;
  issued_at : Timestamp;
  expires_at : Timestamp;
  max_uses : Z;
}.

(** [SessionGrant::new]. *)
Definition SessionGrant_new (id : SessionId) (principal : Principal)
    (actions : list ActionVersionRef) (issued : Timestamp) (ttl_ms uses : Z)
  : result DomainError SessionGrant :=
  reject_if bool_decide (actions = []) with InvalidCapability ;;
  reject_if existsb (fun r => version r =? 0) actions with InvalidCapability ;;
  reject_if (ttl_ms <=? 0) || (SESSION_TTL_MAX_MS <? ttl_ms) with InvalidCapability ;;
  reject_if (uses =? 0) || (SESSION_MAX_USES_MAX <? uses) with InvalidCapability ;;
  Ok {| grant_id := id; grant_principal := principal; allowed_actions := actions;
        issued_at := issued; expires_at := saturating_add_ms issued ttl_ms;
        max_uses := uses |}.

(** [SessionGrant::allows] and [SessionGrant::expired_at]. *)
Definition allows (g : SessionGrant) (wanted : ActionVersionRef) : bool :=
  bool_decide (wanted ∈ allowed_actions g).
Definition expired_at (g : SessionGrant) (now : Timestamp) : bool :=
  expires_at g <=? now.

(** ** Credentials (credential.rs) *)

Definition CREDENTIAL_LABEL_MAX_CHARS : Z := 128.

(** [CredentialLabel::new]: the stored label is the trimmed text. *)
Definition CredentialLabel_new (raw : string) : result DomainError string :=
  let trimmed := trim raw in
  reject_if is_empty_str trimmed with InvalidCredentialLabel ;;
  reject_if CREDENTIAL_LABEL_MAX_CHARS <? char_count trimmed with InvalidCredentialLabel ;;
  reject_if any_control trimmed with InvalidCredentialLabel ;;
  Ok trimmed.

Inductive CredentialKind : Type :=
  | OpaqueToken | GitHubAppInstallation | VaultKvV2Source | VaultDynamicSource
  | KeycloakTokenExchange | GcpSecretManagerSource | AwsSecretsManagerSource
  | AzureKeyVaultSource | OnePasswordConnectSource | MacosKeychainSource
  | SshEd25519 | SshP256 | SshSecureEnclaveP256 | OAuthGrant | AwsStatic
  | MtlsIdentity | PkiCaSigner.

(** [CredentialKind::as_str]. *)
Definition kind_as_str (k : CredentialKind) : string :=
  match k with
  | OpaqueToken => "opaque-token"
  | GitHubAppInstallation => "github-app-installation"
  | VaultKvV2Source => "vault-kv-v2-source"
  | VaultDynamicSource => "vault-dynamic-source"
  | KeycloakTokenExchange => "keycloak-token-exchange"
  | GcpSecretManagerSource => "gcp-secret-manager-source"
  | AwsSecretsManagerSource => "aws-secrets-manager-source"
  | AzureKeyVaultSource => "azure-key-vault-source"
  | OnePasswordConnectSource => "onepassword-connect-source"
  | MacosKeychainSource => "macos-keychain-source"
  | SshEd25519 => "ssh-ed25519"
  | SshP256 => "ssh-p256"
  | SshSecureEnclaveP256 => "ssh-secure-enclave-p256"
  | OAuthGrant => "oauth-grant"
  | AwsStatic => "aws-static"
  | MtlsIdentity => "mtls-identity"
  | PkiCaSigner => "pki-ca-signer"
  end.

(** [CredentialKind::parse]. *)
Definition kind_parse (s : string) : result DomainError CredentialKind :=
  if str_eqb s "opaque-token" then Ok OpaqueToken
  else if str_eqb s "github-app-installation" then Ok GitHubAppInstallation
  else if str_eqb s "vault-kv-v2-source" then Ok VaultKvV2Source
  else if str_eqb s "vault-dynamic-source" then Ok VaultDynamicSource
  else if str_eqb s "keycloak-token-exchange" then Ok KeycloakTokenExchange
  else if str_eqb s "gcp-secret-manager-source" then Ok GcpSecretManagerSource
  else if str_eqb s "aws-secrets-manager-source" then Ok AwsSecretsManagerSource
  else if str_eqb s "azure-key-vault-source" then Ok AzureKeyVaultSource
  else if str_eqb s "onepassword-connect-source" then Ok OnePasswordConnectSource
  else if str_eqb s "macos-keychain-source" then Ok MacosKeychainSource
  else if str_eqb s "ssh-ed25519" then Ok SshEd25519
  else if str_eqb s "ssh-p256" then Ok SshP256
  else if str_eqb s "ssh-secure-enclave-p256" then Ok SshSecureEnclaveP256
  else if str_eqb s "oauth-grant" then Ok OAuthGrant
  else if str_eqb s "aws-static" then Ok AwsStatic
  else if str_eqb s "mtls-identity" then Ok MtlsIdentity
  else if str_eqb s "pki-ca-signer" then Ok PkiCaSigner
  else Err InvalidId.

(** [CredentialKind::aad_code]. *)
Definition aad_code (k : CredentialKind) : Z :=
  match k with
  | OpaqueToken => 1 | GitHubAppInstallation => 2 | VaultKvV2Source => 3
  | VaultDynamicSource => 4 | KeycloakTokenExchange => 5
  | GcpSecretManagerSource => 6 | AwsSecretsManagerSource => 7
  | AzureKeyVaultSource => 8 | OnePasswordConnectSource => 9
  | MacosKeychainSource => 10 | SshEd25519 => 11 | SshP256 => 12
  | SshSecureEnclaveP256 => 13 | OAuthGrant => 14 | AwsStatic => 15
  | MtlsIdentity => 16 | PkiCaSigner => 17
  end.

Inductive CredentialState : Type := CredActive | CredRevoked.
Definition credential_state_as_str (s : CredentialState) : string :=
  match s with CredActive => "active" | CredRevoked => "revoked" end.
Definition credential_state_parse (s : string) : result DomainError CredentialState :=
  if str_eqb s "active" then Ok CredActive
  else if str_eqb s "revoked" then Ok CredRevoked
  else Err InvalidId.

Inductive VersionState : Type := VerActive | VerRetired | VerRevoked.
Definition version_state_as_str (s : VersionState) : string :=
  match s with
  | VerActive => "active" | VerRetired => "retired" | VerRevoked => "revoked"
  end.
Definition version_state_parse (s : string) : result DomainError VersionState :=
  if str_eqb s "active" then Ok VerActive
  else if str_eqb s "retired" then Ok VerRetired
  else if str_eqb s "revoked" then Ok VerRevoked
  else Err InvalidId.

(** ** Agent profiles (profile.rs) *)

Inductive ProfileRule : Type := TemplateDefault | RuleAllow | RuleRequireApproval.
Inductive ProfileIsolation : Type := IsoNone | Seatbelt | Netns.
Inductive ProfileEgress : Type := EgressAllow | DenyOther.

Record ProfileCapabilityGrant := mkProfileCapabilityGrant {
  capability : string;
  rule : ProfileRule;
  actions : list ActionVersionRef;
}.
Record ProfileGrant := mkProfileGrant {
  instance : string;
  capabilities : list ProfileCapabilityGrant;
}.
Record ProfileSession := mkProfileSession {
  ps_ttl_ms : Z;
  ps_max_uses : Z;
}.
Record ProfileLlmLimit := mkProfileLlmLimit {
  limit_instance : string;
  models : list string;
  max_output_tokens_per_request : Z;
  max_requests_per_day : Z;
  max_output_tokens_per_day : Z;
}.
Record AgentProfile := mkAgentProfile {
  profile_name : string;
  profile_principal_id : PrincipalId;
  grants : list ProfileGrant;
  session : ProfileSession;
  confirm_each_run : bool;
  isolation : ProfileIsolation;
  egress : ProfileEgress;
  llm_limits : list ProfileLlmLimit;
}.

#[export] Instance CredentialKind_eq_dec : EqDecision CredentialKind.
Proof. solve_decision. Defined.
#[export] Instance ProfileRule_eq_dec : EqDecision ProfileRule.
Proof. solve_decision. Defined.
#[export] Instance ProfileIsolation_eq_dec : EqDecision ProfileIsolation.
Proof. solve_decision. Defined.
#[export] Instance ProfileEgress_eq_dec : EqDecision ProfileEgress.
Proof. solve_decision. Defined.
#[export] Instance ProfileCapabilityGrant_eq_dec : EqDecision ProfileCapabilityGrant.
Proof. solve_decision. Defined.
#[export] Instance ProfileGrant_eq_dec : EqDecision ProfileGrant.
Proof. solve_decision. Defined.
#[export] Instance ProfileSession_eq_dec : EqDecision ProfileSession.
Proof. solve_decision. Defined.
#[export] Instance ProfileLlmLimit_eq_dec : EqDecision ProfileLlmLimit.
Proof. solve_decision. Defined.
#[export] Instance AgentProfile_eq_dec : EqDecision AgentProfile.
Proof. solve_decision. Defined.

(** [AgentProfile::action_refs]. *)
Definition profile_action_refs (p : AgentProfile) : list ActionVersionRef :=
  flat_map actions (flat_map capabilities (grants p)).

Definition invalid_profile : DomainError := InvalidAuthorization "invalid agent profile".

(** The three scans of [AgentProfile::validate]. A [BTreeSet] of the names seen
    so far is threaded as a list; [insert] returns [false] on a duplicate. *)
Fixpoint check_action_list (l : list ActionVersionRef) (seen : list ActionVersionRef)
  : option (list ActionVersionRef) :=
  match l with
  | [] => Some seen
  | r :: t =>
      if (version r =? 0) || bool_decide (r ∈ seen) then None
      else check_action_list t (r :: seen)
  end.

Fixpoint check_capabilities (l : list ProfileCapabilityGrant)
    (names : list string) (seen : list ActionVersionRef)
  : option (list ActionVersionRef) :=
  match l with
  | [] => Some seen
  | c :: t =>
      if negb (slug (capability c) 64) || bool_decide (capability c ∈ names)
         || bool_decide (actions c = []) then None
      else match check_action_list (actions c) seen with
           | None => None
           | Some seen' => check_capabilities t (capability c :: names) seen'
           end
  end.

Fixpoint check_grants (l : list ProfileGrant)
    (instances : list string) (seen : list ActionVersionRef)
  : option (list string) :=
  match l with
  | [] => Some instances
  | g :: t =>
      if negb (routable_slug (instance g)) || bool_decide (instance g ∈ instances)
         || bool_decide (capabilities g = []) then None
      else match check_capabilities (capabilities g) [] seen with
           | None => None
           | Some seen' => check_grants t (instance g :: instances) seen'
           end
  end.

Fixpoint check_limits (l : list ProfileLlmLimit)
    (instances limited : list string) : bool :=
  match l with
  | [] => true
  | m :: t =>
      if bool_decide (limit_instance m ∉ instances)
         || bool_decide (limit_instance m ∈ limited)
         || bool_decide (models m = [])
         || negb (all_distinct (models m))
         || existsb (fun s => is_empty_str s || negb (str_eqb (trim s) s)
                              || any_control s) (models m)
         || (max_output_tokens_per_request m =? 0)
         || (max_requests_per_day m =? 0)
         || (i64_max <? max_requests_per_day m)
         || (max_output_tokens_per_day m =? 0)
         || (i64_max <? max_output_tokens_per_day m) then false
      else check_limits t instances (limit_instance m :: limited)
  end.

(** [AgentProfile::validate]. *)
Definition profile_validate (p : AgentProfile) : result DomainError unit :=
  reject_if negb (routable_slug (profile_name p)) || bool_decide (grants p = [])
            || (ps_ttl_ms (session p) <=? 0)
            || (SESSION_TTL_MAX_MS <? ps_ttl_ms (session p))
            || (ps_max_uses (session p) =? 0)
            || (SESSION_MAX_USES_MAX <? ps_max_uses (session p))
    with invalid_profile ;;
  instances ← ok_or invalid_profile (check_grants (grants p) [] []);
  reject_if negb (check_limits (llm_limits p) instances []) with invalid_profile ;;
  Ok tt.

(** ** Theorems *)

(** [from_bytes] and [as_bytes] are inverse on the ids the program accepts:
    sixteen bytes that are not all zero give an id whose bytes they are, and an
    id's bytes give the id back. *)
Theorem id_bytes_roundtrip bytes
  (Hlen : length bytes = 16%nat) (Hb : Forall is_byte bytes)
  (Hnz : be_value bytes <> 0) :
  exists id, id_from_bytes bytes = Ok id /\ id_as_bytes id = bytes /\
             id_from_bytes (id_as_bytes id) = Ok id.
Proof.
  exists (be_value bytes). unfold id_from_bytes, id_as_bytes.
  assert (E : be_bytes 16 (be_value bytes) = bytes)
    by (rewrite <- Hlen; by apply be_bytes_value).
  rewrite E. apply Z.eqb_neq in Hnz. by rewrite Hnz.
Qed.

Lemma id_bytes_roundtrip_witness :
  exists id, id_from_bytes (repeat 171 16) = Ok id /\ id_as_bytes id = repeat 171 16 /\
             id_from_bytes (id_as_bytes id) = Ok id.
Proof.
  apply (id_bytes_roundtrip (repeat 171 16)); [reflexivity| |vm_compute; discriminate].
  apply Forall_forall. intros x Hx. apply list_elem_of_In, repeat_spec in Hx. subst x.
  unfold is_byte. lia.
Defined.

(** Deciding a property of one byte by running it on all of them. *)
Lemma byte_cases (p : Z -> bool) :
  forallb p (map Z.of_nat (seq 0 256)) = true -> forall b, is_byte b -> p b = true.
Proof.
  intros H b Hb. rewrite forallb_forall in H. apply H. apply in_map_iff.
  exists (Z.to_nat b). unfold is_byte in Hb. split; [lia|]. apply in_seq. lia.
Qed.

Definition set_version (b : Z) : Z := Z.lor (Z.land b 15) 64.
Definition set_variant (b : Z) : Z := Z.lor (Z.land b 63) 128.

Lemma version_byte b : is_byte b ->
  is_byte (set_version b) /\ Z.shiftr (set_version b) 4 = 4.
Proof.
  intros Hb. pose proof (byte_cases (fun b =>
    ((0 <=? set_version b) && (set_version b <? 256)) && (Z.shiftr (set_version b) 4 =? 4))
    ltac:(vm_compute; reflexivity) b Hb) as H. cbv beta in H.
  reflect_bools. unfold is_byte. lia.
Qed.

Lemma variant_byte b : is_byte b ->
  is_byte (set_variant b) /\ Z.shiftr (set_variant b) 6 = 2.
Proof.
  intros Hb. pose proof (byte_cases (fun b =>
    ((0 <=? set_variant b) && (set_variant b <? 256)) && (Z.shiftr (set_variant b) 6 =? 2))
    ltac:(vm_compute; reflexivity) b Hb) as H. cbv beta in H.
  reflect_bools. unfold is_byte. lia.
Qed.

Lemma Forall_nth_byte n l : Forall is_byte l -> is_byte (nth n l 0).
Proof.
  intros H. revert n. induction H as [|x r Hx _ IH]; intros [|n]; simpl; auto;
    unfold is_byte; lia.
Qed.

(** an id minted from entropy is a version 4, RFC 4122 UUID whatever the
    random bytes are: its version nibble is 4, its variant bits are 10, every
    other byte is the entropy's, and it is never the nil UUID. *)
Theorem random_id_is_v4 bytes (Hlen : length bytes = 16%nat) (Hb : Forall is_byte bytes) :
  let id := id_from_random_bytes bytes in
  Z.shiftr (nth 6 (id_as_bytes id) 0) 4 = 4 /\
  Z.shiftr (nth 8 (id_as_bytes id) 0) 6 = 2 /\
  (forall i, i <> 6%nat -> i <> 8%nat -> nth i (id_as_bytes id) 0 = nth i bytes 0) /\
  id <> 0.
Proof.
  destruct (version_byte _ (Forall_nth_byte 6 _ Hb)) as [V6 S6].
  destruct (variant_byte _ (Forall_nth_byte 8 _ Hb)) as [V8 S8].
  set (bs := <[8%nat := set_variant (nth 8 bytes 0)]>
               (<[6%nat := set_version (nth 6 bytes 0)]> bytes)).
  assert (Hbs : Forall is_byte bs) by (unfold bs; repeat apply Forall_insert; assumption).
  assert (E : id_as_bytes (id_from_random_bytes bytes) = bs).
  { change (id_from_random_bytes bytes) with (be_value bs). unfold id_as_bytes.
    replace 16%nat with (length bs) by (unfold bs; by rewrite !length_insert).
    by apply be_bytes_value. }
  cbv zeta. rewrite E. unfold bs.
  do 16 (destruct bytes as [|? bytes]; [discriminate|]). destruct bytes; [|discriminate].
  repeat split; [exact S6 | exact S8 | intros i Hi6 Hi8 |].
  - do 16 (destruct i as [|i]; [by (reflexivity || lia)|]). reflexivity.
  - intros Hz. rewrite Hz in E. apply (f_equal (fun l => nth 6 l 0)) in E.
    change (nth 6 (id_as_bytes 0) 0) with 0 in E. cbn in E, S6. rewrite <- E in S6.
    discriminate.
Qed.

Lemma random_id_is_v4_witness :
  let id := id_from_random_bytes (repeat 255 16) in
  Z.shiftr (nth 6 (id_as_bytes id) 0) 4 = 4 /\ id <> 0.
Proof.
  destruct (random_id_is_v4 (repeat 255 16)) as (H1 & _ & _ & H4); [reflexivity| |].
  - apply Forall_forall. intros x Hx. apply list_elem_of_In, repeat_spec in Hx. subst x.
    unfold is_byte. lia.
  - exact (conj H1 H4).
Defined.

(** [SessionGrant::new] accepts exactly a non-empty list of real action
    versions, a lifetime of at most a day and one to ten thousand uses; the
    grant it builds carries its arguments and expires [ttl_ms] after issue. *)
Theorem session_grant_new_spec id p acts issued ttl uses g :
  SessionGrant_new id p acts issued ttl uses = Ok g <->
  (acts <> [] /\ Forall (fun r => version r <> 0) acts /\
   0 < ttl <= SESSION_TTL_MAX_MS /\ uses <> 0 /\ uses <= SESSION_MAX_USES_MAX /\
   g = mkSessionGrant id p acts issued (i64_saturating_add issued ttl) uses).
Proof.
  unfold SessionGrant_new, saturating_add_ms. split.
  - intros H. walk H. repeat split; try lia; try done.
    rewrite Forall_forall. intros r Hr.
    match goal with E : existsb _ _ = false |- _ => rewrite existsb_false_elem in E;
      specialize (E r Hr) end. by reflect_bools.
  - intros (Hne & Hv & Ht & Hu & Hu' & ->).
    rewrite bool_decide_eq_false_2 by done.
    assert (existsb (fun r => version r =? 0) acts = false) as ->.
    { apply existsb_false_elem. intros r Hr. rewrite Forall_forall in Hv.
      apply Z.eqb_neq. auto. }
    replace (ttl <=? 0) with false by lia. replace (SESSION_TTL_MAX_MS <? ttl) with false by lia.
    replace (uses =? 0) with false by lia.
    replace (SESSION_MAX_USES_MAX <? uses) with false by lia. done.
Qed.

(** the durable names of credential kinds round-trip: [parse] reads back what
    [as_str] writes, accepts nothing else, and the AAD code bound into every
    ciphertext determines the kind. *)
Theorem credential_kind_roundtrip k s :
  kind_parse (kind_as_str k) = Ok k /\
  (kind_parse s = Ok k <-> s = kind_as_str k) /\
  (forall k', aad_code k = aad_code k' -> k = k').
Proof.
  assert (R : forall k, kind_parse (kind_as_str k) = Ok k) by (intros []; reflexivity).
  split; [apply R|]. split.
  - split; [|intros ->; apply R]. unfold kind_parse, str_eqb. intros H.
    repeat (case_bool_decide; [by simplify_eq|]). done.
  - intros k'. destruct k, k'; by intros.
Qed.

Lemma check_action_list_spec l seen seen' :
  check_action_list l seen = Some seen' ->
  seen' = rev l ++ seen /\ Forall (fun r => version r <> 0) l /\
  (NoDup seen -> NoDup (l ++ seen)).
Proof.
  revert seen. induction l as [|r t IH]; intros seen; simpl; [by intros [= <-]|].
  intros H. walk H. destruct (IH _ H) as (-> & Hv & Hnd).
  split; [by rewrite <- app_assoc|]. split; [by constructor|]. intros Hs.
  rewrite Permutation_middle. apply Hnd. by constructor.
Qed.

Lemma check_capabilities_spec l names seen seen' :
  check_capabilities l names seen = Some seen' -> NoDup seen ->
  NoDup seen' /\ (seen' ≡ₚ flat_map actions l ++ seen) /\
  Forall (fun r => version r <> 0) (flat_map actions l).
Proof.
  revert names seen. induction l as [|c t IH]; intros names seen; simpl;
    [by intros [= <-]|].
  intros H Hs. walk H. match goal with E : check_action_list _ _ = _ |- _ =>
    destruct (check_action_list_spec _ _ _ E) as (-> & Hv & Hnd) end.
  assert (P : rev (actions c) ++ seen ≡ₚ actions c ++ seen) by (by rewrite <- Permutation_rev).
  destruct (IH _ _ H) as (Hnd' & HP & Hv'); [rewrite P; auto|].
  split; [done|]. split; [|by apply Forall_app_2].
  rewrite HP, P, app_assoc. f_equiv. apply Permutation_app_comm.
Qed.

Lemma check_grants_spec l insts seen insts' :
  check_grants l insts seen = Some insts' -> NoDup seen ->
  NoDup (flat_map actions (flat_map capabilities l) ++ seen) /\
  Forall (fun r => version r <> 0) (flat_map actions (flat_map capabilities l)) /\
  Forall (fun g => capabilities g <> []) l.
Proof.
  revert insts seen. induction l as [|g t IH]; intros insts seen; simpl; [by intros|].
  intros H Hs. walk H. match goal with E : check_capabilities _ _ _ = _ |- _ =>
    destruct (check_capabilities_spec _ _ _ _ E Hs) as (Hnd & HP & Hv) end.
  destruct (IH _ _ H Hnd) as (Hnd' & Hv' & Hc').
  rewrite flat_map_app. split; [|split; [by apply Forall_app_2 | by constructor]].
  rewrite HP in Hnd'.
  by rewrite (Permutation_app_comm (flat_map actions (capabilities g))), <- app_assoc.
Qed.

(** a validated profile names every action version at most once across all
    its grants and capabilities, names at least one, and stays within the
    session bounds, so an action's capability scope is unambiguous. *)
Theorem profile_validate_unambiguous p (H : profile_validate p = Ok tt) :
  NoDup (profile_action_refs p) /\
  Forall (fun r => version r <> 0) (profile_action_refs p) /\
  grants p <> [] /\ Forall (fun g => capabilities g <> []) (grants p) /\
  0 < ps_ttl_ms (session p) <= SESSION_TTL_MAX_MS /\
  ps_max_uses (session p) <> 0 /\ ps_max_uses (session p) <= SESSION_MAX_USES_MAX.
Proof.
  unfold profile_validate in H.
  destruct (check_grants (grants p) [] []) as [insts|] eqn:E; [|by walk H].
  destruct (check_grants_spec _ _ _ _ E (NoDup_nil_2)) as (Hnd & Hv & Hc).
  rewrite app_nil_r in Hnd. walk H. unfold profile_action_refs. repeat split; auto; lia.
Qed.

Definition example_profile : AgentProfile :=
  {| profile_name := "claude-code"; profile_principal_id := 7;
     grants := [mkProfileGrant "anthropic"
                  [mkProfileCapabilityGrant "messages" TemplateDefault
                     [mkActionVersionRef 3 1; mkActionVersionRef 3 2]]];
     session := mkProfileSession 1000 5; confirm_each_run := false;
     isolation := IsoNone; egress := EgressAllow;
     llm_limits := [mkProfileLlmLimit "anthropic" ["model-1"] 4096 2000 2000000] |}.

Lemma profile_validate_unambiguous_witness :
  profile_validate example_profile = Ok tt /\ NoDup (profile_action_refs example_profile).
Proof.
  split; [vm_compute; reflexivity|].
  apply (profile_validate_unambiguous example_profile). vm_compute. reflexivity.
Defined.
