(* ===== verification/Codec.v ===== *)
(** * Codec: the interface of the encoding and digest libraries

    The program uses the crates [data_encoding] (lower-case hex, base64 and
    unpadded URL base64) and [sha2]. Their code is not part of the repository:
    they are a class of operations, with the documented behaviour the proofs rely
    on as a class of laws. [model_codecs] is an instance of both, which the
    concrete runs of the development use. *)

From S2P Require Import Prelude Domain.

Class Codecs := {
  hexlower_encode : list Z -> string;
  hexlower_decode : string -> option (list Z);
  base64url_encode : list Z -> string;
  base64url_decode : string -> option (list Z);
  base64_encode : list Z -> string;
  base64_decode : string -> option (list Z);
  sha256 : list Z -> list Z;
}.

(** Encoders are inverted by their decoders; a digest is 32 bytes. *)
Class CodecLaws `{Codecs} : Prop := {
  hexlower_roundtrip b : Forall is_byte b -> hexlower_decode (hexlower_encode b) = Some b;
  base64url_roundtrip b : Forall is_byte b -> base64url_decode (base64url_encode b) = Some b;
  base64_roundtrip b : Forall is_byte b -> base64_decode (base64_encode b) = Some b;
  sha256_length b : length (sha256 b) = 32%nat;
  sha256_bytes b : Forall is_byte (sha256 b);
}.

(** Digests a snapshot or a grant carries. *)
Definition is_digest (d : list Z) : Prop := length d = 32%nat /\ Forall is_byte d.

Lemma hexlower_encode_inj `{CodecLaws} a b :
  Forall is_byte a -> Forall is_byte b ->
  hexlower_encode a = hexlower_encode b -> a = b.
Proof.
  intros Ha Hb E. apply (f_equal hexlower_decode) in E.
  rewrite !hexlower_roundtrip in E by done. by simplify_eq.
Qed.

(** ** A concrete instance *)

Definition nibble_char (n : Z) : ascii :=
  ascii_of_N (Z.to_N (if n <? 10 then 48 + n else 87 + n)).

Definition char_nibble (c : ascii) : option Z :=
  let x := byte_of c in
  if (48 <=? x) && (x <=? 57) then Some (x - 48)
  else if (97 <=? x) && (x <=? 102) then Some (x - 87) else None.

Fixpoint hex_encode (b : list Z) : string :=
  match b with
  | [] => EmptyString
  | x :: r => String (nibble_char (x / 16)) (String (nibble_char (x mod 16)) (hex_encode r))
  end.

Fixpoint hex_decode (s : string) : option (list Z) :=
  match s with
  | EmptyString => Some []
  | String _ EmptyString => None
  | String h (String l r) =>
      match char_nibble h, char_nibble l, hex_decode r with
      | Some x, Some y, Some t => Some (x * 16 + y :: t)
      | _, _, _ => None
      end
  end.

Lemma char_nibble_char n : 0 <= n < 16 -> char_nibble (nibble_char n) = Some n.
Proof.
  intros Hn.
  pose proof (byte_cases (fun n => (16 <=? n) ||
      match char_nibble (nibble_char n) with Some m => m =? n | None => false end)
    ltac:(vm_compute; reflexivity) n ltac:(unfold is_byte; lia)) as H. cbv beta in H.
  destruct (16 <=? n) eqn:E; [reflect_bools; lia|]. cbn [orb] in H.
  destruct (char_nibble (nibble_char n)); [|done]. reflect_bools. by subst.
Qed.

Lemma hex_roundtrip b : Forall is_byte b -> hex_decode (hex_encode b) = Some b.
Proof.
  induction 1 as [|x r Hx _ IH]; [done|]. unfold is_byte in Hx. cbn [hex_encode hex_decode].
  assert (0 <= x / 16 < 16) by (split; [apply Z.div_pos|apply Z.div_lt_upper_bound]; lia).
  rewrite !char_nibble_char, IH by (done || (apply Z.mod_pos_bound; lia)).
  f_equal. f_equal. pose proof (Z.div_mod x 16 ltac:(lia)). lia.
Qed.

(** A stand-in digest: the first 32 bytes, zero padded. *)
Definition pad32 (b : list Z) : list Z :=
  take 32 (map (fun x => x mod 256) b ++ repeat 0 32).

#[export] Instance model_codecs : Codecs := {
  hexlower_encode := hex_encode; hexlower_decode := hex_decode;
  base64url_encode := hex_encode; base64url_decode := hex_decode;
  base64_encode := hex_encode; base64_decode := hex_decode;
  sha256 := pad32;
}.

#[export] Instance model_codec_laws : @CodecLaws model_codecs.
Proof.
  split.
  - apply hex_roundtrip.
  - apply hex_roundtrip.
  - apply hex_roundtrip.
  - intros b. cbn. unfold pad32. rewrite length_take, length_app, repeat_length. lia.
  - intros b. cbn. unfold pad32. apply Forall_take, Forall_app. split.
    + rewrite Forall_fmap. apply Forall_true. intros x. unfold is_byte. cbn.
      apply Z.mod_pos_bound. lia.
    + apply Forall_forall. intros x Hx. apply list_elem_of_In, repeat_spec in Hx. subst.
      unfold is_byte. lia.
Qed.
