(* ===== verification/Policy.v ===== *)
(** * Policy: the signed snapshot's rules and the authorization decision

    [rekey-policy/src/lib.rs]: the rule part of
    [parse_and_validate_snapshot_inner] ([validate_requirement],
    [resolve_approver_ids], [scopes_overlap], [requirements_equivalent],
    [validate_profiles]) and the evaluator ([evaluate], [scope_matches],
    [minimum], [deny]). A parameter schema is left abstract: the JSON Schema
    compiler is a library. A [BTreeMap] from approver ids is an association list
    in ascending key order, the order it is iterated in. *)

From S2P Require Import Prelude Strings Errors Domain Codec.

Inductive RuleEffect : Type := Permit | Forbid | RequireApprovalEffect.

Inductive ParameterScope : Type :=
  | AnyValidated
  | ExactHash (hash : string).

Record ActionBinding (Schema : Type) := mkActionBinding {
  binding_action_id : ActionId;
  binding_version : Z;
  binding_resource : ResourceRef;
  parameter_schema_id : string;
  parameter_schema : Schema;
}.
Arguments mkActionBinding {Schema}.
Arguments binding_action_id {Schema}.
Arguments binding_version {Schema}.
Arguments binding_resource {Schema}.
Arguments parameter_schema_id {Schema}.
Arguments parameter_schema {Schema}.

Record PolicyRule := mkPolicyRule {
  rule_id : PolicyRuleId;
  rule_effect : RuleEffect;
  rule_principal_id : PrincipalId;
  rule_action_id : ActionId;
  rule_version : Z;
  rule_resource : ResourceRef;
  rule_parameters : ParameterScope;
  rule_approver : option ApproverSpec;
  rule_approval : option ApprovalRequirement;
}.

(** [PolicyRule::action] and [ActionBinding::action]. *)
Definition rule_action (r : PolicyRule) : ActionVersionRef :=
  mkActionVersionRef (rule_action_id r) (rule_version r).
Definition binding_action {S} (b : ActionBinding S) : ActionVersionRef :=
  mkActionVersionRef (binding_action_id b) (binding_version b).

#[export] Instance RuleEffect_eq_dec : EqDecision RuleEffect.
Proof. solve_decision. Defined.
#[export] Instance ParameterScope_eq_dec : EqDecision ParameterScope.
Proof. solve_decision. Defined.
#[export] Instance PolicyRule_eq_dec : EqDecision PolicyRule.
Proof. solve_decision. Defined.

Record CanonicalParameters := mkCanonicalParameters {
  schema_id : string;
  canonical_hash : Digest;
  canonical_json : list Z;
}.

Record AuthorizationRequest := mkAuthorizationRequest {
  request_principal : Principal;
  request_action : ActionVersionRef;
  request_resource : ResourceRef;
  request_parameters : CanonicalParameters;
}.

(** What [evaluate] reads of a [ValidatedSnapshot]. *)
Record ValidatedSnapshot := mkValidatedSnapshot {
  snapshot_version : Z;
  snapshot_expires_at_ms : Z;
  snapshot_digest : Digest;
  snapshot_rules : list PolicyRule;
  snapshot_approvers : list (ApproverId * Digest);
}.

Section WithCodecs.
Context {CC : Codecs}.

(** ** Evaluation *)

Definition deny (snapshot : ValidatedSnapshot) (reason : DenyReason)
    (determining_rule : option PolicyRuleId) : Decision :=
  Deny (Some (snapshot_version snapshot)) (Some (snapshot_digest snapshot))
    reason determining_rule.

Definition minimum (current : option PolicyRuleId) (candidate : PolicyRuleId)
  : option PolicyRuleId :=
  Some (match current with None => candidate | Some value => Z.min value candidate end).

Definition scope_matches (scope : ParameterScope) (hash : Digest) : bool :=
  match scope with
  | AnyValidated => true
  | ExactHash h => str_eqb (hexlower_encode hash) h
  end.

(** The filter at the head of [evaluate]'s loop. *)
Definition rule_matches (request : AuthorizationRequest) (rule : PolicyRule) : bool :=
  (rule_principal_id rule =? principal_id (request_principal request))
  && bool_decide (rule_action rule = request_action request)
  && bool_decide (rule_resource rule = request_resource request)
  && scope_matches (rule_parameters rule) (canonical_hash (request_parameters request)).

(** The loop's accumulators; [ScanFailed] is its early return. *)
Inductive Scan : Type :=
  | ScanFailed (rule : PolicyRuleId)
  | Scanned (permit forbid : option PolicyRuleId)
      (approval : option (PolicyRuleId * ApproverSpec * ApprovalRequirement)).

Fixpoint scan_rules (request : AuthorizationRequest) (rules : list PolicyRule)
    (permit forbid : option PolicyRuleId)
    (approval : option (PolicyRuleId * ApproverSpec * ApprovalRequirement)) : Scan :=
  match rules with
  | [] => Scanned permit forbid approval
  | rule :: rest =>
      if negb (rule_matches request rule) then scan_rules request rest permit forbid approval
      else match rule_effect rule with
      | Forbid => scan_rules request rest permit (minimum forbid (rule_id rule)) approval
      | Permit => scan_rules request rest (minimum permit (rule_id rule)) forbid approval
      | RequireApprovalEffect =>
          match rule_approver rule, rule_approval rule with
          | Some approver, Some requirement =>
              let take_it := match approval with
                | None => true
                | Some (current, _, _) => rule_id rule <? current
                end in
              scan_rules request rest permit forbid
                (if take_it then Some (rule_id rule, approver, requirement) else approval)
          | _, _ => ScanFailed (rule_id rule)
          end
      end
  end.

(** [keys.sort()]: bytewise string order. *)
Definition sort_keys (approver : ApproverSpec) : ApproverSpec :=
  match approver with
  | Ed25519 keys threshold => Ed25519 (merge_sort String.le keys) threshold
  | LocalPresence => LocalPresence
  end.

Definition evaluate (snapshot : ValidatedSnapshot) (request : AuthorizationRequest)
    (now : Timestamp) (irrevocably_expired : bool) : Decision :=
  if irrevocably_expired || (snapshot_expires_at_ms snapshot <=? now) then
    deny snapshot SnapshotExpired None
  else match scan_rules request (snapshot_rules snapshot) None None None with
  | ScanFailed rule => deny snapshot EvaluationFailed (Some rule)
  | Scanned permit forbid approval =>
      match forbid, approval, permit with
      | Some rule, _, _ => deny snapshot ExplicitForbid (Some rule)
      | None, Some (rule, approver, requirement), _ =>
          RequireApproval (snapshot_version snapshot) (snapshot_digest snapshot) rule
            (sort_keys approver) requirement
      | None, None, Some rule =>
          Allow (snapshot_version snapshot) (snapshot_digest snapshot) rule
      | None, None, None => deny snapshot NoMatchingPermit None
      end
  end.

(** ** Rule validation *)

Definition scopes_overlap (left right : ParameterScope) : bool :=
  match left, right with
  | AnyValidated, _ | _, AnyValidated => true
  | ExactHash l, ExactHash r => str_eqb l r
  end.

(** [resolve_approver_ids]: the set of ids as an ascending list without
    duplicates. *)
Fixpoint insert_sorted (id : Z) (l : list Z) : list Z :=
  match l with
  | [] => [id]
  | x :: r => if id <? x then id :: l else x :: insert_sorted id r
  end.

Fixpoint resolve_keys (keys : list string) (approvers : list (ApproverId * Digest))
    (ids : list ApproverId) : option (list ApproverId) :=
  match keys with
  | [] => Some ids
  | key :: rest =>
      match find_map (fun '(id, public_key) =>
              if str_eqb (hexlower_encode public_key) key then Some id else None) approvers with
      | None => None
      | Some id => if bool_decide (id ∈ ids) then None
                   else resolve_keys rest approvers (insert_sorted id ids)
      end
  end.

Definition resolve_approver_ids (keys : list string) (approvers : list (ApproverId * Digest))
  : option (list ApproverId) :=
  if bool_decide (keys = []) || (32 <? llen keys) then None
  else resolve_keys keys approvers [].

Definition MAX_WINDOW_MS : Z := 8 * 60 * 60 * 1000.

Definition validate_requirement (approver : ApproverSpec) (requirement : ApprovalRequirement)
    (approvers : list (ApproverId * Digest)) : result PolicyError unit :=
  _ ← match approver with
      | LocalPresence =>
          reject_if negb (bool_decide (req_mode requirement = OneTime)) with PolicyInvalid ;;
          Ok tt
      | Ed25519 keys threshold =>
          ids ← ok_or PolicyInvalid (resolve_approver_ids keys approvers);
          reject_if negb ((1 <=? threshold) && (threshold <=? 2)) || (llen ids <? threshold)
            with PolicyInvalid ;;
          Ok tt
      end;
  match req_mode requirement with
  | OneTime =>
      if (req_max_uses requirement =? 1) && bool_decide (req_max_window_ms requirement = None)
      then Ok tt else Err PolicyInvalid
  | TimeWindow =>
      if (1 <=? req_max_uses requirement) && (req_max_uses requirement <=? 10000)
         && match req_max_window_ms requirement with
            | Some window => (1 <=? window) && (window <=? MAX_WINDOW_MS)
            | None => false
            end
      then Ok tt else Err PolicyInvalid
  end.

(** Equality of two key lists as [BTreeSet]s. *)
Definition same_keys (l r : list string) : bool :=
  forallb (fun k => bool_decide (k ∈ r)) l && forallb (fun k => bool_decide (k ∈ l)) r.

Definition requirements_equivalent (left_approver : ApproverSpec) (left : ApprovalRequirement)
    (right_approver : ApproverSpec) (right : ApprovalRequirement) : bool :=
  match left_approver, right_approver with
  | LocalPresence, LocalPresence => true
  | Ed25519 l lt, Ed25519 r rt => (lt =? rt) && same_keys l r
  | _, _ => false
  end
  && bool_decide (req_mode left = req_mode right)
  && (req_max_uses left =? req_max_uses right)
  && bool_decide (req_max_window_ms left = req_max_window_ms right).

(** [decode_lower_hex_32]. *)
Definition decode_lower_hex_32 (value : string) : result PolicyError Digest :=
  decoded ← ok_or PolicyInvalid (hexlower_decode value);
  reject_if negb (llen decoded =? 32) || negb (str_eqb (hexlower_encode decoded) value)
    with PolicyInvalid ;;
  Ok decoded.

(** The approver table: [curve_point_ok] stands for the curve25519 checks of
    [validate_ed25519_public_key] (decompression, small order, canonical form). *)
Fixpoint insert_approver (id : ApproverId) (key : Digest) (l : list (ApproverId * Digest))
  : list (ApproverId * Digest) :=
  match l with
  | [] => [(id, key)]
  | (i, k) :: r =>
      if id <? i then (id, key) :: l
      else if id =? i then (id, key) :: r
      else (i, k) :: insert_approver id key r
  end.

Definition validate_ed25519_public_key (curve_point_ok : Digest -> bool) (value : string)
  : result PolicyError Digest :=
  public_key ← decode_lower_hex_32 value;
  reject_if negb (curve_point_ok public_key) with PolicyInvalid ;;
  Ok public_key.

Fixpoint build_approvers (curve_point_ok : Digest -> bool)
    (l : list (ApproverId * string)) (approvers : list (ApproverId * Digest))
  : result PolicyError (list (ApproverId * Digest)) :=
  match l with
  | [] => Ok approvers
  | (id, text) :: rest =>
      key ← validate_ed25519_public_key curve_point_ok text;
      reject_if bool_decide (id ∈ map fst approvers) || bool_decide (key ∈ map snd approvers)
        with PolicyInvalid ;;
      build_approvers curve_point_ok rest (insert_approver id key approvers)
  end.

(** One rule of the second loop. *)
Definition validate_rule {S} (bindings : list (ActionBinding S))
    (approvers : list (ApproverId * Digest)) (seen : list PolicyRuleId) (rule : PolicyRule)
  : result PolicyError unit :=
  reject_if (rule_version rule =? 0) || bool_decide (rule_id rule ∈ seen) with PolicyInvalid ;;
  binding ← ok_or PolicyInvalid
    (find_first (fun b => bool_decide (binding_action b = rule_action rule)) bindings);
  reject_if negb (bool_decide (binding_resource binding = rule_resource rule))
    with PolicyInvalid ;;
  _ ← match rule_parameters rule with
      | ExactHash h => _ ← decode_lower_hex_32 h; Ok tt
      | AnyValidated => Ok tt
      end;
  match rule_effect rule, rule_approver rule, rule_approval rule with
  | (Permit | Forbid), None, None => Ok tt
  | RequireApprovalEffect, Some approver, Some requirement =>
      validate_requirement approver requirement approvers
  | _, _, _ => Err PolicyInvalid
  end.

Fixpoint validate_rule_list {S} (bindings : list (ActionBinding S))
    (approvers : list (ApproverId * Digest)) (seen : list PolicyRuleId)
    (rules : list PolicyRule) : result PolicyError unit :=
  match rules with
  | [] => Ok tt
  | rule :: rest =>
      _ ← validate_rule bindings approvers seen rule;
      validate_rule_list bindings approvers (rule_id rule :: seen) rest
  end.

(** The pairwise scan: two approval rules one request may match must ask for the
    same approval. *)
Definition ambiguous_pair (lhs rhs : PolicyRule) : bool :=
  bool_decide (rule_effect rhs = RequireApprovalEffect)
  && (rule_principal_id lhs =? rule_principal_id rhs)
  && bool_decide (rule_action lhs = rule_action rhs)
  && bool_decide (rule_resource lhs = rule_resource rhs)
  && scopes_overlap (rule_parameters lhs) (rule_parameters rhs)
  && match rule_approver lhs, rule_approval lhs, rule_approver rhs, rule_approval rhs with
     | Some la, Some lr, Some ra, Some rr => negb (requirements_equivalent la lr ra rr)
     | _, _, _, _ => true
     end.

Fixpoint reject_ambiguous (rules : list PolicyRule) : result PolicyError unit :=
  match rules with
  | [] => Ok tt
  | lhs :: rest =>
      reject_if bool_decide (rule_effect lhs = RequireApprovalEffect)
                && existsb (ambiguous_pair lhs) rest with PolicyInvalid ;;
      reject_ambiguous rest
  end.

Definition validate_rules {S} (bindings : list (ActionBinding S))
    (approvers : list (ApproverId * Digest)) (rules : list PolicyRule)
  : result PolicyError unit :=
  _ ← validate_rule_list bindings approvers [] rules;
  reject_ambiguous rules.

End WithCodecs.

(** ** The declarative decision

    What the evaluator promises, without loops or accumulators: an expired
    snapshot denies; otherwise the matching rule of least id decides, forbidding
    before requiring approval before permitting, and no matching rule denies. *)

Section Specification.
Context {CC : Codecs}.
Implicit Types (snapshot : ValidatedSnapshot) (request : AuthorizationRequest).

Definition matching request (effect : RuleEffect) (rules : list PolicyRule) (r : PolicyRule)
  : Prop := r ∈ rules /\ rule_matches request r = true /\ rule_effect r = effect.

Definition none_matching request effect rules : Prop :=
  forall r, ~ matching request effect rules r.

Definition least_matching request effect rules r : Prop :=
  matching request effect rules r /\
  forall r', matching request effect rules r' -> rule_id r <= rule_id r'.

Definition live snapshot (now : Timestamp) (irrevocably_expired : bool) : Prop :=
  irrevocably_expired = false /\ now < snapshot_expires_at_ms snapshot.

Inductive decides snapshot request now expired : Decision -> Prop :=
  | decides_expired :
      ~ live snapshot now expired ->
      decides snapshot request now expired (deny snapshot SnapshotExpired None)
  | decides_forbid r :
      live snapshot now expired ->
      least_matching request Forbid (snapshot_rules snapshot) r ->
      decides snapshot request now expired
        (deny snapshot ExplicitForbid (Some (rule_id r)))
  | decides_approval r approver requirement :
      live snapshot now expired ->
      none_matching request Forbid (snapshot_rules snapshot) ->
      least_matching request RequireApprovalEffect (snapshot_rules snapshot) r ->
      rule_approver r = Some approver -> rule_approval r = Some requirement ->
      decides snapshot request now expired
        (RequireApproval (snapshot_version snapshot) (snapshot_digest snapshot)
           (rule_id r) (sort_keys approver) requirement)
  | decides_permit r :
      live snapshot now expired ->
      none_matching request Forbid (snapshot_rules snapshot) ->
      none_matching request RequireApprovalEffect (snapshot_rules snapshot) ->
      least_matching request Permit (snapshot_rules snapshot) r ->
      decides snapshot request now expired
        (Allow (snapshot_version snapshot) (snapshot_digest snapshot) (rule_id r))
  | decides_nothing :
      live snapshot now expired ->
      none_matching request Forbid (snapshot_rules snapshot) ->
      none_matching request RequireApprovalEffect (snapshot_rules snapshot) ->
      none_matching request Permit (snapshot_rules snapshot) ->
      decides snapshot request now expired (deny snapshot NoMatchingPermit None).

(** What validation guarantees of a rule list. *)
Definition rule_complete (r : PolicyRule) : Prop :=
  match rule_effect r, rule_approver r, rule_approval r with
  | RequireApprovalEffect, Some _, Some _ => True
  | (Permit | Forbid), None, None => True
  | _, _, _ => False
  end.

Definition rules_valid (rules : list PolicyRule) : Prop :=
  NoDup (map rule_id rules) /\ Forall rule_complete rules.

(** ** The scan computes the least matching ids *)

Definition selects request effect (r : PolicyRule) : bool :=
  rule_matches request r && bool_decide (rule_effect r = effect).

Definition pick (acc : option PolicyRule) (r : PolicyRule) : option PolicyRule :=
  match acc with
  | None => Some r
  | Some c => if rule_id r <? rule_id c then Some r else acc
  end.

Definition select_least request effect rules (acc : option PolicyRule) : option PolicyRule :=
  fold_left pick (List.filter (selects request effect) rules) acc.

Definition approval_of (r : PolicyRule)
  : option (PolicyRuleId * ApproverSpec * ApprovalRequirement) :=
  match rule_approver r, rule_approval r with
  | Some a, Some q => Some (rule_id r, a, q)
  | _, _ => None
  end.

Lemma minimum_pick acc r : minimum (rule_id <$> acc) (rule_id r) = rule_id <$> pick acc r.
Proof.
  destruct acc as [c|]; [|done]. unfold minimum, pick. simpl.
  destruct (rule_id r <? rule_id c) eqn:E; reflect_bools; simpl; f_equal; lia.
Qed.

Lemma approval_of_complete r :
  rule_complete r -> rule_effect r = RequireApprovalEffect ->
  exists a q, rule_approver r = Some a /\ rule_approval r = Some q /\
              approval_of r = Some (rule_id r, a, q).
Proof.
  unfold rule_complete, approval_of. intros Hc He. rewrite He in Hc.
  destruct (rule_approver r), (rule_approval r); try done. eauto.
Qed.

(** The optional approval accumulator is that of a complete approval rule. *)
Definition pending_ok (a : option PolicyRule) : Prop :=
  forall r, a = Some r -> rule_complete r /\ rule_effect r = RequireApprovalEffect.

Lemma pending_ok_pick a r :
  pending_ok a -> rule_complete r -> rule_effect r = RequireApprovalEffect ->
  pending_ok (pick a r).
Proof.
  unfold pending_ok, pick. intros Ha Hr He r' Hr'.
  destruct a as [c|]; [case_match|]; simplify_eq; eauto.
Qed.

Lemma scan_rules_select request rules p f a :
  Forall rule_complete rules -> pending_ok a ->
  scan_rules request rules (rule_id <$> p) (rule_id <$> f) (a ≫= approval_of) =
  Scanned (rule_id <$> select_least request Permit rules p)
          (rule_id <$> select_least request Forbid rules f)
          (select_least request RequireApprovalEffect rules a ≫= approval_of).
Proof.
  intros Hc. revert p f a. induction Hc as [|r rest Hr Hrest IH]; intros p f a Ha; [done|].
  cbn [scan_rules]. unfold select_least, selects in *. cbn [List.filter].
  destruct (rule_matches request r) eqn:Em; cbn [negb andb]; [|by apply IH].
  destruct (rule_effect r) eqn:Ee; simpl_decide; cbn [fold_left].
  - rewrite minimum_pick. by apply IH.
  - rewrite minimum_pick. by apply IH.
  - destruct (approval_of_complete r Hr Ee) as (x & q & E1 & E2 & E3).
    rewrite E1, E2, <- IH by (by apply pending_ok_pick). f_equal.
    destruct a as [c|]; cbn; [|by rewrite E3].
    destruct (Ha c eq_refl) as [Hcc Hce].
    destruct (approval_of_complete c Hcc Hce) as (y & w & _ & _ & F3).
    rewrite F3. by destruct (rule_id r <? rule_id c); cbn; rewrite ?E3, ?F3.
Qed.

Lemma fold_pick_spec l acc :
  match fold_left pick l acc with
  | None => acc = None /\ l = []
  | Some r => (r ∈ l \/ acc = Some r) /\
              (forall r', r' ∈ l -> rule_id r <= rule_id r') /\
              (forall c, acc = Some c -> rule_id r <= rule_id c)
  end.
Proof.
  revert acc. induction l as [|x t IH]; intros acc; cbn [fold_left].
  - destruct acc; [|done]. split; [by right|]. split; [by intros ? []%elem_of_nil|].
    intros; simplify_eq; lia.
  - specialize (IH (pick acc x)). destruct (fold_left pick t (pick acc x)) as [r|].
    + destruct IH as (Hin & Hl & Hacc). unfold pick in *.
      assert (rule_id r <= rule_id x /\ forall c, acc = Some c -> rule_id r <= rule_id c).
      { destruct acc as [c|]; [destruct (rule_id x <? rule_id c) eqn:E; reflect_bools;
          specialize (Hacc _ eq_refl)|specialize (Hacc _ eq_refl)];
          (split; [lia|intros; simplify_eq; lia]). }
      split; [|split; [intros r' [->|]%elem_of_cons; naive_solver|naive_solver]].
      destruct Hin as [Hin|Hin]; [left; by right|].
      destruct acc; [case_match|]; simplify_eq; (by right) || (left; left).
    + destruct IH as [Hp _]. unfold pick in Hp. destruct acc; [case_match|]; done.
Qed.

Lemma selects_matching request effect rules r :
  r ∈ List.filter (selects request effect) rules <-> matching request effect rules r.
Proof.
  rewrite list_elem_of_In, filter_In, <- list_elem_of_In. unfold selects, matching.
  by rewrite andb_true_iff, bool_decide_eq_true.
Qed.

Lemma select_least_None request effect rules :
  select_least request effect rules None = None -> none_matching request effect rules.
Proof.
  unfold select_least. intros E. pose proof (fold_pick_spec (List.filter (selects request effect) rules) None) as S.
  rewrite E in S. destruct S as [_ S]. intros r Hr%selects_matching. rewrite S in Hr.
  by apply elem_of_nil in Hr.
Qed.

Lemma select_least_Some request effect rules r :
  select_least request effect rules None = Some r -> least_matching request effect rules r.
Proof.
  unfold select_least. intros E. pose proof (fold_pick_spec (List.filter (selects request effect) rules) None) as S.
  rewrite E in S. destruct S as ([Hin|] & Hl & _); [|done]. split.
  - by apply selects_matching.
  - intros r' Hr'. apply Hl. by apply selects_matching.
Qed.

(** With distinct ids the least matching rule is unique. *)
Lemma least_matching_unique request effect rules r1 r2 :
  NoDup (map rule_id rules) ->
  least_matching request effect rules r1 -> least_matching request effect rules r2 -> r1 = r2.
Proof.
  intros Hnd [M1 L1] [M2 L2]. pose proof (L1 _ M2). pose proof (L2 _ M1).
  destruct M1 as (I1 & _), M2 as (I2 & _).
  apply list_elem_of_lookup in I1 as [i Hi], I2 as [j Hj].
  assert (i = j); [|by simplify_eq].
  eapply (NoDup_lookup (map rule_id rules)); [done | |].
  - rewrite list_lookup_fmap, Hi. done.
  - rewrite list_lookup_fmap, Hj. simpl. f_equal. lia.
Qed.

Lemma decides_functional snapshot request now expired d1 d2 :
  NoDup (map rule_id (snapshot_rules snapshot)) ->
  decides snapshot request now expired d1 -> decides snapshot request now expired d2 ->
  d1 = d2.
Proof.
  intros Hnd H1 H2. destruct H1, H2; try done;
    repeat match goal with
    | N : none_matching ?q ?e ?l, L : least_matching ?q ?e ?l _ |- _ => by destruct (N _ (proj1 L))
    | L1 : least_matching ?q ?e ?l ?r1, L2 : least_matching ?q ?e ?l ?r2 |- _ =>
        rewrite (least_matching_unique _ _ _ _ _ Hnd L1 L2) in *; clear L1
    end; congruence.
Qed.

Lemma evaluate_decides snapshot request now expired :
  rules_valid (snapshot_rules snapshot) ->
  decides snapshot request now expired (evaluate snapshot request now expired).
Proof.
  intros [Hnd Hc]. unfold evaluate.
  destruct (expired || (snapshot_expires_at_ms snapshot <=? now)) eqn:El.
  { constructor. intros [-> Hlt]. apply orb_true_iff in El as [|]; [done|]. reflect_bools. lia. }
  assert (Hl : live snapshot now expired) by (reflect_bools; split; [done|lia]).
  rewrite (scan_rules_select request _ None None None) by done.
  destruct (select_least request Forbid _ None) as [f|] eqn:Ef; cbn.
  { apply decides_forbid; [done|]. by apply select_least_Some. }
  apply select_least_None in Ef.
  destruct (select_least request RequireApprovalEffect _ None) as [a|] eqn:Ea; cbn.
  { apply select_least_Some in Ea as La. destruct (proj1 La) as (Hin & _ & He).
    rewrite Forall_forall in Hc.
    destruct (approval_of_complete a (Hc _ Hin) He) as (x & q & E1 & E2 & E3).
    rewrite E3. by apply decides_approval. }
  apply select_least_None in Ea.
  destruct (select_least request Permit _ None) as [p|] eqn:Ep; cbn.
  - apply decides_permit; try done. by apply select_least_Some.
  - apply decides_nothing; try done. by apply select_least_None.
Qed.

End Specification.

(** ** Theorems *)

Section Theorems.
Context {CC : Codecs}.
Implicit Types (snapshot : ValidatedSnapshot) (request : AuthorizationRequest).

(** C35: on validated rules the evaluator computes exactly the declarative
    decision: forbid over approval over permit, least rule id, default deny. *)
Theorem evaluate_refines_decides snapshot request now expired d
  (Hv : rules_valid (snapshot_rules snapshot)) :
  evaluate snapshot request now expired = d <-> decides snapshot request now expired d.
Proof.
  split; [intros <-; by apply evaluate_decides|]. intros Hd.
  eapply decides_functional; [apply Hv | by apply evaluate_decides | done].
Qed.

Definition with_rules snapshot (rules : list PolicyRule) : ValidatedSnapshot :=
  {| snapshot_version := snapshot_version snapshot;
     snapshot_expires_at_ms := snapshot_expires_at_ms snapshot;
     snapshot_digest := snapshot_digest snapshot;
     snapshot_rules := rules;
     snapshot_approvers := snapshot_approvers snapshot |}.

Lemma matching_permutation request effect l1 l2 r :
  l1 ≡ₚ l2 -> matching request effect l1 r -> matching request effect l2 r.
Proof. unfold matching. intros HP. by rewrite HP. Qed.

Lemma least_matching_permutation request effect l1 l2 r :
  l1 ≡ₚ l2 -> least_matching request effect l1 r -> least_matching request effect l2 r.
Proof.
  intros HP [M L]. split; [by eapply matching_permutation|].
  intros r' Hr'. apply L. by eapply matching_permutation.
Qed.

Lemma none_matching_permutation request effect l1 l2 :
  l1 ≡ₚ l2 -> none_matching request effect l1 -> none_matching request effect l2.
Proof. intros HP N r Hr. apply (N r). by eapply matching_permutation. Qed.

Lemma decides_permutation snapshot rules request now expired d :
  decides snapshot request now expired d -> snapshot_rules snapshot ≡ₚ rules ->
  decides (with_rules snapshot rules) request now expired d.
Proof.
  intros Hd HP.
  destruct Hd; [ refine (decides_expired (with_rules snapshot rules) _ _ _ _)
    | refine (decides_forbid (with_rules snapshot rules) _ _ _ r _ _)
    | refine (decides_approval (with_rules snapshot rules) _ _ _ r _ _ _ _ _ _ _)
    | refine (decides_permit (with_rules snapshot rules) _ _ _ r _ _ _ _)
    | refine (decides_nothing (with_rules snapshot rules) _ _ _ _ _ _ _) ];
    try done; cbn; eauto using least_matching_permutation, none_matching_permutation.
Qed.

(** the order of the rules in the signed snapshot never changes a decision. *)
Theorem evaluate_order_independent snapshot rules request now expired
  (Hv : rules_valid (snapshot_rules snapshot)) (HP : snapshot_rules snapshot ≡ₚ rules) :
  evaluate (with_rules snapshot rules) request now expired
  = evaluate snapshot request now expired.
Proof.
  symmetry. eapply decides_functional with (snapshot := with_rules snapshot rules).
  - cbn. rewrite <- HP. apply Hv.
  - by eapply decides_permutation; [apply evaluate_decides|].
  - apply evaluate_decides. split; cbn; rewrite <- HP; apply Hv.
Qed.

Lemma validate_rule_complete {S} (bs : list (ActionBinding S)) aps seen r :
  validate_rule bs aps seen r = Ok tt ->
  rule_id r ∉ seen /\ rule_complete r /\ rule_version r <> 0 /\
  (exists b, b ∈ bs /\ binding_action b = rule_action r /\
             binding_resource b = rule_resource r) /\
  (forall a q, rule_approver r = Some a -> rule_approval r = Some q ->
               rule_effect r = RequireApprovalEffect /\
               validate_requirement a q aps = Ok tt).
Proof.
  unfold validate_rule, mbind, result_bind, ok_or. intros H. walk H;
    match goal with E : find_first _ _ = Some _ |- _ =>
      apply find_first_Some in E as [? ?] end; reflect_bools;
    (split; [done|]; split; [unfold rule_complete; repeat case_match; by simplify_eq|];
     split; [done|]; split; [by eauto|]; intros; by simplify_eq).
Qed.

Lemma validate_rule_list_spec {S} (bs : list (ActionBinding S)) aps seen rules :
  validate_rule_list bs aps seen rules = Ok tt ->
  Forall (fun r => exists seen', validate_rule bs aps seen' r = Ok tt) rules /\
  (NoDup seen -> NoDup (map rule_id rules ++ seen)).
Proof.
  revert seen. induction rules as [|r rest IH]; intros seen; [by split|].
  cbn [validate_rule_list]. unfold mbind at 1, result_bind at 1.
  destruct (validate_rule bs aps seen r) as [[]|] eqn:E; [|done]. intros Hr.
  destruct (IH _ Hr) as [Hf Hnd]. split; [constructor; eauto|]. intros Hs.
  destruct (validate_rule_complete _ _ _ _ E) as (Hn & _). cbn.
  rewrite Permutation_middle. apply Hnd. by constructor.
Qed.

(** rules accepted at load time are what the evaluator needs: distinct ids,
    approval rules that carry their approver and limits, and only those, and
    every rule is about an action and resource the snapshot binds. *)
Theorem validate_rules_sound {S} (bs : list (ActionBinding S)) aps rules
  (Hv : validate_rules bs aps rules = Ok tt) :
  rules_valid rules /\
  forall r, r ∈ rules ->
    rule_version r <> 0 /\
    exists b, b ∈ bs /\ binding_action b = rule_action r /\
              binding_resource b = rule_resource r.
Proof.
  unfold validate_rules, mbind, result_bind in Hv.
  destruct (validate_rule_list bs aps [] rules) as [[]|] eqn:E; [|done].
  destruct (validate_rule_list_spec _ _ _ _ E) as [Hf Hnd]. split.
  - split; [rewrite <- (app_nil_r (map _ _)); apply Hnd; constructor|].
    eapply Forall_impl; [exact Hf|]. intros r [seen' Hs].
    by apply validate_rule_complete in Hs as (_ & ? & _).
  - intros r Hr. rewrite Forall_forall in Hf. destruct (Hf _ Hr) as [seen' Hs].
    apply validate_rule_complete in Hs as (_ & _ & ? & ? & _). eauto.
Qed.

Lemma scopes_overlap_match s1 s2 hash :
  scope_matches s1 hash = true -> scope_matches s2 hash = true ->
  scopes_overlap s1 s2 = true.
Proof.
  destruct s1, s2; try done. cbn. unfold str_eqb. intros ??. reflect_bools. subst.
  by apply bool_decide_eq_true.
Qed.

Lemma reject_ambiguous_spec rules :
  reject_ambiguous rules = Ok tt -> forall i j l r, (i < j)%nat ->
  rules !! i = Some l -> rules !! j = Some r ->
  rule_effect l = RequireApprovalEffect -> ambiguous_pair l r = false.
Proof.
  induction rules as [|x rest IH]; intros H i j l r Hij Hi Hj He; [done|].
  cbn [reject_ambiguous] in H. destruct (_ && _) eqn:E in H; [done|].
  destruct j as [|j]; [lia|]. destruct i as [|i]; simpl in *.
  - simplify_eq. rewrite bool_decide_eq_true_2 in E by done. cbn in E.
    rewrite existsb_false_elem in E. apply E. by eapply list_elem_of_lookup_2.
  - apply (IH H i j); [lia|done..].
Qed.

(** in a validated snapshot every approval rule a request matches asks for the
    same approval, so the least id decides which rule is cited and nothing else. *)
Theorem approval_requirement_unambiguous {S} (bs : list (ActionBinding S)) aps rules
    request i j l r la lq ra rq
  (Hv : validate_rules bs aps rules = Ok tt)
  (Hi : rules !! i = Some l) (Hj : rules !! j = Some r) (Hij : (i < j)%nat)
  (Ml : rule_matches request l = true) (Mr : rule_matches request r = true)
  (El : rule_approver l = Some la) (Ql : rule_approval l = Some lq)
  (Er : rule_approver r = Some ra) (Qr : rule_approval r = Some rq) :
  requirements_equivalent la lq ra rq = true.
Proof.
  unfold validate_rules, mbind, result_bind in Hv.
  destruct (validate_rule_list bs aps [] rules) as [[]|] eqn:E; [|done].
  destruct (validate_rule_list_spec _ _ _ _ E) as [Hf _]. rewrite Forall_forall in Hf.
  destruct (Hf l) as [s1 V1]; [by eapply list_elem_of_lookup_2|].
  destruct (Hf r) as [s2 V2]; [by eapply list_elem_of_lookup_2|].
  apply validate_rule_complete in V1 as (_ & _ & _ & _ & V1), V2 as (_ & _ & _ & _ & V2).
  destruct (V1 _ _ El Ql) as [He1 _], (V2 _ _ Er Qr) as [He2 _].
  pose proof (reject_ambiguous_spec _ Hv i j l r Hij Hi Hj He1) as Ha.
  unfold rule_matches in Ml, Mr. reflect_bools.
  assert (Hs : scopes_overlap (rule_parameters l) (rule_parameters r) = true)
    by (eapply scopes_overlap_match; eauto).
  unfold ambiguous_pair in Ha. rewrite He2, El, Ql, Er, Qr, Hs in Ha.
  rewrite (proj2 (Z.eqb_eq (rule_principal_id l) (rule_principal_id r))) in Ha by congruence.
  rewrite !bool_decide_eq_true_2 in Ha by congruence. cbn in Ha. by apply negb_false_iff in Ha.
Qed.

End Theorems.

(** ** Concrete runs *)

Definition example_res : ResourceRef := mkResourceRef "repo" "owner/name".
Definition example_rule (id : Z) (e : RuleEffect) (a : option ApproverSpec)
    (q : option ApprovalRequirement) : PolicyRule :=
  mkPolicyRule id e 7 3 1 example_res AnyValidated a q.
Definition example_requirement : ApprovalRequirement := mkApprovalRequirement OneTime 1 None.
Definition example_rules : list PolicyRule :=
  [ example_rule 40 Permit None None;
    example_rule 20 RequireApprovalEffect (Some LocalPresence) (Some example_requirement);
    example_rule 30 RequireApprovalEffect (Some LocalPresence) (Some example_requirement) ].
Definition example_bindings : list (ActionBinding unit) :=
  [ mkActionBinding 3 1 example_res "schema/v1" tt ].
Definition example_snapshot : ValidatedSnapshot :=
  mkValidatedSnapshot 5 1000 (repeat 1 32) example_rules [].
Definition example_request : AuthorizationRequest :=
  mkAuthorizationRequest (mkPrincipal 1 7 9) (mkActionVersionRef 3 1) example_res
    (mkCanonicalParameters "schema/v1" (repeat 2 32) []).

Lemma example_rules_valid : rules_valid example_rules.
Proof. split; [by apply (bool_decide_unpack (NoDup _)); vm_compute | repeat constructor]. Qed.

Lemma evaluate_refines_decides_witness :
  decides example_snapshot example_request 10 false
    (RequireApproval 5 (repeat 1 32) 20 LocalPresence example_requirement).
Proof.
  apply (proj1 (evaluate_refines_decides example_snapshot example_request 10 false
    (RequireApproval 5 (repeat 1 32) 20 LocalPresence example_requirement)
    example_rules_valid)).
  vm_compute. reflexivity.
Defined.

Lemma evaluate_order_independent_witness :
  evaluate (with_rules example_snapshot (rev example_rules)) example_request 10 false
  = evaluate example_snapshot example_request 10 false.
Proof.
  apply (evaluate_order_independent example_snapshot (rev example_rules)).
  - exact example_rules_valid.
  - apply (Permutation_rev example_rules).
Defined.

Lemma validate_rules_sound_witness :
  rules_valid example_rules /\
  (forall r, r ∈ example_rules -> rule_version r <> 0 /\
     exists b, b ∈ example_bindings /\ binding_action b = rule_action r /\
               binding_resource b = rule_resource r).
Proof.
  apply (validate_rules_sound example_bindings [] example_rules). vm_compute. reflexivity.
Defined.

Lemma approval_requirement_unambiguous_witness :
  requirements_equivalent LocalPresence example_requirement
    LocalPresence example_requirement = true.
Proof.
  apply (approval_requirement_unambiguous example_bindings [] example_rules example_request
           1 2
           (example_rule 20 RequireApprovalEffect (Some LocalPresence) (Some example_requirement))
           (example_rule 30 RequireApprovalEffect (Some LocalPresence) (Some example_requirement)));
    vm_compute; (reflexivity || lia).
Defined.
