(* ===== verification/SessionState.v ===== *)
(** * SessionState: the data of the capability session registry

    [rekey-broker/src/session.rs] and [session/approval.rs]: the registry's
    entries, approval challenges, permits and guards, with the checks and
    retention rule that every operation shares.

    An [Instant] is a count of nanoseconds of the monotonic clock. Each reading
    of a clock is an argument, one argument per reading, so no theorem assumes
    that two readings agree. [Notify::notify_waiters] changes no state and is
    left out; the audit context a local review carries is only copied and is
    left out. A [Weak] owner of a profile session is an owner name, alive while
    [live_owners] counts at least one strong [Arc] of it. *)

From S2P Require Import Prelude Strings Errors Domain Codec.

(** ** Instants *)

Abbreviation Instant := Z (only parsing).
(** [i64] seconds and nanoseconds, the representation of the Unix targets. *)
Definition instant_max : Z := i64_max * 1000000000 + 999999999.
Definition from_millis (ms : Z) : Z := ms * 1000000.
Definition checked_add (i : Instant) (d : Z) : option Instant :=
  if i + d <=? instant_max then Some (i + d) else None.

(** ** Approval challenges (approval.rs, ipc.rs) *)

Definition APPROVAL_PENDING_MAX : Z := 128.

Record ApprovalChallenge := mkApprovalChallenge {
  ch_record_type : string;
  ch_approval_request_id : ApprovalRequestId;
  ch_tenant_id : TenantId;
  ch_principal_id : PrincipalId;
  ch_session_id : SessionId;
  ch_action_id : ActionId;
  ch_action_version : Z;
  ch_resource : ResourceRef;
  ch_schema_id : string;
  ch_parameter_sha256 : string;
  ch_policy_version : Z;
  ch_policy_sha256 : string;
  ch_policy_rule_id : PolicyRuleId;
  ch_mode : ApprovalMode;
  ch_approver : ApproverSpec;
  ch_max_uses : Z;
  ch_created_at_ms : Z;
  ch_max_expires_at_ms : Z;
}.

Inductive ChallengeState : Type :=
  | Pending
  | Approved (id : ApprovalId)
  | Consumed
  | Cancelled
  | Expired.

Record LocalReview := mkLocalReview {
  review_hash : string;
  review_body : list Z;
}.

Record StoredChallenge := mkStoredChallenge {
  challenge : ApprovalChallenge;
  monotonic_anchor : Instant;
  challenge_deadline : Instant;
  challenge_state : ChallengeState;
  review : option LocalReview;
}.

Record ApprovalUsage := mkApprovalUsage {
  usage_approval_id : ApprovalId;
  usage_grant_digest : Digest;
  uses : Z;
}.

Record ExpiredApproval := mkExpiredApproval {
  expired_approval_id : ApprovalId;
  expired_grant_digest : Digest;
}.

#[export] Instance ChallengeState_eq_dec : EqDecision ChallengeState.
Proof. solve_decision. Defined.

Definition is_local (stored : StoredChallenge) : bool :=
  match review stored with Some _ => true | None => false end.

Definition set_state (s : ChallengeState) (stored : StoredChallenge) : StoredChallenge :=
  mkStoredChallenge (challenge stored) (monotonic_anchor stored) (challenge_deadline stored)
    s (review stored).

(** [review.body.zeroize()]: the buffer is wiped and emptied. *)
Definition zeroize_review (stored : StoredChallenge) : StoredChallenge :=
  mkStoredChallenge (challenge stored) (monotonic_anchor stored) (challenge_deadline stored)
    (challenge_state stored)
    (match review stored with
     | Some r => Some (mkLocalReview (review_hash r) [])
     | None => None
     end).

Definition is_open (s : ChallengeState) : bool :=
  match s with Pending | Approved _ => true | _ => false end.

(** [refresh_local]. *)
Definition refresh_local (now : Timestamp) (mono : Instant) (stored : StoredChallenge)
  : StoredChallenge :=
  if is_open (challenge_state stored)
     && ((now <? ch_created_at_ms (challenge stored))
         || (ch_max_expires_at_ms (challenge stored) <=? now)
         || (challenge_deadline stored <=? mono))
  then zeroize_review (set_state Expired stored)
  else stored.

(** [challenge_is_pending], with the challenge it leaves behind. *)
Definition challenge_is_pending (now : Timestamp) (mono : Instant) (stored : StoredChallenge)
  : StoredChallenge * bool :=
  if negb (bool_decide (challenge_state stored = Pending)) then (stored, false)
  else if (is_local stored && (now <? ch_created_at_ms (challenge stored)))
          || (ch_max_expires_at_ms (challenge stored) <=? now)
          || (challenge_deadline stored <=? mono)
  then (zeroize_review (set_state Expired stored), false)
  else (stored, true).

(** ** Profile scopes (session.rs) *)

Record ProfileSessionScope := mkProfileSessionScope {
  scope_profile : AgentProfile;
  scope_policy_sha256 : Digest;
}.

Record ProfileActionScope := mkProfileActionScope {
  pas_profile_name : string;
  pas_instance_slug : string;
  pas_capability : string;
  pas_llm_limits : option ProfileLlmLimit;
  pas_policy_sha256 : Digest;
}.

(** [ProfileSessionScope::action]: the first capability that lists the action. *)
Definition scope_action (scope : ProfileSessionScope) (wanted : ActionVersionRef)
  : result DomainError ProfileActionScope :=
  ok_or InvalidCapability
    (find_map (fun grant =>
       find_map (fun cap =>
         if bool_decide (wanted ∈ actions cap) then
           Some (mkProfileActionScope (profile_name (scope_profile scope)) (instance grant)
                   (capability cap)
                   (find_first (fun limit => str_eqb (limit_instance limit) (instance grant))
                      (llm_limits (scope_profile scope)))
                   (scope_policy_sha256 scope))
         else None) (capabilities grant)) (grants (scope_profile scope))).

(** ** Registry entries *)

Abbreviation Owner := Z (only parsing).

Record Entry := mkEntry {
  token_hash : Digest;
  grant : SessionGrant;
  provenance : SessionProvenance;
  profile_scope : option ProfileSessionScope;
  control_owner : option Owner;
  action_timeouts : list (ActionVersionRef * Z);
  uses_left : Z;
  in_flight : Z;
  revoked : bool;
  exhausted : bool;
  monotonic_deadline : Instant;
  approval_challenges : list StoredChallenge;
  approval_uses : list ApprovalUsage;
  expired_approvals : list ExpiredApproval;
}.

(** The mutable part of an entry, replaced field by field. *)
Definition set_counters (uses flight : Z) (exh : bool) (e : Entry) : Entry :=
  mkEntry (token_hash e) (grant e) (provenance e) (profile_scope e) (control_owner e)
    (action_timeouts e) uses flight (revoked e) exh (monotonic_deadline e)
    (approval_challenges e) (approval_uses e) (expired_approvals e).
Definition set_revoked (e : Entry) : Entry :=
  mkEntry (token_hash e) (grant e) (provenance e) (profile_scope e) (control_owner e)
    (action_timeouts e) (uses_left e) (in_flight e) true (exhausted e)
    (monotonic_deadline e) (approval_challenges e) (approval_uses e) (expired_approvals e).
Definition set_deadline (d : Instant) (e : Entry) : Entry :=
  mkEntry (token_hash e) (grant e) (provenance e) (profile_scope e) (control_owner e)
    (action_timeouts e) (uses_left e) (in_flight e) (revoked e) (exhausted e) d
    (approval_challenges e) (approval_uses e) (expired_approvals e).
Definition set_challenges (l : list StoredChallenge) (e : Entry) : Entry :=
  mkEntry (token_hash e) (grant e) (provenance e) (profile_scope e) (control_owner e)
    (action_timeouts e) (uses_left e) (in_flight e) (revoked e) (exhausted e)
    (monotonic_deadline e) l (approval_uses e) (expired_approvals e).
Definition set_usage (u : list ApprovalUsage) (x : list ExpiredApproval) (e : Entry) : Entry :=
  mkEntry (token_hash e) (grant e) (provenance e) (profile_scope e) (control_owner e)
    (action_timeouts e) (uses_left e) (in_flight e) (revoked e) (exhausted e)
    (monotonic_deadline e) (approval_challenges e) u x.

Definition entry_id (e : Entry) : SessionId := grant_id (grant e).
Definition has_id (id : SessionId) (e : Entry) : bool := entry_id e =? id.
Definition has_token (hash : Digest) (e : Entry) : bool := bool_decide (token_hash e = hash).

(** [entry.grant.expired_at(now) || mono >= entry.monotonic_deadline]. *)
Definition entry_expired (now : Timestamp) (mono : Instant) (e : Entry) : bool :=
  expired_at (grant e) now || (monotonic_deadline e <=? mono).

(** [compact_entries]: the retention rule. *)
Definition keeps (mono : Instant) (e : Entry) : bool :=
  (0 <? in_flight e)
  || (negb (revoked e) && (mono <? monotonic_deadline e)
      && (negb (exhausted e) || bool_decide (is_Some (profile_scope e))
          || existsb is_local (approval_challenges e))).
Definition compact_entries (mono : Instant) (entries : list Entry) : list Entry :=
  retain (keeps mono) entries.

Definition CONTROL_OWNER_LIMIT : Z := 16.

(** [SessionRegistry] with the mutex's [Inner] and the control-owner semaphore. *)
Record SessionRegistry := mkSessionRegistry {
  closed : bool;
  entries : list Entry;
  live_owners : gmap Z nat;
}.

Definition set_entries (l : list Entry) (r : SessionRegistry) : SessionRegistry :=
  mkSessionRegistry (closed r) l (live_owners r).

(** [SessionRegistry::new]: closed until admission is opened. *)
Definition new_registry : SessionRegistry := mkSessionRegistry true [] ∅.

Record SessionTicket := mkSessionTicket {
  ticket_session_id : SessionId;
  ticket_principal : Principal;
  ticket_action : ActionVersionRef;
  ticket_timeout_ms : Z;
  ticket_expires_at_ms : Z;
  ticket_profile_scope : option ProfileActionScope;
  ticket_control_owner : option Owner;
}.

Record ExecutionPermit := mkExecutionPermit {
  use_refunded : bool;
  permit_session_id : SessionId;
  permit_principal : Principal;
  permit_action : ActionVersionRef;
  permit_timeout_ms : Z;
  permit_expires_at_ms : Z;
  permit_profile_scope : option ProfileActionScope;
  permit_control_owner : option Owner;
}.

Record ProfileSessionGuard := mkProfileSessionGuard {
  guard_session_id : SessionId;
  guard_control_owner : Owner;
}.

Inductive CreateSessionError : Type :=
  | CreateClosed
  | CreateDomain (e : DomainError).
