(* ===== verification/Session.v ===== *)
(** * Session: the operations of the capability session registry

    [rekey-broker/src/session.rs]. Every operation takes the registry (the state
    behind the mutex) and returns the registry it leaves with its result; a
    failing operation may still have changed the registry, as in the source. The
    process aborts on a poisoned mutex, which the model leaves out. *)

From S2P Require Import Prelude Strings Errors Domain Codec SessionState.

Section WithCodecs.
Context {CC : Codecs}.

(** ** Control owners: the semaphore and the strong counts *)

(** [reserve_control_owner]; [fresh] names the new [Arc]. *)
Definition reserve_control_owner (fresh : Owner) (r : SessionRegistry)
  : SessionRegistry * result AuthorityError Owner :=
  if Z.of_nat (size (live_owners r)) <? CONTROL_OWNER_LIMIT then
    (mkSessionRegistry (closed r) (entries r) (<[fresh := 1%nat]> (live_owners r)), Ok fresh)
  else (r, Err Authority.AuthorityBusy).

(** [Weak::upgrade] and the drop of one [Arc]. *)
Definition upgrade (o : Owner) (owners : gmap Z nat) : option (gmap Z nat) :=
  match owners !! o with
  | Some (S n) => Some (<[o := S (S n)]> owners)
  | _ => None
  end.
Definition drop_owner (o : Owner) (owners : gmap Z nat) : gmap Z nat :=
  match owners !! o with
  | Some (S (S n)) => <[o := S n]> owners
  | _ => delete o owners
  end.
Definition drop_owner_opt (o : option Owner) (owners : gmap Z nat) : gmap Z nat :=
  match o with Some o => drop_owner o owners | None => owners end.

(** ** Authentication *)

(** The decoding at the head of [begin], [profile_inventory] and
    [local_state_for_owner]. *)
Definition wanted_hash (token : string) : result BrokerError Digest :=
  raw ← ok_or (BDomain InvalidCapability) (base64url_decode token);
  reject_if negb (llen raw =? CAPABILITY_TOKEN_BYTES) with BDomain InvalidCapability ;;
  Ok (sha256 raw).

(** [inventory_live]. *)
Definition inventory_live (now : Timestamp) (mono : Instant) (entry : Entry)
  : Entry * result BrokerError unit :=
  if revoked entry then (entry, Err (BDomain InvalidCapability))
  else if entry_expired now mono entry then
    (set_revoked entry, Err (BDomain CapabilityExpired))
  else if uses_left entry =? 0 then
    (entry, Err (if 0 <? in_flight entry then BAuthority Authority.AuthorityBusy
                 else BDomain CapabilityExhausted))
  else (entry, Ok tt).

(** [profile_inventory]: authenticate without reserving an execution. *)
Definition profile_inventory (token : string) (now : Timestamp) (mono : Instant)
    (r : SessionRegistry)
  : SessionRegistry * result BrokerError (SessionId * ProfileSessionScope * Z) :=
  match wanted_hash token with
  | Err e => (r, Err e)
  | Ok wanted =>
      if closed r then (r, Err (BDomain InvalidCapability))
      else match split_last (has_token wanted) (entries r) with
      | None => (r, Err (BDomain InvalidCapability))
      | Some (pre, entry, post) =>
          let '(entry', live) := inventory_live now mono entry in
          (set_entries (pre ++ entry' :: post) r,
           _ ← live;
           scope ← ok_or (BDomain InvalidCapability) (profile_scope entry');
           Ok (entry_id entry', scope, expires_at (grant entry')))
      end
  end.

(** [ensure_inventory_live]. *)
Definition ensure_inventory_live (id : SessionId) (now : Timestamp) (mono : Instant)
    (r : SessionRegistry) : SessionRegistry * result BrokerError unit :=
  if closed r then (r, Err (BDomain InvalidCapability))
  else match split_first (has_id id) (entries r) with
  | None => (r, Err (BDomain InvalidCapability))
  | Some (pre, entry, post) =>
      let '(entry', live) := inventory_live now mono entry in
      (set_entries (pre ++ entry' :: post) r, live)
  end.

(** ** Admission *)

(** [admit_inner]. [entropy] is the outcome of the OS generator; [mono] is the
    reading the deadline is computed from and [mono'] the one [compact_entries]
    makes. *)
Definition admit_inner (entropy : option (list Z)) (mono mono' : Instant)
    (g : SessionGrant) (timeouts : list (ActionVersionRef * Z)) (prov : SessionProvenance)
    (scope : option ProfileSessionScope) (deadline : option Instant)
    (owner : option Owner) (r : SessionRegistry)
  : SessionRegistry * result CreateSessionError string :=
  match entropy with
  | None => (r, Err (CreateDomain InvalidCapability))
  | Some raw =>
      let ttl_ms := i64_saturating_sub (expires_at g) (issued_at g) in
      match checked_add mono (from_millis (i64_as_u64 ttl_ms)) with
      | None => (r, Err (CreateDomain InvalidCapability))
      | Some mono_deadline =>
          let mono_deadline := match deadline with
            | None => mono_deadline
            | Some cap => Z.min cap mono_deadline
            end in
          let entry := mkEntry (sha256 raw) g prov scope owner timeouts (max_uses g) 0
                         false false mono_deadline [] [] [] in
          if closed r then (r, Err CreateClosed)
          else (set_entries (compact_entries mono' (entries r) ++ [entry]) r,
                Ok (base64url_encode raw))
      end
  end.

Definition admit_with_provenance (entropy : option (list Z)) (mono mono' : Instant)
    (g : SessionGrant) (timeouts : list (ActionVersionRef * Z)) (prov : SessionProvenance)
    (r : SessionRegistry) : SessionRegistry * result CreateSessionError string :=
  admit_inner entropy mono mono' g timeouts prov None None None r.

Definition admit_session (entropy : option (list Z)) (mono mono' : Instant)
    (g : SessionGrant) (timeouts : list (ActionVersionRef * Z))
    (r : SessionRegistry) : SessionRegistry * result CreateSessionError string :=
  admit_with_provenance entropy mono mono' g timeouts ProvAdmin r.

Definition admit_profile (entropy : option (list Z)) (mono mono' : Instant)
    (g : SessionGrant) (timeouts : list (ActionVersionRef * Z))
    (scope : ProfileSessionScope) (deadline : Instant) (owner : Owner)
    (r : SessionRegistry)
  : SessionRegistry * result CreateSessionError (string * ProfileSessionGuard) :=
  let '(r', token) := admit_inner entropy mono mono' g timeouts ProvAdmin
                        (Some scope) (Some deadline) (Some owner) r in
  (r', token ← token; Ok (token, mkProfileSessionGuard (grant_id g) owner)).

(** ** Execution *)

(** The body of [begin] on the authenticated entry. [owners] are the strong
    counts the owner upgrade reads and increments. *)
Definition begin_entry (wanted : ActionVersionRef) (now : Timestamp) (mono : Instant)
    (owners : gmap Z nat) (entry : Entry)
  : Entry * gmap Z nat * result BrokerError SessionTicket :=
  if revoked entry then (entry, owners, Err (BDomain InvalidCapability))
  else if entry_expired now mono entry then
    (set_revoked entry, owners, Err (BDomain CapabilityExpired))
  else if negb (allows (grant entry) wanted) then
    (entry, owners, Err (BDomain ActionNotAllowed))
  else match find_map (fun '(action, timeout_ms) =>
               if bool_decide (action = wanted) then Some timeout_ms else None)
             (action_timeouts entry) with
  | None => (entry, owners, Err (BDomain InvalidCapability))
  | Some timeout_ms =>
      if uses_left entry =? 0 then
        if 0 <? in_flight entry then
          (entry, owners, Err (BAuthority Authority.AuthorityBusy))
        else (set_counters (uses_left entry) (in_flight entry) true entry, owners,
              Err (BDomain CapabilityExhausted))
      else if SESSION_MAX_CONCURRENT_EXECUTIONS <=? in_flight entry then
        (entry, owners, Err (BDomain InvalidCapability))
      else
        match match profile_scope entry with
              | None => Ok None
              | Some scope => map_err BDomain (Some <$> scope_action scope wanted)
              end with
        | Err e => (entry, owners, Err e)
        | Ok action_scope =>
            match match control_owner entry with
                  | None => Some owners
                  | Some o => upgrade o owners
                  end with
            | None => (entry, owners, Err (BDomain InvalidCapability))
            | Some owners' =>
                let remaining := uses_left entry - 1 in
                (set_counters remaining (in_flight entry + 1)
                   (if remaining =? 0 then true else exhausted entry) entry,
                 owners',
                 Ok (mkSessionTicket (entry_id entry) (grant_principal (grant entry)) wanted
                       timeout_ms (expires_at (grant entry)) action_scope
                       (control_owner entry)))
            end
        end
  end.

(** [SessionRegistry::begin]. *)
Definition begin (token : string) (wanted : ActionVersionRef) (now : Timestamp)
    (mono : Instant) (r : SessionRegistry)
  : SessionRegistry * result BrokerError SessionTicket :=
  match wanted_hash token with
  | Err e => (r, Err e)
  | Ok hash =>
      match split_last (has_token hash) (entries r) with
      | None => (r, Err (BDomain InvalidCapability))
      | Some (pre, entry, post) =>
          let '(entry', owners', res) := begin_entry wanted now mono (live_owners r) entry in
          (mkSessionRegistry (closed r) (pre ++ entry' :: post) owners', res)
      end
  end.

(** [SessionRegistry::acquire]. *)
Definition permit_of (t : SessionTicket) : ExecutionPermit :=
  mkExecutionPermit false (ticket_session_id t) (ticket_principal t) (ticket_action t)
    (ticket_timeout_ms t) (ticket_expires_at_ms t) (ticket_profile_scope t)
    (ticket_control_owner t).
Definition acquire (token : string) (wanted : ActionVersionRef) (now : Timestamp)
    (mono : Instant) (r : SessionRegistry)
  : SessionRegistry * result BrokerError ExecutionPermit :=
  let '(r', ticket) := begin token wanted now mono r in (r', permit_of <$> ticket).

(** [SessionRegistry::finish]: release the concurrency slot. *)
Definition finish_entry (e : Entry) : Entry :=
  set_counters (uses_left e) (u32_saturating_sub (in_flight e) 1) (exhausted e) e.
Definition finish (id : SessionId) (mono : Instant) (r : SessionRegistry) : SessionRegistry :=
  set_entries (compact_entries mono (update_first (has_id id) finish_entry (entries r))) r.

(** [Drop for ExecutionPermit]: [finish], then the owner field is dropped. *)
Definition drop_permit (p : ExecutionPermit) (mono : Instant) (r : SessionRegistry)
  : SessionRegistry :=
  let r' := finish (permit_session_id p) mono r in
  mkSessionRegistry (closed r') (entries r')
    (drop_owner_opt (permit_control_owner p) (live_owners r')).

(** [ExecutionPermit::with_live_handoff]: the closure runs only on this path. *)
Definition with_live_handoff {R} (p : ExecutionPermit) (now : Timestamp)
    (mono mono' : Instant) (effect_deadline : Instant) (handoff : unit -> R)
    (r : SessionRegistry) : result BrokerError R :=
  reject_if closed r with BDomain InvalidCapability ;;
  entry ← ok_or (BDomain InvalidCapability)
    (find_first (has_id (permit_session_id p)) (entries r));
  reject_if revoked entry || (in_flight entry =? 0) with BDomain InvalidCapability ;;
  reject_if expired_at (grant entry) now || (monotonic_deadline entry <=? mono)
            || (effect_deadline <=? mono') with BDomain CapabilityExpired ;;
  reject_if negb (allows (grant entry) (permit_action p)) with BDomain ActionNotAllowed ;;
  Ok (handoff tt).

(** ** Revocation *)

Definition bound_management_deadline (session : SessionId) (deadline : Instant)
    (r : SessionRegistry) : SessionRegistry * bool :=
  match split_first (fun e => has_id session e && negb (revoked e)) (entries r) with
  | None => (r, false)
  | Some (pre, entry, post) =>
      (set_entries (pre ++ set_deadline (Z.min (monotonic_deadline entry) deadline) entry
                    :: post) r, true)
  end.

Definition revoke (id : SessionId) (mono : Instant) (r : SessionRegistry)
  : SessionRegistry * bool :=
  match split_first (has_id id) (entries r) with
  | Some (pre, entry, post) =>
      (set_entries (compact_entries mono (pre ++ set_revoked entry :: post)) r, true)
  | None => (r, false)
  end.

(** [Drop for ProfileSessionGuard]. *)
Definition drop_guard (g : ProfileSessionGuard) (mono : Instant) (r : SessionRegistry)
  : SessionRegistry :=
  let '(r', _) := revoke (guard_session_id g) mono r in
  mkSessionRegistry (closed r') (entries r') (drop_owner (guard_control_owner g) (live_owners r')).

(** One turn of the loop of [wait_revoked]: [None] when it returns, otherwise the
    instant it sleeps until. [now] is [None] when the wall clock cannot be read. *)
Definition wait_revoked_turn (id : SessionId) (now : option Timestamp) (mono mono' : Instant)
    (r : SessionRegistry) : SessionRegistry * option Instant :=
  match split_first (has_id id) (entries r) with
  | None => (r, None)
  | Some (pre, entry, post) =>
      if revoked entry
         || match now with None => true | Some now => expired_at (grant entry) now end
         || (monotonic_deadline entry <=? mono)
      then (set_entries (pre ++ set_revoked entry :: post) r, None)
      else (r, Some (Z.min (monotonic_deadline entry) (mono' + from_millis 1000)))
  end.

Definition revoke_where (p : Entry -> bool) (l : list Entry) : list Entry :=
  map (fun e => if p e then set_revoked e else e) l.

Definition revoke_all (mono : Instant) (r : SessionRegistry) : SessionRegistry :=
  set_entries (compact_entries mono (revoke_where (fun _ => true) (entries r))) r.

Definition revoke_workload (mono : Instant) (r : SessionRegistry) : SessionRegistry :=
  set_entries (compact_entries mono
    (revoke_where (fun e => bool_decide (provenance e = ProvWorkload)) (entries r))) r.

Definition close_and_revoke_all (mono : Instant) (r : SessionRegistry) : SessionRegistry :=
  mkSessionRegistry true
    (compact_entries mono (revoke_where (fun _ => true) (entries r))) (live_owners r).

Definition open_for_admission (r : SessionRegistry) : SessionRegistry :=
  mkSessionRegistry false (entries r) (live_owners r).

Definition reaches_action (action_ids : list ActionId) (e : Entry) : bool :=
  existsb (fun a => bool_decide (action_id a ∈ action_ids)) (allowed_actions (grant e)).
Definition revoke_by_actions (action_ids : list ActionId) (mono : Instant)
    (r : SessionRegistry) : SessionRegistry :=
  set_entries (compact_entries mono (revoke_where (reaches_action action_ids) (entries r))) r.

(** [revoke_principal]: counts of live capabilities and pending challenges. *)
Fixpoint count_pending (now : Timestamp) (mono : Instant) (l : list StoredChallenge)
  : list StoredChallenge * Z :=
  match l with
  | [] => ([], 0)
  | c :: rest =>
      let '(c', pending) := challenge_is_pending now mono c in
      let '(rest', n) := count_pending now mono rest in
      (c' :: rest', (if pending : bool then 1 else 0) + n)
  end.

Fixpoint revoke_principal_entries (principal : PrincipalId) (now : Timestamp)
    (mono : Instant) (l : list Entry) : list Entry * (Z * Z) :=
  match l with
  | [] => ([], (0, 0))
  | e :: rest =>
      let '(rest', (caps, pend)) := revoke_principal_entries principal now mono rest in
      if (principal_id (grant_principal (grant e)) =? principal) && negb (revoked e) then
        let live := negb (exhausted e) && (mono <? monotonic_deadline e)
                    && (now <? expires_at (grant e)) in
        let '(cs, n) := count_pending now mono (approval_challenges e) in
        (set_revoked (set_challenges cs e) :: rest',
         ((if live then 1 else 0) + caps, n + pend))
      else (e :: rest', (caps, pend))
  end.

Definition revoke_principal (principal : PrincipalId) (now : option Timestamp)
    (mono mono' : Instant) (r : SessionRegistry) : SessionRegistry * (Z * Z) :=
  let now := match now with Some t => t | None => i64_max end in
  let '(l, counts) := revoke_principal_entries principal now mono (entries r) in
  (set_entries (compact_entries mono' l) r, counts).

(** ** Counters *)

Definition active_count (now : Timestamp) (mono : Entry -> Instant) (r : SessionRegistry) : Z :=
  llen (List.filter (fun e => negb (revoked e) && negb (exhausted e)
                              && negb (expired_at (grant e) now)
                              && (mono e <? monotonic_deadline e)) (entries r)).

Definition in_flight_total (r : SessionRegistry) : Z :=
  fold_right (fun e n => in_flight e + n) 0 (entries r).

End WithCodecs.
