(* ===== verification/Approval.v ===== *)
(** * Approval: challenges, local decisions and signed approval grants

    [rekey-broker/src/session/approval.rs]: the operations on the approval
    challenges of the registry's entries. A challenge found through an iterator
    chain is a zipper ([locate_local]); a rejection is its code. *)

From S2P Require Import Prelude Strings Errors Domain Codec SessionState Session.

(** [rekey-policy/src/signed.rs]: a signature-checked grant. *)
Record SignedApprovalGrant := mkSignedApprovalGrant {
  g_format_version : Z;
  g_approval_id : ApprovalId;
  g_approval_request_id : ApprovalRequestId;
  g_approver_id : ApproverId;
  g_tenant_id : TenantId;
  g_principal_id : PrincipalId;
  g_session_id : SessionId;
  g_action_id : ActionId;
  g_action_version : Z;
  g_resource : ResourceRef;
  g_schema_id : string;
  g_parameter_sha256 : string;
  g_policy_version : Z;
  g_policy_sha256 : string;
  g_policy_rule_id : PolicyRuleId;
  g_mode : ApprovalMode;
  g_not_before_ms : Z;
  g_expires_at_ms : Z;
  g_max_uses : Z;
  g_signature : string;
}.

Record VerifiedApprovalGrant := mkVerifiedApprovalGrant {
  vg_grant : SignedApprovalGrant;
  vg_parameter_hash : Digest;
  vg_policy_digest : Digest;
  vg_grant_digest : Digest;
}.

Record ApprovalContext := mkApprovalContext {
  cx_principal : Principal;
  cx_action : ActionVersionRef;
  cx_resource : ResourceRef;
  cx_schema_id : string;
  cx_parameter_hash : Digest;
  cx_policy_version : Z;
  cx_policy_digest : Digest;
  cx_policy_rule_id : PolicyRuleId;
  cx_approver : ApproverSpec;
  cx_allowed_approver_ids : list ApproverId;
  cx_requirement : ApprovalRequirement;
}.

(** [rekey-vault/src/model.rs]. *)
Record ApprovalEvidence := mkApprovalEvidence {
  ev_approval_request_id : ApprovalRequestId;
  ev_approval_id : option ApprovalId;
  ev_approver_id : option ApproverId;
}.

Record ApprovalReservation := mkApprovalReservation {
  evidence : list ApprovalEvidence;
  not_after : Instant;
  wall_not_after_ms : Z;
}.

Inductive LocalApprovalState : Type :=
  | LPending | LApproved | LConsumed | LCancelled | LExpired.

Record LocalApproval := mkLocalApproval {
  la_challenge : ApprovalChallenge;
  la_state : LocalApprovalState;
  la_review_sha256 : string;
  la_deadline : Instant;
}.

Record LocalApprovalStateResponse := mkLocalApprovalStateResponse {
  resp_approval_request_id : ApprovalRequestId;
  resp_state : LocalApprovalState;
  resp_expires_at_ms : Z;
}.

Definition local_state (s : ChallengeState) : LocalApprovalState :=
  match s with
  | Pending => LPending
  | Approved _ => LApproved
  | Consumed => LConsumed
  | Cancelled => LCancelled
  | Expired => LExpired
  end.

(** [local_snapshot]; called only on challenges with a review. *)
Definition local_snapshot (stored : StoredChallenge) : LocalApproval :=
  mkLocalApproval (challenge stored) (local_state (challenge_state stored))
    (match review stored with Some r => review_hash r | None => EmptyString end)
    (challenge_deadline stored).

Definition response (l : LocalApproval) : LocalApprovalStateResponse :=
  mkLocalApprovalStateResponse (ch_approval_request_id (la_challenge l)) (la_state l)
    (ch_max_expires_at_ms (la_challenge l)).

Definition set_use_refunded (p : ExecutionPermit) : ExecutionPermit :=
  mkExecutionPermit true (permit_session_id p) (permit_principal p) (permit_action p)
    (permit_timeout_ms p) (permit_expires_at_ms p) (permit_profile_scope p)
    (permit_control_owner p).

Definition has_request_id (id : ApprovalRequestId) (c : StoredChallenge) : bool :=
  ch_approval_request_id (challenge c) =? id.
Definition local_target (id : ApprovalRequestId) (c : StoredChallenge) : bool :=
  is_local c && has_request_id id c.

(** The entry an outstanding permit belongs to, while its session is live. *)
Definition serves (id : SessionId) (e : Entry) : bool :=
  has_id id e && negb (revoked e) && (0 <? in_flight e).

Section WithCodecs.
Context {CC : Codecs}.

(** ** Counting pending challenges *)

(** [pending_count] over one entry's challenges: local ones are counted without
    being refreshed. *)
Fixpoint pending_challenges (now : Timestamp) (mono : Instant) (l : list StoredChallenge)
  : list StoredChallenge * Z :=
  match l with
  | [] => ([], 0)
  | c :: rest =>
      let '(c', counted) :=
        if is_local c then (c, true) else challenge_is_pending now mono c in
      let '(rest', n) := pending_challenges now mono rest in
      (c' :: rest', (if counted : bool then 1 else 0) + n)
  end.

Fixpoint pending_count (now : Timestamp) (mono : Instant) (l : list Entry)
  : list Entry * Z :=
  match l with
  | [] => ([], 0)
  | e :: rest =>
      let '(rest', n) := pending_count now mono rest in
      if revoked e then (e :: rest', n)
      else
        let '(cs, k) := pending_challenges now mono (approval_challenges e) in
        (set_challenges cs e :: rest', k + n)
  end.

(** ** Validation against the execution *)

Definition tuple_matches (c : ApprovalChallenge) (cx : ApprovalContext) : bool :=
  (ch_tenant_id c =? tenant_id (cx_principal cx))
  && (ch_principal_id c =? principal_id (cx_principal cx))
  && (ch_session_id c =? principal_session_id (cx_principal cx))
  && (ch_action_id c =? action_id (cx_action cx))
  && (ch_action_version c =? version (cx_action cx))
  && bool_decide (ch_resource c = cx_resource cx)
  && str_eqb (ch_schema_id c) (cx_schema_id cx)
  && str_eqb (ch_parameter_sha256 c) (hexlower_encode (cx_parameter_hash cx))
  && (ch_policy_version c =? cx_policy_version cx)
  && str_eqb (ch_policy_sha256 c) (hexlower_encode (cx_policy_digest cx))
  && (ch_policy_rule_id c =? cx_policy_rule_id cx)
  && bool_decide (ch_mode c = req_mode (cx_requirement cx))
  && bool_decide (ch_approver c = cx_approver cx)
  && (ch_max_uses c =? req_max_uses (cx_requirement cx)).

(** [validate_challenge]. *)
Definition validate_challenge (cx : ApprovalContext) (now : Timestamp) (mono : Instant)
    (stored : StoredChallenge) : StoredChallenge * result string unit :=
  if negb (tuple_matches (challenge stored) cx) then
    (stored, Err "approval-tuple-mismatch")
  else if bool_decide (challenge_state stored = Expired) then
    (stored, Err "approval-challenge-expired")
  else if (ch_max_expires_at_ms (challenge stored) <=? now)
          || (challenge_deadline stored <=? mono) then
    (set_state Expired stored, Err "approval-challenge-expired")
  else (stored, Ok tt).

(** [monotonic_expiry_offset]. *)
Definition monotonic_expiry_offset (expires_at_ms created_at_ms : Z) : result string Z :=
  match i64_checked_sub expires_at_ms created_at_ms with
  | Some d => if 0 <? d then Ok (from_millis d) else Err "approval-window-invalid"
  | None => Err "approval-window-invalid"
  end.

Definition grant_tuple_matches (v : VerifiedApprovalGrant) (c : ApprovalChallenge)
    (cx : ApprovalContext) : bool :=
  let g := vg_grant v in
  (g_tenant_id g =? ch_tenant_id c)
  && (g_principal_id g =? ch_principal_id c)
  && (g_session_id g =? ch_session_id c)
  && (g_action_id g =? ch_action_id c)
  && (g_action_version g =? ch_action_version c)
  && bool_decide (g_resource g = ch_resource c)
  && str_eqb (g_schema_id g) (ch_schema_id c)
  && bool_decide (vg_parameter_hash v = cx_parameter_hash cx)
  && (g_policy_version g =? ch_policy_version c)
  && bool_decide (vg_policy_digest v = cx_policy_digest cx)
  && (g_policy_rule_id g =? ch_policy_rule_id c)
  && bool_decide (g_mode g = ch_mode c).

(** [validate_grant]. *)
Definition validate_grant (v : VerifiedApprovalGrant) (cx : ApprovalContext)
    (now : Timestamp) (stored : StoredChallenge) (mono : Instant) : result string Instant :=
  let g := vg_grant v in
  let c := challenge stored in
  reject_if negb (grant_tuple_matches v c cx) with "approval-tuple-mismatch" ;;
  reject_if negb (bool_decide (g_approver_id g ∈ cx_allowed_approver_ids cx))
    with "approval-approver-not-allowed" ;;
  reject_if ch_max_uses c <? g_max_uses g with "approval-use-limit-invalid" ;;
  reject_if now <? g_not_before_ms g with "approval-not-yet-valid" ;;
  reject_if ch_max_expires_at_ms c <? g_expires_at_ms g with "approval-expired" ;;
  reject_if bool_decide (g_mode g = OneTime)
            && (10 * 60 * 1000 <? i64_saturating_sub (g_expires_at_ms g) (g_not_before_ms g))
    with "approval-window-invalid" ;;
  offset ← monotonic_expiry_offset (g_expires_at_ms g) (ch_created_at_ms c);
  derived ← ok_or "approval-window-invalid" (checked_add (monotonic_anchor stored) offset);
  let derived := Z.min derived (challenge_deadline stored) in
  reject_if derived <=? mono with "approval-expired" ;;
  Ok derived.

(** ** Signed grants *)

Definition find_usage (id : ApprovalId) (l : list ApprovalUsage) : option ApprovalUsage :=
  find_first (fun u => usage_approval_id u =? id) l.
Definition find_expired (id : ApprovalId) (l : list ExpiredApproval) : option ExpiredApproval :=
  find_first (fun x => expired_approval_id x =? id) l.

(** The first loop of [reserve_approvals]: every grant is checked before any use
    is recorded. The list returned is [expired_approvals] as the loop leaves it. *)
Fixpoint check_approvals (cx : ApprovalContext) (now : Timestamp) (stored : StoredChallenge)
    (mono : Instant) (usage : list ApprovalUsage) (expired : list ExpiredApproval)
    (grants : list VerifiedApprovalGrant)
    (approval_ids : list ApprovalId) (approver_ids : list ApproverId)
    (bound : Instant) (wall : Z)
  : list ExpiredApproval * result string (list ApproverId * Instant * Z) :=
  match grants with
  | [] => (expired, Ok (approver_ids, bound, wall))
  | v :: rest =>
      let g := vg_grant v in
      if bool_decide (g_approval_id g ∈ approval_ids) then
        (expired, Err "approval-id-duplicate")
      else if bool_decide (g_approver_id g ∈ approver_ids) then
        (expired, Err "approval-approver-duplicate")
      else match find_expired (g_approval_id g) expired with
      | Some x =>
          (expired, Err (if bool_decide (expired_grant_digest x = vg_grant_digest v)
                         then "approval-expired" else "approval-id-conflict"))
      | None =>
          if g_expires_at_ms g <=? now then
            (expired ++ [mkExpiredApproval (g_approval_id g) (vg_grant_digest v)],
             Err "approval-expired")
          else match validate_grant v cx now stored mono with
          | Err e => (expired, Err e)
          | Ok deadline =>
              let next := check_approvals cx now stored mono usage expired rest
                (g_approval_id g :: approval_ids) (g_approver_id g :: approver_ids)
                (Z.min bound deadline) (Z.min wall (g_expires_at_ms g)) in
              match find_usage (g_approval_id g) usage with
              | Some u =>
                  if negb (bool_decide (usage_grant_digest u = vg_grant_digest v)) then
                    (expired, Err "approval-id-conflict")
                  else if g_max_uses g <=? uses u then
                    (expired, Err "approval-use-exhausted")
                  else next
              | None => next
              end
          end
      end
  end.

(** The second loop: record one use of every grant. *)
Fixpoint record_use (id : ApprovalId) (digest : Digest) (l : list ApprovalUsage)
  : list ApprovalUsage :=
  match l with
  | [] => [mkApprovalUsage id digest 1]
  | u :: rest =>
      if usage_approval_id u =? id
      then mkApprovalUsage id (usage_grant_digest u) (uses u + 1) :: rest
      else u :: record_use id digest rest
  end.

Definition record_uses (grants : list VerifiedApprovalGrant) (l : list ApprovalUsage)
  : list ApprovalUsage :=
  fold_left (fun acc v => record_use (g_approval_id (vg_grant v)) (vg_grant_digest v) acc)
    grants l.

Definition evidence_of (request_id : ApprovalRequestId) (v : VerifiedApprovalGrant)
  : ApprovalEvidence :=
  mkApprovalEvidence request_id (Some (g_approval_id (vg_grant v)))
    (Some (g_approver_id (vg_grant v))).

(** [reserve_approvals] on the entry and challenge it found. *)
Definition reserve_entry (cx : ApprovalContext) (threshold : Z)
    (grants : list VerifiedApprovalGrant) (request_id : ApprovalRequestId)
    (now : Timestamp) (mono : Instant) (entry : Entry)
  : Entry * result string ApprovalReservation :=
  match split_first (has_request_id request_id) (approval_challenges entry) with
  | None => (entry, Err "approval-challenge-unknown")
  | Some (pre, stored, post) =>
      let '(stored', valid) := validate_challenge cx now mono stored in
      let entry' := set_challenges (pre ++ stored' :: post) entry in
      match valid with
      | Err e => (entry', Err e)
      | Ok tt =>
          let '(expired', checked) :=
            check_approvals cx now stored' mono (approval_uses entry)
              (expired_approvals entry) grants [] []
              (challenge_deadline stored') (ch_max_expires_at_ms (challenge stored')) in
          let entry' := set_usage (approval_uses entry) expired' entry' in
          match checked with
          | Err e => (entry', Err e)
          | Ok (approver_ids, bound, wall) =>
              if llen approver_ids <? threshold then
                (entry', Err "approval-insufficient-quorum")
              else
                (set_usage (record_uses grants (approval_uses entry)) expired'
                   (set_challenges (pre ++ set_state Consumed stored' :: post) entry),
                 Ok (mkApprovalReservation (map (evidence_of request_id) grants) bound wall))
          end
      end
  end.

Definition reserve_approvals (cx : ApprovalContext) (grants : list VerifiedApprovalGrant)
    (now : Timestamp) (mono : Instant) (r : SessionRegistry)
  : SessionRegistry * result string ApprovalReservation :=
  match cx_approver cx with
  | LocalPresence => (r, Err "approval-approver-unsupported")
  | Ed25519 _ threshold =>
      match grants with
      | [] => (r, Err "approval-insufficient-quorum")
      | first :: _ =>
          let request_id := g_approval_request_id (vg_grant first) in
          if 2 <? llen grants then (r, Err "approval-insufficient-quorum")
          else if existsb (fun v => negb (g_approval_request_id (vg_grant v) =? request_id))
                    grants then (r, Err "approval-request-mismatch")
          else match split_first (serves (principal_session_id (cx_principal cx)))
                       (entries r) with
          | None => (r, Err "approval-session-unavailable")
          | Some (pre, entry, post) =>
              let '(entry', res) := reserve_entry cx threshold grants request_id now mono entry in
              (set_entries (pre ++ entry' :: post) r, res)
          end
      end
  end.

(** ** Publishing challenges *)

(** [store_approval_challenge]: [mono] is read before the lock is taken. *)
Definition store_approval_challenge (c : ApprovalChallenge) (anchor deadline : Instant)
    (now : Timestamp) (mono mono' : Instant) (r : SessionRegistry)
  : SessionRegistry * result string unit :=
  let l := compact_entries mono' (entries r) in
  match split_first (serves (ch_session_id c)) l with
  | None => (set_entries l r, Err "approval-session-unavailable")
  | Some (_, entry, _) =>
      if existsb (has_request_id (ch_approval_request_id c)) (approval_challenges entry)
      then (set_entries l r, Err "approval-state-conflict")
      else
        let '(l', count) := pending_count now mono l in
        if APPROVAL_PENDING_MAX <=? count then
          (set_entries l' r, Err "approval-inbox-overflow")
        else
          let stored := mkStoredChallenge c anchor deadline Pending None in
          (set_entries (update_first (serves (ch_session_id c))
             (fun e => set_challenges (approval_challenges e ++ [stored]) e) l') r, Ok tt)
  end.

(** [refund_local_wait] on the entry and permit. *)
Definition refund_entry (entry : Entry) (p : ExecutionPermit)
  : Entry * ExecutionPermit * result BrokerError unit :=
  if use_refunded p then (entry, p, Err (Denied "approval-state-conflict"))
  else match u32_checked_add (uses_left entry) 1 with
  | None => (entry, p, Err (Denied "approval-state-conflict"))
  | Some refunded =>
      (set_counters refunded (in_flight entry) false entry, set_use_refunded p, Ok tt)
  end.

(** [local_capacity]; [now] is the outcome of reading the wall clock. *)
Definition local_capacity (now : result BrokerError Timestamp) (mono mono' : Instant)
    (r : SessionRegistry) : SessionRegistry * result BrokerError unit :=
  let l := compact_entries mono (entries r) in
  match now with
  | Err e => (set_entries l r, Err e)
  | Ok now =>
      let '(l', count) := pending_count now mono' l in
      (set_entries l' r,
       if APPROVAL_PENDING_MAX <=? count then Err (Denied "approval-inbox-overflow")
       else Ok tt)
  end.

(** [publish_local_pending]. *)
Definition publish_local_pending (p : ExecutionPermit) (c : ApprovalChallenge)
    (body : list Z) (hash : string) (anchor deadline : Instant)
    (now : result BrokerError Timestamp) (mono : Instant) (r : SessionRegistry)
  : SessionRegistry * ExecutionPermit * result BrokerError LocalApproval :=
  if closed r then (r, p, Err (Denied "approval-inbox-overflow"))
  else match now with
  | Err e => (r, p, Err e)
  | Ok now =>
      let '(l, count) := pending_count now mono (entries r) in
      if APPROVAL_PENDING_MAX <=? count then
        (set_entries l r, p, Err (Denied "approval-inbox-overflow"))
      else match split_first (serves (permit_session_id p)) l with
      | None => (set_entries l r, p, Err (Denied "approval-session-unavailable"))
      | Some (pre, entry, post) =>
          let stored := mkStoredChallenge c anchor
            (Z.min deadline (monotonic_deadline entry)) Pending
            (Some (mkLocalReview hash body)) in
          let entry1 := set_challenges (approval_challenges entry ++ [stored]) entry in
          let '(entry2, p', refunded) := refund_entry entry1 p in
          (set_entries (pre ++ entry2 :: post) r, p',
           _ ← refunded; Ok (local_snapshot stored))
      end
  end.

(** [SessionRegistry::refund_local_wait]. *)
Definition refund_local_wait (p : ExecutionPermit) (id : ApprovalRequestId)
    (r : SessionRegistry) : SessionRegistry * ExecutionPermit * result BrokerError unit :=
  match split_first (serves (permit_session_id p)) (entries r) with
  | None => (r, p, Err (Denied "approval-session-unavailable"))
  | Some (pre, entry, post) =>
      if negb (existsb (fun c => local_target id c && is_open (challenge_state c))
                 (approval_challenges entry))
      then (r, p, Err (Denied "approval-challenge-unavailable"))
      else
        let '(entry', p', res) := refund_entry entry p in
        (set_entries (pre ++ entry' :: post) r, p', res)
  end.

(** ** Local decisions *)

(** [local_stored]: the first local challenge with this id on a live entry.
    [mono] is the reading made for each entry. *)
Definition live_target (id : ApprovalRequestId) (mono : Entry -> Instant) (e : Entry) : bool :=
  negb (revoked e) && (mono e <? monotonic_deadline e)
  && existsb (local_target id) (approval_challenges e).

(** Runs [f] on the challenge [local_stored] finds. *)
Definition with_local_stored {R} (id : ApprovalRequestId) (mono : Entry -> Instant)
    (f : StoredChallenge -> StoredChallenge * result BrokerError R) (r : SessionRegistry)
  : SessionRegistry * result BrokerError R :=
  if closed r then (r, Err (Denied "approval-session-unavailable"))
  else match split_first (live_target id mono) (entries r) with
  | None => (r, Err (Denied "approval-challenge-unknown"))
  | Some (pre, entry, post) =>
      match split_first (local_target id) (approval_challenges entry) with
      | None => (r, Err (Denied "approval-challenge-unknown"))
      | Some (cpre, stored, cpost) =>
          let '(stored', res) := f stored in
          (set_entries (pre ++ set_challenges (cpre ++ stored' :: cpost) entry :: post) r, res)
      end
  end.

(** [decide_local]: approve with [Some id], reject with [None]. *)
Definition decide_stored (hash : string) (approval_id : option ApprovalId)
    (now : Timestamp) (mono : Instant) (stored0 : StoredChallenge)
  : StoredChallenge * result BrokerError LocalApprovalStateResponse :=
  let stored := refresh_local now mono stored0 in
  let review_ok := match review stored with
    | Some r => str_eqb (review_hash r) hash | None => false end in
  if negb review_ok then (stored, Err (Denied "approval-review-mismatch"))
  else if bool_decide (is_Some approval_id)
          && negb (bool_decide (challenge_state stored = Pending)) then
    (stored, Err (Denied "approval-challenge-unavailable"))
  else if negb (is_open (challenge_state stored)) then
    (stored, Ok (response (local_snapshot stored)))
  else
    let stored' := match approval_id with
      | Some id => set_state (Approved id) stored
      | None => zeroize_review (set_state Cancelled stored)
      end in
    (stored', Ok (response (local_snapshot stored'))).

Definition decide_local (id : ApprovalRequestId) (hash : string)
    (approval_id : option ApprovalId) (now : Timestamp) (mono : Entry -> Instant)
    (mono' : Instant) (r : SessionRegistry)
  : SessionRegistry * result BrokerError LocalApprovalStateResponse :=
  with_local_stored id mono (decide_stored hash approval_id now mono') r.

(** [cancel_local_unconfirmed]. *)
Definition cancel_unconfirmed (id : ApprovalRequestId) (c : StoredChallenge)
  : StoredChallenge :=
  if local_target id c && is_open (challenge_state c)
  then zeroize_review (set_state Cancelled c) else c.
Definition cancel_local_unconfirmed (id : ApprovalRequestId) (r : SessionRegistry)
  : SessionRegistry :=
  set_entries (map (fun e => set_challenges
    (map (cancel_unconfirmed id) (approval_challenges e)) e) (entries r)) r.

(** [consume_local]. *)
Definition consume_stored (cx : ApprovalContext) (id : ApprovalRequestId)
    (now : Timestamp) (mono mono' : Instant) (stored0 : StoredChallenge)
  : StoredChallenge * result BrokerError ApprovalReservation :=
  let stored := refresh_local now mono stored0 in
  let '(stored, valid) := validate_challenge cx now mono' stored in
  match valid with
  | Err e => (stored, Err (Denied e))
  | Ok tt =>
      match challenge_state stored with
      | Approved approval_id =>
          (zeroize_review (set_state Consumed stored),
           Ok (mkApprovalReservation
                 [mkApprovalEvidence id (Some approval_id) None]
                 (challenge_deadline stored)
                 (ch_max_expires_at_ms (challenge stored))))
      | _ => (stored, Err (Denied "approval-challenge-unavailable"))
      end
  end.

Definition consume_local (p : ExecutionPermit) (cx : ApprovalContext)
    (id : ApprovalRequestId) (now : Timestamp) (mono mono' : Instant) (r : SessionRegistry)
  : SessionRegistry * result BrokerError ApprovalReservation :=
  match split_first (serves (permit_session_id p)) (entries r) with
  | None => (r, Err (Denied "approval-session-unavailable"))
  | Some (pre, entry, post) =>
      match split_first (local_target id) (approval_challenges entry) with
      | None => (r, Err (Denied "approval-challenge-unknown"))
      | Some (cpre, stored, cpost) =>
          let '(stored', res) := consume_stored cx id now mono mono' stored in
          (set_entries (pre ++ set_challenges (cpre ++ stored' :: cpost) entry :: post) r, res)
      end
  end.

(** [local_for_execution]: the loop over the entry's challenges. *)
Fixpoint scan_local (cx : ApprovalContext) (wanted : option ApprovalRequestId)
    (now : Timestamp) (mono mono' : Instant) (l : list StoredChallenge)
  : list StoredChallenge * result BrokerError (option LocalApproval) :=
  match l with
  | [] => ([], if bool_decide (is_Some wanted)
               then Err (Denied "approval-challenge-unknown") else Ok None)
  | c :: rest =>
      if negb (is_local c)
         || match wanted with
            | Some id => negb (id =? ch_approval_request_id (challenge c))
            | None => false
            end
      then let '(rest', res) := scan_local cx wanted now mono mono' rest in (c :: rest', res)
      else
        let '(c', valid) := validate_challenge cx now mono' (refresh_local now mono c) in
        if bool_decide (is_Some wanted) then
          (c' :: rest, _ ← map_err Denied valid; Ok (Some (local_snapshot c')))
        else if is_ok valid && is_open (challenge_state c') then
          (c' :: rest, Ok (Some (local_snapshot c')))
        else
          let '(rest', res) := scan_local cx wanted now mono mono' rest in (c' :: rest', res)
  end.

Definition local_for_execution (p : ExecutionPermit) (cx : ApprovalContext)
    (wanted : option ApprovalRequestId) (now : Timestamp) (mono mono' : Instant)
    (r : SessionRegistry) : SessionRegistry * result BrokerError (option LocalApproval) :=
  match split_first (fun e => has_id (permit_session_id p) e && negb (revoked e)) (entries r) with
  | None => (r, Err (Denied "approval-session-unavailable"))
  | Some (pre, entry, post) =>
      let '(cs, res) := scan_local cx wanted now mono mono' (approval_challenges entry) in
      (set_entries (pre ++ set_challenges cs entry :: post) r, res)
  end.

(** [local_state_for_owner]. *)
Definition set_la_deadline (d : Instant) (l : LocalApproval) : LocalApproval :=
  mkLocalApproval (la_challenge l) (la_state l) (la_review_sha256 l) d.

Definition local_state_for_owner (token : string) (id : ApprovalRequestId)
    (now : Timestamp) (mono mono' : Instant) (r : SessionRegistry)
  : SessionRegistry * result BrokerError LocalApproval :=
  match wanted_hash token with
  | Err e => (r, Err e)
  | Ok hash =>
      if closed r then (r, Err (BDomain InvalidCapability))
      else match split_last (has_token hash) (entries r) with
      | None => (r, Err (BDomain InvalidCapability))
      | Some (pre, entry, post) =>
          if revoked entry then (r, Err (BDomain InvalidCapability))
          else if entry_expired now mono entry then
            (set_entries (pre ++ set_revoked entry :: post) r,
             Err (BDomain CapabilityExpired))
          else match split_first (local_target id) (approval_challenges entry) with
          | None => (r, Err (Denied "approval-challenge-unknown"))
          | Some (cpre, stored, cpost) =>
              let stored' := refresh_local now mono' stored in
              let snapshot := local_snapshot stored' in
              (set_entries (pre ++ set_challenges (cpre ++ stored' :: cpost) entry :: post) r,
               Ok (set_la_deadline (Z.min (la_deadline snapshot) (monotonic_deadline entry))
                     snapshot))
          end
      end
  end.

End WithCodecs.
