(* ===== verification/Evolution.v ===== *)
(** * Evolution: what every registry operation may do to an entry

    [evolves e e'] is the relation all operations respect: identity, token,
    grant and scope of an entry never change, revocation is never undone, the
    monotonic deadline only shrinks, challenges are only appended and move along
    [state_evolves], and recorded approval uses only grow. [rewrites R] lifts a
    relation to the registry's list, where an entry may be dropped only when
    nothing is in flight on it. *)

From S2P Require Import Prelude Strings Errors Domain Codec SessionState Session Approval.

(** ** Challenges *)

(** The life of a challenge. [Expired] is final, a decided challenge is never
    decided again, and an approval is never exchanged for another one. *)
Definition state_evolves (s s' : ChallengeState) : Prop :=
  match s, s' with
  | Pending, _ => True
  | Approved a, Approved b => a = b
  | Approved _, Pending => False
  | Approved _, _ => True
  | Consumed, (Consumed | Expired) => True
  | Consumed, _ => False
  | Cancelled, (Cancelled | Consumed | Expired) => True
  | Cancelled, _ => False
  | Expired, Expired => True
  | Expired, _ => False
  end.

#[export] Instance state_evolves_refl : Reflexive state_evolves.
Proof. by intros []. Qed.
#[export] Instance state_evolves_trans : Transitive state_evolves.
Proof. intros [] [] []; simpl; by (intros; subst). Qed.

Definition review_id (c : StoredChallenge) : option string := review_hash <$> review c.

Definition challenge_evolves (c c' : StoredChallenge) : Prop :=
  challenge c' = challenge c /\ monotonic_anchor c' = monotonic_anchor c /\
  challenge_deadline c' = challenge_deadline c /\ review_id c' = review_id c /\
  state_evolves (challenge_state c) (challenge_state c').

#[export] Instance challenge_evolves_refl : Reflexive challenge_evolves.
Proof. intros c. repeat split. apply state_evolves_refl. Qed.
#[export] Instance challenge_evolves_trans : Transitive challenge_evolves.
Proof.
  intros c1 c2 c3 (A1 & A2 & A3 & A4 & A5) (B1 & B2 & B3 & B4 & B5).
  repeat split; try congruence. by etrans.
Qed.

Definition challenges_evolve (l l' : list StoredChallenge) : Prop :=
  exists old new, l' = old ++ new /\ Forall2 challenge_evolves l old.

#[export] Instance challenges_evolve_refl : Reflexive challenges_evolve.
Proof. intros l. exists l, []. split; [by rewrite app_nil_r|reflexivity]. Qed.
#[export] Instance challenges_evolve_trans : Transitive challenges_evolve.
Proof.
  intros l1 l2 l3 (o1 & n1 & -> & F1) (o2 & n2 & -> & F2).
  apply Forall2_app_inv_l in F2 as (o & n & Fo & Fn & ->).
  exists o, (n ++ n2). split; [by rewrite app_assoc|]. by etrans.
Qed.

Lemma challenges_evolve_pointwise l l' : Forall2 challenge_evolves l l' -> challenges_evolve l l'.
Proof. intros F. exists l', []. by rewrite app_nil_r. Qed.

Lemma challenges_evolve_app l l' : challenges_evolve l (l ++ l').
Proof. exists l, l'. split; [done|reflexivity]. Qed.

Lemma challenges_evolve_zip pre c c' post :
  challenge_evolves c c' -> challenges_evolve (pre ++ c :: post) (pre ++ c' :: post).
Proof.
  intros Hc. apply challenges_evolve_pointwise. apply Forall2_app; [reflexivity|].
  by constructor.
Qed.

(** ** Approval uses *)

(** A recorded grant keeps its digest and its count never falls. *)
Definition usage_evolves (l l' : list ApprovalUsage) : Prop :=
  forall id u, find_usage id l = Some u ->
  exists u', find_usage id l' = Some u' /\
             usage_grant_digest u' = usage_grant_digest u /\ uses u <= uses u'.

#[export] Instance usage_evolves_refl : Reflexive usage_evolves.
Proof. intros l id u H. exists u. repeat split; [done|lia]. Qed.
#[export] Instance usage_evolves_trans : Transitive usage_evolves.
Proof.
  intros l1 l2 l3 H12 H23 id u Hu. destruct (H12 _ _ Hu) as (u2 & Hu2 & D2 & L2).
  destruct (H23 _ _ Hu2) as (u3 & Hu3 & D3 & L3). exists u3. repeat split; [done|congruence|lia].
Qed.

(** ** Entries *)

Record evolves (e e' : Entry) : Prop := {
  ev_token : token_hash e' = token_hash e;
  ev_grant : grant e' = grant e;
  ev_provenance : provenance e' = provenance e;
  ev_scope : profile_scope e' = profile_scope e;
  ev_owner : control_owner e' = control_owner e;
  ev_timeouts : action_timeouts e' = action_timeouts e;
  ev_revoked : revoked e = true -> revoked e' = true;
  ev_deadline : monotonic_deadline e' <= monotonic_deadline e;
  ev_challenges : challenges_evolve (approval_challenges e) (approval_challenges e');
  ev_usage : usage_evolves (approval_uses e) (approval_uses e');
}.

#[export] Instance evolves_refl : Reflexive evolves.
Proof. intros e. split; try done. Qed.
#[export] Instance evolves_trans : Transitive evolves.
Proof.
  intros e1 e2 e3 [] []. split; try congruence; try lia; auto; by etrans.
Qed.

(** An evolution that moves no counter. *)
Definition quiet (e e' : Entry) : Prop :=
  evolves e e' /\ uses_left e' = uses_left e /\ in_flight e' = in_flight e.

#[export] Instance quiet_refl : Reflexive quiet.
Proof. intros e. split; [reflexivity|done]. Qed.
#[export] Instance quiet_trans : Transitive quiet.
Proof.
  intros e1 e2 e3 (A & A1 & A2) (B & B1 & B2). split; [by etrans|].
  split; congruence.
Qed.

Lemma quiet_revoked e : quiet e (set_revoked e).
Proof. split; [|done]. split; try done. Qed.
Lemma quiet_deadline d e : quiet e (set_deadline (Z.min (monotonic_deadline e) d) e).
Proof. split; [|done]. split; try done; cbn; lia. Qed.
Lemma quiet_exhausted b e : quiet e (set_counters (uses_left e) (in_flight e) b e).
Proof. split; [|done]. split; try done. Qed.
Lemma quiet_challenges l e :
  challenges_evolve (approval_challenges e) l -> quiet e (set_challenges l e).
Proof. intros Hc. split; [|done]. split; try done. Qed.
Lemma quiet_usage u x e :
  usage_evolves (approval_uses e) u -> quiet e (set_usage u x e).
Proof. intros Hu. split; [|done]. split; try done. Qed.

#[export] Hint Resolve quiet_revoked quiet_deadline quiet_exhausted quiet_challenges
  challenges_evolve_zip challenges_evolve_pointwise challenges_evolve_app : rekey.

(** ** The registry's list *)

Inductive rewrites (R : Entry -> Entry -> Prop) : list Entry -> list Entry -> Prop :=
  | rewrites_nil : rewrites R [] []
  | rewrites_keep e e' l l' : R e e' -> rewrites R l l' -> rewrites R (e :: l) (e' :: l')
  | rewrites_drop e l l' : in_flight e <= 0 -> rewrites R l l' -> rewrites R (e :: l) l'.

Lemma rewrites_pointwise R l l' : Forall2 R l l' -> rewrites R l l'.
Proof. induction 1; by constructor. Qed.

#[export] Instance rewrites_refl R `{!Reflexive R} : Reflexive (rewrites R).
Proof. intros l. apply rewrites_pointwise. reflexivity. Qed.

Lemma rewrites_map R f l : (forall e, R e (f e)) -> rewrites R l (map f l).
Proof. intros Hf. induction l; by constructor. Qed.

Lemma rewrites_zip R `{!Reflexive R} pre e e' post :
  R e e' -> rewrites R (pre ++ e :: post) (pre ++ e' :: post).
Proof.
  intros He. apply rewrites_pointwise. apply Forall2_app; [reflexivity|].
  by constructor.
Qed.

Lemma rewrites_compact R `{!Reflexive R} mono l : rewrites R l (compact_entries mono l).
Proof.
  unfold compact_entries, retain. induction l as [|e l IH]; [constructor|]. simpl.
  destruct (keeps mono e) eqn:E; [by constructor|]. apply rewrites_drop; [|done].
  unfold keeps in E. by reflect_bools.
Qed.

Lemma rewrites_trans_quiet l1 l2 l3 :
  rewrites quiet l1 l2 -> rewrites quiet l2 l3 -> rewrites quiet l1 l3.
Proof.
  intros H12. revert l3. induction H12 as [|e e' l l' He H IH|e l l' He H IH]; intros l3 H23.
  - inversion H23; subst; constructor.
  - inversion H23 as [|? e'' ? l'' He' H'|? ? ? Hd H']; subst.
    + apply rewrites_keep; [by etrans|auto].
    + apply rewrites_drop; [|auto]. destruct He as (_ & _ & <-). done.
  - apply rewrites_drop; auto.
Qed.

Lemma rewrites_in R l l' e' : rewrites R l l' -> e' ∈ l' -> exists e, e ∈ l /\ R e e'.
Proof.
  induction 1 as [|e f l l' He H IH|e l l' He H IH]; intros Hin.
  - by apply elem_of_nil in Hin.
  - apply elem_of_cons in Hin as [->|Hin]; [exists e; split; [left|done]|].
    destruct (IH Hin) as (x & ? & ?). exists x. split; [by right|done].
  - destruct (IH Hin) as (x & ? & ?). exists x. split; [by right|done].
Qed.

(** An entry with executions in flight survives. *)
Lemma rewrites_survives R l l' e :
  rewrites R l l' -> e ∈ l -> 0 < in_flight e -> exists e', e' ∈ l' /\ R e e'.
Proof.
  induction 1 as [|x f l l' He H IH|x l l' He H IH]; intros Hin Hf.
  - by apply elem_of_nil in Hin.
  - apply elem_of_cons in Hin as [->|Hin]; [exists f; split; [left|done]|].
    destruct (IH Hin Hf) as (y & ? & ?). exists y. split; [by right|done].
  - apply elem_of_cons in Hin as [->|Hin]; [lia|]. auto.
Qed.

Lemma rewrites_ids R l l' :
  (forall e e', R e e' -> entry_id e' = entry_id e) -> rewrites R l l' ->
  sublist (map entry_id l') (map entry_id l).
Proof. intros Hid. induction 1; cbn; [constructor|rewrite (Hid _ _ H)|]; by constructor. Qed.

Lemma quiet_id e e' : quiet e e' -> entry_id e' = entry_id e.
Proof. intros [[] _]. unfold entry_id. congruence. Qed.

(** ** Registries *)

(** A registry step that moves no counter and starts no session. *)
Definition quiet_step (r r' : SessionRegistry) : Prop :=
  rewrites quiet (entries r) (entries r') /\
  (closed r = true -> closed r' = true) .

Lemma quiet_step_refl r : quiet_step r r.
Proof. split; [reflexivity|done]. Qed.

Lemma quiet_step_entries r l :
  rewrites quiet (entries r) l -> quiet_step r (set_entries l r).
Proof. by split. Qed.

Lemma quiet_step_zip r pre e e' post :
  entries r = pre ++ e :: post -> quiet e e' ->
  quiet_step r (set_entries (pre ++ e' :: post) r).
Proof. intros E He. apply quiet_step_entries. rewrite E. by apply rewrites_zip; [apply _|]. Qed.

Lemma quiet_step_compact r l mono :
  rewrites quiet (entries r) l -> quiet_step r (set_entries (compact_entries mono l) r).
Proof.
  intros Hl. apply quiet_step_entries. eapply rewrites_trans_quiet; [done|].
  apply rewrites_compact, _.
Qed.

#[export] Hint Resolve quiet_step_refl quiet_step_entries quiet_step_zip quiet_step_compact
  rewrites_map rewrites_zip quiet_refl : rekey.

(** * Every registry operation is an evolution

    For each operation of [Session.v] and [Approval.v], that the registry it
    leaves is a [quiet_step] of the one it was given, whether it succeeds or
    fails; the operations that move a counter ([begin], [finish], the refunds)
    have their exact effect on the entry they touch. *)

Ltac zipper :=
  repeat match goal with
  | E : split_first _ _ = Some _ |- _ => apply split_first_Some in E as (? & ? & ?)
  | E : split_last _ _ = Some _ |- _ => apply split_last_Some in E as (? & ? & ?)
  end.

Section WithCodecs.
Context {CC : Codecs}.

(** ** Session operations *)

Lemma inventory_live_quiet now mono e : quiet e (inventory_live now mono e).1.
Proof. unfold inventory_live. repeat case_match; cbn; auto with rekey. Qed.

Lemma profile_inventory_quiet token now mono r :
  quiet_step r (profile_inventory token now mono r).1.
Proof.
  unfold profile_inventory. destruct (wanted_hash token); [|apply quiet_step_refl].
  destruct (closed r); [apply quiet_step_refl|].
  destruct (split_last _ _) as [[[pre e] post]|] eqn:E; [|apply quiet_step_refl].
  zipper. pose proof (inventory_live_quiet now mono e).
  destruct (inventory_live now mono e). cbn in *. eauto with rekey.
Qed.

Lemma ensure_inventory_live_quiet id now mono r :
  quiet_step r (ensure_inventory_live id now mono r).1.
Proof.
  unfold ensure_inventory_live. destruct (closed r); [apply quiet_step_refl|].
  destruct (split_first _ _) as [[[pre e] post]|] eqn:E; [|apply quiet_step_refl].
  zipper. pose proof (inventory_live_quiet now mono e).
  destruct (inventory_live now mono e). cbn in *. eauto with rekey.
Qed.

Lemma bound_management_deadline_quiet id d r :
  quiet_step r (bound_management_deadline id d r).1.
Proof.
  unfold bound_management_deadline.
  destruct (split_first _ _) as [[[pre e] post]|] eqn:E; [|apply quiet_step_refl].
  zipper. cbn. eauto with rekey.
Qed.

Lemma revoke_quiet id mono r : quiet_step r (revoke id mono r).1.
Proof.
  unfold revoke. destruct (split_first _ _) as [[[pre e] post]|] eqn:E; [|apply quiet_step_refl].
  zipper. cbn. apply quiet_step_compact.
  match goal with E : entries r = _ |- _ => rewrite E end.
  apply rewrites_zip; [apply _|]. apply quiet_revoked.
Qed.

Lemma drop_guard_quiet g mono r : quiet_step r (drop_guard g mono r).
Proof.
  unfold drop_guard. pose proof (revoke_quiet (guard_session_id g) mono r) as [H1 H2].
  destruct (revoke _ _ _). split; done.
Qed.

Lemma wait_revoked_turn_quiet id now mono mono' r :
  quiet_step r (wait_revoked_turn id now mono mono' r).1.
Proof.
  unfold wait_revoked_turn.
  destruct (split_first _ _) as [[[pre e] post]|] eqn:E; [|apply quiet_step_refl].
  zipper. match goal with |- context [if ?b then _ else _] => destruct b end; cbn;
    eauto with rekey.
Qed.

Lemma revoke_where_quiet p l : rewrites quiet l (revoke_where p l).
Proof. apply rewrites_map. intros e. destruct (p e); auto with rekey. Qed.

Lemma revoke_all_quiet mono r : quiet_step r (revoke_all mono r).
Proof. apply quiet_step_compact, revoke_where_quiet. Qed.
Lemma revoke_workload_quiet mono r : quiet_step r (revoke_workload mono r).
Proof. apply quiet_step_compact, revoke_where_quiet. Qed.
Lemma revoke_by_actions_quiet ids mono r : quiet_step r (revoke_by_actions ids mono r).
Proof. apply quiet_step_compact, revoke_where_quiet. Qed.
Lemma close_quiet mono r : quiet_step r (close_and_revoke_all mono r).
Proof.
  split; [|done]. eapply rewrites_trans_quiet; [apply revoke_where_quiet|].
  apply rewrites_compact, _.
Qed.

(** ** Challenge operations *)

Lemma zeroize_evolves c : challenge_evolves c (zeroize_review c).
Proof.
  repeat split; try done; try apply state_evolves_refl. unfold review_id. cbn.
  by destruct (review c).
Qed.

Lemma set_state_evolves s c :
  state_evolves (challenge_state c) s -> challenge_evolves c (set_state s c).
Proof. by repeat split. Qed.

Lemma zeroize_set_evolves s c :
  state_evolves (challenge_state c) s -> challenge_evolves c (zeroize_review (set_state s c)).
Proof. intros Hs. etrans; [by apply set_state_evolves|apply zeroize_evolves]. Qed.

Lemma to_expired s : state_evolves s Expired.
Proof. by destruct s. Qed.
Lemma open_to s s' : is_open s = true -> is_open s' = false -> state_evolves s s'.
Proof. by destruct s, s'. Qed.

#[local] Hint Resolve zeroize_evolves set_state_evolves zeroize_set_evolves to_expired
  open_to challenge_evolves_refl : rekey.

Lemma refresh_local_evolves now mono c : challenge_evolves c (refresh_local now mono c).
Proof. unfold refresh_local. case_match; auto with rekey. Qed.

Lemma challenge_is_pending_evolves now mono c :
  challenge_evolves c (challenge_is_pending now mono c).1.
Proof. unfold challenge_is_pending. repeat case_match; cbn; auto with rekey. Qed.

Lemma validate_challenge_evolves cx now mono c :
  challenge_evolves c (validate_challenge cx now mono c).1.
Proof. unfold validate_challenge. repeat case_match; cbn; auto with rekey. Qed.

Lemma decide_stored_evolves hash a now mono c :
  challenge_evolves c (decide_stored hash a now mono c).1.
Proof.
  unfold decide_stored. etrans; [apply (refresh_local_evolves now mono)|].
  generalize (refresh_local now mono c). clear c. intros c.
  match goal with |- context [negb ?b] => destruct b end; [|reflexivity]. cbn [negb].
  destruct (bool_decide (is_Some a) && _) eqn:E1; [reflexivity|].
  destruct (negb (is_open _)) eqn:E2; [reflexivity|]. apply negb_false_iff in E2.
  destruct a as [id|]; cbn [fst].
  - apply set_state_evolves. rewrite bool_decide_eq_true_2 in E1 by done.
    apply negb_false_iff in E1. reflect_bools. by rewrite E1.
  - apply zeroize_set_evolves. by apply open_to.
Qed.

Lemma consume_stored_evolves cx id now mono mono' c :
  challenge_evolves c (consume_stored cx id now mono mono' c).1.
Proof.
  unfold consume_stored. etrans; [apply (refresh_local_evolves now mono)|].
  etrans; [apply (validate_challenge_evolves cx now mono')|].
  destruct (validate_challenge _ _ _ _) as [c' [[]|]]; cbn; [|reflexivity].
  destruct (challenge_state c') eqn:E; cbn; auto with rekey.
  apply zeroize_set_evolves. by rewrite E.
Qed.

Lemma cancel_unconfirmed_evolves id c : challenge_evolves c (cancel_unconfirmed id c).
Proof.
  unfold cancel_unconfirmed. case_match; [|reflexivity]. reflect_bools.
  apply zeroize_set_evolves. by apply open_to.
Qed.

Lemma count_pending_evolves now mono l :
  Forall2 challenge_evolves l (count_pending now mono l).1.
Proof.
  induction l as [|c l IH]; [constructor|]. cbn.
  pose proof (challenge_is_pending_evolves now mono c).
  destruct (challenge_is_pending now mono c), (count_pending now mono l). by constructor.
Qed.

Lemma pending_challenges_evolves now mono l :
  Forall2 challenge_evolves l (pending_challenges now mono l).1.
Proof.
  induction l as [|c l IH]; [constructor|]. cbn.
  pose proof (challenge_is_pending_evolves now mono c).
  destruct (is_local c), (challenge_is_pending now mono c), (pending_challenges now mono l);
    cbn in *; constructor; auto with rekey.
Qed.

Lemma scan_local_evolves cx w now mono mono' l :
  Forall2 challenge_evolves l (scan_local cx w now mono mono' l).1.
Proof.
  induction l as [|c l IH]; [constructor|]. cbn.
  match goal with |- context [if ?b then _ else _] => destruct b end.
  { destruct (scan_local _ _ _ _ _ l). cbn in *. constructor; auto with rekey. }
  assert (V : challenge_evolves c (validate_challenge cx now mono' (refresh_local now mono c)).1)
    by (etrans; [apply refresh_local_evolves|apply validate_challenge_evolves]).
  destruct (validate_challenge _ _ _ _) as [c' v].
  repeat (match goal with |- context [if ?b then _ else _] => destruct b end; cbn in *;
    [by constructor|]).
  destruct (scan_local _ _ _ _ _ l). cbn in *. by constructor.
Qed.

(** ** Approval operations *)

Lemma pending_count_quiet now mono l : rewrites quiet l (pending_count now mono l).1.
Proof.
  induction l as [|e l IH]; [constructor|]. cbn.
  destruct (pending_count now mono l). destruct (revoked e); cbn in *;
    [constructor; auto with rekey|].
  pose proof (pending_challenges_evolves now mono (approval_challenges e)).
  destruct (pending_challenges _ _ _). constructor; [|done].
  apply quiet_challenges. by apply challenges_evolve_pointwise.
Qed.

Lemma revoke_principal_entries_quiet p now mono l :
  rewrites quiet l (revoke_principal_entries p now mono l).1.
Proof.
  induction l as [|e l IH]; [constructor|]. cbn.
  destruct (revoke_principal_entries p now mono l) as [l' [a b]].
  match goal with |- context [if ?b then _ else _] => destruct b end; cbn in *;
    [|constructor; auto with rekey].
  pose proof (count_pending_evolves now mono (approval_challenges e)).
  destruct (count_pending _ _ _). constructor; [|done].
  etrans; [|apply quiet_revoked]. apply quiet_challenges. by apply challenges_evolve_pointwise.
Qed.

Lemma revoke_principal_quiet p now mono mono' r :
  quiet_step r (revoke_principal p now mono mono' r).1.
Proof.
  unfold revoke_principal.
  pose proof (revoke_principal_entries_quiet p
    (match now with Some t => t | None => i64_max end) mono (entries r)).
  destruct (revoke_principal_entries _ _ _ _) as [l c]. by apply quiet_step_compact.
Qed.

Lemma with_local_stored_quiet {R} id mono f r :
  (forall c, challenge_evolves c (f c).1) ->
  quiet_step r (with_local_stored (R := R) id mono f r).1.
Proof.
  intros Hf. unfold with_local_stored. destruct (closed r); [apply quiet_step_refl|].
  destruct (split_first _ (entries r)) as [[[pre e] post]|] eqn:E; [|apply quiet_step_refl].
  destruct (split_first _ (approval_challenges e)) as [[[cpre c] cpost]|] eqn:Ec;
    [|apply quiet_step_refl].
  zipper. specialize (Hf c). destruct (f c) as [c' res]. cbn in *.
  eapply quiet_step_zip; [done|]. apply quiet_challenges.
  match goal with E : approval_challenges e = _ |- _ => rewrite E end. auto with rekey.
Qed.

Lemma decide_local_quiet id hash a now mono mono' r :
  quiet_step r (decide_local id hash a now mono mono' r).1.
Proof. apply with_local_stored_quiet. intros c. apply decide_stored_evolves. Qed.

Lemma cancel_local_unconfirmed_quiet id r : quiet_step r (cancel_local_unconfirmed id r).
Proof.
  apply quiet_step_entries, rewrites_map. intros e. apply quiet_challenges.
  apply challenges_evolve_pointwise. induction (approval_challenges e); constructor; [|done].
  apply cancel_unconfirmed_evolves.
Qed.

Lemma consume_local_quiet p cx id now mono mono' r :
  quiet_step r (consume_local p cx id now mono mono' r).1.
Proof.
  unfold consume_local.
  destruct (split_first _ (entries r)) as [[[pre e] post]|] eqn:E; [|apply quiet_step_refl].
  destruct (split_first _ (approval_challenges e)) as [[[cpre c] cpost]|] eqn:Ec;
    [|apply quiet_step_refl].
  zipper. pose proof (consume_stored_evolves cx id now mono mono' c).
  destruct (consume_stored _ _ _ _ _ _) as [c' res]. cbn in *.
  eapply quiet_step_zip; [done|]. apply quiet_challenges.
  match goal with E : approval_challenges e = _ |- _ => rewrite E end. auto with rekey.
Qed.

Lemma local_for_execution_quiet p cx w now mono mono' r :
  quiet_step r (local_for_execution p cx w now mono mono' r).1.
Proof.
  unfold local_for_execution.
  destruct (split_first _ (entries r)) as [[[pre e] post]|] eqn:E; [|apply quiet_step_refl].
  zipper. pose proof (scan_local_evolves cx w now mono mono' (approval_challenges e)).
  destruct (scan_local _ _ _ _ _ _). cbn in *. eapply quiet_step_zip; [done|].
  apply quiet_challenges. by apply challenges_evolve_pointwise.
Qed.

Lemma local_state_for_owner_quiet token id now mono mono' r :
  quiet_step r (local_state_for_owner token id now mono mono' r).1.
Proof.
  unfold local_state_for_owner. destruct (wanted_hash token); [|apply quiet_step_refl].
  destruct (closed r); [apply quiet_step_refl|].
  destruct (split_last _ _) as [[[pre e] post]|] eqn:E; [|apply quiet_step_refl].
  destruct (revoked e); [apply quiet_step_refl|].
  destruct (entry_expired _ _ _).
  { zipper. cbn. eauto with rekey. }
  destruct (split_first _ (approval_challenges e)) as [[[cpre c] cpost]|] eqn:Ec;
    [|apply quiet_step_refl].
  zipper. cbn. eapply quiet_step_zip; [done|]. apply quiet_challenges.
  match goal with E : approval_challenges e = _ |- _ => rewrite E end.
  apply challenges_evolve_zip, refresh_local_evolves.
Qed.

Lemma local_capacity_quiet now mono mono' r : quiet_step r (local_capacity now mono mono' r).1.
Proof.
  unfold local_capacity. destruct now as [now|]; [|by apply quiet_step_compact].
  pose proof (pending_count_quiet now mono' (compact_entries mono (entries r))).
  destruct (pending_count _ _ _). cbn in *. apply quiet_step_entries.
  eapply rewrites_trans_quiet; [|done]. apply rewrites_compact, _.
Qed.

Lemma rewrites_update_first (p : Entry -> bool) f l :
  (forall e, quiet e (f e)) -> rewrites quiet l (update_first p f l).
Proof.
  intros Hf. induction l as [|e l IH]; [constructor|]. cbn.
  destruct (p e); constructor; auto with rekey. reflexivity.
Qed.

Lemma store_approval_challenge_quiet c a d now mono mono' r :
  quiet_step r (store_approval_challenge c a d now mono mono' r).1.
Proof.
  unfold store_approval_challenge.
  destruct (split_first _ _) as [[[pre e] post]|]; [|by apply quiet_step_compact].
  destruct (existsb _ _); [by apply quiet_step_compact|].
  pose proof (pending_count_quiet now mono (compact_entries mono' (entries r))) as Hp.
  destruct (pending_count _ _ _) as [l' k]. cbn in *.
  assert (rewrites quiet (entries r) l')
    by (eapply rewrites_trans_quiet; [apply rewrites_compact, _|done]).
  destruct (_ <=? _); apply quiet_step_entries; [done|].
  eapply rewrites_trans_quiet; [done|]. apply rewrites_update_first.
  intros x. apply quiet_challenges. auto with rekey.
Qed.

Lemma find_usage_cons id u l :
  find_usage id (u :: l) = if usage_approval_id u =? id then Some u else find_usage id l.
Proof. unfold find_usage, find_first. cbn. by destruct (_ =? _). Qed.

Lemma record_use_find id digest l id' :
  find_usage id' (record_use id digest l) =
  if id =? id' then
    match find_usage id l with
    | Some u => Some (mkApprovalUsage id (usage_grant_digest u) (uses u + 1))
    | None => Some (mkApprovalUsage id digest 1)
    end
  else find_usage id' l.
Proof.
  induction l as [|u l IH]; cbn [record_use].
  - rewrite find_usage_cons. cbn. by destruct (id =? id').
  - destruct (usage_approval_id u =? id) eqn:E; rewrite !find_usage_cons; cbn.
    + rewrite E. apply Z.eqb_eq in E. subst id. by destruct (usage_approval_id u =? id').
    + rewrite IH, E. destruct (id =? id') eqn:E'; [|done]. reflect_bools. subst id'.
      by replace (usage_approval_id u =? id) with false by lia.
Qed.

Lemma record_use_evolves id digest l : usage_evolves l (record_use id digest l).
Proof.
  intros id' u Hu. rewrite record_use_find. destruct (id =? id') eqn:E.
  - reflect_bools. subst id'. rewrite Hu. eexists. split; [done|]. cbn. split; [done|lia].
  - exists u. repeat split; [done|lia].
Qed.

Lemma record_uses_evolves grants l : usage_evolves l (record_uses grants l).
Proof.
  revert l. induction grants as [|v g IH]; intros l; [reflexivity|]. cbn.
  etrans; [apply record_use_evolves|apply IH].
Qed.

Lemma reserve_entry_quiet cx t grants id now mono e :
  quiet e (reserve_entry cx t grants id now mono e).1.
Proof.
  unfold reserve_entry.
  destruct (split_first _ _) as [[[pre c] post]|] eqn:Ec; [|reflexivity]. zipper.
  pose proof (validate_challenge_evolves cx now mono c) as Hv.
  destruct (validate_challenge _ _ _ _) as [c' v] eqn:Ev.
  assert (Hc : quiet e (set_challenges (pre ++ c' :: post) e)).
  { apply quiet_challenges. match goal with E : approval_challenges e = _ |- _ => rewrite E end.
    auto with rekey. }
  destruct v as [[]|]; [|done].
  destruct (check_approvals _ _ _ _ _ _ _ _ _ _ _) as [x [[[ids b] w]|]]; cbn.
  2: { etrans; [exact Hc|]. apply quiet_usage. cbn. reflexivity. }
  destruct (_ <? _); cbn.
  { etrans; [exact Hc|]. apply quiet_usage. cbn. reflexivity. }
  etrans; [|apply quiet_usage; cbn; apply record_uses_evolves].
  apply quiet_challenges. match goal with E : approval_challenges e = _ |- _ => rewrite E end.
  apply challenges_evolve_zip. etrans; [exact Hv|]. apply set_state_evolves. cbn.
  assert (challenge_state c' <> Expired) by
    (unfold validate_challenge in Ev; repeat case_match; simplify_eq; by reflect_bools).
  by destruct (challenge_state c').
Qed.

Lemma reserve_approvals_quiet cx grants now mono r :
  quiet_step r (reserve_approvals cx grants now mono r).1.
Proof.
  unfold reserve_approvals. destruct (cx_approver cx); [apply quiet_step_refl|].
  destruct grants as [|v g]; [apply quiet_step_refl|].
  destruct (_ <? _); [apply quiet_step_refl|]. destruct (existsb _ _); [apply quiet_step_refl|].
  destruct (split_first _ (entries r)) as [[[pre e] post]|] eqn:E; [|apply quiet_step_refl].
  zipper. match goal with |- context [reserve_entry ?a ?b ?c ?d ?e ?f ?g] =>
    pose proof (reserve_entry_quiet a b c d e f g); destruct (reserve_entry a b c d e f g) end.
  cbn in *. eauto with rekey.
Qed.

End WithCodecs.
