(* ===== verification/SessionSafety.v ===== *)
(** * SessionSafety: traces of the session registry and their invariant

    A [World] is the registry together with the permits its callers hold and the
    permits already dropped. [step] performs one operation of [Session.v] or
    [Approval.v], with arbitrary clock readings, tokens and arguments; the only
    assumption is that an admitted grant has an id no session used before, which
    its random minting provides. [inv] is the invariant of every reachable world
    and the theorems below are its consequences. *)

From S2P Require Import Prelude Strings Errors Domain Codec SessionState Session Approval Evolution.

Record World := mkWorld {
  reg : SessionRegistry;
  permits : list ExecutionPermit;
  retired : list ExecutionPermit;
  issued : list SessionId;
}.

(** How many of these permits belong to a session, and how many of those are
    still charged to it (their use was not refunded). *)
Definition of_session (id : SessionId) (p : ExecutionPermit) : bool :=
  permit_session_id p =? id.
Definition executing (id : SessionId) (l : list ExecutionPermit) : Z :=
  llen (List.filter (of_session id) l).
Definition charged (id : SessionId) (l : list ExecutionPermit) : Z :=
  llen (List.filter (fun p => of_session id p && negb (use_refunded p)) l).

Lemma executing_app id l1 l2 : executing id (l1 ++ l2) = executing id l1 + executing id l2.
Proof. unfold executing, llen. rewrite List.filter_app, length_app. lia. Qed.
Lemma charged_app id l1 l2 : charged id (l1 ++ l2) = charged id l1 + charged id l2.
Proof. unfold charged, llen. rewrite List.filter_app, length_app. lia. Qed.
Lemma executing_cons id p l :
  executing id (p :: l) = (if of_session id p then 1 else 0) + executing id l.
Proof. unfold executing, llen. cbn. destruct (of_session id p); cbn [length]; lia. Qed.
Lemma charged_cons id p l :
  charged id (p :: l) =
  (if of_session id p && negb (use_refunded p) then 1 else 0) + charged id l.
Proof. unfold charged, llen. cbn. destruct (_ && _); cbn [length]; lia. Qed.
Lemma executing_nonneg id l : 0 <= executing id l.
Proof. unfold executing, llen. lia. Qed.
Lemma charged_nonneg id l : 0 <= charged id l.
Proof. unfold charged, llen. lia. Qed.

#[export] Hint Rewrite executing_app charged_app executing_cons charged_cons : rekey.
Ltac counts := autorewrite with rekey in *; unfold of_session in *.

Section WithCodecs.
Context {CC : Codecs}.

(** ** Steps *)

(** The operations whose effect is a [quiet_step]. *)
Inductive quiet_op (r : SessionRegistry) : SessionRegistry -> Prop :=
  | op_inventory token now mono : quiet_op r (profile_inventory token now mono r).1
  | op_ensure_inventory id now mono : quiet_op r (ensure_inventory_live id now mono r).1
  | op_bound_deadline id d : quiet_op r (bound_management_deadline id d r).1
  | op_revoke id mono : quiet_op r (revoke id mono r).1
  | op_drop_guard g mono : quiet_op r (drop_guard g mono r)
  | op_wait_revoked id now mono mono' : quiet_op r (wait_revoked_turn id now mono mono' r).1
  | op_revoke_all mono : quiet_op r (revoke_all mono r)
  | op_revoke_workload mono : quiet_op r (revoke_workload mono r)
  | op_revoke_by_actions ids mono : quiet_op r (revoke_by_actions ids mono r)
  | op_revoke_principal p now mono mono' : quiet_op r (revoke_principal p now mono mono' r).1
  | op_reserve_owner o : quiet_op r (reserve_control_owner o r).1
  | op_store c a d now mono mono' :
      quiet_op r (store_approval_challenge c a d now mono mono' r).1
  | op_capacity now mono mono' : quiet_op r (local_capacity now mono mono' r).1
  | op_decide id hash a now mono mono' : quiet_op r (decide_local id hash a now mono mono' r).1
  | op_cancel id : quiet_op r (cancel_local_unconfirmed id r)
  | op_consume p cx id now mono mono' : quiet_op r (consume_local p cx id now mono mono' r).1
  | op_reserve_approvals cx grants now mono : quiet_op r (reserve_approvals cx grants now mono r).1
  | op_local_for_execution p cx w now mono mono' :
      quiet_op r (local_for_execution p cx w now mono mono' r).1
  | op_local_state token id now mono mono' :
      quiet_op r (local_state_for_owner token id now mono mono' r).1.

Inductive step : World -> World -> Prop :=
  | step_op r r' ps h ids : quiet_op r r' -> step (mkWorld r ps h ids) (mkWorld r' ps h ids)
  | step_close r ps h ids mono : step (mkWorld r ps h ids) (mkWorld (close_and_revoke_all mono r) ps h ids)
  | step_open r ps h ids : step (mkWorld r ps h ids) (mkWorld (open_for_admission r) ps h ids)
  | step_admit r ps h ids entropy mono mono' g timeouts prov scope deadline owner :
      grant_id g ∉ ids -> 0 <= max_uses g ->
      step (mkWorld r ps h ids)
        (mkWorld (admit_inner entropy mono mono' g timeouts prov scope deadline owner r).1 ps h
           (if is_ok (admit_inner entropy mono mono' g timeouts prov scope deadline owner r).2
            then grant_id g :: ids else ids))
  | step_acquire r ps h ids token wanted now mono :
      step (mkWorld r ps h ids)
        (mkWorld (acquire token wanted now mono r).1
           (match (acquire token wanted now mono r).2 with Ok p => p :: ps | Err _ => ps end) h ids)
  | step_drop_permit r l1 p l2 h ids mono :
      step (mkWorld r (l1 ++ p :: l2) h ids)
        (mkWorld (drop_permit p mono r) (l1 ++ l2) (p :: h) ids)
  | step_publish r l1 p l2 h ids c body hash anchor deadline now mono r' p' res :
      publish_local_pending p c body hash anchor deadline now mono r = (r', p', res) ->
      step (mkWorld r (l1 ++ p :: l2) h ids) (mkWorld r' (l1 ++ p' :: l2) h ids)
  | step_refund r l1 p l2 h ids id r' p' res :
      refund_local_wait p id r = (r', p', res) ->
      step (mkWorld r (l1 ++ p :: l2) h ids) (mkWorld r' (l1 ++ p' :: l2) h ids).

Inductive reachable : World -> Prop :=
  | reachable_new : reachable (mkWorld new_registry [] [] [])
  | reachable_step w w' : reachable w -> step w w' -> reachable w'.

(** ** The invariant *)

Record accounted (ps h : list ExecutionPermit) (e : Entry) : Prop := {
  acc_flight : in_flight e = executing (entry_id e) ps;
  acc_limit : in_flight e <= SESSION_MAX_CONCURRENT_EXECUTIONS;
  acc_uses_nonneg : 0 <= uses_left e;
  acc_uses : uses_left e + charged (entry_id e) ps + charged (entry_id e) h
             = max_uses (grant e);
}.

Record inv (w : World) : Prop := {
  inv_ids : NoDup (map entry_id (entries (reg w)));
  inv_closed : closed (reg w) = true ->
               forall e, e ∈ entries (reg w) -> revoked e = true;
  inv_accounted : forall e, e ∈ entries (reg w) -> accounted (permits w) (retired w) e;
  inv_served : forall p, p ∈ permits w -> permit_session_id p ∈ map entry_id (entries (reg w));
}.

Lemma revoke_closed id mono r : closed (revoke id mono r).1 = closed r.
Proof. unfold revoke. repeat case_match; done. Qed.
Lemma drop_guard_closed g mono r : closed (drop_guard g mono r) = closed r.
Proof.
  unfold drop_guard. pose proof (revoke_closed (guard_session_id g) mono r).
  by destruct (revoke _ _ _).
Qed.

Lemma quiet_op_step r r' : quiet_op r r' -> quiet_step r r' /\ closed r' = closed r.
Proof.
  destruct 1; (split;
    [ auto using profile_inventory_quiet, ensure_inventory_live_quiet,
        bound_management_deadline_quiet, revoke_quiet, drop_guard_quiet, wait_revoked_turn_quiet,
        revoke_all_quiet, revoke_workload_quiet, revoke_by_actions_quiet, revoke_principal_quiet,
        store_approval_challenge_quiet, local_capacity_quiet, decide_local_quiet,
        cancel_local_unconfirmed_quiet, consume_local_quiet, reserve_approvals_quiet,
        local_for_execution_quiet, local_state_for_owner_quiet
    | ]).
  all: try (unfold reserve_control_owner; case_match; by (split; [reflexivity|])).
  all: try apply drop_guard_closed.
  all: unfold profile_inventory, ensure_inventory_live, bound_management_deadline, revoke,
    wait_revoked_turn, revoke_principal, reserve_control_owner,
    store_approval_challenge, local_capacity, decide_local, with_local_stored, consume_local,
    reserve_approvals, local_for_execution, local_state_for_owner; try done.
  all: repeat (case_match; simplify_eq; cbn in *; try done).
Qed.

Lemma executing_pos id ps p : p ∈ ps -> permit_session_id p = id -> 0 < executing id ps.
Proof.
  intros Hp <-. apply list_elem_of_split in Hp as (l1 & l2 & ->).
  counts. rewrite Z.eqb_refl. pose proof (executing_nonneg (permit_session_id p) l1).
  pose proof (executing_nonneg (permit_session_id p) l2). lia.
Qed.

(** A quiet rewriting of the entries keeps the bookkeeping. *)
Lemma rewrites_inv ps h l l' :
  rewrites quiet l l' ->
  NoDup (map entry_id l) -> (forall e, e ∈ l -> accounted ps h e) ->
  (forall p, p ∈ ps -> permit_session_id p ∈ map entry_id l) ->
  NoDup (map entry_id l') /\ (forall e, e ∈ l' -> accounted ps h e) /\
  (forall p, p ∈ ps -> permit_session_id p ∈ map entry_id l').
Proof.
  intros Hr Hnd Hacc Hs. split; [|split].
  - eapply sublist_NoDup; [exact Hnd|]. eapply rewrites_ids; [apply quiet_id|done].
  - intros e' He'. destruct (rewrites_in _ _ _ _ Hr He') as (e & He & Hq).
    destruct (Hacc _ He) as [A1 A2 A3 A4]. pose proof (quiet_id _ _ Hq) as Hid.
    destruct Hq as ([] & Hu & Hf). split; rewrite ?Hid, ?Hu, ?Hf; try done. congruence.
  - intros p Hp. specialize (Hs p Hp). apply list_elem_of_fmap in Hs as (e & Hid & He).
    destruct (rewrites_survives _ _ _ e Hr He) as (e' & He' & Hq).
    { destruct (Hacc _ He) as [-> _ _ _]. by eapply executing_pos. }
    apply list_elem_of_fmap. exists e'. split; [|done]. by rewrite (quiet_id _ _ Hq).
Qed.

Lemma rewrites_revoked l l' :
  rewrites quiet l l' -> (forall e, e ∈ l -> revoked e = true) ->
  forall e, e ∈ l' -> revoked e = true.
Proof.
  intros Hr Hl e' He'. destruct (rewrites_in _ _ _ _ Hr He') as (e & He & [[] _]). auto.
Qed.


(** ** The operations that move a counter *)

(** [begin] either leaves the counters alone and fails, or charges one use and
    one slot to the entry the token names, after every check. *)
Definition charge (e e' : Entry) : Prop :=
  evolves e e' /\ uses_left e' = uses_left e - 1 /\ in_flight e' = in_flight e + 1.

Lemma charge_counters b e : charge e (set_counters (uses_left e - 1) (in_flight e + 1) b e).
Proof. split; [|done]. by split. Qed.

Record begin_granted (token : string) (wanted : ActionVersionRef) (now : Timestamp)
    (mono : Instant) (r r' : SessionRegistry) (t : SessionTicket)
    (pre : list Entry) (e e' : Entry) (post : list Entry) : Prop := {
  bg_before : entries r = pre ++ e :: post;
  bg_after : entries r' = pre ++ e' :: post;
  bg_closed : closed r' = closed r;
  bg_token : wanted_hash token = Ok (token_hash e);
  bg_last : Forall (fun x => token_hash x <> token_hash e) post;
  bg_live : revoked e = false;
  bg_wall : now < expires_at (grant e);
  bg_mono : mono < monotonic_deadline e;
  bg_allows : wanted ∈ allowed_actions (grant e);
  bg_uses : uses_left e <> 0;
  bg_slots : in_flight e < SESSION_MAX_CONCURRENT_EXECUTIONS;
  bg_charge : charge e e';
  bg_exhausted : uses_left e = 1 -> exhausted e' = true;
  bg_ticket : ticket_session_id t = entry_id e /\ ticket_action t = wanted /\
              ticket_principal t = grant_principal (grant e) /\
              ticket_expires_at_ms t = expires_at (grant e) /\
              ticket_control_owner t = control_owner e;
}.

Lemma begin_entry_fails wanted now mono owners e e' owners' err :
  begin_entry wanted now mono owners e = (e', owners', Err err) ->
  quiet e e' /\ owners' = owners.
Proof.
  unfold begin_entry. intros E. repeat (case_match; simplify_eq; try done); auto with rekey.
Qed.

Lemma begin_cases token wanted now mono r r' res :
  begin token wanted now mono r = (r', res) ->
  match res with
  | Err _ => quiet_step r r' /\ closed r' = closed r
  | Ok t => exists pre e e' post, begin_granted token wanted now mono r r' t pre e e' post
  end.
Proof.
  unfold begin. destruct (wanted_hash token) as [hash|] eqn:Eh;
    [|intros; simplify_eq; split; [apply quiet_step_refl|done]].
  destruct (split_last _ _) as [[[pre e] post]|] eqn:Es;
    [|intros; simplify_eq; split; [apply quiet_step_refl|done]].
  zipper. destruct (begin_entry _ _ _ _ _) as [[e' owners'] res'] eqn:Eb.
  intros; simplify_eq. destruct res as [t|err].
  2: { apply begin_entry_fails in Eb as [Hq _]. split; [|done]. split; [|done]. cbn.
       match goal with E : entries r = _ |- _ => rewrite E end. by apply rewrites_zip; [apply _|]. }
  exists pre, e, e', post. unfold begin_entry in Eb. walk Eb;
    unfold entry_expired, expired_at, allows, has_token in *; reflect_bools.
  all: split; cbn; try done; try lia;
    try match goal with H : token_hash _ = _ |- _ => rewrite H end; try done;
    try (by apply charge_counters); try (by repeat split).
  all: try (intros Hu; rewrite Hu; done).
  all: eapply Forall_impl; [eassumption|]; cbn; intros x Hx; by reflect_bools.
Qed.

Lemma update_first_zip {A} (p : A -> bool) f l :
  match split_first p l with
  | Some (pre, x, post) => update_first p f l = pre ++ f x :: post
  | None => update_first p f l = l
  end.
Proof.
  induction l as [|x l IH]; [done|]. cbn. destruct (p x); [done|].
  destruct (split_first p l) as [[[pre y] post]|]; cbn; by rewrite IH.
Qed.

Lemma evolves_id e e' : evolves e e' -> entry_id e' = entry_id e.
Proof. intros []. unfold entry_id. congruence. Qed.

(** Replacing one entry and the permits of its session keeps the bookkeeping of
    every other session. *)
Lemma inv_replace ps h ps' h' pre e e' post :
  NoDup (map entry_id (pre ++ e :: post)) ->
  (forall x, x ∈ pre ++ e :: post -> accounted ps h x) ->
  evolves e e' ->
  (forall id, id <> entry_id e -> executing id ps' = executing id ps /\
     charged id ps' + charged id h' = charged id ps + charged id h) ->
  accounted ps' h' e' ->
  map entry_id (pre ++ e' :: post) = map entry_id (pre ++ e :: post) /\
  (forall x, x ∈ pre ++ e' :: post -> accounted ps' h' x).
Proof.
  intros Hnd Hacc He Hother He'. split.
  - rewrite !map_app. cbn. by rewrite (evolves_id _ _ He).
  - intros x Hx.
    assert (Hcase : x = e' \/ (x ∈ pre ++ e :: post /\ entry_id x <> entry_id e)).
    { rewrite map_app in Hnd. cbn in Hnd. apply NoDup_app in Hnd as (_ & Hpre & Hpost).
      apply NoDup_cons in Hpost as [Hpost _].
      rewrite elem_of_app, elem_of_cons in Hx. destruct Hx as [Hx|[->|Hx]]; [|by left|].
      - right. split; [set_solver|]. intros E. apply (Hpre (entry_id x)).
        + by apply list_elem_of_fmap_2.
        + rewrite E. left.
      - right. split; [set_solver|]. intros E. apply Hpost. rewrite <- E.
        by apply list_elem_of_fmap_2. }
    destruct Hcase as [->|[Hin Hne]]; [done|].
    destruct (Hacc _ Hin) as [A1 A2 A3 A4]. destruct (Hother _ Hne) as [B1 B2].
    split; try done; [by rewrite B1|lia].
Qed.

(** The entry a [split_first] by id finds is the one of that session. *)
Lemma has_id_eq id e : has_id id e = true -> entry_id e = id.
Proof. unfold has_id. intros ?. by reflect_bools. Qed.

Lemma serves_id id e : serves id e = true -> entry_id e = id /\ revoked e = false.
Proof. unfold serves. intros ?. reflect_bools. split; [by apply has_id_eq|done]. Qed.

Lemma inv_closed_evolves ps h ids r l' :
  inv (mkWorld r ps h ids) -> rewrites evolves (entries r) l' ->
  closed r = true -> forall e, e ∈ l' -> revoked e = true.
Proof.
  intros I Hr Hc e' He'. destruct (rewrites_in _ _ _ _ Hr He') as (e & He & []).
  pose proof (inv_closed _ I Hc e He). auto.
Qed.

Lemma quiet_inv r r' ps h ids :
  inv (mkWorld r ps h ids) -> quiet_step r r' -> closed r' = closed r -> inv (mkWorld r' ps h ids).
Proof.
  intros [I1 I2 I3 I4] [Hq _] Hc. cbn in *.
  destruct (rewrites_inv ps h _ _ Hq I1 I3 I4) as (J1 & J3 & J4).
  split; cbn; try done. rewrite Hc. intros Hcl. by eapply rewrites_revoked; [|apply I2].
Qed.

Lemma acquire_inv token wanted now mono r ps h ids :
  inv (mkWorld r ps h ids) ->
  inv (mkWorld (acquire token wanted now mono r).1
    (match (acquire token wanted now mono r).2 with Ok p => p :: ps | Err _ => ps end) h ids).
Proof.
  intros I. unfold acquire. destruct (begin token wanted now mono r) as [r' res] eqn:E.
  apply begin_cases in E. destruct res as [t|err]; cbn; [|destruct E; by eapply quiet_inv].
  destruct E as (pre & e & e' & post & []). destruct I as [I1 I2 I3 I4]. cbn in *.
  destruct bg_charge0 as (Hev & Hu & Hf). destruct bg_ticket0 as (Hid & _).
  rewrite bg_before0 in *.
  destruct (I3 e) as [A1 A2 A3 A4]; [set_solver|].
  destruct (inv_replace ps h (permit_of t :: ps) h pre e e' post I1 I3 Hev) as [J1 J3].
  - intros id Hne. counts. cbn. replace (ticket_session_id t =? id) with false by lia. done.
  - split; rewrite ?(evolves_id _ _ Hev), ?Hu, ?Hf; counts; cbn;
      rewrite ?Hid, ?Z.eqb_refl; cbn; try lia. rewrite (ev_grant _ _ Hev). lia.
  - split; cbn; rewrite ?bg_after0, ?J1, ?bg_closed0; try done.
    + intros Hc x Hx. rewrite elem_of_app, elem_of_cons in Hx.
      destruct Hx as [Hx|[->|Hx]]; [apply I2; set_solver| |apply I2; set_solver].
      apply (ev_revoked _ _ Hev), I2; [done|set_solver].
    + intros p [->|Hp]%elem_of_cons; [|auto]. cbn. rewrite Hid.
      apply list_elem_of_fmap_2. set_solver.
Qed.

Lemma drop_permit_inv r l1 p l2 h ids mono :
  inv (mkWorld r (l1 ++ p :: l2) h ids) ->
  inv (mkWorld (drop_permit p mono r) (l1 ++ l2) (p :: h) ids).
Proof.
  intros [I1 I2 I3 I4]. unfold drop_permit, finish. cbn in *.
  pose proof (update_first_zip (has_id (permit_session_id p)) finish_entry (entries r)) as Z1.
  destruct (split_first _ _) as [[[pre e] post]|] eqn:Es.
  2: { apply split_first_None in Es. rewrite Forall_forall in Es.
       destruct (proj1 (list_elem_of_fmap _ _ _) (I4 p ltac:(set_solver))) as (e & Hid & He).
       specialize (Es _ He). unfold has_id in Es. reflect_bools. congruence. }
  apply split_first_Some in Es as (Hb & Hid & _). apply has_id_eq in Hid.
  rewrite Z1. clear Z1. rewrite Hb in I1, I2, I3, I4.
  assert (Hev : evolves e (finish_entry e)) by by split.
  destruct (I3 e) as [A1 A2 A3 A4]; [set_solver|].
  assert (0 < executing (entry_id e) (l1 ++ p :: l2)) by (eapply executing_pos; [|done]; set_solver).
  destruct (inv_replace (l1 ++ p :: l2) h (l1 ++ l2) (p :: h) pre e (finish_entry e) post I1 I3 Hev)
    as [J1 J3].
  - intros id Hne. counts. replace (permit_session_id p =? id) with false by lia. cbn. lia.
  - split; rewrite ?(evolves_id _ _ Hev); cbn; unfold u32_saturating_sub; counts;
      rewrite ?Hid, ?Z.eqb_refl in *; cbn in *; lia.
  - destruct (rewrites_inv (l1 ++ l2) (p :: h) (pre ++ finish_entry e :: post)
      (compact_entries mono (pre ++ finish_entry e :: post))) as (K1 & K3 & K4).
    + apply rewrites_compact, _.
    + by rewrite J1.
    + done.
    + rewrite J1. intros q Hq. apply I4. set_solver.
    + split; cbn; try done. intros Hc x Hx. unfold compact_entries in Hx.
      apply elem_of_retain in Hx as [Hx _]. rewrite elem_of_app, elem_of_cons in Hx.
      destruct Hx as [Hx|[->|Hx]]; [apply I2; set_solver| |apply I2; set_solver].
      cbn. apply I2; [done|set_solver].
Qed.

(** A refund gives one use back and marks the permit; it never frees a slot. *)
Lemma refund_entry_cases e p e' p' res :
  refund_entry e p = (e', p', res) ->
  (e' = e /\ p' = p /\ exists err, res = Err err) \/
  (use_refunded p = false /\ p' = set_use_refunded p /\ evolves e e' /\ res = Ok tt /\
   uses_left e' = uses_left e + 1 /\ in_flight e' = in_flight e).
Proof.
  unfold refund_entry, u32_checked_add. intros E.
  repeat (case_match; simplify_eq; eauto). right. by repeat split.
Qed.

Lemma refund_inv r r' l1 p l2 h ids pre e e1 e2 post p' res :
  inv (mkWorld r (l1 ++ p :: l2) h ids) ->
  entries r = pre ++ e :: post -> quiet e e1 -> permit_session_id p = entry_id e ->
  refund_entry e1 p = (e2, p', res) ->
  entries r' = pre ++ e2 :: post -> closed r' = closed r ->
  inv (mkWorld r' (l1 ++ p' :: l2) h ids).
Proof.
  intros [I1 I2 I3 I4] Hb Hq Hid Hr Ha Hc. cbn in *. rewrite Hb in *.
  destruct (I3 e) as [A1 A2 A3 A4]; [set_solver|]. pose proof Hq as (Q1 & Q2 & Q3).
  assert (H : evolves e e2 /\ permit_session_id p' = permit_session_id p /\
              in_flight e2 = in_flight e /\ uses_left e <= uses_left e2 /\
              uses_left e2 + charged (entry_id e) [p'] = uses_left e + charged (entry_id e) [p]).
  { apply refund_entry_cases in Hr as [(-> & -> & _)|(Hf & -> & Hev & _ & Hu & Hfl)].
    - repeat split; try done; try lia. all: apply Q1.
    - split; [by etrans|]. counts. cbn. rewrite Hid, Z.eqb_refl, Hf. cbn.
      repeat split; try done; unfold charged, llen; cbn; lia. }
  destruct H as (Hev & Hp & Hfl & Hle & Hu).
  destruct (inv_replace (l1 ++ p :: l2) h (l1 ++ p' :: l2) h pre e e2 post I1 I3 Hev) as [J1 J3].
  - intros id Hne. counts. rewrite Hp. replace (permit_session_id p =? id) with false by lia.
    cbn. lia.
  - split; rewrite ?(evolves_id _ _ Hev), ?(ev_grant _ _ Hev); counts; try rewrite Hp in *;
      rewrite ?Hfl; lia.
  - split; cbn; rewrite ?Ha, ?J1, ?Hc; try done.
    + intros Hcl x Hx. rewrite elem_of_app, elem_of_cons in Hx.
      destruct Hx as [Hx|[->|Hx]]; [apply I2; set_solver| |apply I2; set_solver].
      apply (ev_revoked _ _ Hev), I2; [done|set_solver].
    + intros q Hq'. assert (q = p' \/ q ∈ l1 ++ p :: l2) as [->|]
        by set_solver; [rewrite Hp|]; apply I4; set_solver.
Qed.

Lemma refund_step_inv r l1 p l2 h ids id r' p' res :
  inv (mkWorld r (l1 ++ p :: l2) h ids) -> refund_local_wait p id r = (r', p', res) ->
  inv (mkWorld r' (l1 ++ p' :: l2) h ids).
Proof.
  intros I. unfold refund_local_wait.
  destruct (split_first _ (entries r)) as [[[pre e] post]|] eqn:E; [|intros; by simplify_eq].
  destruct (negb _); [intros; by simplify_eq|]. zipper.
  destruct (refund_entry e p) as [[e' q] res'] eqn:Er. intros; simplify_eq.
  match goal with H : serves _ _ = true |- _ => apply serves_id in H as [? _] end.
  by eapply (refund_inv r); [done|done|reflexivity|done|done|..].
Qed.

Lemma publish_inv p c body hash anchor deadline now mono r r' p' res l1 l2 h ids :
  inv (mkWorld r (l1 ++ p :: l2) h ids) ->
  publish_local_pending p c body hash anchor deadline now mono r = (r', p', res) ->
  inv (mkWorld r' (l1 ++ p' :: l2) h ids).
Proof.
  intros I. unfold publish_local_pending.
  destruct (closed r) eqn:Hc; [intros; by simplify_eq|].
  destruct now as [now|]; [|intros; by simplify_eq].
  pose proof (pending_count_quiet now mono (entries r)) as Hp.
  destruct (pending_count _ _ _) as [l k]. cbn in Hp.
  assert (I' : inv (mkWorld (set_entries l r) (l1 ++ p :: l2) h ids))
    by (eapply quiet_inv; [done|by apply quiet_step_entries|done]).
  destruct (_ <=? _); [intros; by simplify_eq|].
  destruct (split_first _ l) as [[[pre e] post]|] eqn:E; [|intros; by simplify_eq]. zipper.
  match goal with |- context [refund_entry ?x p] => destruct (refund_entry x p) as [[e' q] res'] eqn:Er end.
  intros; simplify_eq.
  match goal with H : serves _ _ = true |- _ => apply serves_id in H as [? _] end.
  eapply (refund_inv (set_entries (pre ++ e :: post) r)); [done|done| |done|exact Er|done|done].
  auto with rekey.
Qed.

(** ** Opening, closing, admission *)

Lemma close_inv r ps h ids mono :
  inv (mkWorld r ps h ids) -> inv (mkWorld (close_and_revoke_all mono r) ps h ids).
Proof.
  intros [I1 I2 I3 I4]. cbn in *.
  destruct (rewrites_inv ps h _ _ (proj1 (close_quiet mono r)) I1 I3 I4) as (J1 & J3 & J4).
  split; try done. cbn. intros _ e He. unfold compact_entries in He.
  apply elem_of_retain in He as [He _]. apply list_elem_of_fmap in He as (x & -> & _). done.
Qed.

Lemma open_inv r ps h ids : inv (mkWorld r ps h ids) -> inv (mkWorld (open_for_admission r) ps h ids).
Proof. intros [I1 I2 I3 I4]. split; done. Qed.

Lemma none_charged id ps : id ∉ map permit_session_id ps -> executing id ps = 0 /\ charged id ps = 0.
Proof.
  induction ps as [|p ps IH]; [done|]. cbn. rewrite not_elem_of_cons. intros [Hne Hin].
  counts. destruct IH as [-> ->]; [done|]. by replace (permit_session_id p =? id) with false by lia.
Qed.

Lemma admit_cases entropy mono mono' g timeouts prov scope deadline owner r r' res :
  admit_inner entropy mono mono' g timeouts prov scope deadline owner r = (r', res) ->
  match res with
  | Err _ => r' = r
  | Ok token => closed r = false /\ exists raw d,
      entropy = Some raw /\ token = base64url_encode raw /\
      r' = set_entries (compact_entries mono' (entries r) ++
             [mkEntry (sha256 raw) g prov scope owner timeouts (max_uses g) 0 false false d
                [] [] []]) r /\
      d <= mono + from_millis (i64_as_u64 (i64_saturating_sub (expires_at g) (issued_at g))) /\
      (forall cap, deadline = Some cap -> d <= cap)
  end.
Proof.
  unfold admit_inner. intros E. destruct entropy as [raw|]; [|by simplify_eq].
  unfold checked_add in E. destruct (_ <=? _) eqn:?; [|by simplify_eq].
  destruct (closed r) eqn:Hc; simplify_eq; [done|]. split; [done|].
  eexists raw, _. split_and!; try done.
  - destruct deadline; [apply Z.le_min_r|done].
  - intros cap ->. apply Z.le_min_l.
Qed.

Lemma admit_inv entropy mono mono' g timeouts prov scope deadline owner r ps h ids ids' :
  inv (mkWorld r ps h ids) ->
  grant_id g ∉ map entry_id (entries r) -> grant_id g ∉ map permit_session_id ps ->
  grant_id g ∉ map permit_session_id h -> 0 <= max_uses g ->
  inv (mkWorld (admit_inner entropy mono mono' g timeouts prov scope deadline owner r).1 ps h ids').
Proof.
  intros [I1 I2 I3 I4] F1 F2 F3 Hmax. cbn in *.
  destruct (admit_inner _ _ _ _ _ _ _ _ _ _) as [r' res] eqn:E. apply admit_cases in E.
  destruct res as [token|]; [|subst; by split].
  destruct E as (Hopen & raw & d & _ & _ & -> & _). cbn.
  destruct (rewrites_inv ps h _ _ (rewrites_compact quiet mono' (entries r)) I1 I3 I4)
    as (J1 & J3 & J4).
  assert (Hsub : forall e, e ∈ compact_entries mono' (entries r) -> e ∈ entries r)
    by (intros e; unfold compact_entries; rewrite elem_of_retain; by intros []).
  split; cbn; rewrite ?map_app.
  - apply NoDup_app. split; [done|]. split; [|apply NoDup_singleton].
    intros x Hx Hin. apply list_elem_of_singleton in Hin. subst x. apply F1.
    apply list_elem_of_fmap in Hx as (e & He & Hx).
    change (grant_id g = entry_id e) in He. rewrite He.
    apply list_elem_of_fmap_2. auto.
  - congruence.
  - intros e [He|He]%elem_of_app; [auto|]. apply list_elem_of_singleton in He. subst e.
    destruct (none_charged _ _ F2), (none_charged _ _ F3).
    split; cbn; unfold entry_id; cbn; unfold SESSION_MAX_CONCURRENT_EXECUTIONS; lia.
  - intros p Hp. apply elem_of_app. left. auto.
Qed.

(** ** What a step may do to a session *)

Definition known (w : World) : Prop :=
  (forall e, e ∈ entries (reg w) -> entry_id e ∈ issued w) /\
  (forall p, p ∈ retired w -> permit_session_id p ∈ issued w).

(** The entries after a step continue those before it, or were admitted by it. *)
Definition continues (w w' : World) : Prop :=
  (forall id, id ∈ issued w -> id ∈ issued w') /\
  (forall e', e' ∈ entries (reg w') ->
     (exists e, e ∈ entries (reg w) /\ evolves e e') \/
     (entry_id e' ∉ issued w /\ entry_id e' ∈ issued w')).

Lemma continues_rewrites r r' ps h ids ps' h' :
  rewrites evolves (entries r) (entries r') ->
  continues (mkWorld r ps h ids) (mkWorld r' ps' h' ids).
Proof. intros Hr. split; [done|]. intros e' He'. left. by eapply rewrites_in. Qed.

Lemma rewrites_weaken l l' : rewrites quiet l l' -> rewrites evolves l l'.
Proof. induction 1 as [|? ? ? ? []|]; by constructor. Qed.

Lemma rewrites_trans_in l1 l2 l3 e3 :
  rewrites evolves l1 l2 -> rewrites evolves l2 l3 -> e3 ∈ l3 -> exists e1, e1 ∈ l1 /\ evolves e1 e3.
Proof.
  intros H12 H23 (e2 & He2 & E2)%(rewrites_in _ _ _ _ H23).
  destruct (rewrites_in _ _ _ _ H12 He2) as (e1 & He1 & E1). exists e1. split; [done|by etrans].
Qed.

Lemma acquire_rewrites token wanted now mono r :
  rewrites evolves (entries r) (entries (acquire token wanted now mono r).1).
Proof.
  unfold acquire. destruct (begin _ _ _ _ _) as [r' res] eqn:E. apply begin_cases in E.
  destruct res; cbn; [|by apply rewrites_weaken, E].
  destruct E as (pre & e & e' & post & []). rewrite bg_before0, bg_after0.
  apply rewrites_zip; [apply _|]. apply bg_charge0.
Qed.

Lemma refund_entry_evolves e p : evolves e (refund_entry e p).1.1.
Proof.
  destruct (refund_entry e p) as [[e' p'] res] eqn:E.
  apply refund_entry_cases in E as [(-> & _)|(_ & _ & H & _)]; [reflexivity|done].
Qed.

Lemma refund_rewrites p id r : rewrites evolves (entries r) (entries (refund_local_wait p id r).1.1).
Proof.
  unfold refund_local_wait.
  destruct (split_first _ (entries r)) as [[[pre e] post]|] eqn:E; [|reflexivity].
  destruct (negb _); [reflexivity|]. zipper. pose proof (refund_entry_evolves e p).
  destruct (refund_entry e p) as [[e' q] res]. cbn in *.
  match goal with E : entries r = _ |- _ => rewrite E end. by apply rewrites_zip; [apply _|].
Qed.

Lemma publish_in p c body hash anchor deadline now mono r e3 :
  e3 ∈ entries (publish_local_pending p c body hash anchor deadline now mono r).1.1 ->
  exists e, e ∈ entries r /\ evolves e e3.
Proof.
  unfold publish_local_pending.
  destruct (closed r); [exists e3; by split|]. destruct now as [now|]; [|exists e3; by split].
  pose proof (rewrites_weaken _ _ (pending_count_quiet now mono (entries r))) as Hp.
  destruct (pending_count _ _ _) as [l k]. cbn in Hp.
  destruct (_ <=? _); [by apply rewrites_in|].
  destruct (split_first _ l) as [[[pre e] post]|] eqn:E; [|by apply rewrites_in]. zipper. subst l.
  match goal with |- context [refund_entry ?x p] => pose proof (refund_entry_evolves x p) as Hr;
    destruct (refund_entry x p) as [[e' q] res] eqn:Er end.
  cbn in *. apply (rewrites_trans_in _ _ _ _ Hp). apply rewrites_zip; [apply _|].
  etrans; [|exact Hr]. apply quiet_challenges. auto with rekey.
Qed.

Lemma drop_permit_in p mono r e3 :
  e3 ∈ entries (drop_permit p mono r) -> exists e, e ∈ entries r /\ evolves e e3.
Proof.
  cbn. unfold compact_entries. rewrite elem_of_retain. intros [He _].
  pose proof (update_first_zip (has_id (permit_session_id p)) finish_entry (entries r)) as Z1.
  destruct (split_first _ _) as [[[pre e] post]|] eqn:Es; rewrite Z1 in He; [|by exists e3].
  zipper. eapply rewrites_in; [|done].
  match goal with E : entries r = _ |- _ => rewrite E end. apply rewrites_zip; [apply _|]. by split.
Qed.

Lemma compact_in mono l e : e ∈ compact_entries mono l -> e ∈ l.
Proof. unfold compact_entries. rewrite elem_of_retain. by intros []. Qed.

Lemma step_continues w w' : step w w' -> continues w w'.
Proof.
  destruct 1 as [r r' ps h ids Hq|r ps h ids mono| |r ps h ids entropy mono mono' g ts prov sc dl ow Hf
    | |r l1 p l2 h ids mono|r l1 p l2 h ids c body hash an dl now mono r' p' res E
    |r l1 p l2 h ids id r' p' res E].
  - apply continues_rewrites, rewrites_weaken. by apply quiet_op_step.
  - apply continues_rewrites, rewrites_weaken. apply close_quiet.
  - by apply continues_rewrites.
  - destruct (admit_inner _ _ _ _ _ _ _ _ _ _) as [r' res] eqn:E. apply admit_cases in E.
    destruct res as [token|]; [|subst; split; [done|]; intros e' He'; left; by exists e'].
    destruct E as (_ & raw & d & _ & _ & -> & _). split; cbn; [by right|].
    intros e' [He%compact_in|He]%elem_of_app; [left; by exists e'|].
    apply list_elem_of_singleton in He. subst e'. right. split; [exact Hf|left].
  - apply continues_rewrites, acquire_rewrites.
  - split; [done|]. intros e' He'. left. by eapply drop_permit_in.
  - split; [done|]. intros e' He'. left. apply (publish_in p c body hash an dl now mono r). by rewrite E.
  - apply continues_rewrites. pose proof (refund_rewrites p id r) as Hr. by rewrite E in Hr.
Qed.

(** ** Reachable worlds *)

Lemma step_inv w w' : inv w -> known w -> step w w' -> inv w' /\ known w'.
Proof.
  intros I K St. pose proof (step_continues _ _ St) as [C1 C2]. split.
  - destruct St; eauto using close_inv, open_inv, acquire_inv, drop_permit_inv,
      refund_step_inv, publish_inv.
    + destruct (quiet_op_step _ _ H). by eapply quiet_inv.
    + destruct K as [K1 K2]. assert (N : forall x (f : x -> SessionId) l,
        (forall y, y ∈ l -> f y ∈ ids) -> grant_id g ∉ map f l).
      { intros x f l Hl (y & Hy & Hin)%list_elem_of_fmap. apply H. rewrite Hy. auto. }
      eapply admit_inv; try done; apply N; try done.
      intros p Hp. apply (inv_served _ I) in Hp as (e & -> & He)%list_elem_of_fmap. auto.
  - destruct K as [K1 K2]. split.
    + intros e' He'. destruct (C2 _ He') as [(e & He & Ev)|[]]; [|done].
      rewrite (evolves_id _ _ Ev). auto.
    + intros p Hp. apply C1. destruct St; cbn in *; auto.
      apply elem_of_cons in Hp as [->|Hp]; [|auto].
      destruct (proj1 (list_elem_of_fmap _ _ _) (inv_served _ I p0 ltac:(set_solver)))
        as (e & -> & He). auto.
Qed.

Lemma reachable_inv w : reachable w -> inv w /\ known w.
Proof.
  induction 1 as [|w w' _ [I K] St]; [|by eapply step_inv].
  split; split; cbn; try constructor; intros; by set_solver.
Qed.

(** Later worlds. *)
Inductive later : World -> World -> Prop :=
  | later_refl w : later w w
  | later_step w w1 w2 : later w w1 -> step w1 w2 -> later w w2.

Lemma later_reachable w w' : reachable w -> later w w' -> reachable w'.
Proof.
  intros Hr Hl. induction Hl; [done|]. eapply reachable_step; [by apply IHHl|done].
Qed.

Lemma later_continues w w' : later w w' -> continues w w'.
Proof.
  induction 1 as [|w w1 w2 _ [A1 A2] St]; [split; [done|]; intros e' He'; left; by exists e'|].
  destruct (step_continues _ _ St) as [B1 B2]. split; [auto|].
  intros e2 He2. destruct (B2 _ He2) as [(e1 & He1 & E12)|[N1 N2]].
  - destruct (A2 _ He1) as [(e & He & E)|[N M]].
    + left. exists e. split; [done|by etrans].
    + right. rewrite (evolves_id _ _ E12). auto.
  - right. split; [|done]. intros Hin. auto.
Qed.

(** In a reachable world, a session's entry in a later world continues the entry
    it has now. *)
Lemma later_entry w w' e e' :
  reachable w -> later w w' -> e ∈ entries (reg w) -> e' ∈ entries (reg w') ->
  entry_id e' = entry_id e -> evolves e e'.
Proof.
  intros Hr Hl He He' Hid. destruct (reachable_inv _ Hr) as [I [K _]].
  destruct (proj2 (later_continues _ _ Hl) _ He') as [(x & Hx & Ev)|[N _]].
  - assert (Hxe : entry_id x = entry_id e) by (rewrite <- Hid; symmetry; by apply evolves_id).
    assert (x = e) as <-; [|done].
    pose proof (inv_ids _ I) as Hnd. apply list_elem_of_lookup in He as [i Hi].
    apply list_elem_of_lookup in Hx as [j Hj].
    assert (i = j) as <-; [|congruence].
    eapply (NoDup_lookup _ i j (entry_id e) Hnd); rewrite list_lookup_fmap.
    + by rewrite Hi.
    + by rewrite Hj, <- Hxe.
  - exfalso. apply N. rewrite Hid. auto.
Qed.

End WithCodecs.
