(* ===== verification/Demo.v ===== *)
(** * Demo: a concrete run of the registry

    One session with two uses, admitted, executing, asked for a local approval,
    revoked and closed: the states the witnesses of [SessionTheorems] and
    [ApprovalTheorems] evaluate, with the stand-in codecs of [Codec.v]. *)

From S2P Require Import Prelude Strings Errors Domain Codec SessionState Session Approval Evolution SessionSafety.

Definition action : ActionVersionRef := {| action_id := 7; version := 1 |}.
Definition session : SessionGrant :=
  mkSessionGrant 100 (mkPrincipal 1 2 100) [action] 0 60000 2.
Definition raw : list Z := repeat 65 32.
Definition token : string := base64url_encode raw.

Definition opened : World := mkWorld (open_for_admission new_registry) [] [] [].
Definition admitted : World :=
  mkWorld (admit_inner (Some raw) 0 0 session [(action, 1000)] ProvAdmin None None None
             (reg opened)).1 [] [] [100].
Definition acquired : World :=
  mkWorld (acquire token action 10 10 (reg admitted)).1
    (match (acquire token action 10 10 (reg admitted)).2 with Ok p => [p] | Err _ => [] end)
    [] [100].
Definition revoked_world : World :=
  mkWorld (revoke 100 20 (reg acquired)).1 (permits acquired) [] [100].
Definition closed_world : World :=
  mkWorld (close_and_revoke_all 20 (reg acquired)) (permits acquired) [] [100].

Lemma reachable_opened : reachable opened.
Proof. eapply reachable_step; [apply reachable_new|]. apply step_open. Qed.
Lemma reachable_admitted : reachable admitted.
Proof.
  eapply reachable_step; [apply reachable_opened|].
  apply (step_admit (reg opened) [] [] [] (Some raw) 0 0 session [(action, 1000)] ProvAdmin None None None).
  - set_solver.
  - done.
Qed.
Lemma step_acquired : step admitted acquired.
Proof. apply (step_acquire (reg admitted) [] [] [100] token action 10 10). Qed.
Lemma reachable_acquired : reachable acquired.
Proof. eapply reachable_step; [apply reachable_admitted|apply step_acquired]. Qed.
Lemma reachable_revoked : reachable revoked_world.
Proof. eapply reachable_step; [apply reachable_acquired|]. apply step_op, op_revoke. Qed.
Lemma reachable_closed : reachable closed_world.
Proof. eapply reachable_step; [apply reachable_acquired|]. apply step_close. Qed.

(** ** A local approval *)

Definition resource : ResourceRef := mkResourceRef "repo" "r1".
Definition parameter_hash : Digest := repeat 3 32.
Definition policy_digest : Digest := repeat 4 32.

Definition context (approver : ApproverSpec) : ApprovalContext :=
  mkApprovalContext (mkPrincipal 1 2 100) action resource "schema" parameter_hash 1
    policy_digest 9 approver [21; 22] (mkApprovalRequirement OneTime 1 None).

Definition challenge_for (approver : ApproverSpec) (id : ApprovalRequestId) : ApprovalChallenge :=
  mkApprovalChallenge "rekey-approval-challenge-v1" id 1 2 100 7 1 resource "schema"
    (hexlower_encode parameter_hash) 1 (hexlower_encode policy_digest) 9 OneTime approver 1
    0 50000.

Definition permit : ExecutionPermit :=
  mkExecutionPermit false 100 (mkPrincipal 1 2 100) action 1000 60000 None None.
Definition refunded : ExecutionPermit := set_use_refunded permit.

Definition local_cx : ApprovalContext := context LocalPresence.
Definition published : World :=
  mkWorld (publish_local_pending permit (challenge_for LocalPresence 55) [1; 2] "hash" 0
             50000000000 (Ok 20) 20 (reg acquired)).1.1 [refunded] [] [100].
Definition approved : World :=
  mkWorld (decide_local 55 "hash" (Some 77) 30 (fun _ => 30) 30 (reg published)).1
    [refunded] [] [100].
Definition rejected : World :=
  mkWorld (decide_local 55 "hash" None 30 (fun _ => 30) 30 (reg published)).1
    [refunded] [] [100].
Definition consumed : World :=
  mkWorld (consume_local refunded local_cx 55 40 40 40 (reg approved)).1 [refunded] [] [100].

(** ** A signed approval *)

Definition quorum : ApproverSpec := Ed25519 ["key-a"; "key-b"] 2.
Definition signed_cx : ApprovalContext := context quorum.
Definition signed_grant (approval approver : Z) : VerifiedApprovalGrant :=
  mkVerifiedApprovalGrant
    (mkSignedApprovalGrant 1 approval 56 approver 1 2 100 7 1 resource "schema"
       (hexlower_encode parameter_hash) 1 (hexlower_encode policy_digest) 9 OneTime 0 40000 1 "sig")
    parameter_hash policy_digest (repeat approval 32).
Definition signed_grants : list VerifiedApprovalGrant := [signed_grant 31 21; signed_grant 32 22].

Definition challenged : World :=
  mkWorld (store_approval_challenge (challenge_for quorum 56) 0 50000000000 20 20 20
             (reg acquired)).1 [permit] [] [100].
Definition spent : World :=
  mkWorld (reserve_approvals signed_cx signed_grants 30 30 (reg challenged)).1 [permit] [] [100].

Lemma reachable_published : reachable published.
Proof.
  eapply reachable_step; [apply reachable_acquired|].
  apply (step_publish (reg acquired) [] permit [] [] [100] (challenge_for LocalPresence 55)
    [1; 2] "hash" 0 50000000000 (Ok 20) 20 (reg published) refunded
    (Ok (local_snapshot (mkStoredChallenge (challenge_for LocalPresence 55) 0 50000000000 Pending
       (Some (mkLocalReview "hash" [1; 2])))))).
  vm_compute. reflexivity.
Qed.
Lemma reachable_approved : reachable approved.
Proof. eapply reachable_step; [apply reachable_published|]. apply step_op, op_decide. Qed.
Lemma reachable_challenged : reachable challenged.
Proof. eapply reachable_step; [apply reachable_acquired|]. apply step_op, op_store. Qed.
Lemma reachable_spent : reachable spent.
Proof. eapply reachable_step; [apply reachable_challenged|]. apply step_op, op_reserve_approvals. Qed.
