(* ===== verification/SessionTheorems.v ===== *)
(** * SessionTheorems: what the session registry promises

    The properties of the capability session registry, over every interleaving
    of its operations ([SessionSafety.reachable], [SessionSafety.later]) and for
    [begin] and [with_live_handoff] branch by branch. The run of [Demo.v]
    instantiates them. *)

From S2P Require Import Prelude Strings Errors Domain Codec SessionState Session Approval Evolution SessionSafety Demo.

Section WithCodecs.
Context {CC : Codecs}.

(** ** Accounting *)

(** C1: in every reachable state each session's bookkeeping is exact: its slots in
    use are the permits outstanding for it, never more than
    [SESSION_MAX_CONCURRENT_EXECUTIONS], and the uses left plus the executions
    ever charged and not refunded are exactly what its grant allows, so no
    interleaving of operations executes more often than granted. *)
Theorem session_accounting w e :
  reachable w -> e ∈ entries (reg w) ->
  in_flight e = executing (entry_id e) (permits w) /\
  in_flight e <= SESSION_MAX_CONCURRENT_EXECUTIONS /\
  0 <= uses_left e /\
  uses_left e + charged (entry_id e) (permits w) + charged (entry_id e) (retired w)
    = max_uses (grant e).
Proof. intros Hr He. by destruct (inv_accounted _ (proj1 (reachable_inv _ Hr)) _ He). Qed.

Lemma sum_executing (l : list Entry) ps :
  NoDup (map entry_id l) -> (forall p, p ∈ ps -> permit_session_id p ∈ map entry_id l) ->
  fold_right (fun e n => executing (entry_id e) ps + n) 0 l = llen ps.
Proof.
  revert ps. induction l as [|e l IH]; intros ps Hnd Hs; cbn.
  - destruct ps as [|p ps]; [done|]. specialize (Hs p ltac:(left)). by apply elem_of_nil in Hs.
  - cbn in *. apply NoDup_cons in Hnd as [Hne Hnd].
    set (rest := List.filter (fun p => negb (of_session (entry_id e) p)) ps).
    assert (Hrest : fold_right (fun x n => executing (entry_id x) ps + n) 0 l =
                    fold_right (fun x n => executing (entry_id x) rest + n) 0 l).
    { assert (Heq : forall x, x ∈ l -> executing (entry_id x) ps = executing (entry_id x) rest).
      { intros x Hx. assert (entry_id x <> entry_id e)
          by (intros E; apply Hne; rewrite <- E; by apply list_elem_of_fmap_2).
        unfold rest. clear -H. induction ps as [|p ps IH]; [done|]. cbn. counts.
        destruct (permit_session_id p =? entry_id e) eqn:E; cbn; counts; [|by rewrite IH].
        reflect_bools. replace (permit_session_id p =? entry_id x) with false by lia. by rewrite IH. }
      clear -Heq. induction l as [|x l IH]; [done|]. cbn. rewrite Heq by left. f_equal. apply IH.
      intros y Hy. apply Heq. by right. }
    rewrite Hrest, IH; [|done|].
    + unfold rest, executing, llen. clear. induction ps as [|p ps IH]; [done|]. cbn.
      destruct (of_session _ p); cbn [length negb]; lia.
    + intros p Hp. unfold rest in Hp. rewrite list_elem_of_In, filter_In, <- list_elem_of_In in Hp.
      destruct Hp as [Hp Hne']. specialize (Hs p Hp). apply elem_of_cons in Hs as [Hs|]; [|done].
      unfold of_session in Hne'. rewrite Hs, Z.eqb_refl in Hne'. done.
Qed.

(** no execution slot is ever leaked or released twice: in every reachable
    state the registry's [in_flight_total] is the number of permits its callers
    still hold, whichever sessions were revoked, expired or compacted. *)
Theorem in_flight_total_exact w :
  reachable w -> in_flight_total (reg w) = llen (permits w).
Proof.
  intros Hr. destruct (reachable_inv _ Hr) as [[I1 I2 I3 I4] _].
  rewrite <- (sum_executing _ _ I1 I4). unfold in_flight_total.
  clear I1 I2 I4. induction (entries (reg w)) as [|e l IH]; [done|]. cbn.
  rewrite (acc_flight _ _ _ (I3 e ltac:(left))), IH; [done|]. intros x Hx. apply I3. by right.
Qed.

(** ** Starting an execution *)

(** The documented conditions of [begin], on the entry the token names. *)
Record admissible (token : string) (wanted : ActionVersionRef) (now : Timestamp)
    (mono : Instant) (r : SessionRegistry) (e : Entry) : Prop := {
  adm_named : exists pre post, split_last (has_token (token_hash e)) (entries r)
                               = Some (pre, e, post);
  adm_token : wanted_hash token = Ok (token_hash e);
  adm_live : revoked e = false;
  adm_wall : now < expires_at (grant e);
  adm_mono : mono < monotonic_deadline e;
  adm_action : wanted ∈ allowed_actions (grant e);
  adm_timeout : wanted ∈ map fst (action_timeouts e);
  adm_uses : uses_left e <> 0;
  adm_slots : in_flight e < SESSION_MAX_CONCURRENT_EXECUTIONS;
  adm_scope : forall scope, profile_scope e = Some scope -> is_ok (scope_action scope wanted) = true;
  adm_owner : forall o, control_owner e = Some o ->
              exists n, live_owners r !! o = Some (S n);
}.

Lemma find_timeout wanted (l : list (ActionVersionRef * Z)) :
  match find_map (fun '(a, t) => if bool_decide (a = wanted) then Some t else None) l with
  | Some _ => wanted ∈ map fst l
  | None => wanted ∉ map fst l
  end.
Proof.
  induction l as [|[a t] l IH]; cbn; [by apply not_elem_of_nil|].
  case_bool_decide; [subst; left|].
  destruct (find_map _ l); [by right|]. rewrite not_elem_of_cons. by split.
Qed.

(** [begin] grants an execution exactly when every condition holds: the token
    decodes to the digest of a registered session, which is not revoked, not
    past its wall-clock expiry nor its monotonic deadline, allows the action and
    has its timeout, has a use and a slot left, and whose profile scope and
    controlling connection, if any, still cover the action. *)
Theorem begin_admits_exactly token wanted now mono r :
  (exists t, (begin token wanted now mono r).2 = Ok t) <->
  (exists e, admissible token wanted now mono r e).
Proof.
  unfold begin. split.
  - intros [t Ht]. destruct (wanted_hash token) as [hash|] eqn:Eh; [|done].
    destruct (split_last _ _) as [[[pre e] post]|] eqn:Es; [|done]. exists e.
    pose proof (split_last_Some _ _ _ _ _ Es) as (_ & Hh & _).
    unfold has_token in Hh. reflect_bools. subst hash.
    destruct (begin_entry _ _ _ _ _) as [[e' owners'] res] eqn:Eb. cbn in Ht. subst res.
    unfold begin_entry, entry_expired, expired_at, allows in Eb.
    pose proof (find_timeout wanted (action_timeouts e)) as Htm.
    destruct (find_map _ (action_timeouts e)); [|walk Eb].
    walk Eb; unfold upgrade in *.
    all: split; try done; try lia; eauto; intros ? Hx; simplify_eq; try done.
    all: repeat case_match; simplify_eq; eauto.
    all: match goal with E : map_err _ (Some <$> ?x) = Ok _ |- is_ok ?x = true => by destruct x end.
  - intros [e [(pre & post & Es) -> Hl Hw Hm Ha Ht Hu Hs Hsc Ho]]. rewrite Es.
    unfold begin_entry, entry_expired, expired_at, allows. rewrite Hl.
    replace (expires_at (grant e) <=? now) with false by lia.
    replace (monotonic_deadline e <=? mono) with false by lia.
    rewrite bool_decide_eq_true_2 by done. cbn [orb negb].
    pose proof (find_timeout wanted (action_timeouts e)) as Htm.
    destruct (find_map _ _) as [tm|]; [|done].
    replace (uses_left e =? 0) with false by lia.
    replace (SESSION_MAX_CONCURRENT_EXECUTIONS <=? in_flight e) with false by lia.
    assert (Hscope : exists s, match profile_scope e with
        | None => Ok None
        | Some scope => map_err BDomain (Some <$> scope_action scope wanted)
        end = Ok s).
    { destruct (profile_scope e) as [sc|]; [|eauto]. specialize (Hsc _ eq_refl).
      destruct (scope_action sc wanted); [cbn; eauto|done]. }
    destruct Hscope as [s ->]. destruct (control_owner e) as [o|]; [|cbn; eauto].
    destruct (Ho _ eq_refl) as [n Hn]. unfold upgrade. rewrite Hn. cbn. eauto.
Qed.

(** a granted [begin] charges exactly one use and one slot to the session the
    token names, marks it exhausted when that was the last use, leaves every
    other session alone, and issues a ticket for that session's principal and
    the requested action; a refused [begin] moves no counter of any session. *)
Theorem begin_charges_exactly token wanted now mono r r' res :
  begin token wanted now mono r = (r', res) ->
  match res with
  | Err _ => quiet_step r r' /\ closed r' = closed r
  | Ok t => exists pre e e' post, begin_granted token wanted now mono r r' t pre e e' post
  end.
Proof. apply begin_cases. Qed.

Lemma begin_ticket token wanted now mono r t :
  (begin token wanted now mono r).2 = Ok t ->
  exists e, e ∈ entries r /\ entry_id e = ticket_session_id t /\ revoked e = false /\
            now < expires_at (grant e) /\ mono < monotonic_deadline e /\ uses_left e <> 0.
Proof.
  destruct (begin _ _ _ _ _) as [r' res] eqn:E. apply begin_cases in E. cbn. intros ->.
  destruct E as (pre & e & e' & post & []). exists e. rewrite bg_before.
  destruct bg_ticket as [-> _]. repeat split; try done. set_solver.
Qed.

Lemma wanted_hash_err token e : wanted_hash token = Err e -> e = BDomain InvalidCapability.
Proof.
  unfold wanted_hash. destruct (base64url_decode token); cbn; [|by intros; simplify_eq].
  destruct (negb _); by intros; simplify_eq.
Qed.

(** once the registry has been closed, nothing executes until it is opened
    again: in every reachable closed state [begin] answers
    [InvalidCapability], whatever the token, although it does not test the
    closed flag itself. *)
Theorem closed_registry_refuses w token wanted now mono :
  reachable w -> closed (reg w) = true ->
  (begin token wanted now mono (reg w)).2 = Err (BDomain InvalidCapability).
Proof.
  intros Hr Hc. pose proof (inv_closed _ (proj1 (reachable_inv _ Hr)) Hc) as Hrev.
  unfold begin. destruct (wanted_hash token) as [hash|] eqn:Eh.
  2: { by rewrite (wanted_hash_err _ _ Eh). }
  destruct (split_last _ _) as [[[pre e] post]|] eqn:Es; [|done]. zipper.
  unfold begin_entry. rewrite Hrev; [done|].
  match goal with E : entries _ = _ |- _ => rewrite E end. set_solver.
Qed.

(** ** Revocation and lifetime *)

(** revocation is final. If every entry of an issued session id is revoked
    (after [revoke], [revoke_all], closing, a dropped guard, or because the entry
    is gone), no [begin] in any later state issues a ticket for that session,
    whatever happens in between. *)
Theorem dead_session_stays_dead w w' id token wanted now mono :
  reachable w -> later w w' -> id ∈ issued w ->
  (forall e, e ∈ entries (reg w) -> entry_id e = id -> revoked e = true) ->
  match (begin token wanted now mono (reg w')).2 with
  | Ok t => ticket_session_id t <> id
  | Err _ => True
  end.
Proof.
  intros Hr Hl Hid Hdead. destruct (begin _ _ _ _ _).2 as [t|] eqn:Hb; [|done]. intros E.
  apply begin_ticket in Hb as (e' & He' & Hs & Hlive & _).
  destruct (proj2 (later_continues _ _ Hl) _ He') as [(e & He & Ev)|[N _]].
  - rewrite (ev_revoked _ _ Ev) in Hlive; [done|]. apply Hdead; [done|].
    rewrite <- (evolves_id _ _ Ev). congruence.
  - apply N. congruence.
Qed.

(** a session never outlives its time to live on the monotonic clock. If a
    session is admitted at monotonic instant [mono], every ticket issued for it
    in any later state is issued strictly before [mono] plus the grant's
    lifetime, however the wall clock is set meanwhile. *)
Theorem ttl_bounds_every_execution entropy mono mono' g timeouts prov scope deadline owner
    r r1 ps h ids token w' tok wanted now' mono2 t :
  reachable (mkWorld r ps h ids) -> grant_id g ∉ ids -> 0 <= max_uses g ->
  admit_inner entropy mono mono' g timeouts prov scope deadline owner r = (r1, Ok token) ->
  later (mkWorld r1 ps h (grant_id g :: ids)) w' ->
  (begin tok wanted now' mono2 (reg w')).2 = Ok t -> ticket_session_id t = grant_id g ->
  mono2 < mono + from_millis (i64_as_u64 (i64_saturating_sub (expires_at g) (issued_at g))).
Proof.
  intros Hr Hf Hm Ha Hl Hb Ht.
  assert (St : step (mkWorld r ps h ids) (mkWorld r1 ps h (grant_id g :: ids))).
  { pose proof (step_admit r ps h ids entropy mono mono' g timeouts prov scope deadline owner
      Hf Hm) as St. by rewrite Ha in St. }
  pose proof (reachable_step _ _ Hr St) as Hr1.
  apply admit_cases in Ha as (_ & raw & d & _ & _ & E & Hd & _).
  apply begin_ticket in Hb as (e' & He' & Hid & _ & _ & Hmono & _).
  eapply Z.lt_le_trans; [exact Hmono|]. etrans; [|exact Hd].
  assert (Hin : mkEntry (sha256 raw) g prov scope owner timeouts (max_uses g) 0 false false d
            [] [] [] ∈ entries r1) by (rewrite E; cbn; set_solver).
  pose proof (ev_deadline _ _ (later_entry _ _ _ _ Hr1 Hl Hin He'
    ltac:(rewrite Hid, Ht; reflexivity))) as Hdl. exact Hdl.
Qed.

(** an effect is handed off only for a live session. [with_live_handoff] runs
    its closure exactly when the registry is open and the permit's session is
    registered, not revoked, has an execution in flight, still allows the
    action, and neither clock nor the effect's own deadline has passed. *)
Theorem handoff_requires_live_session {R} p now mono mono' eff (f : unit -> R) r v :
  with_live_handoff p now mono mono' eff f r = Ok v <->
  v = f tt /\ closed r = false /\ mono' < eff /\
  exists pre e post, split_first (has_id (permit_session_id p)) (entries r) = Some (pre, e, post) /\
    revoked e = false /\ in_flight e <> 0 /\ now < expires_at (grant e) /\
    mono < monotonic_deadline e /\ permit_action p ∈ allowed_actions (grant e).
Proof.
  assert (Hff : forall l : list Entry, find_first (has_id (permit_session_id p)) l =
      match split_first (has_id (permit_session_id p)) l with
      | Some (_, e, _) => Some e | None => None end).
  { induction l as [|x l IH]; [done|]. unfold find_first in *. cbn.
    destruct (has_id _ x); [done|]. rewrite IH. by repeat case_match; simplify_eq. }
  unfold with_live_handoff, expired_at, allows. rewrite Hff. split.
  - intros Hw. destruct (split_first _ _) as [[[pre e] post]|] eqn:Es; cbn in Hw; walk Hw.
    split_and!; try done; try lia. exists pre, e, post. split_and!; try done; lia.
  - intros (-> & -> & He & pre & e & post & -> & Hl & Hf & Hw & Hm & Ha). cbn. rewrite Hl. cbn.
    replace (in_flight e =? 0) with false by lia.
    replace (expires_at (grant e) <=? now) with false by lia.
    replace (monotonic_deadline e <=? mono) with false by lia.
    replace (eff <=? mono') with false by lia. by rewrite bool_decide_eq_true_2.
Qed.

End WithCodecs.

(** ** Witnesses: the concrete run *)

Lemma session_accounting_witness :
  exists e, entries (reg Demo.acquired) = [e] /\ in_flight e = 1 /\ uses_left e = 1 /\
  (in_flight e = executing (entry_id e) (permits Demo.acquired) /\
   in_flight e <= SESSION_MAX_CONCURRENT_EXECUTIONS /\ 0 <= uses_left e /\
   uses_left e + charged (entry_id e) (permits Demo.acquired)
     + charged (entry_id e) (retired Demo.acquired) = max_uses (grant e)).
Proof.
  eexists. split; [vm_compute; reflexivity|]. split; [reflexivity|]. split; [reflexivity|].
  apply session_accounting; [exact Demo.reachable_acquired|]. vm_compute. left.
Defined.

Lemma in_flight_total_exact_witness :
  in_flight_total (reg Demo.acquired) = llen (permits Demo.acquired) /\
  llen (permits Demo.acquired) = 1.
Proof. split; [exact (in_flight_total_exact _ Demo.reachable_acquired)|reflexivity]. Defined.

Lemma begin_charges_exactly_witness :
  exists t, exists pre e e' post,
  begin_granted Demo.token Demo.action 10 10 (reg Demo.admitted)
    (begin Demo.token Demo.action 10 10 (reg Demo.admitted)).1 t pre e e' post.
Proof.
  eexists. refine (begin_charges_exactly Demo.token Demo.action 10 10 (reg Demo.admitted) _ (Ok _) _).
  vm_compute. reflexivity.
Defined.

Lemma closed_registry_refuses_witness :
  closed (reg Demo.closed_world) = true /\ llen (entries (reg Demo.closed_world)) = 1 /\
  (begin Demo.token Demo.action 30 30 (reg Demo.closed_world)).2 = Err (BDomain InvalidCapability).
Proof.
  split; [reflexivity|]. split; [reflexivity|].
  apply closed_registry_refuses; [exact Demo.reachable_closed|reflexivity].
Defined.

Lemma dead_session_stays_dead_witness :
  llen (entries (reg Demo.revoked_world)) = 1 /\
  match (begin Demo.token Demo.action 30 30 (reg Demo.revoked_world)).2 with
  | Ok t => ticket_session_id t <> 100
  | Err _ => True
  end.
Proof.
  split; [reflexivity|].
  apply (dead_session_stays_dead Demo.revoked_world).
  - exact Demo.reachable_revoked.
  - apply later_refl.
  - left.
  - intros e He _. vm_compute in He. apply list_elem_of_singleton in He. by subst.
Defined.

Lemma ttl_bounds_every_execution_witness :
  exists t, (begin Demo.token Demo.action 10 10 (reg Demo.admitted)).2 = Ok t /\
            10 < 0 + from_millis (i64_as_u64 (i64_saturating_sub 60000 0)).
Proof.
  eexists. split; [vm_compute; reflexivity|].
  eapply (ttl_bounds_every_execution (Some Demo.raw) 0 0 Demo.session [(Demo.action, 1000)]
    ProvAdmin None None None (reg Demo.opened) (reg Demo.admitted) [] [] [] Demo.token
    Demo.admitted Demo.token Demo.action 10 10).
  - exact Demo.reachable_opened.
  - set_solver.
  - done.
  - vm_compute. reflexivity.
  - apply later_refl.
  - vm_compute. reflexivity.
  - reflexivity.
Defined.
