(* ===== verification/ApprovalTheorems.v ===== *)
(** * ApprovalTheorems: what an approval promises

    A local approval is consumed at most once and only for the reviewed, live
    challenge of the very execution it was asked for; signed grants reserve a use
    only with a quorum of distinct, allowed approvers and never beyond what each
    grant allows. The trace properties use the evolution of a session's entry
    across any later states ([SessionSafety.later_entry]). *)

From S2P Require Import Prelude Strings Errors Domain Codec SessionState Session Approval Evolution SessionSafety Demo.

Section WithCodecs.
Context {CC : Codecs}.

(** ** Local approvals *)

Lemma local_target_evolves id c c' : challenge_evolves c c' -> local_target id c' = local_target id c.
Proof.
  intros (Hc & _ & _ & Hr & _). unfold local_target, is_local, has_request_id.
  rewrite Hc. unfold review_id in Hr. by destruct (review c), (review c').
Qed.

(** The challenge a request id names stays the one it names. *)
Lemma local_target_stable id l l' pre c post :
  challenges_evolve l l' -> split_first (local_target id) l = Some (pre, c, post) ->
  exists pre' c' post', split_first (local_target id) l' = Some (pre', c', post') /\
                        challenge_evolves c c'.
Proof.
  intros (old & new & -> & F). revert pre.
  induction F as [|x y l old Hxy F IH]; intros pre; cbn; [done|].
  rewrite (local_target_evolves _ _ _ Hxy). destruct (local_target id x).
  - intros E. simplify_eq. eauto 10.
  - destruct (split_first _ l) as [[[p z] q]|]; [|done]. intros E. simplify_eq.
    destruct (IH _ eq_refl) as (p' & c' & q' & -> & H). eauto 10.
Qed.

(** [consume_stored], success and failure. *)
Lemma consume_stored_ok cx id now mono mono' c c' res :
  consume_stored cx id now mono mono' c = (c', Ok res) ->
  exists a, challenge_state c = Approved a /\ challenge_state c' = Consumed /\
    tuple_matches (challenge c) cx = true /\
    ch_created_at_ms (challenge c) <= now < ch_max_expires_at_ms (challenge c) /\
    mono < challenge_deadline c /\ mono' < challenge_deadline c /\
    res = mkApprovalReservation [mkApprovalEvidence id (Some a) None]
            (challenge_deadline c) (ch_max_expires_at_ms (challenge c)).
Proof.
  unfold consume_stored, refresh_local. intros E.
  destruct (is_open (challenge_state c)) eqn:Ho.
  2: { cbn [andb] in E. unfold validate_challenge in E. walk E.
       all: by match goal with H : challenge_state _ = Approved _ |- _ => rewrite H in Ho end. }
  cbn [andb] in E. destruct (_ || _) eqn:Ew.
  - unfold validate_challenge in E. cbn in E. by walk E.
  - reflect_bools. unfold validate_challenge in E. walk E.
    eexists. split_and!; done || lia.
Qed.

Lemma consume_stored_closed cx id now mono mono' c :
  is_open (challenge_state c) = false ->
  exists err, (consume_stored cx id now mono mono' c).2 = Err err.
Proof.
  intros Hc. destruct (consume_stored cx id now mono mono' c) as [c' [res|err]] eqn:E; [|cbn; eauto].
  apply consume_stored_ok in E as (a & Ha & _). by rewrite Ha in Hc.
Qed.

Lemma open_final s s' : state_evolves s s' -> is_open s = false -> is_open s' = false.
Proof. by destruct s, s'. Qed.

(** A closed challenge never yields a reservation again. *)
Lemma closed_never_consumed w w' e pre c post id p cx now mono mono' :
  reachable w -> later w w' -> e ∈ entries (reg w) ->
  split_first (local_target id) (approval_challenges e) = Some (pre, c, post) ->
  is_open (challenge_state c) = false -> permit_session_id p = entry_id e ->
  exists err, (consume_local p cx id now mono mono' (reg w')).2 = Err err.
Proof.
  intros Hr Hl He Hc Ho Hp. unfold consume_local.
  destruct (split_first _ (entries (reg w'))) as [[[ep e'] eq]|] eqn:E; [|cbn; eauto].
  apply split_first_Some in E as (Eb & [Hid _]%serves_id & _).
  assert (Ev : evolves e e').
  { eapply later_entry; [exact Hr|exact Hl|exact He| |congruence]. rewrite Eb. set_solver. }
  destruct (local_target_stable _ _ _ _ _ _ (ev_challenges _ _ Ev) Hc)
    as (pre' & c' & post' & -> & (_ & _ & _ & _ & Hs)).
  destruct (consume_stored_closed cx id now mono mono' c' (open_final _ _ Hs Ho)) as [err Herr].
  destruct (consume_stored _ _ _ _ _ c') as [c'' res]. cbn in *. eauto.
Qed.

(** a local approval is consumed at most once. After [consume_local] succeeds
    for a request of a session, it fails for that request and session in every
    later state, whatever operations run in between. *)
Theorem local_approval_single_use r ps h ids p cx id now mono mono' r' res w' p2 cx2 now2 m2 m2' :
  reachable (mkWorld r ps h ids) ->
  consume_local p cx id now mono mono' r = (r', Ok res) ->
  later (mkWorld r' ps h ids) w' -> permit_session_id p2 = permit_session_id p ->
  exists err, (consume_local p2 cx2 id now2 m2 m2' (reg w')).2 = Err err.
Proof.
  intros Hr Hc Hl Hp.
  assert (Hr' : reachable (mkWorld r' ps h ids)).
  { eapply reachable_step; [exact Hr|]. apply step_op.
    pose proof (op_consume r p cx id now mono mono') as Q. by rewrite Hc in Q. }
  unfold consume_local in Hc.
  destruct (split_first _ (entries r)) as [[[pre e] post]|] eqn:E; [|done].
  destruct (split_first _ (approval_challenges e)) as [[[cp c] cq]|] eqn:Ec; [|done].
  destruct (consume_stored _ _ _ _ _ c) as [c' [res'|]] eqn:Es; [|done]. simplify_eq.
  pose proof (consume_stored_evolves cx id now mono mono' c) as Hev. rewrite Es in Hev.
  apply consume_stored_ok in Es as (a & _ & Hs & _).
  eapply closed_never_consumed with (e := set_challenges (cp ++ c' :: cq) e) (c := c') (pre := cp)
    (post := cq); [exact Hr'|exact Hl|cbn; set_solver| | |].
  - apply split_first_Some in Ec as (_ & Ht & Hpre). cbn. clear -Ht Hpre Hev.
    induction Hpre as [|x cp Hx _ IH]; cbn.
    + by rewrite (local_target_evolves _ _ _ Hev), Ht.
    + by rewrite Hx, IH.
  - by rewrite Hs.
  - rewrite Hp. zipper. match goal with H : serves _ _ = true |- _ => by apply serves_id in H as [? _] end.
Qed.

(** a local approval is consumed only while its session executes, only if the
    operator approved that very challenge, and only for the exact execution it
    names: tenant, principal, session, action version, resource, schema,
    parameters, policy rule, mode, approver and use count all match, and every
    clock is inside the challenge's window. The effect may not outlive it. *)
Theorem consume_local_sound p cx id now mono mono' r r' res :
  consume_local p cx id now mono mono' r = (r', Ok res) ->
  exists e c a, e ∈ entries r /\ c ∈ approval_challenges e /\
    entry_id e = permit_session_id p /\ revoked e = false /\ 0 < in_flight e /\
    local_target id c = true /\ challenge_state c = Approved a /\
    tuple_matches (challenge c) cx = true /\
    ch_created_at_ms (challenge c) <= now < ch_max_expires_at_ms (challenge c) /\
    mono < challenge_deadline c /\
    not_after res = challenge_deadline c /\
    wall_not_after_ms res = ch_max_expires_at_ms (challenge c) /\
    evidence res = [mkApprovalEvidence id (Some a) None].
Proof.
  unfold consume_local. intros Hc.
  destruct (split_first _ (entries r)) as [[[pre e] post]|] eqn:E; [|done].
  destruct (split_first _ (approval_challenges e)) as [[[cp c] cq]|] eqn:Ec; [|done].
  destruct (consume_stored _ _ _ _ _ c) as [c' [res'|]] eqn:Es; [|done]. simplify_eq.
  apply consume_stored_ok in Es as (a & ? & _ & ? & ? & ? & _ & ->). zipper.
  exists e, c, a. unfold serves, has_id in *. reflect_bools.
  split_and!; try done; try lia;
    match goal with E : _ = _ ++ _ :: _ |- _ ∈ _ => rewrite E; set_solver end.
Qed.

(** an operator's approval takes effect only on a challenge that is pending and
    unexpired and whose review, under the very hash the operator saw, is the one
    stored; it moves the challenge to [Approved] with the operator's id. *)
Theorem approve_requires_review hash a now mono c c' resp :
  decide_stored hash (Some a) now mono c = (c', Ok resp) ->
  challenge_state c = Pending /\ (exists r, review c = Some r /\ review_hash r = hash) /\
  ch_created_at_ms (challenge c) <= now < ch_max_expires_at_ms (challenge c) /\
  mono < challenge_deadline c /\
  c' = set_state (Approved a) c /\ resp_state resp = LApproved.
Proof.
  unfold decide_stored, refresh_local. intros E.
  destruct (is_open (challenge_state c)) eqn:Ho; cbn [andb] in E.
  2: { rewrite (bool_decide_eq_true_2 (is_Some _)) in E by done. cbn [andb] in E.
       walk E; match goal with H : challenge_state _ = Pending |- _ => by rewrite H in Ho end. }
  destruct (_ || _) eqn:Ew.
  - cbn in E. destruct (review c); cbn in E; [|done].
    destruct (str_eqb _ _); cbn in E; [|done].
    by rewrite (bool_decide_eq_false_2 (Expired = Pending)) in E by done.
  - rewrite (bool_decide_eq_true_2 (is_Some _)) in E by done. cbn [andb] in E.
    destruct (review c) as [rv|] eqn:Er; [|done].
    destruct (str_eqb (review_hash rv) hash) eqn:Eh; cbn [negb] in E; [|done].
    rewrite Ho in E. unfold str_eqb in Eh. cbn [negb] in E.
    destruct (bool_decide (challenge_state c = Pending)) eqn:Ep; cbn [negb] in E; [|done].
    simplify_eq. reflect_bools. split_and!; eauto; lia.
Qed.

(** a rejection is final: once [decide_local] has rejected a request of a
    session, no later state ever reserves it, whatever happens in between. *)
Theorem rejected_never_consumed r ps h ids id hash now mono mono' r' resp w' pre e post p cx now2 m2 m2' :
  reachable (mkWorld r ps h ids) ->
  split_first (live_target id mono) (entries r) = Some (pre, e, post) ->
  decide_local id hash None now mono mono' r = (r', Ok resp) ->
  later (mkWorld r' ps h ids) w' -> permit_session_id p = entry_id e ->
  exists err, (consume_local p cx id now2 m2 m2' (reg w')).2 = Err err.
Proof.
  intros Hr Hsp Hd Hl Hp.
  assert (Hr' : reachable (mkWorld r' ps h ids)).
  { eapply reachable_step; [exact Hr|]. apply step_op.
    pose proof (op_decide r id hash None now mono mono') as Q. by rewrite Hd in Q. }
  unfold decide_local, with_local_stored in Hd. rewrite Hsp in Hd.
  destruct (closed r); [done|].
  destruct (split_first _ (approval_challenges e)) as [[[cp c] cq]|] eqn:Ec; [|done].
  destruct (decide_stored _ _ _ _ c) as [c' [res'|]] eqn:Es; [|done]. simplify_eq.
  pose proof (decide_stored_evolves hash None now mono' c) as Hev. rewrite Es in Hev.
  assert (Hs : is_open (challenge_state c') = false).
  { unfold decide_stored in Es. rewrite (bool_decide_eq_false_2 (is_Some None)) in Es
      by (intros [? ?]; done). cbn [andb] in Es.
    destruct (negb (match _ with Some _ => _ | None => _ end)); [done|].
    destruct (negb (is_open _)) eqn:Eo; simplify_eq; [by reflect_bools|done]. }
  eapply closed_never_consumed with (e := set_challenges (cp ++ c' :: cq) e) (c := c') (pre := cp)
    (post := cq); [exact Hr'|exact Hl|cbn; set_solver| |exact Hs|done].
  apply split_first_Some in Ec as (_ & Ht & Hpre). cbn. clear -Ht Hpre Hev.
  induction Hpre as [|x cp Hx _ IH]; cbn.
  - by rewrite (local_target_evolves _ _ _ Hev), Ht.
  - by rewrite Hx, IH.
Qed.

(** ** Signed grants *)

(** What [reserve_approvals] requires of each grant. *)
Record grant_ok (cx : ApprovalContext) (now : Timestamp) (mono : Instant)
    (stored : StoredChallenge) (usage : list ApprovalUsage) (expired : list ExpiredApproval)
    (v : VerifiedApprovalGrant) : Prop := {
  gok_tuple : grant_tuple_matches v (challenge stored) cx = true;
  gok_allowed : g_approver_id (vg_grant v) ∈ cx_allowed_approver_ids cx;
  gok_window : g_not_before_ms (vg_grant v) <= now < g_expires_at_ms (vg_grant v);
  gok_challenge : g_expires_at_ms (vg_grant v) <= ch_max_expires_at_ms (challenge stored);
  gok_uses : g_max_uses (vg_grant v) <= ch_max_uses (challenge stored);
  gok_one_time : g_mode (vg_grant v) = OneTime ->
    i64_saturating_sub (g_expires_at_ms (vg_grant v)) (g_not_before_ms (vg_grant v)) <= 600000;
  gok_usage : forall u, find_usage (g_approval_id (vg_grant v)) usage = Some u ->
    usage_grant_digest u = vg_grant_digest v /\ uses u < g_max_uses (vg_grant v);
  gok_fresh : find_expired (g_approval_id (vg_grant v)) expired = None;
}.

(** The monotonic instant a grant's own expiry maps to. *)
Definition grant_instant (stored : StoredChallenge) (v : VerifiedApprovalGrant) : Instant :=
  monotonic_anchor stored
  + from_millis (g_expires_at_ms (vg_grant v) - ch_created_at_ms (challenge stored)).

Lemma validate_grant_ok v cx now stored mono d :
  validate_grant v cx now stored mono = Ok d ->
  grant_tuple_matches v (challenge stored) cx = true /\
  g_approver_id (vg_grant v) ∈ cx_allowed_approver_ids cx /\
  g_not_before_ms (vg_grant v) <= now /\
  g_expires_at_ms (vg_grant v) <= ch_max_expires_at_ms (challenge stored) /\
  g_max_uses (vg_grant v) <= ch_max_uses (challenge stored) /\
  (g_mode (vg_grant v) = OneTime ->
   i64_saturating_sub (g_expires_at_ms (vg_grant v)) (g_not_before_ms (vg_grant v)) <= 600000) /\
  mono < d /\ d = Z.min (grant_instant stored v) (challenge_deadline stored).
Proof.
  unfold validate_grant. intros E.
  destruct (negb (grant_tuple_matches _ _ _)) eqn:E1; [done|].
  destruct (negb (bool_decide _)) eqn:E2; [done|].
  destruct (_ <? g_max_uses _) eqn:E3; [done|].
  destruct (now <? _) eqn:E4; [done|].
  destruct (_ <? g_expires_at_ms _) eqn:E5; [done|].
  destruct (_ && _) eqn:E6; [done|].
  unfold monotonic_expiry_offset, i64_checked_sub, checked_add in E.
  destruct (_ && _) eqn:E7 in E; [|done]. destruct (0 <? _) eqn:E8; [|done]. cbn in E.
  destruct (_ <=? instant_max) eqn:E9; [|done]. cbn in E.
  destruct (_ <=? mono) eqn:E10; [done|]. simplify_eq. reflect_bools.
  split_and!; try done. intros Hm. rewrite Hm in E6. rewrite bool_decide_eq_true_2 in E6 by done.
  cbn [andb] in E6. by reflect_bools.
Qed.

Lemma check_approvals_ok cx now stored mono usage expired grants aids pids bound wall x ids b w :
  check_approvals cx now stored mono usage expired grants aids pids bound wall
    = (x, Ok (ids, b, w)) ->
  x = expired /\ llen ids = llen pids + llen grants /\
  NoDup (map (fun v => g_approval_id (vg_grant v)) grants) /\
  NoDup (map (fun v => g_approver_id (vg_grant v)) grants) /\
  (forall v, v ∈ grants -> g_approval_id (vg_grant v) ∉ aids /\ g_approver_id (vg_grant v) ∉ pids) /\
  (forall v, v ∈ grants -> grant_ok cx now mono stored usage expired v /\
     mono < grant_instant stored v /\ b <= grant_instant stored v /\
     w <= g_expires_at_ms (vg_grant v)) /\
  b <= bound /\ w <= wall.
Proof.
  revert aids pids bound wall. induction grants as [|v grants IH]; intros aids pids bound wall;
    cbn [check_approvals].
  - intros E. simplify_eq. split_and!; try done; try constructor; unfold llen; cbn; try lia.
    all: by match goal with Hv : _ ∈ [] |- _ => apply elem_of_nil in Hv end.
  - destruct (bool_decide (g_approval_id _ ∈ aids)) eqn:Ea; [done|].
    destruct (bool_decide (g_approver_id _ ∈ pids)) eqn:Ep; [done|].
    destruct (find_expired _ expired) eqn:Ex; [done|].
    destruct (_ <=? now) eqn:En; [done|].
    destruct (validate_grant v cx now stored mono) as [d|] eqn:Ev; [|done]. intros E.
    assert (Hu : (forall u, find_usage (g_approval_id (vg_grant v)) usage = Some u ->
        usage_grant_digest u = vg_grant_digest v /\ uses u < g_max_uses (vg_grant v)) /\
      check_approvals cx now stored mono usage expired grants (g_approval_id (vg_grant v) :: aids)
        (g_approver_id (vg_grant v) :: pids) (Z.min bound d)
        (Z.min wall (g_expires_at_ms (vg_grant v))) = (x, Ok (ids, b, w))).
    { destruct (find_usage _ usage) as [u|]; [|by split].
      destruct (negb _) eqn:E1; [done|]. destruct (g_max_uses _ <=? _) eqn:E2; [done|].
      reflect_bools. split; [intros; by simplify_eq|done]. }
    clear E. destruct Hu as [Hu E]. apply IH in E as (-> & Hlen & N1 & N2 & Hn & Hg & Hb & Hw).
    apply validate_grant_ok in Ev as (V1 & V2 & V3 & V4 & V5 & V6 & V7 & V8).
    assert (d <= grant_instant stored v) by lia.
    reflect_bools. split_and!; try done; try lia.
    + unfold llen in *. cbn [length] in *. lia.
    + constructor; [|done]. intros (y & Hy & Hin)%list_elem_of_fmap.
      destruct (Hn _ Hin) as [Hni _]. apply Hni. rewrite <- Hy. left.
    + constructor; [|done]. intros (y & Hy & Hin)%list_elem_of_fmap.
      destruct (Hn _ Hin) as [_ Hni]. apply Hni. rewrite <- Hy. left.
    + intros y [->|Hy]%elem_of_cons; [done|]. destruct (Hn _ Hy). set_solver.
    + intros y [->|Hy]%elem_of_cons; [|by apply Hg]. split; [|lia]. by split.
Qed.

(** Everything a successful [reserve_approvals] has checked and changed. *)
Record reserved (cx : ApprovalContext) (grants : list VerifiedApprovalGrant) (now : Timestamp)
    (mono : Instant) (r r' : SessionRegistry) (res : ApprovalReservation)
    (e e' : Entry) (c : StoredChallenge) : Prop := {
  rs_entry : e ∈ entries r;
  rs_after : e' ∈ entries r';
  rs_session : serves (principal_session_id (cx_principal cx)) e = true;
  rs_challenge : c ∈ approval_challenges e;
  rs_request : forall v, v ∈ grants -> g_approval_request_id (vg_grant v)
                                       = ch_approval_request_id (challenge c);
  rs_tuple : tuple_matches (challenge c) cx = true;
  rs_live : challenge_state c <> Expired /\ now < ch_max_expires_at_ms (challenge c) /\
            mono < challenge_deadline c;
  rs_quorum : exists approvers threshold, cx_approver cx = Ed25519 approvers threshold /\
              threshold <= llen grants <= 2 /\ grants <> [];
  rs_ids : NoDup (map (fun v => g_approval_id (vg_grant v)) grants);
  rs_approvers : NoDup (map (fun v => g_approver_id (vg_grant v)) grants);
  rs_grants : forall v, v ∈ grants ->
    grant_ok cx now mono c (approval_uses e) (expired_approvals e) v;
  rs_bound : not_after res <= challenge_deadline c /\
    forall v, v ∈ grants -> not_after res <= grant_instant c v;
  rs_wall : wall_not_after_ms res <= ch_max_expires_at_ms (challenge c) /\
    forall v, v ∈ grants -> wall_not_after_ms res <= g_expires_at_ms (vg_grant v);
  rs_usage : approval_uses e' = record_uses grants (approval_uses e);
  rs_evidence : evidence res = map (evidence_of (ch_approval_request_id (challenge c))) grants;
}.

Lemma validate_challenge_ok cx now mono c c' :
  validate_challenge cx now mono c = (c', Ok tt) ->
  c' = c /\ tuple_matches (challenge c) cx = true /\ challenge_state c <> Expired /\
  now < ch_max_expires_at_ms (challenge c) /\ mono < challenge_deadline c.
Proof. unfold validate_challenge. intros E. walk E. by split_and!. Qed.

Lemma reserve_approvals_ok cx grants now mono r r' res :
  reserve_approvals cx grants now mono r = (r', Ok res) ->
  exists e e' c, reserved cx grants now mono r r' res e e' c.
Proof.
  unfold reserve_approvals. intros E.
  destruct (cx_approver cx) as [|approvers threshold] eqn:Eap; [done|].
  destruct grants as [|v0 rest] eqn:Eg; [done|]. rewrite <- Eg in *.
  destruct (2 <? llen grants) eqn:E2; [done|].
  destruct (existsb _ grants) eqn:Erq; [done|].
  destruct (split_first _ (entries r)) as [[[pre e] post]|] eqn:Ee; [|done].
  apply split_first_Some in Ee as (Ee & Hserves & _).
  unfold reserve_entry in E.
  destruct (split_first _ (approval_challenges e)) as [[[cp c] cq]|] eqn:Ec; [|done].
  apply split_first_Some in Ec as (Ec & Hreq & _).
  destruct (validate_challenge cx now mono c) as [c' [[]|]] eqn:Ev; [|done].
  apply validate_challenge_ok in Ev as (-> & Htup & Hlive & Hnow & Hmono).
  destruct (check_approvals _ _ _ _ _ _ _ _ _ _ _) as [x [[[ids b] w]|]] eqn:Ek; [|done].
  destruct (llen ids <? threshold) eqn:Et; [done|]. simplify_eq.
  apply check_approvals_ok in Ek as (-> & Hlen & N1 & N2 & _ & Hg & Hb & Hw).
  exists e. eexists. exists c. split.
  - rewrite Ee. set_solver.
  - cbn. apply elem_of_app. right. left.
  - done.
  - rewrite Ec. set_solver.
  - intros v Hv. rewrite existsb_false_elem in Erq. specialize (Erq v Hv).
    unfold has_request_id in Hreq. reflect_bools. congruence.
  - done.
  - by split_and!.
  - exists approvers, threshold. unfold llen in Hlen. cbn [length] in *. reflect_bools.
    split_and!; try done; unfold llen in *; cbn [length] in *; lia.
  - done.
  - done.
  - intros v Hv. by apply Hg.
  - split; [done|]. intros v Hv. by apply Hg.
  - split; [done|]. intros v Hv. by apply Hg.
  - done.
  - cbn. unfold has_request_id in Hreq. reflect_bools. by rewrite Hreq.
Qed.

(** C37: a signed-grant reservation is sound. [reserve_approvals] succeeds only for
    a live challenge of the executing session, with the rule's quorum of one or
    two grants from distinct, allowed approvers under distinct approval ids; each
    grant matches the challenge and the execution, is inside its own window and
    the challenge's, has uses left and was never seen under another digest. The
    effect may outlive neither the challenge nor any grant on either clock. *)
Theorem reserve_approvals_sound cx grants now mono r r' res :
  reserve_approvals cx grants now mono r = (r', Ok res) ->
  exists e e' c, reserved cx grants now mono r r' res e e' c.
Proof. apply reserve_approvals_ok. Qed.

Lemma record_uses_notin grants l id :
  id ∉ map (fun v => g_approval_id (vg_grant v)) grants ->
  find_usage id (record_uses grants l) = find_usage id l.
Proof.
  revert l. induction grants as [|v g IH]; intros l Hn; [done|]. cbn in Hn.
  apply not_elem_of_cons in Hn as [Hne Hn]. unfold record_uses. cbn [fold_left].
  change (find_usage id (record_uses g (record_use (g_approval_id (vg_grant v))
    (vg_grant_digest v) l)) = find_usage id l).
  rewrite IH, record_use_find by done.
  by replace (g_approval_id (vg_grant v) =? id) with false by lia.
Qed.

Lemma record_uses_find grants l v :
  NoDup (map (fun v => g_approval_id (vg_grant v)) grants) -> v ∈ grants ->
  find_usage (g_approval_id (vg_grant v)) (record_uses grants l) =
  Some match find_usage (g_approval_id (vg_grant v)) l with
       | Some u => mkApprovalUsage (g_approval_id (vg_grant v)) (usage_grant_digest u) (uses u + 1)
       | None => mkApprovalUsage (g_approval_id (vg_grant v)) (vg_grant_digest v) 1
       end.
Proof.
  revert l. induction grants as [|x g IH]; intros l Hnd Hin; [by apply elem_of_nil in Hin|].
  cbn in Hnd. apply NoDup_cons in Hnd as [Hx Hnd].
  change (record_uses (x :: g) l) with
    (record_uses g (record_use (g_approval_id (vg_grant x)) (vg_grant_digest x) l)).
  apply elem_of_cons in Hin as [->|Hin].
  - rewrite record_uses_notin, record_use_find, Z.eqb_refl by done. by destruct (find_usage _ l).
  - assert (g_approval_id (vg_grant x) <> g_approval_id (vg_grant v)).
    { intros E. apply Hx. rewrite E. apply list_elem_of_fmap. by exists v. }
    rewrite IH, record_use_find by done.
    by replace (g_approval_id (vg_grant x) =? g_approval_id (vg_grant v)) with false by lia.
Qed.

(** a reservation spends exactly one use of each grant it names, records it
    under the grant's own digest, and never beyond the grant's [max_uses]; the
    record of every other approval is untouched. *)
Theorem reserve_approvals_spends cx grants now mono r r' res :
  reserve_approvals cx grants now mono r = (r', Ok res) ->
  exists e e', e ∈ entries r /\ e' ∈ entries r' /\
  (forall v, v ∈ grants -> 0 < g_max_uses (vg_grant v) -> exists u,
     find_usage (g_approval_id (vg_grant v)) (approval_uses e') = Some u /\
     usage_grant_digest u = vg_grant_digest v /\ uses u <= g_max_uses (vg_grant v) /\
     uses u = 1 + match find_usage (g_approval_id (vg_grant v)) (approval_uses e) with
                  | Some old => uses old | None => 0 end) /\
  (forall id, id ∉ map (fun v => g_approval_id (vg_grant v)) grants ->
     find_usage id (approval_uses e') = find_usage id (approval_uses e)).
Proof.
  intros E. apply reserve_approvals_ok in E as (e & e' & c & R). exists e, e'.
  split; [apply R|]. split; [apply R|]. rewrite (rs_usage _ _ _ _ _ _ _ _ _ _ R).
  split; [|intros id Hid; by apply record_uses_notin].
  intros v Hv Hpos. pose proof (gok_usage _ _ _ _ _ _ _ (rs_grants _ _ _ _ _ _ _ _ _ _ R v Hv)) as Hu.
  eexists. split; [apply record_uses_find; [apply R|done]|].
  destruct (find_usage _ (approval_uses e)) as [u|]; cbn; [|split_and!; done || lia].
  destruct (Hu u eq_refl). split_and!; try done; lia.
Qed.

(** an approval is never replayed. Once a session has recorded an approval id
    with as many uses as a grant allows, or under another digest than the grant's,
    no later state ever accepts that grant for that session. *)
Theorem spent_approval_stays_spent w w' e u v grants cx now mono :
  reachable w -> later w w' -> e ∈ entries (reg w) ->
  find_usage (g_approval_id (vg_grant v)) (approval_uses e) = Some u ->
  (g_max_uses (vg_grant v) <= uses u \/ usage_grant_digest u <> vg_grant_digest v) ->
  v ∈ grants -> principal_session_id (cx_principal cx) = entry_id e ->
  exists err, (reserve_approvals cx grants now mono (reg w')).2 = Err err.
Proof.
  intros Hr Hl He Hu Hspent Hv Hid.
  destruct (reserve_approvals cx grants now mono (reg w')) as [r' [res|err]] eqn:E; [|cbn; eauto].
  exfalso. apply reserve_approvals_ok in E as (e1 & e2 & c & R).
  assert (Ev : evolves e e1).
  { eapply later_entry; [exact Hr|exact Hl|exact He|apply R|].
    destruct (serves_id _ _ (rs_session _ _ _ _ _ _ _ _ _ _ R)). congruence. }
  destruct (ev_usage _ _ Ev _ _ Hu) as (u' & Hu' & Hd & Hn).
  destruct (gok_usage _ _ _ _ _ _ _ (rs_grants _ _ _ _ _ _ _ _ _ _ R v Hv) _ Hu') as [G1 G2].
  destruct Hspent; [lia|congruence].
Qed.

End WithCodecs.

(** ** Witnesses: the run of [Demo.v] *)

Lemma local_approval_single_use_witness :
  is_ok (consume_local Demo.refunded Demo.local_cx 55 40 40 40 (reg Demo.approved)).2 = true /\
  exists err, (consume_local Demo.refunded Demo.local_cx 55 41 41 41 (reg Demo.consumed)).2 = Err err.
Proof.
  split; [vm_compute; reflexivity|].
  eapply (local_approval_single_use (reg Demo.approved) [Demo.refunded] [] [100] Demo.refunded
    Demo.local_cx 55 40 40 40 (reg Demo.consumed)).
  - exact Demo.reachable_approved.
  - vm_compute. reflexivity.
  - apply later_refl.
  - reflexivity.
Defined.

Lemma consume_local_sound_witness :
  exists e c a, e ∈ entries (reg Demo.approved) /\ c ∈ approval_challenges e /\
    entry_id e = 100 /\ challenge_state c = Approved a.
Proof.
  destruct (consume_local_sound (CC := model_codecs) Demo.refunded Demo.local_cx 55 40 40 40 (reg Demo.approved)
    (reg Demo.consumed)
    (mkApprovalReservation [mkApprovalEvidence 55 (Some 77) None] 50000000000 50000)
    ltac:(vm_compute; reflexivity)) as (e & c & a & He & Hc & Hid & _ & _ & _ & Ha & _).
  by exists e, c, a.
Defined.

Definition demo_stored : StoredChallenge :=
  mkStoredChallenge (Demo.challenge_for LocalPresence 55) 0 50000000000 Pending
    (Some (mkLocalReview "hash" [1; 2])).

Lemma approve_requires_review_witness :
  exists c' resp, decide_stored "hash" (Some 77) 30 30 demo_stored = (c', Ok resp) /\
    c' = set_state (Approved 77) demo_stored /\ resp_state resp = LApproved.
Proof.
  eexists _, _. split; [vm_compute; reflexivity|].
  eapply (approve_requires_review "hash" 77 30 30 demo_stored). vm_compute. reflexivity.
Defined.

Lemma rejected_never_consumed_witness :
  exists err, (consume_local Demo.refunded Demo.local_cx 55 40 40 40 (reg Demo.rejected)).2 = Err err.
Proof.
  eapply (rejected_never_consumed (reg Demo.published) [Demo.refunded] [] [100] 55 "hash" 30
    (fun _ => 30) 30 (reg Demo.rejected)).
  - exact Demo.reachable_published.
  - vm_compute. reflexivity.
  - vm_compute. reflexivity.
  - apply later_refl.
  - vm_compute. reflexivity.
Defined.

Lemma reserve_approvals_sound_witness :
  exists res e e' c, reserved Demo.signed_cx Demo.signed_grants 30 30 (reg Demo.challenged)
    (reg Demo.spent) res e e' c.
Proof.
  eexists. apply (reserve_approvals_sound Demo.signed_cx Demo.signed_grants 30 30).
  vm_compute. reflexivity.
Defined.

Lemma reserve_approvals_spends_witness :
  exists e e', e ∈ entries (reg Demo.challenged) /\ e' ∈ entries (reg Demo.spent) /\
  exists u, find_usage 31 (approval_uses e') = Some u /\ uses u <= 1.
Proof.
  destruct (reserve_approvals_spends (CC := model_codecs) Demo.signed_cx Demo.signed_grants 30 30
    (reg Demo.challenged) (reg Demo.spent)
    (mkApprovalReservation [mkApprovalEvidence 56 (Some 31) (Some 21);
                            mkApprovalEvidence 56 (Some 32) (Some 22)] 40000000000 40000)
    ltac:(vm_compute; reflexivity)) as (e & e' & He & He' & Hu & _).
  exists e, e'. split; [done|]. split; [done|].
  destruct (Hu (Demo.signed_grant 31 21) ltac:(left) ltac:(reflexivity)) as (u & Hf & _ & Hle & _).
  by exists u.
Defined.

Lemma spent_approval_stays_spent_witness :
  exists err, (reserve_approvals Demo.signed_cx Demo.signed_grants 35 35 (reg Demo.spent)).2 = Err err.
Proof.
  assert (He : exists e, entries (reg Demo.spent) = [e] /\
    find_usage 31 (approval_uses e) = Some (mkApprovalUsage 31 (repeat 31 32) 1) /\ entry_id e = 100)
    by (eexists; vm_compute; by split_and!).
  destruct He as (e & He & Hu & Hid).
  eapply (spent_approval_stays_spent Demo.spent Demo.spent e _ (Demo.signed_grant 31 21)).
  - exact Demo.reachable_spent.
  - apply later_refl.
  - rewrite He. left.
  - exact Hu.
  - left. vm_compute. discriminate.
  - left.
  - by rewrite Hid.
Defined.
