(* ===== verification/Action.v ===== *)
(** * Action: the parts of a fixed HTTP action

    [rekey-domain/src/action.rs], lines 13-416: action names, methods, origins,
    exact paths, header names and prefixes, the credential slot, and the request
    and response policies. A [BTreeSet] is the list of its elements. *)

From S2P Require Import Prelude Strings Errors Domain.

Definition REQUEST_BODY_HARD_MAX : Z := 1024 * 1024.
Definition RESPONSE_BODY_HARD_MAX : Z := 4 * 1024 * 1024.
Definition ACTION_TIMEOUT_HARD_MAX_MS : Z := 120000.
Definition HEADER_PREFIX_MAX_BYTES : Z := 32.
Definition EXACT_PATH_MAX_BYTES : Z := 2048.

Definition FORBIDDEN_HEADERS : list string := [
  "accept-encoding"; "connection"; "content-encoding"; "content-length"; "cookie"; "host";
  "keep-alive"; "proxy-authenticate"; "proxy-authorization"; "proxy-connection"; "set-cookie";
  "te"; "trailer"; "transfer-encoding"; "upgrade"].
Definition DEFAULT_AUTH_HEADERS : list string := ["authorization"; "x-api-key"].

Definition invalid {A} (msg : string) : result DomainError A :=
  Err (InvalidActionDefinition msg).

(** ** Names and methods *)

(** [ActionName::new]. *)
Definition ActionName_new (raw : string) : result DomainError string :=
  let trimmed := trim raw in
  reject_if is_empty_str trimmed || (128 <? char_count trimmed)
    with InvalidActionDefinition "action name must be 1-128 characters" ;;
  reject_if any_control trimmed
    with InvalidActionDefinition "action name must not contain control characters" ;;
  Ok trimmed.

Inductive FixedMethod : Type := Get | Head | Post | Put | Patch | Delete.

#[export] Instance FixedMethod_eq_dec : EqDecision FixedMethod.
Proof. solve_decision. Defined.

(** [FixedMethod::as_str] and [FixedMethod::parse]. *)
Definition method_as_str (m : FixedMethod) : string :=
  match m with
  | Get => "GET" | Head => "HEAD" | Post => "POST" | Put => "PUT" | Patch => "PATCH"
  | Delete => "DELETE"
  end.
Definition method_parse (s : string) : result DomainError FixedMethod :=
  if str_eqb s "GET" then Ok Get
  else if str_eqb s "HEAD" then Ok Head
  else if str_eqb s "POST" then Ok Post
  else if str_eqb s "PUT" then Ok Put
  else if str_eqb s "PATCH" then Ok Patch
  else if str_eqb s "DELETE" then Ok Delete
  else invalid "unsupported method".

(** ** Origins *)

Definition u16_max : Z := 65535.

(** One label of an origin's host. *)
Definition is_host_byte (b : ascii) : bool :=
  is_ascii_lowercase b || is_ascii_digit b || bool_decide (b = "-"%char).
Definition valid_label (label : string) : bool :=
  negb (is_empty_str label) && (slen label <=? 63)
  && str_all is_host_byte label
  && negb (starts_with "-" label) && negb (ends_with "-" label).
Definition valid_host (host : string) : bool := forallb valid_label (split_on "." host).

Definition render_origin (host : string) (port : option Z) : string :=
  match port with
  | Some p => if negb (p =? 443) then "https://" +:+ (host +:+ String ":" (dec p))
              else "https://" +:+ host
  | None => "https://" +:+ host
  end.

(** The host and optional port of [rest], as [HttpsOrigin::parse] splits them. *)
Definition split_port (rest : string) : result DomainError (string * option Z) :=
  match rsplit_once ":" rest with
  | Some (h, p) =>
      port ← ok_or (InvalidActionDefinition "origin port must be 1-65535")
               (parse_unsigned u16_max p);
      reject_if port =? 0 with InvalidActionDefinition "origin port must be 1-65535" ;;
      Ok (h, Some port)
  | None => Ok (rest, None)
  end.

(** [HttpsOrigin::parse]. *)
Definition HttpsOrigin_parse (raw : string) : result DomainError string :=
  rest ← ok_or (InvalidActionDefinition "origin must start with https://")
           (strip_prefix_str "https://" raw);
  reject_if is_empty_str rest with InvalidActionDefinition "origin host is empty" ;;
  reject_if str_contains "/" rest || str_contains "?" rest || str_contains "#" rest
            || str_contains "@" rest || str_contains "\" rest
            || existsb is_whitespace (chars rest)
    with InvalidActionDefinition
      "origin must not contain userinfo, path, query, or fragment" ;;
  '(host, port) ← split_port rest;
  reject_if is_empty_str host || (253 <? slen host)
    with InvalidActionDefinition "origin host length is invalid" ;;
  reject_if str_contains "[" host || str_contains "]" host
    with InvalidActionDefinition "ipv6 literal origins are not supported in P0" ;;
  let host := to_ascii_lowercase host in
  reject_if negb (valid_host host)
    with InvalidActionDefinition "origin host contains invalid characters" ;;
  Ok (render_origin host port).

(** [HttpsOrigin::host] and [HttpsOrigin::port]; the slice past ["https://"]
    exists for every parsed origin. *)
Definition origin_rest (origin : string) : string :=
  match strip_prefix_str "https://" origin with Some rest => rest | None => EmptyString end.
Definition origin_host (origin : string) : string :=
  let rest := origin_rest origin in
  match rsplit_once ":" rest with Some (h, _) => h | None => rest end.
Definition origin_port (origin : string) : Z :=
  match rsplit_once ":" (origin_rest origin) with
  | Some (_, p) => match parse_unsigned u16_max p with Some v => v | None => 443 end
  | None => 443
  end.

(** ** Paths *)

(** [ExactPath::parse]. *)
Definition ExactPath_parse (raw : string) : result DomainError string :=
  reject_if negb (starts_with "/" raw)
    with InvalidActionDefinition "path must start with /" ;;
  reject_if EXACT_PATH_MAX_BYTES <? slen raw
    with InvalidActionDefinition "path is too long" ;;
  reject_if str_contains "?" raw || str_contains "#" raw || str_contains "\" raw
            || existsb (fun c => is_control c || (c =? 32)) (chars raw)
    with InvalidActionDefinition
      "path must not contain query, fragment, spaces, or control characters" ;;
  reject_if existsb (fun seg => str_eqb seg ".." || str_eqb seg ".") (split_on "/" raw)
    with InvalidActionDefinition "path must not contain dot segments" ;;
  let lower := to_ascii_lowercase raw in
  reject_if contains_str "%2f" lower || contains_str "%5c" lower || contains_str "%2e" lower
    with InvalidActionDefinition "path must not contain encoded separators or dots" ;;
  Ok raw.

(** ** Headers *)

Definition is_header_byte (b : ascii) : bool :=
  is_ascii_lowercase b || is_ascii_digit b || bool_decide (b = "-"%char)
  || bool_decide (b = "_"%char).

(** [HeaderName::new] and [HeaderName::is_forbidden]. *)
Definition HeaderName_new (raw : string) : result DomainError string :=
  let lower := to_ascii_lowercase (trim raw) in
  reject_if is_empty_str lower || (64 <? slen lower)
    with InvalidActionDefinition "header name must be 1-64 bytes" ;;
  reject_if negb (str_all is_header_byte lower)
    with InvalidActionDefinition "header name contains invalid characters" ;;
  Ok lower.
Definition is_forbidden (name : string) : bool := bool_decide (name ∈ FORBIDDEN_HEADERS).

Definition printable (b : ascii) : bool := in_range 33 126 b.

(** The bytes before the last one, and the last one ([split_at(len - 1)]). *)
Fixpoint init_bytes (s : string) : string :=
  match s with
  | EmptyString => EmptyString
  | String _ EmptyString => EmptyString
  | String c r => String c (init_bytes r)
  end.

(** [HeaderPrefix::new]. *)
Definition HeaderPrefix_new (raw : string) : result DomainError string :=
  if is_empty_str raw then Ok EmptyString
  else
    reject_if HEADER_PREFIX_MAX_BYTES <? slen raw
      with InvalidActionDefinition "header prefix is longer than 32 bytes" ;;
    reject_if negb (str_all printable (init_bytes raw))
      with InvalidActionDefinition "header prefix must be printable ascii" ;;
    reject_if negb (last_byte (fun b => printable b || bool_decide (b = " "%char)) raw)
      with InvalidActionDefinition "header prefix may end with at most one space" ;;
    Ok raw.

Record HeaderCredentialUse := mkHeaderCredentialUse {
  header_name : string;
  prefix : string;
}.

(** [HeaderCredentialUse::new]. *)
Definition HeaderCredentialUse_new (name pre : string)
  : result DomainError HeaderCredentialUse :=
  reject_if is_forbidden name
    with InvalidActionDefinition "credential header slot is forbidden" ;;
  reject_if negb (bool_decide (name ∈ DEFAULT_AUTH_HEADERS)) && negb (starts_with_str "x-" name)
    with InvalidActionDefinition
      "credential header must be authorization, x-api-key, or an explicit x- header" ;;
  Ok (mkHeaderCredentialUse name pre).

(** ** Request and response policies *)

Record RequestPolicy := mkRequestPolicy {
  req_max_body_bytes : Z;
  allowed_extra_headers : list string;
}.

(** [RequestPolicy::validate]. *)
Definition request_policy_validate (p : RequestPolicy) (auth_header : string)
  : result DomainError unit :=
  reject_if (req_max_body_bytes p =? 0) || (REQUEST_BODY_HARD_MAX <? req_max_body_bytes p)
    with InvalidActionDefinition "request max_body_bytes must be 1..=1 MiB" ;;
  reject_if existsb (fun h => is_forbidden h || str_eqb h auth_header
                              || str_eqb h "authorization") (allowed_extra_headers p)
    with InvalidActionDefinition "allowed extra header collides with a protected header" ;;
  Ok tt.

Record ResponsePolicy := mkResponsePolicy {
  resp_max_body_bytes : Z;
  allowed_headers : list string;
}.

(** [ResponsePolicy::validate]. *)
Definition response_policy_validate (p : ResponsePolicy) : result DomainError unit :=
  reject_if (resp_max_body_bytes p =? 0) || (RESPONSE_BODY_HARD_MAX <? resp_max_body_bytes p)
    with InvalidActionDefinition "response max_body_bytes must be 1..=4 MiB" ;;
  reject_if existsb (fun h => is_forbidden h || str_eqb h "www-authenticate"
                              || str_eqb h "authentication-info" || str_eqb h "authorization"
                              || str_eqb h "proxy-authorization") (allowed_headers p)
    with InvalidActionDefinition "response header allowlist contains a forbidden header" ;;
  Ok tt.

(** ** Native plugins *)

Definition GITHUB_ISSUES_PROTOCOL : string := "github-issues-v1".
Definition ANTHROPIC_MESSAGES_PROTOCOL : string := "anthropic-messages-v1".

Record NativePlugin := mkNativePlugin {
  plugin_path : string;
  plugin_sha256 : string;
  plugin_protocol : string;
}.

(** [NativePlugin::validate]. *)
Definition plugin_validate (p : NativePlugin) : result DomainError unit :=
  reject_if is_empty_str (plugin_path p)
            || (4096 <? slen (plugin_path p))
            || negb (starts_with "/" (plugin_path p))
            || str_contains "000" (plugin_path p)
            || existsb (fun part => str_eqb part "..") (split_on "/" (plugin_path p))
            || negb (slen (plugin_sha256 p) =? 64)
            || negb (str_all (fun b => is_ascii_digit b || in_range 97 102 b) (plugin_sha256 p))
            || (negb (str_eqb (plugin_protocol p) GITHUB_ISSUES_PROTOCOL)
                && negb (str_eqb (plugin_protocol p) ANTHROPIC_MESSAGES_PROTOCOL))
    with InvalidActionDefinition "invalid native plugin declaration" ;;
  Ok tt.

(** ** Origins are canonical *)

(** The normal form [HttpsOrigin::parse] stores. *)
Record canonical_origin (o host : string) (port : Z) : Prop := {
  co_text : o = "https://" +:+ (if port =? 443 then host else host +:+ String ":" (dec port));
  co_host : valid_host host = true /\ host <> "" /\ slen host <= 253;
  co_port : 1 <= port <= u16_max;
}.

Definition is_origin_byte (b : ascii) : bool :=
  is_host_byte b || bool_decide (b = "."%char).

Lemma join_all (q : ascii -> bool) sep (parts : list string) :
  q sep = true -> Forall (fun s => str_all q s = true) parts -> str_all q (join sep parts) = true.
Proof.
  intros Hs. unfold join. induction 1 as [|s l H HF IH]; [done|]. cbn.
  destruct l; [done|]. rewrite !str_all_app, H, IH. cbn. by rewrite Hs.
Qed.

Lemma valid_host_bytes host : valid_host host = true -> str_all is_origin_byte host = true.
Proof.
  unfold valid_host. rewrite forallb_forall. intros H. rewrite <- (join_split_on "." host).
  apply join_all; [done|]. rewrite Forall_forall. intros s Hs. apply list_elem_of_In, H in Hs.
  unfold valid_label in Hs. reflect_bools. eapply str_all_impl; [|eassumption].
  intros c Hc. unfold is_origin_byte. by rewrite Hc.
Qed.

(** Every byte of an origin past the scheme. *)
Definition is_rest_byte (b : ascii) : bool :=
  is_origin_byte b || bool_decide (b = ":"%char).

Lemma origin_bytes_no c s :
  is_origin_byte c = false -> str_all is_origin_byte s = true -> str_contains c s = false.
Proof.
  intros Hc Hs. unfold str_contains, str_any. apply negb_false_iff.
  eapply str_all_impl; [|exact Hs]. intros a Ha. apply negb_true_iff, bool_decide_eq_false.
  intros ->. congruence.
Qed.

(** Decides a property of every byte by running it on all of them. *)
Lemma all_bytes (q : ascii -> bool) :
  forallb (fun n => q (ascii_of_nat n)) (seq 0 256) = true -> forall c, q c = true.
Proof.
  intros H c. rewrite forallb_forall in H. rewrite <- (ascii_nat_embedding c). apply H.
  apply in_seq. pose proof (nat_ascii_bounded c). lia.
Qed.
Ltac by_bytes c :=
  revert c;
  match goal with |- forall c, @?q c = true -> @?s c = true =>
    let H := fresh in
    intros c; pose proof (all_bytes (fun c => implb (q c) (s c)) ltac:(vm_compute; reflexivity) c) as H;
    cbv beta in H; destruct (q c); [exact H|done] end.

Lemma host_byte_lower s : str_all is_origin_byte s = true -> to_ascii_lowercase s = s.
Proof.
  intros H. apply to_ascii_lowercase_id. eapply str_all_impl; [|exact H].
  intros c Hc. pose proof (all_bytes (fun c => implb (is_origin_byte c) (negb (is_ascii_uppercase c)))
    ltac:(vm_compute; reflexivity) c) as E. cbv beta in E. by rewrite Hc in E.
Qed.

Lemma host_no_whitespace s : str_all is_rest_byte s = true -> existsb is_whitespace (chars s) = false.
Proof.
  intros H. rewrite chars_ascii.
  - apply existsb_false_elem. intros x (c & -> & Hc)%list_elem_of_fmap.
    apply str_all_spec in H. rewrite Forall_forall in H. apply H in Hc.
    pose proof (all_bytes (fun c => implb (is_rest_byte c) (negb (is_whitespace (byte_of c))))
      ltac:(vm_compute; reflexivity) c) as E. cbv beta in E. rewrite Hc in E. cbn in E.
    by reflect_bools.
  - eapply str_all_impl; [|exact H]. intros c Hc.
    pose proof (all_bytes (fun c => implb (is_rest_byte c) (is_ascii_byte c))
      ltac:(vm_compute; reflexivity) c) as E. cbv beta in E. by rewrite Hc in E.
Qed.

Lemma digits_rest s : str_all is_ascii_digit s = true -> str_all is_rest_byte s = true.
Proof.
  apply str_all_impl. intros c Hc. unfold is_rest_byte, is_origin_byte, is_host_byte.
  rewrite Hc. by rewrite !orb_true_r.
Qed.

Lemma rest_no c s :
  is_rest_byte c = false -> str_all is_rest_byte s = true -> str_contains c s = false.
Proof.
  intros Hc Hs. unfold str_contains, str_any. apply negb_false_iff.
  eapply str_all_impl; [|exact Hs]. intros a Ha. apply negb_true_iff, bool_decide_eq_false.
  intros ->. congruence.
Qed.

Lemma canonical_split o host port :
  canonical_origin o host port ->
  exists rest, o = "https://" +:+ rest /\ str_all is_rest_byte rest = true /\ rest <> "" /\
    split_port rest = Ok (host, if port =? 443 then None else Some port) /\
    match rsplit_once ":" rest with Some (h, _) => h | None => rest end = host /\
    match rsplit_once ":" rest with
    | Some (_, p) => match parse_unsigned u16_max p with Some v => v | None => 443 end
    | None => 443
    end = port.
Proof.
  intros [-> (Hv & Hne & Hlen) Hp]. pose proof (valid_host_bytes _ Hv) as Hb.
  assert (Hcolon : str_contains ":" host = false) by (by apply origin_bytes_no).
  assert (Hr : str_all is_rest_byte host = true).
  { eapply str_all_impl; [|exact Hb]. intros c Hc. unfold is_rest_byte. by rewrite Hc. }
  unfold split_port. destruct (port =? 443) eqn:E; reflect_bools.
  - exists host. rewrite rsplit_once_None by done. subst. by split_and!.
  - destruct (dec_spec port) as (_ & Hd & _); [unfold u16_max in Hp; lia|].
    exists (host +:+ String ":" (dec port)).
    rewrite rsplit_once_app by (by apply digits_no_char).
    rewrite parse_unsigned_dec by (unfold u16_max in *; lia). cbn.
    replace (port =? 0) with false by lia. split_and!; try done.
    + rewrite str_all_app, Hr. cbn. by apply digits_rest.
    + by destruct host.
Qed.

Lemma canonical_accepted o host port :
  canonical_origin o host port -> HttpsOrigin_parse o = Ok o.
Proof.
  intros C. pose proof C as [Ho (Hv & Hne & Hlen) Hp].
  destruct (canonical_split _ _ _ C) as (rest & Hrest & Hb & Hr & Hs & _ & _).
  pose proof (valid_host_bytes _ Hv) as Hh.
  unfold HttpsOrigin_parse. rewrite Hrest at 1. rewrite strip_prefix_str_app. cbn [ok_or mbind result_bind].
  replace (is_empty_str rest) with false by (by destruct rest).
  rewrite !(fun c E => rest_no c rest E Hb) by done. rewrite host_no_whitespace by done. cbn [orb].
  rewrite Hs. cbn [mbind result_bind].
  replace (is_empty_str host) with false by (by destruct host).
  replace (253 <? slen host) with false by lia. cbn [orb].
  rewrite !(fun c E => origin_bytes_no c host E Hh) by done. cbn [orb].
  rewrite host_byte_lower, Hv by done. cbn [negb]. f_equal. rewrite Ho.
  destruct (port =? 443) eqn:E; cbn; [done|]. by rewrite E.
Qed.

(** parsing an origin yields a canonical one and only for HTTPS. Whatever
    text is accepted, the stored origin is ["https://"], a lower-case host of
    non-empty labels of at most 63 bytes, and a port only when it is not 443;
    [host] and [port] read back exactly those parts, and parsing the stored
    origin again (as loading it from the vault does) gives it unchanged. *)
Theorem origin_parse_canonical raw o :
  HttpsOrigin_parse raw = Ok o ->
  exists host port, canonical_origin o host port /\
    origin_host o = host /\ origin_port o = port /\ HttpsOrigin_parse o = Ok o.
Proof.
  intros H. assert (Hc : exists host port, canonical_origin o host port).
  { unfold HttpsOrigin_parse in H.
    destruct (strip_prefix_str _ raw) as [rest|]; [|done]. cbn [ok_or mbind result_bind] in H.
    destruct (is_empty_str rest); [done|]. destruct (_ || existsb _ _); [done|].
    destruct (split_port rest) as [[h port]|] eqn:Es; [|done]. cbn [mbind result_bind] in H.
    destruct (_ || (253 <? slen h)) eqn:El; [done|]. destruct (_ || _) in H; [done|].
    destruct (negb (valid_host _)) eqn:Ev; [done|]. reflect_bools. injection H as <-.
    assert (Hn : to_ascii_lowercase h <> "" /\ slen (to_ascii_lowercase h) <= 253).
    { assert (slen (to_ascii_lowercase h) = slen h) as ->
        by (clear; unfold slen; induction h; [done|]; cbn; lia).
      split; [by destruct h|done]. }
    unfold split_port in Es. destruct (rsplit_once ":" rest) as [[h' p]|].
    - destruct (parse_unsigned u16_max p) as [v|] eqn:Ep; [|done]. cbn in Es.
      destruct (v =? 0) eqn:Ez; [done|]. simplify_eq. reflect_bools.
      pose proof (parse_unsigned_range _ _ _ Ep). pose proof (parse_unsigned_nonneg _ _ _ Ep).
      exists (to_ascii_lowercase h), v. split; [|by split_and!; naive_solver|lia].
      unfold render_origin. by destruct (v =? 443).
    - simplify_eq. exists (to_ascii_lowercase h), 443.
      split; [done|naive_solver|unfold u16_max; lia]. }
  destruct Hc as (host & port & C). exists host, port. split; [done|].
  pose proof (canonical_accepted _ _ _ C) as Ha.
  destruct (canonical_split _ _ _ C) as (rest & -> & _ & _ & _ & Hh & Hp).
  unfold origin_host, origin_port, origin_rest. rewrite strip_prefix_str_app. by split_and!.
Qed.

Lemma origin_parse_canonical_witness :
  exists host port, canonical_origin "https://api.example.com:8443" host port /\
    origin_host "https://api.example.com:8443" = host /\
    origin_port "https://api.example.com:8443" = port /\
    HttpsOrigin_parse "https://api.example.com:8443" = Ok "https://api.example.com:8443".
Proof. apply (origin_parse_canonical "https://API.Example.com:08443"). vm_compute. reflexivity. Defined.

(** ** Paths are safe *)

Lemma exact_path_iff raw p :
  ExactPath_parse raw = Ok p <->
  p = raw /\ (exists rest, raw = String "/" rest) /\ slen raw <= EXACT_PATH_MAX_BYTES /\
  Forall (fun c => str_contains c raw = false) ["?"; "#"; "\"]%char /\
  Forall (fun c => is_control c = false /\ c <> 32) (chars raw) /\
  ".." ∉ split_on "/" raw /\ "." ∉ split_on "/" raw /\
  (forall a b, to_ascii_lowercase raw <> a +:+ ("%2f" +:+ b)) /\
  (forall a b, to_ascii_lowercase raw <> a +:+ ("%5c" +:+ b)) /\
  (forall a b, to_ascii_lowercase raw <> a +:+ ("%2e" +:+ b)).
Proof.
  assert (Hsub : forall q s, contains_str q s = false <-> forall a b, s <> a +:+ (q +:+ b)).
  { intros q s. rewrite <- not_true_iff_false, contains_str_spec. naive_solver. }
  unfold ExactPath_parse. split.
  - intros H. walk H. rewrite !Forall_cons, Forall_nil, <- !Hsub.
    match goal with E : existsb _ (chars _) = false |- _ => rewrite existsb_false_elem in E; rename E into Hctl end.
    match goal with E : existsb _ (split_on _ _) = false |- _ => rewrite existsb_false_elem in E; rename E into Hdot end.
    assert (Hd : forall s, s ∈ split_on "/" p -> s <> ".." /\ s <> ".").
    { intros s Hs. specialize (Hdot s Hs). cbn in Hdot. unfold str_eqb in Hdot. by reflect_bools. }
    split_and!; try done.
    + destruct p as [|c r]; [done|]. unfold starts_with in *. reflect_bools. subst. eauto.
    + rewrite Forall_forall. intros c Hc. specialize (Hctl c Hc). cbn in Hctl. by reflect_bools.
    + intros Hin. by destruct (Hd _ Hin).
    + intros Hin. by destruct (Hd _ Hin).
  - intros (-> & [rest Hr] & Hl & Hch & Hctl & Hdd & Hd & H1 & H2 & H3).
    apply Hsub in H1, H2, H3. rewrite !Forall_cons in Hch. destruct Hch as (C1 & C2 & C3 & _).
    replace (starts_with "/" raw) with true by (by rewrite Hr).
    replace (EXACT_PATH_MAX_BYTES <? slen raw) with false by lia. rewrite C1, C2, C3, H1, H2, H3.
    replace (existsb _ (chars raw)) with false; [replace (existsb _ (split_on _ _)) with false; [done|]|].
    + symmetry. apply existsb_false_elem. intros s Hs. unfold str_eqb.
      rewrite !bool_decide_eq_false_2; [done| |]; by intros ->.
    + symmetry. apply existsb_false_elem. intros c Hc. rewrite Forall_forall in Hctl.
      destruct (Hctl c Hc) as [-> ?]. by replace (c =? 32) with false by lia.
Qed.

(** an accepted exact path is the given text, starts with a slash, has at most
    2048 bytes, no query, fragment, backslash, space or control character, no
    dot segment, and no escape of a slash, backslash or dot in either case, so
    it names the same resource before and after URL normalisation. *)
Theorem exact_path_safe raw p :
  ExactPath_parse raw = Ok p <->
  p = raw /\ (exists rest, raw = String "/" rest) /\ slen raw <= EXACT_PATH_MAX_BYTES /\
  Forall (fun c => str_contains c raw = false) ["?"; "#"; "\"]%char /\
  Forall (fun c => is_control c = false /\ c <> 32) (chars raw) /\
  ".." ∉ split_on "/" raw /\ "." ∉ split_on "/" raw /\
  (forall a b, to_ascii_lowercase raw <> a +:+ ("%2f" +:+ b)) /\
  (forall a b, to_ascii_lowercase raw <> a +:+ ("%5c" +:+ b)) /\
  (forall a b, to_ascii_lowercase raw <> a +:+ ("%2e" +:+ b)).
Proof. apply exact_path_iff. Qed.

(** ** Header names *)

Lemma header_bytes_trim s : str_all is_header_byte s = true -> trim s = s /\ to_ascii_lowercase s = s.
Proof.
  intros H. split.
  - apply trim_id. eapply str_all_impl; [|exact H]. intros c Hc.
    pose proof (all_bytes (fun c => implb (is_header_byte c)
      (is_ascii_byte c && negb (is_whitespace (byte_of c)))) ltac:(vm_compute; reflexivity) c) as E.
    cbv beta in E. by rewrite Hc in E.
  - apply to_ascii_lowercase_id. eapply str_all_impl; [|exact H]. intros c Hc.
    pose proof (all_bytes (fun c => implb (is_header_byte c) (negb (is_ascii_uppercase c)))
      ltac:(vm_compute; reflexivity) c) as E. cbv beta in E. by rewrite Hc in E.
Qed.

(** header names are normalised once and for all: an accepted name is a
    lower-case token of 1 to 64 bytes, accepting it again gives it unchanged,
    and every spelling of a header that differs in case or surrounding space
    only is stored as the same name, so the forbidden list cannot be evaded. *)
Theorem header_name_canonical raw h :
  HeaderName_new raw = Ok h ->
  HeaderName_new h = Ok h /\ 1 <= slen h <= 64 /\ str_all is_header_byte h = true /\
  h = to_ascii_lowercase (trim raw).
Proof.
  unfold HeaderName_new. intros H. walk H. 
  match goal with E : str_all is_header_byte _ = true |- _ => destruct (header_bytes_trim _ E) as [-> ->];
    rewrite E end.
  match goal with E : is_empty_str ?s = false |- _ => rewrite E end. cbn [orb negb].
  match goal with |- context [64 <? ?x] => replace (64 <? x) with false by lia end.
  split_and!; try done.
  match goal with E : is_empty_str ?s = false |- _ => destruct s; [done|unfold slen; cbn; lia] end.
Qed.

Lemma header_name_canonical_witness :
  HeaderName_new "cookie" = Ok "cookie" /\ is_forbidden "cookie" = true.
Proof.
  split; [|reflexivity]. apply (header_name_canonical " Cookie "). vm_compute. reflexivity.
Defined.
