(* ===== verification/Template.v ===== *)
(** * Template: provider templates and the requests they render

    [rekey-domain/src/template.rs]: the closed value grammar of bindings,
    parameters and query keys, template validation, administrator bindings, and
    the rendering of an agent's call to a path and a request target. A
    [BTreeMap] is the list of its pairs ([Strings.map_get]); a [Vec] index is a
    [usize], a non-negative [Z]. Rendering is [None] where the code would panic
    ([TemplateTheorems] shows that it never does). Deserialisation through serde
    is not modelled; the built-in templates are the values their JSON denotes. *)

From S2P Require Import Prelude Strings Errors Domain Action.

Abbreviation TemplateValues := (list (string * string)) (only parsing).

(** ** Value rules *)

Inductive ValueRule : Type :=
  | Slug
  | Int (min max : Z)
  | Enum (values : list string).

#[export] Instance ValueRule_eq_dec : EqDecision ValueRule.
Proof. solve_decision. Defined.

(** [decimal]. *)
Definition decimal (raw : string) : result DomainError Z :=
  let digits := match strip_prefix "-" raw with Some d => d | None => raw end in
  reject_if is_empty_str digits || negb (str_all is_ascii_digit digits)
    with InvalidActionDefinition "integer must contain only decimal ASCII digits" ;;
  ok_or (InvalidActionDefinition "integer is out of range") (parse_i64 raw).

(** [ValueRule::validate]. *)
Definition value_rule_validate (r : ValueRule) : result DomainError unit :=
  match r with
  | Int min max =>
      reject_if max <? min with InvalidActionDefinition "reversed integer bounds" ;; Ok tt
  | Enum values =>
      reject_if bool_decide (values = []) || existsb (fun v => negb (safe_value v)) values
                || negb (all_distinct values)
        with InvalidActionDefinition "enum values must be unique safe segments" ;;
      Ok tt
  | Slug => Ok tt
  end.

(** [ValueRule::parse]. *)
Definition ValueRule_parse (raw : string) : result DomainError ValueRule :=
  rule ← (if str_eqb raw "slug" then Ok Slug
          else match strip_prefix_str "int:" raw with
          | Some range =>
              '(min, max) ← ok_or (InvalidActionDefinition "invalid integer rule")
                              (split_once_str ".." range);
              min ← decimal min;
              max ← decimal max;
              Ok (Int min max)
          | None =>
              match strip_prefix_str "enum:" raw with
              | Some values => Ok (Enum (split_on "," values))
              | None => invalid "unsupported template value rule"
              end
          end);
  _ ← value_rule_validate rule;
  Ok rule.

(** [ValueRule::serialize]: the text of a rule. *)
Definition value_rule_print (r : ValueRule) : string :=
  match r with
  | Slug => "slug"
  | Int min max => "int:" +:+ (dec_signed min +:+ (".." +:+ dec_signed max))
  | Enum values => "enum:" +:+ join "," values
  end.

(** [ValueRule::normalize]. *)
Definition normalize (r : ValueRule) (value : string) : result DomainError string :=
  reject_if negb (safe_value value)
    with InvalidActionDefinition "template value is not a safe ASCII segment" ;;
  match r with
  | Slug => if slug value 100 then Ok value else invalid "template value violates its rule"
  | Int min max =>
      number ← decimal value;
      reject_if (number <? min) || (max <? number)
        with InvalidActionDefinition "template integer is outside its bounds" ;;
      Ok (dec_signed number)
  | Enum values =>
      if existsb (fun v => str_eqb v value) values then Ok value
      else invalid "template value violates its rule"
  end.

(** ** Declarations *)

Record BindingRule := mkBindingRule {
  binding_rule : ValueRule;
  binding_max : option Z;
}.

Record TemplateInjection := mkTemplateInjection {
  inject_header : string;
  inject_prefix : string;
}.

Record TemplateCredential := mkTemplateCredential {
  credential_kind : CredentialKind;
  inject : TemplateInjection;
}.

Inductive Risk : Type := Low | Medium | High.
Inductive DefaultRule : Type := DefaultAllow | DefaultRequireApproval.
Inductive TemplateApprover : Type := TemplateLocalPresence.

#[export] Instance DefaultRule_eq_dec : EqDecision DefaultRule.
Proof. solve_decision. Defined.
#[export] Instance TemplateApprover_eq_dec : EqDecision TemplateApprover.
Proof. solve_decision. Defined.

Record DefaultPolicy := mkDefaultPolicy {
  default_rule_of : DefaultRule;
  default_approver : option TemplateApprover;
}.

Record TemplateAction := mkTemplateAction {
  ta_method : FixedMethod;
  ta_path : string;
  ta_params : list (string * ValueRule);
  ta_query : list (string * ValueRule);
  ta_body_schema : option string;
}.

Record TemplateCapability := mkTemplateCapability {
  cap_id : string;
  cap_risk : Risk;
  cap_default_rule : option DefaultRule;
  cap_actions : list TemplateAction;
}.

(** [TemplateCapability::default_policy]. *)
Definition default_policy (c : TemplateCapability) : DefaultPolicy :=
  let rule := match cap_default_rule c with
    | Some r => r
    | None => match cap_risk c with
              | Low | Medium => DefaultAllow
              | High => DefaultRequireApproval
              end
    end in
  mkDefaultPolicy rule
    (if bool_decide (rule = DefaultRequireApproval) then Some TemplateLocalPresence else None).

Record TemplateDefinition := mkTemplateDefinition {
  td_template : string;
  td_display : string;
  td_credential : TemplateCredential;
  td_origin : string;
  td_fixed_headers : list (string * string);
  td_bindings : list (string * BindingRule);
  td_capabilities : list TemplateCapability;
}.

(** ** Validation *)

(** [placeholder]. *)
Definition placeholder (segment : string) : option string :=
  match strip_prefix "{" segment with
  | Some rest => strip_suffix "}" rest
  | None => None
  end.

(** [validate_template_id]. *)
Definition validate_template_id (id : string) : result DomainError unit :=
  '(name, version) ← ok_or (InvalidActionDefinition "template must have a version")
                       (split_once "@" id);
  (if negb (slug name 100) then
     invalid "invalid template name, version, or capabilities"
   else
     v ← decimal version;
     if v <? 1 then invalid "invalid template name, version, or capabilities" else Ok tt).

(** [validate_headers]. *)
Definition fixed_header_invalid (injection : TemplateInjection) (h : string * string) : bool :=
  let '(header, content) := h in
  is_forbidden header || str_eqb header (inject_header injection)
  || str_eqb header "authorization" || negb (str_all (in_range 32 126) content).
Definition validate_headers (credential : TemplateCredential) (headers : list (string * string))
  : result DomainError unit :=
  reject_if negb (bool_decide (credential_kind credential = OpaqueToken))
    with InvalidActionDefinition "provider templates require opaque-token credentials" ;;
  let injection := inject credential in
  _ ← HeaderCredentialUse_new (inject_header injection) (inject_prefix injection);
  reject_if existsb (fixed_header_invalid injection) headers
    with InvalidActionDefinition "invalid fixed template header" ;;
  Ok tt.

(** [validate_target]: the loop over the segments returns the placeholder names
    used and the skeleton. *)
Fixpoint scan_segments (declared : string -> bool) (segments : list string)
  : result DomainError (list string * list string) :=
  match segments with
  | [] => Ok ([], [])
  | segment :: rest =>
      match placeholder segment with
      | Some name =>
          reject_if negb (declared name)
            with InvalidActionDefinition "undeclared path placeholder" ;;
          '(used, skeleton) ← scan_segments declared rest;
          Ok (name :: used, "x" :: skeleton)
      | None =>
          reject_if negb (str_all is_ascii_byte segment)
                    || str_contains "{" segment || str_contains "}" segment
                    || str_contains "*" segment || str_contains "%" segment
            with InvalidActionDefinition
              "path contains a wildcard, escape, or invalid placeholder" ;;
          '(used, skeleton) ← scan_segments declared rest;
          Ok (used, segment :: skeleton)
      end
  end.

Definition validate_names (rules : list (string * ValueRule)) : result DomainError unit :=
  try_each (fun '(name, rule) =>
    reject_if negb (slug name 100)
      with InvalidActionDefinition "invalid parameter or query name" ;;
    value_rule_validate rule) rules.

Definition validate_target (path : string) (params query : list (string * ValueRule))
    (is_binding : string -> bool) : result DomainError unit :=
  _ ← validate_names (params ++ query);
  '(used, skeleton) ← scan_segments (fun name => contains_key name params || is_binding name)
                        (split_on "/" path);
  reject_if existsb (fun name => negb (bool_decide (name ∈ used))) (keys params)
    with InvalidActionDefinition "path parameter is not used in the path" ;;
  _ ← ExactPath_parse (join "/" skeleton);
  Ok tt.

(** [ProviderTemplate::try_from]. *)
Definition validate_binding (b : string * BindingRule) : result DomainError unit :=
  let '(name, binding) := b in
  reject_if negb (slug name 100)
            || match binding_max binding with
               | Some max => negb (bool_decide (binding_rule binding = Slug))
                             || negb ((1 <=? max) && (max <=? 100))
               | None => false
               end
    with InvalidActionDefinition "invalid binding name or slug bound" ;;
  value_rule_validate (binding_rule binding).

Definition validate_action (bindings : list (string * BindingRule)) (a : TemplateAction)
  : result DomainError unit :=
  reject_if existsb (fun key => contains_key key bindings) (keys (ta_params a))
    with InvalidActionDefinition "agent parameters cannot shadow admin bindings" ;;
  validate_target (ta_path a) (ta_params a) (ta_query a) (fun name => contains_key name bindings).

Fixpoint validate_capabilities (bindings : list (string * BindingRule)) (ids : list string)
    (l : list TemplateCapability) : result DomainError unit :=
  match l with
  | [] => Ok tt
  | c :: rest =>
      reject_if negb (slug (cap_id c) 100) || bool_decide (cap_id c ∈ ids)
                || bool_decide (cap_actions c = [])
        with InvalidActionDefinition "capabilities must have unique ids and actions" ;;
      _ ← try_each (validate_action bindings) (cap_actions c);
      validate_capabilities bindings (cap_id c :: ids) rest
  end.

Definition all_actions (d : TemplateDefinition) : list TemplateAction :=
  List.concat (map cap_actions (td_capabilities d)).

Definition has_parameters (a : TemplateAction) : bool :=
  negb (bool_decide (ta_params a = [])) || negb (bool_decide (ta_query a = []))
  || str_contains "{" (ta_path a) || str_contains "}" (ta_path a).

Definition ProviderTemplate_try_from (d : TemplateDefinition)
  : result DomainError TemplateDefinition :=
  _ ← validate_template_id (td_template d);
  reject_if bool_decide (td_capabilities d = [])
    with InvalidActionDefinition "invalid template name, version, or capabilities" ;;
  _ ← validate_headers (td_credential d) (td_fixed_headers d);
  _ ← try_each validate_binding (td_bindings d);
  _ ← validate_capabilities (td_bindings d) [] (td_capabilities d);
  reject_if str_eqb (td_template d) "generic-bearer@1"
            && ((20 <? llen (all_actions d)) || negb (bool_decide (td_bindings d = []))
                || existsb has_parameters (all_actions d))
    with InvalidActionDefinition
      "generic-bearer requires 1-20 fixed actions without parameters" ;;
  Ok d.

(** ** Targets *)

Record TemplateTarget := mkTemplateTarget {
  target_path : string;
  target_params : list (string * ValueRule);
  target_query : list (string * ValueRule);
}.

(** [TemplateTarget::new]. *)
Definition TemplateTarget_new (path : string) (params query : list (string * ValueRule))
  : result DomainError TemplateTarget :=
  _ ← validate_target path params query (fun _ => false);
  Ok (mkTemplateTarget path params query).

Record RenderedTarget := mkRenderedTarget {
  rendered_path : string;
  rendered_params : list (string * string);
  rendered_query : list (string * string);
}.

(** The [normalize] closure of [render]. *)
Definition normalize_values (values : TemplateValues) (rules : list (string * ValueRule))
  : result DomainError TemplateValues :=
  mapM (fun '(name, value) =>
    rule ← ok_or (InvalidActionDefinition "undeclared parameter or query key")
             (map_get name rules);
    value ← normalize rule value;
    Ok (name, value)) values.

(** Replaces the placeholders of a segment; [None] is the failed [expect]. *)
Definition substitute (params : TemplateValues) (segment : string) : option string :=
  match placeholder segment with
  | None => Some segment
  | Some name => map_get name params
  end.

(** [TemplateTarget::render]; [None] is a panic. *)
Definition target_render (t : TemplateTarget) (params query : TemplateValues)
  : option (result DomainError RenderedTarget) :=
  if negb (llen params =? llen (target_params t)) then
    Some (invalid "missing or undeclared path parameter")
  else match normalize_values params (target_params t) with
  | Err e => Some (Err e)
  | Ok params =>
      match normalize_values query (target_query t) with
      | Err e => Some (Err e)
      | Ok query =>
          match mapM (substitute params) (split_on "/" (target_path t)) with
          | None => None
          | Some segments =>
              Some (path ← ExactPath_parse (join "/" segments);
                    Ok (mkRenderedTarget path params query))
          end
      end
  end.

(** [encode_query_value] and [request_target]. *)
Definition HEX : string := "0123456789ABCDEF".
Definition hex_digit (n : Z) : ascii :=
  match String.get (Z.to_nat n) HEX with Some c => c | None => "0"%char end.
Definition is_unreserved (b : ascii) : bool :=
  is_ascii_alphanumeric b || bool_decide (b = "-"%char) || bool_decide (b = "."%char)
  || bool_decide (b = "_"%char) || bool_decide (b = "~"%char).
Fixpoint encode_query_value (value : string) : string :=
  match value with
  | EmptyString => EmptyString
  | String b rest =>
      if is_unreserved b then String b (encode_query_value rest)
      else String "%" (String (hex_digit (Z.shiftr (byte_of b) 4))
             (String (hex_digit (Z.land (byte_of b) 15)) (encode_query_value rest)))
  end.

Definition request_target (path : string) (query : TemplateValues) : string :=
  if bool_decide (query = []) then path
  else path +:+ String "?"
    (join "&" (map (fun '(key, value) => key +:+ String "=" (encode_query_value value)) query)).

(** ** Bindings and materialisation *)

Record BoundTemplate := mkBoundTemplate {
  bound_template : TemplateDefinition;
  bound_bindings : list (string * string);
}.

(** [ProviderTemplate::bind]. *)
Definition bind_value (bindings : list (string * BindingRule)) (nv : string * string)
  : result DomainError (string * string) :=
  let '(name, value) := nv in
  rule ← ok_or (InvalidActionDefinition "undeclared admin binding") (map_get name bindings);
  normalized ← normalize (binding_rule rule) value;
  reject_if match binding_max rule with Some max => max <? slen normalized | None => false end
    with InvalidActionDefinition "admin binding exceeds its slug bound" ;;
  Ok (name, normalized).
Definition bind_template (d : TemplateDefinition) (values : TemplateValues)
  : result DomainError BoundTemplate :=
  reject_if negb (llen values =? llen (td_bindings d))
    with InvalidActionDefinition "missing or undeclared admin binding" ;;
  bindings ← mapM (bind_value (td_bindings d)) values;
  Ok (mkBoundTemplate d bindings).

Record MaterializedAction := mkMaterializedAction {
  ma_template : string;
  ma_capability : string;
  ma_action_index : Z;
  ma_origin : string;
  ma_method : FixedMethod;
  ma_target : TemplateTarget;
  ma_fixed_headers : list (string * string);
  ma_credential : TemplateCredential;
  ma_default_policy : DefaultPolicy;
  ma_body_schema : option string;
}.

(** [MaterializedAction::try_from]. *)
Definition MaterializedAction_try_from (v : MaterializedAction)
  : result DomainError MaterializedAction :=
  _ ← validate_template_id (ma_template v);
  reject_if negb (slug (ma_capability v) 100)
    with InvalidActionDefinition "invalid template capability" ;;
  _ ← validate_headers (ma_credential v) (ma_fixed_headers v);
  let approver :=
    if bool_decide (default_rule_of (ma_default_policy v) = DefaultRequireApproval)
    then Some TemplateLocalPresence else None in
  reject_if negb (bool_decide (default_approver (ma_default_policy v) = approver))
    with InvalidActionDefinition "invalid template default policy" ;;
  Ok v.

(** [BoundTemplate::materialize]. *)
Definition bind_segment (bindings : list (string * string)) (segment : string) : string :=
  match placeholder segment with
  | None => segment
  | Some name => match map_get name bindings with Some v => v | None => segment end
  end.
Definition materialize (b : BoundTemplate) (capability_id : string) (action_index : Z)
  : result DomainError MaterializedAction :=
  let d := bound_template b in
  capability ← ok_or (InvalidActionDefinition "unknown template capability")
                 (find_first (fun c => str_eqb (cap_id c) capability_id) (td_capabilities d));
  action ← ok_or (InvalidActionDefinition "unknown template action")
             (cap_actions capability !! Z.to_nat action_index);
  let path := join "/" (map (bind_segment (bound_bindings b)) (split_on "/" (ta_path action))) in
  target ← TemplateTarget_new path (ta_params action) (ta_query action);
  Ok (mkMaterializedAction (td_template d) (cap_id capability) action_index (td_origin d)
        (ta_method action) target (td_fixed_headers d) (td_credential d)
        (default_policy capability) (ta_body_schema action)).

Record RenderedRequest := mkRenderedRequest {
  rr_template : string;
  rr_capability : string;
  rr_action_index : Z;
  rr_origin : string;
  rr_method : FixedMethod;
  rr_path : string;
  rr_fixed_headers : list (string * string);
  rr_credential : TemplateCredential;
  rr_params : list (string * string);
  rr_query : list (string * string);
  rr_default_policy : DefaultPolicy;
  rr_body_schema : option string;
}.

(** [MaterializedAction::render]. *)
Definition materialized_render (m : MaterializedAction) (params query : TemplateValues)
  : option (result DomainError RenderedRequest) :=
  match target_render (ma_target m) params query with
  | None => None
  | Some target => Some (
      target ← target;
      Ok (mkRenderedRequest (ma_template m) (ma_capability m) (ma_action_index m)
            (ma_origin m) (ma_method m) (rendered_path target) (ma_fixed_headers m)
            (ma_credential m) (rendered_params target) (rendered_query target)
            (ma_default_policy m) (ma_body_schema m)))
  end.

(** [BoundTemplate::render]. *)
Definition bound_render (b : BoundTemplate) (capability_id : string) (action_index : Z)
    (params query : TemplateValues) : option (result DomainError RenderedRequest) :=
  match materialize b capability_id action_index with
  | Err e => Some (Err e)
  | Ok m => materialized_render m params query
  end.
Definition rendered_request_target (r : RenderedRequest) : string :=
  request_target (rr_path r) (rr_query r).

(** ** Built-in templates *)

Definition fixed_action (method : FixedMethod) (path : string) : TemplateAction :=
  mkTemplateAction method path [] [] None.
Definition bearer : TemplateCredential :=
  mkTemplateCredential OpaqueToken (mkTemplateInjection "authorization" "Bearer ").
Definition api_key : TemplateCredential :=
  mkTemplateCredential OpaqueToken (mkTemplateInjection "x-api-key" "").

Definition anthropic : TemplateDefinition :=
  mkTemplateDefinition "anthropic@1" "Anthropic" api_key "https://api.anthropic.com"
    [("anthropic-version", "2023-06-01")] []
    [mkTemplateCapability "messages" Medium None
       [mkTemplateAction Post "/v1/messages" [] [("beta", Enum ["true"])] None];
     mkTemplateCapability "count-tokens" Low None
       [mkTemplateAction Post "/v1/messages/count_tokens" [] [("beta", Enum ["true"])] None];
     mkTemplateCapability "models" Low None [fixed_action Get "/v1/models"]].

Definition glm : TemplateDefinition :=
  mkTemplateDefinition "glm@1" "GLM" api_key "https://open.bigmodel.cn"
    [("anthropic-version", "2023-06-01")] []
    [mkTemplateCapability "messages" Medium None
       [mkTemplateAction Post "/api/anthropic/v1/messages" [] [("beta", Enum ["true"])] None]].

Definition glm_responses : TemplateDefinition :=
  mkTemplateDefinition "glm-responses@1" "GLM（Responses）" bearer "https://open.bigmodel.cn"
    [] [] [mkTemplateCapability "responses" Medium None [fixed_action Post "/api/v1/responses"]].

Definition openai : TemplateDefinition :=
  mkTemplateDefinition "openai@1" "OpenAI" bearer "https://api.openai.com" [] []
    [mkTemplateCapability "chat-completions" Medium None [fixed_action Post "/v1/chat/completions"];
     mkTemplateCapability "responses" Medium None [fixed_action Post "/v1/responses"];
     mkTemplateCapability "embeddings" Medium None [fixed_action Post "/v1/embeddings"];
     mkTemplateCapability "models" Low None [fixed_action Get "/v1/models"]].

Definition github_pat : TemplateDefinition :=
  let number := [("number", Int 1 2147483647)] in
  mkTemplateDefinition "github-pat@1" "GitHub（个人访问令牌）" bearer "https://api.github.com"
    [("accept", "application/vnd.github+json"); ("x-github-api-version", "2022-11-28")]
    [("owner", mkBindingRule Slug (Some 39)); ("repo", mkBindingRule Slug (Some 100))]
    [mkTemplateCapability "read-repo" Low None
       [fixed_action Get "/repos/{owner}/{repo}";
        mkTemplateAction Get "/repos/{owner}/{repo}/issues" []
          [("page", Int 1 1000); ("per_page", Int 1 100);
           ("state", Enum ["open"; "closed"; "all"])] None;
        mkTemplateAction Get "/repos/{owner}/{repo}/pulls/{number}" number [] None;
        mkTemplateAction Get "/repos/{owner}/{repo}/issues/{number}/comments" number [] None;
        fixed_action Get "/repos/{owner}/{repo}/labels";
        fixed_action Get "/repos/{owner}/{repo}/contents";
        mkTemplateAction Get "/repos/{owner}/{repo}/contents/{path}" [("path", Slug)] [] None];
     mkTemplateCapability "create-issue" Medium None
       [mkTemplateAction Post "/repos/{owner}/{repo}/issues" [] []
          (Some "schemas/github-create-issue.json")];
     mkTemplateCapability "merge-pr" High (Some DefaultRequireApproval)
       [mkTemplateAction Put "/repos/{owner}/{repo}/pulls/{number}/merge" number [] None]].

(** [generic_bearer]. *)
Definition generic_bearer (origin : string) (actions : list (FixedMethod * string))
  : result DomainError TemplateDefinition :=
  display ← ActionName_new "Generic Bearer";
  header ← HeaderName_new "authorization";
  pre ← HeaderPrefix_new "Bearer ";
  ProviderTemplate_try_from
    (mkTemplateDefinition "generic-bearer@1" display
       (mkTemplateCredential OpaqueToken (mkTemplateInjection header pre)) origin [] []
       [mkTemplateCapability "fixed-actions" Medium None
          (map (fun '(method, path) => mkTemplateAction method path [] [] None) actions)]).
