(* ===== verification/TemplateTheorems.v ===== *)
(** * TemplateTheorems: what a rendered provider request may contain

    The value grammar normalises once and for all and prints to text that parses
    back; rendering never panics and changes nothing of the declared path but its
    placeholders, each replaced by one safe segment; the request target an
    upstream receives reads back to exactly the rendered path and query, so no
    value can add a segment, a query key or a fragment. *)

From S2P Require Import Prelude Strings Errors Domain Action Template.

(** ** Safe values and numbers *)

Lemma safe_value_bytes v : safe_value v = true -> str_all is_slug_byte v = true.
Proof. unfold safe_value. intros H. by reflect_bools. Qed.
Lemma safe_value_no c v : is_slug_byte c = false -> safe_value v = true -> str_contains c v = false.
Proof. intros Hc Hv. by apply str_contains_slug, safe_value_bytes. Qed.

Lemma digits_slug_bytes s : str_all is_ascii_digit s = true -> str_all is_slug_byte s = true.
Proof.
  apply str_all_impl. intros c Hc. unfold is_slug_byte, is_ascii_alphanumeric. by rewrite Hc.
Qed.

Lemma dec_signed_bytes n : in_i64 n -> str_all is_slug_byte (dec_signed n) = true.
Proof.
  unfold in_i64, i64_min, i64_max, dec_signed. intros Hn. destruct (n <? 0) eqn:E; reflect_bools.
  - destruct (dec_spec (- n) ltac:(lia)) as (_ & H & _). cbn. by apply digits_slug_bytes.
  - destruct (dec_spec n ltac:(lia)) as (_ & H & _). by apply digits_slug_bytes.
Qed.

Lemma dec_signed_digits n :
  in_i64 n ->
  let digits := match strip_prefix "-" (dec_signed n) with Some d => d | None => dec_signed n end in
  digits <> "" /\ str_all is_ascii_digit digits = true.
Proof.
  unfold in_i64, i64_min, i64_max, dec_signed. intros Hn. destruct (n <? 0) eqn:E; reflect_bools.
  - destruct (dec_spec (- n) ltac:(lia)) as (_ & H & H'). cbn [strip_prefix].
    by rewrite bool_decide_eq_true_2.
  - destruct (dec_spec n ltac:(lia)) as (_ & H & H'). by rewrite strip_prefix_digits.
Qed.

Lemma decimal_dec_signed n : in_i64 n -> decimal (dec_signed n) = Ok n.
Proof.
  intros Hn. pose proof (dec_signed_digits n Hn) as [Hne Hd]. unfold decimal. rewrite Hd.
  destruct (match strip_prefix "-" (dec_signed n) with Some d => d | None => _ end); [done|].
  cbn. by rewrite parse_i64_dec_signed.
Qed.

Lemma decimal_range s n : decimal s = Ok n -> in_i64 n.
Proof.
  unfold decimal. destruct (_ || _); [done|]. destruct (parse_i64 s) eqn:E; [|done].
  cbn. intros; simplify_eq. by apply parse_i64_range in E.
Qed.

Lemma dec_signed_safe n : in_i64 n -> safe_value (dec_signed n) = true.
Proof.
  intros Hn. pose proof (dec_signed_bytes n Hn) as Hb. pose proof (dec_signed_digits n Hn) as [_ Hd].
  assert (Hne : dec_signed n <> "").
  { pose proof (dec_signed_digits n Hn) as [H1 _]. by destruct (dec_signed n). }
  unfold safe_value, str_eqb. rewrite Hb.
  rewrite !bool_decide_eq_false_2; [by destruct (dec_signed n)| |]; intros E; by rewrite E in Hd.
Qed.

(** ** The value grammar *)

(** An accepted value is stored in a normal form: it is a non-empty run of
    letters, digits, [.], [_] and [-] other than [.] and [..], and normalising
    it again gives it unchanged. *)
Lemma normalize_canonical r value n :
  normalize r value = Ok n -> safe_value n = true /\ normalize r n = Ok n.
Proof.
  unfold normalize. destruct (safe_value value) eqn:Hs; cbn [negb]; [|done]. destruct r as [|lo hi|l].
  - destruct (slug value 100) eqn:E; [|done]. intros; simplify_eq. by rewrite Hs, E.
  - destruct (decimal value) as [number|] eqn:E; [|done]. cbn [mbind result_bind].
    destruct (_ || _) eqn:B; [done|]. intros; simplify_eq.
    pose proof (decimal_range _ _ E) as Hr. rewrite dec_signed_safe by done.
    split; [done|]. cbn [negb]. rewrite decimal_dec_signed by done. cbn. by rewrite B.
  - destruct (existsb _ l) eqn:E; [|done]. intros; simplify_eq. by rewrite Hs, E.
Qed.

Definition rule_in_i64 (r : ValueRule) : Prop :=
  match r with Int lo hi => in_i64 lo /\ in_i64 hi | _ => True end.

Lemma dec_signed_no_dot n : in_i64 n -> str_contains "." (dec_signed n) = false.
Proof.
  unfold in_i64, i64_min, i64_max, dec_signed. intros Hn. destruct (n <? 0) eqn:E; reflect_bools.
  - destruct (dec_spec (- n) ltac:(lia)) as (_ & H & _).
    apply (digits_no_char ".") in H; [|done]. exact H.
  - destruct (dec_spec n ltac:(lia)) as (_ & H & _). by apply digits_no_char.
Qed.

Lemma ValueRule_parse_valid raw r :
  ValueRule_parse raw = Ok r -> value_rule_validate r = Ok tt /\ rule_in_i64 r.
Proof.
  unfold ValueRule_parse. intros H.
  match type of H with mbind _ ?x = _ => destruct x as [rule|] eqn:E end; [|done].
  cbn [mbind result_bind] in H. destruct (value_rule_validate rule) as [[]|] eqn:V; [|done].
  cbn in H. simplify_eq. split; [done|]. destruct r as [|lo hi|l]; [done| |done].
  destruct (str_eqb raw "slug"); [done|].
  destruct (strip_prefix_str "int:" raw) as [range|].
  - destruct (split_once_str ".." range) as [[a b]|]; [|done]. cbn [ok_or mbind result_bind] in E.
    destruct (decimal a) eqn:Ea; [|done]. cbn [mbind result_bind] in E.
    destruct (decimal b) eqn:Eb; [|done]. cbn in E. simplify_eq.
    split; by eapply decimal_range.
  - by destruct (strip_prefix_str _ _).
Qed.

(** A rule is written and read back. The rules that are valid are
    exactly those whose text parses to them, so a template that was installed
    keeps its bounds and choices when it is loaded again. *)
Theorem value_rule_roundtrip r :
  rule_in_i64 r ->
  value_rule_validate r = Ok tt <-> ValueRule_parse (value_rule_print r) = Ok r.
Proof.
  intros Hr. split; [|intros H; by apply ValueRule_parse_valid in H as [? _]].
  intros Hv. unfold ValueRule_parse. destruct r as [|lo hi|l]; [done| |].
  - cbn [value_rule_print]. rewrite strip_prefix_str_app. destruct Hr as [Hlo Hhi].
    rewrite split_once_str_app by (by apply dec_signed_no_dot). cbn [ok_or mbind result_bind].
    rewrite !decimal_dec_signed by done. cbn [mbind result_bind].
    change (str_eqb ("int:" +:+ (dec_signed lo +:+ (".." +:+ dec_signed hi))) "slug") with false.
    cbn [mbind result_bind]. by rewrite Hv.
  - cbn [value_rule_print]. replace (strip_prefix_str "int:" _) with (@None string) by done.
    rewrite strip_prefix_str_app. change (str_eqb ("enum:" +:+ join "," l) "slug") with false.
    cbn [value_rule_validate] in Hv. destruct (_ || negb (all_distinct l)) eqn:B; [done|].
    reflect_bools. cbn [mbind result_bind].
    assert (Hs : split_on "," (join "," l) = l).
    { apply split_on_join; [done|]. rewrite Forall_forall. intros s Hs.
      match goal with E : existsb _ _ = false |- _ => rewrite existsb_false_elem in E; specialize (E s Hs) end.
      reflect_bools. by apply safe_value_no. }
    rewrite Hs. cbn [value_rule_validate].
    match goal with E : existsb _ _ = false |- _ => rewrite E end.
    rewrite bool_decide_eq_false_2 by done.
    match goal with E : all_distinct _ = true |- _ => rewrite E end. done.
Qed.

Lemma value_rule_roundtrip_witness :
  value_rule_print (Int (-5) 9223372036854775807) = "int:-5..9223372036854775807" /\
  (value_rule_validate (Int (-5) 9223372036854775807) = Ok tt <->
   ValueRule_parse (value_rule_print (Int (-5) 9223372036854775807)) =
   Ok (Int (-5) 9223372036854775807)).
Proof.
  split; [reflexivity|]. apply value_rule_roundtrip.
  unfold rule_in_i64, in_i64, i64_min, i64_max. lia.
Defined.

(** ** Segments *)

Lemma mapM_Ok {E A B} (f : A -> result E B) l k :
  mapM f l = Ok k <-> Forall2 (fun x y => f x = Ok y) l k.
Proof.
  revert k. induction l as [|x l IH]; intros k; cbn.
  - split; [intros H; inversion H; constructor|]. by inversion 1.
  - split.
    + intros H. destruct (f x) as [y|] eqn:Ex; [|done]. cbn in H.
      destruct (mapM f l) as [k'|] eqn:El; [|done]. inversion H; subst.
      constructor; [done|]. by apply IH.
    + inversion 1 as [|? y ? k' Hx Hl]; subst. rewrite Hx. cbn. apply IH in Hl. by rewrite Hl.
Qed.

Lemma safe_not_placeholder v : safe_value v = true -> placeholder v = None.
Proof.
  intros H%safe_value_bytes. unfold placeholder. destruct v as [|c v]; [done|]. cbn in *.
  reflect_bools. case_bool_decide; [|done]. subst. by vm_compute in H.
Qed.

Lemma scan_segments_Ok declared segs used sk :
  scan_segments declared segs = Ok (used, sk) ->
  (forall seg name, seg ∈ segs -> placeholder seg = Some name -> declared name = true) /\
  (forall name, name ∈ used <-> exists seg, seg ∈ segs /\ placeholder seg = Some name).
Proof.
  revert used sk. induction segs as [|s segs IH]; intros used sk; cbn.
  - intros; simplify_eq. split; [by intros ?? ?%elem_of_nil|]. intros name. split.
    + by intros ?%elem_of_nil.
    + by intros (? & ?%elem_of_nil & _).
  - intros H. destruct (placeholder s) as [n|] eqn:Ep.
    + destruct (declared n) eqn:Ed; [|done]. cbn in H.
      destruct (scan_segments _ segs) as [[u k]|]; [|done]. cbn in H. simplify_eq.
      destruct (IH _ _ eq_refl) as [I1 I2]. split.
      * intros seg name [->|Hs]%elem_of_cons Hn; [congruence|eauto].
      * intros name. rewrite elem_of_cons, I2. setoid_rewrite elem_of_cons. naive_solver.
    + destruct (_ || _) in H; [done|].
      destruct (scan_segments _ segs) as [[u k]|]; [|done]. cbn in H. simplify_eq.
      destruct (IH _ _ eq_refl) as [I1 I2]. split.
      * intros seg name [->|Hs]%elem_of_cons Hn; [congruence|eauto].
      * intros name. rewrite I2. setoid_rewrite elem_of_cons. naive_solver.
Qed.

(** What an accepted target promises. *)
Record target_ok (path : string) (params query : list (string * ValueRule))
    (is_binding : string -> bool) : Prop := {
  to_names : forall name rule, (name, rule) ∈ params ++ query ->
             slug name 100 = true /\ value_rule_validate rule = Ok tt;
  to_declared : forall seg name, seg ∈ split_on "/" path -> placeholder seg = Some name ->
                name ∈ keys params \/ is_binding name = true;
  to_used : forall name, name ∈ keys params -> exists seg, seg ∈ split_on "/" path /\
            placeholder seg = Some name;
}.

Lemma validate_target_ok path params query is_binding :
  validate_target path params query is_binding = Ok tt -> target_ok path params query is_binding.
Proof.
  unfold validate_target. intros H. destruct (validate_names _) as [[]|] eqn:En; [|done].
  cbn [mbind result_bind] in H. destruct (scan_segments _ _) as [[used sk]|] eqn:Es; [|done].
  cbn [mbind result_bind] in H. destruct (existsb _ (keys params)) eqn:Eu; [done|].
  apply scan_segments_Ok in Es as [S1 S2]. unfold validate_names in En. rewrite try_each_Ok in En.
  split.
  - intros name rule Hin. apply En in Hin. destruct (slug name 100); [|done]. by split.
  - intros seg name Hs Hp. specialize (S1 _ _ Hs Hp). apply orb_true_iff in S1 as [S1|S1]; [|auto].
    left. by apply contains_key_spec.
  - intros name Hn. apply S2. rewrite existsb_false_elem in Eu. specialize (Eu _ Hn).
    by reflect_bools.
Qed.

(** ** Rendering a target *)

(** What became of one segment: literals are kept, a placeholder is the value of
    its parameter, one safe segment. *)
Definition rendered_segment (params : list (string * string)) (seg out : string) : Prop :=
  match placeholder seg with
  | None => out = seg
  | Some name => map_get name params = Some out /\ safe_value out = true
  end.

(** Every supplied value was declared and is stored normalised. *)
Definition normalized_by (rules : list (string * ValueRule)) (given stored : string * string)
  : Prop :=
  stored.1 = given.1 /\
  exists rule, map_get given.1 rules = Some rule /\ normalize rule given.2 = Ok stored.2.

Lemma normalize_values_Ok values rules res :
  normalize_values values rules = Ok res <-> Forall2 (normalized_by rules) values res.
Proof.
  unfold normalize_values. rewrite mapM_Ok.
  split; intros H; (eapply Forall2_impl; [exact H|]); intros [k v] [k' n];
    unfold normalized_by; cbn.
  - destruct (map_get k rules) as [r|]; [|done]. cbn.
    destruct (normalize r v) eqn:E; [|done]. cbn. intros; simplify_eq. eauto.
  - intros [-> (r & -> & Hn)]. cbn. by rewrite Hn.
Qed.

Lemma normalized_keys rules values res :
  Forall2 (normalized_by rules) values res -> keys res = keys values.
Proof.
  induction 1 as [|[k v] [k' n] values res [H _] _ IH]; [done|].
  unfold keys in *. cbn in *. congruence.
Qed.

Lemma normalized_declared rules values res k :
  Forall2 (normalized_by rules) values res -> k ∈ keys values -> k ∈ keys rules.
Proof.
  induction 1 as [|[k' v] s values res [_ (r & Hr & _)] _ IH]; unfold keys in *; cbn in *;
    [by intros ?%elem_of_nil|].
  intros [->|H]%elem_of_cons; [|auto].
  apply map_get_Some in Hr. by apply (list_elem_of_fmap_2 fst) in Hr.
Qed.

Lemma normalized_safe rules values res k v :
  Forall2 (normalized_by rules) values res -> (k, v) ∈ res -> safe_value v = true.
Proof.
  induction 1 as [|? [k' n] values res [_ (r & _ & Hn)] _ IH]; [by intros ?%elem_of_nil|].
  intros [?|?]%elem_of_cons; [|auto]. simplify_eq. by apply normalize_canonical in Hn as [? _].
Qed.

(** As many distinct supplied keys as declared ones means all of them. *)
Lemma all_supplied {A B} (given : list (string * A)) (declared : list (string * B)) k :
  NoDup (keys given) -> llen given = llen declared ->
  (forall k, k ∈ keys given -> k ∈ keys declared) -> k ∈ keys declared -> k ∈ keys given.
Proof.
  intros Hn Hl Hs. rewrite !list_elem_of_In. revert k. apply NoDup_length_incl.
  - by apply NoDup_ListNoDup.
  - unfold keys, llen in *. rewrite !length_map. lia.
  - intros k. rewrite <- !list_elem_of_In. auto.
Qed.

Lemma substitute_all params segs :
  (forall seg name, seg ∈ segs -> placeholder seg = Some name -> name ∈ keys params) ->
  exists out, mapM (substitute params) segs = Some out.
Proof.
  intros H. apply mapM_is_Some_2. rewrite Forall_forall. intros seg Hs.
  unfold substitute, compose. destruct (placeholder seg) as [name|] eqn:E; [|done].
  destruct (map_get name params) as [v|] eqn:Em; [done|]. apply map_get_None in Em.
  destruct Em. eauto.
Qed.

Lemma ExactPath_same raw p : ExactPath_parse raw = Ok p -> p = raw.
Proof. intros H. by apply exact_path_iff in H as [? _]. Qed.

(** Rendering is total and exact. On a validated target it never panics,
    whatever the agent supplies; a rendered path consists of the declared
    segments one for one, with every placeholder replaced by the normalised
    value of its own parameter, every value supplied was declared, and the
    path is acceptable as an exact path. *)
Theorem render_exact t params query :
  TemplateTarget_new (target_path t) (target_params t) (target_query t) = Ok t ->
  NoDup (keys params) ->
  exists res, target_render t params query = Some res /\ forall rt, res = Ok rt ->
    Forall2 (rendered_segment (rendered_params rt))
      (split_on "/" (target_path t)) (split_on "/" (rendered_path rt)) /\
    Forall2 (normalized_by (target_params t)) params (rendered_params rt) /\
    Forall2 (normalized_by (target_query t)) query (rendered_query rt) /\
    ExactPath_parse (rendered_path rt) = Ok (rendered_path rt).
Proof.
  intros Ht Hnd. unfold TemplateTarget_new in Ht.
  destruct (validate_target _ _ _ _) as [[]|] eqn:V; [|done]. apply validate_target_ok in V.
  unfold target_render. destruct (negb _) eqn:El; [eexists; split; [done|by intros]|].
  destruct (normalize_values params _) as [ps|] eqn:Ep; [|eexists; split; [done|by intros]].
  destruct (normalize_values query _) as [qs|] eqn:Eq; [|eexists; split; [done|by intros]].
  apply normalize_values_Ok in Ep, Eq. reflect_bools.
  assert (Hk : forall k, k ∈ keys (target_params t) -> k ∈ keys ps).
  { intros k Hk. rewrite (normalized_keys _ _ _ Ep). eapply all_supplied; try done.
    intros k' Hk'. by eapply normalized_declared. }
  destruct (substitute_all ps (split_on "/" (target_path t))) as [out Hout].
  { intros seg name Hs Hn. destruct (to_declared _ _ _ _ V _ _ Hs Hn); [auto|done]. }
  rewrite Hout. apply mapM_Some in Hout.
  assert (Hseg : Forall2 (rendered_segment ps) (split_on "/" (target_path t)) out).
  { eapply Forall2_impl; [exact Hout|]. intros seg o. unfold substitute, rendered_segment.
    destruct (placeholder seg); [|by intros; simplify_eq]. intros Hm. split; [done|].
    apply map_get_Some in Hm. eapply normalized_safe; [exact Ep|exact Hm]. }
  assert (Hsp : split_on "/" (join "/" out) = out).
  { apply split_on_join.
    - intros ->. apply Forall2_nil_inv_r in Hseg. by apply split_on_nonempty in Hseg.
    - pose proof (split_on_pieces "/" (target_path t)) as Hp. clear -Hseg Hp.
      induction Hseg as [|seg o segs out Ho _ IH]; [done|]. apply Forall_cons in Hp as [Hp1 Hp2].
      constructor; [|auto]. unfold rendered_segment in Ho. destruct (placeholder seg); [|by subst].
      destruct Ho. by apply safe_value_no. }
  eexists. split; [done|]. intros rt Hrt. destruct (ExactPath_parse _) as [p|] eqn:Ex; [|done].
  pose proof (ExactPath_same _ _ Ex). cbn in Hrt. simplify_eq. cbn. by rewrite Hsp.
Qed.

Definition demo_target : TemplateTarget :=
  mkTemplateTarget "/repos/acme/pulls/{number}" [("number", Int 1 100)] [("page", Int 1 10)].

Lemma render_exact_witness :
  exists rt, target_render demo_target [("number", "007")] [("page", "2")] = Some (Ok rt) /\
  rendered_path rt = "/repos/acme/pulls/7" /\
  Forall2 (rendered_segment (rendered_params rt))
    (split_on "/" (target_path demo_target)) (split_on "/" (rendered_path rt)).
Proof.
  eexists. split; [vm_compute; reflexivity|]. split; [reflexivity|].
  destruct (render_exact demo_target [("number", "007")] [("page", "2")])
    as (res & Hres & H); [vm_compute; reflexivity|cbn; apply NoDup_singleton|].
  vm_compute in Hres. injection Hres as <-. by destruct (H _ eq_refl).
Defined.

(** ** Administrator bindings *)

(** What became of one segment of a template's path: an administrator binding
    always wins, everything else is as in [rendered_segment]. *)
Definition bound_segment (bindings params : list (string * string)) (seg out : string) : Prop :=
  match placeholder seg with
  | None => out = seg
  | Some name =>
      safe_value out = true /\
      match map_get name bindings with
      | Some v => out = v
      | None => map_get name params = Some out
      end
  end.

Lemma bind_template_safe d values b k v :
  bind_template d values = Ok b -> (k, v) ∈ bound_bindings b -> safe_value v = true.
Proof.
  unfold bind_template. destruct (negb _); [done|].
  destruct (mapM _ values) as [l|] eqn:E; [|done]. cbn. intros; simplify_eq. cbn in *.
  apply mapM_Ok in E. match goal with H : _ ∈ l |- _ => revert H end.
  induction E as [|[k' v'] y values l Hy _ IH]; [by intros ?%elem_of_nil|].
  intros [<-|?]%elem_of_cons; [|auto]. cbn in Hy. destruct (map_get k' _) as [r|]; [|done].
  cbn in Hy. destruct (normalize _ _) as [n|] eqn:En; [|done]. cbn in Hy.
  destruct (match binding_max r with Some _ => _ | None => _ end); [done|]. simplify_eq.
  by apply normalize_canonical in En as [? _].
Qed.

Lemma bind_template_d d values b : bind_template d values = Ok b -> bound_template b = d.
Proof.
  unfold bind_template. destruct (negb _); [done|]. destruct (mapM _ values); [|done].
  cbn. intros. by simplify_eq.
Qed.

(** The pieces of a bound path are the bound segments. *)
Lemma split_bound bindings path :
  (forall k v, (k, v) ∈ bindings -> safe_value v = true) ->
  split_on "/" (join "/" (map (bind_segment bindings) (split_on "/" path))) =
  map (bind_segment bindings) (split_on "/" path).
Proof.
  intros Hs. apply split_on_join.
  - pose proof (split_on_nonempty "/" path). by destruct (split_on "/" path).
  - rewrite Forall_fmap. eapply Forall_impl; [apply split_on_pieces|]. intros seg Hseg.
    unfold compose, bind_segment. destruct (placeholder seg) as [name|]; [|done].
    destruct (map_get name bindings) as [v|] eqn:E; [|done].
    apply map_get_Some, Hs in E. by apply safe_value_no.
Qed.

Lemma bound_segments bindings params segs out :
  (forall k v, (k, v) ∈ bindings -> safe_value v = true) ->
  Forall2 (rendered_segment params) (map (bind_segment bindings) segs) out ->
  Forall2 (bound_segment bindings params) segs out.
Proof.
  intros Hs. revert out. induction segs as [|seg segs IH]; intros out; cbn;
    [by intros ->%Forall2_nil_inv_l|].
  intros (o & out' & Ho & Ht & ->)%Forall2_cons_inv_l. constructor; [|auto]. clear IH Ht.
  unfold bind_segment in Ho. unfold bound_segment.
  destruct (placeholder seg) as [name|] eqn:E; [|by unfold rendered_segment in Ho; rewrite E in Ho].
  destruct (map_get name bindings) as [v|] eqn:Em.
  - apply map_get_Some, Hs in Em. unfold rendered_segment in Ho.
    rewrite (safe_not_placeholder v) in Ho by done. by subst.
  - unfold rendered_segment in Ho. rewrite E in Ho. naive_solver.
Qed.

Lemma materialize_Ok b cap idx m :
  materialize b cap idx = Ok m ->
  exists c a, c ∈ td_capabilities (bound_template b) /\ cap_id c = cap /\
    cap_actions c !! Z.to_nat idx = Some a /\
    TemplateTarget_new (target_path (ma_target m)) (ta_params a) (ta_query a) = Ok (ma_target m) /\
    m = mkMaterializedAction (td_template (bound_template b)) cap idx
          (td_origin (bound_template b)) (ta_method a)
          (mkTemplateTarget
             (join "/" (map (bind_segment (bound_bindings b)) (split_on "/" (ta_path a))))
             (ta_params a) (ta_query a))
          (td_fixed_headers (bound_template b)) (td_credential (bound_template b))
          (default_policy c) (ta_body_schema a).
Proof.
  unfold materialize. destruct (find_first _ _) as [c|] eqn:Ec; [|done]. cbn [ok_or mbind result_bind].
  apply find_first_Some in Ec as [Hc Hid]. unfold str_eqb in Hid. reflect_bools.
  destruct (cap_actions c !! _) as [a|] eqn:Ea; [|done]. cbn [ok_or mbind result_bind].
  destruct (TemplateTarget_new _ _ _) as [t|] eqn:Et; [|done]. cbn. intros; simplify_eq. cbn.
  assert (t = mkTemplateTarget
    (join "/" (map (bind_segment (bound_bindings b)) (split_on "/" (ta_path a))))
    (ta_params a) (ta_query a)) as ->.
  { unfold TemplateTarget_new in Et. destruct (validate_target _ _ _ _); [|done]. cbn in Et. by simplify_eq. }
  exists c, a. by split_and!.
Qed.

(** C34: An agent's call only fills the placeholders an administrator left open. For
    a bound template every call either fails or renders to a request whose
    origin, method, fixed headers, credential and default policy are the
    template's and whose path is the declared one segment for segment, with the
    administrator's bindings in place whatever the agent sends, and it never
    panics. *)
Theorem bound_render_exact d values b cap idx params query :
  bind_template d values = Ok b -> NoDup (keys params) ->
  exists res, bound_render b cap idx params query = Some res /\ forall r, res = Ok r ->
  exists c a, c ∈ td_capabilities d /\ cap_id c = cap /\ cap_actions c !! Z.to_nat idx = Some a /\
    rr_origin r = td_origin d /\ rr_method r = ta_method a /\
    rr_fixed_headers r = td_fixed_headers d /\ rr_credential r = td_credential d /\
    rr_default_policy r = default_policy c /\
    ExactPath_parse (rr_path r) = Ok (rr_path r) /\
    Forall2 (bound_segment (bound_bindings b) (rr_params r))
      (split_on "/" (ta_path a)) (split_on "/" (rr_path r)).
Proof.
  intros Hb Hnd. unfold bound_render.
  destruct (materialize b cap idx) as [m|e] eqn:Em; [|eexists; split; [done|by intros]].
  apply materialize_Ok in Em as (c & a & Hc & Hid & Ha & Ht & Hm).
  rewrite (bind_template_d _ _ _ Hb) in *.
  assert (Hsafe : forall k v, (k, v) ∈ bound_bindings b -> safe_value v = true)
    by (intros k v; by apply (bind_template_safe d values)).
  unfold materialized_render.
  destruct (render_exact (ma_target m) params query) as (res & Hres & Hex); [by subst m|done|].
  rewrite Hres. eexists. split; [done|]. intros r Hr.
  destruct res as [rt|]; [|done]. cbn in Hr. simplify_eq. cbn.
  destruct (Hex rt eq_refl) as (H1 & _ & _ & H4). exists c, a. split_and!; try done.
  apply bound_segments; [done|]. cbn in H1. by rewrite split_bound in H1.
Qed.

Definition github_values : list (string * string) := [("owner", "acme"); ("repo", "app.js")].
Definition github_bound : BoundTemplate := mkBoundTemplate github_pat github_values.

Lemma bound_render_exact_witness :
  bind_template github_pat github_values = Ok github_bound /\
  exists r, bound_render github_bound "merge-pr" 0 [("number", "17")] [] = Some (Ok r) /\
  rr_path r = "/repos/acme/app.js/pulls/17/merge" /\
  default_rule_of (rr_default_policy r) = DefaultRequireApproval /\
  exists c a, c ∈ td_capabilities github_pat /\ cap_id c = "merge-pr" /\
    cap_actions c !! Z.to_nat 0 = Some a /\ rr_method r = ta_method a /\
    rr_origin r = td_origin github_pat.
Proof.
  assert (Hb : bind_template github_pat github_values = Ok github_bound) by (vm_compute; reflexivity).
  split; [exact Hb|]. eexists. split; [vm_compute; reflexivity|].
  split; [reflexivity|]. split; [reflexivity|].
  destruct (bound_render_exact github_pat github_values github_bound "merge-pr" 0
    [("number", "17")] [] Hb) as (res & Hres & H); [cbn; apply NoDup_singleton|].
  vm_compute in Hres. injection Hres as <-.
  destruct (H _ eq_refl) as (c & a & H1 & H2 & H3 & H4 & H5 & _). exists c, a. by split_and!.
Defined.

(** ** Installed templates *)

(** A materialised action is revalidated when it is loaded: materialising a
    binding of an accepted template gives an action that passes that check, so
    a stored action is never refused on reload, and a high-risk capability
    without an explicit rule asks for approval. *)
Theorem materialized_reloads d values b cap idx m :
  ProviderTemplate_try_from d = Ok d -> bind_template d values = Ok b ->
  materialize b cap idx = Ok m ->
  MaterializedAction_try_from m = Ok m /\
  TemplateTarget_new (target_path (ma_target m)) (target_params (ma_target m))
    (target_query (ma_target m)) = Ok (ma_target m) /\
  exists c, c ∈ td_capabilities d /\ cap_id c = cap /\
    (cap_risk c = High -> cap_default_rule c = None ->
     default_rule_of (ma_default_policy m) = DefaultRequireApproval /\
     default_approver (ma_default_policy m) = Some TemplateLocalPresence).
Proof.
  intros Hd Hb Hm. apply materialize_Ok in Hm as (c & a & Hc & Hid & Ha & Ht & ->).
  rewrite (bind_template_d _ _ _ Hb) in *. cbn in *.
  unfold ProviderTemplate_try_from in Hd.
  destruct (validate_template_id _) as [[]|] eqn:E1; [|done]. cbn [mbind result_bind] in Hd.
  destruct (bool_decide (td_capabilities d = [])); [done|].
  destruct (validate_headers _ _) as [[]|] eqn:E2; [|done]. cbn [mbind result_bind] in Hd.
  destruct (try_each _ _) as [[]|]; [|done]. cbn [mbind result_bind] in Hd.
  destruct (validate_capabilities _ _ _) as [[]|] eqn:E3; [|done].
  assert (Hslug : slug cap 100 = true).
  { subst cap. revert Hc E3. generalize (@nil string). induction (td_capabilities d) as [|x l IH];
      [by intros ? ?%elem_of_nil|]. intros ids Hin. cbn.
    destruct (slug (cap_id x) 100) eqn:Es; [|done]. cbn [negb orb].
    destruct (bool_decide (cap_id x ∈ ids) || bool_decide (cap_actions x = [])); [done|].
    destruct (try_each _ _) as [[]|]; [|done]. cbn [mbind result_bind].
    apply elem_of_cons in Hin as [->|Hin]; [done|]. by apply IH. }
  split_and!; [|done|exists c; split_and!; try done].
  - unfold MaterializedAction_try_from. cbn. rewrite E1, E2, Hslug. cbn.
    by rewrite bool_decide_eq_true_2.
  - intros Hr Hn. unfold default_policy. by rewrite Hr, Hn.
Qed.

Lemma materialized_reloads_witness :
  exists m, materialize github_bound "create-issue" 0 = Ok m /\
    MaterializedAction_try_from m = Ok m.
Proof.
  eexists. split; [vm_compute; reflexivity|].
  eapply (materialized_reloads github_pat github_values github_bound "create-issue" 0);
    vm_compute; reflexivity.
Defined.

(** Every built-in template is accepted by the validation it goes through, and
    a custom bearer template exactly when it has one to twenty actions whose
    paths are plain literals. *)
Theorem builtin_templates_valid :
  Forall (fun d => ProviderTemplate_try_from d = Ok d)
    [anthropic; glm; glm_responses; openai; github_pat].
Proof. repeat constructor; vm_compute; reflexivity. Qed.

(** A path without placeholders, wildcards or escapes. *)
Definition literal_path (p : string) : bool :=
  str_all is_ascii_byte p && negb (str_contains "{" p) && negb (str_contains "}" p)
  && negb (str_contains "*" p) && negb (str_contains "%" p).

Lemma str_all_join q sep l :
  q sep = true -> str_all q (join sep l) = forallb (str_all q) l.
Proof.
  intros Hs. unfold join. induction l as [|s l IH]; [done|]. cbn. destruct l as [|s' l].
  - cbn. by rewrite andb_true_r.
  - rewrite !str_all_app, IH. cbn. by rewrite Hs.
Qed.

Lemma literal_path_segments p :
  literal_path p = forallb literal_path (split_on "/" p).
Proof.
  set (q := fun c => is_ascii_byte c && negb (bool_decide (c = "{"%char)) &&
    negb (bool_decide (c = "}"%char)) && negb (bool_decide (c = "*"%char)) &&
    negb (bool_decide (c = "%"%char))).
  assert (Hq : forall s, literal_path s = str_all q s).
  { intros s. unfold literal_path, str_contains, str_any. rewrite !negb_involutive.
    induction s as [|c s IH]; [done|]. cbn. rewrite <- IH. unfold q.
    repeat match goal with |- context [bool_decide ?P] => destruct (bool_decide P) end;
      destruct (is_ascii_byte c); cbn; rewrite ?andb_false_r; done. }
  rewrite Hq. rewrite <- (join_split_on "/" p) at 1. rewrite str_all_join by done.
  induction (split_on "/" p) as [|s l IH]; [done|]. cbn. by rewrite IH, Hq.
Qed.

Lemma placeholder_brace s name : placeholder s = Some name -> str_contains "{" s = true.
Proof.
  unfold placeholder. destruct s as [|c s]; [done|]. cbn. case_bool_decide; [|done]. subst.
  unfold str_contains, str_any. cbn. done.
Qed.

Lemma scan_literal segs :
  is_ok (scan_segments (fun _ => false) segs) = forallb literal_path segs /\
  (forallb literal_path segs = true ->
   scan_segments (fun _ => false) segs = Ok ([], segs)).
Proof.
  induction segs as [|s segs [IH1 IH2]]; [done|]. cbn.
  destruct (placeholder s) as [name|] eqn:E.
  - apply placeholder_brace in E. unfold literal_path at 1 3. rewrite E. cbn.
    by rewrite andb_false_r.
  - unfold literal_path at 1 3.
    destruct (str_all is_ascii_byte s), (str_contains "{" s), (str_contains "}" s),
      (str_contains "*" s), (str_contains "%" s); cbn; try done.
    rewrite <- IH1. destruct (scan_segments _ segs) as [[u k]|]; cbn in *; [|done].
    split; [done|]. intros _. specialize (IH2 ltac:(congruence)). by simplify_eq.
Qed.

Lemma literal_target p :
  ExactPath_parse p = Ok p ->
  is_ok (validate_target p [] [] (fun _ => false)) = literal_path p.
Proof.
  intros Hp. unfold validate_target. cbn [app validate_names try_each keys map mbind result_bind].
  rewrite literal_path_segments. destruct (scan_literal (split_on "/" p)) as [H1 H2].
  change (fun name => contains_key name [] || false) with (fun _ : string => false).
  destruct (forallb _ _).
  - rewrite H2 by done. cbn. by rewrite join_split_on, Hp.
  - destruct (scan_segments _ _); [done|]. done.
Qed.

Lemma literal_actions_valid (l : list (FixedMethod * string)) :
  Forall (fun a => ExactPath_parse a.2 = Ok a.2) l ->
  is_ok (try_each (validate_action []) (map (fun '(method, path) =>
    mkTemplateAction method path [] [] None) l)) = forallb (fun a => literal_path a.2) l.
Proof.
  induction 1 as [|[m p] l Hp _ IH]; [done|]. cbn in Hp. cbn [map try_each forallb snd].
  rewrite <- (literal_target p Hp), <- IH. unfold validate_action at 1.
  cbn [ta_params ta_path ta_query keys map existsb].
  change (fun name => contains_key name []) with (fun _ : string => false).
  by destruct (validate_target p [] [] _).
Qed.

Lemma literal_no_parameters (l : list (FixedMethod * string)) :
  forallb (fun a => literal_path a.2) l = true ->
  existsb has_parameters (map (fun '(method, path) =>
    mkTemplateAction method path [] [] None) l) = false.
Proof.
  induction l as [|[m p] l IH]; [done|]. cbn. intros H. reflect_bools. rewrite IH by done.
  unfold literal_path in *. reflect_bools. unfold has_parameters. cbn.
  repeat match goal with E : str_contains _ p = false |- _ => rewrite E; clear E end. done.
Qed.

(** The custom bearer template is accepted exactly for one to
    twenty fixed actions whose paths are literal: ASCII, and without placeholder
    braces, wildcards or percent escapes. *)
Theorem generic_bearer_exactly origin actions :
  Forall (fun a => ExactPath_parse a.2 = Ok a.2) actions ->
  is_ok (generic_bearer origin actions) = true <->
  1 <= llen actions <= 20 /\ Forall (fun a => literal_path a.2 = true) actions.
Proof.
  intros Hp. unfold generic_bearer.
  replace (ActionName_new "Generic Bearer") with (@Ok DomainError _ "Generic Bearer")
    by (vm_compute; reflexivity).
  replace (HeaderName_new "authorization") with (@Ok DomainError _ "authorization")
    by (vm_compute; reflexivity).
  replace (HeaderPrefix_new "Bearer ") with (@Ok DomainError _ "Bearer ")
    by (vm_compute; reflexivity).
  cbn [mbind result_bind]. unfold ProviderTemplate_try_from. cbn [td_template td_capabilities
    td_credential td_fixed_headers td_bindings].
  replace (validate_template_id "generic-bearer@1") with (@Ok DomainError _ tt)
    by (vm_compute; reflexivity).
  match goal with |- context [validate_headers ?a ?b] =>
    replace (validate_headers a b) with (@Ok DomainError _ tt) by (vm_compute; reflexivity) end.
  cbn [mbind result_bind try_each validate_capabilities cap_id cap_actions].
  rewrite bool_decide_eq_false_2 by done.
  change (slug "fixed-actions" 100) with true.
  pose proof (literal_actions_valid actions Hp) as Hv. pose proof (literal_no_parameters actions) as Hn.
  unfold all_actions. cbn [td_capabilities map cap_actions List.concat]. rewrite app_nil_r.
  replace (Forall _ actions) with (Forall (fun a : FixedMethod * string => literal_path a.2 = true) actions) by done.
  rewrite (Forall_forall _ actions), <- (forallb_elem (fun a => literal_path a.2)).
  set (ta := map _ actions) in *.
  assert (Hl : llen ta = llen actions) by (unfold ta, llen; by rewrite length_map).
  destruct (forallb (fun a => literal_path a.2) actions).
  - destruct (try_each _ ta) as [[]|]; [|done]. rewrite (Hn eq_refl), Hl.
    destruct actions as [|x actions]; [cbn; unfold llen in *; cbn in *; split; [done|lia]|].
    rewrite (bool_decide_eq_false_2 (ta = [])) by done.
    assert (1 <= llen (x :: actions)) by (unfold llen; cbn; lia).
    cbn. destruct (Z.ltb_spec 20 (llen (x :: actions))); cbn; split; try done; lia.
  - destruct (try_each _ ta) as [[]|]; [done|]. destruct (bool_decide (ta = [])); cbn;
      split; try done; by intros [_ ?].
Qed.

Lemma generic_bearer_exactly_witness :
  is_ok (generic_bearer "https://api.example.com" [(Get, "/v1/items"); (Post, "/v1/items")]) = true.
Proof.
  apply generic_bearer_exactly.
  - repeat constructor; vm_compute; reflexivity.
  - split; [unfold llen; cbn; lia|]. repeat constructor; vm_compute; reflexivity.
Defined.

(** ** The request target *)

(** How a server reads a request target: the path before the first [?], then
    [key=value] pairs separated by [&], with percent escapes in the values. *)
Definition hex_value (c : ascii) : option Z :=
  if is_ascii_digit c then Some (byte_of c - 48)
  else if in_range 65 70 c then Some (byte_of c - 55) else None.

Fixpoint percent_decode (s : string) : option string :=
  match s with
  | EmptyString => Some EmptyString
  | String c rest =>
      if bool_decide (c = "%"%char) then
        match rest with
        | String h (String l rest') =>
            match hex_value h, hex_value l with
            | Some h, Some l => String (byte_char (h * 16 + l)) <$> percent_decode rest'
            | _, _ => None
            end
        | _ => None
        end
      else String c <$> percent_decode rest
  end.

Definition decode_pair (pair : string) : option (string * string) :=
  match split_once "=" pair with
  | Some (key, value) => (fun v => (key, v)) <$> percent_decode value
  | None => None
  end.
Definition decode_target (target : string) : option (string * list (string * string)) :=
  match split_once "?" target with
  | None => Some (target, [])
  | Some (path, query) => (fun q => (path, q)) <$> mapM decode_pair (split_on "&" query)
  end.

Definition escape_reads_back (b : ascii) : bool :=
  match hex_value (hex_digit (Z.shiftr (byte_of b) 4)),
        hex_value (hex_digit (Z.land (byte_of b) 15)) with
  | Some h, Some l => bool_decide (byte_char (h * 16 + l) = b)
  | _, _ => false
  end.
Lemma escapes_read_back b : escape_reads_back b = true.
Proof. by apply (all_bytes escape_reads_back); vm_compute. Qed.

Lemma percent_decode_encode v : percent_decode (encode_query_value v) = Some v.
Proof.
  induction v as [|b v IH]; [done|]. cbn [encode_query_value].
  destruct (is_unreserved b) eqn:E.
  - cbn [percent_decode]. rewrite bool_decide_eq_false_2, IH; [done|]. by intros ->.
  - cbn [percent_decode]. rewrite bool_decide_eq_true_2 by done.
    pose proof (escapes_read_back b) as H. unfold escape_reads_back in H.
    destruct (hex_value _); [|done]. destruct (hex_value _); [|done]. reflect_bools.
    by rewrite H, IH.
Qed.

(** The bytes an encoded value consists of. *)
Definition is_encoded_byte (c : ascii) : bool := is_unreserved c || bool_decide (c = "%"%char).
Definition escape_bytes_ok (b : ascii) : bool :=
  is_encoded_byte (hex_digit (Z.shiftr (byte_of b) 4))
  && is_encoded_byte (hex_digit (Z.land (byte_of b) 15)).
Lemma escapes_bytes b : escape_bytes_ok b = true.
Proof. by apply (all_bytes escape_bytes_ok); vm_compute. Qed.

Lemma encoded_bytes v : str_all is_encoded_byte (encode_query_value v) = true.
Proof.
  induction v as [|b v IH]; [done|]. cbn [encode_query_value].
  destruct (is_unreserved b) eqn:E; cbn [str_all]; rewrite IH.
  - unfold is_encoded_byte at 1. by rewrite E.
  - pose proof (escapes_bytes b) as H. unfold escape_bytes_ok in H. reflect_bools.
    repeat match goal with H : is_encoded_byte _ = true |- _ => rewrite H end. done.
Qed.

Lemma encoded_no c v : is_encoded_byte c = false -> str_contains c (encode_query_value v) = false.
Proof.
  intros Hc. unfold str_contains, str_any. apply negb_false_iff.
  eapply str_all_impl; [|apply encoded_bytes]. intros a Ha. apply negb_true_iff, bool_decide_eq_false.
  intros ->. congruence.
Qed.

Definition query_pair (kv : string * string) : string :=
  let '(key, value) := kv in key +:+ String "=" (encode_query_value value).

Lemma query_pair_no c kv :
  is_encoded_byte c = false -> c <> "="%char -> slug kv.1 100 = true ->
  str_contains c (query_pair kv) = false.
Proof.
  intros Hc Hne Hs. destruct kv as [k v]. cbn in *. rewrite str_contains_app.
  assert (Hk : is_slug_byte c = false).
  { destruct (is_slug_byte c) eqn:E; [|done]. exfalso.
    pose proof (all_bytes (fun c => implb (is_slug_byte c) (is_encoded_byte c))
      ltac:(vm_compute; reflexivity) c) as Q. cbv beta in Q. by rewrite E, Hc in Q. }
  rewrite (str_contains_slug c k) by (done || by eapply slug_safe). cbn [orb].
  pose proof (encoded_no c v Hc) as Hv. unfold str_contains, str_any in *. cbn [str_all].
  rewrite bool_decide_eq_false_2 by congruence. exact Hv.
Qed.

Lemma decode_query_pair kv : slug kv.1 100 = true -> decode_pair (query_pair kv) = Some kv.
Proof.
  intros Hs. destruct kv as [k v]. unfold decode_pair, query_pair.
  rewrite split_once_app by (by eapply str_contains_slug, slug_safe).
  by rewrite percent_decode_encode.
Qed.

Lemma split_once_absent c s : str_contains c s = false -> split_once c s = None.
Proof.
  unfold split_once, str_contains, str_any. rewrite negb_false_iff.
  induction s as [|x s IH]; [done|]. cbn. intros H. reflect_bools.
  rewrite bool_decide_eq_false_2 by congruence. by rewrite IH.
Qed.

Lemma join_no c sep l :
  c <> sep -> Forall (fun s => str_contains c s = false) l -> str_contains c (join sep l) = false.
Proof.
  intros Hc. unfold join. induction 1 as [|s l Hs _ IH]; [done|]. cbn. destruct l as [|s' l]; [done|].
  rewrite !str_contains_app, Hs, IH. unfold str_contains, str_any. cbn.
  by rewrite bool_decide_eq_false_2.
Qed.

(** No query value can escape its place. For every exact path and any query
    whose keys are declared names, whatever bytes the values hold, a server that
    splits the request target at the first [?], at [&] and at the first [=], and
    decodes percent escapes, recovers exactly the path and the pairs; the target
    has no fragment. So two different calls never produce the same target. *)
Theorem request_target_decodes path query :
  ExactPath_parse path = Ok path ->
  Forall (fun kv => slug kv.1 100 = true) query ->
  decode_target (request_target path query) = Some (path, query) /\
  str_contains "#" (request_target path query) = false.
Proof.
  intros Hp Hq. apply exact_path_iff in Hp as (_ & _ & _ & Hchars & _).
  rewrite !Forall_cons in Hchars. destruct Hchars as (Hmark & Hfrag & _).
  unfold request_target, decode_target. case_bool_decide as He.
  { subst. by rewrite split_once_absent. }
  change (map _ query) with (map query_pair query). rewrite split_once_app by done.
  assert (Hall : forall c, is_encoded_byte c = false -> c <> "="%char ->
    Forall (fun s => str_contains c s = false) (map query_pair query)).
  { intros c Hc Hne. rewrite Forall_fmap. eapply Forall_impl; [exact Hq|]. intros kv Hkv.
    by apply query_pair_no. }
  split.
  - rewrite split_on_join; [|by destruct query|by apply Hall].
    assert (mapM decode_pair (map query_pair query) = Some query) as ->; [|done].
    apply mapM_Some. clear -Hq. induction Hq; constructor; [by apply decode_query_pair|done].
  - rewrite str_contains_app, Hfrag. cbn [orb].
    pose proof (join_no "#" "&" (map query_pair query) ltac:(done) (Hall "#"%char eq_refl ltac:(done))) as J.
    unfold str_contains, str_any in *. cbn [str_all]. by rewrite bool_decide_eq_false_2.
Qed.

Lemma request_target_decodes_witness :
  request_target "/v1/items" [("q", "a&b=c#d e"); ("z", "1")] = "/v1/items?q=a%26b%3Dc%23d%20e&z=1" /\
  decode_target (request_target "/v1/items" [("q", "a&b=c#d e"); ("z", "1")]) =
  Some ("/v1/items", [("q", "a&b=c#d e"); ("z", "1")]).
Proof.
  split; [vm_compute; reflexivity|].
  apply (request_target_decodes "/v1/items" [("q", "a&b=c#d e"); ("z", "1")]).
  - vm_compute. reflexivity.
  - repeat constructor; vm_compute; reflexivity.
Defined.
