(* ===== verification/FixedAction.v ===== *)
(** * FixedAction: validation of a registered HTTP action

    [rekey-domain/src/action.rs], lines 412-680: the target, text stream and
    native plugin of a [FixedHttpAction] and [FixedHttpAction::validate], which
    runs on every action that is registered or loaded from the vault. A JSON
    value (serde_json) is a parameter: validation only asks whether a schema is
    an object or a boolean. *)

From S2P Require Import Prelude Strings Errors Domain Action Template.

Record AnthropicTextStream := mkAnthropicTextStream {
  stream_model : string;
  stream_max_tokens : Z;
}.

Record TemplateActionSource := mkTemplateActionSource {
  source_template : string;
  source_capability : string;
  source_action_index : Z;
  source_digest : Digest;
  source_signer_id : option Uuid;
}.

(** [serde_json::Value], as far as validation looks at it. *)
Class JsonSchema := {
  JsonValue : Type;
  is_object : JsonValue -> bool;
  is_boolean : JsonValue -> bool;
}.

Section WithJson.
Context {JS : JsonSchema}.

Inductive ActionTarget : Type :=
  | Fixed (path : string)
  | FromTemplate (target : TemplateTarget) (fixed_headers : list (string * string))
      (body_schema : option JsonValue) (source : TemplateActionSource)
      (default_policy : DefaultPolicy).

(** [ActionTarget::fixed_path]. *)
Definition fixed_path (t : ActionTarget) : option string :=
  match t with Fixed path => Some path | FromTemplate _ _ _ _ _ => None end.

Definition policy_consistent (p : DefaultPolicy) : bool :=
  match default_rule_of p, default_approver p with
  | DefaultAllow, None => true
  | DefaultRequireApproval, Some TemplateLocalPresence => true
  | _, _ => false
  end.

(** [ActionTarget::validate]. *)
Definition target_validate (t : ActionTarget) (auth : HeaderCredentialUse)
    (allowed_extra : list string) : result DomainError unit :=
  match t with
  | Fixed _ => Ok tt
  | FromTemplate _ headers schema source policy =>
      _ ← validate_template_id (source_template source);
      reject_if negb (slug (source_capability source) 100)
        with InvalidActionDefinition "invalid template capability source" ;;
      _ ← validate_headers
            (mkTemplateCredential OpaqueToken
               (mkTemplateInjection (header_name auth) (prefix auth))) headers;
      reject_if existsb (fun name => bool_decide (name ∈ allowed_extra)) (keys headers)
        with InvalidActionDefinition "fixed template headers cannot be caller supplied" ;;
      reject_if match schema with
                | Some schema => negb (is_object schema) && negb (is_boolean schema)
                | None => false
                end
        with InvalidActionDefinition "template body schema must be a resolved JSON Schema" ;;
      reject_if negb (policy_consistent policy)
        with InvalidActionDefinition "invalid template default policy" ;;
      Ok tt
  end.

Record FixedHttpAction := mkFixedHttpAction {
  native_plugin : option NativePlugin;
  text_stream : option AnthropicTextStream;
  fa_id : ActionId;
  fa_name : string;
  fa_version : Z;
  enabled : bool;
  fa_credential_id : CredentialId;
  origin : string;
  method : FixedMethod;
  target : ActionTarget;
  auth : HeaderCredentialUse;
  timeout_ms : Z;
  request_policy : RequestPolicy;
  response_policy : ResponsePolicy;
}.

(** The path patterns of the two issue mutations. *)
Definition issue_mutation (path : string) : bool :=
  match split_on "/" path with
  | ["" ; a; owner; repo; b] =>
      str_eqb a "repos" && str_eqb b "issues"
      && negb (is_empty_str owner) && negb (is_empty_str repo)
  | ["" ; a; owner; repo; b; number; c] =>
      str_eqb a "repos" && str_eqb b "issues" && str_eqb c "comments"
      && negb (is_empty_str owner) && negb (is_empty_str repo)
      && match parse_unsigned u64_max number with
         | Some value => (0 <? value) && str_eqb (dec value) number
         | None => false
         end
  | _ => false
  end.

Definition path_is (a : FixedHttpAction) (p : string) : bool :=
  bool_decide (fixed_path (target a) = Some p).

Definition github_plugin_mismatch (a : FixedHttpAction) (path : string) : bool :=
  bool_decide (is_Some (text_stream a))
  || negb (str_eqb (origin a) "https://api.github.com")
  || negb (bool_decide (method a = Post))
  || negb (issue_mutation path)
  || negb (str_eqb (header_name (auth a)) "authorization")
  || negb (str_eqb (prefix (auth a)) "Bearer ").

(** The fixed part of the two checks for the Anthropic messages endpoint. *)
Definition anthropic_endpoint_mismatch (a : FixedHttpAction) : bool :=
  negb (str_eqb (origin a) "https://api.anthropic.com")
  || negb (bool_decide (method a = Post))
  || negb (path_is a "/v1/messages")
  || negb (str_eqb (header_name (auth a)) "x-api-key")
  || negb (is_empty_str (prefix (auth a))).

Definition validate_plugin (a : FixedHttpAction) (plugin : NativePlugin)
  : result DomainError unit :=
  path ← ok_or (InvalidActionDefinition "native plugins require a fixed target")
           (fixed_path (target a));
  _ ← plugin_validate plugin;
  if str_eqb (plugin_protocol plugin) GITHUB_ISSUES_PROTOCOL then
    reject_if github_plugin_mismatch a path with InvalidActionDefinition
      "GitHub issue plugins require the fixed CreateIssue or CreateIssueComment action" ;;
    Ok tt
  else if str_eqb (plugin_protocol plugin) ANTHROPIC_MESSAGES_PROTOCOL then
    reject_if bool_decide (text_stream a = None) || anthropic_endpoint_mismatch a
      with InvalidActionDefinition
      "Anthropic message plugins require the fixed Anthropic text stream action" ;;
    Ok tt
  else invalid "invalid native plugin declaration".

Definition is_model_byte (b : ascii) : bool :=
  is_ascii_alphanumeric b || bool_decide (b = "-"%char) || bool_decide (b = "_"%char)
  || bool_decide (b = "."%char).

Definition stream_mismatch (a : FixedHttpAction) (stream : AnthropicTextStream) : bool :=
  anthropic_endpoint_mismatch a
  || negb (bool_decide (allowed_extra_headers (request_policy a) = []))
  || negb (bool_decide (allowed_headers (response_policy a) = []))
  || is_empty_str (stream_model stream)
  || (128 <? slen (stream_model stream))
  || negb (str_all is_model_byte (stream_model stream))
  || negb ((1 <=? stream_max_tokens stream) && (stream_max_tokens stream <=? 8192)).

(** [FixedHttpAction::validate]. *)
Definition action_validate (a : FixedHttpAction) : result DomainError unit :=
  _ ← target_validate (target a) (auth a) (allowed_extra_headers (request_policy a));
  _ ← (match native_plugin a with Some plugin => validate_plugin a plugin | None => Ok tt end);
  reject_if match text_stream a with Some stream => stream_mismatch a stream | None => false end
    with InvalidActionDefinition "invalid Anthropic text stream action" ;;
  reject_if fa_version a =? 0 with InvalidActionDefinition "action version must be >= 1" ;;
  reject_if (timeout_ms a =? 0) || (ACTION_TIMEOUT_HARD_MAX_MS <? timeout_ms a)
    with InvalidActionDefinition "timeout_ms must be 1..=120000" ;;
  reject_if is_forbidden (header_name (auth a))
    with InvalidActionDefinition "credential header slot is forbidden" ;;
  _ ← request_policy_validate (request_policy a) (header_name (auth a));
  _ ← response_policy_validate (response_policy a);
  reject_if bool_decide (header_name (auth a) ∈ allowed_headers (response_policy a))
    with InvalidActionDefinition "response header allowlist contains the credential header" ;;
  Ok tt.

(** ** What a validated action guarantees *)

Record action_safe (a : FixedHttpAction) : Prop := {
  as_version : fa_version a <> 0;
  as_timeout : timeout_ms a <> 0 /\ timeout_ms a <= 120000;
  as_slot : header_name (auth a) ∉ FORBIDDEN_HEADERS;
  as_request_size : req_max_body_bytes (request_policy a) <> 0 /\
                    req_max_body_bytes (request_policy a) <= 1048576;
  as_response_size : resp_max_body_bytes (response_policy a) <> 0 /\
                     resp_max_body_bytes (response_policy a) <= 4194304;
  as_caller_headers : forall h, h ∈ allowed_extra_headers (request_policy a) ->
    h <> header_name (auth a) /\ h <> "authorization" /\ h ∉ FORBIDDEN_HEADERS;
  as_returned_headers : forall h, h ∈ allowed_headers (response_policy a) ->
    h <> header_name (auth a) /\ h <> "authorization" /\ h <> "www-authenticate" /\
    h ∉ FORBIDDEN_HEADERS;
  as_fixed_headers : forall t hs s src p, target a = FromTemplate t hs s src p ->
    forall h v, (h, v) ∈ hs -> h <> header_name (auth a) /\ h <> "authorization" /\
      h ∉ FORBIDDEN_HEADERS /\ h ∉ allowed_extra_headers (request_policy a) /\
      str_all (in_range 32 126) v = true;
  as_plugin : forall p, native_plugin a = Some p -> exists path,
    target a = Fixed path /\ method a = Post /\
    ((plugin_protocol p = GITHUB_ISSUES_PROTOCOL /\ origin a = "https://api.github.com" /\
      issue_mutation path = true /\ text_stream a = None) \/
     (plugin_protocol p = ANTHROPIC_MESSAGES_PROTOCOL /\
      origin a = "https://api.anthropic.com" /\ path = "/v1/messages"));
  as_stream : forall s, text_stream a = Some s ->
    origin a = "https://api.anthropic.com" /\ target a = Fixed "/v1/messages" /\
    method a = Post /\ header_name (auth a) = "x-api-key" /\
    allowed_extra_headers (request_policy a) = [] /\ allowed_headers (response_policy a) = [] /\
    1 <= stream_max_tokens s <= 8192;
}.

Lemma fixed_path_Some t p : fixed_path t = Some p -> t = Fixed p.
Proof. destruct t; cbn; [by intros; simplify_eq|done]. Qed.

Lemma endpoint_ok a :
  anthropic_endpoint_mismatch a = false ->
  origin a = "https://api.anthropic.com" /\ target a = Fixed "/v1/messages" /\
  method a = Post /\ header_name (auth a) = "x-api-key".
Proof.
  unfold anthropic_endpoint_mismatch, path_is, str_eqb. intros H. reflect_bools.
  split_and!; try done. by apply fixed_path_Some.
Qed.

Lemma validate_plugin_ok a p :
  validate_plugin a p = Ok tt -> exists path,
    target a = Fixed path /\ method a = Post /\
    ((plugin_protocol p = GITHUB_ISSUES_PROTOCOL /\ origin a = "https://api.github.com" /\
      issue_mutation path = true /\ text_stream a = None) \/
     (plugin_protocol p = ANTHROPIC_MESSAGES_PROTOCOL /\
      origin a = "https://api.anthropic.com" /\ path = "/v1/messages")).
Proof.
  unfold validate_plugin. destruct (fixed_path (target a)) as [path|] eqn:Ep; [|done].
  apply fixed_path_Some in Ep. cbn [ok_or mbind result_bind].
  destruct (plugin_validate p) as [[]|]; [|done]. cbn [mbind result_bind].
  exists path. destruct (str_eqb (plugin_protocol p) GITHUB_ISSUES_PROTOCOL) eqn:Hg.
  - destruct (github_plugin_mismatch a path) eqn:E; [done|].
    unfold github_plugin_mismatch in E. unfold str_eqb in *. reflect_bools. split_and!; try done.
    left. split_and!; try done. destruct (text_stream a) eqn:Et; [|done].
    match goal with N : ~ is_Some _ |- _ => destruct N; eauto end.
  - destruct (str_eqb (plugin_protocol p) ANTHROPIC_MESSAGES_PROTOCOL) eqn:Ha; [|done].
    destruct (_ || anthropic_endpoint_mismatch a) eqn:E; [done|]. unfold str_eqb in Ha. reflect_bools.
    match goal with E : anthropic_endpoint_mismatch _ = _ |- _ =>
      apply endpoint_ok in E as (? & Ht & ? & _) end.
    split_and!; try done. right. split_and!; try done. congruence.
Qed.

Lemma target_validate_headers a t hs s src p extra :
  target_validate (FromTemplate t hs s src p) a extra = Ok tt ->
  forall h v, (h, v) ∈ hs -> h <> header_name a /\ h <> "authorization" /\
    h ∉ FORBIDDEN_HEADERS /\ h ∉ extra /\ str_all (in_range 32 126) v = true.
Proof.
  cbn [target_validate]. destruct (validate_template_id _) as [[]|]; [|done]. cbn [mbind result_bind].
  destruct (negb (slug _ _)); [done|]. destruct (validate_headers _ _) as [[]|] eqn:Eh; [|done].
  cbn [mbind result_bind]. destruct (existsb _ (keys hs)) eqn:Ek; [done|]. intros _ h v Hin.
  rewrite existsb_false_elem in Ek. specialize (Ek h (list_elem_of_fmap_2 fst _ _ Hin)).
  unfold validate_headers in Eh. destruct (negb _); [done|].
  destruct (HeaderCredentialUse_new _ _); [|done]. cbn [mbind result_bind] in Eh.
  destruct (existsb _ hs) eqn:Ex; [done|]. rewrite existsb_false_elem in Ex. specialize (Ex _ Hin).
  unfold fixed_header_invalid, is_forbidden, str_eqb in Ex. cbn in Ex. reflect_bools. by split_and!.
Qed.

(** A registered action cannot carry the credential anywhere but
    its slot. Every action that validation accepts has bounded timeout and body
    sizes, an allowed credential slot, caller, fixed and returned headers that
    never name that slot, [authorization] or a hop header, fixed headers the
    caller cannot override, and a native plugin or text stream only for the
    exact provider endpoint it is made for. *)
Theorem action_validate_sound a : action_validate a = Ok tt -> action_safe a.
Proof.
  unfold action_validate. intros H.
  destruct (target_validate _ _ _) as [[]|] eqn:Et; [|done]. cbn [mbind result_bind] in H.
  match type of H with mbind _ ?x = _ => destruct x as [[]|] eqn:Ep end; [|done].
  cbn [mbind result_bind] in H.
  destruct (match text_stream a with Some _ => _ | None => _ end) eqn:Es; [done|].
  destruct (fa_version a =? 0) eqn:Ev; [done|]. destruct (_ || _) eqn:Etm in H; [done|].
  destruct (is_forbidden _) eqn:Ef; [done|].
  destruct (request_policy_validate _ _) as [[]|] eqn:Eq; [|done]. cbn [mbind result_bind] in H.
  destruct (response_policy_validate _) as [[]|] eqn:Er; [|done]. cbn [mbind result_bind] in H.
  destruct (bool_decide _) eqn:Eh; [done|]. clear H.
  unfold request_policy_validate in Eq. destruct (_ || _) eqn:E1 in Eq; [done|].
  destruct (existsb _ _) eqn:E2 in Eq; [done|]. clear Eq.
  unfold response_policy_validate in Er. destruct (_ || _) eqn:E3 in Er; [done|].
  destruct (existsb _ _) eqn:E4 in Er; [done|]. clear Er.
  unfold REQUEST_BODY_HARD_MAX, RESPONSE_BODY_HARD_MAX, ACTION_TIMEOUT_HARD_MAX_MS in *.
  rewrite existsb_false_elem in E2, E4. unfold is_forbidden, str_eqb in *. reflect_bools.
  split; try done; try lia.
  - intros h Hin. specialize (E2 h Hin). reflect_bools. by split_and!.
  - intros h Hin. specialize (E4 h Hin). reflect_bools. split_and!; try done. congruence.
  - intros t hs s src p E. rewrite E in Et. exact (target_validate_headers _ _ _ _ _ _ _ Et).
  - intros p E. rewrite E in Ep. by apply validate_plugin_ok.
  - intros s E. rewrite E in Es. unfold stream_mismatch in Es. reflect_bools.
    match goal with E : anthropic_endpoint_mismatch _ = _ |- _ =>
      apply endpoint_ok in E as (? & ? & ? & ?) end.
    split_and!; try done.
Qed.

End WithJson.

#[local] Instance model_json : JsonSchema := {|
  JsonValue := unit; is_object := fun _ => true; is_boolean := fun _ => false |}.

Definition demo_action : FixedHttpAction :=
  mkFixedHttpAction
    (Some (mkNativePlugin "/opt/plugin"
      "0123456789abcdef0123456789abcdef0123456789abcdef0123456789abcdef" GITHUB_ISSUES_PROTOCOL))
    None 1 "Comment" 1 true 2 "https://api.github.com" Post
    (Fixed "/repos/acme/app/issues/17/comments")
    (mkHeaderCredentialUse "authorization" "Bearer ") 30000
    (mkRequestPolicy 65536 ["x-trace"]) (mkResponsePolicy 65536 ["etag"]).

Lemma action_validate_sound_witness :
  action_validate demo_action = Ok tt /\ action_safe demo_action.
Proof.
  assert (H : action_validate demo_action = Ok tt) by (vm_compute; reflexivity).
  split; [exact H|]. exact (action_validate_sound demo_action H).
Defined.
