(* ===== verification/Decimal.v ===== *)
(** * Decimal: numbers in JSON bodies survive canonicalisation exactly

    [rekey-policy/src/lib.rs], lines 1249-1330: [decimal_parts], which compares
    two decimal numerals without converting them, and
    [ensure_json_number_fidelity], the scan that rejects a body with a number
    that canonicalisation would change. Bytes are [Z] in [0, 256); indices of the
    scan are suffixes of the body. serde_json's number parser followed by
    serde_jcs is the parameter [canonical_number]. *)

From S2P Require Import Prelude Strings Errors.

Definition is_digit_byte (b : Z) : bool := (48 <=? b) && (b <=? 57).
Definition is_exponent_mark (b : Z) : bool := (b =? 101) || (b =? 69).
Definition is_nonzero (b : Z) : bool := negb (b =? 48).

(** [iter().position(p)] and [iter().rposition(p)]. *)
Fixpoint position (p : Z -> bool) (l : list Z) : option nat :=
  match l with
  | [] => None
  | x :: r => if p x then Some O else S <$> position p r
  end.
Fixpoint rposition (p : Z -> bool) (l : list Z) : option nat :=
  match l with
  | [] => None
  | x :: r => match rposition p r with
              | Some i => Some (S i)
              | None => if p x then Some O else None
              end
  end.

(** [i64::try_from(usize)], [i64::checked_add], and a byte string as text. *)
Definition i64_try_from (n : Z) : option Z := if n <=? i64_max then Some n else None.
Definition i64_checked_add (a b : Z) : option Z :=
  if (i64_min <=? a + b) && (a + b <=? i64_max) then Some (a + b) else None.
Definition text_of (bytes : list Z) : string :=
  fold_right (fun b s => String (byte_char b) s) EmptyString bytes.

(** [decimal_parts]. Text that is not UTF-8 is not a number either, so
    [from_utf8] and [parse] fail together. *)
Definition decimal_parts (number : list Z) : option (bool * list Z * Z) :=
  let negative := match number with b :: _ => b =? 45 | [] => false end in
  let unsigned := if negative then drop 1 number else number in
  let exponent_at := match position is_exponent_mark unsigned with
    | Some i => i | None => length unsigned end in
  let mantissa := take exponent_at unsigned in
  let digits := List.filter is_digit_byte mantissa in
  match position is_nonzero digits with
  | None => Some (false, [], 0)
  | Some first =>
      last ← rposition is_nonzero digits;
      let end_ := S last in
      let fractional := match position (fun b => b =? 46) mantissa with
        | None => 0
        | Some dot => Z.of_nat (length mantissa - dot - 1)
        end in
      exponent ← (if bool_decide (exponent_at = length unsigned) then Some 0
                  else parse_i64 (text_of (drop (exponent_at + 1) unsigned)));
      fractional ← i64_try_from fractional;
      exponent ← i64_checked_sub exponent fractional;
      trailing ← i64_try_from (Z.of_nat (length digits - end_));
      exponent ← i64_checked_add exponent trailing;
      Some (negative, take (end_ - first) (drop first digits), exponent)
  end.

(** ** The scan *)

Section Scan.
Context (canonical_number : list Z -> option (list Z)).

(** A number token: maximal run of these bytes. *)
Definition is_number_byte (b : Z) : bool :=
  is_digit_byte b || (b =? 45) || (b =? 43) || (b =? 46) || is_exponent_mark b.

Fixpoint take_number (l : list Z) : list Z * list Z :=
  match l with
  | [] => ([], [])
  | b :: r => if is_number_byte b then let '(t, rest) := take_number r in (b :: t, rest)
              else ([], l)
  end.

(** The rest of the body after a string whose opening quote was passed. *)
Fixpoint skip_string (l : list Z) : list Z :=
  match l with
  | [] => []
  | b :: r =>
      if b =? 92 then match r with [] => [] | _ :: r' => skip_string r' end
      else if b =? 34 then r
      else skip_string r
  end.

(** The comparison of one token. *)
Definition number_survives (original : list Z) : bool :=
  match canonical_number original with
  | None => false
  | Some canonical =>
      match decimal_parts original, decimal_parts canonical with
      | Some l, Some r => bool_decide (l = r)
      | _, _ => false
      end
  end.

(** The outer loop; every turn consumes a byte, so the body's length is enough
    fuel. *)
Fixpoint scan_numbers (fuel : nat) (l : list Z) : result PolicyError unit :=
  match fuel, l with
  | _, [] => Ok tt
  | O, _ :: _ => Ok tt
  | S fuel, b :: r =>
      if b =? 34 then scan_numbers fuel (skip_string r)
      else if (b =? 45) || is_digit_byte b then
        let '(original, rest) := take_number l in
        reject_if negb (number_survives original) with InvalidParameters ;;
        scan_numbers fuel rest
      else scan_numbers fuel r
  end.

(** [ensure_json_number_fidelity]. *)
Definition ensure_json_number_fidelity (body : list Z) : result PolicyError unit :=
  scan_numbers (length body) body.

End Scan.

Example decimal_parts_example :
  decimal_parts [45; 49; 46; 53; 48; 48; 69; 43; 50] = Some (true, [49; 53], 1).
Proof. vm_compute. reflexivity. Qed.

(** ** What a number token denotes *)

Definition digits_number (l : list Z) : Z := fold_left (fun acc d => acc * 10 + (d - 48)) l 0.

(** The JSON grammar of a number: sign, integer digits, fraction, exponent. *)
Definition exponent_text (text : list Z) (ex : Z) : Prop :=
  (text = [] /\ ex = 0) \/
  exists mark sign ds, text = mark :: sign ++ ds /\ is_exponent_mark mark = true /\
    ds <> [] /\ Forall (fun d => is_digit_byte d = true) ds /\
    ((sign = [] \/ sign = [43]) /\ ex = digits_number ds \/
     sign = [45] /\ ex = - digits_number ds).

Record json_number (t : list Z) (negative : bool) (int frac : list Z) (ex : Z) : Prop := {
  jn_int : int <> [] /\ Forall (fun d => is_digit_byte d = true) int;
  jn_frac : Forall (fun d => is_digit_byte d = true) frac;
  jn_text : exists etext, exponent_text etext ex /\
    t = (if negative then [45] else []) ++ int ++
        (if bool_decide (frac = []) then [] else 46 :: frac) ++ etext;
}.

(** Its value is [mantissa * 10 ^ scale], with the sign in the mantissa. *)
Definition mantissa_of (negative : bool) (int frac : list Z) : Z :=
  (if negative then -1 else 1) * digits_number (int ++ frac).
Definition scale_of (frac : list Z) (ex : Z) : Z := ex - llen frac.

(** Two scaled integers are the same rational number. *)
Definition same_number (m e m' e' : Z) : Prop :=
  m * 10 ^ (e - Z.min e e') = m' * 10 ^ (e' - Z.min e e').

Lemma digits_number_app a b :
  digits_number (a ++ b) = digits_number a * 10 ^ llen b + digits_number b.
Proof.
  unfold digits_number, llen. rewrite fold_left_app. generalize (fold_left (fun acc d => acc * 10 + (d - 48)) a 0).
  induction b as [|x b IH] using rev_ind; intros z; [cbn; lia|].
  rewrite !fold_left_app, length_app. cbn [fold_left length]. rewrite IH.
  replace (Z.of_nat (length b + 1)) with (Z.of_nat (length b) + 1) by lia.
  rewrite Z.pow_add_r by lia. lia.
Qed.

Lemma digits_number_single d : digits_number [d] = d - 48.
Proof. unfold digits_number. cbn. lia. Qed.

Lemma digit_byte_range d : is_digit_byte d = true -> 0 <= d - 48 < 10.
Proof. unfold is_digit_byte. intros. reflect_bools. lia. Qed.

Lemma digits_number_range l :
  Forall (fun d => is_digit_byte d = true) l -> 0 <= digits_number l < 10 ^ llen l.
Proof.
  induction l as [|d l IH] using rev_ind; [unfold llen; cbn; lia|].
  rewrite Forall_app, Forall_singleton. intros [Hl Hd%digit_byte_range]. rewrite digits_number_app.
  specialize (IH Hl). rewrite digits_number_single. unfold llen in *.
  rewrite length_app. cbn [length]. rewrite Nat2Z.inj_add, Z.pow_add_r, !Z.pow_1_r by lia. lia.
Qed.

(** A digit string without leading zero is determined by its number. *)
Definition no_leading_zero (l : list Z) : Prop :=
  match l with [] => True | d :: _ => is_nonzero d = true end.
Definition no_trailing_zero (l : list Z) : Prop :=
  match last l with None => True | Some d => is_nonzero d = true end.

Lemma digits_number_lower d l :
  is_digit_byte d = true -> is_nonzero d = true -> Forall (fun d => is_digit_byte d = true) l ->
  10 ^ llen l <= digits_number (d :: l).
Proof.
  intros Hd Hn Hl. change (d :: l) with ([d] ++ l). rewrite digits_number_app,
    digits_number_single.
  pose proof (digits_number_range l Hl). pose proof (digit_byte_range _ Hd).
  unfold is_nonzero in Hn. reflect_bools.
  assert (0 < 10 ^ llen l) by (apply Z.pow_pos_nonneg; unfold llen; lia). nia.
Qed.

Lemma digits_number_inj_len a b :
  Forall (fun d => is_digit_byte d = true) a -> Forall (fun d => is_digit_byte d = true) b ->
  length a = length b -> digits_number a = digits_number b -> a = b.
Proof.
  revert b. induction a as [|x a IH] using rev_ind; intros b Ha Hb Hl E.
  - by destruct b.
  - destruct b as [|y b _] using rev_ind; [rewrite length_app in Hl; cbn in Hl; lia|].
    rewrite !length_app in Hl. cbn in Hl. rewrite Forall_app, Forall_singleton in Ha, Hb.
    destruct Ha as [Ha Hx%digit_byte_range], Hb as [Hb Hy%digit_byte_range].
    rewrite !digits_number_app, !digits_number_single in E. unfold llen in E. cbn [length] in E.
    change (Z.of_nat 1) with 1 in E. rewrite Z.pow_1_r in E. f_equal; [apply IH; try done; lia|]. f_equal. lia.
Qed.

Lemma digits_number_inj a b :
  Forall (fun d => is_digit_byte d = true) a -> Forall (fun d => is_digit_byte d = true) b ->
  no_leading_zero a -> no_leading_zero b -> digits_number a = digits_number b -> a = b.
Proof.
  intros Ha Hb Na Nb E. apply digits_number_inj_len; try done.
  assert (Hlt : forall x y, Forall (fun d => is_digit_byte d = true) x ->
    Forall (fun d => is_digit_byte d = true) y -> no_leading_zero y ->
    digits_number x = digits_number y -> (length y <= length x)%nat).
  { intros x [|d y] Hx Hy Ny Exy; [cbn; lia|]. apply Forall_cons in Hy as [Hd Hy].
    pose proof (digits_number_lower d y Hd Ny Hy). pose proof (digits_number_range x Hx).
    assert (llen y < llen x); [|unfold llen in *; cbn; lia].
    apply (Z.pow_lt_mono_r_iff 10); unfold llen in *; lia. }
  pose proof (Hlt a b Ha Hb Nb E). pose proof (Hlt b a Hb Ha Na (eq_sym E)). lia.
Qed.

(** ** Positions *)

Lemma position_Some p l i :
  position p l = Some i -> exists a x b, l = a ++ x :: b /\ length a = i /\ p x = true /\
    Forall (fun y => p y = false) a.
Proof.
  revert i. induction l as [|y l IH]; intros i; cbn; [done|]. destruct (p y) eqn:E.
  - intros; simplify_eq. by exists [], y, l.
  - destruct (position p l) as [j|]; [|done]. cbn. intros; simplify_eq.
    destruct (IH j eq_refl) as (a & x & b & -> & <- & Hx & Ha). exists (y :: a), x, b.
    split_and!; try done. by constructor.
Qed.
Lemma position_None p l : position p l = None <-> Forall (fun y => p y = false) l.
Proof.
  induction l as [|y l IH]; cbn; [by split|]. rewrite Forall_cons, <- IH.
  destruct (p y); [naive_solver|]. destruct (position p l); naive_solver.
Qed.
Lemma position_app p a x b :
  Forall (fun y => p y = false) a -> p x = true -> position p (a ++ x :: b) = Some (length a).
Proof. intros Ha Hx. induction Ha as [|y a Hy _ IH]; cbn; [by rewrite Hx|]. by rewrite Hy, IH. Qed.
Lemma rposition_Some p l i :
  rposition p l = Some i -> exists a x b, l = a ++ x :: b /\ length a = i /\ p x = true /\
    Forall (fun y => p y = false) b.
Proof.
  assert (Hn : forall l, rposition p l = None -> Forall (fun y => p y = false) l).
  { clear. induction l as [|y l IH]; cbn; [constructor|]. destruct (rposition p l); [done|].
    destruct (p y) eqn:E; [done|]. intros _. constructor; auto. }
  revert i. induction l as [|y l IH]; intros i; cbn; [done|].
  destruct (rposition p l) as [j|] eqn:Ej.
  - intros; simplify_eq. destruct (IH j eq_refl) as (a & x & b & -> & <- & Hx & Hb).
    by exists (y :: a), x, b.
  - destruct (p y) eqn:E; [|done]. intros; simplify_eq. exists [], y, l. split_and!; try done. auto.
Qed.
Lemma rposition_is_Some p l i : position p l = Some i -> exists j, rposition p l = Some j /\ (i <= j)%nat.
Proof.
  revert i. induction l as [|y l IH]; intros i; cbn; [done|]. destruct (p y) eqn:E.
  - intros; simplify_eq. destruct (rposition p l); eexists; split; try done; lia.
  - destruct (position p l) as [k|]; [|done]. cbn. intros; simplify_eq.
    destruct (IH k eq_refl) as (j & -> & Hj). eexists. split; [done|]. lia.
Qed.

(** The core of a digit string without its outer zeros. *)
Lemma digits_core digits first last_ :
  position is_nonzero digits = Some first -> rposition is_nonzero digits = Some last_ ->
  Forall (fun d => is_digit_byte d = true) digits ->
  let core := take (S last_ - first) (drop first digits) in
  core <> [] /\ Forall (fun d => is_digit_byte d = true) core /\
  no_leading_zero core /\ no_trailing_zero core /\
  digits_number digits = digits_number core * 10 ^ Z.of_nat (length digits - S last_).
Proof.
  intros Hp Hr Hd core. destruct (rposition_is_Some _ _ _ Hp) as (j & Hj & Hle).
  rewrite Hr in Hj. simplify_eq.
  apply position_Some in Hp as (a & x & b & E1 & Ha & Hx & Fa).
  apply rposition_Some in Hr as (a' & y & b' & E2 & Ha' & Hy & Fb).
  assert (Hcore : core = drop first (a' ++ [y])).
  { unfold core. rewrite take_drop_commute. replace (first + (S j - first))%nat with (S j) by lia.
    f_equal. rewrite E2. replace (a' ++ y :: b') with ((a' ++ [y]) ++ b') by by rewrite <- app_assoc.
    rewrite take_app_length' by (rewrite length_app; cbn; lia). done. }
  assert (Hsplit : digits = a ++ core ++ b').
  { rewrite Hcore. rewrite <- (take_drop first digits) at 1. rewrite E1 at 1.
    rewrite take_app_length' by done. f_equal. rewrite E2.
    replace (a' ++ y :: b') with ((a' ++ [y]) ++ b') by by rewrite <- app_assoc.
    apply drop_app_le. rewrite length_app. cbn. lia. }
  assert (Hlead : exists r, core = x :: r).
  { assert (Hb : drop first digits = x :: b) by (rewrite E1; by apply drop_app_length').
    unfold core. rewrite Hb. replace (S j - first)%nat with (S (j - first)) by lia. cbn. eauto. }
  assert (Hlast : last core = Some y).
  { rewrite Hcore. rewrite drop_app_le by lia. by rewrite last_snoc. }
  rewrite Hsplit in Hd. rewrite !Forall_app in Hd. destruct Hd as (Hd1 & Hd2 & Hd3).
  split_and!; try done.
  - by destruct Hlead as [r ->].
  - destruct Hlead as [r Hl]. rewrite Hl. exact Hx.
  - unfold no_trailing_zero. by rewrite Hlast.
  - assert (Hz : forall z, Forall (fun d => is_nonzero d = false) z -> digits_number z = 0).
    { clear. induction z as [|d z IH] using rev_ind; [done|].
      rewrite Forall_app, Forall_singleton. intros [Hz Hd]. unfold is_nonzero in Hd. reflect_bools.
      rewrite digits_number_app, digits_number_single, IH by done. lia. }
    assert (Hlen : (length digits - S j)%nat = length b').
    { rewrite E2, length_app. cbn. lia. }
    rewrite Hlen, Hsplit, !digits_number_app, (Hz a), (Hz b') by done. unfold llen. lia.
Qed.

(** ** Parsing the exponent *)

Lemma digit_text d : is_digit_byte d = true ->
  is_ascii_digit (byte_char d) = true /\ digit_value (byte_char d) = d - 48.
Proof.
  unfold is_digit_byte, is_ascii_digit, in_range, digit_value. intros. reflect_bools.
  rewrite byte_of_char by lia. split; lia.
Qed.
Lemma digits_value_text ds acc :
  Forall (fun d => is_digit_byte d = true) ds ->
  digits_value acc (text_of ds) = Some (fold_left (fun acc d => acc * 10 + (d - 48)) ds acc).
Proof.
  intros H. revert acc. induction H as [|d ds Hd _ IH]; intros acc; [done|]. cbn.
  destruct (digit_text d Hd) as [-> ->]. apply IH.
Qed.
Lemma text_not_sign c d ds :
  is_digit_byte d = true -> is_ascii_digit c = false -> strip_prefix c (text_of (d :: ds)) = None.
Proof.
  intros Hd Hc. cbn. rewrite bool_decide_eq_false_2; [done|]. intros E.
  destruct (digit_text d Hd) as [Hx _]. rewrite E in Hx. congruence.
Qed.

Lemma parse_exponent sign ds ex v :
  ds <> [] -> Forall (fun d => is_digit_byte d = true) ds ->
  ((sign = [] \/ sign = [43]) /\ ex = digits_number ds \/ sign = [45] /\ ex = - digits_number ds) ->
  parse_i64 (text_of (sign ++ ds)) = Some v -> v = ex.
Proof.
  intros Hne Hd Hs. destruct ds as [|d ds]; [done|].
  pose proof (digits_value_text (d :: ds) 0 Hd) as Hv. fold (digits_number (d :: ds)) in Hv.
  pose proof (proj1 (proj1 (Forall_cons _ _ _) Hd)) as Hd1.
  assert (Hne' : is_empty_str (text_of (d :: ds)) = false) by done.
  destruct Hs as [[[->| ->] ->]|[-> ->]].
  - cbn [app]. unfold parse_i64, parse_unsigned. rewrite !text_not_sign by done.
    rewrite Hne', Hv. destruct (_ <=? _); [|done]. intros; by simplify_eq.
  - change (text_of ([43] ++ d :: ds)) with (String "+" (text_of (d :: ds))).
    unfold parse_i64, parse_unsigned. cbn [strip_prefix].
    rewrite bool_decide_eq_false_2, bool_decide_eq_true_2 by done.
    rewrite Hne', Hv. destruct (_ <=? _); [|done]. intros; by simplify_eq.
  - change (text_of ([45] ++ d :: ds)) with (String "-" (text_of (d :: ds))).
    unfold parse_i64. cbn [strip_prefix]. rewrite bool_decide_eq_true_2 by done.
    rewrite Hne', Hv. destruct (_ <=? _); [|done]. intros; by simplify_eq.
Qed.

(** ** What [decimal_parts] returns *)

Lemma filter_all p (l : list Z) : Forall (fun x => p x = true) l -> List.filter p l = l.
Proof. induction 1 as [|x l Hx _ IH]; [done|]. cbn. by rewrite Hx, IH. Qed.

Lemma digits_not q l :
  Forall (fun d => is_digit_byte d = true) l -> (forall d, is_digit_byte d = true -> q d = false) ->
  Forall (fun d => q d = false) l.
Proof. intros H Hq. eapply Forall_impl; [exact H|]. intros d. apply Hq. Qed.

Lemma digit_no_mark d : is_digit_byte d = true -> is_exponent_mark d = false.
Proof. unfold is_digit_byte, is_exponent_mark. intros. reflect_bools. lia. Qed.
Lemma digit_no_dot d : is_digit_byte d = true -> (d =? 46) = false.
Proof. unfold is_digit_byte. intros. reflect_bools. lia. Qed.

(** The pieces [decimal_parts] cuts a token into. *)
Lemma token_pieces t negative int frac ex :
  json_number t negative int frac ex ->
  let body := int ++ (if bool_decide (frac = []) then [] else 46 :: frac) in
  exists etext, exponent_text etext ex /\
    (match t with b :: _ => b =? 45 | [] => false end) = negative /\
    (if negative then drop 1 t else t) = body ++ etext /\
    match position is_exponent_mark (body ++ etext) with
    | Some i => i | None => length (body ++ etext) end = length body /\
    List.filter is_digit_byte body = int ++ frac /\
    match position (fun b => b =? 46) body with
    | None => 0 | Some dot => Z.of_nat (length body - dot - 1) end = llen frac.
Proof.
  intros [(Hi & Fi) Ff (etext & He & Ht)] body. exists etext.
  assert (Hbody : Forall (fun y => is_exponent_mark y = false) body).
  { unfold body. apply Forall_app. split; [by eapply digits_not, digit_no_mark|].
    case_bool_decide; [constructor|]. constructor; [done|]. by eapply digits_not, digit_no_mark. }
  split_and!; [done| | | | |].
  - rewrite Ht. destruct negative; [done|]. cbn. destruct int as [|d int]; [done|]. cbn.
    apply Forall_cons in Fi as [Hd _]. unfold is_digit_byte in Hd. reflect_bools. lia.
  - rewrite Ht. unfold body. destruct negative; cbn; by rewrite <- app_assoc.
  - destruct He as [[-> _]|(mark & sign & ds & -> & Hm & _)].
    + rewrite app_nil_r. by rewrite (proj2 (position_None _ _) Hbody).
    + by rewrite position_app.
  - unfold body. rewrite List.filter_app. rewrite (filter_all _ int) by done. f_equal.
    case_bool_decide as Hf; [by subst|]. cbn. by apply filter_all.
  - unfold body. case_bool_decide as Hf.
    + subst frac. rewrite app_nil_r.
      rewrite (proj2 (position_None _ _)); [done|]. by eapply digits_not, digit_no_dot.
    + rewrite position_app; [|by eapply digits_not, digit_no_dot|done].
      rewrite length_app. cbn [length]. unfold llen. f_equal. lia.
Qed.

(** The decomposition denotes the token: the sign and the core digits are those
    of the mantissa, whose outer zeros move into the exponent. *)
Lemma decimal_parts_denotes t negative int frac ex n ds e :
  json_number t negative int frac ex -> decimal_parts t = Some (n, ds, e) ->
  (digits_number (int ++ frac) = 0 /\ n = false /\ ds = [] /\ e = 0) \/
  (ds <> [] /\ Forall (fun d => is_digit_byte d = true) ds /\ no_leading_zero ds /\
   no_trailing_zero ds /\ n = negative /\ exists k, 0 <= k /\
   digits_number (int ++ frac) = digits_number ds * 10 ^ k /\ e = scale_of frac ex + k).
Proof.
  intros J. pose proof (token_pieces _ _ _ _ _ J) as (etext & He & Hneg & Hun & Hmark & Hdig & Hdot).
  set (body := int ++ _) in *. unfold decimal_parts. rewrite Hneg, Hun, Hmark.
  rewrite take_app_length, Hdig, Hdot.
  assert (Fd : Forall (fun d => is_digit_byte d = true) (int ++ frac))
    by (destruct J as [[_ ?] ? _]; by apply Forall_app).
  destruct (position is_nonzero (int ++ frac)) as [first|] eqn:Ep.
  - destruct (rposition is_nonzero (int ++ frac)) as [last_|] eqn:Er; [|done].
    pose proof (digits_core _ _ _ Ep Er Fd) as (C1 & C2 & C3 & C4 & C5). cbn [mbind option_bind].
    set (core := take _ _) in *.
    assert (Hex : forall v, (if bool_decide (length body = length (body ++ etext)) then Some 0
        else parse_i64 (text_of (drop (length body + 1) (body ++ etext)))) = Some v -> v = ex).
    { intros v. destruct He as [[-> ->]|(mark & sign & dd & -> & Hm & Hne & Fdd & Hs)].
      - rewrite app_nil_r, bool_decide_eq_true_2 by done. intros; by simplify_eq.
      - rewrite bool_decide_eq_false_2 by (rewrite length_app; cbn; lia).
        rewrite drop_app_ge by lia. replace (length body + 1 - length body)%nat with 1%nat by lia.
        cbn [drop]. by apply parse_exponent. }
    set (parsed := if bool_decide (length body = _) then _ else _) in *.
    destruct parsed as [v|]; [|done]. specialize (Hex v eq_refl) as ->.
    cbn [mbind option_bind].
    destruct (i64_try_from (llen frac)) as [f|] eqn:Ef; [|done]. cbn [mbind option_bind].
    unfold i64_try_from in Ef. destruct (_ <=? _) in Ef; [|done]. simplify_eq.
    destruct (i64_checked_sub ex (llen frac)) as [s|] eqn:Es; [|done]. cbn [mbind option_bind].
    unfold i64_checked_sub in Es. destruct (_ && _) in Es; [|done]. simplify_eq.
    destruct (i64_try_from (Z.of_nat _)) as [tr|] eqn:Etr; [|done]. cbn [mbind option_bind].
    unfold i64_try_from in Etr. destruct (_ <=? _) in Etr; [|done]. simplify_eq.
    destruct (i64_checked_add _ _) as [e'|] eqn:Ea; [|done]. cbn [mbind option_bind].
    unfold i64_checked_add in Ea. destruct (_ && _) in Ea; [|done]. simplify_eq.
    intros H. simplify_eq. right. split_and!; try done.
    exists (Z.of_nat (length (int ++ frac) - S last_)). split_and!; [lia|done|].
    unfold scale_of. lia.
  - intros; simplify_eq. left. split; [|done]. apply position_None in Ep.
    clear -Ep. induction (int ++ frac) as [|d z IH] using rev_ind; [done|].
    rewrite Forall_app, Forall_singleton in Ep. destruct Ep as [Hz Hd]. unfold is_nonzero in Hd.
    reflect_bools. rewrite digits_number_app, digits_number_single, IH by done. lia.
Qed.

(** ** Comparing two numerals *)

Lemma same_number_base b m e m' e' :
  b <= e -> b <= e' -> same_number m e m' e' <-> m * 10 ^ (e - b) = m' * 10 ^ (e' - b).
Proof.
  intros He He'. unfold same_number. set (z := Z.min e e').
  replace (e - b) with ((e - z) + (z - b)) by lia.
  replace (e' - b) with ((e' - z) + (z - b)) by lia.
  rewrite !Z.pow_add_r by lia. assert (0 < 10 ^ (z - b)) by (apply Z.pow_pos_nonneg; lia). nia.
Qed.

Lemma last_digit_not_zero ds :
  ds <> [] -> Forall (fun d => is_digit_byte d = true) ds -> no_trailing_zero ds ->
  digits_number ds mod 10 <> 0.
Proof.
  intros Hne Hd Hl. destruct ds as [|y ds _] using rev_ind; [done|].
  unfold no_trailing_zero in Hl. rewrite last_snoc in Hl. unfold is_nonzero in Hl. reflect_bools.
  rewrite Forall_app, Forall_singleton in Hd. destruct Hd as [_ Hy%digit_byte_range].
  rewrite digits_number_app, digits_number_single. change (llen [y]) with 1. rewrite Z.pow_1_r.
  rewrite Z.add_comm, Z_mod_plus_full, Z.mod_small by lia. lia.
Qed.

Lemma scaled_inj ds e ds' e' :
  ds <> [] -> ds' <> [] ->
  Forall (fun d => is_digit_byte d = true) ds -> Forall (fun d => is_digit_byte d = true) ds' ->
  no_leading_zero ds -> no_leading_zero ds' -> no_trailing_zero ds -> no_trailing_zero ds' ->
  digits_number ds * 10 ^ e = digits_number ds' * 10 ^ e' -> 0 <= e -> 0 <= e' ->
  ds = ds' /\ e = e'.
Proof.
  intros N N' D D' L L' T T' E He He'.
  assert (Hlt : forall a b x y, 0 <= a -> a < b -> digits_number x mod 10 <> 0 ->
    digits_number x * 10 ^ a = digits_number y * 10 ^ b -> False).
  { intros a b x y Ha Hab Hm Exy. apply Hm. replace b with (a + (1 + (b - a - 1))) in Exy by lia.
    rewrite !Z.pow_add_r, Z.pow_1_r in Exy by lia.
    assert (0 < 10 ^ a) by (apply Z.pow_pos_nonneg; lia).
    assert (digits_number x = (digits_number y * 10 ^ (b - a - 1)) * 10) as -> by nia.
    apply Z_mod_mult. }
  pose proof (last_digit_not_zero ds N D T). pose proof (last_digit_not_zero ds' N' D' T').
  assert (e = e') as <-.
  { destruct (Z.lt_trichotomy e e') as [?|[?|?]]; [|done|]; exfalso; eauto. }
  split; [|done]. apply digits_number_inj; try done.
  assert (0 < 10 ^ e) by (apply Z.pow_pos_nonneg; lia). nia.
Qed.

(** Decimal numerals are compared exactly. Two JSON number tokens have equal
    [decimal_parts] if and only if they denote the same rational number, whatever
    their leading and trailing zeros, fractions, exponents and signs of zero. *)
Theorem decimal_parts_exact t neg int frac ex t' neg' int' frac' ex' p p' :
  json_number t neg int frac ex -> json_number t' neg' int' frac' ex' ->
  decimal_parts t = Some p -> decimal_parts t' = Some p' ->
  p = p' <-> same_number (mantissa_of neg int frac) (scale_of frac ex)
                         (mantissa_of neg' int' frac') (scale_of frac' ex').
Proof.
  intros J J' P P'. destruct p as [[n ds] e], p' as [[n' ds'] e'].
  pose proof (decimal_parts_denotes _ _ _ _ _ _ _ _ J P) as Q.
  pose proof (decimal_parts_denotes _ _ _ _ _ _ _ _ J' P') as Q'.
  unfold mantissa_of. set (s := scale_of frac ex) in *. set (s' := scale_of frac' ex') in *.
  set (b := Z.min s s'). rewrite (same_number_base b) by lia.
  assert (0 < 10 ^ (s - b)) by (apply Z.pow_pos_nonneg; lia).
  assert (0 < 10 ^ (s' - b)) by (apply Z.pow_pos_nonneg; lia).
  assert (Hpos : forall l, l <> [] -> Forall (fun d => is_digit_byte d = true) l ->
    no_leading_zero l -> 0 < digits_number l).
  { intros [|d l] Hl Hd Hz; [done|]. apply Forall_cons in Hd as [Hd1 Hd2].
    pose proof (digits_number_lower d l Hd1 Hz Hd2).
    assert (0 < 10 ^ llen l) by (apply Z.pow_pos_nonneg; unfold llen; lia). lia. }
  destruct Q as [(Z0 & -> & -> & ->)|(Q1 & Q2 & Q3 & Q4 & -> & k & Qk & Qm & ->)],
    Q' as [(Z0' & -> & -> & ->)|(Q1' & Q2' & Q3' & Q4' & -> & k' & Qk' & Qm' & ->)].
  - rewrite Z0, Z0'. split; [|done]. intros _. destruct neg, neg'; lia.
  - rewrite Z0, Qm'. pose proof (Hpos _ Q1' Q2' Q3').
    assert (0 < 10 ^ k') by (apply Z.pow_pos_nonneg; lia).
    split; [intros; simplify_eq|]. destruct neg, neg'; nia.
  - rewrite Z0', Qm. pose proof (Hpos _ Q1 Q2 Q3).
    assert (0 < 10 ^ k) by (apply Z.pow_pos_nonneg; lia).
    split; [intros; simplify_eq|]. destruct neg, neg'; nia.
  - rewrite Qm, Qm'. pose proof (Hpos _ Q1 Q2 Q3) as H1. pose proof (Hpos _ Q1' Q2' Q3') as H2.
    assert (K : 0 < 10 ^ k) by (apply Z.pow_pos_nonneg; lia).
    assert (K' : 0 < 10 ^ k') by (apply Z.pow_pos_nonneg; lia).
    split.
    + intros E. injection E as <- <- E.
      assert (Ep : 10 ^ k * 10 ^ (s - b) = 10 ^ k' * 10 ^ (s' - b)).
      { rewrite <- !Z.pow_add_r by lia. f_equal. lia. }
      rewrite <- !Z.mul_assoc. by rewrite Ep.
    + intros E. assert (neg = neg') as <- by (destruct neg, neg'; [done|nia|nia|done]).
      assert (E2 : digits_number ds * 10 ^ (k + (s - b)) = digits_number ds' * 10 ^ (k' + (s' - b))).
      { rewrite !Z.pow_add_r by lia. destruct neg; nia. }
      apply scaled_inj in E2 as [<- Ee]; try done; try lia.
      f_equal. lia.
Qed.

Lemma json_number_intro (t : list Z) (negative : bool) (int frac etext : list Z) (ex : Z) :
  int <> [] -> forallb is_digit_byte int = true -> forallb is_digit_byte frac = true ->
  exponent_text etext ex ->
  t = (if negative then [45] else []) ++ int ++
      (if bool_decide (frac = []) then [] else 46 :: frac) ++ etext ->
  json_number t negative int frac ex.
Proof.
  intros Hi Fi Ff He Ht. rewrite forallb_elem in Fi, Ff.
  split; [by rewrite Forall_forall|by rewrite Forall_forall|eauto].
Qed.

(** [1.50e2] and [150] are the same number; [15] is another. *)
Lemma demo_token : json_number [49; 46; 53; 48; 101; 50] false [49] [53; 48] 2.
Proof.
  apply (json_number_intro _ _ _ _ [101; 50]); try done. right.
  exists 101, [], [50]. split_and!; [done|done|done|by repeat constructor|].
  left. split; [by left|done].
Qed.
Lemma demo_token' : json_number [49; 53; 48] false [49; 53; 48] [] 0.
Proof. apply (json_number_intro _ _ _ _ []); try done. by left. Qed.

Lemma decimal_parts_exact_witness :
  decimal_parts [49; 46; 53; 48; 101; 50] = Some (false, [49; 53], 1) /\
  same_number (mantissa_of false [49] [53; 48]) (scale_of [53; 48] 2)
              (mantissa_of false [49; 53; 48] []) (scale_of [] 0).
Proof.
  split; [vm_compute; reflexivity|].
  apply (decimal_parts_exact _ _ _ _ _ _ _ _ _ _ (false, [49; 53], 1) (false, [49; 53], 1)
    demo_token demo_token'); vm_compute; reflexivity.
Defined.

(** ** The scan sees exactly the numbers of the body *)

(** A string after its opening quote, up to and with the closing one. *)
Inductive string_body : list Z -> Prop :=
  | sb_end : string_body [34]
  | sb_char b s : b <> 34 -> b <> 92 -> string_body s -> string_body (b :: s)
  | sb_escape b s : string_body s -> string_body (92 :: b :: s).

(** [lexed body numbers]: the body is a sequence of strings, number tokens and
    other bytes, and [numbers] are its number tokens. *)
Inductive lexed : list Z -> list (list Z) -> Prop :=
  | lex_nil : lexed [] []
  | lex_other b r ns :
      b <> 34 -> b <> 45 -> is_digit_byte b = false -> lexed r ns -> lexed (b :: r) ns
  | lex_string s r ns : string_body s -> lexed r ns -> lexed (34 :: s ++ r) ns
  | lex_number b t r ns :
      b = 45 \/ is_digit_byte b = true ->
      Forall (fun x => is_number_byte x = true) t ->
      match r with [] => True | x :: _ => is_number_byte x = false end ->
      lexed r ns -> lexed (b :: t ++ r) ((b :: t) :: ns).

Lemma skip_string_body s r : string_body s -> skip_string (s ++ r) = r.
Proof.
  induction 1 as [|b s Hq He _ IH|b s _ IH]; cbn; [done| |done].
  replace (b =? 92) with false by lia. by replace (b =? 34) with false by lia.
Qed.
Lemma take_number_app t r :
  Forall (fun x => is_number_byte x = true) t ->
  match r with [] => True | x :: _ => is_number_byte x = false end ->
  take_number (t ++ r) = (t, r).
Proof.
  intros Ht Hr. induction Ht as [|b t Hb _ IH]; cbn.
  - destruct r as [|x r]; [done|]. cbn. by rewrite Hr.
  - by rewrite Hb, IH.
Qed.

Lemma scan_lexed canonical body ns fuel :
  lexed body ns -> (length body <= fuel)%nat ->
  scan_numbers canonical fuel body =
  if forallb (number_survives canonical) ns then Ok tt else Err InvalidParameters.
Proof.
  intros L. revert fuel.
  induction L as [|b r ns Hq Hm Hd _ IH|s r ns Hs _ IH|b t r ns Hb Ht Hr _ IH]; intros fuel Hf.
  - by destruct fuel.
  - destruct fuel as [|fuel]; cbn in Hf |- *; [lia|].
    replace (b =? 34) with false by lia. replace (b =? 45) with false by lia. rewrite Hd.
    apply IH. lia.
  - destruct fuel as [|fuel]; cbn in Hf |- *; [lia|]. rewrite skip_string_body by done.
    apply IH. rewrite length_app in Hf. lia.
  - destruct fuel as [|fuel]; cbn [length] in Hf; [lia|]. cbn [scan_numbers].
    assert (Hstart : (b =? 45) || is_digit_byte b = true) by (destruct Hb as [->| ->]; [done|apply orb_true_r]).
    assert (Hn : is_number_byte b = true).
    { unfold is_number_byte. destruct Hb as [->| ->]; [done|done]. }
    assert (Hq : (b =? 34) = false).
    { destruct Hb as [->|Hb]; [done|]. unfold is_digit_byte in Hb. reflect_bools. lia. }
    rewrite Hq, Hstart. change (b :: t ++ r) with ((b :: t) ++ r).
    rewrite take_number_app by (done || by constructor). cbn [forallb].
    destruct (number_survives canonical (b :: t)); [|done]. apply IH.
    rewrite length_app in Hf. lia.
Qed.

Definition is_json_number (t : list Z) : Prop :=
  exists neg int frac ex, json_number t neg int frac ex.
(** Two tokens denote one number. *)
Definition same_value (t c : list Z) : Prop :=
  forall neg int frac ex neg' int' frac' ex',
  json_number t neg int frac ex -> json_number c neg' int' frac' ex' ->
  same_number (mantissa_of neg int frac) (scale_of frac ex)
              (mantissa_of neg' int' frac') (scale_of frac' ex').

(** Numbers survive canonicalisation exactly. Every body is accepted if and only
    if each of its number tokens, wherever it stands outside strings, has a
    canonical text that denotes the same rational number (with exponents that
    fit 64 bits): what an approver is shown is what the upstream parses. *)
Theorem number_fidelity_exact canonical body ns :
  lexed body ns -> (forall t, t ∈ ns -> is_json_number t) ->
  (forall t c, canonical t = Some c -> is_json_number c) ->
  ensure_json_number_fidelity canonical body = Ok tt <->
  forall t, t ∈ ns -> exists c, canonical t = Some c /\ is_Some (decimal_parts t) /\
                          is_Some (decimal_parts c) /\ same_value t c.
Proof.
  intros L Hns Hc. unfold ensure_json_number_fidelity. rewrite (scan_lexed _ _ ns) by done.
  assert (Hone : forall t, t ∈ ns -> number_survives canonical t = true <->
    exists c, canonical t = Some c /\ is_Some (decimal_parts t) /\
              is_Some (decimal_parts c) /\ same_value t c).
  { intros t Ht. unfold number_survives. split.
    - destruct (canonical t) as [c|] eqn:Ec; [|done].
      destruct (decimal_parts t) as [p|] eqn:Ep; [|done].
      destruct (decimal_parts c) as [p'|] eqn:Ep'; [|done]. intros E. reflect_bools.
      exists c. split_and!; eauto. intros n i f e n' i' f' e' J J'.
      by apply (decimal_parts_exact _ _ _ _ _ _ _ _ _ _ p p' J J').
    - intros (c & Ec & [p Hp] & [p' Hp'] & Hs). rewrite Ec, Hp, Hp'. apply bool_decide_eq_true.
      destruct (Hns t Ht) as (n & i & f & e & J). destruct (Hc t c Ec) as (n' & i' & f' & e' & J').
      apply (decimal_parts_exact _ _ _ _ _ _ _ _ _ _ p p' J J' Hp Hp'). by apply Hs. }
  transitivity (forall t, t ∈ ns -> number_survives canonical t = true).
  - rewrite <- forallb_elem. destruct (forallb _ ns); split; done.
  - split; intros H t Ht; apply (Hone t Ht), H, Ht.
Qed.

(** [{"n":1.50e2}], with a canonicaliser that prints it as [150]. *)
Definition demo_body : list Z :=
  [123; 34; 110; 34; 58; 49; 46; 53; 48; 101; 50; 125].
Definition demo_canonical (t : list Z) : option (list Z) :=
  if bool_decide (t = [49; 46; 53; 48; 101; 50]) then Some [49; 53; 48] else None.

Lemma demo_lexed : lexed demo_body [[49; 46; 53; 48; 101; 50]].
Proof.
  apply lex_other; [done|done|done|].
  apply (lex_string [110; 34]); [repeat constructor; done|].
  apply lex_other; [done|done|done|].
  apply (lex_number 49 [46; 53; 48; 101; 50] [125]); [by right|repeat constructor|done|].
  apply lex_other; [done|done|done|]. constructor.
Qed.

Lemma number_fidelity_exact_witness :
  ensure_json_number_fidelity demo_canonical demo_body = Ok tt /\
  forall t, t ∈ [[49; 46; 53; 48; 101; 50]] -> exists c, demo_canonical t = Some c /\
    is_Some (decimal_parts t) /\ is_Some (decimal_parts c) /\ same_value t c.
Proof.
  assert (H : ensure_json_number_fidelity demo_canonical demo_body = Ok tt)
    by (vm_compute; reflexivity).
  split; [exact H|]. revert H. apply number_fidelity_exact.
  - exact demo_lexed.
  - intros t ->%list_elem_of_singleton. do 4 eexists. exact demo_token.
  - intros t c. unfold demo_canonical. case_bool_decide; [|done]. intros; simplify_eq.
    do 4 eexists. exact demo_token'.
Defined.
