(* ===== verification/Json.v ===== *)
(** * Json: JSON values and duplicate-free parsing

    [rekey-policy/src/json.rs] and the reference check of
    [rekey-policy/src/templates.rs], lines 238-295. The text parser, the
    canonicaliser and the schema validator are serde_json, serde_jcs and
    jsonschema: the parameters of the class [Serde]. What the parser hands to the
    visitor is [JsonEvents], serde's data model, in which an object may repeat
    keys; a [Value] is serde_json's, whose objects are maps in key order. *)

From S2P Require Import Prelude Strings Errors FixedAction Decimal.

(** ** Data *)

Inductive JsonEvents (N : Type) : Type :=
  | EvNull
  | EvBool (b : bool)
  | EvNumber (n : N)
  | EvString (s : string)
  | EvSeq (l : list (JsonEvents N))
  | EvMap (l : list (string * JsonEvents N)).
Arguments EvNull {N}.
Arguments EvBool {N}.
Arguments EvNumber {N}.
Arguments EvString {N}.
Arguments EvSeq {N}.
Arguments EvMap {N}.

Inductive JValue (N : Type) : Type :=
  | VNull
  | VBool (b : bool)
  | VNumber (n : N)
  | VString (s : string)
  | VArray (l : list (JValue N))
  | VObject (l : list (string * JValue N)).
Arguments VNull {N}.
Arguments VBool {N}.
Arguments VNumber {N}.
Arguments VString {N}.
Arguments VArray {N}.
Arguments VObject {N}.

Class Serde := {
  Number : Type;
  (** [Deserializer::from_slice], [deserialize_any] and [end]. *)
  deserialize_any : list Z -> option (JsonEvents Number);
  (** [serde_json::from_slice::<Value>]. *)
  from_slice : list Z -> option (JValue Number);
  (** [serde_jcs::to_vec] of a value, and of a number token after
      [serde_json::from_slice]. *)
  jcs : JValue Number -> option (list Z);
  canonical_number : list Z -> option (list Z);
  (** Compiling a schema under draft 2020-12, and validating with it; then the
      same under the draft the schema declares. *)
  schema_builds : JValue Number -> bool;
  schema_valid : JValue Number -> JValue Number -> bool;
  declared_schema_builds : JValue Number -> bool;
  declared_schema_valid : JValue Number -> JValue Number -> bool;
  (** [Number::as_u64], [Number::from(u64)] and [Number::to_string]. *)
  number_as_u64 : Number -> option Z;
  number_from_u64 : Z -> Number;
  number_to_string : Number -> string;
}.

Class SerdeLaws `{Serde} : Prop := {
  number_from_u64_as n : 0 <= n <= u64_max -> number_as_u64 (number_from_u64 n) = Some n;
}.

(** ** [UniqueVisitor] *)

(** [Map::insert] of a new key keeps key order; [None] when the key exists. *)
Fixpoint insert_entry {A} (k : string) (v : A) (l : list (string * A)) : option (list (string * A)) :=
  match l with
  | [] => Some [(k, v)]
  | (k', v') :: r =>
      match String.compare k k' with
      | Eq => None
      | Lt => Some ((k, v) :: l)
      | Gt => r' ← insert_entry k v r; Some ((k', v') :: r')
      end
  end.

(** [Map::insert], which replaces the value of a present key. *)
Fixpoint map_insert {A} (k : string) (v : A) (l : list (string * A)) : list (string * A) :=
  match l with
  | [] => [(k, v)]
  | (k', v') :: r =>
      match String.compare k k' with
      | Eq => (k', v) :: r
      | Lt => (k, v) :: l
      | Gt => (k', v') :: map_insert k v r
      end
  end.

(** The events of a sequence or map are visited in order; a repeated key is an
    error. *)
Definition insert_all {A} (l : list (string * A)) : option (list (string * A)) :=
  fold_left (fun acc kv => m ← acc; insert_entry kv.1 kv.2 m) l (Some []).

Fixpoint unique_value {N} (e : JsonEvents N) : option (JValue N) :=
  match e with
  | EvNull => Some VNull
  | EvBool b => Some (VBool b)
  | EvNumber n => Some (VNumber n)
  | EvString s => Some (VString s)
  | EvSeq l =>
      values ← (fix go l := match l with
        | [] => Some []
        | x :: r => v ← unique_value x; vs ← go r; Some (v :: vs)
        end) l;
      Some (VArray values)
  | EvMap l =>
      values ← (fix go l := match l with
        | [] => Some []
        | (k, x) :: r => v ← unique_value x; vs ← go r; Some ((k, v) :: vs)
        end) l;
      entries ← insert_all values;
      Some (VObject entries)
  end.

Section WithSerde.
Context {SJ : Serde}.

Abbreviation Value := (JValue Number).

(** [parse_unique_json]. *)
Definition parse_unique_json (bytes : list Z) : result PolicyError Value :=
  ok_or PolicyMalformed (e ← deserialize_any bytes; unique_value e).

#[export] Instance value_schema : JsonSchema := {|
  JsonValue := Value;
  is_object := fun v => match v with VObject _ => true | _ => false end;
  is_boolean := fun v => match v with VBool _ => true | _ => false end |}.

(** ** Reading and writing values *)

Definition bytes_of (s : string) : list Z := map byte_of (list_ascii_of_string s).
Lemma byte_char_of c : byte_char (byte_of c) = c.
Proof. unfold byte_char, byte_of. rewrite N2Z.id. apply ascii_N_embedding. Qed.
Lemma text_of_bytes s : text_of (bytes_of s) = s.
Proof. unfold text_of, bytes_of. induction s as [|c s IH]; [done|]. cbn. by rewrite IH, byte_char_of. Qed.

(** [Value::as_object], [Value::get], [Value::as_str], [Value::as_u64]. *)
Definition as_object (v : Value) : option (list (string * Value)) :=
  match v with VObject l => Some l | _ => None end.
Definition value_get (key : string) (v : Value) : option Value :=
  l ← as_object v; map_get key l.
(** [value[key]], with [Null] for what is absent. *)
Definition value_index (key : string) (v : Value) : Value := default VNull (value_get key v).
Definition is_null (v : Value) : bool := match v with VNull => true | _ => false end.
Definition value_as_array (v : Value) : option (list Value) :=
  match v with VArray l => Some l | _ => None end.
Definition value_as_u64 (v : Value) : option Z :=
  match v with VNumber n => number_as_u64 n | _ => None end.

Definition value_as_str (v : Value) : option string :=
  match v with VString s => Some s | _ => None end.

(** ** External references *)

Definition forbidden_reference (key : string) (v : Value) : bool :=
  (bool_decide (key ∈ ["$ref"; "$dynamicRef"; "$recursiveRef"])
   && negb match value_as_str v with Some r => starts_with "#" r | None => false end)
  || (str_eqb key "$schema"
      && negb (bool_decide (value_as_str v = Some "https://json-schema.org/draft/2020-12/schema"))).

(** [reject_external_references]: [true] when it succeeds. *)
Fixpoint no_external_references (v : Value) : bool :=
  match v with
  | VObject l =>
      (fix go (l : list (string * Value)) := match l with
        | [] => true
        | (k, x) :: r => negb (forbidden_reference k x) && no_external_references x && go r
        end) l
  | VArray l =>
      (fix go (l : list Value) := match l with
        | [] => true
        | x :: r => no_external_references x && go r
        end) l
  | _ => true
  end.

(** [compile_template_schema]: whether it returns a validator. *)
Definition compile_template_schema (definition : Value) : bool :=
  no_external_references definition && schema_builds definition.

(** ** Values that canonicalise alike *)

(** Equality of values up to numbers that have the same canonical text. *)
Inductive same_json : Value -> Value -> Prop :=
  | sj_null : same_json VNull VNull
  | sj_bool b : same_json (VBool b) (VBool b)
  | sj_number n m : jcs (VNumber n) = jcs (VNumber m) -> same_json (VNumber n) (VNumber m)
  | sj_string s : same_json (VString s) (VString s)
  | sj_array l l' : Forall2 same_json l l' -> same_json (VArray l) (VArray l')
  | sj_object l l' :
      Forall2 (fun a b => a.1 = b.1 /\ same_json a.2 b.2) l l' ->
      same_json (VObject l) (VObject l').

(** RFC 8785: a canonical text determines its value, up to such numbers. *)
Definition jcs_separates (v w : Value) : Prop := jcs v = jcs w -> same_json v w.

End WithSerde.

(** ** A parsed value has no duplicate key *)

Fixpoint sorted_keys {A} (l : list (string * A)) : Prop :=
  match l with
  | [] => True
  | (k, _) :: r => (forall k', k' ∈ keys r -> String.compare k k' = Lt) /\ sorted_keys r
  end.
Inductive unique_keys {N} : JValue N -> Prop :=
  | uk_null : unique_keys VNull
  | uk_bool b : unique_keys (VBool b)
  | uk_number n : unique_keys (VNumber n)
  | uk_string s : unique_keys (VString s)
  | uk_array l : Forall unique_keys l -> unique_keys (VArray l)
  | uk_object l : sorted_keys l -> Forall (fun kv => unique_keys kv.2) l -> unique_keys (VObject l).

Lemma insert_entry_perm {A} k (v : A) l l' : insert_entry k v l = Some l' -> l' ≡ₚ (k, v) :: l.
Proof.
  revert l'. induction l as [|[k1 v1] l IH]; intros l'; cbn; [by intros; simplify_eq|].
  destruct (String.compare k k1); [done|by intros; simplify_eq|].
  destruct (insert_entry k v l) as [r|]; [|done]. cbn. intros; simplify_eq.
  rewrite (IH r) by done. by rewrite Permutation_swap.
Qed.

Lemma string_compare_trans a b c :
  String.compare a b = Lt -> String.compare b c = Lt -> String.compare a c = Lt.
Proof.
  revert b c. induction a as [|x a IH]; intros [|y b] [|z c]; cbn; try done.
  destruct (Ascii.compare x y) eqn:E1, (Ascii.compare y z) eqn:E2; try done;
    unfold Ascii.compare in *;
    rewrite ?N.compare_eq_iff, ?N.compare_lt_iff in *; intros H1 H2.
  - replace (N_of_ascii x ?= N_of_ascii z)%N with Eq by (symmetry; rewrite N.compare_eq_iff; congruence).
    eauto.
  - replace (N_of_ascii x ?= N_of_ascii z)%N with Lt by (symmetry; rewrite N.compare_lt_iff; lia). done.
  - replace (N_of_ascii x ?= N_of_ascii z)%N with Lt by (symmetry; rewrite N.compare_lt_iff; lia). done.
  - replace (N_of_ascii x ?= N_of_ascii z)%N with Lt by (symmetry; rewrite N.compare_lt_iff; lia). done.
Qed.

Lemma insert_entry_sorted {A} k (v : A) l l' :
  sorted_keys l -> insert_entry k v l = Some l' -> sorted_keys l'.
Proof.
  revert l'. induction l as [|[k1 v1] l IH]; intros l'.
  - cbn. intros _ ?. simplify_eq. cbn. split; [|done]. intros k' Hk. by apply elem_of_nil in Hk.
  - cbn [insert_entry sorted_keys]. intros [Hk Hs]. destruct (String.compare k k1) eqn:E; [done| |].
    + intros ?; simplify_eq. cbn [sorted_keys]. split; [|done]. intros k' Hk'.
      unfold keys in Hk'. cbn in Hk'. apply elem_of_cons in Hk' as [->|Hk']; [done|].
      eapply string_compare_trans; [exact E|]. by apply Hk.
    + destruct (insert_entry k v l) as [r|] eqn:Er; [|done]. cbn. intros ?; simplify_eq.
      cbn [sorted_keys]. split; [|by apply IH]. intros k' Hk'. unfold keys in Hk'.
      rewrite (insert_entry_perm _ _ _ _ Er) in Hk'. cbn in Hk'.
      apply elem_of_cons in Hk' as [->|Hk']; [|by apply Hk].
      rewrite String.compare_antisym, E. done.
Qed.

Lemma insert_all_spec {A} (l l' : list (string * A)) :
  insert_all l = Some l' -> sorted_keys l' /\ l' ≡ₚ l.
Proof.
  unfold insert_all. assert (H : forall acc, sorted_keys acc ->
    fold_left (fun acc kv => m ← acc; insert_entry kv.1 kv.2 m) l (Some acc) = Some l' ->
    sorted_keys l' /\ l' ≡ₚ l ++ acc).
  { induction l as [|[k v] l IH]; intros acc Hacc; cbn [fold_left].
    - intros; simplify_eq. done.
    - cbn [mbind option_bind fst snd]. destruct (insert_entry k v acc) as [m|] eqn:E.
      + intros H. destruct (IH m) as [Hs Hp]; [by eapply insert_entry_sorted|done|].
        split; [done|]. rewrite Hp, (insert_entry_perm _ _ _ _ E). by rewrite <- Permutation_middle.
      + intros H. exfalso. clear -H. induction l as [|x l IH]; cbn in H; [done|auto]. }
  intros E. destruct (H [] I E) as [Hs Hp]. by rewrite app_nil_r in Hp.
Qed.

(** Every object at every depth has distinct keys. *)
Inductive distinct_keys {N} : JsonEvents N -> Prop :=
  | dk_null : distinct_keys EvNull
  | dk_bool b : distinct_keys (EvBool b)
  | dk_number n : distinct_keys (EvNumber n)
  | dk_string s : distinct_keys (EvString s)
  | dk_seq l : Forall distinct_keys l -> distinct_keys (EvSeq l)
  | dk_map l : NoDup (keys l) -> Forall (fun kv => distinct_keys kv.2) l -> distinct_keys (EvMap l).

Section EventsInduction.
Context {N : Type} (P : JsonEvents N -> Prop).
Context (Hnull : P EvNull) (Hbool : forall b, P (EvBool b)) (Hnum : forall n, P (EvNumber n))
  (Hstr : forall s, P (EvString s)) (Hseq : forall l, Forall P l -> P (EvSeq l))
  (Hmap : forall l, Forall (fun kv => P kv.2) l -> P (EvMap l)).
Fixpoint events_ind' (e : JsonEvents N) : P e :=
  match e with
  | EvNull => Hnull
  | EvBool b => Hbool b
  | EvNumber n => Hnum n
  | EvString s => Hstr s
  | EvSeq l => Hseq l ((fix go l : Forall P l := match l with
      | [] => @List.Forall_nil _ _ | x :: r => @List.Forall_cons _ _ _ _ (events_ind' x) (go r) end) l)
  | EvMap l => Hmap l ((fix go l : Forall (fun kv => P kv.2) l := match l with
      | [] => @List.Forall_nil _ _
      | kv :: r => @List.Forall_cons _ _ _ _ (events_ind' kv.2) (go r) end) l)
  end.
End EventsInduction.

(** The loops of [unique_value] as [mapM]. *)
Lemma unique_seq {N} (l : list (JsonEvents N)) :
  unique_value (EvSeq l) = VArray <$> mapM unique_value l.
Proof.
  cbn. match goal with |- mbind _ ?x = _ => assert (x = mapM unique_value l) as -> end.
  { induction l as [|x l IH]; [done|]. cbn. destruct (unique_value x); [|done]. cbn.
    rewrite IH. by destruct (mapM _ l). }
  by destruct (mapM _ l).
Qed.
Definition unique_entry {N} (kv : string * JsonEvents N) : option (string * JValue N) :=
  (fun v => (kv.1, v)) <$> unique_value kv.2.
Lemma unique_map {N} (l : list (string * JsonEvents N)) :
  unique_value (EvMap l) = values ← mapM unique_entry l; VObject <$> insert_all values.
Proof.
  cbn. match goal with |- mbind _ ?x = _ => assert (x = mapM unique_entry l) as -> end.
  { induction l as [|[k x] l IH]; [done|]. cbn. unfold unique_entry at 1. cbn.
    destruct (unique_value x); [|done]. cbn. rewrite IH. by destruct (mapM _ l). }
  destruct (mapM _ l) as [vs|]; [|done]. cbn. by destruct (insert_all vs).
Qed.

Lemma string_compare_refl s : String.compare s s = Eq.
Proof. induction s as [|c s IH]; [done|]. cbn. unfold Ascii.compare. by rewrite N.compare_refl. Qed.
Lemma sorted_keys_NoDup {A} (l : list (string * A)) : sorted_keys l -> NoDup (keys l).
Proof.
  induction l as [|[k v] l IH]; unfold keys in *; cbn; [constructor|]. intros [Hk Hs].
  constructor; [|auto]. intros Hin. specialize (Hk k Hin).
  by rewrite string_compare_refl in Hk.
Qed.

Lemma insert_entry_Some {A} k (v : A) l : k ∉ keys l -> is_Some (insert_entry k v l).
Proof.
  induction l as [|[k1 v1] l IH]; cbn; [done|]. unfold keys in *. cbn.
  intros [Hne Hn]%not_elem_of_cons. destruct (String.compare k k1) eqn:E; [|done|].
  - by apply String.compare_eq_iff in E.
  - destruct (IH Hn) as [r ->]. done.
Qed.
Lemma insert_all_NoDup {A} (l : list (string * A)) : NoDup (keys l) -> is_Some (insert_all l).
Proof.
  unfold insert_all. assert (H : forall acc, NoDup (keys l) -> (forall k, k ∈ keys l -> k ∉ keys acc) ->
    is_Some (fold_left (fun acc kv => m ← acc; insert_entry kv.1 kv.2 m) l (Some acc))).
  { induction l as [|[k v] l IH]; intros acc; [done|]. unfold keys in *. cbn.
    intros [Hk Hl]%NoDup_cons Hd. destruct (insert_entry_Some k v acc) as [m Hm]; [apply Hd; left|].
    rewrite Hm. apply IH; [done|]. intros k' Hk'. rewrite (insert_entry_perm _ _ _ _ Hm). cbn.
    rewrite not_elem_of_cons. split; [by intros ->|]. apply Hd. by right. }
  intros Hn. apply H; [done|]. intros k _. apply not_elem_of_nil.
Qed.

Lemma keys_unique_entries {N} (l : list (string * JsonEvents N)) vs :
  mapM unique_entry l = Some vs -> keys vs = keys l.
Proof.
  intros H%mapM_Some. induction H as [|[k x] [k' v] l vs E _ IH]; [done|].
  unfold unique_entry in E. cbn in E. destruct (unique_value x); [|done]. cbn in E. simplify_eq.
  unfold keys in *. cbn. by rewrite IH.
Qed.

(** Parsing accepts exactly the texts whose objects have distinct keys at every
    depth, and gives objects in strict key order: no two readers of an accepted
    body can disagree about a repeated key. *)
Theorem parse_unique_exact {N} (e : JsonEvents N) :
  match unique_value e with
  | Some v => distinct_keys e /\ unique_keys v
  | None => ~ distinct_keys e
  end.
Proof.
  induction e as [|b|n|s|l IH|l IH] using events_ind'; try (cbn; split; constructor).
  - rewrite unique_seq. destruct (mapM unique_value l) as [vs|] eqn:E; cbn.
    + apply mapM_Some in E. assert (Forall distinct_keys l /\ Forall unique_keys vs) as [H1 H2].
      { induction E as [|x v l vs Ex _ IHl]; [by repeat constructor|].
        apply Forall_cons in IH as [Hx IH]. rewrite Ex in Hx. destruct Hx, (IHl IH).
        split; by constructor. }
      split; by constructor.
    + intros D. inversion D as [| | | |? Hl|]; subst. apply mapM_None in E.
      rewrite Exists_exists in E. destruct E as (x & Hx & E).
      rewrite Forall_forall in IH, Hl. specialize (IH x Hx). rewrite E in IH. by apply IH, Hl.
  - rewrite unique_map. destruct (mapM unique_entry l) as [vs|] eqn:E; cbn.
    + pose proof (keys_unique_entries _ _ E) as Hk. apply mapM_Some in E.
      assert (Forall (fun kv => distinct_keys kv.2) l /\ Forall (fun kv => unique_keys kv.2) vs) as [H1 H2].
      { clear Hk. induction E as [|[k x] [k' v] l vs Ex _ IHl]; [by repeat constructor|].
        apply Forall_cons in IH as [Hx IH]. unfold unique_entry in Ex. cbn in *.
        destruct (unique_value x); [|done]. cbn in Ex. simplify_eq. destruct Hx, (IHl IH).
        split; by constructor. }
      destruct (insert_all vs) as [m|] eqn:Em; cbn.
      * apply insert_all_spec in Em as [Hs Hp]. split.
        -- constructor; [|done]. rewrite <- Hk. unfold keys. rewrite <- Hp. by apply sorted_keys_NoDup.
        -- constructor; [done|]. by rewrite Hp.
      * intros D. inversion D as [| | | | |? Hn _]; subst. rewrite <- Hk in Hn.
        destruct (insert_all_NoDup vs Hn) as [m Hm]. congruence.
    + intros D. inversion D as [| | | | |? _ Hl]; subst. apply mapM_None in E.
      rewrite Exists_exists in E. destruct E as ([k x] & Hx & E).
      rewrite Forall_forall in IH, Hl. specialize (IH _ Hx). unfold unique_entry in E. cbn in *.
      destruct (unique_value x); [done|]. by apply IH, (Hl _ Hx).
Qed.

(** ** Inserting into a map *)

Lemma insert_entry_fresh {A} k (v : A) l l' :
  insert_entry k v l = Some l' -> map_insert k v l = l'.
Proof.
  revert l'. induction l as [|[k1 v1] l IH]; intros l'; cbn; [by intros; simplify_eq|].
  destruct (String.compare k k1); [done|by intros; simplify_eq|].
  destruct (insert_entry k v l) as [r|]; [|done]. cbn. intros; simplify_eq. by rewrite (IH r).
Qed.

Lemma map_get_insert {A} k (v : A) l : map_get k (map_insert k v l) = Some v.
Proof.
  induction l as [|[k1 v1] l IH]; [unfold map_get; cbn; unfold str_eqb; by rewrite bool_decide_eq_true_2|].
  cbn [map_insert]. destruct (String.compare k k1) eqn:E; unfold map_get in *; cbn [find_map]; unfold str_eqb.
  - apply String.compare_eq_iff in E. subst. by rewrite bool_decide_eq_true_2.
  - by rewrite bool_decide_eq_true_2.
  - rewrite bool_decide_eq_false_2; [exact IH|]. intros ->. by rewrite string_compare_refl in E.
Qed.

Lemma map_get_cons {A} k k' (v : A) l :
  map_get k ((k', v) :: l) = if bool_decide (k' = k) then Some v else map_get k l.
Proof. unfold map_get. cbn. unfold str_eqb. by case_bool_decide. Qed.

Lemma map_get_insert_ne {A} k k' (v : A) l : k <> k' -> map_get k (map_insert k' v l) = map_get k l.
Proof.
  intros Hne. induction l as [|[k1 v1] l IH]; cbn [map_insert].
  - rewrite map_get_cons. by case_bool_decide.
  - destruct (String.compare k' k1) eqn:E; rewrite !map_get_cons.
    + apply String.compare_eq_iff in E. subst. by case_bool_decide.
    + by case_bool_decide.
    + by rewrite IH.
Qed.

Section ParsedObjects.
Context {SJ : Serde}.

(** What parsing an object gives. *)
Lemma parse_object original object :
  parse_unique_json original = Ok (VObject object) ->
  exists l vs, deserialize_any original = Some (EvMap l) /\ mapM unique_entry l = Some vs /\
               insert_all vs = Some object.
Proof.
  unfold parse_unique_json. destruct (deserialize_any original) as [e|] eqn:E; [|done].
  cbn [mbind option_bind]. destruct e as [|b|n|s|l|l]; try done.
  - rewrite unique_seq. by destruct (mapM _ l).
  - rewrite unique_map. destruct (mapM unique_entry l) as [vs|] eqn:Em; [|done].
    cbn [mbind option_bind]. destruct (insert_all vs) as [m|] eqn:Ei; [|done].
    cbn. intros; simplify_eq. eauto.
Qed.

Lemma insert_all_snoc {A} (vs : list (string * A)) m k v :
  insert_all vs = Some m -> k ∉ keys m -> insert_all (vs ++ [(k, v)]) = Some (map_insert k v m).
Proof.
  unfold insert_all. intros E Hk. rewrite fold_left_app, E. cbn.
  destruct (insert_entry_Some k v m Hk) as [m' Hm']. rewrite Hm'. by rewrite (insert_entry_fresh _ _ _ _ Hm').
Qed.

(** Appending a fresh entry to a parsed object. *)
Lemma parse_object_snoc original original' object l k n :
  parse_unique_json original = Ok (VObject object) ->
  deserialize_any original = Some (EvMap l) ->
  deserialize_any original' = Some (EvMap (l ++ [(k, EvNumber n)])) ->
  map_get k object = None ->
  parse_unique_json original' = Ok (VObject (map_insert k (VNumber n) object)).
Proof.
  intros P D D' Hk. apply parse_object in P as (l' & vs & E & Em & Ei).
  rewrite D in E. injection E as <-. unfold parse_unique_json. rewrite D'. cbn [mbind option_bind].
  rewrite unique_map. assert (mapM unique_entry (l ++ [(k, EvNumber n)]) =
    Some (vs ++ [(k, VNumber n)])) as ->.
  { apply mapM_Some. apply Forall2_app; [by apply mapM_Some|]. by repeat constructor. }
  cbn [mbind option_bind]. apply map_get_None in Hk. by rewrite (insert_all_snoc _ _ _ _ Ei Hk).
Qed.
End ParsedObjects.

(** ** A concrete instance *)

(** A printer of values and a parser that reads every body as one string. *)
Fixpoint print_value (v : JValue Z) : list Z :=
  match v with
  | VNull => [110]
  | VBool b => [if b then 116 else 102]
  | VNumber n => [35; n]
  | VString s => 34 :: bytes_of s ++ [34]
  | VArray l => 91 :: concat (map print_value l) ++ [93]
  | VObject l =>
      123 :: concat (map (fun kv => 34 :: bytes_of kv.1 ++ 34 :: 58 :: print_value kv.2) l) ++ [125]
  end.

Definition number_text (n : Z) : string :=
  let digits := fun m => dec_digits (S (Z.to_nat (Z.log2 m))) m EmptyString in
  if n <? 0 then String "-" (digits (- n)) else digits n.

(** The instance that reads the bodies of a table. *)
Definition table_serde (table : list Z -> option (JsonEvents Z)) : Serde := {|
  Number := Z;
  deserialize_any := table;
  from_slice := fun b => e ← table b; unique_value e;
  jcs := fun v => Some (print_value v);
  canonical_number := fun t => Some t;
  schema_builds := fun _ => true;
  schema_valid := fun _ _ => true;
  declared_schema_builds := fun _ => true;
  declared_schema_valid := fun _ _ => true;
  number_as_u64 := fun n => if 0 <=? n then Some n else None;
  number_from_u64 := fun n => n;
  number_to_string := number_text |}.
Definition model_serde : Serde := table_serde (fun b => Some (EvString (text_of b))).

Lemma table_serde_laws table : SerdeLaws (H := table_serde table).
Proof. split. intros n Hn. cbn. case_match; [done|]. reflect_bools. lia. Qed.
