(* ===== verification/Llm.v ===== *)
(** * Llm: the output ceiling of model calls

    [rekey-policy/src/lib.rs]: the provider protocols, [normalize_profile_llm_body],
    which pins the model and the output ceiling of a request body, and
    [profile_llm_output_value], which reads the tokens a response used. A body is
    rewritten in place: the ceiling is inserted as text before the closing brace
    and as an entry of the parsed value. *)

From S2P Require Import Prelude Strings Errors Domain FixedAction Decimal Json.

Inductive ProfileLlmProtocol : Type :=
  | AnthropicMessages | OpenAiChat | OpenAiResponses | Embeddings | CountTokens | Models.

#[export] Instance ProfileLlmProtocol_eq_dec : EqDecision ProfileLlmProtocol.
Proof. solve_decision. Defined.

(** [connection_llm_protocol]. *)
Definition connection_llm_protocol (path : string) : option ProfileLlmProtocol :=
  if bool_decide (path ∈ ["/v1/messages"; "/api/anthropic/v1/messages"])
  then Some AnthropicMessages
  else if str_eqb path "/v1/messages/count_tokens" then Some CountTokens
  else if bool_decide (path ∈ ["/v1/chat/completions"; "/api/v1/chat/completions";
                               "/compatible-mode/v1/chat/completions";
                               "/v1beta/openai/chat/completions"])
  then Some OpenAiChat
  else if bool_decide (path ∈ ["/v1/responses"; "/api/v1/responses"]) then Some OpenAiResponses
  else if str_eqb path "/v1/embeddings" then Some Embeddings
  else if bool_decide (path ∈ ["/v1/models"; "/api/v1/models"; "/v1beta/openai/models"])
  then Some Models
  else None.

Record ProfileBody := mkProfileBody {
  pb_model : option string;
  pb_bytes : list Z;
  pb_maximum : option Z;
  pb_streaming : bool;
}.

(** [u8::is_ascii_whitespace]. *)
Definition is_ascii_whitespace (b : Z) : bool := bool_decide (b ∈ [32; 9; 10; 12; 13]).

Section WithSerde.
Context {SJ : Serde}.

Abbreviation Value := (JValue Number).
Abbreviation Object := (list (string * Value)).

(** ** Requests *)

(** The field that carries the ceiling, with the checks on its alternatives. *)
Definition ceiling_field (protocol : ProfileLlmProtocol) (max_tokens_only : bool)
    (object : Object) : result PolicyError string :=
  match protocol with
  | AnthropicMessages => Ok "max_tokens"
  | OpenAiResponses =>
      reject_if match map_get "background" object with
                | Some (VBool false) | None => false
                | Some _ => true
                end with InvalidParameters ;;
      Ok "max_output_tokens"
  | OpenAiChat =>
      reject_if match map_get "n" object with
                | Some n => negb (bool_decide (value_as_u64 n = Some 1))
                | None => false
                end
                || (contains_key "max_completion_tokens" object
                    && (max_tokens_only || contains_key "max_tokens" object))
        with InvalidParameters ;;
      Ok (if max_tokens_only || contains_key "max_tokens" object
          then "max_tokens" else "max_completion_tokens")
  | _ => Err InvalidParameters
  end.

(** The property as text, and its insertion before the root's closing brace. *)
Definition ceiling_property (first : bool) (field : string) (ceiling : Z) : list Z :=
  (if first then [] else [44]) ++ 34 :: bytes_of field ++ [34; 58] ++ bytes_of (dec ceiling).
Definition insert_property (original : list Z) (object : Object) (field : string) (ceiling : Z)
  : result PolicyError (list Z) :=
  end_ ← ok_or InvalidParameters (rposition (fun b => negb (is_ascii_whitespace b)) original);
  reject_if negb (bool_decide (original !! end_ = Some 125)) with InvalidParameters ;;
  Ok (take end_ original ++ ceiling_property (bool_decide (object = [])) field ceiling
      ++ drop end_ original).

Definition stream_flag (object : Object) : result PolicyError bool :=
  match map_get "stream" object with
  | None | Some (VBool false) => Ok false
  | Some (VBool true) => Ok true
  | Some _ => Err InvalidParameters
  end.

(** The last part of [normalize_profile_llm_body], for a generating protocol. *)
Definition apply_ceiling (limits : ProfileLlmLimit) (original : list Z) (object : Object)
    (model : string) (streaming : bool) (field : string)
  : result PolicyError (ProfileBody * Value) :=
  let ceiling := max_output_tokens_per_request limits in
  reject_if ceiling =? 0 with InvalidParameters ;;
  match map_get field object with
  | Some maximum =>
      maximum ← ok_or InvalidParameters
        (n ← value_as_u64 maximum; if (0 <? n) && (n <=? ceiling) then Some n else None);
      Ok (mkProfileBody (Some model) original (Some maximum) streaming, VObject object)
  | None =>
      body ← insert_property original object field ceiling;
      Ok (mkProfileBody (Some model) body (Some ceiling) streaming,
          VObject (map_insert field (VNumber (number_from_u64 ceiling)) object))
  end.

(** [normalize_profile_llm_body], with the value it leaves behind. *)
Definition normalize_profile_llm_body (protocol : ProfileLlmProtocol) (limits : ProfileLlmLimit)
    (original : list Z) (value : Value) (max_tokens_only : bool)
  : result PolicyError (ProfileBody * Value) :=
  if bool_decide (protocol = Models) then
    if bool_decide (original = []) then Ok (mkProfileBody None [] None false, value)
    else Err InvalidParameters
  else
    object ← ok_or InvalidParameters (as_object value);
    model ← ok_or InvalidParameters (m ← map_get "model" object; value_as_str m);
    reject_if negb (existsb (fun allowed => str_eqb allowed model) (models limits))
      with InvalidParameters ;;
    streaming ← stream_flag object;
    if bool_decide (protocol = Embeddings) || bool_decide (protocol = CountTokens) then
      if streaming : bool then Err InvalidParameters
      else Ok (mkProfileBody (Some model) original None false, value)
    else
      field ← ceiling_field protocol max_tokens_only object;
      apply_ceiling limits original object model streaming field.

(** ** Responses *)

(** [parse_profile_llm_event], [profile_llm_output_value] and
    [profile_llm_output_tokens]. *)
Definition nonempty_str (v : Value) : option unit :=
  s ← value_as_str v; if is_empty_str s then None else Some tt.
Definition output_field (protocol : ProfileLlmProtocol) (value : Value) : option string :=
  match protocol with
  | AnthropicMessages =>
      kind ← (t ← value_get "type" value; value_as_str t);
      if negb (str_eqb kind "message") then None
      else _ ← (r ← value_get "stop_reason" value; nonempty_str r); Some "output_tokens"
  | OpenAiChat =>
      kind ← (t ← value_get "object" value; value_as_str t);
      if negb (str_eqb kind "chat.completion") then None
      else
        choices ← (c ← value_get "choices" value; value_as_array c);
        match choices with
        | [choice] =>
            _ ← (r ← value_get "finish_reason" choice; nonempty_str r);
            Some "completion_tokens"
        | _ => None
        end
  | OpenAiResponses =>
      status ← (s ← value_get "status" value; value_as_str s);
      if str_eqb status "completed" || str_eqb status "incomplete" then Some "output_tokens"
      else None
  | _ => None
  end.
Definition profile_llm_output_value (protocol : ProfileLlmProtocol) (value : Value) : option Z :=
  field ← output_field protocol value;
  usage ← value_get "usage" value;
  tokens ← value_get field usage;
  n ← value_as_u64 tokens;
  if n <=? i64_max then Some n else None.
Definition parse_profile_llm_event (bytes : list Z) : result PolicyError Value :=
  parse_unique_json bytes.
Definition profile_llm_output_tokens (protocol : ProfileLlmProtocol) (body : list Z) : option Z :=
  match parse_profile_llm_event body with
  | Ok parsed => profile_llm_output_value protocol parsed
  | Err _ => None
  end.

End WithSerde.

(** ** The ceiling holds for what the provider parses *)

Section Ceiling.
Context {SJ : Serde} {SL : SerdeLaws}.

(** The JSON grammar, for the body at hand: a property put before the root's
    closing brace is the last entry of the object. *)
Definition CEILING_FIELDS : list string :=
  ["max_tokens"; "max_completion_tokens"; "max_output_tokens"].
Definition insertable (original : list Z) : Prop :=
  forall l pre ws field n,
  original = pre ++ 125 :: ws -> Forall (fun b => is_ascii_whitespace b = true) ws ->
  deserialize_any original = Some (EvMap l) -> field ∈ CEILING_FIELDS -> 0 <= n <= u32_max ->
  deserialize_any (pre ++ ceiling_property (bool_decide (l = [])) field n ++ 125 :: ws)
    = Some (EvMap (l ++ [(field, EvNumber (number_from_u64 n))])).

(** The fields a provider reads a ceiling from. *)
Definition honoured (protocol : ProfileLlmProtocol) : list string :=
  match protocol with
  | AnthropicMessages => ["max_tokens"]
  | OpenAiChat => ["max_tokens"; "max_completion_tokens"]
  | OpenAiResponses => ["max_output_tokens"]
  | _ => []
  end.
Definition generating (protocol : ProfileLlmProtocol) : bool :=
  bool_decide (protocol ∈ [AnthropicMessages; OpenAiChat; OpenAiResponses]).

Lemma insert_property_parses original object field ceiling body :
  insertable original -> parse_unique_json original = Ok (VObject object) ->
  field ∈ CEILING_FIELDS -> 0 <= ceiling <= u32_max -> map_get field object = None ->
  insert_property original object field ceiling = Ok body ->
  parse_unique_json body = Ok (VObject (map_insert field (VNumber (number_from_u64 ceiling)) object)).
Proof.
  intros I P Hf Hc Hn. unfold insert_property.
  destruct (rposition _ original) as [i|] eqn:E; [|done]. cbn [ok_or mbind result_bind].
  destruct (negb _) eqn:E1; [done|]. reflect_bools. intros [= <-].
  apply rposition_Some in E as (pre & x & ws & -> & <- & Hx & Hws).
  rewrite list_lookup_middle in E1 by done. injection E1 as ->.
  rewrite take_app_length, drop_app_length.
  destruct (parse_object _ _ P) as (l & vs & D & Em & Ei).
  assert (bool_decide (object = []) = bool_decide (l = [])) as ->.
  { apply insert_all_spec in Ei as [_ Hp]. apply mapM_Some, Forall2_length in Em. apply bool_decide_ext.
    apply Permutation_length in Hp. destruct object, l; cbn in *; try done; lia. }
  eapply parse_object_snoc; [exact P|exact D| |done].
  apply I; try done. eapply Forall_impl; [exact Hws|]. intros b Hb. cbn in Hb. by apply negb_false_iff in Hb.
Qed.

Lemma ceiling_field_only protocol mto object field :
  ceiling_field protocol mto object = Ok field ->
  field ∈ honoured protocol /\ field ∈ CEILING_FIELDS /\
  (forall f, f ∈ honoured protocol -> f <> field -> map_get f object = None) /\
  (protocol = OpenAiChat -> forall x, map_get "n" object = Some x -> value_as_u64 x = Some 1) /\
  (protocol = OpenAiResponses -> forall x, map_get "background" object = Some x -> x = VBool false).
Proof.
  destruct protocol; cbn [ceiling_field]; try done.
  - intros [= <-]. split; [left|]. split; [left|]. split_and!; try done.
    intros f ->%list_elem_of_singleton Hn. by destruct Hn.
  - destruct (match map_get "n" object with Some _ => _ | None => _ end) eqn:En; [done|].
    destruct (_ && _) eqn:E; [done|]. cbn [orb]. intros [= <-].
    assert (Hc : forall f, contains_key f object = false -> map_get f object = None).
    { intros f. unfold contains_key. by destruct (map_get f object). }
    split_and!; try done.
    + destruct (mto || _); [left|right; left].
    + destruct (mto || _); [left|right; left].
    + intros f [->|[->|Hf]%elem_of_cons]%elem_of_cons; [..|by apply elem_of_nil in Hf];
        intros Hne; apply Hc;
        destruct (contains_key "max_completion_tokens" object), mto,
                 (contains_key "max_tokens" object); done.
    + intros _ x Hx. rewrite Hx in En. by reflect_bools.
  - destruct (match map_get "background" object with Some _ => _ | None => _ end) eqn:Eb; [done|].
    intros [= <-]. split; [left|]. split; [right; right; left|]. split_and!; try done.
    + intros f ->%list_elem_of_singleton Hn. by destruct Hn.
    + intros _ x Hx. rewrite Hx in Eb. by destruct x as [|[]| | | |].
Qed.

Lemma stream_flag_sound object b :
  stream_flag object = Ok b -> (b = true <-> map_get "stream" object = Some (VBool true)).
Proof. unfold stream_flag. destruct (map_get "stream" object) as [[|[]| | | |]|]; intros; by simplify_eq. Qed.

(** What the provider reads in the normalised body [object]. *)
Record ceiling_ok (protocol : ProfileLlmProtocol) (limits : ProfileLlmLimit) (pb : ProfileBody)
    (object : list (string * JValue Number)) : Prop := {
  ce_model : exists m, pb_model pb = Some m /\ m ∈ models limits /\
    map_get "model" object = Some (VString m);
  ce_maximum : exists n, pb_maximum pb = Some n /\
    0 < n <= max_output_tokens_per_request limits /\
    exists field, field ∈ honoured protocol /\
      (exists x, map_get field object = Some x /\ value_as_u64 x = Some n) /\
      forall f, f ∈ honoured protocol -> f <> field -> map_get f object = None;
  ce_stream : pb_streaming pb = true <-> map_get "stream" object = Some (VBool true);
  ce_single : protocol = OpenAiChat -> forall x, map_get "n" object = Some x ->
    value_as_u64 x = Some 1;
  ce_foreground : protocol = OpenAiResponses -> forall x, map_get "background" object = Some x ->
    x = VBool false;
}.

Lemma apply_ceiling_ok limits original object model streaming field pb v :
  0 <= max_output_tokens_per_request limits <= u32_max ->
  insertable original -> parse_unique_json original = Ok (VObject object) ->
  field ∈ CEILING_FIELDS ->
  apply_ceiling limits original object model streaming field = Ok (pb, v) ->
  exists object' n x, v = VObject object' /\ parse_unique_json (pb_bytes pb) = Ok v /\
    pb_model pb = Some model /\ pb_streaming pb = streaming /\ pb_maximum pb = Some n /\
    0 < n <= max_output_tokens_per_request limits /\
    map_get field object' = Some x /\ value_as_u64 x = Some n /\
    forall f, f <> field -> map_get f object' = map_get f object.
Proof.
  intros Hc I P Hf. unfold apply_ceiling. destruct (_ =? 0) eqn:E0; [done|]. reflect_bools.
  destruct (map_get field object) as [x|] eqn:Ex.
  - destruct (value_as_u64 x) as [n|] eqn:En; [|done]. cbn [mbind option_bind].
    destruct (_ && _) eqn:E; [|done]. cbn. intros; simplify_eq. reflect_bools.
    exists object, n, x. by split_and!.
  - destruct (insert_property _ _ _ _) as [body|] eqn:Eb; [|done]. cbn. intros; simplify_eq.
    eexists _, _, _. split; [done|]. split_and!; try done; try lia.
    + cbn. by eapply insert_property_parses.
    + apply map_get_insert.
    + cbn. apply number_from_u64_as. unfold u32_max, u64_max in *. lia.
    + intros f Hne. by apply map_get_insert_ne.
Qed.

(** [normalize_profile_llm_body] enforces the ceiling; the properties of profile
    calls and connections apply this lemma. *)
Lemma normalize_enforces_ceiling protocol limits original v mto pb v' :
  generating protocol = true -> 0 <= max_output_tokens_per_request limits <= u32_max ->
  parse_unique_json original = Ok v -> insertable original ->
  normalize_profile_llm_body protocol limits original v mto = Ok (pb, v') ->
  exists object, v' = VObject object /\ parse_unique_json (pb_bytes pb) = Ok v' /\
                 ceiling_ok protocol limits pb object.
Proof.
  intros G Hc P I. unfold generating in G. reflect_bools. unfold normalize_profile_llm_body.
  rewrite bool_decide_eq_false_2 by (intros ->; set_solver).
  destruct v as [| | | | |object]; try done. cbn [as_object ok_or mbind result_bind].
  destruct (map_get "model" object) as [[| | |model| |]|] eqn:Em; try done. cbn [mbind option_bind ok_or value_as_str].
  cbn [mbind result_bind]. destruct (existsb _ (models limits)) eqn:E; [|done]. cbn [negb].
  destruct (stream_flag object) as [streaming|] eqn:Es; [|done]. cbn [mbind result_bind].
  rewrite !bool_decide_eq_false_2 by (intros ->; set_solver). cbn [orb].
  destruct (ceiling_field _ _ _) as [field|] eqn:Ef; [|done]. cbn [mbind result_bind]. intros A.
  apply ceiling_field_only in Ef as (F1 & F2 & F3 & F4 & F5).
  apply apply_ceiling_ok in A as (object' & n & x & -> & Hp & Hm & Hst & Hn & Hr & Hx & Hxn & Ho); try done.
  exists object'. split; [done|]. split; [done|].
  assert (Hother : forall f, f ∉ CEILING_FIELDS -> map_get f object' = map_get f object).
  { intros f Hf. apply Ho. intros ->. by apply Hf. }
  split.
  - exists model. split; [done|]. split; [|rewrite Hother; [done|set_solver]].
    apply existsb_exists in E as (m & Hin & E). apply list_elem_of_In in Hin.
    unfold str_eqb in E. reflect_bools. by subst.
  - exists n. split; [done|]. split; [done|]. exists field. split; [done|]. split; [by exists x|].
    intros f Hf Hne. rewrite Ho by done. by apply F3.
  - rewrite Hst, Hother by set_solver. by apply stream_flag_sound.
  - intros Hp1 y. rewrite Hother by set_solver. by apply F4.
  - intros Hp1 y. rewrite Hother by set_solver. by apply F5.
Qed.

End Ceiling.

(** ** A concrete body *)

(** [{"model":"m"}] and the body it becomes. *)
Definition demo_llm_body : list Z := [123; 34; 109; 111; 100; 101; 108; 34; 58; 34; 109; 34; 125].
Definition demo_llm_events : list (string * JsonEvents Z) := [("model", EvString "m")].
(** A parser of this body and of the bodies it can become. *)
Definition strip (p l : list Z) : option (list Z) :=
  if bool_decide (take (length p) l = p) then Some (drop (length p) l) else None.
Definition demo_field (rest : list Z) (field : string) : option (JsonEvents Z) :=
  rest ← strip (bytes_of field ++ [34; 58]) rest;
  n ← parse_unsigned u32_max (text_of (removelast rest));
  Some (EvMap (demo_llm_events ++ [(field, EvNumber n)])).
Definition demo_llm_parser (body : list Z) : option (JsonEvents Z) :=
  if bool_decide (body = demo_llm_body) then Some (EvMap demo_llm_events)
  else rest ← strip (take 12 demo_llm_body ++ [44; 34]) body;
       find_map (demo_field rest) CEILING_FIELDS.
#[local] Instance llm_serde : Serde := table_serde demo_llm_parser.

Definition demo_llm_limit : ProfileLlmLimit := mkProfileLlmLimit "llm" ["m"] 4096 10 100000.
Definition demo_llm_value : JValue Z := VObject [("model", VString "m")].

Lemma strip_app p l : strip p (p ++ l) = Some l.
Proof. unfold strip. by rewrite take_app_length, drop_app_length, bool_decide_eq_true_2. Qed.

Lemma demo_field_reads field n :
  0 <= n <= u32_max ->
  demo_field ((bytes_of field ++ [34; 58]) ++ bytes_of (dec n) ++ [125]) field
    = Some (EvMap (demo_llm_events ++ [(field, EvNumber n)])).
Proof.
  intros Hn. unfold demo_field. rewrite strip_app. cbn [mbind option_bind].
  rewrite removelast_last, text_of_bytes, parse_unsigned_dec by (unfold u32_max in *; lia). done.
Qed.

Lemma demo_insertable : insertable demo_llm_body.
Proof.
  intros l pre ws field n E Hws D Hf Hn. assert (l = demo_llm_events) as ->.
  { vm_compute in D. by simplify_eq. }
  assert (pre = take 12 demo_llm_body /\ ws = []) as [-> ->].
  { unfold demo_llm_body in E.
    repeat (destruct pre as [|? pre]; cbn in E; [first [discriminate E|by injection E as <-]
      |injection E as <- E]).
    by destruct pre. }
  assert (Hb : take 12 demo_llm_body ++ ceiling_property (bool_decide (demo_llm_events = [])) field n
      ++ [125] = (take 12 demo_llm_body ++ [44; 34])
                 ++ (bytes_of field ++ [34; 58]) ++ bytes_of (dec n) ++ [125]).
  { unfold ceiling_property. rewrite bool_decide_eq_false_2 by done. cbn [app].
    rewrite <- !app_assoc. cbn [app].
    rewrite <- ?app_assoc. done. }
  refine (eq_trans (f_equal demo_llm_parser Hb) _). unfold demo_llm_parser.
  assert (Hne : forall rest, (take 12 demo_llm_body ++ [44; 34]) ++ rest <> demo_llm_body)
    by (intros rest; discriminate).
  rewrite bool_decide_eq_false_2 by apply Hne. rewrite strip_app.
  cbn [mbind option_bind].
  unfold CEILING_FIELDS in *. cbn [find_map].
  apply elem_of_cons in Hf as [->|Hf]; [by rewrite demo_field_reads|].
  apply elem_of_cons in Hf as [->|Hf]; [by rewrite demo_field_reads|].
  apply list_elem_of_singleton in Hf as ->. by rewrite demo_field_reads.
Qed.
