(* ===== verification/Effect.v ===== *)
(** * Effect: state, errors and panics

    The monad of the stream modules: a computation over a state [S] that can
    return early with [?] (the state reached so far is kept, because what was sent
    stays sent) or panic ([None]). *)

From S2P Require Import Prelude Errors.

Definition M (S A : Type) : Type := S -> option (result BrokerError A * S).

#[export] Instance M_ret {S} : MRet (M S) := fun A a s => Some (Ok a, s).
#[export] Instance M_bind {S} : MBind (M S) := fun A B f m s =>
  match m s with
  | None => None
  | Some (Ok a, s) => f a s
  | Some (Err e, s) => Some (Err e, s)
  end.

Definition gets {S A} (f : S -> A) : M S A := fun s => Some (Ok (f s), s).
Definition modify {S} (f : S -> S) : M S unit := fun s => Some (Ok tt, f s).
Definition raise {S A} (e : BrokerError) : M S A := fun s => Some (Err e, s).
Definition lift {S A} (r : result BrokerError A) : M S A := fun s => Some (r, s).
Definition lift_panic {S A} (o : option A) : M S A := fun s =>
  match o with Some a => Some (Ok a, s) | None => None end.
(** [if b { return Err(e) }]. *)
Definition check {S} (b : bool) (e : BrokerError) : M S unit := if b then raise e else mret tt.
(** A computation on a component of the state. *)
Definition zoom {S T A} (get : S -> T) (set : T -> S -> S) (m : M T A) : M S A := fun s =>
  match m (get s) with
  | None => None
  | Some (r, t) => Some (r, set t s)
  end.
(** A [for] loop. *)
Fixpoint each {S A} (f : A -> M S unit) (l : list A) : M S unit :=
  match l with
  | [] => mret tt
  | x :: r => _ ← f x; each f r
  end.

(** ** Total correctness

    [wp m Q E s]: run on [s], [m] does not panic, returns a value and a state in
    [Q], or stops with an error and a state in [E]. *)
Definition wp {S A} (m : M S A) (Q : A -> S -> Prop) (E : BrokerError -> S -> Prop) (s : S) : Prop :=
  match m s with
  | None => False
  | Some (Ok a, s') => Q a s'
  | Some (Err e, s') => E e s'
  end.

Section Rules.
Context {S : Type}.
Implicit Types (s : S).

Lemma wp_mono {A} (m : M S A) (Q Q' : A -> S -> Prop) (E E' : BrokerError -> S -> Prop) s :
  wp m Q E s -> (forall a s', Q a s' -> Q' a s') -> (forall e s', E e s' -> E' e s') -> wp m Q' E' s.
Proof. unfold wp. destruct (m s) as [[[a|e] s']|]; auto. Qed.
Lemma wp_bind {A B} (m : M S A) (f : A -> M S B) Q E s :
  wp m (fun a => wp (f a) Q E) E s -> wp (x ← m; f x) Q E s.
Proof. unfold wp, mbind, M_bind. by destruct (m s) as [[[a|e] s']|]. Qed.
Lemma wp_ret {A} (a : A) (Q : A -> S -> Prop) E s : Q a s -> wp (mret a) Q E s.
Proof. done. Qed.
Lemma wp_gets {A} (f : S -> A) (Q : A -> S -> Prop) E s : Q (f s) s -> wp (gets f) Q E s.
Proof. done. Qed.
Lemma wp_modify (f : S -> S) (Q : unit -> S -> Prop) E s : Q tt (f s) -> wp (modify f) Q E s.
Proof. done. Qed.
Lemma wp_raise {A} e (Q : A -> S -> Prop) (E : BrokerError -> S -> Prop) s : E e s -> wp (raise e) Q E s.
Proof. done. Qed.
Lemma wp_lift {A} (r : result BrokerError A) (Q : A -> S -> Prop) (E : BrokerError -> S -> Prop) s :
  (forall a, r = Ok a -> Q a s) -> (forall e, r = Err e -> E e s) -> wp (lift r) Q E s.
Proof. unfold wp, lift. destruct r; auto. Qed.
Lemma wp_check b e (Q : unit -> S -> Prop) (E : BrokerError -> S -> Prop) s :
  (b = true -> E e s) -> (b = false -> Q tt s) -> wp (check b e) Q E s.
Proof. intros H1 H2. unfold check. destruct b; [by apply H1|by apply H2]. Qed.
Lemma wp_zoom {T A} (get : S -> T) (set : T -> S -> S) (m : M T A) Q E s :
  wp m (fun a t => Q a (set t s)) (fun e t => E e (set t s)) (get s) -> wp (zoom get set m) Q E s.
Proof. unfold wp, zoom. by destruct (m (get s)) as [[[a|e] t]|]. Qed.
(** A loop, with an invariant that says what has been consumed. *)
Lemma wp_each {A} (f : A -> M S unit) (I : list A -> S -> Prop) E l :
  (forall done x rest s, l = done ++ x :: rest -> I done s -> wp (f x) (fun _ => I (done ++ [x])) E s) ->
  forall s, I [] s -> wp (each f l) (fun _ => I l) E s.
Proof.
  intros Hf. enough (H : forall rest done s, l = done ++ rest -> I done s ->
    wp (each f rest) (fun _ => I l) E s) by (intros s Hs; by apply (H l [])).
  induction rest as [|x rest IH]; intros done s Hl Hs; cbn [each].
  - rewrite app_nil_r in Hl. subst. by apply wp_ret.
  - apply wp_bind. eapply wp_mono; [by eapply Hf| |done]. cbn. intros _ s' Hs'.
    apply (IH (done ++ [x])); [by rewrite <- app_assoc|done].
Qed.
End Rules.
