(* ===== verification/Sealing.v ===== *)
(** * Sealing: finding a credential in what an upstream sends back

    [rekey-broker/src/executor/sealing.rs]: the encodings of a credential that a
    reflecting upstream could echo, and [contains_secret], which looks for them in
    the bytes, in their JSON and percent decodings and up to the case of percent
    escapes. The memchr crate is the class [Memchr], data_encoding the class
    [Encodings]; the projections are structural recursions, an index that jumps
    being a count of bytes to skip. *)

From S2P Require Import Prelude Strings Bytes Domain Decimal Json.

Class Memchr := {
  (** [memchr(b, h)] and [memmem::find(h, n)]. *)
  memchr : Z -> list Z -> option nat;
  memmem_find : list Z -> list Z -> option nat;
  (** [memchr2(a, b, h)]. *)
  memchr2 : Z -> Z -> list Z -> option nat;
}.
(** Their documentation: the index of the first occurrence, if there is one. *)
Class MemchrLaws `{Memchr} : Prop := {
  memchr_is_Some b h : is_Some (memchr b h) <-> b ∈ h;
  memmem_is_Some h n : is_Some (memmem_find h n) <-> occurs n h;
  memchr2_position a b h : memchr2 a b h = position (fun x => (x =? a) || (x =? b)) h;
}.

Class Encodings := {
  BASE64 : list Z -> list Z;
  BASE64_NOPAD : list Z -> list Z;
  BASE64URL : list Z -> list Z;
  BASE64URL_NOPAD : list Z -> list Z;
  HEXLOWER : list Z -> list Z;
  HEXUPPER : list Z -> list Z;
}.

(** ** Percent encoding *)

Definition HEX_LOWER (n : Z) : Z := if n <? 10 then 48 + n else 87 + n.
Definition HEX_UPPER (n : Z) : Z := if n <? 10 then 48 + n else 55 + n.
(** [percent_encode_all]. *)
Definition percent_encode_all (bytes : list Z) : list Z :=
  concat (map (fun b => [37; HEX_LOWER (Z.shiftr b 4); HEX_LOWER (Z.land b 15)]) bytes).
(** [percent_encode]. *)
Definition is_unreserved_b (b : Z) : bool :=
  is_alphanumeric_b b || bool_decide (b ∈ [45; 95; 46; 126]).
Definition percent_encode (uppercase : bool) (bytes : list Z) : list Z :=
  concat (map (fun b =>
    if is_unreserved_b b then [b]
    else if uppercase then [37; HEX_UPPER (b / 16); HEX_UPPER (b mod 16)]
    else [37; HEX_LOWER (b / 16); HEX_LOWER (b mod 16)]) bytes).

(** [percent_decode] and [normalize_percent_hex]. *)
Fixpoint percent_decode (l : list Z) : list Z :=
  match l with
  | [] => []
  | b :: r =>
      match r with
      | h :: (x :: r' as _) =>
          if (b =? 37) && is_hexdigit h && is_hexdigit x then
            Z.lor (Z.shiftl (default 0 (to_digit_16 h)) 4) (default 0 (to_digit_16 x))
            :: percent_decode r'
          else b :: percent_decode r
      | _ => b :: percent_decode r
      end
  end.
Fixpoint normalize_percent_hex (l : list Z) : list Z :=
  match l with
  | [] => []
  | b :: r =>
      match r with
      | h :: (x :: r' as _) =>
          if (b =? 37) && is_hexdigit h && is_hexdigit x
          then b :: lowercase_b h :: lowercase_b x :: normalize_percent_hex r'
          else b :: normalize_percent_hex r
      | _ => b :: normalize_percent_hex r
      end
  end.

(** ** JSON escapes *)

(** [code_unit]. *)
Definition code_unit (bytes : list Z) : option Z :=
  match bytes with
  | x :: y :: a :: b :: c :: d :: _ =>
      if (x =? 92) && (y =? 117) then
        a ← to_digit_16 a; b ← to_digit_16 b; c ← to_digit_16 c; d ← to_digit_16 d;
        Some (((a * 16 + b) * 16 + c) * 16 + d)
      else None
  | _ => None
  end.
(** [char::from_u32]. *)
Definition from_u32 (c : Z) : option Z :=
  if (c <=? 1114111) && negb ((55296 <=? c) && (c <=? 57343)) then Some c else None.
Definition unicode_escape (rest : list Z) : option (Z * nat) :=
  first ← code_unit rest;
  if (55296 <=? first) && (first <=? 56319) then
    second ← code_unit (drop 6 rest);
    if (56320 <=? second) && (second <=? 57343) then
      c ← from_u32 (65536 + Z.shiftl (first - 55296) 10 + second - 56320); Some (c, 12%nat)
    else None
  else c ← from_u32 first; Some (c, 6%nat).
Definition simple_escape (rest : list Z) : option Z :=
  match rest with
  | x :: e :: _ =>
      if negb (x =? 92) then None
      else if bool_decide (e ∈ [34; 92; 47]) then Some e
      else if e =? 98 then Some 8
      else if e =? 102 then Some 12
      else if e =? 110 then Some 10
      else if e =? 114 then Some 13
      else if e =? 116 then Some 9
      else None
  | _ => None
  end.
(** The bytes an escape stands for and the bytes it takes. *)
Definition escape_at (rest : list Z) : option (list Z * nat) :=
  match unicode_escape rest with
  | Some (c, consumed) => Some (bytes_of (encode_char c EmptyString), consumed)
  | None => e ← simple_escape rest; Some ([e], 2%nat)
  end.
(** [decode_json_escapes], [skip] bytes being already consumed. *)
Fixpoint decode_escapes (skip : nat) (l : list Z) : list Z :=
  match l with
  | [] => []
  | b :: r =>
      match skip with
      | S k => decode_escapes k r
      | O => match escape_at l with
             | Some (bytes, consumed) => bytes ++ decode_escapes (consumed - 1) r
             | None => b :: decode_escapes 0 r
             end
      end
  end.
Definition decode_json_escapes (bytes : list Z) : list Z := decode_escapes 0 bytes.

Section WithLibraries.
Context {MC : Memchr} {EN : Encodings}.

(** ** Needles *)

(** The sextets of [source] wholly inside it, at one byte alignment. *)
Definition aligned_needles (source : list Z) (offset : nat) : list (list Z) :=
  let aligned := repeat 0 offset ++ source in
  let start := ((offset * 8 + 5) / 6)%nat in
  let end_ := (length aligned * 8 / 6)%nat in
  if bool_decide (start < end_)%nat then
    map (fun encode => drop start (take end_ (encode aligned))) [BASE64_NOPAD; BASE64URL_NOPAD]
  else [].
Definition source_needles (source : list Z) : list (list Z) :=
  if bool_decide (source = []) then []
  else [source; BASE64 source; BASE64_NOPAD source; BASE64URL source; BASE64URL_NOPAD source;
        HEXLOWER source; HEXUPPER source]
       ++ (if 16 <=? llen source then concat (map (aligned_needles source) [0; 1; 2]%nat) else [])
       ++ [percent_encode false source; percent_encode true source; percent_encode_all source].
Definition sort_dedup (l : list (list Z)) : list (list Z) := dedup_bytes (sort_bytes l).
(** [sealing_needles]. *)
Definition sealing_needles (secret auth_value : list Z) : list (list Z) :=
  sort_dedup (source_needles secret ++ source_needles auth_value).

(** [edge_ows] and [fixed_header_sealing_needles]. *)
Definition is_ows (b : Z) : bool := (b =? 32) || (b =? 9).
Definition edge_ows (bytes : list Z) : list Z :=
  reverse (drop_while is_ows (reverse (drop_while is_ows bytes))).
Definition fixed_header_sealing_needles (secret actual_auth registered_prefix : list Z)
  : list (list Z) :=
  let needles := sealing_needles secret actual_auth in
  let value := edge_ows secret in
  sort_dedup
    (if negb (bool_decide (value = []))
        && (negb (bool_decide (value = secret))
            || negb (bool_decide (edge_ows actual_auth = actual_auth)))
     then
       let normalized_auth := registered_prefix ++ value in
       needles ++ sealing_needles value (edge_ows normalized_auth)
       ++ sealing_needles value (edge_ows actual_auth)
     else needles).

(** ** Detection *)

(** [find_subslice]. *)
Definition find_subslice (haystack needle : list Z) : bool :=
  match needle with
  | [] => false
  | b :: _ =>
      if bool_decide (length haystack < length needle)%nat then false
      else match memchr b haystack with
      | None => false
      | Some _ => bool_decide (is_Some (memmem_find haystack needle))
      end
  end.

(** [contains_secret]. *)
Definition contains_secret (haystack : list Z) (needles : list (list Z)) : bool :=
  if existsb (find_subslice haystack) needles then true
  else if bool_decide (is_Some (memchr 92 haystack))
          && existsb (find_subslice (decode_json_escapes haystack)) needles then true
  else if negb (bool_decide (is_Some (memchr 37 haystack))) then false
  else if existsb (find_subslice (percent_decode haystack)) needles then true
  else existsb (fun needle =>
         find_subslice (normalize_percent_hex haystack) (normalize_percent_hex needle)) needles.

(** [headers_contain_secret], over names and values as bytes. *)
Definition headers_contain_secret (headers : list (list Z * list Z)) (needles : list (list Z))
  : bool :=
  existsb (fun h => contains_secret h.1 needles || contains_secret h.2 needles) headers.

(** ** Projections that change nothing *)

Lemma percent_decode_id l : 37 ∉ l -> percent_decode l = l.
Proof.
  induction l as [|b r IH]; [done|]. intros [Hb Hr]%not_elem_of_cons. cbn.
  replace (b =? 37) with false by (symmetry; apply Z.eqb_neq; congruence). cbn [andb].
  rewrite (IH Hr). by destruct r as [|h [|x r]].
Qed.
Lemma normalize_percent_id l : 37 ∉ l -> normalize_percent_hex l = l.
Proof.
  induction l as [|b r IH]; [done|]. intros [Hb Hr]%not_elem_of_cons. cbn.
  replace (b =? 37) with false by (symmetry; apply Z.eqb_neq; congruence). cbn [andb].
  rewrite (IH Hr). by destruct r as [|h [|x r]].
Qed.
Lemma code_unit_head l u : code_unit l = Some u -> hd_error l = Some 92.
Proof.
  destruct l as [|x [|y [|a [|b [|c [|d l]]]]]]; try done. cbn.
  destruct (x =? 92) eqn:E; [|done]. reflect_bools. by subst.
Qed.
Lemma escape_at_head l e : escape_at l = Some e -> hd_error l = Some 92.
Proof.
  unfold escape_at, unicode_escape. destruct (code_unit l) as [u|] eqn:E; [intros _; by eapply code_unit_head|].
  cbn [mbind option_bind]. destruct l as [|x [|y l]]; try done. cbn.
  destruct (x =? 92) eqn:Ex; [|done]. reflect_bools. by subst.
Qed.
Lemma decode_json_id l : 92 ∉ l -> decode_json_escapes l = l.
Proof.
  unfold decode_json_escapes. induction l as [|b r IH]; [done|]. intros [Hb Hr]%not_elem_of_cons.
  cbn [decode_escapes]. destruct (escape_at (b :: r)) as [e|] eqn:E.
  - apply escape_at_head in E. cbn in E. congruence.
  - by rewrite (IH Hr).
Qed.
Lemma lowercase_percent b : lowercase_b b = 37 -> b = 37.
Proof. unfold lowercase_b. destruct (_ && _) eqn:E; [|done]. reflect_bools. lia. Qed.
(** Normalising does not add or remove a percent sign at the front. *)
Lemma normalize_percent_in l : 37 ∈ normalize_percent_hex l <-> 37 ∈ l.
Proof.
  remember (length l) as n eqn:Hn. revert l Hn.
  induction n as [n IH] using lt_wf_ind. intros l ->. destruct l as [|b r]; [done|].
  assert (Hr : 37 ∈ normalize_percent_hex r <-> 37 ∈ r) by (apply (IH (length r)); cbn; lia || done).
  destruct r as [|h [|x r]].
  - done.
  - cbn [normalize_percent_hex] in *. rewrite !elem_of_cons in *. tauto.
  - change (normalize_percent_hex (b :: h :: x :: r)) with
      (if (b =? 37) && is_hexdigit h && is_hexdigit x
       then b :: lowercase_b h :: lowercase_b x :: normalize_percent_hex r
       else b :: normalize_percent_hex (h :: x :: r)).
    destruct (_ && _) eqn:E.
    + reflect_bools. subst. rewrite !elem_of_cons. tauto.
    + split; (intros [->|H]%elem_of_cons; [left|right; by apply Hr]).
Qed.

(** ** [contains_secret] against its reference *)

Context {ML : MemchrLaws}.

Lemma occurs_in n h b : occurs n h -> b ∈ n -> b ∈ h.
Proof. intros (pre & post & ->) Hb. rewrite !elem_of_app. auto. Qed.

Lemma find_subslice_spec h n : find_subslice h n = true <-> n <> [] /\ occurs n h.
Proof.
  unfold find_subslice. destruct n as [|b n]; [by split; [|intros []]|].
  case_bool_decide as Hl.
  - split; [done|]. intros [_ (pre & post & ->)]. rewrite !length_app in Hl. lia.
  - destruct (memchr b h) eqn:E.
    + rewrite bool_decide_eq_true, memmem_is_Some. split; [by split|by intros []].
    + split; [done|]. intros [_ Ho].
      assert (is_Some (memchr b h)) as [? Hs]; [|congruence].
      apply memchr_is_Some. eapply occurs_in; [exact Ho|left].
Qed.

Definition any_in (needles : list (list Z)) (p : list Z -> Prop) : Prop :=
  exists n, n ∈ needles /\ n <> [] /\ p n.
Lemma existsb_find h needles :
  existsb (find_subslice h) needles = true <-> any_in needles (fun n => occurs n h).
Proof.
  rewrite existsb_exists. unfold any_in. split; intros (n & Hn & H); exists n; rewrite ?list_elem_of_In in *.
  - by apply find_subslice_spec in H.
  - by rewrite find_subslice_spec.
Qed.

(** What the detection stands for: a needle in the bytes or in one of their three
    projections. *)
Definition detected (h : list Z) (needles : list (list Z)) : Prop :=
  any_in needles (fun n => occurs n h \/ occurs n (decode_json_escapes h) \/
    occurs n (percent_decode h) \/ occurs (normalize_percent_hex n) (normalize_percent_hex h)).

Lemma normalize_nonempty n : normalize_percent_hex n = [] -> n = [].
Proof. destruct n as [|b [|h [|x r]]]; try done. cbn. by case_match. Qed.

Lemma contains_secret_spec h needles :
  contains_secret h needles = true <-> detected h needles.
Proof.
  unfold contains_secret. destruct (existsb (find_subslice h) needles) eqn:E1.
  { split; [intros _|done]. apply existsb_find in E1 as (n & ? & ? & ?). exists n. auto. }
  assert (N1 : ~ any_in needles (fun n => occurs n h)) by (rewrite <- existsb_find; by rewrite E1).
  destruct (_ && _) eqn:E2.
  { split; [intros _|done]. reflect_bools. rename H0 into E2. apply existsb_find in E2 as (n & ? & ? & ?).
    exists n. auto. }
  assert (N2 : ~ any_in needles (fun n => occurs n (decode_json_escapes h))).
  { rewrite <- existsb_find. intros E. rewrite E, andb_true_r in E2. reflect_bools.
    rewrite memchr_is_Some in E2. apply N1. rewrite decode_json_id in E by done. by apply existsb_find. }
  destruct (negb _) eqn:E3.
  - reflect_bools. rewrite memchr_is_Some in E3. split; [done|]. intros (n & Hn & Hne & [H|[H|[H|H]]]); exfalso.
    + apply N1. by exists n.
    + apply N2. by exists n.
    + rewrite percent_decode_id in H by done. apply N1. by exists n.
    + rewrite (normalize_percent_id h) in H by done.
      assert (37 ∉ n). { intros Hp. apply E3. eapply occurs_in; [exact H|]. by apply normalize_percent_in. }
      rewrite normalize_percent_id in H by done. apply N1. by exists n.
  - destruct (existsb (find_subslice (percent_decode h)) needles) eqn:E4.
    { split; [intros _|done]. apply existsb_find in E4 as (n & ? & ? & ?). exists n. tauto. }
    rewrite existsb_exists. split.
    + intros (n & Hn & H). rewrite <- list_elem_of_In in Hn. apply find_subslice_spec in H as [Hne H].
      exists n. split; [done|]. split; [by intros ->|auto].
    + intros (n & Hn & Hne & [H|[H|[H|H]]]).
      * destruct N1. by exists n.
      * destruct N2. by exists n.
      * exfalso. assert (existsb (find_subslice (percent_decode h)) needles = true); [|congruence].
        apply existsb_find. by exists n.
      * exists n. rewrite <- list_elem_of_In. split; [done|]. apply find_subslice_spec.
        split; [|done]. intros Hz. by apply Hne, normalize_nonempty.
Qed.

(** ** Every spelling of a credential is found *)

(** A spelling byte by byte: literally or as a percent escape of any case. *)
Inductive percent_spelled : list Z -> list Z -> Prop :=
  | ps_nil : percent_spelled [] []
  | ps_literal b e r : b <> 37 -> percent_spelled e r -> percent_spelled (b :: e) (b :: r)
  | ps_escape b h x e r :
      is_byte b -> to_digit_16 h = Some (b / 16) -> to_digit_16 x = Some (b mod 16) ->
      percent_spelled e r -> percent_spelled (37 :: h :: x :: e) (b :: r).
(** Literally, as a [\u] escape of an ASCII byte, or as a short escape. *)
Inductive json_spelled : list Z -> list Z -> Prop :=
  | js_nil : json_spelled [] []
  | js_literal b e r : b <> 92 -> json_spelled e r -> json_spelled (b :: e) (b :: r)
  | js_unicode c u v w x e r :
      code_unit [92; 117; u; v; w; x] = Some c -> 0 <= c < 128 ->
      json_spelled e r -> json_spelled (92 :: 117 :: u :: v :: w :: x :: e) (c :: r)
  | js_short y b e r :
      simple_escape [92; y] = Some b -> json_spelled e r -> json_spelled (92 :: y :: e) (b :: r).

Lemma digit_pair b h x :
  is_byte b -> to_digit_16 h = Some (b / 16) -> to_digit_16 x = Some (b mod 16) ->
  is_hexdigit h = true /\ is_hexdigit x = true /\
  Z.lor (Z.shiftl (default 0 (to_digit_16 h)) 4) (default 0 (to_digit_16 x)) = b.
Proof.
  intros Hb Hh Hx. unfold is_hexdigit. rewrite Hh, Hx. split; [done|]. split; [done|]. cbn [default].
  pose proof (byte_cases (fun b => Z.lor (Z.shiftl (b / 16) 4) (b mod 16) =? b)
    ltac:(vm_compute; reflexivity) b Hb) as E. cbv beta in E. by reflect_bools.
Qed.

Lemma percent_decode_escape h x rest :
  is_hexdigit h = true -> is_hexdigit x = true ->
  percent_decode (37 :: h :: x :: rest) =
    Z.lor (Z.shiftl (default 0 (to_digit_16 h)) 4) (default 0 (to_digit_16 x)) :: percent_decode rest.
Proof. intros Hh Hx. cbn [percent_decode]. by rewrite Hh, Hx. Qed.

Lemma percent_spelled_decode e r post :
  percent_spelled e r -> percent_decode (e ++ post) = r ++ percent_decode post.
Proof.
  induction 1 as [|b e r Hb _ IH|b h x e r Hb Hh Hx _ IH]; [done| |].
  - rewrite <- !app_comm_cons, <- IH. cbn [percent_decode].
    replace (b =? 37) with false by (symmetry; by apply Z.eqb_neq). cbn [andb].
    by destruct (e ++ post) as [|h [|x l]].
  - destruct (digit_pair _ _ _ Hb Hh Hx) as (H1 & H2 & H3). rewrite <- !app_comm_cons.
    by rewrite percent_decode_escape, H3, IH.
Qed.

(** What stands before an escape does not disturb it. *)
Lemma percent_decode_before pre rest :
  percent_decode (pre ++ 37 :: rest) = percent_decode pre ++ percent_decode (37 :: rest).
Proof.
  remember (length pre) as n eqn:Hn. revert pre Hn.
  induction n as [n IH] using lt_wf_ind. intros pre ->.
  assert (Hstep : forall b l, percent_decode (b :: 37 :: l) = b :: percent_decode (37 :: l)).
  { intros b [|c l]; [done|]. cbn [percent_decode]. change (is_hexdigit 37) with false.
    by rewrite andb_false_r. }
  destruct pre as [|b [|h [|x pre]]]; [done| | |].
  - apply Hstep.
  - cbn [app]. transitivity (b :: percent_decode (h :: 37 :: rest)); [|by rewrite Hstep].
    cbn [percent_decode]. change (is_hexdigit 37) with false. by rewrite andb_false_r.
  - cbn [app]. cbn [percent_decode].
    destruct ((b =? 37) && is_hexdigit h && is_hexdigit x).
    + cbn [app]. f_equal. apply (IH (length pre)); cbn; lia || done.
    + change (b :: percent_decode ((h :: x :: pre) ++ 37 :: rest)
              = (b :: percent_decode (h :: x :: pre)) ++ percent_decode (37 :: rest)).
      exact (f_equal (cons b) (IH (length (h :: x :: pre)) ltac:(cbn; lia) (h :: x :: pre) eq_refl)).
Qed.

Lemma code_unit_app l rest : l <> [] -> code_unit (l ++ 92 :: rest) = code_unit l.
Proof.
  intros Hl. assert (H92 : to_digit_16 92 = None) by reflexivity.
  destruct l as [|x [|y [|a [|b [|c [|d l]]]]]]; try done;
    destruct rest as [|r1 [|r2 [|r3 [|r4 rest]]]]; try done; cbn [app code_unit];
    rewrite ?H92, ?andb_false_r; try done;
    (destruct (_ && _); [|done]);
    repeat (match goal with |- context [to_digit_16 ?v] => destruct (to_digit_16 v) end;
            cbn [mbind option_bind]; try done); done.
Qed.

Lemma code_unit_six x y a b c d l : code_unit (x :: y :: a :: b :: c :: d :: l) = code_unit [x; y; a; b; c; d].
Proof. done. Qed.
Lemma drop_app_before {A} n (l r : list A) : (n <= length l)%nat -> drop n (l ++ r) = drop n l ++ r.
Proof. intros H. rewrite skipn_app. replace (n - length l)%nat with 0%nat by lia. done. Qed.

Lemma code_unit_length l u : code_unit l = Some u -> (6 <= length l)%nat.
Proof. destruct l as [|x [|y [|a [|b [|c [|d l]]]]]]; try done. cbn. lia. Qed.

(** An escape in front of an escaped ASCII byte is read as if nothing followed. *)
Lemma escape_at_app l rest :
  l <> [] -> last l <> Some 92 ->
  (forall c, code_unit (92 :: rest) = Some c -> 0 <= c < 128) ->
  escape_at (l ++ 92 :: rest) = escape_at l.
Proof.
  intros Hl Hlast Hc. unfold escape_at, unicode_escape. rewrite code_unit_app by done.
  assert (Hs : simple_escape (l ++ 92 :: rest) = simple_escape l).
  { destruct l as [|x [|y l]]; [done| |done]. cbn. cbn in Hlast.
    destruct (x =? 92) eqn:E; [|done]. reflect_bools. by subst. }
  rewrite Hs. destruct (code_unit l) as [u|] eqn:Eu; [|done]. cbn [mbind option_bind].
  pose proof (code_unit_length _ _ Eu) as Hlen. rewrite drop_app_before by done.
  destruct (drop 6 l) as [|d dl] eqn:Ed.
  - cbn [app]. destruct (code_unit (92 :: rest)) as [c|] eqn:Ec; [|done]. cbn [mbind option_bind].
    specialize (Hc c eq_refl). replace (56320 <=? c) with false by (symmetry; apply Z.leb_gt; lia). done.
  - rewrite code_unit_app by done. done.
Qed.

Lemma escape_at_consumed l e n : escape_at l = Some (e, n) -> (1 <= n <= length l)%nat.
Proof.
  unfold escape_at, unicode_escape. destruct (code_unit l) as [u|] eqn:Eu; cbn [mbind option_bind].
  - pose proof (code_unit_length _ _ Eu).
    destruct ((55296 <=? u) && (u <=? 56319)).
    + destruct (code_unit (drop 6 l)) as [v|] eqn:Ev; cbn [mbind option_bind].
      * apply code_unit_length in Ev. rewrite length_drop in Ev.
        destruct (_ && _); [destruct (from_u32 _)|]; cbn [mbind option_bind];
          try destruct (simple_escape l) eqn:Es; cbn; intros; simplify_eq; lia.
      * destruct (simple_escape l) eqn:Es; cbn; intros; simplify_eq; lia.
    + destruct (from_u32 u); cbn [mbind option_bind];
        try destruct (simple_escape l) eqn:Es; cbn; intros; simplify_eq; lia.
  - destruct l as [|x [|y l]]; try done. destruct (simple_escape _); cbn; intros; simplify_eq; cbn; lia.
Qed.

Lemma last_drop_ne k (l : list Z) : drop k l <> [] -> last (drop k l) = last l.
Proof.
  intros H. rewrite <- (take_drop k l) at 2. rewrite last_app.
  destruct (last (drop k l)) eqn:E; [done|]. by apply last_None in E.
Qed.

Lemma decode_before k pre rest :
  (k <= length pre)%nat -> (drop k pre <> [] -> last pre <> Some 92) ->
  (forall c, code_unit (92 :: rest) = Some c -> 0 <= c < 128) ->
  decode_escapes k (pre ++ 92 :: rest) = decode_escapes k pre ++ decode_escapes 0 (92 :: rest).
Proof.
  intros Hk Hlast Hc. revert k Hk Hlast. induction pre as [|b pre IH]; intros k Hk Hlast.
  - cbn in Hk. by replace k with 0%nat by lia.
  - rewrite <- app_comm_cons. destruct k as [|k].
    + assert (Hl : last (b :: pre) <> Some 92) by (apply Hlast; by cbn).
      cbn [decode_escapes]. rewrite app_comm_cons, escape_at_app by done.
      assert (Hrec : forall k, (k <= length pre)%nat ->
        decode_escapes k (pre ++ 92 :: rest) = decode_escapes k pre ++ decode_escapes 0 (92 :: rest)).
      { intros k' Hk'. apply IH; [done|]. intros Hd. destruct pre; [by destruct k'|]. exact Hl. }
      destruct (escape_at (b :: pre)) as [[e n]|] eqn:E.
      * apply escape_at_consumed in E. cbn in E. rewrite Hrec by lia. by rewrite app_assoc.
      * rewrite Hrec by lia. done.
    + cbn [decode_escapes]. cbn in Hk. apply IH; [lia|]. intros Hd. cbn in Hlast.
      destruct pre; [by destruct k|]. by apply Hlast.
Qed.

Lemma encode_ascii c : 0 <= c < 128 -> bytes_of (encode_char c EmptyString) = [c].
Proof.
  intros Hc. unfold encode_char. replace (c <? 128) with true by (symmetry; apply Z.ltb_lt; lia).
  unfold bytes_of. cbn. by rewrite byte_of_char by lia.
Qed.

Lemma decode_skip k l : (k <= length l)%nat -> decode_escapes k l = decode_escapes 0 (drop k l).
Proof.
  revert l. induction k as [|k IH]; intros l Hk; [done|]. destruct l as [|b l]; [done|].
  cbn in Hk |- *. apply IH. lia.
Qed.

Lemma json_spelled_decode e r post :
  json_spelled e r -> decode_escapes 0 (e ++ post) = r ++ decode_escapes 0 post.
Proof.
  induction 1 as [|b e r Hb _ IH|c u v w x e r Hc Hr _ IH|y b e r Hy _ IH]; [done| | |].
  - rewrite <- !app_comm_cons. cbn [decode_escapes].
    destruct (escape_at (b :: e ++ post)) as [p|] eqn:E; [|by rewrite IH].
    apply escape_at_head in E. cbn in E. congruence.
  - rewrite <- !app_comm_cons. cbn [decode_escapes].
    unfold escape_at, unicode_escape. rewrite code_unit_six, Hc. cbn [mbind option_bind].
    replace (55296 <=? c) with false by (symmetry; apply Z.leb_gt; lia). cbn [andb].
    unfold from_u32. replace (c <=? 1114111) with true by (symmetry; apply Z.leb_le; lia).
    replace (55296 <=? c) with false by (symmetry; apply Z.leb_gt; lia). cbn [andb negb mbind option_bind].
    rewrite encode_ascii by done. rewrite decode_skip by (cbn; lia). cbn [Nat.sub drop]. by rewrite IH.
  - rewrite <- !app_comm_cons. cbn [decode_escapes].
    assert (E : escape_at (92 :: y :: e ++ post) = Some ([b], 2%nat)).
    { unfold escape_at, unicode_escape. destruct (code_unit (92 :: y :: e ++ post)) as [u|] eqn:Eu.
      - destruct (e ++ post) as [|a' [|b' [|c' [|d' l]]]]; try done. cbn in Eu.
        destruct (y =? 117) eqn:Ey; [|done]. reflect_bools. subst y. by vm_compute in Hy.
      - cbn [mbind option_bind]. change (simple_escape (92 :: y :: e ++ post)) with (simple_escape [92; y]).
        by rewrite Hy. }
    rewrite E, decode_skip by (cbn; lia). cbn [Nat.sub drop]. by rewrite IH.
Qed.

Lemma sealing_needles_elem s a n :
  n ∈ sealing_needles s a <-> n ∈ source_needles s \/ n ∈ source_needles a.
Proof. unfold sealing_needles, sort_dedup. by rewrite dedup_bytes_elem, sort_bytes_elem, elem_of_app. Qed.
Lemma secret_is_needle s a : s <> [] -> s ∈ sealing_needles s a.
Proof.
  intros Hs. apply sealing_needles_elem. left. unfold source_needles.
  rewrite bool_decide_eq_false_2 by done. left.
Qed.

(** [enc], standing after [pre], is a way to write the secret: one of the encodings
    the code lists, a percent spelling whose first byte is escaped, or a JSON
    spelling that starts with a [\u] escape and does not follow a backslash. *)
Definition spelling (secret pre enc : list Z) : Prop :=
  (enc ∈ source_needles secret /\ enc <> []) \/
  (percent_spelled enc secret /\ hd_error enc = Some 37) \/
  (json_spelled enc secret /\ hd_error enc = Some 92 /\ last pre <> Some 92 /\
   exists c, code_unit enc = Some c).

Lemma spelling_detected secret auth pre enc post :
  secret <> [] -> spelling secret pre enc ->
  contains_secret (pre ++ enc ++ post) (sealing_needles secret auth) = true.
Proof.
  intros Hs H. apply contains_secret_spec. pose proof (secret_is_needle secret auth Hs) as Hn.
  destruct H as [[He Hne]|[[He Hh]|(He & Hh & Hl & c & Hc)]].
  - exists enc. split; [apply sealing_needles_elem; by left|]. split; [done|]. left.
    by exists pre, post.
  - exists secret. split; [done|]. split; [done|]. right. right. left.
    destruct enc as [|x enc]; [done|]. cbn in Hh. injection Hh as ->.
    rewrite <- app_comm_cons, percent_decode_before, app_comm_cons, (percent_spelled_decode _ _ _ He).
    by exists (percent_decode pre), (percent_decode post).
  - exists secret. split; [done|]. split; [done|]. right. left.
    destruct enc as [|x enc]; [done|]. cbn in Hh. injection Hh as ->.
    unfold decode_json_escapes. rewrite <- app_comm_cons, decode_before; [|lia|done|].
    + rewrite app_comm_cons, (json_spelled_decode _ _ _ He).
      by exists (decode_escapes 0 pre), (decode_escapes 0 post).
    + inversion He as [|? ? ? Hx|? ? ? ? ? ? ? Hc' Hr|? ? ? ? Hy]; subst; try done.
      * intros c' E. rewrite <- app_comm_cons in E. cbn [app] in E. rewrite code_unit_six, Hc' in E. by simplify_eq.
      * rewrite <- app_comm_cons. intros c' E. exfalso.
        pose proof (code_unit_length _ _ Hc) as Hlen. destruct e as [|? [|? [|? [|? ?]]]]; cbn in Hlen; try lia.
        cbn in Hc. destruct (y =? 117) eqn:Ey; [|done]. reflect_bools. subst y. by vm_compute in Hy.
Qed.


(** [contains_secret] skips the projections whose marker is absent; the answer is
    the same as that of scanning all four for every needle. *)
Theorem contains_secret_exact h needles :
  contains_secret h needles = true <-> detected h needles.
Proof. apply contains_secret_spec. Qed.

(** An echoed credential is found wherever it stands in the bytes that are
    scanned: in any of the encodings the code lists, in any percent spelling whose
    first byte is escaped, and in any JSON spelling that starts with a [\u] escape
    and does not follow a backslash. *)
Theorem echoed_credential_detected secret auth pre enc post :
  secret <> [] -> spelling secret pre enc ->
  contains_secret (pre ++ enc ++ post) (sealing_needles secret auth) = true.
Proof. apply spelling_detected. Qed.

End WithLibraries.

(** ** A concrete instance *)

#[local] Instance model_memchr : Memchr := {|
  memchr := fun b h => position (fun x => x =? b) h;
  memmem_find := fun h n => find_bytes n h;
  memchr2 := fun a b h => position (fun x => (x =? a) || (x =? b)) h |}.

#[local] Instance model_memchr_laws : MemchrLaws.
Proof.
  split; cbn.
  - intros b h. split.
    + intros [i Hi]. apply position_Some in Hi as (u & x & v & -> & _ & Hx & _). reflect_bools. subst.
      apply elem_of_app. right. left.
    + intros Hb. destruct (position _ h) eqn:E; [done|]. apply position_None in E.
      rewrite Forall_forall in E. specialize (E b Hb). cbn in E. by rewrite Z.eqb_refl in E.
  - intros h n. apply find_bytes_spec.
  - done.
Qed.

(** Hexadecimal in place of every base64 alphabet. *)
Definition hex_bytes (l : list Z) : list Z :=
  concat (map (fun b => [HEX_LOWER (b / 16); HEX_LOWER (b mod 16)]) l).
#[local] Instance model_encodings : Encodings := {|
  BASE64 := hex_bytes; BASE64_NOPAD := hex_bytes; BASE64URL := hex_bytes;
  BASE64URL_NOPAD := hex_bytes; HEXLOWER := hex_bytes; HEXUPPER := hex_bytes |}.

(** A percent sign that decodes to a needle's byte. *)
Lemma contains_secret_exact_witness :
  contains_secret [120; 37; 54; 66] [[107]] = true /\ detected [120; 37; 54; 66] [[107]].
Proof.
  assert (E : contains_secret [120; 37; 54; 66] [[107]] = true) by reflexivity.
  split; [exact E|]. apply contains_secret_exact. exact E.
Defined.

(** The secret [k/9] as [%6B%2f9] after a stray escape, and as [\u006b\/9]. *)
Lemma echoed_credential_detected_witness :
  contains_secret ([37; 52] ++ [37; 54; 66; 37; 50; 102; 57] ++ [33]) (sealing_needles [107; 47; 57] []) = true /\
  contains_secret ([34] ++ [92; 117; 48; 48; 54; 98; 92; 47; 57] ++ [34]) (sealing_needles [107; 47; 57] []) = true.
Proof.
  split; apply echoed_credential_detected; try discriminate; right.
  - left. split; [|reflexivity].
    apply ps_escape; [unfold is_byte; lia|reflexivity|reflexivity|].
    apply ps_escape; [unfold is_byte; lia|reflexivity|reflexivity|].
    apply ps_literal; [discriminate|]. apply ps_nil.
  - right. split; [|split; [reflexivity|split; [discriminate|eexists; reflexivity]]].
    apply js_unicode; [reflexivity|lia|]. apply js_short; [reflexivity|].
    apply js_literal; [discriminate|]. apply js_nil.
Defined.
