(* ===== verification/Sealer.v ===== *)
(** * Sealer: a text stream that is scanned before it is sent

    [rekey-broker/src/executor/text_stream.rs]: [Sealer], which keeps a buffer of
    the bytes it has scanned and sends only what no credential can still start in;
    [Projection], the automaton of the provider's events; and [run], which feeds
    the one to the other. The receiver of the channel may go away: [open_for] is
    the number of sends it still accepts. A panic is [None] ([Effect]). *)

From S2P Require Import Prelude Strings Bytes Errors Domain Decimal Json Sealing Effect.

Definition usize_max : Z := 2 ^ 64 - 1.
Definition sat_sub (a b : Z) : Z := Z.max 0 (a - b).
Definition TEXT_STREAM_CHUNK_MAX_BYTES : Z := 16 * 1024.

Inductive TextStreamStatus : Type := Completed | Incomplete | Failed.
#[export] Instance TextStreamStatus_eq_dec : EqDecision TextStreamStatus.
Proof. solve_decision. Defined.

(** ** The channel *)

Record Sender := mkSender { sent : list (list Z); open_for : option nat }.
(** [sender.send(..).await.is_ok()]. *)
Definition send_chunk (chunk : list Z) (s : Sender) : Sender * bool :=
  match open_for s with
  | Some O => (s, false)
  | Some (S k) => (mkSender (sent s ++ [chunk]) (Some k), true)
  | None => (mkSender (sent s ++ [chunk]) None, true)
  end.

(** ** Slices *)

Definition take_z {A} (n : Z) (l : list A) : list A := take (Z.to_nat n) l.
Definition drop_z {A} (n : Z) (l : list A) : list A := drop (Z.to_nat n) l.
(** [bytes[a..b]], which panics out of range. *)
Definition slice (a b : Z) (l : list Z) : option (list Z) :=
  if (0 <=? a) && (a <=? b) && (b <=? llen l) then Some (take_z (b - a) (drop_z a l)) else None.
(** [while !text.is_char_boundary(i) { i -= 1 }]. *)
Fixpoint floor_boundary (text : list Z) (i : nat) : nat :=
  if is_char_boundary text (Z.of_nat i) then i
  else match i with O => O | S j => floor_boundary text j end.

(** ** [Sealer] *)

Record Sealer := mkSealer {
  sl_bytes : list Z;
  sl_base : Z;
  sl_total : Z;
  sl_emitted : Z;
  sl_hold : Z;
  sl_limit : Z;
}.
Definition set_emitted (e : Z) (s : Sealer) : Sealer :=
  mkSealer (sl_bytes s) (sl_base s) (sl_total s) e (sl_hold s) (sl_limit s).

Definition max_length (needles : list (list Z)) : Z :=
  fold_right (fun n m => Z.max (llen n) m) 0 needles.
(** [Sealer::new]. *)
Definition sealer_new (needles : list (list Z)) (limit : Z) : result BrokerError Sealer :=
  let hold := max_length needles * 6 + 5 in
  reject_if usize_max <? hold with ResponseSecurityViolation ;;
  Ok (mkSealer [] 0 0 0 hold limit).

Section WithLibraries.
Context {MC : Memchr}.

(** [Sealer::push]. *)
Definition sealer_push (bytes : list Z) (needles : list (list Z)) (s : Sealer)
  : result BrokerError Sealer :=
  reject_if sat_sub (sl_limit s) (sl_total s) <? llen bytes with Upstream "response-too-large" ;;
  let start := sat_sub (llen (sl_bytes s)) (sl_hold s) in
  let buffer := sl_bytes s ++ bytes in
  reject_if contains_secret (drop_z start buffer) needles with ResponseSecurityViolation ;;
  Ok (mkSealer buffer (sl_base s) (sl_total s + llen bytes) (sl_emitted s) (sl_hold s) (sl_limit s)).

(** [Sealer::compact]. *)
Definition sealer_compact (referenced : Z) (s : Sealer) : Sealer :=
  let end_ := Z.min (Z.min referenced (sl_emitted s)) (sat_sub (sl_total s) (sl_hold s)) in
  let used := sat_sub end_ (sl_base s) in
  if used =? 0 then s
  else mkSealer (drop_z used (sl_bytes s)) end_ (sl_total s) (sl_emitted s) (sl_hold s) (sl_limit s).

Definition Sending : Type := Sealer * Sender.

(** The loop of [release_through]; every turn sends at least one byte
    ([release_progress]), so the number of bytes is enough fuel. *)
Fixpoint release_loop (fuel : nat) (text : list Z) (start end_ : Z) (st : Sending)
  : option Sending :=
  let '(s, out) := st in
  if end_ <=? sl_emitted s then Some (s, out)
  else match fuel with
  | O => None
  | S fuel =>
      let chunk_end := Z.min end_ (sl_emitted s + TEXT_STREAM_CHUNK_MAX_BYTES) in
      let chunk_end := start + Z.of_nat (floor_boundary text (Z.to_nat (chunk_end - start))) in
      match slice (sl_emitted s - sl_base s) (chunk_end - sl_base s) (sl_bytes s) with
      | None => None
      | Some chunk =>
          let '(out, ok) := send_chunk chunk out in
          if ok then release_loop fuel text start end_ (set_emitted chunk_end s, out)
          else Some (set_emitted end_ s, out)
      end
  end.

(** [Sealer::release_through]. *)
Definition release_through (end_ : Z) : M Sending unit := fun st =>
  let '(s, out) := st in
  let start := sl_emitted s in
  match slice (start - sl_base s) (end_ - sl_base s) (sl_bytes s) with
  | None => None
  | Some text =>
      if utf8_valid text then
        match release_loop (length text) text start end_ (s, out) with
        | None => None
        | Some st => Some (Ok tt, st)
        end
      else Some (Err (Upstream "invalid-stream"), (s, out))
  end.

(** [Sealer::release]. *)
Definition release (final_text : bool) : M Sending unit :=
  s ← gets fst;
  let text := sl_bytes s in
  if utf8_valid text then
    let retained := Z.of_nat (floor_boundary text (Z.to_nat (sat_sub (llen text) (sl_hold s)))) in
    let end_ := sl_base s + (if final_text then llen text else retained) in
    let retained := sl_base s + retained in
    _ ← release_through end_;
    modify (fun st => (sealer_compact retained st.1, st.2))
  else raise (Upstream "invalid-stream").

(** ** [Projection] *)

Record Projection := mkProjection { pj_state : Z; pj_reason : option TextStreamStatus }.

Context {SJ : Serde}.

Abbreviation Value := (JValue Number).

(** [str::lines]: pieces ended by [\n] or [\r\n]; a last empty piece is none. *)
Definition strip_cr (line : list Z) : list Z :=
  match last line with Some 13 => removelast line | _ => line end.
Fixpoint split_lf (l : list Z) : list (list Z) :=
  match l with
  | [] => [[]]
  | b :: r =>
      if b =? 10 then [] :: split_lf r
      else match split_lf r with
           | [] => [[b]]
           | h :: t => (b :: h) :: t
           end
  end.
Fixpoint lines_of (pieces : list (list Z)) : list (list Z) :=
  match pieces with
  | [] => []
  | [final] => if bool_decide (final = []) then [] else [final]
  | piece :: rest => strip_cr piece :: lines_of rest
  end.
Definition str_lines (l : list Z) : list (list Z) := lines_of (split_lf l).

Definition strip_prefix_bytes (p l : list Z) : option (list Z) :=
  if bool_decide (take (length p) l = p) then Some (drop (length p) l) else None.
Definition bad_stream : BrokerError := Upstream "invalid-stream".

(** The fields of one event: at most one [event] and one [data] line. *)
Fixpoint event_fields (event data : option (list Z)) (l : list (list Z))
  : result BrokerError (option (list Z) * option (list Z)) :=
  match l with
  | [] => Ok (event, data)
  | line :: rest =>
      match strip_prefix_bytes (bytes_of "event: ") line with
      | Some value =>
          reject_if bool_decide (is_Some event) with bad_stream ;;
          event_fields (Some value) data rest
      | None =>
          match strip_prefix_bytes (bytes_of "data: ") line with
          | Some value =>
              reject_if bool_decide (is_Some data) with bad_stream ;;
              event_fields event (Some value) rest
          | None =>
              reject_if negb (bool_decide (line = [])) with bad_stream ;;
              event_fields event data rest
          end
      end
  end.

Definition is_str (v : Value) (s : string) : bool := bool_decide (value_as_str v = Some s).
Definition is_zero (v : Value) : bool := bool_decide (value_as_u64 v = Some 0).
Definition is_empty_array (v : Value) : bool :=
  match value_as_array v with Some [] => true | _ => false end.

(** One transition on an event's kind and JSON, and the text it carries. *)
Definition projection_step (kind : string) (value : Value) (p : Projection)
  : result BrokerError (Projection * option (list Z)) :=
  let state := pj_state p in
  let message := value_index "message" value in
  let block := value_index "content_block" value in
  let delta := value_index "delta" value in
  let at0 := is_zero (value_index "index" value) in
  let to := fun n => Ok (mkProjection n (pj_reason p), None) in
  if str_eqb kind "ping" && (0 <=? state) && (state <=? 4) then Ok (p, None)
  else if str_eqb kind "message_start" && (state =? 0)
          && is_str (value_index "role" message) "assistant"
          && is_empty_array (value_index "content" message)
          && is_null (value_index "stop_reason" message) then to 1
  else if str_eqb kind "content_block_start" && (state =? 1) && at0
          && is_str (value_index "type" block) "text" && is_str (value_index "text" block) ""
  then to 2
  else if str_eqb kind "content_block_delta" && (state =? 2) && at0
          && is_str (value_index "type" delta) "text_delta"
  then match value_as_str (value_index "text" delta) with
       | Some text => Ok (p, Some (bytes_of text))
       | None => Err bad_stream
       end
  else if str_eqb kind "content_block_stop" && (state =? 2) && at0 then to 3
  else if str_eqb kind "message_delta" && (state =? 3)
          && is_null (value_index "stop_sequence" delta)
  then
    reason ← match value_as_str (value_index "stop_reason" delta) with
      | Some reason =>
          if str_eqb reason "end_turn" then Ok Completed
          else if str_eqb reason "max_tokens" || str_eqb reason "refusal" then Ok Incomplete
          else Err bad_stream
      | None => Err bad_stream
      end;
    Ok (mkProjection 4 (Some reason), None)
  else if str_eqb kind "message_stop" && (state =? 4) then to 5
  else Err bad_stream.

(** [Projection::event]. *)
Definition projection_event (bytes : list Z) (p : Projection)
  : result BrokerError (Projection * option (list Z)) :=
  reject_if negb (utf8_valid bytes) with bad_stream ;;
  '(event, data) ← event_fields None None (str_lines bytes);
  data ← ok_or bad_stream data;
  value ← ok_or bad_stream (from_slice data);
  kind ← ok_or bad_stream (value_as_str (value_index "type" value));
  reject_if negb (bool_decide (event = Some (bytes_of kind))) with bad_stream ;;
  projection_step kind value p.

(** [event_boundary]: the first blank line, of either kind, and its width. *)
Definition event_boundary (bytes : list Z) : option (nat * nat) :=
  match find_bytes [10; 10] bytes, find_bytes [13; 10; 13; 10] bytes with
  | Some lf, Some crlf => if bool_decide (crlf < lf)%nat then Some (crlf, 4%nat) else Some (lf, 2%nat)
  | Some lf, None => Some (lf, 2%nat)
  | None, Some crlf => Some (crlf, 4%nat)
  | None, None => None
  end.

(** ** [run] *)

Record TextRun := mkTextRun {
  tr_raw : Sealer;
  tr_text : Sealer;
  tr_projection : Projection;
  tr_pending : list Z;
  tr_sender : Sender;
}.
Definition set_raw raw st :=
  mkTextRun raw (tr_text st) (tr_projection st) (tr_pending st) (tr_sender st).
Definition set_projection p st :=
  mkTextRun (tr_raw st) (tr_text st) p (tr_pending st) (tr_sender st).
Definition set_pending p st :=
  mkTextRun (tr_raw st) (tr_text st) (tr_projection st) p (tr_sender st).
Definition get_text (st : TextRun) : Sending := (tr_text st, tr_sender st).
Definition set_text (t : Sending) (st : TextRun) : TextRun :=
  mkTextRun (tr_raw st) t.1 (tr_projection st) (tr_pending st) t.2.

(** One event: the automaton, then the text it carries. *)
Definition on_event (needles : list (list Z)) (frame : list Z) : M TextRun unit :=
  p ← gets tr_projection;
  '(p, delta) ← lift (projection_event frame p);
  _ ← modify (set_projection p);
  match delta with
  | None => mret tt
  | Some delta =>
      s ← gets tr_text;
      s ← lift (sealer_push delta needles s);
      _ ← modify (fun st => set_text (s, tr_sender st) st);
      zoom get_text set_text (release false)
  end.

(** The loop over the complete events of the pending bytes; every turn takes at
    least two bytes. *)
Fixpoint drain (fuel : nat) (needles : list (list Z)) : M TextRun unit :=
  match fuel with
  | O => mret tt
  | S fuel =>
      rest ← gets tr_pending;
      match event_boundary rest with
      | None => mret tt
      | Some (end_, width) =>
          _ ← on_event needles (take end_ rest);
          _ ← modify (set_pending (drop (end_ + width) rest));
          drain fuel needles
      end
  end.

(** One network chunk. *)
Definition on_chunk (needles : list (list Z)) (limit : Z) (chunk : list Z) : M TextRun unit :=
  raw ← gets tr_raw;
  raw ← lift (sealer_push chunk needles raw);
  _ ← modify (set_raw (sealer_compact (sl_total raw) (set_emitted (sl_total raw) raw)));
  pending ← gets tr_pending;
  _ ← check (sat_sub limit (llen pending) <? llen chunk) (Upstream "response-too-large");
  _ ← modify (set_pending (pending ++ chunk));
  drain (length (pending ++ chunk)) needles.

(** The end of the body. *)
Definition on_end : M TextRun TextStreamStatus :=
  st ← gets id;
  _ ← check (negb (bool_decide (tr_pending st = [])) || negb (pj_state (tr_projection st) =? 5))
        (Upstream "truncated-stream");
  status ← lift (ok_or bad_stream (pj_reason (tr_projection st)));
  _ ← (if bool_decide (status = Completed) then zoom get_text set_text (release true) else mret tt);
  mret status.

(** The response: status, headers as text and as bytes, and the body's chunks,
    [None] for a transport error. *)
Record StreamResponse := mkStreamResponse {
  rs_status : Z;
  rs_headers : list (string * string);
  rs_header_bytes : list (list Z * list Z);
  rs_body : list (option (list Z));
}.

Definition content_type_ok (headers : list (string * string)) : bool :=
  existsb (fun h => eq_ignore_ascii_case h.1 "content-type"
                    && str_eqb (hd EmptyString (split_on ";" h.2)) "text/event-stream") headers.

Definition text_run (response : StreamResponse) (needles : list (list Z)) (limit : Z)
    (sender : Sender) : option (result BrokerError TextStreamStatus * Sender) :=
  if negb (rs_status response =? 200)
     || headers_contain_secret (rs_header_bytes response) needles
     || negb (content_type_ok (rs_headers response))
  then Some (Err (Upstream "invalid-stream-response"), sender)
  else match sealer_new needles limit with
  | Err e => Some (Err e, sender)
  | Ok s =>
      let body := _ ← each (fun chunk => match chunk with
          | None => raise (Upstream "stream-transport")
          | Some chunk => on_chunk needles limit chunk
          end) (rs_body response); on_end in
      match body (mkTextRun s s (mkProjection 0 None) [] sender) with
      | None => None
      | Some (r, st) => Some (r, tr_sender st)
      end
  end.

End WithLibraries.
