(* ===== verification/TextStreamTheorems.v ===== *)
(** * TextStreamTheorems: what a [Sealer] keeps and what it sends

    The state of a [Sealer] against the whole byte stream pushed into it
    ([sealer_ok]), the bytes sent against the same stream ([sent_ok]); [push]
    accepts no spelling of the secret, whatever the cuts, and [release] sends whole
    characters, never panics and leaves the last [hold] bytes unsent. *)

From S2P Require Import Prelude Strings Bytes Errors Domain Decimal Json Effect Sealing Sealer.

(** ** Slices *)

Lemma llen_drop_z {A} n (l : list A) : 0 <= n <= llen l -> llen (drop_z n l) = llen l - n.
Proof. unfold llen, drop_z. rewrite length_drop. lia. Qed.
Lemma drop_z_drop_z {A} a b (l : list A) : 0 <= a -> 0 <= b -> drop_z a (drop_z b l) = drop_z (a + b) l.
Proof. intros Ha Hb. unfold drop_z. rewrite drop_drop. f_equal. lia. Qed.
Lemma drop_z_app {A} n (l r : list A) : n <= llen l -> drop_z n (l ++ r) = drop_z n l ++ r.
Proof. unfold drop_z, llen. intros H. apply drop_app_before. lia. Qed.
Lemma take_z_all {A} n (l : list A) : llen l <= n -> take_z n l = l.
Proof. unfold take_z, llen. intros H. apply take_ge. lia. Qed.
Lemma take_z_app {A} n (l r : list A) : n <= llen l -> take_z n (l ++ r) = take_z n l.
Proof. unfold take_z, llen. intros H. apply take_app_le. lia. Qed.
Lemma take_z_split {A} a b (l : list A) :
  0 <= a <= b -> take_z b l = take_z a l ++ take_z (b - a) (drop_z a l).
Proof.
  unfold take_z, drop_z. intros H. rewrite <- (take_drop (Z.to_nat a) (take (Z.to_nat b) l)).
  rewrite take_take, skipn_firstn_comm. f_equal; f_equal; lia.
Qed.
Lemma slice_Some a b (l : list Z) : 0 <= a <= b -> b <= llen l -> slice a b l = Some (take_z (b - a) (drop_z a l)).
Proof.
  intros H1 H2. unfold slice.
  replace (0 <=? a) with true by (symmetry; apply Z.leb_le; lia).
  replace (a <=? b) with true by (symmetry; apply Z.leb_le; lia).
  by replace (b <=? llen l) with true by (symmetry; apply Z.leb_le; lia).
Qed.
Lemma llen_take_z {A} n (l : list A) : 0 <= n <= llen l -> llen (take_z n l) = n.
Proof. unfold llen, take_z. rewrite length_take. lia. Qed.

(** [floor_boundary] is the greatest boundary up to an index. *)
Lemma floor_spec text i :
  boundary text (floor_boundary text i) /\ (floor_boundary text i <= i)%nat /\
  (forall k, (k <= i)%nat -> boundary text k -> (k <= floor_boundary text i)%nat).
Proof.
  induction i as [|i IH]; unfold boundary in *; cbn [floor_boundary].
  - change (is_char_boundary text (Z.of_nat 0)) with true. split; [done|]. split; [lia|]. intros k Hk _. lia.
  - destruct (is_char_boundary text (Z.of_nat (S i))) eqn:E.
    + split; [done|]. split; [lia|]. intros; lia.
    + destruct IH as (H1 & H2 & H3). split; [done|]. split; [lia|]. intros k Hk Hb.
      destruct (decide (k = S i)) as [->|]; [congruence|]. apply H3; [lia|done].
Qed.

(** ** Invariants *)

(** [stream] is everything pushed so far. *)
Record sealer_ok (stream : list Z) (s : Sealer) : Prop := {
  ok_bytes : sl_bytes s = drop_z (sl_base s) stream;
  ok_total : sl_total s = llen stream;
  ok_order : 0 <= sl_base s <= sl_emitted s /\ sl_emitted s <= sl_total s;
  ok_hold : 0 < sl_hold s;
  ok_base : sl_base s <= sat_sub (sl_total s) (sl_hold s);
}.
(** What is released is out of the scanner's reach and ends at a character. *)
Record held (s : Sealer) : Prop := {
  held_back : sl_emitted s <= sat_sub (sl_total s) (sl_hold s);
  held_cut : boundary (sl_bytes s) (Z.to_nat (sl_emitted s - sl_base s));
}.

Definition chunk_ok (chunk : list Z) : Prop :=
  chunk <> [] /\ utf8_valid chunk = true /\ llen chunk <= TEXT_STREAM_CHUNK_MAX_BYTES.
(** [out] against the first [e] bytes of [stream]; they differ only once the
    receiver has gone away. *)
Record sent_ok (stream : list Z) (e : Z) (out : Sender) : Prop := {
  sent_prefix : concat (sent out) `prefix_of` take_z e stream;
  sent_all : open_for out <> Some O -> concat (sent out) = take_z e stream;
  sent_chunks : Forall chunk_ok (sent out);
}.

Lemma ok_len stream s : sealer_ok stream s -> llen (sl_bytes s) = sl_total s - sl_base s.
Proof. intros [-> -> H _ _]. rewrite llen_drop_z; lia. Qed.

Lemma max_length_nonneg needles : 0 <= max_length needles.
Proof. destruct needles as [|n needles]; cbn; [done|]. pose proof (llen_nonneg n). lia. Qed.
Lemma sealer_new_ok needles limit s :
  sealer_new needles limit = Ok s ->
  sealer_ok [] s /\ held s /\ sl_emitted s = 0 /\ sl_hold s = max_length needles * 6 + 5.
Proof.
  unfold sealer_new. intros H. bind_inv H. simplify_eq/=.
  assert (0 <= max_length needles) by apply max_length_nonneg.
  split; [split; cbn; unfold sat_sub, llen; cbn; (done || lia)|]. split; [|done].
  split; cbn; [unfold sat_sub; lia|apply boundary_0].
Qed.

(** More stream leaves what was sent a prefix of it. *)
Lemma sent_ok_app stream d e out : e <= llen stream -> sent_ok stream e out -> sent_ok (stream ++ d) e out.
Proof. intros He [H1 H2 H3]. split; rewrite ?take_z_app by done; done. Qed.

Section WithLibraries.
Context {MC : Memchr} {EN : Encodings} {ML : MemchrLaws}.

(** ** [push] *)

Lemma push_ok stream d needles s s' :
  sealer_ok stream s -> sealer_push d needles s = Ok s' ->
  sealer_ok (stream ++ d) s' /\ (held s -> held s') /\
  sl_emitted s' = sl_emitted s /\ sl_hold s' = sl_hold s /\ sl_total s' = sl_total s + llen d.
Proof.
  intros Hok H. pose proof (ok_len _ _ Hok) as Hlen. destruct Hok as [Hb Ht Ho Hh Hbase].
  unfold sealer_push in H. bind_inv H. simplify_eq/=. pose proof (llen_nonneg d).
  assert (He : sat_sub (sl_total s) (sl_hold s) <= sat_sub (sl_total s + llen d) (sl_hold s))
    by (unfold sat_sub; lia).
  split; [|split; [|done]].
  - split; cbn; rewrite ?llen_app; try lia. rewrite drop_z_app by lia. by rewrite Hb.
  - intros [H1 H2]. split; cbn; [lia|]. apply boundary_app; [done|]. unfold llen, sat_sub in *. lia.
Qed.

(** Everything that reaches into the pushed bytes and is short enough was scanned
    as it stands in the stream. *)
Lemma push_window stream d needles s s' pre enc post :
  sealer_ok stream s -> sealer_push d needles s = Ok s' ->
  stream ++ d = pre ++ enc ++ post -> llen enc <= sl_hold s -> llen stream < llen (pre ++ enc) ->
  exists x pre', pre = x ++ pre' /\ contains_secret (pre' ++ enc ++ post) needles = false.
Proof.
  intros Hok H E Henc Hin. pose proof (ok_len _ _ Hok) as Hlen. destruct Hok as [Hb Ht Ho Hh Hbase].
  unfold sealer_push in H. bind_inv H. reflect_bools.
  set (w := sat_sub (llen (sl_bytes s)) (sl_hold s)) in *.
  assert (Hw : 0 <= w <= llen (sl_bytes s)) by (unfold w, sat_sub; pose proof (llen_nonneg (sl_bytes s)); lia).
  assert (Hstart : sl_base s + w = sat_sub (llen stream) (sl_hold s)) by (unfold w, sat_sub in *; lia).
  rewrite llen_app in Hin.
  assert (Hle : sl_base s + w <= llen pre) by (unfold sat_sub in *; pose proof (llen_nonneg pre); lia).
  exists (take_z (sl_base s + w) pre), (drop_z (sl_base s + w) pre).
  split; [symmetry; apply take_drop|].
  rewrite <- drop_z_app by done. rewrite <- E, drop_z_app by (rewrite Ht in *; lia).
  rewrite <- drop_z_drop_z by lia.
  rewrite Z.add_comm in *. by rewrite drop_z_drop_z, Z.add_comm, <- drop_z_drop_z, <- Hb, <- drop_z_app by lia.
Qed.

(** ** No spelling of the secret is accepted *)

(** Every spelling of [secret] in [stream]. *)
Definition clean (secret stream : list Z) : Prop :=
  forall pre enc post, stream = pre ++ enc ++ post -> ~ spelling secret pre enc.

Lemma max_length_in needles n : n ∈ needles -> llen n <= max_length needles.
Proof.
  unfold max_length. induction needles as [|m needles IH]; [by intros ?%not_elem_of_nil|].
  intros [->|H]%elem_of_cons; cbn; [lia|]. specialize (IH H). lia.
Qed.
Lemma percent_spelled_length e r : percent_spelled e r -> llen e <= 3 * llen r.
Proof. unfold llen. induction 1; cbn in *; lia. Qed.
Lemma json_spelled_length e r : json_spelled e r -> llen e <= 6 * llen r.
Proof. unfold llen. induction 1; cbn in *; lia. Qed.
Lemma spelling_length secret auth pre enc :
  secret <> [] -> spelling secret pre enc ->
  llen enc <= max_length (sealing_needles secret auth) * 6.
Proof.
  intros Hs H. pose proof (llen_nonneg enc).
  pose proof (max_length_in _ _ (secret_is_needle secret auth Hs)).
  destruct H as [[H _]|[[H _]|(H & _)]].
  - assert (Hn : enc ∈ sealing_needles secret auth) by (apply sealing_needles_elem; by left).
    apply max_length_in in Hn. lia.
  - apply percent_spelled_length in H. lia.
  - apply json_spelled_length in H. lia.
Qed.
Lemma spelling_nonempty secret pre enc : secret <> [] -> spelling secret pre enc -> enc <> [].
Proof. intros Hs [[_ H]|[[_ H]|(_ & H & _)]] ->; done. Qed.
Lemma spelling_suffix secret x pre enc : spelling secret (x ++ pre) enc -> spelling secret pre enc.
Proof.
  intros [H|[H|(H1 & H2 & H3 & H4)]]; [by left|by right; left|]. right. right.
  split; [done|]. split; [done|]. split; [|done]. rewrite last_app in H3. by destruct (last pre).
Qed.

Lemma clean_nil secret : secret <> [] -> clean secret [].
Proof.
  intros Hs pre enc post E H%spelling_nonempty; [|done]. symmetry in E.
  apply app_eq_nil in E as [_ [-> _]%app_eq_nil]. done.
Qed.
(** A spelling that ends within an accepted stream would be in it. *)
Lemma clean_ends_after secret stream d pre enc post :
  clean secret stream -> spelling secret pre enc -> stream ++ d = pre ++ enc ++ post ->
  llen stream < llen (pre ++ enc).
Proof.
  intros Hc H E. destruct (decide (llen (pre ++ enc) <= llen stream)) as [Hle|]; [|lia].
  exfalso. rewrite app_assoc in E. unfold llen in Hle.
  eapply (Hc pre enc (drop (length (pre ++ enc)) stream)); [|done]. rewrite app_assoc.
  rewrite <- (take_drop (length (pre ++ enc)) stream) at 1. f_equal.
  apply (f_equal (take (length (pre ++ enc)))) in E. rewrite take_app_length, take_app_le in E by lia. done.
Qed.

Lemma push_clean secret auth stream d s s' :
  secret <> [] -> sealer_ok stream s ->
  sl_hold s = max_length (sealing_needles secret auth) * 6 + 5 ->
  clean secret stream -> sealer_push d (sealing_needles secret auth) s = Ok s' ->
  clean secret (stream ++ d).
Proof.
  intros Hs Hok Hh Hc H pre enc post E Hsp.
  pose proof (spelling_length _ auth _ _ Hs Hsp).
  pose proof (clean_ends_after _ _ _ _ _ _ Hc Hsp E).
  destruct (push_window _ _ _ _ _ pre enc post Hok H E) as (x & pre' & -> & Hn); [lia|done|].
  apply spelling_suffix in Hsp. by rewrite spelling_detected in Hn.
Qed.
(** ** [release] *)

Lemma send_chunk_ok stream e e' chunk out :
  sent_ok stream e out -> 0 <= e <= e' -> chunk = take_z (e' - e) (drop_z e stream) -> chunk_ok chunk ->
  let '(out', ok) := send_chunk chunk out in
  if ok then sent_ok stream e' out' else open_for out' = Some O /\ sent_ok stream e out'.
Proof.
  intros [H1 H2 H3] He -> Hc. unfold send_chunk.
  assert (Hall : open_for out <> Some O ->
    concat (sent out ++ [take_z (e' - e) (drop_z e stream)]) = take_z e' stream).
  { intros Ho. rewrite concat_app, (H2 Ho). cbn [concat]. by rewrite app_nil_r, <- take_z_split. }
  destruct (open_for out) as [[|k]|] eqn:Eo; [split; [done|by split; rewrite ?Eo]| |];
    (split; cbn [sent open_for]; [by rewrite Hall|by intros _; apply Hall|];
     apply Forall_app; split; [done|by apply Forall_singleton]).
Qed.

(** A receiver that has gone away gets nothing more. *)
Lemma sent_ok_closed stream e e' out :
  sent_ok stream e out -> open_for out = Some O -> 0 <= e <= e' -> sent_ok stream e' out.
Proof.
  intros [H1 H2 H3] Ho He. split; [|done|done]. etransitivity; [exact H1|].
  rewrite (take_z_split e e') by done. by eexists.
Qed.

(** Where a turn of the loop cuts. *)
Lemma chunk_cut text i :
  utf8_text text -> boundary text i -> (i < length text)%nat ->
  let c := Z.min (Z.of_nat (length text)) (Z.of_nat i + TEXT_STREAM_CHUNK_MAX_BYTES) in
  let j := floor_boundary text (Z.to_nat c) in
  boundary text j /\ (i < j <= length text)%nat /\ Z.of_nat j <= Z.of_nat i + TEXT_STREAM_CHUNK_MAX_BYTES.
Proof.
  intros Ht Hb Hi c j. destruct (floor_spec text (Z.to_nat c)) as (H1 & H2 & H3). fold j in H1, H2, H3.
  split; [done|]. unfold TEXT_STREAM_CHUNK_MAX_BYTES in *.
  assert (Hc : (Z.to_nat c <= length text)%nat) by lia.
  destruct (boundary_near text (Z.to_nat c) Ht Hc) as (k & Hk & Hkb).
  assert (Hend : Z.to_nat c = length text -> j = length text).
  { intros E. pose proof (boundary_le _ _ H1).
    pose proof (H3 (length text) ltac:(lia) (boundary_end text)). lia. }
  pose proof (boundary_le _ _ H1). pose proof (H3 k ltac:(lia) Hkb). lia.
Qed.
Lemma utf8_between text i j :
  utf8_text text -> boundary text i -> boundary text j -> (i <= j)%nat ->
  utf8_text (take (j - i) (drop i text)).
Proof.
  intros Ht Hi Hj Hle. apply (utf8_cut text i Ht) in Hi as [_ Ht'].
  apply (utf8_cut _ (j - i) Ht'). by apply boundary_drop.
Qed.

(** From a boundary of the text the loop reaches its end. *)
Lemma release_loop_ok stream text start end_ :
  text = take_z (end_ - start) (drop_z start stream) -> utf8_text text -> 0 <= start ->
  forall fuel s out,
  sealer_ok stream s -> sl_base s <= start <= sl_emitted s ->
  sl_emitted s <= end_ -> end_ <= sl_total s ->
  boundary text (Z.to_nat (sl_emitted s - start)) -> end_ - sl_emitted s <= Z.of_nat fuel ->
  sent_ok stream (sl_emitted s) out ->
  exists out', release_loop fuel text start end_ (s, out) = Some (set_emitted end_ s, out') /\
               sent_ok stream end_ out'.
Proof.
  intros Htext Hu Hstart. induction fuel as [|fuel IH]; intros s out Hok Hs He Ht Hb Hf Hout;
    pose proof (ok_len _ _ Hok) as Hlen; cbn [release_loop].
  { assert (sl_emitted s = end_) as <- by lia. rewrite Z.leb_refl. exists out. by destruct s. }
  destruct (Z.leb_spec end_ (sl_emitted s)) as [Hle|Hlt].
  { assert (sl_emitted s = end_) as <- by lia. exists out. by destruct s. }
  assert (Htl : Z.of_nat (length text) = end_ - start).
  { destruct Hok as [_ Et _ _ _]. fold (llen text). subst text. rewrite llen_take_z; [lia|].
    rewrite llen_drop_z; lia. }
  set (i := Z.to_nat (sl_emitted s - start)) in *.
  destruct (chunk_cut text i) as (Hj & Hij & Hmax); [done|done|lia|].
  replace (Z.min end_ (sl_emitted s + TEXT_STREAM_CHUNK_MAX_BYTES) - start)
    with (Z.min (Z.of_nat (length text)) (Z.of_nat i + TEXT_STREAM_CHUNK_MAX_BYTES)) by lia.
  set (j := floor_boundary text _) in *.
  rewrite slice_Some by lia.
  assert (Hchunk : take_z (start + Z.of_nat j - sl_base s - (sl_emitted s - sl_base s))
      (drop_z (sl_emitted s - sl_base s) (sl_bytes s)) =
      take_z (start + Z.of_nat j - sl_emitted s) (drop_z (sl_emitted s) stream)).
  { destruct Hok as [-> _ ? _ _]. rewrite drop_z_drop_z by lia. f_equal; [lia|]. f_equal. lia. }
  rewrite Hchunk.
  assert (Hcok : chunk_ok (take_z (start + Z.of_nat j - sl_emitted s) (drop_z (sl_emitted s) stream))).
  { assert (E : take_z (start + Z.of_nat j - sl_emitted s) (drop_z (sl_emitted s) stream)
                = take (j - i) (drop i text)).
    { rewrite Htext. unfold take_z, drop_z. rewrite skipn_firstn_comm, take_take, drop_drop.
      f_equal; [lia|]. f_equal. lia. }
    split; [|split].
    - rewrite E. intros H%(f_equal length). rewrite length_take, length_drop in H. cbn in H. lia.
    - rewrite E. apply utf8_text_valid, utf8_between; (done || lia).
    - rewrite E. unfold llen. rewrite length_take. lia. }
  pose proof (send_chunk_ok stream (sl_emitted s) (start + Z.of_nat j) _ out Hout ltac:(lia) eq_refl Hcok) as Hsend.
  destruct (send_chunk _ out) as [out' ok]. destruct ok.
  - destruct (IH (set_emitted (start + Z.of_nat j) s) out') as (out'' & E & Ho); cbn; try lia; try done.
    + destruct Hok. split; cbn; try done. lia.
    + by replace (Z.to_nat (start + Z.of_nat j - start)) with j by lia.
    + exists out''. split; [|done]. rewrite E. done.
  - destruct Hsend as [Hclosed Ho]. exists out'. split; [done|]. eapply sent_ok_closed; [done|done|lia].
Qed.

(** [compact] moves the base only past what is sent and scanned. *)
Lemma compact_ok stream referenced s :
  sealer_ok stream s ->
  sealer_ok stream (sealer_compact referenced s) /\
  (held s -> held (sealer_compact referenced s)) /\
  sl_emitted (sealer_compact referenced s) = sl_emitted s /\
  sl_total (sealer_compact referenced s) = sl_total s /\
  sl_hold (sealer_compact referenced s) = sl_hold s.
Proof.
  intros Hok. pose proof (ok_len _ _ Hok) as Hlen. destruct Hok as [Hb Ht Ho Hh Hbase].
  unfold sealer_compact. set (end_ := Z.min _ (sat_sub _ _)).
  destruct (Z.eqb_spec (sat_sub end_ (sl_base s)) 0) as [|Hne]; [done|].
  unfold sat_sub in Hne. split; [|split; [|done]].
  - split; cbn; try done; try (unfold end_, sat_sub in *; lia).
    rewrite Hb, drop_z_drop_z by (unfold sat_sub; lia). f_equal. unfold sat_sub. lia.
  - intros [H1 H2]. split; cbn; [done|]. unfold drop_z.
    replace (Z.to_nat (sl_emitted s - end_))
      with (Z.to_nat (sl_emitted s - sl_base s) - Z.to_nat (sat_sub end_ (sl_base s)))%nat
      by (unfold sat_sub, end_ in *; lia).
    apply boundary_drop; [done|]. unfold sat_sub, end_ in *. lia.
Qed.

(** [release_through]: in range it never panics, and sends all or, on text that is
    not UTF-8, nothing. *)
Lemma release_through_wp stream end_ s out :
  sealer_ok stream s -> sl_emitted s <= end_ -> end_ <= sl_total s ->
  sent_ok stream (sl_emitted s) out ->
  wp (release_through end_)
    (fun _ st => st.1 = set_emitted end_ s /\ sent_ok stream end_ st.2)
    (fun _ st => st = (s, out) /\
       utf8_valid (take_z (end_ - sl_emitted s) (drop_z (sl_emitted s) stream)) = false) (s, out).
Proof.
  intros Hok H1 H2 Hout. pose proof (ok_len _ _ Hok) as Hlen.
  pose proof Hok as [Hbytes Htotal Horder _ _].
  unfold wp, release_through. rewrite slice_Some by lia. set (piece := take_z _ _).
  assert (Hpiece : piece = take_z (end_ - sl_emitted s) (drop_z (sl_emitted s) stream)).
  { unfold piece. rewrite Hbytes, drop_z_drop_z by lia. f_equal; [lia|]. f_equal. lia. }
  destruct (utf8_valid piece) eqn:Hpu; [|by rewrite <- Hpiece]. apply utf8_text_of in Hpu.
  destruct (release_loop_ok stream piece (sl_emitted s) end_ Hpiece Hpu ltac:(lia) (length piece) s out)
    as (out' & E & Ho); try done; try lia.
  { rewrite Z.sub_diag. apply boundary_0. }
  { fold (llen piece). rewrite Hpiece, llen_take_z; rewrite ?llen_drop_z; lia. }
  by rewrite E.
Qed.

(** [release]: it never panics, sends nothing when it fails, and otherwise the
    invariants hold again with everything before the retained bytes sent. *)
Lemma release_wp stream final_text s out :
  sealer_ok stream s -> held s -> sent_ok stream (sl_emitted s) out ->
  wp (release final_text)
    (fun _ '(s', out') =>
       sealer_ok stream s' /\ sent_ok stream (sl_emitted s') out' /\
       sl_hold s' = sl_hold s /\ sl_total s' = sl_total s /\
       (if final_text then sl_emitted s' = sl_total s'
        else held s' /\ sl_total s' - sl_emitted s' <= sl_hold s' + 3))
    (fun _ st => st = (s, out)) (s, out).
Proof.
  intros Hok [Hback Hcut] Hout. unfold release. apply wp_bind, wp_gets. cbn [fst].
  destruct (utf8_valid (sl_bytes s)) eqn:Hu; [|by apply wp_raise].
  apply utf8_text_of in Hu. pose proof (ok_len _ _ Hok) as Hlen.
  set (text := sl_bytes s) in *.
  destruct (floor_spec text (Z.to_nat (sat_sub (llen text) (sl_hold s)))) as (Hr & Hrle & Hrmax).
  set (r := floor_boundary text _) in *.
  pose proof Hok as [Hbytes Htotal Horder Hhold Hbase].
  set (end_ := sl_base s + (if final_text then llen text else Z.of_nat r)). set (e := Z.to_nat (end_ - sl_base s)).
  specialize (Hrmax (Z.to_nat (sl_emitted s - sl_base s)) ltac:(unfold sat_sub in *; lia) Hcut).
  assert (Hnear : sat_sub (llen text) (sl_hold s) < Z.of_nat r + 4).
  { destruct (boundary_near text (Z.to_nat (sat_sub (llen text) (sl_hold s))) Hu) as (k & Hk & Hkb);
      [unfold sat_sub, llen in *; lia|].
    destruct (floor_spec text (Z.to_nat (sat_sub (llen text) (sl_hold s)))) as (_ & _ & Hm).
    specialize (Hm k ltac:(lia) Hkb). fold r in Hm. unfold sat_sub in *. lia. }
  assert (He : boundary text e /\ sl_emitted s <= end_ /\ end_ <= sl_total s).
  { unfold e, end_. pose proof (boundary_le _ _ Hr). unfold llen in *. destruct final_text.
    - replace (Z.to_nat _) with (length text) by lia. split; [apply boundary_end|lia].
    - replace (Z.to_nat _) with r by lia. split; [done|]. lia. }
  destruct He as (Hb & He1 & He2).
  apply wp_bind. eapply wp_mono; [by apply (release_through_wp stream)| |by intros ? ? [-> _]].
  intros [] [s' out'] [E Ho]. cbn [fst snd] in E, Ho. subst s'. apply wp_modify. cbn [fst snd].
  destruct (compact_ok stream (sl_base s + Z.of_nat r) (set_emitted end_ s)) as (H1 & H2 & H3 & H4 & H5).
  { split; cbn; (done || lia). }
  rewrite H3, H4, H5. cbn. split; [done|]. split; [done|]. split; [done|]. split; [done|].
  unfold e, end_ in *. destruct final_text; [lia|]. split; [|unfold sat_sub in *; lia].
  apply H2. split; cbn; [unfold sat_sub in *; lia|done].
Qed.

End WithLibraries.

(** * What a text stream shows its receiver

    [text_run] against a reference that does not know about network chunks, buffers
    or scanning: [wire_text], the text that the automaton reads off the whole body
    cut into events. Whatever the cuts, what is sent is a prefix of that text, ends
    before the first spelling of the credential, and is all of it when the stream
    completes; the run neither panics nor loops. *)

(** ** Events do not depend on the network's cuts *)

Lemma find_bytes_at n h i : find_bytes n h = Some i -> occurs_at n h i.
Proof.
  revert i. induction h as [|b h IH]; intros i; cbn [find_bytes];
    unfold starts_with_bytes; case_bool_decide as E; intros H; simplify_eq/=.
  - exists []. rewrite <- E. by rewrite take_nil.
  - exists (drop (length n) (b :: h)). cbn [drop]. rewrite <- E at 1. by rewrite take_drop.
  - destruct (find_bytes n h) as [k|]; [|done]. simplify_eq/=. by apply IH.
Qed.
Lemma find_bytes_first n h i k : find_bytes n h = Some i -> occurs_at n h k -> (i <= k)%nat.
Proof.
  revert i k. induction h as [|b h IH]; intros i k; cbn [find_bytes];
    unfold starts_with_bytes; case_bool_decide as E; intros H Hk; simplify_eq/=; try lia.
  destruct (find_bytes n h) as [j|] eqn:Ej; [|done]. simplify_eq/=. destruct k as [|k].
  - destruct Hk as [post Hp]. destruct E. cbn [drop] in Hp. rewrite Hp. by rewrite take_app_length.
  - destruct Hk as [post Hp]. cbn [drop] in Hp. pose proof (IH j k eq_refl (ex_intro _ post Hp)). lia.
Qed.
Lemma occurs_at_app n h r i : n <> [] ->
  occurs_at n (h ++ r) i -> (i + length n <= length h)%nat -> occurs_at n h i.
Proof. intros Hn H Hi. apply (occurs_at_take _ _ _ (length h)) in H; [|done]. by rewrite take_app_length in H. Qed.
Lemma occurs_at_more n h r i : occurs_at n h i -> (i <= length h)%nat -> occurs_at n (h ++ r) i.
Proof. intros [post E] Hi. exists (post ++ r). rewrite drop_app_before, E by done. by rewrite app_assoc. Qed.
Lemma find_bytes_exists n h i : occurs_at n h i -> exists k, find_bytes n h = Some k /\ (k <= i)%nat.
Proof.
  intros H. destruct (find_bytes n h) as [k|] eqn:E.
  - exists k. split; [done|]. by eapply find_bytes_first.
  - apply occurs_at_occurs, find_bytes_spec in H as [k Hk]. congruence.
Qed.
(** The first occurrence stays the first one when bytes are appended. *)
Lemma find_bytes_app n h r i : find_bytes n h = Some i -> n <> [] -> find_bytes n (h ++ r) = Some i.
Proof.
  intros H Hn. pose proof (find_bytes_at _ _ _ H) as Ho. pose proof (occurs_at_length _ _ _ Ho Hn).
  destruct (find_bytes_exists n (h ++ r) i) as (k & Hk & Hle); [by apply occurs_at_more; [|lia]|].
  rewrite Hk. pose proof (find_bytes_at _ _ _ Hk) as Hk'. apply occurs_at_app in Hk'; [|done|lia].
  pose proof (find_bytes_first _ _ _ _ H Hk'). f_equal. lia.
Qed.
Lemma occurs_at_lookup n h i j : occurs_at n h i -> (j < length n)%nat -> h !! (i + j)%nat = n !! j.
Proof. intros [post E] Hj. rewrite <- lookup_drop, E. by apply lookup_app_l. Qed.
(** An appended occurrence that the prefix does not have reaches past it. *)
Lemma find_bytes_late n h r i :
  find_bytes n h = None -> find_bytes n (h ++ r) = Some i -> n <> [] -> (length h < i + length n)%nat.
Proof.
  intros H Hi Hn. apply find_bytes_at in Hi.
  destruct (decide (i + length n <= length h)%nat); [|lia]. apply occurs_at_app in Hi; [|done|done].
  apply find_bytes_exists in Hi as (k & Hk & _). congruence.
Qed.

Lemma event_boundary_bound b e w : event_boundary b = Some (e, w) -> (2 <= w /\ e + w <= length b)%nat.
Proof.
  unfold event_boundary. intros H.
  destruct (find_bytes [10; 10] b) as [i|] eqn:Ei, (find_bytes [13; 10; 13; 10] b) as [j|] eqn:Ej;
    try case_bool_decide; simplify_eq;
    try (apply find_bytes_at, occurs_at_length in Ei; [|done]; cbn [length] in Ei);
    try (apply find_bytes_at, occurs_at_length in Ej; [|done]; cbn [length] in Ej); lia.
Qed.
Lemma event_boundary_app b r x : event_boundary b = Some x -> event_boundary (b ++ r) = Some x.
Proof.
  unfold event_boundary. intros H.
  destruct (find_bytes [10; 10] b) as [i|] eqn:Ei, (find_bytes [13; 10; 13; 10] b) as [j|] eqn:Ej.
  - by rewrite (find_bytes_app _ _ _ _ Ei), (find_bytes_app _ _ _ _ Ej) by done.
  - rewrite (find_bytes_app _ _ _ _ Ei) by done.
    destruct (find_bytes [13; 10; 13; 10] (b ++ r)) as [j|] eqn:Ej'; [|done].
    rewrite bool_decide_eq_false_2; [done|]. intros Hlt.
    pose proof (find_bytes_late _ _ _ _ Ej Ej' ltac:(discriminate)) as Hlate. cbn [length] in Hlate.
    apply find_bytes_at in Ei. pose proof (occurs_at_length _ _ _ Ei ltac:(discriminate)) as Hl. cbn [length] in Hl.
    apply find_bytes_at in Ej'. assert (i = S j) as -> by lia.
    pose proof (occurs_at_lookup _ _ _ 2 Ej' ltac:(cbn; lia)) as L1.
    pose proof (occurs_at_lookup _ _ _ 1 Ei ltac:(cbn; lia)) as L2. cbn in L1, L2.
    rewrite lookup_app_l in L1 by lia. replace (j + 2)%nat with (S j + 1)%nat in L1 by lia. cbn in L1. congruence.
  - rewrite (find_bytes_app _ _ _ _ Ej) by done.
    destruct (find_bytes [10; 10] (b ++ r)) as [i|] eqn:Ei'; [|done].
    rewrite bool_decide_eq_true_2; [done|].
    pose proof (find_bytes_late _ _ _ _ Ei Ei' ltac:(discriminate)) as Hlate. cbn [length] in Hlate.
    apply find_bytes_at in Ej. pose proof (occurs_at_length _ _ _ Ej ltac:(discriminate)) as Hl. cbn [length] in Hl. lia.
  - done.
Qed.

(** ** The reference *)

Fixpoint frames (fuel : nat) (b : list Z) : list (list Z) :=
  match fuel with
  | O => []
  | S fuel =>
      match event_boundary b with
      | None => []
      | Some (e, w) => take e b :: frames fuel (drop (e + w) b)
      end
  end.
(** The complete events of a body, every one of at least two bytes. *)
Definition sse_frames (body : list Z) : list (list Z) := frames (length body) body.

Lemma frames_enough f1 f2 b :
  (length b <= f1)%nat -> (length b <= f2)%nat -> frames f1 b = frames f2 b.
Proof.
  revert f2 b. induction f1 as [|f1 IH]; intros f2 b H1 H2.
  - destruct b; [|cbn in H1; lia]. by destruct f2.
  - destruct f2 as [|f2]; [destruct b; [done|cbn in H2; lia]|]. cbn [frames].
    destruct (event_boundary b) as [[e w]|] eqn:E; [|done]. apply event_boundary_bound in E as [Hw He].
    f_equal. apply IH; rewrite length_drop; lia.
Qed.

(** [fs] are the first events of [body], [rest] is what follows them. *)
Inductive framed : list Z -> list (list Z) -> list Z -> Prop :=
  | framed_nil b : framed b [] b
  | framed_cons b e w fs rest :
      event_boundary b = Some (e, w) -> framed (drop (e + w) b) fs rest ->
      framed b (take e b :: fs) rest.
Lemma framed_app b fs rest c : framed b fs rest -> framed (b ++ c) fs (rest ++ c).
Proof.
  induction 1 as [|b e w fs rest E _ IH]; [constructor|].
  pose proof (event_boundary_bound _ _ _ E).
  rewrite <- (take_app_le b c e) by lia. econstructor; [by apply event_boundary_app|].
  by rewrite drop_app_before by lia.
Qed.
Lemma framed_snoc b fs rest e w :
  framed b fs rest -> event_boundary rest = Some (e, w) ->
  framed b (fs ++ [take e rest]) (drop (e + w) rest).
Proof.
  induction 1 as [|b e' w' fs rest E _ IH]; intros H; cbn [app].
  - econstructor; [done|constructor].
  - econstructor; [done|]. by apply IH.
Qed.
Lemma framed_frames b fs rest : framed b fs rest -> sse_frames b = fs ++ sse_frames rest.
Proof.
  induction 1 as [|b e w fs rest E _ IH]; [done|]. pose proof (event_boundary_bound _ _ _ E).
  unfold sse_frames in *. destruct (length b) as [|n] eqn:En; [lia|]. cbn [frames app]. rewrite E.
  f_equal. rewrite <- IH. apply frames_enough; rewrite length_drop; lia.
Qed.

(** The bytes before the first transport error. *)
Fixpoint delivered (body : list (option (list Z))) : list Z :=
  match body with Some chunk :: rest => chunk ++ delivered rest | _ => [] end.
Lemma delivered_app done rest :
  Forall is_Some done -> delivered (done ++ rest) = delivered done ++ delivered rest.
Proof. induction 1 as [|x done [c ->] _ IH]; [done|]. cbn. by rewrite IH, app_assoc. Qed.

Section WithLibraries.
Context {MC : Memchr} {EN : Encodings} {ML : MemchrLaws} {SJ : Serde}.

(** The text of a list of events, and the automaton after them unless one is
    refused. *)
Fixpoint read_events (p : Projection) (fs : list (list Z)) : list Z * option Projection :=
  match fs with
  | [] => ([], Some p)
  | f :: rest =>
      match projection_event f p with
      | Err _ => ([], None)
      | Ok (p, delta) => let '(t, q) := read_events p rest in (default [] delta ++ t, q)
      end
  end.
Definition first_projection : Projection := mkProjection 0 None.
Definition wire_text (body : list Z) : list Z := (read_events first_projection (sse_frames body)).1.

Lemma read_events_app p fs gs t p' :
  read_events p fs = (t, Some p') -> read_events p (fs ++ gs) = (t ++ (read_events p' gs).1, (read_events p' gs).2).
Proof.
  revert p t. induction fs as [|f fs IH]; intros p t H; cbn [read_events app] in *.
  - simplify_eq. by destruct (read_events p' gs).
  - destruct (projection_event f p) as [[q d]|]; [|done].
    destruct (read_events q fs) as [t' o] eqn:E. simplify_eq.
    by rewrite (IH _ _ E), app_assoc.
Qed.

(** ** The invariant of the run *)

Section Run.
Variable needles : list (list Z).
(** What the scanner guarantees of an accepted text. *)
Variable accepted : list Z -> Prop.
Hypothesis accepted_nil : accepted [].
Hypothesis accepted_push : forall text d s s',
  sealer_ok text s -> sl_hold s = max_length needles * 6 + 5 -> accepted text ->
  sealer_push d needles s = Ok s' -> accepted (text ++ d).

(** [fs] are the events processed. *)
Record core_ok (fs : list (list Z)) (text : list Z) (st : TextRun) : Prop := {
  core_text : read_events first_projection fs = (text, Some (tr_projection st));
  core_sealer : sealer_ok text (tr_text st);
  core_held : held (tr_text st);
  core_hold : sl_hold (tr_text st) = max_length needles * 6 + 5;
  core_lag : sl_total (tr_text st) - sl_emitted (tr_text st) <= sl_hold (tr_text st) + 3;
  core_accepted : accepted text;
  core_sent : sent_ok text (sl_emitted (tr_text st)) (tr_sender st);
}.
Definition run_ok (body : list Z) (st : TextRun) : Prop :=
  exists fs text, framed body fs (tr_pending st) /\ core_ok fs text st.
(** An error leaves behind what an earlier state had sent. *)
Definition stopped (body : list Z) (out : Sender) : Prop :=
  exists done more st, body = done ++ more /\ run_ok done st /\ tr_sender st = out.

Lemma text_run_stopped done more st : run_ok done st -> stopped (done ++ more) (tr_sender st).
Proof. intros H. by exists done, more, st. Qed.

Lemma on_event_wp fs text frame st :
  core_ok fs text st ->
  wp (on_event needles frame)
    (fun _ st' => (exists text', core_ok (fs ++ [frame]) text' st') /\ tr_pending st' = tr_pending st)
    (fun _ st' => tr_sender st' = tr_sender st) st.
Proof.
  intros [Htext Hs Hh Hhold Hlag Ha Hsent]. unfold on_event. apply wp_bind, wp_gets, wp_bind, wp_lift; [|done].
  intros [p delta] Hp. apply wp_bind, wp_modify. cbn [set_projection].
  assert (Hof : read_events first_projection (fs ++ [frame]) = (text ++ default [] delta, Some p)).
  { rewrite (read_events_app _ _ _ _ _ Htext). cbn [read_events]. rewrite Hp. cbn. by rewrite app_nil_r. }
  destruct delta as [delta|]; cbn [default] in Hof.
  2: { apply wp_ret. split; [|done]. exists text. rewrite app_nil_r in Hof. by split. }
  apply wp_bind, wp_gets, wp_bind, wp_lift; [|done]. cbn. intros s Hpush.
  destruct (push_ok _ _ _ _ _ Hs Hpush) as (Hs' & Hh' & He' & Hhold' & _).
  apply wp_bind, wp_modify, wp_zoom. cbn.
  eapply wp_mono; [apply (release_wp (text ++ delta)); [done|auto|]| |].
  - cbn. rewrite He'. apply sent_ok_app; [|done]. destruct Hs as [_ Et ? _ _]. lia.
  - intros [] [s2 out2] (H1 & H2 & H3 & H4 & H5 & H6). cbn in H3. split; [|done].
    exists (text ++ delta). split; cbn; (done || lia || by eapply accepted_push).
  - intros e [s2 out2]. cbn. intros E. by simplify_eq/=.
Qed.

(** The loop over the pending events ends with none left. *)
Lemma drain_wp body more fuel st :
  run_ok body st -> (length (tr_pending st) <= fuel)%nat ->
  wp (drain fuel needles)
    (fun _ st' => run_ok body st' /\ event_boundary (tr_pending st') = None)
    (fun _ st' => stopped (body ++ more) (tr_sender st')) st.
Proof.
  revert st. induction fuel as [|fuel IH]; intros st Hst Hf; cbn [drain].
  { apply wp_ret. split; [done|]. by destruct (tr_pending st); [|cbn in Hf; lia]. }
  apply wp_bind, wp_gets. destruct (event_boundary (tr_pending st)) as [[e w]|] eqn:E; [|by apply wp_ret].
  pose proof Hst as (fs & text & Hframed & Hcore). apply wp_bind.
  eapply wp_mono; [by eapply on_event_wp| |].
  - intros [] st' [[text' H'] Hp]. apply wp_bind, wp_modify. apply event_boundary_bound in E as Hb.
    apply IH; cbn; [|rewrite length_drop; lia].
    exists (fs ++ [take e (tr_pending st)]), text'. split; [by apply framed_snoc|].
    by destruct H'; split.
  - intros err st' ->. by apply text_run_stopped.
Qed.

Lemma on_chunk_wp body chunk more limit st :
  run_ok body st ->
  wp (on_chunk needles limit chunk)
    (fun _ st' => run_ok (body ++ chunk) st' /\ event_boundary (tr_pending st') = None)
    (fun _ st' => stopped (body ++ chunk ++ more) (tr_sender st')) st.
Proof.
  intros Hst. pose proof (text_run_stopped _ (chunk ++ more) _ Hst) as Hstop.
  unfold on_chunk. apply wp_bind, wp_gets, wp_bind, wp_lift; [|done]. intros raw _.
  apply wp_bind, wp_modify, wp_bind, wp_gets, wp_bind, wp_check; intros _; [done|].
  apply wp_bind, wp_modify. cbn. rewrite app_assoc. apply drain_wp; [|done].
  destruct Hst as (fs & text & Hframed & Hcore). exists fs, text. split; [by apply framed_app|].
  by destruct Hcore; split.
Qed.

(** What a finished run has sent. *)
Definition finished (body : list Z) (status : TextStreamStatus) (out : Sender) : Prop :=
  exists s, sealer_ok (wire_text body) s /\ accepted (wire_text body) /\
    sl_hold s = max_length needles * 6 + 5 /\
    sent_ok (wire_text body) (sl_emitted s) out /\
    (if bool_decide (status = Completed) then sl_emitted s = sl_total s
     else sl_total s - sl_emitted s <= sl_hold s + 3).

Lemma on_end_wp body st :
  run_ok body st ->
  wp on_end (fun status st' => finished body status (tr_sender st'))
    (fun _ st' => stopped body (tr_sender st')) st.
Proof.
  intros Hst. pose proof (text_run_stopped _ [] _ Hst) as Hstop. rewrite app_nil_r in Hstop.
  unfold on_end. apply wp_bind, wp_gets, wp_bind, wp_check; [done|]. intros Hend.
  apply orb_false_iff in Hend as [Hp _]. apply negb_false_iff, bool_decide_eq_true in Hp. cbn in Hp.
  destruct Hst as (fs & text & Hframed & [Htext Hs Hh Hhold Hlag Ha Hsent]).
  assert (Hw : wire_text body = text).
  { unfold wire_text. rewrite (framed_frames _ _ _ Hframed), Hp. cbn [sse_frames frames length].
    by rewrite app_nil_r, Htext. }
  apply wp_bind, wp_lift; [|done]. intros status _. apply wp_bind. unfold finished. rewrite Hw.
  case_bool_decide; [|apply wp_ret, wp_ret; exists (tr_text st); by rewrite bool_decide_eq_false_2].
  apply wp_zoom. eapply wp_mono; [by apply (release_wp text)| |].
  - intros [] [s out] (H1 & H2 & H3 & H4 & H5). apply wp_ret. exists s. cbn in *.
    rewrite bool_decide_eq_true_2 by done. by rewrite H3.
  - intros e [s out]. cbn. intros E. by simplify_eq/=.
Qed.

Lemma text_run_ok response limit receiver :
  match text_run response needles limit (mkSender [] receiver) with
  | None => False
  | Some (Ok status, out) =>
      Forall is_Some (rs_body response) /\ finished (delivered (rs_body response)) status out
  | Some (Err _, out) => out = mkSender [] receiver \/ stopped (delivered (rs_body response)) out
  end.
Proof.
  unfold text_run. destruct (_ || _); [by left|].
  destruct (sealer_new needles limit) as [s|] eqn:Es; [|by left].
  destruct (sealer_new_ok _ _ _ Es) as (Hs & Hh & He & Hhold).
  set (st := mkTextRun s s first_projection [] (mkSender [] receiver)).
  set (whole := rs_body response).
  assert (Hstart : run_ok (delivered []) st /\ Forall (A:=option (list Z)) is_Some []).
  { split; [|constructor]. exists [], []. split; [constructor|].
    split; cbn; try done.
    - rewrite He, (ok_total _ _ Hs). pose proof (ok_hold _ _ Hs). unfold llen. cbn. lia.
    - rewrite He. by split. }
  assert (Hwp : wp (_ ← each (fun chunk => match chunk with
        | None => raise (Upstream "stream-transport")
        | Some chunk => on_chunk needles limit chunk
        end) whole; on_end)
      (fun status st' => Forall is_Some whole /\ finished (delivered whole) status (tr_sender st'))
      (fun _ st' => stopped (delivered whole) (tr_sender st')) st).
  { apply wp_bind. eapply wp_mono.
    - apply (wp_each _ (fun done st => run_ok (delivered done) st /\ Forall is_Some done)
               (fun _ st' => stopped (delivered whole) (tr_sender st'))); [|exact Hstart].
      intros done x rest st' -> [Hst Hd]. rewrite (delivered_app done (x :: rest)) by done. destruct x as [chunk|].
      + eapply wp_mono; [by apply (on_chunk_wp (delivered done) chunk (delivered rest))| |done]. intros [] st'' [H _].
        rewrite delivered_app by done. cbn. rewrite app_nil_r. split; [done|].
        apply Forall_app. split; [done|]. by repeat constructor.
      + apply wp_raise. by apply text_run_stopped.
    - intros [] st' [H1 H2]. eapply wp_mono; [by apply on_end_wp| |done]. done.
    - done. }
  change (mkTextRun s s (mkProjection 0 None) [] (mkSender [] receiver)) with st.
  unfold wp in Hwp. fold whole.
  match type of Hwp with match ?run with _ => _ end => destruct run as [[[status|e] st']|] end;
    [done|by right|done].
Qed.
End Run.

(** ** The properties *)

Lemma stopped_clean secret auth body out :
  secret <> [] -> stopped (sealing_needles secret auth) (clean secret) body out ->
  concat (sent out) `prefix_of` wire_text body /\ Forall chunk_ok (sent out) /\
  (forall pre enc post, wire_text body = pre ++ enc ++ post -> spelling secret pre enc ->
     llen (concat (sent out)) <= llen pre).
Proof.
  intros Hs (start & more & st & -> & (fs & text & Hframed & [Htext Hok Hheld Hhold _ Hc [Hpre Hall Hch]]) & <-).
  assert (E : exists rest, wire_text (start ++ more) = text ++ rest).
  { unfold wire_text. rewrite (framed_frames _ _ _ (framed_app _ _ _ more Hframed)).
    rewrite (read_events_app _ _ _ _ _ Htext). eauto. }
  destruct E as [rest ->]. split; [|split; [done|]].
  - etransitivity; [exact Hpre|]. apply prefix_app_r. unfold take_z. apply prefix_take.
  - intros pre enc post E Hsp. pose proof (spelling_length _ auth _ _ Hs Hsp).
    pose proof (clean_ends_after _ _ _ _ _ _ Hc Hsp E) as Hend. rewrite llen_app in Hend.
    pose proof (held_back _ Hheld). apply prefix_length in Hpre. pose proof (llen_nonneg pre).
    destruct Hok as [_ Et Ho _ _]. unfold take_z in Hpre. rewrite length_take in Hpre.
    unfold llen, sat_sub in *. lia.
Qed.
Lemma finished_clean secret auth body status out :
  secret <> [] -> finished (sealing_needles secret auth) (clean secret) body status out ->
  concat (sent out) `prefix_of` wire_text body /\ Forall chunk_ok (sent out) /\
  clean secret (wire_text body).
Proof.
  intros Hs (s & Hok & Hc & _ & [Hpre _ Hch] & _). split; [|done].
  etransitivity; [exact Hpre|]. unfold take_z. apply prefix_take.
Qed.

(** C30: Whatever the provider sends and however the network cuts it, the receiver sees
    a prefix of the text of the events, in whole characters and chunks of at most
    16 KiB, and not a byte of the first spelling of the credential in that text:
    no encoding the code lists, no percent or JSON spelling. *)
Theorem text_stream_withholds_credential response secret auth limit receiver r out :
  secret <> [] ->
  text_run response (sealing_needles secret auth) limit (mkSender [] receiver) = Some (r, out) ->
  let text := wire_text (delivered (rs_body response)) in
  concat (sent out) `prefix_of` text /\ Forall chunk_ok (sent out) /\
  (forall pre enc post, text = pre ++ enc ++ post -> spelling secret pre enc ->
     llen (concat (sent out)) <= llen pre).
Proof.
  intros Hs H. cbv zeta.
  pose proof (text_run_ok (sealing_needles secret auth) (clean secret) (clean_nil _ Hs)
    (fun text d s s' Hok Hh Hc Hp => push_clean _ auth _ _ _ _ Hs Hok Hh Hc Hp) response limit receiver) as Hrun.
  rewrite H in Hrun. destruct r as [status|e].
  - destruct Hrun as [_ Hf]. destruct (finished_clean _ _ _ _ _ Hs Hf) as (H1 & H2 & H3).
    split; [done|]. split; [done|]. intros pre enc post E Hsp. by destruct (H3 _ _ _ E).
  - destruct Hrun as [->|Hst]; [|by apply (stopped_clean _ auth)].
    split; [apply prefix_nil|]. split; [constructor|]. intros pre enc post _ _. apply llen_nonneg.
Qed.

(** The run returns on every input: the loops end and no index is out of range. *)
Theorem text_stream_returns response needles limit receiver :
  exists r out, text_run response needles limit (mkSender [] receiver) = Some (r, out).
Proof.
  pose proof (text_run_ok needles (fun _ => True) I (fun _ _ _ _ _ _ _ _ => I) response limit receiver) as H.
  destruct (text_run _ _ _ _) as [[r out]|]; [eauto|done].
Qed.

(** A receiver that has not gone away gets the whole text of a stream that
    completes, and of one that the provider ends early all but a bounded tail. *)
Theorem text_stream_delivers response needles limit receiver status out :
  text_run response needles limit (mkSender [] receiver) = Some (Ok status, out) ->
  open_for out <> Some O ->
  let text := wire_text (delivered (rs_body response)) in
  Forall is_Some (rs_body response) /\
  concat (sent out) `prefix_of` text /\
  if bool_decide (status = Completed) then concat (sent out) = text
  else llen text - llen (concat (sent out)) <= max_length needles * 6 + 8.
Proof.
  intros H Hopen. cbv zeta.
  pose proof (text_run_ok needles (fun _ => True) I (fun _ _ _ _ _ _ _ _ => I) response limit receiver) as Hrun.
  rewrite H in Hrun. destruct Hrun as (Hall & s & Hok & _ & Hh & [_ Heq _] & Hend).
  specialize (Heq Hopen). rewrite Heq. split; [done|]. split; [unfold take_z; apply prefix_take|].
  destruct Hok as [_ Et Ho _ _]. case_bool_decide.
  - apply take_z_all. lia.
  - rewrite llen_take_z; lia.
Qed.
End WithLibraries.

(** ** Concrete runs *)

#[local] Existing Instances model_memchr model_memchr_laws model_encodings.

Module Example.

(** Events whose data line is a label that the table gives a meaning. *)
Definition data_of (kind label : string) : list Z :=
  bytes_of "event: " ++ bytes_of kind ++ [10] ++ bytes_of "data: " ++ bytes_of label ++ [10; 10].
Definition typed (kind : string) (fields : list (string * JsonEvents Z)) : JsonEvents Z :=
  EvMap (("type"%string, EvString kind) :: fields).
Definition index0 : string * JsonEvents Z := ("index"%string, EvNumber 0).
Definition text_delta (text : list Z) : JsonEvents Z :=
  typed "content_block_delta"
    [index0; ("delta"%string, typed "text_delta" [("text"%string, EvString (text_of text))])].
Definition table (data : list Z) : option (JsonEvents Z) :=
  if bool_decide (data = bytes_of "start") then
    Some (typed "message_start" [("message"%string, EvMap
      [("role"%string, EvString "assistant"); ("content"%string, EvSeq []); ("stop_reason"%string, EvNull)])])
  else if bool_decide (data = bytes_of "block") then
    Some (typed "content_block_start" [index0; ("content_block"%string, typed "text" [("text"%string, EvString "")])])
  else if bool_decide (data = bytes_of "unblock") then Some (typed "content_block_stop" [index0])
  else if bool_decide (data = bytes_of "end") then
    Some (typed "message_delta" [("delta"%string, EvMap
      [("stop_reason"%string, EvString "end_turn"); ("stop_sequence"%string, EvNull)])])
  else if bool_decide (data = bytes_of "stop") then Some (typed "message_stop" [])
  else Some (text_delta data).
#[export] Instance example_serde : Serde := table_serde table.

Definition zs (n : nat) : string := text_of (repeat 122 n).
(** The stream up to the first text, with the credential cut across two events and
    the network cutting inside a line. *)
Definition echo : list Z :=
  data_of "message_start" "start" ++ data_of "content_block_start" "block"
  ++ data_of "content_block_delta" (zs 80) ++ data_of "content_block_delta" "tail k/"
  ++ data_of "content_block_delta" "9!".
Definition whole : list Z :=
  data_of "message_start" "start" ++ data_of "content_block_start" "block"
  ++ data_of "content_block_delta" (zs 80) ++ data_of "content_block_stop" "unblock"
  ++ data_of "message_delta" "end" ++ data_of "message_stop" "stop".
Definition response (body : list Z) : StreamResponse := mkStreamResponse 200
  [("content-type"%string, "text/event-stream"%string)] []
  [Some (take 100 body); Some (drop 100 body)].

End Example.

Section Witnesses.
Import Example.

(** 28 of the 80 bytes before the credential have been sent when it completes. *)
Lemma text_stream_withholds_credential_witness :
  let text := wire_text (delivered (rs_body (response echo))) in
  exists out,
    text_run (response echo) (sealing_needles [107; 47; 57] []) 4096 (mkSender [] None)
      = Some (Err ResponseSecurityViolation, out) /\
    length (concat (sent out)) = 28%nat /\
    concat (sent out) `prefix_of` text /\
    llen (concat (sent out)) <= 85.
Proof.
  assert (E : text_run (response echo) (sealing_needles [107; 47; 57] []) 4096 (mkSender [] None)
    = Some (Err ResponseSecurityViolation, mkSender [repeat 122 21; repeat 122 7] None))
    by (vm_compute; reflexivity).
  eexists. split; [exact E|]. split; [reflexivity|].
  destruct (text_stream_withholds_credential _ [107; 47; 57] [] _ _ _ _ ltac:(discriminate) E)
    as (H1 & _ & H2).
  split; [exact H1|].
  apply (H2 (repeat 122 80 ++ bytes_of "tail ") [107; 47; 57] (bytes_of "!")); [vm_compute; reflexivity|].
  left. split; [left|discriminate].
Defined.

Lemma text_stream_delivers_witness :
  exists out,
    text_run (response whole) (sealing_needles [107; 47; 57] []) 4096 (mkSender [] None)
      = Some (Ok Completed, out) /\
    concat (sent out) = wire_text (delivered (rs_body (response whole))).
Proof.
  assert (E : text_run (response whole) (sealing_needles [107; 47; 57] []) 4096 (mkSender [] None)
    = Some (Ok Completed, mkSender [repeat 122 21; repeat 122 59] None))
    by (vm_compute; reflexivity).
  eexists. split; [exact E|].
  destruct (text_stream_delivers _ _ _ _ _ _ E ltac:(discriminate)) as (_ & _ & H). exact H.
Defined.

End Witnesses.
