(* ===== verification/LlmTail.v ===== *)
(** * LlmTail: the text of one channel while a credential may still end in it

    [rekey-broker/src/executor/llm_stream.rs], [Tail]: the last bytes of a text
    that arrives in pieces, scanned at every piece, and the raw frames that have
    bytes in it. [reclaim_metadata] shortens the tail of a text without escapes to
    the longest suffix that begins a needle, found with the failure function of
    each needle. The growth of the buffer, which only moves it, is not modelled. *)

From S2P Require Import Prelude Strings Bytes Errors Domain Decimal Json Sealing Sealer TextStreamTheorems.

Definition invalid : BrokerError := Upstream "invalid-stream".

(** [frames] has, for each piece, the end of its text and the start of its frame. *)
Record Tail := mkTail { tl_bytes : list Z; tl_total : Z; tl_frames : list (Z * Z) }.
Definition tail_default : Tail := mkTail [] 0 [].

Fixpoint pop_front_while {A} (p : A -> bool) (l : list A) : list A :=
  match l with
  | [] => []
  | x :: r => if p x then pop_front_while p r else l
  end.
Definition keep_last {A} (n : nat) (l : list A) : list A := drop (length l - n) l.

Section WithLibraries.
Context {MC : Memchr}.

(** [Tail::push]. *)
Definition tail_push (value : list Z) (frame hold : Z) (needles : list (list Z)) (t : Tail)
  : result BrokerError Tail :=
  if bool_decide (value = []) then Ok t
  else
    let bytes := tl_bytes t ++ value in
    reject_if usize_max <? llen bytes with invalid ;;
    reject_if contains_secret bytes needles with ResponseSecurityViolation ;;
    let total := tl_total t + llen value in
    reject_if usize_max <? total with invalid ;;
    let keep := Z.min (llen bytes) hold in
    Ok (mkTail (keep_last (Z.to_nat keep) bytes) total
               (pop_front_while (fun f => f.1 <=? sat_sub total hold)
                                (tl_frames t ++ [(total, frame)]))).

(** ** [Tail::reclaim_metadata] *)

(** [while matched > 0 && byte != needle[matched] { matched = fallback[matched - 1] }];
    every turn lowers [matched]. An index out of range is [None]. *)
Fixpoint back_off (fuel : nat) (needle : list Z) (fallback : list nat) (byte : Z) (matched : nat)
  : option nat :=
  match matched with
  | O => Some O
  | S m =>
      c ← needle !! matched;
      if byte =? c then Some matched
      else match fuel with
      | O => None
      | S fuel => next ← fallback !! m; back_off fuel needle fallback byte next
      end
  end.
Definition advance (needle : list Z) (fallback : list nat) (byte : Z) (matched : nat) : option nat :=
  matched ← back_off matched needle fallback byte matched;
  c ← needle !! matched;
  Some (if byte =? c then S matched else matched).
(** [for i in 1..bound]: [count] turns from [i]. *)
Fixpoint build (needle : list Z) (i count : nat) (fallback : list nat) : option (list nat) :=
  match count with
  | O => Some fallback
  | S count =>
      matched ← fallback !! (i - 1)%nat;
      byte ← needle !! i;
      matched ← advance needle fallback byte matched;
      _ ← fallback !! i;
      build needle (S i) count (<[i := matched]> fallback)
  end.
Fixpoint scan (needle : list Z) (fallback : list nat) (matched : nat) (l : list Z) : option nat :=
  match l with
  | [] => Some matched
  | byte :: rest => matched ← advance needle fallback byte matched; scan needle fallback matched rest
  end.
Definition needle_bound (bytes needle : list Z) : nat := Nat.min (length needle - 1) (length bytes).
(** The loop over the needles; the table is shared. *)
Fixpoint reclaim_keep (bytes : list Z) (fallback : list nat) (keep : nat) (needles : list (list Z))
  : option nat :=
  match needles with
  | [] => Some keep
  | needle :: rest =>
      let bound := needle_bound bytes needle in
      if bool_decide (bound <= keep)%nat then reclaim_keep bytes fallback keep rest
      else
        fallback ← build needle 1 (bound - 1) fallback;
        matched ← scan needle fallback 0 (keep_last bound bytes);
        reclaim_keep bytes fallback (Nat.max keep matched) rest
  end.
Definition is_marker (b : Z) : bool := (b =? 37) || (b =? 92).
Definition tail_keep (keep : nat) (t : Tail) : Tail :=
  mkTail (keep_last keep (tl_bytes t)) (tl_total t)
    (pop_front_while (fun f => f.1 <=? tl_total t - Z.of_nat keep) (tl_frames t)).
Definition tail_reclaim (needles : list (list Z)) (t : Tail) : option Tail :=
  if forallb (fun needle => bool_decide (needle = [])) needles then Some (tail_keep 0 t)
  else if existsb is_marker (tl_bytes t) then Some t
  else
    let bound := fold_right Nat.max 0%nat (map (needle_bound (tl_bytes t)) needles) in
    keep ← reclaim_keep (tl_bytes t) (repeat 0%nat bound) 0 needles;
    Some (tail_keep keep t).

End WithLibraries.

(** ** The failure function *)

Section Kmp.
Variable needle : list Z.

(** The first [k] bytes of the needle end [s]. *)
Definition begins (k : nat) (s : list Z) : Prop :=
  (k <= length needle)%nat /\ take k needle `suffix_of` s.
(** [r] is the longest. *)
Definition best (s : list Z) (r : nat) : Prop := begins r s /\ forall k, begins k s -> (k <= r)%nat.
(** Entry [j] is the longest proper one of the first [j + 1] bytes. *)
Definition table_ok (fallback : list nat) (n : nat) : Prop :=
  forall j, (j < n)%nat -> exists f, fallback !! j = Some f /\ best (drop 1 (take (S j) needle)) f.

Lemma begins_0 s : begins 0 s.
Proof. split; [lia|]. apply suffix_nil. Qed.
Lemma begins_length k s : begins k s -> (k <= length s)%nat.
Proof. intros [H Hs]. apply suffix_length in Hs. rewrite length_take in Hs. lia. Qed.
Lemma begins_snoc k b s :
  begins k (s ++ [b]) <-> k = O \/ exists j, k = S j /\ begins j s /\ needle !! j = Some b.
Proof.
  split.
  - intros [Hk Hs]. destruct k as [|j]; [by left|]. right. exists j. split; [done|].
    destruct (lookup_lt_is_Some_2 needle j) as [c Hc]; [lia|].
    rewrite (take_S_r _ _ _ Hc) in Hs.
    pose proof (suffix_snoc_inv_1 _ _ _ _ Hs) as ->. apply suffix_snoc_inv_2 in Hs.
    split; [|done]. split; [lia|done].
  - intros [->|(j & -> & [Hj Hs] & Hb)]; [apply begins_0|]. pose proof (lookup_lt_Some _ _ _ Hb).
    split; [lia|]. rewrite (take_S_r _ _ _ Hb). by apply suffix_snoc.
Qed.
(** Of two, the shorter ends the longer. *)
Lemma begins_nested k m s : begins k s -> begins m s -> (k < m)%nat -> begins k (drop 1 (take m needle)).
Proof.
  intros [Hk Ha] [Hm Hb] Hlt. split; [done|].
  assert (Hs : take k needle `suffix_of` take m needle).
  { destruct (suffix_weak_total _ _ _ Ha Hb) as [H|H]; [done|].
    apply suffix_length in H. rewrite !length_take in H. lia. }
  destruct (take m needle) as [|x r] eqn:E; [apply suffix_length in Hs; rewrite length_take in Hs;
    apply (f_equal length) in E; rewrite length_take in E; cbn in *; lia|].
  destruct (take k needle) as [|y l] eqn:Ek; [apply suffix_nil|].
  apply suffix_cons_inv in Hs as [Hs|Hs]; [|done].
  apply (f_equal length) in Hs. rewrite <- E, <- Ek, !length_take in Hs. lia.
Qed.
Lemma begins_trans k m s :
  begins k (drop 1 (take m needle)) -> begins m s -> (0 < m)%nat -> begins k s /\ (k < m)%nat.
Proof.
  intros [Hk Ha] [Hm Hb] Hlt. split; [split; [done|]|].
  - etransitivity; [exact Ha|]. etransitivity; [apply suffix_drop|exact Hb].
  - apply suffix_length in Ha. rewrite length_drop, !length_take in Ha. lia.
Qed.

(** [back_off] finds the longest one that the byte extends, or none. *)
Lemma back_off_ok fallback n byte s :
  table_ok fallback n -> forall fuel m,
  begins m s -> (forall k, begins k s -> needle !! k = Some byte -> (k <= m)%nat) ->
  (m <= fuel)%nat -> (m <= n)%nat -> (m < length needle)%nat ->
  exists r, back_off fuel needle fallback byte m = Some r /\ begins r s /\ (r <= m)%nat /\
    (r = 0%nat \/ needle !! r = Some byte) /\
    (forall k, begins k s -> needle !! k = Some byte -> (k <= r)%nat).
Proof.
  intros Htab. induction fuel as [|fuel IH]; intros m Hm Hbest Hf Hn Hlen.
  { assert (m = 0%nat) as -> by lia. exists 0%nat. split; [done|]. auto. }
  destruct m as [|m]; [exists 0%nat; split; [done|]; auto|]. cbn [back_off].
  destruct (lookup_lt_is_Some_2 needle (S m) Hlen) as [c Hc]. rewrite Hc. cbn [mbind option_bind].
  destruct (Z.eqb_spec byte c) as [->|Hne]; [exists (S m); split; [done|]; auto|].
  destruct (Htab m ltac:(lia)) as (f & Hfb & [Hfbegins Hfbest]). rewrite Hfb. cbn [mbind option_bind].
  destruct (begins_trans _ _ _ Hfbegins Hm ltac:(lia)) as [Hfs Hflt].
  destruct (IH f) as (r & Hr & H1 & H2 & H3 & H4); try done; try lia.
  - intros k Hk Hb. apply Hfbest. specialize (Hbest k Hk Hb).
    apply (begins_nested k (S m) s); [done|done|].
    destruct (decide (k = S m)) as [->|]; [congruence|lia].
  - exists r. split; [done|]. split; [done|]. split; [lia|]. auto.
Qed.
Lemma advance_ok fallback n byte s m :
  table_ok fallback n -> best s m -> (m <= n)%nat -> (m < length needle)%nat ->
  exists r, advance needle fallback byte m = Some r /\ best (s ++ [byte]) r /\ (r <= S m)%nat.
Proof.
  intros Htab [Hm Hbest] Hn Hlen. unfold advance.
  destruct (back_off_ok fallback n byte s Htab m m) as (r & Hr & Hrs & Hrm & Hr0 & Hrbest); try done.
  { intros k Hk _. by apply Hbest. }
  rewrite Hr. cbn [mbind option_bind].
  destruct (lookup_lt_is_Some_2 needle r) as [c Hc]; [lia|]. rewrite Hc. cbn [mbind option_bind].
  destruct (Z.eqb_spec byte c) as [->|Hne]; (eexists; split; [done|]; split; [split|lia]).
  - apply begins_snoc. right. by exists r.
  - intros k [->|(j & -> & Hj & Hb)]%begins_snoc; [lia|]. specialize (Hrbest j Hj Hb). lia.
  - destruct Hr0 as [->|Hr0]; [apply begins_0|congruence].
  - intros k [->|(j & -> & Hj & Hb)]%begins_snoc; [lia|]. specialize (Hrbest j Hj Hb).
    destruct Hr0 as [->|Hr0]; [|congruence]. assert (j = 0%nat) as -> by lia. congruence.
Qed.

(** The table, entry by entry. *)
Lemma build_ok count i fallback :
  table_ok fallback i -> (0 < i)%nat -> (i + count <= length fallback)%nat ->
  (i + count < length needle)%nat ->
  exists table, build needle i count fallback = Some table /\ table_ok table (i + count) /\
    length table = length fallback.
Proof.
  revert i fallback. induction count as [|count IH]; intros i fallback Htab Hi Hl Hn; cbn [build].
  { exists fallback. rewrite Nat.add_0_r. by split. }
  destruct (Htab (i - 1)%nat ltac:(lia)) as (f & Hf & Hbest). rewrite Hf. cbn [mbind option_bind].
  destruct (lookup_lt_is_Some_2 needle i ltac:(lia)) as [b Hb]. rewrite Hb. cbn [mbind option_bind].
  replace (S (i - 1))%nat with i in Hbest by lia.
  pose proof (begins_length _ _ (proj1 Hbest)) as Hfl. rewrite length_drop, length_take in Hfl.
  destruct (advance_ok fallback i b _ f Htab Hbest ltac:(lia) ltac:(lia)) as (r & Hr & Hrbest & _).
  rewrite Hr. cbn [mbind option_bind].
  destruct (lookup_lt_is_Some_2 fallback i ltac:(lia)) as [o Ho]. rewrite Ho. cbn [mbind option_bind].
  destruct (IH (S i) (<[i := r]> fallback)) as (table & Ht & H1 & H2).
  - intros j Hj. destruct (decide (j = i)) as [->|Hne].
    + exists r. split; [apply list_lookup_insert_eq; lia|].
      rewrite (take_S_r _ _ _ Hb), drop_app_before by (rewrite length_take; lia). done.
    + rewrite list_lookup_insert_ne by done. apply Htab. lia.
  - lia.
  - rewrite length_insert. lia.
  - lia.
  - exists table. rewrite length_insert in H2. split; [done|]. split; [|done].
    by replace (i + S count)%nat with (S i + count)%nat by lia.
Qed.
Lemma scan_ok fallback n s l m :
  table_ok fallback n -> best s m -> (length s + length l <= n)%nat -> (n < length needle)%nat ->
  exists r, scan needle fallback m l = Some r /\ best (s ++ l) r.
Proof.
  intros Htab. revert s m. induction l as [|b l IH]; intros s m Hm Hn Hlen; cbn [scan].
  { exists m. by rewrite app_nil_r. }
  pose proof (begins_length _ _ (proj1 Hm)). cbn in Hn.
  destruct (advance_ok fallback n b s m Htab Hm ltac:(lia) ltac:(lia)) as (r & Hr & Hrb & _).
  rewrite Hr. cbn [mbind option_bind].
  destruct (IH (s ++ [b]) r Hrb) as (r' & Hr' & Hb'); [rewrite length_app; cbn; lia|done|].
  exists r'. split; [done|]. by rewrite <- app_assoc in Hb'.
Qed.
End Kmp.

(** ** [reclaim_metadata] keeps the longest beginning of a needle *)

Definition partial (needles : list (list Z)) (bytes : list Z) (k : nat) : Prop :=
  k = 0%nat \/ exists needle, needle ∈ needles /\ (k < length needle)%nat /\
    take k needle `suffix_of` bytes.

Lemma keep_last_length {A} n (l : list A) : length (keep_last n l) = Nat.min n (length l).
Proof. unfold keep_last. rewrite length_drop. lia. Qed.
Lemma keep_last_suffix {A} n (l : list A) : keep_last n l `suffix_of` l.
Proof. apply suffix_drop. Qed.
Lemma suffix_keep_last {A} n (s l : list A) :
  s `suffix_of` l -> (length s <= n)%nat -> s `suffix_of` keep_last n l.
Proof.
  intros Hs Hn. destruct (suffix_weak_total _ _ _ Hs (keep_last_suffix n l)) as [H|H]; [done|].
  pose proof (suffix_length _ _ H) as Hl. rewrite keep_last_length in Hl.
  pose proof (suffix_length _ _ Hs). rewrite (suffix_length_eq _ _ H); [done|].
  rewrite keep_last_length. lia.
Qed.

Lemma table_start needle fallback : fallback !! 0%nat = Some 0%nat -> table_ok needle fallback 1.
Proof.
  intros H j Hj. assert (j = 0%nat) as -> by lia. exists 0%nat. split; [done|].
  split; [apply begins_0|]. intros k [Hk Hs]. apply suffix_length in Hs.
  rewrite length_drop, !length_take in Hs. lia.
Qed.
Lemma table_zero needle fallback n : (0 < n)%nat -> table_ok needle fallback n -> fallback !! 0%nat = Some 0%nat.
Proof.
  intros Hn H. destruct (H 0%nat Hn) as (f & Hf & [Hb _]). apply begins_length in Hb.
  rewrite length_drop, length_take in Hb. rewrite Hf. f_equal. lia.
Qed.

Lemma reclaim_keep_ok bytes needles fallback keep :
  (forall needle, needle ∈ needles -> (needle_bound bytes needle <= length fallback)%nat) ->
  ((0 < length fallback)%nat -> fallback !! 0%nat = Some 0%nat) ->
  exists r, reclaim_keep bytes fallback keep needles = Some r /\ (keep <= r)%nat /\
    (r = keep \/ partial needles bytes r) /\
    (forall needle k, needle ∈ needles -> (k < length needle)%nat -> take k needle `suffix_of` bytes -> (k <= r)%nat).
Proof.
  revert fallback keep. induction needles as [|needle needles IH]; intros fallback keep Hb Hz; cbn [reclaim_keep].
  { exists keep. split; [done|]. split; [done|]. split; [by left|]. by intros ? ? ?%not_elem_of_nil. }
  pose proof (Hb needle ltac:(left)) as Hbn. set (bound := needle_bound bytes needle) in *.
  assert (Hsmall : forall k, (k < length needle)%nat -> take k needle `suffix_of` bytes -> (k <= bound)%nat).
  { intros k Hk Hs. apply suffix_length in Hs. rewrite length_take in Hs. unfold bound, needle_bound. lia. }
  assert (Hmore : forall keep' fb,
    length fb = length fallback -> ((0 < length fb)%nat -> fb !! 0%nat = Some 0%nat) ->
    (keep <= keep')%nat -> (keep' = keep \/ partial (needle :: needles) bytes keep') ->
    (forall k, (k < length needle)%nat -> take k needle `suffix_of` bytes -> (k <= keep')%nat) ->
    exists r, reclaim_keep bytes fb keep' needles = Some r /\ (keep <= r)%nat /\
      (r = keep \/ partial (needle :: needles) bytes r) /\
      (forall n k, n ∈ needle :: needles -> (k < length n)%nat -> take k n `suffix_of` bytes -> (k <= r)%nat)).
  { intros keep' fb Hl Hz' Hk Hp Hn. destruct (IH fb keep') as (r & Hr & H1 & H2 & H3); [|done|].
    { intros n Hin. rewrite Hl. apply Hb. by right. }
    exists r. split; [done|]. split; [lia|]. split.
    - destruct H2 as [->|[->|(n & Hin & H2)]]; [done|by right; left|].
      right. right. exists n. split; [by right|done].
    - intros n k [->|Hin]%elem_of_cons Hkn Hs; [specialize (Hn k Hkn Hs); lia|by eapply H3]. }
  case_bool_decide as Hskip.
  - apply Hmore; [done|done|lia|by left|]. intros k Hk Hs. specialize (Hsmall k Hk Hs). lia.
  - assert (Hbl : (bound < length needle)%nat) by (unfold bound, needle_bound in *; lia).
    destruct (build_ok needle (bound - 1) 1 fallback) as (table & Ht & Htab & Htl);
      [apply table_start, Hz; lia|lia|lia|lia|].
    rewrite Ht. cbn [mbind option_bind]. replace (1 + (bound - 1))%nat with bound in Htab by lia.
    destruct (scan_ok needle table bound [] (keep_last bound bytes) 0) as (m & Hm & [Hmb Hmbest]);
      [done|split; [apply begins_0|by intros k ?%begins_length]|rewrite keep_last_length; cbn; lia|done|].
    cbn [app] in *. rewrite Hm. cbn [mbind option_bind]. apply Hmore; [done| |lia| |].
    + intros _. eapply table_zero; [|done]. lia.
    + destruct (Nat.max_spec keep m) as [[_ ->]|[_ ->]]; [|by left]. right. right. exists needle.
      pose proof (begins_length _ _ _ Hmb) as Hl. rewrite keep_last_length in Hl.
      split; [left|]. split; [lia|]. destruct Hmb as [_ Hs]. etransitivity; [exact Hs|apply keep_last_suffix].
    + intros k Hk Hs. pose proof (Hsmall k Hk Hs).
      assert (k <= m)%nat; [|lia]. apply Hmbest. split; [lia|]. apply suffix_keep_last; [done|].
      rewrite length_take. lia.
Qed.

Lemma bound_max bytes needles needle :
  needle ∈ needles -> (needle_bound bytes needle <= fold_right Nat.max 0 (map (needle_bound bytes) needles))%nat.
Proof.
  induction needles as [|n needles IH]; [by intros ?%not_elem_of_nil|].
  intros [->|H]%elem_of_cons; cbn; [lia|]. specialize (IH H). lia.
Qed.

Lemma reclaim_ok needles t :
  existsb is_marker (tl_bytes t) = false ->
  exists k, tail_reclaim needles t = Some (tail_keep k t) /\
    partial needles (tl_bytes t) k /\ forall j, partial needles (tl_bytes t) j -> (j <= k)%nat.
Proof.
  intros Hm. unfold tail_reclaim. destruct (forallb _ needles) eqn:He.
  { exists 0%nat. split; [done|]. split; [by left|]. intros j [->|(n & Hn & Hj & _)]; [done|].
    rewrite forallb_forall in He. apply list_elem_of_In, He in Hn. reflect_bools. subst. cbn in Hj. lia. }
  rewrite Hm. set (bound := fold_right _ _ _).
  destruct (reclaim_keep_ok (tl_bytes t) needles (repeat 0%nat bound) 0) as (r & Hr & _ & Hp & Hmax).
  { intros n Hn. rewrite repeat_length. by apply bound_max. }
  { rewrite repeat_length. intros Hb. destruct bound; [lia|done]. }
  exists r. rewrite Hr. split; [done|]. split; [by destruct Hp as [->|]; [left|]|].
  intros j [->|(n & Hn & Hj & Hs)]; [lia|]. by eapply Hmax.
Qed.

(** The failure functions find exactly the longest suffix of the tail that a needle
    can still complete; no index is out of range. *)
Theorem reclaim_keeps_longest needles t :
  existsb is_marker (tl_bytes t) = false ->
  exists k, tail_reclaim needles t = Some (tail_keep k t) /\
    partial needles (tl_bytes t) k /\ forall j, partial needles (tl_bytes t) j -> (j <= k)%nat.
Proof. apply reclaim_ok. Qed.

(** A periodic needle: of [xabab] the tail [abab] can become [ababac]. *)
Lemma reclaim_keeps_longest_witness :
  let t := mkTail (bytes_of "xabab") 5 [(5, 0)] in
  tail_reclaim [bytes_of "ababac"; bytes_of "bb"] t = Some (mkTail (bytes_of "abab") 5 [(5, 0)]) /\
  exists k, partial [bytes_of "ababac"; bytes_of "bb"] (tl_bytes t) k /\ (3 < k)%nat.
Proof.
  split; [vm_compute; reflexivity|].
  destruct (reclaim_keeps_longest [bytes_of "ababac"; bytes_of "bb"] (mkTail (bytes_of "xabab") 5 [(5, 0)])
    ltac:(reflexivity)) as (k & _ & Hp & Hmax).
  exists k. split; [exact Hp|]. specialize (Hmax 4%nat). apply Hmax. right.
  exists (bytes_of "ababac"). split; [left|]. split; [cbn; lia|]. by exists (bytes_of "x").
Defined.

(** * A tail keeps what a credential can still be made of

    A [Tail] against the history of the pieces pushed into it: no accepted text has
    a spelling of the secret, everything that a later piece can complete to one is
    still in the tail, and the raw frames of those bytes are still recorded. *)

(** Pieces with the start of their raw frame. *)
Abbreviation History := (list (list Z * Z)).
Definition text (h : History) : list Z := concat (map fst h).
(** The end of every piece that is not empty, with its frame. *)
Fixpoint entries (offset : Z) (h : History) : list (Z * Z) :=
  match h with
  | [] => []
  | (v, f) :: r =>
      if bool_decide (v = []) then entries offset r
      else (offset + llen v, f) :: entries (offset + llen v) r
  end.

(** The frame of a byte of the text. *)
Fixpoint frame_at (h : History) (i : Z) : Z :=
  match h with
  | [] => 0
  | (v, f) :: r => if i <? llen v then f else frame_at r (i - llen v)
  end.

Lemma text_snoc h v f : text (h ++ [(v, f)]) = text h ++ v.
Proof. unfold text. rewrite map_app, concat_app. cbn. by rewrite app_nil_r. Qed.
Lemma text_app h1 h2 : text (h1 ++ h2) = text h1 ++ text h2.
Proof. unfold text. by rewrite map_app, concat_app. Qed.
Lemma entries_snoc offset h v f :
  v <> [] -> entries offset (h ++ [(v, f)]) = entries offset h ++ [(offset + llen (text h) + llen v, f)].
Proof.
  intros Hv. revert offset. induction h as [|[v' f'] h IH]; intros offset; cbn [app entries].
  - rewrite bool_decide_eq_false_2 by done.
    by replace (offset + llen (text []) + llen v) with (offset + llen v) by (unfold text, llen; cbn; lia).
  - replace (llen (text ((v', f') :: h))) with (llen v' + llen (text h))
      by (unfold text; cbn; by rewrite llen_app).
    case_bool_decide as E; rewrite IH.
    + subst. by do 3 f_equal.
    + cbn. do 4 f_equal. lia.
Qed.
Lemma entries_snoc_nil offset h f : entries offset (h ++ [([], f)]) = entries offset h.
Proof.
  revert offset. induction h as [|[v' f'] h IH]; intros offset; cbn [app entries]; [done|].
  case_bool_decide; by rewrite IH.
Qed.

Lemma frame_at_entry offset h i :
  0 <= i < llen (text h) -> exists e, (offset + e, frame_at h i) ∈ entries offset h /\ i < e.
Proof.
  revert offset i. induction h as [|[v f] h IH]; intros offset i Hi; [unfold text, llen in Hi; cbn in Hi; lia|].
  replace (llen (text ((v, f) :: h))) with (llen v + llen (text h)) in Hi
    by (unfold text; cbn; by rewrite llen_app).
  cbn [frame_at entries]. case_bool_decide as E.
  { subst v. change (llen (@nil Z)) with 0 in *. rewrite Z.sub_0_r.
    replace (i <? 0) with false by (symmetry; apply Z.ltb_ge; lia). apply IH. lia. }
  destruct (Z.ltb_spec i (llen v)); [exists (llen v); split; [left|done]|].
  destruct (IH (offset + llen v) (i - llen v)) as (e & He & Hle); [lia|].
  exists (llen v + e). split; [|lia]. rewrite Z.add_assoc. by right.
Qed.
Lemma frame_at_app h1 h2 i :
  0 <= i -> frame_at (h1 ++ h2) i = if i <? llen (text h1) then frame_at h1 i else frame_at h2 (i - llen (text h1)).
Proof.
  revert i. induction h1 as [|[v f] h1 IH]; intros i Hi; cbn [app frame_at].
  - change (llen (text [])) with 0. replace (i <? 0) with false by (symmetry; apply Z.ltb_ge; lia). by rewrite Z.sub_0_r.
  - replace (llen (text ((v, f) :: h1))) with (llen v + llen (text h1))
      by (unfold text; cbn; by rewrite llen_app).
    pose proof (llen_nonneg (text h1)). destruct (Z.ltb_spec i (llen v)).
    + by replace (i <? llen v + llen (text h1)) with true by (symmetry; apply Z.ltb_lt; lia).
    + rewrite IH by lia. replace (i - llen v - llen (text h1)) with (i - (llen v + llen (text h1))) by lia.
      destruct (Z.ltb_spec (i - llen v) (llen (text h1))), (Z.ltb_spec i (llen v + llen (text h1))); done || lia.
Qed.
(** Every byte from a piece of frames that start late enough. *)
Lemma frame_at_ge h i lo :
  Forall (fun p => lo <= p.2) h -> 0 <= i < llen (text h) -> lo <= frame_at h i.
Proof.
  intros Hh. revert i. induction Hh as [|[v f] h Hf _ IH]; intros i Hi; [unfold text, llen in Hi; cbn in Hi; lia|].
  replace (llen (text ((v, f) :: h))) with (llen v + llen (text h)) in Hi
    by (unfold text; cbn; by rewrite llen_app).
  cbn. destruct (Z.ltb_spec i (llen v)); [done|]. apply IH. lia.
Qed.

Lemma pop_front_keeps {A} (p : A -> bool) l x : x ∈ l -> p x = false -> x ∈ pop_front_while p l.
Proof.
  induction l as [|y l IH]; [done|]. intros [->|H]%elem_of_cons Hp; cbn.
  - rewrite Hp. left.
  - destruct (p y); [by apply IH|by right].
Qed.
Lemma pop_front_suffix {A} (p : A -> bool) l : pop_front_while p l `suffix_of` l.
Proof. induction l as [|y l IH]; cbn; [done|]. destruct (p y); [by apply suffix_cons_r|done]. Qed.

(** Frames in the order they came. *)
Definition frames_sorted (l : list (Z * Z)) : Prop := StronglySorted (fun a b => a.2 <= b.2) l.
Lemma sorted_suffix s l : s `suffix_of` l -> frames_sorted l -> frames_sorted s.
Proof.
  intros [k ->]. induction k as [|x k IH]; [done|]. cbn. intros H. apply IH. by inversion H.
Qed.
Lemma sorted_snoc l x : frames_sorted l -> Forall (fun y => y.2 <= x.2) l -> frames_sorted (l ++ [x]).
Proof.
  intros Hs Hl. induction Hs as [|y l Hs IH Hy]; cbn; [repeat constructor|].
  inversion Hl; subst. constructor; [by apply IH|]. apply Forall_app. split; [done|by repeat constructor].
Qed.

Section WithLibraries.
Context {MC : Memchr} {EN : Encodings} {ML : MemchrLaws}.

Record tail_ok (secret : list Z) (h : History) (t : Tail) : Prop := {
  tail_bytes : tl_bytes t `suffix_of` text h;
  tail_total : tl_total t = llen (text h);
  tail_clean : clean secret (text h);
  (** A spelling that later text completes starts in the tail. *)
  tail_reach : forall pre enc post more, text h ++ more = pre ++ enc ++ post -> spelling secret pre enc ->
    llen (text h) < llen (pre ++ enc) -> llen (text h) - llen (tl_bytes t) <= llen pre;
  tail_frames : forall e f, (e, f) ∈ entries 0 h -> llen (text h) - llen (tl_bytes t) < e ->
    (e, f) ∈ tl_frames t;
  tail_sorted : frames_sorted (tl_frames t);
}.

Lemma tail_default_ok secret : secret <> [] -> tail_ok secret [] tail_default.
Proof.
  intros Hs. split; cbn; try done.
  - by apply clean_nil.
  - intros pre enc post more _ _ _. unfold text, llen. cbn. lia.
  - constructor.
Qed.
(** An empty piece changes nothing. *)
Lemma tail_ok_nil secret h t f : tail_ok secret h t -> tail_ok secret (h ++ [([], f)]) t.
Proof.
  intros [H1 H2 H3 H4 H5 H6]. split; rewrite ?text_snoc, ?app_nil_r, ?entries_snoc_nil; done.
Qed.

Context (secret auth : list Z) (Hsecret : secret <> []).
Let needles := sealing_needles secret auth.
Let hold := max_length needles * 6 + 5.

Lemma keep_last_llen {A} n (l : list A) : 0 <= n -> llen (keep_last (Z.to_nat n) l) = Z.min n (llen l).
Proof. intros Hn. unfold llen. rewrite keep_last_length. lia. Qed.

(** What the tail and the new piece contain is scanned as it stands in the text. *)
Lemma scanned t h v pre enc post :
  tail_ok secret h t -> contains_secret (tl_bytes t ++ v) needles = false ->
  text h ++ v = pre ++ enc ++ post -> spelling secret pre enc -> llen (text h) < llen (pre ++ enc) -> False.
Proof.
  intros Ht Hn E Hsp Hend. pose proof (tail_reach _ _ _ Ht _ _ _ _ E Hsp Hend) as Hreach.
  destruct Ht as [[x Hx] _ _ _ _ _]. rewrite Hx in *. rewrite llen_app in Hreach.
  assert (Hxp : llen x <= llen pre) by lia.
  pose proof (take_drop (length x) pre) as Hpre. set (pre' := drop (length x) pre) in *.
  assert (Ex : take (length x) pre = x).
  { apply (f_equal (take (length x))) in E. rewrite <- app_assoc, take_app_length in E.
    unfold llen in Hxp. by rewrite take_app_le in E by lia. }
  rewrite Ex in Hpre. rewrite <- Hpre in E, Hsp. rewrite <- !app_assoc in E. apply app_inv_head in E.
  apply spelling_suffix in Hsp. rewrite E in Hn.
  pose proof (spelling_detected secret auth pre' enc post Hsecret Hsp) as D. fold needles in D. congruence.
Qed.

Lemma tail_push_ok h v lo frame t t' :
  tail_ok secret h t -> lo <= frame -> Forall (fun x => lo <= x.2 <= frame) (tl_frames t) ->
  tail_push v frame hold needles t = Ok t' ->
  tail_ok secret (h ++ [(v, frame)]) t' /\ Forall (fun x => lo <= x.2 <= frame) (tl_frames t').
Proof.
  intros Ht Hlo Hf H. unfold tail_push in H. case_bool_decide as Hv.
  { injection H as <-. subst v. split; [by apply tail_ok_nil|done]. }
  bind_inv H. reflect_bools. simplify_eq.
  match goal with H : contains_secret _ _ = false |- _ => rename H into Hscan end.
  assert (Hh : 0 <= hold) by (unfold hold; pose proof (max_length_nonneg needles); lia).
  set (keep := Z.min _ hold). assert (Hkeep : 0 <= keep) by (unfold keep, llen; lia).
  pose proof Ht as [Hb Ht' Hc Hr Hfr Hs].
  assert (Hfs : Forall (fun x => lo <= x.2 <= frame) (tl_frames t ++ [(tl_total t + llen v, frame)])).
  { apply Forall_app. split; [done|]. apply Forall_singleton. cbn. lia. }
  assert (Hclean : clean secret (text h ++ v)).
  { intros pre enc post E' Hsp. eapply scanned; [done|done|done|done|]. by eapply clean_ends_after. }
  assert (Hbl : llen (tl_bytes t) <= llen (text h)) by (apply suffix_length in Hb; unfold llen; lia).
  split; [split|].
  - cbn. rewrite text_snoc. etransitivity; [apply keep_last_suffix|]. by apply suffix_app.
  - cbn. rewrite text_snoc, llen_app. lia.
  - by rewrite text_snoc.
  - cbn. rewrite text_snoc, keep_last_llen by done. intros pre enc post more E' Hsp Hend.
    pose proof (spelling_length _ auth _ _ Hsecret Hsp) as Hlen. fold needles in Hlen.
    rewrite <- app_assoc in E'. rewrite !llen_app in *.
    specialize (Hr _ _ _ _ E' Hsp). rewrite llen_app in Hr. pose proof (llen_nonneg v).
    unfold keep, hold. rewrite llen_app. lia.
  - cbn. rewrite text_snoc, entries_snoc, keep_last_llen by done. rewrite !llen_app.
    intros e f Hin He. apply pop_front_keeps.
    + apply elem_of_app in Hin as [Hin|Hin].
      * apply elem_of_app. left. apply Hfr; [done|]. unfold keep in He. rewrite llen_app in He. lia.
      * apply elem_of_app. right. replace (tl_total t) with (0 + llen (text h)) by lia. done.
    + cbn. apply Z.leb_gt. unfold keep in He. rewrite llen_app in He. unfold sat_sub. lia.
  - cbn. eapply sorted_suffix; [apply pop_front_suffix|]. apply sorted_snoc; [done|].
    eapply Forall_impl; [exact Hf|]. cbn. intros x Hx. lia.
  - cbn. rewrite Forall_forall in *. intros x Hx. apply Hfs.
    destruct (pop_front_suffix (fun f => f.1 <=? sat_sub (tl_total t + llen v) hold)
      (tl_frames t ++ [(tl_total t + llen v, frame)])) as [k ->]. apply elem_of_app. by right.
Qed.

(** A spelling begins a needle or starts with an escape marker. *)
Lemma spelling_begins pre enc k :
  spelling secret pre enc -> (0 < k)%nat -> (k < length enc)%nat ->
  (exists n, n ∈ needles /\ (k < length n)%nat /\ take k enc = take k n) \/
  existsb is_marker (take k enc) = true.
Proof.
  intros H Hk Hl. destruct enc as [|b enc]; [cbn in Hl; lia|]. destruct k as [|k]; [lia|].
  destruct H as [[H _]|[[_ H]|(_ & H & _)]].
  - left. exists (b :: enc). split; [apply sealing_needles_elem; by left|done].
  - right. cbn in H |- *. by simplify_eq.
  - right. cbn in H |- *. by simplify_eq.
Qed.

(** Keeping the longest beginning of a needle loses nothing. *)
Lemma tail_keep_ok h t k :
  tail_ok secret h t -> existsb is_marker (tl_bytes t) = false ->
  (forall j, partial needles (tl_bytes t) j -> (j <= k)%nat) -> (k <= length (tl_bytes t))%nat ->
  tail_ok secret h (tail_keep k t).
Proof.
  intros [Hb Ht Hc Hr Hf Hs] Hm Hmax Hk.
  assert (Hkl : llen (keep_last k (tl_bytes t)) = Z.of_nat k) by (unfold llen; rewrite keep_last_length; lia).
  split; cbn; try done.
  - etransitivity; [apply keep_last_suffix|done].
  - rewrite Hkl. intros pre enc post more E Hsp Hend. specialize (Hr _ _ _ _ E Hsp Hend).
    destruct (decide (llen (text h) <= llen pre)) as [|Hlt]; [lia|].
    set (j := Z.to_nat (llen (text h) - llen pre)). rewrite llen_app in Hend.
    assert (Hj : take j enc `suffix_of` tl_bytes t).
    { apply (f_equal (take (length (text h)))) in E. rewrite take_app_length in E.
      rewrite take_app, take_ge in E by (unfold llen in *; lia).
      rewrite take_app_le in E by (unfold llen in *; lia).
      replace (length (text h) - length pre)%nat with j in E by (unfold j, llen; lia).
      assert (Hs1 : take j enc `suffix_of` text h) by (rewrite E; by eexists).
      destruct (suffix_weak_total _ _ _ Hs1 Hb) as [|H]; [done|].
      pose proof (suffix_length _ _ H) as Hl. rewrite length_take in Hl.
      rewrite (suffix_length_eq _ _ H); [done|]. rewrite length_take. unfold j, llen in *. lia. }
    assert (Hjk : (j <= k)%nat); [|unfold j in Hjk; lia].
    destruct (spelling_begins pre enc j Hsp) as [(n & Hn & Hnl & En)|Hmark];
      [unfold j; lia|unfold j, llen in *; lia| |].
    + apply Hmax. right. exists n. split; [done|]. split; [done|]. by rewrite <- En.
    + exfalso. destruct Hj as [x Hx]. rewrite Hx, existsb_app, Hmark, orb_true_r in Hm. done.
  - rewrite Hkl. intros e f Hin He. apply pop_front_keeps; [apply Hf; [done|unfold llen in *; lia]|].
    cbn. apply Z.leb_gt. lia.
  - eapply sorted_suffix; [apply pop_front_suffix|done].
Qed.

Lemma tail_reclaim_ok h t :
  tail_ok secret h t ->
  exists t', tail_reclaim needles t = Some t' /\ tail_ok secret h t' /\
    tl_frames t' `suffix_of` tl_frames t.
Proof.
  intros Ht. destruct (existsb is_marker (tl_bytes t)) eqn:Hm.
  - exists t. split; [|done]. unfold tail_reclaim. rewrite Hm.
    destruct (forallb _ needles) eqn:He; [|done]. exfalso. rewrite forallb_forall in He.
    pose proof (secret_is_needle secret auth Hsecret) as Hn. apply list_elem_of_In, He in Hn.
    by reflect_bools.
  - destruct (reclaim_ok needles t Hm) as (k & -> & Hp & Hmax). exists (tail_keep k t).
    split; [done|]. split; [|apply pop_front_suffix]. apply tail_keep_ok; [done|done|done|].
    destruct Hp as [->|(n & _ & Hk & Hs)]; [lia|]. apply suffix_length in Hs. rewrite length_take in Hs. lia.
Qed.
End WithLibraries.
