(* ===== verification/LlmObserver.v ===== *)
(** * LlmObserver: the state machine of a provider's event stream

    [rekey-broker/src/executor/llm_stream.rs], [Observer]: the incremental texts of
    a response, one [Tail] per channel, for the Anthropic, OpenAI chat and OpenAI
    responses protocols; the assembly of blocks and items that the SDKs perform,
    the usage and the terminal. Sizes of Rust types, which only the memory bound
    uses, are the class [Layout]. A panic is [None] ([Effect]). *)

From S2P Require Import Prelude Strings Bytes Errors Domain Decimal Json Llm Effect Sealing Sealer TextStreamTheorems LlmTail.

(** ** Ordered maps *)

(** A [BTreeMap<u64, A>]: an association list in key order. *)
Abbreviation OrdMap A := (list (Z * A)).
Fixpoint zget {A} (k : Z) (m : OrdMap A) : option A :=
  match m with
  | [] => None
  | (k', v) :: r => if k =? k' then Some v else zget k r
  end.
Fixpoint zset {A} (k : Z) (v : A) (m : OrdMap A) : OrdMap A :=
  match m with
  | [] => [(k, v)]
  | (k', v') :: r =>
      if k =? k' then (k, v) :: r else if k <? k' then (k, v) :: m else (k', v') :: zset k v r
  end.
Definition zdel {A} (k : Z) (m : OrdMap A) : OrdMap A := retain (fun e => negb (e.1 =? k)) m.
Definition values {A} (m : OrdMap A) : list A := map snd m.

(** ** State *)

Inductive Key : Type :=
  | KAnthropic (index : Z) (field : string)
  | KChat (index : Z) (field : string)
  | KResponses (id : string) (output part : Z) (field : string).
#[export] Instance Key_eq_dec : EqDecision Key.
Proof. solve_decision. Defined.
#[export] Instance Key_countable : Countable Key.
Proof.
  refine (inj_countable'
    (fun k => match k with
      | KAnthropic i f => inl (i, f)
      | KChat i f => inr (inl (i, f))
      | KResponses id o p f => inr (inr (id, o, p, f))
      end)
    (fun s => match s with
      | inl (i, f) => KAnthropic i f
      | inr (inl (i, f)) => KChat i f
      | inr (inr (id, o, p, f)) => KResponses id o p f
      end) _).
  by intros [].
Defined.

Record ResponseItem := mkResponseItem {
  ri_id : string;
  ri_added : bool;
  ri_done : bool;
  ri_content_parts : Z;
  ri_summary_parts : Z;
  ri_text_parts : OrdMap (list Z);
}.
Definition set_texts f i :=
  mkResponseItem (ri_id i) (ri_added i) (ri_done i) (ri_content_parts i) (ri_summary_parts i) (f (ri_text_parts i)).
Definition set_done i :=
  mkResponseItem (ri_id i) (ri_added i) true (ri_content_parts i) (ri_summary_parts i) (ri_text_parts i).
Definition set_added i :=
  mkResponseItem (ri_id i) true (ri_done i) (ri_content_parts i) (ri_summary_parts i) (ri_text_parts i).
Definition set_content_parts n i :=
  mkResponseItem (ri_id i) (ri_added i) (ri_done i) n (ri_summary_parts i) (ri_text_parts i).
Definition set_summary_parts n i :=
  mkResponseItem (ri_id i) (ri_added i) (ri_done i) (ri_content_parts i) n (ri_text_parts i).

Record Observer := mkObserver {
  ob_protocol : ProfileLlmProtocol;
  ob_channels : gmap Key Tail;
  ob_closed : gset Key;
  ob_blocks : gset Z;
  ob_stopped : gset Z;
  ob_anthropic_text : OrdMap (list Z);
  ob_identity : option string;
  ob_items : OrdMap ResponseItem;
  ob_last_usage : option Z;
  ob_poisoned : bool;
  ob_reason : option TextStreamStatus;
  ob_terminal : option (Z * TextStreamStatus);
  ob_done_marker : bool;
}.
Definition set_channels f o := mkObserver (ob_protocol o) (f (ob_channels o)) (ob_closed o) (ob_blocks o)
  (ob_stopped o) (ob_anthropic_text o) (ob_identity o) (ob_items o) (ob_last_usage o) (ob_poisoned o)
  (ob_reason o) (ob_terminal o) (ob_done_marker o).
Definition set_closed f o := mkObserver (ob_protocol o) (ob_channels o) (f (ob_closed o)) (ob_blocks o)
  (ob_stopped o) (ob_anthropic_text o) (ob_identity o) (ob_items o) (ob_last_usage o) (ob_poisoned o)
  (ob_reason o) (ob_terminal o) (ob_done_marker o).
Definition set_blocks blocks stopped o := mkObserver (ob_protocol o) (ob_channels o) (ob_closed o) blocks
  stopped (ob_anthropic_text o) (ob_identity o) (ob_items o) (ob_last_usage o) (ob_poisoned o)
  (ob_reason o) (ob_terminal o) (ob_done_marker o).
Definition set_anthropic_text f o := mkObserver (ob_protocol o) (ob_channels o) (ob_closed o) (ob_blocks o)
  (ob_stopped o) (f (ob_anthropic_text o)) (ob_identity o) (ob_items o) (ob_last_usage o) (ob_poisoned o)
  (ob_reason o) (ob_terminal o) (ob_done_marker o).
Definition set_identity id o := mkObserver (ob_protocol o) (ob_channels o) (ob_closed o) (ob_blocks o)
  (ob_stopped o) (ob_anthropic_text o) id (ob_items o) (ob_last_usage o) (ob_poisoned o)
  (ob_reason o) (ob_terminal o) (ob_done_marker o).
Definition set_items f o := mkObserver (ob_protocol o) (ob_channels o) (ob_closed o) (ob_blocks o)
  (ob_stopped o) (ob_anthropic_text o) (ob_identity o) (f (ob_items o)) (ob_last_usage o) (ob_poisoned o)
  (ob_reason o) (ob_terminal o) (ob_done_marker o).
Definition set_usage usage poisoned o := mkObserver (ob_protocol o) (ob_channels o) (ob_closed o) (ob_blocks o)
  (ob_stopped o) (ob_anthropic_text o) (ob_identity o) (ob_items o) usage poisoned
  (ob_reason o) (ob_terminal o) (ob_done_marker o).
Definition set_reason reason o := mkObserver (ob_protocol o) (ob_channels o) (ob_closed o) (ob_blocks o)
  (ob_stopped o) (ob_anthropic_text o) (ob_identity o) (ob_items o) (ob_last_usage o) (ob_poisoned o)
  reason (ob_terminal o) (ob_done_marker o).
Definition set_terminal terminal marker o := mkObserver (ob_protocol o) (ob_channels o) (ob_closed o) (ob_blocks o)
  (ob_stopped o) (ob_anthropic_text o) (ob_identity o) (ob_items o) (ob_last_usage o) (ob_poisoned o)
  (ob_reason o) terminal marker.

(** [Observer::new]. *)
Definition observer_new (protocol : ProfileLlmProtocol) : Observer :=
  mkObserver protocol ∅ ∅ ∅ ∅ [] None [] None false None None false.

(** ** Sizes *)

(** [size_of::<Key>()], [size_of::<(u64, Zeroizing<String>)>()] and
    [size_of::<(u64, ResponseItem)>()]. *)
Class Layout := { size_of_key : Z; size_of_text : Z; size_of_item : Z }.

Section Sizes.
Context {LA : Layout}.
(** [Key::allocated]. *)
Definition key_allocated (k : Key) : Z :=
  size_of_key + match k with KResponses id _ _ _ => slen id | _ => 0 end.
Definition sum_of {A} (f : A -> Z) (l : list A) : Z := fold_right (fun x n => f x + n) 0 l.
(** [Observer::retained]; two [usize] take 16 bytes, a [u64] 8. *)
Definition ob_retained (o : Observer) : Z :=
  sum_of (fun e => key_allocated e.1 + llen (tl_bytes e.2) + llen (tl_frames e.2) * 16)
         (map_to_list (ob_channels o))
  + sum_of key_allocated (elements (ob_closed o))
  + (Z.of_nat (size (ob_blocks o)) + Z.of_nat (size (ob_stopped o))) * 8
  + match ob_identity o with Some id => slen id | None => 0 end
  + sum_of (fun text => llen text + size_of_text) (values (ob_anthropic_text o))
  + sum_of (fun item => slen (ri_id item) + size_of_item
                        + sum_of (fun text => llen text + size_of_text) (values (ri_text_parts item)))
           (values (ob_items o)).
End Sizes.

(** [Observer::watermark]: no raw byte from here on may be released. *)
Definition front_start (t : Tail) : option Z := snd <$> head (tl_frames t).
Definition ob_watermark (raw : Z) (o : Observer) : Z :=
  fold_right Z.min raw
    (omap (fun e => front_start e.2) (map_to_list (ob_channels o))
     ++ match ob_terminal o with Some (start, _) => [start] | None => [] end).

(** ** Fields of an event *)

Definition ends_with_str (p s : string) : bool :=
  let n := (String.length s - String.length p)%nat in
  (String.length p <=? String.length s)%nat && str_eqb (String.substring n (String.length p) s) p.
Definition strip_suffix_str (p s : string) : option string :=
  if ends_with_str p s then Some (String.substring 0 (String.length s - String.length p)%nat s) else None.

Section Events.
Context {MC : Memchr} {SJ : Serde}.
Abbreviation Value := (JValue Number).

(** [index], [string], and [get(name).filter(|v| !v.is_null())]. *)
Definition index_of (v : Value) (name : string) : result BrokerError Z :=
  ok_or invalid (f ← value_get name v; value_as_u64 f).
Definition string_of (v : Value) (name : string) : result BrokerError string :=
  ok_or invalid (f ← value_get name v; value_as_str f).
Definition get_non_null (name : string) (v : Value) : option Value :=
  match value_get name v with Some VNull | None => None | Some f => Some f end.
Definition is_object (v : Value) : bool := match v with VObject _ => true | _ => false end.
(** Some key of the object is not one of [allowed]. *)
Definition other_keys (allowed : list string) (v : Value) : result BrokerError bool :=
  entries ← ok_or invalid (as_object v);
  Ok (existsb (fun e => negb (bool_decide (e.1 ∈ allowed))) entries).

Variable needles : list (list Z).
Variable hold : Z.

(** ** [identity], [usage], [append], [close] *)

Definition ob_identify (id : string) : M Observer unit :=
  o ← gets ob_identity;
  _ ← check (is_empty_str id || match o with Some old => negb (str_eqb old id) | None => false end) invalid;
  match o with
  | None => modify (set_identity (Some id))
  | Some _ => mret tt
  end.
Definition ob_usage (value : option Z) (o : Observer) : Observer :=
  match value with
  | Some n =>
      if (n <=? i64_max) && match ob_last_usage o with Some old => old <=? n | None => true end
      then set_usage (Some n) (ob_poisoned o) o
      else set_usage (ob_last_usage o) true o
  | None => set_usage (ob_last_usage o) true o
  end.
Definition is_metadata (key : Key) : bool :=
  match key with KChat _ f => str_eqb f "tool-id" || str_eqb f "tool-name" | _ => false end.
Definition ob_append (key : Key) (value : string) (frame : Z) : M Observer unit :=
  o ← gets id;
  _ ← check (bool_decide (key ∈ ob_closed o)) invalid;
  let tail := default tail_default (ob_channels o !! key) in
  tail ← lift (tail_push (bytes_of value) frame hold needles tail);
  tail ← (if is_metadata key then lift_panic (tail_reclaim needles tail) else mret tail);
  modify (set_channels (insert key tail)).
Definition ob_close (key : Key) : M Observer unit :=
  modify (fun o => set_closed (union {[key]}) (set_channels (delete key) o)).

(** [joined.push] of every text in order, from an empty tail. *)
Fixpoint scan_texts (texts : list (list Z)) (joined : Tail) : result BrokerError unit :=
  match texts with
  | [] => Ok tt
  | text :: rest => joined ← tail_push text 0 hold needles joined; scan_texts rest joined
  end.
Definition scan_anthropic_text : M Observer unit :=
  o ← gets id; lift (scan_texts (values (ob_anthropic_text o)) tail_default).
Definition scan_response_text : M Observer unit :=
  o ← gets id;
  lift (scan_texts (concat (map (fun item => values (ri_text_parts item)) (values (ob_items o)))) tail_default).

(** [done]: the [DONE] marker. *)
Definition ob_done (frame : Z) : M Observer unit :=
  o ← gets id;
  if bool_decide (ob_protocol o = OpenAiResponses) && bool_decide (is_Some (ob_terminal o))
     && negb (ob_done_marker o)
  then modify (set_terminal (ob_terminal o) true)
  else
    _ ← check (negb (bool_decide (ob_protocol o = OpenAiChat)) || bool_decide (is_Some (ob_terminal o))
               || bool_decide (ob_identity o = None) || bool_decide (ob_reason o = None)) invalid;
    reason ← lift (ok_or invalid (ob_reason o));
    modify (set_terminal (Some (frame, reason)) (ob_done_marker o)).

(** ** Anthropic *)

Definition push_text (text : string) (old : option (list Z)) : list Z := default [] old ++ bytes_of text.
(** A text delta goes to its block, to the joined text, and to the SDK's view. *)
Definition anthropic_append (i : Z) (field text : string) (frame : Z) : M Observer unit :=
  _ ← ob_append (KAnthropic i field) text frame;
  if str_eqb field "text" then
    _ ← ob_append (KAnthropic 0 "all-text") text frame;
    _ ← modify (set_anthropic_text (fun m => zset i (push_text text (zget i m)) m));
    scan_anthropic_text
  else mret tt.
Definition anthropic_block_start (v : Value) (frame : Z) : M Observer unit :=
  o ← gets id;
  _ ← check (bool_decide (ob_identity o = None)) invalid;
  i ← lift (index_of v "index");
  _ ← check (negb (i =? Z.of_nat (size (ob_blocks o)) + Z.of_nat (size (ob_stopped o)))
             || bool_decide (i ∈ ob_stopped o) || bool_decide (i ∈ ob_blocks o)) invalid;
  _ ← modify (set_blocks ({[i]} ∪ ob_blocks o) (ob_stopped o));
  let block := value_index "content_block" v in
  each (fun field => match value_get field block with
    | None => mret tt
    | Some value =>
        text ← lift (ok_or invalid (value_as_str value));
        anthropic_append i field text frame
    end) ["text"; "thinking"; "signature"].
Definition delta_field (kind : string) : result BrokerError string :=
  if str_eqb kind "text_delta" then Ok "text"
  else if str_eqb kind "thinking_delta" then Ok "thinking"
  else if str_eqb kind "input_json_delta" then Ok "partial_json"
  else if str_eqb kind "signature_delta" then Ok "signature"
  else Err invalid.
Definition anthropic_delta (v : Value) (frame : Z) : M Observer unit :=
  o ← gets id;
  i ← lift (index_of v "index");
  _ ← check (negb (bool_decide (i ∈ ob_blocks o))) invalid;
  let delta := value_index "delta" v in
  kind ← lift (string_of delta "type");
  if str_eqb kind "citations_delta" then
    _ ← check (negb match value_get "citation" delta with Some c => is_object c | None => false end) invalid;
    others ← lift (other_keys ["type"; "citation"] delta);
    check others invalid
  else
    field ← lift (delta_field kind);
    others ← lift (other_keys ["type"; field] delta);
    _ ← check others invalid;
    text ← lift (string_of delta field);
    anthropic_append i field text frame.
Definition anthropic_block_stop (v : Value) : M Observer unit :=
  o ← gets id;
  i ← lift (index_of v "index");
  _ ← check (negb (bool_decide (i ∈ ob_blocks o))) invalid;
  _ ← modify (set_blocks (ob_blocks o ∖ {[i]}) ({[i]} ∪ ob_stopped o));
  each (fun field => ob_close (KAnthropic i field)) ["text"; "thinking"; "partial_json"; "signature"].
Definition nonempty_string (v : Value) : result BrokerError string :=
  ok_or invalid (s ← value_as_str v; if is_empty_str s then None else Some s).
Definition anthropic_message_delta (v : Value) : M Observer unit :=
  o ← gets id;
  _ ← check (bool_decide (ob_identity o = None)) invalid;
  _ ← modify (ob_usage (u ← value_get "usage" v; n ← value_get "output_tokens" u; value_as_u64 n));
  match get_non_null "stop_reason" (value_index "delta" v) with
  | None => mret tt
  | Some reason =>
      reason ← lift (nonempty_string reason);
      let status := if bool_decide (reason ∈ ["max_tokens"; "refusal"]) then Incomplete else Completed in
      _ ← check (match ob_reason o with Some old => negb (bool_decide (old = status)) | None => false end) invalid;
      modify (set_reason (Some status))
  end.
Definition check_name (name : option (list Z)) (kind : string) : M Observer unit :=
  check (match name with Some name => negb (bool_decide (name = bytes_of kind)) | None => false end) invalid.
Definition ob_anthropic (name : option (list Z)) (v : Value) (frame : Z) : M Observer unit :=
  kind ← lift (string_of v "type");
  _ ← check_name name kind;
  o ← gets id;
  if str_eqb kind "ping" then mret tt
  else if str_eqb kind "message_start" && bool_decide (ob_identity o = None) then
    let message := value_index "message" v in
    _ ← check (negb (is_empty_array (value_index "content" message))) invalid;
    id ← lift (string_of message "id");
    ob_identify id
  else if str_eqb kind "message_start" || str_eqb kind "error" then raise invalid
  else if str_eqb kind "content_block_start" then anthropic_block_start v frame
  else if str_eqb kind "content_block_delta" then anthropic_delta v frame
  else if str_eqb kind "content_block_stop" then anthropic_block_stop v
  else if str_eqb kind "message_delta" then anthropic_message_delta v
  else if str_eqb kind "message_stop" then
    _ ← check (negb (bool_decide (ob_blocks o = ∅)) || bool_decide (ob_identity o = None)) invalid;
    reason ← lift (ok_or invalid (ob_reason o));
    modify (set_terminal (Some (frame, reason)) (ob_done_marker o))
  else check (ends_with_str "_delta" kind || bool_decide (is_Some (value_get "delta" v))) invalid.

(** ** OpenAI chat *)

(** A member that is present and not null is text of the channel. *)
Definition append_member (key : Key) (member : string) (object : Value) (frame : Z) : M Observer unit :=
  match get_non_null member object with
  | None => mret tt
  | Some value =>
      text ← lift (ok_or invalid (value_as_str value));
      ob_append key text frame
  end.
Definition chat_tool_call (call : Value) (frame : Z) : M Observer unit :=
  i ← lift (index_of call "index");
  others ← lift (other_keys ["index"; "id"; "type"; "function"] call);
  _ ← check (others || match value_get "function" call with
                       | Some function =>
                           match other_keys ["name"; "arguments"] function with Ok b => b | Err _ => true end
                       | None => false
                       end) invalid;
  let function := value_index "function" call in
  _ ← append_member (KChat i "tool-id") "id" call frame;
  _ ← append_member (KChat i "tool-name") "name" function frame;
  append_member (KChat i "tool-arguments") "arguments" function frame.
Definition chat_field (frame : Z) (entry : string * Value) : M Observer unit :=
  let '(field, value) := entry in
  if is_null value then mret tt
  else if str_eqb field "role" && is_str value "assistant" then mret tt
  else if str_eqb field "content" || str_eqb field "refusal" then
    text ← lift (ok_or invalid (value_as_str value));
    ob_append (KChat 0 field) text frame
  else if str_eqb field "tool_calls" then
    calls ← lift (ok_or invalid (value_as_array value));
    each (fun call => chat_tool_call call frame) calls
  else if str_eqb field "function_call" then
    others ← lift (other_keys ["name"; "arguments"] value);
    _ ← check others invalid;
    _ ← append_member (KChat 0 "function-name") "name" value frame;
    append_member (KChat 0 "function-arguments") "arguments" value frame
  else raise invalid.
Definition chat_choice (frame : Z) (choice : Value) : M Observer unit :=
  i ← lift (index_of choice "index");
  o ← gets id;
  _ ← check (negb (i =? 0) || bool_decide (is_Some (ob_reason o))) invalid;
  delta ← lift (ok_or invalid (as_object (value_index "delta" choice)));
  _ ← each (chat_field frame) delta;
  match get_non_null "finish_reason" choice with
  | None => mret tt
  | Some reason =>
      reason ← lift (nonempty_string reason);
      modify (set_reason (Some (if bool_decide (reason ∈ ["length"; "content_filter"])
                                then Incomplete else Completed)))
  end.
Definition chat_usage (choices : list Value) (v : Value) (o : Observer) : Observer :=
  match get_non_null "usage" v with
  | None => o
  | Some usage =>
      ob_usage (n ← value_get "completion_tokens" usage; value_as_u64 n)
        (if bool_decide (choices = []) then o else set_usage (ob_last_usage o) true o)
  end.
Definition ob_chat (v : Value) (frame : Z) : M Observer unit :=
  object ← lift (string_of v "object");
  _ ← check (negb (str_eqb object "chat.completion.chunk")) invalid;
  id ← lift (string_of v "id");
  _ ← ob_identify id;
  choices ← lift (ok_or invalid (value_as_array (value_index "choices" v)));
  _ ← modify (chat_usage choices v);
  _ ← check (1 <? llen choices) invalid;
  each (chat_choice frame) choices.

(** ** OpenAI responses *)

Definition get_item (output : Z) : M Observer ResponseItem :=
  o ← gets id; lift (ok_or invalid (zget output (ob_items o))).
Definition update_item (output : Z) (f : ResponseItem -> ResponseItem) : M Observer unit :=
  item ← get_item output; modify (set_items (zset output (f item))).
(** [bind_response_item]. *)
Definition bind_response_item (output : Z) (id : string) : M Observer unit :=
  o ← gets (fun o => o);
  _ ← check (bool_decide (ob_identity o = None) || is_empty_str id
             || match zget output (ob_items o) with
                | Some old => negb (str_eqb (ri_id old) id) || ri_done old
                | None => false
                end) invalid;
  match zget output (ob_items o) with
  | Some _ => mret tt
  | None => modify (set_items (zset output (mkResponseItem id false false 0 0 [])))
  end.
(** [response_text]. *)
Definition response_text (output part : Z) (text : string) (append : bool) : M Observer unit :=
  update_item output (set_texts (fun parts =>
    zset part (if append then push_text text (zget part parts) else bytes_of text) parts)).
(** [seed_response_part]. *)
Definition part_field (kind : string) : result BrokerError (string * string) :=
  if str_eqb kind "output_text" then Ok ("text", "text")%string
  else if str_eqb kind "refusal" then Ok ("refusal", "refusal")%string
  else if str_eqb kind "reasoning_text" then Ok ("reasoning", "text")%string
  else if str_eqb kind "summary_text" then Ok ("summary", "text")%string
  else Err invalid.
Definition seed_response_part (id : string) (output index : Z) (part : Value) (frame : Z)
  : M Observer unit :=
  kind ← lift (string_of part "type");
  '(field, member) ← lift (part_field kind);
  text ← lift (string_of part member);
  _ ← ob_append (KResponses id output index field) text frame;
  if str_eqb field "text" then response_text output index text false else mret tt.
(** [for (i, part) in parts.iter().enumerate()]. *)
Definition enumerate {A} (l : list A) : list (Z * A) := imap (fun i x => (Z.of_nat i, x)) l.
Definition seed_response_parts (id : string) (output : Z) (parts : list Value) (frame : Z)
  : M Observer unit :=
  each (fun e => seed_response_part id output e.1 e.2 frame) (enumerate parts).
(** [response_part_snapshot] and [response_item_snapshot]. *)
Definition response_part_snapshot (output part : Z) (value : Value) : M Observer unit :=
  kind ← lift (string_of value "type");
  if str_eqb kind "output_text" then
    text ← lift (string_of value "text");
    response_text output part text false
  else update_item output (set_texts (zdel part)).
Definition response_item_snapshot (output : Z) (item : Value) : M Observer unit :=
  _ ← update_item output (set_texts (fun _ => []));
  kind ← lift (string_of item "type");
  if str_eqb kind "message" then
    parts ← lift (ok_or invalid (value_as_array (value_index "content" item)));
    each (fun e => response_part_snapshot output e.1 e.2) (enumerate parts)
  else mret tt.

(** [scan_response_snapshot]: the texts of the terminal's own output. *)
Fixpoint scan_parts (parts : list Value) (joined : Tail) : result BrokerError Tail :=
  match parts with
  | [] => Ok joined
  | part :: rest =>
      kind ← string_of part "type";
      joined ← (if str_eqb kind "output_text" then
                  text ← string_of part "text"; tail_push (bytes_of text) 0 hold needles joined
                else Ok joined);
      scan_parts rest joined
  end.
Fixpoint scan_items (items : list Value) (joined : Tail) : result BrokerError unit :=
  match items with
  | [] => Ok tt
  | item :: rest =>
      kind ← string_of item "type";
      joined ← (if str_eqb kind "message" then
                  parts ← ok_or invalid (value_as_array (value_index "content" item));
                  scan_parts parts joined
                else Ok joined);
      scan_items rest joined
  end.
Definition scan_response_snapshot (value : Value) : result BrokerError unit :=
  match value_get "output" value with
  | None => Ok tt
  | Some output => items ← ok_or invalid (value_as_array output); scan_items items tail_default
  end.

(** [response.output_item.added] and [.done]. *)
Definition item_members (kind : string) : string * string :=
  if str_eqb kind "function_call" then ("arguments", "arguments")%string else ("input", "custom-input")%string.
Definition item_added (output : Z) (id : string) (item : Value) (frame : Z) : M Observer unit :=
  assembly ← get_item output;
  _ ← check (ri_added assembly || negb (ri_content_parts assembly =? 0)
             || negb (ri_summary_parts assembly =? 0)) invalid;
  _ ← update_item output set_added;
  kind ← lift (string_of item "type");
  if str_eqb kind "function_call" || str_eqb kind "custom_tool_call" then
    let '(member, field) := item_members kind in
    text ← lift (string_of item member);
    ob_append (KResponses id output 0 field) text frame
  else if str_eqb kind "message" then
    parts ← lift (ok_or invalid (value_as_array (value_index "content" item)));
    _ ← update_item output (set_content_parts (llen parts));
    seed_response_parts id output parts frame
  else if str_eqb kind "reasoning" then
    each (fun member => match get_non_null member item with
      | None => mret tt
      | Some parts =>
          parts ← lift (ok_or invalid (value_as_array parts));
          _ ← update_item output (if str_eqb member "content" then set_content_parts (llen parts)
                                  else set_summary_parts (llen parts));
          seed_response_parts id output parts frame
      end) ["content"; "summary"]
  else mret tt.
Definition response_output_item (kind : string) (v : Value) (frame : Z) : M Observer unit :=
  output ← lift (index_of v "output_index");
  let item := value_index "item" v in
  id ← lift (string_of item "id");
  _ ← bind_response_item output id;
  if ends_with_str ".done" kind then
    _ ← response_item_snapshot output item;
    update_item output set_done
  else item_added output id item frame.

(** [response.content_part] and [response.reasoning_summary_part]. *)
Definition response_part (kind : string) (v : Value) (frame : Z) : M Observer unit :=
  output ← lift (index_of v "output_index");
  id ← lift (string_of v "item_id");
  _ ← bind_response_item output id;
  let summary := starts_with_str "response.reasoning_summary_part" kind in
  let member := if summary then "summary_index"%string else "content_index"%string in
  if ends_with_str ".added" kind then
    declared ← lift (index_of v member);
    assembly ← get_item output;
    let count := if summary then ri_summary_parts assembly else ri_content_parts assembly in
    _ ← check (negb (declared =? count)) invalid;
    _ ← check (u64_max <? count + 1) invalid;
    _ ← update_item output (if summary then set_summary_parts (count + 1) else set_content_parts (count + 1));
    seed_response_part id output declared (value_index "part" v) frame
  else
    part ← lift (index_of v member);
    _ ← (if summary then mret tt else response_part_snapshot output part (value_index "part" v));
    each (fun field => ob_close (KResponses id output part field))
         (if summary then ["summary"] else ["text"; "refusal"; "reasoning"]).

(** [response.completed] and [response.incomplete]. *)
Definition response_terminal (kind : string) (v : Value) (frame : Z) : M Observer unit :=
  o ← gets (fun o => o);
  _ ← check (bool_decide (ob_identity o = None)) invalid;
  let response := value_index "response" v in
  id ← lift (string_of response "id");
  _ ← ob_identify id;
  let completed := str_eqb kind "response.completed" in
  status ← lift (string_of response "status");
  _ ← check (negb (str_eqb status (if completed then "completed" else "incomplete"))) invalid;
  _ ← lift (scan_response_snapshot response);
  _ ← modify (fun o => ob_usage (profile_llm_output_value (ob_protocol o) response) o);
  modify (fun o => set_terminal (Some (frame, if completed then Completed else Incomplete)) (ob_done_marker o) o).

(** The text events [.delta] and [.done]; an unknown [.done] ends the event. *)
Definition text_event (stem : string) : option (string * option string) :=
  if str_eqb stem "response.output_text" then Some ("text", Some "content_index")%string
  else if str_eqb stem "response.refusal" then Some ("refusal", Some "content_index")%string
  else if str_eqb stem "response.reasoning_text" then Some ("reasoning", Some "content_index")%string
  else if str_eqb stem "response.reasoning_summary_text" then Some ("summary", Some "summary_index")%string
  else if str_eqb stem "response.function_call_arguments" then Some ("arguments"%string, None)
  else if str_eqb stem "response.custom_tool_call_input" then Some ("custom-input"%string, None)
  else None.
Definition response_text_event (kind field : string) (subindex : option string) (v : Value) (frame : Z)
  : M Observer unit :=
  o ← gets ob_identity;
  _ ← check (bool_decide (o = None)) invalid;
  output ← lift (index_of v "output_index");
  id ← lift (string_of v "item_id");
  _ ← bind_response_item output id;
  part ← lift (match subindex with Some f => index_of v f | None => Ok 0 end);
  let key := KResponses id output part field in
  if ends_with_str ".delta" kind then
    text ← lift (string_of v "delta");
    _ ← ob_append key text frame;
    if str_eqb field "text" then response_text output part text true else mret tt
  else
    _ ← (if str_eqb field "text" then
           text ← lift (string_of v "text"); response_text output part text false
         else mret tt);
    _ ← (if str_eqb field "custom-input" then _ ← lift (string_of v "input"); mret tt else mret tt);
    ob_close key.

Definition RESPONSE_PARTS : list string :=
  ["response.content_part.added"; "response.content_part.done";
   "response.reasoning_summary_part.added"; "response.reasoning_summary_part.done"].
Definition ob_responses (name : option (list Z)) (v : Value) (frame : Z) : M Observer unit :=
  kind ← lift (string_of v "type");
  _ ← check_name name kind;
  let stem := match strip_suffix_str ".delta" kind with
              | Some stem => Some stem
              | None => strip_suffix_str ".done" kind
              end in
  if bool_decide (kind ∈ ["response.created"; "response.in_progress"]) then
    let response := value_index "response" v in
    _ ← check (negb (is_empty_array (value_index "output" response))) invalid;
    id ← lift (string_of response "id");
    _ ← ob_identify id;
    scan_response_text
  else if bool_decide (kind ∈ ["response.output_item.added"; "response.output_item.done"]) then
    _ ← response_output_item kind v frame; scan_response_text
  else if bool_decide (kind ∈ RESPONSE_PARTS) then
    _ ← response_part kind v frame; scan_response_text
  else if bool_decide (kind ∈ ["response.completed"; "response.incomplete"]) then
    _ ← response_terminal kind v frame; scan_response_text
  else if bool_decide (kind ∈ ["error"; "response.failed"]) then raise invalid
  else match stem with
  | Some stem =>
      match text_event stem with
      | Some (field, subindex) =>
          _ ← response_text_event kind field subindex v frame; scan_response_text
      | None => if ends_with_str ".delta" kind then raise invalid else mret tt
      end
  | None =>
      _ ← check (bool_decide (is_Some (value_get "delta" v)) || contains_str "delta" kind) invalid;
      scan_response_text
  end.

(** [Observer::event]. *)
Definition ob_event (name : option (list Z)) (v : Value) (frame : Z) : M Observer unit :=
  o ← gets (fun o => o);
  _ ← check (bool_decide (is_Some (ob_terminal o))) invalid;
  match ob_protocol o with
  | AnthropicMessages => ob_anthropic name v frame
  | OpenAiChat => ob_chat v frame
  | OpenAiResponses => ob_responses name v frame
  | _ => raise invalid
  end.
End Events.

(** * The texts an event stream spells

    [fragments] reads off an event, without any state, the pieces of text that it
    adds to each channel. The observer pushes exactly these pieces into the tails
    of open channels, so whatever a credential could still be completed from is
    held by the watermark. *)

(** ** The pieces of an event *)

Section Fragments.
Context {SJ : Serde}.
Abbreviation Value := (JValue Number).
Abbreviation Fragments := (list (Key * list Z)).

Definition of_result {A} (r : result BrokerError A) (f : A -> Fragments) : Fragments :=
  match r with Ok a => f a | Err _ => [] end.
Definition of_string (v : option Value) (key : Key) : Fragments :=
  match v with
  | Some v => match value_as_str v with Some s => [(key, bytes_of s)] | None => [] end
  | None => []
  end.
Definition flat {A} (f : A -> Fragments) (l : list A) : Fragments := concat (map f l).

Definition anthropic_pieces (i : Z) (field : string) (text : list Z) : Fragments :=
  (KAnthropic i field, text) ::
  if str_eqb field "text" then [(KAnthropic 0 "all-text", text)] else [].
Definition block_start_pieces (v : Value) (i : Z) (field : string) : Fragments :=
  match value_get field (value_index "content_block" v) with
  | Some value => match value_as_str value with
                  | Some text => anthropic_pieces i field (bytes_of text)
                  | None => []
                  end
  | None => []
  end.
Definition fragments_anthropic (v : Value) : Fragments :=
  of_result (string_of v "type") (fun kind =>
  of_result (index_of v "index") (fun i =>
  if str_eqb kind "content_block_start" then
    flat (block_start_pieces v i) ["text"; "thinking"; "signature"]
  else if str_eqb kind "content_block_delta" then
    let delta := value_index "delta" v in
    of_result (string_of delta "type") (fun kind =>
    of_result (delta_field kind) (fun field =>
    of_result (string_of delta field) (fun text => anthropic_pieces i field (bytes_of text))))
  else [])).

Definition call_pieces (call : Value) : Fragments :=
  of_result (index_of call "index") (fun i =>
  let function := value_index "function" call in
  of_string (value_get "id" call) (KChat i "tool-id")
  ++ of_string (value_get "name" function) (KChat i "tool-name")
  ++ of_string (value_get "arguments" function) (KChat i "tool-arguments")).
Definition field_pieces (entry : string * Value) : Fragments :=
  let '(field, value) := entry in
  if str_eqb field "content" || str_eqb field "refusal" then of_string (Some value) (KChat 0 field)
  else if str_eqb field "tool_calls" then flat call_pieces (default [] (value_as_array value))
  else if str_eqb field "function_call" then
    of_string (value_get "name" value) (KChat 0 "function-name")
    ++ of_string (value_get "arguments" value) (KChat 0 "function-arguments")
  else [].
Definition choice_pieces (choice : Value) : Fragments :=
  flat field_pieces (default [] (as_object (value_index "delta" choice))).
Definition fragments_chat (v : Value) : Fragments :=
  flat choice_pieces (default [] (value_as_array (value_index "choices" v))).

Definition part_pieces (id : string) (output index : Z) (part : Value) : Fragments :=
  of_result (string_of part "type") (fun kind =>
  of_result (part_field kind) (fun '(field, member) =>
  of_string (value_get member part) (KResponses id output index field))).
Definition parts_pieces (id : string) (output : Z) (parts : option Value) : Fragments :=
  match parts with
  | Some parts => flat (fun e => part_pieces id output e.1 e.2) (enumerate (default [] (value_as_array parts)))
  | None => []
  end.
Definition item_pieces (output : Z) (id : string) (item : Value) : Fragments :=
  of_result (string_of item "type") (fun kind =>
  if str_eqb kind "function_call" || str_eqb kind "custom_tool_call" then
    let '(member, field) := item_members kind in
    of_string (value_get member item) (KResponses id output 0 field)
  else if str_eqb kind "message" then parts_pieces id output (value_get "content" item)
  else if str_eqb kind "reasoning" then
    flat (fun member => parts_pieces id output (value_get member item)) ["content"; "summary"]
  else []).
Definition delta_pieces (output : Z) (id : string) (kind : string) (v : Value) : Fragments :=
  match strip_suffix_str ".delta" kind with
  | Some stem =>
      match text_event stem with
      | Some (field, subindex) =>
          of_result (match subindex with Some f => index_of v f | None => Ok 0 end) (fun part =>
          of_string (value_get "delta" v) (KResponses id output part field))
      | None => []
      end
  | None => []
  end.
Definition fragments_responses (v : Value) : Fragments :=
  of_result (string_of v "type") (fun kind =>
  of_result (index_of v "output_index") (fun output =>
  if str_eqb kind "response.output_item.added" then
    let item := value_index "item" v in
    of_result (string_of item "id") (fun id => item_pieces output id item)
  else of_result (string_of v "item_id") (fun id =>
    if str_eqb kind "response.content_part.added" then
      of_result (index_of v "content_index") (fun i => part_pieces id output i (value_index "part" v))
    else if str_eqb kind "response.reasoning_summary_part.added" then
      of_result (index_of v "summary_index") (fun i => part_pieces id output i (value_index "part" v))
    else delta_pieces output id kind v))).

Definition fragments (protocol : ProfileLlmProtocol) (v : Value) : Fragments :=
  match protocol with
  | AnthropicMessages => fragments_anthropic v
  | OpenAiChat => fragments_chat v
  | OpenAiResponses => fragments_responses v
  | _ => []
  end.
End Fragments.

(** ** The invariant *)

(** Everything pushed so far, with its channel and the start of its frame. *)
Abbreviation Pushed := (list (Key * (list Z * Z))).
Definition channel (key : Key) (h : Pushed) : History :=
  map snd (List.filter (fun e => bool_decide (e.1 = key)) h).
Definition tagged (frame : Z) (l : list (Key * list Z)) : Pushed := map (fun e => (e.1, (e.2, frame))) l.

Lemma channel_app key h1 h2 : channel key (h1 ++ h2) = channel key h1 ++ channel key h2.
Proof. unfold channel. by rewrite List.filter_app, map_app. Qed.
Lemma channel_same key piece : channel key [(key, piece)] = [piece].
Proof. unfold channel. cbn. by rewrite bool_decide_eq_true_2. Qed.
Lemma channel_other key key' piece : key' <> key -> channel key [(key', piece)] = [].
Proof. intros H. unfold channel. cbn. by rewrite bool_decide_eq_false_2. Qed.
Lemma tagged_app frame a b : tagged frame (a ++ b) = tagged frame a ++ tagged frame b.
Proof. apply map_app. Qed.

Section WithLibraries.
Context {MC : Memchr} {EN : Encodings} {ML : MemchrLaws} {SJ : Serde}.
Context (secret auth : list Z) (Hsecret : secret <> []).
Notation needles := (sealing_needles secret auth).
Notation hold := (max_length (sealing_needles secret auth) * 6 + 5).

(** [h] was pushed by frames that start up to [frame]; what is withheld starts at
    [lo] or later. *)
Record obs_ok (protocol : ProfileLlmProtocol) (h : Pushed) (lo frame : Z) (o : Observer) : Prop := {
  obs_protocol : ob_protocol o = protocol;
  obs_open key t : ob_channels o !! key = Some t ->
    tail_ok secret (channel key h) t /\ Forall (fun x => lo <= x.2 <= frame) (tl_frames t);
  obs_new key : ob_channels o !! key = None -> key ∉ ob_closed o -> channel key h = [];
  obs_closed key : key ∈ ob_closed o -> ob_channels o !! key = None;
  obs_clean key : clean secret (text (channel key h));
  obs_terminal start status : ob_terminal o = Some (start, status) -> lo <= start <= frame;
}.

Lemma observer_new_ok protocol : obs_ok protocol [] 0 0 (observer_new protocol).
Proof. split; cbn; try done. intros key. by apply clean_nil. Qed.
Lemma obs_ok_later protocol h lo frame frame' o :
  obs_ok protocol h lo frame o -> frame <= frame' -> obs_ok protocol h lo frame' o.
Proof.
  intros [H1 H2 H3 H4 Hc H5] Hle. split; try done.
  - intros key t Ht. destruct (H2 key t Ht) as [? Hf]. split; [done|].
    eapply Forall_impl; [exact Hf|]. cbn. intros x Hx. lia.
  - intros start status E. specialize (H5 _ _ E). lia.
Qed.
(** Fields the invariant does not mention. *)
Definition same_texts (o o' : Observer) : Prop :=
  ob_protocol o' = ob_protocol o /\ ob_channels o' = ob_channels o /\ ob_closed o' = ob_closed o /\
  ob_terminal o' = ob_terminal o.
Lemma obs_ok_same p h lo frame o o' : same_texts o o' -> obs_ok p h lo frame o -> obs_ok p h lo frame o'.
Proof. intros (E1 & E2 & E3 & E4) [? ? ? ? ? ?]. split; rewrite ?E1, ?E2, ?E3, ?E4; done. Qed.

(** Computations that leave the channels alone. *)
Definition neutral {A} (m : M Observer A) : Prop :=
  forall o, wp m (fun _ o' => same_texts o o') (fun _ _ => True) o.
Lemma same_refl o : same_texts o o.
Proof. done. Qed.
Lemma same_trans o1 o2 o3 : same_texts o1 o2 -> same_texts o2 o3 -> same_texts o1 o3.
Proof. intros (?&?&?&?) (?&?&?&?). repeat split; congruence. Qed.
Lemma neutral_ret {A} (a : A) : neutral (mret a).
Proof. intros o. apply wp_ret, same_refl. Qed.
Lemma neutral_bind {A B} (m : M Observer A) (f : A -> M Observer B) :
  neutral m -> (forall a, neutral (f a)) -> neutral (x ← m; f x).
Proof.
  intros Hm Hf o. apply wp_bind. eapply wp_mono; [apply Hm| |done]. cbn. intros a o1 H1.
  eapply wp_mono; [apply Hf| |done]. cbn. intros b o2 H2. by eapply same_trans.
Qed.
Lemma neutral_gets {A} (f : Observer -> A) : neutral (gets f).
Proof. intros o. apply wp_gets, same_refl. Qed.
Lemma neutral_modify f : (forall o, same_texts o (f o)) -> neutral (modify f).
Proof. intros H o. by apply wp_modify. Qed.
Lemma neutral_lift {A} (r : result BrokerError A) : neutral (lift r).
Proof. intros o. apply wp_lift; [intros; apply same_refl|done]. Qed.
Lemma neutral_check b e : neutral (check b e).
Proof. intros o. apply wp_check; [done|intros; apply same_refl]. Qed.
Lemma neutral_each {A} (f : A -> M Observer unit) l : (forall x, neutral (f x)) -> neutral (each f l).
Proof. induction l as [|x l IH]; intros H; cbn; [apply neutral_ret|]. apply neutral_bind; auto. Qed.

Lemma same_usage value o : same_texts o (ob_usage value o).
Proof. unfold ob_usage. by repeat case_match. Qed.
Lemma same_chat_usage choices v o : same_texts o (chat_usage choices v o).
Proof.
  unfold chat_usage. case_match; [|done]. eapply same_trans; [|apply same_usage]. by case_match.
Qed.

Ltac neutral_go :=
  repeat match goal with
  | |- neutral (mbind _ _) => apply neutral_bind; [|intros ?]
  | |- neutral (mret _) => apply neutral_ret
  | |- neutral (gets _) => apply neutral_gets
  | |- neutral (lift _) => apply neutral_lift
  | |- neutral (check _ _) => apply neutral_check
  | |- neutral (raise _) => by intros ?
  | |- neutral (each _ _) => apply neutral_each; intros ?
  | |- neutral (modify _) => apply neutral_modify; intros ?; (done || apply same_usage || apply same_chat_usage)
  | |- neutral (match ?x with _ => _ end) => destruct x
  | |- neutral (if ?x then _ else _) => destruct x
  end.

Lemma neutral_identify id : neutral (ob_identify id).
Proof. unfold ob_identify. neutral_go. Qed.
Lemma neutral_scan_anthropic : neutral (scan_anthropic_text needles hold).
Proof. unfold scan_anthropic_text. neutral_go. Qed.
Lemma neutral_scan_response : neutral (scan_response_text needles hold).
Proof. unfold scan_response_text. neutral_go. Qed.
Lemma neutral_get_item output : neutral (get_item output).
Proof. unfold get_item. neutral_go. Qed.
Lemma neutral_update_item output f : neutral (update_item output f).
Proof. unfold update_item. apply neutral_bind; [apply neutral_get_item|]. intros. neutral_go. Qed.
Lemma neutral_bind_item output id : neutral (bind_response_item output id).
Proof. unfold bind_response_item. neutral_go. Qed.
Lemma neutral_response_text output part text append : neutral (response_text output part text append).
Proof. apply neutral_update_item. Qed.
Lemma neutral_part_snapshot output part value : neutral (response_part_snapshot output part value).
Proof.
  unfold response_part_snapshot. neutral_go; [apply neutral_response_text|apply neutral_update_item].
Qed.
Lemma neutral_item_snapshot output item : neutral (response_item_snapshot output item).
Proof.
  unfold response_item_snapshot. apply neutral_bind; [apply neutral_update_item|]. intros.
  neutral_go. apply neutral_part_snapshot.
Qed.
Lemma neutral_message_delta v : neutral (anthropic_message_delta v).
Proof. unfold anthropic_message_delta. neutral_go. Qed.
Lemma neutral_check_name name kind : neutral (check_name name kind).
Proof. apply neutral_check. Qed.

(** ** What a computation pushes *)

Section Pushes.
Variable protocol : ProfileLlmProtocol.
Variables lo frame : Z.
Hypothesis Hlo : lo <= frame.

(** A channel that is closed stays closed. *)
Definition pushes {A} (m : M Observer A) (l : list (Key * list Z)) : Prop :=
  forall h o, obs_ok protocol h lo frame o ->
  wp m (fun _ o' => obs_ok protocol (h ++ tagged frame l) lo frame o' /\ ob_closed o ⊆ ob_closed o')
     (fun _ _ => True) o.

Lemma pushes_neutral {A} (m : M Observer A) : neutral m -> pushes m [].
Proof.
  intros Hm h o Ho. eapply wp_mono; [apply Hm| |done]. cbn. intros _ o' H. rewrite app_nil_r.
  split; [by eapply obs_ok_same|]. by destruct H as (_ & _ & -> & _).
Qed.
Lemma pushes_ret {A} (a : A) : pushes (mret a) [].
Proof. apply pushes_neutral, neutral_ret. Qed.
Lemma pushes_raise {A} e l : pushes (A:=A) (raise e) l.
Proof. intros h o _. by apply wp_raise. Qed.
Lemma pushes_bind {A B} (m : M Observer A) (f : A -> M Observer B) a b :
  pushes m a -> (forall x, pushes (f x) b) -> pushes (x ← m; f x) (a ++ b).
Proof.
  intros Hm Hf h o Ho. apply wp_bind. eapply wp_mono; [by apply Hm| |done]. cbn. intros x o1 [H1 S1].
  eapply wp_mono; [by apply Hf| |done]. cbn. intros y o2 [H2 S2]. rewrite tagged_app, app_assoc.
  split; [done|]. by etransitivity.
Qed.
(** Neutral work before the pieces. *)
Lemma pushes_after {A B} (m : M Observer A) (f : A -> M Observer B) l :
  neutral m -> (forall x, pushes (f x) l) -> pushes (x ← m; f x) l.
Proof. intros Hm Hf. apply (pushes_bind m f [] l); [by apply pushes_neutral|done]. Qed.
Lemma pushes_lift {A B} (r : result BrokerError A) (f : A -> M Observer B) l :
  (forall a, r = Ok a -> pushes (f a) l) -> pushes (x ← lift r; f x) l.
Proof.
  intros Hf h o Ho. apply wp_bind, wp_lift; [|done]. intros a E. by apply Hf.
Qed.
Lemma pushes_check {B} b e (f : unit -> M Observer B) l :
  (b = false -> pushes (f tt) l) -> pushes (x ← check b e; f x) l.
Proof. intros Hf h o Ho. apply wp_bind, wp_check; [done|]. intros Hb. by apply Hf. Qed.
Lemma pushes_each {A} (f : A -> M Observer unit) (g : A -> list (Key * list Z)) l :
  (forall x, pushes (f x) (g x)) -> pushes (each f l) (flat g l).
Proof.
  intros Hf. induction l as [|x l IH]; cbn [each]; [apply pushes_ret|].
  unfold flat. cbn. by apply pushes_bind.
Qed.

Lemma insert_ok h key piece t t' o :
  obs_ok protocol h lo frame o -> t = default tail_default (ob_channels o !! key) -> key ∉ ob_closed o ->
  (tail_ok secret (channel key h) t -> tail_ok secret (channel key h ++ [piece]) t') ->
  Forall (fun x => lo <= x.2 <= frame) (tl_frames t') ->
  obs_ok protocol (h ++ [(key, piece)]) lo frame (set_channels (insert key t') o).
Proof.
  intros [H1 H2 H3 H4 Hcl H5] -> Hc Hpush Hf.
  assert (Hnew : tail_ok secret (channel key h ++ [piece]) t').
  { apply Hpush. destruct (ob_channels o !! key) as [u|] eqn:E; cbn [default]; [by apply (H2 key)|].
    rewrite H3 by done. by apply tail_default_ok. }
  split; cbn; try done.
  - intros k t Hk. rewrite channel_app. apply lookup_insert_Some in Hk as [[<- <-]|[Hne Hk]].
    + by rewrite channel_same.
    + rewrite channel_other by done. rewrite app_nil_r. by apply H2.
  - intros k Hk Hkc. apply lookup_insert_None in Hk as [Hk Hne]. rewrite channel_app, channel_other by done.
    rewrite app_nil_r. by apply H3.
  - intros k Hk. apply lookup_insert_None. split; [by apply H4|]. by intros ->.
  - intros k. rewrite channel_app. destruct (decide (k = key)) as [->|Hne].
    + rewrite channel_same. by apply (tail_clean _ _ _ Hnew).
    + rewrite channel_other by done. by rewrite app_nil_r.
Qed.

Lemma pushes_append key value : pushes (ob_append needles hold key value frame) [(key, bytes_of value)].
Proof.
  intros h o Ho. unfold ob_append. apply wp_bind, wp_gets, wp_bind, wp_check; [done|]. intros Hc.
  apply bool_decide_eq_false in Hc. cbn in Hc. set (t := default tail_default _).
  apply wp_bind, wp_lift; [|done]. intros t1 Hpush.
  assert (Ht : tail_ok secret (channel key h) t /\ Forall (fun x => lo <= x.2 <= frame) (tl_frames t)).
  { subst t. cbn. destruct (ob_channels o !! key) as [u|] eqn:E; cbn [default]; [by apply (obs_open _ _ _ _ _ Ho)|].
    rewrite (obs_new _ _ _ _ _ Ho) by done. split; [by apply tail_default_ok|constructor]. }
  destruct Ht as [Ht Htf].
  destruct (tail_push_ok secret auth Hsecret _ _ _ _ _ _ Ht Hlo Htf Hpush) as [Ht1 Hf1].
  apply wp_bind. destruct (is_metadata key).
  - destruct (tail_reclaim_ok secret auth Hsecret _ _ Ht1) as (t2 & E2 & Ht2 & Hs2).
    unfold wp at 1, lift_panic. rewrite E2. apply wp_modify. cbn [tagged map fst snd].
    split; [|done]. apply (insert_ok h key _ t); [done|done|done|done|].
    destruct Hs2 as [x Hx]. rewrite Hx in Hf1. by apply Forall_app in Hf1 as [_ Hf1].
  - apply wp_ret, wp_modify. split; [|done]. by apply (insert_ok h key _ t).
Qed.
Lemma pushes_close key : pushes (ob_close key) [].
Proof.
  intros h o [H1 H2 H3 H4 Hcl H5]. unfold ob_close. apply wp_modify. rewrite app_nil_r.
  split; [|cbn; set_solver]. split; cbn; try done.
  - intros k t [_ Hk]%lookup_delete_Some. by apply H2.
  - intros k Hk Hc. apply not_elem_of_union in Hc as [Hne Hc]. rewrite not_elem_of_singleton in Hne.
    rewrite lookup_delete_ne in Hk by done. by apply H3.
  - intros k [->%elem_of_singleton|Hk]%elem_of_union; [apply lookup_delete_eq|].
    apply lookup_delete_None. right. by apply H4.
Qed.
Lemma pushes_terminal status marker : pushes (modify (set_terminal (Some (frame, status)) marker)) [].
Proof.
  intros h o [H1 H2 H3 H4 Hcl H5]. apply wp_modify. rewrite app_nil_r. split; [|done].
  split; cbn; try done. intros start st [= <- _]. lia.
Qed.

(** ** The events push the pieces they spell *)

Hint Resolve neutral_gets neutral_identify neutral_scan_anthropic neutral_scan_response
  neutral_get_item neutral_update_item neutral_bind_item neutral_response_text neutral_part_snapshot
  neutral_item_snapshot neutral_message_delta neutral_check_name neutral_lift neutral_check neutral_ret : neutral.
Ltac push_go :=
  repeat match goal with
  | |- pushes (mbind _ (check _ _)) _ => apply pushes_check; intros ?
  | |- pushes (mbind _ (lift _)) _ => apply pushes_lift; intros ? ?
  | |- pushes (mbind _ (gets _)) _ => apply pushes_after; [apply neutral_gets|intros ?]
  | |- pushes (mbind _ (modify _)) _ => apply pushes_after; [by apply neutral_modify|intros ?]
  | |- pushes (mbind _ _) _ => apply pushes_after; [by auto with neutral|intros ?]
  | |- pushes (raise _) _ => apply pushes_raise
  | |- pushes (mret _) [] => apply pushes_ret
  | |- pushes (check _ _) [] => apply pushes_neutral, neutral_check
  end.

Lemma pushes_anthropic_append i field text :
  pushes (anthropic_append needles hold i field text frame) (anthropic_pieces i field (bytes_of text)).
Proof.
  unfold anthropic_append, anthropic_pieces. apply (pushes_bind _ _ [_]); [apply pushes_append|]. intros _.
  destruct (str_eqb field "text"); [|apply pushes_ret].
  rewrite <- (app_nil_r [_]). apply (pushes_bind _ _ [_] []); [apply pushes_append|]. intros _.
  push_go. apply pushes_neutral, neutral_scan_anthropic.
Qed.

Lemma str_eqb_eq a b : str_eqb a b = true -> a = b.
Proof. apply bool_decide_eq_true. Qed.

Ltac eval_strs :=
  repeat match goal with
  | |- context [str_eqb (String ?a ?b) (String ?c ?d)] =>
      let r := eval vm_compute in (str_eqb (String a b) (String c d)) in
      change (str_eqb (String a b) (String c d)) with r
  end; cbn [orb andb negb].

(** One result for one read. *)
Ltac unify_ok :=
  repeat match goal with
  | H1 : ?x = Ok ?a, H2 : ?x = Ok ?b |- _ => assert (b = a) by congruence; subst b; clear H2
  end.
Lemma pushes_block_start v i :
  index_of v "index" = Ok i ->
  pushes (anthropic_block_start needles hold v frame)
    (flat (block_start_pieces v i) ["text"; "thinking"; "signature"]).
Proof.
  intros Hi. unfold anthropic_block_start. push_go. unify_ok. apply pushes_each. intros field.
  unfold block_start_pieces. destruct (value_get field _) as [value|]; [|apply pushes_ret].
  apply pushes_lift. intros text Ht. destruct (value_as_str value); simplify_eq/=.
  apply pushes_anthropic_append.
Qed.
Lemma pushes_delta v :
  pushes (anthropic_delta needles hold v frame)
    (of_result (index_of v "index") (fun i =>
     of_result (string_of (value_index "delta" v) "type") (fun kind =>
     of_result (delta_field kind) (fun field =>
     of_result (string_of (value_index "delta" v) field) (fun text => anthropic_pieces i field (bytes_of text)))))).
Proof.
  unfold anthropic_delta. push_go. cbv zeta. push_go.
  match goal with H : index_of _ _ = Ok _ |- _ => rewrite H end.
  match goal with H : string_of _ "type" = Ok _ |- _ => rewrite H end. cbn [of_result].
  destruct (str_eqb a0 "citations_delta") eqn:E; [apply str_eqb_eq in E; subst a0; cbn [of_result]|].
  - unfold delta_field. eval_strs. cbn [of_result]. push_go.
  - push_go.
    match goal with H : delta_field _ = Ok _ |- _ => rewrite H end. cbn [of_result].
    match goal with H : string_of _ _ = Ok ?t |- pushes (anthropic_append _ _ _ _ ?t _) _ => rewrite H end.
    apply pushes_anthropic_append.
Qed.
Lemma pushes_block_stop v : pushes (anthropic_block_stop v) [].
Proof.
  unfold anthropic_block_stop. push_go.
  apply (pushes_each _ (fun _ => [])). intros field. apply pushes_close.
Qed.
Lemma pushes_anthropic name v :
  pushes (ob_anthropic needles hold name v frame) (fragments_anthropic v).
Proof.
  unfold ob_anthropic, fragments_anthropic. apply pushes_lift. intros kind Hkind. rewrite Hkind. cbn [of_result].
  push_go.
  destruct (str_eqb kind "content_block_start") eqn:E1; [apply str_eqb_eq in E1; subst kind; eval_strs|].
  { intros h o Ho. destruct (index_of v "index") as [i|] eqn:Ei; [by eapply pushes_block_start|].
    revert h o Ho. change (pushes (anthropic_block_start needles hold v frame) []).
    unfold anthropic_block_start. push_go. congruence. }
  destruct (str_eqb kind "content_block_delta") eqn:E2; [apply str_eqb_eq in E2; subst kind; eval_strs|].
  { apply pushes_delta. }
  match goal with |- pushes _ ?l => replace l with (@nil (Key * list Z)) by by destruct (index_of v "index") end.
  clear E1 E2.
  repeat match goal with |- pushes (if ?b then _ else _) _ => destruct b end; push_go.
  - apply pushes_neutral, neutral_identify.
  - apply pushes_block_stop.
  - apply pushes_neutral, neutral_message_delta.
  - apply pushes_terminal.
Qed.

(** *** Chat *)

Lemma pushes_member key member object :
  pushes (append_member needles hold key member object frame) (of_string (value_get member object) key).
Proof.
  unfold append_member, get_non_null. destruct (value_get member object) as [value|]; [|apply pushes_ret].
  destruct value; cbn [of_string value_as_str]; try apply pushes_ret;
    apply pushes_lift; intros text Ht; simplify_eq/=; apply pushes_append.
Qed.
Lemma pushes_call call :
  pushes (chat_tool_call needles hold call frame) (call_pieces call).
Proof.
  unfold chat_tool_call, call_pieces. apply pushes_lift. intros i Hi. rewrite Hi. cbn [of_result]. push_go.
  cbv zeta. apply pushes_bind; [apply pushes_member|]. intros _.
  apply pushes_bind; [apply pushes_member|]. intros _. apply pushes_member.
Qed.
Lemma pushes_field entry :
  pushes (chat_field needles hold frame entry) (field_pieces entry).
Proof.
  destruct entry as [field value]. unfold chat_field, field_pieces.
  destruct (is_null value) eqn:En.
  { destruct value; try done. cbn [of_string value_as_str value_as_array default value_get as_object mbind option_bind].
    repeat (case_match; [apply pushes_ret|]). apply pushes_ret. }
  destruct (str_eqb field "role") eqn:Er.
  { apply str_eqb_eq in Er. subst field. eval_strs. destruct (is_str value "assistant"); push_go. }
  cbn [andb]. destruct (_ || _).
  { apply pushes_lift. intros text Ht. cbn [of_string]. destruct (value_as_str value); simplify_eq/=.
    apply pushes_append. }
  destruct (str_eqb field "tool_calls").
  { apply pushes_lift. intros calls Hc. destruct (value_as_array value); simplify_eq/=.
    apply pushes_each. apply pushes_call. }
  destruct (str_eqb field "function_call"); [|push_go].
  push_go. apply pushes_bind; [apply pushes_member|]. intros _. apply pushes_member.
Qed.
Lemma pushes_choice choice :
  pushes (chat_choice needles hold frame choice) (choice_pieces choice).
Proof.
  unfold chat_choice, choice_pieces. push_go.
  destruct (as_object _) as [delta|]; simplify_eq/=. rewrite <- (app_nil_r (flat _ _)).
  apply pushes_bind; [apply pushes_each, pushes_field|]. intros _.
  destruct (get_non_null "finish_reason" choice); [|apply pushes_ret]. push_go.
  apply pushes_neutral, neutral_modify. done.
Qed.
Lemma pushes_chat v : pushes (ob_chat needles hold v frame) (fragments_chat v).
Proof.
  unfold ob_chat, fragments_chat. push_go.
  apply pushes_after; [apply neutral_modify; intros; apply same_chat_usage|]. intros _. push_go.
  destruct (value_as_array _); simplify_eq/=. apply pushes_each, pushes_choice.
Qed.

(** *** Responses *)

Lemma pushes_then_neutral {A B} (m : M Observer A) (f : A -> M Observer B) l :
  pushes m l -> (forall x, neutral (f x)) -> pushes (x ← m; f x) l.
Proof.
  intros Hm Hf. rewrite <- (app_nil_r l). apply pushes_bind; [done|]. intros x. by apply pushes_neutral.
Qed.
Lemma pushes_seed_part id output index part :
  pushes (seed_response_part needles hold id output index part frame) (part_pieces id output index part).
Proof.
  unfold seed_response_part, part_pieces. apply pushes_lift. intros kind Hk. rewrite Hk. cbn [of_result].
  apply pushes_lift. intros [field member] Hf. rewrite Hf. cbn [of_result].
  apply pushes_lift. intros text Ht. unfold string_of, of_string in *.
  destruct (value_get member part) as [value|]; [|done]. cbn [mbind option_bind] in Ht.
  destruct (value_as_str value); simplify_eq/=.
  apply pushes_then_neutral; [apply pushes_append|]. intros _.
  destruct (str_eqb field "text"); auto with neutral.
Qed.
Lemma pushes_seed_parts id output parts value :
  ok_or invalid (value_as_array value) = Ok parts ->
  pushes (seed_response_parts needles hold id output parts frame) (parts_pieces id output (Some value)).
Proof.
  intros H. unfold seed_response_parts, parts_pieces.
  destruct (value_as_array value); simplify_eq/=.
  apply (pushes_each _ (fun e => part_pieces id output e.1 e.2)). intros e. apply pushes_seed_part.
Qed.
Lemma pushes_item_added output id item :
  pushes (item_added needles hold output id item frame) (item_pieces output id item).
Proof.
  unfold item_added, item_pieces. push_go. unify_ok.
  match goal with H : string_of item "type" = Ok ?k |- _ => rewrite H; rename k into kind end. cbn [of_result].
  destruct (str_eqb kind "function_call" || _).
  { destruct (item_members kind) as [member field]. apply pushes_lift. intros text Ht.
    unfold string_of, of_string in *. destruct (value_get member item) as [value|]; [|done].
    cbn [mbind option_bind] in Ht. destruct (value_as_str value); simplify_eq/=. apply pushes_append. }
  destruct (str_eqb kind "message").
  { apply pushes_lift. intros parts Hp. unfold value_index in Hp.
    destruct (value_get "content" item) as [value|]; cbn [default] in Hp; [|done].
    push_go. by apply pushes_seed_parts. }
  destruct (str_eqb kind "reasoning"); [|apply pushes_ret].
  apply (pushes_each _ (fun member => parts_pieces id output (value_get member item))). intros member.
  unfold get_non_null. destruct (value_get member item) as [value|]; [|apply pushes_ret].
  destruct value; try apply pushes_ret; apply pushes_lift; intros parts Hp;
    push_go; by apply pushes_seed_parts.
Qed.
Lemma pushes_output_item kind v :
  kind ∈ ["response.output_item.added"; "response.output_item.done"] ->
  pushes (response_output_item needles hold kind v frame)
    (of_result (index_of v "output_index") (fun output =>
     if str_eqb kind "response.output_item.added" then
       of_result (string_of (value_index "item" v) "id") (fun id => item_pieces output id (value_index "item" v))
     else [])).
Proof.
  intros Hkind. unfold response_output_item. apply pushes_lift. intros output Ho. rewrite Ho. cbn [of_result].
  cbv zeta. apply pushes_lift. intros id Hid. rewrite Hid. cbn [of_result]. push_go.
  apply elem_of_cons in Hkind as [->|Hkind]; [|apply elem_of_cons in Hkind as [->|[]%not_elem_of_nil]]; eval_strs.
  - change (ends_with_str ".done" "response.output_item.added") with false.
    cbv iota. apply pushes_item_added.
  - change (ends_with_str ".done" "response.output_item.done") with true.
    cbv iota. push_go.
    apply pushes_neutral, neutral_update_item.
Qed.

Lemma pushes_response_part kind v :
  kind ∈ RESPONSE_PARTS ->
  pushes (response_part needles hold kind v frame)
    (of_result (index_of v "output_index") (fun output =>
     of_result (string_of v "item_id") (fun id =>
     if str_eqb kind "response.content_part.added" then
       of_result (index_of v "content_index") (fun i => part_pieces id output i (value_index "part" v))
     else if str_eqb kind "response.reasoning_summary_part.added" then
       of_result (index_of v "summary_index") (fun i => part_pieces id output i (value_index "part" v))
     else []))).
Proof.
  intros Hkind. unfold response_part. apply pushes_lift. intros output Ho. rewrite Ho. cbn [of_result].
  apply pushes_lift. intros id Hid. rewrite Hid. cbn [of_result]. push_go.
  assert (Hclose : forall part fields, pushes (each (fun field => ob_close (KResponses id output part field)) fields) []).
  { intros part fields. replace (@nil (Key * list Z)) with (flat (fun _ : string => []) fields)
      by (induction fields; cbn; done).
    apply pushes_each. intros. apply pushes_close. }
  unfold RESPONSE_PARTS in Hkind. rewrite !elem_of_cons in Hkind.
  destruct Hkind as [->|[->|[->|[->|[]%not_elem_of_nil]]]]; eval_strs.
  - change (starts_with_str _ _) with false. change (ends_with_str _ _) with true. cbv iota zeta.
    apply pushes_lift. intros i Hi. rewrite Hi. cbn [of_result]. push_go. apply pushes_seed_part.
  - change (starts_with_str _ _) with false. change (ends_with_str _ _) with false. cbv iota zeta.
    push_go. apply Hclose.
  - change (starts_with_str _ _) with true. change (ends_with_str _ _) with true. cbv iota zeta.
    apply pushes_lift. intros i Hi. rewrite Hi. cbn [of_result]. push_go. apply pushes_seed_part.
  - change (starts_with_str _ _) with true. change (ends_with_str _ _) with false. cbv iota zeta.
    push_go. apply Hclose.
Qed.
Lemma pushes_response_terminal kind v : pushes (response_terminal needles hold kind v frame) [].
Proof.
  unfold response_terminal. push_go.
  apply pushes_after; [apply neutral_modify; intros; apply same_usage|]. intros _.
  intros h o Ho. apply (pushes_terminal (if str_eqb kind "response.completed" then Completed else Incomplete)
    (ob_done_marker o) h o Ho).
Qed.
Lemma delta_suffix_ends p s stem : strip_suffix_str p s = Some stem -> ends_with_str p s = true.
Proof. unfold strip_suffix_str. by destruct (ends_with_str p s). Qed.
Lemma pushes_text_event kind field subindex v stem :
  strip_suffix_str ".delta" kind = Some stem -> text_event stem = Some (field, subindex) ->
  pushes (response_text_event needles hold kind field subindex v frame)
    (of_result (index_of v "output_index") (fun output =>
     of_result (string_of v "item_id") (fun id => delta_pieces output id kind v))).
Proof.
  intros Hs He. unfold response_text_event, delta_pieces. rewrite Hs, He. push_go. unify_ok.
  repeat match goal with H : _ = Ok _ |- _ => rewrite H; cbn [of_result] end.
  rewrite (delta_suffix_ends _ _ _ Hs). apply pushes_lift. intros text Ht.
  unfold string_of in Ht. destruct (value_get "delta" v) as [value|]; [|done].
  cbn [mbind option_bind of_string] in *. destruct (value_as_str value); simplify_eq/=.
  apply pushes_then_neutral; [apply pushes_append|]. intros _.
  destruct (str_eqb field "text"); auto with neutral.
Qed.
Lemma pushes_text_done kind field subindex v :
  ends_with_str ".delta" kind = false ->
  pushes (response_text_event needles hold kind field subindex v frame) [].
Proof.
  intros He. unfold response_text_event. rewrite He. push_go.
  apply pushes_after; [destruct (str_eqb field "text"); [apply neutral_bind|]; auto with neutral|].
  intros []. apply pushes_after;
    [destruct (str_eqb field "custom-input"); [apply neutral_bind|]; auto with neutral|].
  intros []. apply pushes_close.
Qed.

(** An event whose kind spells no text. *)
Definition silent (kind : string) : Prop :=
  kind <> "response.output_item.added" /\ kind <> "response.content_part.added" /\
  kind <> "response.reasoning_summary_part.added" /\
  match strip_suffix_str ".delta" kind with Some stem => text_event stem = None | None => True end.
Lemma silent_pieces kind v :
  string_of v "type" = Ok kind -> silent kind -> fragments_responses v = [].
Proof.
  intros Hk (H1 & H2 & H3 & H4). unfold fragments_responses. rewrite Hk. cbn [of_result].
  unfold str_eqb. rewrite !bool_decide_eq_false_2 by done.
  destruct (index_of v "output_index"); [|done]. cbn [of_result].
  destruct (string_of v "item_id"); [|done]. cbn [of_result]. unfold delta_pieces.
  destruct (strip_suffix_str ".delta" kind); [|done]. by rewrite H4.
Qed.

Lemma of_result_nil {A} (r : result BrokerError A) : of_result r (fun _ => []) = [].
Proof. by destruct r. Qed.
Lemma of_results_nil {A B} (r : result BrokerError A) (r' : result BrokerError B) :
  of_result r (fun _ => of_result r' (fun _ => [])) = [].
Proof. by destruct r, r'. Qed.
Lemma pushes_responses name v : pushes (ob_responses needles hold name v frame) (fragments_responses v).
Proof.
  unfold ob_responses. apply pushes_lift. intros kind Hk. push_go. cbv zeta.
  (** Kinds are closed strings from here on. *)
  case_bool_decide as E1.
  { rewrite (silent_pieces kind); [|done|].
    - push_go. apply pushes_neutral, neutral_scan_response.
    - rewrite !elem_of_cons in E1. by destruct E1 as [->|[->|[]%not_elem_of_nil]]. }
  case_bool_decide as E2.
  { apply pushes_then_neutral; [|intros _; apply neutral_scan_response].
    pose proof (pushes_output_item kind v E2) as Hp.
    rewrite !elem_of_cons in E2. destruct E2 as [->|[->|[]%not_elem_of_nil]].
    - unfold fragments_responses. rewrite Hk. cbn [of_result]. eval_strs. exact Hp.
    - rewrite (silent_pieces _ v Hk) by done. revert Hp. eval_strs. by rewrite of_result_nil. }
  case_bool_decide as E3.
  { apply pushes_then_neutral; [|intros _; apply neutral_scan_response].
    pose proof (pushes_response_part kind v E3) as Hp. unfold RESPONSE_PARTS in E3.
    rewrite !elem_of_cons in E3. destruct E3 as [->|[->|[->|[->|[]%not_elem_of_nil]]]].
    - unfold fragments_responses. rewrite Hk. cbn [of_result]. eval_strs. exact Hp.
    - rewrite (silent_pieces _ v Hk) by done. revert Hp. eval_strs. by rewrite of_results_nil.
    - unfold fragments_responses. rewrite Hk. cbn [of_result]. eval_strs. exact Hp.
    - rewrite (silent_pieces _ v Hk) by done. revert Hp. eval_strs. by rewrite of_results_nil. }
  case_bool_decide as E4.
  { apply pushes_then_neutral; [|intros _; apply neutral_scan_response].
    rewrite (silent_pieces kind); [apply pushes_response_terminal|done|].
    rewrite !elem_of_cons in E4. by destruct E4 as [->|[->|[]%not_elem_of_nil]]. }
  case_bool_decide as E5; [push_go|].
  assert (Hadded : kind <> "response.output_item.added" /\ kind <> "response.content_part.added" /\
    kind <> "response.reasoning_summary_part.added").
  { repeat split; intros ->; [apply E2|apply E3|apply E3]; set_solver. }
  destruct Hadded as (A1 & A2 & A3).
  destruct (strip_suffix_str ".delta" kind) as [stem|] eqn:Ed.
  - destruct (text_event stem) as [[field subindex]|] eqn:Et.
    + apply pushes_then_neutral; [|intros _; apply neutral_scan_response].
      unfold fragments_responses. rewrite Hk. cbn [of_result]. unfold str_eqb.
      rewrite !bool_decide_eq_false_2 by done. by eapply pushes_text_event.
    + rewrite (delta_suffix_ends _ _ _ Ed). push_go.
  - assert (Hnd : ends_with_str ".delta" kind = false) by (unfold strip_suffix_str in Ed; by destruct (ends_with_str _ _)).
    rewrite (silent_pieces kind v Hk) by (repeat split; try done; by rewrite Ed).
    destruct (strip_suffix_str ".done" kind) as [stem|].
    + destruct (text_event stem) as [[field subindex]|]; [|rewrite Hnd; apply pushes_ret].
      apply pushes_then_neutral; [by apply pushes_text_done|intros _; apply neutral_scan_response].
    + push_go. apply pushes_neutral, neutral_scan_response.
Qed.

End Pushes.

(** An accepted event pushes exactly the pieces it spells. *)
Lemma pushes_event protocol lo frame name v :
  lo <= frame -> pushes protocol lo frame (ob_event needles hold name v frame) (fragments protocol v).
Proof.
  intros Hlo h o Ho. unfold ob_event. apply wp_bind, wp_gets, wp_bind, wp_check; [done|]. intros _.
  cbv beta. rewrite (obs_protocol _ _ _ _ _ Ho). destruct protocol; try by apply wp_raise.
  - by apply pushes_anthropic.
  - by apply pushes_chat.
  - by apply pushes_responses.
Qed.
End WithLibraries.
