(* ===== verification/LlmStream.v ===== *)
(** * LlmStream: a provider's event stream, relayed losslessly

    [rekey-broker/src/executor/llm_stream.rs]: [boundary], which cuts the wire into
    frames at empty lines, [observe_frame], which reads one, and [run], which scans
    the wire, observes every complete frame and releases the raw bytes before the
    observer's watermark. What is left at the end is a [Complete], released after
    the settlement. A panic or a loop without end is [None] ([Effect]). *)

From S2P Require Import Prelude Strings Bytes Errors Domain Decimal Json Llm Effect Sealing Sealer TextStreamTheorems LlmTail LlmObserver.

(** [chunks(n)]: pieces of [n] bytes, the last one shorter. *)
Fixpoint chunks_of (fuel n : nat) (l : list Z) : list (list Z) :=
  match fuel, l with
  | _, [] => []
  | O, _ => []
  | S fuel, _ => take n l :: chunks_of fuel n (drop n l)
  end.

Section WithLibraries.
Context {MC : Memchr} {SJ : Serde} {LA : Layout}.
Abbreviation Value := (JValue Number).

(** [scan_json]: some string or key of the value has the secret. *)
Fixpoint scan_json (needles : list (list Z)) (v : Value) : bool :=
  match v with
  | VString s => contains_secret (bytes_of s) needles
  | VArray l => existsb (scan_json needles) l
  | VObject l =>
      existsb (fun e => contains_secret (bytes_of e.1) needles || scan_json needles e.2) l
  | _ => false
  end.

(** [boundary]: the end of the next frame and the new [scan] and [line]. Every turn
    consumes a byte. *)
Fixpoint boundary_loop (fuel : nat) (bytes : list Z) (base scan line : Z) (eof : bool)
  : option (option Z * (Z * Z)) :=
  if scan <? base then None
  else if llen bytes <=? scan - base then Some (None, (scan, line))
  else match fuel with
  | O => None
  | S fuel =>
      match memchr2 13 10 (drop_z (scan - base) bytes) with
      | None => Some (None, (base + llen bytes, line))
      | Some skip =>
          let scan := scan + Z.of_nat skip in
          let offset := scan - base in
          match bytes !! Z.to_nat offset with
          | None => None
          | Some b =>
              let next := bytes !! Z.to_nat (offset + 1) in
              if (b =? 13) && (offset + 1 =? llen bytes) && negb eof then Some (None, (scan, line))
              else if (b =? 10) || (b =? 13) then
                let width := if (b =? 13) && bool_decide (next = Some 10) then 2 else 1 in
                let empty := line =? scan in
                let scan := scan + width in
                if empty then Some (Some scan, (scan, scan))
                else boundary_loop fuel bytes base scan scan eof
              else boundary_loop fuel bytes base (scan + 1) line eof
          end
      end
  end.
Definition boundary (bytes : list Z) (base scan line : Z) (eof : bool)
  : option (option Z * (Z * Z)) :=
  boundary_loop (S (length bytes)) bytes base scan line eof.

(** ** [observe_frame] *)

(** [split(['\r', '\n'])]. *)
Fixpoint split_crlf (l : list Z) : list (list Z) :=
  match l with
  | [] => [[]]
  | b :: r =>
      if (b =? 13) || (b =? 10) then [] :: split_crlf r
      else match split_crlf r with
           | [] => [[b]]
           | h :: t => (b :: h) :: t
           end
  end.
(** [split_once(':').unwrap_or((line, ""))] and [strip_prefix(' ').unwrap_or(value)]. *)
Definition field_value (line : list Z) : list Z * list Z :=
  match position (fun b => b =? 58) line with
  | None => (line, [])
  | Some i =>
      let value := drop (S i) line in
      (take i line, match value with 32 :: rest => rest | _ => value end)
  end.
(** The event name, the first data line, and the joined lines when there are more. *)
Fixpoint frame_fields (name data : option (list Z)) (multiline : list Z) (lines : list (list Z))
  : result BrokerError (option (list Z) * option (list Z)) :=
  match lines with
  | [] =>
      Ok (name, match data with
                | None => None
                | Some data => Some (if bool_decide (multiline = []) then data else multiline)
                end)
  | line :: rest =>
      if bool_decide (line = []) || bool_decide (head line = Some 58)
      then frame_fields name data multiline rest
      else
        let '(field, value) := field_value line in
        if bool_decide (field = bytes_of "event") then
          reject_if bool_decide (is_Some name) with invalid ;;
          frame_fields (Some value) data multiline rest
        else if bool_decide (field = bytes_of "data") then
          match data with
          | Some first =>
              frame_fields name data
                ((if bool_decide (multiline = []) then first else multiline) ++ [10] ++ value) rest
          | None => frame_fields name (Some value) multiline rest
          end
        else frame_fields name data multiline rest
  end.
Definition observe_frame (needles : list (list Z)) (hold : Z) (bytes : list Z) (start : Z)
  : M Observer unit :=
  _ ← check (negb (utf8_valid bytes)) invalid;
  '(name, data) ← lift (frame_fields None None [] (split_crlf bytes));
  match data with
  | None => mret tt
  | Some data =>
      if bool_decide (data = bytes_of "[DONE]") then ob_done start
      else
        value ← lift (map_err (fun _ => invalid) (parse_profile_llm_event data));
        _ ← check (scan_json needles value) ResponseSecurityViolation;
        ob_event needles hold name value start
  end.

(** ** [run] *)

Record LlmRun := mkLlmRun {
  lr_raw : Sealer;
  lr_observer : Observer;
  lr_cursor : Z;
  lr_scan : Z;
  lr_line : Z;
  lr_frames : list Z;
  lr_sender : Sender;
}.
Definition set_lr_raw raw st := mkLlmRun raw (lr_observer st) (lr_cursor st) (lr_scan st) (lr_line st)
  (lr_frames st) (lr_sender st).
Definition set_lr_observer o st := mkLlmRun (lr_raw st) o (lr_cursor st) (lr_scan st) (lr_line st)
  (lr_frames st) (lr_sender st).
Definition set_lr_scan scan line st := mkLlmRun (lr_raw st) (lr_observer st) (lr_cursor st) scan line
  (lr_frames st) (lr_sender st).
Definition set_lr_cursor cursor st := mkLlmRun (lr_raw st) (lr_observer st) cursor (lr_scan st) (lr_line st)
  (lr_frames st ++ [cursor]) (lr_sender st).
Definition set_lr_frames frames st := mkLlmRun (lr_raw st) (lr_observer st) (lr_cursor st) (lr_scan st)
  (lr_line st) frames (lr_sender st).
Definition get_lr_sending (st : LlmRun) : Sending := (lr_raw st, lr_sender st).
Definition set_lr_sending (s : Sending) (st : LlmRun) : LlmRun :=
  mkLlmRun s.1 (lr_observer st) (lr_cursor st) (lr_scan st) (lr_line st) (lr_frames st) s.2.

(** The frames that end before the watermark: the end of the last one, and the rest. *)
Fixpoint pop_frames (watermark : Z) (end_ : option Z) (frames : list Z) : option Z * list Z :=
  match frames with
  | [] => (end_, [])
  | e :: rest => if e <=? watermark then pop_frames watermark (Some e) rest else (end_, frames)
  end.

(** What follows a frame's end. *)
Definition on_frame (needles : list (list Z)) (limit end_ : Z) : M LlmRun unit :=
  st ← gets id;
  let raw := lr_raw st in
  bytes ← lift_panic (slice (lr_cursor st - sl_base raw) (end_ - sl_base raw) (sl_bytes raw));
  _ ← zoom lr_observer set_lr_observer (observe_frame needles (sl_hold raw) bytes (lr_cursor st));
  _ ← modify (set_lr_cursor end_);
  st ← gets id;
  _ ← check (limit <? llen (sl_bytes raw) + ob_retained (lr_observer st) + llen (lr_frames st) * 8)
        (Upstream "response-too-large");
  let watermark := ob_watermark (sat_sub (sl_total raw) (sl_hold raw)) (lr_observer st) in
  let '(last, frames) := pop_frames watermark None (lr_frames st) in
  _ ← modify (set_lr_frames frames);
  match last with
  | None => mret tt
  | Some last =>
      _ ← zoom get_lr_sending set_lr_sending (release_through last);
      modify (fun st => set_lr_raw (sealer_compact (lr_cursor st) (lr_raw st)) st)
  end.
(** The loop over the frames; every turn consumes a byte. *)
Fixpoint frames_loop (fuel : nat) (needles : list (list Z)) (limit : Z) (eof : bool) : M LlmRun unit :=
  match fuel with
  | O => lift_panic None
  | S fuel =>
      st ← gets id;
      '(found, (scan, line)) ← lift_panic (boundary (sl_bytes (lr_raw st)) (sl_base (lr_raw st))
                                                    (lr_scan st) (lr_line st) eof);
      _ ← modify (set_lr_scan scan line);
      match found with
      | None => mret tt
      | Some end_ => _ ← on_frame needles limit end_; frames_loop fuel needles limit eof
      end
  end.
Definition on_part (needles : list (list Z)) (limit : Z) (eof : bool) (part : list Z) : M LlmRun unit :=
  st ← gets id;
  raw ← lift (if bool_decide (part = []) then Ok (lr_raw st) else sealer_push part needles (lr_raw st));
  _ ← modify (set_lr_raw raw);
  frames_loop (S (Z.to_nat (sl_total raw - lr_scan st))) needles limit eof.
(** A network chunk, and the end of the body. *)
Definition on_llm_chunk (needles : list (list Z)) (limit : Z) (chunk : list Z) : M LlmRun unit :=
  st ← gets id;
  _ ← check (sat_sub limit (sl_total (lr_raw st)) <? llen chunk) (Upstream "response-too-large");
  each (on_part needles limit false)
       (chunks_of (length chunk) (Z.to_nat TEXT_STREAM_CHUNK_MAX_BYTES) chunk).

Record Complete := mkComplete { cp_raw : Sealer; cp_output : option Z; cp_status : TextStreamStatus }.
Definition on_llm_end (needles : list (list Z)) (limit : Z) : M LlmRun Complete :=
  _ ← on_part needles limit true [];
  st ← gets id;
  _ ← check (negb (lr_cursor st =? sl_total (lr_raw st))) (Upstream "truncated-stream");
  terminal ← lift (ok_or (Upstream "truncated-stream") (ob_terminal (lr_observer st)));
  mret (mkComplete (lr_raw st)
          (if ob_poisoned (lr_observer st) then None else ob_last_usage (lr_observer st)) terminal.2).

(** The checks on the response's head. *)
Definition mime_ok (value : string) : bool :=
  eq_ignore_ascii_case (trim (hd EmptyString (split_on ";" value))) "text/event-stream".
Fixpoint stream_mime (mime : Z) (headers : list (string * string)) : result BrokerError Z :=
  match headers with
  | [] => Ok mime
  | (name, value) :: rest =>
      let is_type := eq_ignore_ascii_case name "content-type" in
      reject_if is_type && negb (mime_ok value) with invalid ;;
      reject_if eq_ignore_ascii_case name "content-encoding"
                && negb (eq_ignore_ascii_case (trim value) "identity") with invalid ;;
      stream_mime (if is_type then mime + 1 else mime) rest
  end.
Definition llm_run (response : StreamResponse) (needles : list (list Z)) (limit : Z) (sender : Sender)
    (protocol : ProfileLlmProtocol) : option (result BrokerError Complete * Sender) :=
  match stream_mime 0 (rs_headers response) with
  | Err e => Some (Err e, sender)
  | Ok mime =>
      if headers_contain_secret (rs_header_bytes response) needles
      then Some (Err ResponseSecurityViolation, sender)
      else if negb (rs_status response =? 200) || negb (mime =? 1) then Some (Err invalid, sender)
      else match sealer_new needles limit with
      | Err e => Some (Err e, sender)
      | Ok raw =>
          let body := _ ← each (fun chunk => match chunk with
              | None => raise (Upstream "stream-transport")
              | Some chunk => on_llm_chunk needles limit chunk
              end) (rs_body response); on_llm_end needles limit in
          match body (mkLlmRun raw (observer_new protocol) 0 0 0 [] sender) with
          | None => None
          | Some (r, st) => Some (r, lr_sender st)
          end
      end
  end.

(** [Complete::release]. *)
Definition complete_release : M (Complete * Sender) unit :=
  c ← gets fst;
  zoom (fun st => (cp_raw st.1, st.2))
       (fun s st => (mkComplete s.1 (cp_output st.1) (cp_status st.1), s.2))
       (release_through (sl_total (cp_raw c))).

End WithLibraries.

(** * What a relayed event stream shows before it is settled

    [llm_run] against references that know neither network chunks nor buffers:
    [wire_frames], the frames of the whole body, [observe_all], the observer run
    over them, and [pushed_by], the text that they add to each channel. *)

(** ** Frames *)

(** The length of the first frame: through the first empty line. [fresh]: nothing
    of the current line has been read. *)
Fixpoint next_frame (fresh : bool) (l : list Z) : option nat :=
  match l with
  | [] => None
  | b :: r =>
      if b =? 10 then if fresh then Some 1%nat else S <$> next_frame true r
      else if b =? 13 then
        match r with
        | c :: r' =>
            if c =? 10 then if fresh then Some 2%nat else (fun n => S (S n)) <$> next_frame true r'
            else if fresh then Some 1%nat else S <$> next_frame true r
        | [] => if fresh then Some 1%nat else S <$> next_frame true r
        end
      else S <$> next_frame false r
  end.
Definition is_newline (b : Z) : bool := (b =? 13) || (b =? 10).

Lemma next_frame_skip fresh u r :
  Forall (fun b => is_newline b = false) u ->
  next_frame fresh (u ++ r) =
    (fun n => (length u + n)%nat) <$> next_frame (fresh && bool_decide (u = [])) r.
Proof.
  intros Hu. revert fresh. induction Hu as [|b u Hb _ IH]; intros fresh.
  - rewrite bool_decide_eq_true_2, andb_true_r by done. cbn [app length]. by destruct (next_frame fresh r).
  - cbn [app next_frame]. unfold is_newline in Hb. apply orb_false_iff in Hb as [-> ->]. rewrite IH.
    rewrite (bool_decide_eq_false_2 (b :: u = [])) by done. rewrite andb_false_r. cbn [andb].
    by destruct (next_frame false r).
Qed.
Lemma next_frame_bound fresh l n : next_frame fresh l = Some n -> (0 < n <= length l)%nat.
Proof.
  remember (length l) as k eqn:Hk. revert fresh l n Hk.
  induction k as [k IH] using lt_wf_ind. intros fresh [|b r] n ->; [done|]. cbn [next_frame length].
  assert (Hr : forall fresh r' m, (length r' <= length r)%nat -> next_frame fresh r' = Some m ->
    (0 < m <= length r')%nat) by (intros f r' m Hl H; eapply (IH (length r')); [cbn; lia|done|done]).
  destruct (b =? 10).
  - destruct fresh; [intros; simplify_eq; lia|]. destruct (next_frame true r) eqn:E; [|done].
    intros; simplify_eq/=. apply Hr in E; lia.
  - destruct (b =? 13).
    + assert (H1 : forall f : bool, (if f then Some 1%nat else S <$> next_frame true r) = Some n -> (0 < n <= S (length r))%nat).
      { intros []; [intros; simplify_eq; lia|]. destruct (next_frame true r) eqn:E; [|done].
        intros; simplify_eq/=. apply Hr in E; lia. }
      destruct r as [|c r']; [apply H1|]. destruct (c =? 10); [|apply H1].
      destruct fresh; [intros; simplify_eq/=; lia|]. destruct (next_frame true r') eqn:E; [|done].
      intros; simplify_eq/=. apply Hr in E; cbn in *; lia.
    + destruct (next_frame false r) eqn:E; [|done]. intros; simplify_eq/=. apply Hr in E; lia.
Qed.

(** The frames of a wire from an offset, with their starts. *)
Fixpoint frames_from (fuel : nat) (start : Z) (l : list Z) : list (Z * list Z) :=
  match fuel with
  | O => []
  | S fuel =>
      match next_frame true l with
      | None => []
      | Some n => (start, take n l) :: frames_from fuel (start + Z.of_nat n) (drop n l)
      end
  end.
Definition wire_frames (l : list Z) : list (Z * list Z) := frames_from (length l) 0 l.

Lemma frames_enough_from f1 f2 start l :
  (length l <= f1)%nat -> (length l <= f2)%nat -> frames_from f1 start l = frames_from f2 start l.
Proof.
  revert f2 start l. induction f1 as [|f1 IH]; intros f2 start l H1 H2.
  - destruct l; [|cbn in H1; lia]. by destruct f2.
  - destruct f2 as [|f2]; [destruct l; [done|cbn in H2; lia]|]. cbn [frames_from].
    destruct (next_frame true l) as [n|] eqn:E; [|done]. apply next_frame_bound in E.
    f_equal. apply IH; rewrite length_drop; lia.
Qed.
Lemma frames_from_cons start end_ body more :
  0 <= start -> start < end_ -> end_ <= llen body ->
  next_frame true (drop_z start body ++ more) = Some (Z.to_nat (end_ - start)) ->
  frames_from (length (drop_z start body ++ more)) start (drop_z start body ++ more) =
    (start, take_z (end_ - start) (drop_z start body)) ::
    frames_from (length (drop_z end_ body ++ more)) end_ (drop_z end_ body ++ more).
Proof.
  intros H0 Hlt Hle E. pose proof (next_frame_bound _ _ _ E) as Hb.
  destruct (length _) as [|k] eqn:Ek; [lia|]. cbn [frames_from]. rewrite E.
  assert (Hl : llen (drop_z start body) = llen body - start) by (rewrite llen_drop_z; lia).
  replace (start + Z.of_nat (Z.to_nat (end_ - start))) with end_ by lia.
  rewrite take_app_le, drop_app_before by (unfold llen in *; lia).
  fold (take_z (end_ - start) (drop_z start body)). fold (drop_z (end_ - start) (drop_z start body)).
  rewrite drop_z_drop_z by lia. replace (end_ - start + start) with end_ by lia.
  f_equal. apply frames_enough_from; [|lia].
  rewrite length_app in *. pose proof (llen_drop_z end_ body ltac:(lia)). unfold llen in *. lia.
Qed.
Lemma frames_from_start fuel start l : Forall (fun f => start <= f.1) (frames_from fuel start l).
Proof.
  revert start l. induction fuel as [|fuel IH]; intros start l; cbn; [constructor|].
  destruct (next_frame true l) as [n|]; constructor; [done|].
  eapply Forall_impl; [apply IH|]. cbn. intros x Hx. lia.
Qed.

(** ** [boundary] finds the frames of the wire however it is cut *)

Section Boundary.
Context {MC : Memchr} {ML : MemchrLaws}.

Lemma newline_position l :
  match memchr2 13 10 l with
  | None => Forall (fun b => is_newline b = false) l
  | Some skip => exists u b r, l = u ++ b :: r /\ length u = skip /\ is_newline b = true /\
      Forall (fun b => is_newline b = false) u
  end.
Proof.
  rewrite memchr2_position. change (fun x => (x =? 13) || (x =? 10)) with is_newline.
  destruct (position is_newline l) as [skip|] eqn:E.
  - apply position_Some in E as (u & b & r & -> & Hl & Hb & Hu). eauto 10.
  - by apply position_None in E.
Qed.

(** Through the next newline. *)
Definition advance_frame (fresh : bool) (width : nat) (r : list Z) : option nat :=
  if fresh then Some width else (fun n => (width + n)%nat) <$> next_frame true r.
Lemma next_frame_newline fresh b r :
  is_newline b = true ->
  next_frame fresh (b :: r) =
    if (b =? 13) && bool_decide (head r = Some 10) then advance_frame fresh 2 (tail r)
    else advance_frame fresh 1 r.
Proof.
  intros Hb. unfold advance_frame. cbn [next_frame]. unfold is_newline in Hb.
  destruct (Z.eqb_spec b 10) as [->|H10]; cbn; [done|]. rewrite orb_false_r in Hb. rewrite Hb. cbn.
  destruct r as [|c r]; [done|]. cbn. destruct (Z.eqb_spec c 10) as [->|Hc].
  - done.
  - rewrite bool_decide_eq_false_2 by congruence. done.
Qed.

(** What a scan that stopped at [scan'] has established. *)
Definition scanned_to (bytes : list Z) (base scan line scan' line' : Z) (more : list Z) : Prop :=
  next_frame (line =? scan) (drop_z (scan - base) bytes ++ more) =
    (fun n => (Z.to_nat (scan' - scan) + n)%nat)
      <$> next_frame (line' =? scan') (drop_z (scan' - base) bytes ++ more).
Lemma scanned_refl bytes base scan line more : scanned_to bytes base scan line scan line more.
Proof. unfold scanned_to. rewrite Z.sub_diag. by destruct (next_frame _ _). Qed.
Lemma scanned_trans bytes base s1 l1 s2 l2 s3 l3 more :
  s1 <= s2 <= s3 -> scanned_to bytes base s1 l1 s2 l2 more -> scanned_to bytes base s2 l2 s3 l3 more ->
  scanned_to bytes base s1 l1 s3 l3 more.
Proof.
  unfold scanned_to. intros Hs -> ->. destruct (next_frame _ _); [|done]. cbn. f_equal. lia.
Qed.

Section Turn.
Context (bytes : list Z) (base scan line : Z) (u : list Z) (b : Z) (r : list Z).
Context (Hscan : base <= scan <= base + llen bytes) (Hline : line <= scan).
Context (Hrest : drop_z (scan - base) bytes = u ++ b :: r).
Context (Hb : is_newline b = true) (Hu : Forall (fun b => is_newline b = false) u).
Let at_b := scan + Z.of_nat (length u).

Lemma turn_length : at_b - base + 1 + llen r = llen bytes.
Proof.
  pose proof (llen_drop_z (scan - base) bytes ltac:(lia)) as H. rewrite Hrest in H.
  unfold at_b, llen in *. rewrite length_app in H. cbn in H. lia.
Qed.
Lemma turn_drop w : 0 <= w <= 1 + llen r -> drop_z (at_b + w - base) bytes = drop (Z.to_nat w) (b :: r).
Proof.
  intros Hw. replace (at_b + w - base) with (Z.of_nat (length u) + w + (scan - base)) by (unfold at_b; lia).
  rewrite <- drop_z_drop_z by lia. rewrite Hrest. unfold drop_z.
  replace (Z.to_nat (Z.of_nat (length u) + w)) with (length u + Z.to_nat w)%nat by lia.
  by rewrite <- drop_drop, drop_app_length.
Qed.
Lemma turn_lookup k : bytes !! Z.to_nat (at_b - base + Z.of_nat k) = (b :: r) !! k.
Proof.
  replace (Z.to_nat (at_b - base + Z.of_nat k)) with (Z.to_nat (at_b + 0 - base) + k)%nat by (unfold at_b; lia).
  rewrite <- lookup_drop. fold (drop_z (at_b + 0 - base) bytes). rewrite turn_drop; [done|].
  pose proof (llen_nonneg r). lia.
Qed.
(** The bytes before the newline. *)
Lemma turn_skip more : scanned_to bytes base scan line at_b line more.
Proof.
  unfold scanned_to. rewrite Hrest. replace (at_b - base) with (at_b + 0 - base) by lia.
  rewrite turn_drop by (pose proof (llen_nonneg r); lia). cbn [drop Z.to_nat].
  rewrite <- app_assoc, next_frame_skip by done.
  replace (Z.to_nat (at_b - scan)) with (length u) by (unfold at_b; lia). f_equal. f_equal.
  case_bool_decide as E.
  - subst u. unfold at_b. cbn. by rewrite andb_true_r, Z.add_0_r.
  - rewrite andb_false_r. symmetry. apply Z.eqb_neq. destruct u; [done|]. unfold at_b. cbn. lia.
Qed.
(** The newline, of one byte or two. *)
Definition width : Z :=
  if (b =? 13) && bool_decide (bytes !! Z.to_nat (at_b - base + 1) = Some 10) then 2 else 1.
Lemma turn_next : bytes !! Z.to_nat (at_b - base + 1) = head r.
Proof. change 1 with (Z.of_nat 1). rewrite turn_lookup. by destruct r. Qed.
Lemma width_bound : 1 <= width <= 1 + llen r.
Proof.
  unfold width. rewrite turn_next. pose proof (llen_nonneg r).
  destruct (_ && _) eqn:E; [|lia]. reflect_bools. destruct r; [done|]. unfold llen. cbn. lia.
Qed.
Lemma turn_newline more :
  (r = [] -> b = 10 \/ more = []) ->
  next_frame (line =? scan) (drop_z (scan - base) bytes ++ more) =
    (fun n => (Z.to_nat (at_b - scan) + n)%nat)
      <$> advance_frame (line =? at_b) (Z.to_nat width) (drop_z (at_b + width - base) bytes ++ more).
Proof.
  intros Hmore. pose proof width_bound as Hw. rewrite (turn_skip more).
  replace (at_b - base) with (at_b + 0 - base) by lia.
  rewrite !turn_drop by (pose proof (llen_nonneg r); lia).
  change (drop (Z.to_nat 0) (b :: r) ++ more) with (b :: (r ++ more)).
  rewrite next_frame_newline by done. f_equal. revert Hw. unfold width. rewrite turn_next.
  assert (E : b <> 13 \/ head (r ++ more) = head r).
  { destruct r; [|by right]. destruct (Hmore eq_refl) as [->| ->]; [by left|by right]. }
  destruct (Z.eqb_spec b 13) as [->|Hb13]; cbn [andb].
  - destruct E as [?| ->]; [done|]. case_bool_decide as Eh; intros Hw; [|done].
    destruct r as [|c r']; [done|]. done.
  - done.
Qed.
End Turn.

Lemma boundary_loop_ok fuel bytes base scan line eof :
  base <= scan <= base + llen bytes -> line <= scan -> llen bytes - (scan - base) < Z.of_nat fuel ->
  exists found scan' line', boundary_loop fuel bytes base scan line eof = Some (found, (scan', line')) /\
    scan <= scan' <= base + llen bytes /\ line' <= scan' /\
    (forall more, (eof = true -> more = []) ->
     match found with
     | Some end_ => end_ = scan' /\ line' = scan' /\ scan < scan' /\
         next_frame (line =? scan) (drop_z (scan - base) bytes ++ more) = Some (Z.to_nat (scan' - scan))
     | None => scanned_to bytes base scan line scan' line' more
     end) /\
    (found = None -> eof = true -> scan' = base + llen bytes).
Proof.
  revert scan line. induction fuel as [|fuel IH]; intros scan line Hscan Hline Hfuel; [lia|].
  cbn [boundary_loop]. replace (scan <? base) with false by (symmetry; apply Z.ltb_ge; lia).
  destruct (Z.leb_spec (llen bytes) (scan - base)) as [Hend|Hend].
  { exists None, scan, line. split; [done|]. split; [lia|]. split; [done|].
    split; [|lia]. intros more _. apply scanned_refl. }
  pose proof (newline_position (drop_z (scan - base) bytes)) as Hpos.
  destruct (memchr2 13 10 (drop_z (scan - base) bytes)) as [skip|].
  2: { exists None, (base + llen bytes), line. split; [done|]. split; [lia|]. split; [lia|].
       split; [|done]. intros more _. unfold scanned_to. rewrite next_frame_skip by done.
       replace (base + llen bytes - base) with (llen bytes) by lia.
       assert (E : drop_z (llen bytes) bytes = []) by (unfold drop_z, llen; apply drop_ge; lia).
       rewrite E. cbn [app].
       replace (Z.to_nat (base + llen bytes - scan)) with (length (drop_z (scan - base) bytes))
         by (pose proof (llen_drop_z (scan - base) bytes ltac:(lia)); unfold llen in *; lia).
       rewrite bool_decide_eq_false_2.
       - rewrite andb_false_r. by replace (line =? base + llen bytes) with false by (symmetry; apply Z.eqb_neq; lia).
       - intros E'. pose proof (llen_drop_z (scan - base) bytes ltac:(lia)) as Hl. rewrite E' in Hl.
         unfold llen in *. cbn in Hl. lia. }
  destruct Hpos as (u & b & r & Hrest & <- & Hb & Hu).
  set (at_b := scan + Z.of_nat (length u)).
  assert (Hlen : at_b - base + 1 + llen r = llen bytes) by (by eapply turn_length).
  assert (Hat : bytes !! Z.to_nat (at_b - base) = Some b).
  { pose proof (turn_lookup bytes base scan u b r Hscan Hrest 0) as H. by rewrite Z.add_0_r in H. }
  fold at_b. rewrite Hat. pose proof (llen_nonneg r).
  destruct ((b =? 13) && (at_b - base + 1 =? llen bytes) && negb eof) eqn:Ecr.
  { exists None, at_b, line. split; [done|]. split; [lia|]. split; [unfold at_b; lia|].
    split; [|intros _ ->; by rewrite andb_false_r in Ecr].
    intros more _. by eapply turn_skip. }
  assert (Hnl : (b =? 10) || (b =? 13) = true) by (by rewrite orb_comm). rewrite Hnl.
  fold (width bytes base scan u b). fold at_b. set (w := width bytes base scan u b).
  assert (Hw : 1 <= w <= 1 + llen r) by (by eapply width_bound).
  assert (Hframe : forall more, (eof = true -> more = []) ->
    next_frame (line =? scan) (drop_z (scan - base) bytes ++ more) =
    (fun n => (Z.to_nat (at_b - scan) + n)%nat)
      <$> advance_frame (line =? at_b) (Z.to_nat w) (drop_z (at_b + w - base) bytes ++ more)).
  { intros more Heof. eapply turn_newline; try done. intros ->. unfold llen in *. cbn in *.
    destruct (Z.eqb_spec b 10); [by left|]. right. apply Heof.
    destruct (Z.eqb_spec b 13); [|by destruct (Z.eqb_spec b 10)]. cbn in Ecr.
    replace (at_b - base + 1 =? Z.of_nat (length bytes)) with true in Ecr by (symmetry; apply Z.eqb_eq; lia).
    by destruct eof. }
  unfold advance_frame in Hframe. destruct (line =? at_b) eqn:Eempty.
  - exists (Some (at_b + w)), (at_b + w), (at_b + w). split; [done|]. split; [unfold at_b in *; lia|].
    split; [done|]. split; [|done]. intros more Heof. split; [done|]. split; [done|].
    split; [unfold at_b in *; lia|]. rewrite Hframe by done. cbn. f_equal. unfold at_b. lia.
  - destruct (IH (at_b + w) (at_b + w)) as (found & scan' & line' & E & H1 & H2 & H3 & H4);
      [unfold at_b in *; lia|lia|unfold at_b in *; lia|].
    exists found, scan', line'. split; [exact E|]. split; [unfold at_b in *; lia|]. split; [done|].
    split; [|done]. intros more Heof. specialize (H3 more Heof).
    unfold scanned_to in *. rewrite Z.eqb_refl in H3. destruct found as [end_|].
    + destruct H3 as (-> & -> & Hlt & H3). split; [done|]. split; [done|]. split; [unfold at_b in *; lia|].
      rewrite Hframe by done. rewrite H3. cbn. f_equal. unfold at_b in *. lia.
    + rewrite Hframe by done. rewrite H3. destruct (next_frame _ (drop_z (scan' - base) _ ++ _)); [|done].
      cbn. f_equal. unfold at_b in *. lia.
Qed.
End Boundary.

(** ** What the frames add to the channels *)

Section WithLibraries.
Context {MC : Memchr} {EN : Encodings} {ML : MemchrLaws} {SJ : Serde} {LA : Layout}.

Definition frame_fragments (protocol : ProfileLlmProtocol) (bytes : list Z) : list (Key * list Z) :=
  of_result (frame_fields None None [] (split_crlf bytes)) (fun f =>
  match f.2 with
  | None => []
  | Some data =>
      if bool_decide (data = bytes_of "[DONE]") then []
      else match parse_profile_llm_event data with
           | Ok value => fragments protocol value
           | Err _ => []
           end
  end).
Definition pushed_by (protocol : ProfileLlmProtocol) (frames : list (Z * list Z)) : Pushed :=
  concat (map (fun f => tagged f.1 (frame_fragments protocol f.2)) frames).
Definition observe_all (needles : list (list Z)) (frames : list (Z * list Z)) : M Observer unit :=
  each (fun f => observe_frame needles (max_length needles * 6 + 5) f.2 f.1) frames.

Lemma pushed_by_app protocol f1 f2 : pushed_by protocol (f1 ++ f2) = pushed_by protocol f1 ++ pushed_by protocol f2.
Proof. unfold pushed_by. by rewrite map_app, concat_app. Qed.
Lemma each_app {S A} (f : A -> M S unit) l1 l2 s :
  each f (l1 ++ l2) s = (_ ← each f l1; each f l2) s.
Proof.
  revert s. induction l1 as [|x l1 IH]; intros s; [done|]. cbn [app each].
  unfold mbind, M_bind in *. destruct (f x s) as [[[[]|e] s']|]; [apply IH|done|done].
Qed.

(** The watermark is below everything withheld. *)
Lemma fold_min_le raw l : fold_right Z.min raw l <= raw.
Proof. induction l as [|x l IH]; cbn; lia. Qed.
Lemma fold_min_elem raw l x : x ∈ l -> fold_right Z.min raw l <= x.
Proof. induction l as [|y l IH]; [by intros ?%not_elem_of_nil|]. intros [->|H]%elem_of_cons; cbn; [lia|]. specialize (IH H). lia. Qed.
Lemma watermark_tail raw o key t x :
  ob_channels o !! key = Some t -> frames_sorted (tl_frames t) -> x ∈ tl_frames t -> ob_watermark raw o <= x.2.
Proof.
  intros Hk Hs Hx. unfold ob_watermark. destruct (tl_frames t) as [|y l] eqn:E; [by apply not_elem_of_nil in Hx|].
  transitivity y.2.
  - apply fold_min_elem, elem_of_app. left. apply list_elem_of_omap. exists (key, t).
    split; [by apply elem_of_map_to_list|]. cbn. unfold front_start. by rewrite E.
  - apply elem_of_cons in Hx as [->|Hx]; [lia|]. inversion Hs as [|? ? _ Hy]; subst.
    rewrite Forall_forall in Hy. by apply Hy.
Qed.
Lemma watermark_terminal raw o start status :
  ob_terminal o = Some (start, status) -> ob_watermark raw o <= start.
Proof. intros E. unfold ob_watermark. rewrite E. apply fold_min_elem, elem_of_app. right. left. Qed.

Section Run.
Context (secret auth : list Z) (Hsecret : secret <> []) (protocol : ProfileLlmProtocol) (limit : Z).
Notation needles := (sealing_needles secret auth).
Notation hold := (max_length (sealing_needles secret auth) * 6 + 5).

Lemma observe_frame_wp h lo start bytes o :
  obs_ok secret protocol h lo start o -> lo <= start ->
  wp (observe_frame needles hold bytes start)
    (fun _ o' => obs_ok secret protocol (h ++ tagged start (frame_fragments protocol bytes)) lo start o' /\
                 ob_closed o ⊆ ob_closed o' /\ utf8_valid bytes = true)
    (fun _ _ => True) o.
Proof.
  intros Ho Hlo. unfold observe_frame. apply wp_bind, wp_check; [done|]. intros Hu.
  apply negb_false_iff in Hu. unfold frame_fragments.
  apply wp_bind, wp_lift; [|done]. intros [name data] Hf. rewrite Hf. cbn [of_result snd].
  destruct data as [data|]; [|apply wp_ret; cbn; by rewrite app_nil_r].
  case_bool_decide as Hd.
  - rewrite app_nil_r. unfold ob_done. apply wp_bind, wp_gets.
    destruct (_ && _).
    + apply wp_modify. split; [|done]. destruct Ho. split; done.
    + apply wp_bind, wp_check; [done|]. intros _. apply wp_bind, wp_lift; [|done]. intros reason _.
      pose proof (pushes_terminal secret protocol lo start Hlo reason (ob_done_marker (id o)) h o Ho) as Hp.
      rewrite app_nil_r in Hp. eapply wp_mono; [exact Hp| |done]. cbn. intros _ o' [H1 H2]. done.
  - apply wp_bind, wp_lift; [|done]. intros value Hv.
    destruct (parse_profile_llm_event data) as [v|]; [|done]. cbn in Hv. simplify_eq.
    apply wp_bind, wp_check; [done|]. intros _.
    eapply wp_mono; [by apply (pushes_event secret auth Hsecret protocol lo start name value Hlo)| |done].
    cbn. intros _ o' [H1 H2]. done.
Qed.

(** ** The invariant of the run *)

(** [body] has been read and its first [frames] observed; at the end of the body
    ([eof]) nothing more comes. *)
Record run_ok (eof : bool) (body : list Z) (frames : list (Z * list Z)) (st : LlmRun) : Prop := {
  run_sealer : sealer_ok body (lr_raw st);
  run_hold : sl_hold (lr_raw st) = hold;
  run_back : sl_emitted (lr_raw st) <= sat_sub (sl_total (lr_raw st)) hold;
  run_clean : clean secret body;
  run_sent : sent_ok body (sl_emitted (lr_raw st)) (lr_sender st);
  run_order : sl_emitted (lr_raw st) <= lr_cursor st /\ lr_cursor st <= lr_scan st /\
    lr_line st <= lr_scan st /\ lr_scan st <= sl_total (lr_raw st);
  run_scanned more : (eof = true -> more = []) ->
    next_frame true (drop_z (lr_cursor st) body ++ more) =
      (fun n => (Z.to_nat (lr_scan st - lr_cursor st) + n)%nat)
        <$> next_frame (lr_line st =? lr_scan st) (drop_z (lr_scan st) body ++ more);
  run_queue : StronglySorted Z.lt (lr_frames st) /\
    Forall (fun e => sl_emitted (lr_raw st) <= e <= lr_cursor st) (lr_frames st);
  run_utf8 : Forall (fun e => utf8_text (take_z (lr_cursor st - e) (drop_z e body)))
    (sl_emitted (lr_raw st) :: lr_frames st);
  run_cut more : (eof = true -> more = []) ->
    let rest := drop_z (lr_cursor st) body ++ more in
    wire_frames (body ++ more) = frames ++ frames_from (length rest) (lr_cursor st) rest;
  run_observed : observe_all needles frames (observer_new protocol) = Some (Ok tt, lr_observer st);
  run_obs : obs_ok secret protocol (pushed_by protocol frames) (sl_emitted (lr_raw st)) (lr_cursor st)
    (lr_observer st);
}.

Lemma run_ok_eof eof body frames st : run_ok false body frames st -> run_ok eof body frames st.
Proof. intros [H1 H2 H3 H4 H5 H6 H7 H8 H9 H10 H11 H12]. split; try done; intros more _; [by apply H7|by apply H10]. Qed.

Lemma pop_frames_ok w acc q :
  exists popped rest, q = popped ++ rest /\ Forall (fun e => e <= w) popped /\
    pop_frames w acc q = (match last popped with Some e => Some e | None => acc end, rest).
Proof.
  revert acc. induction q as [|e q IH]; intros acc; cbn [pop_frames].
  - by exists [], [].
  - destruct (Z.leb_spec e w); [|by exists [], (e :: q)].
    destruct (IH (Some e)) as (popped & rest & -> & Hp & ->). exists (e :: popped), rest.
    split; [done|]. split; [by constructor|]. rewrite last_cons. by destruct (last popped).
Qed.

(** A frame observed: the state before the release. *)
Lemma frame_observed eof body frames st end_ o' :
  run_ok eof body frames st -> lr_cursor st < end_ -> end_ <= sl_total (lr_raw st) ->
  (forall more, (eof = true -> more = []) ->
     next_frame true (drop_z (lr_cursor st) body ++ more) = Some (Z.to_nat (end_ - lr_cursor st))) ->
  let seg := take_z (end_ - lr_cursor st) (drop_z (lr_cursor st) body) in
  utf8_text seg ->
  observe_frame needles hold seg (lr_cursor st) (lr_observer st) = Some (Ok tt, o') ->
  obs_ok secret protocol (pushed_by protocol (frames ++ [(lr_cursor st, seg)]))
    (sl_emitted (lr_raw st)) (lr_cursor st) o' ->
  run_ok eof body (frames ++ [(lr_cursor st, seg)])
    (set_lr_cursor end_ (set_lr_observer o' (set_lr_scan end_ end_ st))).
Proof.
  intros [Hs Hh Hb Hc Hsent Hord Hscan [Hq1 Hq2] Hu Hcut Hobs Hok] Hlt Hle Hnext seg Hseg Hob Hok'.
  pose proof (ok_total _ _ Hs) as Ht. pose proof (ok_order _ _ Hs) as Hso.
  split; cbn [lr_raw lr_observer lr_cursor lr_scan lr_line lr_frames lr_sender set_lr_cursor set_lr_observer set_lr_scan].
  - done.
  - done.
  - done.
  - done.
  - done.
  - lia.
  - intros more _. rewrite Z.sub_diag, Z.eqb_refl. by destruct (next_frame _ _).
  - split.
    + clear -Hq1 Hq2 Hlt. induction Hq1 as [|e q Hq IH He]; cbn; [repeat constructor|].
      inversion Hq2; subst. constructor; [by apply IH|]. apply Forall_app. split; [done|].
      apply Forall_singleton. lia.
    + apply Forall_app. split; [|apply Forall_singleton; lia].
      eapply Forall_impl; [exact Hq2|]. cbn. intros e He. lia.
  - assert (Hmore : forall e, 0 <= e <= lr_cursor st ->
      utf8_text (take_z (lr_cursor st - e) (drop_z e body)) -> utf8_text (take_z (end_ - e) (drop_z e body))).
    { intros e He H. rewrite (take_z_split (lr_cursor st - e) (end_ - e)) by lia.
      apply utf8_text_app; [done|]. rewrite drop_z_drop_z by lia.
      replace (end_ - e - (lr_cursor st - e)) with (end_ - lr_cursor st) by lia.
      by replace (lr_cursor st - e + e) with (lr_cursor st) by lia. }
    inversion Hu as [|? ? Hu1 Hu2]; subst. constructor; [apply Hmore; [lia|done]|].
    apply Forall_app. split.
    + rewrite Forall_forall in *. intros e He. apply Hmore; [specialize (Hq2 e He); cbn in Hq2; lia|by apply Hu2].
    + apply Forall_singleton. rewrite Z.sub_diag. constructor.
  - intros more Heof. rewrite (Hcut more Heof), <- app_assoc. f_equal. cbv zeta.
    by apply frames_from_cons; [lia|lia|lia|apply Hnext].
  - unfold observe_all. rewrite each_app. unfold observe_all in Hobs. unfold mbind, M_bind. rewrite Hobs.
    cbn [each fst snd]. unfold mbind, M_bind. by rewrite Hob.
  - eapply obs_ok_later; [exact Hok'|lia].
Qed.

(** An error leaves behind what an earlier state had sent. *)
Definition stopped (whole : list Z) (out : Sender) : Prop :=
  exists eof body more frames st, whole = body ++ more /\ (eof = true -> more = []) /\
    run_ok eof body frames st /\ lr_sender st = out.
Lemma run_ok_stopped eof body more frames st :
  run_ok eof body frames st -> (eof = true -> more = []) -> stopped (body ++ more) (lr_sender st).
Proof. intros H Hm. by exists eof, body, more, frames, st. Qed.

(** Everything withheld starts at or after the watermark. *)
Lemma obs_ok_watermark h lo lo' frame raw o :
  obs_ok secret protocol h lo frame o -> lo' <= ob_watermark raw o ->
  obs_ok secret protocol h lo' frame o.
Proof.
  intros [H1 H2 H3 H4 Hc H5] Hw. split; try done.
  - intros key t Hk. destruct (H2 key t Hk) as [Ht Hf]. split; [done|].
    rewrite Forall_forall in *. intros x Hx.
    pose proof (watermark_tail raw o key t x Hk (tail_sorted _ _ _ Ht) Hx). specialize (Hf x Hx). lia.
  - intros start status E. pose proof (watermark_terminal raw o start status E). specialize (H5 _ _ E). lia.
Qed.

Lemma sorted_app_inv {A} (R : A -> A -> Prop) l1 l2 : StronglySorted R (l1 ++ l2) ->
  StronglySorted R l2 /\ forall x y, x ∈ l1 -> y ∈ l2 -> R x y.
Proof.
  induction l1 as [|z l1 IH]; cbn; intros H; [split; [done|by intros ? ? ?%not_elem_of_nil]|].
  inversion H as [|? ? Hs Hz]; subst. destruct (IH Hs) as [H1 H2]. split; [done|].
  intros x y [->|Hx]%elem_of_cons Hy; [|by apply H2].
  rewrite Forall_forall in Hz. apply Hz, elem_of_app. by right.
Qed.

(** The release of the frames before the watermark. *)
Lemma release_frames_wp eof body frames st :
  run_ok eof body frames st ->
  let '(last, rest) := pop_frames (ob_watermark (sat_sub (sl_total (lr_raw st)) (sl_hold (lr_raw st))) (lr_observer st))
                                  None (lr_frames st) in
  wp (_ ← modify (set_lr_frames rest);
      match last with
      | None => mret tt
      | Some last =>
          _ ← zoom get_lr_sending set_lr_sending (release_through last);
          modify (fun st => set_lr_raw (sealer_compact (lr_cursor st) (lr_raw st)) st)
      end)
    (fun _ st' => run_ok eof body frames st' /\ lr_scan st' = lr_scan st /\
                  sl_total (lr_raw st') = sl_total (lr_raw st))
    (fun _ st' => lr_sender st' = lr_sender st) st.
Proof.
  intros Hrun. destruct (pop_frames_ok (ob_watermark (sat_sub (sl_total (lr_raw st)) (sl_hold (lr_raw st))) (lr_observer st))
    None (lr_frames st)) as (popped & rest & Eq & Hpop & ->).
  pose proof Hrun as [Hs Hh Hb Hc Hsent Hord Hscan [Hq1 Hq2] Hu Hcut Hobs Hok].
  rewrite Eq in Hq1, Hq2, Hu. apply sorted_app_inv in Hq1 as [Hq1 Hq3]. apply Forall_app in Hq2 as [Hqp Hqr].
  inversion Hu as [|? ? Hu0 Hu']; subst. apply Forall_app in Hu' as [Hup Hur].
  apply wp_bind, wp_modify. destruct (last popped) as [e|] eqn:El.
  2: { apply last_None in El as ->. apply wp_ret. split; [|done]. split; try done. }
  assert (He : e ∈ popped) by (apply last_Some in El as [l ->]; apply elem_of_app; right; left).
  rewrite Forall_forall in Hqp, Hup, Hpop.
  pose proof (Hqp e He) as Hqe. pose proof (Hpop e He) as Hwe. cbn in Hqe.
  pose proof (fold_min_le (sat_sub (sl_total (lr_raw st)) (sl_hold (lr_raw st)))
    (omap (fun e => front_start e.2) (map_to_list (ob_channels (lr_observer st)))
     ++ match ob_terminal (lr_observer st) with Some (start, _) => [start] | None => [] end)) as Hwr.
  fold (ob_watermark (sat_sub (sl_total (lr_raw st)) (sl_hold (lr_raw st))) (lr_observer st)) in Hwr.
  apply wp_bind, wp_zoom. cbn [get_lr_sending set_lr_frames lr_raw lr_sender].
  eapply wp_mono; [apply (release_through_wp body e); [done|cbn; lia|cbn; lia|done]| |by intros ? [? ?] [[= -> ->] _]].
  intros [] [raw out] [Er Hout]. cbn [fst snd] in Er, Hout. subst raw. apply wp_modify.
  assert (Hs' : sealer_ok body (set_emitted e (lr_raw st))).
  { destruct Hs. split; cbn; try done. lia. }
  destruct (compact_ok body (lr_cursor st) (set_emitted e (lr_raw st)) Hs') as (C1 & C2 & C3 & C4 & C5).
  split; [|by cbn]. split; cbn; rewrite ?C3, ?C4, ?C5; cbn; try done.
  - rewrite <- Hh. lia.
  - lia.
  - split; [done|]. rewrite Forall_forall in *. intros x Hx. specialize (Hqr x Hx). specialize (Hq3 e x He Hx).
    cbn in Hqr. lia.
  - constructor; [by apply Hup|done].
  - by eapply obs_ok_watermark.
Qed.

(** One complete frame. *)
Lemma wp_run {S A} (m : M S A) Q E s :
  wp m Q E s -> wp m (fun a s' => Q a s' /\ m s = Some (Ok a, s')) E s.
Proof. unfold wp. by destruct (m s) as [[[a|e] s']|]. Qed.
Lemma on_frame_wp eof body more frames st end_ :
  run_ok eof body frames st -> (eof = true -> more = []) -> lr_cursor st < end_ -> end_ <= sl_total (lr_raw st) ->
  (forall more, (eof = true -> more = []) ->
     next_frame true (drop_z (lr_cursor st) body ++ more) = Some (Z.to_nat (end_ - lr_cursor st))) ->
  wp (on_frame needles limit end_)
    (fun _ st' => (exists frames', run_ok eof body frames' st') /\ lr_scan st' = end_ /\ sl_total (lr_raw st') = sl_total (lr_raw st))
    (fun _ st' => stopped (body ++ more) (lr_sender st')) (set_lr_scan end_ end_ st).
Proof.
  intros Hrun Hmore Hlt Hle Hnext. pose proof (run_ok_stopped _ _ _ _ _ Hrun Hmore) as Hstop.
  pose proof (run_sealer _ _ _ _ Hrun) as Hs. pose proof (run_hold _ _ _ _ Hrun) as Hh.
  pose proof (run_order _ _ _ _ Hrun) as Hord. pose proof (ok_len _ _ Hs) as Hlen.
  pose proof (ok_order _ _ Hs) as Hso.
  unfold on_frame. apply wp_bind, wp_gets. cbn [id set_lr_scan lr_raw lr_cursor lr_observer].
  apply wp_bind. unfold wp at 1, lift_panic. rewrite slice_Some by lia.
  rewrite (ok_bytes _ _ Hs), drop_z_drop_z by lia.
  replace (lr_cursor st - sl_base (lr_raw st) + sl_base (lr_raw st)) with (lr_cursor st) by lia.
  replace (end_ - sl_base (lr_raw st) - (lr_cursor st - sl_base (lr_raw st))) with (end_ - lr_cursor st) by lia.
  set (seg := take_z _ _). apply wp_bind, wp_zoom. rewrite Hh. cbn [lr_observer set_lr_scan].
  eapply wp_mono; [apply wp_run, observe_frame_wp; [apply (run_obs _ _ _ _ Hrun)|lia]| |by intros].
  intros [] o' [(Hok' & _ & Hu) Hobs]. apply utf8_text_of in Hu.
  assert (Hrun' : run_ok eof body (frames ++ [(lr_cursor st, seg)])
    (set_lr_cursor end_ (set_lr_observer o' (set_lr_scan end_ end_ st)))).
  { apply frame_observed; try done. rewrite pushed_by_app. unfold pushed_by at 2. cbn. by rewrite app_nil_r. }
  apply wp_bind, wp_modify, wp_bind, wp_gets, wp_bind, wp_check; intros _; [done|].
  pose proof (release_frames_wp _ _ _ _ Hrun') as Hrel. cbn [id] in *.
  cbn [set_lr_cursor set_lr_observer set_lr_scan lr_raw lr_observer lr_cursor lr_frames] in *.
  rewrite Hh in Hrel. destruct (pop_frames _ None _) as [last rest].
  eapply wp_mono; [exact Hrel| |].
  - cbn. intros _ st' (H1 & H2 & H3). eauto.
  - cbn. by intros _ st' ->.
Qed.

(** A scan that found no frame. *)
Lemma scan_moved eof body frames st scan line :
  run_ok eof body frames st -> lr_scan st <= scan -> scan <= sl_total (lr_raw st) -> line <= scan ->
  (forall more, (eof = true -> more = []) ->
     scanned_to (sl_bytes (lr_raw st)) (sl_base (lr_raw st)) (lr_scan st) (lr_line st) scan line more) ->
  run_ok eof body frames (set_lr_scan scan line st).
Proof.
  intros [Hs Hh Hb Hc Hsent Hord Hscan Hq Hu Hcut Hobs Hok] H1 H2 H3 Hto.
  split; cbn; try done; [lia|]. intros more Hmore. rewrite Hscan by done.
  specialize (Hto more Hmore). pose proof (ok_order _ _ Hs). unfold scanned_to in Hto.
  rewrite (ok_bytes _ _ Hs), !drop_z_drop_z in Hto by lia.
  replace (lr_scan st - sl_base (lr_raw st) + sl_base (lr_raw st)) with (lr_scan st) in Hto by lia.
  replace (scan - sl_base (lr_raw st) + sl_base (lr_raw st)) with scan in Hto by lia.
  rewrite Hto. destruct (next_frame _ (drop_z scan _ ++ _)); [|done]. cbn. f_equal. lia.
Qed.

Lemma frames_loop_wp eof body more fuel frames st :
  run_ok eof body frames st -> (eof = true -> more = []) ->
  sl_total (lr_raw st) - lr_scan st < Z.of_nat fuel ->
  wp (frames_loop fuel needles limit eof)
    (fun _ st' => exists frames', run_ok eof body frames' st' /\ (eof = true -> lr_scan st' = sl_total (lr_raw st')))
    (fun _ st' => stopped (body ++ more) (lr_sender st')) st.
Proof.
  intros Hrun Hmore. revert frames st Hrun.
  induction fuel as [|fuel IH]; intros frames st Hrun Hf;
    pose proof (run_sealer _ _ _ _ Hrun) as Hs; pose proof (run_order _ _ _ _ Hrun) as Hord;
    pose proof (ok_len _ _ Hs) as Hlen; pose proof (ok_order _ _ Hs) as Hso; [lia|].
  cbn [frames_loop]. apply wp_bind, wp_gets. cbn [id].
  destruct (boundary_loop_ok (S (length (sl_bytes (lr_raw st)))) (sl_bytes (lr_raw st)) (sl_base (lr_raw st))
    (lr_scan st) (lr_line st) eof) as (found & scan & line & E & H1 & H2 & H3 & H4);
    [lia|lia|unfold llen; lia|].
  apply wp_bind. unfold wp at 1, lift_panic, boundary. rewrite E. apply wp_bind, wp_modify.
  destruct found as [end_|].
  - destruct (H3 [] ltac:(done)) as (-> & -> & Hlt & _). apply wp_bind.
    eapply wp_mono; [eapply (on_frame_wp eof body more frames st scan); try done; try lia| |done].
    + intros m Hm. rewrite (run_scanned _ _ _ _ Hrun) by done. destruct (H3 m Hm) as (_ & _ & _ & Hn).
      rewrite (ok_bytes _ _ Hs), drop_z_drop_z in Hn by lia.
      replace (lr_scan st - sl_base (lr_raw st) + sl_base (lr_raw st)) with (lr_scan st) in Hn by lia.
      rewrite Hn. cbn. f_equal. lia.
    + cbn. intros _ st' ([frames' Hrun'] & E1 & E2). eapply IH; [done|lia].
  - apply wp_ret. exists frames. split; [apply scan_moved; (done || lia)|]. intros ->.
    cbn. rewrite H4 by done. lia.
Qed.

Lemma run_pushed body part frames st raw :
  run_ok false body frames st -> sealer_push part needles (lr_raw st) = Ok raw ->
  run_ok false (body ++ part) frames (set_lr_raw raw st).
Proof.
  intros [Hs Hh Hb Hc Hsent Hord Hscan [Hq1 Hq2] Hu Hcut Hobs Hok] Hpush.
  destruct (push_ok _ _ _ _ _ Hs Hpush) as (Hs' & _ & He & Hh' & Ht). pose proof (llen_nonneg part).
  pose proof (ok_total _ _ Hs) as Htot. pose proof (ok_order _ _ Hs) as Hso.
  split; cbn; rewrite ?He, ?Hh', ?Ht; try done.
  - unfold sat_sub in *. lia.
  - by eapply push_clean.
  - apply sent_ok_app; [lia|done].
  - lia.
  - intros more _. rewrite !drop_z_app, <- !app_assoc by lia. by apply Hscan.
  - assert (Hkeep : forall e, 0 <= e <= lr_cursor st -> take_z (lr_cursor st - e) (drop_z e (body ++ part)) =
      take_z (lr_cursor st - e) (drop_z e body)).
    { intros e Hr. rewrite drop_z_app by lia. apply take_z_app. rewrite llen_drop_z; lia. }
    inversion Hu as [|? ? Hu1 Hu2]; subst. constructor; [rewrite Hkeep by lia; done|].
    rewrite Forall_forall in *. intros e Hin. specialize (Hq2 e Hin). cbn in Hq2.
    rewrite Hkeep by lia. by apply Hu2.
  - intros more _. rewrite drop_z_app, <- !app_assoc by lia. by apply Hcut.
Qed.

Lemma on_part_wp eof body part more frames st :
  run_ok false body frames st -> (eof = true -> more = []) ->
  wp (on_part needles limit eof part)
    (fun _ st' => exists frames', run_ok eof (body ++ part) frames' st' /\
                    (eof = true -> lr_scan st' = sl_total (lr_raw st')))
    (fun _ st' => stopped (body ++ part ++ more) (lr_sender st')) st.
Proof.
  intros Hrun Hmore. unfold on_part. apply wp_bind, wp_gets, wp_bind, wp_lift.
  2: { intros e _. by apply (run_ok_stopped false body (part ++ more) frames). }
  cbn [id]. intros raw Hraw. apply wp_bind, wp_modify. rewrite app_assoc.
  assert (Hrun' : run_ok false (body ++ part) frames (set_lr_raw raw st)).
  { case_bool_decide as E; [|by eapply run_pushed]. subst part. simplify_eq/=. rewrite app_nil_r.
    by destruct st. }
  apply (frames_loop_wp eof (body ++ part) more _ frames); [by apply run_ok_eof|done|].
  cbn. pose proof (run_order _ _ _ _ Hrun') as Ho. cbn in Ho. lia.
Qed.

(** The pieces of a chunk. *)
Lemma chunks_of_concat fuel n l : (0 < n)%nat -> (length l <= fuel)%nat -> concat (chunks_of fuel n l) = l.
Proof.
  intros Hn. revert l. induction fuel as [|fuel IH]; intros [|x l] Hl; cbn in *; try done; try lia.
  destruct n as [|n]; [lia|]. cbn. rewrite IH by (rewrite length_drop; lia). by rewrite take_drop.
Qed.
Lemma on_llm_chunk_wp body chunk more frames st :
  run_ok false body frames st ->
  wp (on_llm_chunk needles limit chunk)
    (fun _ st' => exists frames', run_ok false (body ++ chunk) frames' st')
    (fun _ st' => stopped (body ++ chunk ++ more) (lr_sender st')) st.
Proof.
  intros Hrun. unfold on_llm_chunk. apply wp_bind, wp_gets, wp_bind, wp_check; intros _;
    [by apply (run_ok_stopped false body (chunk ++ more) frames)|].
  set (parts := chunks_of _ _ chunk).
  assert (Hparts : concat parts = chunk).
  { apply chunks_of_concat; [|lia]. unfold TEXT_STREAM_CHUNK_MAX_BYTES. lia. }
  eapply wp_mono; [apply (wp_each _ (fun done st => exists frames', run_ok false (body ++ concat done) frames' st)
    (fun _ st' => stopped (body ++ chunk ++ more) (lr_sender st')) parts)| |done].
  - intros done part rest st' Hd [frames' Hrun'].
    eapply wp_mono; [apply (on_part_wp false (body ++ concat done) part (concat rest ++ more) frames' st' Hrun'); done| |].
    + cbn. intros _ st2 (frames2 & H2 & _). exists frames2. rewrite concat_app. cbn. by rewrite app_nil_r, app_assoc.
    + cbn. intros _ st2. rewrite <- Hparts, Hd, concat_app. cbn. by rewrite <- !app_assoc.
  - exists frames. cbn. by rewrite app_nil_r.
  - cbn. intros _ st' H. by rewrite <- Hparts.
Qed.

(** What a run that completed leaves for the settlement. *)
Definition settled (body : list Z) (c : Complete) (out : Sender) : Prop :=
  exists start st, run_ok true body (wire_frames body) st /\ lr_cursor st = llen body /\
    lr_sender st = out /\ ob_terminal (lr_observer st) = Some (start, cp_status c) /\
    cp_raw c = lr_raw st /\
    cp_output c = (if ob_poisoned (lr_observer st) then None else ob_last_usage (lr_observer st)).
Lemma on_llm_end_wp body frames st :
  run_ok false body frames st ->
  wp (on_llm_end needles limit)
    (fun c st' => settled body c (lr_sender st')) (fun _ st' => stopped body (lr_sender st')) st.
Proof.
  intros Hrun. unfold on_llm_end. apply wp_bind.
  eapply wp_mono; [by apply (on_part_wp true body [] [] frames st Hrun)| |].
  2: { cbn. intros _ st'. by rewrite app_nil_r. }
  cbn. intros _ st' (frames' & Hrun' & _). rewrite app_nil_r in Hrun'.
  pose proof (run_ok_stopped true body [] frames' st' Hrun' ltac:(done)) as Hstop. rewrite app_nil_r in Hstop.
  apply wp_bind, wp_gets, wp_bind, wp_check; [done|]. cbn [id]. intros Hend.
  apply negb_false_iff, Z.eqb_eq in Hend. rewrite (ok_total _ _ (run_sealer _ _ _ _ Hrun')) in Hend.
  apply wp_bind, wp_lift; [|done]. intros [start status] Hterm.
  destruct (ob_terminal (lr_observer st')) as [t|] eqn:Et; cbn in Hterm; simplify_eq.
  apply wp_ret. exists start, st'. split; [|by rewrite Et].
  pose proof (run_cut _ _ _ _ Hrun' [] ltac:(done)) as Hcut. cbv zeta in Hcut.
  rewrite Hend, !app_nil_r in Hcut.
  assert (E : drop_z (llen body) body = []) by (unfold drop_z, llen; apply drop_ge; lia).
  rewrite E in Hcut. cbn in Hcut. rewrite app_nil_r in Hcut. by rewrite Hcut.
Qed.

Lemma run_ok_start receiver :
  run_ok false [] [] (mkLlmRun (mkSealer [] 0 0 0 hold limit) (observer_new protocol) 0 0 0 [] (mkSender [] receiver)).
Proof.
  pose proof (max_length_nonneg needles). split; cbn; try done; try (unfold sat_sub; lia).
  - split; cbn; unfold sat_sub, llen; cbn; (done || lia).
  - by apply clean_nil.
  - intros more _. cbn. by destruct (next_frame true (drop_z 0 [] ++ more)).
  - repeat constructor.
  - repeat constructor.
  - by apply observer_new_ok.
Qed.
Lemma llm_run_ok response receiver :
  match llm_run response needles limit (mkSender [] receiver) protocol with
  | None => False
  | Some (Ok c, out) =>
      Forall is_Some (rs_body response) /\ settled (delivered (rs_body response)) c out
  | Some (Err _, out) => stopped (delivered (rs_body response)) out
  end.
Proof.
  pose proof (run_ok_start receiver) as Hstart. set (st := mkLlmRun _ _ _ _ _ _ _) in Hstart.
  set (whole := rs_body response).
  assert (Hnone : stopped (delivered whole) (mkSender [] receiver)).
  { by apply (run_ok_stopped false [] (delivered whole) [] st Hstart). }
  unfold llm_run. destruct (stream_mime 0 _) as [mime|]; [|done].
  destruct (headers_contain_secret _ _); [done|]. destruct (_ || _); [done|].
  destruct (sealer_new needles limit) as [s|] eqn:Es; [|done].
  assert (s = mkSealer [] 0 0 0 hold limit) as ->.
  { unfold sealer_new in Es. bind_inv Es. by simplify_eq. }
  assert (Hwp : wp (_ ← each (fun chunk => match chunk with
        | None => raise (Upstream "stream-transport")
        | Some chunk => on_llm_chunk needles limit chunk
        end) whole; on_llm_end needles limit)
      (fun c st' => Forall is_Some whole /\ settled (delivered whole) c (lr_sender st'))
      (fun _ st' => stopped (delivered whole) (lr_sender st')) st).
  { apply wp_bind. eapply wp_mono.
    - apply (wp_each _ (fun done st => (exists frames, run_ok false (delivered done) frames st) /\ Forall is_Some done)
               (fun _ st' => stopped (delivered whole) (lr_sender st'))); [|split; [by exists []|constructor]].
      intros done x rest st' -> [[frames Hst] Hd]. rewrite (delivered_app done (x :: rest)) by done.
      destruct x as [chunk|].
      + eapply wp_mono; [by apply (on_llm_chunk_wp (delivered done) chunk (delivered rest) frames)| |done].
        intros [] st'' H. rewrite delivered_app by done. cbn. rewrite app_nil_r. split; [done|].
        apply Forall_app. split; [done|]. by repeat constructor.
      + apply wp_raise. by apply (run_ok_stopped false _ _ frames).
    - intros [] st' [[frames H1] H2]. eapply wp_mono; [by apply (on_llm_end_wp (delivered whole) frames)| |done]. done.
    - done. }
  unfold wp in Hwp. fold whole. fold st.
  match type of Hwp with match ?run with _ => _ end => destruct run as [[[c|e] st']|] end;
    done.
Qed.

End Run.
End WithLibraries.
