(* ===== verification/LlmStreamSafety.v ===== *)
(** * LlmStreamSafety: the properties of a relayed event stream

    What [llm_run] has sent when it stops, at the wire and in the texts that the
    events spell: nothing of a frame in which a credential starts, and nothing of
    the terminal event before the settlement. What [complete_release] adds makes the
    relay lossless. *)

From S2P Require Import Prelude Strings Bytes Errors Domain Decimal Json Llm Sealing Effect.
From S2P Require Import Sealer TextStreamTheorems LlmTail.
From S2P Require Import LlmObserver LlmStream.

(** ** Prefixes *)

Lemma frames_from_sorted fuel start l :
  StronglySorted (fun a b => a.1 <= b.1) (frames_from fuel start l).
Proof.
  revert start l. induction fuel as [|fuel IH]; intros start l; cbn; [constructor|].
  destruct (next_frame true l) as [n|]; constructor; [apply IH|].
  eapply Forall_impl; [apply frames_from_start|]. cbn. intros x Hx. lia.
Qed.
Lemma sent_le stream e out : sent_ok stream e out -> 0 <= e -> llen (concat (sent out)) <= e.
Proof.
  intros [H _ _] He. apply prefix_length in H. unfold take_z in H. rewrite length_take in H.
  unfold llen. lia.
Qed.

Section WithLibraries.
Context {MC : Memchr} {EN : Encodings} {ML : MemchrLaws} {SJ : Serde} {LA : Layout}.


Lemma clean_prefix secret stream more : clean secret (stream ++ more) -> clean secret stream.
Proof.
  intros H pre enc post -> Hsp. apply (H pre enc (post ++ more)); [by rewrite <- !app_assoc|done].
Qed.

Section Run.
Context (secret auth : list Z) (Hsecret : secret <> []) (protocol : ProfileLlmProtocol).
Notation needles := (sealing_needles secret auth).

(** Frames observed later leave closed channels closed. *)
Lemma observe_all_closed fs : forall h lo frame o o',
  obs_ok secret protocol h lo frame o -> lo <= frame ->
  Forall (fun f => frame <= f.1) fs -> StronglySorted (fun a b : Z * list Z => a.1 <= b.1) fs ->
  observe_all needles fs o = Some (Ok tt, o') -> ob_closed o ⊆ ob_closed o'.
Proof.
  induction fs as [|[start bytes] fs IH]; intros h lo frame o o' Ho Hlo Hle Hs H.
  { unfold observe_all in H. cbn in H. unfold mret, M_ret in H. simplify_eq. reflexivity. }
  inversion Hle as [|? ? Hf Hle']; subst. inversion Hs as [|? ? Hs' Hfs]; subst. cbn in Hf.
  pose proof (obs_ok_later _ _ _ _ _ _ _ Ho Hf) as Ho1.
  pose proof (observe_frame_wp secret auth Hsecret protocol h lo start bytes o Ho1 ltac:(lia)) as Hw.
  unfold observe_all in H. cbn [each fst snd] in H. unfold mbind, M_bind in H. unfold wp in Hw.
  destruct (observe_frame _ _ bytes start o) as [[[[]|e] o1]|]; [|done|done].
  destruct Hw as (Ho2 & Hc & _). etransitivity; [exact Hc|]. eapply IH; try done; lia.
Qed.

(** The frame that completes a spelling of the secret in a channel comes after
    everything that could be sent before it. *)
Lemma channel_withheld eof body more frames st seen start bytes later o key pre enc post :
  run_ok secret auth protocol eof body frames st -> (eof = true -> more = []) ->
  wire_frames (body ++ more) = seen ++ (start, bytes) :: later ->
  observe_all needles seen (observer_new protocol) = Some (Ok tt, o) -> key ∉ ob_closed o ->
  let h := channel key (pushed_by protocol (seen ++ [(start, bytes)])) in
  text h = pre ++ enc ++ post -> spelling secret pre enc ->
  sl_emitted (lr_raw st) <= frame_at h (llen pre).
Proof.
  intros Hrun Hmore Hwire Hseen Hkey h Htext Hsp.
  pose proof (run_cut _ _ _ _ _ _ _ Hrun more Hmore) as Hcut. cbv zeta in Hcut.
  set (rest := frames_from _ _ _) in Hcut.
  pose proof (run_obs _ _ _ _ _ _ _ Hrun) as Hok. pose proof (run_order _ _ _ _ _ _ _ Hrun) as Hord.
  assert (Hlater : exists k, seen = frames ++ k /\ rest = k ++ (start, bytes) :: later).
  { rewrite Hwire in Hcut. apply app_eq_inv in Hcut as [(k & E1 & E2)|(k & E1 & E2)]; [by exists k|].
    destruct k as [|f k]; [exists []; by rewrite app_nil_r in *; subst|]. cbn in E2. simplify_eq.
    exfalso. pose proof (obs_clean _ _ _ _ _ _ Hok key) as Hc.
    replace (seen ++ (start, bytes) :: k) with ((seen ++ [(start, bytes)]) ++ k) in Hc
      by (by rewrite <- app_assoc).
    rewrite pushed_by_app, channel_app, text_app in Hc. fold h in Hc. apply clean_prefix in Hc.
    by apply (Hc _ _ _ Htext). }
  destruct Hlater as (k & -> & Hrest).
  assert (Hstarts : Forall (fun f => lr_cursor st <= f.1) (k ++ [(start, bytes)]) /\
    StronglySorted (fun a b : Z * list Z => a.1 <= b.1) k).
  { pose proof (frames_from_start (length (drop_z (lr_cursor st) body ++ more)) (lr_cursor st)
      (drop_z (lr_cursor st) body ++ more)) as Hf. fold rest in Hf.
    pose proof (frames_from_sorted (length (drop_z (lr_cursor st) body ++ more)) (lr_cursor st)
      (drop_z (lr_cursor st) body ++ more)) as Hs. fold rest in Hs. rewrite Hrest in Hf, Hs.
    split.
    - apply Forall_app in Hf as [Hf1 Hf2]. inversion Hf2; subst. apply Forall_app. split; [done|by repeat constructor].
    - clear -Hs. induction k as [|x k IH]; [constructor|]. cbn in Hs. inversion Hs as [|? ? H1 H2]; subst.
      constructor; [by apply IH|]. by apply Forall_app in H2 as [H2 _]. }
  destruct Hstarts as [Hstarts Hsorted].
  assert (Hopen : key ∉ ob_closed (lr_observer st)).
  { intros Hin. apply Hkey. unfold observe_all in Hseen. rewrite each_app in Hseen.
    pose proof (run_observed _ _ _ _ _ _ _ Hrun) as Hob. unfold observe_all in Hob.
    unfold mbind, M_bind in Hseen. rewrite Hob in Hseen.
    eapply (observe_all_closed k); [exact Hok|lia| |done|exact Hseen|done].
    by apply Forall_app in Hstarts as [H _]. }
  (** The channel so far, and what comes. *)
  set (h1 := channel key (pushed_by protocol frames)).
  set (h2 := channel key (pushed_by protocol (k ++ [(start, bytes)]))).
  assert (Eh : h = h1 ++ h2) by (unfold h, h1, h2; by rewrite <- app_assoc, pushed_by_app, channel_app).
  assert (Hh2 : Forall (fun p => sl_emitted (lr_raw st) <= p.2) h2).
  { unfold h2, channel, pushed_by. apply Forall_forall. intros p Hp. rewrite Forall_forall in Hstarts.
    apply list_elem_of_In, in_map_iff in Hp as (e & <- & He). apply filter_In in He as [He _].
    apply in_concat in He as (l & Hl & He). apply in_map_iff in Hl as (f & <- & Hf).
    unfold tagged in He. apply in_map_iff in He as (q & <- & _). cbn.
    apply list_elem_of_In, Hstarts in Hf. lia. }
  rewrite Eh in Htext |- *. rewrite text_app in Htext. pose proof (llen_nonneg pre).
  rewrite frame_at_app by done.
  assert (Hin : llen pre < llen (text h1 ++ text h2)).
  { rewrite Htext, !llen_app. pose proof (spelling_nonempty _ _ _ Hsecret Hsp). pose proof (llen_nonneg post).
    destruct enc; [done|]. unfold llen in *. cbn. lia. }
  rewrite llen_app in Hin.
  destruct (Z.ltb_spec (llen pre) (llen (text h1))) as [Hlt|Hge]; [|apply frame_at_ge; [done|lia]].
  assert (Hend : llen (text h1) < llen (pre ++ enc)).
  { by eapply clean_ends_after; [apply (obs_clean _ _ _ _ _ _ Hok key)| |]. }
  destruct (ob_channels (lr_observer st) !! key) as [t|] eqn:Et.
  2: { pose proof (obs_new _ _ _ _ _ _ Hok key Et Hopen) as E. fold h1 in E. rewrite E in Hlt.
       change (llen (text [])) with 0 in Hlt. lia. }
  destruct (obs_open _ _ _ _ _ _ Hok key t Et) as [Ht Hframes]. fold h1 in Ht.
  pose proof (tail_reach _ _ _ Ht _ _ _ _ Htext Hsp Hend) as Hreach.
  destruct (frame_at_entry 0 h1 (llen pre) ltac:(lia)) as (e & He & Hlte). rewrite Z.add_0_l in He.
  apply (tail_frames _ _ _ Ht) in He; [|lia]. rewrite Forall_forall in Hframes. specialize (Hframes _ He).
  cbn in Hframes. lia.
Qed.
End Run.

(** ** The properties *)

(** What has been sent at the end of a run, completed or not, is what an invariant
    speaks of. *)
Lemma llm_run_sent response secret auth limit receiver protocol r out :
  secret <> [] ->
  llm_run response (sealing_needles secret auth) limit (mkSender [] receiver) protocol = Some (r, out) ->
  stopped secret auth protocol (delivered (rs_body response)) out.
Proof.
  intros Hs H. pose proof (llm_run_ok secret auth Hs protocol limit response receiver) as Hrun. rewrite H in Hrun.
  destruct r as [c|e]; [|done]. destruct Hrun as (_ & start & st & Hst & _ & <- & _).
  rewrite <- (app_nil_r (delivered _)). by eapply run_ok_stopped.
Qed.

(** C31: Whatever the provider sends and however the network cuts it, the receiver has a
    prefix of the body, in whole characters and chunks of at most 16 KiB, and not a
    byte of the first spelling of the credential in it. *)
Theorem llm_stream_withholds response secret auth limit receiver protocol r out :
  secret <> [] ->
  llm_run response (sealing_needles secret auth) limit (mkSender [] receiver) protocol = Some (r, out) ->
  let body := delivered (rs_body response) in
  concat (sent out) `prefix_of` body /\ Forall chunk_ok (sent out) /\
  (forall pre enc post, body = pre ++ enc ++ post -> spelling secret pre enc ->
     llen (concat (sent out)) <= llen pre).
Proof.
  intros Hs H. cbv zeta. apply llm_run_sent in H as (eof & body & more & frames & st & -> & _ & Hrun & <-); [|done].
  pose proof (run_sent _ _ _ _ _ _ _ Hrun) as Hsent. pose proof (run_sealer _ _ _ _ _ _ _ Hrun) as [_ Et Ho _ _].
  split; [|split; [by destruct Hsent|]].
  - destruct Hsent as [Hp _ _]. etransitivity; [exact Hp|]. apply prefix_app_r. unfold take_z. apply prefix_take.
  - intros pre enc post E Hsp. pose proof (spelling_length _ auth _ _ Hs Hsp).
    pose proof (clean_ends_after _ _ _ _ _ _ (run_clean _ _ _ _ _ _ _ Hrun) Hsp E) as Hend. rewrite llen_app in Hend.
    pose proof (run_back _ _ _ _ _ _ _ Hrun). pose proof (sent_le _ _ _ Hsent ltac:(lia)).
    pose proof (llen_nonneg pre). unfold sat_sub in *. lia.
Qed.

(** The same of the texts that the events spell, where the credential may be cut
    over many frames and every piece of it is harmless: after the frames [seen], the
    next one completes a spelling in an open channel. Then nothing of the frame that
    brought its first byte has been sent, and nothing after it. *)
Theorem llm_stream_withholds_text response secret auth limit receiver protocol r out
    seen start frame later o key pre enc post :
  secret <> [] ->
  llm_run response (sealing_needles secret auth) limit (mkSender [] receiver) protocol = Some (r, out) ->
  wire_frames (delivered (rs_body response)) = seen ++ (start, frame) :: later ->
  observe_all (sealing_needles secret auth) seen (observer_new protocol) = Some (Ok tt, o) ->
  key ∉ ob_closed o ->
  let h := channel key (pushed_by protocol (seen ++ [(start, frame)])) in
  text h = pre ++ enc ++ post -> spelling secret pre enc ->
  llen (concat (sent out)) <= frame_at h (llen pre).
Proof.
  intros Hs H Hwire Hseen Hkey h Htext Hsp.
  apply llm_run_sent in H as (eof & body & more & frames & st & E & Hmore & Hrun & <-); [|done].
  rewrite E in Hwire. pose proof (run_sealer _ _ _ _ _ _ _ Hrun) as Hok. pose proof (ok_order _ _ Hok).
  pose proof (sent_le _ _ _ (run_sent _ _ _ _ _ _ _ Hrun) ltac:(lia)).
  pose proof (channel_withheld secret auth Hs protocol _ _ _ _ _ _ _ _ _ _ _ _ _ _ Hrun Hmore Hwire Hseen Hkey Htext Hsp).
  unfold h. lia.
Qed.

(** C32: A run that completes has observed every frame of the body, the last state of the
    observer is terminal, and nothing of the terminal event has been sent. *)
Theorem llm_stream_settles_first response secret auth limit receiver protocol c out :
  secret <> [] ->
  llm_run response (sealing_needles secret auth) limit (mkSender [] receiver) protocol = Some (Ok c, out) ->
  Forall is_Some (rs_body response) /\
  exists o start,
    observe_all (sealing_needles secret auth) (wire_frames (delivered (rs_body response))) (observer_new protocol)
      = Some (Ok tt, o) /\
    ob_terminal o = Some (start, cp_status c) /\ llen (concat (sent out)) <= start /\
    cp_output c = (if ob_poisoned o then None else ob_last_usage o).
Proof.
  intros Hs H. pose proof (llm_run_ok secret auth Hs protocol limit response receiver) as Hrun. rewrite H in Hrun.
  destruct Hrun as (Hall & start & st & Hst & _ & <- & Hterm & _ & Hout). split; [done|].
  exists (lr_observer st), start. split; [apply (run_observed _ _ _ _ _ _ _ Hst)|]. split; [done|]. split; [|done].
  pose proof (obs_terminal _ _ _ _ _ _ (run_obs _ _ _ _ _ _ _ Hst) _ _ Hterm).
  pose proof (ok_order _ _ (run_sealer _ _ _ _ _ _ _ Hst)).
  pose proof (sent_le _ _ _ (run_sent _ _ _ _ _ _ _ Hst) ltac:(lia)). lia.
Qed.

(** C38: The release after the settlement cannot fail, and the receiver then has every
    byte of the body. *)
Theorem llm_stream_lossless response secret auth limit receiver protocol c out :
  secret <> [] ->
  llm_run response (sealing_needles secret auth) limit (mkSender [] receiver) protocol = Some (Ok c, out) ->
  let body := delivered (rs_body response) in
  exists c' out', complete_release (c, out) = Some (Ok tt, (c', out')) /\
    Forall chunk_ok (sent out') /\ concat (sent out') `prefix_of` body /\
    (open_for out' <> Some O -> concat (sent out') = body).
Proof.
  intros Hs H. cbv zeta. pose proof (llm_run_ok secret auth Hs protocol limit response receiver) as Hrun. rewrite H in Hrun.
  destruct Hrun as (_ & start & st & Hst & Hcur & <- & _ & Hraw & _). set (body := delivered _) in *.
  pose proof (run_sealer _ _ _ _ _ _ _ Hst) as Hok. pose proof (run_utf8 _ _ _ _ _ _ _ Hst) as Hu.
  pose proof (ok_order _ _ Hok). pose proof (ok_total _ _ Hok) as Htot.
  inversion Hu as [|? ? Hu0 _]; subst. rewrite Hcur in Hu0.
  pose proof (release_through_wp body (sl_total (lr_raw st)) (lr_raw st) (lr_sender st) Hok
    ltac:(lia) ltac:(lia) (run_sent _ _ _ _ _ _ _ Hst)) as Hrel.
  unfold complete_release, mbind, M_bind, gets, zoom. cbn [fst snd]. rewrite Hraw. unfold wp in Hrel.
  destruct (release_through _ _) as [[[[]|e] [raw out]]|]; [| |done].
  2: { destruct Hrel as [_ Hrel]. rewrite Htot, utf8_text_valid in Hrel; done. }
  destruct Hrel as [_ [H1 H2 H3]]. cbn [snd] in H1, H2, H3. rewrite take_z_all in H1, H2 by lia.
  eexists _, out. split; [reflexivity|]. done.
Qed.

(** C39: The run returns on every input: the loops end, and no index is out of range. *)
Theorem llm_stream_returns response secret auth limit receiver protocol :
  secret <> [] ->
  exists r out, llm_run response (sealing_needles secret auth) limit (mkSender [] receiver) protocol = Some (r, out).
Proof.
  intros Hs. pose proof (llm_run_ok secret auth Hs protocol limit response receiver) as H.
  destruct (llm_run _ _ _ _ _) as [[r out]|]; [eauto|done].
Qed.
End WithLibraries.

(** ** Concrete runs *)

#[local] Existing Instances model_memchr model_memchr_laws model_encodings.

Module Relay.

Definition line (label : string) : list Z := bytes_of "data: " ++ bytes_of label ++ [10; 10].
Definition typed (kind : string) (fields : list (string * JsonEvents Z)) : JsonEvents Z :=
  EvMap (("type"%string, EvString kind) :: fields).
Definition index0 : string * JsonEvents Z := ("index"%string, EvNumber 0).
(** The data lines are labels that the table gives a meaning. *)
Definition table (data : list Z) : option (JsonEvents Z) :=
  if bool_decide (data = bytes_of "start") then
    Some (typed "message_start" [("message"%string, EvMap
      [("id"%string, EvString "m"); ("content"%string, EvSeq [])])])
  else if bool_decide (data = bytes_of "block") then
    Some (typed "content_block_start" [index0; ("content_block"%string, typed "text" [("text"%string, EvString "")])])
  else if bool_decide (data = bytes_of "unblock") then Some (typed "content_block_stop" [index0])
  else if bool_decide (data = bytes_of "end") then
    Some (typed "message_delta" [("delta"%string, EvMap [("stop_reason"%string, EvString "end_turn")]);
      ("usage"%string, EvMap [("output_tokens"%string, EvNumber 3)])])
  else if bool_decide (data = bytes_of "stop") then Some (typed "message_stop" [])
  else Some (typed "content_block_delta" [index0; ("delta"%string,
    typed "text_delta" [("text"%string, EvString (text_of data))])]).
#[export] Instance relay_serde : Serde := table_serde table.
#[export] Instance relay_layout : Layout := {| size_of_key := 48; size_of_text := 32; size_of_item := 120 |}.

Definition zs (n : nat) : string := text_of (repeat 122 n).
Definition opening : list Z := line "start" ++ line "block" ++ line (zs 80).
(** The credential [k/9] cut across two events. *)
Definition echo : list Z := opening ++ line "tail k/" ++ line "9!" ++ line "unblock".
Definition whole : list Z := opening ++ line "unblock" ++ line "end" ++ line "stop".
Definition response (body : list Z) : StreamResponse := mkStreamResponse 200
  [("content-type"%string, "text/event-stream; charset=utf-8"%string)] []
  [Some (take 100 body); Some (drop 100 body)].
Definition secret : list Z := [107; 47; 57].

End Relay.

Section Witnesses.
Import Relay.

(** The credential is in the 120th byte of the body when the run refuses it. *)
Lemma llm_stream_withholds_witness :
  exists out,
    llm_run (response (opening ++ line "k/9")) (sealing_needles secret []) 4096 (mkSender [] None) AnthropicMessages
      = Some (Err ResponseSecurityViolation, out) /\
    concat (sent out) = take 26 opening /\ llen (concat (sent out)) <= 120.
Proof.
  assert (E : llm_run (response (opening ++ line "k/9")) (sealing_needles secret []) 4096 (mkSender [] None) AnthropicMessages
    = Some (Err ResponseSecurityViolation, mkSender [line "start"; line "block"] None))
    by (vm_compute; reflexivity).
  eexists. split; [exact E|]. split; [vm_compute; reflexivity|].
  destruct (llm_stream_withholds _ secret [] _ _ _ _ _ ltac:(discriminate) E) as (_ & _ & H).
  apply (H (opening ++ bytes_of "data: ") secret [10; 10]); [vm_compute; reflexivity|].
  left. split; [left|discriminate].
Defined.

(** The credential is not in the body as it stands; the frame of ["tail k/"] starts
    at 114. *)
Lemma llm_stream_withholds_text_witness :
  exists out,
    llm_run (response echo) (sealing_needles secret []) 4096 (mkSender [] None) AnthropicMessages
      = Some (Err ResponseSecurityViolation, out) /\
    concat (sent out) = take 26 echo /\ llen (concat (sent out)) <= 114.
Proof.
  assert (E : llm_run (response echo) (sealing_needles secret []) 4096 (mkSender [] None) AnthropicMessages
    = Some (Err ResponseSecurityViolation, mkSender [line "start"; line "block"] None))
    by (vm_compute; reflexivity).
  eexists. split; [exact E|]. split; [vm_compute; reflexivity|].
  set (seen := take 4 (wire_frames echo)).
  destruct (observe_all (sealing_needles secret []) seen (observer_new AnthropicMessages)) as [[[[]|e] o]|] eqn:Eo;
    [|vm_compute in Eo; discriminate|vm_compute in Eo; discriminate].
  assert (Hopen : KAnthropic 0 "all-text" ∉ ob_closed o).
  { assert (Ho : bool_decide (KAnthropic 0 "all-text" ∈ ob_closed o) = false); [|by apply bool_decide_eq_false in Ho].
    transitivity (match observe_all (sealing_needles secret []) seen (observer_new AnthropicMessages) with
      | Some (_, o) => bool_decide (KAnthropic 0 "all-text" ∈ ob_closed o) | None => true end);
      [by rewrite Eo|vm_compute; reflexivity]. }
  apply (llm_stream_withholds_text _ secret [] _ _ _ _ _ seen 129 (line "9!") [(139, line "unblock")] o
    (KAnthropic 0 "all-text") (repeat 122 80 ++ bytes_of "tail ") secret (bytes_of "!")
    ltac:(discriminate) E ltac:(vm_compute; reflexivity) Eo Hopen ltac:(vm_compute; reflexivity)).
  left. split; [left|discriminate].
Defined.

Lemma llm_stream_settles_first_witness :
  exists c out,
    llm_run (response whole) (sealing_needles secret []) 4096 (mkSender [] None) AnthropicMessages
      = Some (Ok c, out) /\
    cp_status c = Completed /\ cp_output c = Some 3 /\
    exists start, llen (concat (sent out)) <= start.
Proof.
  destruct (llm_run (response whole) (sealing_needles secret []) 4096 (mkSender [] None) AnthropicMessages)
    as [[[c|e] out]|] eqn:E; [|vm_compute in E; discriminate|vm_compute in E; discriminate].
  exists c, out. split; [reflexivity|].
  assert (H : cp_status c = Completed /\ cp_output c = Some 3) by (vm_compute in E; by simplify_eq).
  destruct H as [H1 H2]. split; [exact H1|]. split; [exact H2|].
  destruct (llm_stream_settles_first _ secret [] _ _ _ _ _ ltac:(discriminate) E) as (_ & o & start & _ & _ & H & _).
  exists start. exact H.
Defined.

Lemma llm_stream_lossless_witness :
  exists c out c' out',
    llm_run (response whole) (sealing_needles secret []) 4096 (mkSender [] None) AnthropicMessages
      = Some (Ok c, out) /\
    llen (concat (sent out)) = 26 /\
    complete_release (c, out) = Some (Ok tt, (c', out')) /\ concat (sent out') `prefix_of` whole.
Proof.
  destruct (llm_run (response whole) (sealing_needles secret []) 4096 (mkSender [] None) AnthropicMessages)
    as [[[c|e] out]|] eqn:E; [|vm_compute in E; discriminate|vm_compute in E; discriminate].
  destruct (llm_stream_lossless _ secret [] _ _ _ _ _ ltac:(discriminate) E) as (c' & out' & H & _ & Hp & _).
  exists c, out, c', out'. split; [reflexivity|]. split; [vm_compute in E; by simplify_eq|].
  split; [exact H|]. exact Hp.
Defined.

Lemma llm_stream_returns_witness :
  exists r out,
    llm_run (response echo) (sealing_needles secret []) 4096 (mkSender [] None) AnthropicMessages = Some (r, out).
Proof. apply llm_stream_returns. discriminate. Defined.
End Witnesses.
