(* ===== verification/Parameters.v ===== *)
(** * Parameters: the canonical form of a call that a decision is bound to

    [rekey-policy/src/lib.rs]: [ValidatedSnapshot::canonicalize], the checks of
    headers and content type it makes, and [parameter_hash], the digest that
    policy scopes, approvals and grants refer to. Rendering may
    panic ([None]), as in [Template]. *)

From S2P Require Import Prelude Strings Errors Domain Codec Policy Action Template TemplateTheorems FixedAction Decimal Json Llm.

Record ActionRequest := mkActionRequest {
  ar_params : list (string * string);
  ar_query : list (string * string);
  ar_content_type : option string;
  ar_headers : list (string * string);
  ar_body : list Z;
}.

(** [header_value_is_safe]. *)
Definition header_value_is_safe (value : string) : bool :=
  (slen value <=? 8 * 1024)
  && str_all (fun b => (byte_of b =? 9) || in_range 32 126 b) value.

(** [normalize_content_type]. *)
Definition normalize_content_type (content_type : option string) (body : list Z)
  : result PolicyError (option string) :=
  let empty := bool_decide (body = []) in
  match trim <$> content_type with
  | None => if empty then Ok None else Err InvalidParameters
  | Some value =>
      if is_empty_str value && empty then Ok None
      else if eq_ignore_ascii_case value "application/json"
              || eq_ignore_ascii_case value "application/json; charset=utf-8"
      then Ok (Some "application/json")
      else Err InvalidParameters
  end.

Section WithLibraries.
Context {CC : Codecs} {SJ : Serde}.

(** ** The digest *)

(** [parameter_hash]: the bytes it hashes. *)
Definition PARAMETER_DOMAIN : list Z := [82; 75; 80; 65; 82; 65; 77; 0; 1].
Definition parameter_preimage (action : ActionVersionRef) (schema_id : string)
    (resource : ResourceRef) (canonical : list Z) : result PolicyError (list Z) :=
  reject_if u16_max <? slen schema_id with InvalidParameters ;;
  reject_if u16_max <? slen (resource_type resource) with InvalidParameters ;;
  reject_if u32_max <? slen (resource_id resource) with InvalidParameters ;;
  reject_if u32_max <? llen canonical with InvalidParameters ;;
  Ok (PARAMETER_DOMAIN ++ id_as_bytes (action_id action) ++ be_bytes 8 (version action)
      ++ be_bytes 2 (slen schema_id) ++ bytes_of schema_id
      ++ be_bytes 2 (slen (resource_type resource)) ++ bytes_of (resource_type resource)
      ++ be_bytes 4 (slen (resource_id resource)) ++ bytes_of (resource_id resource)
      ++ be_bytes 4 (llen canonical) ++ canonical).
Definition parameter_hash (action : ActionVersionRef) (schema_id : string)
    (resource : ResourceRef) (canonical : list Z) : result PolicyError Digest :=
  sha256 <$> parameter_preimage action schema_id resource canonical.

(** ** Headers *)

(** The loop over the caller's headers: the names seen so far and the list. *)
Fixpoint caller_headers (action : FixedHttpAction) (seen : list string)
    (l : list (string * string)) : result PolicyError (list (string * string)) :=
  match l with
  | [] => Ok []
  | (raw_name, value) :: rest =>
      name ← map_err (fun _ => InvalidParameters) (HeaderName_new raw_name);
      reject_if negb (str_eqb raw_name name) || is_forbidden name
                || str_eqb name (header_name (auth action))
                || str_eqb name "authorization" || str_eqb name "content-type"
                || negb (bool_decide (name ∈ allowed_extra_headers (request_policy action)))
                || negb (header_value_is_safe value) || bool_decide (name ∈ seen)
        with InvalidParameters ;;
      rest ← caller_headers action (name :: seen) rest;
      Ok ((name, value) :: rest)
  end.

(** [sort] on pairs of strings. *)
Definition header_le (a b : string * string) : bool :=
  match String.compare a.1 b.1 with
  | Lt => true | Gt => false
  | Eq => match String.compare a.2 b.2 with Gt => false | _ => true end
  end.
Fixpoint insert_header (h : string * string) (l : list (string * string)) :=
  match l with
  | [] => [h]
  | x :: r => if header_le h x then h :: l else x :: insert_header h r
  end.
Definition sort_headers (l : list (string * string)) : list (string * string) :=
  fold_right insert_header [] l.

(** ** The envelope *)

Abbreviation Value := (JValue Number).

Definition string_map (l : list (string * string)) : Value :=
  VObject (map (fun kv => (kv.1, VString kv.2)) l).
(** The [Serialize] derive of [RenderedTarget], keys in order. *)
Definition target_value (t : RenderedTarget) : Value :=
  VObject [("params", string_map (rendered_params t));
           ("path", VString (rendered_path t));
           ("query", string_map (rendered_query t))].
Definition envelope (t : RenderedTarget) (body : Value) (content_type : option string)
    (headers : list (string * string)) : Value :=
  VObject [("body", body);
           ("content_type", match content_type with Some c => VString c | None => VNull end);
           ("headers", VArray (map (fun h => VArray [VString h.1; VString h.2]) headers));
           ("target", target_value t)].

(** ** [canonicalize] *)

(** The target, the fixed headers and the body schema of the action. *)
Definition request_parts (action : FixedHttpAction) (request : ActionRequest)
  : option (result PolicyError
      (RenderedTarget * option (list (string * string)) * option JsonValue)) :=
  match target action with
  | Fixed path =>
      Some (if negb (bool_decide (ar_params request = []))
               || negb (bool_decide (ar_query request = []))
            then Err InvalidParameters
            else Ok (mkRenderedTarget path [] [], None, None))
  | FromTemplate t fixed_headers body_schema _ _ =>
      match target_render t (ar_params request) (ar_query request) with
      | None => None
      | Some rendered =>
          Some (rendered ← map_err (fun _ => InvalidParameters) rendered;
                Ok (rendered, Some fixed_headers, body_schema))
      end
  end.

(** The content type of the fixed headers or the caller, and the body. *)
Definition effective_content_type (fixed : option (list (string * string)))
    (request : ActionRequest) : result PolicyError (option string) :=
  let fixed_type := match fixed with
    | Some headers => map_get "content-type" headers | None => None end in
  reject_if bool_decide (is_Some fixed_type) && bool_decide (is_Some (ar_content_type request))
    with InvalidParameters ;;
  let content_type := match fixed_type with
    | Some t => Some t | None => ar_content_type request end in
  reject_if match content_type with
            | Some value => is_empty_str value || negb (header_value_is_safe value)
            | None => false
            end with InvalidParameters ;;
  normalize_content_type content_type (ar_body request).

Definition request_body_value (request : ActionRequest) : result PolicyError Value :=
  if bool_decide (ar_body request = []) then Ok VNull
  else
    value ← parse_unique_json (ar_body request);
    _ ← ensure_json_number_fidelity canonical_number (ar_body request);
    Ok value.

Definition effective_headers (action : FixedHttpAction)
    (fixed : option (list (string * string))) (request : ActionRequest)
  : result PolicyError (list (string * string)) :=
  let fixed := match fixed with Some headers => headers | None => [] end in
  extra ← caller_headers action (keys fixed) (ar_headers request);
  Ok (sort_headers
    (List.filter (fun h => negb (str_eqb h.1 "content-type")) fixed ++ extra)).

(** Everything the canonical JSON is made of. *)
Record CanonicalCall := mkCanonicalCall {
  call_target : RenderedTarget;
  call_body : Value;
  call_content_type : option string;
  call_headers : list (string * string);
  call_llm : option ProfileBody;
}.

(** The LLM adaptation of a profile call: the body to send and the value it
    leaves behind. *)
Abbreviation LlmContext := (option (ProfileLlmProtocol * ProfileLlmLimit)).
Definition adapt_body (llm : LlmContext) (request : ActionRequest) (value : Value)
  : result PolicyError (option ProfileBody * Value) :=
  match llm with
  | None => Ok (None, value)
  | Some (protocol, limits) =>
      '(body, value) ← normalize_profile_llm_body protocol limits (ar_body request) value false;
      Ok (Some body, value)
  end.

Definition canonical_call (binding : ActionBinding Value) (action : FixedHttpAction)
    (request : ActionRequest) (llm : LlmContext)
    (parts : RenderedTarget * option (list (string * string)) * option JsonValue)
  : result PolicyError CanonicalCall :=
  let '(target, fixed_headers, body_schema) := parts in
  reject_if req_max_body_bytes (request_policy action) <? llen (ar_body request)
    with InvalidParameters ;;
  content_type ← effective_content_type fixed_headers request;
  value ← request_body_value request;
  '(llm_body, value) ← adapt_body llm request value;
  reject_if match llm_body with
            | Some body => req_max_body_bytes (request_policy action) <? llen (pb_bytes body)
            | None => false
            end with InvalidParameters ;;
  reject_if negb (schema_valid (parameter_schema binding) value) with InvalidParameters ;;
  reject_if match body_schema with
            | Some schema =>
                negb (compile_template_schema schema) || negb (schema_valid schema value)
            | None => false
            end with InvalidParameters ;;
  headers ← effective_headers action fixed_headers request;
  Ok (mkCanonicalCall target value content_type headers llm_body).

Definition action_ref (action : FixedHttpAction) : ActionVersionRef :=
  mkActionVersionRef (fa_id action) (fa_version action).
Definition call_envelope (c : CanonicalCall) : Value :=
  envelope (call_target c) (call_body c) (call_content_type c) (call_headers c).

(** [CanonicalRequest]. *)
Record CanonicalRequest := mkCanonicalRequest {
  cr_resource : ResourceRef;
  cr_parameters : CanonicalParameters;
  cr_target : RenderedTarget;
  cr_llm_body : option ProfileBody;
}.

Definition finish_call (binding : ActionBinding Value) (c : CanonicalCall)
  : result PolicyError CanonicalRequest :=
  canonical ← ok_or InvalidParameters (jcs (call_envelope c));
  hash ← parameter_hash (binding_action binding) (parameter_schema_id binding)
           (binding_resource binding) canonical;
  Ok (mkCanonicalRequest (binding_resource binding)
        (mkCanonicalParameters (parameter_schema_id binding) hash canonical)
        (call_target c) (call_llm c)).

Definition find_binding (bindings : list (ActionBinding Value)) (action : FixedHttpAction)
  : result PolicyError (ActionBinding Value) :=
  ok_or InvalidParameters
    (find_first (fun b => bool_decide (binding_action b = action_ref action)) bindings).

(** The binding and the checked call, then its canonical JSON and digest. *)
Definition prepared_call (bindings : list (ActionBinding Value)) (action : FixedHttpAction)
    (request : ActionRequest) (llm : LlmContext)
  : option (result PolicyError (ActionBinding Value * CanonicalCall)) :=
  match find_binding bindings action with
  | Err e => Some (Err e)
  | Ok binding =>
      match request_parts action request with
      | None => None
      | Some parts =>
          Some (parts ← parts;
                call ← canonical_call binding action request llm parts;
                Ok (binding, call))
      end
  end.

Definition canonicalize_inner (bindings : list (ActionBinding Value)) (action : FixedHttpAction)
    (request : ActionRequest) (llm : LlmContext) : option (result PolicyError CanonicalRequest) :=
  match prepared_call bindings action request llm with
  | None => None
  | Some prepared => Some ('(binding, call) ← prepared; finish_call binding call)
  end.

(** The two entry points. *)
Definition canonicalize (bindings : list (ActionBinding Value)) (action : FixedHttpAction)
    (request : ActionRequest)
  : option (result PolicyError (ResourceRef * CanonicalParameters * RenderedTarget)) :=
  match canonicalize_inner bindings action request None with
  | None => None
  | Some r => Some (canonical ← r;
      Ok (cr_resource canonical, cr_parameters canonical, cr_target canonical))
  end.

Record ProfileLlmCanonicalRequest := mkProfileLlmCanonicalRequest {
  plc_model : option string;
  plc_resource : ResourceRef;
  plc_parameters : CanonicalParameters;
  plc_target : RenderedTarget;
  plc_body : list Z;
  plc_generation_max_output : option Z;
  plc_streaming : bool;
}.

Definition canonicalize_profile_llm (bindings : list (ActionBinding Value))
    (action : FixedHttpAction) (request : ActionRequest) (protocol : ProfileLlmProtocol)
    (limits : ProfileLlmLimit) : option (result PolicyError ProfileLlmCanonicalRequest) :=
  match canonicalize_inner bindings action request (Some (protocol, limits)) with
  | None => None
  | Some r => Some (canonical ← r;
      body ← ok_or InvalidParameters (cr_llm_body canonical);
      Ok (mkProfileLlmCanonicalRequest (pb_model body) (cr_resource canonical)
            (cr_parameters canonical) (cr_target canonical) (pb_bytes body) (pb_maximum body)
            (pb_streaming body)))
  end.

(** ** The hashed bytes determine what was hashed *)

Definition valid_ref (r : ActionVersionRef) : Prop :=
  0 <= action_id r < 256 ^ 16 /\ 0 <= version r < 256 ^ 8.

Lemma bytes_of_length s : length (bytes_of s) = String.length s.
Proof. unfold bytes_of. rewrite length_map. induction s; cbn; congruence. Qed.
Lemma bytes_of_inj a b : bytes_of a = bytes_of b -> a = b.
Proof.
  unfold bytes_of. revert b. induction a as [|x a IH]; intros [|y b]; cbn; try done.
  intros E. injection E as E1 E2. f_equal; [|auto].
  unfold byte_of in E1. rewrite <- (ascii_N_embedding x), <- (ascii_N_embedding y). f_equal. lia.
Qed.
Lemma be_bytes_inj n v w :
  0 <= v < 256 ^ Z.of_nat n -> 0 <= w < 256 ^ Z.of_nat n -> be_bytes n v = be_bytes n w -> v = w.
Proof. intros Hv Hw E. by rewrite <- (be_value_bytes n v), E, be_value_bytes. Qed.

(** A field with its length in front is separated from what follows. *)
Lemma field_inj n (a b ra rb : list Z) :
  llen a < 256 ^ Z.of_nat n -> llen b < 256 ^ Z.of_nat n ->
  be_bytes n (llen a) ++ a ++ ra = be_bytes n (llen b) ++ b ++ rb -> a = b /\ ra = rb.
Proof.
  intros Ha Hb E. apply app_inj_1 in E as [E1 E2]; [|by rewrite !length_be_bytes].
  apply be_bytes_inj in E1; [|unfold llen in *; lia|unfold llen in *; lia].
  apply app_inj_1 in E2; [done|]. unfold llen in E1. lia.
Qed.
Lemma text_field_inj n (a b : string) (ra rb : list Z) :
  slen a < 256 ^ Z.of_nat n -> slen b < 256 ^ Z.of_nat n ->
  be_bytes n (slen a) ++ bytes_of a ++ ra = be_bytes n (slen b) ++ bytes_of b ++ rb ->
  a = b /\ ra = rb.
Proof.
  assert (Hl : forall s, slen s = llen (bytes_of s)) by (intros; unfold slen, llen; by rewrite bytes_of_length).
  rewrite !Hl. intros Ha Hb E. apply field_inj in E as [E ->]; try done. split; [|done].
  by apply bytes_of_inj.
Qed.

(** The encoding hashed for a call is unambiguous. *)
Lemma parameter_preimage_inj a s r c a' s' r' c' x :
  valid_ref a -> valid_ref a' ->
  parameter_preimage a s r c = Ok x -> parameter_preimage a' s' r' c' = Ok x ->
  a = a' /\ s = s' /\ r = r' /\ c = c'.
Proof.
  intros [Ha1 Ha2] [Hb1 Hb2]. unfold parameter_preimage, u16_max, u32_max.
  intros E1 E2.
  do 4 (destruct (_ <? _) eqn:? in E1; [discriminate E1|]).
  do 4 (destruct (_ <? _) eqn:? in E2; [discriminate E2|]). reflect_bools.
  assert (E : PARAMETER_DOMAIN ++ id_as_bytes (action_id a) ++ be_bytes 8 (version a)
      ++ be_bytes 2 (slen s) ++ bytes_of s
      ++ be_bytes 2 (slen (resource_type r)) ++ bytes_of (resource_type r)
      ++ be_bytes 4 (slen (resource_id r)) ++ bytes_of (resource_id r)
      ++ be_bytes 4 (llen c) ++ c ++ [] =
      PARAMETER_DOMAIN ++ id_as_bytes (action_id a') ++ be_bytes 8 (version a')
      ++ be_bytes 2 (slen s') ++ bytes_of s'
      ++ be_bytes 2 (slen (resource_type r')) ++ bytes_of (resource_type r')
      ++ be_bytes 4 (slen (resource_id r')) ++ bytes_of (resource_id r')
      ++ be_bytes 4 (llen c') ++ c' ++ []).
  { rewrite !app_nil_r. congruence. }
  clear E1 E2. apply app_inv_head in E. unfold id_as_bytes in E.
  apply app_inj_1 in E as [E1 E]; [|by rewrite !length_be_bytes].
  apply app_inj_1 in E as [E2 E]; [|by rewrite !length_be_bytes].
  assert (action_id a = action_id a') as Ei by (apply (be_bytes_inj 16); [exact Ha1|exact Hb1|exact E1]).
  assert (version a = version a') as Ev by (apply (be_bytes_inj 8); [exact Ha2|exact Hb2|exact E2]).
  apply text_field_inj in E as [-> E]; [|lia|lia].
  apply text_field_inj in E as [E3 E]; [|lia|lia].
  apply text_field_inj in E as [E4 E]; [|lia|lia].
  apply field_inj in E as [-> _]; [|lia|lia].
  destruct a, a', r, r'. cbn in *. by subst.
Qed.

(** ** What one digest stands for *)

Lemma string_map_inj l l' : same_json (string_map l) (string_map l') -> l = l'.
Proof.
  unfold string_map. inversion 1 as [| | | | |? ? F]; subst. clear H. revert l' F.
  induction l as [|[k v] l IH]; intros [|[k' v'] l'] F; cbn in F; inversion F; subst; [done|].
  match goal with H : _ /\ _ |- _ => destruct H as [Hk Hv] end. cbn in *.
  inversion Hv; subst. f_equal. by apply IH.
Qed.

Lemma headers_value_inj (l l' : list (string * string)) :
  Forall2 same_json (map (fun h => VArray [VString h.1; VString h.2]) l)
                    (map (fun h => VArray [VString h.1; VString h.2]) l') -> l = l'.
Proof.
  revert l'. induction l as [|[k v] l IH]; intros [|[k' v'] l'] F; cbn in F; inversion F as [|? ? ? ? Hh Ht];
    subst; [done|].
  inversion Hh as [| | | |? ? Fh|]; subst. inversion Fh as [|? ? ? ? H1 Fh']; subst.
  inversion Fh' as [|? ? ? ? H2 _]; subst. inversion H1; inversion H2; subst. f_equal. by apply IH.
Qed.

Lemma envelope_inj t b c h t' b' c' h' :
  same_json (envelope t b c h) (envelope t' b' c' h') ->
  t = t' /\ same_json b b' /\ c = c' /\ h = h'.
Proof.
  unfold envelope. inversion 1 as [| | | | |? ? F]; subst. clear H.
  inversion F as [|? ? ? ? [_ Hb] F1]; subst. inversion F1 as [|? ? ? ? [_ Hc] F2]; subst.
  inversion F2 as [|? ? ? ? [_ Hh] F3]; subst. inversion F3 as [|? ? ? ? [_ Ht] _]; subst.
  cbn in *. clear F F1 F2 F3.
  inversion Hh as [| | | |? ? Fh|]; subst. apply headers_value_inj in Fh.
  unfold target_value in Ht. inversion Ht as [| | | | |? ? Ft]; subst. clear Ht.
  inversion Ft as [|? ? ? ? [_ H1] Ft1]; subst. inversion Ft1 as [|? ? ? ? [_ H2] Ft2]; subst.
  inversion Ft2 as [|? ? ? ? [_ H3] _]; subst. cbn in *.
  apply string_map_inj in H1, H3. inversion H2.
  split_and!; [|done| |done].
  - destruct t, t'. cbn in *. by subst.
  - destruct c, c'; inversion Hc; by subst.
Qed.

Lemma canonicalize_Ok bindings action request llm out :
  canonicalize_inner bindings action request llm = Some (Ok out) ->
  exists binding call, prepared_call bindings action request llm = Some (Ok (binding, call)) /\
                       finish_call binding call = Ok out.
Proof.
  unfold canonicalize_inner. destruct (prepared_call _ _ _ _) as [[[b c]|e]|]; [|done|done].
  cbn. intros H. injection H as H. eauto.
Qed.

Lemma finish_call_Ok binding call out :
  finish_call binding call = Ok out ->
  let params := cr_parameters out in
  jcs (call_envelope call) = Some (canonical_json params) /\
  parameter_hash (binding_action binding) (parameter_schema_id binding)
    (binding_resource binding) (canonical_json params) = Ok (canonical_hash params) /\
  cr_resource out = binding_resource binding /\ schema_id params = parameter_schema_id binding /\
  cr_target out = call_target call /\ cr_llm_body out = call_llm call.
Proof.
  unfold finish_call. destruct (jcs _) as [j|]; [|done]. cbn [ok_or mbind result_bind].
  destruct (parameter_hash _ _ _ _) as [h|] eqn:E; [|done]. cbn. intros; by simplify_eq.
Qed.

Lemma prepared_binding bindings action request llm binding call :
  prepared_call bindings action request llm = Some (Ok (binding, call)) ->
  binding_action binding = action_ref action.
Proof.
  unfold prepared_call, find_binding. destruct (find_first _ _) as [b|] eqn:E; [|done].
  cbn [ok_or]. destruct (request_parts _ _) as [[p|]|]; [|done|done]. cbn.
  destruct (canonical_call _ _ _ _ _) as [c|]; [|done]. cbn. intros; simplify_eq.
  apply find_first_Some in E as [_ E]. by reflect_bools.
Qed.

(** The digest the hash of a call is taken of. *)
Definition hashed_bytes (binding : ActionBinding Value) (params : CanonicalParameters)
  : result PolicyError (list Z) :=
  parameter_preimage (binding_action binding) (parameter_schema_id binding)
    (binding_resource binding) (canonical_json params).
(** SHA-256 does not collide on these two inputs. *)
Definition sha_separates (x y : result PolicyError (list Z)) : Prop :=
  forall a b, x = Ok a -> y = Ok b -> sha256 a = sha256 b -> a = b.

(** C33: One digest stands for one call. When two accepted calls have the same
    parameter digest - the value policy scopes, approvals and grants are
    bound to - they are the same action version, resource and schema, render
    the same path, parameters and query, carry the same headers and content
    type and the same JSON body, so what was approved is what is sent. SHA-256
    and RFC 8785 are assumed only not to collide on these two calls. *)
Theorem digest_binds_call bs a r llm binding call out bs' a' r' llm' binding' call' out' :
  prepared_call bs a r llm = Some (Ok (binding, call)) ->
  prepared_call bs' a' r' llm' = Some (Ok (binding', call')) ->
  canonicalize_inner bs a r llm = Some (Ok out) ->
  canonicalize_inner bs' a' r' llm' = Some (Ok out') ->
  valid_ref (action_ref a) -> valid_ref (action_ref a') ->
  sha_separates (hashed_bytes binding (cr_parameters out))
                (hashed_bytes binding' (cr_parameters out')) ->
  jcs_separates (call_envelope call) (call_envelope call') ->
  canonical_hash (cr_parameters out) = canonical_hash (cr_parameters out') ->
  action_ref a = action_ref a' /\ cr_resource out = cr_resource out' /\
  schema_id (cr_parameters out) = schema_id (cr_parameters out') /\
  cr_target out = cr_target out' /\ call_headers call = call_headers call' /\
  call_content_type call = call_content_type call' /\
  same_json (call_body call) (call_body call').
Proof.
  intros P P' C C' V V' Hsha Hjcs Hh.
  apply canonicalize_Ok in C as (b & c & P1 & C). rewrite P in P1.
  assert (b = binding /\ c = call) as [-> ->] by (split; congruence). clear P1.
  apply canonicalize_Ok in C' as (b & c & P1 & C'). rewrite P' in P1.
  assert (b = binding' /\ c = call') as [-> ->] by (split; congruence). clear P1.
  apply prepared_binding in P, P'.
  apply finish_call_Ok in C as (J & H & -> & -> & -> & _).
  apply finish_call_Ok in C' as (J' & H' & -> & -> & -> & _).
  unfold parameter_hash in H, H'. unfold sha_separates, hashed_bytes in Hsha.
  rewrite <- P in V. rewrite <- P' in V'.
  destruct (parameter_preimage (binding_action binding) _ _ _) as [x|] eqn:E; [|done].
  destruct (parameter_preimage (binding_action binding') _ _ _) as [y|] eqn:E'; [|done].
  assert (x = y) as ->.
  { apply Hsha; [done|done|]. cbn in H, H'. congruence. }
  destruct (parameter_preimage_inj _ _ _ _ _ _ _ _ _ V V' E E') as (E1 & E2 & E3 & E4).
  assert (S : same_json (call_envelope call) (call_envelope call')).
  { apply Hjcs. rewrite J, J'. by rewrite E4. }
  apply envelope_inj in S as (S1 & S2 & S3 & S4). split_and!; try done. by rewrite <- P, <- P', E1.
Qed.

(** ** Headers of a canonical call *)

Lemma caller_headers_ok a seen l out :
  caller_headers a seen l = Ok out ->
  (forall h, h ∈ out -> h ∈ l /\ h.1 ∈ allowed_extra_headers (request_policy a) /\
     h.1 <> header_name (auth a) /\ h.1 <> "authorization" /\ h.1 <> "content-type" /\
     h.1 ∉ FORBIDDEN_HEADERS /\ header_value_is_safe h.2 = true /\ h.1 ∉ seen) /\
  NoDup (keys out).
Proof.
  revert seen out. induction l as [|[raw v] l IH]; intros seen out; cbn [caller_headers].
  - intros; simplify_eq. split; [by intros h Hh%elem_of_nil|constructor].
  - destruct (HeaderName_new raw) as [name|]; [|done]. cbn [map_err mbind result_bind].
    destruct (negb (str_eqb raw name) || _ || _ || _ || _ || _ || _ || _) eqn:G; [done|].
    destruct (caller_headers a (name :: seen) l) as [rest|] eqn:E; [|done]. cbn. intros ?; simplify_eq.
    destruct (IH _ _ E) as [I1 I2]. unfold is_forbidden, str_eqb in G. reflect_bools. subst raw.
    split.
    + intros h [->|Hh]%elem_of_cons.
      * split; [left|]. by split_and!.
      * destruct (I1 h Hh) as (K1 & K2 & K3 & K4 & K5 & K6 & K7 & K8).
        split; [by right|]. split_and!; try done. intros Hs. apply K8. by right.
    + unfold keys. cbn. constructor; [|done]. intros (h & Hk & Hin)%list_elem_of_fmap.
      destruct (I1 h Hin) as (_ & _ & _ & _ & _ & _ & _ & H8). apply H8. rewrite <- Hk. left.
Qed.

Lemma insert_header_perm h l : insert_header h l ≡ₚ h :: l.
Proof.
  induction l as [|x l IH]; cbn; [done|]. destruct (header_le h x); [done|].
  rewrite IH. by rewrite Permutation_swap.
Qed.
Lemma sort_headers_perm l : sort_headers l ≡ₚ l.
Proof. induction l as [|h l IH]; [done|]. cbn. by rewrite insert_header_perm, IH. Qed.

(** The caller cannot supply a protected header. Every header of a canonical
    call is either one of the template's fixed headers or one the caller sent
    under its normalised name that the action allows, that is not the
    credential slot, [authorization], [content-type] or a hop header, and whose
    value is safe; and no name occurs twice, so a fixed header is never
    overridden. *)
Theorem canonical_headers_safe bindings a r llm binding call fixed :
  prepared_call bindings a r llm = Some (Ok (binding, call)) ->
  match target a with Fixed _ => fixed = [] | FromTemplate _ hs _ _ _ => fixed = hs end ->
  NoDup (keys fixed) ->
  NoDup (keys (call_headers call)) /\
  forall h, h ∈ call_headers call ->
    (h ∈ fixed /\ h.1 <> "content-type") \/
    (h ∈ ar_headers r /\ h.1 ∈ allowed_extra_headers (request_policy a) /\
     h.1 <> header_name (auth a) /\ h.1 <> "authorization" /\ h.1 <> "content-type" /\
     h.1 ∉ FORBIDDEN_HEADERS /\ header_value_is_safe h.2 = true /\ h.1 ∉ keys fixed).
Proof.
  intros P Hf Hn. unfold prepared_call in P. destruct (find_binding _ _) as [b|]; [|done].
  destruct (request_parts a r) as [[[[t hs] schema]|]|] eqn:Ep; [|done|done]. cbn in P.
  assert (Hhs : match hs with Some headers => headers | None => [] end = fixed).
  { unfold request_parts in Ep. destruct (target a).
    - destruct (_ || _) in Ep; [done|]. by simplify_eq.
    - destruct (target_render _ _ _) as [[rt|]|]; cbn in Ep; by simplify_eq. }
  destruct (_ <? llen (ar_body r)); [done|].
  destruct (effective_content_type _ _) as [ct|]; [|done]. cbn [mbind result_bind] in P.
  destruct (request_body_value _) as [v|]; [|done]. cbn [mbind result_bind] in P.
  destruct (adapt_body _ _ _) as [[lb v']|]; [|done]. cbn [mbind result_bind] in P.
  destruct (match lb with Some _ => _ | None => _ end); [done|].
  destruct (negb _); [done|]. destruct (match schema with Some _ => _ | None => _ end); [done|].
  destruct (effective_headers _ _ _) as [out|] eqn:Eh; [|done]. cbn in P. simplify_eq. cbn.
  unfold effective_headers in Eh.
  destruct (caller_headers _ _ _) as [extra|] eqn:Ec; [|done]. cbn in Eh. simplify_eq.
  apply caller_headers_ok in Ec as [H1 H2].
  set (hf := match hs with Some headers => headers | None => [] end) in *.
  split.
  - unfold keys. rewrite sort_headers_perm, map_app. apply NoDup_app. split_and!; [|intros k Hk Hk'|done].
    + clear -Hn. unfold keys in Hn. induction hf as [|[k v] l IH]; [constructor|]. cbn in Hn |- *.
      apply NoDup_cons in Hn as [Hk Hl]. destruct (negb _); [|by apply IH]. cbn. constructor; [|by apply IH].
      intros ([k' v'] & Hk' & Hin)%list_elem_of_fmap. cbn in Hk'. subst k'. apply Hk.
      rewrite list_elem_of_In, filter_In, <- list_elem_of_In in Hin. destruct Hin as [Hin _].
      by apply (list_elem_of_fmap_2 fst) in Hin.
    + apply list_elem_of_fmap in Hk' as (h & -> & Hin). destruct (H1 h Hin) as (_&_&_&_&_&_&_&Hs).
      apply Hs. apply list_elem_of_fmap in Hk as (h' & Hk & Hin'). rewrite Hk.
      rewrite list_elem_of_In, filter_In, <- list_elem_of_In in Hin'. destruct Hin' as [Hin' _].
      by apply (list_elem_of_fmap_2 fst) in Hin'.
  - intros h. rewrite sort_headers_perm. intros [Hin|Hin]%elem_of_app; [left|right; by apply H1].
    rewrite list_elem_of_In, filter_In, <- list_elem_of_In in Hin. destruct Hin as [Hin Hc].
    split; [done|]. unfold str_eqb in Hc. by reflect_bools.
Qed.

(** ** Profile calls *)

Definition plc_llm_body (c : ProfileLlmCanonicalRequest) : ProfileBody :=
  mkProfileBody (plc_model c) (plc_body c) (plc_generation_max_output c) (plc_streaming c).

(** A profile's output ceiling cannot be evaded. When a call to a generating
    endpoint is accepted, the bytes that are sent parse, without a duplicate key,
    to exactly the body inside the canonical JSON that policy and approval see.
    Its model is an allowed one; exactly one of the fields the provider takes a
    ceiling from is present and holds the maximum charged for, which is positive
    and within the signed limit; a chat asks for one choice, a response runs in
    the foreground, and the stream flag is the recorded one. That inserting a
    property before the closing brace appends it is assumed of the JSON parser
    for this body. *)
Theorem profile_llm_ceiling {SL : SerdeLaws} bs a r protocol limits out :
  generating protocol = true -> 0 <= max_output_tokens_per_request limits <= u32_max ->
  insertable (ar_body r) ->
  canonicalize_profile_llm bs a r protocol limits = Some (Ok out) ->
  exists object content_type headers,
    parse_unique_json (plc_body out) = Ok (VObject object) /\
    ceiling_ok protocol limits (plc_llm_body out) object /\
    jcs (envelope (plc_target out) (VObject object) content_type headers)
      = Some (canonical_json (plc_parameters out)) /\
    llen (plc_body out) <= req_max_body_bytes (request_policy a).
Proof.
  intros G Hc I. unfold canonicalize_profile_llm.
  destruct (canonicalize_inner _ _ _ _) as [[cr|]|] eqn:C; [|done|done]. cbn [mbind result_bind].
  destruct (cr_llm_body cr) as [pb|] eqn:Eb; [|done]. cbn. intros; simplify_eq.
  apply canonicalize_Ok in C as (b & c & P & F). apply finish_call_Ok in F as (J & _ & _ & _ & Ht & Hl).
  unfold prepared_call in P. destruct (find_binding _ _) as [b'|]; [|done].
  destruct (request_parts a r) as [[[[t hs] schema]|]|]; [|done|done]. cbn in P.
  destruct (_ <? llen (ar_body r)); [done|].
  destruct (effective_content_type _ _) as [ct|]; [|done]. cbn [mbind result_bind] in P.
  destruct (request_body_value _) as [v|] eqn:Ev; [|done]. cbn [mbind result_bind] in P.
  destruct (normalize_profile_llm_body _ _ _ _ _) as [[pb' v']|] eqn:En; [|done].
  cbn [mbind result_bind] in P. destruct (_ <? llen (pb_bytes pb')) eqn:Es; [done|].
  destruct (negb _); [done|]. destruct (match schema with Some _ => _ | None => _ end); [done|].
  destruct (effective_headers _ _ _) as [out|]; [|done]. cbn in P. simplify_eq. cbn in *.
  assert (pb' = pb) as -> by congruence. reflect_bools.
  assert (Hv : parse_unique_json (ar_body r) = Ok v).
  { unfold request_body_value in Ev. case_bool_decide as Hb.
    - simplify_eq. unfold normalize_profile_llm_body in En.
      unfold generating in G. reflect_bools. rewrite bool_decide_eq_false_2 in En; [done|].
      intros ->. set_solver.
    - destruct (parse_unique_json (ar_body r)); [|done]. cbn in Ev.
      destruct (ensure_json_number_fidelity _ _); [|done]. cbn in Ev. by simplify_eq. }
  destruct (normalize_enforces_ceiling _ _ _ _ _ _ _ G Hc Hv I En) as (object & -> & Hp & Hok).
  exists object, ct, out. split_and!; try done; [|rewrite Ht; exact J].
  by destruct pb.
Qed.

End WithLibraries.

(** ** A concrete instance *)

#[local] Existing Instance model_serde.

Definition demo_call_action : FixedHttpAction :=
  mkFixedHttpAction None None 5 "Comment" 1 true 2 "https://api.example.com" Post
    (FromTemplate (mkTemplateTarget "/v1/items/{id}" [("id", Int 1 100)] [])
       [("accept", "application/json")] None
       (mkTemplateActionSource "demo@1" "items" 0 [] None)
       (mkDefaultPolicy DefaultAllow None))
    (mkHeaderCredentialUse "authorization" "Bearer ") 30000
    (mkRequestPolicy 65536 ["x-trace"; "x-tag"]) (mkResponsePolicy 65536 []).
Definition demo_binding : ActionBinding (JValue Z) :=
  mkActionBinding 5 1 (mkResourceRef "item" "demo") "demo/v1" (VBool true).
(** Two spellings of one call: [7] and [007], and the headers swapped. *)
Definition demo_request : ActionRequest :=
  mkActionRequest [("id", "7")] [] (Some "application/json")
    [("x-trace", "a"); ("x-tag", "b")] [123; 125].
Definition demo_request' : ActionRequest :=
  mkActionRequest [("id", "007")] [] (Some "Application/JSON ")
    [("x-tag", "b"); ("x-trace", "a")] [123; 125].

Definition demo_canonical_call : CanonicalCall :=
  mkCanonicalCall (mkRenderedTarget "/v1/items/7" [("id", "7")] []) (VString "{}")
    (Some "application/json")
    [("accept", "application/json"); ("x-tag", "b"); ("x-trace", "a")] None.

Lemma demo_prepared :
  prepared_call (SJ := model_serde) [demo_binding] demo_call_action demo_request None = Some (Ok (demo_binding, demo_canonical_call)).
Proof. vm_compute. reflexivity. Qed.
Lemma demo_prepared' :
  prepared_call (SJ := model_serde) [demo_binding] demo_call_action demo_request' None = Some (Ok (demo_binding, demo_canonical_call)).
Proof. vm_compute. reflexivity. Qed.

Lemma digest_binds_call_witness :
  exists out,
  canonicalize_inner (CC := model_codecs) (SJ := model_serde) [demo_binding] demo_call_action demo_request None =
    Some (Ok out) /\
  canonicalize_inner (CC := model_codecs) (SJ := model_serde) [demo_binding] demo_call_action demo_request' None =
    Some (Ok out) /\
  same_json (call_body demo_canonical_call) (call_body demo_canonical_call).
Proof.
  eexists. split; [vm_compute; reflexivity|]. split; [vm_compute; reflexivity|].
  eapply (digest_binds_call (CC := model_codecs) (SJ := model_serde) [demo_binding] demo_call_action demo_request
    None demo_binding demo_canonical_call _
    [demo_binding] demo_call_action demo_request' None demo_binding demo_canonical_call).
  - exact demo_prepared.
  - exact demo_prepared'.
  - vm_compute. reflexivity.
  - vm_compute. reflexivity.
  - unfold valid_ref. cbn. lia.
  - unfold valid_ref. cbn. lia.
  - intros x y Hx Hy _. congruence.
  - intros _. unfold call_envelope, envelope. cbn.
    repeat first [apply List.Forall2_nil | apply List.Forall2_cons | split | constructor].
  - reflexivity.
Defined.

Lemma canonical_headers_safe_witness :
  NoDup (keys (call_headers demo_canonical_call)) /\
  ("x-tag", "b") ∈ call_headers demo_canonical_call.
Proof.
  split; [|vm_compute; right; left].
  apply (canonical_headers_safe (SJ := model_serde) [demo_binding] demo_call_action demo_request None demo_binding
    demo_canonical_call [("accept", "application/json")]).
  - exact demo_prepared.
  - reflexivity.
  - cbn. apply NoDup_singleton.
Defined.

Definition demo_llm_action : FixedHttpAction (JS := value_schema (SJ := llm_serde)) :=
  mkFixedHttpAction None None 5 "Messages" 1 true 2 "https://api.anthropic.com" Post
    (Fixed "/v1/messages") (mkHeaderCredentialUse "x-api-key" "") 30000
    (mkRequestPolicy 65536 []) (mkResponsePolicy 65536 []).
Definition demo_llm_request : ActionRequest :=
  mkActionRequest [] [] (Some "application/json") [] demo_llm_body.

Lemma profile_llm_ceiling_witness :
  exists out, canonicalize_profile_llm (CC := model_codecs) (SJ := llm_serde) [demo_binding]
      demo_llm_action demo_llm_request AnthropicMessages demo_llm_limit = Some (Ok out) /\
    plc_body out = take 12 demo_llm_body ++ ceiling_property false "max_tokens" 4096 ++ [125] /\
    exists object, parse_unique_json (SJ := llm_serde) (plc_body out) = Ok (VObject object).
Proof.
  assert (H : exists out, canonicalize_profile_llm (CC := model_codecs) (SJ := llm_serde) [demo_binding]
      demo_llm_action demo_llm_request AnthropicMessages demo_llm_limit = Some (Ok out) /\
    plc_body out = take 12 demo_llm_body ++ ceiling_property false "max_tokens" 4096 ++ [125]).
  { eexists. split; [vm_compute; reflexivity|vm_compute; reflexivity]. }
  destruct H as (out & H & Hb). exists out. split; [exact H|]. split; [exact Hb|].
  destruct (profile_llm_ceiling (CC := model_codecs) (SJ := llm_serde)
    (SL := table_serde_laws demo_llm_parser) [demo_binding] demo_llm_action demo_llm_request
    AnthropicMessages demo_llm_limit out eq_refl ltac:(cbn; unfold u32_max; lia) demo_insertable H)
    as (object & _ & _ & P & _). by exists object.
Defined.
