(* ===== verification/Address.v ===== *)
(** * Address: which resolved addresses the broker may connect to

    [rekey-domain/src/action.rs], lines 681-792. An IPv4 address is its four
    octets and an IPv6 address its eight 16-bit segments. *)

From S2P Require Import Prelude.

Inductive IpAddr : Type :=
  | V4 (a b c d : Z)
  | V6 (s0 s1 s2 s3 s4 s5 s6 s7 : Z).

Definition is_octet (x : Z) : Prop := 0 <= x < 256.
Definition is_segment (x : Z) : Prop := 0 <= x < 65536.

(** [u16::MAX << n]: the bits shifted past the width are lost. *)
Definition u16_mask (n : Z) : Z := Z.land (Z.shiftl 65535 n) 65535.

(** [second_segment_matches_prefix]. *)
Definition second_segment_matches_prefix (segment network prefix_len : Z) : bool :=
  let bits := prefix_len - 16 in
  let mask := u16_mask (16 - bits) in
  Z.land segment mask =? network.

Definition allocated_2001 : list (Z * Z) := [
  (0x0200, 23); (0x0400, 23); (0x0600, 23); (0x0800, 22); (0x0c00, 23); (0x0e00, 23);
  (0x1200, 23); (0x1400, 22); (0x1800, 23); (0x1a00, 23); (0x1c00, 22); (0x2000, 19);
  (0x4000, 23); (0x4200, 23); (0x4400, 23); (0x4600, 23); (0x4800, 23); (0x4a00, 23);
  (0x4c00, 23); (0x5000, 20); (0x8000, 19); (0xa000, 20); (0xb000, 20)].

Definition within (lo hi x : Z) : bool := (lo <=? x) && (x <=? hi).

(** [allocated_public_ipv6]. *)
Definition allocated_public_ipv6 (first second s2 s3 s4 s5 s6 s7 : Z) : bool :=
  if first =? 0x2001 then
    let public_ietf_exception :=
      ((second =? 1)
       && ((s2 =? 0) && (s3 =? 0) && (s4 =? 0) && (s5 =? 0) && (s6 =? 0))
       && within 1 3 s7)
      || (second =? 3)
      || ((second =? 4) && (s2 =? 0x0112))
      || (Z.land second 0xfff0 =? 0x0020)
      || (Z.land second 0xfff0 =? 0x0030) in
    let allocated := existsb (fun '(network, prefix) =>
      second_segment_matches_prefix second network prefix) allocated_2001 in
    public_ietf_exception || (allocated && negb (second =? 0x0db8))
  else if first =? 0x2003 then second_segment_matches_prefix second 0 18
  else if within 0x2400 0x241f first then true
  else if within 0x2600 0x260f first then true
  else if (first =? 0x2610) || (first =? 0x2620) then
    second_segment_matches_prefix second 0 23
  else if within 0x2630 0x263f first then true
  else if within 0x2800 0x280f first then true
  else if within 0x2a00 0x2a1f first then true
  else if within 0x2c00 0x2c0f first then true
  else false.

Definition v4_is_public (a b c : Z) : bool :=
  negb ((a =? 0) || (a =? 10) || (a =? 127)
        || ((a =? 100) && within 64 127 b)
        || ((a =? 169) && (b =? 254))
        || ((a =? 172) && within 16 31 b)
        || ((a =? 192) && (b =? 0) && (c =? 0))
        || ((a =? 192) && (b =? 0) && (c =? 2))
        || ((a =? 192) && (b =? 88) && (c =? 99))
        || ((a =? 192) && (b =? 168))
        || ((a =? 198) && ((b =? 18) || (b =? 19)))
        || ((a =? 198) && (b =? 51) && (c =? 100))
        || ((a =? 203) && (b =? 0) && (c =? 113))
        || (224 <=? a)).

(** [(s >> 8) as u8] and [s as u8]. *)
Definition high_byte (s : Z) : Z := Z.shiftr s 8 mod 256.
Definition low_byte (s : Z) : Z := s mod 256.

(** [ip_is_public], the mapped-address call unfolded to its IPv4 case. *)
Definition ip_is_public (ip : IpAddr) : bool :=
  match ip with
  | V4 a b c _ => v4_is_public a b c
  | V6 s0 s1 s2 s3 s4 s5 s6 s7 =>
      if (s0 =? 0) && (s1 =? 0) && (s2 =? 0) && (s3 =? 0) && (s4 =? 0) && (s5 =? 0xffff) then
        v4_is_public (high_byte s6) (low_byte s6) (high_byte s7)
      else if (s0 =? 0x0064) && (s1 =? 0xff9b) && (s2 =? 0) && (s3 =? 0) && (s4 =? 0)
              && (s5 =? 0) then
        v4_is_public (high_byte s6) (low_byte s6) (high_byte s7)
      else if s0 =? 0x2002 then
        v4_is_public (high_byte s1) (low_byte s1) (high_byte s2)
      else allocated_public_ipv6 s0 s1 s2 s3 s4 s5 s6 s7
  end.

(** ** The IPv4 contract *)

(** The value of an address and the CIDR blocks that are never public. *)
Definition v4_value (a b c d : Z) : Z := ((a * 256 + b) * 256 + c) * 256 + d.
Definition in_cidr (addr network len : Z) : Prop :=
  addr / 2 ^ (32 - len) = network / 2 ^ (32 - len).
Definition reserved_v4 : list (Z * Z) := [
  (v4_value 0 0 0 0, 8); (v4_value 10 0 0 0, 8); (v4_value 127 0 0 0, 8);
  (v4_value 100 64 0 0, 10); (v4_value 169 254 0 0, 16); (v4_value 172 16 0 0, 12);
  (v4_value 192 0 0 0, 24); (v4_value 192 0 2 0, 24); (v4_value 192 88 99 0, 24);
  (v4_value 192 168 0 0, 16); (v4_value 198 18 0 0, 15); (v4_value 198 51 100 0, 24);
  (v4_value 203 0 113 0, 24); (v4_value 224 0 0 0, 3)].

Lemma cidr_range addr network len :
  0 <= len <= 32 -> network mod 2 ^ (32 - len) = 0 ->
  in_cidr addr network len <-> network <= addr < network + 2 ^ (32 - len).
Proof.
  intros Hl Hn. unfold in_cidr. set (p := 2 ^ (32 - len)) in *.
  assert (0 < p) by (apply Z.pow_pos_nonneg; lia).
  pose proof (Z.div_mod network p ltac:(lia)). pose proof (Z.div_mod addr p ltac:(lia)).
  pose proof (Z.mod_pos_bound addr p ltac:(lia)). split; [nia|].
  intros Hr. symmetry. apply Z.div_unique with (addr - network); nia.
Qed.

Lemma and_iff (A B C D : Prop) : (A <-> B) -> (C <-> D) -> (A /\ C) <-> (B /\ D).
Proof. tauto. Qed.

(** an IPv4 destination is public exactly when it lies in none of the
    fourteen reserved CIDR blocks: this network, private, loopback, shared,
    link-local, documentation, benchmarking, relay, multicast and reserved. *)
Theorem ipv4_public_exactly a b c d :
  is_octet a -> is_octet b -> is_octet c -> is_octet d ->
  ip_is_public (V4 a b c d) = true <->
  Forall (fun '(network, len) => ~ in_cidr (v4_value a b c d) network len) reserved_v4.
Proof.
  unfold is_octet. intros Ha Hb Hc Hd. unfold reserved_v4.
  rewrite !Forall_cons, Forall_nil, (right_id True and).
  rewrite !cidr_range by (lia || reflexivity).
  cbn [ip_is_public]. unfold v4_is_public, within.
  rewrite negb_true_iff, !orb_false_iff, <- !not_true_iff_false.
  change (2 ^ (32 - 8)) with 16777216. change (2 ^ (32 - 10)) with 4194304.
  change (2 ^ (32 - 16)) with 65536. change (2 ^ (32 - 12)) with 1048576.
  change (2 ^ (32 - 24)) with 256. change (2 ^ (32 - 15)) with 131072.
  change (2 ^ (32 - 3)) with 536870912.
  repeat rewrite (and_assoc _ _). unfold v4_value.
  repeat (apply and_iff; [|apply not_iff_compat; lia]). apply not_iff_compat. lia.
Qed.

Lemma ipv4_public_exactly_witness :
  ip_is_public (V4 100 64 0 1) = false /\ ip_is_public (V4 8 8 8 8) = true /\
  Forall (fun '(network, len) => ~ in_cidr (v4_value 8 8 8 8) network len) reserved_v4.
Proof.
  split; [reflexivity|]. split; [reflexivity|].
  apply (ipv4_public_exactly 8 8 8 8); unfold is_octet; lia || reflexivity.
Defined.

(** ** Prefixes of the second segment *)

Lemma u16_mask_land x n :
  0 <= n <= 16 -> is_segment x -> Z.land x (u16_mask n) = x / 2 ^ n * 2 ^ n.
Proof.
  unfold is_segment. intros Hn Hx. rewrite <- Z.shiftr_div_pow2, <- Z.shiftl_mul_pow2 by lia.
  apply Z.bits_inj'. intros i Hi. unfold u16_mask. rewrite !Z.land_spec.
  change 65535 with (Z.ones 16).
  rewrite Z.shiftl_spec, (Z.shiftl_spec (Z.shiftr x n)) by lia.
  destruct (Z.ltb_spec i n).
  - rewrite (Z.testbit_neg_r (Z.ones 16)), (Z.testbit_neg_r (Z.shiftr x n)) by lia.
    by rewrite andb_false_r.
  - rewrite Z.shiftr_spec by lia. replace (i - n + n) with i by lia.
    destruct (Z.ltb_spec i 16).
    + rewrite !Z.ones_spec_low by lia. by rewrite !andb_true_r.
    + rewrite (Z.ones_spec_high 16 i) by lia. rewrite !andb_false_r. symmetry.
      destruct (Z.eq_dec x 0) as [->|]; [apply Z.bits_0|].
      apply Z.bits_above_log2; [lia|].
      assert (Z.log2 x < 16) by (apply Z.log2_lt_pow2; lia). lia.
Qed.

(** the mask test of an IPv6 allocation is the CIDR test of its second
    segment: the network's bits followed by zeroes, for every prefix length the
    tables use. *)
Theorem prefix_test_is_cidr segment network len :
  is_segment segment -> 16 <= len <= 32 ->
  second_segment_matches_prefix segment network len = true <->
  segment / 2 ^ (32 - len) * 2 ^ (32 - len) = network.
Proof.
  intros Hs Hl. unfold second_segment_matches_prefix.
  replace (16 - (len - 16)) with (32 - len) by lia.
  rewrite u16_mask_land by (done || lia). lia.
Qed.

Lemma prefix_test_is_cidr_witness :
  second_segment_matches_prefix 0x0e00 0x0c00 23 = false /\
  second_segment_matches_prefix 0x0db8 0x0db8 32 = true /\
  0x0db8 / 2 ^ (32 - 32) * 2 ^ (32 - 32) = 0x0db8.
Proof.
  split; [reflexivity|]. split; [reflexivity|].
  apply (prefix_test_is_cidr 0x0db8 0x0db8 32); unfold is_segment; lia || reflexivity.
Defined.

(** ** Embedded IPv4 and default deny *)

Definition pack (hi lo : Z) : Z := hi * 256 + lo.

Lemma pack_bytes hi lo :
  is_octet hi -> is_octet lo -> high_byte (pack hi lo) = hi /\ low_byte (pack hi lo) = lo.
Proof.
  unfold is_octet, high_byte, low_byte, pack. intros Hh Hl. rewrite Z.shiftr_div_pow2 by lia.
  change (2 ^ 8) with 256. split; Z.to_euclidean_division_equations; lia.
Qed.

(** an IPv4 destination cannot be smuggled through IPv6: written as an
    IPv4-mapped, a NAT64 or a 6to4 address, it is public exactly when the IPv4
    address itself is. *)
Theorem embedded_ipv4_agrees a b c d x3 x4 x5 x6 x7 :
  is_octet a -> is_octet b -> is_octet c -> is_octet d ->
  ip_is_public (V6 0 0 0 0 0 0xffff (pack a b) (pack c d)) = ip_is_public (V4 a b c d) /\
  ip_is_public (V6 0x64 0xff9b 0 0 0 0 (pack a b) (pack c d)) = ip_is_public (V4 a b c d) /\
  ip_is_public (V6 0x2002 (pack a b) (pack c d) x3 x4 x5 x6 x7) = ip_is_public (V4 a b c d).
Proof.
  intros Ha Hb Hc Hd. destruct (pack_bytes a b Ha Hb) as [E1 E2], (pack_bytes c d Hc Hd) as [E3 _].
  cbn [ip_is_public]. change (0x2002 =? 0) with false. change (0x2002 =? 0x64) with false.
  change (0x64 =? 0) with false.
  cbn [Z.eqb Pos.eqb andb]. by rewrite E1, E2, E3.
Qed.

Lemma embedded_ipv4_agrees_witness :
  ip_is_public (V6 0x64 0xff9b 0 0 0 0 (pack 10 0) (pack 0 1)) = ip_is_public (V4 10 0 0 1) /\
  ip_is_public (V4 10 0 0 1) = false.
Proof.
  split; [|reflexivity].
  apply (embedded_ipv4_agrees 10 0 0 1 0 0 0 0 0); unfold is_octet; lia.
Defined.

(** The three ways an IPv6 address carries an IPv4 destination. *)
Definition embeds_v4 (ip : IpAddr) (a b c d : Z) : Prop :=
  match ip with
  | V4 a' b' c' d' => a' = a /\ b' = b /\ c' = c /\ d' = d
  | V6 s0 s1 s2 s3 s4 s5 s6 s7 =>
      (([s0; s1; s2; s3; s4; s5] = [0; 0; 0; 0; 0; 0xffff] \/
        [s0; s1; s2; s3; s4; s5] = [0x64; 0xff9b; 0; 0; 0; 0]) /\
       s6 = pack a b /\ s7 = pack c d) \/
      (s0 = 0x2002 /\ s1 = pack a b /\ s2 = pack c d)
  end.

Lemma segment_pack s : is_segment s -> s = pack (high_byte s) (low_byte s).
Proof.
  unfold is_segment, high_byte, low_byte, pack. intros Hs. rewrite Z.shiftr_div_pow2 by lia.
  change (2 ^ 8) with 256. Z.to_euclidean_division_equations. lia.
Qed.
Lemma byte_octets s : is_octet (high_byte s) /\ is_octet (low_byte s).
Proof. unfold is_octet, high_byte, low_byte. split; apply Z.mod_pos_bound; lia. Qed.

(** IPv6 is denied by default. A public IPv6 address either carries a public
    IPv4 destination, or lies in an allocated global-unicast block 2001::/16 to
    2c0f::/16 outside 2001:db8::/32; so loopback, unspecified, unique-local,
    link-local, multicast, Teredo, site-local and documentation are refused. *)
Theorem ipv6_denied_by_default s0 s1 s2 s3 s4 s5 s6 s7 :
  is_segment s0 -> is_segment s1 -> is_segment s2 -> is_segment s6 -> is_segment s7 ->
  ip_is_public (V6 s0 s1 s2 s3 s4 s5 s6 s7) = true ->
  (exists a b c d, is_octet a /\ is_octet b /\ is_octet c /\ is_octet d /\
     embeds_v4 (V6 s0 s1 s2 s3 s4 s5 s6 s7) a b c d /\ ip_is_public (V4 a b c d) = true) \/
  (0x2001 <= s0 <= 0x2c0f /\ ~ (s0 = 0x2001 /\ (s1 = 0x0db8 \/ s1 = 0))).
Proof.
  intros H0 H1 H2 H6 H7. cbn [ip_is_public].
  pose proof (byte_octets s1) as [O1 O1']. pose proof (byte_octets s2) as [O2 O2'].
  pose proof (byte_octets s6) as [O6 O6']. pose proof (byte_octets s7) as [O7 O7'].
  destruct (_ && (s5 =? 65535)) eqn:E1; [|destruct (_ && (s5 =? 0)) eqn:E2; [|destruct (s0 =? 0x2002) eqn:E3]].
  1,2: intros Hp; left; exists (high_byte s6), (low_byte s6), (high_byte s7), (low_byte s7);
    split_and!; try done; left; reflect_bools; subst; split_and!;
    [by auto|by apply segment_pack|by apply segment_pack].
  - intros Hp. left. exists (high_byte s1), (low_byte s1), (high_byte s2), (low_byte s2).
    split_and!; try done. right. reflect_bools.
    split_and!; [done|by apply segment_pack|by apply segment_pack].
  - intros Hp. right. unfold allocated_public_ipv6, within in Hp.
    destruct (s0 =? 0x2001) eqn:Ef.
    + reflect_bools. subst s0. split; [lia|]. intros [_ [->| ->]]; by vm_compute in Hp.
    + split; [|lia]. walk Hp; lia.
Qed.

Lemma ipv6_denied_by_default_witness :
  ip_is_public (V6 0x2606 0x4700 0 0 0 0 0 1) = true /\
  ip_is_public (V6 0xfe80 0 0 0 0 0 0 1) = false /\
  ((exists a b c d, is_octet a /\ is_octet b /\ is_octet c /\ is_octet d /\
     embeds_v4 (V6 0x2606 0x4700 0 0 0 0 0 1) a b c d /\ ip_is_public (V4 a b c d) = true) \/
   (0x2001 <= 0x2606 <= 0x2c0f /\ ~ (0x2606 = 0x2001 /\ (0x4700 = 0x0db8 \/ 0x4700 = 0)))).
Proof.
  split; [reflexivity|]. split; [reflexivity|].
  apply ipv6_denied_by_default; unfold is_segment; lia || reflexivity.
Defined.
