(* ===== verification/Routing.v ===== *)
(** * Routing: signed connections and the decision on one request

    [rekey-domain/src/connection.rs], lines 8-330, and the routing half of
    [rekey-policy/src/connections.rs], lines 218-226 and 357-470: connection
    records and their validation, path grammars, and [decide], which picks the
    effect of the most specific rule. A [BTreeMap] is the association list of
    its entries in key order. *)

From S2P Require Import Prelude Strings Errors Domain Action FixedAction Json.

(** ** Data (connection.rs) *)

Inductive MethodClass : Type := Read | Write.
Inductive MethodSelector : Type :=
  | Class (c : MethodClass)
  | Methods (l : list FixedMethod).
Inductive Effect : Type := Allow | Approve | Deny.
Inductive CredentialGrade : Type := T0 | T1.
Inductive OAuthProvider : Type := Google | GitHub | Slack | Notion.

#[export] Instance MethodClass_eq_dec : EqDecision MethodClass.
Proof. solve_decision. Defined.
#[export] Instance Effect_eq_dec : EqDecision Effect.
Proof. solve_decision. Defined.
#[export] Instance CredentialGrade_eq_dec : EqDecision CredentialGrade.
Proof. solve_decision. Defined.

Record OAuthBinding := mkOAuthBinding {
  oauth_provider : OAuthProvider;
  client_id : string;
  scopes : list string;
}.

Record ConnectionRule := mkConnectionRule {
  rule_id : PolicyRuleId;
  methods : MethodSelector;
  rule_path : string;
  effect : Effect;
}.

Record ConnectionLimits := mkConnectionLimits {
  requests_per_hour : Z;
  max_request_bytes : Z;
  max_response_bytes : Z;
}.

Inductive ReadSemantics : Type := Fixed | GraphqlQuery.

Section WithSerde.
Context {SJ : Serde}.

Record PresetOperation := mkPresetOperation {
  op_name : string;
  op_description : string;
  op_method : FixedMethod;
  op_path : string;
  parameters : JValue Number;
  read_semantics : option ReadSemantics;
}.

Record ConnectionLlmLimits := mkConnectionLlmLimits {
  models : list string;
  max_tokens : Z;
  max_requests_per_day : Z;
  max_output_tokens_per_day : Z;
}.

Inductive ConnectionAuth : Type :=
  | AuthHeader (h : HeaderCredentialUse)
  | AuthMtls.
Definition is_mtls (a : ConnectionAuth) : bool :=
  match a with AuthMtls => true | _ => false end.
Definition auth_header (a : ConnectionAuth) : option HeaderCredentialUse :=
  match a with AuthHeader h => Some h | AuthMtls => None end.

Record Connection := mkConnection {
  conn_name : string;
  preset : string;
  credential_id : CredentialId;
  origin : string;
  auth : ConnectionAuth;
  enabled : bool;
  grade : CredentialGrade;
  rules : list ConnectionRule;
  bindings : list (string * list string);
  caller_overrides : list (string * list ConnectionRule);
  limits : ConnectionLimits;
  conn_allowed_headers : list string;
  fixed_headers : list (string * string);
  allowed_response_headers : list string;
  query_allowlist : option (list string);
  operations : list PresetOperation;
  llm : option ConnectionLlmLimits;
  oauth : option OAuthBinding;
}.

Definition LLM_PRESETS : list string := [
  "anthropic"; "openai"; "glm"; "glm-responses"; "deepseek"; "moonshot"; "moonshot-intl";
  "qwen"; "qwen-intl"; "qwen-us"; "qwen-hk"; "openrouter"; "gemini"].
Definition is_llm_preset (p : string) : bool := bool_decide (p ∈ LLM_PRESETS).

(** ** Path grammars *)

Definition path_invalid {A} (msg : string) : result DomainError A :=
  Err (InvalidActionDefinition msg).

(** [validate_request_path]. *)
Definition validate_request_path (path : string) : result DomainError unit :=
  reject_if negb (starts_with "/" path) || (2048 <? slen path)
            || (negb (str_eqb path "/")
                && existsb (fun part => negb (slug part 100)) (split_on "/" (str_tail path)))
    with InvalidActionDefinition "path must contain only safe ASCII slug segments" ;;
  Ok tt.

(** [segment.strip_prefix('{').and_then(|v| v.strip_suffix('}'))]. *)
Definition named (part : string) : option string :=
  match strip_prefix "{" part with Some v => strip_suffix "}" v | None => None end.

Definition segment_valid (last : bool) (part : string) : bool :=
  (str_eqb part "**" && last) || str_eqb part "*" || slug part 100
  || match named part with Some name => slug name 64 | None => false end.
Fixpoint segments_valid (parts : list string) : bool :=
  match parts with
  | [] => true
  | part :: rest =>
      segment_valid (match rest with [] => true | _ => false end) part && segments_valid rest
  end.

(** [validate_path_pattern]. *)
Definition validate_path_pattern (path : string) : result DomainError unit :=
  reject_if negb (starts_with "/" path) || (2048 <? slen path)
    with InvalidActionDefinition "invalid rule path" ;;
  if str_eqb path "/" then Ok tt
  else
    reject_if negb (segments_valid (split_on "/" (str_tail path)))
      with InvalidActionDefinition "invalid rule path segment" ;;
    Ok tt.

(** [query_key_valid]. *)
Definition query_key_valid (key : string) : bool :=
  negb (is_empty_str key) && (slen key <=? 64)
  && str_all (fun b => is_ascii_alphanumeric b || bool_decide (b = "_"%char)
                       || bool_decide (b = "."%char) || bool_decide (b = "-"%char)) key.

(** ** [Connection::validate] *)

Definition check_oauth (c : Connection) : bool :=
  match oauth c with
  | None => true
  | Some v =>
      negb (is_empty_str (client_id v) || (256 <? slen (client_id v))
            || negb (str_all (in_range 33 126) (client_id v))
            || (32 <? llen (scopes v))
            || existsb (fun s => is_empty_str s || (256 <? slen s)
                                 || negb (str_all (in_range 33 126) s)) (scopes v)
            || negb (bool_decide (grade c = T0)))
  end.

Fixpoint methods_repeat (l : list FixedMethod) : bool :=
  match l with
  | [] => false
  | m :: rest => bool_decide (m ∈ rest) || methods_repeat rest
  end.
Definition methods_invalid (s : MethodSelector) : bool :=
  match s with
  | Class _ => false
  | Methods l => bool_decide (l = []) || methods_repeat l
  end.

(** The loop over [self.rules] and every override. *)
Fixpoint check_rules (c : Connection) (seen : list PolicyRuleId) (l : list ConnectionRule)
  : result DomainError unit :=
  match l with
  | [] => Ok tt
  | rule :: rest =>
      _ ← validate_path_pattern (rule_path rule);
      reject_if is_mtls (auth c) && (str_contains "*" (rule_path rule)
                || str_contains "{" (rule_path rule) || str_contains "}" (rule_path rule))
        with InvalidActionDefinition "mTLS requires fixed paths" ;;
      reject_if bool_decide (rule_id rule ∈ seen)
        with InvalidActionDefinition "duplicate rule id" ;;
      reject_if methods_invalid (methods rule)
        with InvalidActionDefinition "invalid rule methods" ;;
      reject_if existsb (fun segment => match named segment with
                         | Some name => negb (contains_key name (bindings c))
                         | None => false end) (split_on "/" (rule_path rule))
        with InvalidActionDefinition "named rule segment needs a binding" ;;
      check_rules c (rule_id rule :: seen) rest
  end.

Definition all_rules (c : Connection) : list ConnectionRule :=
  rules c ++ concat (map snd (caller_overrides c)).

Definition protected_header (c : Connection) (name : string) : bool :=
  is_forbidden name || str_eqb name "authorization" || str_eqb name "x-api-key"
  || starts_with_str "proxy-" name
  || match auth_header (auth c) with
     | Some h => str_eqb name (header_name h)
     | None => false
     end.

(** The loop over [self.operations]. *)
Fixpoint check_operations (seen : list string) (l : list PresetOperation)
  : result DomainError unit :=
  match l with
  | [] => Ok tt
  | o :: rest =>
      reject_if is_empty_str (op_name o) || (128 <? slen (op_name o))
                || negb (forallb (fun s => slug s 100) (split_on "." (op_name o)))
                || bool_decide (op_name o ∈ seen)
        with InvalidActionDefinition "invalid operation name" ;;
      _ ← validate_path_pattern (op_path o);
      reject_if str_contains "*" (op_path o) || negb (is_object (parameters o))
                || (bool_decide (is_Some (read_semantics o))
                    && negb (bool_decide (op_method o = Post)))
        with InvalidActionDefinition "invalid operation declaration" ;;
      check_operations (op_name o :: seen) rest
  end.

Definition check_llm (l : option ConnectionLlmLimits) : bool :=
  match l with
  | None => true
  | Some v =>
      negb (bool_decide (models v = []) || (max_tokens v =? 0) || (max_requests_per_day v =? 0)
            || (max_output_tokens_per_day v =? 0)
            || (9007199254740991 <? max_output_tokens_per_day v)
            || existsb (fun m => is_empty_str m || (256 <? slen m) || any_control m) (models v))
  end.

Definition connection_validate (c : Connection) : result DomainError unit :=
  reject_if negb (slug (conn_name c) 100) || negb (slug (preset c) 100)
            || (requests_per_hour (limits c) =? 0) || (max_request_bytes (limits c) =? 0)
            || (1048576 <? max_request_bytes (limits c))
            || (max_response_bytes (limits c) =? 0)
            || (4194304 <? max_response_bytes (limits c))
    with InvalidActionDefinition "invalid connection or limits" ;;
  reject_if is_llm_preset (preset c) && negb (bool_decide (is_Some (llm c)))
    with InvalidActionDefinition "LLM connections require signed model and budget limits" ;;
  reject_if negb (check_oauth c) with InvalidActionDefinition "invalid OAuth binding" ;;
  _ ← match auth_header (auth c) with
      | Some a => h ← HeaderCredentialUse_new (header_name a) (prefix a); Ok tt
      | None =>
          reject_if negb (bool_decide (grade c = T0)) || bool_decide (is_Some (oauth c))
                    || bool_decide (is_Some (llm c))
            with InvalidActionDefinition "mTLS requires T0 fixed HTTP semantics" ;;
          Ok tt
      end;
  _ ← check_rules c [] (all_rules c);
  reject_if existsb (fun '(key, values) => negb (slug key 64) || bool_decide (values = [])
                || existsb (fun v => negb (str_eqb v "*") && negb (slug v 100)) values)
              (bindings c)
    with InvalidActionDefinition "invalid path bindings" ;;
  reject_if existsb (fun '(v, _) => is_empty_str v || (256 <? slen v) || any_control v)
              (caller_overrides c)
    with InvalidActionDefinition "invalid caller label" ;;
  reject_if existsb (protected_header c) (conn_allowed_headers c ++ map fst (fixed_headers c))
    with InvalidActionDefinition "protected caller header" ;;
  reject_if existsb (fun '(k, v) => bool_decide (k ∈ conn_allowed_headers c) || (8192 <? slen v)
                || negb (str_all (fun b => (byte_of b =? 9) || in_range 32 126 b) v))
              (fixed_headers c)
    with InvalidActionDefinition "invalid fixed header" ;;
  reject_if match query_allowlist c with
            | Some keys => existsb (fun v => negb (query_key_valid v)) keys
            | None => false
            end
    with InvalidActionDefinition "invalid query allowlist" ;;
  _ ← response_policy_validate
        (mkResponsePolicy (max_response_bytes (limits c)) (allowed_response_headers c));
  _ ← check_operations [] (operations c);
  reject_if negb (check_llm (llm c)) with InvalidActionDefinition "invalid LLM limits" ;;
  Ok tt.

(** ** The decision (connections.rs) *)

(** [operation_path_matches]. *)
Fixpoint operation_segments_match (declared actual : list string) : bool :=
  match declared, actual with
  | [], [] => true
  | a :: ds, b :: bs =>
      (str_eqb a b || (starts_with "{" a && ends_with "}" a)) && operation_segments_match ds bs
  | _, _ => false
  end.
Definition operation_path_matches (pattern path : string) : bool :=
  operation_segments_match (split_on "/" pattern) (split_on "/" path).

(** [audit_path]: the shape of the path without its values. *)
Definition audit_path (path : string) : string :=
  if str_eqb path "/" then "/"
  else String "/" (join "/" (map (fun _ => "*") (split_on "/" (str_tail path)))).

(** [specificity]: literal segments, no [**], named segments, length. *)
Definition specificity (pattern : string) : Z * bool * Z * Z :=
  let parts := tail (split_on "/" pattern) in
  (llen (List.filter (fun p => negb (str_contains "{" p || str_contains "*" p)) parts),
   negb (bool_decide ("**" ∈ parts)),
   llen (List.filter (starts_with "{") parts),
   llen parts).

(** [pattern_matches]: the loop over the pattern's segments. *)
Fixpoint segments_match (bs : list (string * list string)) (patterns parts : list string)
  : bool :=
  match patterns with
  | [] => match parts with [] => true | _ => false end
  | part :: ps =>
      if str_eqb part "**" then true
      else match parts with
      | [] => false
      | value :: vs =>
          if str_eqb part "*" then segments_match bs ps vs
          else match named part with
          | Some name =>
              if match map_get name bs with
                 | Some choices => existsb (fun v => str_eqb v "*" || str_eqb v value) choices
                 | None => false
                 end
              then segments_match bs ps vs else false
          | None => if str_eqb part value then segments_match bs ps vs else false
          end
      end
  end.
Definition path_parts (path : string) : list string :=
  if str_eqb path "/" then [] else split_on "/" (str_tail path).
Definition pattern_matches (pattern path : string) (bs : list (string * list string)) : bool :=
  segments_match bs (path_parts pattern) (path_parts path).

(** The order [RuleEffect] derives. *)
Definition effect_rank (e : Effect) : Z :=
  match e with Allow => 0 | Approve => 1 | Deny => 2 end.

Definition then_with (c d : comparison) : comparison :=
  match c with Eq => d | _ => c end.
Definition bool_rank (b : bool) : Z := if b then 1 else 0.
Definition specificity_cmp (a b : Z * bool * Z * Z) : comparison :=
  let '(a1, a2, a3, a4) := a in
  let '(b1, b2, b3, b4) := b in
  then_with (a1 ?= b1) (then_with (bool_rank a2 ?= bool_rank b2)
    (then_with (a3 ?= b3) (a4 ?= b4))).
(** The comparator of [choose]'s sort. *)
Definition rule_cmp (a b : ConnectionRule) : comparison :=
  then_with (specificity_cmp (specificity (rule_path b)) (specificity (rule_path a)))
    (then_with (effect_rank (effect b) ?= effect_rank (effect a)) (rule_id a ?= rule_id b)).

(** A stable sort, and the first minimum by key. *)
Fixpoint insert_rule (x : ConnectionRule) (l : list ConnectionRule) : list ConnectionRule :=
  match l with
  | [] => [x]
  | y :: r => match rule_cmp x y with Gt => y :: insert_rule x r | _ => x :: l end
  end.
Definition sort_rules (l : list ConnectionRule) : list ConnectionRule :=
  fold_right insert_rule [] l.
Fixpoint min_by_id (l : list ConnectionRule) : option ConnectionRule :=
  match l with
  | [] => None
  | x :: r => match min_by_id r with
              | Some y => if rule_id y <? rule_id x then Some y else Some x
              | None => Some x
              end
  end.

Definition method_matches (m : MethodSelector) (method : FixedMethod) (class : MethodClass)
  : bool :=
  match m with
  | Class c => bool_decide (c = class)
  | Methods l => bool_decide (method ∈ l)
  end.
Definition applies (c : Connection) (method : FixedMethod) (class : MethodClass)
    (path : string) (rule : ConnectionRule) : bool :=
  method_matches (methods rule) method class && pattern_matches (rule_path rule) path (bindings c).

(** [choose]. *)
Definition choose (l : list ConnectionRule) (c : Connection) (method : FixedMethod)
    (class : MethodClass) (path : string) : option (Effect * PolicyRuleId * string) :=
  let matches := List.filter (applies c method class path) l in
  match min_by_id (List.filter (fun r => bool_decide (effect r = Deny)) matches) with
  | Some r => Some (effect r, rule_id r, rule_path r)
  | None =>
      match sort_rules matches with
      | r :: _ => Some (effect r, rule_id r, rule_path r)
      | [] => None
      end
  end.

(** [decide]. *)
Definition decide_request (c : Connection) (method : FixedMethod) (class : MethodClass)
    (path caller : string) : Effect * option PolicyRuleId * string :=
  let base := choose (rules c) c method class path in
  let selected := match map_get caller (caller_overrides c) with
    | Some l => choose l c method class path
    | None => None
    end in
  let winner := match base, selected with
    | Some (e, id, p), Some (e', id', p') =>
        if effect_rank e <? effect_rank e' then Some (e', id', p') else Some (e, id, p)
    | base, _ => base
    end in
  match winner with
  | None => (Deny, None, audit_path path)
  | Some (e, id, pattern) => (e, Some id, pattern)
  end.

(** ** The comparator is a total order *)

Fixpoint lex (a b : list Z) : comparison :=
  match a, b with
  | [], [] => Eq
  | [], _ => Lt
  | _, [] => Gt
  | x :: a', y :: b' => then_with (x ?= y) (lex a' b')
  end.

Definition rule_key (r : ConnectionRule) : list Z :=
  let '(a, b, n, l) := specificity (rule_path r) in
  [- a; - bool_rank b; - n; - l; - effect_rank (effect r); rule_id r].

Lemma then_with_Eq c : then_with c Eq = c.
Proof. by destruct c. Qed.
Lemma then_with_assoc a b c : then_with (then_with a b) c = then_with a (then_with b c).
Proof. by destruct a. Qed.

Lemma rule_cmp_key a b : rule_cmp a b = lex (rule_key a) (rule_key b).
Proof.
  unfold rule_cmp, rule_key, specificity_cmp.
  destruct (specificity (rule_path a)) as [[[a1 a2] a3] a4],
           (specificity (rule_path b)) as [[[b1 b2] b3] b4].
  cbn [lex]. rewrite !then_with_assoc, then_with_Eq, !Z.compare_opp. done.
Qed.

Lemma lex_refl a : lex a a = Eq.
Proof. induction a as [|x a IH]; [done|]. cbn. by rewrite Z.compare_refl. Qed.

Lemma lex_antisym a b : lex b a = CompOpp (lex a b).
Proof.
  revert b. induction a as [|x a IH]; intros [|y b]; try done. cbn.
  rewrite (Z.compare_antisym x y), IH. by destruct (x ?= y).
Qed.

Lemma lex_trans a b c : lex a b <> Gt -> lex b c <> Gt -> lex a c <> Gt.
Proof.
  revert b c. induction a as [|x a IH]; intros [|y b] [|z c]; try done. cbn.
  destruct (Z.compare_spec x y), (Z.compare_spec y z), (Z.compare_spec x z); subst; cbn;
    try done; try lia. apply IH.
Qed.

Definition rule_le (a b : ConnectionRule) : Prop := rule_cmp a b <> Gt.

#[export] Instance rule_le_preorder : PreOrder rule_le.
Proof.
  split.
  - intros a. unfold rule_le. by rewrite rule_cmp_key, lex_refl.
  - intros a b c. unfold rule_le. rewrite !rule_cmp_key. apply lex_trans.
Qed.

Lemma rule_le_total a b : rule_cmp a b = Gt -> rule_le b a.
Proof.
  unfold rule_le. rewrite !rule_cmp_key, (lex_antisym (rule_key a)). by intros ->.
Qed.

Lemma rule_le_id a b : rule_le a b -> rule_le b a -> rule_id a = rule_id b.
Proof.
  unfold rule_le. rewrite !rule_cmp_key, (lex_antisym (rule_key a)). intros H1 H2.
  assert (E : lex (rule_key a) (rule_key b) = Eq) by (destruct (lex (rule_key a) (rule_key b)); done).
  unfold rule_key in E.
  destruct (specificity (rule_path a)) as [[[a1 a2] a3] a4],
           (specificity (rule_path b)) as [[[b1 b2] b3] b4].
  cbn in E.
  repeat match type of E with then_with (?x ?= ?y) _ = Eq =>
    destruct (Z.compare_spec x y); cbn in E; [|done..] end. done.
Qed.

Lemma insert_rule_elem x l y : y ∈ insert_rule x l <-> y = x \/ y ∈ l.
Proof.
  induction l as [|z l IH]; cbn; [set_solver|].
  destruct (rule_cmp x z); rewrite !elem_of_cons, ?IH; tauto.
Qed.
Lemma sort_rules_elem l y : y ∈ sort_rules l <-> y ∈ l.
Proof.
  induction l as [|x l IH]; [done|]. cbn. rewrite insert_rule_elem, IH, elem_of_cons. done.
Qed.

Lemma sort_rules_least l x r :
  sort_rules l = x :: r -> x ∈ l /\ forall y, y ∈ l -> rule_le x y.
Proof.
  intros E. split; [apply sort_rules_elem; rewrite E; left|].
  revert x r E. induction l as [|z l IH]; [done|]. intros x r E y Hy.
  change (insert_rule z (sort_rules l) = x :: r) in E.
  destruct (sort_rules l) as [|w s] eqn:Es.
  - cbn in E. simplify_eq. apply elem_of_cons in Hy as [->|Hy]; [reflexivity|].
    apply sort_rules_elem in Hy. rewrite Es in Hy. by apply elem_of_nil in Hy.
  - pose proof (IH w s eq_refl) as Hw. cbn in E.
    destruct (rule_cmp z w) eqn:Ec; simplify_eq; apply elem_of_cons in Hy as [->|Hy]; try reflexivity.
    + etrans; [|by apply Hw]. unfold rule_le. by rewrite Ec.
    + etrans; [|by apply Hw]. unfold rule_le. by rewrite Ec.
    + by apply rule_le_total.
    + by apply Hw.
Qed.

Lemma min_by_id_None l : min_by_id l = None <-> l = [].
Proof. destruct l; cbn; [done|]. split; [|done]. repeat case_match; done. Qed.
Lemma min_by_id_Some l x :
  min_by_id l = Some x -> x ∈ l /\ forall y, y ∈ l -> rule_id x <= rule_id y.
Proof.
  revert x. induction l as [|z l IH]; [done|]. intros x. cbn. destruct (min_by_id l) as [w|] eqn:E.
  - destruct (IH w eq_refl) as [Hin Hle]. destruct (rule_id w <? rule_id z) eqn:Ez;
      intros; simplify_eq; reflect_bools; (split; [set_solver|]);
      intros y [->|Hy]%elem_of_cons; try lia; specialize (Hle y Hy); lia.
  - apply min_by_id_None in E. subst l. intros; simplify_eq. split; [left|].
    intros y Hy. apply list_elem_of_singleton in Hy. subst. lia.
Qed.

(** ** What [choose] selects *)

(** The winning rule among the applicable ones: the lowest denying id if any
    denies, otherwise the most specific, strictest, lowest id. *)
Definition wins (l : list ConnectionRule) (ap : ConnectionRule -> bool) (r : ConnectionRule)
  : Prop :=
  r ∈ l /\ ap r = true /\
  ((effect r = Deny /\
    forall y, y ∈ l -> ap y = true -> effect y = Deny -> rule_id r <= rule_id y) \/
   (effect r <> Deny /\ forall y, y ∈ l -> ap y = true -> effect y <> Deny /\ rule_le r y)).

Lemma choose_wins l c method class path e id p :
  choose l c method class path = Some (e, id, p) ->
  exists r, wins l (applies c method class path) r /\
            e = effect r /\ id = rule_id r /\ p = rule_path r.
Proof.
  unfold choose. set (ap := applies c method class path).
  assert (Hf : forall y, y ∈ List.filter ap l <-> y ∈ l /\ ap y = true) by apply elem_of_retain.
  assert (Hd : forall y, y ∈ List.filter (fun r => bool_decide (effect r = Deny)) (List.filter ap l)
    <-> (y ∈ l /\ ap y = true) /\ effect y = Deny).
  { intros y. rewrite (elem_of_retain _ (List.filter ap l)). rewrite Hf, bool_decide_eq_true. done. }
  destruct (min_by_id _) as [r|] eqn:E.
  - intros; simplify_eq. apply min_by_id_Some in E as [Hin Hmin]. apply Hd in Hin as [[] Hde].
    exists r. split; [|done]. split; [done|]. split; [done|]. left. split; [done|].
    intros y Hy Ha Hye. apply Hmin, Hd. done.
  - apply min_by_id_None in E. destruct (sort_rules _) as [|r s] eqn:Es; [done|].
    intros; simplify_eq. apply sort_rules_least in Es as [Hin Hle]. apply Hf in Hin as [Hin Ha].
    exists r. split; [|done]. split; [done|]. split; [done|]. right.
    assert (Hno : forall y, y ∈ l -> ap y = true -> effect y <> Deny).
    { intros y Hy Hay Hye. assert (Hx : y ∈ []) by (rewrite <- E; by apply Hd).
      by apply elem_of_nil in Hx. }
    split; [auto|]. intros y Hy Hay. split; [auto|]. apply Hle, Hf. done.
Qed.

Lemma choose_none l c method class path :
  choose l c method class path = None <-> forall r, r ∈ l -> applies c method class path r = false.
Proof.
  unfold choose. set (ap := applies c method class path). split.
  - intros H r Hr. destruct (ap r) eqn:Ea; [|done].
    destruct (min_by_id _) eqn:E; [done|].
    assert (Hx : r ∈ sort_rules (List.filter ap l))
      by (apply sort_rules_elem, elem_of_retain; done).
    destruct (sort_rules _); [by apply elem_of_nil in Hx|done].
  - intros H. assert (List.filter ap l = []) as ->; [|done].
    clear -H. induction l as [|r l IH]; [done|]. cbn. rewrite H by left. apply IH.
    intros x Hx. apply H. by right.
Qed.

Lemma wins_unique l l' ap r r' :
  (forall x, x ∈ l <-> x ∈ l') ->
  (forall x y, x ∈ l -> y ∈ l -> rule_id x = rule_id y -> x = y) ->
  wins l ap r -> wins l' ap r' -> r = r'.
Proof.
  intros Hl Hid (Hin & Ha & Hw) (Hin' & Ha' & Hw'). apply Hl in Hin' as Hin2.
  apply Hid; [done|done|].
  destruct Hw as [[Hd Hm]|[Hd Hm]], Hw' as [[Hd' Hm']|[Hd' Hm']].
  - specialize (Hm r' Hin2 Ha' Hd'). specialize (Hm' r (proj1 (Hl r) Hin) Ha Hd). lia.
  - by destruct (Hm' r (proj1 (Hl r) Hin) Ha).
  - by destruct (Hm r' Hin2 Ha').
  - apply rule_le_id; [by apply Hm|]. apply Hm'; [by apply Hl|done].
Qed.

End WithSerde.

(** * What a signed connection decides

    The decision on a request against its declarative reading ([Routing.wins]),
    path patterns against a relation on segments, and what a validated
    connection and a validated request path guarantee. *)

Section WithSerde.
Context {SJ : Serde}.

(** ** The decision *)

Definition overrides_of (c : Connection) (caller : string) : list ConnectionRule :=
  match map_get caller (caller_overrides c) with Some l => l | None => [] end.

Lemma applies_choose l c method class path r :
  r ∈ l -> applies c method class path r = true ->
  exists e id p, choose l c method class path = Some (e, id, p).
Proof.
  intros Hr Ha. destruct (choose l c method class path) as [[[e id] p]|] eqn:E; [eauto|].
  rewrite choose_none in E. rewrite E in Ha by done. done.
Qed.

Lemma choose_override c method class path caller :
  match map_get caller (caller_overrides c) with
  | Some l => choose l c method class path
  | None => None
  end = choose (overrides_of c caller) c method class path.
Proof. unfold overrides_of. by destruct (map_get caller (caller_overrides c)). Qed.

(** What a request is answered: without an applicable rule of the connection, a
    denial with no rule; otherwise the rule that wins among the connection's rules,
    unless the rule that wins among the caller's overrides is strictly stricter, and
    then that one. *)
Inductive decided (c : Connection) (ap : ConnectionRule -> bool) (path caller : string)
  : Effect * option PolicyRuleId * string -> Prop :=
  | decided_default :
      (forall r, r ∈ rules c -> ap r = false) -> decided c ap path caller (Deny, None, audit_path path)
  | decided_base r :
      wins (rules c) ap r ->
      (forall o, wins (overrides_of c caller) ap o -> effect_rank (effect o) <= effect_rank (effect r)) ->
      decided c ap path caller (effect r, Some (rule_id r), rule_path r)
  | decided_override r o :
      wins (rules c) ap r -> wins (overrides_of c caller) ap o ->
      effect_rank (effect r) < effect_rank (effect o) ->
      decided c ap path caller (effect o, Some (rule_id o), rule_path o).

Lemma unique_ids l : NoDup (map rule_id l) -> forall x y, x ∈ l -> y ∈ l -> rule_id x = rule_id y -> x = y.
Proof.
  intros Hnd x y Hx Hy E. apply list_elem_of_lookup in Hx as [i Hi]. apply list_elem_of_lookup in Hy as [j Hj].
  assert (i = j) as ->; [|congruence].
  apply (NoDup_lookup _ i j (rule_id x) Hnd); rewrite list_lookup_fmap; [by rewrite Hi|by rewrite Hj, E].
Qed.
Lemma wins_one l ap r r' : NoDup (map rule_id l) -> wins l ap r -> wins l ap r' -> r = r'.
Proof. intros Hnd. apply wins_unique; [done|by apply unique_ids]. Qed.
Lemma decided_unique c ap path caller d d' :
  NoDup (map rule_id (rules c)) -> NoDup (map rule_id (overrides_of c caller)) ->
  decided c ap path caller d -> decided c ap path caller d' -> d = d'.
Proof.
  intros Hn1 Hn2 Hd Hd'.
  assert (Hnone : forall r, (forall x, x ∈ rules c -> ap x = false) -> ~ wins (rules c) ap r).
  { intros r Hno (Hr & Ha & _). by rewrite Hno in Ha. }
  destruct Hd as [Hno|r Hw Ho|r o Hw Hwo Hr], Hd' as [Hno'|r' Hw' Ho'|r' o' Hw' Hwo' Hr']; try done;
    try (by destruct (Hnone _ Hno Hw')); try (by destruct (Hnone _ Hno' Hw)); rewrite (wins_one _ _ _ _ Hn1 Hw' Hw) in *.
  - done.
  - specialize (Ho _ Hwo'). lia.
  - specialize (Ho' _ Hwo). lia.
  - by rewrite (wins_one _ _ _ _ Hn2 Hwo' Hwo).
Qed.
Lemma decide_decided c method class path caller :
  NoDup (map rule_id (overrides_of c caller)) ->
  decided c (applies c method class path) path caller (decide_request c method class path caller).
Proof.
  intros Hn. unfold decide_request. rewrite choose_override.
  destruct (choose (rules c) c method class path) as [[[e id] p]|] eqn:E; [|by apply decided_default, choose_none].
  apply choose_wins in E as (r & Hw & -> & -> & ->).
  destruct (choose (overrides_of c caller) c method class path) as [[[e' id'] p']|] eqn:E'.
  - apply choose_wins in E' as (o & Ho & -> & -> & ->). destruct (Z.ltb_spec (effect_rank (effect r)) (effect_rank (effect o))).
    + by eapply decided_override.
    + apply decided_base; [done|]. intros o' Ho'. by rewrite (wins_one _ _ _ _ Hn Ho' Ho).
  - apply decided_base; [done|]. intros o (Ho & Ha & _). rewrite choose_none in E'. by rewrite E' in Ha.
Qed.

(** C36: [decide] answers as [decided] says and nothing else, when rule ids are unique in
    each list, as validation demands: an override that is stricter than the winning
    rule always wins. So a caller's applicable override that denies makes it a denial,
    whatever the connection's rules allow. *)
Theorem decision_exact c method class path caller :
  NoDup (map rule_id (rules c)) -> NoDup (map rule_id (overrides_of c caller)) ->
  (forall d, decided c (applies c method class path) path caller d <-> decide_request c method class path caller = d) /\
  (forall o, o ∈ overrides_of c caller -> applies c method class path o = true -> effect o = Deny ->
   (decide_request c method class path caller).1.1 = Deny).
Proof.
  intros Hn1 Hn2. pose proof (decide_decided c method class path caller Hn2) as Hd. split.
  - intros d. split; [|by intros <-]. intros Hd'. by eapply decided_unique.
  - intros o Ho Ha He. destruct Hd as [|r Hw Hmax|r o' Hw Hwo Hr]; [done|cbn..].
    + destruct (applies_choose _ _ _ _ _ _ Ho Ha) as (e & id & p & E). apply choose_wins in E as (w & Hwin & _).
      pose proof (Hmax _ Hwin) as Hle. assert (effect w = Deny) as Ew.
      { destruct Hwin as (_ & _ & [[]|[_ Hc]]); [done|]. by destruct (Hc o Ho Ha). }
      rewrite Ew in Hle. by destruct (effect r); cbn in Hle; lia || done.
    + destruct Hwo as (_ & _ & [[]|[_ Hc]]); [done|]. by destruct (Hc o Ho Ha).
Qed.

(** a deny rule is absolute: whenever a denying rule of the connection applies,
    the request is denied, however specific any allowing rule is and whoever the
    caller. *)
Theorem deny_is_absolute c method class path caller r :
  r ∈ rules c -> applies c method class path r = true -> effect r = Deny ->
  exists id p, decide_request c method class path caller = (Deny, Some id, p).
Proof.
  intros Hr Ha Hd. destruct (applies_choose _ _ _ _ _ _ Hr Ha) as (e & id & p & E).
  unfold decide_request. rewrite E.
  apply choose_wins in E as (w & (Hw & Haw & Hc) & -> & -> & ->).
  assert (effect w = Deny) as ->.
  { destruct Hc as [[]|[_ Hc]]; [done|]. by destruct (Hc r Hr Ha). }
  rewrite choose_override.
  destruct (choose (overrides_of _ _) _ _ _ _) as [[[e' id'] p']|]; [|eauto].
  destruct e'; cbn; eauto.
Qed.

Definition without_overrides (c : Connection) : Connection :=
  mkConnection (conn_name c) (preset c) (credential_id c) (origin c) (auth c) (enabled c) (grade c)
    (rules c) (bindings c) [] (limits c) (conn_allowed_headers c) (fixed_headers c)
    (allowed_response_headers c) (query_allowlist c) (operations c) (llm c) (oauth c).

(** a caller's overrides never relax a decision: the effect with them is at
    least as strict as the effect without them, for every caller and request. *)
Theorem overrides_only_stricter c method class path caller :
  effect_rank (decide_request (without_overrides c) method class path caller).1.1 <=
  effect_rank (decide_request c method class path caller).1.1.
Proof.
  unfold decide_request. cbn [caller_overrides without_overrides map_get find_map].
  assert (Hc : forall l, choose l (without_overrides c) method class path
                         = choose l c method class path) by done.
  rewrite Hc. cbn [rules without_overrides].
  destruct (choose (rules c) c method class path) as [[[e id] p]|];
    destruct (map_get caller (caller_overrides c)) as [l|]; try done;
    destruct (choose l c method class path) as [[[e' id'] p']|]; try done.
  destruct (_ <? _) eqn:E; [|done]. reflect_bools. cbn. lia.
Qed.

(** The same connection with its rules in another order. *)
Definition with_rules_of (c : Connection) (l : list ConnectionRule) : Connection :=
  mkConnection (conn_name c) (preset c) (credential_id c) (origin c) (auth c) (enabled c) (grade c)
    l (bindings c) (caller_overrides c) (limits c) (conn_allowed_headers c) (fixed_headers c)
    (allowed_response_headers c) (query_allowlist c) (operations c) (llm c) (oauth c).

(** the order in which a connection lists its rules has no effect: with unique
    rule ids, any permutation of them decides every request the same way. *)
Theorem decision_order_independent c l method class path caller :
  l ≡ₚ rules c -> NoDup (map rule_id (rules c)) ->
  decide_request (with_rules_of c l) method class path caller
  = decide_request c method class path caller.
Proof.
  intros Hp Hnd.
  assert (Heq : choose l (with_rules_of c l) method class path
                = choose (rules c) c method class path).
  { change (choose l c method class path = choose (rules c) c method class path).
    assert (Hin : forall x, x ∈ l <-> x ∈ rules c) by (intros x; by rewrite Hp).
    assert (Hid : forall x y, x ∈ l -> y ∈ l -> rule_id x = rule_id y -> x = y).
    { intros x y Hx%Hin Hy%Hin. by apply (unique_ids (rules c)). }
    destruct (choose (rules c) c method class path) as [[[e id] p]|] eqn:E2.
    - destruct (choose l c method class path) as [[[e' id'] p']|] eqn:E1.
      + apply choose_wins in E1 as (r1 & W1 & -> & -> & ->).
        apply choose_wins in E2 as (r2 & W2 & -> & -> & ->).
        by rewrite (wins_unique _ _ _ _ _ Hin Hid W1 W2).
      + rewrite choose_none in E1. apply choose_wins in E2 as (r2 & (Hr & Ha & _) & _).
        rewrite E1 in Ha; [done|]. by apply Hin.
    - apply choose_none. rewrite choose_none in E2. intros r Hr. by apply E2, Hin. }
  unfold decide_request. cbn [rules with_rules_of caller_overrides] in *. by rewrite Heq.
Qed.

(** ** Path patterns *)

(** What a pattern's segments match. *)
Inductive Matches (bs : list (string * list string)) : list string -> list string -> Prop :=
  | m_end : Matches bs [] []
  | m_rest ps vs : Matches bs ("**" :: ps) vs
  | m_any ps v vs : Matches bs ps vs -> Matches bs ("*" :: ps) (v :: vs)
  | m_named name choices p ps v vs :
      named p = Some name -> map_get name bs = Some choices -> ("*" ∈ choices \/ v ∈ choices) ->
      Matches bs ps vs -> Matches bs (p :: ps) (v :: vs)
  | m_literal p ps vs :
      p <> "*" -> p <> "**" -> named p = None -> Matches bs ps vs -> Matches bs (p :: ps) (p :: vs).

(** path matching is the documented relation: a literal segment matches
    itself, [*] any one segment, [{name}] a value its binding lists (or any if it
    lists [*]), [**] every remaining segment, and a pattern without [**] matches
    only paths of its own length. *)
Theorem pattern_matches_spec pattern path bs :
  pattern_matches pattern path bs = true <-> Matches bs (path_parts pattern) (path_parts path).
Proof.
  unfold pattern_matches. generalize (path_parts pattern) (path_parts path). intros ps.
  assert (Hn1 : named "*" = None) by done. assert (Hn2 : named "**" = None) by done.
  induction ps as [|p ps IH]; intros vs; cbn [segments_match].
  - destruct vs; split; try done; [constructor|by inversion 1].
  - unfold str_eqb at 1. case_bool_decide as H1; [subst; split; [constructor|done]|].
    destruct vs as [|v vs]; [split; [done|by inversion 1]|].
    unfold str_eqb at 1. case_bool_decide as H2.
    + subst. rewrite IH. split; [by constructor|]. inversion 1; subst; congruence.
    + destruct (named p) as [name|] eqn:En.
      * destruct (map_get name bs) as [choices|] eqn:Eb; [destruct (existsb _ choices) eqn:Ee|].
        -- rewrite IH. apply existsb_elem in Ee as (x & Hx & Hc). unfold str_eqb in Hc.
           apply orb_true_iff in Hc. split; [|inversion 1; subst; congruence].
           intros Hm. eapply m_named; eauto. destruct Hc; reflect_bools; subst; auto.
        -- rewrite existsb_false_elem in Ee. split; [done|]. inversion 1; subst; try congruence.
           simplify_eq. exfalso. unfold str_eqb in Ee.
           match goal with H : _ \/ _ |- _ => destruct H as [H|H]; specialize (Ee _ H) end;
             reflect_bools; congruence.
        -- split; [done|]. inversion 1; subst; congruence.
      * unfold str_eqb. case_bool_decide as H3.
        -- subst. rewrite IH. split; [by constructor|]. inversion 1; subst; congruence.
        -- split; [done|]. inversion 1; subst; congruence.
Qed.

(** ** Request paths *)

Lemma slug_bytes_no c s :
  is_slug_byte c = false -> str_all is_slug_byte s = true -> str_contains c s = false.
Proof. apply str_contains_slug. Qed.

Definition is_path_byte (b : ascii) : bool := is_slug_byte b || bool_decide (b = "/"%char).

Lemma path_byte_fact (q : ascii -> bool) s :
  (forall c, is_path_byte c = true -> q c = true) -> str_all is_path_byte s = true ->
  str_all q s = true.
Proof. apply str_all_impl. Qed.

Definition not_percent (c : ascii) : bool := negb (bool_decide (c = "%"%char)).

Lemma path_bytes_no_percent s a b q :
  str_all is_path_byte s = true -> to_ascii_lowercase s <> a +:+ (String "%" q +:+ b).
Proof.
  intros Hs E. assert (H : str_all not_percent (to_ascii_lowercase s) = true).
  { clear E. induction s as [|c s IH]; [done|]. cbn in *. apply andb_true_iff in Hs as [Hc Hs].
    rewrite IH by done. rewrite andb_true_r.
    pose proof (all_bytes (fun c => implb (is_path_byte c) (not_percent (ascii_lower c)))
      ltac:(vm_compute; reflexivity) c) as E. cbv beta in E. by rewrite Hc in E. }
  rewrite E, str_all_app in H. apply andb_true_iff in H as [_ H]. by cbn in H.
Qed.

(** a request path that passes the trusted-boundary grammar also passes the
    exact-path grammar unchanged, so routing and the request that is sent agree
    on it: it has no dot, empty or escaped segment to normalise differently. *)
Theorem request_path_is_exact path :
  validate_request_path path = Ok tt -> ExactPath_parse path = Ok path.
Proof.
  unfold validate_request_path. intros H. walk H.
  match goal with E : _ && existsb _ _ = false |- _ => rename E into Hseg end.
  destruct path as [|c r]; [done|].
  match goal with E : starts_with _ _ = true |- _ => cbn in E end. reflect_bools. subst c.
  assert (Hsegs : forall s, s ∈ split_on "/" r -> str_all is_slug_byte s = true /\ s <> "." /\ s <> "..").
  { intros s Hs. unfold str_eqb in Hseg. case_bool_decide as Hr.
    - simplify_eq. cbn in Hs. apply list_elem_of_singleton in Hs. by subst.
    - cbn in Hseg. rewrite existsb_false_elem in Hseg. specialize (Hseg s Hs).
      apply negb_false_iff in Hseg. split; [by eapply slug_safe|].
      by destruct (slug_not_dots _ _ Hseg) as (? & ? & ?). }
  assert (Hbytes : str_all is_path_byte (String "/" r) = true).
  { cbn. rewrite <- (join_split_on "/" r). apply join_all; [done|].
    rewrite Forall_forall. intros s Hs. destruct (Hsegs s Hs) as [H' _].
    eapply str_all_impl; [|exact H']. intros b Hb. unfold is_path_byte. by rewrite Hb. }
  apply exact_path_iff. split_and!; try done; eauto.
  - assert (Hc : forall c, is_path_byte c = false -> str_contains c (String "/" r) = false).
    { intros c Hc. unfold str_contains, str_any. apply negb_false_iff.
      eapply str_all_impl; [|exact Hbytes]. intros a Ha. apply negb_true_iff, bool_decide_eq_false.
      intros ->. congruence. }
    repeat constructor; by apply Hc.
  - rewrite chars_ascii.
    + rewrite Forall_fmap. apply str_all_spec in Hbytes. eapply Forall_impl; [exact Hbytes|].
      intros c Hc. cbn in *.
      pose proof (all_bytes (fun c => implb (is_path_byte c)
        (negb (is_control (byte_of c)) && negb (byte_of c =? 32))) ltac:(vm_compute; reflexivity) c) as E.
      cbv beta in E. rewrite Hc in E. cbn in E. by reflect_bools.
    + eapply str_all_impl; [|exact Hbytes]. intros c Hc.
      pose proof (all_bytes (fun c => implb (is_path_byte c) (is_ascii_byte c))
        ltac:(vm_compute; reflexivity) c) as E. cbv beta in E. by rewrite Hc in E.
  - cbn. intros [?|Hin]%elem_of_cons; [done|]. by destruct (Hsegs _ Hin) as (_ & _ & ?).
  - cbn. intros [?|Hin]%elem_of_cons; [done|]. by destruct (Hsegs _ Hin) as (_ & ? & _).
  - intros a b. by apply path_bytes_no_percent.
  - intros a b. by apply path_bytes_no_percent.
  - intros a b. by apply path_bytes_no_percent.
Qed.

Lemma request_path_is_exact_witness : ExactPath_parse "/v1/repos/a.b" = Ok "/v1/repos/a.b".
Proof. apply (request_path_is_exact "/v1/repos/a.b"). vm_compute. reflexivity. Defined.

(** ** Validated connections *)

Lemma check_rules_ok c seen l :
  check_rules c seen l = Ok tt ->
  NoDup (map rule_id l) /\ (forall r, r ∈ l -> rule_id r ∉ seen) /\
  forall r, r ∈ l -> validate_path_pattern (rule_path r) = Ok tt /\ methods_invalid (methods r) = false /\
    (is_mtls (auth c) = true -> str_contains "*" (rule_path r) = false /\
                                str_contains "{" (rule_path r) = false) /\
    (forall s name, s ∈ split_on "/" (rule_path r) -> named s = Some name ->
                    contains_key name (bindings c) = true).
Proof.
  revert seen. induction l as [|r l IH]; intros seen; cbn [check_rules].
  - intros _. split; [constructor|]. split; intros r Hr; by apply elem_of_nil in Hr.
  - destruct (validate_path_pattern (rule_path r)) as [[]|] eqn:Ep; [|done].
    cbn [mbind result_bind]. destruct (is_mtls (auth c) && _) eqn:Em; [done|].
    destruct (bool_decide _) eqn:Eb; [done|]. destruct (methods_invalid _) eqn:Emt; [done|].
    destruct (existsb _ _) eqn:En; [done|]. intros (N & Hs & Hr)%IH. reflect_bools.
    rewrite existsb_false_elem in En. split_and!.
    + constructor; [|done]. intros (x & Hx & Hin)%list_elem_of_fmap. apply (Hs x Hin).
      rewrite <- Hx. left.
    + intros x [->|Hx]%elem_of_cons; [done|]. intros Hin. apply (Hs x Hx). by right.
    + intros x [->|Hx]%elem_of_cons; [|by apply Hr]. split_and!; try done.
      * intros Hm. rewrite Hm in Em. cbn [andb] in Em. by reflect_bools.
      * intros s name Hin Hname. specialize (En s Hin). cbv beta in En. rewrite Hname in En.
        by reflect_bools.
Qed.

Lemma protected_header_false c h :
  protected_header c h = false ->
  is_forbidden h = false /\ h <> "authorization" /\ h <> "x-api-key" /\
  forall a, auth_header (auth c) = Some a -> h <> header_name a.
Proof.
  unfold protected_header, str_eqb. intros H. reflect_bools. split_and!; try done.
  intros a Ha. rewrite Ha in *. by reflect_bools.
Qed.

(** What [Connection::validate] promises to the request path. *)
Record connection_ok (c : Connection) : Prop := {
  ok_rule_ids : NoDup (map rule_id (all_rules c));
  ok_rules : forall r, r ∈ all_rules c -> validate_path_pattern (rule_path r) = Ok tt;
  ok_bound : forall r s name, r ∈ all_rules c -> s ∈ split_on "/" (rule_path r) ->
    named s = Some name -> contains_key name (bindings c) = true;
  ok_mtls : auth c = AuthMtls -> grade c = T0 /\ oauth c = None /\ llm c = None /\
    forall r, r ∈ all_rules c -> str_contains "*" (rule_path r) = false /\
                                 str_contains "{" (rule_path r) = false;
  ok_caller_headers : forall h, h ∈ conn_allowed_headers c ++ map fst (fixed_headers c) ->
    is_forbidden h = false /\ h <> "authorization" /\ h <> "x-api-key" /\
    forall a, auth_header (auth c) = Some a -> h <> header_name a;
  ok_fixed_headers : forall k v, (k, v) ∈ fixed_headers c -> k ∉ conn_allowed_headers c;
  ok_response_headers : forall h, h ∈ allowed_response_headers c ->
    is_forbidden h = false /\ h <> "authorization" /\ h <> "www-authenticate";
  ok_limits : requests_per_hour (limits c) <> 0;
  ok_request : max_request_bytes (limits c) <> 0 /\ max_request_bytes (limits c) <= REQUEST_BODY_HARD_MAX;
  ok_response : max_response_bytes (limits c) <> 0 /\ max_response_bytes (limits c) <= RESPONSE_BODY_HARD_MAX;
  ok_llm : is_llm_preset (preset c) = true -> is_Some (llm c);
  ok_slot : forall a, auth_header (auth c) = Some a -> is_forbidden (header_name a) = false;
}.

(** C40: a validated connection is safe to route by: rule ids are unique over its
    rules and all overrides, every pattern is well formed and its named segments
    are bound, the credential header is not a forbidden one and neither it nor an
    authorization header can come from the caller, fixed headers are not caller
    headers, responses never return authentication headers, sizes are within the
    hard limits, LLM presets carry limits, and mTLS has only fixed paths. *)
Theorem connection_validate_sound c : connection_validate c = Ok tt -> connection_ok c.
Proof.
  unfold connection_validate. intros H.
  destruct (_ || (4194304 <? _)) eqn:E1; [done|].
  destruct (is_llm_preset _ && _) eqn:E2; [done|]. destruct (negb (check_oauth c)); [done|].
  destruct (match auth_header (auth c) with Some _ => _ | None => _ end) as [[]|] eqn:E3; [|done].
  cbn [mbind result_bind] in H.
  destruct (check_rules c [] (all_rules c)) as [[]|] eqn:E4; [|done]. cbn [mbind result_bind] in H.
  destruct (existsb _ (bindings c)); [done|]. destruct (existsb _ (caller_overrides c)); [done|].
  destruct (existsb (protected_header c) _) eqn:E5; [done|].
  destruct (existsb _ (fixed_headers c)) eqn:E6; [done|].
  destruct (match query_allowlist c with Some _ => _ | None => _ end); [done|].
  destruct (response_policy_validate _) as [[]|] eqn:E7; [|done]. clear H.
  apply check_rules_ok in E4 as (N & _ & Hr). rewrite existsb_false_elem in E5. rewrite existsb_false_elem in E6.
  unfold response_policy_validate in E7. cbn in E7.
  destruct (_ || _) in E7; [done|]. destruct (existsb _ _) eqn:E8 in E7; [done|].
  rewrite existsb_false_elem in E8. reflect_bools.
  split; try done; try (unfold REQUEST_BODY_HARD_MAX, RESPONSE_BODY_HARD_MAX; lia).
  - intros r Hin. by apply Hr.
  - intros r s name Hin. destruct (Hr r Hin) as (_ & _ & _ & Hb). apply Hb.
  - intros Hm. rewrite Hm in E3. cbn in E3. walk E3. split_and!; try done.
    1,2: by apply eq_None_not_Some.
    intros r Hin. destruct (Hr r Hin) as (_ & _ & Hmt & _). apply Hmt. by rewrite Hm.
  - intros h Hh. by apply protected_header_false, E5.
  - intros k v Hin. specialize (E6 (k, v) Hin). cbn in E6. by reflect_bools.
  - intros h Hh. specialize (E8 h Hh). unfold str_eqb in E8. by reflect_bools.
  - intros Hp. rewrite Hp in E2. cbn in E2. by reflect_bools.
  - intros a Ha. rewrite Ha in E3. unfold HeaderCredentialUse_new in E3.
    by destruct (is_forbidden (header_name a)).
Qed.

End WithSerde.

(** ** Witnesses *)

#[local] Existing Instance model_serde.

Definition demo_connection : Connection :=
  mkConnection "github" "github-pat" 5 "https://api.github.com"
    (AuthHeader (mkHeaderCredentialUse "authorization" "Bearer ")) true T0
    [mkConnectionRule 1 (Class Read) "/**" Allow;
     mkConnectionRule 2 (Methods [Post]) "/repos/{owner}/*/issues" Approve;
     mkConnectionRule 3 (Class Read) "/user/keys" Deny]
    [("owner", ["acme"])] [("agent", [mkConnectionRule 4 (Class Read) "/repos/**" Approve])]
    (mkConnectionLimits 600 1048576 4194304) ["accept"] [("x-github-api-version", "2022-11-28")]
    ["content-type"] None [] None None.

(** A rule allows the request, the caller's override asks for an approval; a rule that
    denies is not lifted by it. *)
Lemma decision_exact_witness :
  decided demo_connection (applies demo_connection Get Read "/repos/a/b") "/repos/a/b" "agent" (Approve, Some 4, "/repos/**") /\
  decided demo_connection (applies demo_connection Get Read "/repos/a/b") "/repos/a/b" "other" (Allow, Some 1, "/**") /\
  decided demo_connection (applies demo_connection Get Read "/user/keys") "/user/keys" "agent" (Deny, Some 3, "/user/keys").
Proof.
  assert (Hn : forall l : list ConnectionRule, bool_decide (NoDup (map rule_id l)) = true -> NoDup (map rule_id l))
    by (intros l; apply bool_decide_eq_true_1).
  assert (N1 := Hn (rules demo_connection) eq_refl).
  split_and!; eapply decision_exact; try exact N1; try (apply Hn; vm_compute; reflexivity); vm_compute; reflexivity.
Defined.

Lemma connection_validate_sound_witness :
  connection_validate demo_connection = Ok tt /\ connection_ok demo_connection.
Proof.
  assert (H : connection_validate demo_connection = Ok tt) by (vm_compute; reflexivity).
  split; [exact H|]. by apply connection_validate_sound.
Defined.

Lemma deny_is_absolute_witness :
  exists id p, decide_request demo_connection Get Read "/user/keys" "agent" = (Deny, Some id, p).
Proof.
  apply (deny_is_absolute demo_connection Get Read "/user/keys" "agent"
           (mkConnectionRule 3 (Class Read) "/user/keys" Deny)).
  - cbn. right. right. left.
  - vm_compute. reflexivity.
  - reflexivity.
Defined.

Lemma decision_order_independent_witness :
  decide_request (with_rules_of demo_connection (rev (rules demo_connection))) Get Read
    "/repos/a/b" "agent"
  = decide_request demo_connection Get Read "/repos/a/b" "agent" /\
  decide_request demo_connection Get Read "/repos/a/b" "agent" = (Approve, Some 4, "/repos/**").
Proof.
  split; [|vm_compute; reflexivity]. apply (decision_order_independent demo_connection).
  - symmetry. apply Permutation_rev.
  - apply (bool_decide_unpack _). vm_compute. exact I.
Defined.
