(* ===== verification/Connections.v ===== *)
(** * Connections: authorisation of one direct call

    [rekey-policy/src/connections.rs] around the rule decision of [Routing]:
    [normalize_call], which turns a named operation and its arguments into a
    request, [normalize_llm], [graphql_read] and [evaluate_connection]; the OAuth
    scope table and [chat_max_tokens_only] of [presets.rs]; [CallMeta] of
    [rekey-domain/src/ipc.rs]. An outer [None] is a panic (slicing an operation's
    path), which validated connections exclude. The GraphQL parser is a
    parameter. *)

From S2P Require Import Prelude Strings Bytes Errors Domain Codec Policy Action FixedAction Template Decimal Json Llm Parameters Routing.

Record CallMeta := mkCallMeta {
  call_connection : string;
  call_method : option FixedMethod;
  call_path : option string;
  call_query : list (string * string);
  call_meta_headers : list (string * string);
  call_dry_run : bool;
  call_approval_request_id : option ApprovalRequestId;
  call_operation : option string;
  call_args : list (string * string);
}.

(** ** GraphQL (graphql-parser) *)

Inductive GraphqlDefinition : Type :=
  | OperationQuery (name : option string)
  | OperationSelectionSet
  | Fragment
  | OtherOperation.
Class Graphql := { parse_query : string -> option (list GraphqlDefinition) }.

(** ** Tables of presets.rs *)

(** [oauth_required_scopes]. *)
Definition oauth_required_scopes (preset operation : string) : result PolicyError (list string) :=
  let on := fun p ops => str_eqb preset p && bool_decide (operation ∈ ops) in
  if on "google-drive" ["drive.list_files"; "drive.get_file"]
  then Ok ["https://www.googleapis.com/auth/drive.readonly"]
  else if on "google-drive" ["drive.create_file"; "drive.update_file"]
  then Ok ["https://www.googleapis.com/auth/drive.file"]
  else if on "google-gmail" ["gmail.list_messages"; "gmail.get_message"]
  then Ok ["https://www.googleapis.com/auth/gmail.readonly"]
  else if on "google-gmail" ["gmail.send_message"]
  then Ok ["https://www.googleapis.com/auth/gmail.send"]
  else if on "google-calendar" ["calendar.list_events"; "calendar.get_event"]
  then Ok ["https://www.googleapis.com/auth/calendar.events.owned.readonly"]
  else if on "google-calendar" ["calendar.create_event"; "calendar.update_event"]
  then Ok ["https://www.googleapis.com/auth/calendar.events.owned"]
  else if on "github-oauth" ["github.get_issue"; "github.list_issues"; "github.create_issue";
                             "github.create_comment"; "github.merge_pull"]
  then Ok ["repo"]
  else if on "slack" ["slack.list_channels"] then Ok ["channels:read"]
  else if on "slack" ["slack.history"] then Ok ["channels:history"]
  else if on "slack" ["slack.post_message"] then Ok ["chat:write"]
  else if on "notion" ["notion.search"; "notion.get_page"; "notion.get_children"]
  then Ok ["read_content"]
  else if on "notion" ["notion.create_page"] then Ok ["insert_content"]
  else if on "notion" ["notion.update_page"] then Ok ["update_content"]
  else Err NotConfigured.

Definition chat_max_tokens_only (preset : string) : bool :=
  bool_decide (preset ∈ ["deepseek"; "gemini"]).

Section WithLibraries.
Context {CC : Codecs} {SJ : Serde} {GQ : Graphql}.

Abbreviation Value := (JValue Number).
Abbreviation Object := (list (string * Value)).

(** ** [normalize_call] *)

(** [v[1..]], which panics off a character boundary. *)
Definition slice_from_1 (s : string) : option string :=
  match s with
  | String c r => if byte_of c <? 128 then Some r else None
  | EmptyString => None
  end.

Definition TYPED : list string := ["integer"; "number"; "boolean"; "object"; "array"].
Definition typed_argument (operation : PresetOperation) (key value : string)
  : result PolicyError Value :=
  schema ← ok_or InvalidParameters
    (properties ← value_get "properties" (parameters operation); value_get key properties);
  match (t ← value_get "type" schema; value_as_str t) with
  | Some t =>
      if bool_decide (t ∈ TYPED) then
        _ ← ensure_json_number_fidelity canonical_number (bytes_of value);
        map_err (fun _ => InvalidParameters) (parse_unique_json (bytes_of value))
      else Ok (VString value)
  | None => Ok (VString value)
  end.
Fixpoint typed_arguments (operation : PresetOperation) (args : Object) (l : list (string * string))
  : result PolicyError Object :=
  match l with
  | [] => Ok args
  | (key, value) :: rest =>
      v ← typed_argument operation key value;
      typed_arguments operation (map_insert key v args) rest
  end.

Definition map_remove {A} (k : string) (l : list (string * A)) : list (string * A) :=
  List.filter (fun kv => negb (str_eqb kv.1 k)) l.
Definition path_value (v : Value) : result PolicyError string :=
  match v with
  | VString s => Ok s
  | VNumber n => Ok (number_to_string n)
  | _ => Err InvalidParameters
  end.
(** The loop over the segments of the operation's path. *)
Fixpoint fill_path (args : Object) (l : list string) : result PolicyError (list string * Object) :=
  match l with
  | [] => Ok ([], args)
  | part :: rest =>
      '(value, args) ← match named part with
        | Some key =>
            v ← ok_or InvalidParameters (map_get key args);
            value ← path_value v;
            reject_if negb (slug value 100) with InvalidParameters ;;
            Ok (value, map_remove key args)
        | None => Ok (part, args)
        end;
      '(parts, args) ← fill_path args rest;
      Ok (value :: parts, args)
  end.

(** The caller's body merged into the remaining arguments. *)
Fixpoint merge_entries (args l : Object) : result PolicyError Object :=
  match l with
  | [] => Ok args
  | (key, value) :: rest =>
      args ← ok_or InvalidParameters (insert_entry key value args);
      merge_entries args rest
  end.
Definition operation_body (operation : PresetOperation) (args : Object) (body : list Z)
  : result PolicyError (list Z) :=
  if bool_decide (args = []) then Ok body
  else
    reject_if bool_decide (op_method operation ∈ [Get; Head]) with InvalidParameters ;;
    args ← (if bool_decide (body = []) then Ok args
      else
        _ ← ensure_json_number_fidelity canonical_number body;
        existing ← map_err (fun _ => InvalidParameters) (parse_unique_json body);
        match existing with
        | VObject l => merge_entries args l
        | _ => Err InvalidParameters
        end);
    ok_or InvalidParameters (jcs (VObject args)).

(** The arguments of a declared operation under its schema, and the request they
    make, given the operation's path after the slash. *)
Definition named_arguments (operation : PresetOperation) (request : CallMeta)
  : result PolicyError Object :=
  args ← typed_arguments operation [] (call_args request);
  reject_if negb (declared_schema_builds (parameters operation)) with PolicyInvalid ;;
  reject_if negb (declared_schema_valid (parameters operation) (VObject args))
    with InvalidParameters ;;
  Ok args.
Definition named_request (operation : PresetOperation) (args : Object) (body : list Z)
    (tail : string) : result PolicyError (FixedMethod * string * list Z) :=
  '(parts, args) ← fill_path args (split_on "/" tail);
  let path := if str_eqb (op_path operation) "/" then "/" else String "/" (join "/" parts) in
  output ← operation_body operation args body;
  Ok (op_method operation, path, output).

(** [find] by name. *)
Definition find_operation (c : Connection) (name : string) : option PresetOperation :=
  find_first (fun o => str_eqb (op_name o) name) (operations c).

Definition normalize_call (c : Connection) (request : CallMeta) (body : list Z)
  : option (result PolicyError (FixedMethod * string * list Z * option string)) :=
  match call_operation request with
  | None =>
      Some (
        reject_if negb (bool_decide (call_args request = [])) with InvalidParameters ;;
        method ← ok_or InvalidParameters (call_method request);
        path ← ok_or InvalidParameters (call_path request);
        Ok (method, path, body, None))
  | Some name =>
      if bool_decide (is_Some (call_method request)) || bool_decide (is_Some (call_path request))
      then Some (Err InvalidParameters)
      else match find_operation c name with
      | None => Some (Err NotConfigured)
      | Some operation =>
          match named_arguments operation request with
          | Err e => Some (Err e)
          | Ok args =>
              match slice_from_1 (op_path operation) with
              | None => None
              | Some tail =>
                  Some ('(method, path, output) ← named_request operation args body tail;
                        Ok (method, path, output, Some name))
              end
          end
      end
  end.

(** ** [normalize_llm] *)

Definition llm_adapter (c : Connection) (l : ConnectionLlmLimits) : ProfileLlmLimit :=
  mkProfileLlmLimit (conn_name c) (Routing.models l) (max_tokens l)
    (Routing.max_requests_per_day l) (Routing.max_output_tokens_per_day l).

(** The model, the maximum, the stream flag and the body to send. *)
Definition normalize_llm (c : Connection) (path : string) (method : FixedMethod) (body : list Z)
  : result PolicyError (option string * option Z * bool * list Z) :=
  match llm c with
  | None => Ok (None, None, false, body)
  | Some limits =>
      if negb (bool_decide (method = Post)) then Ok (None, None, false, body)
      else match connection_llm_protocol path with
      | None | Some Models => Ok (None, None, false, body)
      | Some protocol =>
          _ ← ensure_json_number_fidelity canonical_number body;
          value ← map_err (fun _ => InvalidParameters) (parse_unique_json body);
          '(normalized, _) ← normalize_profile_llm_body protocol (llm_adapter c limits) body
            value (chat_max_tokens_only (preset c));
          Ok (pb_model normalized, pb_maximum normalized, pb_streaming normalized,
              pb_bytes normalized)
      end
  end.

(** ** [graphql_read] *)

Fixpoint query_names (l : list GraphqlDefinition) : option (list (option string)) :=
  match l with
  | [] => Some []
  | OperationQuery name :: rest => names ← query_names rest; Some (name :: names)
  | OperationSelectionSet :: rest => names ← query_names rest; Some (None :: names)
  | Fragment :: rest => query_names rest
  | OtherOperation :: _ => None
  end.
Definition graphql_read (body : list Z) : bool :=
  match parse_unique_json body with
  | Err _ => false
  | Ok value =>
      match (q ← value_get "query" value; value_as_str q) with
      | None => false
      | Some query =>
          match (document ← parse_query query; query_names document) with
          | None => false
          | Some names =>
              let queries := llen names in
              (0 <? queries)
              && match (o ← value_get "operationName" value; value_as_str o) with
                 | None => queries =? 1
                 | Some name =>
                     llen (List.filter (fun n => bool_decide (n = Some name)) names) =? 1
                 end
          end
      end
  end.

(** ** [evaluate_connection] *)

Record ConnectionAuthorization := mkConnectionAuthorization {
  ca_connection : Connection;
  ca_action : FixedHttpAction;
  ca_target : RenderedTarget;
  ca_parameters : CanonicalParameters;
  ca_resource : ResourceRef;
  ca_effect : Effect;
  ca_rule_id : option PolicyRuleId;
  ca_method_class : MethodClass;
  ca_normalized_path : string;
  ca_request_body : list Z;
  ca_headers : list (string * string);
  ca_operation : option string;
  ca_model : option string;
  ca_generation_max_output : option Z;
  ca_streaming : bool;
}.

(** The candidates of a request. *)
Definition matches_request (request : CallMeta) (c : Connection) : bool :=
  enabled c
  && (is_empty_str (call_connection request) || str_eqb (conn_name c) (call_connection request))
  && match call_operation request with
     | None => true
     | Some name => existsb (fun o => str_eqb (op_name o) name) (operations c)
     end.
Definition select_connection (connections : list Connection) (request : CallMeta)
  : result PolicyError Connection :=
  match List.filter (matches_request request) connections with
  | [] => Err NotConfigured
  | [c] => Ok c
  | _ => Err InvalidParameters
  end.

Definition check_scopes (c : Connection) (method : FixedMethod) (path : string)
  : result PolicyError unit :=
  match oauth c with
  | None => Ok tt
  | Some binding =>
      declared ← ok_or NotConfigured
        (find_first (fun op => bool_decide (op_method op = method)
                               && operation_path_matches (op_path op) path) (operations c));
      required ← oauth_required_scopes (preset c) (op_name declared);
      reject_if negb (forallb (fun s => bool_decide (s ∈ scopes binding)) required)
        with NotConfigured ;;
      Ok tt
  end.

Definition query_refused (c : Connection) (query : list (string * string)) : bool :=
  existsb (fun kv => negb (query_key_valid kv.1) || (1024 <? slen kv.2)
    || match query_allowlist c with
       | Some allowed => negb (bool_decide (kv.1 ∈ allowed))
       | None => false
       end) query.

(** The loop over the caller's headers: names seen and the map built. *)
Fixpoint request_headers (c : Connection) (names : list string) (headers l : list (string * string))
  : result PolicyError (list (string * string)) :=
  match l with
  | [] => Ok headers
  | (raw, value) :: rest =>
      name ← map_err (fun _ => InvalidParameters) (HeaderName_new raw);
      reject_if negb (bool_decide (name ∈ conn_allowed_headers c)) || bool_decide (name ∈ names)
                || (8192 <? slen value)
                || negb (str_all (fun b => (byte_of b =? 9) || in_range 32 126 b) value)
        with InvalidParameters ;;
      request_headers c (name :: names) (map_insert name value headers) rest
  end.
Definition extend_map {A} (m l : list (string * A)) : list (string * A) :=
  fold_left (fun m kv => map_insert kv.1 kv.2 m) l m.
Definition call_headers_of (c : Connection) (request : CallMeta)
  : result PolicyError (list (string * string)) :=
  headers ← request_headers c [] [] (call_meta_headers request);
  Ok (extend_map headers (fixed_headers c)).

Definition matching_operation (c : Connection) (method : FixedMethod) (path : string)
  : option PresetOperation :=
  find_first (fun o => bool_decide (op_method o = method)
    && (str_eqb (op_path o) path
        || (str_eqb (preset c) "github-git" && operation_path_matches (op_path o) path)))
    (operations c).

Definition semantics_of (c : Connection) (operation : option string)
    (matching : option PresetOperation) : option ReadSemantics :=
  let named := name ← operation; find_operation c name in
  o ← match named with Some o => Some o | None => matching end;
  read_semantics o.

Definition class_of (method : FixedMethod) (semantics : option ReadSemantics) (body : list Z)
  : MethodClass :=
  match method, semantics with
  | Get, _ | Head, _ => Read
  | Post, Some Routing.Fixed => Read
  | Post, Some GraphqlQuery => if graphql_read body then Read else Write
  | _, _ => Write
  end.

(** The internal action of a call. *)
Definition CONNECTION_ACTION_DOMAIN : list Z := bytes_of "RKCONNECTIONACTION" ++ [0; 1].
Definition connection_action_id (snapshot : ValidatedSnapshot) (c : Connection) : Uuid :=
  id_from_random_bytes
    (take 16 (sha256 (CONNECTION_ACTION_DOMAIN ++ snapshot_digest snapshot
                      ++ bytes_of (conn_name c)))).
Definition placeholder_auth : result DomainError HeaderCredentialUse :=
  name ← HeaderName_new "authorization";
  pre ← HeaderPrefix_new "";
  HeaderCredentialUse_new name pre.
Definition connection_action (snapshot : ValidatedSnapshot) (c : Connection)
    (method : FixedMethod) (path : string) : result PolicyError FixedHttpAction :=
  name ← map_err (fun _ => PolicyInvalid) (ActionName_new (conn_name c));
  placeholder ← map_err (fun _ => PolicyInvalid) placeholder_auth;
  Ok (mkFixedHttpAction None None (connection_action_id snapshot c) name
        (snapshot_version snapshot) true (Routing.credential_id c) (Routing.origin c) method
        (FixedAction.Fixed path)
        (match auth_header (Routing.auth c) with Some h => h | None => placeholder end)
        120000
        (mkRequestPolicy (max_request_bytes (limits c)) (conn_allowed_headers c))
        (mkResponsePolicy (max_response_bytes (limits c)) (allowed_response_headers c))).

(** The canonical JSON of a call, keys in order, and its digest. *)
Definition body_text (body : list Z) : string * string :=
  if utf8_valid body then (text_of body, "text") else (base64_encode body, "base64").
Definition local_envelope (snapshot : ValidatedSnapshot) (c : Connection) (method : FixedMethod)
    (path : string) (query headers : list (string * string)) (body : list Z) : Value :=
  let '(text, encoding) := body_text body in
  VObject [("body", VString text);
           ("body_encoding", VString encoding);
           ("connection", VString (conn_name c));
           ("headers", VArray (map (fun h => VArray [VString h.1; VString h.2]) headers));
           ("method", VString (method_as_str method));
           ("origin", VString (Routing.origin c));
           ("path", VString path);
           ("policy_sha256", VString (hexlower_encode (snapshot_digest snapshot)));
           ("query", string_map query)].
Definition LOCAL_CALL_DOMAIN : list Z := bytes_of "RKLOCALCALL" ++ [0; 1].

(** The checks on the normalised request, then everything it stands for. *)
Definition authorize_request (snapshot : ValidatedSnapshot) (c : Connection) (request : CallMeta)
    (caller : string) (method : FixedMethod) (path : string) (body : list Z)
    (operation : option string) : result PolicyError ConnectionAuthorization :=
  _ ← map_err (fun _ => InvalidParameters) (validate_request_path path);
  _ ← check_scopes c method path;
  reject_if query_refused c (call_query request) with InvalidParameters ;;
  headers ← call_headers_of c request;
  let matching := matching_operation c method path in
  reject_if (str_eqb (preset c) "github-git" || bool_decide (is_Some (llm c)))
            && negb (bool_decide (is_Some matching)) with NotConfigured ;;
  let class := class_of method (semantics_of c operation matching) body in
  '(model, generation_max_output, streaming, body) ← normalize_llm c path method body;
  reject_if max_request_bytes (limits c) <? llen body with InvalidParameters ;;
  let '(effect, rule_id, normalized_path) := decide_request c method class path caller in
  exact ← map_err (fun _ => InvalidParameters) (ExactPath_parse path);
  action ← connection_action snapshot c method exact;
  canonical ← ok_or InvalidParameters
    (jcs (local_envelope snapshot c method path (call_query request) headers body));
  schema ← map_err (fun _ => PolicyInvalid) (SchemaId_new "rekey.connection/v1");
  resource ← map_err (fun _ => PolicyInvalid) (ResourceRef_new "connection" (conn_name c));
  Ok (mkConnectionAuthorization c action (mkRenderedTarget exact [] (call_query request))
        (mkCanonicalParameters schema (sha256 (LOCAL_CALL_DOMAIN ++ canonical)) canonical)
        resource effect rule_id class normalized_path body headers operation model
        generation_max_output streaming).

Definition evaluate_connection (snapshot : ValidatedSnapshot) (connections : list Connection)
    (request : CallMeta) (body : list Z) (caller : string) (now : Z)
  : option (result PolicyError ConnectionAuthorization) :=
  if snapshot_expires_at_ms snapshot <=? now then Some (Err PolicyExpired)
  else match select_connection connections request with
  | Err e => Some (Err e)
  | Ok c =>
      match normalize_call c request body with
      | None => None
      | Some call =>
          Some ('(method, path, body, operation) ← call;
                authorize_request snapshot c request caller method path body operation)
      end
  end.

End WithLibraries.
