(* ===== verification/ConnectionTheorems.v ===== *)
(** * ConnectionTheorems: what an authorised direct call is

    Theorems about [Connections.evaluate_connection]: what holds of every
    authorisation, what the arguments of a named operation can change, what the
    digest of a call stands for, and that validated connections never panic. *)

From S2P Require Import Prelude Strings Bytes Errors Domain Codec Policy Action FixedAction Template Decimal Json Llm Parameters Routing Connections.

Section WithLibraries.
Context {CC : Codecs} {SJ : Serde} {GQ : Graphql}.

(** ** The steps of an authorisation *)

(** The normalised request an authorisation was made from. *)
Record authorized_steps (snapshot : ValidatedSnapshot) (c : Connection) (request : CallMeta)
    (caller : string) (method : FixedMethod) (path : string) (body : list Z)
    (operation : option string) (a : ConnectionAuthorization) : Prop := {
  st_connection : ca_connection a = c;
  st_operation : ca_operation a = operation;
  st_path : validate_request_path path = Ok tt;
  st_scopes : check_scopes c method path = Ok tt;
  st_query : query_refused c (call_query request) = false;
  st_headers : call_headers_of c request = Ok (ca_headers a);
  st_declared : str_eqb (preset c) "github-git" || bool_decide (is_Some (llm c)) = true ->
    is_Some (matching_operation c method path);
  st_class : ca_method_class a
    = class_of method (semantics_of c operation (matching_operation c method path)) body;
  st_llm : normalize_llm c path method body
    = Ok (ca_model a, ca_generation_max_output a, ca_streaming a, ca_request_body a);
  st_size : llen (ca_request_body a) <= max_request_bytes (limits c);
  st_decision : decide_request c method (ca_method_class a) path caller
    = (ca_effect a, ca_rule_id a, ca_normalized_path a);
  st_exact : ExactPath_parse path = Ok (rendered_path (ca_target a));
  st_target : ca_target a = mkRenderedTarget (rendered_path (ca_target a)) [] (call_query request);
  st_action : connection_action snapshot c method (rendered_path (ca_target a)) = Ok (ca_action a);
  st_canonical : jcs (local_envelope snapshot c method path (call_query request) (ca_headers a)
      (ca_request_body a)) = Some (canonical_json (ca_parameters a));
  st_digest : canonical_hash (ca_parameters a)
    = sha256 (LOCAL_CALL_DOMAIN ++ canonical_json (ca_parameters a));
}.

Lemma map_err_Ok {E F A} (f : E -> F) (r : result E A) a : map_err f r = Ok a -> r = Ok a.
Proof. by destruct r; cbn; intros; simplify_eq. Qed.

Lemma authorize_request_Ok snapshot c request caller method path body operation a :
  authorize_request snapshot c request caller method path body operation = Ok a ->
  authorized_steps snapshot c request caller method path body operation a.
Proof.
  unfold authorize_request. cbv zeta. intros H. bind_inv H. subst a.
  repeat match goal with
  | H : map_err _ _ = Ok _ |- _ => apply map_err_Ok in H
  | H : ok_or _ ?o = Ok _ |- _ => destruct o eqn:?; [|discriminate H]; injection H as ->
  | u : unit |- _ => destruct u
  end.
  split; cbn; try done.
  - intros Hg. rewrite Hg in *. cbn [andb] in *. by reflect_bools.
  - by reflect_bools.
Qed.

(** The connection, the normalised request and its authorisation. *)
Lemma evaluate_connection_Ok snapshot connections request body caller now a :
  evaluate_connection snapshot connections request body caller now = Some (Ok a) ->
  now < snapshot_expires_at_ms snapshot /\
  exists c method path body' operation,
    select_connection connections request = Ok c /\
    normalize_call c request body = Some (Ok (method, path, body', operation)) /\
    authorized_steps snapshot c request caller method path body' operation a.
Proof.
  unfold evaluate_connection. destruct (_ <=? _) eqn:En; [done|]. reflect_bools.
  destruct (select_connection _ _) as [c|] eqn:Ec; [|done].
  destruct (normalize_call _ _ _) as [[[[[method path] body'] operation]|]|] eqn:Ex; [|done|done].
  cbn [mbind result_bind]. intros [= H]. split; [done|]. exists c, method, path, body', operation.
  split; [done|]. split; [done|]. by apply authorize_request_Ok.
Qed.

Lemma select_connection_Ok connections request c :
  select_connection connections request = Ok c ->
  c ∈ connections /\ matches_request request c = true /\
  forall c', c' ∈ connections -> matches_request request c' = true -> c' = c.
Proof.
  unfold select_connection. intros H. assert (E : List.filter (matches_request request) connections = [c]).
  { destruct (List.filter _ _) as [|x [|]]; by simplify_eq. }
  assert (Hf : forall x, x ∈ connections /\ matches_request request x = true <-> x = c).
  { intros x. pose proof (elem_of_retain (matches_request request) connections x) as R.
    unfold retain in R. rewrite E, list_elem_of_singleton in R. symmetry. exact R. }
  destruct (proj2 (Hf c) eq_refl) as [Hin Hm]. split; [done|]. split; [done|].
  intros c' H1 H2. by apply Hf.
Qed.

(** What stands behind a decision that is not a denial. *)
Lemma decision_covered c method class path caller e id p :
  decide_request c method class path caller = (e, id, p) -> e <> Deny ->
  exists r, (r ∈ rules c \/ r ∈ overrides_of c caller) /\
    applies c method class path r = true /\ effect r = e /\ id = Some (rule_id r) /\ p = rule_path r.
Proof.
  unfold decide_request. rewrite choose_override.
  destruct (choose (rules c) _ _ _ _) as [[[e1 id1] p1]|] eqn:E1; [|intros; simplify_eq].
  apply choose_wins in E1 as (r & (Hin & Ha & _) & -> & -> & ->).
  destruct (choose (overrides_of c caller) _ _ _ _) as [[[e2 id2] p2]|] eqn:E2.
  - apply choose_wins in E2 as (o & (Hin2 & Ha2 & _) & -> & -> & ->).
    destruct (_ <? _); intros; simplify_eq; [exists o|exists r]; eauto 10.
  - intros; simplify_eq. exists r. eauto 10.
Qed.

(** ** Headers *)

Lemma map_insert_keys {A} k (v : A) l x :
  x ∈ keys (map_insert k v l) <-> x = k \/ x ∈ keys l.
Proof.
  unfold keys. induction l as [|[k1 v1] l IH]; cbn; [rewrite list_elem_of_singleton, elem_of_nil; tauto|].
  destruct (String.compare k k1) eqn:E; cbn; rewrite ?elem_of_cons.
  - apply String.compare_eq_iff in E as ->. tauto.
  - tauto.
  - rewrite IH. tauto.
Qed.

(** [map_insert] keeps keys in strict order. *)
Lemma map_insert_sorted {A} k (v : A) l : sorted_keys l -> sorted_keys (map_insert k v l).
Proof.
  induction l as [|[k1 v1] l IH]; [cbn; split; [intros k' Hk; by apply elem_of_nil in Hk|done]|].
  cbn [map_insert sorted_keys]. intros [Hk Hs]. destruct (String.compare k k1) eqn:E; cbn [sorted_keys].
  - done.
  - split; [|done]. intros k' [->|Hk']%elem_of_cons; [done|]. eapply string_compare_trans; [exact E|].
    by apply Hk.
  - split; [|by apply IH]. intros k' [->|Hk']%map_insert_keys; [|by apply Hk].
    by rewrite String.compare_antisym, E.
Qed.

Lemma map_insert_elem {A} k (v : A) l x :
  x ∈ map_insert k v l -> x = (k, v) \/ x ∈ l.
Proof.
  induction l as [|[k1 v1] l IH]; cbn; [rewrite list_elem_of_singleton; auto|].
  destruct (String.compare k k1) eqn:E; rewrite !elem_of_cons.
  - apply String.compare_eq_iff in E as ->. tauto.
  - tauto.
  - intros [->|H]; [tauto|]. destruct (IH H); tauto.
Qed.

Lemma extend_map_elem (m l : list (string * string)) x :
  x ∈ extend_map m l -> x ∈ m \/ x ∈ l.
Proof.
  revert m. induction l as [|[k v] l IH]; intros m; [by left|]. cbn. intros [H|H]%IH.
  - apply map_insert_elem in H as [->|H]; [right; left|by left].
  - right. by right.
Qed.
Lemma extend_map_sorted (m l : list (string * string)) :
  sorted_keys m -> sorted_keys (extend_map m l).
Proof. revert m. induction l as [|[k v] l IH]; intros m Hm; [done|]. by apply IH, map_insert_sorted. Qed.
(** The value of a fixed header wins over any other. *)
Lemma extend_map_get (m l : list (string * string)) k v :
  NoDup (keys l) -> (k, v) ∈ l -> map_get k (extend_map m l) = Some v.
Proof.
  revert m. induction l as [|[k1 v1] l IH]; intros m Hn; [by intros H%elem_of_nil|].
  unfold keys in *. cbn in Hn. apply NoDup_cons in Hn as [Hk Hn].
  change (extend_map m ((k1, v1) :: l)) with (extend_map (map_insert k1 v1 m) l).
  intros [E|Hin]%elem_of_cons; [|by apply IH]. simplify_eq.
  assert (G : forall m, k1 ∉ map fst l -> map_get k1 (extend_map m l) = map_get k1 m).
  { clear. induction l as [|[k v] l IH]; intros m; [done|]. intros [Hne Hk]%not_elem_of_cons.
    change (extend_map m ((k, v) :: l)) with (extend_map (map_insert k v m) l).
    rewrite IH by done. by apply map_get_insert_ne. }
  rewrite G by done. apply map_get_insert.
Qed.

Lemma request_headers_ok c names headers l out :
  request_headers c names headers l = Ok out -> sorted_keys headers ->
  sorted_keys out /\
  forall h, h ∈ out -> h ∈ headers \/
    (h.1 ∈ conn_allowed_headers c /\ slen h.2 <= 8192 /\
     exists raw, (raw, h.2) ∈ l /\ HeaderName_new raw = Ok h.1).
Proof.
  revert names headers. induction l as [|[raw v] l IH]; intros names headers H Hs; cbn in H.
  - simplify_eq. auto.
  - bind_inv H. apply map_err_Ok in E. reflect_bools.
    destruct (IH _ _ H (map_insert_sorted _ _ _ Hs)) as [Hso Hel]. split; [done|].
    intros h [[->|Hh]%map_insert_elem|(Ha & Hl & raw' & Hin & Hr)]%Hel; cbn.
    + right. split; [done|]. split; [lia|]. exists raw. split; [left|done].
    + by left.
    + right. split; [done|]. split; [done|]. exists raw'. split; [by right|done].
Qed.

(** ** What every authorisation guarantees *)

Record authorized (snapshot : ValidatedSnapshot) (connections : list Connection)
    (request : CallMeta) (caller : string) (now : Z) (a : ConnectionAuthorization) : Prop := {
  (** The snapshot is in force, and the connection is the only enabled one of the
      signed list that the request can mean. *)
  au_unexpired : now < snapshot_expires_at_ms snapshot;
  au_connection : ca_connection a ∈ connections /\ enabled (ca_connection a) = true /\
    forall c, c ∈ connections -> matches_request request c = true -> c = ca_connection a;
  (** The effect is the decision on the request that is sent. *)
  au_decision : decide_request (ca_connection a) (method (ca_action a)) (ca_method_class a)
      (rendered_path (ca_target a)) caller = (ca_effect a, ca_rule_id a, ca_normalized_path a);
  (** What is not denied is covered by a signed rule that applies to it. *)
  au_rule : ca_effect a <> Deny -> exists r,
    (r ∈ rules (ca_connection a) \/ r ∈ overrides_of (ca_connection a) caller) /\
    applies (ca_connection a) (method (ca_action a)) (ca_method_class a)
      (rendered_path (ca_target a)) r = true /\
    effect r = ca_effect a /\ ca_rule_id a = Some (rule_id r);
  (** Headers: distinct names, each fixed by the connection or sent by the caller
      and allowed; a fixed one keeps its value. *)
  au_headers : NoDup (keys (ca_headers a)) /\
    (forall h, h ∈ ca_headers a -> h ∈ fixed_headers (ca_connection a) \/
       h.1 ∈ conn_allowed_headers (ca_connection a) /\
       exists raw, (raw, h.2) ∈ call_meta_headers request /\ HeaderName_new raw = Ok h.1) /\
    (NoDup (keys (fixed_headers (ca_connection a))) -> forall k v,
       (k, v) ∈ fixed_headers (ca_connection a) -> map_get k (ca_headers a) = Some v);
  (** Query keys are allowed, the body is within its limit. *)
  au_query : rendered_query (ca_target a) = call_query request /\
    forall k v allowed, (k, v) ∈ call_query request ->
      query_allowlist (ca_connection a) = Some allowed -> k ∈ allowed;
  au_size : llen (ca_request_body a) <= max_request_bytes (limits (ca_connection a));
  (** The request leaves with the connection's credential, to its origin. *)
  au_action : FixedAction.origin (ca_action a) = Routing.origin (ca_connection a) /\
    fa_credential_id (ca_action a) = Routing.credential_id (ca_connection a) /\
    target (ca_action a) = FixedAction.Fixed (rendered_path (ca_target a)) /\
    forall h, auth_header (Routing.auth (ca_connection a)) = Some h ->
              FixedAction.auth (ca_action a) = h;
}.

(** C29: Every authorisation is backed by the signed snapshot in force: the connection
    is the only enabled one the request can mean, the effect is the decision of
    its rules on exactly the method, class and path that are sent, and anything
    but a denial has a rule that applies; names, values and limits of headers,
    query and body are the connection's; the request goes to its origin with its
    credential. *)
Theorem authorization_sound snapshot connections request body caller now a :
  evaluate_connection snapshot connections request body caller now = Some (Ok a) ->
  authorized snapshot connections request caller now a.
Proof.
  intros H. apply evaluate_connection_Ok in H as (Hn & c & meth & path & body' & op & Hc & _ & St).
  apply select_connection_Ok in Hc as (Hin & Hm & Hu).
  destruct a as [cc act tgt par res eff rid cls np rb hs op' mo gm sg].
  destruct St as [Sc _ Sp _ Sq Sh _ _ _ Sz Sd Se St Sa _ _]. cbn in *. subst cc.
  rewrite (request_path_is_exact _ Sp) in Se. injection Se as Se. rewrite <- Se in *. subst tgt. cbn in *.
  unfold connection_action in Sa. bind_inv Sa. subst act.
  unfold call_headers_of in Sh. bind_inv Sh. subst hs.
  apply request_headers_ok in E1 as [Hs Hh]; [|done].
  split; cbn; try done.
  - split; [done|]. split; [|done]. unfold matches_request in Hm. by reflect_bools.
  - intros Hd. destruct (decision_covered _ _ _ _ _ _ _ _ Sd Hd) as (r & H1 & H2 & H3 & H4 & _).
    by exists r.
  - split_and!.
    + by apply sorted_keys_NoDup, extend_map_sorted.
    + intros h [H|H]%extend_map_elem; [right|by left].
      destruct (Hh h H) as [H'|(H1 & _ & H2)]; [by apply elem_of_nil in H'|done].
    + intros Hnd k v Hkv. by apply extend_map_get.
  - split; [done|]. intros k v allowed Hkv Ha.
    unfold query_refused in Sq. rewrite existsb_false_elem in Sq.
    specialize (Sq _ Hkv). cbn in Sq. rewrite Ha in Sq. by reflect_bools.
  - split_and!; try done. intros h Hh'. by rewrite Hh'.
Qed.

(** ** What the digest of a direct call stands for *)

Lemma bytes_of_text b : Forall is_byte b -> bytes_of (text_of b) = b.
Proof.
  unfold text_of, bytes_of. induction 1 as [|x b Hx _ IH]; [done|]. cbn. rewrite IH. f_equal.
  by apply byte_of_char.
Qed.

Lemma body_text_inj {CL : CodecLaws} b b' :
  Forall is_byte b -> Forall is_byte b' -> body_text b = body_text b' -> b = b'.
Proof.
  intros Hb Hb'. unfold body_text. destruct (utf8_valid b), (utf8_valid b'); intros [= E].
  - by rewrite <- (bytes_of_text b), E, bytes_of_text.
  - apply (f_equal base64_decode) in E. rewrite !base64_roundtrip in E by done. by injection E.
Qed.

Lemma method_as_str_inj m m' : method_as_str m = method_as_str m' -> m = m'.
Proof. by destruct m, m'. Qed.

Lemma same_string (s s' : string) : same_json (VString s) (VString s') -> s = s'.
Proof. by inversion 1. Qed.

Lemma local_envelope_inj {CL : CodecLaws} sn c m p q h b sn' c' m' p' q' h' b' :
  is_digest (snapshot_digest sn) -> is_digest (snapshot_digest sn') ->
  Forall is_byte b -> Forall is_byte b' ->
  same_json (local_envelope sn c m p q h b) (local_envelope sn' c' m' p' q' h' b') ->
  snapshot_digest sn = snapshot_digest sn' /\ conn_name c = conn_name c' /\
  Routing.origin c = Routing.origin c' /\ m = m' /\ p = p' /\ q = q' /\ h = h' /\ b = b'.
Proof.
  intros [_ D] [_ D'] Hb Hb'. unfold local_envelope.
  destruct (body_text b) as [t e] eqn:E, (body_text b') as [t' e'] eqn:E'.
  intros J. inversion J as [| | | | |? ? F]; subst. clear J.
  do 9 (apply Forall2_cons in F as [[_ ?] F]). cbn [snd] in *.
  repeat match goal with H : same_json (VString _) (VString _) |- _ => apply same_string in H end.
  match goal with H : same_json (VArray _) (VArray _) |- _ =>
    inversion H as [| | | |? ? Fh|]; subst; apply headers_value_inj in Fh end.
  match goal with H : same_json (string_map _) _ |- _ => apply string_map_inj in H end.
  match goal with H : hexlower_encode _ = _ |- _ => apply (hexlower_encode_inj _ _ D D') in H end.
  match goal with H : method_as_str _ = _ |- _ => apply method_as_str_inj in H end.
  split_and!; try done. apply body_text_inj; try done. congruence.
Qed.

(** The value an authorisation's canonical JSON is the text of. *)
Definition authorized_envelope (sn : ValidatedSnapshot) (a : ConnectionAuthorization) : JValue Number :=
  local_envelope sn (ca_connection a) (method (ca_action a)) (rendered_path (ca_target a))
    (rendered_query (ca_target a)) (ca_headers a) (ca_request_body a).

(** The digest of a direct call stands for one call. When two authorised calls
    have the same digest - what a local approval is bound to - they were made
    under the same policy and are the same request: connection, origin, method,
    path, query, headers and the exact bytes of the body. SHA-256 and RFC 8785 are
    assumed only not to collide on these two calls. *)
Theorem local_digest_binds {CL : CodecLaws} sn cs r b who now a sn' cs' r' b' who' now' a' :
  evaluate_connection sn cs r b who now = Some (Ok a) ->
  evaluate_connection sn' cs' r' b' who' now' = Some (Ok a') ->
  is_digest (snapshot_digest sn) -> is_digest (snapshot_digest sn') ->
  Forall is_byte (ca_request_body a) -> Forall is_byte (ca_request_body a') ->
  sha_separates (Ok (LOCAL_CALL_DOMAIN ++ canonical_json (ca_parameters a)))
                (Ok (LOCAL_CALL_DOMAIN ++ canonical_json (ca_parameters a'))) ->
  jcs_separates (authorized_envelope sn a) (authorized_envelope sn' a') ->
  canonical_hash (ca_parameters a) = canonical_hash (ca_parameters a') ->
  snapshot_digest sn = snapshot_digest sn' /\
  conn_name (ca_connection a) = conn_name (ca_connection a') /\
  FixedAction.origin (ca_action a) = FixedAction.origin (ca_action a') /\
  method (ca_action a) = method (ca_action a') /\ ca_target a = ca_target a' /\
  ca_headers a = ca_headers a' /\ ca_request_body a = ca_request_body a'.
Proof.
  intros H H' D D' B B' Hsha Hjcs Hh.
  apply evaluate_connection_Ok in H as (_ & c & m & p & bd & op & _ & _ & St).
  apply evaluate_connection_Ok in H' as (_ & c' & m' & p' & bd' & op' & _ & _ & St').
  destruct St as [Sc _ Sp _ _ _ _ _ _ _ _ Se St Sa Sj Sd], St' as [Sc' _ Sp' _ _ _ _ _ _ _ _ Se' St' Sa' Sj' Sd'].
  rewrite (request_path_is_exact _ Sp) in Se. rewrite (request_path_is_exact _ Sp') in Se'.
  injection Se as Se. injection Se' as Se'. rewrite <- Se in St, Sa. rewrite <- Se' in St', Sa'.
  rewrite Sd, Sd' in Hh. pose proof (Hsha _ _ eq_refl eq_refl Hh) as Ec. apply app_inv_head in Ec.
  unfold connection_action in Sa, Sa'. bind_inv Sa. bind_inv Sa'.
  unfold jcs_separates, authorized_envelope in Hjcs.
  rewrite <- Sa, <- Sa', Sc, Sc', St, St' in *. cbn in Hjcs, Sj, Sj'.
  rewrite Sj, Sj', Ec in Hjcs.
  specialize (Hjcs eq_refl).
  apply local_envelope_inj in Hjcs as (E1' & E2' & E3' & E4' & E5' & E6' & E7' & E8'); try done.
  cbn. split_and!; try done. by rewrite E5', E6'.
Qed.

(** ** Model calls through a connection *)

(** A connection's output ceiling cannot be evaded. When a POST to a generating
    endpoint of a connection with model limits is authorised, the bytes that are
    sent parse, without a duplicate key, to an object with an allowed model and
    exactly one ceiling field, whose value is the recorded maximum, positive and
    within the signed limit; a chat asks for one choice, a response runs in the
    foreground and the stream flag is the recorded one. That inserting a property
    before the closing brace appends it is assumed of the JSON parser for the
    normalised body. *)
Theorem connection_llm_ceiling {SL : SerdeLaws} sn cs r b who now a limits protocol :
  evaluate_connection sn cs r b who now = Some (Ok a) ->
  llm (ca_connection a) = Some limits -> 0 <= max_tokens limits <= u32_max ->
  method (ca_action a) = Post ->
  connection_llm_protocol (rendered_path (ca_target a)) = Some protocol ->
  generating protocol = true ->
  (forall m p body op, normalize_call (ca_connection a) r b = Some (Ok (m, p, body, op)) ->
                       insertable body) ->
  exists object, parse_unique_json (ca_request_body a) = Ok (VObject object) /\
    ceiling_ok protocol (llm_adapter (ca_connection a) limits)
      (mkProfileBody (ca_model a) (ca_request_body a) (ca_generation_max_output a) (ca_streaming a))
      object.
Proof.
  intros H Hl Hm Hp Hpr G I.
  apply evaluate_connection_Ok in H as (_ & c & m & p & bd & op & _ & Hn & St).
  destruct St as [Sc _ Sp _ _ _ _ _ Sl _ _ Se _ Sa _ _].
  rewrite (request_path_is_exact _ Sp) in Se. injection Se as Se. rewrite <- Se in Hpr, Sa.
  rewrite Sc in *. unfold connection_action in Sa. bind_inv Sa. rewrite <- Sa in Hp. cbn in Hp. subst m.
  specialize (I _ _ _ _ Hn). unfold normalize_llm in Sl. rewrite Hl, Hpr in Sl. cbn [negb bool_decide] in Sl.
  rewrite bool_decide_eq_true_2 in Sl by done. cbn [negb] in Sl.
  assert (Sl' : (_ ← ensure_json_number_fidelity canonical_number bd;
      value ← map_err (fun _ => InvalidParameters) (parse_unique_json bd);
      '(normalized, _) ← normalize_profile_llm_body protocol (llm_adapter c limits) bd
            value (chat_max_tokens_only (preset c));
      Ok (pb_model normalized, pb_maximum normalized, pb_streaming normalized,
              pb_bytes normalized)) =
    Ok (ca_model a, ca_generation_max_output a, ca_streaming a, ca_request_body a)).
  { destruct protocol; try done. }
  clear Sl. bind_inv Sl'.
  repeat match goal with H : map_err _ _ = Ok _ |- _ => apply map_err_Ok in H end.
  match goal with P : parse_unique_json bd = Ok ?v, N : normalize_profile_llm_body _ _ _ _ _ = Ok (?pb, ?v') |- _ =>
    destruct (normalize_enforces_ceiling protocol (llm_adapter c limits) bd v _ pb v' G Hm P I N)
      as (object & Hv & Hparse & Hok) end.
  exists object. destruct a. cbn in *. simplify_eq. split; [done|].
  by match goal with pb : ProfileBody |- _ => destruct pb end.
Qed.

(** ** Named operations *)

Lemma strip_suffix_ends c s v : strip_suffix c s = Some v -> ends_with c s = true.
Proof.
  revert v. induction s as [|a s IH]; [done|]. intros v. cbn. destruct s as [|b s].
  - by case_bool_decide.
  - destruct (strip_suffix c (String b s)) as [w|]; [|done]. intros _. by apply (IH w).
Qed.
Lemma ends_with_cons c a s : ends_with c s = true -> ends_with c (String a s) = true.
Proof. by destruct s. Qed.
Lemma named_braces part key :
  named part = Some key -> starts_with "{" part = true /\ ends_with "}" part = true.
Proof.
  unfold named, strip_prefix. destruct part as [|a s]; [done|]. case_bool_decide; [|done].
  intros Hs%strip_suffix_ends. split; [by apply bool_decide_eq_true|by apply ends_with_cons].
Qed.

(** A segment of the path that is sent, for one of the operation's path. *)
Definition filled (part value : string) : Prop :=
  match named part with Some _ => slug value 100 = true | None => value = part end.

Lemma fill_path_ok args l parts args' :
  fill_path args l = Ok (parts, args') -> Forall2 filled l parts.
Proof.
  revert args parts. induction l as [|part l IH]; intros args parts H; cbn in H.
  - simplify_eq. constructor.
  - bind_step H. bind_step H. bind_step H. bind_step H. simplify_eq.
    constructor; [|by eapply IH]. unfold filled. destruct (named part); bind_inv E; by simplify_eq; reflect_bools.
Qed.

Lemma filled_segments l parts :
  Forall2 filled l parts -> Forall (fun s => str_contains "/" s = false) l ->
  operation_segments_match l parts = true /\ Forall (fun s => str_contains "/" s = false) parts.
Proof.
  induction 1 as [|part value l parts Hf _ IH]; [done|]. intros [Hp Hl]%Forall_cons.
  destruct (IH Hl) as [IH1 IH2]. cbn. rewrite IH1, andb_true_r. unfold filled in Hf.
  destruct (named part) as [key|] eqn:En.
  - destruct (named_braces _ _ En) as [-> ->]. rewrite orb_true_r. split; [done|].
    constructor; [|done]. by eapply slug_no_separator.
  - subst. unfold str_eqb. rewrite bool_decide_eq_true_2 by done. split; [done|]. by constructor.
Qed.

Lemma split_on_slash s : split_on "/" (String "/" s) = EmptyString :: split_on "/" s.
Proof. done. Qed.

(** Arguments stay inside the declared operation. When a call names an operation,
    it brings neither method nor path of its own; the arguments are accepted by the
    operation's schema; the method is the operation's; and the path has the
    operation's segments, with every literal one unchanged and every placeholder
    filled by one safe slug, so no argument adds, removes or escapes a segment. *)
Theorem named_call_stays c r body m p out name :
  normalize_call c r body = Some (Ok (m, p, out, Some name)) ->
  exists o args, o ∈ operations c /\ op_name o = name /\
    call_method r = None /\ call_path r = None /\
    named_arguments o r = Ok args /\ declared_schema_valid (parameters o) (VObject args) = true /\
    m = op_method o /\
    (starts_with "/" (op_path o) = true ->
     operation_path_matches (op_path o) p = true /\
     Forall2 filled (split_on "/" (op_path o)) (split_on "/" p)).
Proof.
  unfold normalize_call. destruct (call_operation r) as [name'|]; [|intros H; injection H as H; bind_inv H; done].
  destruct (_ || _) eqn:E0; [done|]. destruct (find_operation c name') as [o|] eqn:Eo; [|done].
  destruct (named_arguments o r) as [args|] eqn:Ea; [|done].
  destruct (slice_from_1 (op_path o)) as [tail|] eqn:Et; [|done].
  intros H; injection H as H. bind_inv H. simplify_eq.
  apply find_first_Some in Eo as [Hin Hn]. unfold str_eqb in Hn. reflect_bools.
  assert (Hm : m = op_method o /\ exists parts args', fill_path args (split_on "/" tail) = Ok (parts, args') /\
    p = if str_eqb (op_path o) "/" then "/" else String "/" (join "/" parts)).
  { unfold named_request in E. bind_inv E. simplify_eq. split; [done|]. by eauto. }
  destruct Hm as (-> & parts & args' & Hfill & ->).
  exists o, args. split; [done|]. split; [done|]. rewrite !eq_None_not_Some. split; [done|]. split; [done|].
  split; [done|]. split; [unfold named_arguments in Ea; bind_inv Ea; subst; by reflect_bools|].
  split; [done|]. intros Hs.
  destruct (op_path o) as [|a rest]; [done|]. cbn in Hs. apply bool_decide_eq_true in Hs as ->.
  cbn in Et. injection Et as ->. apply fill_path_ok in Hfill.
  destruct (filled_segments _ _ Hfill (split_on_pieces "/" tail)) as [Hm Hp].
  assert (Hsplit : split_on "/" (if str_eqb (String "/" tail) "/" then "/" else String "/" (join "/" parts))
                   = EmptyString :: parts).
  { unfold str_eqb. case_bool_decide as Ht.
    - simplify_eq. inversion Hfill as [|? v ? l Hv Hl]; subst. inversion Hl. by rewrite Hv.
    - rewrite split_on_slash, split_on_join; [done| |done].
      intros ->. inversion Hfill as [Hnil|]. by destruct (split_on_nonempty "/" tail). }
  unfold operation_path_matches. rewrite Hsplit, split_on_slash. split; [exact Hm|]. by constructor.
Qed.

(** ** Totality *)

Lemma check_operations_ok seen l :
  check_operations seen l = Ok tt -> forall o, o ∈ l -> validate_path_pattern (op_path o) = Ok tt.
Proof.
  revert seen. induction l as [|o l IH]; intros seen H x Hx; [by apply elem_of_nil in Hx|].
  cbn in H. bind_step H. bind_step H. bind_step H. destruct a.
  apply elem_of_cons in Hx as [->|Hx]; [done|by eapply IH].
Qed.

Lemma validated_operations c :
  connection_validate c = Ok tt ->
  forall o, o ∈ operations c -> starts_with "/" (op_path o) = true.
Proof.
  intros H. unfold connection_validate in H. bind_inv H.
  match goal with E : check_operations [] _ = Ok ?u |- _ => destruct u; rename E into Eo end.
  intros o Ho. pose proof (check_operations_ok _ _ Eo o Ho) as Hp.
  unfold validate_path_pattern in Hp. bind_step Hp. by reflect_bools.
Qed.

(** An authorisation always has an answer: with validated connections, no request
    makes the broker panic. *)
Theorem evaluate_never_panics sn cs r b who now :
  (forall c, c ∈ cs -> connection_validate c = Ok tt) ->
  exists res, evaluate_connection sn cs r b who now = Some res.
Proof.
  intros Hv. unfold evaluate_connection. destruct (_ <=? now); [eauto|].
  destruct (select_connection cs r) as [c|] eqn:Ec; [|eauto].
  apply select_connection_Ok in Ec as (Hc & _ & _).
  destruct (normalize_call c r b) as [x|] eqn:En; [eauto|]. exfalso. revert En.
  unfold normalize_call. destruct (call_operation r); [|done]. destruct (_ || _); [done|].
  destruct (find_operation c s) as [o|] eqn:Eo; [|done]. destruct (named_arguments o r); [|done].
  apply find_first_Some in Eo as [Ho _]. pose proof (validated_operations c (Hv c Hc) o Ho) as Hs.
  destruct (op_path o) as [|x p]; [done|]. cbn in Hs. by apply bool_decide_eq_true in Hs as ->.
Qed.

(** ** Reads *)

Definition is_query (d : GraphqlDefinition) : Prop := d <> OtherOperation.

Lemma query_names_queries l names : query_names l = Some names -> Forall is_query l.
Proof.
  revert names. induction l as [|d l IH]; intros names H; [constructor|].
  destruct d; cbn in H; try done; constructor; try done;
    destruct (query_names l) as [ns|]; try done; by eapply IH.
Qed.

(** Only reads count as reads. A call has the class Read only if its method is GET
    or HEAD, or it is a POST whose signed operation declares a fixed read, or
    declares a GraphQL query and the body is a GraphQL document without any
    mutation or subscription. *)
Theorem read_class_sound sn cs r b who now a :
  evaluate_connection sn cs r b who now = Some (Ok a) -> ca_method_class a = Read ->
  method (ca_action a) = Get \/ method (ca_action a) = Head \/
  method (ca_action a) = Post /\ exists o, o ∈ operations (ca_connection a) /\
    (read_semantics o = Some Routing.Fixed \/
     read_semantics o = Some GraphqlQuery /\
     exists m p body op value query document,
       normalize_call (ca_connection a) r b = Some (Ok (m, p, body, op)) /\
       parse_unique_json body = Ok value /\ value_get "query" value = Some (VString query) /\
       parse_query query = Some document /\ Forall is_query document).
Proof.
  intros H Hr. apply evaluate_connection_Ok in H as (_ & c & m & p & bd & op & _ & Hn & St).
  destruct St as [Sc _ _ _ _ _ _ Scl _ _ _ _ _ Sa _ _].
  unfold connection_action in Sa. bind_inv Sa. rewrite <- Sa. cbn. rewrite Sc in *. rewrite Hr in Scl.
  unfold class_of, semantics_of in Scl. destruct m; try done; auto.
  right. right. split; [done|].
  set (named := name ← op; find_operation c name) in *.
  assert (Hsel : exists o, (match named with Some o => Some o | None => matching_operation c Post p end)
      = Some o /\ o ∈ operations c /\
      Read = class_of Post (read_semantics o) bd).
  { destruct named as [o|] eqn:Eo.
    - exists o. split; [done|]. split; [|exact Scl]. subst named.
      destruct op as [name|]; [|done]. cbn in Eo. by apply find_first_Some in Eo as [].
    - destruct (matching_operation c Post p) as [o|] eqn:Em; [|done].
      exists o. split; [done|]. split; [|exact Scl]. unfold matching_operation in Em.
      by apply find_first_Some in Em as []. }
  destruct Hsel as (o & _ & Ho & Hc). exists o. split; [done|]. unfold class_of in Hc.
  destruct (read_semantics o) as [[]|]; [by left| |done]. right. split; [done|].
  destruct (graphql_read bd) eqn:Eg; [|done]. clear Hc. unfold graphql_read in Eg.
  destruct (parse_unique_json bd) as [value|] eqn:Ev; [|done].
  destruct (value_get "query" value) as [[| | |query| |]|] eqn:Eq; try done.
  cbn [mbind option_bind value_as_str] in Eg.
  destruct (parse_query query) as [document|] eqn:Ed; [|done]. cbn [mbind option_bind] in Eg.
  destruct (query_names document) as [names|] eqn:Eqn; [|done].
  exists Post, p, bd, op, value, query, document. split_and!; try done.
  by eapply query_names_queries.
Qed.

End WithLibraries.

(** ** Concrete calls *)

#[local] Instance demo_graphql : Graphql := {| parse_query := fun _ => Some [OperationQuery None] |}.

Definition demo_connection_with {SJ : Serde} (auth : HeaderCredentialUse)
    (ops : list PresetOperation) (l : option ConnectionLlmLimits) : Connection :=
  mkConnection "demo" "generic" 5 "https://api.github.com" (AuthHeader auth) true T0
    [mkConnectionRule 1 (Class Read) "/**" Allow;
     mkConnectionRule 2 (Methods [Post]) "/v1/messages" Approve]
    [] [] (mkConnectionLimits 600 1048576 4194304) ["accept"]
    [("x-github-api-version", "2022-11-28")] ["content-type"] None ops l None.
Definition demo_snapshot : ValidatedSnapshot := mkValidatedSnapshot 5 1000 (repeat 1 32) [] [].

Definition demo_parameters {N} : JValue N :=
  VObject [("properties", VObject [("owner", VObject [("type", VString "string")])])].
Definition demo_issues {SJ : Serde} : PresetOperation :=
  mkPresetOperation "demo.issues" "" Get "/repos/{owner}/issues" demo_parameters None.
Definition demo_hub : Connection (SJ := model_serde) :=
  demo_connection_with (mkHeaderCredentialUse "authorization" "Bearer ") [demo_issues] None.
Definition demo_named : CallMeta :=
  mkCallMeta "demo" None None [] [("accept", "text/html")] false None (Some "demo.issues")
    [("owner", "acme")].
Definition demo_plain : CallMeta :=
  mkCallMeta "demo" (Some Get) (Some "/repos/acme/issues") [] [("Accept", "text/html")] false None
    None [].

#[local] Existing Instance model_serde.
#[local] Existing Instance model_codecs.

(** Runs a call, with a test of its authorisation. *)
Definition demo_run (r : CallMeta) : option (result PolicyError ConnectionAuthorization) :=
  evaluate_connection demo_snapshot [demo_hub] r [] "agent" 10.
Definition demo_expected (operation : option string) (a : ConnectionAuthorization) : bool :=
  bool_decide (ca_effect a = Allow) && bool_decide (ca_method_class a = Read)
  && bool_decide (method (ca_action a) = Get)
  && str_eqb (rendered_path (ca_target a)) "/repos/acme/issues"
  && bool_decide (rendered_query (ca_target a) = [])
  && bool_decide (ca_headers a = [("accept", "text/html"); ("x-github-api-version", "2022-11-28")])
  && bool_decide (ca_request_body a = []) && bool_decide (ca_operation a = operation).
Definition demo_passes (operation : option string) (r : CallMeta) : bool :=
  match demo_run r with Some (Ok a) => demo_expected operation a | _ => false end.

Lemma demo_runs operation r :
  demo_passes operation r = true ->
  exists a, demo_run r = Some (Ok a) /\ demo_expected operation a = true.
Proof. unfold demo_passes. destruct (demo_run r) as [[a|]|]; [eauto|done|done]. Qed.
Lemma demo_named_passes : demo_passes (Some "demo.issues") demo_named = true.
Proof. vm_compute. reflexivity. Qed.
Lemma demo_plain_passes : demo_passes None demo_plain = true.
Proof. vm_compute. reflexivity. Qed.

Lemma authorization_sound_witness :
  exists a, authorized demo_snapshot [demo_hub] demo_named "agent" 10 a /\ ca_effect a = Allow.
Proof.
  destruct (demo_runs _ _ demo_named_passes) as (a & H & He). exists a.
  split; [exact (authorization_sound _ _ _ _ _ _ _ H)|].
  unfold demo_expected in He. by reflect_bools.
Defined.

Lemma named_call_stays_witness :
  exists p, normalize_call demo_hub demo_named [] = Some (Ok (Get, p, [], Some "demo.issues")) /\
            p = "/repos/acme/issues" /\ operation_path_matches "/repos/{owner}/issues" p = true.
Proof.
  exists "/repos/acme/issues".
  assert (H : normalize_call demo_hub demo_named []
    = Some (Ok (Get, "/repos/acme/issues", [], Some "demo.issues"))) by (vm_compute; reflexivity).
  split; [exact H|]. split; [reflexivity|].
  destruct (named_call_stays _ _ _ _ _ _ _ H) as (o & args & Ho & _ & _ & _ & _ & _ & _ & Hp).
  cbn in Ho. apply list_elem_of_singleton in Ho. subst o. apply Hp. reflexivity.
Defined.

Lemma evaluate_never_panics_witness :
  exists res, evaluate_connection demo_snapshot [demo_hub] demo_plain [] "agent" 10 = Some res.
Proof.
  apply evaluate_never_panics. intros c Hc. apply list_elem_of_singleton in Hc. subst c.
  vm_compute. reflexivity.
Defined.

Lemma read_class_sound_witness :
  exists a, demo_run demo_named = Some (Ok a) /\
    (method (ca_action a) = Get \/ method (ca_action a) = Head \/ method (ca_action a) = Post).
Proof.
  destruct (demo_runs _ _ demo_named_passes) as (a & H & He). exists a. split; [exact H|].
  assert (Hr : ca_method_class a = Read) by (unfold demo_expected in He; by reflect_bools).
  destruct (read_class_sound _ _ _ _ _ _ _ H Hr) as [E|[E|[E _]]]; auto.
Defined.

(** The envelope of a demonstration call. *)
Lemma demo_envelope r operation a :
  demo_run r = Some (Ok a) -> demo_expected operation a = true ->
  authorized_envelope demo_snapshot a = local_envelope demo_snapshot demo_hub Get "/repos/acme/issues" []
    [("accept", "text/html"); ("x-github-api-version", "2022-11-28")] [].
Proof.
  intros H He. apply evaluate_connection_Ok in H as (_ & c & m & p & bd & op & Hc & _ & St).
  apply select_connection_Ok in Hc as (Hc & _ & _). apply list_elem_of_singleton in Hc. subst c.
  destruct St as [Sc _ _ _ _ _ _ _ _ _ _ _ _ _ _ _]. unfold demo_expected, str_eqb in He. reflect_bools.
  unfold authorized_envelope. congruence.
Qed.

Lemma demo_authorized_digest r operation a :
  demo_run r = Some (Ok a) -> demo_expected operation a = true ->
  canonical_json (ca_parameters a) = print_value (authorized_envelope demo_snapshot a) /\
  canonical_hash (ca_parameters a) = pad32 (LOCAL_CALL_DOMAIN ++ canonical_json (ca_parameters a)).
Proof.
  intros H He. apply evaluate_connection_Ok in H as (_ & c & m & p & bd & op & _ & _ & St).
  destruct St as [Sc _ Sp _ _ _ _ _ _ _ _ Se St Sa Sj Sd]. split; [|exact Sd].
  rewrite (request_path_is_exact _ Sp) in Se. injection Se as Se. rewrite Se in Sj.
  unfold connection_action in Sa. bind_inv Sa. unfold authorized_envelope.
  rewrite Sc, <- Sa, St. cbn. symmetry. by injection Sj.
Qed.

Lemma repeat_is_digest : is_digest (repeat 1 32).
Proof.
  split; [reflexivity|]. apply Forall_forall. intros x Hx. apply list_elem_of_In, repeat_spec in Hx.
  subst. unfold is_byte. lia.
Qed.

Lemma local_digest_binds_witness :
  exists a a', demo_run demo_named = Some (Ok a) /\ demo_run demo_plain = Some (Ok a') /\
    ca_operation a <> ca_operation a' /\ ca_target a = ca_target a' /\
    ca_request_body a = ca_request_body a'.
Proof.
  destruct (demo_runs _ _ demo_named_passes) as (a & H & He).
  destruct (demo_runs _ _ demo_plain_passes) as (a' & H' & He').
  exists a, a'. split; [exact H|]. split; [exact H'|].
  pose proof (demo_envelope _ _ _ H He) as V. pose proof (demo_envelope _ _ _ H' He') as V'.
  destruct (demo_authorized_digest _ _ _ H He) as [J D].
  destruct (demo_authorized_digest _ _ _ H' He') as [J' D'].
  assert (B : ca_request_body a = [] /\ ca_request_body a' = [] /\ ca_operation a <> ca_operation a').
  { unfold demo_expected in He, He'. reflect_bools. split_and!; congruence. }
  destruct B as (B & B' & Ho). split; [exact Ho|].
  destruct (local_digest_binds (CL := model_codec_laws) _ _ _ _ _ _ _ _ _ _ _ _ _ _ H H')
    as (_ & _ & _ & _ & Ht & _ & Hb).
  - exact repeat_is_digest.
  - exact repeat_is_digest.
  - rewrite B. constructor.
  - rewrite B'. constructor.
  - intros x y [= <-] [= <-] _. by rewrite J, J', V, V'.
  - intros _. rewrite V, V'. constructor.
    repeat first [apply List.Forall2_nil | apply List.Forall2_cons | split | constructor].
  - by rewrite D, D', J, J', V, V'.
  - split; [exact Ht|exact Hb].
Defined.

Definition demo_messages : PresetOperation (SJ := llm_serde) :=
  mkPresetOperation "demo.messages" "" Post "/v1/messages" (VObject []) None.
Definition demo_model_limits : ConnectionLlmLimits := mkConnectionLlmLimits ["m"] 4096 100 100000.
Definition demo_llm_hub : Connection (SJ := llm_serde) :=
  demo_connection_with (mkHeaderCredentialUse "x-api-key" "") [demo_messages] (Some demo_model_limits).
Definition demo_model_call : CallMeta :=
  mkCallMeta "demo" (Some Post) (Some "/v1/messages") [] [] false None None [].
Definition demo_llm_run : option (result PolicyError (ConnectionAuthorization (SJ := llm_serde))) :=
  evaluate_connection (SJ := llm_serde) demo_snapshot [demo_llm_hub] demo_model_call demo_llm_body
    "agent" 10.
Definition demo_llm_passes : bool :=
  match demo_llm_run with
  | Some (Ok a) =>
      bool_decide (ca_effect a = Approve) && bool_decide (method (ca_action a) = Post)
      && str_eqb (rendered_path (ca_target a)) "/v1/messages"
      && bool_decide (ca_generation_max_output a = Some 4096)
  | _ => false
  end.

Lemma connection_llm_ceiling_witness :
  exists a object, demo_llm_run = Some (Ok a) /\ ca_generation_max_output a = Some 4096 /\
    parse_unique_json (SJ := llm_serde) (ca_request_body a) = Ok (VObject object).
Proof.
  assert (P : demo_llm_passes = true) by (vm_compute; reflexivity).
  unfold demo_llm_passes in P. destruct demo_llm_run as [[a|]|] eqn:H; [|discriminate|discriminate].
  unfold str_eqb in P. reflect_bools.
  assert (C : ca_connection a = demo_llm_hub).
  { destruct (evaluate_connection_Ok _ _ _ _ _ _ _ H) as (_ & c & m & p & bd & op & Hc & _ & St).
    apply select_connection_Ok in Hc as (Hc & _ & _). apply list_elem_of_singleton in Hc. subst c.
    apply (st_connection _ _ _ _ _ _ _ _ _ St). }
  destruct (connection_llm_ceiling (SJ := llm_serde) (SL := table_serde_laws demo_llm_parser) _ _ _ _ _ _ _
    demo_model_limits AnthropicMessages H) as (object & Hp & _).
  - exact (f_equal (fun c => llm c) C).
  - cbn. unfold u32_max. lia.
  - assumption.
  - match goal with E : rendered_path _ = _ |- _ => rewrite E end. reflexivity.
  - reflexivity.
  - intros m p body op Hn. cbn in Hn. injection Hn as _ _ <- _. exact demo_insertable.
  - exists a, object. split; [reflexivity|]. split; [assumption|exact Hp].
Defined.
