(* ===== verification/Signed.v ===== *)
(** * Signed: documents that carry a signature

    [rekey-policy/src/signed.rs] and the validation of challenges in
    [rekey-domain/src/ipc.rs]: trust files, approval grants and challenge
    envelopes. Curves and signature schemes are the class [Signatures]; the
    decoders and encoders that serde derives for the records are the class
    [Documents]. Signed policy bundles need the loading of a snapshot and are not
    modelled. *)

From S2P Require Import Prelude Strings Errors Domain Codec Policy SessionState Approval Decimal Json.

Inductive PolicyTrustAlgorithm : Type := AlgEd25519 | SecureEnclaveP256.
#[export] Instance PolicyTrustAlgorithm_eq_dec : EqDecision PolicyTrustAlgorithm.
Proof. solve_decision. Defined.

Record PolicyTrustFile := mkPolicyTrustFile {
  tf_format_version : Z;
  tf_signer_id : Uuid;
  tf_algorithm : PolicyTrustAlgorithm;
  tf_public_key : string;
}.
Record SignedApprovalChallenge := mkSignedApprovalChallenge {
  sc_record_type : string;
  sc_challenge : ApprovalChallenge;
  sc_signature : string;
}.

Class Signatures := {
  (** Decompression, small order and canonical form on curve25519. *)
  curve_point_ok : Digest -> bool;
  (** [UnparsedPublicKey::parse] on P-256. *)
  p256_point_ok : list Z -> bool;
  (** Key, message, signature. *)
  ed25519_verify : list Z -> list Z -> list Z -> bool;
  p256_verify : list Z -> list Z -> list Z -> bool;
}.
Class Documents `{Serde} := {
  grant_from_value : JValue Number -> option SignedApprovalGrant;
  grant_from_slice : list Z -> option SignedApprovalGrant;
  trust_from_value : JValue Number -> option PolicyTrustFile;
  envelope_from_value : JValue Number -> option SignedApprovalChallenge;
  challenge_jcs : ApprovalChallenge -> option (list Z);
  trust_jcs : PolicyTrustFile -> option (list Z);
}.

Definition POLICY_FORMAT_VERSION : Z := 1.
Definition APPROVAL_FORMAT_VERSION : Z := 1.
Definition TRUST_MAX_BYTES : Z := 4 * 1024.
Definition SNAPSHOT_MAX_BYTES : Z := 64 * 1024.
Definition APPROVAL_GRANT_MAX_BYTES : Z := 4 * 1024.
Definition POLICY_SIGN_PREFIX : list Z := bytes_of "RKPOLICY" ++ [0; 1].
Definition APPROVAL_SIGN_PREFIX : list Z := bytes_of "RKAPPROVAL" ++ [0; 1].
Definition APPROVAL_CHALLENGE_SIGN_PREFIX : list Z := bytes_of "RKCHALLENGE" ++ [0; 2].

(** ** Challenges (ipc.rs) *)

Definition is_lower_hex (value : string) (expected_len : Z) : bool :=
  (slen value =? expected_len)
  && str_all (fun b => is_ascii_digit b || in_range 97 102 b) value.
Definition is_canonical_unpadded_base64url (value : string) (decoded_len : Z) : bool :=
  (slen value =? (decoded_len * 8 + 5) / 6)
  && str_all (fun b => is_ascii_alphanumeric b || bool_decide (b = "-"%char) || bool_decide (b = "_"%char)) value.
(** [keys.windows(2).all(|pair| pair[0] < pair[1])]. *)
Fixpoint strictly_sorted (keys : list string) : bool :=
  match keys with
  | a :: (b :: _) as rest =>
      match String.compare a b with Lt => strictly_sorted rest | _ => false end
  | _ => true
  end.
Definition valid_approval_approver (approver : ApproverSpec) (mode : ApprovalMode) (max_uses : Z) : bool :=
  match approver with
  | LocalPresence => bool_decide (mode = OneTime) && (max_uses =? 1)
  | Ed25519 keys threshold =>
      negb (bool_decide (keys = [])) && (llen keys <=? 32)
      && forallb (fun key => is_lower_hex key 64) keys && strictly_sorted keys
      && ((1 <=? threshold) && (threshold <=? 2)) && (threshold <=? llen keys)
  end.
Definition invalid_response : DomainError := InvalidAuthorization "invalid broker response".
(** [ApprovalChallenge::validate]; times are at least zero and ordered, so their
    difference does not saturate. *)
Definition challenge_validate (c : ApprovalChallenge) : result DomainError unit :=
  let valid_common :=
    str_eqb (ch_record_type c) "rekey.approval.challenge.v2"
    && (0 <? ch_action_version c) && is_ok (PolicyVersion_new (ch_policy_version c))
    && is_lower_hex (ch_parameter_sha256 c) 64 && is_lower_hex (ch_policy_sha256 c) 64
    && valid_approval_approver (ch_approver c) (ch_mode c) (ch_max_uses c)
    && (0 <=? ch_created_at_ms c) && (ch_created_at_ms c <? ch_max_expires_at_ms c) in
  let window_ms := i64_saturate (ch_max_expires_at_ms c - ch_created_at_ms c) in
  let valid_mode :=
    match ch_mode c with
    | OneTime => (ch_max_uses c =? 1) && (window_ms <=? 10 * 60 * 1000)
    | TimeWindow => (1 <=? ch_max_uses c) && (ch_max_uses c <=? 10000) && (window_ms <=? 8 * 60 * 60 * 1000)
    end in
  reject_if negb valid_common || negb valid_mode with invalid_response ;;
  Ok tt.
Definition envelope_validate (e : SignedApprovalChallenge) : result DomainError unit :=
  reject_if negb (str_eqb (sc_record_type e) "rekey.approval.challenge.envelope.v2")
            || negb (is_canonical_unpadded_base64url (sc_signature e) 64) with invalid_response ;;
  challenge_validate (sc_challenge e).

(** ** Signatures *)

Section WithLibraries.
Context {CC : Codecs} {SG : Signatures} {SJ : Serde} {DC : Documents}.
Abbreviation Value := (JValue Number).

Definition verify_detached (message : list Z) (signature : string) (public_key : list Z)
  : result PolicyError unit :=
  signature_bytes ← ok_or InvalidSignature (base64url_decode signature);
  reject_if negb (llen signature_bytes =? 64) || negb (str_eqb (base64url_encode signature_bytes) signature)
    with InvalidSignature ;;
  reject_if negb (ed25519_verify public_key message signature_bytes) with InvalidSignature ;;
  Ok tt.

Record PolicyVerificationKey := mkPolicyVerificationKey { pk_algorithm : PolicyTrustAlgorithm; pk_bytes : list Z }.
Definition verification_key_from_bytes (algorithm : PolicyTrustAlgorithm) (bytes : list Z)
  : result PolicyError PolicyVerificationKey :=
  _ ← match algorithm with
      | AlgEd25519 =>
          reject_if negb (llen bytes =? 32) with PolicyInvalid ;;
          _ ← validate_ed25519_public_key curve_point_ok (hexlower_encode bytes); Ok tt
      | SecureEnclaveP256 =>
          reject_if negb (llen bytes =? 65) || negb (bool_decide (head bytes = Some 4)) with PolicyInvalid ;;
          reject_if negb (p256_point_ok bytes) with PolicyInvalid ;;
          Ok tt
      end;
  Ok (mkPolicyVerificationKey algorithm bytes).
Definition verify_policy_signature (message : list Z) (signature : string) (key : PolicyVerificationKey)
  : result PolicyError unit :=
  signature_bytes ← ok_or InvalidSignature (base64url_decode signature);
  reject_if negb (str_eqb (base64url_encode signature_bytes) signature) with InvalidSignature ;;
  match pk_algorithm key with
  | AlgEd25519 =>
      reject_if negb (llen signature_bytes =? 64) with InvalidSignature ;;
      reject_if negb (ed25519_verify (pk_bytes key) message signature_bytes) with InvalidSignature ;;
      Ok tt
  | SecureEnclaveP256 =>
      reject_if negb (p256_verify (pk_bytes key) message signature_bytes) with InvalidSignature ;;
      Ok tt
  end.

(** [Map::remove]. *)
Definition object_remove (key : string) (l : list (string * Value)) : list (string * Value) :=
  retain (fun e => negb (str_eqb e.1 key)) l.
Definition signed_value_payload (value : Value) (prefix : list Z) : result PolicyError (list Z) :=
  object ← ok_or PolicyMalformed (as_object value);
  _ ← ok_or PolicyMalformed (value_get "signature" value);
  canonical ← ok_or PolicyMalformed (jcs (VObject (object_remove "signature" object)));
  Ok (prefix ++ canonical).
Definition verify_signed_value (value : Value) (signature : string) (prefix : list Z) (public_key : list Z)
  : result PolicyError unit :=
  message ← signed_value_payload value prefix;
  verify_detached message signature public_key.

(** ** Trust files *)

Record ValidatedPolicyTrust := mkValidatedPolicyTrust {
  tr_signer_id : Uuid;
  tr_key : PolicyVerificationKey;
  tr_canonical : list Z;
}.
Definition policy_trust_sha256 (signer_id : Uuid) (key : PolicyVerificationKey) : result PolicyError Digest :=
  canonical ← ok_or PolicyMalformed
    (trust_jcs (mkPolicyTrustFile POLICY_FORMAT_VERSION signer_id (pk_algorithm key) (hexlower_encode (pk_bytes key))));
  Ok (sha256 canonical).
Definition parse_policy_trust (bytes : list Z) : result PolicyError ValidatedPolicyTrust :=
  reject_if TRUST_MAX_BYTES <? llen bytes with PolicyTooLarge ;;
  value ← parse_unique_json bytes;
  trust ← ok_or PolicyMalformed (trust_from_value value);
  reject_if negb (tf_format_version trust =? POLICY_FORMAT_VERSION) with UnsupportedFormat ;;
  public_key ← ok_or PolicyInvalid (hexlower_decode (tf_public_key trust));
  reject_if negb (str_eqb (hexlower_encode public_key) (tf_public_key trust)) with PolicyInvalid ;;
  key ← verification_key_from_bytes (tf_algorithm trust) public_key;
  canonical ← ok_or PolicyMalformed (jcs value);
  Ok (mkValidatedPolicyTrust (tf_signer_id trust) key canonical).

(** ** Approval grants *)

Definition approver_key (snapshot : ValidatedSnapshot) (id : ApproverId) : option Digest :=
  snd <$> find_first (fun e => e.1 =? id) (snapshot_approvers snapshot).
Definition parse_and_verify_approval_grant (bytes : list Z) (snapshot : ValidatedSnapshot)
  : result PolicyError VerifiedApprovalGrant :=
  reject_if APPROVAL_GRANT_MAX_BYTES <? llen bytes with PolicyTooLarge ;;
  value ← parse_unique_json bytes;
  grant ← ok_or PolicyMalformed (grant_from_value value);
  reject_if negb (g_format_version grant =? APPROVAL_FORMAT_VERSION)
            || (g_action_version grant =? 0)
            || (g_not_before_ms grant <? 0)
            || (g_expires_at_ms grant <=? g_not_before_ms grant)
            || (g_max_uses grant =? 0)
            || (10000 <? g_max_uses grant)
            || (bool_decide (g_mode grant = OneTime) && negb (g_max_uses grant =? 1)) with PolicyInvalid ;;
  parameter_hash ← decode_lower_hex_32 (g_parameter_sha256 grant);
  policy_digest ← decode_lower_hex_32 (g_policy_sha256 grant);
  public_key ← ok_or InvalidSignature (approver_key snapshot (g_approver_id grant));
  _ ← verify_signed_value value (g_signature grant) APPROVAL_SIGN_PREFIX public_key;
  canonical ← ok_or PolicyMalformed (jcs value);
  Ok (mkVerifiedApprovalGrant grant parameter_hash policy_digest (sha256 canonical)).

(** ** Challenge envelopes *)

Definition approval_challenge_sign_payload (challenge : ApprovalChallenge) : result PolicyError (list Z) :=
  _ ← map_err (fun _ => PolicyInvalid) (challenge_validate challenge);
  canonical ← ok_or PolicyMalformed (challenge_jcs challenge);
  Ok (APPROVAL_CHALLENGE_SIGN_PREFIX ++ canonical).
Definition parse_and_verify_approval_challenge_envelope (bytes : list Z) (origin_public_key : Digest)
  : result PolicyError ApprovalChallenge :=
  reject_if SNAPSHOT_MAX_BYTES <? llen bytes with PolicyTooLarge ;;
  value ← parse_unique_json bytes;
  envelope ← ok_or PolicyMalformed (envelope_from_value value);
  _ ← map_err (fun _ => PolicyInvalid) (envelope_validate envelope);
  message ← approval_challenge_sign_payload (sc_challenge envelope);
  _ ← verify_detached message (sc_signature envelope) origin_public_key;
  Ok (sc_challenge envelope).

End WithLibraries.
