(* ===== verification/Relay.v ===== *)
(** * Relay: the approval relay's configuration, clocks and callers

    [rekey-approval-relay/src/main.rs], [directory.rs] and [auth.rs]: the
    configuration and its validation, the link of every person to the directory,
    and who a bearer token names. The relay's effects are a monad of state and
    errors over a [World] that answers the n-th reading of a clock and the n-th
    call of the file system and the database. *)

From S2P Require Import Prelude Strings Errors Domain Codec Policy SessionState Decimal Json Signed.

(** ** Libraries *)

Record Url := mkUrl {
  u_scheme : string; u_host : option string; u_username : string; u_password : option string;
  u_query : option string; u_fragment : option string; u_path : string }.

(** The uuid and url crates, serde_json's printer, and [i64] as a JSON number. *)
Class RelayLibs `{Serde} := {
  uuid_parse : string -> option Uuid;
  uuid_text : Uuid -> string;
  url_parse : string -> option Url;
  form_parse : list Z -> list (string * string);
  json_text : JValue Number -> list Z;
  number_from_i64 : Z -> Number;
  number_as_i64 : Number -> option Z;
}.

(** ** Configuration *)

Record Node := mkNode { node_id : string; vault_id : string }.
Record Link := mkLink {
  source_user_id : string;
  external_id : string;
  issuer : string;
  subject : string;
  principal_id : string;
  admin_allowed : bool;
  approver_id : option string;
  public_key_sha256 : option string;
  confirmed_by : string;
  confirmed_at_ms : Z;
}.
Record Directory := mkDirectory {
  base_url : string;
  ca_certificate_file : string;
  access_token_file : string;
  mapping_version : Z;
  nodes : list Node;
  links : list Link;
}.
Record Approver := mkApprover { ap_subject : string; ap_approver_id : string; ap_public_key : string }.
Record Config := mkConfig {
  format_version : Z;
  instance_id : string;
  endpoint : string;
  listen_address : string;
  state_dir : string;
  idp_issuer : string;
  introspection_url : string;
  introspection_client_id : string;
  personnel_client_id : string;
  audience : string;
  tenant_id : string;
  origin_public_key : string;
  uploader_subject : string;
  approvers : list Approver;
  directory : Directory;
}.

Definition stable (s : string) : bool :=
  negb (is_empty_str s) && (slen s <=? 256) && negb (any_control s).
(** [Path::is_absolute], on Unix. *)
Definition is_absolute (path : string) : bool := starts_with "/" path.
(** [BTreeSet::insert]: no change and [false] when present. *)
Definition fresh_in (x : string) (seen : list string) : bool := negb (bool_decide (x ∈ seen)).

Section WithLibraries.
Context {CC : Codecs} {SG : Signatures} {SJ : Serde} {RL : RelayLibs}.
(** [serde_json::to_vec] of a directory. *)
Context (directory_to_vec : Directory -> option (list Z)).

Definition canonical_uuid (s : string) : bool :=
  match uuid_parse s with Some id => str_eqb (uuid_text id) s | None => false end.
Definition sha (bytes : list Z) : string := hexlower_encode (sha256 bytes).
Definition https_url (s : string) : option Url :=
  u ← url_parse s;
  if negb (str_eqb (u_scheme u) "https") || bool_decide (u_host u = None)
     || negb (is_empty_str (u_username u)) || bool_decide (is_Some (u_password u))
     || bool_decide (is_Some (u_query u)) || bool_decide (is_Some (u_fragment u))
  then None else Some u.
Definition directory_digest (d : Directory) : option string := sha <$> directory_to_vec d.

(** [Directory::validate]: the nodes. *)
Fixpoint nodes_ok (seen_nodes seen_vaults : list string) (l : list Node) : bool :=
  match l with
  | [] => true
  | n :: rest =>
      canonical_uuid (node_id n) && canonical_uuid (vault_id n)
      && fresh_in (node_id n) seen_nodes && fresh_in (vault_id n) seen_vaults
      && nodes_ok (node_id n :: seen_nodes) (vault_id n :: seen_vaults) rest
  end.

Record Seen := mkSeen {
  seen_sources : list string; seen_external : list string; seen_subjects : list string;
  seen_principals : list string; seen_approvers : list string }.
Definition has_subject (s : string) (l : list Approver) : bool := existsb (fun a => str_eqb (ap_subject a) s) l.
(** The two confirmations of an approver, both or neither. *)
Definition approver_link_ok (c : Config) (seen : Seen) (l : Link) : bool :=
  match approver_id l, public_key_sha256 l with
  | None, None => negb (has_subject (subject l) (approvers c))
  | Some id, Some key =>
      canonical_uuid id && fresh_in id (seen_approvers seen) && (slen key =? 64)
      && str_all (fun b => is_ascii_digit b || in_range 97 102 b) key
      && existsb (fun a => str_eqb (ap_subject a) (subject l) && str_eqb (ap_approver_id a) id) (approvers c)
  | _, _ => false
  end.
Definition link_ok (c : Config) (now : Z) (seen : Seen) (l : Link) : bool :=
  negb (is_empty_str (source_user_id l)) && (slen (source_user_id l) <=? 256)
  && negb (bool_decide (source_user_id l ∈ ["."; ".."]))
  && str_all (fun b => is_ascii_alphanumeric b || str_contains b "-_.~") (source_user_id l)
  && stable (external_id l) && str_eqb (issuer l) (idp_issuer c) && stable (subject l)
  && canonical_uuid (principal_id l) && stable (confirmed_by l)
  && (0 <? confirmed_at_ms l) && (confirmed_at_ms l <=? now)
  && fresh_in (source_user_id l) (seen_sources seen) && fresh_in (external_id l) (seen_external seen)
  && fresh_in (subject l) (seen_subjects seen) && fresh_in (principal_id l) (seen_principals seen)
  && approver_link_ok c seen l
  && (admin_allowed l || str_eqb (subject l) (uploader_subject c) || has_subject (subject l) (approvers c)).
Definition seen_after (seen : Seen) (l : Link) : Seen :=
  mkSeen (source_user_id l :: seen_sources seen) (external_id l :: seen_external seen)
    (subject l :: seen_subjects seen) (principal_id l :: seen_principals seen)
    (match approver_id l with Some id => id :: seen_approvers seen | None => seen_approvers seen end).
(** The clock is read once per link. *)
Fixpoint links_ok (c : Config) (now : nat -> Z) (i : nat) (seen : Seen) (l : list Link) : option Seen :=
  match l with
  | [] => Some seen
  | x :: rest => if link_ok c (now i) seen x then links_ok c now (S i) (seen_after seen x) rest else None
  end.

(** Every failure of the validation is the same ["invalid-config"]. *)
Definition directory_validate (c : Config) (now : nat -> Z) : bool :=
  let d := directory c in
  match https_url (base_url d) with
  | None => false
  | Some base =>
      negb (contains_str "//" (u_path base)) && negb (mapping_version d =? 0) && (mapping_version d <=? i64_max)
      && (llen (nodes d) =? 2) && negb (bool_decide (links d = [])) && (llen (links d) <=? 32)
      && existsb admin_allowed (links d)
      && is_absolute (ca_certificate_file d) && is_absolute (access_token_file d)
      && nodes_ok [] [] (nodes d)
      && match links_ok c now 0 (mkSeen [] [] [] [] []) (links d) with
         | None => false
         | Some seen =>
             bool_decide (uploader_subject c ∈ seen_subjects seen)
             && forallb (fun a => bool_decide (ap_subject a ∈ seen_subjects seen)) (approvers c)
         end
  end.

(** [Config::validate]: the approvers. *)
Fixpoint approvers_ok (c : Config) (subjects ids keys : list string) (l : list Approver) : bool :=
  match l with
  | [] => true
  | a :: rest =>
      stable (ap_subject a) && canonical_uuid (ap_approver_id a) && fresh_in (ap_subject a) subjects
      && fresh_in (ap_approver_id a) ids && fresh_in (ap_public_key a) keys
      && match validate_ed25519_public_key curve_point_ok (ap_public_key a) with
         | Err _ => false
         | Ok key =>
             existsb (fun link => str_eqb (subject link) (ap_subject a)
                && bool_decide (approver_id link = Some (ap_approver_id a))
                && bool_decide (public_key_sha256 link = Some (sha key))) (links (directory c))
         end
      && approvers_ok c (ap_subject a :: subjects) (ap_approver_id a :: ids) (ap_public_key a :: keys) rest
  end.
Definition config_validate (c : Config) (now : nat -> Z) : bool :=
  (format_version c =? 3) && canonical_uuid (instance_id c) && canonical_uuid (tenant_id c)
  && match https_url (endpoint c) with Some u => str_eqb (u_path u) "/v1" | None => false end
  && negb (bool_decide (approvers c = [])) && (llen (approvers c) <=? 32) && is_absolute (state_dir c)
  && bool_decide (is_Some (https_url (introspection_url c))) && bool_decide (is_Some (https_url (idp_issuer c)))
  && (slen (idp_issuer c) <=? 256)
  && is_ok (validate_ed25519_public_key curve_point_ok (origin_public_key c))
  && approvers_ok c [] [] [] (approvers c)
  && forallb stable [uploader_subject c; introspection_client_id c; personnel_client_id c; audience c]
  && directory_validate c now.

End WithLibraries.

(** ** The world, state and errors *)

Inductive RelayError : Type := Http (status : Z) | Storage.
#[export] Instance RelayError_eq_dec : EqDecision RelayError.
Proof. solve_decision. Defined.

(** Milliseconds since the Unix epoch, unless the clock is before it; the monotonic
    clock; and whether the n-th check of the state files and the n-th call of SQLite
    succeed. *)
Class World := {
  since_epoch : nat -> option N;
  mono : nat -> Instant;
  files_ok : nat -> bool;
  db_ok : nat -> bool;
}.
(** [now_ms]. *)
Definition wall `{World} (n : nat) : Z :=
  match since_epoch n with
  | Some d => if Z.of_N d <=? i64_max then Z.of_N d else i64_max
  | None => i64_max
  end.
Lemma wall_range `{World} n : 0 <= wall n <= i64_max.
Proof.
  unfold wall. assert (0 <= i64_max) by done. destruct (since_epoch n) as [d|]; [|lia].
  destruct (Z.leb_spec (Z.of_N d) i64_max); lia.
Qed.
