(* ===== verification/RelayStore.v ===== *)
(** * RelayStore: the approval relay's transactions

    [rekey-approval-relay/src/relay.rs], [Store]: the tables as lists in insertion
    order, each method as one transaction over a working copy that [commit] makes
    durable. [SELECT .. ORDER BY] sorts, a violated primary key is an error. *)

From S2P Require Import Prelude Strings Errors Domain Codec Policy SessionState Approval Decimal Json Signed.
From S2P Require Import Relay.

Definition RETENTION : Z := 24 * 60 * 60 * 1000.
Definition MAX_BLOBS : Z := 64 * 1024 * 1024.
Definition MAX_REQUESTS : Z := 4096.
Definition MAX_EVENTS : Z := 32768.

(** ** Tables *)

Record GrantFile := mkGrantFile {
  gf_bytes : list Z; gf_sha : string; gf_accepted : Z; gf_expires : Z; gf_receipt : list Z }.
(** A row of [requests]; the five grant columns are set together. *)
Record Request := mkRequest {
  rq_id : string;
  rq_tenant : string;
  rq_issuer : string;
  rq_uploader : string;
  rq_recipient : string;
  rq_approver : string;
  rq_challenge : list Z;
  rq_challenge_sha : string;
  rq_accepted : Z;
  rq_expires : Z;
  rq_receipt : list Z;
  rq_grant : option GrantFile;
}.
Definition set_grant (g : GrantFile) (r : Request) : Request :=
  mkRequest (rq_id r) (rq_tenant r) (rq_issuer r) (rq_uploader r) (rq_recipient r) (rq_approver r)
    (rq_challenge r) (rq_challenge_sha r) (rq_accepted r) (rq_expires r) (rq_receipt r) (Some g).
Record Event := mkEvent {
  ev_issuer : string; ev_subject : string; ev_request : string; ev_kind : string; ev_sha : string;
  ev_created : Z; ev_result : string }.
Record SubjectRow := mkSubjectRow { sr_subject : string; sr_source : string; sr_digest : string; sr_tombstone : bool }.
Record Revocation := mkRevocation { rv_subject : string; rv_receipt : list Z; rv_affected : list string }.
Record NodeRow := mkNodeRow { nr_subject : string; nr_node : string; nr_vault : string }.
Record DirectoryAudit := mkDirectoryAudit { da_subject : string; da_digest : string; da_body_sha : string; da_created : Z }.
Record Database := mkDatabase {
  requests : list Request;
  events : list Event;
  subjects : list SubjectRow;
  revocations : list Revocation;
  node_rows : list NodeRow;
  audits : list DirectoryAudit;
}.
Definition set_requests l d := mkDatabase l (events d) (subjects d) (revocations d) (node_rows d) (audits d).
Definition set_events l d := mkDatabase (requests d) l (subjects d) (revocations d) (node_rows d) (audits d).
Definition set_subjects l d := mkDatabase (requests d) (events d) l (revocations d) (node_rows d) (audits d).
Definition set_revocations l d := mkDatabase (requests d) (events d) (subjects d) l (node_rows d) (audits d).
Definition set_node_rows l d := mkDatabase (requests d) (events d) (subjects d) (revocations d) l (audits d).
Definition set_audits l d := mkDatabase (requests d) (events d) (subjects d) (revocations d) (node_rows d) l.

Definition request_of (id : string) (d : Database) : option Request :=
  find_first (fun r => str_eqb (rq_id r) id) (requests d).
Definition subject_row (s : string) (d : Database) : option SubjectRow :=
  find_first (fun r => str_eqb (sr_subject r) s) (subjects d).
(** [sum(length(challenge) + coalesce(length(grant), 0))]. *)
Definition request_size (r : Request) : Z :=
  llen (rq_challenge r) + match rq_grant r with Some g => llen (gf_bytes g) | None => 0 end.
Definition blob_total (d : Database) : Z := fold_right (fun r n => request_size r + n) 0 (requests d).

(** [INSERT], with its primary key, and [UPDATE .. WHERE id = ?]. *)
Definition insert_request (r : Request) (d : Database) : option Database :=
  if bool_decide (rq_id r ∈ map rq_id (requests d)) then None
  else Some (set_requests (requests d ++ [r]) d).
Definition update_grant (id : string) (g : GrantFile) (d : Database) : option Database :=
  Some (set_requests (map (fun r => if str_eqb (rq_id r) id then set_grant g r else r) (requests d)) d).
Definition insert_event (e : Event) (d : Database) : option Database := Some (set_events (events d ++ [e]) d).
Definition set_tombstone (s : string) (d : Database) : option Database :=
  Some (set_subjects (map (fun r => if str_eqb (sr_subject r) s
    then mkSubjectRow (sr_subject r) (sr_source r) (sr_digest r) true else r) (subjects d)) d).
Definition insert_revocation (v : Revocation) (d : Database) : option Database :=
  if bool_decide (rv_subject v ∈ map rv_subject (revocations d))
     || negb (bool_decide (rv_subject v ∈ map sr_subject (subjects d))) then None
  else Some (set_revocations (revocations d ++ [v]) d).
Definition insert_node (n : NodeRow) (d : Database) : option Database :=
  if existsb (fun m => str_eqb (nr_subject m) (nr_subject n) && str_eqb (nr_node m) (nr_node n)) (node_rows d) then None
  else Some (set_node_rows (node_rows d ++ [n]) d).
Definition insert_audit (a : DirectoryAudit) (d : Database) : option Database :=
  if bool_decide (da_subject a ∈ map da_subject (audits d)) then None
  else Some (set_audits (audits d ++ [a]) d).

(** [ORDER BY]. *)
Fixpoint insert_by {A} (le : A -> A -> bool) (x : A) (l : list A) : list A :=
  match l with
  | [] => [x]
  | y :: r => if le x y then x :: l else y :: insert_by le x r
  end.
Definition sort_by {A} (le : A -> A -> bool) (l : list A) : list A := fold_right (insert_by le) [] l.
(** Byte order of texts. *)
Definition text_le (a b : string) : bool := match String.compare a b with Gt => false | _ => true end.
Definition text_lt (a b : string) : bool := match String.compare a b with Lt => true | _ => false end.

(** ** The monad *)

(** When a subject was last seen active, when the token of that reading expires,
    and when it was received. *)
Record Freshness := mkFreshness { fr_observed : Instant; fr_expires : Z; fr_received : Z }.
(** [db] is durable, [tx] the transaction's view. *)
Record Relay := mkRelay {
  db : Database;
  tx : Database;
  fresh : gmap string Freshness;
  fault : bool;
  tick : nat;
}.
Definition R (A : Type) : Type := Relay -> result RelayError A * Relay.
#[export] Instance R_ret : MRet R := fun A a s => (Ok a, s).
#[export] Instance R_bind : MBind R := fun A B f m s =>
  match m s with
  | (Ok a, s) => f a s
  | (Err e, s) => (Err e, s)
  end.
Definition fail {A} (e : RelayError) : R A := fun s => (Err e, s).
Definition modify (f : Relay -> Relay) : R unit := fun s => (Ok tt, f s).
Definition reads {A} (f : Relay -> A) : R A := fun s => (Ok (f s), s).
Definition deny_if (b : bool) (e : RelayError) : R unit := if b then fail e else mret tt.
Definition result_option {E A} (r : result E A) : option A := match r with Ok a => Some a | Err _ => None end.
Definition some_or {A} (e : RelayError) (o : option A) : R A :=
  match o with Some a => mret a | None => fail e end.
Fixpoint each {A} (f : A -> R unit) (l : list A) : R unit :=
  match l with
  | [] => mret tt
  | x :: rest => _ ← f x; each f rest
  end.

Definition set_tick n s := mkRelay (db s) (tx s) (fresh s) (fault s) n.
Definition set_tx t s := mkRelay (db s) t (fresh s) (fault s) (tick s).
Definition set_db d s := mkRelay d (tx s) (fresh s) (fault s) (tick s).
Definition set_fresh f s := mkRelay (db s) (tx s) f (fault s) (tick s).
Definition set_fault b s := mkRelay (db s) (tx s) (fresh s) b (tick s).
Definition ticked s := set_tick (S (tick s)) s.

Section WithWorld.
Context {W : World}.

Definition now_ms : R Z := fun s => (Ok (wall (tick s)), ticked s).
Definition instant_now : R Instant := fun s => (Ok (mono (tick s)), ticked s).
Definition check_files : R unit := fun s => (if files_ok (tick s) then Ok tt else Err Storage, ticked s).
Definition query {A} (f : Database -> A) : R A := fun s =>
  (if db_ok (tick s) then Ok (f (tx s)) else Err Storage, ticked s).
Definition execute (f : Database -> option Database) : R unit := fun s =>
  if db_ok (tick s) then
    match f (tx s) with
    | Some t => (Ok tt, ticked (set_tx t s))
    | None => (Err Storage, ticked s)
    end
  else (Err Storage, ticked s).
(** A statement that also answers a number of rows. *)
Definition execute_count (f : Database -> Database * Z) : R Z := fun s =>
  if db_ok (tick s) then let '(t, n) := f (tx s) in (Ok n, ticked (set_tx t s)) else (Err Storage, ticked s).
(** A transaction that is dropped leaves [db] alone. *)
Definition transaction : R unit := fun s =>
  if db_ok (tick s) then (Ok tt, ticked (set_tx (db s) s)) else (Err Storage, ticked s).
Definition commit : R unit := fun s =>
  if db_ok (tick s) then (Ok tt, ticked (set_db (tx s) s)) else (Err Storage, ticked s).

(** ** Callers *)

Record Identity := mkIdentity { who_subject : string; expires_ms : Z }.
(** [Identity::recheck]. *)
Definition recheck (who : Identity) (deadline : Instant) : R unit :=
  now ← instant_now;
  if deadline <=? now then fail (Http 503)
  else
    ms ← now_ms;
    deny_if (expires_ms who <=? ms) (Http 401).

Section WithLibraries.
Context {CC : Codecs} {SG : Signatures} {SJ : Serde} {RL : RelayLibs} {DC : Documents}.
Context (directory_to_vec : Directory -> option (list Z)).
Abbreviation Value := (JValue Number).
Notation sha := (@sha CC).

Definition json_object (l : list (string * Value)) : Value :=
  VObject (fold_left (fun m e => map_insert e.1 e.2 m) l []).
Definition i64 (n : Z) : Value := VNumber (number_from_i64 n).
Definition u64 (n : Z) : Value := VNumber (number_from_u64 n).
Definition opt_string (o : option string) : Value := match o with Some s => VString s | None => VNull end.
Definition node_value (n : Node) : Value :=
  json_object [("nodeId", VString (node_id n)); ("vaultId", VString (vault_id n))].

Definition digest_of (c : Config) : R string :=
  some_or Storage (directory_digest directory_to_vec (directory c)).
Definition link_of (c : Config) (s : string) : option Link :=
  find_first (fun l => str_eqb (subject l) s) (links (directory c)).

(** The tables of a new store, [Store::open]: one row per link. *)
Definition insert_subject (r : SubjectRow) (d : Database) : option Database :=
  if bool_decide (sr_subject r ∈ map sr_subject (subjects d)) || bool_decide (sr_source r ∈ map sr_source (subjects d))
  then None else Some (set_subjects (subjects d ++ [r]) d).
Fixpoint insert_links (digest : string) (l : list Link) (d : Database) : option Database :=
  match l with
  | [] => Some d
  | x :: rest =>
      d ← insert_subject (mkSubjectRow (subject x) (source_user_id x) digest false) d;
      insert_links digest rest d
  end.
Definition new_database (c : Config) : option Database :=
  digest ← directory_digest directory_to_vec (directory c);
  insert_links digest (links (directory c)) (mkDatabase [] [] [] [] [] []).

(** [Store::gate]: the subject is linked, not offboarded, and seen active at most a
    minute ago under a token that has not expired. *)
Definition gate (c : Config) (s : string) (offboard_status : Z) : R unit :=
  link ← some_or (Http 503) (link_of c s);
  saved ← query (subject_row s);
  saved ← some_or Storage saved;
  _ ← (if negb (str_eqb (sr_source saved) (source_user_id link)) then fail Storage
       else digest ← digest_of c; deny_if (negb (str_eqb (sr_digest saved) digest)) Storage);
  _ ← deny_if (sr_tombstone saved) (Http offboard_status);
  fresh ← reads (fun st => fresh st !! s);
  match fresh with
  | None => fail (Http 503)
  | Some f =>
      now ← instant_now;
      if 60 * 1000000000 <? Z.max 0 (now - fr_observed f) then fail (Http 503)
      else
        ms ← now_ms;
        deny_if (fr_expires f <=? ms) (Http 503)
  end.

(** [Store::event]. *)
Definition event (issuer subject id kind digest result : string) : R unit :=
  n ← query (fun d => llen (events d));
  _ ← deny_if (MAX_EVENTS <=? n) (Http 503);
  created ← now_ms;
  execute (insert_event (mkEvent issuer subject id kind digest created result)).
(** [Store::audit]. *)
Definition audit (c : Config) (subject : option string) (id kind : string) (status : Z) : R unit :=
  _ ← check_files;
  _ ← transaction;
  _ ← event (if subject then idp_issuer c else "unknown") (default "unknown" subject) id kind ""
        ("http-" +:+ dec status);
  commit.
(** [Store::cleanup]. *)
Definition retained (before : Z) (r : Request) : bool :=
  negb ((rq_accepted r <? before)
        && match rq_grant r with None => true | Some g => gf_accepted g <? before end).
Definition delete_requests (before : Z) (d : Database) : Database * Z :=
  let kept := retain (retained before) (requests d) in
  (set_requests kept d, llen (requests d) - llen kept).
Definition delete_events (before : Z) (d : Database) : Database * Z :=
  let kept := retain (fun e => negb (ev_created e <? before)) (events d) in
  (set_events kept d, llen (events d) - llen kept).
Definition cleanup (c : Config) : R unit :=
  _ ← check_files;
  _ ← transaction;
  now ← now_ms;
  let before := i64_saturating_sub now RETENTION in
  deleted ← execute_count (delete_requests before);
  events ← execute_count (delete_events before);
  _ ← (if (0 <? deleted) || (0 <? events)
       then event (idp_issuer c) "unknown" "" "retention" "" "retained-expired" else mret tt);
  commit.

(** ** The directory *)

Inductive State : Type := Active | Unknown | Removed (body_sha : string).
Record Observation := mkObservation {
  ob_state : State; ob_received_ms : Z; ob_completed : Instant; ob_token_expires_ms : Z }.
(** [s.trim_end_matches(c)]. *)
Fixpoint trim_end_matches (c : ascii) (s : string) : string :=
  match s with
  | EmptyString => EmptyString
  | String a r =>
      match trim_end_matches c r with
      | EmptyString => if bool_decide (a = c) then EmptyString else String a EmptyString
      | rest => String a rest
      end
  end.
(** [Directory::resource]. *)
Definition resource (d : Directory) (l : Link) : string :=
  trim_end_matches "/"%char (base_url d) +:+ "/Users/" +:+ source_user_id l.
Definition revocation_receipt (c : Config) (l : Link) (digest body_sha : string) (received applied : Z) : Value :=
  json_object [
    ("recordType", VString "rekey.directory.revocation.v1"); ("issuer", VString (issuer l));
    ("subject", VString (subject l)); ("sourceUserId", VString (source_user_id l));
    ("externalId", VString (external_id l)); ("principalId", VString (principal_id l));
    ("approverId", opt_string (approver_id l)); ("publicKeySha256", opt_string (public_key_sha256 l));
    ("confirmedBy", VString (confirmed_by l)); ("confirmedAtMs", i64 (confirmed_at_ms l));
    ("mappingVersion", u64 (mapping_version (directory c))); ("mappingSha256", VString digest);
    ("sourceResourceSha256", VString (sha (bytes_of (resource (directory c) l))));
    ("sourceBodySha256", VString body_sha); ("receivedAtMs", i64 received); ("appliedAtMs", i64 applied)].
(** The requests of a person, [ORDER BY id]. *)
Definition requests_of (s : string) (d : Database) : list string :=
  sort_by text_le (map rq_id (List.filter (fun r => str_eqb (rq_uploader r) s || str_eqb (rq_recipient r) s) (requests d))).
(** The removal of a person: a tombstone for good, a receipt, a pending entry per
    node. [affected_ids] is kept as the list whose JSON the column holds. *)
Definition offboard (c : Config) (l : Link) (digest body_sha : string) (received : Z) : R unit :=
  affected ← query (requests_of (subject l));
  _ ← deny_if (MAX_REQUESTS <? llen affected) Storage;
  applied ← now_ms;
  _ ← execute (set_tombstone (subject l));
  _ ← execute (insert_revocation (mkRevocation (subject l)
        (json_text (revocation_receipt c l digest body_sha received applied)) affected));
  _ ← each (fun n => execute (insert_node (mkNodeRow (subject l) (node_id n) (vault_id n)))) (nodes (directory c));
  execute (insert_audit (mkDirectoryAudit (subject l) digest body_sha applied)).
(** [Store::apply_directory]. *)
Definition apply_directory (c : Config) (l : Link) (result : Observation) : R unit :=
  _ ← check_files;
  digest ← digest_of c;
  _ ← transaction;
  saved ← query (subject_row (subject l));
  saved ← some_or Storage saved;
  _ ← deny_if (negb (str_eqb (sr_source saved) (source_user_id l))
               || negb (str_eqb (sr_digest saved) digest)
               || negb (existsb (fun r => str_eqb (subject r) (subject l)
                          && str_eqb (source_user_id r) (source_user_id l)) (links (directory c)))) Storage;
  valid_active ← match ob_state result with
    | Active => now ← now_ms; mret ((now <? ob_token_expires_ms result) && negb (sr_tombstone saved))
    | _ => mret false
    end;
  _ ← match ob_state result with
      | Removed body_sha =>
          if sr_tombstone saved then mret tt else offboard c l digest body_sha (ob_received_ms result)
      | _ => mret tt
      end;
  _ ← commit;
  _ ← modify (fun s => set_fresh (if valid_active : bool
        then <[subject l := mkFreshness (ob_completed result) (ob_token_expires_ms result) (ob_received_ms result)]> (fresh s)
        else delete (subject l) (fresh s)) s);
  check_files.

(** ** What a caller may ask *)

Record Output := mkOutput { out_status : Z; out_bytes : list Z; out_digest : option string; out_expires : option Z }.
(** [Output::receipt]. *)
Definition output_receipt (status : Z) (bytes : list Z) : Output := mkOutput status bytes None None.

(** [Store::admin_identity]. *)
Definition admin_identity (c : Config) (who : Identity) (deadline : Instant) : R Output :=
  link ← some_or (Http 503) (link_of c (who_subject who));
  _ ← check_files;
  _ ← transaction;
  _ ← gate c (who_subject who) 403;
  _ ← recheck who deadline;
  _ ← deny_if (negb (admin_allowed link)) (Http 403);
  seen ← reads (fun s => fresh s !! who_subject who);
  seen ← some_or (Http 503) seen;
  digest ← digest_of c;
  let bytes := json_text (json_object [
    ("formatVersion", u64 1); ("issuer", VString (issuer link)); ("subject", VString (subject link));
    ("principalId", VString (principal_id link)); ("mappingVersion", u64 (mapping_version (directory c)));
    ("mappingSha256", VString digest); ("nodes", VArray (map node_value (nodes (directory c))));
    ("observedAtMs", i64 (fr_received seen))]) in
  _ ← deny_if (4096 <? llen bytes) (Http 503);
  _ ← event (idp_issuer c) (who_subject who) "" "directory-admin-identity" "" "observed";
  _ ← gate c (who_subject who) 403;
  _ ← recheck who deadline;
  _ ← commit;
  _ ← check_files;
  mret (output_receipt 200 bytes).

(** [Store::revocations]: one item per offboarded person. *)
Definition MAPPING_FIELDS : list string :=
  ["confirmedBy"; "confirmedAtMs"; "publicKeySha256"; "issuer"; "mappingVersion"; "mappingSha256"].
Definition node_status (n : NodeRow) : Value :=
  json_object [("nodeId", VString (nr_node n)); ("vaultId", VString (nr_vault n)); ("status", VString "pending")].
(** An item keeps its listed ids and the number left out beside the rest. *)
Record Item := mkItem { it_fields : list (string * Value); it_ids : list string; it_left_out : Z }.
Definition item_value (i : Item) : Value :=
  VObject (map_insert "truncatedRequestCount" (u64 (it_left_out i))
    (map_insert "affectedRequestIds" (VArray (map VString (it_ids i))) (it_fields i))).
Fixpoint revocation_items (c : Config) (items : list Item) (rows : list Revocation) : R (list Item) :=
  match rows with
  | [] => mret items
  | v :: rest =>
      value ← some_or Storage (from_slice (rv_receipt v));
      object ← some_or Storage (as_object value);
      let object := retain (fun e => negb (bool_decide (e.1 ∈ MAPPING_FIELDS))) object in
      nodes ← query (fun d => sort_by (fun a b => text_le (nr_node a) (nr_node b))
        (List.filter (fun n => str_eqb (nr_subject n) (rv_subject v)) (node_rows d)));
      _ ← deny_if (negb (llen nodes =? 2) || (32 <=? llen items)) Storage;
      revocation_items c (items ++ [mkItem (map_insert "nodes" (VArray (map node_status nodes)) object)
        (take 8 (rv_affected v)) (Z.of_nat (length (rv_affected v) - 8))]) rest
  end.
Definition revocations_text (c : Config) (digest : string) (items : list Item) : list Z :=
  json_text (json_object [
    ("recordType", VString "rekey.directory.revocations.v1"); ("issuer", VString (idp_issuer c));
    ("mappingVersion", u64 (mapping_version (directory c))); ("mappingSha256", VString digest);
    ("items", VArray (map item_value items));
    ("snapshot", VString "transport-only; node policy application pending")]).
(** The last item that still lists an id gives one up. *)
Definition drop_id (i : Item) : option Item :=
  match it_ids i with
  | [] => None
  | ids => Some (mkItem (it_fields i) (removelast ids) (it_left_out i + 1))
  end.
Fixpoint trim_last (items : list Item) : option (list Item) :=
  match items with
  | [] => None
  | i :: rest =>
      match trim_last rest with
      | Some rest => Some (i :: rest)
      | None => match drop_id i with Some i => Some (i :: rest) | None => None end
      end
  end.
(** Every turn drops an id. *)
Fixpoint fit (fuel : nat) (c : Config) (items : list Item) : R (list Z) :=
  digest ← digest_of c;
  let bytes := revocations_text c digest items in
  if llen bytes <=? 64 * 1024 then mret bytes
  else match trim_last items, fuel with
  | Some items, S fuel => fit fuel c items
  | _, _ => fail Storage
  end.
Definition listed (items : list Item) : nat := fold_right (fun i n => (length (it_ids i) + n)%nat) 0%nat items.
Definition revocations_op (c : Config) (who : Identity) (deadline : Instant) : R Output :=
  _ ← deny_if (negb (str_eqb (who_subject who) (uploader_subject c))) (Http 403);
  _ ← check_files;
  _ ← transaction;
  _ ← gate c (who_subject who) 503;
  _ ← recheck who deadline;
  rows ← query (fun d => sort_by (fun a b => text_le (rv_subject a) (rv_subject b)) (revocations d));
  items ← revocation_items c [] rows;
  bytes ← fit (listed items) c items;
  _ ← event (idp_issuer c) (who_subject who) "" "directory-revocations" "" "downloaded";
  _ ← gate c (who_subject who) 503;
  _ ← recheck who deadline;
  _ ← commit;
  _ ← check_files;
  mret (output_receipt 200 bytes).

(** ** The inbox *)

Record InboxQuery := mkInboxQuery { iq_after : option (Z * string); iq_include_expired : bool }.
(** [InboxQuery::parse]. *)
Fixpoint inbox_fields (after : option (Z * string)) (include_expired : option bool) (l : list (string * string))
  : option InboxQuery :=
  match l with
  | [] => Some (mkInboxQuery after (default false include_expired))
  | (key, value) :: rest =>
      if str_eqb key "cursor" && bool_decide (after = None) then
        if 64 <? slen value then None
        else
          '(stamp, id) ← split_once ":" value;
          created ← parse_i64 stamp;
          if (created <? 0) || negb (str_eqb (dec_signed created) stamp) || negb (canonical_uuid id) then None
          else inbox_fields (Some (created, id)) include_expired rest
      else if str_eqb key "includeExpired" && bool_decide (include_expired = None) then
        if str_eqb value "true" then inbox_fields after (Some true) rest
        else if str_eqb value "false" then inbox_fields after (Some false) rest
        else None
      else None
  end.
Definition inbox_parse (query : option string) : option InboxQuery :=
  let query := default "" query in
  if 256 <? slen query then None else inbox_fields None None (form_parse (bytes_of query)).

(** The rows of a page, and how their last transport event ended. *)
Definition visible (c : Config) (who approver : string) (r : Request) : bool :=
  (str_eqb (rq_uploader r) who && str_eqb (rq_uploader r) (uploader_subject c))
  || (str_eqb (rq_recipient r) who && str_eqb (rq_approver r) approver).
Definition unexpired (snapshot : Z) (r : Request) : bool :=
  (snapshot <? rq_expires r) && match rq_grant r with None => true | Some g => snapshot <? gf_expires g end.
Definition key_lt (a b : Z * string) : bool := (a.1 <? b.1) || ((a.1 =? b.1) && text_lt a.2 b.2).
Definition key_of (r : Request) : Z * string := (rq_accepted r, rq_id r).
Definition inbox_rows (c : Config) (who approver : string) (query : InboxQuery) (snapshot : Z) (d : Database)
  : list Request :=
  let after := default (-1, "") (iq_after query) in
  take 26 (sort_by (fun a b => negb (key_lt (key_of b) (key_of a)))
    (List.filter (fun r => visible c who approver r
       && (iq_include_expired query || unexpired snapshot r) && key_lt after (key_of r)) (requests d))).
Definition last_transport_result (c : Config) (r : Request) (d : Database) : option string :=
  ev_result <$> last (List.filter (fun e => str_eqb (ev_request e) (rq_id r) && str_eqb (ev_issuer e) (idp_issuer c)
    && (str_eqb (ev_subject e) (rq_uploader r) || str_eqb (ev_subject e) (rq_recipient r))
    && (str_eqb (ev_kind e) "challenge" || str_eqb (ev_kind e) "grant")
    && negb (str_eqb (ev_result e) "downloaded")) (events d)).
Definition transport_status (snapshot : Z) (expires : Z) (last : option string) (r : Request) : string :=
  if rq_grant r then (if expires <=? snapshot then "grant-expired" else "grant-stored")
  else if expires <=? snapshot then "expired"
  else if match last with Some s => starts_with_str "http-" s | None => false end then "transport-failed"
  else "awaiting-review".
Definition effective_expiry (r : Request) : Z :=
  match rq_grant r with Some g => Z.min (gf_expires g) (rq_expires r) | None => rq_expires r end.
Definition inbox_item (c : Config) (snapshot : Z) (last : option string) (r : Request) : Value :=
  json_object [
    ("requestId", VString (rq_id r)); ("sourceLabel", VString ("ed25519:" +:+ origin_public_key c));
    ("createdAtMs", i64 (rq_accepted r)); ("expiresAtMs", i64 (effective_expiry r));
    ("transportStatus", VString (transport_status snapshot (effective_expiry r) last r));
    ("detailPath", VString ("/v1/requests/" +:+ rq_id r +:+ "/challenge"));
    ("receiptPath", VString ("/v1/requests/" +:+ rq_id r +:+ "/receipt"))].
(** The first expiry on the page. *)
Definition first_expiry (rows : list Request) : option Z :=
  fold_left (fun m r => Some (match m with Some p => Z.min p (effective_expiry r) | None => effective_expiry r end))
    rows None.
(** [BTreeSet::insert], as an ascending list. *)
Fixpoint insert_text (x : string) (l : list string) : list string :=
  match l with
  | [] => [x]
  | y :: r => match String.compare x y with Lt => x :: l | Eq => l | Gt => y :: insert_text x r end
  end.
(** The parties of every row are current, and collected. *)
Fixpoint gate_rows (c : Config) (participants : list string) (rows : list Request) : R (list string) :=
  match rows with
  | [] => mret participants
  | r :: rest =>
      parties ← query (request_of (rq_id r));
      parties ← some_or Storage parties;
      _ ← gate c (rq_uploader parties) 503;
      _ ← gate c (rq_recipient parties) 503;
      gate_rows c (insert_text (rq_recipient parties) (insert_text (rq_uploader parties) participants)) rest
  end.
Definition approver_of (c : Config) (who : string) : string :=
  match find_first (fun a => str_eqb (ap_subject a) who) (approvers c) with
  | Some a => ap_approver_id a
  | None => ""
  end.
(** The cursor after a page of the rows found, when there are more. *)
Definition next_cursor (found : list Request) : option string :=
  if 25 <? llen found then
    (fun r => dec_signed (rq_accepted r) +:+ ":" +:+ rq_id r) <$> last (take 25 found) else None.
(** [Store::inbox]. *)
Definition inbox (c : Config) (who : Identity) (deadline : Instant) (q : InboxQuery) : R Output :=
  _ ← deny_if (negb (str_eqb (who_subject who) (uploader_subject c))
               && negb (has_subject (who_subject who) (approvers c))) (Http 404);
  _ ← check_files;
  _ ← recheck who deadline;
  _ ← transaction;
  _ ← gate c (who_subject who) 503;
  snapshot ← now_ms;
  found ← query (fun d => map (fun r => (r, last_transport_result c r d))
    (inbox_rows c (who_subject who) (approver_of c (who_subject who)) q snapshot d));
  let rows := take 25 found in
  let next := next_cursor (map fst found) in
  participants ← gate_rows c [] (map fst rows);
  let cutoff := if iq_include_expired q then None else first_expiry (map fst rows) in
  let bytes := json_text (json_object [
    ("recordType", VString "rekey.approval.inbox.v1");
    ("items", VArray (map (fun e => inbox_item c snapshot e.2 e.1) rows));
    ("nextCursor", opt_string next); ("snapshotAtMs", i64 snapshot);
    ("snapshot", VString "transport-only; Broker revalidates at execute; lock/restart/revoke may invalidate these files")]) in
  _ ← deny_if (16 * 1024 <? llen bytes) Storage;
  _ ← event (idp_issuer c) (who_subject who) "" "inbox" "" "downloaded";
  _ ← each (fun s => gate c s 503) participants;
  _ ← gate c (who_subject who) 503;
  _ ← recheck who deadline;
  _ ← commit;
  _ ← check_files;
  _ ← recheck who deadline;
  _ ← match cutoff with
      | None => mret tt
      | Some expires => now ← now_ms; deny_if (expires <=? now) (Http 503)
      end;
  mret (output_receipt 200 bytes).

(** ** Files *)

Definition is_uploader (c : Config) (who : Identity) (r : Request) : bool :=
  str_eqb (who_subject who) (rq_uploader r) && str_eqb (who_subject who) (uploader_subject c).
(** A person removed from the configuration loses the rows assigned before. *)
Definition current_approver (c : Config) (r : Request) : bool :=
  existsb (fun a => str_eqb (ap_subject a) (rq_recipient r) && str_eqb (ap_approver_id a) (rq_approver r)) (approvers c).
Definition is_recipient (c : Config) (who : Identity) (r : Request) : bool :=
  str_eqb (who_subject who) (rq_recipient r) && current_approver c r.
(** [Store::receipt]. *)
Definition receipt (c : Config) (who : Identity) (id kind digest : string) (length : Z) (approver : string)
    (expiry accepted : Z) : list Z :=
  json_text (json_object [
    ("recordType", VString "rekey.approval.transport.receipt.v1"); ("instanceId", VString (instance_id c));
    ("requestId", VString id); ("fileKind", VString kind); ("sha256", VString digest); ("byteLength", u64 length);
    ("actor", json_object [("issuer", VString (idp_issuer c)); ("sub", VString (who_subject who))]);
    ("recipientApproverId", VString approver); ("acceptedAtMs", i64 accepted); ("fileExpiresAtMs", i64 expiry);
    ("status", VString "stored"); ("meaning", VString "transport-only; Broker revalidates at execute")]).
(** [matches!(&challenge.approver, Ed25519 { keys, threshold: 1 } if keys.contains(key))]. *)
Definition approver_names (key : string) (approver : ApproverSpec) : bool :=
  match approver with
  | Ed25519 keys threshold => (threshold =? 1) && bool_decide (key ∈ keys)
  | LocalPresence => false
  end.
(** An upload of a challenge that no row has yet: the person it is for, and the
    answer. *)
Definition store_challenge (c : Config) (who : Identity) (id target : string) (bytes : list Z)
  : R (string * Output) :=
  a ← some_or (Http 400) (find_first (fun a => str_eqb (ap_approver_id a) target) (approvers c));
  _ ← gate c (ap_subject a) 503;
  key ← some_or Storage (result_option (validate_ed25519_public_key curve_point_ok (origin_public_key c)));
  challenge ← some_or (Http 400) (result_option (parse_and_verify_approval_challenge_envelope bytes key));
  _ ← deny_if (negb (str_eqb (uuid_text (ch_approval_request_id challenge)) id)
               || negb (str_eqb (uuid_text (ch_tenant_id challenge)) (tenant_id c))
               || negb (bool_decide (ch_mode challenge = OneTime))
               || negb (ch_max_uses challenge =? 1)
               || negb (approver_names (ap_public_key a) (ch_approver challenge))) (Http 400);
  now ← now_ms;
  _ ← deny_if (now <? ch_created_at_ms challenge) (Http 400);
  _ ← deny_if (ch_max_expires_at_ms challenge <=? now) (Http 410);
  '(n, total) ← query (fun d => (llen (requests d), blob_total d));
  _ ← deny_if ((MAX_REQUESTS <=? n) || (MAX_BLOBS <? total + llen bytes)) (Http 503);
  let digest := sha bytes in
  let file := receipt c who id "challenge" digest (llen bytes) target (ch_max_expires_at_ms challenge) now in
  _ ← execute (insert_request (mkRequest id (tenant_id c) (idp_issuer c) (who_subject who) (ap_subject a) target
        bytes digest now (ch_max_expires_at_ms challenge) file None));
  _ ← event (idp_issuer c) (who_subject who) id "challenge" digest "stored";
  mret (ap_subject a, output_receipt 201 file).
Definition put_challenge (c : Config) (who : Identity) (id : string) (approver : option string) (bytes : list Z)
    (row : option Request) : R (option string * Output) :=
  _ ← deny_if (negb (str_eqb (who_subject who) (uploader_subject c))) (Http 404);
  target ← some_or (Http 400) approver;
  match row with
  | Some row =>
      _ ← deny_if (negb (str_eqb (rq_uploader row) (who_subject who))) (Http 404);
      _ ← deny_if (negb (str_eqb (rq_approver row) target) || negb (bool_decide (rq_challenge row = bytes))) (Http 409);
      _ ← event (idp_issuer c) (who_subject who) id "challenge" (rq_challenge_sha row) "same-file-retry";
      mret (None, output_receipt 200 (rq_receipt row))
  | None =>
      '(party, output) ← store_challenge c who id target bytes;
      mret (Some party, output)
  end.
Definition store_grant (c : Config) (who : Identity) (id kind : string) (bytes : list Z) (row : Request) : R Output :=
  grant ← some_or (Http 400) (grant_from_slice bytes);
  _ ← deny_if (negb (g_format_version grant =? 1)
               || negb (str_eqb (uuid_text (g_approval_request_id grant)) id)
               || negb (str_eqb (uuid_text (g_approver_id grant)) (rq_approver row))
               || negb (str_eqb (uuid_text (g_tenant_id grant)) (tenant_id c))
               || negb (bool_decide (g_mode grant = OneTime))
               || negb (g_max_uses grant =? 1)
               || (g_not_before_ms grant <? 0)
               || (g_expires_at_ms grant <=? g_not_before_ms grant)
               || (rq_expires row <? g_expires_at_ms grant)) (Http 400);
  now ← now_ms;
  _ ← deny_if (now <? g_not_before_ms grant) (Http 400);
  _ ← deny_if ((g_expires_at_ms grant <=? now) || (rq_expires row <=? now)) (Http 410);
  total ← query blob_total;
  _ ← deny_if (MAX_BLOBS <? total + llen bytes) (Http 503);
  let digest := sha bytes in
  let file := receipt c who id kind digest (llen bytes) (rq_approver row) (g_expires_at_ms grant) now in
  _ ← execute (update_grant id (mkGrantFile bytes digest now (g_expires_at_ms grant) file));
  _ ← event (idp_issuer c) (who_subject who) id kind digest "stored";
  mret (output_receipt 201 file).
Definition put_grant (c : Config) (who : Identity) (id kind : string) (bytes : list Z) (row : Request) : R Output :=
  _ ← deny_if (negb (is_recipient c who row)) (Http 404);
  match rq_grant row with
  | Some saved =>
      _ ← deny_if (negb (bool_decide (gf_bytes saved = bytes))) (Http 409);
      _ ← event (idp_issuer c) (who_subject who) id kind (gf_sha saved) "same-file-retry";
      mret (output_receipt 200 (gf_receipt saved))
  | None => store_grant c who id kind bytes row
  end.
Definition get_receipt (c : Config) (who : Identity) (id : string) (row : Request) : R Output :=
  challenge ← some_or Storage (from_slice (rq_receipt row));
  grant ← match rq_grant row with
    | None => mret VNull
    | Some g => some_or Storage (from_slice (gf_receipt g))
    end;
  now ← now_ms;
  grant_expired ← match rq_grant row with
    | None => mret VNull
    | Some g => now ← now_ms; mret (VBool (gf_expires g <=? now))
    end;
  let bytes := json_text (json_object [
    ("challenge", challenge); ("grant", grant); ("challengeExpired", VBool (rq_expires row <=? now));
    ("grantExpired", grant_expired); ("snapshot", VString "Broker lock/restart/revoke may invalidate these files")]) in
  _ ← deny_if (4096 <? llen bytes) Storage;
  _ ← event (idp_issuer c) (who_subject who) id "receipt" "" "downloaded";
  mret (output_receipt 200 bytes).
Definition get_file (c : Config) (who : Identity) (id kind : string) (row : Request) : R Output :=
  '(bytes, (digest, expires)) ←
    (if str_eqb kind "challenge" then mret (rq_challenge row, (rq_challenge_sha row, rq_expires row))
     else g ← some_or (Http 404) (rq_grant row); mret (gf_bytes g, (gf_sha g, gf_expires g)));
  now ← now_ms;
  _ ← deny_if (expires <=? now) (Http 410);
  _ ← event (idp_issuer c) (who_subject who) id kind digest "downloaded";
  mret (mkOutput 200 bytes (Some digest) (Some expires)).

(** [Store::operate]. *)
Definition parties (row : option Request) : list string :=
  match row with Some r => insert_text (rq_recipient r) (insert_text (rq_uploader r) []) | None => [] end.
Definition operate (c : Config) (who : Identity) (deadline : Instant) (id kind : string) (put : bool)
    (approver : option string) (bytes : list Z) : R Output :=
  _ ← check_files;
  _ ← recheck who deadline;
  _ ← transaction;
  _ ← gate c (who_subject who) 503;
  row ← query (request_of id);
  _ ← match row with
      | None => mret tt
      | Some r =>
          _ ← deny_if (negb (is_uploader c who r) && negb (is_recipient c who r)) (Http 404);
          _ ← gate c (rq_uploader r) 503;
          gate c (rq_recipient r) 503
      end;
  '(party, output) ←
    (if put && str_eqb kind "challenge" then put_challenge c who id approver bytes row
     else
       r ← some_or (Http 404) row;
       _ ← deny_if (negb (is_uploader c who r) && negb (is_recipient c who r)) (Http 404);
       output ← (if put then put_grant c who id kind bytes r
                 else if str_eqb kind "receipt" then get_receipt c who id r
                 else get_file c who id kind r);
       mret (None, output));
  _ ← recheck who deadline;
  _ ← gate c (who_subject who) 503;
  _ ← each (fun s => gate c s 503)
        (match party with Some p => insert_text p (parties row) | None => parties row end);
  _ ← commit;
  _ ← check_files;
  _ ← recheck who deadline;
  _ ← match out_expires output with
      | None => mret tt
      | Some e => now ← now_ms; deny_if (e <=? now) (Http 410)
      end;
  mret output.
End WithLibraries.
End WithWorld.
