(* ===== verification/RelayService.v ===== *)
(** * RelayService: requests to the approval relay

    [rekey-approval-relay/src/auth.rs] and [relay.rs], [Service]: who a bearer token
    names, how a request is routed to a transaction, and the fault that closes the
    service for good. A request arrives parsed by hyper; the identity provider's
    answer to the introspection of a token is an argument. *)

From S2P Require Import Prelude Strings Errors Domain Codec Policy SessionState Approval Decimal Json Signed.
From S2P Require Import Relay RelayStore.

(** ** Tokens *)

Record Claims := mkClaims {
  cl_active : option bool; cl_issuer : option string; cl_audience : option (list string);
  cl_client : option string; cl_token_type : option string; cl_subject : option string;
  cl_issued : option Z; cl_expires : option Z; cl_not_before : option Z }.
Definition claims_default : Claims := mkClaims None None None None None None None None None.
(** The answer to an introspection; a chunk that is [None] is a transport error. *)
Record Introspection := mkIntrospection {
  in_status : Z; in_length : option Z; in_type : option string; in_chunks : list (option (list Z)) }.

Section WithWorld.
Context {W : World}.
Section WithLibraries.
Context {CC : Codecs} {SG : Signatures} {SJ : Serde} {RL : RelayLibs} {DC : Documents}.
Context (directory_to_vec : Directory -> option (list Z)).
Abbreviation Events := (JsonEvents Number).

Definition ev_string (e : Events) : option string := match e with EvString s => Some s | _ => None end.
Definition ev_i64 (e : Events) : option Z := match e with EvNumber n => number_as_i64 n | _ => None end.
(** The untagged [Audience]. *)
Fixpoint ev_strings (l : list Events) : option (list string) :=
  match l with
  | [] => Some []
  | e :: rest => s ← ev_string e; strings ← ev_strings rest; Some (s :: strings)
  end.
Definition ev_audience (e : Events) : option (list string) :=
  match e with EvString s => Some [s] | EvSeq l => ev_strings l | _ => None end.
Definition set_claim (key : string) (e : Events) (c : Claims) : option Claims :=
  let '(mkClaims active issuer audience client token_type subject issued expires not_before) := c in
  if str_eqb key "active" then
    b ← match e with EvBool b => Some b | _ => None end;
    Some (mkClaims (Some b) issuer audience client token_type subject issued expires not_before)
  else if str_eqb key "iss" then
    s ← ev_string e; Some (mkClaims active (Some s) audience client token_type subject issued expires not_before)
  else if str_eqb key "aud" then
    l ← ev_audience e; Some (mkClaims active issuer (Some l) client token_type subject issued expires not_before)
  else if str_eqb key "client_id" then
    s ← ev_string e; Some (mkClaims active issuer audience (Some s) token_type subject issued expires not_before)
  else if str_eqb key "token_type" then
    s ← ev_string e; Some (mkClaims active issuer audience client (Some s) subject issued expires not_before)
  else if str_eqb key "sub" then
    s ← ev_string e; Some (mkClaims active issuer audience client token_type (Some s) issued expires not_before)
  else if str_eqb key "iat" then
    n ← ev_i64 e; Some (mkClaims active issuer audience client token_type subject (Some n) expires not_before)
  else if str_eqb key "exp" then
    n ← ev_i64 e; Some (mkClaims active issuer audience client token_type subject issued (Some n) not_before)
  else if str_eqb key "nbf" then
    n ← ev_i64 e; Some (mkClaims active issuer audience client token_type subject issued expires (Some n))
  else Some c.
(** [visit_map]: every key at most once. *)
Fixpoint visit_claims (seen : list string) (c : Claims) (l : list (string * Events)) : option Claims :=
  match l with
  | [] => Some c
  | (key, e) :: rest =>
      if bool_decide (key ∈ seen) then None
      else c ← set_claim key e c; visit_claims (key :: seen) c rest
  end.
Definition claims_from_slice (bytes : list Z) : option Claims :=
  e ← deserialize_any bytes;
  match e with EvMap l => visit_claims [] claims_default l | _ => None end.

(** The body, at most 64 KiB of it. *)
Fixpoint collect_body (bytes : list Z) (chunks : list (option (list Z))) : option (list Z) :=
  match chunks with
  | [] => Some bytes
  | None :: _ => None
  | Some chunk :: rest =>
      if 64 * 1024 <? llen bytes + llen chunk then None else collect_body (bytes ++ chunk) rest
  end.
Definition is_json_type (value : string) : bool := str_eqb (trim (hd "" (split_on ";" value))) "application/json".
Definition required (c : Claims) : option (string * (list string * (string * (string * (string * (Z * Z)))))) :=
  iss ← cl_issuer c; aud ← cl_audience c; client ← cl_client c; kind ← cl_token_type c;
  sub ← cl_subject c; iat ← cl_issued c; exp ← cl_expires c;
  Some (iss, (aud, (client, (kind, (sub, (iat, exp)))))).
(** [exp.checked_sub(iat).is_none_or(|d| !(1..=300).contains(&d))]. *)
Definition bad_lifetime (exp iat : Z) : bool :=
  let d := exp - iat in
  negb ((i64_min <=? d) && (d <=? i64_max) && (1 <=? d) && (d <=? 300)).
(** Only a subject that the configuration names. *)
Definition known_subject (c : Config) (sub : string) : option string :=
  if str_eqb sub (uploader_subject c) then Some (uploader_subject c)
  else match find_first (fun a => str_eqb (ap_subject a) sub) (approvers c) with
  | Some a => Some (ap_subject a)
  | None => subject <$> find_first (fun l => str_eqb (subject l) sub && admin_allowed l) (links (directory c))
  end.
(** [Authenticator::authenticate]. *)
Definition authenticate (c : Config) (answer : option Introspection) (deadline : Instant) : R Identity :=
  r ← some_or (Http 503) answer;
  _ ← deny_if (negb (in_status r =? 200)
               || match in_length r with Some n => 64 * 1024 <? n | None => false end
               || match in_type r with Some v => negb (is_json_type v) | None => true end) (Http 503);
  bytes ← some_or (Http 503) (collect_body [] (in_chunks r));
  claims ← some_or (Http 503) (claims_from_slice bytes);
  _ ← match cl_active claims with
      | Some false => fail (Http 401)
      | Some true => mret tt
      | None => fail (Http 503)
      end;
  '(iss, (aud, (client, (kind, (sub, (iat, exp)))))) ← some_or (Http 503) (required claims);
  ms ← now_ms;
  let now := ms / 1000 in
  _ ← deny_if (negb (str_eqb iss (idp_issuer c))
               || negb (existsb (fun a => str_eqb a (audience c)) aud)
               || negb (str_eqb client (personnel_client_id c))
               || negb (eq_ignore_ascii_case kind "Bearer")
               || negb (stable sub)
               || (iat <? 0) || (now <? iat) || (exp <=? now) || bad_lifetime exp iat
               || match cl_not_before claims with Some nbf => now <? nbf | None => false end) (Http 401);
  expires ← some_or (Http 503) (if (i64_min <=? exp * 1000) && (exp * 1000 <=? i64_max) then Some (exp * 1000) else None);
  subject ← some_or (Http 404) (known_subject c sub);
  let identity := mkIdentity subject expires in
  _ ← recheck identity deadline;
  mret identity.

(** ** The service *)

Inductive Method : Type := GET | PUT | OtherMethod.
#[export] Instance Method_eq_dec : EqDecision Method.
Proof. solve_decision. Defined.
(** Headers have one entry per value; a value that is not text is [None]. The body is
    [None] after a transport error. *)
Record HttpRequest := mkHttpRequest {
  hr_path : string;
  hr_query : option string;
  hr_method : Method;
  hr_cookie : bool;
  hr_upgrade : bool;
  hr_authorization : list (option string);
  hr_approver : list (option string);
  hr_body : option (list Z);
}.
Record HttpResponse := mkHttpResponse {
  hp_status : Z; hp_bytes : list Z; hp_sha256 : option string; hp_expires : option string }.
Definition quoted (s : string) : list Z := [34] ++ bytes_of s ++ [34].
Definition error_response (status : Z) (text : string) : HttpResponse :=
  mkHttpResponse status (bytes_of "{" ++ quoted "error" ++ bytes_of ":" ++ quoted text ++ bytes_of "}") None None.

(** A computation whose error is a value. *)
Definition catch {A} (m : R A) : R (result RelayError A) := fun s => let '(r, s) := m s in (Ok r, s).
Definition raise_fault : R unit := modify (set_fault true).

(** [Service::apply_directory_member] and [Service::cleanup]: any error closes the
    service. *)
Definition latched (m : R unit) : R unit := fun s =>
  match m s with
  | (Ok _, s) => (Ok tt, s)
  | (Err e, s) => (Err e, set_fault true s)
  end.
Definition apply_directory_member (c : Config) (l : Link) (result : Observation) : R unit :=
  latched (apply_directory directory_to_vec c l result).
Definition service_cleanup (c : Config) : R unit := latched (cleanup c).

(** [Service::denied]: the refusal is recorded first. *)
Definition denied (c : Config) (status : Z) (who : option Identity) (id kind : string) : R HttpResponse :=
  faulted ← reads fault;
  status ← (if faulted : bool then mret 503
    else
      r ← catch (audit c (who_subject <$> who) id kind status);
      match r with
      | Ok _ => mret status
      | Err (Http _) => mret 503
      | Err Storage => _ ← raise_fault; mret 503
      end);
  mret (error_response status ("http-" +:+ dec status)).

(** The operation under the store's lock. *)
Definition locked (m : R Output) : R Output := fun s =>
  if fault s then (Err Storage, s)
  else match m s with
  | (Err Storage, s) => (Err Storage, set_fault true s)
  | r => r
  end.

Inductive Route : Type := Inbox | Revocations | AdminIdentity | FileRoute (id kind : string).
#[export] Instance Route_eq_dec : EqDecision Route.
Proof. solve_decision. Defined.
Definition route_of (path : string) : option Route :=
  if str_eqb path "/v1/inbox" then Some Inbox
  else if str_eqb path "/v1/directory/admin-identity" then Some AdminIdentity
  else if str_eqb path "/v1/directory/revocations" then Some Revocations
  else
    rest ← strip_prefix_str "/v1/requests/" path;
    '(id, kind) ← split_once "/" rest;
    if canonical_uuid id && bool_decide (kind ∈ ["challenge"; "grant"; "receipt"])
    then Some (FileRoute id kind) else None.
Definition route_id (r : Route) : string := match r with FileRoute id _ => id | _ => "" end.
Definition route_kind (r : Route) : string :=
  match r with
  | Inbox => "inbox"
  | Revocations => "directory-revocations"
  | AdminIdentity => "directory-admin-identity"
  | FileRoute _ kind => kind
  end.
(** The one [Bearer] value. *)
Definition bearer_of (values : list (option string)) : option string :=
  match values with
  | [v] =>
      v ← v; token ← strip_prefix_str "Bearer " v;
      if is_empty_str token || (4096 <? slen token) || existsb (fun ch => is_whitespace ch || is_control ch) (chars token)
      then None else Some token
  | _ => None
  end.
Definition is_file (r : Route) : bool := match r with FileRoute _ _ => true | _ => false end.
Definition is_challenge (r : Route) : bool := str_eqb (route_kind r) "challenge".
(** The approver id of an upload of a challenge; nothing else may carry one. *)
Definition target_of (route : Route) (put : bool) (values : list (option string)) : result RelayError (option string) :=
  let target := match values with v :: _ => v | [] => None end in
  reject_if (1 <? llen values)
            || (put && is_challenge route && match target with Some t => negb (canonical_uuid t) | None => true end)
            || (negb (put && is_challenge route) && bool_decide (is_Some target)) with Http 400 ;;
  Ok target.
Definition body_limit (route : Route) (put : bool) : Z :=
  if negb put then 0 else if is_challenge route then 64 * 1024 else 4096.
Definition dispatch (c : Config) (who : Identity) (deadline : Instant) (route : Route) (q : option InboxQuery)
    (put : bool) (target : option string) (bytes : list Z) : R Output :=
  match route, q with
  | AdminIdentity, _ => admin_identity directory_to_vec c who deadline
  | Revocations, _ => revocations_op directory_to_vec c who deadline
  | _, Some q => inbox directory_to_vec c who deadline q
  | _, None => operate directory_to_vec c who deadline (route_id route) (route_kind route) put target bytes
  end.
(** A token's failure, as two of the routes report it. *)
Definition auth_status (route : Route) (code : Z) : Z :=
  if code =? 404 then match route with AdminIdentity => 503 | Revocations => 403 | _ => 404 end else code.
Definition status_of (e : RelayError) : Z := match e with Http code => code | Storage => 503 end.
(** [Service::handle], with the identity provider's answer for a token. *)
Definition handle (c : Config) (introspect : string -> option Introspection) (request : HttpRequest)
    (deadline : Instant) : R HttpResponse :=
  faulted ← reads fault;
  if faulted : bool then mret (error_response 503 "storage-fault")
  else match route_of (hr_path request) with
  | None => denied c 404 None "" ""
  | Some route =>
      let id := route_id route in
      let kind := route_kind route in
      let put := bool_decide (hr_method request = PUT) in
      if (negb (bool_decide (route = Inbox)) && bool_decide (is_Some (hr_query request)))
         || hr_cookie request || hr_upgrade request then denied c 400 None id kind
      else if negb (bool_decide (hr_method request = GET))
              && (negb put || str_eqb kind "receipt" || negb (is_file route)) then denied c 405 None id kind
      else match bearer_of (hr_authorization request) with
      | None => denied c 401 None id kind
      | Some token =>
          who ← catch (authenticate c (introspect token) deadline);
          match who with
          | Err e => denied c (auth_status route (status_of e)) None id kind
          | Ok who =>
              match (if bool_decide (route = Inbox) then Some <$> inbox_parse (hr_query request) else Some None) with
              | None => denied c 400 (Some who) id kind
              | Some q =>
                  match target_of route put (hr_approver request) with
                  | Err e => denied c (status_of e) (Some who) id kind
                  | Ok target =>
                      match hr_body request with
                      | None => denied c 413 (Some who) id kind
                      | Some bytes =>
                          if body_limit route put <? llen bytes then denied c 413 (Some who) id kind
                          else
                            r ← catch (locked (dispatch c who deadline route q put target bytes));
                            match r with
                            | Err (Http code) => denied c code (Some who) id kind
                            | Err Storage => _ ← raise_fault; denied c 503 (Some who) id kind
                            | Ok output =>
                                again ← catch (recheck who deadline);
                                match again with
                                | Err e => denied c (status_of e) (Some who) id kind
                                | Ok _ => mret (mkHttpResponse (out_status output) (out_bytes output)
                                    (out_digest output) (dec_signed <$> out_expires output))
                                end
                            end
                      end
                  end
              end
          end
      end
  end.

End WithLibraries.
End WithWorld.
