(* ===== verification/RelayDemo.v ===== *)
(** * RelayDemo: a small relay to run

    One uploader, one approver, one request; libraries that read the few bodies that the
    example sends. The clock ticks a millisecond per reading. *)

From S2P Require Import Prelude Strings Errors Domain Codec Policy SessionState Approval Decimal Json Signed.
From S2P Require Import Relay RelayStore RelayService.

Module RelayDemo.

Definition table (b : list Z) : option (JsonEvents Z) :=
  let claims sub := EvMap [("active", EvBool true); ("iss", EvString "https://idp"); ("aud", EvString "relay");
    ("client_id", EvString "people"); ("token_type", EvString "Bearer"); ("sub", EvString sub);
    ("iat", EvNumber 999); ("exp", EvNumber 1200)] in
  if bool_decide (b = [1]) then Some (claims "operator")
  else if bool_decide (b = [2]) then Some (claims "reviewer")
  else if bool_decide (b = [3]) then Some (EvMap [("challenge", EvString "c"); ("signature", EvString "s")])
  else if bool_decide (b = [4]) then Some (EvMap [("grant", EvString "g"); ("signature", EvString "s")])
  else if bool_decide (b = [5]) then Some (EvMap [
    ("schemas", EvSeq [EvString "urn:ietf:params:scim:schemas:core:2.0:User"]);
    ("id", EvString "u3"); ("externalId", EvString "u3"); ("active", EvBool false)])
  else None.
#[export] Instance demo_serde : Serde := table_serde table.
Definition key_text : string := hex_encode (repeat 17 32).
Definition signature : string := string_of_list_ascii (repeat "A"%char 86).
#[export] Instance demo_codecs : Codecs := {
  hexlower_encode := hex_encode; hexlower_decode := hex_decode;
  base64url_encode := fun _ => signature; base64url_decode := fun _ => Some (repeat 7 64);
  base64_encode := hex_encode; base64_decode := hex_decode; sha256 := pad32;
}.
#[export] Instance demo_signatures : Signatures := {
  curve_point_ok := fun _ => true; p256_point_ok := fun _ => true;
  ed25519_verify := fun key _ _ => bool_decide (key = repeat 17 32); p256_verify := fun _ _ _ => false;
}.
Definition resource : ResourceRef := mkResourceRef "repo" "r1".
Definition challenge : ApprovalChallenge :=
  mkApprovalChallenge "rekey.approval.challenge.v2" 1 5 6 7 8 1 resource "schema" key_text 1 key_text 9
    OneTime (Ed25519 [key_text] 1) 1 1000000 1300000.
Definition grant : SignedApprovalGrant :=
  mkSignedApprovalGrant 1 3 1 2 5 6 7 8 1 resource "schema" key_text 1 key_text 9 OneTime 1000000 1200000 1 signature.
#[export] Instance demo_documents : Documents := {
  grant_from_value := fun v => if bool_decide (is_Some (value_get "grant" v)) then Some grant else None;
  grant_from_slice := fun b => if bool_decide (b = [4]) then Some grant else None;
  trust_from_value := fun _ => None;
  envelope_from_value := fun v => if bool_decide (is_Some (value_get "challenge" v))
    then Some (mkSignedApprovalChallenge "rekey.approval.challenge.envelope.v2" challenge signature) else None;
  challenge_jcs := fun _ => Some [99]; trust_jcs := fun _ => None;
}.
#[export] Instance demo_libs : RelayLibs := {
  uuid_parse := fun s => if str_eqb s "r1" then Some 1 else if str_eqb s "a1" then Some 2 else None;
  uuid_text := fun n => if n =? 1 then "r1" else if n =? 2 then "a1" else if n =? 5 then "t1" else "";
  url_parse := fun _ => None; form_parse := fun _ => [];
  json_text := print_value; number_from_i64 := fun n => n; number_as_i64 := fun n => Some n;
}.
#[export] Instance demo_world : World := {
  since_epoch := fun n => Some (N.of_nat n + 1000000)%N; mono := fun n => Z.of_nat n;
  files_ok := fun _ => true; db_ok := fun _ => true;
}.
Definition directory_to_vec (_ : Directory) : option (list Z) := Some [42].
Definition link_to (source sub : string) (admin : bool) : Link :=
  mkLink source source "https://idp" sub source admin None None "hr" 1.
Definition config : Config :=
  mkConfig 3 "i1" "https://relay/v1" "127.0.0.1:1" "/state" "https://idp" "https://idp/introspect" "relay" "people" "relay"
    "t1" key_text "operator" [mkApprover "reviewer" "a1" key_text]
    (mkDirectory "https://scim" "/ca" "/token" 1 [mkNode "n1" "v1"; mkNode "n2" "v2"]
      [link_to "u1" "operator" true; link_to "u2" "reviewer" false; link_to "u3" "former" true]).
Definition introspect (token : string) : option Introspection :=
  Some (mkIntrospection 200 None (Some "application/json") [Some [if str_eqb token "up" then 1 else 2]]).
Definition initial : Relay :=
  mkRelay (default (mkDatabase [] [] [] [] [] []) (new_database directory_to_vec config)) (mkDatabase [] [] [] [] [] [])
    ∅ false 0.
(** The directory says that a person is active, or gone. *)
Definition seen (l : Link) (state : State) (s : Relay) : Relay :=
  (apply_directory_member directory_to_vec config l (mkObservation state 1000000 0 2000000) s).2.
Definition polled : Relay :=
  seen (link_to "u2" "reviewer" false) Active (seen (link_to "u1" "operator" true) Active initial).
Definition call (path token : string) (method : Method) (approver : list (option string)) (body : list Z) : HttpRequest :=
  mkHttpRequest path None method false false [Some ("Bearer " +:+ token)] approver (Some body).
Definition upload : HttpRequest := call "/v1/requests/r1/challenge" "up" PUT [Some "a1"] [3].
Definition download : HttpRequest := call "/v1/requests/r1/challenge" "rv" GET [] [].
Definition run (request : HttpRequest) (s : Relay) : result RelayError HttpResponse * Relay :=
  handle directory_to_vec config introspect request 1000000000 s.
Definition uploaded : Relay := (run upload polled).2.
End RelayDemo.
