(* ===== verification/RelayDirectory.v ===== *)
(** * RelayDirectory: polling the directory of people

    [rekey-approval-relay/src/directory.rs]: what an answer of the directory says about
    a person, the token that a poll needs, and [Consumer::poll]. The tasks of a poll
    run at once; the order in which they end, and which are unfinished at the deadline,
    are an argument. *)

From S2P Require Import Prelude Strings Errors Domain Codec Policy SessionState Approval Decimal Json Signed.
From S2P Require Import Relay RelayStore RelayService RelayDemo.

Definition USER_SCHEMA : string := "urn:ietf:params:scim:schemas:core:2.0:User".
Definition ABSENT : list Z := bytes_of "rekey.directory.authenticated-source-404.v1".

Section WithWorld.
Context {W : World}.
Section WithLibraries.
Context {CC : Codecs} {SG : Signatures} {SJ : Serde} {RL : RelayLibs} {DC : Documents}.
Context (directory_to_vec : Directory -> option (list Z)).
(** The token file of [Consumer::token], as serde reads it. *)
Context (token_from_slice : list Z -> option (string * Z)).
Abbreviation Value := (JValue Number).

Definition as_str (v : Value) : option string := match v with VString s => Some s | _ => None end.
Definition as_bool (v : Value) : option bool := match v with VBool b => Some b | _ => None end.
(** [active]: the record is this person's, of the user schema, and says so. *)
Definition active (bytes : list Z) (id external : string) : option bool :=
  e ← deserialize_any bytes;
  v ← unique_value e;
  schemas ← value_get "schemas" v;
  schemas ← value_as_array schemas;
  if negb (forallb (fun s => bool_decide (is_Some (as_str s))) schemas) then None
  else
    v_id ← value_get "id" v; v_id ← as_str v_id;
    if negb (str_eqb v_id id) then None
    else
      v_external ← value_get "externalId" v; v_external ← as_str v_external;
      if negb (str_eqb v_external external) then None
      else if negb (existsb (fun s => bool_decide (as_str s = Some USER_SCHEMA)) schemas) then None
      else v_active ← value_get "active" v; as_bool v_active.
(** [Observation::unknown]. *)
Definition unknown : R Observation :=
  received ← now_ms;
  completed ← instant_now;
  mret (mkObservation Unknown received completed 0).
(** [Consumer::token], with the content of the file. *)
Definition valid_token (secret : string) : bool :=
  negb (is_empty_str secret) && (slen secret <=? 4096)
  && negb (existsb (fun ch => is_whitespace ch || is_control ch) (chars secret)).
Definition token (file : option (list Z)) : R (option (string * Z)) :=
  match bytes ← file; token_from_slice bytes with
  | None => mret None
  | Some (secret, expires) =>
      if negb (valid_token secret) then mret None
      else now ← now_ms; mret (if expires <=? now then None else Some (secret, expires))
  end.
(** [Consumer::get]: the state that an answer shows, if it is whole and in time. *)
Definition get_state (l : Link) (expires : Z) (answer : option Introspection) : R (option State) :=
  now ← now_ms;
  if expires <=? now then mret None
  else match answer with
  | None => mret None
  | Some r =>
      now ← now_ms;
      if expires <=? now then mret None
      else if in_status r =? 404 then mret (Some (Removed (sha ABSENT)))
      else if negb (in_status r =? 200) || match in_length r with Some n => 64 * 1024 <? n | None => false end
      then mret None
      else match collect_body [] (in_chunks r) with
      | None => mret None
      | Some body =>
          now ← now_ms;
          if expires <=? now then mret None
          else mret (match active body (source_user_id l) (external_id l) with
            | Some true => Some Active
            | Some false => Some (Removed (sha body))
            | None => None
            end)
      end
  end.
Definition get (l : Link) (expires : Z) (answer : option Introspection) : R Observation :=
  state ← get_state l expires answer;
  received ← now_ms;
  completed ← instant_now;
  mret (mkObservation (default Unknown state) received completed expires).
(** [Consumer::poll]: the tasks that end before the deadline are applied as they end, and
    every other link is unknown. *)
Definition poll_completed (expires : Z) (apply : Link -> Observation -> R unit) (completed : list (Link * option Introspection))
  : R unit :=
  each (fun e => result ← get e.1 expires e.2; apply e.1 result) completed.
Definition poll_unfinished (apply : Link -> Observation -> R unit) (l : list Link) : R unit :=
  each (fun x => result ← unknown; apply x result) l.
Definition unfinished (completed : list (Link * option Introspection)) (l : list Link) : list Link :=
  retain (fun x => negb (bool_decide (subject x ∈ map (fun e => subject e.1) completed))) l.
Definition poll (d : Directory) (file : option (list Z)) (completed : list (Link * option Introspection))
    (apply : Link -> Observation -> R unit) : R unit :=
  t ← token file;
  match t with
  | None => poll_unfinished apply (links d)
  | Some (_, expires) =>
      _ ← poll_completed expires apply completed;
      poll_unfinished apply (unfinished completed (links d))
  end.
(** [Service::poll_directory]. *)
Definition poll_directory (c : Config) (file : option (list Z)) (completed : list (Link * option Introspection)) : R unit :=
  latched (poll (directory c) file completed (apply_directory_member directory_to_vec c)).

(** ** Evidence *)

(** What the body of an answer must say for a person. *)
Record person (body : list Z) (l : Link) (is_active : bool) : Prop := {
  person_json : exists e v, deserialize_any body = Some e /\ unique_value e = Some v /\
    value_get "id" v = Some (VString (source_user_id l)) /\
    value_get "externalId" v = Some (VString (external_id l)) /\
    value_get "active" v = Some (VBool is_active) /\
    exists schemas, value_get "schemas" v = Some (VArray schemas) /\ VString USER_SCHEMA ∈ schemas;
}.
Lemma active_person body l b : active body (source_user_id l) (external_id l) = Some b -> person body l b.
Proof.
  unfold active. destruct (deserialize_any body) as [e|] eqn:E1; [|done]. cbn.
  destruct (unique_value e) as [v|] eqn:E2; [|done]. cbn.
  destruct (value_get "schemas" v) as [[| | | |schemas|]|] eqn:E3; try done. cbn.
  destruct (forallb _ schemas); [|done]. cbn.
  destruct (value_get "id" v) as [[| | |id| |]|] eqn:E4; try done. cbn.
  destruct (str_eqb id _) eqn:Hid; [|done]. cbn. apply bool_decide_eq_true in Hid as ->.
  destruct (value_get "externalId" v) as [[| | |ext| |]|] eqn:E5; try done. cbn.
  destruct (str_eqb ext _) eqn:Hext; [|done]. cbn. apply bool_decide_eq_true in Hext as ->.
  destruct (existsb _ schemas) eqn:Hs; [|done]. cbn.
  destruct (value_get "active" v) as [[|b'| | | |]|] eqn:E6; try done. cbn. intros [= ->].
  split. exists e, v. split_and!; try done. exists schemas. split; [done|].
  apply existsb_exists in Hs as (x & Hx & Hx'). apply bool_decide_eq_true in Hx'. destruct x; try done.
  cbn in Hx'. injection Hx' as ->. by apply list_elem_of_In.
Qed.

(** the directory is believed only on explicit evidence under a token that is still
    valid: a person is removed by a 404, or by a complete answer of at most 64 KiB, status
    200, whose record is that person's and says inactive; a person is active only by such a
    record that says active. Anything else, a lost connection included, is unknown. *)
Theorem relay_observation_needs_evidence l expires answer s result s' :
  get l expires answer s = (Ok result, s') ->
  ob_token_expires_ms result = expires /\
  (ob_state result = Unknown \/
   exists r, answer = Some r /\ (exists n, (tick s <= n < tick s')%nat /\ wall n < expires) /\
     (in_status r = 404 /\ ob_state result = Removed (sha ABSENT) \/
      exists body, in_status r = 200 /\ collect_body [] (in_chunks r) = Some body /\
        (person body l true /\ ob_state result = Active \/
         person body l false /\ ob_state result = Removed (sha body)))).
Proof.
  unfold get, get_state, mbind, R_bind, now_ms, instant_now, mret, R_ret.
  destruct (expires <=? wall (tick s)) eqn:E1; [intros [= <- <-]; cbn; auto|].
  destruct answer as [r|]; [|intros [= <- <-]; cbn; auto].
  destruct (expires <=? wall (tick (ticked s))) eqn:E2; [intros [= <- <-]; cbn; auto|].
  apply Z.leb_gt in E1.
  destruct (in_status r =? 404) eqn:E3.
  { apply Z.eqb_eq in E3. intros [= <- <-]. cbn. split; [done|]. right. exists r. split; [done|].
    split; [exists (tick s); split; [lia|done]|]. by left. }
  destruct (in_status r =? 200) eqn:E4; cbn [negb orb]; [|intros [= <- <-]; cbn; auto].
  destruct (match in_length r with Some n => 64 * 1024 <? n | None => false end); [intros [= <- <-]; cbn; auto|].
  destruct (collect_body [] (in_chunks r)) as [body|] eqn:Eb; [|intros [= <- <-]; cbn; auto].
  destruct (expires <=? wall (tick (ticked (ticked s)))); [intros [= <- <-]; cbn; auto|]. apply Z.eqb_eq in E4.
  destruct (active body (source_user_id l) (external_id l)) as [b|] eqn:Ea; [|intros [= <- <-]; cbn; auto].
  apply active_person in Ea. intros [= <- <-]. cbn. split; [done|]. right. exists r. split; [done|].
  split; [exists (tick s); split; [lia|done]|]. right. exists body. split; [done|]. split; [done|].
  destruct b; auto.
Qed.
(** Every link is applied once: as it ends, or as unknown. *)
Lemma poll_covers_links completed l :
  NoDup (map subject l) -> (forall e, e ∈ completed -> e.1 ∈ l) -> NoDup (map (fun e => subject e.1) completed) ->
  map subject (map fst completed ++ unfinished completed l) ≡ₚ map subject l.
Proof.
  intros Hl Hsub Hc. apply NoDup_Permutation.
  - rewrite map_app, map_map. apply NoDup_app. split; [done|]. split.
    + intros x Hx Hx'. apply list_elem_of_In, in_map_iff in Hx' as (y & <- & Hy). apply list_elem_of_In in Hy.
      unfold unfinished in Hy. rewrite elem_of_retain in Hy. destruct Hy as [_ Hy].
      by apply negb_true_iff, bool_decide_eq_false in Hy.
    + unfold unfinished, retain. clear Hsub Hc. induction l as [|x l IH]; cbn; [constructor|].
      apply NoDup_cons in Hl as [Hx Hl]. destruct (negb _); [|by apply IH]. cbn. apply NoDup_cons. split; [|by apply IH].
      intros Hi. apply Hx. apply list_elem_of_In, in_map_iff in Hi as (y & <- & Hy). apply filter_In in Hy as [Hy _].
      by apply list_elem_of_In, in_map.
  - done.
  - intros x. rewrite map_app, elem_of_app, map_map. split.
    + intros [Hx|Hx]; apply list_elem_of_In, in_map_iff in Hx as (y & <- & Hy); apply list_elem_of_In, in_map.
      * apply list_elem_of_In, Hsub. by apply list_elem_of_In.
      * unfold unfinished, retain in Hy. by apply filter_In in Hy as [Hy _].
    + intros Hx. destruct (decide (x ∈ map (fun e => subject e.1) completed)) as [H|H]; [by left|right].
      apply list_elem_of_In, in_map_iff in Hx as (y & <- & Hy). apply list_elem_of_In, in_map.
      apply filter_In. split; [done|]. by apply negb_true_iff, bool_decide_eq_false.
Qed.
End WithLibraries.
End WithWorld.

(** ** Example *)

Import RelayDemo.
Lemma relay_observation_needs_evidence_witness :
  exists result s', get (link_to "u3" "former" true) 2000000 (Some (mkIntrospection 200 None None [Some [5]])) initial = (Ok result, s') /\
    ob_state result <> Unknown /\ ob_token_expires_ms result = 2000000.
Proof.
  assert (H : exists result s', get (link_to "u3" "former" true) 2000000 (Some (mkIntrospection 200 None None [Some [5]])) initial
    = (Ok result, s') /\ ob_state result <> Unknown).
  { do 2 eexists. split; [vm_compute; reflexivity|discriminate]. }
  destruct H as (result & s' & H & Hne). exists result, s'. split; [exact H|]. split; [exact Hne|].
  exact (proj1 (relay_observation_needs_evidence _ _ _ _ _ _ H)).
Defined.
