(* ===== verification/SignedTheorems.v ===== *)
(** * SignedTheorems: what an accepted signature says

    An approval grant or a challenge that is accepted was signed by the key that the
    policy or the relay names, over exactly the fields that are used, within the
    bounds of the format; a signature for one kind of document is none for another. *)

From S2P Require Import Prelude Strings Errors Domain Codec Policy SessionState Approval Decimal Json Signed.
From S2P Require Import Relay RelayStore RelayService RelayDemo.

Section WithLibraries.
Context {CC : Codecs} {SG : Signatures} {SJ : Serde} {DC : Documents}.

(** A detached Ed25519 signature over a message. *)
Definition signed_by (key message : list Z) (signature : string) : Prop :=
  exists bytes, base64url_decode signature = Some bytes /\ llen bytes = 64 /\
    base64url_encode bytes = signature /\ ed25519_verify key message bytes = true.
Lemma verify_detached_ok message signature key :
  verify_detached message signature key = Ok tt <-> signed_by key message signature.
Proof.
  unfold verify_detached, signed_by. destruct (base64url_decode signature) as [bytes|]; cbn.
  2: { split; [done|]. by intros (? & ? & _). }
  split.
  - destruct (llen bytes =? 64) eqn:E1; [|done]. destruct (str_eqb _ signature) eqn:E2; [|done]. cbn.
    destruct (ed25519_verify key message bytes) eqn:E3; [|done]. intros _. exists bytes.
    split; [done|]. split; [by apply Z.eqb_eq|]. split; [by apply bool_decide_eq_true in E2|done].
  - intros (b & [= <-] & E1 & E2 & E3). rewrite E3. unfold str_eqb.
    rewrite bool_decide_eq_true_2 by done. by replace (llen bytes =? 64) with true by lia.
Qed.

(** What the key of a grant's approver signed: the document without its signature. *)
Record grant_ok (bytes : list Z) (snapshot : ValidatedSnapshot) (v : VerifiedApprovalGrant) : Prop := {
  gok_size : llen bytes <= APPROVAL_GRANT_MAX_BYTES;
  gok_signed : exists value object canonical key,
    parse_unique_json bytes = Ok value /\ grant_from_value value = Some (vg_grant v) /\ as_object value = Some object /\
    jcs (VObject (object_remove "signature" object)) = Some canonical /\
    approver_key snapshot (g_approver_id (vg_grant v)) = Some key /\
    signed_by key (APPROVAL_SIGN_PREFIX ++ canonical) (g_signature (vg_grant v));
  gok_window : 0 <= g_not_before_ms (vg_grant v) < g_expires_at_ms (vg_grant v);
  gok_uses : g_max_uses (vg_grant v) <= 10000 /\ g_max_uses (vg_grant v) <> 0 /\
    (g_mode (vg_grant v) = OneTime -> g_max_uses (vg_grant v) = 1);
}.
Lemma signed_value_payload_ok value prefix message :
  signed_value_payload value prefix = Ok message ->
  exists object canonical, as_object value = Some object /\
    jcs (VObject (object_remove "signature" object)) = Some canonical /\ message = prefix ++ canonical.
Proof.
  unfold signed_value_payload. intros H. bind_inv H.
  destruct (as_object value) as [object|]; [|done]. injection E as ->. exists a. 
  destruct (jcs _) as [canonical|]; [|done]. injection E1 as ->. by exists a1.
Qed.

(** C28: an approval grant is accepted only when the key that the policy lists for its
    approver signed the grant domain's prefix and the canonical form of the whole document
    without its signature; the document has at most 4 KiB, a version, a period that is not
    empty, between one and ten thousand uses, and one use when it is for one time. *)
Theorem approval_grant_authentic bytes snapshot v :
  parse_and_verify_approval_grant bytes snapshot = Ok v ->
  g_format_version (vg_grant v) = APPROVAL_FORMAT_VERSION /\ grant_ok bytes snapshot v.
Proof.
  unfold parse_and_verify_approval_grant. intros H. bind_inv H. subst v. cbn.
  destruct (grant_from_value _) as [grant|] eqn:Eg; [|done]. injection E1 as ->.
  destruct (approver_key _ _) as [key|] eqn:Ek; [|done]. injection E5 as ->.
  unfold verify_signed_value in E6. bind_inv E6. destruct a4. apply verify_detached_ok in E6.
  apply signed_value_payload_ok in E1 as (object & canonical & Ho & Hj & ->).
  reflect_bools. split; [done|]. split; cbn.
  - done.
  - by exists a, object, canonical, a3.
  - done.
  - split; [done|]. split; [done|]. intros Hm. rewrite Hm in *. cbn in *.
    rewrite bool_decide_eq_true_2 in * by done. cbn in *. by reflect_bools.
Qed.

(** Challenges. *)
Record challenge_ok (c : ApprovalChallenge) : Prop := {
  cok_times : 0 <= ch_created_at_ms c < ch_max_expires_at_ms c;
  cok_mode : match ch_mode c with
    | OneTime => ch_max_uses c = 1 /\ i64_saturate (ch_max_expires_at_ms c - ch_created_at_ms c) <= 10 * 60 * 1000
    | TimeWindow => 1 <= ch_max_uses c <= 10000 /\
        i64_saturate (ch_max_expires_at_ms c - ch_created_at_ms c) <= 8 * 60 * 60 * 1000
    end;
  cok_approver : match ch_approver c with
    | LocalPresence => ch_mode c = OneTime
    | Ed25519 keys threshold => 1 <= threshold <= llen keys /\ threshold <= 2 /\ llen keys <= 32 /\
        strictly_sorted keys = true
    end;
}.
Lemma challenge_validate_ok c : challenge_validate c = Ok tt -> challenge_ok c.
Proof.
  unfold challenge_validate. intros H. bind_inv H. reflect_bools.
  unfold valid_approval_approver in *. split; [lia| |].
  - destruct (ch_mode c); reflect_bools; lia.
  - destruct (ch_approver c); reflect_bools; [done|]. split_and!; (done || lia).
Qed.
(** a challenge is accepted from an envelope only when the origin's key signed the
    challenge domain's prefix and the canonical form of that challenge, and the challenge
    is valid: it expires after it was made, within ten minutes for one use and eight hours
    for a window, and names one or two of at most 32 distinct approver keys. *)
Theorem approval_challenge_authentic bytes key challenge :
  parse_and_verify_approval_challenge_envelope bytes key = Ok challenge ->
  llen bytes <= SNAPSHOT_MAX_BYTES /\ challenge_ok challenge /\
  exists envelope canonical, sc_challenge envelope = challenge /\ challenge_jcs challenge = Some canonical /\
    signed_by key (APPROVAL_CHALLENGE_SIGN_PREFIX ++ canonical) (sc_signature envelope).
Proof.
  unfold parse_and_verify_approval_challenge_envelope. intros H. bind_inv H. subst challenge.
  destruct a3. apply verify_detached_ok in E4. unfold approval_challenge_sign_payload in E3. bind_inv E3. subst a2.
  destruct (challenge_validate (sc_challenge a0)) as [[]|] eqn:Hv; [|done]. apply challenge_validate_ok in Hv.
  destruct (challenge_jcs _) as [canonical|] eqn:Hj; [|done]. injection E6 as ->. reflect_bools.
  split; [done|]. split; [done|]. by eexists a0, _.
Qed.

(** a message signed as one kind of document is never a message of another kind, so
    no signature over a policy, a grant or a challenge can stand for one of the others. *)
Theorem signed_domains_apart policy grant challenge m1 m2 m3 :
  signed_value_payload policy POLICY_SIGN_PREFIX = Ok m1 ->
  signed_value_payload grant APPROVAL_SIGN_PREFIX = Ok m2 ->
  approval_challenge_sign_payload challenge = Ok m3 ->
  m1 <> m2 /\ m1 <> m3 /\ m2 <> m3.
Proof.
  intros (? & c1 & _ & _ & ->)%signed_value_payload_ok (? & c2 & _ & _ & ->)%signed_value_payload_ok H.
  unfold approval_challenge_sign_payload in H. bind_inv H. subst m3.
  split_and!; intros Heq; apply (f_equal (fun l => l !! 2%nat)) in Heq; by vm_compute in Heq.
Qed.
End WithLibraries.

(** ** Examples *)

Import RelayDemo.
Definition demo_snapshot : ValidatedSnapshot :=
  mkValidatedSnapshot 1 5 [] [] [(2, repeat 17 32)].
Lemma approval_grant_authentic_witness :
  exists v, vg_grant v = grant /\ grant_ok [4] demo_snapshot v.
Proof.
  assert (H : exists v, parse_and_verify_approval_grant [4] demo_snapshot = Ok v /\ vg_grant v = grant)
    by (eexists; split; vm_compute; reflexivity).
  destruct H as (v & H & Hv). exists v. split; [exact Hv|]. exact (proj2 (approval_grant_authentic [4] demo_snapshot v H)).
Defined.
Lemma approval_challenge_authentic_witness : challenge_ok challenge.
Proof.
  assert (H : parse_and_verify_approval_challenge_envelope [3] (repeat 17 32) = Ok challenge) by (vm_compute; reflexivity).
  exact (proj1 (proj2 (approval_challenge_authentic [3] (repeat 17 32) challenge H))).
Defined.
Lemma signed_domains_apart_witness :
  exists m1 m2 m3 : list Z, m1 <> m2 /\ m1 <> m3 /\ m2 <> m3.
Proof.
  set (v := VObject [("grant", VString "g"); ("signature", VString "s")] : JValue Number).
  assert (H : exists m1 m2 m3, signed_value_payload v POLICY_SIGN_PREFIX = Ok m1 /\
    signed_value_payload v APPROVAL_SIGN_PREFIX = Ok m2 /\ approval_challenge_sign_payload challenge = Ok m3)
    by (do 3 eexists; repeat split; vm_compute; reflexivity).
  destruct H as (m1 & m2 & m3 & H1 & H2 & H3). exists m1, m2, m3.
  exact (signed_domains_apart v v challenge m1 m2 m3 H1 H2 H3).
Defined.
