(* ===== verification/RelayTransactions.v ===== *)
(** * RelayTransactions: what one transaction of the relay changes

    Rules for the relay's monad, the exact change that every method of [Store]
    makes to the database when it commits, and that a method that fails before its
    commit changes nothing. *)

From S2P Require Import Prelude Strings Errors Domain Codec Policy SessionState Approval Decimal Json Signed Relay RelayStore RelayService.

(** ** Rules *)

Definition wp {A} (m : R A) (Q : A -> Relay -> Prop) (E : Relay -> Prop) (s : Relay) : Prop :=
  match m s with
  | (Ok a, s') => Q a s'
  | (Err _, s') => E s'
  end.
Lemma rwp_mono {A} (m : R A) (Q Q' : A -> Relay -> Prop) (E E' : Relay -> Prop) s :
  wp m Q E s -> (forall a s', Q a s' -> Q' a s') -> (forall s', E s' -> E' s') -> wp m Q' E' s.
Proof. unfold wp. destruct (m s) as [[a|e] s']; auto. Qed.
Lemma rwp_bind {A B} (m : R A) (f : A -> R B) Q E s :
  wp m (fun a s' => wp (f a) Q E s') E s -> wp (x ← m; f x) Q E s.
Proof. unfold wp, mbind, R_bind. by destruct (m s) as [[a|e] s']. Qed.
Lemma rwp_ret {A} (a : A) (Q : A -> Relay -> Prop) E s : Q a s -> wp (mret a) Q E s.
Proof. done. Qed.
Lemma wp_fail {A} e (Q : A -> Relay -> Prop) (E : Relay -> Prop) s : E s -> wp (fail e) Q E s.
Proof. done. Qed.
Lemma wp_deny b e (Q : unit -> Relay -> Prop) (E : Relay -> Prop) s :
  (b = true -> E s) -> (b = false -> Q tt s) -> wp (deny_if b e) Q E s.
Proof. unfold deny_if. destruct b; intros H1 H2; [by apply H1|by apply H2]. Qed.
Lemma wp_some {A} e (o : option A) (Q : A -> Relay -> Prop) (E : Relay -> Prop) s :
  (o = None -> E s) -> (forall a, o = Some a -> Q a s) -> wp (some_or e o) Q E s.
Proof. unfold some_or. destruct o; intros H1 H2; [by apply H2|by apply H1]. Qed.
Lemma wp_reads {A} (f : Relay -> A) (Q : A -> Relay -> Prop) E s : Q (f s) s -> wp (reads f) Q E s.
Proof. done. Qed.
Lemma rwp_modify f (Q : unit -> Relay -> Prop) E s : Q tt (f s) -> wp (modify f) Q E s.
Proof. done. Qed.

(** ** Frames *)


(** Only the number of readings moves; then the transaction too. *)
Record same (s s' : Relay) : Prop := {
  same_db : db s' = db s; same_tx : tx s' = tx s; same_fresh : fresh s' = fresh s;
  same_fault : fault s' = fault s; same_tick : (tick s <= tick s')%nat }.
Record frame (s s' : Relay) : Prop := {
  frame_db : db s' = db s; frame_fresh : fresh s' = fresh s;
  frame_fault : fault s' = fault s; frame_tick : (tick s <= tick s')%nat }.
Lemma same_state_refl s : same s s.
Proof. by split. Qed.
Lemma same_state_trans s1 s2 s3 : same s1 s2 -> same s2 s3 -> same s1 s3.
Proof. intros [] []. split; congruence || lia. Qed.
Lemma frame_refl s : frame s s.
Proof. by split. Qed.
Lemma frame_trans s1 s2 s3 : frame s1 s2 -> frame s2 s3 -> frame s1 s3.
Proof. intros [] []. split; congruence || lia. Qed.
Lemma same_frame s s' : same s s' -> frame s s'.
Proof. intros []. by split. Qed.
Lemma same_ticked s : same s (ticked s).
Proof. split; cbn; try done. lia. Qed.
(** More of the state has the fields of an earlier one. *)
Ltac frame_by F := eapply frame_trans; [exact F|split; cbn; (done || lia)].
#[export] Hint Resolve same_state_refl frame_refl same_frame same_ticked : relay.

Definition reader {A} (m : R A) : Prop := forall s, wp m (fun _ s' => same s s') (fun s' => same s s') s.

Section WithWorld.
Context {W : World}.

Lemma reader_ret {A} (a : A) : reader (mret a).
Proof. intros s. apply rwp_ret, same_state_refl. Qed.
Lemma reader_fail {A} e : reader (A:=A) (fail e).
Proof. intros s. apply wp_fail, same_state_refl. Qed.
Lemma reader_bind {A B} (m : R A) (f : A -> R B) : reader m -> (forall a, reader (f a)) -> reader (x ← m; f x).
Proof.
  intros Hm Hf s. apply rwp_bind. eapply rwp_mono; [apply Hm| |done]. cbn. intros a s' H.
  eapply rwp_mono; [apply Hf| |]; cbn; intros; by eapply same_state_trans.
Qed.
Lemma reader_deny b e : reader (deny_if b e).
Proof. intros s. apply wp_deny; intros _; apply same_state_refl. Qed.
Lemma reader_some {A} e (o : option A) : reader (some_or e o).
Proof. intros s. apply wp_some; intros; apply same_state_refl. Qed.
Lemma reader_reads {A} (f : Relay -> A) : reader (reads f).
Proof. intros s. apply same_state_refl. Qed.
Lemma reader_now : reader now_ms.
Proof. intros s. apply same_ticked. Qed.
Lemma reader_instant : reader instant_now.
Proof. intros s. apply same_ticked. Qed.
Lemma reader_files : reader check_files.
Proof. intros s. unfold wp, check_files. destruct (files_ok _); apply same_ticked. Qed.
Lemma reader_query {A} (f : Database -> A) : reader (query f).
Proof. intros s. unfold wp, query. destruct (db_ok _); apply same_ticked. Qed.
Lemma reader_each {A} (f : A -> R unit) l : (forall a, reader (f a)) -> reader (each f l).
Proof. intros Hf. induction l as [|x l IH]; [apply reader_ret|]. by apply reader_bind. Qed.

(** Reading before something else: only the clock has moved. *)
Lemma wp_read {A B} (m : R A) (f : A -> R B) Q (E : Relay -> Prop) s :
  reader m -> (forall s', same s s' -> E s') ->
  (forall a s', same s s' -> wp (f a) Q E s') -> wp (x ← m; f x) Q E s.
Proof.
  intros Hm HE Hf. apply rwp_bind. eapply rwp_mono; [apply Hm| |done]. cbn. intros a s' H. by apply Hf.
Qed.
Lemma wp_query {A} (f : Database -> A) (Q : A -> Relay -> Prop) (E : Relay -> Prop) s :
  E (ticked s) -> Q (f (tx s)) (ticked s) -> wp (query f) Q E s.
Proof. unfold wp, query. by destruct (db_ok _). Qed.
Lemma wp_now (Q : Z -> Relay -> Prop) E s : Q (wall (tick s)) (ticked s) -> wp now_ms Q E s.
Proof. done. Qed.
Lemma wp_execute f (Q : unit -> Relay -> Prop) (E : Relay -> Prop) s :
  E (ticked s) -> (forall t, f (tx s) = Some t -> Q tt (ticked (set_tx t s))) -> wp (execute f) Q E s.
Proof. unfold wp, execute. intros H1 H2. destruct (db_ok _); [|done]. destruct (f (tx s)); [by apply H2|done]. Qed.
Lemma wp_execute_count f (Q : Z -> Relay -> Prop) (E : Relay -> Prop) s :
  E (ticked s) -> Q (f (tx s)).2 (ticked (set_tx (f (tx s)).1 s)) -> wp (execute_count f) Q E s.
Proof. unfold wp, execute_count. intros H1 H2. destruct (db_ok _); [|done]. by destruct (f (tx s)). Qed.
Lemma wp_transaction (Q : unit -> Relay -> Prop) (E : Relay -> Prop) s :
  E (ticked s) -> Q tt (ticked (set_tx (db s) s)) -> wp transaction Q E s.
Proof. unfold wp, transaction. by destruct (db_ok _). Qed.
Lemma wp_commit (Q : unit -> Relay -> Prop) (E : Relay -> Prop) s :
  E (ticked s) -> Q tt (ticked (set_db (tx s) s)) -> wp commit Q E s.
Proof. unfold wp, commit. by destruct (db_ok _). Qed.

Lemma reader_recheck who deadline : reader (recheck who deadline).
Proof.
  unfold recheck. apply reader_bind; [apply reader_instant|]. intros now. destruct (_ <=? _); [apply reader_fail|].
  apply reader_bind; [apply reader_now|]. intros. apply reader_deny.
Qed.

Section WithLibraries.
Context {CC : Codecs} {SG : Signatures} {SJ : Serde} {RL : RelayLibs} {DC : Documents}.
Context (directory_to_vec : Directory -> option (list Z)).
Notation gate := (gate directory_to_vec).

(** ** The gate *)

Definition tombstoned (p : string) (d : Database) : Prop :=
  exists r, subject_row p d = Some r /\ sr_tombstone r = true.
(** The person is in the directory, not offboarded, and was seen active at most a
    minute before a reading of the clock, under a token valid at a later one. *)
Definition current (c : Config) (d : Database) (f : gmap string Freshness) (p : string) (from to : nat) : Prop :=
  exists link row seen n,
    link_of c p = Some link /\ subject_row p d = Some row /\ sr_source row = source_user_id link /\
    sr_tombstone row = false /\ f !! p = Some seen /\ (from <= n)%nat /\ (S n < to)%nat /\
    mono n - fr_observed seen <= 60 * 1000000000 /\ wall (S n) < fr_expires seen.
Lemma current_not_tombstoned c d f p a b : current c d f p a b -> ~ tombstoned p d.
Proof. intros (l & r & seen & n & _ & Hr & _ & Ht & _) (r' & Hr' & Ht'). congruence. Qed.

Lemma gate_wp c p status s :
  wp (gate c p status)
    (fun _ s' => same s s' /\ current c (tx s) (fresh s) p (tick s) (tick s')) (fun s' => same s s') s.
Proof.
  unfold RelayStore.gate. apply rwp_bind, wp_some; [intros; apply same_state_refl|]. intros link Hl.
  apply rwp_bind, wp_query; [apply same_ticked|]. apply rwp_bind, wp_some; [intros; apply same_ticked|].
  intros row Hr. apply rwp_bind.
  assert (Hsrc : wp (if negb (str_eqb (sr_source row) (source_user_id link)) then fail Storage
      else digest ← digest_of directory_to_vec c; deny_if (negb (str_eqb (sr_digest row) digest)) Storage)
    (fun _ s' => s' = ticked s /\ sr_source row = source_user_id link) (fun s' => s' = ticked s) (ticked s)).
  { destruct (str_eqb _ _) eqn:E; [|by apply wp_fail]. apply bool_decide_eq_true in E. cbn [negb].
    unfold digest_of. apply rwp_bind, wp_some; [done|]. intros dg _. by apply wp_deny. }
  eapply rwp_mono; [exact Hsrc| |intros s' ->; apply same_ticked]. cbn. intros _ s' [-> Esrc].
  apply rwp_bind, wp_deny; intros Ht; [apply same_ticked|]. apply rwp_bind, wp_reads. cbn [fresh ticked set_tick].
  destruct (fresh s !! p) as [f|] eqn:Ef; [|apply wp_fail, same_ticked].
  apply rwp_bind. unfold wp at 1, instant_now. destruct (Z.ltb_spec (60 * 1000000000) (Z.max 0 (mono (tick (ticked s)) - fr_observed f))) as [|Hm].
  { apply wp_fail. split; cbn; (done || lia). }
  apply rwp_bind, wp_now, wp_deny; intros He.
  { split; cbn; (done || lia). }
  split; [split; cbn; (done || lia)|].
  apply Z.leb_gt in He. exists link, row, f, (tick (ticked s)). cbn in *. split_and!; (done || lia).
Qed.
Lemma reader_gate c p status : reader (gate c p status).
Proof. intros s. eapply rwp_mono; [apply gate_wp| |done]. cbn. tauto. Qed.
Lemma reader_digest c : reader (digest_of directory_to_vec c).
Proof. apply reader_some. Qed.

(** ** Events *)

Lemma event_wp issuer subject id kind digest result s :
  wp (event issuer subject id kind digest result)
    (fun _ s' => frame s s' /\ llen (events (tx s)) < MAX_EVENTS /\
       exists at_, tx s' = set_events (events (tx s) ++ [mkEvent issuer subject id kind digest at_ result]) (tx s))
    (fun s' => frame s s') s.
Proof.
  unfold event. apply rwp_bind, wp_query; [auto with relay|].
  apply rwp_bind, wp_deny; intros Hn; [auto with relay|]. apply Z.leb_gt in Hn.
  apply rwp_bind, wp_now, wp_execute; [split; cbn; (done || lia)|].
  intros t Ht. unfold insert_event in Ht. simplify_eq. cbn in *. split; [split; cbn; (done || lia)|].
  split; [done|]. by eexists.
Qed.

Lemma current_mono c d f p a b a' b' : current c d f p a b -> (a' <= a)%nat -> (b <= b')%nat -> current c d f p a' b'.
Proof.
  intros (l & r & seen & n & H1 & H2 & H3 & H4 & H5 & H6 & H7 & H8) Ha Hb.
  exists l, r, seen, n. split_and!; (done || lia).
Qed.
Lemma gates_wp c l status s :
  wp (each (fun p => gate c p status) l)
    (fun _ s' => same s s' /\ forall p, p ∈ l -> current c (tx s) (fresh s) p (tick s) (tick s'))
    (fun s' => same s s') s.
Proof.
  revert s. induction l as [|x l IH]; intros s; cbn [each].
  - apply rwp_ret. split; [apply same_state_refl|]. by intros p ?%not_elem_of_nil.
  - apply rwp_bind. eapply rwp_mono; [apply gate_wp| |done]. cbn. intros _ s1 [H1 Hx].
    eapply rwp_mono; [apply IH| |intros s2 H2; by eapply same_state_trans]. cbn. intros _ s2 [H2 Hl].
    rewrite (same_tx _ _ H1), (same_fresh _ _ H1) in Hl. pose proof (same_tick _ _ H1). pose proof (same_tick _ _ H2).
    split; [by eapply same_state_trans|]. intros p [->|Hp]%elem_of_cons.
    + by eapply current_mono.
    + eapply current_mono; [by apply Hl|lia|lia].
Qed.

(** ** Files *)

Notation sha := (@sha CC).
Definition recorded (e : Event) (d : Database) : Database := set_events (events d ++ [e]) d.
(** The event names who did what to which request. *)
Definition event_of (who : Identity) (id kind : string) (e : Event) : Prop :=
  ev_subject e = who_subject who /\ ev_request e = id /\ ev_kind e = kind.

(** A row as an upload of a challenge makes it. *)
Record new_row (c : Config) (who : Identity) (id : string) (bytes : list Z) (from to : nat) (r : Request) : Prop := {
  new_id : rq_id r = id;
  new_uploader : rq_uploader r = who_subject who;
  new_bytes : rq_challenge r = bytes;
  new_sha : rq_challenge_sha r = sha bytes;
  new_grant : rq_grant r = None;
  new_party : exists a, a ∈ approvers c /\ rq_recipient r = ap_subject a /\ rq_approver r = ap_approver_id a /\
    exists key challenge, validate_ed25519_public_key curve_point_ok (origin_public_key c) = Ok key /\
      parse_and_verify_approval_challenge_envelope bytes key = Ok challenge /\
      uuid_text (ch_approval_request_id challenge) = id /\ approver_names (ap_public_key a) (ch_approver challenge) = true /\
      rq_expires r = ch_max_expires_at_ms challenge;
  new_accepted : exists n, (from <= n < to)%nat /\ rq_accepted r = wall n;
  new_open : rq_accepted r < rq_expires r;
}.
(** A grant as an upload makes it, for a row. *)
Record new_file (bytes : list Z) (from to : nat) (r : Request) (g : GrantFile) : Prop := {
  file_bytes : gf_bytes g = bytes;
  file_sha : gf_sha g = sha bytes;
  file_within : gf_expires g <= rq_expires r;
  file_open : gf_accepted g < gf_expires g;
  file_accepted : exists n, (from <= n < to)%nat /\ gf_accepted g = wall n;
}.
Definition file_of (kind : string) (r : Request) : option (list Z * string) :=
  if str_eqb kind "challenge" then Some (rq_challenge r, rq_challenge_sha r)
  else (fun g => (gf_bytes g, gf_sha g)) <$> rq_grant r.

(** What a request about files did to the database, and what it answered. *)
Inductive outcome (c : Config) (who : Identity) (id kind : string) (put : bool) (bytes : list Z) (from to : nat)
    (d : Database) : Output -> Database -> Prop :=
  | read_row r e out :
      request_of id d = Some r -> event_of who id kind e -> llen (events d) < MAX_EVENTS ->
      is_uploader c who r || is_recipient c who r = true ->
      (put = true -> kind = "challenge" -> rq_challenge r = bytes) ->
      (put = true -> kind <> "challenge" -> exists g, rq_grant r = Some g /\ gf_bytes g = bytes) ->
      (put = false -> kind <> "receipt" ->
         exists digest, file_of kind r = Some (out_bytes out, digest) /\ out_digest out = Some digest) ->
      outcome c who id kind put bytes from to d out (recorded e d)
  | new_challenge r e :
      put = true -> kind = "challenge" -> who_subject who = uploader_subject c ->
      request_of id d = None -> new_row c who id bytes from to r -> event_of who id kind e ->
      id ∉ map rq_id (requests d) -> llen (requests d) < MAX_REQUESTS ->
      blob_total d + llen bytes <= MAX_BLOBS -> llen (events d) < MAX_EVENTS ->
      outcome c who id kind put bytes from to d (output_receipt 201 (rq_receipt r))
        (recorded e (set_requests (requests d ++ [r]) d))
  | new_grant_file r g e :
      put = true -> kind <> "challenge" -> request_of id d = Some r -> is_recipient c who r = true ->
      rq_grant r = None -> new_file bytes from to r g -> event_of who id kind e ->
      blob_total d + llen bytes <= MAX_BLOBS -> llen (events d) < MAX_EVENTS ->
      outcome c who id kind put bytes from to d (output_receipt 201 (gf_receipt g))
        (recorded e (set_requests (map (fun r => if str_eqb (rq_id r) id then set_grant g r else r) (requests d)) d)).

(** The transaction so far, from [s]. *)
Definition did c who id kind put bytes (s : Relay) (out : Output) (s' : Relay) : Prop :=
  frame s s' /\ outcome c who id kind put bytes (tick s) (tick s') (tx s) out (tx s').

Lemma outcome_later c who id kind put bytes a b a' b' d out d' :
  outcome c who id kind put bytes a b d out d' -> (a' <= a)%nat -> (b <= b')%nat ->
  outcome c who id kind put bytes a' b' d out d'.
Proof.
  intros H Ha Hb. destruct H as [r e out H1 H2 H3 H4 H5 H6 H7|r e H1 H2 H3 H4 H5 H6 H7 H8 H9 H10|r g e H1 H2 H3 H4 H5 H6 H7 H8 H9].
  - by eapply read_row.
  - eapply new_challenge; try done. destruct H5 as [? ? ? ? ? ? (n & ? & ?) ?]. split; try done. exists n. split; [lia|done].
  - eapply new_grant_file; try done. destruct H6 as [? ? ? ? (n & ? & ?)]. split; try done. exists n. split; [lia|done].
Qed.

Lemma store_challenge_wp c who id target bytes s :
  who_subject who = uploader_subject c -> request_of id (tx s) = None ->
  wp (store_challenge directory_to_vec c who id target bytes)
    (fun p s' => did c who id "challenge" true bytes s p.2 s' /\
       current c (tx s) (fresh s) p.1 (tick s) (tick s') /\
       (forall r, request_of id (tx s') = Some r -> rq_recipient r = p.1 /\ rq_uploader r = who_subject who))
    (fun s' => frame s s') s.
Proof.
  intros Hwho Hnone. unfold store_challenge.
  apply rwp_bind, wp_some; [auto with relay|]. intros a Ha. apply find_first_Some in Ha as [Ha Hid].
  apply rwp_bind. eapply rwp_mono; [apply gate_wp| |by intros; apply same_frame].
  cbn. intros _ s1 [H1 Hcur]. pose proof (same_tx _ _ H1) as Etx. pose proof (same_frame _ _ H1) as F1.
  apply rwp_bind, wp_some; [done|]. intros key Hkey. apply rwp_bind, wp_some; [done|]. intros challenge Hch.
  apply rwp_bind, wp_deny; intros Hfields; [done|]. apply rwp_bind, wp_now, rwp_bind, wp_deny; intros Hc; [frame_by F1|].
  apply rwp_bind, wp_deny; intros Hx; [frame_by F1|].
  set (n := tick s1) in *.
  apply rwp_bind, wp_query; [frame_by F1|].
  apply rwp_bind, wp_deny; intros Hfull; [frame_by F1|].
  apply rwp_bind, wp_execute; [frame_by F1|].
  intros t Ht. unfold insert_request in Ht. case_bool_decide as Hnew; [done|]. simplify_eq.
  cbn [tx ticked set_tick rq_id] in *. rewrite Etx in *.
  set (row := mkRequest _ _ _ _ _ _ _ _ _ _ _ _) in *.
  apply rwp_bind. eapply rwp_mono; [apply event_wp| |].
  2: { intros s' Hs'. eapply frame_trans; [exact F1|]. eapply frame_trans; [|exact Hs']. split; cbn; (done || lia). }
  cbn [tx ticked set_tx set_tick]. intros _ s2 (F2 & Hev & at_ & Etx2). apply rwp_ret. cbn [fst snd].
  assert (Ht2 : (tick s1 + 3 <= tick s2)%nat).
  { pose proof (frame_tick _ _ F2) as Ht2. cbn in Ht2. lia. }
  pose proof (same_tick _ _ H1) as Ht1.
  apply Z.ltb_ge in Hc. apply Z.leb_gt in Hx. apply orb_false_iff in Hfull as [Hn Hm]. apply Z.leb_gt in Hn. apply Z.ltb_ge in Hm.
  assert (Hrow : new_row c who id bytes (tick s) (tick s2) row).
  { split; cbn; try done.
    - exists a. split; [done|]. split; [done|]. apply bool_decide_eq_true in Hid. split; [by rewrite Hid|].
      unfold result_option in Hkey, Hch. destruct (validate_ed25519_public_key _ _) as [key'|]; [|done].
      destruct (parse_and_verify_approval_challenge_envelope _ _) as [ch|] eqn:E; [|done]. simplify_eq.
      exists key, challenge. split; [done|]. split; [done|].
      repeat (apply orb_false_iff in Hfields as [Hfields ?]). repeat match goal with H : negb _ = false |- _ => apply negb_false_iff in H end.
      split; [exact (proj1 (bool_decide_eq_true _) Hfields)|]. done.
    - exists n. split; [lia|done]. }
  split; [split|split].
  - eapply frame_trans; [exact F1|]. eapply frame_trans; [|exact F2]. split; cbn; (done || lia).
  - rewrite Etx2. apply (new_challenge c who id "challenge" true bytes (tick s) (tick s2) (tx s) row); done.
  - eapply current_mono; [exact Hcur|lia|lia].
  - rewrite Etx2. intros r Hr. unfold request_of in Hr. cbn [requests set_events set_requests] in Hr.
    unfold request_of in Hnone. rewrite find_first_app, Hnone in Hr. cbn in Hr.
    unfold str_eqb in Hr. rewrite bool_decide_eq_true_2 in Hr by done. by simplify_eq.
Qed.

(** An answer from a row, recorded. *)
Definition answers (c : Config) (who : Identity) (id kind : string) (put : bool) (bytes : list Z) (d : Database)
    (r : Request) (out : Output) : Prop :=
  request_of id d = Some r /\ is_uploader c who r || is_recipient c who r = true /\
  (put = true -> kind = "challenge" -> rq_challenge r = bytes) /\
  (put = true -> kind <> "challenge" -> exists g, rq_grant r = Some g /\ gf_bytes g = bytes) /\
  (put = false -> kind <> "receipt" ->
     exists digest, file_of kind r = Some (out_bytes out, digest) /\ out_digest out = Some digest).
Lemma record_wp c who id kind put bytes issuer digest result s r out :
  answers c who id kind put bytes (tx s) r out ->
  wp (event issuer (who_subject who) id kind digest result)
    (fun _ s' => did c who id kind put bytes s out s') (fun s' => frame s s') s.
Proof.
  intros (Hr & Hw & H1 & H2 & H3). eapply rwp_mono; [apply event_wp| |done]. cbn. intros _ s' (F & Hev & at_ & Etx).
  split; [done|]. rewrite Etx. by eapply read_row.
Qed.
Lemma answer_wp c who id kind put bytes issuer digest result s r out :
  answers c who id kind put bytes (tx s) r out ->
  wp (_ ← event issuer (who_subject who) id kind digest result; mret out)
    (fun out s' => did c who id kind put bytes s out s') (fun s' => frame s s') s.
Proof. intros H. apply rwp_bind. by eapply rwp_mono; [by eapply record_wp| |]. Qed.

Lemma put_grant_wp c who id kind bytes s r :
  request_of id (tx s) = Some r -> kind <> "challenge" ->
  wp (put_grant c who id kind bytes r)
    (fun out s' => did c who id kind true bytes s out s') (fun s' => frame s s') s.
Proof.
  intros Hr Hk. unfold put_grant. apply rwp_bind, wp_deny; intros Hrec; [auto with relay|]. apply negb_false_iff in Hrec.
  assert (Hw : is_uploader c who r || is_recipient c who r = true) by (rewrite Hrec; by destruct (is_uploader c who r)).
  destruct (rq_grant r) as [g|] eqn:Eg.
  { apply rwp_bind, wp_deny; intros Hb; [auto with relay|]. apply negb_false_iff, bool_decide_eq_true in Hb.
    apply answer_wp with (r := r). split_and!; by eauto. }
  unfold store_grant. apply rwp_bind, wp_some; [auto with relay|]. intros grant _.
  apply rwp_bind, wp_deny; intros Hfields; [auto with relay|].
  apply rwp_bind, wp_now, rwp_bind, wp_deny; intros _; [auto with relay|].
  apply rwp_bind, wp_deny; intros Hx; [auto with relay|].
  apply rwp_bind, wp_query; [split; cbn; (done || lia)|]. apply rwp_bind, wp_deny; intros Hm; [split; cbn; (done || lia)|].
  apply rwp_bind, wp_execute; [split; cbn; (done || lia)|].
  intros t Ht. unfold update_grant in Ht. cbn [tx ticked set_tick] in *. simplify_eq.
  set (g := mkGrantFile _ _ _ _ _) in *. apply rwp_bind. eapply rwp_mono; [apply event_wp| |].
  2: { intros s' Hs'. eapply frame_trans; [|exact Hs']. split; cbn; (done || lia). }
  cbn [tx ticked set_tx set_tick]. intros _ s2 (F2 & Hev & at_ & Etx2). apply rwp_ret.
  pose proof (frame_tick _ _ F2) as Ht2. cbn in Ht2.
  apply orb_false_iff in Hx as [Hx _]. apply Z.leb_gt in Hx. apply Z.ltb_ge in Hm.
  apply orb_false_iff in Hfields as [_ Hw2]. apply Z.ltb_ge in Hw2.
  split; [eapply frame_trans; [|exact F2]; split; cbn; (done || lia)|]. rewrite Etx2.
  eapply (new_grant_file c who id kind true bytes _ _ (tx s) r g); try done.
  split; cbn; try done. exists (tick s). split; [lia|done].
Qed.

Lemma get_receipt_wp c who id bytes s r :
  request_of id (tx s) = Some r -> is_uploader c who r || is_recipient c who r = true ->
  wp (get_receipt c who id r) (fun out s' => did c who id "receipt" false bytes s out s') (fun s' => frame s s') s.
Proof.
  intros Hr Hw. unfold get_receipt. apply rwp_bind, wp_some; [auto with relay|]. intros challenge _.
  apply wp_read; [destruct (rq_grant r); [apply reader_some|apply reader_ret]|by intros; apply same_frame|].
  intros grant s1 H1. apply rwp_bind, wp_now.
  apply wp_read; [destruct (rq_grant r); [apply reader_bind; [apply reader_now|intros; apply reader_ret]|apply reader_ret]| |].
  { intros s' H'. eapply frame_trans; [by apply same_frame|]. eapply frame_trans; [|by apply same_frame]. auto with relay. }
  intros expired s2 H2. assert (F2 : same s s2).
  { eapply same_state_trans; [exact H1|]. eapply same_state_trans; [|exact H2]. apply same_ticked. }
  apply rwp_bind, wp_deny; intros _; [by apply same_frame|].
  eapply rwp_mono; [apply answer_wp with (r := r) (put := false) (bytes := bytes)| |]; rewrite ?(same_tx _ _ F2).
  - by split_and!.
  - cbn. intros out s3 [F3 Ho]. rewrite (same_tx _ _ F2) in Ho. split; [by eapply frame_trans; [apply same_frame|]|].
    eapply outcome_later; [exact Ho|exact (same_tick _ _ F2)|done].
  - intros s3 F3. by eapply frame_trans; [apply same_frame|].
Qed.

Lemma get_file_wp c who id kind bytes s r :
  request_of id (tx s) = Some r -> is_uploader c who r || is_recipient c who r = true -> kind <> "receipt" ->
  wp (get_file c who id kind r) (fun out s' => did c who id kind false bytes s out s') (fun s' => frame s s') s.
Proof.
  intros Hr Hw Hkind. unfold get_file. apply rwp_bind.
  eapply (rwp_mono _ (fun f s' => s' = s /\ file_of kind r = Some (f.1, f.2.1)) _ (fun s' => s' = s)).
  { unfold file_of. destruct (str_eqb kind "challenge"); [by apply rwp_ret|].
    apply rwp_bind, wp_some; [done|]. intros g ->. by apply rwp_ret. }
  2: { intros s' ->. auto with relay. }
  cbn. intros [file [digest expires]] s' [-> Hf]. apply rwp_bind, wp_now, rwp_bind, wp_deny; intros _; [auto with relay|].
  eapply rwp_mono; [apply answer_wp with (r := r) (put := false) (bytes := bytes)| |].
  - split_and!; try done. intros _ _. by exists digest.
  - cbn. intros out s2 [F2 Ho]. split; [by eapply frame_trans; [apply same_frame, same_ticked|]|].
    eapply outcome_later; [exact Ho|cbn; lia|done].
  - intros s2 F2. by eapply frame_trans; [apply same_frame, same_ticked|].
Qed.
End WithLibraries.
End WithWorld.

(** * What the relay's operations do to its state

    The exact effect of [operate], and that the other methods a caller reaches
    record one event and change nothing else. *)

Section WithWorld.
Context {W : World}.
Section WithLibraries.
Context {CC : Codecs} {SG : Signatures} {SJ : Serde} {RL : RelayLibs} {DC : Documents}.
Context (directory_to_vec : Directory -> option (list Z)).
Notation gate := (gate directory_to_vec).

(** ** Files *)

Lemma request_of_app id d r r' :
  request_of id d = Some r -> find_first (fun r => str_eqb (rq_id r) id) (requests d ++ [r']) = Some r.
Proof. unfold request_of. by rewrite find_first_app => ->. Qed.

(** Whatever was done for request [id], the row has the parties it had. *)
Lemma outcome_parties c who id kind put bytes a b d out d' r :
  outcome c who id kind put bytes a b d out d' -> request_of id d = Some r ->
  exists r', request_of id d' = Some r' /\ rq_uploader r' = rq_uploader r /\ rq_recipient r' = rq_recipient r.
Proof.
  intros H Hr. destruct H.
  - by exists r.
  - congruence.
  - unfold request_of. cbn [requests recorded set_events set_requests]. rewrite find_first_map.
    2: { intros x. unfold set_grant. by destruct (str_eqb (rq_id x) id) eqn:E; cbn; rewrite ?E. }
    unfold request_of in Hr. rewrite Hr. eexists. split; [done|]. by destruct (str_eqb _ _).
Qed.
Lemma insert_text_elem x y l : x ∈ insert_text y l <-> x = y \/ x ∈ l.
Proof.
  induction l as [|z l IH]; cbn; [set_solver|].
  destruct (String.compare y z) eqn:E; [|set_solver|set_solver].
  apply String.compare_eq_iff in E as ->. set_solver.
Qed.
Lemma parties_elem p row :
  p ∈ parties row <-> exists r, row = Some r /\ (p = rq_uploader r \/ p = rq_recipient r).
Proof.
  destruct row as [r|]; cbn [parties]; rewrite ?insert_text_elem; [|set_solver].
  split; [intros [->|[->|?]]; set_solver|]. intros (r' & [= ->] & [->| ->]); auto.
Qed.

Lemma put_challenge_wp c who id approver bytes s :
  wp (put_challenge directory_to_vec c who id approver bytes (request_of id (tx s)))
    (fun p s' => did c who id "challenge" true bytes s p.2 s' /\
       match p.1 with
       | Some q => (forall r, request_of id (tx s') = Some r -> rq_recipient r = q /\ rq_uploader r = who_subject who)
       | None => is_Some (request_of id (tx s))
       end)
    (fun s' => frame s s') s.
Proof.
  unfold put_challenge. apply rwp_bind, wp_deny; intros Hw; [auto with relay|].
  apply negb_false_iff, bool_decide_eq_true in Hw.
  apply rwp_bind, wp_some; [auto with relay|]. intros target _.
  destruct (request_of id (tx s)) as [row|] eqn:Hrow.
  - apply rwp_bind, wp_deny; intros Hup; [auto with relay|]. apply negb_false_iff, bool_decide_eq_true in Hup.
    apply rwp_bind, wp_deny; intros Hb; [auto with relay|]. apply orb_false_iff in Hb as [_ Hb].
    apply negb_false_iff, bool_decide_eq_true in Hb.
    assert (Hu : is_uploader c who row || is_recipient c who row = true).
    { unfold is_uploader, str_eqb. rewrite !bool_decide_eq_true_2 by congruence. done. }
    apply rwp_bind. eapply rwp_mono; [apply (record_wp c who id "challenge" true bytes _ _ _ s row (output_receipt 200 (rq_receipt row)))| |done].
    + by split_and!.
    + cbn. intros _ s' H. by split.
  - apply rwp_bind. eapply rwp_mono; [by apply store_challenge_wp| |done].
    intros [party out] s' (H & _ & Hp). by split.
Qed.

(** What a method did once it is past its commit, and a method that may have. *)
Record served (c : Config) (who : Identity) (id kind : string) (put : bool) (bytes : list Z)
    (s : Relay) (out : Output) (s' : Relay) : Prop := {
  served_outcome : outcome c who id kind put bytes (tick s) (tick s') (db s) out (db s');
  served_caller : current c (db s') (fresh s) (who_subject who) (tick s) (tick s');
  served_parties : forall r, request_of id (db s') = Some r ->
    current c (db s') (fresh s) (rq_uploader r) (tick s) (tick s') /\
    current c (db s') (fresh s) (rq_recipient r) (tick s) (tick s');
}.
Record kept (s s' : Relay) : Prop := {
  kept_fresh : fresh s' = fresh s; kept_fault : fault s' = fault s; kept_tick : (tick s <= tick s')%nat }.

Lemma served_later c who id kind put bytes s out s1 s2 :
  served c who id kind put bytes s out s1 -> same s1 s2 -> served c who id kind put bytes s out s2.
Proof.
  intros [Ho Hc Hp] H. pose proof (same_tick _ _ H). rewrite <- (same_db _ _ H) in *. split.
  - by eapply outcome_later.
  - by eapply current_mono.
  - intros r Hr. destruct (Hp r Hr). split; by eapply current_mono.
Qed.
Lemma kept_frame s s' : frame s s' -> kept s s'.
Proof. intros []. by split. Qed.
Lemma kept_trans s1 s2 s3 : kept s1 s2 -> kept s2 s3 -> kept s1 s3.
Proof. intros [] []. split; congruence || lia. Qed.

(** The row of the request and what the method makes of it. *)
Definition do_request (c : Config) (who : Identity) (id kind : string) (put : bool) (approver : option string)
    (bytes : list Z) (row : option Request) : R (option string * Output) :=
  if put && str_eqb kind "challenge" then put_challenge directory_to_vec c who id approver bytes row
  else
    r ← some_or (Http 404) row;
    _ ← deny_if (negb (is_uploader c who r) && negb (is_recipient c who r)) (Http 404);
    output ← (if put then put_grant c who id kind bytes r
              else if str_eqb kind "receipt" then get_receipt c who id r
              else get_file c who id kind r);
    mret (None, output).
Lemma do_request_wp c who id kind put approver bytes s :
  (put = true -> kind = "challenge" \/ kind = "grant") ->
  wp (do_request c who id kind put approver bytes (request_of id (tx s)))
    (fun p s' => did c who id kind put bytes s p.2 s' /\
       match p.1 with
       | Some q => (forall r, request_of id (tx s') = Some r -> rq_recipient r = q /\ rq_uploader r = who_subject who)
       | None => is_Some (request_of id (tx s))
       end)
    (fun s' => frame s s') s.
Proof.
  intros Hkind. unfold do_request. destruct (put && str_eqb kind "challenge") eqn:E.
  { apply andb_true_iff in E as [-> E]. apply bool_decide_eq_true in E as ->. apply put_challenge_wp. }
  apply rwp_bind, wp_some; [auto with relay|]. intros r Hr. rewrite Hr.
  apply rwp_bind, wp_deny; intros Hw; [auto with relay|].
  assert (Hu : is_uploader c who r || is_recipient c who r = true)
    by (by destruct (is_uploader c who r), (is_recipient c who r)).
  apply rwp_bind. eapply (rwp_mono _ (fun out s' => did c who id kind put bytes s out s')); [| |done].
  2: { intros out s' H. apply rwp_ret. split; [exact H|by eexists]. }
  destruct put.
  - apply put_grant_wp; [done|]. intros ->. unfold str_eqb in E. by rewrite bool_decide_eq_true_2 in E.
  - destruct (str_eqb kind "receipt") eqn:Ek.
    + apply bool_decide_eq_true in Ek as ->. by apply get_receipt_wp.
    + apply get_file_wp; try done. intros ->. unfold str_eqb in Ek. by rewrite bool_decide_eq_true_2 in Ek.
Qed.

(** The state as [operate] left it: changed by [served], or as it was. *)
Definition operated c who id kind put bytes (s s' : Relay) : Prop :=
  kept s s' /\ (db s' = db s \/ exists out, served c who id kind put bytes s out s').

Lemma current_subjects c d d' f p a b : subjects d' = subjects d -> current c d f p a b -> current c d' f p a b.
Proof.
  intros E (l & r & seen & n & H1 & H2 & H). exists l, r, seen, n. unfold subject_row. rewrite E. by split_and!; try apply H.
Qed.
Lemma outcome_subjects c who id kind put bytes a b d out d' :
  outcome c who id kind put bytes a b d out d' -> subjects d' = subjects d.
Proof. by intros []. Qed.

Section AfterTheChange.
Context (c : Config) (who : Identity) (deadline : Instant) (id kind : string) (put : bool) (bytes : list Z) (s : Relay).

(** The people that the request concerns, and that the answer names. *)
Definition concerned (p : option string * Output) : list string :=
  match p.1 with Some q => insert_text q (parties (request_of id (db s))) | None => parties (request_of id (db s)) end.
Definition party_known (p : option string * Output) (s1 : Relay) : Prop :=
  match p.1 with
  | Some q => (forall r, request_of id (tx s1) = Some r -> rq_recipient r = q /\ rq_uploader r = who_subject who)
  | None => is_Some (request_of id (db s))
  end.
Lemma served_commit p s1 s' :
  outcome c who id kind put bytes (tick s) (tick s1) (db s) p.2 (tx s1) -> party_known p s1 ->
  db s' = tx s1 -> current c (tx s1) (fresh s) (who_subject who) (tick s) (tick s') ->
  (forall q, q ∈ concerned p -> current c (tx s1) (fresh s) q (tick s) (tick s')) ->
  (tick s1 <= tick s')%nat -> served c who id kind put bytes s p.2 s'.
Proof.
  intros Ho Hparty Edb Hcaller Hgates Ht. split; rewrite Edb; [by eapply outcome_later|done|].
  unfold party_known, concerned in *. intros r Hr. destruct (p.1) as [q|].
  - destruct (Hparty r Hr) as [-> ->]. split; [done|]. apply Hgates, insert_text_elem. by left.
  - destruct Hparty as [r0 Hr0].
    assert (exists r', request_of id (tx s1) = Some r' /\ rq_uploader r' = rq_uploader r0 /\ rq_recipient r' = rq_recipient r0)
      as (r' & Hr' & Eu & Er) by by eapply outcome_parties.
    rewrite Hr in Hr'. injection Hr' as <-. rewrite Eu, Er. split; apply Hgates, parties_elem; eauto.
Qed.
(** The checks before the commit, and after it. *)
Definition after_change (p : option string * Output) : R Output :=
  _ ← recheck who deadline;
  _ ← gate c (who_subject who) 503;
  _ ← each (fun s => gate c s 503) (concerned p);
  _ ← commit;
  _ ← check_files;
  _ ← recheck who deadline;
  _ ← match out_expires p.2 with
      | None => mret tt
      | Some e => now ← now_ms; deny_if (e <=? now) (Http 410)
      end;
  mret p.2.
Lemma after_change_wp p s1 :
  frame s s1 -> outcome c who id kind put bytes (tick s) (tick s1) (db s) p.2 (tx s1) ->
  party_known p s1 ->
  wp (after_change p) (fun out s' => kept s s' /\ served c who id kind put bytes s out s')
    (operated c who id kind put bytes s) s1.
Proof.
  intros F Ho Hparty. unfold after_change.
  assert (Hback : forall s', frame s1 s' -> operated c who id kind put bytes s s').
  { intros s' F'. split; [by apply kept_frame, (frame_trans _ s1)|]. left. by rewrite (frame_db _ _ F'), (frame_db _ _ F). }
  apply wp_read; [apply reader_recheck|by auto with relay|]. intros _ s2 H2.
  apply rwp_bind. eapply rwp_mono; [apply gate_wp| |].
  2: { intros s3 H3. apply Hback, same_frame. by eapply same_state_trans. }
  cbn. intros _ s3 [H3 Hcaller]. apply rwp_bind. eapply rwp_mono; [apply gates_wp| |].
  2: { intros s4 H4. apply Hback, same_frame. eapply same_state_trans; [exact H2|]. by eapply same_state_trans. }
  cbn. intros _ s4 [H4 Hgates].
  assert (F4 : same s1 s4) by (eapply same_state_trans; [exact H2|]; by eapply same_state_trans).
  apply rwp_bind, wp_commit; [apply Hback; eapply frame_trans; [by apply same_frame|auto with relay]|].
  set (s5 := ticked (set_db (tx s4) s4)).
  pose proof (same_tick _ _ H2). pose proof (same_tick _ _ H3). pose proof (same_tick _ _ H4). pose proof (frame_tick _ _ F).
  assert (K5 : kept s s5).
  { split; cbn; rewrite ?(same_fresh _ _ F4), ?(same_fault _ _ F4), ?(frame_fresh _ _ F), ?(frame_fault _ _ F); try done. lia. }
  assert (Ef : forall s', same s1 s' -> fresh s' = fresh s).
  { intros s' H'. by rewrite (same_fresh _ _ H'), (frame_fresh _ _ F). }
  assert (S5 : served c who id kind put bytes s p.2 s5).
  { apply (served_commit p s1); [done|done|exact (same_tx _ _ F4)| | |cbn; lia].
    - rewrite (same_tx _ _ H2), Ef in Hcaller by done. eapply current_mono; [exact Hcaller|lia|cbn; lia].
    - intros q Hq. rewrite (same_tx _ _ H3), (same_tx _ _ H2), (same_fresh _ _ H3), Ef in Hgates by done.
      eapply current_mono; [by apply Hgates|lia|cbn; lia]. }
  assert (Hdone : forall s', same s5 s' -> kept s s' /\ served c who id kind put bytes s p.2 s').
  { intros s' H'. split; [eapply kept_trans; [exact K5|]; by apply kept_frame, same_frame|by eapply served_later]. }
  assert (Hlate : forall s', same s5 s' -> operated c who id kind put bytes s s').
  { intros s' H'. destruct (Hdone s' H'). split; [done|]. right. by eexists. }
  apply wp_read; [apply reader_files|done|]. intros _ s6 H6.
  apply wp_read; [apply reader_recheck|intros; apply Hlate; by eapply same_state_trans|]. intros _ s7 H7.
  assert (H57 : same s5 s7) by by eapply same_state_trans.
  apply wp_read; [|intros; apply Hlate; by eapply same_state_trans|].
  { destruct (out_expires p.2); [|apply reader_ret]. apply reader_bind; [apply reader_now|]. intros. apply reader_deny. }
  intros _ s8 H8. apply rwp_ret, Hdone. by eapply same_state_trans.
Qed.
End AfterTheChange.

Lemma operate_wp c who deadline id kind put approver bytes s :
  (put = true -> kind = "challenge" \/ kind = "grant") ->
  wp (operate directory_to_vec c who deadline id kind put approver bytes)
    (fun out s' => kept s s' /\ served c who id kind put bytes s out s')
    (operated c who id kind put bytes s) s.
Proof.
  intros Hkind. unfold operate.
  assert (Hback : forall s', frame s s' -> operated c who id kind put bytes s s').
  { intros s' F. split; [by apply kept_frame|]. left. apply (frame_db _ _ F). }
  apply wp_read; [apply reader_files|by auto with relay|]. intros _ s1 H1.
  apply wp_read; [apply reader_recheck|intros; apply Hback, same_frame; by eapply same_state_trans|]. intros _ s2 H2.
  assert (F2 : frame s s2) by (eapply frame_trans; by apply same_frame).
  apply rwp_bind, wp_transaction; [apply Hback; by frame_by F2|]. set (s3 := ticked _).
  assert (F3 : frame s s3) by frame_by F2.
  apply wp_read; [apply reader_gate|intros; apply Hback; eapply frame_trans; [exact F3|by apply same_frame]|]. intros _ s4 H4.
  assert (F4 : frame s s4) by (eapply frame_trans; [exact F3|by apply same_frame]).
  assert (Etx : tx s4 = db s) by (rewrite (same_tx _ _ H4); cbn; apply (frame_db _ _ F2)).
  apply rwp_bind, wp_query; [apply Hback; by frame_by F4|]. rewrite Etx.
  apply wp_read; [|intros; apply Hback; eapply frame_trans; [exact F4|eapply frame_trans; apply same_frame; [apply same_ticked|done]]|].
  { destruct (request_of id (db s)); [|apply reader_ret]. apply reader_bind; [apply reader_deny|]. intros _.
    apply reader_bind; [apply reader_gate|]. intros _. apply reader_gate. }
  intros _ s5 H5. assert (H45 : same s4 s5) by (eapply same_state_trans; [apply same_ticked|done]).
  assert (F5 : frame s s5) by (eapply frame_trans; [exact F4|by apply same_frame]).
  apply rwp_bind. rewrite <- Etx, <- (same_tx _ _ H45).
  eapply rwp_mono; [by apply (do_request_wp c who id kind put approver bytes s5)| |].
  2: { intros s6 F6. apply Hback. by eapply frame_trans. }
  intros p s6 [[F6 Ho] Hp]. rewrite (same_tx _ _ H45), Etx in *.
  destruct p as [party out]. apply (after_change_wp c who deadline id kind put bytes s (party, out) s6).
  - by eapply frame_trans.
  - eapply outcome_later; [exact Ho|apply (frame_tick _ _ F5)|done].
  - exact Hp.
Qed.

(** ** Methods that record one event *)

(** Nothing but one event of [p], in a database with [g]; or nothing at all. *)
Definition logged (g : Database -> Prop) (p : string) (s s' : Relay) : Prop :=
  kept s s' /\ g (db s) /\ exists e, ev_subject e = p /\ llen (events (db s)) < MAX_EVENTS /\ db s' = recorded e (db s).
Definition perhaps_logged (g : Database -> Prop) (p : string) (s s' : Relay) : Prop := frame s s' \/ logged g p s s'.
(** A whole method; a method inside its transaction; a method that has recorded its
    event; and one that has committed it. *)
Definition logs {A} (g : Database -> Prop) (p : string) (m : R A) : Prop :=
  forall s0 s, frame s0 s -> wp m (fun _ => logged g p s0) (perhaps_logged g p s0) s.
Definition inside {A} (g : Database -> Prop) (p : string) (m : R A) : Prop :=
  forall s0 s, frame s0 s -> tx s = db s0 -> wp m (fun _ => logged g p s0) (perhaps_logged g p s0) s.
Definition closing {A} (g : Database -> Prop) (p : string) (m : R A) : Prop :=
  forall s0 s e, frame s0 s -> g (db s0) -> tx s = recorded e (db s0) -> ev_subject e = p -> llen (events (db s0)) < MAX_EVENTS ->
  wp m (fun _ => logged g p s0) (perhaps_logged g p s0) s.

Lemma frame_same s0 s s' : frame s0 s -> same s s' -> frame s0 s'.
Proof. intros F H. by eapply frame_trans, same_frame. Qed.
Lemma logs_read {A B} g p (m : R A) (f : A -> R B) : reader m -> (forall a, logs g p (f a)) -> logs g p (x ← m; f x).
Proof.
  intros Hm Hf s0 s F. apply wp_read; [done|intros s' H; left; by eapply frame_same|].
  intros a s' H. apply Hf. by eapply frame_same.
Qed.
Lemma logs_transaction {B} g p (f : unit -> R B) : inside g p (f tt) -> logs g p (x ← transaction; f x).
Proof.
  intros Hf s0 s F. apply rwp_bind, wp_transaction; [left; frame_by F|]. apply Hf; [frame_by F|apply F].
Qed.
Lemma inside_read {A B} g p (m : R A) (f : A -> R B) : reader m -> (forall a, inside g p (f a)) -> inside g p (x ← m; f x).
Proof.
  intros Hm Hf s0 s F E. apply wp_read; [done|intros s' H; left; by eapply frame_same|].
  intros a s' H. apply Hf; [by eapply frame_same|]. by rewrite (same_tx _ _ H).
Qed.
Lemma inside_event {B} p issuer id kind digest result (f : unit -> R B) :
  closing (fun _ => True) p (f tt) -> inside (fun _ => True) p (x ← event issuer p id kind digest result; f x).
Proof.
  intros Hf s0 s F E. apply rwp_bind. eapply rwp_mono; [apply event_wp| |].
  - cbn. intros [] s' (F' & Hn & at_ & Etx). rewrite E in *.
    eapply Hf; [by eapply frame_trans|done|exact Etx|done|done].
  - intros s' F'. left. by eapply frame_trans.
Qed.
(** The caller's own gate, first in the transaction. *)
Lemma inside_gate {B} c p status (f : unit -> R B) :
  inside (fun _ => True) p (f tt) -> inside (fun d => ~ tombstoned p d) p (x ← gate c p status; f x).
Proof.
  intros Hf s0 s F E. apply rwp_bind. eapply rwp_mono; [apply gate_wp| |].
  - cbn. intros [] s' [H Hc]. rewrite E in Hc. apply current_not_tombstoned in Hc.
    eapply rwp_mono; [apply (Hf s0 s'); [by eapply frame_same|by rewrite (same_tx _ _ H)]| |].
    + intros a s1 (K & _ & He). by split.
    + intros s1 [F1|(K & _ & He)]; [by left|right]. by split.
  - intros s' H. left. by eapply frame_same.
Qed.
Lemma closing_read {A B} g p (m : R A) (f : A -> R B) : reader m -> (forall a, closing g p (f a)) -> closing g p (x ← m; f x).
Proof.
  intros Hm Hf s0 s e F G E Hp Hn. apply wp_read; [done|intros s' H; left; by eapply frame_same|].
  intros a s' H. apply (Hf a s0 s' e); [by eapply frame_same|done|by rewrite (same_tx _ _ H)|done|done].
Qed.
Lemma logged_commit (g : Database -> Prop) p s0 s e s' :
  frame s0 s -> g (db s0) -> tx s = recorded e (db s0) -> ev_subject e = p -> llen (events (db s0)) < MAX_EVENTS ->
  same (ticked (set_db (tx s) s)) s' -> logged g p s0 s'.
Proof.
  intros [F1 F2 F3 F4] G E Hp Hn [G1 G2 G3 G4 G5]. cbn in *.
  split; [split; congruence || lia|]. split; [done|]. exists e. split; [done|]. split; [done|]. by rewrite G1.
Qed.
Lemma closing_end g p : closing g p commit.
Proof.
  intros s0 s e F G E Hp Hn. apply wp_commit; [left; frame_by F|]. by eapply logged_commit, same_state_refl.
Qed.
Lemma closing_commit {B} g p (f : unit -> R B) : reader (f tt) -> closing g p (x ← commit; f x).
Proof.
  intros Hf s0 s e F G E Hp Hn. apply rwp_bind, wp_commit; [left; frame_by F|].
  eapply rwp_mono; [apply Hf| |]; intros; [|right]; by eapply logged_commit.
Qed.

End WithLibraries.
End WithWorld.
