(* ===== verification/RelayTheorems.v ===== *)
(** * RelayTheorems: what a request changes, whatever it asks

    The methods that only record, the directory's changes, the deletions, and
    [Service::handle] as a sequence of such changes. *)

From stdpp Require Import relations.
From S2P Require Import Prelude Strings Errors Domain Codec Policy SessionState Approval Decimal Json Signed Relay RelayStore RelayService.
From S2P Require Import RelayTransactions.

Section WithWorld.
Context {W : World}.
Section WithLibraries.
Context {CC : Codecs} {SG : Signatures} {SJ : Serde} {RL : RelayLibs} {DC : Documents}.
Context (directory_to_vec : Directory -> option (list Z)).
Notation gate := (gate directory_to_vec).

(** ** Readers *)

#[local] Hint Resolve reader_ret reader_fail reader_deny reader_some reader_reads reader_now reader_instant
  reader_files reader_query reader_recheck reader_gate reader_digest : readers.
Ltac read := repeat first
  [ progress eauto with readers
  | apply reader_bind; [|intros ?]
  | apply reader_each; intros ?
  | match goal with |- reader (match ?x with _ => _ end) => destruct x end ].

Lemma reader_gate_rows c participants rows : reader (gate_rows directory_to_vec c participants rows).
Proof. revert participants. induction rows; intros; cbn [gate_rows]; read. Qed.
Lemma reader_revocation_items c items rows : reader (revocation_items c items rows).
Proof. revert items. induction rows; intros; cbn [revocation_items]; read. Qed.
Lemma reader_fit fuel c items : reader (fit directory_to_vec fuel c items).
Proof.
  revert items. induction fuel; intros; cbn [fit]; (apply reader_bind; [apply reader_digest|intros digest]);
    destruct (_ <=? _); try apply reader_ret; destruct (trim_last items); try apply reader_fail. apply IHfuel.
Qed.
#[local] Hint Resolve reader_gate_rows reader_revocation_items reader_fit : readers.

(** ** Methods that record *)

Ltac log := repeat first
  [ apply logs_read; [solve [read]|intros ?]
  | apply logs_transaction
  | apply inside_gate
  | apply inside_read; [solve [read]|intros ?]
  | apply inside_event
  | apply closing_read; [solve [read]|intros ?]
  | apply closing_end
  | apply closing_commit; solve [read] ].
Lemma audit_logs c subject id kind status : logs (fun _ => True) (default "unknown" subject) (audit c subject id kind status).
Proof. unfold audit. log. Qed.
Lemma admin_identity_logs c who deadline :
  logs (fun d => ~ tombstoned (who_subject who) d) (who_subject who) (admin_identity directory_to_vec c who deadline).
Proof. unfold admin_identity. log. Qed.
Lemma revocations_op_logs c who deadline : logs (fun d => ~ tombstoned (who_subject who) d) (who_subject who) (revocations_op directory_to_vec c who deadline).
Proof. unfold revocations_op. log. Qed.
Lemma inbox_logs c who deadline q : logs (fun d => ~ tombstoned (who_subject who) d) (who_subject who) (inbox directory_to_vec c who deadline q).
Proof. unfold inbox. log. Qed.
Lemma reader_authenticate c answer deadline : reader (authenticate c answer deadline).
Proof. unfold authenticate. read. Qed.

(** ** Refusals *)

(** Every refusal is an HTTP error. *)
Definition refuses {A} (m : R A) : Prop := forall s e s', m s = (Err (Http e), s') -> 400 <= e <= 503.
Lemma refuses_bind {A B} (m : R A) (f : A -> R B) : refuses m -> (forall a, refuses (f a)) -> refuses (x ← m; f x).
Proof.
  intros Hm Hf s e s'. unfold mbind, R_bind. destruct (m s) as [[a|e1] s1] eqn:E; [apply Hf|].
  intros [= -> ->]. by eapply Hm.
Qed.
Lemma refuses_fail {A} e : 400 <= e <= 503 -> refuses (A:=A) (fail (Http e)).
Proof. intros H s e' s' [= <- <-]. done. Qed.
Lemma refuses_storage {A} : refuses (A:=A) (fail Storage).
Proof. by intros s e' s' [=]. Qed.
Lemma refuses_ret {A} (a : A) : refuses (mret a).
Proof. by intros s e' s' [=]. Qed.
Lemma refuses_deny b e : refuses (fail (A:=unit) e) -> refuses (deny_if b e).
Proof. unfold deny_if. destruct b; [done|]. intros _. apply refuses_ret. Qed.
Lemma refuses_some {A} e (o : option A) : refuses (fail (A:=A) e) -> refuses (some_or e o).
Proof. unfold some_or. destruct o; [|done]. intros _. apply refuses_ret. Qed.
Lemma refuses_reads {A} (f : Relay -> A) : refuses (reads f).
Proof. by intros s e' s' [=]. Qed.
Lemma refuses_now : refuses now_ms.
Proof. by intros s e' s' [=]. Qed.
Lemma refuses_instant : refuses instant_now.
Proof. by intros s e' s' [=]. Qed.
Lemma refuses_files : refuses check_files.
Proof. intros s e s'. unfold check_files. by destruct (files_ok _). Qed.
Lemma refuses_query {A} (f : Database -> A) : refuses (query f).
Proof. intros s e s'. unfold query. by destruct (db_ok _). Qed.
Lemma refuses_execute f : refuses (execute f).
Proof. intros s e s'. unfold execute. destruct (db_ok _); [|done]. by destruct (f _). Qed.
Lemma refuses_transaction : refuses transaction.
Proof. intros s e s'. unfold transaction. by destruct (db_ok _). Qed.
Lemma refuses_commit : refuses commit.
Proof. intros s e s'. unfold commit. by destruct (db_ok _). Qed.
Lemma refuses_each {A} (f : A -> R unit) l : (forall a, refuses (f a)) -> refuses (each f l).
Proof. intros Hf. induction l; [apply refuses_ret|]. by apply refuses_bind. Qed.
#[local] Hint Resolve refuses_storage refuses_ret refuses_reads refuses_now refuses_instant refuses_files
  refuses_query refuses_execute refuses_transaction refuses_commit : refuse.
Ltac refuse := repeat first
  [ progress eauto with refuse
  | apply refuses_bind; [|intros ?]
  | apply refuses_each; intros ?
  | apply refuses_fail; lia
  | apply refuses_deny
  | apply refuses_some
  | match goal with |- refuses (match ?x with _ => _ end) => destruct x end ].

Lemma refuses_recheck who deadline : refuses (recheck who deadline).
Proof. unfold recheck. refuse. Qed.
Lemma refuses_gate c p status : 400 <= status <= 503 -> refuses (gate c p status).
Proof. intros. unfold RelayStore.gate, digest_of. refuse. Qed.
#[local] Hint Resolve refuses_recheck : refuse.
#[local] Hint Extern 1 (refuses (RelayStore.gate _ _ _ _)) => apply refuses_gate; lia : refuse.
Lemma refuses_event issuer p id kind digest result : refuses (event issuer p id kind digest result).
Proof. unfold event. refuse. Qed.
#[local] Hint Resolve refuses_event : refuse.
Lemma refuses_operate c who deadline id kind put approver bytes :
  refuses (operate directory_to_vec c who deadline id kind put approver bytes).
Proof.
  unfold operate, put_challenge, store_challenge, put_grant, store_grant, get_receipt, get_file. refuse.
Qed.
Lemma refuses_gate_rows c participants rows : refuses (gate_rows directory_to_vec c participants rows).
Proof. revert participants. induction rows; intros; cbn [gate_rows]; refuse. Qed.
Lemma refuses_revocation_items c items rows : refuses (revocation_items c items rows).
Proof. revert items. induction rows; intros; cbn [revocation_items]; refuse. Qed.
Lemma refuses_fit fuel c items : refuses (fit directory_to_vec fuel c items).
Proof.
  revert items. induction fuel; intros; cbn [fit]; unfold digest_of; refuse; destruct (trim_last items); refuse.
Qed.
#[local] Hint Resolve refuses_gate_rows refuses_revocation_items refuses_fit : refuse.
Lemma refuses_dispatch c who deadline route q put target bytes :
  refuses (dispatch directory_to_vec c who deadline route q put target bytes).
Proof.
  unfold dispatch, admin_identity, revocations_op, inbox, digest_of. pose proof refuses_operate. refuse.
Qed.
Lemma refuses_authenticate c answer deadline : refuses (authenticate c answer deadline).
Proof. unfold authenticate. refuse. Qed.

(** ** Deletions *)

Definition cleaned (before : Z) (d : Database) : Database := (delete_events before (delete_requests before d).1).1.
Lemma cleanup_wp c s :
  wp (cleanup c)
    (fun _ s' => kept s s' /\ exists n, (tick s <= n < tick s')%nat /\
       let d := cleaned (i64_saturating_sub (wall n) RETENTION) (db s) in
       db s' = d \/ exists e, llen (events d) < MAX_EVENTS /\ db s' = recorded e d)
    (frame s) s.
Proof.
  unfold cleanup. apply wp_read; [apply reader_files|auto with relay|]. intros _ s1 H1.
  apply same_frame in H1. apply rwp_bind, wp_transaction; [frame_by H1|].
  apply rwp_bind, wp_now, rwp_bind, wp_execute_count; [frame_by H1|].
  apply rwp_bind, wp_execute_count; [frame_by H1|]. cbn [ticked set_tick set_tx tick tx].
  set (n := S (tick s1)). set (before := i64_saturating_sub (wall n) RETENTION). set (s2 := ticked _).
  assert (F2 : frame s s2) by frame_by H1.
  assert (Etx : tx s2 = cleaned before (db s)) by (cbn; by rewrite (frame_db _ _ H1)).
  assert (Ht : (tick s <= n)%nat /\ (S n < tick s2)%nat) by (pose proof (frame_tick _ _ H1); cbn; lia).
  apply rwp_bind.
  eapply (rwp_mono _ (fun _ s' => frame s2 s' /\ (tx s' = tx s2 \/
    exists e, llen (events (tx s2)) < MAX_EVENTS /\ tx s' = recorded e (tx s2))) _ (frame s2)).
  - destruct (_ || _).
    + eapply rwp_mono; [apply event_wp| |done]. cbn. intros _ s3 (F & Hn & at_ & E). split; [done|]. right. eauto.
    + apply rwp_ret. split; [auto with relay|by left].
  - intros _ s3 [F3 Hdb]. assert (F : frame s s3) by by eapply frame_trans. apply wp_commit; [frame_by F|].
    pose proof (frame_tick _ _ F3). split; [split; cbn; [apply F|apply F|lia]|]. exists n.
    split; [cbn; lia|]. cbn. by rewrite Etx in Hdb.
  - intros s3 F3. by eapply frame_trans.
Qed.

(** ** The directory *)

Definition tombstone_subject (p : string) (r : SubjectRow) : SubjectRow :=
  if str_eqb (sr_subject r) p then mkSubjectRow (sr_subject r) (sr_source r) (sr_digest r) true else r.
(** What a removal writes, all of it or nothing. *)
Definition removed (c : Config) (l : Link) (receipt : list Z) (audit : DirectoryAudit) (d : Database) : Database :=
  mkDatabase (requests d) (events d) (map (tombstone_subject (subject l)) (subjects d))
    (revocations d ++ [mkRevocation (subject l) receipt (requests_of (subject l) d)])
    (node_rows d ++ map (fun n => mkNodeRow (subject l) (node_id n) (vault_id n)) (nodes (directory c)))
    (audits d ++ [audit]).
Lemma insert_nodes_wp l ns s :
  wp (each (fun n => execute (insert_node (mkNodeRow (subject l) (node_id n) (vault_id n)))) ns)
    (fun _ s' => frame s s' /\
       tx s' = set_node_rows (node_rows (tx s) ++ map (fun n => mkNodeRow (subject l) (node_id n) (vault_id n)) ns) (tx s))
    (frame s) s.
Proof.
  revert s. induction ns as [|n ns IH]; intros s; cbn [each map].
  - apply rwp_ret. split; [auto with relay|]. rewrite app_nil_r. by destruct (tx s).
  - apply rwp_bind, wp_execute; [auto with relay|]. intros t Ht. unfold insert_node in Ht. destruct (existsb _ _); [done|].
    simplify_eq. eapply rwp_mono; [apply IH| |].
    + cbn. intros _ s' [F E]. split; [eapply frame_trans; [|exact F]; split; cbn; (done || lia)|].
      by rewrite E, <- app_assoc.
    + intros s' F. eapply frame_trans; [|exact F]. split; cbn; (done || lia).
Qed.
Lemma offboard_wp c l digest body_sha received s :
  wp (offboard c l digest body_sha received)
    (fun _ s' => frame s s' /\ exists receipt applied,
       subject l ∉ map rv_subject (revocations (tx s)) /\ subject l ∈ map sr_subject (subjects (tx s)) /\
       tx s' = removed c l receipt (mkDirectoryAudit (subject l) digest body_sha applied) (tx s))
    (frame s) s.
Proof.
  unfold offboard. apply rwp_bind, wp_query; [auto with relay|]. apply rwp_bind, wp_deny; intros _; [auto with relay|].
  apply rwp_bind, wp_now. set (applied := wall _).
  apply rwp_bind, wp_execute; [split; cbn; (done || lia)|]. intros t Ht. unfold set_tombstone in Ht. simplify_eq.
  apply rwp_bind, wp_execute; [split; cbn; (done || lia)|]. intros t Ht. unfold insert_revocation in Ht.
  cbn [revocations set_subjects subjects tx ticked set_tick set_tx rv_subject] in Ht.
  case_bool_decide as Hrv; [done|]. case_bool_decide as Hsr; [|done]. cbn [negb orb] in Ht. simplify_eq.
  apply rwp_bind. eapply rwp_mono; [apply insert_nodes_wp| |].
  2: { intros s' F. eapply frame_trans; [|exact F]. split; cbn; (done || lia). }
  cbn. intros _ s1 [F E]. assert (F1 : frame s s1) by (eapply frame_trans; [|exact F]; split; cbn; (done || lia)).
  apply wp_execute; [frame_by F1|]. intros t Ht. unfold insert_audit in Ht. destruct (bool_decide _); [done|]. simplify_eq.
  split; [frame_by F1|]. cbn. rewrite E. eexists _, applied. split; [done|]. split; [|done].
  rewrite map_map in Hsr. erewrite map_ext; [exact Hsr|]. cbn. intros r. by destruct (str_eqb _ _).
Qed.

(** What one observation of a directory member does. *)
Record applied (c : Config) (l : Link) (result : Observation) (s s' : Relay) : Prop := {
  applied_fault : fault s' = fault s;
  applied_tick : (tick s <= tick s')%nat;
  applied_linked : exists r, r ∈ links (directory c) /\ subject r = subject l;
  applied_row : exists saved, subject_row (subject l) (db s) = Some saved /\
    match ob_state result with
    | Removed _ =>
        fresh s' = delete (subject l) (fresh s) /\
        if sr_tombstone saved then db s' = db s
        else exists receipt audit, da_subject audit = subject l /\ subject l ∉ map rv_subject (revocations (db s)) /\
               db s' = removed c l receipt audit (db s)
    | Active =>
        db s' = db s /\
        fresh s' = (if sr_tombstone saved then delete (subject l) (fresh s) else fresh s') /\
        (fresh s' = delete (subject l) (fresh s) \/
         fresh s' = <[subject l := mkFreshness (ob_completed result) (ob_token_expires_ms result) (ob_received_ms result)]> (fresh s))
    | Unknown => db s' = db s /\ fresh s' = delete (subject l) (fresh s)
    end;
}.
Lemma applied_later c l result s s1 s' : applied c l result s s1 -> same s1 s' -> applied c l result s s'.
Proof.
  intros [H1 H2 H3 (saved & Hs & H4)] [G1 G2 G3 G4 G5]. split; [congruence|lia|done|].
  exists saved. split; [done|]. by rewrite G1, G3.
Qed.
(** The change of the tables that an observation calls for. *)
Definition directory_change (c : Config) (l : Link) (result : Observation) (saved : SubjectRow) (d d' : Database) : Prop :=
  match ob_state result with
  | Removed _ =>
      if sr_tombstone saved then d' = d
      else exists receipt audit, da_subject audit = subject l /\ subject l ∉ map rv_subject (revocations d) /\ d' = removed c l receipt audit d
  | _ => d' = d
  end.
Lemma directory_change_wp c l digest result saved s :
  wp (match ob_state result with
      | Removed body_sha =>
          if sr_tombstone saved then mret tt else offboard c l digest body_sha (ob_received_ms result)
      | _ => mret tt
      end)
    (fun _ s' => frame s s' /\ directory_change c l result saved (tx s) (tx s')) (frame s) s.
Proof.
  unfold directory_change. destruct (ob_state result) as [| |body_sha]; [apply rwp_ret; auto with relay..|].
  destruct (sr_tombstone saved); [apply rwp_ret; auto with relay|].
  eapply rwp_mono; [apply offboard_wp| |done]. cbn. intros _ s' (F & receipt & at_ & Hn & _ & E). split; [done|]. exists receipt. eexists. split_and!; [|done|exact E]. done.
Qed.
Lemma applied_publish c l result saved valid s s5 :
  frame s s5 -> (exists r, r ∈ links (directory c) /\ subject r = subject l) ->
  subject_row (subject l) (db s) = Some saved ->
  (ob_state result <> Active -> valid = false) -> (sr_tombstone saved = true -> valid = false) ->
  directory_change c l result saved (db s) (tx s5) ->
  applied c l result s (set_fresh (if valid : bool
      then <[subject l := mkFreshness (ob_completed result) (ob_token_expires_ms result) (ob_received_ms result)]> (fresh s5)
      else delete (subject l) (fresh s5)) (ticked (set_db (tx s5) s5))).
Proof.
  intros [E1 E2 E3 E4] Hr Hsaved Hv1 Hv2 Htx. split; [exact E3|cbn; lia|done|]. exists saved. split; [done|].
  unfold directory_change in Htx. destruct (ob_state result); cbn; rewrite E2.
  - split; [done|]. destruct (sr_tombstone saved); [rewrite Hv2 by done; auto|]. destruct valid; auto.
  - by rewrite Hv1.
  - rewrite Hv1 by done. split; [done|]. by destruct (sr_tombstone saved).
Qed.
Lemma apply_directory_wp c l result s :
  wp (apply_directory directory_to_vec c l result)
    (fun _ s' => applied c l result s s') (fun s' => frame s s' \/ applied c l result s s') s.
Proof.
  unfold apply_directory. apply wp_read; [apply reader_files|by auto with relay|]. intros _ s1 H1.
  apply wp_read; [apply reader_digest|intros; left; apply same_frame; by eapply same_state_trans|]. intros digest s2 H2.
  assert (F2 : frame s s2) by (apply same_frame; by eapply same_state_trans).
  apply rwp_bind, wp_transaction; [left; frame_by F2|].
  apply rwp_bind, wp_query; [left; frame_by F2|]. apply rwp_bind, wp_some; [left; frame_by F2|].
  cbn [tx ticked set_tick set_tx]. rewrite (frame_db _ _ F2). intros saved Hsaved.
  set (s3 := ticked _). assert (F3 : frame s s3) by frame_by F2.
  assert (Etx : tx s3 = db s) by done.
  apply rwp_bind, wp_deny; intros Hd; [by left|]. apply orb_false_iff in Hd as [_ Hlink].
  apply negb_false_iff, existsb_exists in Hlink as (r & Hr & Hrs). apply andb_true_iff in Hrs as [Hrs _].
  apply bool_decide_eq_true in Hrs. apply list_elem_of_In in Hr. clearbody s3.
  apply rwp_bind.
  eapply (rwp_mono _ (fun v s' => same s3 s' /\ (ob_state result <> Active -> v = false) /\ (sr_tombstone saved = true -> v = false)) _ (same s3)).
  - destruct (ob_state result); [|apply rwp_ret; split_and!; auto with relay..].
    apply rwp_bind, wp_now, rwp_ret. split_and!; [auto with relay|done|]. intros ->. apply andb_false_r.
  - intros valid s4 (H4 & Hv1 & Hv2). apply rwp_bind. eapply rwp_mono; [apply directory_change_wp| |].
    2: { intros s5 F5. left. eapply frame_trans; [exact F3|]. eapply frame_trans; [by apply same_frame|done]. }
    intros _ s5 [F5 Htx]. rewrite (same_tx _ _ H4), Etx in Htx.
    assert (F : frame s s5) by (eapply frame_trans; [exact F3|]; eapply frame_trans; [by apply same_frame|done]).
    apply rwp_bind, wp_commit; [left; frame_by F|]. apply rwp_bind, rwp_modify.
    eapply rwp_mono; [apply reader_files| |]; cbn; intros; [|right];
      (eapply applied_later; [by eapply (applied_publish c l result saved valid s s5); eauto|done]).
  - intros s' H. left. by eapply frame_same.
Qed.
End WithLibraries.
End WithWorld.

(** * What the relay promises

    The service as a step relation, the invariant of its tables, who is served, and
    what a removal and a fault mean for good. *)

Section WithWorld.
Context {W : World}.
Section WithLibraries.
Context {CC : Codecs} {SG : Signatures} {SJ : Serde} {RL : RelayLibs} {DC : Documents}.
Context (directory_to_vec : Directory -> option (list Z)).

(** ** Requests *)

(** One change that a request makes. *)
Inductive change (c : Config) : Database -> Database -> Prop :=
  | change_event d e : llen (events d) < MAX_EVENTS -> change c d (recorded e d)
  | change_file who id kind put bytes a b d out d' :
      outcome c who id kind put bytes a b d out d' -> change c d d'.
Record quiet (c : Config) (s s' : Relay) : Prop := {
  quiet_fresh : fresh s' = fresh s;
  quiet_fault : fault s = true -> fault s' = true;
  quiet_tick : (tick s <= tick s')%nat;
  quiet_db : rtc (change c) (db s) (db s');
}.
Lemma quiet_same c s s' : same s s' -> quiet c s s'.
Proof. intros [E1 E2 E3 E4 E5]. split; [done|congruence|done|by rewrite E1]. Qed.
Lemma quiet_trans c s1 s2 s3 : quiet c s1 s2 -> quiet c s2 s3 -> quiet c s1 s3.
Proof. intros [] []. split; [congruence|auto|lia|by etrans]. Qed.
Lemma quiet_frame c s s' : frame s s' -> quiet c s s'.
Proof. intros [E1 E2 E3 E4]. split; [done|congruence|done|by rewrite E1]. Qed.
Lemma quiet_kept c s s' : kept s s' -> rtc (change c) (db s) (db s') -> quiet c s s'.
Proof. intros [E1 E2 E3] H. split; [done|congruence|done|done]. Qed.
Lemma quiet_logged c g p s s' : perhaps_logged g p s s' -> quiet c s s'.
Proof.
  intros [F|(K & _ & e & _ & Hn & E)]; [by apply quiet_frame|]. apply quiet_kept; [done|]. rewrite E.
  by apply rtc_once, change_event.
Qed.
Lemma quiet_served c who id kind put bytes s out s' :
  kept s s' -> served c who id kind put bytes s out s' -> quiet c s s'.
Proof. intros K [H _ _]. apply quiet_kept; [done|]. by eapply rtc_once, change_file. Qed.
Lemma quiet_operated c who id kind put bytes s s' : operated c who id kind put bytes s s' -> quiet c s s'.
Proof. intros [K [E|[out H]]]; [apply quiet_kept; [done|]; by rewrite E|by eapply quiet_served]. Qed.
Lemma quiet_set_fault c s s' : quiet c s s' -> quiet c s (set_fault true s').
Proof. by intros []. Qed.

Lemma denied_wp c status who id kind s :
  400 <= status ->
  wp (denied c status who id kind) (fun r s' => quiet c s s' /\ 400 <= hp_status r) (fun _ => False) s.
Proof.
  intros Hs. unfold denied. apply rwp_bind, wp_reads, rwp_bind. destruct (fault s).
  { apply rwp_ret, rwp_ret. split; [apply quiet_same, same_state_refl|]. cbn. lia. }
  apply rwp_bind. unfold wp at 1, catch.
  pose proof (audit_logs c (who_subject <$> who) id kind status s s (frame_refl s)) as H. unfold wp in H.
  destruct (audit _ _ _ _ _ s) as [[a|e] s1].
  - apply rwp_ret, rwp_ret. split; [|done]. eapply quiet_logged. by right.
  - apply quiet_logged with (c := c) in H. destruct e; [apply rwp_ret, rwp_ret; split; [done|cbn; lia]|].
    apply rwp_bind, rwp_modify, rwp_ret, rwp_ret. split; [by apply quiet_set_fault|cbn; lia].
Qed.

(** What a successful answer stands for. *)
Definition settled (c : Config) (who : Identity) (route : Route) (put : bool) (bytes : list Z) (s : Relay)
    (out : Output) (s' : Relay) : Prop :=
  match route with
  | FileRoute id kind => served c who id kind put bytes s out s'
  | _ => logged (fun d => ~ tombstoned (who_subject who) d) (who_subject who) s s'
  end.
Lemma dispatch_wp c who deadline route q put target bytes s :
  (is_Some q <-> route = Inbox) ->
  (put = true -> route_kind route = "challenge" \/ route_kind route = "grant") ->
  wp (dispatch directory_to_vec c who deadline route q put target bytes)
    (fun out s' => quiet c s s' /\ settled c who route put bytes s out s') (quiet c s) s.
Proof.
  intros Hq Hput.
  assert (Hlog : forall m : R Output, logs (fun d => ~ tombstoned (who_subject who) d) (who_subject who) m ->
    wp m (fun _ s' => quiet c s s' /\ logged (fun d => ~ tombstoned (who_subject who) d) (who_subject who) s s') (quiet c s) s).
  { intros m Hm. eapply rwp_mono; [apply (Hm s s (frame_refl s))| |]; cbn; intros.
    - split; [eapply quiet_logged; by right|done].
    - by eapply quiet_logged. }
  destruct route as [| | |id kind]; cbn [dispatch settled].
  - destruct q as [q|]; [apply Hlog, inbox_logs|]. destruct Hq as [_ Hq]. by destruct (Hq eq_refl).
  - destruct q; apply Hlog, revocations_op_logs.
  - destruct q; apply Hlog, admin_identity_logs.
  - destruct q as [q|]; [destruct Hq as [Hq _]; by discriminate Hq|].
    eapply rwp_mono; [by apply operate_wp| |].
    + cbn. intros out s' [K H]. split; [by eapply quiet_served|done].
    + intros s'. apply quiet_operated.
Qed.

Lemma served_same c who id kind put bytes s s1 out s2 s' :
  same s s1 -> served c who id kind put bytes s1 out s2 -> same s2 s' -> served c who id kind put bytes s out s'.
Proof.
  intros H [Ho Hc Hp] H'. pose proof (same_tick _ _ H). eapply served_later; [|exact H'].
  rewrite (same_fresh _ _ H) in *. rewrite (same_db _ _ H) in Ho. split.
  - by eapply outcome_later.
  - by eapply current_mono.
  - intros r Hr. destruct (Hp r Hr). split; by eapply current_mono.
Qed.
Lemma logged_same g p s s1 s2 s' : same s s1 -> logged g p s1 s2 -> same s2 s' -> logged g p s s'.
Proof.
  intros H ([K1 K2 K3] & G & e & He & Hn & E) H'. destruct H as [E1 E2 E3 E4 E5], H' as [G1 G2 G3 G4 G5].
  split; [split; congruence || lia|]. split; [by rewrite <- E1|]. exists e. rewrite <- E1. split; [done|]. split; [done|]. congruence.
Qed.
Lemma settled_same c who route put bytes s s1 out s2 s' :
  same s s1 -> settled c who route put bytes s1 out s2 -> same s2 s' -> settled c who route put bytes s out s'.
Proof. destruct route; cbn; eauto using logged_same, served_same. Qed.

(** The statuses a computation refuses with. *)
Lemma catch_wp {A} (m : R A) (Q : A -> Relay -> Prop) (E : Relay -> Prop) s :
  refuses m -> wp m Q E s ->
  wp (catch m) (fun r s' => match r with Ok a => Q a s' | Err e => E s' /\ 400 <= status_of e end) (fun _ => False) s.
Proof.
  intros Hm H. unfold wp, catch in *. specialize (Hm s). destruct (m s) as [[a|e] s']; [done|].
  split; [done|]. destruct e as [code|]; [|cbn; lia]. cbn. destruct (Hm code s' eq_refl). lia.
Qed.
Lemma locked_wp m (Q : Output -> Relay -> Prop) (E : Relay -> Prop) s :
  wp m Q E s -> E s -> (forall s', E s' -> E (set_fault true s')) -> wp (locked m) Q E s.
Proof.
  intros H H1 H2. unfold wp, locked in *. destruct (fault s); [done|]. destruct (m s) as [[a|[code|]] s']; auto.
Qed.
Lemma refuses_locked m : refuses m -> refuses (locked m).
Proof.
  intros Hm s e s'. unfold locked. destruct (fault s); [done|]. specialize (Hm s).
  destruct (m s) as [[a|[code|]] s1]; intros [=]; subst. by eapply Hm.
Qed.

(** A successful answer: the caller's token was good, and the method did what
    [settled] says. *)
Definition answered (c : Config) (introspect : string -> option Introspection) (request : HttpRequest)
    (deadline : Instant) (s : Relay) (response : HttpResponse) (s' : Relay) : Prop :=
  exists token route who bytes out s1,
    bearer_of (hr_authorization request) = Some token /\ route_of (hr_path request) = Some route /\
    authenticate c (introspect token) deadline s = (Ok who, s1) /\ hr_body request = Some bytes /\
    settled c who route (bool_decide (hr_method request = PUT)) bytes s out s' /\
    hp_status response = out_status out /\ hp_bytes response = out_bytes out /\ hp_sha256 response = out_digest out.
Definition handled c introspect request deadline s response s' : Prop :=
  quiet c s s' /\ (hp_status response < 400 -> answered c introspect request deadline s response s').
Lemma denied_handled c introspect request deadline s status who id kind s1 :
  quiet c s s1 -> 400 <= status ->
  wp (denied c status who id kind) (handled c introspect request deadline s) (fun _ => False) s1.
Proof.
  intros H Hs. eapply rwp_mono; [by apply denied_wp| |done]. cbn. intros r s' [H' Hr].
  split; [by eapply quiet_trans|lia].
Qed.
Lemma auth_status_error route code : 400 <= code -> 400 <= auth_status route code.
Proof. unfold auth_status. destruct (code =? 404); [destruct route; lia|done]. Qed.
Lemma target_of_error route put values e : target_of route put values = Err e -> 400 <= status_of e.
Proof. unfold target_of. destruct (_ || _); [|done]. intros [= <-]. cbn. lia. Qed.
Lemma route_of_file path id kind :
  route_of path = Some (FileRoute id kind) -> canonical_uuid id = true /\ kind ∈ ["challenge"; "grant"; "receipt"].
Proof.
  unfold route_of. repeat (destruct (str_eqb _ _); [done|]). destruct (strip_prefix_str _ _) as [rest|]; [|done]. cbn.
  destruct (split_once "/" rest) as [[i k]|]; [|done]. cbn.
  destruct (canonical_uuid i) eqn:Hc; cbn; [|done]. case_bool_decide; [|done]. by intros [= <- <-].
Qed.
Lemma may_put route (method : Method) kind path :
  route_of path = Some route -> kind = route_kind route ->
  negb (bool_decide (method = GET)) && (negb (bool_decide (method = PUT)) || str_eqb kind "receipt" || negb (is_file route)) = false ->
  bool_decide (method = PUT) = true -> kind = "challenge" \/ kind = "grant".
Proof.
  intros Hr -> Hb Hm. rewrite Hm in Hb. apply bool_decide_eq_true in Hm as ->. cbn in Hb.
  apply orb_false_iff in Hb as [Hk Hf]. apply negb_false_iff in Hf. destruct route as [| | |id kind]; try done.
  apply route_of_file in Hr as [_ Hr]. cbn in *. apply bool_decide_eq_false in Hk. set_solver.
Qed.

(** After the token: the operation, and the answer. *)
Lemma respond_wp c introspect request deadline s s1 token route who q target bytes id kind :
  same s s1 -> bearer_of (hr_authorization request) = Some token -> route_of (hr_path request) = Some route ->
  authenticate c (introspect token) deadline s = (Ok who, s1) -> hr_body request = Some bytes ->
  (is_Some q <-> route = Inbox) ->
  (bool_decide (hr_method request = PUT) = true -> route_kind route = "challenge" \/ route_kind route = "grant") ->
  wp (r ← catch (locked (dispatch directory_to_vec c who deadline route q (bool_decide (hr_method request = PUT)) target bytes));
      match r with
      | Err (Http code) => denied c code (Some who) id kind
      | Err Storage => _ ← raise_fault; denied c 503 (Some who) id kind
      | Ok output =>
          again ← catch (recheck who deadline);
          match again with
          | Err e => denied c (status_of e) (Some who) id kind
          | Ok _ => mret (mkHttpResponse (out_status output) (out_bytes output)
              (out_digest output) (dec_signed <$> out_expires output))
          end
      end)
    (handled c introspect request deadline s) (fun _ => False) s1.
Proof.
  intros H1 Hb Hr Ha Hbytes Hq Hput.
  assert (Hlock : wp (locked (dispatch directory_to_vec c who deadline route q (bool_decide (hr_method request = PUT)) target bytes))
    (fun out s' => quiet c s1 s' /\ settled c who route (bool_decide (hr_method request = PUT)) bytes s1 out s') (quiet c s1) s1).
  { apply locked_wp; [by apply dispatch_wp|apply quiet_same, same_state_refl|]. intros s'. apply quiet_set_fault. }
  apply rwp_bind. eapply rwp_mono; [apply catch_wp; [apply refuses_locked, refuses_dispatch|exact Hlock]| |done].
  intros [out|e] s2; cbn beta iota.
  - intros [Q2 Hs2]. assert (Q : quiet c s s2) by (eapply quiet_trans; [by apply quiet_same|done]).
    apply rwp_bind. eapply rwp_mono; [apply catch_wp; [apply refuses_recheck|apply reader_recheck]| |done].
    intros [u|e] s3; cbn beta iota.
    + intros H3. apply rwp_ret. split; [eapply quiet_trans; [exact Q|by apply quiet_same]|]. intros _.
      exists token, route, who, bytes, out, s1. repeat (split; [done|]). split; [|done]. by eapply settled_same.
    + intros [H3 He]. apply denied_handled; [|done]. eapply quiet_trans; [exact Q|by apply quiet_same].
  - intros [Q2 He]. assert (Q : quiet c s s2) by (eapply quiet_trans; [by apply quiet_same|done]).
    destruct e as [code|]; [by apply denied_handled|].
    apply rwp_bind, rwp_modify, denied_handled; [by apply quiet_set_fault|lia].
Qed.
Lemma query_of_route route text (q : option InboxQuery) :
  (if bool_decide (route = Inbox) then Some <$> inbox_parse text else Some None) = Some q ->
  is_Some q <-> route = Inbox.
Proof.
  intros Hq. destruct (decide (route = Inbox)) as [Hi|Hi].
  - rewrite bool_decide_eq_true_2 in Hq by done. destruct (inbox_parse _); [|done]. injection Hq as <-.
    split; [done|by eexists].
  - rewrite bool_decide_eq_false_2 in Hq by done. injection Hq as <-. split; [by intros [? ?]|done].
Qed.
Lemma handle_wp c introspect request deadline s :
  wp (handle directory_to_vec c introspect request deadline)
    (handled c introspect request deadline s) (fun _ => False) s.
Proof.
  pose proof (quiet_same c s s (same_state_refl s)) as Q0.
  unfold handle. apply rwp_bind, wp_reads. destruct (fault s); [apply rwp_ret; split; [done|cbn; lia]|].
  destruct (route_of (hr_path request)) as [route|] eqn:Hr; [|by apply denied_handled].
  destruct (_ || hr_upgrade request) eqn:Hhead; [by apply denied_handled|].
  destruct (_ && (_ || _)) eqn:Hmethod; [by apply denied_handled|].
  destruct (bearer_of (hr_authorization request)) as [token|] eqn:Hb; [|by apply denied_handled].
  apply rwp_bind. unfold wp at 1, catch at 1.
  pose proof (reader_authenticate c (introspect token) deadline s) as Hread.
  pose proof (refuses_authenticate c (introspect token) deadline s) as Href.
  unfold wp in Hread. destruct (authenticate c (introspect token) deadline s) as [[who|e] s1] eqn:Ha.
  2: { apply denied_handled; [by apply quiet_same|]. apply auth_status_error.
       destruct e as [code|]; [|cbn; lia]. cbn. destruct (Href code s1 eq_refl). lia. }
  assert (Q1 : quiet c s s1) by by apply quiet_same.
  destruct (if bool_decide (route = Inbox) then _ else _) as [q|] eqn:Hq; [|by apply denied_handled].
  destruct (target_of route _ _) as [target|e] eqn:Ht; [|by eapply denied_handled, target_of_error].
  destruct (hr_body request) as [bytes|] eqn:Hbytes; [|by apply denied_handled].
  destruct (body_limit _ _ <? llen bytes); [by apply denied_handled|].
  eapply respond_wp; try done.
  - by eapply query_of_route.
  - by eapply may_put.
Qed.
End WithLibraries.
End WithWorld.
