(* ===== verification/RelayInvariant.v ===== *)
(** * RelayInvariant: the relay as a step relation

    The tables under every interleaving of requests, observations of the directory,
    deletions and faults: the invariant of the store, who is served, what a removal
    and a fault mean for good, and that a stored file is the file uploaded. *)

From stdpp Require Import relations.
From S2P Require Import Prelude Strings Errors Domain Codec Policy SessionState Approval Decimal Json Signed Relay RelayStore RelayService RelayDemo.
From S2P Require Import RelayTransactions RelayTheorems.

Section WithWorld.
Context {W : World}.
Section WithLibraries.
Context {CC : Codecs} {SG : Signatures} {SJ : Serde} {RL : RelayLibs} {DC : Documents}.
Context (directory_to_vec : Directory -> option (list Z)).
Notation sha := (@sha CC).

(** ** Steps *)

(** What runs between two turns of the store's lock: time passes, a task fails, an
    operation runs, a refusal is recorded, the directory is polled; or old rows go. *)
Inductive busy (c : Config) : Relay -> Relay -> Prop :=
  | busy_time s s' : same s s' -> busy c s s'
  | busy_fault s : busy c s (set_fault true s)
  | busy_operation who deadline route q put target bytes s r s' :
      (is_Some q <-> route = Inbox) ->
      (put = true -> route_kind route = "challenge" \/ route_kind route = "grant") ->
      locked (dispatch directory_to_vec c who deadline route q put target bytes) s = (r, s') -> busy c s s'
  | busy_denied status who id kind s r s' :
      400 <= status -> denied c status who id kind s = (r, s') -> busy c s s'
  | busy_member l result s r s' :
      apply_directory_member directory_to_vec c l result s = (r, s') -> busy c s s'.
Inductive step (c : Config) : Relay -> Relay -> Prop :=
  | step_busy s s' : busy c s s' -> step c s s'
  | step_cleanup s r s' : service_cleanup c s = (r, s') -> step c s s'.

(** One change of the tables. *)
Inductive evolve (c : Config) : Database -> Database -> Prop :=
  | evolve_change d d' : change c d d' -> evolve c d d'
  | evolve_cleaned n d : evolve c d (cleaned (i64_saturating_sub (wall n) RETENTION) d)
  | evolve_removed l receipt audit d row :
      subject_row (subject l) d = Some row -> sr_tombstone row = false -> da_subject audit = subject l ->
      subject l ∉ map rv_subject (revocations d) -> evolve c d (removed c l receipt audit d).

Lemma change_evolves c d d' : rtc (change c) d d' -> rtc (evolve c) d d'.
Proof. apply rtc_subrel. intros a b. apply evolve_change. Qed.
Lemma cleanup_evolves c s r s' : cleanup c s = (r, s') -> rtc (evolve c) (db s) (db s') /\ fresh s' = fresh s /\ fault s' = fault s.
Proof.
  intros H. pose proof (cleanup_wp c s) as Hwp. unfold wp in Hwp. rewrite H in Hwp. destruct r as [u|e].
  - destruct Hwp as ([K1 K2 K3] & n & _ & Hdb). split; [|done]. cbn in Hdb.
    assert (E : rtc (evolve c) (db s) (cleaned (i64_saturating_sub (wall n) RETENTION) (db s)))
      by apply rtc_once, evolve_cleaned.
    destruct Hdb as [->|(e & Hn & ->)]; [done|]. eapply rtc_r; [exact E|]. by apply evolve_change, change_event.
  - destruct Hwp as [E1 E2 E3 E4]. by rewrite E1.
Qed.
Lemma wp_elim {A} (m : R A) Q E s r s' : wp m Q E s -> m s = (r, s') -> match r with Ok a => Q a s' | Err _ => E s' end.
Proof. unfold wp. intros H Hm. rewrite Hm in H. by destruct r. Qed.
Lemma latched_inv m s r s' :
  latched m s = (r, s') -> exists r1 s1, m s = (r1, s1) /\ db s' = db s1 /\ fresh s' = fresh s1 /\ (fault s1 = true -> fault s' = true).
Proof.
  unfold latched. destruct (m s) as [[u|e] s1]; intros [= <- <-]; eexists _, _; by split_and!.
Qed.
Lemma applied_evolves c l result s s' : applied c l result s s' -> rtc (evolve c) (db s) (db s').
Proof.
  intros [_ _ _ (saved & Hs & H)]. destruct (ob_state result).
  - destruct H as (-> & _). done.
  - destruct H as (-> & _). done.
  - destruct H as [_ H]. destruct (sr_tombstone saved) eqn:E; [by rewrite H|].
    destruct H as (receipt & audit & Ha & Hn & ->). by eapply rtc_once, evolve_removed.
Qed.
Lemma member_inv c l result s r s' :
  apply_directory_member directory_to_vec c l result s = (r, s') ->
  exists s1, (frame s s1 \/ applied c l result s s1) /\ db s' = db s1 /\ fresh s' = fresh s1 /\ (fault s1 = true -> fault s' = true).
Proof.
  intros (r1 & s1 & H & E)%latched_inv. exists s1. split; [|done].
  eapply wp_elim in H; [|apply apply_directory_wp]. destruct r1; auto.
Qed.
Lemma operation_quiet c who deadline route q put target bytes s r s' :
  (is_Some q <-> route = Inbox) ->
  (put = true -> route_kind route = "challenge" \/ route_kind route = "grant") ->
  locked (dispatch directory_to_vec c who deadline route q put target bytes) s = (r, s') ->
  quiet c s s' /\ forall out, r = Ok out -> settled c who route put bytes s out s'.
Proof.
  intros Hq Hput H. eapply wp_elim in H.
  2: { apply locked_wp; [by apply dispatch_wp|apply quiet_same, same_state_refl|]. intros s1. apply quiet_set_fault. }
  destruct r as [out|e]; [|done]. destruct H as [H1 H2]. split; [done|]. by intros ? [= ->].
Qed.
(** Between deletions, rows only come. *)
Inductive grow (c : Config) : Database -> Database -> Prop :=
  | grow_change d d' : change c d d' -> grow c d d'
  | grow_removed l receipt audit d : grow c d (removed c l receipt audit d).
Lemma applied_grows c l result s s' : applied c l result s s' -> rtc (grow c) (db s) (db s').
Proof.
  intros [_ _ _ (saved & Hs & H)]. destruct (ob_state result); [by destruct H as [-> _]..|].
  destruct H as [_ H]. destruct (sr_tombstone saved); [by rewrite H|].
  destruct H as (receipt & audit & _ & _ & ->). apply rtc_once, grow_removed.
Qed.
Lemma busy_effect c s s' :
  busy c s s' -> (fault s = true -> fault s' = true) /\ rtc (evolve c) (db s) (db s') /\ rtc (grow c) (db s) (db s').
Proof.
  assert (Hquiet : forall s s', quiet c s s' ->
    (fault s = true -> fault s' = true) /\ rtc (evolve c) (db s) (db s') /\ rtc (grow c) (db s) (db s')).
  { intros s1 s2 [_ H1 _ H2]. split; [done|]. split; [by apply change_evolves|].
    eapply rtc_subrel; [|exact H2]. apply grow_change. }
  intros [s1 s2 H|s1|who deadline route q put target bytes s1 r s2 Hq Hput H|status who id kind s1 r s2 Hs H|l result s1 r s2 H].
  - by apply Hquiet, quiet_same.
  - by split.
  - apply operation_quiet in H as [H _]; [|done..]. by apply Hquiet.
  - eapply wp_elim in H; [|by apply denied_wp]. destruct r; [|done]. destruct H as [H _]. by apply Hquiet.
  - apply member_inv in H as (s3 & [F|F] & -> & _ & H); (split; [intros Hf; apply H|split]).
    + by rewrite (frame_fault _ _ F).
    + by rewrite (frame_db _ _ F).
    + by rewrite (frame_db _ _ F).
    + by rewrite (applied_fault _ _ _ _ _ F).
    + by eapply applied_evolves.
    + by eapply applied_grows.
Qed.
Lemma step_effect c s s' : step c s s' -> (fault s = true -> fault s' = true) /\ rtc (evolve c) (db s) (db s').
Proof.
  intros [s1 s2 H|s1 r s2 H]; [by apply busy_effect in H as (H1 & H2 & _)|].
  apply latched_inv in H as (r1 & s3 & H & -> & _ & Hl). apply cleanup_evolves in H as (H1 & _ & H2).
  split; [intros Hf; apply Hl; congruence|done].
Qed.
Lemma steps_evolve c s s' : rtc (step c) s s' -> rtc (evolve c) (db s) (db s').
Proof. induction 1 as [|s1 s2 s3 H _ IH]; [done|]. etrans; [by apply step_effect|done]. Qed.
Lemma busy_steps c s s' : rtc (busy c) s s' -> rtc (step c) s s'.
Proof. apply rtc_subrel, step_busy. Qed.

(** ** Requests are steps *)

Definition walks {A} (c : Config) (m : R A) : Prop := forall s r s', m s = (r, s') -> rtc (busy c) s s'.
Lemma walks_bind {A B} c (m : R A) (f : A -> R B) : walks c m -> (forall a, walks c (f a)) -> walks c (x ← m; f x).
Proof.
  intros Hm Hf s r s'. unfold mbind, R_bind. destruct (m s) as [[a|e] s1] eqn:E.
  - intros H. etrans; [by eapply Hm|by eapply Hf].
  - intros [= <- <-]. by eapply Hm.
Qed.
Lemma walks_read {A} c (m : R A) : reader m -> walks c m.
Proof.
  intros Hm s r s' H. eapply rtc_once, busy_time. eapply wp_elim in H; [|apply Hm]. by destruct r.
Qed.
Lemma walks_catch {A} c (m : R A) : walks c m -> walks c (catch m).
Proof. intros Hm s r s'. unfold catch. destruct (m s) as [r1 s1] eqn:E. intros [= <- <-]. by eapply Hm. Qed.
Lemma walks_denied c status who id kind : 400 <= status -> walks c (denied c status who id kind).
Proof. intros Hs s r s' H. by eapply rtc_once, busy_denied. Qed.
Lemma walks_fault c : walks c raise_fault.
Proof. intros s r s' [= <- <-]. apply rtc_once, busy_fault. Qed.
Lemma walks_ret {A} c (a : A) : walks c (mret a).
Proof. by intros s r s' [= <- <-]. Qed.
Lemma walks_reads {A} c (f : Relay -> A) : walks c (reads f).
Proof. by intros s r s' [= <- <-]. Qed.
(** The codes of an authentication and of an operation are errors. *)
Lemma catch_bind_walks {A B} c (m : R A) (f : result RelayError A -> R B) :
  walks c m -> refuses m -> (forall r, (forall e, r = Err (Http e) -> 400 <= e <= 503) -> walks c (f r)) ->
  walks c (r ← catch m; f r).
Proof.
  intros Hm Hr Hf s r s'. unfold mbind, R_bind, catch. destruct (m s) as [r1 s1] eqn:E. intros H.
  etrans; [by eapply Hm|]. eapply Hf; [|exact H]. intros e ->. by eapply Hr.
Qed.
Lemma respond_walks c who deadline route q put target bytes id kind :
  (is_Some q <-> route = Inbox) ->
  (put = true -> route_kind route = "challenge" \/ route_kind route = "grant") ->
  walks c (r ← catch (locked (dispatch directory_to_vec c who deadline route q put target bytes));
      match r with
      | Err (Http code) => denied c code (Some who) id kind
      | Err Storage => _ ← raise_fault; denied c 503 (Some who) id kind
      | Ok output =>
          again ← catch (recheck who deadline);
          match again with
          | Err e => denied c (status_of e) (Some who) id kind
          | Ok _ => mret (mkHttpResponse (out_status output) (out_bytes output)
              (out_digest output) (dec_signed <$> out_expires output))
          end
      end).
Proof.
  intros Hq Hput. apply catch_bind_walks; [|apply refuses_locked, refuses_dispatch|].
  { intros s r s' H. by eapply rtc_once, busy_operation. }
  intros [out|[code|]] Hcode.
  - apply catch_bind_walks; [apply walks_read, reader_recheck|apply refuses_recheck|].
    intros [u|[code|]] Hc; [apply walks_ret|apply walks_denied|apply walks_denied; cbn; lia].
    cbn. destruct (Hc code eq_refl). lia.
  - apply walks_denied. destruct (Hcode code eq_refl). lia.
  - apply walks_bind; [apply walks_fault|]. intros _. by apply walks_denied.
Qed.
Lemma handle_walks c introspect request deadline : walks c (handle directory_to_vec c introspect request deadline).
Proof.
  unfold handle. apply walks_bind; [apply walks_reads|]. intros [|]; [apply walks_ret|].
  destruct (route_of (hr_path request)) as [route|] eqn:Hr; [|by apply walks_denied].
  destruct (_ || hr_upgrade request); [by apply walks_denied|].
  destruct (_ && (_ || _)) eqn:Hmethod; [by apply walks_denied|].
  destruct (bearer_of _) as [token|]; [|by apply walks_denied].
  apply catch_bind_walks; [apply walks_read, reader_authenticate|apply refuses_authenticate|].
  intros [who|e] He.
  2: { apply walks_denied, auth_status_error. destruct e as [code|]; [|cbn; lia]. cbn. destruct (He code eq_refl). lia. }
  destruct (if bool_decide (route = Inbox) then _ else _) as [q|] eqn:Hq; [|by apply walks_denied].
  destruct (target_of route _ _) as [target|e] eqn:Ht; [|by eapply walks_denied, target_of_error].
  destruct (hr_body request) as [bytes|]; [|by apply walks_denied].
  destruct (body_limit _ _ <? llen bytes); [by apply walks_denied|].
  apply respond_walks; [by eapply query_of_route|by eapply may_put].
Qed.
End WithLibraries.
End WithWorld.

(** * The relay's tables, always

    The invariant of the store, that a removal is final, that a fault closes the
    service, and what a download returns. *)

Section WithWorld.
Context {W : World}.
Section WithLibraries.
Context {CC : Codecs} {SG : Signatures} {SJ : Serde} {RL : RelayLibs} {DC : Documents}.
Context (directory_to_vec : Directory -> option (list Z)).
Notation sha := (@sha CC).

(** ** The invariant *)

Record file_ok (r : Request) (g : GrantFile) : Prop := {
  fok_sha : gf_sha g = sha (gf_bytes g);
  fok_within : gf_expires g <= rq_expires r;
  fok_open : gf_accepted g < gf_expires g;
}.
Record row_ok (r : Request) : Prop := {
  rok_sha : rq_challenge_sha r = sha (rq_challenge r);
  rok_open : rq_accepted r < rq_expires r;
  rok_clock : 0 <= rq_accepted r <= i64_max;
  rok_grant : forall g, rq_grant r = Some g -> file_ok r g;
}.
(** Everything a removal writes is there. *)
Record removal_ok (c : Config) (d : Database) (p : string) : Prop := {
  mok_receipt : p ∈ map rv_subject (revocations d);
  mok_audit : p ∈ map da_subject (audits d);
  mok_nodes : forall n, n ∈ nodes (directory c) -> mkNodeRow p (node_id n) (vault_id n) ∈ node_rows d;
}.
Record store_ok (c : Config) (d : Database) : Prop := {
  ok_ids : NoDup (map rq_id (requests d));
  ok_rows : Forall row_ok (requests d);
  ok_count : llen (requests d) <= MAX_REQUESTS;
  ok_blobs : blob_total d <= MAX_BLOBS;
  ok_events : llen (events d) <= MAX_EVENTS;
  ok_receipts : NoDup (map rv_subject (revocations d));
  ok_removals : forall p, tombstoned p d <-> p ∈ map rv_subject (revocations d);
  ok_complete : forall p, tombstoned p d -> removal_ok c d p;
}.

(** ** Lemmas on the tables *)

Lemma blob_total_app d r :
  blob_total (set_requests (requests d ++ [r]) d) = blob_total d + request_size r.
Proof.
  unfold blob_total. cbn. rewrite fold_right_app. cbn. induction (requests d) as [|x l IH]; cbn; lia.
Qed.
Lemma request_size_nonneg r : 0 <= request_size r.
Proof. unfold request_size, llen. destruct (rq_grant r); lia. Qed.
Lemma blob_sum_retain f l :
  fold_right (fun r n => request_size r + n) 0 (retain f l) <= fold_right (fun r n => request_size r + n) 0 l.
Proof.
  induction l as [|x l IH]; cbn; [done|]. pose proof (request_size_nonneg x). unfold retain in *. cbn.
  destruct (f x); cbn; lia.
Qed.
Lemma llen_retain {A} (f : A -> bool) l : llen (retain f l) <= llen l.
Proof. unfold retain. induction l as [|x l IH]; cbn; [done|]. destruct (f x); unfold llen in *; cbn [length]; lia. Qed.
(** The row that an update of a grant changes is one. *)
Lemma row_unique id l r x :
  NoDup (map rq_id l) -> find_first (fun r => str_eqb (rq_id r) id) l = Some r -> x ∈ l -> str_eqb (rq_id x) id = true -> x = r.
Proof.
  intros Hnd Hr Hx Hid. apply find_first_Some in Hr as [Hr Hid']. apply bool_decide_eq_true in Hid, Hid'.
  revert Hnd Hr Hx. induction l as [|y l IH]; [set_solver|]. cbn. intros [Hy Hnd]%NoDup_cons [->|Hr]%elem_of_cons [->|Hx]%elem_of_cons; auto.
  - destruct Hy. apply list_elem_of_In, in_map_iff. exists x. split; [congruence|by apply list_elem_of_In].
  - destruct Hy. apply list_elem_of_In, in_map_iff. exists r. split; [congruence|by apply list_elem_of_In].
Qed.
Lemma update_ids id g l :
  map rq_id (map (fun r => if str_eqb (rq_id r) id then set_grant g r else r) l) = map rq_id l.
Proof. rewrite map_map. apply map_ext. intros r. by destruct (str_eqb _ _). Qed.
Lemma update_total id g l r :
  NoDup (map rq_id l) -> find_first (fun r => str_eqb (rq_id r) id) l = Some r -> rq_grant r = None ->
  fold_right (fun r n => request_size r + n) 0 (map (fun r => if str_eqb (rq_id r) id then set_grant g r else r) l)
  = fold_right (fun r n => request_size r + n) 0 l + llen (gf_bytes g).
Proof.
  intros Hnd Hr Hg. unfold find_first in *. induction l as [|x l IH]; [done|]. cbn in *. apply NoDup_cons in Hnd as [Hx Hnd].
  destruct (str_eqb (rq_id x) id) eqn:E.
  - injection Hr as ->. unfold request_size at 1 3. cbn. rewrite Hg.
    replace (map _ l) with l; [lia|]. symmetry. rewrite <- map_id. apply map_ext_in. intros y Hy.
    destruct (str_eqb (rq_id y) id) eqn:E'; [|done]. apply bool_decide_eq_true in E, E'. destruct Hx.
    rewrite E, <- E'. apply list_elem_of_In. by apply in_map.
  - rewrite IH by done. lia.
Qed.

(** ** Every change keeps it *)

Lemma tombstoned_subjects p d d' : subjects d' = subjects d -> tombstoned p d' <-> tombstoned p d.
Proof. intros E. unfold tombstoned, subject_row. by rewrite E. Qed.
(** The tables of the directory as they are: only requests and events move. *)
Lemma store_ok_same_directory c d d' :
  store_ok c d -> subjects d' = subjects d -> revocations d' = revocations d -> node_rows d' = node_rows d -> audits d' = audits d ->
  NoDup (map rq_id (requests d')) -> Forall row_ok (requests d') -> llen (requests d') <= MAX_REQUESTS ->
  blob_total d' <= MAX_BLOBS -> llen (events d') <= MAX_EVENTS -> store_ok c d'.
Proof.
  intros [H1 H2 H3 H4 H5 H6 H7 H8] E1 E2 E3 E4 G1 G2 G3 G4 G5. split; try done; rewrite ?E2; try done.
  - intros p. by rewrite (tombstoned_subjects p d d').
  - intros p Hp. rewrite (tombstoned_subjects p d d') in Hp by done. destruct (H8 p Hp) as [M1 M2 M3].
    split; [by rewrite E2|by rewrite E4|by rewrite E3].
Qed.
Lemma store_ok_event c d e : store_ok c d -> llen (events d) < MAX_EVENTS -> store_ok c (recorded e d).
Proof.
  intros H Hn. apply (store_ok_same_directory c d); try done; try apply H.
  cbn. rewrite llen_app. change (llen [e]) with 1. lia.
Qed.
Lemma new_row_ok c who id bytes a b r : new_row c who id bytes a b r -> row_ok r.
Proof.
  intros [? ? ? ? ? ? (n & _ & Hn) ?]. split; [congruence|done|rewrite Hn; apply wall_range|]. intros g Hg. congruence.
Qed.
Lemma new_file_ok bytes a b r g : new_file bytes a b r g -> file_ok r g.
Proof. intros []. split; [congruence|done|done]. Qed.
Lemma store_ok_requests c d l :
  store_ok c d -> NoDup (map rq_id l) -> Forall row_ok l -> llen l <= MAX_REQUESTS ->
  fold_right (fun r n => request_size r + n) 0 l <= MAX_BLOBS -> store_ok c (set_requests l d).
Proof. intros H H1 H2 H3 H4. apply (store_ok_same_directory c d); try done. apply H. Qed.
Lemma store_ok_outcome c who id kind put bytes a b d out d' :
  outcome c who id kind put bytes a b d out d' -> store_ok c d -> store_ok c d'.
Proof.
  intros H Hok.
  destruct H as [r e out H1 H2 H3 _ _ _ _|r e H1 H2 H3 H4 H5 H6 H7 H8 H9 H10|r g e H1 H2 H3 H4 H5 H6 H7 H8 H9].
  - by apply store_ok_event.
  - apply store_ok_event; [|done]. apply store_ok_requests; [done| | | |].
    + rewrite map_app. apply NoDup_app. split; [apply Hok|]. split; [|apply NoDup_singleton].
      intros x Hx ->%list_elem_of_singleton. by rewrite (new_id _ _ _ _ _ _ _ H5) in Hx.
    + apply Forall_app. split; [apply Hok|]. apply Forall_singleton. by eapply new_row_ok.
    + rewrite llen_app. change (llen [r]) with 1. lia.
    + change (blob_total (set_requests (requests d ++ [r]) d) <= MAX_BLOBS). rewrite blob_total_app.
      unfold request_size. rewrite (new_grant _ _ _ _ _ _ _ H5), (new_bytes _ _ _ _ _ _ _ H5). lia.
  - apply store_ok_event; [|done]. apply store_ok_requests; [done| | | |].
    + rewrite update_ids. apply Hok.
    + apply Forall_fmap, Forall_forall. intros x Hx. cbn. pose proof (ok_rows _ _ Hok) as Hrows.
      rewrite Forall_forall in Hrows. destruct (str_eqb (rq_id x) id) eqn:E; [|by apply Hrows].
      assert (x = r) as -> by (eapply row_unique; [apply Hok|exact H3|done|done]).
      destruct (Hrows r Hx) as [R1 R2 Rc R3]. split; [done|done|done|]. cbn. intros g' [= <-].
      destruct (new_file_ok _ _ _ _ _ H6). by split.
    + unfold llen. rewrite length_map. apply Hok.
    + rewrite (update_total id g _ r); [|apply Hok|done|done]. rewrite (file_bytes _ _ _ _ _ H6). exact H8.
Qed.
Lemma store_ok_cleaned c before d : store_ok c d -> store_ok c (cleaned before d).
Proof.
  intros H. apply (store_ok_same_directory c d); try done; cbn.
  - apply NoDup_map_retain, H.
  - apply Forall_forall. intros x [Hx _]%elem_of_retain. pose proof (ok_rows _ _ H) as Hr. rewrite Forall_forall in Hr. auto.
  - etrans; [apply llen_retain|apply H].
  - etrans; [apply blob_sum_retain|apply H].
  - etrans; [apply llen_retain|apply H].
Qed.
Lemma subject_row_removed c l receipt audit d p :
  subject_row p (removed c l receipt audit d) = tombstone_subject (subject l) <$> subject_row p d.
Proof.
  unfold subject_row, removed. cbn [subjects]. apply find_first_map. intros r. unfold tombstone_subject.
  by destruct (str_eqb _ (subject l)).
Qed.
Lemma tombstoned_removed c l receipt audit d row p :
  subject_row (subject l) d = Some row ->
  tombstoned p (removed c l receipt audit d) <-> tombstoned p d \/ p = subject l.
Proof.
  intros Hrow. unfold tombstoned. rewrite subject_row_removed. split.
  - intros (r & Hr & Ht). apply fmap_Some in Hr as (r0 & Hr0 & ->). unfold tombstone_subject in Ht.
    destruct (str_eqb (sr_subject r0) (subject l)) eqn:E; [|left; by exists r0].
    right. apply find_first_Some in Hr0 as [_ Hp]. apply bool_decide_eq_true in E, Hp. congruence.
  - intros [(r & Hr & Ht)| ->].
    + exists (tombstone_subject (subject l) r). rewrite Hr. split; [done|]. unfold tombstone_subject. by destruct (str_eqb _ _).
    + exists (tombstone_subject (subject l) row). rewrite Hrow. split; [done|]. unfold tombstone_subject.
      apply find_first_Some in Hrow as [_ Hp]. unfold str_eqb in *. by rewrite Hp.
Qed.
Lemma store_ok_removed c l receipt audit d row :
  subject_row (subject l) d = Some row -> da_subject audit = subject l ->
  subject l ∉ map rv_subject (revocations d) -> store_ok c d -> store_ok c (removed c l receipt audit d).
Proof.
  intros Hrow Ha Hnew H. pose proof (fun p => tombstoned_removed c l receipt audit d row p Hrow) as Ht.
  destruct H as [H1 H2 H3 H4 H5 H6 H7 H8]. split; try done; cbn [revocations removed].
  - rewrite map_app. apply NoDup_app. split; [done|]. split; [|apply NoDup_singleton].
    by intros x Hx ->%list_elem_of_singleton.
  - intros p. rewrite Ht, H7, map_app, elem_of_app. cbn. by rewrite list_elem_of_singleton.
  - intros p. rewrite Ht. intros [Hp| ->].
    + destruct (H8 p Hp) as [M1 M2 M3]. split; cbn; rewrite ?map_app, ?elem_of_app; [by left..|].
      intros n Hn. rewrite elem_of_app. left. by apply M3.
    + split; cbn; rewrite ?map_app, ?elem_of_app; cbn; rewrite ?list_elem_of_singleton; [by right|by right|].
      intros n Hn. rewrite elem_of_app. right. by apply (list_elem_of_fmap_2 (fun n => mkNodeRow (subject l) (node_id n) (vault_id n))).
Qed.
Lemma store_ok_evolve c d d' : evolve c d d' -> store_ok c d -> store_ok c d'.
Proof.
  intros [x y [z e Hn|who id kind put bytes a b z out z' Ho]|n x|l receipt audit x row Hrow _ Ha Hnew] H.
  - by apply store_ok_event.
  - by eapply store_ok_outcome.
  - by apply store_ok_cleaned.
  - by eapply store_ok_removed.
Qed.
Lemma evolves_ok c d d' : rtc (evolve c) d d' -> store_ok c d -> store_ok c d'.
Proof. induction 1; eauto using store_ok_evolve. Qed.

(** A new store has no rows, and nobody is removed. *)
Definition fresh_rows (d : Database) : Prop :=
  requests d = [] /\ events d = [] /\ revocations d = [] /\ forall r, r ∈ subjects d -> sr_tombstone r = false.
Lemma insert_links_fresh digest l d d' : insert_links digest l d = Some d' -> fresh_rows d -> fresh_rows d'.
Proof.
  revert d. induction l as [|x l IH]; intros d; cbn; [by intros [= ->]|].
  unfold insert_subject. destruct (_ || _); [done|]. cbn. intros H (E1 & E2 & E3 & E4). apply (IH _ H).
  split_and!; try done. intros r [Hr| ->%list_elem_of_singleton]%elem_of_app; [by apply E4|done].
Qed.
Lemma new_database_ok c d : new_database directory_to_vec c = Some d -> store_ok c d.
Proof.
  unfold new_database. destruct (directory_digest _ _) as [digest|]; [|done]. cbn. intros H.
  apply insert_links_fresh in H as (E1 & E2 & E3 & E4); [|split_and!; try done; intros r []%not_elem_of_nil].
  assert (Hno : forall p, ~ tombstoned p d).
  { intros p (r & Hr & Ht). apply find_first_Some in Hr as [Hr _]. rewrite E4 in Ht; done. }
  split; unfold blob_total; rewrite ?E1, ?E2, ?E3; try done; try (by constructor).
  - intros p. split; [by intros Ht%Hno|by intros ?%not_elem_of_nil].
  - by intros p Ht%Hno.
Qed.

(** C12: the tables of a store, from its creation on, whatever requests arrive, the
    directory says, fails or expires: request ids are unique, every challenge and
    every grant is stored with its SHA-256 and an expiry after its arrival, no grant
    outlives its challenge, the numbers of requests, of bytes and of events stay within
    the limits, and a person is offboarded exactly when the receipt, the audit row
    and the pending entry of every node are there. *)
Theorem relay_store_ok c d s s' :
  new_database directory_to_vec c = Some d -> db s = d -> rtc (step directory_to_vec c) s s' -> store_ok c (db s').
Proof.
  intros Hnew <- Hs. eapply evolves_ok; [by eapply steps_evolve|]. by apply new_database_ok.
Qed.

(** ** Removals and faults *)

Lemma tombstoned_evolve c d d' p : evolve c d d' -> tombstoned p d -> tombstoned p d'.
Proof.
  intros [x y [z e Hn|who id kind put bytes a b z out z' Ho]|n x|l receipt audit x row Hrow _ Ha Hnew] H.
  - done.
  - by rewrite (tombstoned_subjects _ _ _ (outcome_subjects _ _ _ _ _ _ _ _ _ _ _ Ho)).
  - done.
  - apply (tombstoned_removed _ _ _ _ _ row); auto.
Qed.
Lemma tombstoned_steps c p s s' : rtc (step directory_to_vec c) s s' -> tombstoned p (db s) -> tombstoned p (db s').
Proof. intros H%steps_evolve. induction H; eauto using tombstoned_evolve. Qed.
Lemma handle_inv c introspect request deadline s response s' :
  handle directory_to_vec c introspect request deadline s = (Ok response, s') ->
  hp_status response < 400 -> answered c introspect request deadline s response s'.
Proof.
  intros H Hs. eapply wp_elim in H; [|apply handle_wp]. by destruct H as [_ H]; apply H.
Qed.

(** C14: a person once offboarded stays offboarded, and from then on, whatever
    happens, no request with that person's token succeeds, and no request about files
    succeeds where that person uploaded the challenge or is the one to approve it. *)
Theorem relay_removal_is_final c p s s' introspect request deadline response s'' :
  tombstoned p (db s) -> rtc (step directory_to_vec c) s s' ->
  handle directory_to_vec c introspect request deadline s' = (Ok response, s'') -> hp_status response < 400 ->
  tombstoned p (db s'') /\
  forall token who s1, bearer_of (hr_authorization request) = Some token ->
    authenticate c (introspect token) deadline s' = (Ok who, s1) ->
    who_subject who <> p /\
    forall id kind r, route_of (hr_path request) = Some (FileRoute id kind) -> request_of id (db s'') = Some r ->
      rq_uploader r <> p /\ rq_recipient r <> p.
Proof.
  intros Hp Hs H Hstatus. apply (tombstoned_steps _ _ _ _ Hs) in Hp.
  assert (Hp' : tombstoned p (db s'')) by (eapply tombstoned_steps; [by eapply busy_steps, handle_walks|done]).
  split; [done|]. destruct (handle_inv _ _ _ _ _ _ _ H Hstatus) as (token & route & who & bytes & out & s1 & Hb & Hr & Ha & _ & Hset & _).
  intros token' who' s1' Hb' Ha'. rewrite Hb in Hb'. injection Hb' as <-. rewrite Ha in Ha'. injection Ha' as <- <-.
  destruct route as [| | |id kind]; cbn in Hset.
  1,2,3: destruct Hset as (_ & Hg & _); split; [intros E; apply Hg; by rewrite E|]; intros; simplify_eq.
  destruct Hset as [_ Hc Hparties]. apply current_not_tombstoned in Hc. split; [intros E; apply Hc; by rewrite E|].
  intros id' kind' r Hr' Hreq. rewrite Hr in Hr'. injection Hr' as <- <-. destruct (Hparties r Hreq) as [H1%current_not_tombstoned H2%current_not_tombstoned].
  split; intros E; [apply H1|apply H2]; by rewrite E.
Qed.

(** after a storage fault the relay is closed: every request, at any time, is
    answered 503 and changes nothing. *)
Theorem relay_fault_closes c s s' introspect request deadline :
  fault s = true -> rtc (step directory_to_vec c) s s' ->
  handle directory_to_vec c introspect request deadline s' = (Ok (error_response 503 "storage-fault"), s').
Proof.
  intros Hf Hs. assert (Hf' : fault s' = true).
  { induction Hs as [|s1 s2 s3 H _ IH]; [done|]. apply IH. by eapply step_effect. }
  unfold handle, mbind, R_bind, reads. by rewrite Hf'.
Qed.

(** an operation that meets a storage error closes the relay: the error is not
    reported as an answer, and the fault is latched. *)
Theorem relay_storage_error_latches c who deadline route q put target bytes s s' :
  locked (dispatch directory_to_vec c who deadline route q put target bytes) s = (Err Storage, s') -> fault s' = true.
Proof.
  unfold locked. destruct (fault s) eqn:E; [by intros [= <-]|].
  destruct (dispatch _ _ _ _ _ _ _ _ _ s) as [[out|[code|]] s1]; intros [=]; by subst.
Qed.

(** ** Retention *)

(** a completed cleanup keeps exactly the rows whose challenge or grant arrived
    within the last 24 hours of the clock it read, and exactly the events of those
    24 hours; at most one event is added. *)
Theorem relay_cleanup_exact c s s' :
  cleanup c s = (Ok tt, s') ->
  exists n, (tick s <= n < tick s')%nat /\
    let before := i64_saturating_sub (wall n) RETENTION in
    (forall r, r ∈ requests (db s') <->
       r ∈ requests (db s) /\ (before <= rq_accepted r \/ exists g, rq_grant r = Some g /\ before <= gf_accepted g)) /\
    (exists added, events (db s') = retain (fun e => negb (ev_created e <? before)) (events (db s)) ++ added /\ llen added <= 1) /\
    subjects (db s') = subjects (db s) /\ revocations (db s') = revocations (db s).
Proof.
  intros H. eapply wp_elim in H; [|apply cleanup_wp]. destruct H as (_ & n & Hn & Hdb). cbn in Hdb.
  exists n. split; [done|]. cbn. set (before := i64_saturating_sub (wall n) RETENTION) in *.
  assert (Hrows : forall r, r ∈ retain (retained before) (requests (db s)) <->
    r ∈ requests (db s) /\ (before <= rq_accepted r \/ exists g, rq_grant r = Some g /\ before <= gf_accepted g)).
  { intros r. rewrite elem_of_retain. unfold retained. rewrite negb_true_iff, andb_false_iff, Z.ltb_ge.
    destruct (rq_grant r) as [g|]; [rewrite Z.ltb_ge|]; split; intros [? [?|?]]; split; try done; eauto.
    - right. by destruct H0 as (g' & [= <-] & ?).
    - by destruct H0 as (g' & ? & ?). }
  destruct Hdb as [->|(e & _ & ->)]; cbn; (split; [exact Hrows|]); (split; [|done]).
  - exists []. by rewrite app_nil_r.
  - by exists [e].
Qed.

(** ** Files *)

(** The file of a request is there, with its SHA-256. *)
Definition held (kind id : string) (bytes : list Z) (d : Database) : Prop :=
  exists r, request_of id d = Some r /\ file_of kind r = Some (bytes, sha bytes).
Lemma request_of_update id' g d id r :
  request_of id d = Some r ->
  find_first (fun r => str_eqb (rq_id r) id) (map (fun r => if str_eqb (rq_id r) id' then set_grant g r else r) (requests d))
  = Some (if str_eqb (rq_id r) id' then set_grant g r else r).
Proof.
  intros Hr. rewrite find_first_map.
  2: { intros x. by destruct (str_eqb (rq_id x) id'). }
  unfold request_of in Hr. by rewrite Hr.
Qed.
Lemma held_outcome kind id bytes c who id' kind' put bytes' a b d out d' :
  outcome c who id' kind' put bytes' a b d out d' -> held kind id bytes d -> held kind id bytes d'.
Proof.
  intros H (r & Hr & Hf).
  destruct H as [r' e out H1 H2 H3 _ _ _ _|r' e H1 H2 H3 H4 H5 H6 H7 H8 H9 H10|r' g e H1 H2 H3 H4 H5 H6 H7 H8 H9].
  - by exists r.
  - exists r. split; [|done]. by apply request_of_app.
  - eexists. split; [by apply request_of_update|]. destruct (str_eqb (rq_id r) id') eqn:E; [|done].
    unfold file_of in *. destruct (str_eqb kind "challenge"); [done|].
    pose proof Hr as Hid. apply find_first_Some in Hid as [_ Hid]. apply bool_decide_eq_true in E, Hid.
    assert (Hsame : id = id') by congruence. rewrite Hsame in Hr. rewrite H3 in Hr. injection Hr as <-. by rewrite H5 in Hf.
Qed.
Lemma held_grow kind id bytes c d d' : grow c d d' -> held kind id bytes d -> held kind id bytes d'.
Proof.
  intros [x y [z e Hn|who id' kind' put bytes' a b z out z' Ho]|l receipt audit x] H; [done| |done].
  by eapply held_outcome.
Qed.
Lemma held_busy kind id bytes c s s' :
  rtc (busy directory_to_vec c) s s' -> held kind id bytes (db s) -> held kind id bytes (db s').
Proof.
  induction 1 as [|s1 s2 s3 H _ IH]; [done|]. intros Hh. apply IH. apply busy_effect in H as (_ & _ & H).
  clear IH. induction H; eauto using held_grow.
Qed.
Lemma held_stored c who id kind bytes a b d out d' :
  kind = "challenge" \/ kind = "grant" -> store_ok c d ->
  outcome c who id kind true bytes a b d out d' -> held kind id bytes d'.
Proof.
  intros Hkind Hok H. remember true as put.
  destruct H as [r e out H1 H2 H3 H4 H5 H6 _|r e H1 H2 H3 H4 H5 H6 H7 H8 H9 H10|r g e H1 H2 H3 H4 H5 H6 H7 H8 H9].
  - exists r. split; [done|]. pose proof (ok_rows _ _ Hok) as Hrows. rewrite Forall_forall in Hrows.
    pose proof H1 as Hin. apply find_first_Some in Hin as [Hin _]. destruct (Hrows r Hin) as [R1 R2 _ R3]. unfold file_of.
    destruct (str_eqb kind "challenge") eqn:E.
    + apply bool_decide_eq_true in E. rewrite R1, (H5 Heqput E). done.
    + apply bool_decide_eq_false in E. destruct (H6 Heqput E) as (g & Hg & Hb). rewrite Hg. cbn.
      destruct (R3 g Hg) as [Hs _ _]. by rewrite Hs, Hb.
  - exists r. split.
    + unfold request_of. cbn [requests recorded set_events set_requests]. rewrite find_first_app. unfold request_of in H4. rewrite H4. cbn.
      unfold str_eqb. by rewrite bool_decide_eq_true_2 by apply H5.
    + unfold file_of. subst kind. cbn. by destruct H5 as [_ _ -> -> _ _ _ _].
  - eexists. split; [by apply request_of_update|].
    pose proof H3 as Hid. apply find_first_Some in Hid as [_ Hid]. rewrite Hid. unfold file_of.
    unfold str_eqb at 1. rewrite bool_decide_eq_false_2 by done. cbn. by destruct H6 as [-> -> _ _ _].
Qed.
(** C15: what is uploaded is what is downloaded: after an accepted PUT of a challenge or
    of a grant, and any requests, polls and faults up to the next deletion of old rows,
    a GET that succeeds answers the same bytes, and their SHA-256. *)
Theorem relay_download_exact c id kind introspect request deadline response s s1
    bytes s2 introspect' request' deadline' response' s3 :
  store_ok c (db s) -> kind = "challenge" \/ kind = "grant" ->
  route_of (hr_path request) = Some (FileRoute id kind) -> hr_method request = PUT -> hr_body request = Some bytes ->
  handle directory_to_vec c introspect request deadline s = (Ok response, s1) -> hp_status response < 400 ->
  rtc (busy directory_to_vec c) s1 s2 ->
  route_of (hr_path request') = Some (FileRoute id kind) -> hr_method request' = GET ->
  handle directory_to_vec c introspect' request' deadline' s2 = (Ok response', s3) -> hp_status response' < 400 ->
  hp_bytes response' = bytes /\ hp_sha256 response' = Some (sha bytes).
Proof.
  intros Hok Hkind Hr Hm Hb H1 Hs1 Hbusy Hr' Hm' H2 Hs2.
  destruct (handle_inv _ _ _ _ _ _ _ H1 Hs1) as (token & route & who & by1 & out & q1 & _ & E1 & _ & E2 & Hset & _).
  destruct (handle_inv _ _ _ _ _ _ _ H2 Hs2) as (token' & route' & who' & by2 & out' & q2 & _ & E1' & _ & E2' & Hset' & _ & -> & ->).
  rewrite Hr in E1. injection E1 as <-. rewrite Hb in E2. injection E2 as <-. rewrite Hr' in E1'. injection E1' as <-.
  cbn in Hset, Hset'. rewrite bool_decide_eq_true_2 in Hset by done.
  rewrite bool_decide_eq_false_2 in Hset' by congruence.
  destruct Hset as [Ho _ _]. destruct Hset' as [Ho' _ _].
  apply held_stored in Ho; [|done|done]. apply (held_busy _ _ _ _ _ _ Hbusy) in Ho as (r & Hreq & Hf).
  inversion Ho' as [r' e out1 H3 H4 H5 _ _ _ H6| |]; subst; [|done|done].
  rewrite Hreq in H3. injection H3 as <-. destruct (H6 eq_refl) as (digest & Hd & ->); [by destruct Hkind as [->| ->]|].
  rewrite Hf in Hd. by injection Hd as <- <-.
Qed.
End WithLibraries.
End WithWorld.

(** ** Examples *)

Import RelayDemo.
Notation demo_busy := (rtc (busy directory_to_vec config)).
Lemma demo_seen l state s : demo_busy s (seen l state s).
Proof. eapply rtc_once, busy_member, surjective_pairing. Qed.
Lemma demo_run request s : demo_busy s (run request s).2.
Proof. eapply handle_walks, surjective_pairing. Qed.
Lemma demo_uploaded : demo_busy initial uploaded.
Proof. unfold uploaded, polled. etrans; [etrans; apply demo_seen|apply demo_run]. Qed.
Lemma demo_initial_ok : store_ok config (db initial).
Proof. apply (new_database_ok directory_to_vec). vm_compute. reflexivity. Qed.
Lemma demo_polled_ok : store_ok config (db polled).
Proof. apply (evolves_ok config (db initial)); [|apply demo_initial_ok]. eapply (steps_evolve directory_to_vec), busy_steps.
  unfold polled. etrans; apply demo_seen. Qed.

Lemma relay_store_ok_witness : exists r, requests (db uploaded) = [r] /\ store_ok config (db uploaded).
Proof.
  assert (H : rtc (step directory_to_vec config) initial uploaded) by apply busy_steps, demo_uploaded.
  assert (Hnew : new_database directory_to_vec config = Some (db initial)) by (vm_compute; reflexivity).
  pose proof (relay_store_ok directory_to_vec config (db initial) initial uploaded Hnew eq_refl H) as Hok.
  eexists. split; [vm_compute; reflexivity|exact Hok].
Defined.
(** A third person is removed; the upload of the first goes on. *)
Lemma relay_removal_is_final_witness :
  tombstoned "former" (db (run upload (seen (link_to "u3" "former" true) (Removed "0") polled)).2).
Proof.
  refine (proj1 (relay_removal_is_final directory_to_vec config "former"
    (seen (link_to "u3" "former" true) (Removed "0") polled) (seen (link_to "u3" "former" true) (Removed "0") polled)
    introspect upload 1000000000
    (match (run upload (seen (link_to "u3" "former" true) (Removed "0") polled)).1 with Ok h => h | Err _ => error_response 0 "" end)
    _ _ _ _ _)).
  - eexists. split; vm_compute; reflexivity.
  - apply rtc_refl.
  - vm_compute. reflexivity.
  - vm_compute. reflexivity.
Defined.
Lemma relay_fault_closes_witness :
  (run download (set_fault true uploaded)).1 = Ok (error_response 503 "storage-fault").
Proof.
  assert (H : rtc (step directory_to_vec config) (set_fault true uploaded) (set_fault true uploaded)) by apply rtc_refl.
  unfold run. by rewrite (relay_fault_closes directory_to_vec config (set_fault true uploaded) (set_fault true uploaded)
    introspect download 1000000000 eq_refl H).
Defined.
Lemma relay_cleanup_exact_witness :
  exists n, (tick uploaded <= n < tick (cleanup config uploaded).2)%nat.
Proof.
  assert (H : cleanup config uploaded = (Ok tt, (cleanup config uploaded).2)) by (vm_compute; reflexivity).
  destruct (relay_cleanup_exact config uploaded (cleanup config uploaded).2 H) as (n & Hn & _).
  by exists n.
Defined.
Lemma demo_route_up : route_of (hr_path upload) = Some (FileRoute "r1" "challenge").
Proof. vm_compute. reflexivity. Qed.
Lemma demo_route_down : route_of (hr_path download) = Some (FileRoute "r1" "challenge").
Proof. vm_compute. reflexivity. Qed.
Lemma relay_download_exact_witness :
  exists response, (run download uploaded).1 = Ok response /\ hp_bytes response = [3] /\
    hp_sha256 response = Some (sha [3]).
Proof.
  assert (E : exists response, (run download uploaded).1 = Ok response /\ hp_status response < 400)
    by (eexists; split; vm_compute; reflexivity).
  destruct E as (response & E & Hs). exists response. split; [exact E|].
  assert (E1 : exists response, (run upload polled).1 = Ok response /\ hp_status response < 400)
    by (eexists; split; vm_compute; reflexivity).
  destruct E1 as (response1 & E1 & Hs1).
  assert (Hup : handle directory_to_vec config introspect upload 1000000000 polled = (Ok response1, uploaded)).
  { unfold uploaded. change (run upload polled = (Ok response1, (run upload polled).2)). rewrite <- E1. apply surjective_pairing. }
  assert (Hdown : handle directory_to_vec config introspect download 1000000000 uploaded = (Ok response, (run download uploaded).2)).
  { change (run download uploaded = (Ok response, (run download uploaded).2)). rewrite <- E. apply surjective_pairing. }
  exact (relay_download_exact directory_to_vec config "r1" "challenge" introspect upload 1000000000 response1 polled uploaded
    [3] uploaded introspect download 1000000000 response _ demo_polled_ok (or_introl eq_refl) demo_route_up eq_refl eq_refl
    Hup Hs1 (rtc_refl _ _) demo_route_down eq_refl Hdown Hs).
Defined.
