(* ===== verification/RelayAccess.v ===== *)
(** * RelayAccess: who the relay answers, and the size of an answer

    What an accepted token says, what a successful request about files stands for,
    and that the list of revocations fits its bound without losing a count. *)

From stdpp Require Import relations.
From S2P Require Import Prelude Strings Errors Domain Codec Policy SessionState Approval Decimal Json Signed.
From S2P Require Import Relay RelayStore RelayService RelayDemo RelayTransactions RelayTheorems RelayInvariant.

Section WithWorld.
Context {W : World}.
Section WithLibraries.
Context {CC : Codecs} {SG : Signatures} {SJ : Serde} {RL : RelayLibs} {DC : Documents}.
Context (directory_to_vec : Directory -> option (list Z)).

(** ** Tokens *)

(** The answer of the identity provider that names a caller. *)
Record accepted (c : Config) (answer : Introspection) (who : Identity) (at_ms : Z) : Prop := {
  ac_answer : exists bytes claims iss aud client kind iat exp,
    in_status answer = 200 /\ collect_body [] (in_chunks answer) = Some bytes /\ llen bytes <= 64 * 1024 /\
    claims_from_slice bytes = Some claims /\ cl_active claims = Some true /\
    required claims = Some (iss, (aud, (client, (kind, (who_subject who, (iat, exp)))))) /\
    iss = idp_issuer c /\ audience c ∈ aud /\ client = personnel_client_id c /\
    0 <= iat <= at_ms / 1000 /\ at_ms / 1000 < exp /\ 1 <= exp - iat <= 300 /\ expires_ms who = exp * 1000;
  ac_named : who_subject who = uploader_subject c \/ has_subject (who_subject who) (approvers c) = true \/
    exists l, l ∈ links (directory c) /\ subject l = who_subject who /\ admin_allowed l = true;
}.
Lemma collect_body_bound chunks acc bytes :
  llen acc <= 64 * 1024 -> collect_body acc chunks = Some bytes -> llen bytes <= 64 * 1024.
Proof.
  revert acc. induction chunks as [|[chunk|] chunks IH]; intros acc Ha; cbn; [by intros [= ->]| |done].
  destruct (_ <? _) eqn:E; [done|]. apply Z.ltb_ge in E. apply IH. by rewrite llen_app.
Qed.
Lemma known_subject_named c sub p :
  known_subject c sub = Some p ->
  p = sub /\ (sub = uploader_subject c \/ has_subject sub (approvers c) = true \/
    exists l, l ∈ links (directory c) /\ subject l = sub /\ admin_allowed l = true).
Proof.
  unfold known_subject. destruct (str_eqb sub _) eqn:E.
  { apply bool_decide_eq_true in E. intros [= <-]. auto. }
  destruct (find_first _ (approvers c)) as [a|] eqn:Ha.
  - intros [= <-]. apply find_first_Some in Ha as [Ha Hs]. split; [by apply bool_decide_eq_true in Hs|]. right. left.
    unfold has_subject. apply existsb_exists. exists a. split; [by apply list_elem_of_In|done].
  - intros H. apply fmap_Some in H as (l & Hl & ->). apply find_first_Some in Hl as [Hl Hs].
    apply andb_true_iff in Hs as [Hs Hadm]. apply bool_decide_eq_true in Hs. split; [done|]. right. right. by exists l.
Qed.

(** C16: a caller is known only by an answer of the identity provider with status 200, at
    most 64 KiB, an active token of this issuer, audience and client, issued in the
    past, unexpired, and valid for at most 300 seconds; and only if the configuration
    names the subject as uploader, approver or administrator. The identity lasts as
    long as the token. *)
Theorem relay_authentication_sound c answer deadline s who s' :
  authenticate c answer deadline s = (Ok who, s') ->
  exists r n, answer = Some r /\ (tick s <= n < tick s')%nat /\ accepted c r who (wall n).
Proof.
  intros H. eapply (wp_elim _ (fun who s' => exists r n, answer = Some r /\ (tick s <= n < tick s')%nat /\ accepted c r who (wall n))
    (fun _ => True)) in H; [done|]. clear H.
  unfold authenticate. apply rwp_bind, wp_some; [done|]. intros r ->.
  apply rwp_bind, wp_deny; intros Hhead; [done|]. apply rwp_bind, wp_some; [done|]. intros bytes Hbytes.
  apply rwp_bind, wp_some; [done|]. intros claims Hclaims. apply rwp_bind.
  destruct (cl_active claims) as [[|]|] eqn:Hactive; [|done|done]. apply rwp_ret.
  apply rwp_bind, wp_some; [done|]. intros [iss [aud [client [kind [sub [iat exp]]]]]] Hreq.
  apply rwp_bind, wp_now, rwp_bind, wp_deny; intros Hfields; [done|].
  apply rwp_bind, wp_some; [done|]. intros expires He. apply rwp_bind, wp_some; [done|]. intros p Hp.
  apply rwp_bind. eapply rwp_mono; [apply reader_recheck| |done]. cbn. intros _ s1 H1.
  exists r, (tick s). split; [done|]. split; [pose proof (same_tick _ _ H1); cbn in *; lia|].
  apply known_subject_named in Hp as [-> Hnamed].
  rewrite !orb_false_iff, !negb_false_iff in Hfields.
  destruct Hfields as (((((((((Fiss & Faud) & Fclient) & _) & _) & F0) & Fiat) & Fexp) & Flife) & _).
  rewrite !orb_false_iff, negb_false_iff in Hhead. destruct Hhead as [[Hstatus _] _].
  apply bool_decide_eq_true in Fiss, Fclient. apply Z.eqb_eq in Hstatus.
  apply Z.ltb_ge in F0, Fiat. apply Z.leb_gt in Fexp. unfold bad_lifetime in Flife.
  split; [|done]. exists bytes, claims, iss, aud, client, kind, iat, exp. split_and!; try done; try lia.
  - eapply collect_body_bound; [|exact Hbytes]. done.
  - apply existsb_exists in Faud as (a & Ha & E). apply bool_decide_eq_true in E as <-. by apply list_elem_of_In.
  - destruct (_ && _) in He; [|done]. by injection He as <-.
Qed.

(** ** Requests about files *)

Lemma is_party c who r :
  is_uploader c who r || is_recipient c who r = true -> who_subject who = rq_uploader r \/ who_subject who = rq_recipient r.
Proof.
  unfold is_uploader, is_recipient. intros [H|H]%orb_true_iff; apply andb_true_iff in H as [H _];
    apply bool_decide_eq_true in H; auto.
Qed.
Lemma outcome_row c who id kind put bytes a b d out d' :
  outcome c who id kind put bytes a b d out d' ->
  exists r e, request_of id d' = Some r /\ last (events d') = Some e /\ event_of who id kind e /\
    (who_subject who = rq_uploader r \/ who_subject who = rq_recipient r).
Proof.
  intros H. destruct H as [r e out H1 H2 H3 H4 _ _ _|r e H1 H2 H3 H4 H5 H6 H7 H8 H9 H10|r g e H1 H2 H3 H4 H5 H6 H7 H8 H9].
  - exists r, e. split; [done|]. split; [apply last_snoc|]. split; [done|by eapply is_party].
  - exists r, e. split; [|split; [apply last_snoc|split; [done|left; by rewrite (new_uploader _ _ _ _ _ _ _ H5)]]].
    unfold request_of in *. cbn [requests recorded set_events set_requests]. rewrite find_first_app, H4. cbn.
    unfold str_eqb. by rewrite bool_decide_eq_true_2 by apply H5.
  - eexists _, e. split; [by apply request_of_update|]. split; [apply last_snoc|]. split; [done|]. right.
    unfold is_recipient in H4. apply andb_true_iff in H4 as [H4 _]. apply bool_decide_eq_true in H4.
    by destruct (str_eqb _ _).
Qed.
(** C13: a request about files succeeds only for the uploader or the recipient of the
    request, under a token the identity provider accepted, while the caller and both
    parties are current in the directory: linked, not offboarded, seen active within a
    minute under an unexpired token. The answer is in the record of events. *)
Theorem relay_serves_current_parties c introspect request deadline s response s' id kind :
  handle directory_to_vec c introspect request deadline s = (Ok response, s') -> hp_status response < 400 ->
  route_of (hr_path request) = Some (FileRoute id kind) ->
  exists token who s1 r e,
    bearer_of (hr_authorization request) = Some token /\
    authenticate c (introspect token) deadline s = (Ok who, s1) /\
    request_of id (db s') = Some r /\
    (who_subject who = rq_uploader r \/ who_subject who = rq_recipient r) /\
    (forall p, p ∈ [who_subject who; rq_uploader r; rq_recipient r] -> current c (db s') (fresh s) p (tick s) (tick s')) /\
    last (events (db s')) = Some e /\ event_of who id kind e.
Proof.
  intros H Hs Hr. destruct (handle_inv _ _ _ _ _ _ _ _ H Hs) as (token & route & who & bytes & out & s1 & Hb & E & Ha & _ & Hset & _).
  rewrite Hr in E. injection E as <-. destruct Hset as [Ho Hc Hp].
  destruct (outcome_row _ _ _ _ _ _ _ _ _ _ _ Ho) as (r & e & Hreq & He & Hev & Hwho).
  exists token, who, s1, r, e. split_and!; try done. destruct (Hp r Hreq) as [H1 H2].
  intros p [->|[->|[->|[]%not_elem_of_nil]%elem_of_cons]%elem_of_cons]%elem_of_cons; done.
Qed.

(** ** The list of revocations *)

(** Ids given up are counted. *)
Record shortened (i i' : Item) : Prop := {
  short_fields : it_fields i' = it_fields i;
  short_ids : it_ids i' `prefix_of` it_ids i;
  short_count : it_left_out i' + llen (it_ids i') = it_left_out i + llen (it_ids i);
}.
Lemma shortened_refl i : shortened i i.
Proof. by split. Qed.
Lemma shortened_trans i1 i2 i3 : shortened i1 i2 -> shortened i2 i3 -> shortened i1 i3.
Proof. intros [A1 A2 A3] [B1 B2 B3]. split; [congruence|by etrans|lia]. Qed.
#[export] Instance shortened_preorder : PreOrder shortened.
Proof. split; [exact shortened_refl|exact shortened_trans]. Qed.
Lemma drop_id_spec i i' : drop_id i = Some i' -> shortened i i' /\ length (it_ids i) = S (length (it_ids i')).
Proof.
  unfold drop_id. destruct (it_ids i) as [|x l] eqn:E; [done|]. intros [= <-].
  assert (Hl : x :: l = removelast (x :: l) ++ [List.last (x :: l) x]) by by apply app_removelast_last.
  assert (Hn : length (x :: l) = S (length (removelast (x :: l)))).
  { rewrite Hl at 1. rewrite length_app. cbn [length]. lia. }
  split; [|by rewrite <- E in Hn; rewrite E in Hn].
  split; [done| |]; cbn [it_ids it_left_out]; rewrite E.
  - eexists. exact Hl.
  - unfold llen. rewrite Hn. change (length _) with (length (removelast (x :: l))) at 1. lia.
Qed.
Lemma drop_id_none i : drop_id i = None -> it_ids i = [].
Proof. unfold drop_id. by destruct (it_ids i). Qed.
Lemma trim_last_spec items :
  match trim_last items with
  | Some items' => Forall2 shortened items items' /\ listed items = S (listed items')
  | None => Forall (fun i => it_ids i = []) items
  end.
Proof.
  unfold listed. induction items as [|i items IH]; cbn [trim_last fold_right]; [done|]. destruct (trim_last items) as [items'|].
  - destruct IH as [H1 H2]. split; [by constructor|]. cbn [fold_right]. lia.
  - destruct (drop_id i) as [i'|] eqn:E; [|constructor; [by apply drop_id_none|done]].
    apply drop_id_spec in E as [E1 E2]. split; [by constructor|]. cbn [fold_right]. lia.
Qed.

(** The outcome for a list of items: a text within the bound, for a shortened list; or
    no room even without ids. *)
Definition fitted (c : Config) (items : list Item) (r : result RelayError (list Z)) : Prop :=
  match r with
  | Ok bytes => llen bytes <= 64 * 1024 /\ exists digest items',
      directory_digest directory_to_vec (directory c) = Some digest /\
      Forall2 shortened items items' /\ bytes = revocations_text c digest items'
  | Err _ => directory_digest directory_to_vec (directory c) = None \/ exists digest items',
      directory_digest directory_to_vec (directory c) = Some digest /\
      Forall2 shortened items items' /\ Forall (fun i => it_ids i = []) items' /\
      64 * 1024 < llen (revocations_text c digest items')
  end.
Lemma fit_fitted fuel c items items0 s r s' :
  listed items0 = fuel -> Forall2 shortened items items0 ->
  fit directory_to_vec fuel c items0 s = (r, s') -> fitted c items r.
Proof.
  revert items0. induction fuel as [|fuel IH]; intros items0 Hl Hsh; cbn [fit]; unfold mbind, R_bind, digest_of, some_or;
    (destruct (directory_digest _ _) as [digest|] eqn:Ed; [|intros [= <- <-]; by left]);
    unfold mret at 1, R_ret at 1;
    (destruct (_ <=? _) eqn:E;
      [apply Z.leb_le in E; intros [= <- <-]; split; [done|]; exists digest, items0; by split_and!|]);
    apply Z.leb_gt in E; pose proof (trim_last_spec items0) as Ht; destruct (trim_last items0) as [items1|].
  - lia.
  - intros [= <- <-]. right. exists digest, items0. by split_and!.
  - destruct Ht as [Ht1 Ht2]. apply IH; [lia|by etrans].
  - intros [= <- <-]. right. exists digest, items0. by split_and!.
Qed.
(** the list of revocations is at most 64 KiB. It drops request ids from the end
    of the items, each counted in the number left out; the loop ends, and it fails only when the list is too long without a single id. *)
Theorem relay_revocations_fit c items s :
  exists r s', fit directory_to_vec (listed items) c items s = (r, s') /\ fitted c items r.
Proof.
  destruct (fit directory_to_vec (listed items) c items s) as [r s'] eqn:E. exists r, s'. split; [done|].
  by eapply fit_fitted.
Qed.
End WithLibraries.
End WithWorld.

(** ** Examples *)

Import RelayDemo.
Lemma relay_authentication_sound_witness :
  exists r n, introspect "up" = Some r /\ accepted config r (mkIdentity "operator" 1200000) (wall n).
Proof.
  assert (H : authenticate config (introspect "up") 1000000000 polled
    = (Ok (mkIdentity "operator" 1200000), (authenticate config (introspect "up") 1000000000 polled).2))
    by (vm_compute; reflexivity).
  destruct (relay_authentication_sound config (introspect "up") 1000000000 polled _ _ H) as (r & n & E & _ & Ha).
  by exists r, n.
Defined.
Lemma relay_serves_current_parties_witness :
  exists who r, request_of "r1" (db (run download uploaded).2) = Some r /\
    (who_subject who = rq_uploader r \/ who_subject who = rq_recipient r).
Proof.
  assert (E : exists response, (run download uploaded).1 = Ok response /\ hp_status response < 400)
    by (eexists; split; vm_compute; reflexivity).
  destruct E as (response & E & Hs).
  assert (H : handle directory_to_vec config introspect download 1000000000 uploaded = (Ok response, (run download uploaded).2)).
  { change (run download uploaded = (Ok response, (run download uploaded).2)). rewrite <- E. apply surjective_pairing. }
  destruct (relay_serves_current_parties directory_to_vec config introspect download 1000000000 uploaded response _
    "r1" "challenge" H Hs demo_route_down) as (token & who & s1 & r & e & _ & _ & Hr & Hw & _).
  exists who, r. split; [exact Hr|exact Hw].
Defined.
