(* ===== verification/RelayInbox.v ===== *)
(** * RelayInbox: the pages of the inbox

    What an answer of [Store::inbox] lists: the next 25 rows that the caller may see, in
    the order of arrival, and a cursor that reads back as the place of the last
    ([inbox_answers], [handle_inbox]). A person who follows the cursors makes one request
    per page, and the service goes on between them; what they see all the same is
    [relay_inbox_pages_complete]. *)

From Stdlib Require Import Sorting.Sorted.
From S2P Require Import Prelude Strings Errors Domain Codec Policy SessionState Approval Decimal Json Signed.
From S2P Require Import Relay RelayStore RelayService RelayDemo RelayTransactions RelayTheorems RelayInvariant.

(** ** Sorting *)

Section Sorting.
Context {A : Type} (le : A -> A -> bool).
Hypothesis le_trans : forall a b c, le a b = true -> le b c = true -> le a c = true.
Hypothesis le_total : forall a b, le a b = true \/ le b a = true.
Notation sorted := (StronglySorted (fun a b => le a b = true)).

Lemma insert_by_perm x l : insert_by le x l ≡ₚ x :: l.
Proof.
  induction l as [|y l IH]; cbn; [done|]. destruct (le x y); [done|]. rewrite IH. apply Permutation_swap.
Qed.
Lemma sort_by_perm l : sort_by le l ≡ₚ l.
Proof. unfold sort_by. induction l as [|x l IH]; cbn; [done|]. by rewrite insert_by_perm, IH. Qed.
Lemma insert_by_sorted x l : sorted l -> sorted (insert_by le x l).
Proof.
  induction 1 as [|y l Hs IH Hy]; cbn; [by repeat constructor|].
  destruct (le x y) eqn:E.
  - constructor; [by constructor|]. constructor; [done|]. eapply Forall_impl; [exact Hy|]. cbn. eauto.
  - constructor; [done|]. rewrite insert_by_perm. constructor; [|done]. destruct (le_total x y); congruence.
Qed.
Lemma sort_by_sorted l : sorted (sort_by le l).
Proof. unfold sort_by. induction l; cbn; [constructor|]. by apply insert_by_sorted. Qed.
(** Sorting and filtering commute. *)
Lemma insert_by_below x l : Forall (fun y => le x y = true) l -> insert_by le x l = x :: l.
Proof. by destruct 1 as [|y l H _]; cbn; [|rewrite H]. Qed.
Lemma filter_insert_by p x l :
  sorted l -> List.filter p (insert_by le x l) = if p x then insert_by le x (List.filter p l) else List.filter p l.
Proof.
  induction 1 as [|y l Hs IH Hy]; cbn; [by destruct (p x)|].
  destruct (le x y) eqn:E; cbn.
  - destruct (p x); [|done]. destruct (p y); [by cbn; rewrite E|].
    rewrite insert_by_below; [done|]. apply Forall_forall. intros z Hz. apply list_elem_of_In, filter_In in Hz as [Hz _].
    rewrite Forall_forall in Hy. apply list_elem_of_In in Hz. eauto.
  - rewrite IH. destruct (p x), (p y); cbn; rewrite ?E; done.
Qed.
Lemma sort_by_filter p l : sort_by le (List.filter p l) = List.filter p (sort_by le l).
Proof.
  induction l as [|x l IH]; [done|]. change (sort_by le (x :: l)) with (insert_by le x (sort_by le l)).
  rewrite filter_insert_by, <- IH by apply sort_by_sorted. cbn [List.filter]. by destruct (p x).
Qed.
End Sorting.

(** ** The order of the inbox *)

Lemma text_lt_spec a b : text_lt a b = true <-> String.compare a b = Lt.
Proof. unfold text_lt. by destruct (String.compare a b). Qed.
Lemma key_lt_trans a b c : key_lt a b = true -> key_lt b c = true -> key_lt a c = true.
Proof.
  unfold key_lt. rewrite !orb_true_iff, !andb_true_iff, !Z.ltb_lt, !Z.eqb_eq, !text_lt_spec.
  intros [H1|[H1 H1']] [H2|[H2 H2']]; [left; lia..|]. right. split; [lia|]. by eapply string_compare_trans.
Qed.
Lemma key_lt_irrefl a : key_lt a a = false.
Proof.
  unfold key_lt, text_lt. rewrite Z.ltb_irrefl, string_compare_refl. by rewrite andb_false_r.
Qed.
Lemma key_lt_total a b : key_lt a b = true \/ a = b \/ key_lt b a = true.
Proof.
  unfold key_lt. rewrite !orb_true_iff, !andb_true_iff, !Z.ltb_lt, !Z.eqb_eq, !text_lt_spec.
  destruct a as [n s], b as [m t]. cbn. destruct (Z.lt_trichotomy n m) as [H|[->|H]]; auto.
  destruct (String.compare s t) eqn:E; auto.
  - apply String.compare_eq_iff in E as ->. auto.
  - right. right. right. split; [done|]. by rewrite String.compare_antisym, E.
Qed.
Definition row_le (a b : Request) : bool := negb (key_lt (key_of b) (key_of a)).
Lemma row_le_total a b : row_le a b = true \/ row_le b a = true.
Proof.
  unfold row_le. destruct (key_lt (key_of b) (key_of a)) eqn:E; [|by left]. right.
  destruct (key_lt (key_of a) (key_of b)) eqn:E'; [|done].
  pose proof (key_lt_trans _ _ _ E E') as H. by rewrite key_lt_irrefl in H.
Qed.
Lemma row_le_trans a b c : row_le a b = true -> row_le b c = true -> row_le a c = true.
Proof.
  unfold row_le. rewrite !negb_true_iff. intros H1 H2. destruct (key_lt (key_of c) (key_of a)) eqn:E; [|done].
  destruct (key_lt_total (key_of a) (key_of b)) as [H|[H|H]]; [|by rewrite <- H, E in H2|congruence].
  by rewrite (key_lt_trans _ _ _ E H) in H2.
Qed.

(** A list in strict order of its keys. *)
Notation ascending := (StronglySorted (fun a b => key_lt (key_of a) (key_of b) = true)).
Lemma ascending_strict l :
  NoDup (map rq_id l) -> StronglySorted (fun a b => row_le a b = true) l -> ascending l.
Proof.
  intros Hnd. induction 1 as [|x l Hs IH Hx]; [constructor|]. cbn in Hnd. apply NoDup_cons in Hnd as [Hn Hnd].
  constructor; [by apply IH|]. rewrite Forall_forall in *. intros y Hy. specialize (Hx y Hy).
  unfold row_le in Hx. apply negb_true_iff in Hx.
  destruct (key_lt_total (key_of x) (key_of y)) as [H|[H|H]]; [done| |congruence].
  injection H as _ Hid. destruct Hn. rewrite Hid. apply list_elem_of_In. apply in_map. by apply list_elem_of_In.
Qed.
Lemma filter_filter {A} (p q : A -> bool) l : List.filter p (List.filter q l) = List.filter (fun x => q x && p x) l.
Proof. induction l as [|x l IH]; [done|]. cbn. destruct (q x); cbn; [|done]. by rewrite IH. Qed.
Lemma NoDup_map_filter {A B} (g : A -> B) (f : A -> bool) l : NoDup (map g l) -> NoDup (map g (List.filter f l)).
Proof. apply NoDup_map_retain. Qed.

(** ** Cursors *)

Lemma slen_dec_digits f n acc k :
  0 <= n < 10 ^ k -> 1 <= k -> slen (dec_digits f n acc) <= slen acc + k.
Proof.
  revert n acc k. induction f as [|f IH]; intros n acc k Hn Hk; cbn [dec_digits]; [unfold slen; cbn; lia|].
  destruct (Z.eqb_spec (n / 10) 0) as [E|E]; [unfold slen; cbn; lia|].
  assert (Hk' : 2 <= k).
  { destruct (Z.eq_dec k 1) as [->|]; [|lia]. destruct E. apply Z.div_small. lia. }
  etrans; [apply (IH _ _ (k - 1)); [|lia]|unfold slen; cbn; lia].
  split; [apply Z.div_pos; lia|]. apply Z.div_lt_upper_bound; [lia|]. rewrite <- Z.pow_succ_r by lia.
  replace (Z.succ (k - 1)) with k by lia. apply Hn.
Qed.
Lemma slen_dec_signed n : 0 <= n <= i64_max -> slen (dec_signed n) <= 19.
Proof.
  intros Hn. unfold dec_signed. destruct (Z.ltb_spec n 0); [lia|]. unfold dec.
  etrans; [apply (slen_dec_digits _ _ _ 19); [unfold i64_max in Hn; lia|lia]|]. unfold slen. cbn. lia.
Qed.
Lemma digits_no_colon s : str_all is_ascii_digit s = true -> str_contains ":" s = false.
Proof.
  intros H. unfold str_contains, str_any. apply negb_false_iff. eapply str_all_impl; [|exact H].
  intros ch Hd. apply negb_true_iff, bool_decide_eq_false_2. by intros ->.
Qed.

Section WithWorld.
Context {W : World}.
Section WithLibraries.
Context {CC : Codecs} {SG : Signatures} {SJ : Serde} {RL : RelayLibs} {DC : Documents}.

(** The cursor of a row reads back as its key. *)
Lemma cursor_reads_back n id :
  0 <= n <= i64_max -> canonical_uuid id = true -> slen id <= 36 ->
  inbox_fields None None [("cursor", dec_signed n +:+ ":" +:+ id)] = Some (mkInboxQuery (Some (n, id)) false).
Proof.
  intros Hn Hid Hlen. cbn [inbox_fields]. rewrite bool_decide_eq_true_2 by done. cbn [str_eqb andb].
  replace (64 <? slen (dec_signed n +:+ ":" +:+ id)) with false.
  2: { symmetry. apply Z.ltb_ge. rewrite !slen_app. pose proof (slen_dec_signed n Hn). change (slen ":") with 1. lia. }
  change (":" +:+ id) with (String ":" id). rewrite split_once_app; [cbn [mbind option_bind]|].
  - rewrite parse_i64_dec_signed by (unfold in_i64, i64_min; lia). cbn [mbind option_bind].
    replace (n <? 0) with false by lia.
    replace (str_eqb (dec_signed n) (dec_signed n)) with true by (symmetry; by apply bool_decide_eq_true_2).
    by rewrite Hid.
  - unfold dec_signed. replace (n <? 0) with false by lia. apply digits_no_colon.
    apply dec_spec. unfold i64_max in Hn. lia.
Qed.

(** ** Pages *)

Section Pages.
Context (c : Config) (who approver : string) (include_expired : bool) (snapshot : Z) (d : Database).
(** Everything the caller may see, oldest first. *)
Definition listing : list Request :=
  sort_by row_le (List.filter (fun r => visible c who approver r && (include_expired || unexpired snapshot r)) (requests d)).
Definition found_after (after : option (Z * string)) : list Request :=
  inbox_rows c who approver (mkInboxQuery after include_expired) snapshot d.
(** What comes after a cursor. *)
Definition rest_of (after : option (Z * string)) : list Request :=
  List.filter (fun r => key_lt (default (-1, "") after) (key_of r)) listing.
Lemma found_after_rest after : found_after after = take 26 (rest_of after).
Proof.
  unfold found_after, inbox_rows, rest_of, listing. cbn [iq_after iq_include_expired].
  rewrite <- sort_by_filter by (apply row_le_trans || apply row_le_total).
  rewrite filter_filter. reflexivity.
Qed.
Hypothesis Hok : store_ok c d.
Hypothesis Hids : Forall (fun r => canonical_uuid (rq_id r) = true /\ slen (rq_id r) <= 36) (requests d).
Lemma listing_ascending : ascending listing.
Proof.
  apply ascending_strict.
  - unfold listing. rewrite (sort_by_perm row_le). apply NoDup_map_filter, Hok.
  - apply sort_by_sorted; [apply row_le_trans|apply row_le_total].
Qed.
End Pages.

(** ** What one page shows *)

(** What the caller may see of the requests, at a time. *)
Definition wanted (c : Config) (who : string) (include_expired : bool) (snapshot : Z) (r : Request) : bool :=
  visible c who (approver_of c who) r && (include_expired || unexpired snapshot r).
Definition canonical_id (r : Request) : Prop := canonical_uuid (rq_id r) = true /\ slen (rq_id r) <= 36.
(** The rows after a place, in order, at most 25 of them; what is left out comes after
    the last, and the cursor says where that is. *)
Record inbox_page (c : Config) (who : string) (include_expired : bool) (after : option (Z * string)) (snapshot : Z) (d : Database)
    (rows : list Request) (next : option string) : Prop := {
  pg_ordered : ascending rows;
  pg_sound : forall r, r ∈ rows -> r ∈ requests d /\ wanted c who include_expired snapshot r = true /\
    key_lt (default (-1, "") after) (key_of r) = true;
  pg_bounded : llen rows <= 25;
  pg_complete : forall r, r ∈ requests d -> wanted c who include_expired snapshot r = true ->
    key_lt (default (-1, "") after) (key_of r) = true ->
    r ∈ rows \/ exists text l, next = Some text /\ last rows = Some l /\ key_lt (key_of l) (key_of r) = true;
  pg_next : forall text, next = Some text -> exists l, last rows = Some l /\
    inbox_fields None None [("cursor", text)] = Some (mkInboxQuery (Some (key_of l)) false);
}.
Lemma ascending_app l1 l2 :
  ascending (l1 ++ l2) <-> ascending l1 /\ ascending l2 /\ forall a b, a ∈ l1 -> b ∈ l2 -> key_lt (key_of a) (key_of b) = true.
Proof.
  induction l1 as [|x l1 IH]; cbn [app].
  - split; [intros H; split_and!; [constructor|done|by intros ? ? ?%not_elem_of_nil]|tauto].
  - split.
    + intros H. inversion H as [|? ? Hs Hf]; subst. apply IH in Hs as (H1 & H2 & H3). rewrite Forall_app, !Forall_forall in Hf.
      destruct Hf as [F1 F2]. split_and!; [constructor; [done|by apply Forall_forall]|done|].
      intros a b [->|Ha]%elem_of_cons Hb; [by apply F2|by apply H3].
    + intros (H1 & H2 & H3). inversion H1 as [|? ? Hs Hf]; subst. constructor.
      * apply IH. split_and!; [done|done|]. intros a b Ha. apply H3. by right.
      * apply Forall_app. split; [done|]. apply Forall_forall. intros b Hb. apply H3; [left|done].
Qed.
Lemma ascending_filter (p : Request -> bool) l : ascending l -> ascending (List.filter p l).
Proof.
  induction 1 as [|x l Hs IH Hf]; cbn; [constructor|]. destruct (p x); [|done]. constructor; [done|].
  rewrite Forall_forall in *. intros y Hy. apply Hf. apply list_elem_of_In. by apply list_elem_of_In, filter_In in Hy as [Hy _].
Qed.
Lemma take_split (l : list Request) : l = take 25 l ++ drop 25 l.
Proof. symmetry. apply take_drop. Qed.
Lemma page_exact c who include_expired after snapshot d :
  store_ok c d -> Forall canonical_id (requests d) ->
  let found := inbox_rows c who (approver_of c who) (mkInboxQuery after include_expired) snapshot d in
  inbox_page c who include_expired after snapshot d (take 25 found) (next_cursor found).
Proof.
  intros Hok Hids. cbv zeta.
  pose proof (found_after_rest c who (approver_of c who) include_expired snapshot d after) as Hf. unfold found_after in Hf. rewrite Hf.
  set (rest := rest_of _ _ _ _ _ _ _) in *.
  assert (Hasc : ascending rest) by by apply ascending_filter, (listing_ascending _ _ _ _ _ _ Hok).
  assert (Hrest : forall r, r ∈ rest <-> r ∈ requests d /\ wanted c who include_expired snapshot r = true /\
    key_lt (default (-1, "") after) (key_of r) = true).
  { intros r. unfold rest, rest_of, listing, wanted. rewrite list_elem_of_In, filter_In, <- list_elem_of_In.
    rewrite (sort_by_perm row_le), list_elem_of_In, filter_In, <- list_elem_of_In. tauto. }
  rewrite take_take. cbn [Nat.min]. rewrite (take_split rest) in Hasc. apply ascending_app in Hasc as (H1 & _ & H3).
  assert (Hlast : forall text, next_cursor (take 26 rest) = Some text -> exists l, last (take 25 rest) = Some l /\
    text = dec_signed (rq_accepted l) +:+ ":" +:+ rq_id l).
  { intros text. unfold next_cursor. destruct (_ <? _); [|done]. rewrite take_take. cbn [Nat.min].
    destruct (last (take 25 rest)) as [l|]; [|done]. intros [= <-]. by exists l. }
  assert (Hin : forall l, last (take 25 rest) = Some l -> l ∈ take 25 rest) by apply last_Some_elem_of.
  split.
  - done.
  - intros r Hr. apply Hrest. rewrite (take_split rest), elem_of_app. by left.
  - unfold llen. rewrite length_take. lia.
  - intros r Hr Hw Hk. assert (Hr' : r ∈ rest) by by apply Hrest. rewrite (take_split rest), elem_of_app in Hr'.
    destruct Hr' as [Hr'|Hr']; [by left|right].
    assert (Hlen : (25 < length rest)%nat).
    { apply list_elem_of_lookup in Hr' as [i Hi]. apply lookup_lt_Some in Hi. rewrite length_drop in Hi. lia. }
    destruct (next_cursor (take 26 rest)) as [text|] eqn:En.
    + destruct (Hlast text eq_refl) as (l & El & _). exists text, l. split_and!; try done. by apply H3; [apply Hin|].
    + exfalso. unfold next_cursor in En. rewrite (proj2 (Z.ltb_lt _ _)) in En by (unfold llen; rewrite length_take; lia).
      rewrite take_take in En. cbn [Nat.min] in En. destruct (last (take 25 rest)) eqn:El; [done|].
      apply last_None in El. assert (E0 : length (take 25 rest) = 0%nat) by by rewrite El. rewrite length_take in E0. lia.
  - intros text En. destruct (Hlast text En) as (l & El & ->). exists l. split; [done|].
    assert (Hl : l ∈ requests d) by (apply Hrest; rewrite (take_split rest), elem_of_app; left; by apply Hin).
    rewrite Forall_forall in Hids. destruct (Hids l Hl) as [Hcan Hlen]. pose proof (ok_rows _ _ Hok) as Hrow.
    rewrite Forall_forall in Hrow. destruct (Hrow l Hl) as [_ _ Hclock _]. by apply cursor_reads_back.
Qed.

(** ** What a request for the inbox answers *)

Context (directory_to_vec : Directory -> option (list Z)).
(** What a client takes from the JSON of an answer: the ids listed, and the cursor. *)
Definition listed (v : JValue Number) : option (list string * option string) :=
  items ← (value_get "items" v ≫= value_as_array);
  next ← value_get "nextCursor" v;
  ids ← mapM (fun item => value_get "requestId" item ≫= value_as_str) items;
  Some (ids, value_as_str next).
Lemma items_listed c snapshot (rows : list (Request * option string)) :
  mapM (fun item => value_get "requestId" item ≫= value_as_str) (map (fun e => inbox_item c snapshot e.2 e.1) rows)
  = Some (map rq_id (map fst rows)).
Proof. induction rows as [|e rows IH]; [done|]. cbn [map mapM]. by rewrite IH. Qed.
Lemma page_listed c snapshot (rows : list (Request * option string)) next note :
  listed (json_object [
    ("recordType", VString "rekey.approval.inbox.v1");
    ("items", VArray (map (fun e => inbox_item c snapshot e.2 e.1) rows));
    ("nextCursor", opt_string next); ("snapshotAtMs", i64 snapshot); ("snapshot", VString note)])
  = Some (map rq_id (map fst rows), next).
Proof.
  unfold listed. set (v := json_object _). set (items := map (fun e => inbox_item c snapshot e.2 e.1) rows).
  assert (E1 : value_get "items" v = Some (VArray items)) by reflexivity.
  assert (E2 : value_get "nextCursor" v = Some (opt_string next)) by reflexivity. rewrite E1, E2. cbn [mbind option_bind value_as_array].
  unfold items. rewrite items_listed. by destruct next.
Qed.
Lemma inbox_answers c who deadline q s :
  store_ok c (db s) -> Forall canonical_id (requests (db s)) ->
  wp (inbox directory_to_vec c who deadline q)
    (fun out s' => exists n v rows next, (tick s <= n < tick s')%nat /\ out_bytes out = json_text v /\
       listed v = Some (map rq_id rows, next) /\
       inbox_page c (who_subject who) (iq_include_expired q) (iq_after q) (wall n) (db s) rows next)
    (fun _ => True) s.
Proof.
  intros Hok Hids. unfold inbox.
  apply rwp_bind, wp_deny; intros _; [done|]. apply wp_read; [apply reader_files|done|intros _ s1 H1].
  apply wp_read; [apply reader_recheck|done|intros _ s2 H2]. apply rwp_bind, wp_transaction; [done|].
  set (s3 := ticked _). assert (E3 : tx s3 = db s) by (cbn; by rewrite (same_db _ _ H2), (same_db _ _ H1)).
  assert (T3 : (tick s <= tick s3)%nat) by (pose proof (same_tick _ _ H1); pose proof (same_tick _ _ H2); cbn; lia). clearbody s3.
  apply wp_read; [apply reader_gate|done|intros _ s4 H4]. apply rwp_bind, wp_now. set (n := tick s4).
  apply rwp_bind, wp_query; [done|]. cbn [tx ticked set_tick]. rewrite (same_tx _ _ H4), E3.
  set (found := inbox_rows _ _ _ _ _ _).
  pose proof (page_exact c (who_subject who) (iq_include_expired q) (iq_after q) (wall n) (db s) Hok Hids) as Hp. cbv zeta in Hp.
  replace (mkInboxQuery (iq_after q) (iq_include_expired q)) with q in Hp by by destruct q. fold found in Hp.
  set (rows := map _ found). assert (Ef : map fst rows = found) by (unfold rows; rewrite map_map; apply map_id).
  set (s5 := ticked (ticked s4)). assert (T5 : (n < tick s5)%nat) by (cbn; lia). clearbody s5.
  apply wp_read; [apply reader_gate_rows|done|intros participants s6 H6]. cbv zeta. set (v := json_object _).
  apply rwp_bind, wp_deny; intros _; [done|].
  apply rwp_bind. eapply rwp_mono; [apply event_wp| |done]. cbn beta. intros _ s7 (F7 & _).
  apply wp_read; [apply reader_each; intros; apply reader_gate|done|intros _ s8 H8].
  apply wp_read; [apply reader_gate|done|intros _ s9 H9]. apply wp_read; [apply reader_recheck|done|intros _ s10 H10].
  apply rwp_bind, wp_commit; [done|]. apply wp_read; [apply reader_files|done|intros _ s11 H11].
  apply wp_read; [apply reader_recheck|done|intros _ s12 H12].
  apply wp_read; [destruct (if iq_include_expired q then None else _); [apply reader_bind; [apply reader_now|intros; apply reader_deny]|apply reader_ret]|done|intros _ s13 H13].
  apply rwp_ret. exists n, v, (take 25 found), (next_cursor found).
  pose proof (same_tick _ _ H4). pose proof (same_tick _ _ H6). pose proof (frame_tick _ _ F7). pose proof (same_tick _ _ H8).
  pose proof (same_tick _ _ H9). pose proof (same_tick _ _ H10). pose proof (same_tick _ _ H11). pose proof (same_tick _ _ H12).
  pose proof (same_tick _ _ H13). split; [cbn in *; unfold n in *; lia|]. split; [done|]. split; [|exact Hp].
  unfold v. rewrite page_listed, <- firstn_map, Ef. done.
Qed.
(** A successful request for the inbox has run [inbox] for the caller of its token. *)
Lemma handle_inbox c introspect request deadline s response s' :
  route_of (hr_path request) = Some Inbox ->
  handle directory_to_vec c introspect request deadline s = (Ok response, s') -> hp_status response < 400 ->
  exists token who q out s1 s2, bearer_of (hr_authorization request) = Some token /\
    authenticate c (introspect token) deadline s = (Ok who, s1) /\ same s s1 /\
    inbox_parse (hr_query request) = Some q /\ inbox directory_to_vec c who deadline q s1 = (Ok out, s2) /\
    hp_bytes response = out_bytes out /\ same s2 s'.
Proof.
  intros Hr H Hs. unfold handle, mbind, R_bind, reads in H.
  assert (Hdenied : forall st w i k s0, 400 <= st -> denied c st w i k s0 = (Ok response, s') -> False).
  { intros st w i k s0 Hst Hd. eapply wp_elim in Hd; [|by apply denied_wp]. cbn in Hd. lia. }
  destruct (fault s) eqn:Ef; [injection H as <- <-; cbn in Hs; lia|]. rewrite Hr in H.
  destruct (_ || hr_upgrade request); [by apply Hdenied in H|]. destruct (_ && (_ || _)); [by apply Hdenied in H|].
  destruct (bearer_of _) as [token|]; [|by apply Hdenied in H]. unfold catch in H at 1.
  pose proof (reader_authenticate c (introspect token) deadline s) as Hread.
  pose proof (refuses_authenticate c (introspect token) deadline s) as Href. unfold wp in Hread.
  destruct (authenticate c (introspect token) deadline s) as [[who|e] s1] eqn:Ha.
  2: { apply Hdenied in H; [done|]. apply auth_status_error. destruct e as [code|]; [|cbn; lia]. cbn. destruct (Href code s1 eq_refl). lia. }
  rewrite bool_decide_eq_true_2 in H by done. destruct (inbox_parse (hr_query request)) as [q|] eqn:Eq; [|by apply Hdenied in H].
  cbn [fmap option_fmap option_map] in H.
  destruct (target_of _ _ _) as [target|e] eqn:Et; [|apply Hdenied in H; [done|by eapply target_of_error]].
  destruct (hr_body request) as [bytes|]; [|by apply Hdenied in H]. destruct (_ <? _); [by apply Hdenied in H|].
  pose proof (refuses_dispatch directory_to_vec c who deadline Inbox (Some q) (bool_decide (hr_method request = PUT)) target bytes s1) as Hri.
  cbn [dispatch] in Hri. unfold locked, catch in H. destruct (fault s1); [cbn in H|].
  { destruct (denied _ _ _ _ _ _) as [[r|] s2] eqn:Ed in H; [|done]. injection H as -> ->. by apply Hdenied in Ed; [|lia]. }
  cbn [dispatch] in H. destruct (inbox directory_to_vec c who deadline q s1) as [[out|e] s2] eqn:Ei.
  - pose proof (reader_recheck who deadline s2) as Hre. pose proof (refuses_recheck who deadline s2) as Hrf. unfold wp in Hre.
    destruct (recheck who deadline s2) as [[u|e] s3].
    + injection H as <- <-. by exists token, who, q, out, s1, s2.
    + apply Hdenied in H; [done|]. destruct e as [code|]; [|cbn; lia]. cbn. destruct (Hrf code s3 eq_refl). lia.
  - destruct e as [code|]; cbn in H.
    + apply Hdenied in H; [done|]. destruct (Hri code s2 eq_refl). lia.
    + unfold raise_fault, modify in H. by apply Hdenied in H; [|lia].
Qed.

(** ** Following the cursors *)

(** A client that reads the JSON it is sent. *)
Variable client : list Z -> option (list string * option string).
Hypothesis client_reads : forall v, client (json_text v) = listed v.
Record Visit := mkVisit { vs_before : Relay; vs_after : Relay; vs_ids : list string }.
(** The answer to a request for the inbox under a token of [who], at a place. *)
Definition asks (c : Config) (who : string) (include_expired : bool) (after : option (Z * string)) (v : Visit)
    (next : option string) : Prop :=
  exists introspect request deadline response token identity s1,
    route_of (hr_path request) = Some Inbox /\ inbox_parse (hr_query request) = Some (mkInboxQuery after include_expired) /\
    bearer_of (hr_authorization request) = Some token /\
    authenticate c (introspect token) deadline (vs_before v) = (Ok identity, s1) /\ who_subject identity = who /\
    handle directory_to_vec c introspect request deadline (vs_before v) = (Ok response, vs_after v) /\
    hp_status response < 400 /\ client (hp_bytes response) = Some (vs_ids v, next).
(** A person follows the cursors from a place to the end, while the service goes on. *)
Inductive reading (c : Config) (who : string) (include_expired : bool) : option (Z * string) -> Relay -> list Visit -> Prop :=
  | reading_last after s v :
      rtc (step directory_to_vec c) s (vs_before v) -> asks c who include_expired after v None ->
      reading c who include_expired after s [v]
  | reading_more after s v text q visits :
      rtc (step directory_to_vec c) s (vs_before v) -> asks c who include_expired after v (Some text) ->
      inbox_fields None None [("cursor", text)] = Some q ->
      reading c who include_expired (iq_after q) (vs_after v) visits ->
      reading c who include_expired after s (v :: visits).
(** The rows that an answer lists. *)
Definition shows (c : Config) (who : string) (include_expired : bool) (v : Visit) (rows : list Request) : Prop :=
  vs_ids v = map rq_id rows /\ llen rows <= 25 /\
  exists n, (tick (vs_before v) <= n < tick (vs_after v))%nat /\
    forall r, r ∈ rows -> r ∈ requests (db (vs_before v)) /\ wanted c who include_expired (wall n) r = true.
(** The request with this key is there for the caller during the whole visit. *)
Definition stays (c : Config) (who : string) (include_expired : bool) (k : Z * string) (v : Visit) : Prop :=
  exists r, r ∈ requests (db (vs_before v)) /\ key_of r = k /\
    forall n, (tick (vs_before v) <= n < tick (vs_after v))%nat -> wanted c who include_expired (wall n) r = true.

Lemma asks_page c who include_expired after v next :
  store_ok c (db (vs_before v)) -> Forall canonical_id (requests (db (vs_before v))) ->
  asks c who include_expired after v next ->
  exists n rows, (tick (vs_before v) <= n < tick (vs_after v))%nat /\ vs_ids v = map rq_id rows /\
    inbox_page c who include_expired after (wall n) (db (vs_before v)) rows next.
Proof.
  intros Hok Hids (introspect & request & deadline & response & token & identity & s1 & Hr & Hq & Hb & Ha & <- & Hh & Hs & Hc).
  destruct (handle_inbox _ _ _ _ _ _ _ Hr Hh Hs) as (token' & who' & q & out & s1' & s2 & Hb' & Ha' & H1 & Hq' & Hi & Eb & H2).
  rewrite Hb in Hb'. injection Hb' as <-. rewrite Ha in Ha'. injection Ha' as <- <-. rewrite Hq in Hq'. injection Hq' as <-.
  rewrite <- (same_db _ _ H1) in Hok, Hids. eapply wp_elim in Hi; [|by apply inbox_answers].
  destruct Hi as (n & value & rows & next' & Hn & Eo & Hl & Hp). rewrite (same_db _ _ H1) in Hp.
  rewrite Eb, Eo, client_reads, Hl in Hc. injection Hc as E1 E2. rewrite E2 in Hp. exists n, rows. split; [|done].
  pose proof (same_tick _ _ H1). pose proof (same_tick _ _ H2). lia.
Qed.
(** After a place, the pages are in order, and every request that stays is on one. *)
Lemma reading_pages c who include_expired after s visits :
  store_ok c (db s) -> (forall v, v ∈ visits -> Forall canonical_id (requests (db (vs_before v)))) ->
  reading c who include_expired after s visits ->
  exists pages, Forall2 (shows c who include_expired) visits pages /\ ascending (concat pages) /\
    (forall r, r ∈ concat pages -> key_lt (default (-1, "") after) (key_of r) = true) /\
    (forall k, key_lt (default (-1, "") after) k = true -> (forall v, v ∈ visits -> stays c who include_expired k v) ->
     k ∈ map key_of (concat pages)).
Proof.
  intros Hok Hids Hread. revert Hok Hids.
  induction Hread as [after s v Hsteps Hask|after s v text q visits Hsteps Hask Hq Hread IH]; intros Hok Hids.
  all: assert (Hok0 : store_ok c (db (vs_before v))) by (eapply evolves_ok; [by eapply steps_evolve|done]).
  all: destruct (asks_page _ _ _ _ _ _ Hok0 (Hids v (list_elem_of_here _ _)) Hask) as (n & rows & Hn & Ei & [P1 P2 P3 P4 P5]).
  all: assert (Hshow : shows c who include_expired v rows) by
    (split; [done|]; split; [done|]; exists n; split; [done|]; intros r Hr; destruct (P2 r Hr) as (? & ? & _); done).
  - exists [rows]. cbn [concat]. rewrite app_nil_r. split; [constructor; [done|constructor]|]. split; [done|].
    split; [intros r Hr; by apply P2|]. intros k Hk Hs. destruct (Hs v (list_elem_of_here _ _)) as (r & Hr & <- & Hw).
    destruct (P4 r Hr (Hw n Hn) Hk) as [Hin|(? & ? & [=] & _)]. by apply list_elem_of_fmap_2.
  - assert (Hok1 : store_ok c (db (vs_after v))).
    { destruct Hask as (introspect & request & deadline & response & token & identity & s1 & _ & _ & _ & _ & _ & Hh & _).
      eapply evolves_ok; [|exact Hok0]. eapply steps_evolve, busy_steps. by eapply handle_walks. }
    destruct (P5 text eq_refl) as (l & El & El'). rewrite Hq in El'. injection El' as ->. cbn [iq_after default] in IH.
    destruct (IH Hok1) as (pages & F & A & B & C); [intros v' Hv'; apply Hids; by right|].
    assert (Hl : l ∈ rows) by by apply last_Some_elem_of.
    assert (Hbelow : forall r, r ∈ rows -> r = l \/ key_lt (key_of r) (key_of l) = true).
    { apply last_Some in El as [l' ->]. apply ascending_app in P1 as (_ & _ & P1). intros r [Hr|Hr]%elem_of_app; [right|left].
      - apply P1; [done|left].
      - by apply list_elem_of_singleton in Hr. }
    exists (rows :: pages). cbn [concat]. split; [by constructor|]. split.
    { apply ascending_app. split; [done|]. split; [done|]. intros a b Ha Hb'.
      destruct (Hbelow a Ha) as [->|Hlt]; [by apply B|]. eapply key_lt_trans; [exact Hlt|by apply B]. }
    split.
    { intros r [Hr|Hr]%elem_of_app; [by apply P2|]. eapply key_lt_trans; [by apply (P2 l Hl)|by apply B]. }
    intros k Hk Hs. rewrite map_app, elem_of_app. destruct (Hs v (list_elem_of_here _ _)) as (r & Hr & <- & Hw).
    destruct (P4 r Hr (Hw n Hn) Hk) as [Hin|(text' & l' & _ & El2 & Hlt)]; [left; by apply list_elem_of_fmap_2|right].
    rewrite El in El2. injection El2 as <-. apply C; [done|]. intros v' Hv'. apply Hs. by right.
Qed.

(** C17: a person follows the cursors of the inbox from the first page to the last, one
    request per page, and between and besides them the service takes any steps. Each
    answer lists at most 25 requests, all of them in the store and theirs to see at the
    reading of the clock of that answer. All pages together are in the strict order of
    arrival, so nothing comes twice, and every request that is theirs to see throughout
    each of the visits is on a page. The ids stored are canonical, as the routes admit
    them, and the client reads the JSON it is sent. A request that comes, goes or expires
    between the pages may be on one or not: the pages are no snapshot. *)
Theorem relay_inbox_pages_complete c who include_expired s visits :
  store_ok c (db s) -> (forall v, v ∈ visits -> Forall canonical_id (requests (db (vs_before v)))) ->
  reading c who include_expired None s visits ->
  exists pages, Forall2 (shows c who include_expired) visits pages /\ ascending (concat pages) /\
    (forall k, (forall v, v ∈ visits -> stays c who include_expired k v) -> k ∈ map key_of (concat pages)).
Proof.
  intros Hok Hids Hread. destruct (reading_pages _ _ _ _ _ _ Hok Hids Hread) as (pages & F & A & _ & C).
  exists pages. split; [done|]. split; [done|]. intros k Hs. apply C; [|done].
  assert (Hv : exists v, v ∈ visits /\ store_ok c (db (vs_before v))).
  { destruct Hread as [? ? v Hsteps _|? ? v ? ? ? Hsteps _ _ _]; exists v; (split; [left|]);
      (eapply evolves_ok; [by eapply steps_evolve|done]). }
  destruct Hv as (v & Hv & Hok'). destruct (Hs v Hv) as (r & Hr & <- & _).
  pose proof (ok_rows _ _ Hok') as Hrow. rewrite Forall_forall in Hrow. destruct (Hrow r Hr) as [_ _ Hclock _].
  unfold key_lt. cbn. apply orb_true_iff. left. lia.
Qed.
End WithLibraries.
End WithWorld.

(** ** Examples *)

Module InboxDemo.
Import RelayDemo.
(** The text of an answer is what a client takes from it; ids are numbers, and a query is
    empty or names a cursor. *)
Definition read_back (b : list Z) : option (list string * option string) :=
  match b with [Zpos p] => decode p ≫= id | _ => None end.
#[export] Instance inbox_libs : RelayLibs := {
  uuid_parse := parse_i64; uuid_text := dec_signed; url_parse := fun _ => None;
  form_parse := fun b => if b then [] else [("cursor", text_of (drop 7 b))];
  json_text := fun v => [Zpos (encode (listed v))];
  number_from_i64 := fun n => n; number_as_i64 := fun n => Some n;
}.
Lemma reads_back v : read_back (json_text v) = listed v.
Proof. cbn. by rewrite decode_encode. Qed.
(** Thirty requests, a page and five more. *)
Definition row (i : nat) : Request :=
  mkRequest (dec_signed (100 + Z.of_nat i)) "t1" "https://idp" "operator" "reviewer" "a1" [3] (sha [3]) (900000 + Z.of_nat i) 1300000 [42] None.
Definition full : Relay := set_db (set_requests (map row (seq 0 30)) (db polled)) polled.
Definition ask (query : option string) : HttpRequest :=
  mkHttpRequest "/v1/inbox" query GET false false [Some "Bearer up"] [] (Some []).
Definition visit (query : option string) (s : Relay) : Visit :=
  let a := handle directory_to_vec config introspect (ask query) 1000000000 s in
  mkVisit s a.2 (default [] (r ← match a.1 with Ok h => Some h | Err _ => None end; fst <$> read_back (hp_bytes r))).
Definition first : Visit := visit None full.
Definition second : Visit := visit (Some "cursor=900024:124") (vs_after first).
End InboxDemo.
Import RelayDemo InboxDemo.
Lemma set_requests_ok c d rows :
  store_ok c d -> NoDup (map rq_id rows) -> Forall row_ok rows -> llen rows <= MAX_REQUESTS ->
  blob_total (set_requests rows d) <= MAX_BLOBS -> store_ok c (set_requests rows d).
Proof. intros [_ _ _ _ H5 H6 H7 H8] R1 R2 R3 R4. split; [done..| |]; [exact H7|]. intros p Hp. by destruct (H8 p Hp). Qed.
Lemma full_ok : store_ok config (db full).
Proof.
  apply set_requests_ok; [exact demo_polled_ok| | |by vm_compute|by vm_compute].
  - apply (bool_decide_unpack _). vm_compute. exact I.
  - apply Forall_map, Forall_forall. intros i Hi%elem_of_seq. split; cbn; [done|lia|unfold i64_max; lia|done].
Qed.
Lemma full_ids : Forall canonical_id (map row (seq 0 30)).
Proof.
  assert (E : forallb (fun r => canonical_uuid (rq_id r) && (slen (rq_id r) <=? 36)) (map row (seq 0 30)) = true)
    by (vm_compute; reflexivity).
  apply Forall_forall. intros r Hr%list_elem_of_In. rewrite forallb_forall in E. apply E in Hr.
  by apply andb_true_iff in Hr as [H1 H2%Z.leb_le].
Qed.
Lemma full_after : requests (db (vs_after first)) = map row (seq 0 30).
Proof. vm_compute. reflexivity. Qed.
Lemma visit_asks query after next s :
  inbox_parse query = Some (mkInboxQuery after false) ->
  match (authenticate config (introspect "up") 1000000000 s).1 with Ok who => str_eqb (who_subject who) "operator" | Err _ => false end = true ->
  match (handle directory_to_vec config introspect (ask query) 1000000000 s).1 with
  | Ok h => (hp_status h <? 400) && bool_decide (snd <$> read_back (hp_bytes h) = Some next)
  | Err _ => false
  end = true ->
  asks directory_to_vec read_back config "operator" false after (visit query s) next.
Proof.
  intros Hq Ha Hh. unfold visit.
  destruct (authenticate _ _ _ s) as [[who|] s1] eqn:Ea; [|done]. cbn [fst] in Ha. apply bool_decide_eq_true in Ha.
  destruct (handle _ _ _ _ _ s) as [[h|] s2] eqn:Eh; [|done]. cbn [fst snd] in *.
  apply andb_true_iff in Hh as [Hs%Z.ltb_lt Hc%bool_decide_eq_true].
  exists introspect, (ask query), 1000000000, h, "up", who, s1. cbn [vs_before vs_after vs_ids].
  split_and!; try done. cbn [mbind option_bind]. destruct (read_back (hp_bytes h)) as [[ids n]|]; [|done]. by injection Hc as <-.
Qed.
Lemma visit_before query s : vs_before (visit query s) = s.
Proof. reflexivity. Qed.
Lemma second_before : vs_before second = vs_after first.
Proof. apply visit_before. Qed.
Lemma last_row_stays v :
  row 29 ∈ requests (db (vs_before v)) -> (tick (vs_after v) <= 1000)%nat -> stays config "operator" false (900029, "129") v.
Proof.
  intros Hr Ht. exists (row 29). split; [done|]. split; [by vm_compute|]. intros n Hn. unfold wanted, unexpired.
  replace (visible config "operator" (approver_of config "operator") (row 29)) with true by (vm_compute; reflexivity).
  cbn [andb orb rq_expires rq_grant row]. rewrite andb_true_r. apply Z.ltb_lt. unfold wall. cbn [since_epoch demo_world].
  assert (Hn' : (n < 1000)%nat) by lia. unfold i64_max. destruct (_ <=? _) eqn:E; [lia|]. apply Z.leb_gt in E. lia.
Qed.
(** Two pages of thirty requests: 25 and the other five. *)
Lemma relay_inbox_pages_complete_witness :
  vs_ids second = ["125"; "126"; "127"; "128"; "129"] /\
  exists pages, Forall2 (shows config "operator" false) [first; second] pages /\ (900029, "129") ∈ map key_of (concat pages).
Proof.
  split; [vm_compute; reflexivity|].
  assert (Hread : reading directory_to_vec read_back config "operator" false None full [first; second]).
  { eapply (reading_more _ _ _ _ _ _ _ _ "900024:124" (mkInboxQuery (Some (900024, "124")) false)); [apply rtc_refl| | |].
    - apply (visit_asks None); vm_compute; reflexivity.
    - vm_compute. reflexivity.
    - apply reading_last; [rewrite second_before; apply rtc_refl|]. apply (visit_asks (Some "cursor=900024:124")); vm_compute; reflexivity. }
  assert (Hrows : forall v, v ∈ [first; second] -> requests (db (vs_before v)) = map row (seq 0 30) /\ (tick (vs_after v) <= 1000)%nat).
  { intros v [->|[->|[]%not_elem_of_nil]%elem_of_cons]%elem_of_cons; (split; [rewrite ?second_before; first [exact full_after|reflexivity]|]);
      apply Nat.leb_le; vm_compute; reflexivity. }
  destruct (relay_inbox_pages_complete directory_to_vec read_back reads_back config "operator" false full [first; second] full_ok)
    as (pages & F & _ & C); [intros v Hv; rewrite (proj1 (Hrows v Hv)); exact full_ids|exact Hread|].
  exists pages. split; [exact F|]. apply C. intros v Hv. destruct (Hrows v Hv) as [E Ht].
  apply last_row_stays; [|exact Ht]. rewrite E. apply (list_elem_of_fmap_2 row). apply elem_of_seq. lia.
Defined.
