(* ===== verification/Frame.v ===== *)
(** * Frame: the wire protocol

    [rekey-domain/src/ipc.rs], lines 21-404 and 465-484 (headers, management
    tokens, step-up proofs), and [rekey-broker/src/ipc/frame.rs], lines 19-110
    (reading and writing one frame). A byte is a [Z] in [0, 256); a stream is the
    bytes it delivers before end of file. IO errors and deadlines other than end
    of file, which abandon the connection, are left out. *)

From S2P Require Import Prelude Errors Domain.

Definition FRAME_MAGIC : list Z := [82; 75; 73; 80].
Definition FRAME_VERSION : Z := 1.
Definition FRAME_HEADER_LEN : Z := 36.
Definition METADATA_MAX_BYTES : Z := 64 * 1024.
Definition ADMIN_SECRET_FIELD_MAX_BYTES : Z := 64 * 1024.
Definition AGENT_BODY_MAX_BYTES : Z := 1024 * 1024.
Definition RESPONSE_BODY_MAX_BYTES : Z := 4 * 1024 * 1024.

Inductive Channel : Type := Admin | Agent.
#[export] Instance Channel_eq_dec : EqDecision Channel.
Proof. solve_decision. Defined.

Definition channel_code (c : Channel) : Z := match c with Admin => 1 | Agent => 2 end.
Definition channel_from_code (code : Z) : result FrameError Channel :=
  if code =? 1 then Ok Admin else if code =? 2 then Ok Agent else Err UnknownChannel.

Record FrameHeader := mkFrameHeader {
  channel : Channel;
  flags : Z;
  message_type : Z;
  request_id : RequestId;
  metadata_len : Z;
  body_len : Z;
}.

(** Fields at their widths; an id is never nil. *)
Definition header_fits (h : FrameHeader) : Prop :=
  is_byte (flags h) /\ 0 <= message_type h < 2 ^ 16 /\ 0 < request_id h < 2 ^ 128 /\
  in_u32 (metadata_len h) /\ in_u32 (body_len h).

(** [FrameHeader::encode]: magic, version, channel, flags, type, reserved, id,
    lengths. *)
Definition encode (h : FrameHeader) : list Z :=
  FRAME_MAGIC ++ be_bytes 2 FRAME_VERSION ++ [channel_code (channel h)] ++ [flags h]
  ++ be_bytes 2 (message_type h) ++ [0; 0] ++ id_as_bytes (request_id h)
  ++ be_bytes 4 (metadata_len h) ++ be_bytes 4 (body_len h).

(** [&buf[a..a + n]], within bounds. *)
Definition slice (a n : nat) (buf : list Z) : list Z := take n (drop a buf).
Definition byte_at (i : nat) (buf : list Z) : Z := nth i buf 0.

(** [FrameHeader::decode] on a buffer of [FRAME_HEADER_LEN] bytes. *)
Definition decode (buf : list Z) : result FrameError FrameHeader :=
  reject_if negb (bool_decide (slice 0 4 buf = FRAME_MAGIC)) with BadMagic ;;
  reject_if negb (be_value (slice 4 2 buf) =? FRAME_VERSION) with UnsupportedVersion ;;
  channel ← channel_from_code (byte_at 6 buf);
  let flags := byte_at 7 buf in
  reject_if negb (flags =? 0) with InvalidField ;;
  let message_type := be_value (slice 8 2 buf) in
  reject_if negb (byte_at 10 buf =? 0) || negb (byte_at 11 buf =? 0) with NonZeroReserved ;;
  request_id ← map_err (fun _ => InvalidField) (id_from_bytes (slice 12 16 buf));
  let metadata_len := be_value (slice 28 4 buf) in
  let body_len := be_value (slice 32 4 buf) in
  reject_if METADATA_MAX_BYTES <? metadata_len with SectionTooLarge ;;
  Ok (mkFrameHeader channel flags message_type request_id metadata_len body_len).

(** [managed_admin_operation]: whether a management session may send it. *)
Definition managed_admin_operation (message_type : Z) : result FrameError bool :=
  if bool_decide (message_type ∈ [72; 71; 70; 68; 69; 67; 66]) then Ok false
  else if negb ((1 <=? message_type) && (message_type <=? 64)) then Err InvalidField
  else Ok (negb (bool_decide (message_type ∈ [1; 2; 3; 15; 16; 31; 34; 36; 45; 46; 47; 48; 61]))).

(** ** Management bodies *)

Definition char_byte (b : Z) : ascii := ascii_of_N (Z.to_N b).
Definition is_token_byte (b : Z) : bool :=
  is_ascii_alphanumeric (char_byte b) || (b =? 45) || (b =? 95).
(** The sixteen characters a 43-character encoding of 32 bytes may end with. *)
Definition TOKEN_TAIL : list Z :=
  [65; 69; 73; 77; 81; 85; 89; 99; 103; 107; 111; 115; 119; 48; 52; 56].

Definition validate_management_token (token : list Z) : result FrameError unit :=
  reject_if negb (llen token =? 43) || negb (forallb is_token_byte token)
            || negb (bool_decide (byte_at 42 token ∈ TOKEN_TAIL)) with InvalidField ;;
  Ok tt.

Definition MANAGEMENT_PREFIX : list Z := [82; 75; 65; 85; 1; 0; 43].

Definition encode_management_body (token body : list Z) : result FrameError (list Z) :=
  _ ← validate_management_token token;
  Ok (MANAGEMENT_PREFIX ++ token ++ body).

(** [body.get(a..b)]. *)
Definition get_range (a b : Z) (body : list Z) : option (list Z) :=
  if (a <=? b) && (b <=? llen body)
  then Some (take (Z.to_nat (b - a)) (drop (Z.to_nat a) body)) else None.

Definition parse_management_body (body : list Z) : result FrameError (list Z * list Z) :=
  reject_if negb (bool_decide (get_range 0 7 body = Some MANAGEMENT_PREFIX)) with InvalidField ;;
  token ← ok_or Truncated (get_range 7 50 body);
  _ ← validate_management_token token;
  Ok (token, drop 50 body).

(** ** Step-up proofs *)

Inductive ProofKind : Type := Password | Recovery | Presence.
#[export] Instance ProofKind_eq_dec : EqDecision ProofKind.
Proof. solve_decision. Defined.

Definition proof_code (k : ProofKind) : Z :=
  match k with Password => 1 | Recovery => 2 | Presence => 3 end.
Definition proof_from_code (code : Z) : result FrameError ProofKind :=
  if code =? 1 then Ok Password else if code =? 2 then Ok Recovery
  else if code =? 3 then Ok Presence else Err InvalidField.

(** [x.len() as u32]. *)
Definition len_u32 (l : list Z) : Z := llen l mod 2 ^ 32.

Definition encode_proof_body (kind : ProofKind) (proof : list Z) : list Z :=
  proof_code kind :: be_bytes 4 (len_u32 proof) ++ proof.
Definition encode_proof_and_secret_body (kind : ProofKind) (proof secret : list Z) : list Z :=
  encode_proof_body kind proof ++ be_bytes 4 (len_u32 secret) ++ secret.

Definition read_u32 (body : list Z) (at_ : Z) : result FrameError Z :=
  bytes ← ok_or Truncated (get_range at_ (at_ + 4) body);
  Ok (be_value bytes).

Definition parse_proof_body (body : list Z) : result FrameError (ProofKind * list Z) :=
  first ← ok_or Truncated (head body);
  kind ← proof_from_code first;
  plen ← read_u32 body 1;
  reject_if ADMIN_SECRET_FIELD_MAX_BYTES <? plen with SectionTooLarge ;;
  proof ← ok_or Truncated (get_range 5 (5 + plen) body);
  reject_if negb (llen body =? 5 + plen) with InvalidField ;;
  Ok (kind, proof).

Definition parse_local_approval_proof_body (body : list Z)
  : result FrameError (ProofKind * list Z) :=
  '(kind, proof) ← parse_proof_body body;
  reject_if negb (bool_decide (kind = Presence \/ kind = Password)) || bool_decide (proof = [])
    with InvalidField ;;
  Ok (kind, proof).

Definition parse_proof_and_secret_body (body : list Z)
  : result FrameError (ProofKind * list Z * list Z) :=
  first ← ok_or Truncated (head body);
  kind ← proof_from_code first;
  plen ← read_u32 body 1;
  reject_if ADMIN_SECRET_FIELD_MAX_BYTES <? plen with SectionTooLarge ;;
  proof ← ok_or Truncated (get_range 5 (5 + plen) body);
  slen ← read_u32 body (5 + plen);
  reject_if ADMIN_SECRET_FIELD_MAX_BYTES <? slen with SectionTooLarge ;;
  secret ← ok_or Truncated (get_range (9 + plen) (9 + plen + slen) body);
  reject_if negb (llen body =? 9 + plen + slen) with InvalidField ;;
  Ok (kind, proof, secret).

(** ** Reading and writing a frame (frame.rs) *)

Inductive FrameIoError : Type :=
  | Closed
  | Frame (e : FrameError)
  | InboundSectionTooLarge (id : RequestId).

Record IncomingFrame := mkIncomingFrame {
  frame_header : FrameHeader;
  frame_metadata : list Z;
  frame_body : list Z;
}.

(** [stream.read_exact] of [n] bytes: the bytes and the rest of the stream. *)
Definition read_exact (n : Z) (stream : list Z) : result FrameIoError (list Z * list Z) :=
  if n <=? llen stream
  then Ok (take (Z.to_nat n) stream, drop (Z.to_nat n) stream)
  else Err Closed.

Definition read_frame (stream : list Z) (expected_channel : Channel)
    (max_body_for_message : Z -> Z) : result FrameIoError (IncomingFrame * list Z) :=
  '(header_buf, stream) ← read_exact FRAME_HEADER_LEN stream;
  header ← map_err Frame (decode header_buf);
  reject_if negb (bool_decide (channel header = expected_channel)) with Frame UnknownChannel ;;
  reject_if (METADATA_MAX_BYTES <? metadata_len header)
            || (max_body_for_message (message_type header) <? body_len header)
    with InboundSectionTooLarge (request_id header) ;;
  '(metadata, stream) ← read_exact (metadata_len header) stream;
  '(body, stream) ← read_exact (body_len header) stream;
  Ok (mkIncomingFrame header metadata body, stream).

(** [write_frame]: the bytes sent. *)
Definition write_frame (ch : Channel) (message_type : Z) (request_id : RequestId)
    (metadata body : list Z) : result FrameIoError (list Z) :=
  reject_if u32_max <? llen metadata with Frame SectionTooLarge ;;
  reject_if u32_max <? llen body with Frame SectionTooLarge ;;
  reject_if (METADATA_MAX_BYTES <? llen metadata) || (RESPONSE_BODY_MAX_BYTES <? llen body)
    with Frame SectionTooLarge ;;
  Ok (encode (mkFrameHeader ch 0 message_type request_id (llen metadata) (llen body))
      ++ metadata ++ body).

(** ** Headers *)

Lemma channel_code_from c : channel_from_code (channel_code c) = Ok c.
Proof. by destruct c. Qed.
Lemma channel_from_code_Ok z c : channel_from_code z = Ok c -> channel_code c = z.
Proof. unfold channel_from_code. intros H. by walk H. Qed.

Lemma length_encode h : length (encode h) = 36%nat.
Proof.
  unfold encode, id_as_bytes. rewrite !length_app, !length_be_bytes. reflexivity.
Qed.

Lemma slice_app a n l1 l2 l3 :
  length l1 = a -> length l2 = n -> slice a n (l1 ++ l2 ++ l3) = l2.
Proof.
  intros <- <-. unfold slice. rewrite drop_app_length. by rewrite take_app_length.
Qed.

Lemma decode_encode_lemma h :
  header_fits h -> flags h = 0 -> metadata_len h <= METADATA_MAX_BYTES ->
  decode (encode h) = Ok h.
Proof.
  destruct h as [ch fl mt id ml bl]. intros (Hf & Hm & Hi & Hml & Hbl) Hfl Hmax.
  cbn [channel flags message_type request_id metadata_len body_len] in *.
  subst fl. unfold in_u32, u32_max in *.
  destruct (be_bytes 2 mt) as [|m1 [|m2 [|]]] eqn:Em;
    try (apply (f_equal length) in Em; rewrite length_be_bytes in Em; discriminate).
  destruct (be_bytes 4 ml) as [|x1 [|x2 [|x3 [|x4 [|]]]]] eqn:Ex;
    try (apply (f_equal length) in Ex; rewrite length_be_bytes in Ex; discriminate).
  destruct (be_bytes 4 bl) as [|y1 [|y2 [|y3 [|y4 [|]]]]] eqn:Ey;
    try (apply (f_equal length) in Ey; rewrite length_be_bytes in Ey; discriminate).
  unfold encode. cbn [message_type metadata_len body_len request_id channel flags].
  rewrite Em, Ex, Ey. set (ids := id_as_bytes id).
  assert (Hl : length ids = 16%nat) by apply length_be_bytes.
  assert (Hv : be_value ids = id) by (apply be_value_bytes; lia).
  do 16 (destruct ids as [|? ids]; [discriminate|]). destruct ids; [|discriminate].
  unfold decode. cbn [app slice drop take byte_at nth FRAME_MAGIC be_bytes].
  rewrite channel_code_from. unfold id_from_bytes.
  change (take 16 _) with (take 16 (A := Z)). unfold slice. cbn [drop take app].
  rewrite Hv, <- Em, <- Ex, <- Ey, !be_value_bytes by (cbn; lia).
  cbn [mbind result_bind]. rewrite bool_decide_eq_true_2 by done. cbn.
  replace (id =? 0) with false by lia. cbn.
  by replace (METADATA_MAX_BYTES <? ml) with false by lia.
Qed.


Lemma bytes_parts n l : length l = n -> Forall is_byte l -> be_bytes n (be_value l) = l.
Proof. intros <-. apply be_bytes_value. Qed.

Ltac byte_list := repeat (apply Forall_cons_2; [assumption|]); apply Forall_nil_2.

Lemma decode_canonical_lemma buf h :
  length buf = 36%nat -> Forall is_byte buf -> decode buf = Ok h ->
  encode h = buf /\ header_fits h /\ flags h = 0 /\ metadata_len h <= METADATA_MAX_BYTES.
Proof.
  intros Hl Hb. do 36 (destruct buf as [|? buf]; [discriminate|]). destruct buf; [|discriminate].
  repeat (apply Forall_cons in Hb as [? Hb]). clear Hb Hl.
  unfold decode, id_from_bytes, slice. cbn [drop take byte_at nth].
  intros Hd. destruct (negb (bool_decide _)) eqn:E1; [done|].
  destruct (negb (_ =? FRAME_VERSION)) eqn:E2; [done|].
  destruct (channel_from_code _) as [c|] eqn:E3; [|done]. cbn [mbind result_bind] in Hd.
  destruct (negb (_ =? 0)) eqn:E4; [done|]. destruct (negb (_ =? 0) || _) eqn:E5; [done|].
  destruct (_ =? 0) eqn:E6 in Hd; [done|]. cbn [map_err mbind result_bind] in Hd.
  destruct (METADATA_MAX_BYTES <? _) eqn:E7; [done|]. reflect_bools. injection Hd as <-.
  apply channel_from_code_Ok in E3. unfold FRAME_MAGIC in *. simplify_eq.
  split.
  - unfold encode, id_as_bytes. cbn [channel flags message_type request_id metadata_len body_len].
    rewrite !bytes_parts by (reflexivity || byte_list).
    match goal with E : be_value [?a; ?b] = FRAME_VERSION |- _ =>
      rewrite <- E, (bytes_parts 2 [a; b]) by (reflexivity || byte_list) end.
    cbn [app]. subst. done.
  - assert (Hr : forall l, Forall is_byte l -> 0 <= be_value l < 256 ^ llen l) by apply be_value_range.
    unfold header_fits, in_u32, u32_max. cbn [channel flags message_type request_id metadata_len body_len].
    split_and!; try done; try lia;
      match goal with |- context [be_value ?l] =>
        specialize (Hr l ltac:(byte_list)); unfold llen in Hr; cbn -[be_value] in Hr; lia end.
Qed.

(** a frame header is decoded exactly from its own encoding: a 36-byte buffer
    decodes to [h] if and only if it is the encoding of [h] and [h] is well
    formed (fields at their widths, no flags, a non-nil id, metadata within the
    limit). So no two buffers carry the same header and nothing is ignored. *)
Theorem frame_header_canonical buf h :
  length buf = 36%nat -> Forall is_byte buf ->
  decode buf = Ok h <->
  header_fits h /\ flags h = 0 /\ metadata_len h <= METADATA_MAX_BYTES /\ buf = encode h.
Proof.
  intros Hl Hb. split.
  - intros H. by destruct (decode_canonical_lemma _ _ Hl Hb H) as (? & ? & ? & ?).
  - intros (Hf & Hz & Hm & ->). by apply decode_encode_lemma.
Qed.

(** ** Frames *)

Lemma read_exact_app a b : read_exact (llen a) (a ++ b) = Ok (a, b).
Proof.
  unfold read_exact, llen. rewrite length_app.
  rewrite (proj2 (Z.leb_le _ _)) by lia. rewrite Nat2Z.id. by rewrite take_app_length, drop_app_length.
Qed.

Lemma read_exact_Ok n s a b :
  0 <= n -> read_exact n s = Ok (a, b) -> s = a ++ b /\ llen a = n.
Proof.
  unfold read_exact, llen. intros Hn H. destruct (_ <=? _) eqn:E; [|done]. simplify_eq.
  reflect_bools. split; [by rewrite take_drop|]. rewrite length_take. lia.
Qed.

Lemma write_frame_fits ch mt id (md body : list Z) :
  0 <= mt < 2 ^ 16 -> 0 < id < 2 ^ 128 ->
  llen md <= METADATA_MAX_BYTES -> llen body <= RESPONSE_BODY_MAX_BYTES ->
  decode (encode (mkFrameHeader ch 0 mt id (llen md) (llen body))) =
  Ok (mkFrameHeader ch 0 mt id (llen md) (llen body)).
Proof.
  intros Hm Hi Hmd Hb. apply decode_encode_lemma; [|done|done].
  unfold METADATA_MAX_BYTES, RESPONSE_BODY_MAX_BYTES, llen in *.
  unfold header_fits, is_byte, in_u32, u32_max.
  cbn [flags message_type request_id metadata_len body_len]. lia.
Qed.

(** what [write_frame] sends, [read_frame] receives: the reader gets back the
    same channel, message type, request id, metadata and body, and leaves the
    rest of the stream, whatever follows on the connection. *)
Theorem frame_write_read ch mt id md body max bytes rest :
  0 <= mt < 2 ^ 16 -> 0 < id < 2 ^ 128 -> llen body <= max mt ->
  write_frame ch mt id md body = Ok bytes ->
  read_frame (bytes ++ rest) ch max =
  Ok (mkIncomingFrame (mkFrameHeader ch 0 mt id (llen md) (llen body)) md body, rest).
Proof.
  intros Hm Hi Hmax. unfold write_frame. intros H.
  destruct (u32_max <? llen md); [done|]. destruct (u32_max <? llen body); [done|].
  destruct (_ || _) eqn:E; [done|].
  assert (encode (mkFrameHeader ch 0 mt id (llen md) (llen body)) ++ md ++ body = bytes) as <-
    by congruence.
  reflect_bools. unfold read_frame. change FRAME_HEADER_LEN with (Z.of_nat 36).
  rewrite <- (length_encode (mkFrameHeader ch 0 mt id (llen md) (llen body))).
  change (Z.of_nat (length ?l)) with (llen l). rewrite <- !app_assoc, read_exact_app.
  cbn [mbind result_bind]. rewrite write_frame_fits by done. cbn [map_err mbind result_bind].
  cbn [channel message_type metadata_len body_len request_id].
  rewrite bool_decide_eq_true_2 by done. cbn [negb].
  replace (METADATA_MAX_BYTES <? llen md) with false by lia.
  replace (max mt <? llen body) with false by lia. cbn [orb].
  rewrite read_exact_app. cbn [mbind result_bind]. by rewrite read_exact_app.
Qed.

(** a frame is read only within its limits and byte for byte. Whatever the peer
    sends, an accepted frame is on the expected channel, has at most 64 KiB of
    metadata and no more body than its message type allows, and is exactly the
    bytes consumed: the header's encoding, the metadata, the body. *)
Theorem frame_read_bounded stream ch max f rest :
  Forall is_byte stream -> read_frame stream ch max = Ok (f, rest) ->
  channel (frame_header f) = ch /\
  llen (frame_metadata f) <= METADATA_MAX_BYTES /\
  llen (frame_body f) <= max (message_type (frame_header f)) /\
  stream = encode (frame_header f) ++ frame_metadata f ++ frame_body f ++ rest.
Proof.
  intros Hs H. unfold read_frame in H.
  destruct (read_exact FRAME_HEADER_LEN stream) as [[hb s1]|] eqn:E1; [|done].
  cbn [mbind result_bind] in H.
  destruct (decode hb) as [h|] eqn:E2; [|done]. cbn [map_err mbind result_bind] in H.
  destruct (negb _) eqn:E3; [done|]. destruct (_ || _) eqn:E4; [done|].
  apply read_exact_Ok in E1 as [-> Hl]; [|unfold FRAME_HEADER_LEN; lia].
  apply Forall_app in Hs as [Hhb Hs1].
  apply decode_canonical_lemma in E2 as (Henc & (_ & _ & _ & [Hml _] & [Hbl _]) & _ & Hmax);
    [|unfold llen, FRAME_HEADER_LEN in Hl; lia|done].
  destruct (read_exact (metadata_len h) s1) as [[md s2]|] eqn:E5; [|done].
  cbn [mbind result_bind] in H.
  destruct (read_exact (body_len h) s2) as [[body s3]|] eqn:E6; [|done].
  cbn [mbind result_bind] in H. simplify_eq. cbn.
  apply read_exact_Ok in E5 as [-> Hmd]; [|done]. apply read_exact_Ok in E6 as [-> Hb]; [|done].
  reflect_bools. split_and!; try done; lia.
Qed.

(** ** Proof bodies *)

Lemma get_range_app a m b :
  get_range (llen a) (llen a + llen m) (a ++ m ++ b) = Some m.
Proof.
  unfold get_range, llen. rewrite !length_app.
  rewrite !(proj2 (Z.leb_le _ _)) by lia. cbn [andb].
  replace (Z.to_nat (Z.of_nat (length a) + Z.of_nat (length m) - Z.of_nat (length a)))
    with (length m) by lia.
  rewrite Nat2Z.id. by rewrite drop_app_length, take_app_length.
Qed.

Lemma get_range_Some a b l m :
  0 <= a -> get_range a b l = Some m ->
  exists pre post, l = pre ++ m ++ post /\ llen pre = a /\ llen m = b - a.
Proof.
  unfold get_range, llen. intros Ha H. destruct (_ && _) eqn:E; [|done]. simplify_eq.
  reflect_bools. exists (take (Z.to_nat a) l), (drop (Z.to_nat (b - a)) (drop (Z.to_nat a) l)).
  rewrite !take_drop. split; [done|]. rewrite !length_take, length_drop. lia.
Qed.

Lemma read_u32_app a v b :
  in_u32 v -> read_u32 (a ++ be_bytes 4 v ++ b) (llen a) = Ok v.
Proof.
  unfold in_u32, u32_max. intros Hv. unfold read_u32.
  replace (llen a + 4) with (llen a + llen (be_bytes 4 v)) by (unfold llen; by rewrite length_be_bytes).
  rewrite get_range_app. cbn [ok_or mbind result_bind]. f_equal. apply be_value_bytes. cbn. lia.
Qed.

Lemma read_u32_Ok l at_ v :
  0 <= at_ -> Forall is_byte l -> read_u32 l at_ = Ok v ->
  in_u32 v /\ exists pre post, l = pre ++ be_bytes 4 v ++ post /\ llen pre = at_.
Proof.
  intros Ha Hb. unfold read_u32. destruct (get_range _ _ _) as [m|] eqn:E; [|done].
  cbn [ok_or mbind result_bind]. intros H. assert (be_value m = v) as <- by congruence.
  apply get_range_Some in E as (pre & post & -> & Hp & Hm); [|done].
  apply Forall_app in Hb as [_ [Hm' _]%Forall_app].
  assert (Hl : length m = 4%nat) by (unfold llen in Hm; lia).
  pose proof (be_value_range m Hm') as Hr. unfold llen in Hr. rewrite Hl in Hr. change (256 ^ Z.of_nat 4) with (2 ^ 32) in Hr.
  split; [unfold in_u32, u32_max; lia|]. exists pre, post. by rewrite bytes_parts.
Qed.

Lemma proof_code_from k : proof_from_code (proof_code k) = Ok k.
Proof. by destruct k. Qed.
Lemma proof_from_code_Ok z k : proof_from_code z = Ok k -> proof_code k = z.
Proof. unfold proof_from_code. intros H. by walk H. Qed.

Lemma len_u32_small l : llen l <= ADMIN_SECRET_FIELD_MAX_BYTES -> len_u32 l = llen l /\ in_u32 (llen l).
Proof.
  unfold len_u32, llen, ADMIN_SECRET_FIELD_MAX_BYTES, in_u32, u32_max. intros Hl.
  rewrite Z.mod_small by lia. lia.
Qed.

Lemma app_inv_llen {A} (a a' b b' : list A) :
  a ++ b = a' ++ b' -> llen a = llen a' -> a = a' /\ b = b'.
Proof. intros E Hl. apply app_inj_1; [unfold llen in Hl; lia|done]. Qed.

Lemma llen_be_bytes n v : llen (be_bytes n v) = Z.of_nat n.
Proof. unfold llen. by rewrite length_be_bytes. Qed.

(** A length-prefixed field at the end of a known prefix: parsed and accepted. *)
Lemma field_parsed l a r n p :
  Forall is_byte l -> l = a ++ r -> read_u32 l (llen a) = Ok n ->
  get_range (llen a + 4) (llen a + 4 + n) l = Some p ->
  llen p = n /\ exists rest, r = be_bytes 4 n ++ p ++ rest.
Proof.
  intros Hb -> Hr Hg. apply read_u32_Ok in Hr as ([Hn _] & pre & post & E1 & L1);
    [|unfold llen; lia|done].
  apply app_inv_llen in E1 as [<- ->]; [|done].
  apply get_range_Some in Hg as (pre2 & post2 & E2 & L2 & L3); [|unfold llen; lia].
  split; [lia|]. exists post2. rewrite app_assoc in E2.
  apply app_inv_llen in E2 as [_ ->]; [done|]. rewrite llen_app, llen_be_bytes. lia.
Qed.

Lemma field_accepted a p rest :
  in_u32 (llen p) ->
  let l := a ++ be_bytes 4 (llen p) ++ p ++ rest in
  read_u32 l (llen a) = Ok (llen p) /\ get_range (llen a + 4) (llen a + 4 + llen p) l = Some p.
Proof.
  intros Hp. cbv zeta. split; [by apply read_u32_app|].
  rewrite app_assoc. replace (llen a + 4) with (llen (a ++ be_bytes 4 (llen p)))
    by (rewrite llen_app, llen_be_bytes; lia). apply get_range_app.
Qed.

Lemma proof_secret_parsed body kind proof secret :
  Forall is_byte body -> parse_proof_and_secret_body body = Ok (kind, proof, secret) ->
  body = encode_proof_and_secret_body kind proof secret /\
  llen proof <= ADMIN_SECRET_FIELD_MAX_BYTES /\ llen secret <= ADMIN_SECRET_FIELD_MAX_BYTES.
Proof.
  intros Hb H. unfold parse_proof_and_secret_body in H.
  destruct body as [|first r]; [done|]. cbn [head ok_or mbind result_bind] in H.
  destruct (proof_from_code first) as [k|] eqn:Ek; [|done]. cbn [mbind result_bind] in H.
  destruct (read_u32 _ 1) as [n|] eqn:E1; [|done]. cbn [mbind result_bind] in H.
  destruct (_ <? n) eqn:E2; [done|].
  destruct (get_range 5 _ _) as [p|] eqn:E3; [|done]. cbn [ok_or mbind result_bind] in H.
  destruct (read_u32 _ (5 + n)) as [m|] eqn:E4; [|done]. cbn [mbind result_bind] in H.
  destruct (_ <? m) eqn:E5; [done|].
  destruct (get_range (9 + n) _ _) as [q|] eqn:E6; [|done]. cbn [ok_or mbind result_bind] in H.
  destruct (negb _) eqn:E7; [done|]. simplify_eq. reflect_bools.
  apply proof_from_code_Ok in Ek. subst first.
  destruct (field_parsed _ [proof_code kind] r n proof Hb eq_refl E1 E3) as (L1 & r1 & R1).
  assert (B : proof_code kind :: r = ([proof_code kind] ++ be_bytes 4 n ++ proof) ++ r1)
    by (rewrite R1; by rewrite <- !app_assoc).
  assert (La : llen ([proof_code kind] ++ be_bytes 4 n ++ proof) = 5 + n)
    by (rewrite !llen_app, llen_be_bytes; unfold llen at 1; cbn; lia).
  destruct (field_parsed _ _ r1 m secret Hb B) as (L2 & r2 & R2); rewrite ?La;
    [done|by replace (5 + n + 4) with (9 + n) by lia|].
  assert (r2 = []) as ->.
  { rewrite B, llen_app, La, R2, !llen_app, llen_be_bytes in E7. destruct r2; [done|].
    unfold llen in *. cbn in E7. lia. }
  rewrite app_nil_r in R2. subst n m.
  unfold encode_proof_and_secret_body, encode_proof_body.
  destruct (len_u32_small proof) as [-> _]; [lia|]. destruct (len_u32_small secret) as [-> _]; [lia|].
  rewrite R1, R2. split; [cbn [app]; by rewrite <- app_assoc|]. lia.
Qed.

Lemma proof_secret_accepted kind proof secret :
  llen proof <= ADMIN_SECRET_FIELD_MAX_BYTES -> llen secret <= ADMIN_SECRET_FIELD_MAX_BYTES ->
  parse_proof_and_secret_body (encode_proof_and_secret_body kind proof secret)
  = Ok (kind, proof, secret).
Proof.
  intros Hp Hs. unfold encode_proof_and_secret_body, encode_proof_body.
  destruct (len_u32_small proof Hp) as [-> Up], (len_u32_small secret Hs) as [-> Us].
  destruct (field_accepted [proof_code kind] proof (be_bytes 4 (llen secret) ++ secret) Up)
    as [A1 A2].
  destruct (field_accepted ([proof_code kind] ++ be_bytes 4 (llen proof) ++ proof) secret [] Us)
    as [A3 A4].
  rewrite app_nil_r in A3, A4. rewrite <- !app_assoc in A3, A4.
  assert (La : llen ([proof_code kind] ++ be_bytes 4 (llen proof) ++ proof) = 5 + llen proof)
    by (rewrite !llen_app, llen_be_bytes; unfold llen at 1; cbn; lia).
  rewrite La in A3, A4. replace (5 + llen proof + 4) with (9 + llen proof) in A4 by lia.
  change (llen [proof_code kind]) with 1 in A1, A2. change (1 + 4) with 5 in A2.
  unfold parse_proof_and_secret_body. cbn [app] in *.
  rewrite <- app_assoc. cbn [head ok_or mbind result_bind].
  rewrite proof_code_from. cbn [mbind result_bind]. rewrite A1. cbn [mbind result_bind].
  replace (ADMIN_SECRET_FIELD_MAX_BYTES <? llen proof) with false by lia.
  rewrite A2. cbn [ok_or mbind result_bind]. rewrite A3. cbn [mbind result_bind].
  replace (ADMIN_SECRET_FIELD_MAX_BYTES <? llen secret) with false by lia.
  rewrite A4. cbn [ok_or mbind result_bind].
  match goal with |- context [llen (?x :: ?l) =? ?y] => replace (llen (x :: l) =? y) with true; [done|] end.
  symmetry. apply Z.eqb_eq. change (?x :: ?l) with ([x] ++ l).
  rewrite !llen_app, !llen_be_bytes. unfold llen at 1. cbn. lia.
Qed.

(** a step-up body is parsed exactly from its own encoding: an accepted body is
    the encoding of its kind, proof and secret, both within 64 KiB, with nothing
    before, between or after them; and every such encoding is accepted. *)
Theorem proof_and_secret_canonical body kind proof secret :
  Forall is_byte body ->
  parse_proof_and_secret_body body = Ok (kind, proof, secret) <->
  body = encode_proof_and_secret_body kind proof secret /\
  llen proof <= ADMIN_SECRET_FIELD_MAX_BYTES /\ llen secret <= ADMIN_SECRET_FIELD_MAX_BYTES.
Proof.
  intros Hb. split; [by apply proof_secret_parsed|]. intros (-> & ? & ?).
  by apply proof_secret_accepted.
Qed.

(** a management envelope is parsed exactly from its own encoding, and only
    around a canonical 43-byte token: parsing succeeds with [token] and [body]
    if and only if encoding them gives the envelope. *)
Theorem management_body_canonical envelope token body :
  parse_management_body envelope = Ok (token, body) <->
  encode_management_body token body = Ok envelope.
Proof.
  unfold parse_management_body, encode_management_body. split.
  - intros H. destruct (negb _) eqn:E1; [done|]. reflect_bools.
    destruct (get_range 7 50 envelope) as [t|] eqn:E2; [|done]. cbn [ok_or mbind result_bind] in H.
    destruct (validate_management_token t) as [[]|] eqn:E3; [|done]. cbn [mbind result_bind] in H.
    simplify_eq. rewrite E3. cbn [mbind result_bind]. f_equal.
    apply get_range_Some in E1 as (p1 & q1 & -> & L1 & _); [|lia].
    destruct p1; [|unfold llen in L1; cbn in L1; lia].
    apply get_range_Some in E2 as (p2 & q2 & B & L2 & L3); [|lia]. cbn [app] in *.
    change (82 :: 75 :: 65 :: 85 :: 1 :: 0 :: 43 :: q1) with (MANAGEMENT_PREFIX ++ q1) in *.
    apply app_inv_llen in B as [<- ->]; [|by rewrite L2].
    rewrite !app_assoc. rewrite drop_app_length'; [done|].
    unfold llen in L3. rewrite length_app. cbn [length MANAGEMENT_PREFIX]. lia.
  - intros H. destruct (validate_management_token token) as [[]|] eqn:E; [|done].
    cbn [mbind result_bind] in H.
    assert (MANAGEMENT_PREFIX ++ token ++ body = envelope) as <- by congruence.
    assert (Hl : llen token = 43).
    { unfold validate_management_token in E. destruct (llen token =? 43) eqn:El; [lia|done]. }
    pose proof (get_range_app [] MANAGEMENT_PREFIX (token ++ body)) as G1.
    pose proof (get_range_app MANAGEMENT_PREFIX token body) as G2.
    change (llen (@nil Z)) with 0 in G1. change (0 + llen MANAGEMENT_PREFIX) with 7 in G1.
    change (llen MANAGEMENT_PREFIX) with 7 in G2. rewrite Hl in G2. change (7 + 43) with 50 in G2.
    cbn [app] in G1. rewrite G1, bool_decide_eq_true_2 by done. cbn [negb].
    rewrite G2. cbn [ok_or mbind result_bind]. rewrite E. cbn [mbind result_bind].
    rewrite app_assoc, drop_app_length'; [done|].
    unfold llen in Hl. rewrite length_app. cbn [length MANAGEMENT_PREFIX]. lia.
Qed.

(** ** Witnesses *)

Definition demo_header : FrameHeader := mkFrameHeader Agent 0 11 7 3 2.

Lemma frame_header_canonical_witness :
  decode (encode demo_header) = Ok demo_header.
Proof.
  apply (frame_header_canonical (encode demo_header) demo_header).
  - reflexivity.
  - unfold is_byte. vm_compute encode. repeat constructor; lia || discriminate.
  - split_and!; try reflexivity; [|vm_compute; discriminate].
    unfold header_fits, is_byte, in_u32, u32_max.
  cbn [flags message_type request_id metadata_len body_len demo_header]. lia.
Defined.

Lemma frame_write_read_witness :
  exists bytes, write_frame Agent 11 7 [1; 2; 3] [4; 5] = Ok bytes /\
  read_frame (bytes ++ [9; 9]) Agent (fun _ => AGENT_BODY_MAX_BYTES) =
  Ok (mkIncomingFrame demo_header [1; 2; 3] [4; 5], [9; 9]).
Proof.
  eexists. split; [vm_compute; reflexivity|].
  apply (frame_write_read Agent 11 7 [1; 2; 3] [4; 5]); try lia.
  - unfold llen, AGENT_BODY_MAX_BYTES. cbn. lia.
  - vm_compute. reflexivity.
Defined.

Lemma frame_read_bounded_witness :
  channel demo_header = Agent /\ llen [1; 2; 3] <= METADATA_MAX_BYTES.
Proof.
  destruct (frame_read_bounded (encode demo_header ++ [1; 2; 3; 4; 5]) Agent
    (fun _ => AGENT_BODY_MAX_BYTES) (mkIncomingFrame demo_header [1; 2; 3] [4; 5]) [])
    as (H1 & H2 & _).
  - unfold is_byte. vm_compute encode. repeat constructor; lia || discriminate.
  - vm_compute. reflexivity.
  - split; [exact H1|exact H2].
Defined.

Lemma proof_and_secret_canonical_witness :
  parse_proof_and_secret_body (encode_proof_and_secret_body Password [1; 2] [3]) =
  Ok (Password, [1; 2], [3]).
Proof.
  apply proof_and_secret_canonical.
  - unfold is_byte. vm_compute encode_proof_and_secret_body. repeat constructor; lia || discriminate.
  - split; [reflexivity|]. unfold llen, ADMIN_SECRET_FIELD_MAX_BYTES. cbn. lia.
Defined.
