(* ===== verification/Lifecycle.v ===== *)
(** * Lifecycle: the broker's phase, its effect gate and its execution slots

    [rekey-broker/src/lifecycle.rs]. The fields are atomics and mutexes, so an
    operation is a program of atomic actions ([prog]): it can be run alone
    ([run]) or with other threads acting between any two of its actions
    ([runs]). A section under a mutex is one action. [Notify] wake-ups are left
    out (the wait loop is one turn), and a poisoned mutex is used as if it were
    not, as the code does. The coordinator mutex serialises whole operations
    ([coordinated]); no other theorem relies on it. *)

From S2P Require Import Prelude Errors.

Definition REMOTE_EFFECT_CLOSED : Z := 0.
Definition REMOTE_EFFECT_OPEN : Z := 1.
Definition REMOTE_EFFECT_STOP_PENDING : Z := 2.

Definition MAX_CONNECTION_EXECUTIONS : Z := 120.
Definition MAX_EXECUTIONS_PER_CONNECTION : Z := 4.

Inductive BrokerPhase : Type := PhaseLocked | Running | Draining | ShuttingDown.

#[export] Instance BrokerPhase_eq_dec : EqDecision BrokerPhase.
Proof. solve_decision. Defined.

(** The [repr(u8)] discriminants and [BrokerPhase::from_u8]. *)
Definition phase_code (p : BrokerPhase) : Z :=
  match p with PhaseLocked => 0 | Running => 1 | Draining => 2 | ShuttingDown => 3 end.
Definition phase_from_u8 (v : Z) : BrokerPhase :=
  if v =? 1 then Running else if v =? 2 then Draining else if v =? 3 then ShuttingDown
  else PhaseLocked.

Record Lifecycle := mkLifecycle {
  local_in_flight : Z;
  connection_in_flight : gmap string Z;
  phase_u8 : Z;
  cancel : bool;
  remote_effect_gate : Z;
  private_credentials : gmap (Z * Z) bool;
}.

(** [Lifecycle::new]. *)
Definition new_lifecycle : Lifecycle :=
  mkLifecycle 0 ∅ (phase_code PhaseLocked) false REMOTE_EFFECT_CLOSED ∅.

(** ** Programs of atomic actions *)

Inductive prog (R : Type) : Type :=
  | Ret (r : R)
  | Atomic {A : Type} (f : Lifecycle -> Lifecycle * A) (k : A -> prog R).
Arguments Ret {R} r.
Arguments Atomic {R A} f k.

#[export] Instance prog_ret : MRet prog := fun A a => Ret a.
#[export] Instance prog_bind : MBind prog := fun A B g =>
  fix go (p : prog A) : prog B :=
    match p with
    | Ret a => g a
    | Atomic f k => Atomic f (fun a => go (k a))
    end.

Definition act {A} (f : Lifecycle -> Lifecycle * A) : prog A := Atomic f Ret.

(** Alone, without other threads. *)
Fixpoint run {R} (p : prog R) (l : Lifecycle) : Lifecycle * R :=
  match p with
  | Ret r => (l, r)
  | Atomic f k => run (k (f l).2) (f l).1
  end.

(** ** Atomic actions *)

Definition load_phase (l : Lifecycle) : Lifecycle * BrokerPhase :=
  (l, phase_from_u8 (phase_u8 l)).
Definition store_phase (p : BrokerPhase) (l : Lifecycle) : Lifecycle * unit :=
  (mkLifecycle (local_in_flight l) (connection_in_flight l) (phase_code p) (cancel l)
     (remote_effect_gate l) (private_credentials l), tt).
Definition set_gate (g : Z) (l : Lifecycle) : Lifecycle :=
  mkLifecycle (local_in_flight l) (connection_in_flight l) (phase_u8 l) (cancel l) g
    (private_credentials l).
Definition load_gate (l : Lifecycle) : Lifecycle * Z := (l, remote_effect_gate l).
Definition compare_exchange_gate (current new : Z) (l : Lifecycle) : Lifecycle * bool :=
  if remote_effect_gate l =? current then (set_gate new l, true) else (l, false).
Definition set_cancel (b : bool) (l : Lifecycle) : Lifecycle :=
  mkLifecycle (local_in_flight l) (connection_in_flight l) (phase_u8 l) b
    (remote_effect_gate l) (private_credentials l).
(** [watch::Sender::send_replace], and [send], which changes nothing when no
    receiver is left. *)
Definition send_replace (b : bool) (l : Lifecycle) : Lifecycle * unit := (set_cancel b l, tt).
Definition send (receivers : bool) (b : bool) (l : Lifecycle) : Lifecycle * unit :=
  (if receivers then set_cancel b l else l, tt).

(** [mark_stop_pending]. *)
Definition mark_stop_pending (l : Lifecycle) : Lifecycle * unit :=
  (set_gate REMOTE_EFFECT_STOP_PENDING l, tt).

(** [fetch_add] and [fetch_sub] on an [AtomicU32] wrap around. *)
Definition set_local (n : Z) (l : Lifecycle) : Lifecycle :=
  mkLifecycle n (connection_in_flight l) (phase_u8 l) (cancel l) (remote_effect_gate l)
    (private_credentials l).
Definition local_permit (l : Lifecycle) : Lifecycle * unit :=
  (set_local ((local_in_flight l + 1) mod 2 ^ 32) l, tt).
Definition drop_local_permit (l : Lifecycle) : Lifecycle * unit :=
  (set_local ((local_in_flight l - 1) mod 2 ^ 32) l, tt).

Definition set_connections (m : gmap string Z) (l : Lifecycle) : Lifecycle :=
  mkLifecycle (local_in_flight l) m (phase_u8 l) (cancel l) (remote_effect_gate l)
    (private_credentials l).

(** [active.values().sum()]. *)
Definition total (m : gmap string Z) : Z := map_fold (fun _ n acc => n + acc) 0 m.
Definition count_of (connection : string) (m : gmap string Z) : Z :=
  match m !! connection with Some n => n | None => 0 end.

(** The section of [connection_permit] under the connection mutex. *)
Definition permit_section (connection : string) (l : Lifecycle)
  : Lifecycle * result BrokerError unit :=
  let active := connection_in_flight l in
  if (MAX_CONNECTION_EXECUTIONS <=? total active)
     || (MAX_EXECUTIONS_PER_CONNECTION <=? count_of connection active)
  then (l, Err (Admission Authority.AuthorityBusy))
  else ((local_permit
           (set_connections (<[connection := count_of connection active + 1]> active) l)).1,
        Ok tt).

(** The section of [Drop for ConnectionExecutionPermit] under that mutex. *)
Definition release_section (connection : string) (l : Lifecycle) : Lifecycle * unit :=
  let active := connection_in_flight l in
  match active !! connection with
  | Some count =>
      (set_connections (if count - 1 =? 0 then delete connection active
                        else <[connection := count - 1]> active) l, tt)
  | None => (l, tt)
  end.

Definition set_private (m : gmap (Z * Z) bool) (l : Lifecycle) : Lifecycle :=
  mkLifecycle (local_in_flight l) (connection_in_flight l) (phase_u8 l) (cancel l)
    (remote_effect_gate l) m.
Definition owner_section (credential request : Z) (l : Lifecycle)
  : Lifecycle * result BrokerError unit :=
  if bool_decide (is_Some (private_credentials l !! (credential, request)))
  then (l, Err (Admission Authority.AuthorityBusy))
  else (set_private (<[(credential, request) := false]> (private_credentials l)) l, Ok tt).

Definition targets (credential : option Z) (id : Z) : bool :=
  match credential with None => true | Some target => target =? id end.
(** The two sections of [cancel_private_credentials_until]: cancelling every
    matching owner, and the test the wait loop repeats. *)
Definition cancel_section (credential : option Z) (l : Lifecycle) : Lifecycle * unit :=
  (set_private (map_imap (fun k c => Some (if targets credential k.1 then true else c))
                  (private_credentials l)) l, tt).
Definition owners_gone (credential : option Z) (l : Lifecycle) : Lifecycle * bool :=
  (l, negb (existsb (fun kv => targets credential kv.1.1) (map_to_list (private_credentials l)))).

(** ** Operations *)

Definition reject_if_not_running : prog (result BrokerError unit) :=
  phase ← act load_phase;
  Ret (match phase with
       | Running => Ok tt
       | PhaseLocked => Err (Admission Authority.Locked)
       | Draining | ShuttingDown => Err (Admission Authority.Draining)
       end).

Definition reject_if_busy : prog (result BrokerError unit) :=
  gate ← act load_gate;
  if gate =? REMOTE_EFFECT_STOP_PENDING then Ret (Err (Admission Authority.Draining))
  else
    phase ← act load_phase;
    Ret (match phase with
         | PhaseLocked | Running => Ok tt
         | Draining | ShuttingDown => Err (Admission Authority.Draining)
         end).

Definition try_begin_remote_effect : prog bool :=
  gate ← act load_gate; Ret (gate =? REMOTE_EFFECT_OPEN).

(** The [debug_assert] of the code only states which gates are left. *)
Definition close_remote_effect_admission : prog unit :=
  _ ← act (compare_exchange_gate REMOTE_EFFECT_OPEN REMOTE_EFFECT_CLOSED); Ret tt.

Definition enter_draining : prog unit :=
  _ ← close_remote_effect_admission;
  act (store_phase Draining).

Definition enter_shutting_down (receivers : bool) : prog unit :=
  _ ← close_remote_effect_admission;
  _ ← act (store_phase ShuttingDown);
  act (send receivers true).

Definition enter_locked : prog unit :=
  _ ← close_remote_effect_admission;
  _ ← act (send_replace false);
  act (store_phase PhaseLocked).

Definition enter_running : prog (result BrokerError unit) :=
  previous ← act load_phase;
  _ ← act (send_replace false);
  _ ← act (store_phase Running);
  gate ← act load_gate;
  failed ← (if gate =? REMOTE_EFFECT_STOP_PENDING then Ret true
            else if gate =? REMOTE_EFFECT_CLOSED then
              ok ← act (compare_exchange_gate REMOTE_EFFECT_CLOSED REMOTE_EFFECT_OPEN);
              Ret (negb ok)
            else Ret false);
  if failed : bool then
    _ ← act (store_phase previous);
    Ret (Err (BAuthority Authority.Draining))
  else Ret (Ok tt).

Record ConnectionExecutionPermit := mkConnectionExecutionPermit {
  connection : string;
  needs_terminal : bool;
}.

Definition connection_permit (connection : string)
  : prog (result BrokerError ConnectionExecutionPermit) :=
  running ← reject_if_not_running;
  match running with
  | Err e => Ret (Err e)
  | Ok _ =>
      open ← try_begin_remote_effect;
      if negb open then Ret (Err (Admission Authority.Draining))
      else
        granted ← act (permit_section connection);
        Ret (_ ← granted; Ok (mkConnectionExecutionPermit connection false))
  end.

(** [started], and [Drop for ConnectionExecutionPermit] followed by the drop of
    its [LocalExecutionPermit]. *)
Definition started (p : ConnectionExecutionPermit) : ConnectionExecutionPermit :=
  mkConnectionExecutionPermit (connection p) true.
Definition drop_connection_permit (p : ConnectionExecutionPermit) : prog unit :=
  _ ← (if needs_terminal p then act mark_stop_pending else Ret tt);
  _ ← act (release_section (connection p));
  act drop_local_permit.
(** [complete]: the permit is dropped with the flag cleared. *)
Definition complete (p : ConnectionExecutionPermit) : prog unit :=
  drop_connection_permit (mkConnectionExecutionPermit (connection p) false).

Definition private_credential_owner (credential request : Z) : prog (result BrokerError unit) :=
  running ← reject_if_not_running;
  match running with
  | Err e => Ret (Err e)
  | Ok _ => act (owner_section credential request)
  end.
Definition drop_private_owner (credential request : Z) : prog unit :=
  act (fun l => (set_private (delete (credential, request) (private_credentials l)) l, tt)).

(** Every matching owner is cancelled once, then the test of the wait loop is
    made: [true] when they have all gone. The loop repeats [owners_gone]. *)
Definition cancel_private_credentials (credential : option Z) : prog bool :=
  _ ← act (cancel_section credential);
  act (owners_gone credential).

Definition signal_cancel (receivers : bool) : prog unit := act (send receivers true).

(** * Stopping is final, and slots are counted exactly

    Theorems about the broker's lifecycle for every interleaving of the atomic
    actions of its operations: the stop-pending gate is never left, an execution
    that ends without a terminal record closes admission for good, and the
    connection slots never exceed their limits nor leak. *)

(** ** Interference *)

(** A step another thread may make: one atomic action of one operation, with
    whatever its earlier actions returned. *)
Fixpoint action_of {R} (p : prog R) (l l' : Lifecycle) : Prop :=
  match p with
  | Ret _ => False
  | Atomic f k => l' = (f l).1 \/ exists a, action_of (k a) l l'
  end.

Inductive operation : forall R, prog R -> Prop :=
  | op_reject_running : operation _ reject_if_not_running
  | op_reject_busy : operation _ reject_if_busy
  | op_try_effect : operation _ try_begin_remote_effect
  | op_close : operation _ close_remote_effect_admission
  | op_draining : operation _ enter_draining
  | op_shutting b : operation _ (enter_shutting_down b)
  | op_locked : operation _ enter_locked
  | op_running : operation _ enter_running
  | op_permit c : operation _ (connection_permit c)
  | op_drop p : operation _ (drop_connection_permit p)
  | op_complete p : operation _ (complete p)
  | op_local : operation _ (act local_permit)
  | op_drop_local : operation _ (act drop_local_permit)
  | op_owner c r : operation _ (private_credential_owner c r)
  | op_drop_owner c r : operation _ (drop_private_owner c r)
  | op_cancel c : operation _ (cancel_private_credentials c)
  | op_owners_gone c : operation _ (act (owners_gone c))
  | op_signal b : operation _ (signal_cancel b)
  | op_stop : operation _ (act mark_stop_pending).

Definition an_action (l l' : Lifecycle) : Prop :=
  exists R (p : prog R), operation R p /\ action_of p l l'.
(** Any number of steps of any number of other threads. *)
Definition interferes : relation Lifecycle := rtc an_action.

(** A run of [p] with other threads acting before each of its actions and after
    the last one. *)
Fixpoint runs {R} (p : prog R) (l : Lifecycle) (r : R) (l' : Lifecycle) : Prop :=
  match p with
  | Ret r0 => r = r0 /\ interferes l l'
  | Atomic f k => exists l1, interferes l l1 /\ runs (k (f l1).2) (f l1).1 r l'
  end.

(** [run] is the run without interference. *)
Lemma run_runs {R} (p : prog R) l : runs p l (run p l).2 (run p l).1.
Proof.
  revert l. induction p as [r|A f k IH]; intros l; cbn.
  - split; [done|apply rtc_refl].
  - exists l. split; [apply rtc_refl|apply IH].
Qed.

(** ** The stop-pending gate *)

Definition stopped (l : Lifecycle) : Prop := remote_effect_gate l = REMOTE_EFFECT_STOP_PENDING.

Fixpoint all_actions {R} (P : (Lifecycle -> Lifecycle) -> Prop) (p : prog R) : Prop :=
  match p with
  | Ret _ => True
  | Atomic f k => P (fun l => (f l).1) /\ forall a, all_actions P (k a)
  end.

Lemma all_actions_action {R} P (p : prog R) l l' :
  all_actions P p -> action_of p l l' -> exists f, P f /\ l' = f l.
Proof.
  induction p as [r|A f k IH]; cbn; [done|]. intros [Hf Hk] [->|[a Ha]]; [|eauto].
  by exists (fun l => (f l).1).
Qed.

Lemma all_actions_bind {A B} P (p : prog A) (k : A -> prog B) :
  all_actions P p -> (forall a, all_actions P (k a)) -> all_actions P (p ≫= k).
Proof.
  induction p as [r|C f q IH]; cbn; [auto|]. intros [Hf Hq] Hk. split; [done|].
  intros a. by apply IH.
Qed.
Lemma all_actions_act {A} (P : (Lifecycle -> Lifecycle) -> Prop) (f : Lifecycle -> Lifecycle * A) :
  P (fun l => (f l).1) -> all_actions P (act f).
Proof. by split. Qed.
Lemma all_actions_Ret {A} P (a : A) : all_actions P (Ret a).
Proof. done. Qed.

Create HintDb lifecycle discriminated.
Ltac unfold_operation :=
  unfold reject_if_not_running, reject_if_busy, try_begin_remote_effect,
    close_remote_effect_admission, enter_draining, enter_shutting_down, enter_locked,
    enter_running, connection_permit, reject_if_not_running, try_begin_remote_effect,
    complete, drop_connection_permit, private_credential_owner, drop_private_owner,
    cancel_private_credentials, signal_cancel, close_remote_effect_admission,
    reject_if_not_running.
(** Reduces a property of an operation to one of its atomic actions. *)
Ltac each_action :=
  repeat first
    [ apply all_actions_bind; [|intros] | apply all_actions_act | apply all_actions_Ret
    | match goal with |- all_actions _ (match ?x with _ => _ end) => destruct x end ];
  auto with lifecycle.

Definition keeps_stop (f : Lifecycle -> Lifecycle) : Prop := forall l, stopped l -> stopped (f l).

Lemma gate_kept (f : Lifecycle -> Lifecycle) :
  (forall l, remote_effect_gate (f l) = remote_effect_gate l) -> keeps_stop f.
Proof. intros H l. unfold stopped. by rewrite H. Qed.
Lemma exchange_keeps_stop current new :
  current <> REMOTE_EFFECT_STOP_PENDING ->
  keeps_stop (fun l => (compare_exchange_gate current new l).1).
Proof.
  intros Hc l. unfold stopped, compare_exchange_gate. destruct (_ =? _) eqn:E; [|done].
  reflect_bools. congruence.
Qed.
Lemma permit_section_gate c l :
  remote_effect_gate (permit_section c l).1 = remote_effect_gate l.
Proof. unfold permit_section. by destruct (_ || _). Qed.
Lemma release_section_gate c l :
  remote_effect_gate (release_section c l).1 = remote_effect_gate l.
Proof. unfold release_section. by case_match. Qed.
Lemma owner_section_gate c r l :
  remote_effect_gate (owner_section c r l).1 = remote_effect_gate l.
Proof. unfold owner_section. by case_match. Qed.
Lemma send_gate receivers b l :
  remote_effect_gate (send receivers b l).1 = remote_effect_gate l.
Proof. by destruct receivers. Qed.
Lemma mark_keeps_stop : keeps_stop (fun l => (mark_stop_pending l).1).
Proof. done. Qed.
#[export] Hint Resolve exchange_keeps_stop mark_keeps_stop : lifecycle.
#[export] Hint Extern 4 (keeps_stop _) =>
  apply gate_kept; intros; auto using permit_section_gate, release_section_gate,
    owner_section_gate, send_gate : lifecycle.
#[export] Hint Extern 4 (_ <> REMOTE_EFFECT_STOP_PENDING) => discriminate : lifecycle.

Lemma operation_keeps_stop R (p : prog R) : operation R p -> all_actions keeps_stop p.
Proof. intros O. destruct O; unfold_operation; each_action. Qed.

Lemma interferes_stopped l l' : interferes l l' -> stopped l -> stopped l'.
Proof.
  induction 1 as [|l l1 l' (R & p & Hop & Ha) _ IH]; [done|]. intros Hs. apply IH.
  destruct (all_actions_action keeps_stop p l l1) as (f & Hf & ->);
    [by apply operation_keeps_stop|done|by apply Hf].
Qed.

Lemma runs_bind {A B} (p : prog A) (k : A -> prog B) l r l' :
  runs (p ≫= k) l r l' -> exists a l1, runs p l a l1 /\ runs (k a) l1 r l'.
Proof.
  revert l. induction p as [a|C f q IH]; intros l; cbn.
  - intros H. exists a, l. split; [|done]. by split; [|apply rtc_refl].
  - intros (l1 & Hi & H). apply IH in H as (a & l2 & H1 & H2). exists a, l2.
    split; [|done]. by exists l1.
Qed.
Lemma runs_act {A} (f : Lifecycle -> Lifecycle * A) l r l' :
  runs (act f) l r l' -> exists l1, interferes l l1 /\ r = (f l1).2 /\ interferes (f l1).1 l'.
Proof. intros (l1 & Hi & -> & Hl). eauto. Qed.

Lemma runs_stopped {R} (p : prog R) l r l' :
  all_actions keeps_stop p -> runs p l r l' -> stopped l -> stopped l'.
Proof.
  revert l. induction p as [r0|A f k IH]; intros l; cbn.
  - intros _ [_ Hi]. by apply interferes_stopped.
  - intros [Hf Hk] (l1 & Hi & H) Hs. eapply IH; [apply Hk|exact H|]. apply Hf.
    by eapply interferes_stopped.
Qed.

(** What a stopped broker answers to everything that starts work. *)
Definition refuses (l : Lifecycle) : Prop :=
  (forall r l', runs enter_running l r l' -> r = Err (BAuthority Authority.Draining)) /\
  (forall r l', runs reject_if_busy l r l' -> r = Err (Admission Authority.Draining)) /\
  (forall c r l', runs (connection_permit c) l r l' -> exists e, r = Err e).

Lemma stopped_refuses l : stopped l -> refuses l.
Proof.
  intros Hs. split_and!.
  - intros r l' H. unfold enter_running in H.
    apply runs_bind in H as (g1 & l1 & (k1 & I1 & _ & J1)%runs_act & H).
    apply runs_bind in H as (g2 & l2 & (k2 & I2 & _ & J2)%runs_act & H).
    apply runs_bind in H as (g3 & l3 & (k3 & I3 & _ & J3)%runs_act & H).
    apply runs_bind in H as (g4 & l4 & (k4 & I4 & -> & J4)%runs_act & H).
    assert (stopped k4) as Hk.
    { apply (interferes_stopped _ _ I4), (interferes_stopped _ _ J3).
      apply (interferes_stopped _ _ I3), (interferes_stopped _ _ J2).
      apply (interferes_stopped _ _ I2), (interferes_stopped _ _ J1).
      by apply (interferes_stopped _ _ I1). }
    cbn in H. rewrite Hk in H. cbn in H. by destruct H as (? & _ & -> & _).
  - intros r l' H. unfold reject_if_busy in H.
    apply runs_bind in H as (g & l1 & (l2 & Hi & -> & Hi')%runs_act & H). cbn in H.
    rewrite (interferes_stopped _ _ Hi Hs) in H. cbn in H. by destruct H as [-> _].
  - intros c r l' H. unfold connection_permit in H.
    apply runs_bind in H as ([[]|e] & l1 & H1 & H); [|cbn in H; destruct H as [-> _]; eauto].
    assert (stopped l1) as Hs1.
    { eapply runs_stopped; [|exact H1|exact Hs]. unfold_operation. each_action. }
    apply runs_bind in H as (o & l2 & H2 & H). unfold try_begin_remote_effect in H2.
    apply runs_bind in H2 as (g & l3 & (l4 & Hi & -> & Hi')%runs_act & H2). cbn in H2.
    rewrite (interferes_stopped _ _ Hi Hs1) in H2. cbn in H2. destruct H2 as [-> _].
    cbn in H. destruct H as [-> _]. eauto.
Qed.

(** Stopping is final. Once the gate is stop-pending, no interleaving of any
    operations of the broker changes it, [enter_running] fails, [reject_if_busy]
    refuses the unlock, and no execution slot is granted, however those calls
    are interleaved with other threads. *)
Theorem stop_pending_is_final l l' :
  stopped l -> interferes l l' -> stopped l' /\ refuses l'.
Proof.
  intros Hs Hi. pose proof (interferes_stopped _ _ Hi Hs). split; [done|by apply stopped_refuses].
Qed.

(** An execution without a terminal record closes admission before
    its capacity returns. When a permit that was started is dropped without
    [complete], the gate is stop-pending before the connection slot is
    released, whatever other threads do meanwhile, so no later call is
    admitted in its place. *)
Theorem unfinished_execution_stops p l l' :
  needs_terminal p = true -> runs (drop_connection_permit p) l tt l' ->
  (exists start before, interferes l start /\ interferes (mark_stop_pending start).1 before /\
     stopped before /\
     exists after, interferes (release_section (connection p) before).1 after /\
                   interferes (drop_local_permit after).1 l') /\
  stopped l' /\ refuses l'.
Proof.
  intros Hn H. unfold drop_connection_permit in H. rewrite Hn in H.
  apply runs_bind in H as (? & l1 & (l2 & H1 & _ & H2)%runs_act & H).
  apply runs_bind in H as (? & l3 & (l4 & H4 & _ & H5)%runs_act & H).
  apply runs_act in H as (l5 & H6 & _ & H7).
  assert (stopped l4) as Hs4.
  { eapply interferes_stopped; [exact H4|]. by eapply interferes_stopped. }
  assert (stopped l') as Hs'.
  { eapply interferes_stopped; [exact H7|]. unfold stopped. cbn.
    eapply interferes_stopped; [exact H6|]. eapply interferes_stopped; [exact H5|].
    unfold stopped. by rewrite release_section_gate. }
  split_and!; [|done|by apply stopped_refuses].
  exists l2, l4. split_and!; [done|by eapply rtc_trans|done|]. exists l5. split; [|done].
  by eapply rtc_trans.
Qed.

(** A run of the code alone: a permit is taken, started and lost. *)
Definition demo_running : Lifecycle := (run enter_running new_lifecycle).1.
Definition demo_lost : Lifecycle :=
  (run (drop_connection_permit (started (mkConnectionExecutionPermit "github" false)))
     (run (connection_permit "github") demo_running).1).1.

Lemma stop_pending_is_final_witness :
  (run enter_running demo_lost).2 = Err (BAuthority Authority.Draining) /\
  stopped demo_lost /\ refuses demo_lost.
Proof.
  split; [vm_compute; reflexivity|].
  apply (stop_pending_is_final demo_lost demo_lost); [vm_compute; reflexivity|apply rtc_refl].
Defined.

Lemma unfinished_execution_stops_witness :
  (run (connection_permit "github") demo_running).2 =
    Ok (mkConnectionExecutionPermit "github" false) /\ stopped demo_lost /\ refuses demo_lost.
Proof.
  split; [vm_compute; reflexivity|].
  apply (unfinished_execution_stops (started (mkConnectionExecutionPermit "github" false))
    (run (connection_permit "github") demo_running).1); [reflexivity|].
  exact (run_runs (drop_connection_permit (started (mkConnectionExecutionPermit "github" false)))
    (run (connection_permit "github") demo_running).1).
Defined.

(** ** Execution slots *)

Lemma total_delete c n m : m !! c = Some n -> total m = n + total (delete c m).
Proof. intros Hc. unfold total. rewrite (map_fold_delete_L _ _ c n m); [done| |done]. intros. lia. Qed.
Lemma total_insert c n m : total (<[c := n]> m) = n + total (delete c m).
Proof.
  rewrite (total_delete c n) by apply lookup_insert_eq. by rewrite delete_insert_eq.
Qed.
Lemma total_count c m : total m = count_of c m + total (delete c m).
Proof.
  unfold count_of. destruct (m !! c) as [n|] eqn:E; [by apply total_delete|].
  by rewrite delete_id.
Qed.

(** How many of the held permits are for a connection. *)
Definition held_for (c : string) (held : list string) : Z :=
  llen (List.filter (fun c' => bool_decide (c' = c)) held).

(** The state with the permits whose slot is still taken and the number of
    local permits not yet given back. *)
Record Slots := mkSlots {
  life : Lifecycle;
  held : list string;
  counted : Z;
}.

(** Every atomic action that touches neither slots nor the local counter. *)
Inductive bookkeeping : (Lifecycle -> Lifecycle) -> Prop :=
  | bk_id : bookkeeping (fun l => l)
  | bk_phase p : bookkeeping (fun l => (store_phase p l).1)
  | bk_exchange a b : bookkeeping (fun l => (compare_exchange_gate a b l).1)
  | bk_replace b : bookkeeping (fun l => (send_replace b l).1)
  | bk_send r b : bookkeeping (fun l => (send r b l).1)
  | bk_stop : bookkeeping (fun l => (mark_stop_pending l).1)
  | bk_owner c r : bookkeeping (fun l => (owner_section c r l).1)
  | bk_cancel c : bookkeeping (fun l => (cancel_section c l).1)
  | bk_drop_owner c r : bookkeeping (fun l =>
      set_private (delete (c, r) (private_credentials l)) l).

Inductive slot_step : Slots -> Slots -> Prop :=
  | slot_take c l h n :
      (permit_section c l).2 = Ok tt ->
      slot_step (mkSlots l h n) (mkSlots (permit_section c l).1 (c :: h) (n + 1))
  | slot_refuse c l h n e :
      (permit_section c l).2 = Err e ->
      slot_step (mkSlots l h n) (mkSlots (permit_section c l).1 h n)
  | slot_release c l h1 h2 n :
      slot_step (mkSlots l (h1 ++ c :: h2) n) (mkSlots (release_section c l).1 (h1 ++ h2) n)
  | slot_local l h n : slot_step (mkSlots l h n) (mkSlots (local_permit l).1 h (n + 1))
  | slot_drop_local l h n :
      llen h < n -> slot_step (mkSlots l h n) (mkSlots (drop_local_permit l).1 h (n - 1))
  | slot_other f l h n : bookkeeping f -> slot_step (mkSlots l h n) (mkSlots (f l) h n).

Definition slots_reachable : Slots -> Prop := rtc slot_step (mkSlots new_lifecycle [] 0).

(** No operation acts in any other way. *)
Definition slot_action (f : Lifecycle -> Lifecycle) : Prop :=
  bookkeeping f \/ (exists c, f = fun l => (permit_section c l).1) \/
  (exists c, f = fun l => (release_section c l).1) \/
  f = (fun l => (local_permit l).1) \/ f = (fun l => (drop_local_permit l).1).
Lemma slot_action_bookkeeping f : bookkeeping f -> slot_action f.
Proof. by left. Qed.
Lemma slot_action_permit c : slot_action (fun l => (permit_section c l).1).
Proof. right. left. by exists c. Qed.
Lemma slot_action_release c : slot_action (fun l => (release_section c l).1).
Proof. right. right. left. by exists c. Qed.
Lemma slot_action_local : slot_action (fun l => (local_permit l).1).
Proof. do 3 right. by left. Qed.
Lemma slot_action_drop : slot_action (fun l => (drop_local_permit l).1).
Proof. do 4 right. done. Qed.
#[export] Hint Constructors bookkeeping : lifecycle.
#[export] Hint Resolve slot_action_permit slot_action_release slot_action_local
  slot_action_drop slot_action_bookkeeping : lifecycle.
Lemma load_phase_action : slot_action (fun l => (load_phase l).1).
Proof. left. exact bk_id. Qed.
Lemma load_gate_action : slot_action (fun l => (load_gate l).1).
Proof. left. exact bk_id. Qed.
Lemma owners_gone_action c : slot_action (fun l => (owners_gone c l).1).
Proof. left. exact bk_id. Qed.
#[export] Hint Resolve load_phase_action load_gate_action owners_gone_action : lifecycle.

Lemma operations_are_slot_actions R (p : prog R) : operation R p -> all_actions slot_action p.
Proof. intros O. destruct O; unfold_operation; each_action. left. exact (bk_drop_owner c r). Qed.

(** ** Their invariant *)

Record slots_ok (s : Slots) : Prop := {
  so_count : forall c, connection_in_flight (life s) !! c =
    (if held_for c (held s) =? 0 then None else Some (held_for c (held s)));
  so_each : forall c, held_for c (held s) <= MAX_EXECUTIONS_PER_CONNECTION;
  so_total : total (connection_in_flight (life s)) = llen (held s);
  so_all : llen (held s) <= MAX_CONNECTION_EXECUTIONS;
  so_local : local_in_flight (life s) = counted s mod 2 ^ 32;
  so_owned : llen (held s) <= counted s;
}.

Lemma held_for_nonneg c h : 0 <= held_for c h.
Proof. unfold held_for, llen. lia. Qed.
Lemma held_for_cons c c' h :
  held_for c (c' :: h) = held_for c h + (if bool_decide (c' = c) then 1 else 0).
Proof. unfold held_for, llen. cbn. case_bool_decide; cbn; lia. Qed.
Lemma held_for_app c h1 h2 : held_for c (h1 ++ h2) = held_for c h1 + held_for c h2.
Proof. unfold held_for, llen. rewrite List.filter_app, length_app. lia. Qed.

Lemma count_of_held s c : slots_ok s -> count_of c (connection_in_flight (life s)) = held_for c (held s).
Proof.
  intros I. unfold count_of. rewrite (so_count _ I). destruct (_ =? 0) eqn:E; reflect_bools; lia.
Qed.

Lemma bookkeeping_frame f l :
  bookkeeping f -> connection_in_flight (f l) = connection_in_flight l /\
                   local_in_flight (f l) = local_in_flight l.
Proof.
  intros B. destruct B; cbn; try done.
  - unfold compare_exchange_gate. by destruct (_ =? _).
  - by destruct r.
  - unfold owner_section. by case_match.
Qed.

Lemma take_ok c l h n :
  slots_ok (mkSlots l h n) -> (permit_section c l).2 = Ok tt ->
  slots_ok (mkSlots (permit_section c l).1 (c :: h) (n + 1)).
Proof.
  intros I. pose proof (count_of_held _ c I) as Hc. destruct I as [I1 I2 I3 I4 I5 I6]. cbn in *.
  unfold permit_section. destruct (_ || _) eqn:E; [done|]. intros _. reflect_bools.
  pose proof (held_for_nonneg c h). cbn in *.
  split; cbn.
  - intros c'. rewrite held_for_cons. case_bool_decide as Hcc.
    + subst c'. rewrite lookup_insert_eq, Hc. by replace (held_for c h + 1 =? 0) with false by lia.
    + rewrite lookup_insert_ne by done. by rewrite I1, Z.add_0_r.
  - intros c'. rewrite held_for_cons. case_bool_decide; [subst; lia|rewrite Z.add_0_r; apply I2].
  - rewrite total_insert. pose proof (total_count c (connection_in_flight l)).
    unfold llen in *. cbn [length]. lia.
  - unfold llen in *. cbn [length]. lia.
  - rewrite I5. by rewrite Zplus_mod_idemp_l.
  - unfold llen in *. cbn [length]. lia.
Qed.

Lemma release_ok c l h1 h2 n :
  slots_ok (mkSlots l (h1 ++ c :: h2) n) -> slots_ok (mkSlots (release_section c l).1 (h1 ++ h2) n).
Proof.
  intros I. pose proof (count_of_held _ c I) as Hc. destruct I as [I1 I2 I3 I4 I5 I6]. cbn in *.
  assert (Hh : forall c', held_for c' (h1 ++ c :: h2) =
                held_for c' (h1 ++ h2) + (if bool_decide (c = c') then 1 else 0)).
  { intros c'. rewrite !held_for_app, held_for_cons. lia. }
  assert (Hl : llen (h1 ++ c :: h2) = llen (h1 ++ h2) + 1)
    by (unfold llen; rewrite !length_app; cbn; lia).
  pose proof (held_for_nonneg c (h1 ++ h2)) as Hn.
  pose proof (I1 c) as Hlook. rewrite Hh, bool_decide_eq_true_2 in Hlook by done.
  replace (held_for c (h1 ++ h2) + 1 =? 0) with false in Hlook by lia.
  unfold release_section. rewrite Hlook. cbn.
  replace (held_for c (h1 ++ h2) + 1 - 1) with (held_for c (h1 ++ h2)) by lia.
  split; cbn; try lia.
  - intros c'. specialize (I1 c'). rewrite Hh in I1.
    destruct (decide (c = c')) as [<-|Hne].
    + destruct (held_for c (h1 ++ h2) =? 0); [by rewrite lookup_delete_eq|by rewrite lookup_insert_eq].
    + rewrite bool_decide_eq_false_2, Z.add_0_r in I1 by done.
      destruct (held_for c (h1 ++ h2) =? 0);
        [rewrite lookup_delete_ne by done|rewrite lookup_insert_ne by done]; exact I1.
  - intros c'. specialize (I2 c'). rewrite Hh in I2. destruct (bool_decide _); lia.
  - pose proof (total_delete _ _ _ Hlook).
    destruct (_ =? 0) eqn:E; [|rewrite total_insert]; reflect_bools; lia.
Qed.

Lemma slots_ok_step s s' : slots_ok s -> slot_step s s' -> slots_ok s'.
Proof.
  intros I St. destruct St as [c l h n E|c l h n e E|c l h1 h2 n|l h n|l h n Hn|f l h n B].
  - by apply take_ok.
  - unfold permit_section in *. by destruct (_ || _).
  - by apply release_ok.
  - destruct I as [I1 I2 I3 I4 I5 I6]. split; cbn in *; try done; [|lia].
    rewrite I5. by rewrite Zplus_mod_idemp_l.
  - destruct I as [I1 I2 I3 I4 I5 I6]. split; cbn in *; try done; [|lia].
    rewrite I5. by rewrite Zminus_mod_idemp_l.
  - destruct (bookkeeping_frame f l B) as [E1 E2]. destruct I as [I1 I2 I3 I4 I5 I6].
    split; cbn in *; rewrite ?E1, ?E2; done.
Qed.

(** Execution slots are counted exactly and never exceeded. In every state
    that any interleaving of permits taken, dropped and other
    operations can reach, each connection's entry is the number of its permits
    that still hold a slot and is absent when there is none, no connection has
    more than four and all together no more than 120, and the local counter is
    the number of permits not yet given back, so none is leaked or lost. *)
Theorem connection_slots_exact s :
  slots_reachable s -> slots_ok s.
Proof.
  intros Hr. assert (H0 : slots_ok (mkSlots new_lifecycle [] 0)).
  { split; try done. }
  revert H0. unfold slots_reachable in Hr.
  induction Hr as [|s1 s2 s3 St _ IH]; [done|]. intros H1. apply IH. by eapply slots_ok_step.
Qed.

Definition demo_slots : Slots :=
  mkSlots (permit_section "github" demo_running).1 ["github"] 1.

Lemma connection_slots_exact_witness :
  slots_reachable demo_slots /\ slots_ok demo_slots.
Proof.
  assert (H : slots_reachable demo_slots).
  { unfold slots_reachable.
    eapply rtc_l; [exact (slot_other _ new_lifecycle [] 0 (bk_replace false))|].
    eapply rtc_l; [exact (slot_other _ _ [] 0 (bk_phase Running))|].
    eapply rtc_l; [exact (slot_other _ _ [] 0 (bk_exchange REMOTE_EFFECT_CLOSED REMOTE_EFFECT_OPEN))|].
    eapply rtc_l; [|apply rtc_refl].
    apply (slot_take "github" demo_running [] 0). vm_compute. reflexivity. }
  split; [exact H|]. exact (connection_slots_exact _ H).
Defined.

(** ** Phase transitions under the coordinator *)

(** Whole phase transitions, as the coordinator mutex serialises them, between
    which the actions of permits and owners, which do not take it, may happen. *)
Inductive transition : forall R, prog R -> Prop :=
  | tr_draining : transition _ enter_draining
  | tr_shutting r : transition _ (enter_shutting_down r)
  | tr_locked : transition _ enter_locked
  | tr_running : transition _ enter_running.
Inductive free_action : (Lifecycle -> Lifecycle) -> Prop :=
  | fa_stop : free_action (fun l => (mark_stop_pending l).1)
  | fa_close : free_action
      (fun l => (compare_exchange_gate REMOTE_EFFECT_OPEN REMOTE_EFFECT_CLOSED l).1)
  | fa_permit c : free_action (fun l => (permit_section c l).1)
  | fa_release c : free_action (fun l => (release_section c l).1)
  | fa_local : free_action (fun l => (local_permit l).1)
  | fa_drop : free_action (fun l => (drop_local_permit l).1)
  | fa_owner c r : free_action (fun l => (owner_section c r l).1)
  | fa_cancel c : free_action (fun l => (cancel_section c l).1)
  | fa_signal r b : free_action (fun l => (send r b l).1).

Inductive coordinated_step (l : Lifecycle) : Lifecycle -> Prop :=
  | co_transition R (p : prog R) : transition R p -> coordinated_step l (run p l).1
  | co_free f : free_action f -> coordinated_step l (f l).

Definition gate_valid (g : Z) : Prop :=
  g = REMOTE_EFFECT_CLOSED \/ g = REMOTE_EFFECT_OPEN \/ g = REMOTE_EFFECT_STOP_PENDING.

(** The outcome of [enter_running] alone. *)
Lemma enter_running_alone l :
  gate_valid (remote_effect_gate l) ->
  run enter_running l =
  if remote_effect_gate l =? REMOTE_EFFECT_STOP_PENDING then
    ((store_phase (phase_from_u8 (phase_u8 l)) (set_cancel false l)).1,
     Err (BAuthority Authority.Draining))
  else ((store_phase Running (set_gate REMOTE_EFFECT_OPEN (set_cancel false l))).1, Ok tt).
Proof.
  unfold gate_valid. intros Hg. destruct l as [a b c d g e]. cbn in Hg.
  destruct Hg as [->|[->| ->]]; reflexivity.
Qed.

(** The phase and gate a coordinated broker is in: the gate is one of its three
    values, and it is open only while the broker is running. *)
Definition gate_follows_phase (l : Lifecycle) : Prop :=
  gate_valid (remote_effect_gate l) /\
  (remote_effect_gate l = REMOTE_EFFECT_OPEN -> phase_from_u8 (phase_u8 l) = Running).

Lemma close_gate g l :
  gate_valid (remote_effect_gate l) ->
  g = remote_effect_gate (compare_exchange_gate REMOTE_EFFECT_OPEN REMOTE_EFFECT_CLOSED l).1 ->
  gate_valid g /\ g <> REMOTE_EFFECT_OPEN.
Proof.
  unfold gate_valid, compare_exchange_gate. intros Hg ->. destruct l as [a b c d g0 f]. cbn in *.
  destruct Hg as [-> |[-> | ->]]; cbn; split; auto; by vm_compute.
Qed.

Lemma coordinated_gate l l' : coordinated_step l l' -> gate_follows_phase l -> gate_follows_phase l'.
Proof.
  intros St [Hg Ho]. destruct St as [R p T|f F].
  - destruct T.
    1, 3: match goal with |- gate_follows_phase ?s =>
        destruct (close_gate (remote_effect_gate s) l Hg eq_refl) end;
      by split; [|by intros].
    + destruct (close_gate (remote_effect_gate (run (enter_shutting_down r) l).1) l Hg) as [H1 H2];
        [by destruct r|]. by split; [|by intros].
    + rewrite enter_running_alone by done. destruct (_ =? _) eqn:E; reflect_bools.
      * split; [exact Hg|]. cbn. rewrite E. discriminate.
      * split; [right; by left|]. by intros.
  - destruct F; try (by split); unfold gate_follows_phase.
    + split; [by right; right|discriminate].
    + destruct (close_gate _ l Hg eq_refl) as [H1 H2]. split; [done|]. intros. by destruct H2.
    + rewrite permit_section_gate. split; [done|]. unfold permit_section. by destruct (_ || _).
    + rewrite release_section_gate. split; [done|]. unfold release_section. by case_match.
    + rewrite owner_section_gate. split; [done|]. unfold owner_section. by case_match.
    + by destruct r.
Qed.

(** Effects run only in the running phase. While phase transitions are serialised
    by the coordinator, in every state the broker reaches the gate is open only
    if the phase is [Running]; so after draining, shutdown or a lock no new
    effect begins until [enter_running] succeeds, and it succeeds unless
    the gate is stop-pending. *)
Theorem effects_only_while_running l :
  rtc coordinated_step new_lifecycle l ->
  ((run try_begin_remote_effect l).2 = true -> phase_from_u8 (phase_u8 l) = Running) /\
  ((run enter_running l).2 = Ok tt <-> ~ stopped l).
Proof.
  intros Hr. assert (Hinv : gate_follows_phase l).
  { assert (H0 : gate_follows_phase new_lifecycle) by (split; [by left|discriminate]).
    revert H0. induction Hr as [|l1 l2 l3 St _ IH]; [done|]. intros H1. apply IH.
    by eapply coordinated_gate. }
  destruct Hinv as [Hg Ho]. split.
  - cbn. intros E. reflect_bools. auto.
  - rewrite enter_running_alone by done. unfold stopped. destruct (_ =? _) eqn:E; reflect_bools;
      cbn; [by split|]. by split.
Qed.

Lemma effects_only_while_running_witness :
  (run try_begin_remote_effect demo_running).2 = true /\
  phase_from_u8 (phase_u8 demo_running) = Running /\
  phase_from_u8 (phase_u8 (run enter_draining demo_running).1) = Draining /\
  (run try_begin_remote_effect (run enter_draining demo_running).1).2 = false.
Proof.
  split; [reflexivity|]. split; [|split; reflexivity].
  apply (effects_only_while_running demo_running); [|reflexivity].
  eapply rtc_l; [|apply rtc_refl]. exact (co_transition _ _ enter_running tr_running).
Defined.
