(* ===== verification/AuditRecords.v ===== *)
(** * AuditRecords: what an audit record holds, and what a reader may believe of a page

    [rekey-domain/src/audit.rs], with the audit context of a connection and the
    targets of derived credentials (connection.rs): retention, pruning receipts,
    queries, usage evidence, request contexts, records, and the validation of a
    page against the query that asked for it. *)

From S2P Require Import Prelude Strings Errors Domain Action Json Routing.

Definition AUDIT_SCHEMA_V2 : string := "rekey.audit.v2".
Definition AUDIT_PAGE_MAX_LIMIT : Z := 100.
Definition AUDIT_SCAN_MAX_ROWS : Z := 1000.
Definition DAY_MS : Z := 86400000.

Definition invalid_audit (message : string) : DomainError := InvalidAuditQuery message.

(** [is_some_and] and [is_none_or]. *)
Definition is_some_and {A} (o : option A) (p : A -> bool) : bool :=
  match o with Some a => p a | None => false end.
Definition is_none_or {A} (o : option A) (p : A -> bool) : bool :=
  match o with Some a => p a | None => true end.
Definition is_some {A} (o : option A) : bool := is_some_and o (fun _ => true).
Definition is_none {A} (o : option A) : bool := negb (is_some o).

(** [u64::checked_mul] and [u64::checked_add]. *)
Definition u64_checked_mul (a b : Z) : option Z := if a * b <=? u64_max then Some (a * b) else None.
Definition u64_checked_add (a b : Z) : option Z := if a + b <=? u64_max then Some (a + b) else None.

(** ** Retention and pruning *)

Record AuditRetentionSet := mkAuditRetentionSet { rs_days : option Z }.
Definition cutoff_at (r : AuditRetentionSet) (now_ms : Z) : result DomainError (option Z) :=
  match rs_days r with
  | None => Ok None
  | Some days =>
      age ← ok_or (invalid_audit "retention days exceed the supported range")
        (age ← u64_checked_mul days DAY_MS; if (0 <? days) && (age <=? i64_max) then Some age else None);
      cutoff ← ok_or (invalid_audit "retention age exceeds the current epoch")
        (cutoff ← i64_checked_sub now_ms age; if 0 <=? cutoff then Some cutoff else None);
      Ok (Some cutoff)
  end.
Definition retention_validate_at (r : AuditRetentionSet) (now_ms : Z) : result DomainError unit :=
  _ ← cutoff_at r now_ms; Ok tt.

Record AuditRetentionStatus := mkAuditRetentionStatus { rt_days : option Z; rt_updated_at_ms : Z }.
Definition retention_status_validate (r : AuditRetentionStatus) : result DomainError unit :=
  reject_if (rt_updated_at_ms r <? 0)
            || is_some_and (rt_days r) (fun days =>
                 (days =? 0) || is_none_or (u64_checked_mul days DAY_MS) (fun age => i64_max <? age))
    with invalid_audit "invalid audit retention status" ;;
  Ok tt.

Record AuditPruneRequest := mkAuditPruneRequest { pr_before_ms : Z }.
Definition prune_validate_at (r : AuditPruneRequest) (now_ms : Z) : result DomainError unit :=
  reject_if (pr_before_ms r <? 0) || (now_ms <? pr_before_ms r)
    with invalid_audit "prune cutoff must be non-negative and not in the future" ;;
  Ok tt.

Record AuditPruneReceipt := mkAuditPruneReceipt {
  pc_before_ms : Z;
  deleted_rows : Z;
  deleted_groups : Z;
  prune_sequence : option Z;
}.
Definition receipt_validate_for (c : AuditPruneReceipt) (request : AuditPruneRequest) : result DomainError unit :=
  let empty := (deleted_rows c =? 0) && (deleted_groups c =? 0) && is_none (prune_sequence c) in
  let deleted :=
    (0 <? deleted_groups c)
    && is_some_and (u64_checked_mul (deleted_groups c) 2) (fun minimum => minimum <=? deleted_rows c)
    && (deleted_rows c <=? i64_max)
    && is_some_and (prune_sequence c) (fun sequence => (deleted_rows c <? sequence) && (sequence <=? i64_max)) in
  reject_if (pc_before_ms c <? 0) || negb (pc_before_ms c =? pr_before_ms request) || negb (empty || deleted)
    with invalid_audit "invalid audit prune receipt" ;;
  Ok tt.

(** ** Usage evidence *)

Inductive UsageSource : Type := Measured | Indeterminate | NotApplicable.
#[export] Instance UsageSource_eq_dec : EqDecision UsageSource.
Proof. solve_decision. Defined.
Record UsageEvidence := mkUsageEvidence {
  us_instance_slug : string;
  us_utc_day : Z;
  us_output_tokens : Z;
  us_source : UsageSource;
}.
#[export] Instance UsageEvidence_eq_dec : EqDecision UsageEvidence.
Proof. solve_decision. Defined.
Definition is_instance_byte (b : ascii) : bool :=
  is_ascii_alphanumeric b || bool_decide (b = "-"%char) || bool_decide (b = "_"%char).
Definition usage_validate (u : UsageEvidence) : result DomainError unit :=
  reject_if is_empty_str (us_instance_slug u)
            || (64 <? slen (us_instance_slug u))
            || negb (first_byte is_ascii_alphanumeric (us_instance_slug u))
            || negb (last_byte is_ascii_alphanumeric (us_instance_slug u))
            || negb (str_all is_instance_byte (us_instance_slug u))
            || (us_utc_day u <? 0)
            || (i64_max <? us_output_tokens u)
            || (bool_decide (us_source u = NotApplicable) && negb (us_output_tokens u =? 0))
    with invalid_audit "invalid usage evidence" ;;
  Ok tt.

(** ** Request contexts *)

Definition lower_hex (value : string) (expected_len : Z) : bool :=
  (slen value =? expected_len) && str_all (fun b => is_ascii_digit b || in_range 97 102 b) value.

Record ProfileRequestAuditContext := mkProfileRequestAuditContext {
  pa_profile_name : string;
  pa_policy_sha256 : string;
  pa_instance_slug : string;
  pa_capability : string;
  pa_model : option string;
}.
#[export] Instance ProfileRequestAuditContext_eq_dec : EqDecision ProfileRequestAuditContext.
Proof. solve_decision. Defined.
Definition audit_name_valid (name : string) : bool :=
  ((1 <=? slen name) && (slen name <=? 64))
  && first_byte is_ascii_alphanumeric name && last_byte is_ascii_alphanumeric name
  && str_all is_instance_byte name.
Definition profile_context_validate (c : ProfileRequestAuditContext) : result DomainError unit :=
  _ ← try_each (fun name =>
        reject_if negb (audit_name_valid name) with invalid_audit "invalid profile audit context" ;; Ok tt)
      [pa_profile_name c; pa_instance_slug c];
  reject_if negb (lower_hex (pa_policy_sha256 c) 64)
            || negb (slug (pa_capability c) 64)
            || is_some_and (pa_model c) (fun model =>
                 is_empty_str model || negb (str_eqb (trim model) model) || any_control model)
    with invalid_audit "invalid profile audit context" ;;
  Ok tt.

Record ConnectionRequestAuditContext := mkConnectionRequestAuditContext {
  ca_connection : string;
  ca_caller : string;
  ca_method_class : MethodClass;
  ca_normalized_path : string;
  ca_rule_id : option PolicyRuleId;
}.
#[export] Instance ConnectionRequestAuditContext_eq_dec : EqDecision ConnectionRequestAuditContext.
Proof. solve_decision. Defined.

(** [serde_json::to_vec] of a value, and the equality of numbers that serde_json
    derives. *)
Class ValueWriter `{Serde} := {
  value_to_vec : JValue Number -> option (list Z);
  number_eq_dec :: EqDecision Number;
}.

#[export] Instance JValue_eq_dec {N} `{EqDecision N} : EqDecision (JValue N).
Proof.
 refine (fix go x y :=
  let _ : EqDecision (JValue N) := @go in
  match x, y with
  | VNull, VNull => left eq_refl
  | VBool a, VBool b => cast_if (decide (a = b))
  | VNumber a, VNumber b => cast_if (decide (a = b))
  | VString a, VString b => cast_if (decide (a = b))
  | VArray a, VArray b => cast_if (decide (a = b))
  | VObject a, VObject b => cast_if (decide (a = b))
  | _, _ => right _
  end); congruence.
Defined.

Section WithValues.
Context {SJ : Serde} {VW : ValueWriter}.

(** Keys of [permissions] are in order: a [BTreeMap]. *)
Inductive DerivedCredentialTarget : Type :=
  | AwsAssumeRole (role_arn region : string) (session_policy : JValue Number)
  | KubernetesEks (cluster_id region : string)
  | GitHubApp (installation_id : Z) (repository_ids : list Z) (permissions : list (string * string)).
#[export] Instance DerivedCredentialTarget_eq_dec : EqDecision DerivedCredentialTarget.
Proof. solve_decision. Defined.

Definition lifetime_ceiling_seconds (t : DerivedCredentialTarget) : Z :=
  match t with KubernetesEks _ _ => 900 | _ => 3600 end.
Definition region_valid (region : string) : bool :=
  slug region 63 && str_all (fun b => is_ascii_alphanumeric b || bool_decide (b = "-"%char)) region.
Definition MAX_SAFE_INTEGER : Z := 9007199254740991.
Definition is_object (v : JValue Number) : bool := match v with VObject _ => true | _ => false end.
Definition permission_valid (p : string * string) : bool :=
  negb (is_empty_str p.1) && (slen p.1 <=? 64)
  && str_all (fun b => is_ascii_lowercase b || bool_decide (b = "_"%char)) p.1
  && (str_eqb p.2 "read" || str_eqb p.2 "write").
Definition target_validate_ttl (t : DerivedCredentialTarget) (ttl : Z) : result DomainError unit :=
  let valid :=
    match t with
    | AwsAssumeRole role_arn region session_policy =>
        ((900 <=? ttl) && (ttl <=? 3600))
        && starts_with_str "arn:" role_arn
        && contains_str ":role/" role_arn
        && ((20 <=? slen role_arn) && (slen role_arn <=? 2048))
        && str_all (fun b => in_range 33 126 b && negb (bool_decide (b = "*"%char) || bool_decide (b = "?"%char))) role_arn
        && region_valid region
        && is_object session_policy
        && is_some_and (value_to_vec session_policy) (fun bytes => llen bytes <=? 2048)
    | KubernetesEks cluster_id region =>
        (ttl =? 900) && slug cluster_id 100 && str_all is_instance_byte cluster_id && region_valid region
    | GitHubApp installation_id repository_ids permissions =>
        (ttl =? 3600)
        && ((1 <=? installation_id) && (installation_id <=? MAX_SAFE_INTEGER))
        && negb (bool_decide (repository_ids = []))
        && (llen repository_ids <=? 500)
        && forallb (fun id => (1 <=? id) && (id <=? MAX_SAFE_INTEGER)) repository_ids
        && all_distinct repository_ids
        && negb (bool_decide (permissions = []))
        && (llen permissions <=? 64)
        && forallb permission_valid permissions
    end in
  reject_if negb valid with InvalidActionDefinition "invalid derived credential target or lifetime" ;;
  Ok tt.

Record DerivedRequestAuditContext := mkDerivedRequestAuditContext {
  da_connection : string;
  da_caller : string;
  da_target : DerivedCredentialTarget;
  da_expires_at_ms : option Z;
}.
#[export] Instance DerivedRequestAuditContext_eq_dec : EqDecision DerivedRequestAuditContext.
Proof. solve_decision. Defined.
Inductive RequestAuditContext : Type :=
  | ConnectionContext (c : ConnectionRequestAuditContext)
  | DerivedContext (c : DerivedRequestAuditContext)
  | ProfileContext (c : ProfileRequestAuditContext).
#[export] Instance RequestAuditContext_eq_dec : EqDecision RequestAuditContext.
Proof. solve_decision. Defined.
Definition caller_invalid (connection caller : string) : bool :=
  negb (slug connection 100) || is_empty_str caller || (256 <? slen caller) || any_control caller.
Definition context_validate (c : RequestAuditContext) : result DomainError unit :=
  match c with
  | ProfileContext context => profile_context_validate context
  | ConnectionContext context =>
      reject_if caller_invalid (ca_connection context) (ca_caller context)
        with invalid_audit "invalid connection audit context" ;;
      validate_path_pattern (ca_normalized_path context)
  | DerivedContext context =>
      reject_if caller_invalid (da_connection context) (da_caller context)
                || is_some_and (da_expires_at_ms context) (fun expiry => expiry <=? 0)
        with invalid_audit "invalid derived audit context" ;;
      target_validate_ttl (da_target context) (lifetime_ceiling_seconds (da_target context))
  end.

(** ** Records and queries *)

Record AuditRecord := mkAuditRecord {
  record_type : string;
  sequence : Z;
  r_event_id : string;
  r_request_id : option RequestId;
  r_session_id : option SessionId;
  r_action_id : option ActionId;
  r_action_version : option Z;
  r_credential_id : option CredentialId;
  r_credential_version : option Z;
  r_principal_id : option PrincipalId;
  r_policy_version : option Z;
  r_policy_digest_hex : option string;
  r_policy_rule_id : option PolicyRuleId;
  r_approval_request_id : option ApprovalRequestId;
  r_approval_id : option ApprovalId;
  r_approver_id : option ApproverId;
  r_usage : option UsageEvidence;
  r_request_context : option RequestAuditContext;
  r_event_type : string;
  r_outcome : string;
  r_reason_code : string;
  r_upstream_status : option Z;
  r_latency_ms : option Z;
  r_created_at_ms : Z;
}.

Record AuditQuery := mkAuditQuery {
  q_request_id : option RequestId;
  q_session_id : option SessionId;
  q_action_id : option ActionId;
  q_credential_id : option CredentialId;
  q_outcome : option string;
  q_since_ms : option Z;
  q_until_ms : option Z;
  q_snapshot_max_sequence : option Z;
  q_before_sequence : option Z;
  q_limit : Z;
}.
Definition exceeds (a b : option Z) : bool :=
  match a, b with Some x, Some y => y <? x | _, _ => false end.
Definition query_validate (q : AuditQuery) : result DomainError unit :=
  reject_if negb ((1 <=? q_limit q) && (q_limit q <=? AUDIT_PAGE_MAX_LIMIT))
    with invalid_audit "limit must be between 1 and 100" ;;
  reject_if is_some_and (q_since_ms q) (fun v => v <? 0) || is_some_and (q_until_ms q) (fun v => v <? 0)
    with invalid_audit "time bounds must be non-negative" ;;
  reject_if exceeds (q_since_ms q) (q_until_ms q) with invalid_audit "since_ms must not exceed until_ms" ;;
  reject_if is_some_and (q_outcome q) (fun v => is_empty_str v || (64 <? slen v))
    with invalid_audit "outcome must be between 1 and 64 bytes" ;;
  reject_if bool_decide (q_snapshot_max_sequence q = Some 0) || bool_decide (q_before_sequence q = Some 0)
    with invalid_audit "sequence cursors must be positive" ;;
  reject_if is_some (q_before_sequence q) && is_none (q_snapshot_max_sequence q)
    with invalid_audit "before_sequence requires snapshot_max_sequence" ;;
  reject_if exceeds (q_before_sequence q) (q_snapshot_max_sequence q)
    with invalid_audit "before_sequence must not exceed snapshot_max_sequence" ;;
  reject_if is_some_and (q_snapshot_max_sequence q) (fun v => i64_max <? v)
            || is_some_and (q_before_sequence q) (fun v => i64_max <? v)
    with invalid_audit "sequence cursor exceeds the storage range" ;;
  Ok tt.

Definition query_matches (q : AuditQuery) (event : AuditRecord) : bool :=
  is_none_or (q_request_id q) (fun id => bool_decide (r_request_id event = Some id))
  && is_none_or (q_session_id q) (fun id => bool_decide (r_session_id event = Some id))
  && is_none_or (q_action_id q) (fun id => bool_decide (r_action_id event = Some id))
  && is_none_or (q_credential_id q) (fun id => bool_decide (r_credential_id event = Some id))
  && is_none_or (q_outcome q) (fun value => str_eqb (r_outcome event) value)
  && is_none_or (q_since_ms q) (fun since => since <=? r_created_at_ms event)
  && is_none_or (q_until_ms q) (fun until => r_created_at_ms event <=? until).

(** ** The evidence of approvals *)

Definition has_authorization (event : AuditRecord) : bool :=
  is_some (r_principal_id event) && is_some (r_policy_version event)
  && is_some (r_policy_digest_hex event) && is_some (r_policy_rule_id event).
(** [reason.strip_prefix("seconds-")], [parse::<u32>] and its range. *)
Definition window_reason (reason : string) : bool :=
  is_some_and (strip_prefix_str "seconds-" reason) (fun seconds =>
    is_some_and (parse_unsigned u32_max seconds) (fun seconds => (1 <=? seconds) && (seconds <=? 8 * 3600))).
Definition local_fields_match (reason event_type : string) (event : AuditRecord) : bool :=
  if (str_eqb reason "local-presence" && (str_eqb event_type "approval.approved" || str_eqb event_type "approval.accepted"))
     || (str_eqb reason "local-presence-window" && str_eqb event_type "approval.accepted")
  then is_some (r_approval_id event)
  else if str_eqb reason "local-presence" && (str_eqb event_type "approval.requested" || str_eqb event_type "approval.rejected")
  then is_none (r_approval_id event)
  else if str_eqb event_type "approval.window_granted"
  then is_some (r_approval_id event) && window_reason reason
  else false.
Definition approval_fields_match_event (event : AuditRecord) : bool :=
  let reason := r_reason_code event in
  let event_type := r_event_type event in
  let request := is_some (r_approval_request_id event) in
  let approval := is_some (r_approval_id event) in
  let approver := is_some (r_approver_id event) in
  if str_eqb reason "local-presence" || str_eqb reason "local-presence-window"
     || str_eqb event_type "approval.window_granted"
  then
    has_authorization event && str_eqb (r_outcome event) "success"
    && is_some (r_request_id event) && is_some (r_session_id event)
    && is_some (r_action_id event) && is_some (r_action_version event)
    && request && negb approver && local_fields_match reason event_type event
  else if str_eqb event_type "approval.requested"
  then has_authorization event && request && negb approval && negb approver
  else if str_eqb event_type "approval.accepted"
  then has_authorization event && request && approval && approver
  else if str_eqb event_type "approval.rejected"
  then has_authorization event && ((request && approval && approver) || (negb request && negb approval && negb approver))
  else negb request && negb approval && negb approver.

(** ** Pages *)

Record AuditPage := mkAuditPage {
  pg_schema : string;
  pg_snapshot_max_sequence : Z;
  pg_events : list AuditRecord;
  pg_next_before_sequence : option Z;
}.
Definition is_terminal_type (event_type : string) : bool :=
  str_eqb event_type "execution.finished" || str_eqb event_type "execution.blocked"
  || str_eqb event_type "execution.indeterminate".
Definition usage_refused (event : AuditRecord) : bool :=
  is_some_and (r_usage event) (fun usage =>
    negb (is_ok (usage_validate usage)) || is_none (r_request_id event) || is_none (r_principal_id event)
    || negb (is_terminal_type (r_event_type event))).
Definition context_refused (event : AuditRecord) : bool :=
  let is_execution := starts_with_str "execution." (r_event_type event) in
  let no_action := is_none (r_action_id event) || is_none (r_action_version event) in
  is_some_and (r_request_context event) (fun context =>
    negb (is_ok (context_validate context))
    || match context with
       | ProfileContext context =>
           is_none (r_action_id event) || is_none (r_action_version event) || is_none (r_session_id event)
           || is_some_and (r_policy_digest_hex event) (fun digest => negb (str_eqb digest (pa_policy_sha256 context)))
           || is_some_and (r_usage event) (fun usage => negb (str_eqb (us_instance_slug usage) (pa_instance_slug context)))
       | ConnectionContext context =>
           negb (bool_decide (r_policy_rule_id event = ca_rule_id context))
           || ((is_execution || str_eqb (r_event_type event) "call.dry_run") && no_action)
       | DerivedContext context =>
           (is_execution && no_action)
           || (str_eqb (r_event_type event) "credential.derived_issued"
               && is_none_or (da_expires_at_ms context) (fun expiry => expiry <=? r_created_at_ms event))
       end).
Definition record_refused (snapshot : Z) (q : AuditQuery) (previous : option Z) (event : AuditRecord) : bool :=
  negb (str_eqb (record_type event) AUDIT_SCHEMA_V2)
  || (sequence event =? 0)
  || (snapshot <? sequence event)
  || negb (lower_hex (r_event_id event) 32)
  || bool_decide (r_action_version event = Some 0)
  || bool_decide (r_credential_version event = Some 0)
  || bool_decide (r_policy_version event = Some 0)
  || is_some_and (r_policy_digest_hex event) (fun value => negb (lower_hex value 64))
  || negb (Bool.eqb (is_some (r_policy_version event)) (is_some (r_principal_id event)))
  || negb (Bool.eqb (is_some (r_policy_digest_hex event)) (is_some (r_principal_id event)))
  || (is_some (r_policy_rule_id event) && is_none (r_principal_id event))
  || (is_some (r_approval_id event) && is_none (r_approval_request_id event))
  || (is_some (r_approver_id event) && is_none (r_approval_request_id event))
  || negb (approval_fields_match_event event)
  || usage_refused event
  || context_refused event
  || is_empty_str (r_event_type event)
  || is_empty_str (r_outcome event)
  || is_empty_str (r_reason_code event)
  || (r_created_at_ms event <? 0)
  || is_some_and (r_latency_ms event) (fun value => value <? 0)
  || is_some_and (q_before_sequence q) (fun before => before <=? sequence event)
  || is_some_and previous (fun older => older <=? sequence event)
  || negb (query_matches q event).
Fixpoint records_validate (snapshot : Z) (q : AuditQuery) (previous : option Z) (events : list AuditRecord)
  : result DomainError unit :=
  match events with
  | [] => Ok tt
  | event :: rest =>
      reject_if record_refused snapshot q previous event with invalid_audit "audit page violates query bounds" ;;
      records_validate snapshot q (Some (sequence event)) rest
  end.
Definition cursor_valid (p : AuditPage) (q : AuditQuery) (next : Z) : bool :=
  (0 <? next) && (next <=? pg_snapshot_max_sequence p)
  && is_none_or (q_before_sequence q) (fun before => next <? before)
  && forallb (fun event => next <=? sequence event) (pg_events p)
  && (negb (bool_decide (pg_events p = [])) || (next <? pg_snapshot_max_sequence p)).
Definition page_validate_for (p : AuditPage) (q : AuditQuery) : result DomainError unit :=
  _ ← query_validate q;
  reject_if negb (str_eqb (pg_schema p) AUDIT_SCHEMA_V2) || (pg_snapshot_max_sequence p =? 0)
    with invalid_audit "invalid audit page schema or snapshot" ;;
  reject_if is_some_and (q_snapshot_max_sequence q) (fun expected => negb (expected =? pg_snapshot_max_sequence p))
    with invalid_audit "audit snapshot changed between pages" ;;
  reject_if q_limit q <? llen (pg_events p) with invalid_audit "audit page exceeds requested limit" ;;
  _ ← records_validate (pg_snapshot_max_sequence p) q None (pg_events p);
  match pg_next_before_sequence p with
  | Some next =>
      reject_if negb (cursor_valid p q next) with invalid_audit "invalid audit page cursor" ;; Ok tt
  | None => Ok tt
  end.

End WithValues.
