(* ===== verification/VaultModel.v ===== *)
(** * VaultModel: the records of the vault

    [rekey-vault/src/model.rs] and [command.rs]: audit events and drafts, the
    usage ledger's rows and its sealed state. A blob of fixed width is its bytes.
    The class [RecordCodec] holds what serde derives for these records. *)

From S2P Require Import Prelude Errors Domain Codec Approval Json Parameters AuditRecords.

Module event_type.
Definition VAULT_INITIALIZED : string := "vault.initialized".
Definition VAULT_UNLOCKED : string := "vault.unlocked".
Definition VAULT_UNLOCK_FAILED : string := "vault.unlock_failed".
Definition VAULT_LOCKED : string := "vault.locked".
Definition AUDIT_RETENTION_CHANGED : string := "audit.retention_changed".
Definition VAULT_VRK_ROTATED : string := "vault.vrk_rotated".
Definition VAULT_DEK_ROTATED : string := "vault.dek_rotated".
Definition VAULT_PASSWORD_CHANGED : string := "vault.password_changed".
Definition VAULT_PASSWORD_CHANGE_FAILED : string := "vault.password_change_failed".
Definition VAULT_RECOVERY_ROTATED : string := "vault.recovery_rotated".
Definition VAULT_RECOVERY_ROTATION_FAILED : string := "vault.recovery_rotation_failed".
Definition CREDENTIAL_CREATED : string := "credential.created".
Definition CREDENTIAL_ROTATED : string := "credential.rotated".
Definition CREDENTIAL_REVOKED : string := "credential.revoked".
Definition ACTION_CREATED : string := "action.created".
Definition ACTION_UPDATED : string := "action.updated".
Definition ACTION_DISABLED : string := "action.disabled".
Definition POLICY_ACTIVATED : string := "policy.activated".
Definition POLICY_TRUST_INSTALLED : string := "policy.trust_installed".
Definition RESTORE_COMPLETED : string := "restore.completed".
Definition AUDIT_PRUNED : string := "audit.pruned".
Definition APPROVAL_APPROVED : string := "approval.approved".
Definition APPROVAL_REJECTED : string := "approval.rejected".
Definition APPROVAL_ACCEPTED : string := "approval.accepted".
Definition GITHUB_CONNECTOR_AUTHORIZED : string := "connector.github.authorized".
Definition GITHUB_TOKEN_REVOKED : string := "connector.github.token_revoked".
Definition VAULT_LEASE_ISSUED : string := "vault.lease.issued".
Definition VAULT_LEASE_REVOKED : string := "vault.lease.revoked".
Definition EXECUTION_STARTED : string := "execution.started".
Definition EXECUTION_FINISHED : string := "execution.finished".
Definition EXECUTION_BLOCKED : string := "execution.blocked".
Definition EXECUTION_INDETERMINATE : string := "execution.indeterminate".
Definition RUNTIME_FAULTED : string := "runtime.faulted".
End event_type.

Module outcome.
Definition SUCCESS : string := "success".
Definition FAILURE : string := "failure".
Definition DENIED : string := "denied".
Definition UNKNOWN : string := "unknown".
End outcome.

Record AuthorizationEvidence := mkAuthorizationEvidence {
  au_principal_id : PrincipalId;
  au_policy_version : Z;
  au_policy_digest : Digest;
  au_policy_rule_id : option PolicyRuleId;
  au_resource_type : string;
  au_resource_id : string;
  au_parameter_hash : Digest;
}.
#[export] Instance AuthorizationEvidence_eq_dec : EqDecision AuthorizationEvidence.
Proof. solve_decision. Defined.

Inductive UsageAdmission : Type := Started | BudgetDenied.
Record UsageTotals := mkUsageTotals { ut_requests : Z; ut_output_tokens : Z }.

Record UsageRecord := mkUsageRecord {
  u_request_id : RequestId;
  u_principal_id : PrincipalId;
  u_instance_slug : string;
  u_utc_day : Z;
  u_started_at_ms : Z;
  u_context_json : string;
  u_generation_max_output : option Z;
  u_output_tokens : option Z;
  u_source : option string;
  u_terminal_json : option string;
  u_settled_at_ms : option Z;
}.
#[export] Instance UsageRecord_eq_dec : EqDecision UsageRecord.
Proof. solve_decision. Defined.

Record UsageState := mkUsageState {
  st_revision : Z;
  st_record_count : Z;
  st_records_digest : Digest;
  st_seal_nonce : list Z;
  st_seal_ciphertext : list Z;
}.

(** Trusted executor input derived from a signed profile. *)
Record ProfileUsageStart := mkProfileUsageStart {
  ps_instance_slug : string;
  ps_max_requests_per_day : Z;
  ps_max_output_tokens_per_day : Z;
  ps_generation_max_output : option Z;
}.

Section WithValues.
Context {SJ : Serde} {VW : ValueWriter}.

Record UsageContext := mkUsageContext {
  uc_request_context : option RequestAuditContext;
  uc_session_id : SessionId;
  uc_action_id : ActionId;
  uc_action_version : Z;
  uc_credential_id : CredentialId;
  uc_credential_version : option Z;
  uc_authorization : AuthorizationEvidence;
}.
#[export] Instance UsageContext_eq_dec : EqDecision UsageContext.
Proof. solve_decision. Defined.

Record AuditEvent := mkAuditEvent {
  e_event_id : list Z;
  e_request_id : option RequestId;
  e_session_id : option SessionId;
  e_action_id : option ActionId;
  e_action_version : option Z;
  e_credential_id : option CredentialId;
  e_credential_version : option Z;
  e_authorization : option AuthorizationEvidence;
  e_approval : option ApprovalEvidence;
  e_usage : option UsageEvidence;
  e_request_context : option RequestAuditContext;
  e_event_type : string;
  e_outcome : string;
  e_reason_code : string;
  e_upstream_status : option Z;
  e_latency_ms : option Z;
  e_created_at_ms : Z;
}.

(** An event before the worker assigns [event_id] and [created_at_ms]. *)
Record AuditDraft := mkAuditDraft {
  d_request_id : option RequestId;
  d_session_id : option SessionId;
  d_action_id : option ActionId;
  d_action_version : option Z;
  d_credential_id : option CredentialId;
  d_credential_version : option Z;
  d_authorization : option AuthorizationEvidence;
  d_approval : option ApprovalEvidence;
  d_usage : option UsageEvidence;
  d_request_context : option RequestAuditContext;
  d_event_type : string;
  d_outcome : string;
  d_reason_code : string;
  d_upstream_status : option Z;
  d_latency_ms : option Z;
}.

Record AuditMetadata := mkAuditMetadata {
  md_request_context : option RequestAuditContext;
  md_usage : option UsageEvidence;
}.
(** The tuple that a settlement stores as text. *)
Record Terminal := mkTerminal {
  t_event_type : string;
  t_outcome : string;
  t_reason_code : string;
  t_upstream_status : option Z;
  t_latency_ms : option Z;
  t_credential_version : option Z;
}.

End WithValues.

(** [serde_json] on the derived codecs of the records above. *)
Class RecordCodec `{ValueWriter} := {
  metadata_to_string : AuditMetadata -> option string;
  metadata_from_str : string -> option AuditMetadata;
  context_to_string : UsageContext -> option string;
  context_from_str : string -> option UsageContext;
  terminal_to_string : Terminal -> option string;
  record_to_vec : AuditRecord -> option (list Z);
  page_to_vec : AuditPage -> option (list Z);
}.
(** What is written reads back; a [String] is no longer than an [isize]. *)
Class RecordCodecLaws `{RecordCodec} : Prop := {
  metadata_roundtrip m s : metadata_to_string m = Some s -> metadata_from_str s = Some m;
  context_roundtrip c s : context_to_string c = Some s -> context_from_str s = Some c;
  terminal_injective t t' s : terminal_to_string t = Some s -> terminal_to_string t' = Some s -> t = t';
  context_length c s : context_to_string c = Some s -> slen s <= i64_max;
  terminal_length t s : terminal_to_string t = Some s -> slen s <= i64_max;
}.

(** * Associated data, and the cipher it authenticates with

    [rekey-vault/src/crypto/aad.rs]: the fixed layout that binds a ciphertext to
    its purpose, vault, object, version, kind and constraints. The cipher,
    AES-256-GCM of the crate [aes_gcm], is the class [Aead]. *)

Inductive AadPurpose : Type :=
  | WrapVrk | WrapDek | CredentialPayload | VaultIntegrity | CredentialStateSeal | PolicyStateSeal
  | PolicyTrustSeal | PolicyBundleSeal | LeaseJournalWrapDek | LeaseJournalPayload
  | LeaseJournalStateSeal | AuditRetentionSeal | ActionStateSeal | ProfileUsageSeal.
Definition purpose_code (p : AadPurpose) : Z :=
  match p with
  | WrapVrk => 1
  | WrapDek => 2
  | CredentialPayload => 3
  | VaultIntegrity => 4
  | CredentialStateSeal => 5
  | PolicyStateSeal => 6
  | PolicyTrustSeal => 7
  | PolicyBundleSeal => 8
  | LeaseJournalWrapDek => 9
  | LeaseJournalPayload => 10
  | LeaseJournalStateSeal => 11
  | AuditRetentionSeal => 12
  | ActionStateSeal => 13
  | ProfileUsageSeal => 14
  end.

Definition AAD_MAGIC : list Z := bytes_of "RKAD".
Definition AAD_LEN : Z := 84.
Definition AAD_VERSION_V1 : Z := 1.
Definition CRYPTO_SUITE_V1_CODE : Z := 1.

Record AadV1 := mkAadV1 {
  purpose : AadPurpose;
  aad_vault_id : Uuid;
  object_id : list Z;
  object_version : Z;
  credential_kind : Z;
  constraints_hash : Digest;
}.

(** [AadV1::encode]: the pieces in the order of the copies, which fill the array. *)
Definition aad_encode (a : AadV1) : list Z :=
  AAD_MAGIC ++ be_bytes 2 AAD_VERSION_V1 ++ be_bytes 2 (purpose_code (purpose a))
  ++ id_as_bytes (aad_vault_id a) ++ object_id a ++ be_bytes 8 (object_version a)
  ++ be_bytes 2 (credential_kind a) ++ be_bytes 2 CRYPTO_SUITE_V1_CODE ++ constraints_hash a.

(** The ranges of the fields' types. *)
Record aad_ok (a : AadV1) : Prop := {
  ao_vault : 0 <= aad_vault_id a < 2 ^ 128;
  ao_object : length (object_id a) = 16%nat;
  ao_version : in_u64 (object_version a);
  ao_kind : 0 <= credential_kind a < 2 ^ 16;
  ao_hash : length (constraints_hash a) = 32%nat;
}.

(** ** The cipher *)

(** [Aes256Gcm::encrypt] and [decrypt]: key, nonce, associated data, message. *)
Class Aead := {
  gcm_encrypt : list Z -> list Z -> list Z -> list Z -> option (list Z);
  gcm_decrypt : list Z -> list Z -> list Z -> list Z -> option (list Z);
}.
(** Decryption inverts encryption; it recomputes the tag, so it accepts nothing
    that encryption does not produce. The tag is 16 bytes. *)
Class AeadLaws `{Aead} : Prop := {
  gcm_roundtrip k n a m c : gcm_encrypt k n a m = Some c -> gcm_decrypt k n a c = Some m;
  gcm_recomputes k n a m c : gcm_decrypt k n a c = Some m -> gcm_encrypt k n a m = Some c;
  gcm_length k n a m c : gcm_encrypt k n a m = Some c -> llen c = llen m + 16;
}.

(** ** The layout is injective *)

Lemma purpose_code_inj p q : purpose_code p = purpose_code q -> p = q.
Proof. by destruct p, q. Qed.
Lemma purpose_code_range p : 0 <= purpose_code p < 2 ^ 16.
Proof. destruct p; cbn; lia. Qed.

Lemma aad_encode_length a : aad_ok a -> llen (aad_encode a) = AAD_LEN.
Proof.
  intros [_ Ho _ _ Hh]. unfold aad_encode, llen, id_as_bytes.
  rewrite !length_app, !length_be_bytes, Ho, Hh. reflexivity.
Qed.

(** Associated data of two objects are the same only for the same object: every
    field is bound by the tag that covers it. *)
Theorem aad_binds a b : aad_ok a -> aad_ok b -> aad_encode a = aad_encode b -> a = b.
Proof.
  intros [Hva Hoa Hna Hka Hha] [Hvb Hob Hnb Hkb Hhb] E. unfold aad_encode, id_as_bytes in E.
  apply app_inv_head in E. apply app_inv_head in E.
  do 5 (apply app_inj_1 in E as [? E]; [|by rewrite ?length_be_bytes, ?Hoa]).
  apply app_inv_head in E.
  destruct a as [p v o n k h], b as [p' v' o' n' k' h']; cbn in *. unfold in_u64, u64_max in *.
  f_equal; [apply purpose_code_inj, (be_bytes_inj 2)|apply (be_bytes_inj 16)|..|apply (be_bytes_inj 8)|apply (be_bytes_inj 2)|]; 
    try done; try apply purpose_code_range; cbn; lia.
Qed.
