(* ===== verification/VaultTables.v ===== *)
(** * VaultTables: the records behind the keys of the vault

    [rekey-vault/src/model.rs] and the tables of [store/schema.rs] that hold keys,
    credentials, policies, leases, certificates and actions. A blob is its bytes, an
    INTEGER is signed; a [Raw] row is what SQLite answers before it is decoded. *)

From S2P Require Import Prelude Errors Domain SessionState Signed.

(** [rekey-domain/src/authorization.rs]. *)
Inductive PolicyMode : Type := Personal | Team.
#[export] Instance PolicyMode_eq_dec : EqDecision PolicyMode.
Proof. solve_decision. Defined.

(** ** The header and the wrapped keys *)

Record RawHeader := mkRawHeader {
  rh_format_version : Z;
  rh_vault_id : list Z;
  rh_generation : list Z;
  rh_generation_mac : list Z;
  rh_pki_digest : list Z;
  rh_crypto_suite : string;
  rh_created_at_ms : Z;
  rh_schema_digest : list Z;
  rh_integrity_nonce : list Z;
  rh_integrity_ciphertext : list Z;
}.
Record VaultHeaderRecord := mkVaultHeaderRecord {
  hd_vault_id : Uuid;
  hd_format_version : Z;
  hd_generation : Z;
  hd_generation_mac : list Z;
  hd_pki_digest : Digest;
  hd_crypto_suite : string;
  hd_created_at_ms : Z;
  hd_schema_digest : Digest;
  hd_integrity_nonce : list Z;
  hd_integrity_ciphertext : list Z;
}.

Inductive WrapperKind : Type := WrapperPassword | WrapperRecovery.
#[export] Instance WrapperKind_eq_dec : EqDecision WrapperKind.
Proof. solve_decision. Defined.
Definition wrapper_kind_as_str (k : WrapperKind) : string :=
  match k with WrapperPassword => "password" | WrapperRecovery => "recovery" end.
Definition wrapper_kind_parse (s : string) : option WrapperKind :=
  if str_eqb s "password" then Some WrapperPassword
  else if str_eqb s "recovery" then Some WrapperRecovery else None.
Inductive WrapperState : Type := WrapperActive | WrapperDisabled.
Definition wrapper_state_as_str (s : WrapperState) : string :=
  match s with WrapperActive => "active" | WrapperDisabled => "disabled" end.
Definition wrapper_state_parse (s : string) : option WrapperState :=
  if str_eqb s "active" then Some WrapperActive
  else if str_eqb s "disabled" then Some WrapperDisabled else None.
Record RawWrapper := mkRawWrapper {
  rw_wrapper_id : list Z;
  rw_kind : string;
  rw_state : string;
  rw_kdf_algorithm : string;
  rw_kdf_params_json : string;
  rw_salt : list Z;
  rw_nonce : list Z;
  rw_wrapped_vrk : list Z;
  rw_created_at_ms : Z;
  rw_disabled_at_ms : option Z;
}.
Record KeyWrapperRecord := mkKeyWrapperRecord {
  kw_wrapper_id : Uuid;
  kw_kind : WrapperKind;
  kw_state : WrapperState;
  kw_kdf_algorithm : string;
  kw_kdf_params_json : string;
  kw_salt : list Z;
  kw_nonce : list Z;
  kw_wrapped_vrk : list Z;
  kw_created_at_ms : Z;
  kw_disabled_at_ms : option Z;
}.

(** ** Credentials *)

#[export] Instance CredentialState_eq_dec : EqDecision CredentialState.
Proof. solve_decision. Defined.
#[export] Instance VersionState_eq_dec : EqDecision VersionState.
Proof. solve_decision. Defined.

Record RawCredential := mkRawCredential {
  rc_credential_id : list Z;
  rc_label : string;
  rc_kind : string;
  rc_state : string;
  rc_current_version : Z;
  rc_created_at_ms : Z;
  rc_updated_at_ms : Z;
  rc_revoked_at_ms : option Z;
  rc_state_nonce : list Z;
  rc_state_ciphertext : list Z;
}.
Record CredentialRecord := mkCredentialRecord {
  cr_credential_id : CredentialId;
  cr_label : string;
  cr_kind : CredentialKind;
  cr_state : CredentialState;
  cr_current_version : Z;
  cr_created_at_ms : Z;
  cr_updated_at_ms : Z;
  cr_revoked_at_ms : option Z;
  cr_state_nonce : list Z;
  cr_state_ciphertext : list Z;
}.
Record RawVersion := mkRawVersion {
  rv_credential_id : list Z;
  rv_version : Z;
  rv_state : string;
  rv_aad_version : Z;
  rv_crypto_suite : string;
  rv_dek_nonce : list Z;
  rv_wrapped_dek : list Z;
  rv_payload_nonce : list Z;
  rv_encrypted_payload : list Z;
  rv_created_at_ms : Z;
  rv_retired_at_ms : option Z;
}.
Record CredentialVersionRecord := mkCredentialVersionRecord {
  cv_credential_id : CredentialId;
  cv_version : Z;
  cv_state : VersionState;
  cv_aad_version : Z;
  cv_crypto_suite : string;
  cv_dek_nonce : list Z;
  cv_wrapped_dek : list Z;
  cv_payload_nonce : list Z;
  cv_encrypted_payload : list Z;
  cv_created_at_ms : Z;
  cv_retired_at_ms : option Z;
}.

(** ** Actions *)

Inductive ActionState : Type := ActionActive | ActionRetired | ActionOff.
#[export] Instance ActionState_eq_dec : EqDecision ActionState.
Proof. solve_decision. Defined.
Definition action_state_as_str (s : ActionState) : string :=
  match s with ActionActive => "active" | ActionRetired => "retired" | ActionOff => "disabled" end.
Definition action_state_parse (s : string) : option ActionState :=
  if str_eqb s "active" then Some ActionActive
  else if str_eqb s "retired" then Some ActionRetired
  else if str_eqb s "disabled" then Some ActionOff else None.
Record RawAction := mkRawAction {
  rn_native_plugin_json : option string;
  rn_text_stream_json : option string;
  rn_action_id : list Z;
  rn_version : Z;
  rn_name : string;
  rn_state : string;
  rn_credential_id : list Z;
  rn_origin : string;
  rn_method : string;
  rn_target_json : string;
  rn_auth_header : string;
  rn_auth_prefix : string;
  rn_request_max_bytes : Z;
  rn_allowed_extra_headers_json : string;
  rn_response_max_bytes : Z;
  rn_allowed_response_headers_json : string;
  rn_timeout_ms : Z;
  rn_created_at_ms : Z;
  rn_seal_nonce : list Z;
  rn_seal_ciphertext : list Z;
}.
Record ActionRecord := mkActionRecord {
  ac_native_plugin_json : option string;
  ac_text_stream_json : option string;
  ac_action_id : ActionId;
  ac_version : Z;
  ac_name : string;
  ac_state : ActionState;
  ac_credential_id : CredentialId;
  ac_origin : string;
  ac_method : string;
  ac_target_json : string;
  ac_auth_header : string;
  ac_auth_prefix : string;
  ac_request_max_bytes : Z;
  ac_allowed_extra_headers_json : string;
  ac_response_max_bytes : Z;
  ac_allowed_response_headers_json : string;
  ac_timeout_ms : Z;
  ac_created_at_ms : Z;
  ac_seal_nonce : list Z;
  ac_seal_ciphertext : list Z;
}.

(** ** Retention and policies *)

#[export] Instance PolicyVerificationKey_eq_dec : EqDecision PolicyVerificationKey.
Proof. solve_decision. Defined.

Record RawRetention := mkRawRetention {
  rr_days : option Z;
  rr_updated_at_ms : Z;
  rr_seal_nonce : list Z;
  rr_seal_ciphertext : list Z;
}.
Record AuditRetentionRecord := mkAuditRetentionRecord {
  ar_days : option Z;
  ar_updated_at_ms : Z;
  ar_seal_nonce : list Z;
  ar_seal_ciphertext : list Z;
}.
Record RawPolicyState := mkRawPolicyState {
  rps_mode : string;
  rps_trust_installed : bool;
  rps_bundle_activated : bool;
  rps_signer_id : option (list Z);
  rps_highest_version : option Z;
  rps_policy_digest : option (list Z);
  rps_bundle_digest : option (list Z);
  rps_updated_at_ms : Z;
  rps_seal_nonce : list Z;
  rps_seal_ciphertext : list Z;
}.
Record PolicyStateRecord := mkPolicyStateRecord {
  pst_mode : PolicyMode;
  pst_trust_installed : bool;
  pst_bundle_activated : bool;
  pst_signer_id : option Uuid;
  pst_highest_version : option Z;
  pst_policy_digest : option Digest;
  pst_bundle_digest : option Digest;
  pst_updated_at_ms : Z;
  pst_seal_nonce : list Z;
  pst_seal_ciphertext : list Z;
}.
Record RawPolicyTrust := mkRawPolicyTrust {
  rpt_signer_id : list Z;
  rpt_algorithm : string;
  rpt_public_key : list Z;
  rpt_installed_at_ms : Z;
  rpt_seal_nonce : list Z;
  rpt_seal_ciphertext : list Z;
}.
Record PolicyTrustRecord := mkPolicyTrustRecord {
  ptr_signer_id : Uuid;
  ptr_key : PolicyVerificationKey;
  ptr_installed_at_ms : Z;
  ptr_seal_nonce : list Z;
  ptr_seal_ciphertext : list Z;
}.
Record RawPolicyBundle := mkRawPolicyBundle {
  rpb_signer_id : list Z;
  rpb_version : Z;
  rpb_expires_at_ms : Z;
  rpb_policy_digest : list Z;
  rpb_bundle_digest : list Z;
  rpb_bundle_json : list Z;
  rpb_activated_at_ms : Z;
  rpb_seal_nonce : list Z;
  rpb_seal_ciphertext : list Z;
}.
Record PolicyBundleRecord := mkPolicyBundleRecord {
  pbr_signer_id : Uuid;
  pbr_version : Z;
  pbr_expires_at_ms : Z;
  pbr_policy_digest : Digest;
  pbr_bundle_digest : Digest;
  pbr_bundle_json : list Z;
  pbr_activated_at_ms : Z;
  pbr_seal_nonce : list Z;
  pbr_seal_ciphertext : list Z;
}.
Record PolicyMaterial := mkPolicyMaterial {
  pm_state : PolicyStateRecord;
  pm_trust : option PolicyTrustRecord;
  pm_bundle : option PolicyBundleRecord;
}.

(** ** Certificates and revocation lists *)

Inductive PkiCertificateState : Type := PkiReserved | PkiIssued | PkiFailed.
#[export] Instance PkiCertificateState_eq_dec : EqDecision PkiCertificateState.
Proof. solve_decision. Defined.
(** [state as u8]. *)
Definition pki_state_code (s : PkiCertificateState) : Z :=
  match s with PkiReserved => 0 | PkiIssued => 1 | PkiFailed => 2 end.
Record RawCertificate := mkRawCertificate {
  rct_serial : list Z;
  rct_credential_id : list Z;
  rct_credential_version : Z;
  rct_request_id : list Z;
  rct_request_digest : list Z;
  rct_created_at_ms : Z;
  rct_state : Z;
  rct_finished_at_ms : option Z;
  rct_certificate_der : option (list Z);
  rct_issuer_der : option (list Z);
  rct_revoked_at_ms : option Z;
}.
Record PkiCertificateRecord := mkPkiCertificateRecord {
  pc_serial : list Z;
  pc_credential_id : CredentialId;
  pc_credential_version : Z;
  pc_request_id : RequestId;
  pc_request_digest : Digest;
  pc_created_at_ms : Z;
  pc_state : PkiCertificateState;
  pc_finished_at_ms : option Z;
  pc_certificate_der : option (list Z);
  pc_issuer_der : option (list Z);
  pc_revoked_at_ms : option Z;
}.
Record RawCrl := mkRawCrl {
  rcl_number : list Z;
  rcl_credential_id : list Z;
  rcl_credential_version : Z;
  rcl_request_id : list Z;
  rcl_snapshot_digest : list Z;
  rcl_created_at_ms : Z;
  rcl_state : Z;
  rcl_finished_at_ms : option Z;
  rcl_crl_der : option (list Z);
  rcl_issuer_der : option (list Z);
}.
Record PkiCrlRecord := mkPkiCrlRecord {
  pl_number : Z;
  pl_credential_id : CredentialId;
  pl_credential_version : Z;
  pl_request_id : RequestId;
  pl_snapshot_digest : Digest;
  pl_created_at_ms : Z;
  pl_state : PkiCertificateState;
  pl_finished_at_ms : option Z;
  pl_crl_der : option (list Z);
  pl_issuer_der : option (list Z);
}.

(** ** Leases *)

Record LeaseSourceRef := mkLeaseSourceRef { ls_origin : string; ls_mount : string; ls_role : string }.
Record LeaseExecutionContext := mkLeaseExecutionContext {
  lx_request_id : RequestId;
  lx_session_id : SessionId;
  lx_action_id : ActionId;
  lx_action_version : Z;
  lx_credential_id : CredentialId;
  lx_credential_version : Z;
}.
Inductive LeasePhase : Type := AcquireIntent | Issued | Renewing | CleanupStarted | LeaseComplete.
#[export] Instance LeasePhase_eq_dec : EqDecision LeasePhase.
Proof. solve_decision. Defined.
Definition lease_phase_as_str (p : LeasePhase) : string :=
  match p with
  | AcquireIntent => "acquire_intent"
  | Issued => "issued"
  | Renewing => "renewing"
  | CleanupStarted => "cleanup_started"
  | LeaseComplete => "complete"
  end.
Definition lease_phase_parse (s : string) : option LeasePhase :=
  if str_eqb s "acquire_intent" then Some AcquireIntent
  else if str_eqb s "issued" then Some Issued
  else if str_eqb s "renewing" then Some Renewing
  else if str_eqb s "cleanup_started" then Some CleanupStarted
  else if str_eqb s "complete" then Some LeaseComplete else None.
Definition lease_phase_code (p : LeasePhase) : Z :=
  match p with AcquireIntent => 1 | Issued => 2 | Renewing => 3 | CleanupStarted => 4 | LeaseComplete => 5 end.
Inductive LeaseCleanupOutcome : Type := CleanupNone | Unconfirmed | CleanupConfirmed.
#[export] Instance LeaseCleanupOutcome_eq_dec : EqDecision LeaseCleanupOutcome.
Proof. solve_decision. Defined.
Definition cleanup_outcome_as_str (o : LeaseCleanupOutcome) : string :=
  match o with CleanupNone => "none" | Unconfirmed => "unconfirmed" | CleanupConfirmed => "confirmed" end.
Definition cleanup_outcome_parse (s : string) : option LeaseCleanupOutcome :=
  if str_eqb s "none" then Some CleanupNone
  else if str_eqb s "unconfirmed" then Some Unconfirmed
  else if str_eqb s "confirmed" then Some CleanupConfirmed else None.
Definition cleanup_outcome_code (o : LeaseCleanupOutcome) : Z :=
  match o with CleanupNone => 0 | Unconfirmed => 1 | CleanupConfirmed => 2 end.
Record RawLease := mkRawLease {
  rl_registration_id : list Z;
  rl_request_id : list Z;
  rl_session_id : list Z;
  rl_action_id : list Z;
  rl_action_version : Z;
  rl_credential_id : list Z;
  rl_credential_version : Z;
  rl_source_ref_hash : list Z;
  rl_revision : Z;
  rl_phase : string;
  rl_created_at_ms : Z;
  rl_updated_at_ms : Z;
  rl_issued_at_ms : option Z;
  rl_last_confirmed_expires_at_ms : option Z;
  rl_renewable : option Z;
  rl_cleanup_outcome : string;
  rl_completed_at_ms : option Z;
  rl_last_audit_event_id : list Z;
  rl_aad_version : Z;
  rl_crypto_suite : string;
  rl_dek_nonce : list Z;
  rl_wrapped_dek : list Z;
  rl_payload_nonce : list Z;
  rl_encrypted_payload : list Z;
}.
Record LeaseJournalRecord := mkLeaseJournalRecord {
  lj_registration_id : Uuid;
  lj_context : LeaseExecutionContext;
  lj_source_ref_hash : Digest;
  lj_revision : Z;
  lj_phase : LeasePhase;
  lj_created_at_ms : Z;
  lj_updated_at_ms : Z;
  lj_issued_at_ms : option Z;
  lj_last_confirmed_expires_at_ms : option Z;
  lj_renewable : option bool;
  lj_cleanup_outcome : LeaseCleanupOutcome;
  lj_completed_at_ms : option Z;
  lj_last_audit_event_id : list Z;
  lj_aad_version : Z;
  lj_crypto_suite : string;
  lj_dek_nonce : list Z;
  lj_wrapped_dek : list Z;
  lj_payload_nonce : list Z;
  lj_encrypted_payload : list Z;
}.
Record RawLeaseState := mkRawLeaseState {
  rls_revision : Z;
  rls_record_count : Z;
  rls_records_digest : list Z;
  rls_seal_nonce : list Z;
  rls_seal_ciphertext : list Z;
  rls_last_audit_event_id : option (list Z);
}.
Record LeaseJournalState := mkLeaseJournalState {
  lst_last_audit_event_id : option (list Z);
  lst_revision : Z;
  lst_record_count : Z;
  lst_records_digest : Digest;
  lst_seal_nonce : list Z;
  lst_seal_ciphertext : list Z;
}.

(** ** The tables *)

Record Tables := mkTables {
  vault_header : option RawHeader;
  key_wrappers : list RawWrapper;
  credentials : list RawCredential;
  credential_versions : list RawVersion;
  action_rows : list RawAction;
  audit_retention : list RawRetention;
  policy_state : option RawPolicyState;
  policy_trust : option RawPolicyTrust;
  policy_bundle : option RawPolicyBundle;
  workload_token_uses : list (list Z * Z * Z);
  pki_certificates : list RawCertificate;
  pki_crls : list RawCrl;
  vault_lease_journal : list RawLease;
  vault_lease_journal_state : option RawLeaseState;
}.
Definition no_tables : Tables := mkTables None [] [] [] [] [] None None None [] [] [] [] None.
Definition set_header x t := mkTables x (key_wrappers t) (credentials t) (credential_versions t) (action_rows t) (audit_retention t) (policy_state t) (policy_trust t) (policy_bundle t) (workload_token_uses t) (pki_certificates t) (pki_crls t) (vault_lease_journal t) (vault_lease_journal_state t).
Definition set_wrappers x t := mkTables (vault_header t) x (credentials t) (credential_versions t) (action_rows t) (audit_retention t) (policy_state t) (policy_trust t) (policy_bundle t) (workload_token_uses t) (pki_certificates t) (pki_crls t) (vault_lease_journal t) (vault_lease_journal_state t).
Definition set_credentials x t := mkTables (vault_header t) (key_wrappers t) x (credential_versions t) (action_rows t) (audit_retention t) (policy_state t) (policy_trust t) (policy_bundle t) (workload_token_uses t) (pki_certificates t) (pki_crls t) (vault_lease_journal t) (vault_lease_journal_state t).
Definition set_versions x t := mkTables (vault_header t) (key_wrappers t) (credentials t) x (action_rows t) (audit_retention t) (policy_state t) (policy_trust t) (policy_bundle t) (workload_token_uses t) (pki_certificates t) (pki_crls t) (vault_lease_journal t) (vault_lease_journal_state t).
Definition set_actions x t := mkTables (vault_header t) (key_wrappers t) (credentials t) (credential_versions t) x (audit_retention t) (policy_state t) (policy_trust t) (policy_bundle t) (workload_token_uses t) (pki_certificates t) (pki_crls t) (vault_lease_journal t) (vault_lease_journal_state t).
Definition set_retention x t := mkTables (vault_header t) (key_wrappers t) (credentials t) (credential_versions t) (action_rows t) x (policy_state t) (policy_trust t) (policy_bundle t) (workload_token_uses t) (pki_certificates t) (pki_crls t) (vault_lease_journal t) (vault_lease_journal_state t).
Definition set_policy_state x t := mkTables (vault_header t) (key_wrappers t) (credentials t) (credential_versions t) (action_rows t) (audit_retention t) x (policy_trust t) (policy_bundle t) (workload_token_uses t) (pki_certificates t) (pki_crls t) (vault_lease_journal t) (vault_lease_journal_state t).
Definition set_policy_trust x t := mkTables (vault_header t) (key_wrappers t) (credentials t) (credential_versions t) (action_rows t) (audit_retention t) (policy_state t) x (policy_bundle t) (workload_token_uses t) (pki_certificates t) (pki_crls t) (vault_lease_journal t) (vault_lease_journal_state t).
Definition set_policy_bundle x u t := mkTables (vault_header t) (key_wrappers t) (credentials t) (credential_versions t) (action_rows t) (audit_retention t) (policy_state t) (policy_trust t) x u (pki_certificates t) (pki_crls t) (vault_lease_journal t) (vault_lease_journal_state t).
Definition set_leases x t := mkTables (vault_header t) (key_wrappers t) (credentials t) (credential_versions t) (action_rows t) (audit_retention t) (policy_state t) (policy_trust t) (policy_bundle t) (workload_token_uses t) (pki_certificates t) (pki_crls t) x (vault_lease_journal_state t).
Definition set_lease_state x t := mkTables (vault_header t) (key_wrappers t) (credentials t) (credential_versions t) (action_rows t) (audit_retention t) (policy_state t) (policy_trust t) (policy_bundle t) (workload_token_uses t) (pki_certificates t) (pki_crls t) (vault_lease_journal t) x.

(** ** What the worker holds besides *)

(** A remembered desktop's verifier (authority/desktop.rs). *)
Record PresenceGrant := mkPresenceGrant {
  pg_key_hash : Digest;
  pg_issued_at_ms : Z;
  pg_expires_at_ms : Z;
  pg_monotonic_deadline : Instant;
  pg_step_up : bool;
}.
Inductive PresenceState : Type := PresenceActive (grant : PresenceGrant) | DeadlineOnly (grant : PresenceGrant).
Definition into_grant (p : PresenceState) : PresenceGrant :=
  match p with PresenceActive g => g | DeadlineOnly g => g end.

(** The state outside the database: the vault the anchors were opened for, the
    generation file, [None] when it is missing, the protected item where the platform
    has one, the count of failed proofs and the end of the back-off they caused. *)
Record Guard := mkGuard {
  g_vault_id : Uuid;
  g_file : option (list Z);
  g_protected : option (option Z);
  g_failed_unlocks : Z;
  g_next_unlock_at : Instant;
}.
Definition set_g_file x g := mkGuard (g_vault_id g) x (g_protected g) (g_failed_unlocks g) (g_next_unlock_at g).
Definition set_g_protected x g := mkGuard (g_vault_id g) (g_file g) x (g_failed_unlocks g) (g_next_unlock_at g).
Definition set_g_failed n g := mkGuard (g_vault_id g) (g_file g) (g_protected g) n (g_next_unlock_at g).
Definition set_g_next t g := mkGuard (g_vault_id g) (g_file g) (g_protected g) (g_failed_unlocks g) t.
