(* ===== verification/VaultStore.v ===== *)
(** * VaultStore: the database of the vault, and its audit table

    [rekey-vault/src/store/]: schema.rs (the tables of the audit and of the usage
    ledger), audit.rs, the appends of sqlite.rs, and recovery.rs. A database is a
    list of rows per table; a transaction is a working copy that a commit makes
    durable. The class [Host] holds what the machine answers at its n-th
    question: clocks, entropy, and whether a statement or a file operation works. *)

From S2P Require Import Prelude Errors Domain Codec Json SessionState Approval AuditRecords VaultModel VaultTables.

(** Milliseconds since the Unix epoch, unless the clock is before it; the monotonic
    clock; n random bytes; whether SQLite and the file system do what is asked. *)
Class Host := {
  since_epoch : nat -> option N;
  monotonic : nat -> Instant;
  entropy : nat -> nat -> option (list Z);
  db_works : nat -> bool;
  fs_works : nat -> bool;
}.
Class HostLaws `{Host} : Prop := {
  entropy_length t n b : entropy t n = Some b -> length b = n /\ Forall is_byte b;
}.

Definition u64_as_i64 (v : Z) : Z := if v <=? i64_max then v else v - 2 ^ 64.

(** ** Rows *)

Record RawAuditRow := mkRawAuditRow {
  raw_sequence : Z;
  raw_event_id : list Z;
  raw_request_id : option (list Z);
  raw_session_id : option (list Z);
  raw_action_id : option (list Z);
  raw_action_version : option Z;
  raw_credential_id : option (list Z);
  raw_credential_version : option Z;
  raw_principal_id : option (list Z);
  raw_policy_version : option Z;
  raw_policy_digest : option (list Z);
  raw_policy_rule_id : option (list Z);
  raw_resource_type : option string;
  raw_resource_id : option string;
  raw_parameter_hash : option (list Z);
  raw_approval_request_id : option (list Z);
  raw_approval_id : option (list Z);
  raw_approver_id : option (list Z);
  raw_event_type : string;
  raw_outcome : string;
  raw_reason_code : string;
  raw_upstream_status : option Z;
  raw_latency_ms : option Z;
  raw_created_at_ms : Z;
  raw_metadata_json : option string;
}.
Record RawUsageRow := mkRawUsageRow {
  ru_request_id : list Z;
  ru_principal_id : list Z;
  ru_instance_slug : string;
  ru_utc_day : Z;
  ru_started_at_ms : Z;
  ru_context_json : string;
  ru_generation_max_output : option Z;
  ru_output_tokens : option Z;
  ru_source : option string;
  ru_terminal_json : option string;
  ru_settled_at_ms : option Z;
}.
Record RawUsageState := mkRawUsageState {
  rs_revision : Z;
  rs_record_count : Z;
  rs_records_digest : list Z;
  rs_seal_nonce : list Z;
  rs_seal_ciphertext : list Z;
}.

(** [audit_events] is in the order of its keys, which AUTOINCREMENT never reuses:
    [audit_sequence] is the largest key that was ever given. *)
Record Database := mkDatabase {
  audit_events : list RawAuditRow;
  audit_sequence : Z;
  profile_usage : list RawUsageRow;
  profile_usage_state : option RawUsageState;
  vault_tables : Tables;
}.
Definition set_audit_events rows seq d := mkDatabase rows seq (profile_usage d) (profile_usage_state d) (vault_tables d).
Definition set_profile_usage rows d := mkDatabase (audit_events d) (audit_sequence d) rows (profile_usage_state d) (vault_tables d).
Definition set_usage_state st d := mkDatabase (audit_events d) (audit_sequence d) (profile_usage d) (Some st) (vault_tables d).
Definition set_tables (f : Tables -> Tables) d :=
  mkDatabase (audit_events d) (audit_sequence d) (profile_usage d) (profile_usage_state d) (f (vault_tables d)).

(** ** The vault and its monad *)

Record RollbackContext := mkRollbackContext {
  rb_vault_id : Uuid;
  source_generation : Z;
  high_water : option Z;
  history_missing : bool;
}.
Inductive VaultState : Type :=
  | VLocked
  | VUnlocked (vrk : list Z)
  | VFaulted
  | VRollbackSuspected (context : RollbackContext).

(** The worker: its connection ([v_db] is durable, [v_tx] the view of the open
    transaction), the state that authority depends on, its copy of the header, the
    grant of a remembered desktop, whether that desktop's file exists, and what is
    outside the database. [v_tick] counts the questions to the host. *)
Record Vault := mkVault {
  v_db : Database;
  v_tx : Database;
  v_state : VaultState;
  v_header : VaultHeaderRecord;
  v_presence : option PresenceState;
  v_desktop : bool;
  v_retention_clock : option Z;
  v_guard : Guard;
  v_tick : nat;
}.
Definition v_vault_id s := hd_vault_id (v_header s).
Definition set_v_db d s := mkVault d (v_tx s) (v_state s) (v_header s) (v_presence s) (v_desktop s) (v_retention_clock s) (v_guard s) (v_tick s).
Definition set_v_tx d s := mkVault (v_db s) d (v_state s) (v_header s) (v_presence s) (v_desktop s) (v_retention_clock s) (v_guard s) (v_tick s).
Definition set_v_state x s := mkVault (v_db s) (v_tx s) x (v_header s) (v_presence s) (v_desktop s) (v_retention_clock s) (v_guard s) (v_tick s).
Definition set_v_header h s := mkVault (v_db s) (v_tx s) (v_state s) h (v_presence s) (v_desktop s) (v_retention_clock s) (v_guard s) (v_tick s).
Definition set_v_presence p s := mkVault (v_db s) (v_tx s) (v_state s) (v_header s) p (v_desktop s) (v_retention_clock s) (v_guard s) (v_tick s).
Definition set_v_desktop b s := mkVault (v_db s) (v_tx s) (v_state s) (v_header s) (v_presence s) b (v_retention_clock s) (v_guard s) (v_tick s).
Definition set_v_clock c s := mkVault (v_db s) (v_tx s) (v_state s) (v_header s) (v_presence s) (v_desktop s) c (v_guard s) (v_tick s).
Definition set_v_guard g s := mkVault (v_db s) (v_tx s) (v_state s) (v_header s) (v_presence s) (v_desktop s) (v_retention_clock s) g (v_tick s).
Definition v_ticked s := mkVault (v_db s) (v_tx s) (v_state s) (v_header s) (v_presence s) (v_desktop s) (v_retention_clock s) (v_guard s) (S (v_tick s)).

Definition V (A : Type) : Type := Vault -> result AuthorityError A * Vault.
#[export] Instance V_ret : MRet V := fun A a s => (Ok a, s).
#[export] Instance V_bind : MBind V := fun A B f m s =>
  match m s with
  | (Ok a, s) => f a s
  | (Err e, s) => (Err e, s)
  end.
Definition vfail {A} (e : AuthorityError) : V A := fun s => (Err e, s).
Definition vreads {A} (f : Vault -> A) : V A := fun s => (Ok (f s), s).
Definition vmodify (f : Vault -> Vault) : V unit := fun s => (Ok tt, f s).
Definition vlift {A} (r : result AuthorityError A) : V A := fun s => (r, s).
(** A result of the domain crate, converted by [From]. *)
Definition domain {A} (r : result DomainError A) : V A := vlift (map_err Authority.Domain r).
Definition vreject (b : bool) (e : AuthorityError) : V unit := if b then vfail e else mret tt.
(** [map_err] on a computation, and running one for its result. *)
Definition vmap_err {A} (f : AuthorityError -> AuthorityError) (m : V A) : V A := fun s =>
  let '(r, s) := m s in (map_err f r, s).
Definition vtry {A} (m : V A) : V (result AuthorityError A) := fun s => let '(r, s) := m s in (Ok r, s).
Fixpoint veach {A} (f : A -> V unit) (l : list A) : V unit :=
  match l with
  | [] => mret tt
  | x :: rest => _ ← f x; veach f rest
  end.
Fixpoint vmap {A B} (f : A -> V B) (l : list A) : V (list B) :=
  match l with
  | [] => mret []
  | x :: rest => y ← f x; ys ← vmap f rest; mret (y :: ys)
  end.

Section WithHost.
Context {H : Host}.

(** [millis_at] of the clock. *)
Definition millis_at (elapsed : option N) : result AuthorityError Z :=
  match elapsed with
  | Some d => if Z.of_N d <=? i64_max then Ok (Z.of_N d) else Err Authority.ClockUnavailable
  | None => Err Authority.ClockUnavailable
  end.
Definition now_ms : V Z := fun s => (millis_at (since_epoch (v_tick s)), v_ticked s).
Definition instant_now : V Instant := fun s => (Ok (monotonic (v_tick s)), v_ticked s).
Definition random_array (n : nat) : V (list Z) := fun s =>
  (ok_or Authority.EntropyUnavailable (entropy (v_tick s) n), v_ticked s).

(** A statement that reads: outside a transaction, and in one. *)
Definition select_db {A} (f : Database -> A) : V A := fun s =>
  (if db_works (v_tick s) then Ok (f (v_db s)) else Err Authority.StorageUnavailable, v_ticked s).
Definition select {A} (f : Database -> A) : V A := fun s =>
  (if db_works (v_tick s) then Ok (f (v_tx s)) else Err Authority.StorageUnavailable, v_ticked s).
(** A statement that writes and violates a constraint in [None]; [e] is what the
    caller makes of the failure. *)
Definition exec (e : AuthorityError) (f : Database -> option Database) : V unit := fun s =>
  if db_works (v_tick s) then
    match f (v_tx s) with
    | Some t => (Ok tt, v_ticked (set_v_tx t s))
    | None => (Err e, v_ticked s)
    end
  else (Err e, v_ticked s).
(** A statement that also answers the number of rows it changed. *)
Definition exec_count (e : AuthorityError) (f : Database -> option (Database * Z)) : V Z := fun s =>
  if db_works (v_tick s) then
    match f (v_tx s) with
    | Some (t, n) => (Ok n, v_ticked (set_v_tx t s))
    | None => (Err e, v_ticked s)
    end
  else (Err e, v_ticked s).
(** A transaction that is dropped leaves [v_db] alone. *)
Definition begin_tx (e : AuthorityError) : V unit := fun s =>
  if db_works (v_tick s) then (Ok tt, v_ticked (set_v_tx (v_db s) s)) else (Err e, v_ticked s).
Definition commit_audited : V unit := fun s =>
  if db_works (v_tick s) then (Ok tt, v_ticked (set_v_db (v_tx s) s))
  else (Err Authority.AuditCommitFailed, v_ticked s).

(** [ensure_mutation_current] and [ensure_current] of audit_prune.rs. *)
Definition ensure_current (not_after : option Instant) : V unit :=
  match not_after with
  | None => mret tt
  | Some deadline => now ← instant_now; vreject (deadline <=? now) Authority.AuthorityBusy
  end.

Section WithValues.
Context {CC : Codecs} {SJ : Serde} {VW : ValueWriter} {RC : RecordCodec}.

(** ** [audit_events] *)

Definition is_terminal_row (r : RawAuditRow) : bool := is_terminal_type (raw_event_type r).
Definition is_started_row (r : RawAuditRow) : bool := str_eqb (raw_event_type r) event_type.EXECUTION_STARTED.
Definition blob_width (n : nat) (b : option (list Z)) : bool := is_none_or b (fun b => bool_decide (length b = n)).
(** The CHECK constraints of the table. *)
Definition row_checks (r : RawAuditRow) : bool :=
  blob_width 16 (Some (raw_event_id r)) && blob_width 16 (raw_request_id r)
  && blob_width 16 (raw_session_id r) && blob_width 16 (raw_action_id r)
  && blob_width 16 (raw_credential_id r) && blob_width 16 (raw_principal_id r)
  && blob_width 32 (raw_policy_digest r) && blob_width 16 (raw_policy_rule_id r)
  && blob_width 16 (raw_approval_request_id r) && blob_width 16 (raw_approval_id r)
  && blob_width 16 (raw_approver_id r) && blob_width 32 (raw_parameter_hash r)
  && ((is_none (raw_principal_id r) && is_none (raw_policy_version r) && is_none (raw_policy_digest r)
       && is_none (raw_policy_rule_id r) && is_none (raw_resource_type r)
       && is_none (raw_resource_id r) && is_none (raw_parameter_hash r))
      || (is_some (raw_principal_id r) && is_some_and (raw_policy_version r) (fun v => 1 <=? v)
          && is_some (raw_policy_digest r) && is_some (raw_resource_type r)
          && is_some (raw_resource_id r) && is_some (raw_parameter_hash r))).
(** The unique columns and the two partial unique indices; NULLs are distinct. *)
Definition same_request (r r' : RawAuditRow) : bool :=
  is_some_and (raw_request_id r) (fun id => bool_decide (raw_request_id r' = Some id)).
Definition row_collides (r r' : RawAuditRow) : bool :=
  bool_decide (raw_event_id r = raw_event_id r')
  || (same_request r r' && is_started_row r && is_started_row r')
  || (same_request r r' && is_terminal_row r && is_terminal_row r').
Definition insert_audit_row (make : Z -> RawAuditRow) (d : Database) : option Database :=
  let row := make (audit_sequence d + 1) in
  if (audit_sequence d <? i64_max) && row_checks row && negb (existsb (row_collides row) (audit_events d))
  then Some (set_audit_events (audit_events d ++ [row]) (audit_sequence d + 1) d)
  else None.

(** The columns of an event. *)
Definition raw_of_event (e : AuditEvent) (metadata : option string) (seq : Z) : RawAuditRow :=
  mkRawAuditRow seq (e_event_id e)
    (id_as_bytes <$> e_request_id e) (id_as_bytes <$> e_session_id e) (id_as_bytes <$> e_action_id e)
    (u64_as_i64 <$> e_action_version e) (id_as_bytes <$> e_credential_id e)
    (u64_as_i64 <$> e_credential_version e)
    (id_as_bytes ∘ au_principal_id <$> e_authorization e)
    (u64_as_i64 ∘ au_policy_version <$> e_authorization e)
    (au_policy_digest <$> e_authorization e)
    (id_as_bytes <$> (e_authorization e ≫= au_policy_rule_id))
    (au_resource_type <$> e_authorization e) (au_resource_id <$> e_authorization e)
    (au_parameter_hash <$> e_authorization e)
    (id_as_bytes ∘ ev_approval_request_id <$> e_approval e)
    (id_as_bytes <$> (e_approval e ≫= ev_approval_id))
    (id_as_bytes <$> (e_approval e ≫= ev_approver_id))
    (e_event_type e) (e_outcome e) (e_reason_code e) (e_upstream_status e) (e_latency_ms e)
    (e_created_at_ms e) metadata.
Definition metadata_of (e : AuditEvent) : V (option string) :=
  if is_some (e_request_context e) || is_some (e_usage e) then
    text ← vlift (ok_or Authority.AuditCommitFailed
      (metadata_to_string (mkAuditMetadata (e_request_context e) (e_usage e))));
    mret (Some text)
  else mret None.
(** [audit::insert]. *)
Definition audit_insert (e : AuditEvent) : V unit :=
  metadata ← metadata_of e;
  exec Authority.AuditCommitFailed (insert_audit_row (raw_of_event e metadata)).

Definition usage_requires_settlement : AuthorityError :=
  Authority.Domain (InvalidActionDefinition "usage requires profile settlement").
Definition as_commit_failure (e : AuthorityError) : AuthorityError := Authority.AuditCommitFailed.
Definition append_audit_row (e : AuditEvent) : V unit :=
  _ ← vreject (is_some (e_usage e)) usage_requires_settlement;
  _ ← begin_tx Authority.AuditCommitFailed;
  _ ← vmap_err as_commit_failure (audit_insert e);
  commit_audited.
Definition append_local_approval_audit (e : AuditEvent) (not_after : Instant) (wall_not_after_ms : Z) : V unit :=
  _ ← begin_tx Authority.AuditCommitFailed;
  _ ← vmap_err as_commit_failure (audit_insert e);
  _ ← ensure_current (Some not_after);
  now ← now_ms;
  _ ← vreject (wall_not_after_ms <=? now) Authority.AuthorityBusy;
  commit_audited.
Definition append_audit_rows (events : list AuditEvent) : V unit :=
  _ ← vreject (existsb (fun e => is_some (e_usage e)) events) usage_requires_settlement;
  _ ← begin_tx Authority.AuditCommitFailed;
  _ ← veach (fun e => vmap_err as_commit_failure (audit_insert e)) events;
  commit_audited.

(** ** Reading rows back *)

Definition corrupt {A} : result AuthorityError A := Err Authority.StorageIntegrityFailed.
Definition integrity {E A} (r : result E A) : result AuthorityError A :=
  map_err (fun _ => Authority.StorageIntegrityFailed) r.
Definition blob (n : nat) (b : list Z) : result AuthorityError (list Z) :=
  if bool_decide (length b = n) then Ok b else corrupt.
(** [Option::map(f).transpose()]. *)
Definition transpose {A B} (f : A -> result AuthorityError B) (o : option A) : result AuthorityError (option B) :=
  match o with
  | None => Ok None
  | Some a => b ← f a; Ok (Some b)
  end.
Definition id_of_blob (b : list Z) : result AuthorityError Uuid :=
  b ← blob 16 b; integrity (id_from_bytes b).
Definition optional_id (b : option (list Z)) : result AuthorityError (option Uuid) := transpose id_of_blob b.
Definition positive_u64 (v : Z) : result AuthorityError Z := if 0 <? v then Ok v else corrupt.
Definition optional_version (v : option Z) : result AuthorityError (option Z) := transpose positive_u64 v.

Definition authorization_from_columns (r : RawAuditRow) : result AuthorityError (option AuthorizationEvidence) :=
  match raw_principal_id r, raw_policy_version r, raw_policy_digest r, raw_policy_rule_id r,
        raw_resource_type r, raw_resource_id r, raw_parameter_hash r with
  | None, None, None, None, None, None, None => Ok None
  | Some principal, Some version, Some digest, rule, Some rtype, Some rid, Some hash =>
      if version <=? 0 then corrupt
      else
        principal ← id_of_blob principal;
        digest ← blob 32 digest;
        rule ← optional_id rule;
        hash ← blob 32 hash;
        Ok (Some (mkAuthorizationEvidence principal version digest rule rtype rid hash))
  | _, _, _, _, _, _, _ => corrupt
  end.
(** [decode_metadata]. *)
Definition decode_metadata (raw : option string) : result AuthorityError AuditMetadata :=
  metadata ← match raw with
    | Some value => ok_or Authority.StorageIntegrityFailed (metadata_from_str value)
    | None => Ok (mkAuditMetadata None None)
    end;
  _ ← transpose (fun context => integrity (context_validate context)) (md_request_context metadata);
  _ ← transpose (fun usage => integrity (usage_validate usage)) (md_usage metadata);
  Ok metadata.
Definition upstream_status_of (v : Z) : result AuthorityError Z :=
  if (0 <=? v) && (v <? 2 ^ 16) then Ok v else corrupt.
(** [record_from_raw]. *)
Definition record_from_raw (r : RawAuditRow) : result AuthorityError AuditRecord :=
  metadata ← decode_metadata (raw_metadata_json r);
  authorization ← authorization_from_columns r;
  event_id ← blob 16 (raw_event_id r);
  if is_empty_str (raw_event_type r) || is_empty_str (raw_outcome r) || is_empty_str (raw_reason_code r)
     || (raw_created_at_ms r <? 0) || is_some_and (raw_latency_ms r) (fun v => v <? 0)
  then corrupt
  else
    status ← transpose upstream_status_of (raw_upstream_status r);
    seq ← positive_u64 (raw_sequence r);
    request ← optional_id (raw_request_id r);
    session ← optional_id (raw_session_id r);
    action ← optional_id (raw_action_id r);
    action_version ← optional_version (raw_action_version r);
    credential ← optional_id (raw_credential_id r);
    credential_version ← optional_version (raw_credential_version r);
    approval_request ← optional_id (raw_approval_request_id r);
    approval ← optional_id (raw_approval_id r);
    approver ← optional_id (raw_approver_id r);
    Ok (mkAuditRecord AUDIT_SCHEMA_V2 seq (hexlower_encode event_id) request session action action_version
          credential credential_version (au_principal_id <$> authorization)
          (au_policy_version <$> authorization) (hexlower_encode ∘ au_policy_digest <$> authorization)
          (authorization ≫= au_policy_rule_id) approval_request approval approver
          (md_usage metadata) (md_request_context metadata) (raw_event_type r) (raw_outcome r)
          (raw_reason_code r) status (raw_latency_ms r) (raw_created_at_ms r)).

(** ** Executions that a restart left without an end (recovery.rs) *)

Record UnterminatedExecution := mkUnterminatedExecution {
  ue_request_context : option RequestAuditContext;
  ue_request_id : RequestId;
  ue_session_id : option SessionId;
  ue_action_id : option ActionId;
  ue_action_version : option Z;
  ue_credential_id : option CredentialId;
  ue_authorization : option AuthorizationEvidence;
}.
Definition is_unterminated (d : Database) (a : RawAuditRow) : bool :=
  is_started_row a
  && is_some_and (raw_request_id a) (fun id =>
       negb (existsb (fun u => bool_decide (ru_request_id u = id)) (profile_usage d))
       && negb (existsb (fun b => bool_decide (raw_request_id b = Some id) && is_terminal_row b) (audit_events d))).
Definition u64_from_i64 (v : Z) : result AuthorityError Z := if 0 <=? v then Ok v else corrupt.
Definition unterminated_of (r : RawAuditRow) : result AuthorityError UnterminatedExecution :=
  metadata ← decode_metadata (raw_metadata_json r);
  request ← id_of_blob (default [] (raw_request_id r));
  session ← optional_id (raw_session_id r);
  action ← optional_id (raw_action_id r);
  action_version ← transpose u64_from_i64 (raw_action_version r);
  credential ← optional_id (raw_credential_id r);
  authorization ← authorization_from_columns r;
  Ok (mkUnterminatedExecution (md_request_context metadata) request session action action_version credential authorization).
Definition unterminated_executions : V (list UnterminatedExecution) :=
  rows ← select_db (fun d => retain (is_unterminated d) (audit_events d));
  vmap (fun r => vlift (unterminated_of r)) rows.
(** [reconcile_abandoned_executions]. *)
Definition reconcile_abandoned_executions : V unit :=
  rows ← unterminated_executions;
  veach (fun row =>
    event_id ← random_array 16;
    created_at_ms ← now_ms;
    append_audit_row (mkAuditEvent event_id (Some (ue_request_id row)) (ue_session_id row) (ue_action_id row)
      (ue_action_version row) (ue_credential_id row) None (ue_authorization row) None None
      (ue_request_context row) event_type.EXECUTION_INDETERMINATE outcome.UNKNOWN "abandoned-on-restart"
      None None created_at_ms)) rows.

End WithValues.
End WithHost.
