(* ===== verification/Usage.v ===== *)
(** * Usage: the ledger of executions and their daily budgets

    [rekey-vault/src/crypto/usage.rs] and [store/usage.rs]. One row per execution
    of a profile; the whole ordered ledger is hashed and the hash is sealed, and
    every trusted read verifies all of it. A row is admitted against the totals of
    its principal, instance and day, and settled at most once. *)

From S2P Require Import Prelude Errors Domain Codec Json SessionState Approval AuditRecords VaultModel VaultStore.

Section WithLibraries.
Context {H : Host} {CC : Codecs} {SJ : Serde} {VW : ValueWriter} {RC : RecordCodec} {AE : Aead}.

(** ** The seal (crypto/usage.rs) *)

Definition usage_bytes (value : list Z) : list Z := be_bytes 8 (llen value) ++ value.
Definition usage_optional (value : option (list Z)) : list Z :=
  match value with
  | None => [0]
  | Some value => 1 :: usage_bytes value
  end.
Definition i64_to_be_bytes (v : Z) : list Z := be_bytes 8 (i64_as_u64 v).
Definition usage_row_bytes (row : UsageRecord) : list Z :=
  id_as_bytes (u_request_id row) ++ id_as_bytes (u_principal_id row)
  ++ usage_bytes (bytes_of (u_instance_slug row))
  ++ i64_to_be_bytes (u_utc_day row) ++ i64_to_be_bytes (u_started_at_ms row)
  ++ usage_bytes (bytes_of (u_context_json row))
  ++ usage_optional (be_bytes 8 <$> u_generation_max_output row)
  ++ usage_optional (be_bytes 8 <$> u_output_tokens row)
  ++ usage_optional (bytes_of <$> u_source row)
  ++ usage_optional (bytes_of <$> u_terminal_json row)
  ++ usage_optional (i64_to_be_bytes <$> u_settled_at_ms row).
(** The bytes given to the hash; ids must increase. *)
Fixpoint usage_rows_bytes (previous : option RequestId) (rows : list UsageRecord) : result AuthorityError (list Z) :=
  match rows with
  | [] => Ok []
  | row :: rest =>
      if is_some_and previous (fun prior => u_request_id row <=? prior) then corrupt
      else tail ← usage_rows_bytes (Some (u_request_id row)) rest; Ok (usage_row_bytes row ++ tail)
  end.
Definition USAGE_PREFIX : list Z := bytes_of "RKUSAGE" ++ [0; 1].
Definition USAGE_STATE_PREFIX : list Z := bytes_of "RKUSAGESTATE" ++ [0; 1].
Definition usage_digest (rows : list UsageRecord) : result AuthorityError Digest :=
  body ← usage_rows_bytes None rows;
  Ok (sha256 (USAGE_PREFIX ++ body)).
Definition usage_aad (vault : Uuid) (state : UsageState) : list Z :=
  aad_encode (mkAadV1 ProfileUsageSeal vault (repeat 0 16) (st_revision state) 0
    (sha256 (USAGE_STATE_PREFIX ++ be_bytes 8 (st_record_count state) ++ st_records_digest state))).

(** [aead::seal] draws a nonce of its own; [aead::open]. *)
Definition aead_seal (key aad plaintext : list Z) : V (list Z * list Z) :=
  nonce ← random_array 12;
  ciphertext ← vlift (ok_or Authority.CryptoFailure (gcm_encrypt key nonce aad plaintext));
  mret (nonce, ciphertext).
Definition aead_open (key aad nonce ciphertext : list Z) : result AuthorityError (list Z) :=
  ok_or Authority.AuthenticationFailed (gcm_decrypt key nonce aad ciphertext).
Definition usage_seal (key : list Z) (vault : Uuid) (rows : list UsageRecord) (revision : Z) : V UsageState :=
  _ ← vreject (i64_max <? revision) Authority.StorageIntegrityFailed;
  records_digest ← vlift (usage_digest rows);
  let state := mkUsageState revision (llen rows) records_digest (repeat 0 12) (repeat 0 16) in
  sealed ← aead_seal key (usage_aad vault state) [];
  _ ← vreject (negb (bool_decide (length sealed.2 = 16%nat))) Authority.CryptoFailure;
  mret (mkUsageState revision (llen rows) records_digest sealed.1 sealed.2).
Definition usage_verify (key : list Z) (vault : Uuid) (rows : list UsageRecord) (state : UsageState)
  : result AuthorityError unit :=
  reject_if negb (st_record_count state =? llen rows) with Authority.StorageIntegrityFailed ;;
  computed ← usage_digest rows;
  reject_if negb (bool_decide (st_records_digest state = computed)) with Authority.StorageIntegrityFailed ;;
  bytes ← integrity (aead_open key (usage_aad vault state) (st_seal_nonce state) (st_seal_ciphertext state));
  reject_if negb (bool_decide (bytes = [])) with Authority.StorageIntegrityFailed ;;
  Ok tt.

(** ** Reading the ledger *)

Definition invalid_operation : AuthorityError :=
  Authority.Domain (InvalidActionDefinition "invalid profile usage operation").
(** [FromSql] of a [u64]. *)
Definition get_u64 (v : Z) : result AuthorityError Z := if 0 <=? v then Ok v else corrupt.
Definition usage_of_raw (r : RawUsageRow) : result AuthorityError UsageRecord :=
  request ← id_of_blob (ru_request_id r);
  principal ← id_of_blob (ru_principal_id r);
  maximum ← transpose get_u64 (ru_generation_max_output r);
  output ← transpose get_u64 (ru_output_tokens r);
  Ok (mkUsageRecord request principal (ru_instance_slug r) (ru_utc_day r) (ru_started_at_ms r)
        (ru_context_json r) maximum output (ru_source r) (ru_terminal_json r) (ru_settled_at_ms r)).
Fixpoint collect {A B} (f : A -> result AuthorityError B) (l : list A) : result AuthorityError (list B) :=
  match l with
  | [] => Ok []
  | x :: rest => y ← f x; ys ← collect f rest; Ok (y :: ys)
  end.
(** [ORDER BY request_id]: the keys have one width, so the order of their bytes is
    the order of the numbers. *)
Definition row_key (r : RawUsageRow) : Z := be_value (ru_request_id r).
Fixpoint insert_by_key (r : RawUsageRow) (l : list RawUsageRow) : list RawUsageRow :=
  match l with
  | [] => [r]
  | x :: rest => if row_key r <=? row_key x then r :: l else x :: insert_by_key r rest
  end.
Definition order_by_request (l : list RawUsageRow) : list RawUsageRow := fold_right insert_by_key [] l.
Definition state_of_raw (r : RawUsageState) : result AuthorityError UsageState :=
  revision ← get_u64 (rs_revision r);
  count ← get_u64 (rs_record_count r);
  digest ← blob 32 (rs_records_digest r);
  nonce ← blob 12 (rs_seal_nonce r);
  ciphertext ← blob 16 (rs_seal_ciphertext r);
  Ok (mkUsageState revision count digest nonce ciphertext).
(** What [load] makes of the two tables. *)
Definition ledger (d : Database) : result AuthorityError (list UsageRecord * UsageState) :=
  rows ← collect usage_of_raw (order_by_request (profile_usage d));
  raw ← ok_or Authority.StorageIntegrityFailed (profile_usage_state d);
  state ← state_of_raw raw;
  Ok (rows, state).
Definition load : V (list UsageRecord * UsageState) :=
  rows ← select (fun d => collect usage_of_raw (order_by_request (profile_usage d)));
  rows ← vlift rows;
  raw ← select profile_usage_state;
  raw ← vlift (ok_or Authority.StorageIntegrityFailed raw);
  state ← vlift (state_of_raw raw);
  mret (rows, state).
Definition day_of (ms : Z) : Z := Z.quot ms DAY_MS.
(** A row's context, decoded after the whole ledger is authenticated. *)
Definition context_check (row : UsageRecord) : result AuthorityError unit :=
  context ← ok_or Authority.StorageIntegrityFailed (context_from_str (u_context_json row));
  reject_if negb (bool_decide (au_principal_id (uc_authorization context) = u_principal_id row))
            || negb (u_utc_day row =? day_of (u_started_at_ms row)) with Authority.StorageIntegrityFailed ;;
  Ok tt.
Definition verified (key : list Z) (vault : Uuid) : V (list UsageRecord * UsageState) :=
  loaded ← load;
  _ ← vlift (usage_verify key vault loaded.1 loaded.2);
  _ ← vlift (try_each context_check loaded.1);
  mret loaded.

(** ** Writing *)

Definition one (changed : Z) : V unit := vreject (negb (changed =? 1)) Authority.StorageIntegrityFailed.
Definition raw_of_state (state : UsageState) : RawUsageState :=
  mkRawUsageState (u64_as_i64 (st_revision state)) (u64_as_i64 (st_record_count state))
    (st_records_digest state) (st_seal_nonce state) (st_seal_ciphertext state).
Definition state_checks (r : RawUsageState) : bool :=
  (0 <=? rs_revision r) && (0 <=? rs_record_count r) && bool_decide (length (rs_records_digest r) = 32%nat)
  && bool_decide (length (rs_seal_nonce r) = 12%nat) && bool_decide (length (rs_seal_ciphertext r) = 16%nat).
Definition initial_state (state : UsageState) : V unit :=
  changed ← exec_count Authority.StorageUnavailable (fun d =>
    if state_checks (raw_of_state state) && is_none (profile_usage_state d)
    then Some (set_usage_state (raw_of_state state) d, 1) else None);
  one changed.
Definition replace_state (state : UsageState) : V unit :=
  changed ← exec_count Authority.StorageUnavailable (fun d =>
    match profile_usage_state d with
    | None => Some (d, 0)
    | Some _ =>
        if state_checks (raw_of_state state) then Some (set_usage_state (raw_of_state state) d, 1) else None
    end);
  one changed.
Definition raw_of_usage (row : UsageRecord) : RawUsageRow :=
  mkRawUsageRow (id_as_bytes (u_request_id row)) (id_as_bytes (u_principal_id row)) (u_instance_slug row)
    (u_utc_day row) (u_started_at_ms row) (u_context_json row) (u64_as_i64 <$> u_generation_max_output row)
    (u64_as_i64 <$> u_output_tokens row) (u_source row) (u_terminal_json row) (u_settled_at_ms row).
Definition known_source (source : string) : bool :=
  str_eqb source "measured" || str_eqb source "indeterminate" || str_eqb source "not-applicable".
Definition usage_row_checks (r : RawUsageRow) : bool :=
  bool_decide (length (ru_request_id r) = 16%nat) && bool_decide (length (ru_principal_id r) = 16%nat)
  && (0 <=? ru_utc_day r) && (0 <=? ru_started_at_ms r)
  && is_none_or (ru_generation_max_output r) (fun v => 0 <? v)
  && is_none_or (ru_output_tokens r) (fun v => 0 <=? v)
  && is_none_or (ru_source r) known_source
  && is_none_or (ru_settled_at_ms r) (fun v => 0 <=? v)
  && ((is_none (ru_output_tokens r) && is_none (ru_source r) && is_none (ru_terminal_json r) && is_none (ru_settled_at_ms r))
      || (is_some (ru_output_tokens r) && is_some (ru_source r) && is_some (ru_terminal_json r) && is_some (ru_settled_at_ms r))).
Definition same_key (r r' : RawUsageRow) : bool := bool_decide (ru_request_id r' = ru_request_id r).
(** SQLite has 2^63 - 1 row ids to give. *)
Definition insert_usage_row (r : RawUsageRow) (d : Database) : option (Database * Z) :=
  if (llen (profile_usage d) <? i64_max) && usage_row_checks r && negb (existsb (same_key r) (profile_usage d))
  then Some (set_profile_usage (profile_usage d ++ [r]) d, 1) else None.
Definition update_usage_row (r : RawUsageRow) (d : Database) : option (Database * Z) :=
  let changed := llen (retain (same_key r) (profile_usage d)) in
  if usage_row_checks r || (changed =? 0)
  then Some (set_profile_usage (map (fun x => if same_key r x then r else x) (profile_usage d)) d, changed)
  else None.
Definition write (row : UsageRecord) (insert : bool) : V unit :=
  changed ← exec_count Authority.StorageUnavailable
    ((if insert then insert_usage_row else update_usage_row) (raw_of_usage row));
  one changed.

(** ** Budgets *)

Definition in_bucket (principal : PrincipalId) (instance : string) (day : Z) (r : UsageRecord) : bool :=
  (u_principal_id r =? principal) && str_eqb (u_instance_slug r) instance && (u_utc_day r =? day).
Definition add_usage (sum : UsageTotals) (row : UsageRecord) : result AuthorityError UsageTotals :=
  requests ← ok_or Authority.StorageIntegrityFailed (u64_checked_add (ut_requests sum) 1);
  tokens ← ok_or Authority.StorageIntegrityFailed
    (u64_checked_add (ut_output_tokens sum) (default 0 (u_output_tokens row)));
  Ok (mkUsageTotals requests tokens).
Fixpoint try_fold (sum : UsageTotals) (rows : list UsageRecord) : result AuthorityError UsageTotals :=
  match rows with
  | [] => Ok sum
  | row :: rest => sum ← add_usage sum row; try_fold sum rest
  end.
Definition totals (rows : list UsageRecord) (principal : PrincipalId) (instance : string) (day : Z)
  : result AuthorityError UsageTotals :=
  try_fold (mkUsageTotals 0 0) (retain (in_bucket principal instance day) rows).
Definition current (not_after : Instant) (wall : option Z) : V unit :=
  now ← instant_now;
  _ ← vreject (not_after <=? now) Authority.AuthorityBusy;
  match wall with
  | None => mret tt
  | Some wall => now ← now_ms; vreject (wall <=? now) Authority.AuthorityBusy
  end.
Definition next_state (key : list Z) (vault : Uuid) (rows : list UsageRecord) (state : UsageState) : V UsageState :=
  revision ← vlift (ok_or Authority.StorageIntegrityFailed (u64_checked_add (st_revision state) 1));
  usage_seal key vault rows revision.

(** [binary_search_by_key] on the verified rows, whose ids increase: the position of
    the id, or the position where it belongs. *)
Fixpoint binary_search (id : RequestId) (rows : list UsageRecord) : nat + nat :=
  match rows with
  | [] => inr 0%nat
  | row :: rest =>
      if u_request_id row =? id then inl 0%nat
      else if id <? u_request_id row then inr 0%nat
      else match binary_search id rest with inl i => inl (S i) | inr i => inr (S i) end
  end.
(** [Vec::insert]. *)
Definition insert_at {A} (i : nat) (x : A) (l : list A) : list A := take i l ++ x :: drop i l.

Definition set_started (now : Z) (r : UsageRecord) : UsageRecord :=
  mkUsageRecord (u_request_id r) (u_principal_id r) (u_instance_slug r) (day_of now) now (u_context_json r)
    (u_generation_max_output r) (u_output_tokens r) (u_source r) (u_terminal_json r) (u_settled_at_ms r).
Definition as_blocked (e : AuditEvent) : AuditEvent :=
  mkAuditEvent (e_event_id e) (e_request_id e) (e_session_id e) (e_action_id e) (e_action_version e)
    (e_credential_id e) (e_credential_version e) (e_authorization e) (e_approval e) (e_usage e)
    (e_request_context e) event_type.EXECUTION_BLOCKED outcome.DENIED "profile-daily-budget"
    (e_upstream_status e) (e_latency_ms e) (e_created_at_ms e).
Definition begin_profile_execution (key : list Z) (vault : Uuid) (row : UsageRecord) (usage : ProfileUsageStart)
    (events : list AuditEvent) (not_after : Instant) (wall : option Z) : V UsageAdmission :=
  _ ← current not_after wall;
  _ ← begin_tx Authority.AuditCommitFailed;
  read ← verified key vault;
  position ← vlift (match binary_search (u_request_id row) read.1 with
    | inl _ => Err invalid_operation
    | inr position => Ok position
    end);
  now ← now_ms;
  let row := set_started now row in
  sum ← vlift (totals read.1 (u_principal_id row) (u_instance_slug row) (u_utc_day row));
  if (ut_requests sum <? ps_max_requests_per_day usage) && (ut_output_tokens sum <? ps_max_output_tokens_per_day usage)
  then
    _ ← write row true;
    next ← next_state key vault (insert_at position row read.1) read.2;
    _ ← replace_state next;
    _ ← veach audit_insert events;
    _ ← current not_after wall;
    _ ← commit_audited;
    mret Started
  else
    last ← vlift (ok_or invalid_operation (last events));
    _ ← audit_insert (as_blocked last);
    _ ← current not_after wall;
    _ ← commit_audited;
    mret BudgetDenied.

(** ** Settlement *)

Definition event_context (event : AuditEvent) : result AuthorityError UsageContext :=
  session ← ok_or invalid_operation (e_session_id event);
  action ← ok_or invalid_operation (e_action_id event);
  action_version ← ok_or invalid_operation (e_action_version event);
  credential ← ok_or invalid_operation (e_credential_id event);
  authorization ← ok_or invalid_operation (e_authorization event);
  Ok (mkUsageContext (e_request_context event) session action action_version credential
        (e_credential_version event) authorization).
Definition forget_version (c : UsageContext) : UsageContext :=
  mkUsageContext (uc_request_context c) (uc_session_id c) (uc_action_id c) (uc_action_version c)
    (uc_credential_id c) None (uc_authorization c).
Definition source_text (source : UsageSource) : string :=
  match source with
  | Measured => "measured"
  | Indeterminate => "indeterminate"
  | NotApplicable => "not-applicable"
  end.
Definition charge (maximum measured : option Z) : result AuthorityError (Z * UsageSource) :=
  match maximum, measured with
  | Some _, Some n => Ok (n, Measured)
  | Some max, None => Ok (max, Indeterminate)
  | None, None => Ok (0, NotApplicable)
  | None, Some _ => Err invalid_operation
  end.
Definition terminal_of (event : AuditEvent) : Terminal :=
  mkTerminal (e_event_type event) (e_outcome event) (e_reason_code event) (e_upstream_status event)
    (e_latency_ms event) (e_credential_version event).
Definition set_settled (output : Z) (source terminal : string) (at_ms : Z) (r : UsageRecord) : UsageRecord :=
  mkUsageRecord (u_request_id r) (u_principal_id r) (u_instance_slug r) (u_utc_day r) (u_started_at_ms r)
    (u_context_json r) (u_generation_max_output r) (Some output) (Some source) (Some terminal) (Some at_ms).
Definition with_usage (usage : UsageEvidence) (e : AuditEvent) : AuditEvent :=
  mkAuditEvent (e_event_id e) (e_request_id e) (e_session_id e) (e_action_id e) (e_action_version e)
    (e_credential_id e) (e_credential_version e) (e_authorization e) (e_approval e) (Some usage)
    (e_request_context e) (e_event_type e) (e_outcome e) (e_reason_code e) (e_upstream_status e)
    (e_latency_ms e) (e_created_at_ms e).
(** The row and the event as settled, or [None] when the row already is, the same
    way. *)
Definition settle_row (row : UsageRecord) (measured : option Z) (event : AuditEvent)
  : result AuthorityError (option (UsageRecord * AuditEvent)) :=
  stored ← ok_or Authority.StorageIntegrityFailed (context_from_str (u_context_json row));
  actual ← event_context event;
  let actual := if is_none (uc_credential_version stored) then forget_version actual else actual in
  reject_if negb (bool_decide (e_request_id event = Some (u_request_id row))) || negb (bool_decide (actual = stored))
    with invalid_operation ;;
  charged ← charge (u_generation_max_output row) measured;
  terminal ← ok_or invalid_operation (terminal_to_string (terminal_of event));
  if is_some (u_output_tokens row) then
    if bool_decide (u_output_tokens row = Some charged.1)
       && bool_decide (u_source row = Some (source_text charged.2))
       && bool_decide (u_terminal_json row = Some terminal)
    then Ok None
    else Err invalid_operation
  else
    Ok (Some (set_settled charged.1 (source_text charged.2) terminal (e_created_at_ms event) row,
              with_usage (mkUsageEvidence (u_instance_slug row) (u_utc_day row) charged.1 charged.2) event)).
Definition settle_profile_execution (key : list Z) (vault : Uuid) (request : RequestId) (measured : option Z)
    (event : AuditEvent) : V unit :=
  _ ← begin_tx Authority.AuditCommitFailed;
  read ← verified key vault;
  position ← vlift (match binary_search request read.1 with
    | inl position => Ok position
    | inr _ => Err invalid_operation
    end);
  row ← vlift (ok_or invalid_operation (read.1 !! position));
  settled ← vlift (settle_row row measured event);
  match settled with
  | None => mret tt
  | Some (row, event) =>
      _ ← write row false;
      next ← next_state key vault (<[position := row]> read.1) read.2;
      _ ← replace_state next;
      _ ← audit_insert event;
      commit_audited
  end.

(** ** Recovery and queries *)

Definition abandoned_event (event_id : list Z) (created_at_ms : Z) (request : RequestId) (ctx : UsageContext) : AuditEvent :=
  mkAuditEvent event_id (Some request) (Some (uc_session_id ctx)) (Some (uc_action_id ctx))
    (Some (uc_action_version ctx)) (Some (uc_credential_id ctx)) (uc_credential_version ctx)
    (Some (uc_authorization ctx)) None None (uc_request_context ctx) event_type.EXECUTION_INDETERMINATE
    outcome.UNKNOWN "profile-abandoned-on-unlock" None None created_at_ms.
Definition recover_row (row : UsageRecord) : V UsageRecord :=
  ctx ← vlift (ok_or Authority.StorageIntegrityFailed (context_from_str (u_context_json row)));
  event_id ← random_array 16;
  created_at_ms ← now_ms;
  let event := abandoned_event event_id created_at_ms (u_request_id row) ctx in
  settled ← vlift (settle_row row None event);
  let '(row, event) := default (row, event) settled in
  _ ← write row false;
  _ ← audit_insert event;
  mret row.
Definition recover_profile_usage (key : list Z) (vault : Uuid) : V unit :=
  _ ← begin_tx Authority.AuditCommitFailed;
  read ← verified key vault;
  rows ← vmap (fun row => if is_none (u_output_tokens row) then recover_row row else mret row) read.1;
  if forallb (fun row => is_some (u_output_tokens row)) read.1 then mret tt
  else
    next ← next_state key vault rows read.2;
    _ ← replace_state next;
    commit_audited.
Definition verified_usage (key : list Z) (vault : Uuid) : V (list UsageRecord * UsageState) :=
  _ ← begin_tx Authority.StorageUnavailable;
  verified key vault.
Definition profile_usage_totals (key : list Z) (vault : Uuid) (principal : PrincipalId) (instance : string) (day : Z)
  : V UsageTotals :=
  read ← verified_usage key vault;
  vlift (totals read.1 principal instance day).

End WithLibraries.
