(* ===== verification/VaultRows.v ===== *)
(** * VaultRows: reading and writing the vault's tables

    [rekey-vault/src/store/sqlite.rs], wrapper.rs, policy.rs, pki.rs,
    lease_journal.rs and audit_prune.rs: the decoding of each row, the rows that
    records are stored as, and the queries. The schema's CHECK constraints on stored
    values are the [_checks]; a foreign key is looked up where a row is inserted. *)

From S2P Require Import Prelude Errors Domain Codec Json SessionState Approval Signed AuditRecords VaultModel VaultTables.
From S2P Require Import VaultStore Usage.

Definition AAD_VERSION : Z := AAD_VERSION_V1.
Definition CRYPTO_SUITE_V1 : string := "rkca-aes256gcm-argon2id-hkdfsha256-v1".
Definition KEY_LEN : nat := 32.
Definition NONCE_LEN : nat := 12.
Definition SALT_LEN : nat := 16.
Definition FORMAT_VERSION : Z := 27.

Section WithLibraries.
Context {H : Host} {CC : Codecs} {SG : Signatures} {SJ : Serde} {VW : ValueWriter} {RC : RecordCodec}.

(** A query outside a transaction, and one in it; [e] is what a failure becomes. *)
Definition query_db {A} (e : AuthorityError) (f : Tables -> result AuthorityError A) : V A :=
  r ← vmap_err (fun _ => e) (select_db (fun d => f (vault_tables d))); vlift r.
Definition query_tx {A} (e : AuthorityError) (f : Tables -> result AuthorityError A) : V A :=
  r ← vmap_err (fun _ => e) (select (fun d => f (vault_tables d))); vlift r.
(** A statement that writes one of these tables, and answers how many rows it changed. *)
Definition write_tables (f : Tables -> option (Tables * Z)) : V Z :=
  exec_count Authority.StorageUnavailable (fun d =>
    match f (vault_tables d) with
    | Some (t, n) => Some (set_tables (fun _ => t) d, n)
    | None => None
    end).

Definition get_ranged (bits v : Z) : result AuthorityError Z := if (0 <=? v) && (v <? 2 ^ bits) then Ok v else corrupt.

(** ** The header *)

Definition header_of_raw (r : RawHeader) : result AuthorityError VaultHeaderRecord :=
  generation ← blob 8 (rh_generation r);
  reject_if be_value generation =? 0 with Authority.StorageIntegrityFailed ;;
  format_version ← get_ranged 32 (rh_format_version r);
  vault_id ← id_of_blob (rh_vault_id r);
  schema_digest ← blob 32 (rh_schema_digest r);
  integrity_nonce ← blob 12 (rh_integrity_nonce r);
  generation_mac ← blob 32 (rh_generation_mac r);
  pki_digest ← blob 32 (rh_pki_digest r);
  Ok (mkVaultHeaderRecord vault_id format_version (be_value generation) generation_mac pki_digest
        (rh_crypto_suite r) (rh_created_at_ms r) schema_digest integrity_nonce (rh_integrity_ciphertext r)).
Definition header_of (t : Tables) : result AuthorityError VaultHeaderRecord :=
  raw ← ok_or Authority.UnsupportedVaultLayout (vault_header t); header_of_raw raw.
Definition load_header : V VaultHeaderRecord := query_db Authority.UnsupportedVaultLayout header_of.
Definition load_header_tx : V VaultHeaderRecord := query_tx Authority.UnsupportedVaultLayout header_of.
Definition raw_of_header (h : VaultHeaderRecord) : RawHeader :=
  mkRawHeader (hd_format_version h) (id_as_bytes (hd_vault_id h)) (be_bytes 8 (hd_generation h))
    (hd_generation_mac h) (hd_pki_digest h) (hd_crypto_suite h) (hd_created_at_ms h) (hd_schema_digest h)
    (hd_integrity_nonce h) (hd_integrity_ciphertext h).

(** ** Wrappers *)

Definition wrapper_of_raw (r : RawWrapper) : result AuthorityError KeyWrapperRecord :=
  wrapper_id ← id_of_blob (rw_wrapper_id r);
  kind ← ok_or Authority.StorageIntegrityFailed (wrapper_kind_parse (rw_kind r));
  state ← ok_or Authority.StorageIntegrityFailed (wrapper_state_parse (rw_state r));
  salt ← blob 16 (rw_salt r);
  nonce ← blob 12 (rw_nonce r);
  Ok (mkKeyWrapperRecord wrapper_id kind state (rw_kdf_algorithm r) (rw_kdf_params_json r) salt nonce
        (rw_wrapped_vrk r) (rw_created_at_ms r) (rw_disabled_at_ms r)).
Definition is_active_wrapper (kind : WrapperKind) (r : RawWrapper) : bool :=
  str_eqb (rw_kind r) (wrapper_kind_as_str kind) && str_eqb (rw_state r) "active".
Definition active_wrapper (kind : WrapperKind) : V KeyWrapperRecord :=
  query_db Authority.StorageUnavailable (fun t =>
    raw ← ok_or Authority.InvalidUnlockCredential (find_first (is_active_wrapper kind) (key_wrappers t));
    integrity (wrapper_of_raw raw)).
Definition raw_of_wrapper (w : KeyWrapperRecord) : RawWrapper :=
  mkRawWrapper (id_as_bytes (kw_wrapper_id w)) (wrapper_kind_as_str (kw_kind w)) (wrapper_state_as_str (kw_state w))
    (kw_kdf_algorithm w) (kw_kdf_params_json w) (kw_salt w) (kw_nonce w) (kw_wrapped_vrk w)
    (kw_created_at_ms w) (kw_disabled_at_ms w).
(** The CHECK constraints, the key, and the index over active password wrappers. *)
Definition wrapper_checks (r : RawWrapper) : bool :=
  bool_decide (length (rw_wrapper_id r) = 16%nat) && bool_decide (length (rw_nonce r) = 12%nat)
  && (str_eqb (rw_state r) "active" || str_eqb (rw_state r) "disabled")
  && ((str_eqb (rw_kind r) "password" && str_eqb (rw_kdf_algorithm r) "argon2id")
      || (str_eqb (rw_kind r) "recovery" && str_eqb (rw_kdf_algorithm r) "hkdf-sha256")).
Definition wrapper_collides (r r' : RawWrapper) : bool :=
  bool_decide (rw_wrapper_id r = rw_wrapper_id r')
  || (is_active_wrapper WrapperPassword r && is_active_wrapper WrapperPassword r').
Definition insert_wrapper_row (r : RawWrapper) (t : Tables) : option (Tables * Z) :=
  if wrapper_checks r && negb (existsb (wrapper_collides r) (key_wrappers t))
  then Some (set_wrappers (key_wrappers t ++ [r]) t, 1) else None.
Definition insert_wrapper (w : KeyWrapperRecord) : V unit :=
  inserted ← write_tables (insert_wrapper_row (raw_of_wrapper w));
  one inserted.
(** The UPDATE of [replace_wrapper], which zeroes the old ciphertext. *)
Definition disabled_row (at_ms : Z) (r : RawWrapper) : RawWrapper :=
  mkRawWrapper (rw_wrapper_id r) (rw_kind r) "disabled" (rw_kdf_algorithm r) (rw_kdf_params_json r)
    (repeat 0 16) (repeat 0 12) (repeat 0 48) (rw_created_at_ms r) (Some at_ms).
Definition disable_wrappers (kind : WrapperKind) (at_ms : Z) (t : Tables) : option (Tables * Z) :=
  Some (set_wrappers (map (fun r => if is_active_wrapper kind r then disabled_row at_ms r else r) (key_wrappers t)) t,
        llen (retain (is_active_wrapper kind) (key_wrappers t))).

(** ** Credentials and their versions *)

Definition credential_of_raw (r : RawCredential) : result AuthorityError CredentialRecord :=
  credential_id ← id_of_blob (rc_credential_id r);
  kind ← integrity (kind_parse (rc_kind r));
  state ← integrity (credential_state_parse (rc_state r));
  current_version ← positive_u64 (rc_current_version r);
  state_nonce ← blob 12 (rc_state_nonce r);
  state_ciphertext ← blob 16 (rc_state_ciphertext r);
  Ok (mkCredentialRecord credential_id (rc_label r) kind state current_version (rc_created_at_ms r)
        (rc_updated_at_ms r) (rc_revoked_at_ms r) state_nonce state_ciphertext).
Definition raw_of_credential (c : CredentialRecord) : RawCredential :=
  mkRawCredential (id_as_bytes (cr_credential_id c)) (cr_label c) (kind_as_str (cr_kind c))
    (credential_state_as_str (cr_state c)) (u64_as_i64 (cr_current_version c)) (cr_created_at_ms c)
    (cr_updated_at_ms c) (cr_revoked_at_ms c) (cr_state_nonce c) (cr_state_ciphertext c).
Definition version_of_raw (r : RawVersion) : result AuthorityError CredentialVersionRecord :=
  credential_id ← id_of_blob (rv_credential_id r);
  version ← positive_u64 (rv_version r);
  state ← integrity (version_state_parse (rv_state r));
  dek_nonce ← blob 12 (rv_dek_nonce r);
  payload_nonce ← blob 12 (rv_payload_nonce r);
  Ok (mkCredentialVersionRecord credential_id version state (rv_aad_version r) (rv_crypto_suite r) dek_nonce
        (rv_wrapped_dek r) payload_nonce (rv_encrypted_payload r) (rv_created_at_ms r) (rv_retired_at_ms r)).
Definition raw_of_version (v : CredentialVersionRecord) : RawVersion :=
  mkRawVersion (id_as_bytes (cv_credential_id v)) (u64_as_i64 (cv_version v)) (version_state_as_str (cv_state v))
    (cv_aad_version v) (cv_crypto_suite v) (cv_dek_nonce v) (cv_wrapped_dek v) (cv_payload_nonce v)
    (cv_encrypted_payload v) (cv_created_at_ms v) (cv_retired_at_ms v).
Definition get_credential (id : CredentialId) : V CredentialRecord :=
  query_db Authority.StorageUnavailable (fun t =>
    raw ← ok_or Authority.CredentialNotFound
      (find_first (fun r => bool_decide (rc_credential_id r = id_as_bytes id)) (credentials t));
    integrity (credential_of_raw raw)).
(** A [u16] column that does not fit is a failed query. *)
Definition query_u16 (v : Z) : result AuthorityError unit :=
  if (0 <=? v) && (v <? 2 ^ 16) then Ok tt else Err Authority.StorageUnavailable.
Definition is_version (id : CredentialId) (version : Z) (r : RawVersion) : bool :=
  bool_decide (rv_credential_id r = id_as_bytes id) && (rv_version r =? u64_as_i64 version).
Definition get_version (id : CredentialId) (version : Z) : V CredentialVersionRecord :=
  query_db Authority.StorageUnavailable (fun t =>
    raw ← ok_or Authority.CredentialNotFound (find_first (is_version id version) (credential_versions t));
    _ ← query_u16 (rv_aad_version raw);
    integrity (version_of_raw raw)).
(** The joins of [validate_credential_version_invariants]; keys are unique. *)
Definition current_row (t : Tables) (c : RawCredential) : option RawVersion :=
  find_first (fun v => bool_decide (rv_credential_id v = rc_credential_id c) && (rv_version v =? rc_current_version c))
    (credential_versions t).
Definition credential_consistent (t : Tables) (c : RawCredential) : bool :=
  match current_row t c with
  | None => false
  | Some v =>
      negb (str_eqb (rc_state c) "active" && negb (str_eqb (rv_state v) "active"))
      && negb (str_eqb (rc_state c) "revoked" && negb (str_eqb (rv_state v) "revoked"))
  end.
Definition version_consistent (t : Tables) (v : RawVersion) : bool :=
  negb (str_eqb (rv_state v) "active")
  || match find_first (fun c => bool_decide (rc_credential_id c = rv_credential_id v)) (credentials t) with
     | None => false
     | Some c => str_eqb (rc_state c) "active" && (rc_current_version c =? rv_version v)
     end.
Definition versions_consistent (t : Tables) : bool :=
  forallb (credential_consistent t) (credentials t) && forallb (version_consistent t) (credential_versions t).
Definition validate_credential_version_invariants : V unit :=
  query_db Authority.StorageIntegrityFailed (fun t => if versions_consistent t then Ok tt else corrupt).

(** [INSERT OR IGNORE] of a credential: a collision of id or label inserts nothing. *)
Definition credential_checks (r : RawCredential) : bool :=
  bool_decide (length (rc_credential_id r) = 16%nat) && is_ok (kind_parse (rc_kind r))
  && is_ok (credential_state_parse (rc_state r)) && (1 <=? rc_current_version r)
  && bool_decide (length (rc_state_nonce r) = 12%nat) && bool_decide (length (rc_state_ciphertext r) = 16%nat).
Definition insert_credential_row (r : RawCredential) (t : Tables) : option (Tables * Z) :=
  if negb (credential_checks r)
     || existsb (fun c => bool_decide (rc_credential_id c = rc_credential_id r) || str_eqb (rc_label c) (rc_label r)) (credentials t)
  then Some (t, 0)
  else Some (set_credentials (credentials t ++ [r]) t, 1).
Definition version_checks (r : RawVersion) : bool :=
  (1 <=? rv_version r) && is_ok (version_state_parse (rv_state r)) && (rv_aad_version r =? 1)
  && str_eqb (rv_crypto_suite r) CRYPTO_SUITE_V1 && bool_decide (length (rv_dek_nonce r) = 12%nat)
  && bool_decide (length (rv_payload_nonce r) = 12%nat).
Definition version_collides (r r' : RawVersion) : bool :=
  bool_decide (rv_credential_id r = rv_credential_id r')
  && ((rv_version r =? rv_version r') || (str_eqb (rv_state r) "active" && str_eqb (rv_state r') "active")).
Definition insert_version_row (r : RawVersion) (t : Tables) : option (Tables * Z) :=
  if version_checks r && existsb (fun c => bool_decide (rc_credential_id c = rv_credential_id r)) (credentials t)
     && negb (existsb (version_collides r) (credential_versions t))
  then Some (set_versions (credential_versions t ++ [r]) t, 1) else None.
Definition insert_version (v : CredentialVersionRecord) : V unit :=
  _ ← write_tables (insert_version_row (raw_of_version v)); mret tt.
(** [UPDATE credential_versions SET state, retired_at_ms .. WHERE state = 'active']. *)
Definition is_active_version (id : CredentialId) (r : RawVersion) : bool :=
  bool_decide (rv_credential_id r = id_as_bytes id) && str_eqb (rv_state r) "active".
Definition retire_row (state : VersionState) (at_ms : Z) (r : RawVersion) : RawVersion :=
  mkRawVersion (rv_credential_id r) (rv_version r) (version_state_as_str state) (rv_aad_version r)
    (rv_crypto_suite r) (rv_dek_nonce r) (rv_wrapped_dek r) (rv_payload_nonce r) (rv_encrypted_payload r)
    (rv_created_at_ms r) (Some at_ms).
Definition retire_versions (id : CredentialId) (state : VersionState) (at_ms : Z) (t : Tables) : option (Tables * Z) :=
  Some (set_versions (map (fun r => if is_active_version id r then retire_row state at_ms r else r) (credential_versions t)) t,
        llen (retain (is_active_version id) (credential_versions t))).
(** [UPDATE credentials SET .. WHERE credential_id = ?1 AND state = 'active']. *)
Definition is_active_credential (id : CredentialId) (r : RawCredential) : bool :=
  bool_decide (rc_credential_id r = id_as_bytes id) && str_eqb (rc_state r) "active".
Definition update_credentials (f : RawCredential -> RawCredential) (id : CredentialId) (t : Tables) : option (Tables * Z) :=
  Some (set_credentials (map (fun r => if is_active_credential id r then f r else r) (credentials t)) t,
        llen (retain (is_active_credential id) (credentials t))).

(** ** Retention and policies *)

Definition retention_of_raw (r : RawRetention) : result AuthorityError AuditRetentionRecord :=
  days ← transpose get_u64 (rr_days r);
  nonce ← blob 12 (rr_seal_nonce r);
  ciphertext ← blob 16 (rr_seal_ciphertext r);
  _ ← integrity (retention_status_validate (mkAuditRetentionStatus days (rr_updated_at_ms r)));
  Ok (mkAuditRetentionRecord days (rr_updated_at_ms r) nonce ciphertext).
Definition load_audit_retention : V AuditRetentionRecord :=
  _ ← query_db Authority.StorageIntegrityFailed (fun t =>
    if llen (audit_retention t) =? 1 then Ok tt else corrupt);
  query_db Authority.StorageIntegrityFailed (fun t =>
    raw ← ok_or Authority.StorageIntegrityFailed (head (audit_retention t)); retention_of_raw raw).
Definition raw_of_retention (r : AuditRetentionRecord) : RawRetention :=
  mkRawRetention (u64_as_i64 <$> ar_days r) (ar_updated_at_ms r) (ar_seal_nonce r) (ar_seal_ciphertext r).

Definition mode_name (m : PolicyMode) : string := match m with Personal => "personal" | Team => "team" end.
Definition mode_parse (s : string) : result AuthorityError PolicyMode :=
  if str_eqb s "personal" then Ok Personal else if str_eqb s "team" then Ok Team else corrupt.
Definition algorithm_name (a : PolicyTrustAlgorithm) : string :=
  match a with AlgEd25519 => "ed25519" | SecureEnclaveP256 => "secure-enclave-p256" end.
Definition algorithm_parse (s : string) : result AuthorityError PolicyTrustAlgorithm :=
  if str_eqb s "ed25519" then Ok AlgEd25519
  else if str_eqb s "secure-enclave-p256" then Ok SecureEnclaveP256 else corrupt.
Definition policy_state_of_raw (r : RawPolicyState) : result AuthorityError PolicyStateRecord :=
  mode ← mode_parse (rps_mode r);
  signer ← optional_id (rps_signer_id r);
  highest ← transpose positive_u64 (rps_highest_version r);
  policy ← transpose (blob 32) (rps_policy_digest r);
  bundle ← transpose (blob 32) (rps_bundle_digest r);
  nonce ← blob 12 (rps_seal_nonce r);
  ciphertext ← blob 16 (rps_seal_ciphertext r);
  Ok (mkPolicyStateRecord mode (rps_trust_installed r) (rps_bundle_activated r) signer highest policy bundle
        (rps_updated_at_ms r) nonce ciphertext).
Definition load_policy_state : V PolicyStateRecord :=
  query_db Authority.StorageUnavailable (fun t =>
    raw ← ok_or Authority.StorageIntegrityFailed (policy_state t); policy_state_of_raw raw).
Definition raw_of_policy_state (s : PolicyStateRecord) : RawPolicyState :=
  mkRawPolicyState (mode_name (pst_mode s)) (pst_trust_installed s) (pst_bundle_activated s)
    (id_as_bytes <$> pst_signer_id s) (u64_as_i64 <$> pst_highest_version s) (pst_policy_digest s)
    (pst_bundle_digest s) (pst_updated_at_ms s) (pst_seal_nonce s) (pst_seal_ciphertext s).
Definition policy_trust_of_raw (r : RawPolicyTrust) : result AuthorityError PolicyTrustRecord :=
  algorithm ← algorithm_parse (rpt_algorithm r);
  key ← integrity (verification_key_from_bytes algorithm (rpt_public_key r));
  signer ← id_of_blob (rpt_signer_id r);
  nonce ← blob 12 (rpt_seal_nonce r);
  ciphertext ← blob 16 (rpt_seal_ciphertext r);
  Ok (mkPolicyTrustRecord signer key (rpt_installed_at_ms r) nonce ciphertext).
Definition load_policy_trust : V (option PolicyTrustRecord) :=
  query_db Authority.StorageUnavailable (fun t => transpose policy_trust_of_raw (policy_trust t)).
Definition raw_of_policy_trust (p : PolicyTrustRecord) : RawPolicyTrust :=
  mkRawPolicyTrust (id_as_bytes (ptr_signer_id p)) (algorithm_name (pk_algorithm (ptr_key p)))
    (pk_bytes (ptr_key p)) (ptr_installed_at_ms p) (ptr_seal_nonce p) (ptr_seal_ciphertext p).
Definition policy_bundle_of_raw (r : RawPolicyBundle) : result AuthorityError PolicyBundleRecord :=
  signer ← id_of_blob (rpb_signer_id r);
  version ← positive_u64 (rpb_version r);
  policy ← blob 32 (rpb_policy_digest r);
  bundle ← blob 32 (rpb_bundle_digest r);
  nonce ← blob 12 (rpb_seal_nonce r);
  ciphertext ← blob 16 (rpb_seal_ciphertext r);
  Ok (mkPolicyBundleRecord signer version (rpb_expires_at_ms r) policy bundle (rpb_bundle_json r)
        (rpb_activated_at_ms r) nonce ciphertext).
Definition load_policy_bundle : V (option PolicyBundleRecord) :=
  query_db Authority.StorageUnavailable (fun t => transpose policy_bundle_of_raw (policy_bundle t)).
Definition raw_of_policy_bundle (p : PolicyBundleRecord) : RawPolicyBundle :=
  mkRawPolicyBundle (id_as_bytes (pbr_signer_id p)) (u64_as_i64 (pbr_version p)) (pbr_expires_at_ms p)
    (pbr_policy_digest p) (pbr_bundle_digest p) (pbr_bundle_json p) (pbr_activated_at_ms p)
    (pbr_seal_nonce p) (pbr_seal_ciphertext p).

(** ** Certificates, revocation lists and actions *)

Definition pki_state_parse (v : Z) : result AuthorityError PkiCertificateState :=
  if v =? 0 then Ok PkiReserved else if v =? 1 then Ok PkiIssued else if v =? 2 then Ok PkiFailed else corrupt.
Definition der_bad (limit : option Z) (der : option (list Z)) : bool :=
  is_some_and der (fun b => (llen b =? 0) || is_some_and limit (fun n => n <? llen b)).
Definition certificate_of_raw (r : RawCertificate) : result AuthorityError PkiCertificateRecord :=
  state ← pki_state_parse (rct_state r);
  serial ← blob 16 (rct_serial r);
  credential ← id_of_blob (rct_credential_id r);
  version ← get_u64 (rct_credential_version r);
  request ← id_of_blob (rct_request_id r);
  digest ← blob 32 (rct_request_digest r);
  let row := mkPkiCertificateRecord serial credential version request digest (rct_created_at_ms r) state
               (rct_finished_at_ms r) (rct_certificate_der r) (rct_issuer_der r) (rct_revoked_at_ms r) in
  let issued := bool_decide (state = PkiIssued) in
  reject_if (be_value serial =? 0) || (128 <=? default 0 (head serial)) || (version =? 0)
            || (rct_created_at_ms r <? 0) || is_some_and (rct_finished_at_ms r) (fun t => t <? 0)
            || is_some_and (rct_revoked_at_ms r) (fun t => (t <? 0) || negb issued)
            || xorb (bool_decide (state = PkiReserved)) (is_none (rct_finished_at_ms r))
            || xorb issued (is_some (rct_certificate_der r) && is_some (rct_issuer_der r))
            || (negb issued && (is_some (rct_certificate_der r) || is_some (rct_issuer_der r)))
            || der_bad (Some 65536) (rct_certificate_der r) || der_bad (Some 65536) (rct_issuer_der r)
    with Authority.StorageIntegrityFailed ;;
  Ok row.
Definition crl_of_raw (r : RawCrl) : result AuthorityError PkiCrlRecord :=
  state ← pki_state_parse (rcl_state r);
  number ← blob 8 (rcl_number r);
  credential ← id_of_blob (rcl_credential_id r);
  version ← get_u64 (rcl_credential_version r);
  request ← id_of_blob (rcl_request_id r);
  digest ← blob 32 (rcl_snapshot_digest r);
  let issued := bool_decide (state = PkiIssued) in
  reject_if (be_value number =? 0) || (version =? 0)
            || (rcl_created_at_ms r <? 0) || is_some_and (rcl_finished_at_ms r) (fun t => t <? 0)
            || xorb (bool_decide (state = PkiReserved)) (is_none (rcl_finished_at_ms r))
            || xorb issued (is_some (rcl_crl_der r) && is_some (rcl_issuer_der r))
            || (negb issued && (is_some (rcl_crl_der r) || is_some (rcl_issuer_der r)))
            || der_bad None (rcl_crl_der r) || der_bad (Some 65536) (rcl_issuer_der r)
    with Authority.StorageIntegrityFailed ;;
  Ok (mkPkiCrlRecord (be_value number) credential version request digest (rcl_created_at_ms r) state
        (rcl_finished_at_ms r) (rcl_crl_der r) (rcl_issuer_der r)).
Definition action_of_raw (r : RawAction) : result AuthorityError ActionRecord :=
  request_max ← get_ranged 32 (rn_request_max_bytes r);
  response_max ← get_ranged 32 (rn_response_max_bytes r);
  timeout ← get_ranged 32 (rn_timeout_ms r);
  nonce ← blob 12 (rn_seal_nonce r);
  ciphertext ← blob 16 (rn_seal_ciphertext r);
  action_id ← id_of_blob (rn_action_id r);
  version ← positive_u64 (rn_version r);
  state ← ok_or Authority.StorageIntegrityFailed (action_state_parse (rn_state r));
  credential ← id_of_blob (rn_credential_id r);
  Ok (mkActionRecord (rn_native_plugin_json r) (rn_text_stream_json r) action_id version (rn_name r) state
        credential (rn_origin r) (rn_method r) (rn_target_json r) (rn_auth_header r) (rn_auth_prefix r)
        request_max (rn_allowed_extra_headers_json r) response_max (rn_allowed_response_headers_json r)
        timeout (rn_created_at_ms r) nonce ciphertext).
Definition raw_of_action (a : ActionRecord) : RawAction :=
  mkRawAction (ac_native_plugin_json a) (ac_text_stream_json a) (id_as_bytes (ac_action_id a))
    (u64_as_i64 (ac_version a)) (ac_name a) (action_state_as_str (ac_state a)) (id_as_bytes (ac_credential_id a))
    (ac_origin a) (ac_method a) (ac_target_json a) (ac_auth_header a) (ac_auth_prefix a)
    (ac_request_max_bytes a) (ac_allowed_extra_headers_json a) (ac_response_max_bytes a)
    (ac_allowed_response_headers_json a) (ac_timeout_ms a) (ac_created_at_ms a) (ac_seal_nonce a)
    (ac_seal_ciphertext a).

(** ** Leases *)

Definition lease_of_raw (r : RawLease) : result AuthorityError LeaseJournalRecord :=
  phase ← ok_or Authority.StorageIntegrityFailed (lease_phase_parse (rl_phase r));
  cleanup ← ok_or Authority.StorageIntegrityFailed (cleanup_outcome_parse (rl_cleanup_outcome r));
  renewable ← match rl_renewable r with
    | None => Ok None
    | Some v => if v =? 0 then Ok (Some false) else if v =? 1 then Ok (Some true) else corrupt
    end;
  registration ← id_of_blob (rl_registration_id r);
  request ← id_of_blob (rl_request_id r);
  session ← id_of_blob (rl_session_id r);
  action ← id_of_blob (rl_action_id r);
  action_version ← positive_u64 (rl_action_version r);
  credential ← id_of_blob (rl_credential_id r);
  credential_version ← positive_u64 (rl_credential_version r);
  source ← blob 32 (rl_source_ref_hash r);
  revision ← positive_u64 (rl_revision r);
  event ← blob 16 (rl_last_audit_event_id r);
  _ ← query_u16 (rl_aad_version r);
  dek_nonce ← blob 12 (rl_dek_nonce r);
  payload_nonce ← blob 12 (rl_payload_nonce r);
  Ok (mkLeaseJournalRecord registration
        (mkLeaseExecutionContext request session action action_version credential credential_version)
        source revision phase (rl_created_at_ms r) (rl_updated_at_ms r) (rl_issued_at_ms r)
        (rl_last_confirmed_expires_at_ms r) renewable cleanup (rl_completed_at_ms r) event
        (rl_aad_version r) (rl_crypto_suite r) dek_nonce (rl_wrapped_dek r) payload_nonce (rl_encrypted_payload r)).
Definition raw_of_lease (r : LeaseJournalRecord) : RawLease :=
  let c := lj_context r in
  mkRawLease (id_as_bytes (lj_registration_id r)) (id_as_bytes (lx_request_id c)) (id_as_bytes (lx_session_id c))
    (id_as_bytes (lx_action_id c)) (u64_as_i64 (lx_action_version c)) (id_as_bytes (lx_credential_id c))
    (u64_as_i64 (lx_credential_version c)) (lj_source_ref_hash r) (u64_as_i64 (lj_revision r))
    (lease_phase_as_str (lj_phase r)) (lj_created_at_ms r) (lj_updated_at_ms r) (lj_issued_at_ms r)
    (lj_last_confirmed_expires_at_ms r) ((fun b : bool => if b then 1 else 0) <$> lj_renewable r)
    (cleanup_outcome_as_str (lj_cleanup_outcome r)) (lj_completed_at_ms r) (lj_last_audit_event_id r)
    (lj_aad_version r) (lj_crypto_suite r) (lj_dek_nonce r) (lj_wrapped_dek r) (lj_payload_nonce r)
    (lj_encrypted_payload r).
Definition lease_state_of_raw (r : RawLeaseState) : result AuthorityError LeaseJournalState :=
  reject_if (rls_revision r <? 0) || (rls_record_count r <? 0) with Authority.StorageIntegrityFailed ;;
  digest ← blob 32 (rls_records_digest r);
  nonce ← blob 12 (rls_seal_nonce r);
  ciphertext ← blob 16 (rls_seal_ciphertext r);
  anchor ← transpose (blob 16) (rls_last_audit_event_id r);
  Ok (mkLeaseJournalState anchor (rls_revision r) (rls_record_count r) digest nonce ciphertext).
Definition load_lease_state : V LeaseJournalState :=
  query_db Authority.StorageIntegrityFailed (fun t =>
    raw ← ok_or Authority.StorageIntegrityFailed (vault_lease_journal_state t); lease_state_of_raw raw).
Definition raw_of_lease_state (s : LeaseJournalState) : RawLeaseState :=
  mkRawLeaseState (u64_as_i64 (lst_revision s)) (u64_as_i64 (lst_record_count s)) (lst_records_digest s)
    (lst_seal_nonce s) (lst_seal_ciphertext s) (lst_last_audit_event_id s).

End WithLibraries.
