(* ===== verification/KeyWrap.v ===== *)
(** * KeyWrap: the keys that wrap the root, and what the root authenticates

    [rekey-vault/src/crypto/kdf.rs], recovery.rs, generation.rs, and the wrapping of
    bootstrap.rs: a password or a recovery key becomes the key of a wrapper, which
    holds the root key; the root key authenticates the header, its generation
    included. Argon2id, HKDF, HMAC and base32 are third-party code, the class [Kdf]. *)

From S2P Require Import Prelude Strings Bytes Errors Domain Codec SessionState Approval Decimal Json AuditRecords VaultModel VaultTables VaultStore.
From S2P Require Import Usage VaultRows.

Record Argon2Params := mkArgon2Params { memory_kib : Z; iterations : Z; parallelism : Z }.
Definition RFC9106_LOW_MEMORY : Argon2Params := mkArgon2Params 65536 3 4.
Definition quoted (name : string) : string :=
  String (byte_char 34) (name ++ String (byte_char 34) EmptyString)%string.
Definition to_json (p : Argon2Params) : string :=
  ("{" ++ quoted "memory_kib" ++ ":" ++ dec (memory_kib p) ++ "," ++ quoted "iterations" ++ ":" ++ dec (iterations p)
   ++ "," ++ quoted "parallelism" ++ ":" ++ dec (parallelism p) ++ "}")%string.
Definition params_validate (p : Argon2Params) : result AuthorityError unit :=
  reject_if negb ((8 <=? memory_kib p) && (memory_kib p <=? 256 * 1024))
            || negb ((1 <=? iterations p) && (iterations p <=? 16))
            || negb ((1 <=? parallelism p) && (parallelism p <=? 8))
    with Authority.StorageIntegrityFailed ;;
  Ok tt.

(** [hash_password_into_with_memory] of the password and the salt; [expand] of the
    salt, the key and the info to 32 bytes; HMAC-SHA256; [BASE32_NOPAD]; serde's
    reading of the parameters. *)
Class Kdf := {
  argon2id : Argon2Params -> list Z -> list Z -> option (list Z);
  hkdf_sha256 : list Z -> list Z -> list Z -> option (list Z);
  hmac_sign : list Z -> list Z -> list Z;
  hmac_verify : list Z -> list Z -> list Z -> bool;
  base32_encode : list Z -> string;
  base32_decode : string -> option (list Z);
  params_from_str : string -> option Argon2Params;
}.
Definition is_base32 (c : ascii) : bool :=
  let b := byte_of c in ((65 <=? b) && (b <=? 90)) || ((50 <=? b) && (b <=? 55)).
(** A tag is checked by computing it; the alphabet is A-Z and 2-7; what is written
    reads back. *)
Class KdfLaws `{Kdf} : Prop := {
  argon2id_length p m s k : argon2id p m s = Some k -> length k = 32%nat;
  hkdf_length s k i o : hkdf_sha256 s k i = Some o -> length o = 32%nat;
  hmac_length k m : length (hmac_sign k m) = 32%nat;
  hmac_recomputes k m t : hmac_verify k m t = true <-> t = hmac_sign k m;
  base32_alphabet b : str_all is_base32 (base32_encode b) = true;
  base32_roundtrip b : Forall is_byte b -> base32_decode (base32_encode b) = Some b;
  params_roundtrip : params_from_str (to_json RFC9106_LOW_MEMORY) = Some RFC9106_LOW_MEMORY;
}.

(** [UnlockProof], and the [RestoreProof] of an operator at the machine. *)
Inductive UnlockProof : Type :=
  | PasswordProof (secret : list Z)
  | RecoveryProof (secret : list Z)
  | PresenceProof (secret : list Z).
Inductive RestoreProof : Type :=
  | RestorePassword (secret : list Z)
  | RestoreRecoveryKey (secret : list Z).

Section WithLibraries.
Context {H : Host} {CC : Codecs} {SJ : Serde} {VW : ValueWriter} {RC : RecordCodec} {AE : Aead} {KD : Kdf}.

Definition KDF_ALGORITHM_ARGON2ID : string := "argon2id".
Definition KDF_ALGORITHM_HKDF_SHA256 : string := "hkdf-sha256".
Definition RECOVERY_KEK_INFO : list Z := bytes_of "rekey/recovery-kek/v1".
Definition params_from_json (json : string) : result AuthorityError Argon2Params :=
  params ← ok_or Authority.CryptoFailure (params_from_str json);
  _ ← params_validate params;
  Ok params.
Definition derive_password_kek (password salt : list Z) (params : Argon2Params) : result AuthorityError (list Z) :=
  _ ← params_validate params;
  ok_or Authority.CryptoFailure (argon2id params password salt).
Definition derive_recovery_kek (recovery_key salt : list Z) : result AuthorityError (list Z) :=
  ok_or Authority.CryptoFailure (hkdf_sha256 salt recovery_key RECOVERY_KEK_INFO).

(** ** Recovery keys as text *)

Definition RECOVERY_PREFIX : string := "RKREC1-".
Definition checksum (key : list Z) : list Z := take 4 (sha256 key).
(** The loop over the characters, with a dash before every sixth but the first. *)
Fixpoint grouped (i : nat) (raw : string) : string :=
  match raw with
  | EmptyString => EmptyString
  | String c rest =>
      let tail := String c (grouped (S i) rest) in
      if (0 <? i)%nat && (i mod 6 =? 0)%nat then String "-" tail else tail
  end.
Definition encode_recovery_key (key : list Z) : string :=
  (RECOVERY_PREFIX ++ grouped 0 (base32_encode (key ++ checksum key)))%string.
Definition ascii_upper (c : ascii) : ascii :=
  let b := byte_of c in if (97 <=? b) && (b <=? 122) then byte_char (b - 32) else c.
(** Dashes and spaces go, letters become capital; both are single bytes. *)
Fixpoint compact (s : string) : string :=
  match s with
  | EmptyString => EmptyString
  | String c rest =>
      if Ascii.eqb c "-" || Ascii.eqb c " " then compact rest else String (ascii_upper c) (compact rest)
  end.
Definition parse_recovery_key (input : string) : result AuthorityError (list Z) :=
  rest ← ok_or Authority.InvalidUnlockCredential (strip_prefix_str RECOVERY_PREFIX (trim input));
  decoded ← ok_or Authority.InvalidUnlockCredential (base32_decode (compact rest));
  reject_if negb (bool_decide (length decoded = 36%nat)) with Authority.InvalidUnlockCredential ;;
  let key := take 32 decoded in
  reject_if negb (bool_decide (drop 32 decoded = checksum key)) with Authority.InvalidUnlockCredential ;;
  Ok key.

(** ** Wrapping the root *)

Definition zeros (n : nat) : list Z := repeat 0 n.
Definition vrk_aad (vault wrapper : Uuid) : list Z :=
  aad_encode (mkAadV1 WrapVrk vault (id_as_bytes wrapper) 1 0 (zeros 32)).
Definition wrap_vrk (vault wrapper : Uuid) (kek vrk : list Z) : V (list Z * list Z) :=
  aead_seal kek (vrk_aad vault wrapper) vrk.
(** A key is an array of 32 bytes. *)
Definition key_of {A} (e : A) (plain : list Z) : result A (list Z) :=
  if bool_decide (length plain = 32%nat) then Ok plain else Err e.
Definition unwrap_vrk (vault : Uuid) (wrapper : KeyWrapperRecord) (kek : list Z) : result AuthorityError (list Z) :=
  plain ← map_err (fun _ => Authority.InvalidUnlockCredential)
    (aead_open kek (vrk_aad vault (kw_wrapper_id wrapper)) (kw_nonce wrapper) (kw_wrapped_vrk wrapper));
  key_of Authority.InvalidUnlockCredential plain.
Definition kek_for_wrapper (wrapper : KeyWrapperRecord) (proof : list Z) : result AuthorityError (list Z) :=
  match kw_kind wrapper with
  | WrapperPassword =>
      reject_if negb (str_eqb (kw_kdf_algorithm wrapper) KDF_ALGORITHM_ARGON2ID) with Authority.CryptoFailure ;;
      params ← params_from_json (kw_kdf_params_json wrapper);
      derive_password_kek proof (kw_salt wrapper) params
  | WrapperRecovery =>
      reject_if negb (str_eqb (kw_kdf_algorithm wrapper) KDF_ALGORITHM_HKDF_SHA256) with Authority.CryptoFailure ;;
      reject_if negb (utf8_valid proof) with Authority.InvalidUnlockCredential ;;
      key ← parse_recovery_key (text_of proof);
      derive_recovery_kek key (kw_salt wrapper)
  end.

(** ** The header's generation *)

Definition GENERATION_KEY_INFO : list Z := bytes_of "rekey/header-generation-hmac-sha256/v2".
Definition MESSAGE_DOMAIN : list Z := bytes_of "RKGENERATION" ++ [0; 2].
Definition generation_key (vrk : list Z) (vault : Uuid) : result AuthorityError (list Z) :=
  ok_or Authority.CryptoFailure (hkdf_sha256 (id_as_bytes vault) vrk GENERATION_KEY_INFO).
Definition generation_message (vault : Uuid) (format generation : Z) (pki_digest : Digest) : result AuthorityError (list Z) :=
  reject_if generation =? 0 with Authority.StorageIntegrityFailed ;;
  Ok (MESSAGE_DOMAIN ++ id_as_bytes vault ++ be_bytes 4 format ++ be_bytes 8 generation ++ pki_digest).
Definition generation_seal (vrk : list Z) (vault : Uuid) (format generation : Z) (pki_digest : Digest)
  : result AuthorityError (list Z) :=
  key ← generation_key vrk vault;
  message ← generation_message vault format generation pki_digest;
  key_of Authority.CryptoFailure (hmac_sign key message).
Definition generation_verify (vrk : list Z) (h : VaultHeaderRecord) : result AuthorityError unit :=
  key ← generation_key vrk (hd_vault_id h);
  message ← generation_message (hd_vault_id h) (hd_format_version h) (hd_generation h) (hd_pki_digest h);
  if hmac_verify key message (hd_generation_mac h) then Ok tt else Err Authority.StorageIntegrityFailed.

(** A known text sealed under the root. *)
Definition VAULT_INTEGRITY_MARK : list Z := bytes_of "rekey-vault-integrity-v1".
Definition integrity_aad (vault : Uuid) : list Z :=
  aad_encode (mkAadV1 VaultIntegrity vault (id_as_bytes vault) 1 0 (zeros 32)).
Definition seal_integrity (vault : Uuid) (vrk : list Z) : V (list Z * list Z) :=
  aead_seal vrk (integrity_aad vault) VAULT_INTEGRITY_MARK.
Definition prove_integrity (h : VaultHeaderRecord) (vrk : list Z) : result AuthorityError unit :=
  _ ← generation_verify vrk h;
  plain ← map_err (fun _ => Authority.CryptoFailure)
    (aead_open vrk (integrity_aad (hd_vault_id h)) (hd_integrity_nonce h) (hd_integrity_ciphertext h));
  reject_if negb (bool_decide (plain = VAULT_INTEGRITY_MARK)) with Authority.CryptoFailure ;;
  Ok tt.

End WithLibraries.

(** * A recovery key and its text

    What [encode_recovery_key] writes is plain text, and [parse_recovery_key] reads the
    key back, as a wrapper does from the bytes of a proof. *)

(** Text of visible ASCII: no space, nothing above 126. *)
Definition visible (c : ascii) : bool := (33 <=? byte_of c) && (byte_of c <=? 126).
Lemma visible_ascii s : str_all visible s = true -> str_all is_ascii_byte s = true.
Proof.
  intros Hs. induction s as [|c s IH]; [done|]. cbn [str_all] in *. reflect_bools. unfold visible in *. reflect_bools.
  apply andb_true_intro. split; [unfold is_ascii_byte; apply Z.ltb_lt; lia|by apply IH].
Qed.
Lemma visible_chars s : str_all visible s = true -> chars s = bytes_of s.
Proof. intros Hs. by apply chars_ascii, visible_ascii. Qed.
Lemma visible_utf8 s : str_all visible s = true -> utf8_valid (bytes_of s) = true.
Proof.
  induction s as [|c s IH]; [done|]. cbn [str_all]. intros Hs. reflect_bools. change (bytes_of (String c s)) with (byte_of c :: bytes_of s).
  cbn [utf8_valid]. unfold visible in *. reflect_bools. assert (byte_of c <=? 127 = true) as -> by (apply Z.leb_le; lia). by apply IH.
Qed.
Lemma visible_trim s : str_all visible s = true -> trim s = s.
Proof.
  intros Hs. unfold trim, trim_chars. rewrite visible_chars by done.
  assert (Hw : Forall (fun x => is_whitespace x = false) (bytes_of s)).
  { clear -Hs. induction s as [|c s IH]; [constructor|]. cbn [str_all] in Hs. reflect_bools. constructor; [|by apply IH].
    destruct (is_whitespace (byte_of c)) eqn:E; [|done]. exfalso. unfold visible, is_whitespace in *. reflect_bools.
    rewrite !orb_true_iff, !andb_true_iff, !Z.leb_le, !Z.eqb_eq in E. lia. }
  rewrite (drop_while_none _ _ Hw), drop_while_none by by apply Forall_rev. rewrite rev_involutive. by apply of_chars_ascii, visible_ascii.
Qed.

(** ** The groups *)

Lemma base32_bytes c : is_base32 c = true -> 50 <= byte_of c <= 90 /\ ~ 97 <= byte_of c <= 122 /\ byte_of c <> 45.
Proof. unfold is_base32. rewrite orb_true_iff, !andb_true_iff, !Z.leb_le. lia. Qed.
Lemma base32_upper c : is_base32 c = true -> ascii_upper c = c.
Proof.
  intros Hc%base32_bytes. unfold ascii_upper. destruct (Z.leb_spec 97 (byte_of c)); [|done]. cbn.
  destruct (Z.leb_spec (byte_of c) 122); [lia|done].
Qed.
Lemma base32_kept c : is_base32 c = true -> Ascii.eqb c "-" || Ascii.eqb c " " = false.
Proof.
  intros Hc. destruct (Ascii.eqb_spec c "-") as [->|_]; [by vm_compute in Hc|]. destruct (Ascii.eqb_spec c " ") as [->|_]; [by vm_compute in Hc|done].
Qed.
Lemma compact_grouped raw i : str_all is_base32 raw = true -> compact (grouped i raw) = raw.
Proof.
  revert i. induction raw as [|c raw IH]; [done|]. intros i. cbn [str_all]. intros Hs. reflect_bools. cbn [grouped].
  assert (Hc : compact (String c (grouped (S i) raw)) = String c raw) by (cbn [compact]; by rewrite base32_kept, base32_upper, IH).
  case_match; [|done]. exact Hc.
Qed.
Lemma grouped_visible raw i : str_all is_base32 raw = true -> str_all visible (grouped i raw) = true.
Proof.
  revert i. induction raw as [|c raw IH]; [done|]. intros i. cbn [str_all]. intros Hs. reflect_bools. cbn [grouped].
  assert (Hc : str_all visible (String c (grouped (S i) raw)) = true).
  { cbn [str_all]. rewrite IH by done. match goal with Hb : is_base32 c = true |- _ => apply base32_bytes in Hb end.
    unfold visible. rewrite (proj2 (Z.leb_le 33 _)), (proj2 (Z.leb_le _ 126)) by lia. done. }
  case_match; [exact Hc|done].
Qed.

Section WithLibraries.
Context {CC : Codecs} {CL : CodecLaws} {KD : Kdf} {KL : KdfLaws}.

Lemma recovery_visible key : str_all visible (encode_recovery_key key) = true.
Proof. unfold encode_recovery_key. rewrite str_all_app, grouped_visible; [done|]. apply base32_alphabet. Qed.
Lemma recovery_text key : length key = 32%nat -> Forall is_byte key -> parse_recovery_key (encode_recovery_key key) = Ok key.
Proof.
  intros Hl Hb. unfold parse_recovery_key. rewrite visible_trim by apply recovery_visible. unfold encode_recovery_key.
  rewrite strip_prefix_str_app. cbn [ok_or mbind result_bind]. rewrite compact_grouped by apply base32_alphabet.
  assert (Hc : length (checksum key) = 4%nat /\ Forall is_byte (checksum key)).
  { unfold checksum. rewrite length_take, sha256_length. split; [done|]. apply Forall_take, sha256_bytes. }
  destruct Hc as [Hcl Hcb]. rewrite base32_roundtrip by by apply Forall_app.
  cbn [ok_or mbind result_bind]. rewrite bool_decide_eq_true_2 by (rewrite length_app; lia). cbn [negb].
  rewrite (take_app_length' key _ 32), (drop_app_length' key _ 32) by done. by rewrite bool_decide_eq_true_2.
Qed.

End WithLibraries.
