(* ===== verification/LifecycleSeals.v ===== *)
(** * LifecycleSeals: what the root key binds besides the ledger

    [rekey-vault/src/crypto/policy_state.rs], credential_state.rs and action_state.rs,
    and the digest of store/pki.rs: a canonical layout per record, hashed into the
    associated data of an empty ciphertext, whose tag is the record's seal. *)

From S2P Require Import Prelude Strings Errors Domain Codec SessionState Approval Action Template FixedAction Json Signed AuditRecords VaultModel.
From S2P Require Import VaultTables VaultStore Usage VaultRows KeyWrap.

(** A stable sort, as [sort_by_key] and ORDER BY. *)
Fixpoint insert_sorted {A} (before : A -> A -> bool) (x : A) (l : list A) : list A :=
  match l with
  | [] => [x]
  | y :: rest => if before y x then y :: insert_sorted before x rest else x :: l
  end.
Definition sort_by {A} (before : A -> A -> bool) (l : list A) : list A := fold_left (fun acc x => insert_sorted before x acc) l [].
Definition by_key {A} (key : A -> Z) (a b : A) : bool := key a <=? key b.

Section WithLibraries.
Context {H : Host} {CC : Codecs} {SG : Signatures} {SJ : Serde} {VW : ValueWriter} {RC : RecordCodec} {AE : Aead}.

(** ** Policies and retention (policy_state.rs) *)

Definition state_aad (purpose : AadPurpose) (vault : Uuid) (object : list Z) (version : Z) (canonical : list Z) : list Z :=
  aad_encode (mkAadV1 purpose vault object version 0 (sha256 canonical)).
(** An empty text under a key: the seal, and its check. *)
Definition seal_aad (key aad : list Z) : V (list Z * list Z) :=
  sealed ← aead_seal key aad [];
  _ ← vreject (negb (bool_decide (length sealed.2 = 16%nat))) Authority.CryptoFailure;
  mret sealed.
Definition verify_aad (key aad nonce ciphertext : list Z) : result AuthorityError unit :=
  plaintext ← integrity (aead_open key aad nonce ciphertext);
  reject_if negb (bool_decide (plaintext = [])) with Authority.StorageIntegrityFailed ;;
  Ok tt.

Definition is_zero_digest (d : option Digest) : bool := is_some_and d (fun d => bool_decide (d = zeros 32)).
Definition bundle_field_count (r : PolicyStateRecord) : Z :=
  Z.b2z (is_some (pst_highest_version r)) + Z.b2z (is_some (pst_policy_digest r)) + Z.b2z (is_some (pst_bundle_digest r)).
Definition validate_state (r : PolicyStateRecord) : result AuthorityError unit :=
  let bundle_fields := bundle_field_count r =? 3 in
  reject_if xorb (pst_trust_installed r) (is_some (pst_signer_id r))
            || xorb (pst_bundle_activated r) bundle_fields
            || (pst_bundle_activated r && negb (pst_trust_installed r))
            || (negb (pst_bundle_activated r) && negb (bundle_field_count r =? 0))
            || is_some_and (pst_highest_version r) (fun v => (v =? 0) || (i64_max <=? v))
            || is_zero_digest (pst_policy_digest r) || is_zero_digest (pst_bundle_digest r)
            || (pst_updated_at_ms r <? 0)
    with Authority.StorageIntegrityFailed ;;
  Ok tt.
Definition canonical_state (vault : Uuid) (r : PolicyStateRecord) : result AuthorityError (list Z) :=
  _ ← validate_state r;
  Ok (bytes_of "RKPS" ++ be_bytes 2 2 ++ id_as_bytes vault
      ++ [match pst_mode r with Personal => 1 | Team => 2 end]
      ++ [Z.b2z (pst_trust_installed r)] ++ [Z.b2z (pst_bundle_activated r)]
      ++ match pst_signer_id r with Some id => id_as_bytes id | None => zeros 16 end
      ++ be_bytes 8 (default 0 (pst_highest_version r))
      ++ default (zeros 32) (pst_policy_digest r) ++ default (zeros 32) (pst_bundle_digest r)
      ++ i64_to_be_bytes (pst_updated_at_ms r)).
Definition canonical_trust (vault : Uuid) (r : PolicyTrustRecord) : list Z :=
  bytes_of "RKPT" ++ be_bytes 2 2 ++ id_as_bytes vault ++ id_as_bytes (ptr_signer_id r)
  ++ be_bytes 2 (match pk_algorithm (ptr_key r) with AlgEd25519 => 1 | SecureEnclaveP256 => 2 end)
  ++ be_bytes 2 (llen (pk_bytes (ptr_key r))) ++ pk_bytes (ptr_key r)
  ++ i64_to_be_bytes (ptr_installed_at_ms r).
Definition canonical_bundle (vault : Uuid) (r : PolicyBundleRecord) : list Z :=
  bytes_of "RKPB" ++ be_bytes 2 1 ++ id_as_bytes vault ++ id_as_bytes (pbr_signer_id r)
  ++ be_bytes 8 (pbr_version r) ++ i64_to_be_bytes (pbr_expires_at_ms r)
  ++ pbr_policy_digest r ++ pbr_bundle_digest r ++ i64_to_be_bytes (pbr_activated_at_ms r).
Definition canonical_retention (vault : Uuid) (r : AuditRetentionRecord) : result AuthorityError (list Z) :=
  _ ← integrity (retention_status_validate (mkAuditRetentionStatus (ar_days r) (ar_updated_at_ms r)));
  Ok (bytes_of "RKAR" ++ be_bytes 2 1 ++ id_as_bytes vault ++ [Z.b2z (is_some (ar_days r))]
      ++ be_bytes 8 (default 0 (ar_days r)) ++ i64_to_be_bytes (ar_updated_at_ms r)).

Definition policy_state_aad (vault : Uuid) (r : PolicyStateRecord) : result AuthorityError (list Z) :=
  canonical ← canonical_state vault r; Ok (state_aad PolicyStateSeal vault (zeros 16) 1 canonical).
Definition policy_trust_aad (vault : Uuid) (r : PolicyTrustRecord) : list Z :=
  state_aad PolicyTrustSeal vault (id_as_bytes (ptr_signer_id r)) 1 (canonical_trust vault r).
Definition policy_bundle_aad (vault : Uuid) (r : PolicyBundleRecord) : list Z :=
  state_aad PolicyBundleSeal vault (id_as_bytes (pbr_signer_id r)) (pbr_version r) (canonical_bundle vault r).
Definition retention_aad (vault : Uuid) (r : AuditRetentionRecord) : result AuthorityError (list Z) :=
  canonical ← canonical_retention vault r; Ok (state_aad AuditRetentionSeal vault (zeros 16) 1 canonical).
Definition seal_state (key : list Z) (vault : Uuid) (r : PolicyStateRecord) : V (list Z * list Z) :=
  aad ← vlift (policy_state_aad vault r); seal_aad key aad.
Definition seal_trust (key : list Z) (vault : Uuid) (r : PolicyTrustRecord) : V (list Z * list Z) :=
  seal_aad key (policy_trust_aad vault r).
Definition seal_bundle (key : list Z) (vault : Uuid) (r : PolicyBundleRecord) : V (list Z * list Z) :=
  seal_aad key (policy_bundle_aad vault r).
Definition seal_retention (key : list Z) (vault : Uuid) (r : AuditRetentionRecord) : V (list Z * list Z) :=
  aad ← vlift (retention_aad vault r); seal_aad key aad.
Definition verify_state (key : list Z) (vault : Uuid) (r : PolicyStateRecord) : result AuthorityError unit :=
  aad ← policy_state_aad vault r; verify_aad key aad (pst_seal_nonce r) (pst_seal_ciphertext r).
Definition verify_trust (key : list Z) (vault : Uuid) (r : PolicyTrustRecord) : result AuthorityError unit :=
  verify_aad key (policy_trust_aad vault r) (ptr_seal_nonce r) (ptr_seal_ciphertext r).
Definition verify_bundle (key : list Z) (vault : Uuid) (r : PolicyBundleRecord) : result AuthorityError unit :=
  verify_aad key (policy_bundle_aad vault r) (pbr_seal_nonce r) (pbr_seal_ciphertext r).
Definition verify_retention (key : list Z) (vault : Uuid) (r : AuditRetentionRecord) : result AuthorityError unit :=
  aad ← retention_aad vault r; verify_aad key aad (ar_seal_nonce r) (ar_seal_ciphertext r).

(** ** Credentials (credential_state.rs) *)

Definition revoked_code (r : CredentialRecord) : result AuthorityError Z :=
  match cr_state r, cr_revoked_at_ms r with
  | CredActive, None => Ok (-1)
  | CredRevoked, Some v => if v =? -1 then corrupt else Ok v
  | _, _ => corrupt
  end.
Definition canonical_record (r : CredentialRecord) : result AuthorityError (list Z) :=
  let label := bytes_of (cr_label r) in
  reject_if 65535 <? llen label with Authority.StorageIntegrityFailed ;;
  revoked_at_ms ← revoked_code r;
  Ok (bytes_of "RKCS" ++ be_bytes 2 1 ++ id_as_bytes (cr_credential_id r)
      ++ be_bytes 2 (llen label) ++ label ++ be_bytes 2 (aad_code (cr_kind r))
      ++ be_bytes 2 (match cr_state r with CredActive => 1 | CredRevoked => 2 end)
      ++ be_bytes 8 (cr_current_version r) ++ i64_to_be_bytes (cr_created_at_ms r)
      ++ i64_to_be_bytes (cr_updated_at_ms r) ++ i64_to_be_bytes revoked_at_ms).
Definition credential_aad (vault : Uuid) (r : CredentialRecord) : result AuthorityError (list Z) :=
  canonical ← canonical_record r;
  Ok (aad_encode (mkAadV1 CredentialStateSeal vault (id_as_bytes (cr_credential_id r)) (cr_current_version r)
        (aad_code (cr_kind r)) (sha256 canonical))).
Definition seal_credential (key : list Z) (vault : Uuid) (r : CredentialRecord) : V (list Z * list Z) :=
  aad ← vlift (credential_aad vault r); seal_aad key aad.
Definition verify_credential (key : list Z) (vault : Uuid) (r : CredentialRecord) : result AuthorityError unit :=
  aad ← credential_aad vault r; verify_aad key aad (cr_state_nonce r) (cr_state_ciphertext r).

(** ** Actions (action_state.rs) *)

Definition length_prefixed (value : list Z) : list Z := be_bytes 8 (llen value) ++ value.
Definition optional_text (value : option string) : list Z :=
  match value with None => [0] | Some text => 1 :: length_prefixed (bytes_of text) end.
Definition canonical_action (vault : Uuid) (r : ActionRecord) : list Z :=
  let text s := length_prefixed (bytes_of s) in
  bytes_of "RKAS" ++ [0; 1] ++ id_as_bytes vault ++ id_as_bytes (ac_action_id r) ++ be_bytes 8 (ac_version r)
  ++ text (ac_name r) ++ text (action_state_as_str (ac_state r)) ++ id_as_bytes (ac_credential_id r)
  ++ text (ac_origin r) ++ text (ac_method r) ++ text (ac_target_json r) ++ text (ac_auth_header r)
  ++ text (ac_auth_prefix r) ++ be_bytes 4 (ac_request_max_bytes r) ++ text (ac_allowed_extra_headers_json r)
  ++ be_bytes 4 (ac_response_max_bytes r) ++ text (ac_allowed_response_headers_json r)
  ++ be_bytes 4 (ac_timeout_ms r) ++ i64_to_be_bytes (ac_created_at_ms r)
  ++ optional_text (ac_native_plugin_json r) ++ optional_text (ac_text_stream_json r).
Definition action_aad (vault : Uuid) (r : ActionRecord) : list Z :=
  state_aad ActionStateSeal vault (id_as_bytes (ac_action_id r)) (ac_version r) (canonical_action vault r).
Definition seal_action (key : list Z) (vault : Uuid) (r : ActionRecord) : V (list Z * list Z) :=
  seal_aad key (action_aad vault r).
Definition verify_action (key : list Z) (vault : Uuid) (r : ActionRecord) : result AuthorityError unit :=
  verify_aad key (action_aad vault r) (ac_seal_nonce r) (ac_seal_ciphertext r).
Definition COLLECTION_DOMAIN : list Z := bytes_of "RKHTTPACTIONSET" ++ [0; 1].
Definition empty_collection_digest : Digest := sha256 (COLLECTION_DOMAIN ++ be_bytes 8 0).
Definition action_before (a b : ActionRecord) : bool :=
  (ac_action_id a <? ac_action_id b) || ((ac_action_id a =? ac_action_id b) && (ac_version a <=? ac_version b)).
Definition collection_digest (vault : Uuid) (actions : list ActionRecord) : Digest :=
  let ordered := sort_by action_before actions in
  sha256 (COLLECTION_DOMAIN ++ be_bytes 8 (llen ordered)
    ++ concat (map (fun r => length_prefixed (canonical_action vault r) ++ ac_seal_nonce r ++ ac_seal_ciphertext r) ordered)).

(** ** Certificates and revocation lists (store/pki.rs) *)

Definition optional_time (t : option Z) : list Z :=
  match t with None => [0] | Some t => 1 :: i64_to_be_bytes t end.
Definition optional_der (der : option (list Z)) : list Z :=
  match der with None => [0] | Some v => 1 :: length_prefixed v end.
Definition certificate_bytes (r : PkiCertificateRecord) : list Z :=
  pc_serial r ++ id_as_bytes (pc_credential_id r) ++ be_bytes 8 (pc_credential_version r)
  ++ id_as_bytes (pc_request_id r) ++ pc_request_digest r ++ i64_to_be_bytes (pc_created_at_ms r)
  ++ [pki_state_code (pc_state r)] ++ optional_time (pc_finished_at_ms r) ++ optional_time (pc_revoked_at_ms r)
  ++ optional_der (pc_certificate_der r) ++ optional_der (pc_issuer_der r).
Definition crl_bytes (r : PkiCrlRecord) : list Z :=
  be_bytes 8 (pl_number r) ++ id_as_bytes (pl_credential_id r) ++ be_bytes 8 (pl_credential_version r)
  ++ id_as_bytes (pl_request_id r) ++ pl_snapshot_digest r ++ i64_to_be_bytes (pl_created_at_ms r)
  ++ [pki_state_code (pl_state r)] ++ optional_time (pl_finished_at_ms r)
  ++ optional_der (pl_crl_der r) ++ optional_der (pl_issuer_der r).
Definition pki_digest (records : list PkiCertificateRecord) (crls : list PkiCrlRecord) : Digest :=
  let certificates := sort_by (by_key (fun r => be_value (pc_serial r))) records in
  let lists := sort_by (by_key pl_number) crls in
  sha256 (bytes_of "RKPKISET" ++ [0; 3] ++ be_bytes 8 (llen certificates)
    ++ concat (map certificate_bytes certificates)
    ++ be_bytes 8 (llen lists) ++ concat (map crl_bytes lists)).
Definition combined_digest (pki actions : Digest) : Digest :=
  sha256 (bytes_of "RKPKISET" ++ [0; 4] ++ pki ++ actions).
Definition empty_digest : Digest := combined_digest (pki_digest [] []) empty_collection_digest.

Record MetadataSet := mkMetadataSet {
  ms_certificates : list PkiCertificateRecord;
  ms_crls : list PkiCrlRecord;
  ms_actions : list ActionRecord;
  ms_vault_id : Uuid;
}.
Definition set_digest (s : MetadataSet) : Digest :=
  combined_digest (pki_digest (ms_certificates s) (ms_crls s)) (collection_digest (ms_vault_id s) (ms_actions s)).

End WithLibraries.

(** * Stored records and validated values

    [rekey-vault/src/convert.rs]. A row of the action table becomes a [FixedHttpAction]
    again only through every constructor and through [action_validate]; its seal is
    checked first. serde's reading and writing of the JSON columns is the class
    [ActionCodec]; a set of header names is its sorted list. *)

Record CredentialMetadata := mkCredentialMetadata {
  mt_id : CredentialId;
  mt_label : string;
  mt_kind : CredentialKind;
  mt_state : CredentialState;
  mt_current_version : Z;
  mt_created_at : Timestamp;
  mt_updated_at : Timestamp;
}.

(** [BTreeSet::insert], and the set of a list. *)
Fixpoint insert_name (x : string) (l : list string) : list string :=
  match l with
  | [] => [x]
  | y :: rest =>
      match String.compare x y with
      | Lt => x :: l
      | Eq => l
      | Gt => y :: insert_name x rest
      end
  end.
Definition name_set (l : list string) : list string := fold_left (fun acc x => insert_name x acc) l [].

Section WithLibraries.
Context {JS : JsonSchema}.

Class ActionCodec := {
  plugin_to_string : NativePlugin -> option string;
  plugin_from_str : string -> option NativePlugin;
  stream_to_string : AnthropicTextStream -> option string;
  stream_from_str : string -> option AnthropicTextStream;
  target_to_string : ActionTarget -> option string;
  target_from_str : string -> option ActionTarget;
  names_to_string : list string -> option string;
  names_from_str : string -> option (list string);
}.
Class ActionCodecLaws `{ActionCodec} : Prop := {
  plugin_roundtrip p s : plugin_to_string p = Some s -> plugin_from_str s = Some p;
  stream_roundtrip p s : stream_to_string p = Some s -> stream_from_str s = Some p;
  target_roundtrip t s : target_to_string t = Some s -> target_from_str s = Some t;
  names_roundtrip l s : names_to_string l = Some s -> names_from_str s = Some l;
}.

Context {CC : Codecs} {AE : Aead} {AC : ActionCodec}.

Definition record_to_metadata (r : CredentialRecord) : result AuthorityError CredentialMetadata :=
  label ← integrity (CredentialLabel_new (cr_label r));
  Ok (mkCredentialMetadata (cr_credential_id r) label (cr_kind r) (cr_state r) (cr_current_version r)
        (cr_created_at_ms r) (cr_updated_at_ms r)).
Definition storable {A} (o : option A) : result AuthorityError A := ok_or Authority.StorageIntegrityFailed o.
Definition headers_to_json (headers : list string) : result AuthorityError string := storable (names_to_string headers).
Definition headers_from_json (json : string) : result AuthorityError (list string) :=
  names ← storable (names_from_str json);
  headers ← collect (fun n => integrity (HeaderName_new n)) names;
  Ok (name_set headers).
Definition action_to_record (a : FixedHttpAction) (now_ms : Z) : result AuthorityError ActionRecord :=
  plugin ← transpose (fun p => storable (plugin_to_string p)) (native_plugin a);
  stream ← transpose (fun p => storable (stream_to_string p)) (text_stream a);
  target ← storable (target_to_string (target a));
  extra ← headers_to_json (allowed_extra_headers (request_policy a));
  returned ← headers_to_json (allowed_headers (response_policy a));
  Ok (mkActionRecord plugin stream (fa_id a) (fa_version a) (fa_name a) ActionActive (fa_credential_id a) (origin a)
        (method_as_str (method a)) target (header_name (auth a)) (prefix (auth a))
        (req_max_body_bytes (request_policy a)) extra (resp_max_body_bytes (response_policy a)) returned
        (timeout_ms a) now_ms (zeros 12) (zeros 16)).
Definition record_to_action (r : ActionRecord) : result AuthorityError FixedHttpAction :=
  plugin ← transpose (fun s => storable (plugin_from_str s)) (ac_native_plugin_json r);
  stream ← transpose (fun s => storable (stream_from_str s)) (ac_text_stream_json r);
  name ← integrity (ActionName_new (ac_name r));
  origin ← integrity (HttpsOrigin_parse (ac_origin r));
  method ← integrity (method_parse (ac_method r));
  target ← storable (target_from_str (ac_target_json r));
  header ← integrity (HeaderName_new (ac_auth_header r));
  pre ← integrity (HeaderPrefix_new (ac_auth_prefix r));
  auth ← integrity (HeaderCredentialUse_new header pre);
  extra ← headers_from_json (ac_allowed_extra_headers_json r);
  returned ← headers_from_json (ac_allowed_response_headers_json r);
  let action := mkFixedHttpAction plugin stream (ac_action_id r) name (ac_version r)
                  (negb (bool_decide (ac_state r = ActionOff))) (ac_credential_id r) origin method target auth
                  (ac_timeout_ms r) (mkRequestPolicy (ac_request_max_bytes r) extra)
                  (mkResponsePolicy (ac_response_max_bytes r) returned) in
  _ ← integrity (action_validate action);
  Ok action.
Definition verified_record_to_action (record : ActionRecord) (key : list Z) (vault : Uuid)
    : result AuthorityError FixedHttpAction :=
  _ ← verify_action key vault record;
  record_to_action record.

End WithLibraries.
