(* ===== verification/VaultContent.v ===== *)
(** * VaultContent: the sealed journal, and what is verified of a vault

    [rekey-vault/src/crypto/lease_journal.rs]. A lease's row is bound whole to its
    ciphertexts: the data key to the identity of the lease, the payload to every
    column, and the ordered set of rows to the sealed state of the journal. *)

From S2P Require Import Prelude Strings Bytes Errors Domain Codec SessionState Approval Action Decimal Json Signed AuditRecords VaultModel.
From S2P Require Import VaultTables VaultStore Usage VaultRows KeyWrap LifecycleSeals.

(** serde's reading of a stored source: its type, origin, mount and role. *)
Class LeaseCodec := { profile_source_from_slice : list Z -> option (string * string * string * string) }.

Record LeasePayload := mkLeasePayload { lp_source : LeaseSourceRef; lp_lease_id : option (list Z) }.

Section WithLibraries.
Context {H : Host} {CC : Codecs} {SG : Signatures} {SJ : Serde} {VW : ValueWriter} {RC : RecordCodec} {AE : Aead} {LC : LeaseCodec}.

Definition lease_field (value : list Z) : result AuthorityError (list Z) :=
  if llen value <=? 65535 then Ok (be_bytes 2 (llen value) ++ value) else corrupt.
Definition is_source_byte (b : Z) : bool := is_alphanumeric_b b || (b =? 95) || (b =? 45).
Definition bad_source_name (value : string) : bool :=
  is_empty_str value || (128 <? slen value) || negb (forallb is_source_byte (bytes_of value)).
Definition validate_source (source : LeaseSourceRef) : result AuthorityError unit :=
  if (2048 <? slen (ls_origin source)) || existsb bad_source_name [ls_mount source; ls_role source] then corrupt else Ok tt.
Definition source_fields (source : LeaseSourceRef) : result AuthorityError (list Z) :=
  origin ← lease_field (bytes_of (ls_origin source));
  mount ← lease_field (bytes_of (ls_mount source));
  role ← lease_field (bytes_of (ls_role source));
  Ok (origin ++ mount ++ role).
Definition source_hash (source : LeaseSourceRef) : result AuthorityError Digest :=
  _ ← validate_source source;
  fields ← source_fields source;
  Ok (sha256 (bytes_of "RKVSRC" ++ [0; 1] ++ fields)).
Definition lease_identity (r : LeaseJournalRecord) : list Z :=
  let c := lj_context r in
  bytes_of "RKJLID" ++ [0; 1] ++ id_as_bytes (lx_request_id c) ++ id_as_bytes (lx_session_id c)
  ++ id_as_bytes (lx_action_id c) ++ be_bytes 8 (lx_action_version c) ++ id_as_bytes (lx_credential_id c)
  ++ be_bytes 8 (lx_credential_version c) ++ lj_source_ref_hash r.
Definition is_held (p : LeasePhase) : bool :=
  match p with Issued | Renewing | CleanupStarted => true | _ => false end.
(** What [metadata] refuses: a row whose columns no transition produces. *)
Definition lease_bad (r : LeaseJournalRecord) : bool :=
  let c := lj_context r in
  let issued := is_some (lj_issued_at_ms r) in
  let complete := bool_decide (lj_phase r = LeaseComplete) in
  let outcome := lj_cleanup_outcome r in
  (lj_revision r =? 0) || (i64_max <? lj_revision r) || (lx_action_version c =? 0) || (lx_credential_version c =? 0)
  || (i64_max <? lx_action_version c) || (i64_max <? lx_credential_version c)
  || (lj_created_at_ms r <? 0) || (lj_updated_at_ms r <? lj_created_at_ms r)
  || negb (lj_aad_version r =? AAD_VERSION_V1) || negb (str_eqb (lj_crypto_suite r) CRYPTO_SUITE_V1)
  || xorb issued (is_some (lj_last_confirmed_expires_at_ms r)) || xorb issued (is_some (lj_renewable r))
  || is_some_and (lj_issued_at_ms r) (fun v => (v <? lj_created_at_ms r) || (lj_updated_at_ms r <? v))
  || is_some_and (lj_last_confirmed_expires_at_ms r) (fun e => is_some_and (lj_issued_at_ms r) (fun i => e <=? i))
  || xorb complete (is_some (lj_completed_at_ms r))
  || is_some_and (lj_completed_at_ms r) (fun v => negb (v =? lj_updated_at_ms r))
  || (bool_decide (lj_phase r = AcquireIntent) && issued)
  || (is_held (lj_phase r) && negb issued)
  || (complete && ((issued && negb (bool_decide (outcome = CleanupConfirmed)))
                   || (negb issued && negb (bool_decide (outcome = CleanupNone)))))
  || (negb complete && bool_decide (outcome = CleanupConfirmed)).
Definition lease_optional (value : option Z) : list Z :=
  match value with Some v => 1 :: i64_to_be_bytes v | None => [0] end.
Definition lease_metadata (r : LeaseJournalRecord) : result AuthorityError (list Z) :=
  reject_if lease_bad r with Authority.StorageIntegrityFailed ;;
  Ok (bytes_of "RKJLROW" ++ [0; 1] ++ id_as_bytes (lj_registration_id r) ++ lease_identity r
      ++ be_bytes 8 (lj_revision r) ++ [lease_phase_code (lj_phase r)]
      ++ i64_to_be_bytes (lj_created_at_ms r) ++ i64_to_be_bytes (lj_updated_at_ms r)
      ++ lease_optional (lj_issued_at_ms r) ++ lease_optional (lj_last_confirmed_expires_at_ms r)
      ++ [match lj_renewable r with None => 0 | Some false => 1 | Some true => 2 end]
      ++ [cleanup_outcome_code (lj_cleanup_outcome r)] ++ lease_optional (lj_completed_at_ms r)
      ++ lj_last_audit_event_id r).
(** [aad] with [wrap] true and false. *)
Definition lease_wrap_aad (vault : Uuid) (r : LeaseJournalRecord) : list Z :=
  aad_encode (mkAadV1 LeaseJournalWrapDek vault (id_as_bytes (lj_registration_id r)) 1
    (aad_code VaultDynamicSource) (sha256 (lease_identity r))).
Definition lease_payload_aad (vault : Uuid) (r : LeaseJournalRecord) : result AuthorityError (list Z) :=
  metadata ← lease_metadata r;
  Ok (aad_encode (mkAadV1 LeaseJournalPayload vault (id_as_bytes (lj_registration_id r)) (lj_revision r)
        (aad_code VaultDynamicSource) (sha256 metadata))).

(** ** The payload *)

Definition PAYLOAD_MAGIC : list Z := bytes_of "RKJLP" ++ [0; 1].
Definition is_lease_byte (b : Z) : bool := (33 <=? b) && (b <=? 126).
Definition bad_lease_id (id : list Z) : bool := bool_decide (id = []) || (1024 <? llen id) || negb (forallb is_lease_byte id).
Definition lease_encode (p : LeasePayload) : result AuthorityError (list Z) :=
  _ ← validate_source (lp_source p);
  fields ← source_fields (lp_source p);
  lease ← match lp_lease_id p with
    | None => Ok [0]
    | Some id => if bad_lease_id id then corrupt else field ← lease_field id; Ok (1 :: field)
    end;
  Ok (PAYLOAD_MAGIC ++ fields ++ lease).
(** [take] and [part] on the rest of the input. *)
Definition take_bytes (n : nat) (input : list Z) : result AuthorityError (list Z * list Z) :=
  if (length input <? n)%nat then corrupt else Ok (take n input, drop n input).
Definition take_part (input : list Z) : result AuthorityError (list Z * list Z) :=
  '(len, input) ← take_bytes 2 input;
  take_bytes (Z.to_nat (be_value len)) input.
Definition take_text (input : list Z) : result AuthorityError (string * list Z) :=
  '(bytes, input) ← take_part input;
  if utf8_valid bytes then Ok (text_of bytes, input) else corrupt.
Definition lease_decode (bytes : list Z) : result AuthorityError LeasePayload :=
  '(magic, input) ← take_bytes 7 bytes;
  reject_if negb (bool_decide (magic = PAYLOAD_MAGIC)) with Authority.StorageIntegrityFailed ;;
  '(origin, input) ← take_text input;
  origin ← integrity (HttpsOrigin_parse origin);
  '(mount, input) ← take_text input;
  '(role, input) ← take_text input;
  '(flag, input) ← take_bytes 1 input;
  '(lease_id, input) ← match flag with
    | [0] => Ok (None, input)
    | [1] => '(id, input) ← take_part input; Ok (Some id, input)
    | _ => corrupt
    end;
  reject_if negb (bool_decide (input = [])) with Authority.StorageIntegrityFailed ;;
  let payload := mkLeasePayload (mkLeaseSourceRef origin mount role) lease_id in
  _ ← lease_encode payload;
  Ok payload.
Definition lease_dek (root : list Z) (vault : Uuid) (r : LeaseJournalRecord) : result AuthorityError (list Z) :=
  bytes ← integrity (aead_open root (lease_wrap_aad vault r) (lj_dek_nonce r) (lj_wrapped_dek r));
  key_of Authority.StorageIntegrityFailed bytes.
Definition lease_open (root : list Z) (vault : Uuid) (r : LeaseJournalRecord) : result AuthorityError LeasePayload :=
  key ← lease_dek root vault r;
  aad ← lease_payload_aad vault r;
  bytes ← integrity (aead_open key aad (lj_payload_nonce r) (lj_encrypted_payload r));
  payload ← lease_decode bytes;
  hash ← source_hash (lp_source payload);
  reject_if negb (bool_decide (hash = lj_source_ref_hash r))
            || xorb (is_some (lp_lease_id payload)) (is_held (lj_phase r))
    with Authority.StorageIntegrityFailed ;;
  Ok payload.
Definition set_lease_ciphers (dek payload : list Z * list Z) (r : LeaseJournalRecord) : LeaseJournalRecord :=
  mkLeaseJournalRecord (lj_registration_id r) (lj_context r) (lj_source_ref_hash r) (lj_revision r) (lj_phase r)
    (lj_created_at_ms r) (lj_updated_at_ms r) (lj_issued_at_ms r) (lj_last_confirmed_expires_at_ms r)
    (lj_renewable r) (lj_cleanup_outcome r) (lj_completed_at_ms r) (lj_last_audit_event_id r) (lj_aad_version r)
    (lj_crypto_suite r) dek.1 dek.2 payload.1 payload.2.
Definition lease_seal_new (root : list Z) (vault : Uuid) (r : LeaseJournalRecord) (payload : LeasePayload)
    : V LeaseJournalRecord :=
  key ← random_array 32;
  wrapped ← aead_seal root (lease_wrap_aad vault r) key;
  aad ← vlift (lease_payload_aad vault r);
  bytes ← vlift (lease_encode payload);
  encrypted ← aead_seal key aad bytes;
  mret (set_lease_ciphers wrapped encrypted r).
Definition lease_reseal (root : list Z) (vault : Uuid) (old new : LeaseJournalRecord) (payload : LeasePayload)
    : V LeaseJournalRecord :=
  _ ← vreject (negb (bool_decide (lease_identity old = lease_identity new))
               || negb (lj_registration_id old =? lj_registration_id new)) Authority.StorageIntegrityFailed;
  key ← vlift (lease_dek root vault old);
  aad ← vlift (lease_payload_aad vault new);
  bytes ← vlift (lease_encode payload);
  encrypted ← aead_seal key aad bytes;
  mret (set_lease_ciphers (lj_dek_nonce new, lj_wrapped_dek new) encrypted new).

(** ** The set *)

Definition lease_row_bytes (r : LeaseJournalRecord) : result AuthorityError (list Z) :=
  metadata ← lease_metadata r;
  Ok (metadata ++ be_bytes 2 (lj_aad_version r)
      ++ be_bytes 2 (slen (lj_crypto_suite r)) ++ bytes_of (lj_crypto_suite r)
      ++ lj_dek_nonce r ++ be_bytes 8 (llen (lj_wrapped_dek r)) ++ lj_wrapped_dek r
      ++ lj_payload_nonce r ++ be_bytes 8 (llen (lj_encrypted_payload r)) ++ lj_encrypted_payload r).
Definition lease_set_digest (records : list LeaseJournalRecord) : result AuthorityError Digest :=
  rows ← collect lease_row_bytes (sort_by (by_key lj_registration_id) records);
  Ok (sha256 (bytes_of "RKJLSET" ++ [0; 1] ++ concat rows)).
Definition lease_state_aad (vault : Uuid) (s : LeaseJournalState) : list Z :=
  aad_encode (mkAadV1 LeaseJournalStateSeal vault (zeros 16) (lst_revision s) 0
    (sha256 (bytes_of "RKJLSTATE" ++ [0; 1] ++ be_bytes 8 (lst_record_count s) ++ lst_records_digest s
             ++ match lst_last_audit_event_id s with None => [0] | Some id => 1 :: id end))).
Definition seal_lease_state (root : list Z) (vault : Uuid) (records : list LeaseJournalRecord) (revision : Z)
    (last_audit_event_id : option (list Z)) : V LeaseJournalState :=
  digest ← vlift (lease_set_digest records);
  let state := mkLeaseJournalState last_audit_event_id revision (llen records) digest (zeros 12) (zeros 16) in
  sealed ← seal_aad root (lease_state_aad vault state);
  mret (mkLeaseJournalState last_audit_event_id revision (llen records) digest sealed.1 sealed.2).
Definition verify_lease_state (root : list Z) (vault : Uuid) (records : list LeaseJournalRecord) (s : LeaseJournalState)
    : result AuthorityError unit :=
  reject_if negb (lst_record_count s =? llen records) with Authority.StorageIntegrityFailed ;;
  digest ← lease_set_digest records;
  reject_if negb (bool_decide (lst_records_digest s = digest)) with Authority.StorageIntegrityFailed ;;
  verify_aad root (lease_state_aad vault s) (lst_seal_nonce s) (lst_seal_ciphertext s).

(** A stored source as a reference. *)
Definition profile_source (bytes : list Z) : result AuthorityError LeaseSourceRef :=
  '(credential_type, origin, mount, role) ← ok_or Authority.StorageIntegrityFailed (profile_source_from_slice bytes);
  reject_if negb (str_eqb credential_type "vault-dynamic-source-v2") with Authority.StorageIntegrityFailed ;;
  origin ← integrity (HttpsOrigin_parse origin);
  let source := mkLeaseSourceRef origin mount role in
  _ ← validate_source source;
  Ok source.

End WithLibraries.

(** * What the vault verifies before it trusts its tables

    [rekey-vault/src/store/policy.rs], pki.rs and audit_prune.rs, the checks of
    store/integrity.rs, and [verify_store] of authority/lease_journal.rs: rows are
    read, decoded, and compared with the seals the root key makes of them. *)

Section WithLibraries.
Context {H : Host} {CC : Codecs} {SG : Signatures} {SJ : Serde} {VW : ValueWriter} {RC : RecordCodec} {AE : Aead} {LC : LeaseCodec}.

(** A query in the open transaction, or outside one. *)
Definition query {A} (tx : bool) (e : AuthorityError) (f : Tables -> result AuthorityError A) : V A :=
  if tx then query_tx e f else query_db e f.

(** ** The collections that the generation binds (pki.rs) *)

Definition pki_records (tx : bool) : V (list PkiCertificateRecord) :=
  query tx Authority.StorageUnavailable (fun t =>
    collect certificate_of_raw (sort_by (by_key (fun r => be_value (rct_serial r))) (pki_certificates t))).
Definition crl_records (tx : bool) : V (list PkiCrlRecord) :=
  query tx Authority.StorageUnavailable (fun t =>
    collect crl_of_raw (sort_by (by_key (fun r => be_value (rcl_number r))) (pki_crls t))).
Definition action_row_before (a b : RawAction) : bool :=
  (rn_created_at_ms a <? rn_created_at_ms b)
  || ((rn_created_at_ms a =? rn_created_at_ms b)
      && ((be_value (rn_action_id a) <? be_value (rn_action_id b))
          || ((be_value (rn_action_id a) =? be_value (rn_action_id b)) && (rn_version a <=? rn_version b)))).
Definition all_actions (tx : bool) : V (list ActionRecord) :=
  query tx Authority.StorageUnavailable (fun t => collect action_of_raw (sort_by action_row_before (action_rows t))).
Definition verified_set (tx : bool) (expected : Digest) : V MetadataSet :=
  certificates ← pki_records tx;
  crls ← crl_records tx;
  actions ← all_actions tx;
  header ← query tx Authority.UnsupportedVaultLayout header_of;
  let set := mkMetadataSet certificates crls actions (hd_vault_id header) in
  _ ← vreject (negb (bool_decide (set_digest set = expected))) Authority.StorageIntegrityFailed;
  mret set.
Definition verified_certificates (header : VaultHeaderRecord) : V (list PkiCertificateRecord) :=
  set ← verified_set false (hd_pki_digest header); mret (ms_certificates set).

(** ** Policies and retention *)

Definition mode_accepts (mode : PolicyMode) (algorithm : PolicyTrustAlgorithm) : bool :=
  match mode, algorithm with
  | Personal, SecureEnclaveP256 | Team, AlgEd25519 => true
  | _, _ => false
  end.
Definition trust_check (key : list Z) (vault : Uuid) (st : PolicyStateRecord) (trust : PolicyTrustRecord)
    : result AuthorityError unit :=
  _ ← verify_trust key vault trust;
  reject_if negb (bool_decide (pst_signer_id st = Some (ptr_signer_id trust)))
            || negb (mode_accepts (pst_mode st) (pk_algorithm (ptr_key trust)))
    with Authority.StorageIntegrityFailed ;;
  Ok tt.
Definition bundle_check (key : list Z) (vault : Uuid) (st : PolicyStateRecord) (bundle : PolicyBundleRecord)
    : result AuthorityError unit :=
  _ ← verify_bundle key vault bundle;
  reject_if negb (bool_decide (pst_signer_id st = Some (pbr_signer_id bundle)))
            || negb (bool_decide (pst_highest_version st = Some (pbr_version bundle)))
            || negb (bool_decide (pst_policy_digest st = Some (pbr_policy_digest bundle)))
            || negb (bool_decide (pst_bundle_digest st = Some (pbr_bundle_digest bundle)))
            || negb (bool_decide (sha256 (pbr_bundle_json bundle) = pbr_bundle_digest bundle))
    with Authority.StorageIntegrityFailed ;;
  Ok tt.
Definition check_some {A} (f : A -> result AuthorityError unit) (o : option A) : V unit :=
  match o with None => mret tt | Some a => vlift (f a) end.
Definition verified_policy_material (key : list Z) (vault : Uuid) : V PolicyMaterial :=
  state ← load_policy_state;
  _ ← vlift (verify_state key vault state);
  trust ← load_policy_trust;
  bundle ← load_policy_bundle;
  _ ← vreject (xorb (pst_trust_installed state) (is_some trust) || xorb (pst_bundle_activated state) (is_some bundle))
        Authority.StorageIntegrityFailed;
  _ ← check_some (trust_check key vault state) trust;
  _ ← check_some (bundle_check key vault state) bundle;
  mret (mkPolicyMaterial state trust bundle).
Definition verified_audit_retention (key : list Z) (vault : Uuid) : V AuditRetentionRecord :=
  record ← load_audit_retention;
  _ ← vlift (verify_retention key vault record);
  mret record.

(** ** The journal of leases *)

Definition has_version (t : Tables) (id : list Z) (version : Z) : bool :=
  existsb (fun v => bool_decide (rv_credential_id v = id) && (rv_version v =? version)) (credential_versions t).
Definition has_credential (t : Tables) (id : list Z) : bool :=
  existsb (fun c => bool_decide (rc_credential_id c = id)) (credentials t).
Definition has_event (d : Database) (id : list Z) : bool :=
  existsb (fun e => bool_decide (raw_event_id e = id)) (audit_events d).
(** [PRAGMA foreign_key_check]: the references of the schema. *)
Definition references_hold (d : Database) : bool :=
  let t := vault_tables d in
  forallb (fun r => has_version t (rct_credential_id r) (rct_credential_version r)) (pki_certificates t)
  && forallb (fun r => has_version t (rcl_credential_id r) (rcl_credential_version r)) (pki_crls t)
  && forallb (fun r => has_credential t (rv_credential_id r)) (credential_versions t)
  && forallb (fun r => has_credential t (rn_credential_id r)) (action_rows t)
  && forallb (fun r => has_version t (rl_credential_id r) (rl_credential_version r)
                       && has_event d (rl_last_audit_event_id r)) (vault_lease_journal t)
  && is_none_or (st ← vault_lease_journal_state t; rls_last_audit_event_id st) (has_event d).
Definition foreign_key_check : V unit :=
  holds ← vmap_err (fun _ => Authority.StorageIntegrityFailed) (select_db references_hold);
  vreject (negb holds) Authority.StorageIntegrityFailed.
Definition listed_lease (r : RawLease) : result AuthorityError LeaseJournalRecord :=
  record ← lease_of_raw r;
  _ ← lease_metadata record;
  reject_if negb (llen (lj_wrapped_dek record) =? 48)
            || (llen (lj_encrypted_payload record) <? 16) || (8192 <? llen (lj_encrypted_payload record))
    with Authority.StorageIntegrityFailed ;;
  Ok record.
Definition list_lease_records : V (list LeaseJournalRecord) :=
  query_db Authority.StorageUnavailable (fun t =>
    collect listed_lease (sort_by (by_key (fun r => be_value (rl_registration_id r))) (vault_lease_journal t))).
Definition is_lease_event (r : RawAuditRow) : bool := starts_with_str "vault.lease." (raw_event_type r).
Definition latest_lease_audit_id : V (option (list Z)) :=
  row ← select_db (fun d => last (retain is_lease_event (audit_events d)));
  vlift (transpose (blob 16) (raw_event_id <$> row)).

Definition dek_aad (vault : Uuid) (credential : CredentialId) (version : Z) : list Z :=
  aad_encode (mkAadV1 WrapDek vault (id_as_bytes credential) version 0 (zeros 32)).
Definition payload_aad (vault : Uuid) (credential : CredentialId) (version : Z) (kind : CredentialKind) : list Z :=
  aad_encode (mkAadV1 CredentialPayload vault (id_as_bytes credential) version (aad_code kind) (zeros 32)).
(** A version's secret: its data key, then its payload; [e] is every failure. *)
Definition open_version (e : AuthorityError) (vrk : list Z) (vault : Uuid) (kind : CredentialKind)
    (v : CredentialVersionRecord) : result AuthorityError (list Z) :=
  dek ← map_err (fun _ => e)
    (aead_open vrk (dek_aad vault (cv_credential_id v) (cv_version v)) (cv_dek_nonce v) (cv_wrapped_dek v));
  key ← key_of e dek;
  map_err (fun _ => e)
    (aead_open key (payload_aad vault (cv_credential_id v) (cv_version v) kind) (cv_payload_nonce v) (cv_encrypted_payload v)).
Definition missing_is_corrupt (e : AuthorityError) : AuthorityError :=
  match e with Authority.CredentialNotFound => Authority.StorageIntegrityFailed | other => other end.
Definition historical (root : list Z) (vault : Uuid) (row : LeaseJournalRecord)
    : V (CredentialRecord * CredentialVersionRecord * list Z) :=
  credential ← vmap_err missing_is_corrupt (get_credential (lx_credential_id (lj_context row)));
  _ ← vlift (verify_credential root vault credential);
  _ ← vreject (negb (bool_decide (cr_kind credential = VaultDynamicSource))) Authority.StorageIntegrityFailed;
  version ← vmap_err missing_is_corrupt
    (get_version (cr_credential_id credential) (lx_credential_version (lj_context row)));
  _ ← vreject (negb (cv_aad_version version =? AAD_VERSION_V1) || negb (str_eqb (cv_crypto_suite version) CRYPTO_SUITE_V1))
        Authority.StorageIntegrityFailed;
  bytes ← vlift (open_version Authority.StorageIntegrityFailed root vault (cr_kind credential) version);
  source ← vlift (profile_source bytes);
  hash ← vlift (source_hash source);
  _ ← vreject (negb (bool_decide (hash = lj_source_ref_hash row))) Authority.StorageIntegrityFailed;
  mret (credential, version, bytes).
(** [verify_store]. *)
Definition verify_journal (root : list Z) (vault : Uuid) : V (list LeaseJournalRecord) :=
  _ ← validate_credential_version_invariants;
  _ ← foreign_key_check;
  records ← list_lease_records;
  state ← load_lease_state;
  _ ← vlift (verify_lease_state root vault records state);
  latest ← latest_lease_audit_id;
  _ ← vreject (negb (bool_decide (lst_last_audit_event_id state = latest))) Authority.StorageIntegrityFailed;
  _ ← veach (fun row =>
        _ ← vlift (lease_open root vault row);
        _ ← historical root vault row;
        mret tt) records;
  mret records.

End WithLibraries.
