(* ===== verification/VaultWorker.v ===== *)
(** * VaultWorker: the authority that audits and charges executions

    [rekey-vault/src/authority/audit.rs] and [authority/usage.rs], with the fault
    latch of authority.rs: drafts become events, and a failure to commit evidence,
    or a ledger that does not verify, closes the vault. *)

From S2P Require Import Prelude Errors Domain Codec Json SessionState Approval AuditRecords VaultModel VaultStore Usage.

Section WithLibraries.
Context {H : Host} {CC : Codecs} {SJ : Serde} {VW : ValueWriter} {RC : RecordCodec} {AE : Aead}.

(** ** The latch *)

Definition require_unlocked : V (list Z) := fun s =>
  (match v_state s with
   | VUnlocked vrk => Ok vrk
   | VLocked => Err Authority.Locked
   | VFaulted => Err Authority.Faulted
   | VRollbackSuspected _ => Err Authority.RollbackSuspected
   end, s).
Definition is_faulted (s : Vault) : bool := match v_state s with VFaulted => true | _ => false end.
(** Deleting the file of the remembered desktop, and syncing the directory. *)
Definition remove_desktop_file : V bool := fun s =>
  if fs_works (v_tick s) then (Ok (v_desktop s), v_ticked (set_v_desktop false s))
  else (Err Authority.StorageUnavailable, v_ticked s).
Definition sync_directory : V unit := fun s =>
  (if fs_works (v_tick s) then Ok tt else Err Authority.StorageUnavailable, v_ticked s).
Definition forget_desktop : V unit :=
  _ ← vmodify (set_v_presence None);
  removed ← remove_desktop_file;
  if removed : bool then sync_directory else mret tt.
Definition plain_event (event_id : list Z) (event_type outcome reason_code : string) (created_at_ms : Z) : AuditEvent :=
  mkAuditEvent event_id None None None None None None None None None None event_type outcome reason_code
    None None created_at_ms.
Definition fault (reason : string) : V unit :=
  _ ← vmodify (set_v_presence None);
  _ ← vmodify (set_v_state VFaulted);
  _ ← vtry forget_desktop;
  event_id ← vtry (random_array 16);
  created_at_ms ← vtry now_ms;
  match event_id, created_at_ms with
  | Ok event_id, Ok created_at_ms =>
      _ ← vtry (append_audit_row
            (plain_event event_id event_type.RUNTIME_FAULTED outcome.FAILURE reason created_at_ms));
      mret tt
  | _, _ => mret tt
  end.
Definition is_err {A} (e : AuthorityError) (r : result AuthorityError A) : bool :=
  match r with Ok _ => false | Err e' => bool_decide (e' = e) end.
Definition fault_on {A} (e : AuthorityError) (reason : string) (m : V A) : V A :=
  r ← vtry m;
  faulted ← vreads is_faulted;
  _ ← (if is_err e r && negb faulted then fault reason else mret tt);
  vlift r.
Definition fault_on_integrity {A} (m : V A) : V A :=
  fault_on Authority.StorageIntegrityFailed "persisted-state-integrity-failed" m.
Definition fault_on_audit_failure {A} (m : V A) : V A :=
  fault_on Authority.AuditCommitFailed "audit-commit-failed" m.

(** ** Events *)

Definition invalid_usage (reason : string) : AuthorityError := Authority.Domain (InvalidActionDefinition reason).
Definition audit_event_at (draft : AuditDraft) (created_at_ms : Z) : V AuditEvent :=
  event_id ← random_array 16;
  mret (mkAuditEvent event_id (d_request_id draft) (d_session_id draft) (d_action_id draft)
    (d_action_version draft) (d_credential_id draft) (d_credential_version draft) (d_authorization draft)
    (d_approval draft) (d_usage draft) (d_request_context draft) (d_event_type draft) (d_outcome draft)
    (d_reason_code draft) (d_upstream_status draft) (d_latency_ms draft) created_at_ms).
(** What the context of a request must agree with. *)
Definition context_binding (draft : AuditDraft) (context : RequestAuditContext) : result AuthorityError unit :=
  match context with
  | ProfileContext profile =>
      reject_if is_none (d_session_id draft) || is_none (d_action_id draft) || is_none (d_action_version draft)
                || is_some_and (d_authorization draft) (fun auth =>
                     negb (str_eqb (hexlower_encode (au_policy_digest auth)) (pa_policy_sha256 profile)))
        with invalid_usage "invalid profile audit context" ;;
      Ok tt
  | ConnectionContext connection =>
      reject_if is_none (d_request_id draft)
                || is_none_or (d_authorization draft) (fun auth =>
                     negb (str_eqb (au_resource_type auth) "connection")
                     || negb (str_eqb (au_resource_id auth) (ca_connection connection))
                     || negb (bool_decide (au_policy_rule_id auth = ca_rule_id connection)))
        with invalid_usage "invalid connection audit binding" ;;
      Ok tt
  | DerivedContext derived =>
      reject_if is_none (d_request_id draft)
                || is_none_or (d_authorization draft) (fun auth =>
                     negb (str_eqb (au_resource_type auth) "connection")
                     || negb (str_eqb (au_resource_id auth) (da_connection derived)))
        with invalid_usage "invalid derived audit binding" ;;
      Ok tt
  end.
Definition expired_derived (draft : AuditDraft) (created_at_ms : Z) : bool :=
  match d_request_context draft with
  | Some (DerivedContext context) =>
      str_eqb (d_event_type draft) "credential.derived_issued"
      && is_none_or (da_expires_at_ms context) (fun expiry => expiry <=? created_at_ms)
  | _ => false
  end.
(** [match m { Ok(v) => v, Err(e) => { self.fault(..); return Err(e) } }]. *)
Definition or_fault {A} (reason : string) (m : V A) : V A :=
  r ← vtry m;
  match r with
  | Ok a => mret a
  | Err e => _ ← fault reason; vfail e
  end.
Definition audit_event_or_fault (draft : AuditDraft) : V AuditEvent :=
  _ ← vreject (is_some (d_usage draft)) (invalid_usage "usage requires profile settlement");
  _ ← (match d_request_context draft with
       | None => mret tt
       | Some context =>
           _ ← domain (context_validate context);
           vlift (context_binding draft context)
       end);
  created_at_ms ← or_fault "audit-event-construction-failed" now_ms;
  _ ← vreject (expired_derived draft created_at_ms) (invalid_usage "invalid derived credential expiry");
  or_fault "audit-event-construction-failed" (audit_event_at draft created_at_ms).
Definition append_audit (draft : AuditDraft) : V unit :=
  event ← audit_event_or_fault draft;
  or_fault "audit-commit-failed" (append_audit_row event).
Definition append_audits (drafts : list AuditDraft) : V unit :=
  events ← vmap audit_event_or_fault drafts;
  or_fault "audit-commit-failed" (append_audit_rows events).
(** [unlock_audit]. *)
Definition unlock_audit (event_type outcome reason : string) : AuditDraft :=
  mkAuditDraft None None None None None None None None None None event_type outcome reason None None.

(** ** Usage (authority/usage.rs) *)

Definition out_of_range (v : Z) : bool := (v =? 0) || (i64_max <? v).
Definition draft_context (draft : AuditDraft) : result AuthorityError UsageContext :=
  session ← ok_or (invalid_usage "usage requires session") (d_session_id draft);
  action ← ok_or (invalid_usage "usage requires action") (d_action_id draft);
  action_version ← ok_or (invalid_usage "usage requires action version")
    (v ← d_action_version draft; if (0 <? v) && (v <=? i64_max) then Some v else None);
  credential ← ok_or (invalid_usage "usage requires credential") (d_credential_id draft);
  authorization ← ok_or (invalid_usage "usage requires authorization") (d_authorization draft);
  let context := mkUsageContext (d_request_context draft) session action action_version credential
                   (d_credential_version draft) authorization in
  reject_if (au_policy_version authorization =? 0) || (i64_max <? au_policy_version authorization)
            || is_none (au_policy_rule_id authorization)
            || is_empty_str (au_resource_type authorization)
            || is_empty_str (au_resource_id authorization)
            || is_some_and (uc_credential_version context) out_of_range
    with invalid_usage "invalid usage context" ;;
  Ok context.
Definition instance_mismatch (ctx : UsageContext) (usage : ProfileUsageStart) : bool :=
  is_some_and (uc_request_context ctx) (fun context =>
    match context with
    | ProfileContext profile => negb (str_eqb (pa_instance_slug profile) (ps_instance_slug usage))
    | ConnectionContext connection => negb (str_eqb (ca_connection connection) (ps_instance_slug usage))
    | DerivedContext _ => true
    end).
Definition start_invalid (usage : ProfileUsageStart) (started : AuditDraft) : bool :=
  existsb out_of_range [ps_max_requests_per_day usage; ps_max_output_tokens_per_day usage]
  || is_some_and (ps_generation_max_output usage) out_of_range
  || negb (str_eqb (d_event_type started) event_type.EXECUTION_STARTED)
  || negb (str_eqb (d_outcome started) outcome.SUCCESS)
  || is_some (d_usage started) || is_some (d_approval started)
  || is_empty_str (d_reason_code started)
  || is_some (d_upstream_status started) || is_some (d_latency_ms started).
Definition preceding_check (request_id : RequestId) (ctx : UsageContext) (draft : AuditDraft)
  : result AuthorityError unit :=
  let refuse := Err (invalid_usage "invalid preceding approval audit") in
  if negb (str_eqb (d_event_type draft) event_type.APPROVAL_ACCEPTED)
     || negb (str_eqb (d_outcome draft) outcome.SUCCESS)
     || negb (bool_decide (d_request_id draft = Some request_id))
  then refuse
  else
    context ← draft_context draft;
    if negb (bool_decide (context = ctx))
       || is_some (d_usage draft)
       || is_none_or (d_approval draft) (fun v => is_none (ev_approval_id v))
       || is_some (d_upstream_status draft) || is_some (d_latency_ms draft)
    then refuse
    else Ok tt.
Definition fresh_row (request_id : RequestId) (ctx : UsageContext) (usage : ProfileUsageStart) (now : Z)
    (context_json : string) : UsageRecord :=
  mkUsageRecord request_id (au_principal_id (uc_authorization ctx)) (ps_instance_slug usage) (day_of now) now
    context_json (ps_generation_max_output usage) None None None None.
Definition vault_key : V (list Z) := fun s =>
  (match v_state s with VUnlocked vrk => Ok vrk | _ => Err Authority.Locked end, s).
Definition begin_execution (usage : ProfileUsageStart) (preceding : list AuditDraft) (started : AuditDraft)
    (not_after : Instant) (wall_not_after_ms : option Z) : V UsageAdmission :=
  _ ← require_unlocked;
  _ ← ensure_current (Some not_after);
  now ← now_ms;
  _ ← vreject (is_some_and wall_not_after_ms (fun v => v <=? now)) Authority.AuthorityBusy;
  ctx ← vlift (draft_context started);
  _ ← vreject (instance_mismatch ctx usage) (invalid_usage "profile usage instance mismatch");
  request_id ← vlift (ok_or (invalid_usage "usage requires request") (d_request_id started));
  _ ← domain (usage_validate (mkUsageEvidence (ps_instance_slug usage) (day_of now) 0 NotApplicable));
  _ ← vreject (start_invalid usage started) (invalid_usage "invalid profile execution start");
  _ ← vlift (try_each (preceding_check request_id ctx) preceding);
  context_json ← vlift (ok_or (invalid_usage "invalid usage context") (context_to_string ctx));
  let row := fresh_row request_id ctx usage now context_json in
  events ← vmap audit_event_or_fault preceding;
  start ← audit_event_or_fault started;
  key ← vault_key;
  vault ← vreads v_vault_id;
  fault_on_audit_failure (fault_on_integrity
    (begin_profile_execution key vault row usage (events ++ [start]) not_after wall_not_after_ms)).
Definition terminal_invalid (request_id : RequestId) (measured : option Z) (terminal : AuditDraft) : bool :=
  let event := d_event_type terminal in
  let out := d_outcome terminal in
  negb (bool_decide (d_request_id terminal = Some request_id))
  || is_some (d_usage terminal) || is_some (d_approval terminal)
  || negb (is_terminal_type event)
  || negb ((str_eqb event event_type.EXECUTION_FINISHED && str_eqb out outcome.SUCCESS)
           || (str_eqb event event_type.EXECUTION_BLOCKED && str_eqb out outcome.DENIED)
           || (str_eqb event event_type.EXECUTION_INDETERMINATE && str_eqb out outcome.UNKNOWN))
  || is_empty_str (d_reason_code terminal)
  || is_some_and (d_latency_ms terminal) (fun v => v <? 0)
  || is_some_and measured (fun v => i64_max <? v).
Definition settle_execution (request_id : RequestId) (measured : option Z) (terminal : AuditDraft) : V unit :=
  _ ← require_unlocked;
  _ ← vlift (draft_context terminal);
  _ ← vreject (terminal_invalid request_id measured terminal) (invalid_usage "invalid profile execution terminal");
  event ← audit_event_or_fault terminal;
  key ← vault_key;
  vault ← vreads v_vault_id;
  fault_on_audit_failure (fault_on_integrity (settle_profile_execution key vault request_id measured event)).
Definition query_usage (principal : PrincipalId) (instance : string) (day : Z) : V UsageTotals :=
  key ← require_unlocked;
  _ ← domain (usage_validate (mkUsageEvidence instance day 0 NotApplicable));
  vault ← vreads v_vault_id;
  fault_on_integrity (profile_usage_totals key vault principal instance day).

End WithLibraries.
