(* ===== verification/Generation.v ===== *)
(** * Generation: the high-water mark outside the database

    [rekey-vault/src/generation_anchor.rs] and [store/generation.rs], with
    [check_generation] and [complete_generation] of authority.rs. The generation of
    the header goes up with every administrative change; a file beside the database,
    and an item of the platform's key store where there is one, keep the highest that
    was ever reserved. A reservation comes before the commit, and stays when the
    commit fails: a database older than its anchors is not served. *)

From S2P Require Import Prelude Errors Domain Codec Json SessionState Approval Signed AuditRecords VaultModel VaultTables.
From S2P Require Import VaultStore Usage VaultRows KeyWrap LifecycleSeals VaultContent VaultWorker.

(** What taking the file lock answers, and whether the file that is found is a regular
    one of ours with mode 0600. *)
Class AnchorHost := {
  lock_answers : nat -> result AuthorityError unit;
  file_is_ours : nat -> bool;
}.

Record AnchorObservation := mkAnchorObservation {
  ao_file : option Z;
  ao_protected : option Z;
  ao_protected_required : bool;
}.
#[export] Instance AnchorObservation_eq_dec : EqDecision AnchorObservation.
Proof. solve_decision. Defined.
#[export] Instance RollbackContext_eq_dec : EqDecision RollbackContext.
Proof. solve_decision. Defined.

Section WithLibraries.
Context {H : Host} {AH : AnchorHost} {CC : Codecs} {SG : Signatures} {SJ : Serde} {VW : ValueWriter} {RC : RecordCodec}.
Context {AE : Aead} {KD : Kdf} {LC : LeaseCodec}.

(** ** The file *)

Definition ANCHOR_MAGIC : list Z := bytes_of "RKGEN" ++ [0; 1; 0].
Definition anchor_bytes (vault : Uuid) (generation : Z) : list Z :=
  ANCHOR_MAGIC ++ id_as_bytes vault ++ be_bytes 8 generation.
Definition anchor_decode (vault : Uuid) (bytes : list Z) : result AuthorityError Z :=
  reject_if negb (bool_decide (length bytes = 32%nat)) || negb (bool_decide (take 8 bytes = ANCHOR_MAGIC))
            || negb (bool_decide (take 16 (drop 8 bytes) = id_as_bytes vault))
    with Authority.StorageIntegrityFailed ;;
  let generation := be_value (drop 24 bytes) in
  reject_if generation =? 0 with Authority.StorageIntegrityFailed ;;
  Ok generation.
(** A call of the file system, and the lock. *)
Definition fs_step : V unit := fun s =>
  (if fs_works (v_tick s) then Ok tt else Err Authority.StorageUnavailable, v_ticked s).
Definition anchor_lock : V unit := fun s => (lock_answers (v_tick s), v_ticked s).
Definition validate_file : V unit := fun s =>
  (if file_is_ours (v_tick s) then Ok tt else Err Authority.StorageIntegrityFailed, v_ticked s).
Definition read_file : V (option Z) :=
  _ ← fs_step;
  vault ← vreads (fun s => g_vault_id (v_guard s));
  file ← vreads (fun s => g_file (v_guard s));
  match file with
  | None => mret None
  | Some bytes =>
      _ ← validate_file;
      _ ← fs_step;
      generation ← vlift (anchor_decode vault bytes);
      mret (Some generation)
  end.
Definition write_anchor (generation : Z) (s : Vault) : Vault :=
  set_v_guard (set_g_file (Some (anchor_bytes (g_vault_id (v_guard s)) generation)) (v_guard s)) s.
(** A temporary file is written and synced; it takes the name by [hard_link] where
    none exists and by [rename] otherwise; then the directory is synced. *)
Definition install_file (generation : Z) (missing : bool) : V unit :=
  _ ← random_array 16;
  _ ← fs_step;
  _ ← fs_step;
  _ ← (if missing then
         _ ← fs_step;
         file ← vreads (fun s => g_file (v_guard s));
         _ ← vreject (is_some file) Authority.StorageIntegrityFailed;
         _ ← vmodify (write_anchor generation);
         fs_step
       else
         _ ← fs_step;
         vmodify (write_anchor generation));
  fs_step.

(** ** The protected item *)

Definition protected_read : V (option Z) :=
  protected ← vreads (fun s => g_protected (v_guard s));
  match protected with
  | None => mret None
  | Some value =>
      _ ← fs_step;
      _ ← vreject (is_some_and value (fun v => v =? 0)) Authority.StorageIntegrityFailed;
      mret value
  end.
Definition set_protected (v : Z) (s : Vault) : Vault := set_v_guard (set_g_protected (Some (Some v)) (v_guard s)) s.
(** [SecItemAdd] where nothing was seen, else [SecItemUpdate] of the value seen. *)
Definition protected_advance (expected : option Z) (next : Z) : V unit :=
  protected ← vreads (fun s => g_protected (v_guard s));
  match protected with
  | None => mret tt
  | Some value =>
      _ ← fs_step;
      _ ← vreject (negb (bool_decide (value = expected))) Authority.StorageIntegrityFailed;
      _ ← vmodify (set_protected next);
      fs_step
  end.

(** ** Observing and reserving *)

Definition observe : V AnchorObservation :=
  file ← read_file;
  protected ← protected_read;
  required ← vreads (fun s => is_some (g_protected (v_guard s)));
  mret (mkAnchorObservation file protected required).
(** [observed.file.into_iter().chain(observed.protected)]. *)
Definition seen (o : AnchorObservation) : list Z := option_list (ao_file o) ++ option_list (ao_protected o).
Definition anchor_advance (observed : AnchorObservation) (next : Z) : V unit :=
  _ ← protected_advance (ao_protected observed) next;
  install_file next (is_none (ao_file observed)).
(** The result of a reservation, and whether anything may have been reserved. *)
Definition reserving (checks body : V unit) : V (result AuthorityError unit * bool) :=
  checked ← vtry checks;
  match checked with
  | Err e => mret (Err e, false)
  | Ok _ => r ← vtry body; mret (r, true)
  end.
Definition create_new (generation : Z) : V (result AuthorityError unit * bool) :=
  checked ← vtry (_ ← vreject (generation =? 0) Authority.StorageIntegrityFailed;
                  _ ← anchor_lock;
                  observed ← observe;
                  _ ← vreject (is_some (ao_file observed) || is_some (ao_protected observed)) Authority.StorageIntegrityFailed;
                  mret observed);
  match checked with
  | Err e => mret (Err e, false)
  | Ok observed => r ← vtry (anchor_advance observed generation); mret (r, true)
  end.
Definition reserve (expected : AnchorObservation) (next : Z) : V (result AuthorityError unit * bool) :=
  reserving
    (_ ← anchor_lock;
     observed ← observe;
     vreject (negb (bool_decide (observed = expected)) || (next =? 0) || existsb (fun s => next <=? s) (seen observed))
       Authority.StorageIntegrityFailed)
    (anchor_advance expected next).

(** ** An attempt to commit (store/generation.rs) *)

Definition max_of (l : list Z) : option Z :=
  match l with [] => None | x :: rest => Some (fold_left Z.max rest x) end.
Definition rollback_context (h : VaultHeaderRecord) (o : AnchorObservation) : RollbackContext :=
  mkRollbackContext (hd_vault_id h) (hd_generation h) (max_of (seen o))
    (is_none (ao_file o) || (ao_protected_required o && is_none (ao_protected o))).
Definition is_current (h : VaultHeaderRecord) (o : AnchorObservation) : bool :=
  bool_decide (ao_file o = Some (hd_generation h))
  && (negb (ao_protected_required o) || bool_decide (ao_protected o = Some (hd_generation h))).

Record GenerationAttempt := mkGenerationAttempt {
  at_observed : AnchorObservation;
  at_vault_id : Uuid;
  at_format_version : Z;
  at_prior_generation : Z;
  at_prior_mac : list Z;
  at_prior_pki_digest : Digest;
  at_pki_digest : Digest;
  at_generation : Z;
  at_mac : list Z;
  at_not_after : option Instant;
  at_wall_not_after_ms : option Z;
}.
(** [GenerationAttempt::new]. *)
Definition attempt_new (h : VaultHeaderRecord) (observed : AnchorObservation) (next_key : list Z) (generation : Z)
    (not_after : option Instant) (wall : option Z) : result AuthorityError GenerationAttempt :=
  reject_if (generation <=? hd_generation h) || existsb (fun g => generation <=? g) (seen observed)
    with Authority.StorageIntegrityFailed ;;
  mac ← generation_seal next_key (hd_vault_id h) (hd_format_version h) generation (hd_pki_digest h);
  Ok (mkGenerationAttempt observed (hd_vault_id h) (hd_format_version h) (hd_generation h) (hd_generation_mac h)
        (hd_pki_digest h) (hd_pki_digest h) generation mac not_after wall).
Definition bind_pki_digest (key : list Z) (digest : Digest) (a : GenerationAttempt) : result AuthorityError GenerationAttempt :=
  mac ← generation_seal key (at_vault_id a) (at_format_version a) (at_generation a) digest;
  Ok (mkGenerationAttempt (at_observed a) (at_vault_id a) (at_format_version a) (at_prior_generation a) (at_prior_mac a)
        (at_prior_pki_digest a) digest (at_generation a) mac (at_not_after a) (at_wall_not_after_ms a)).
Definition check_deadline (a : GenerationAttempt) : V unit :=
  _ ← ensure_current (at_not_after a);
  match at_wall_not_after_ms a with
  | None => mret tt
  | Some wall => now ← now_ms; vreject (wall <=? now) Authority.PolicyVersionConflict
  end.
(** The row that the UPDATE matches, and what it makes of it. *)
Definition header_matches (a : GenerationAttempt) (generation : Z) (mac : list Z) (digest : Digest) (r : RawHeader) : bool :=
  bool_decide (rh_vault_id r = id_as_bytes (at_vault_id a)) && (rh_format_version r =? at_format_version a)
  && bool_decide (rh_generation r = be_bytes 8 generation) && bool_decide (rh_generation_mac r = mac)
  && bool_decide (rh_pki_digest r = digest).
Definition advanced_header (a : GenerationAttempt) (r : RawHeader) : RawHeader :=
  mkRawHeader (rh_format_version r) (rh_vault_id r) (be_bytes 8 (at_generation a)) (at_mac a) (at_pki_digest a)
    (rh_crypto_suite r) (rh_created_at_ms r) (rh_schema_digest r) (rh_integrity_nonce r) (rh_integrity_ciphertext r).
Definition advance_header (a : GenerationAttempt) (t : Tables) : option (Tables * Z) :=
  match vault_header t with
  | Some r =>
      if header_matches a (at_prior_generation a) (at_prior_mac a) (at_prior_pki_digest a) r
      then Some (set_header (Some (advanced_header a r)) t, 1) else Some (t, 0)
  | None => Some (t, 0)
  end.
Definition header_is_advanced (a : GenerationAttempt) (t : Tables) : result AuthorityError bool :=
  Ok (is_some_and (vault_header t) (header_matches a (at_generation a) (at_mac a) (at_pki_digest a))).
(** [commit_generation] up to the reservation. *)
Definition prepare_generation (a : GenerationAttempt) : V unit :=
  changed ← write_tables (advance_header a);
  _ ← one changed;
  matches ← query_tx Authority.StorageUnavailable (header_is_advanced a);
  _ ← vreject (negb matches) Authority.StorageIntegrityFailed;
  _ ← verified_set true (at_pki_digest a);
  check_deadline a.
(** [work] in a transaction that is open, then [commit_generation]: the attempt as it
    was committed, or the error, and the flag [may_have_reserved]. *)
Definition commit_with (work : V GenerationAttempt) : V (result AuthorityError GenerationAttempt * bool) :=
  prepared ← vtry (a ← work; _ ← prepare_generation a; mret a);
  match prepared with
  | Err e => mret (Err e, false)
  | Ok a =>
      reserved ← reserve (at_observed a) (at_generation a);
      match reserved.1 with
      | Err e => mret (Err e, reserved.2)
      | Ok _ =>
          r ← vtry (_ ← check_deadline a; _ ← commit_audited; mret a);
          mret (r, reserved.2)
      end
  end.
(** [confirm_generation]. *)
Definition confirm_generation (audit : AuditEvent) (a : GenerationAttempt) : V (result AuthorityError GenerationAttempt * bool) :=
  commit_with (_ ← begin_tx Authority.StorageUnavailable; _ ← audit_insert audit; mret a).

(** ** The worker *)

Definition suspect_rollback (header : VaultHeaderRecord) (observed : AnchorObservation) : V unit :=
  _ ← vmodify (set_v_state (VRollbackSuspected (rollback_context header observed)));
  _ ← or_fault "desktop-revocation-failed" forget_desktop;
  vfail Authority.RollbackSuspected.
Definition is_suspected (s : Vault) : bool := match v_state s with VRollbackSuspected _ => true | _ => false end.
Definition check_generation (header : VaultHeaderRecord) : V AnchorObservation :=
  observed ← or_fault "generation-anchor-unavailable" (observe);
  suspected ← vreads is_suspected;
  if negb (is_current header observed) || suspected then
    _ ← suspect_rollback header observed; mret observed
  else mret observed.
Definition mutation_observation : V AnchorObservation :=
  header ← vreads v_header; check_generation header.
Definition advance_worker (a : GenerationAttempt) (s : Vault) : Vault :=
  let h := v_header s in
  set_v_header (mkVaultHeaderRecord (hd_vault_id h) (hd_format_version h) (at_generation a) (at_mac a) (at_pki_digest a)
    (hd_crypto_suite h) (hd_created_at_ms h) (hd_schema_digest h) (hd_integrity_nonce h) (hd_integrity_ciphertext h)) s.
(** [complete_generation], with the attempt as [finish] leaves it. *)
Definition complete_generation (outcome : result AuthorityError GenerationAttempt * bool) : V GenerationAttempt :=
  faulted ← vreads is_faulted;
  _ ← match outcome.1 with
      | Ok a => vmodify (advance_worker a)
      | Err _ => if outcome.2 && negb faulted then fault "generation-reserved-commit-failed" else mret tt
      end;
  fault_on_integrity (vlift outcome.1).

End WithLibraries.
