(* ===== verification/AuditLog.v ===== *)
(** * AuditLog: paging through the audit, and pruning it

    [rekey-vault/src/store/audit_query.rs] and [audit_prune.rs]. A page is a scan
    downwards from a cursor within a snapshot; pruning deletes whole finished
    executions and leaves a marker, which expires the snapshots before it. *)

From S2P Require Import Prelude Errors Domain Codec SessionState Approval Json Frame AuditRecords VaultModel VaultStore Usage VaultWorker.

Section WithLibraries.
Context {H : Host} {CC : Codecs} {SJ : Serde} {VW : ValueWriter} {RC : RecordCodec}.

(** ** Pages *)

Definition max_sequence (rows : list RawAuditRow) : option Z :=
  fold_left (fun acc r => Some (match acc with None => raw_sequence r | Some m => Z.max m (raw_sequence r) end)) rows None.
Definition is_prune_marker (r : RawAuditRow) : bool := str_eqb (raw_event_type r) event_type.AUDIT_PRUNED.
(** [WHERE sequence <= ?1 ORDER BY sequence DESC LIMIT ?2]. *)
Definition scan_rows (from : Z) (d : Database) : list RawAuditRow :=
  take (Z.to_nat (AUDIT_SCAN_MAX_ROWS + 1)) (rev (retain (fun r => raw_sequence r <=? from) (audit_events d))).
Definition as_integrity {A} (o : option A) : result AuthorityError A := ok_or Authority.StorageIntegrityFailed o.
(** The loop over the scanned rows: [count] is how many of them [take(scan_count)]
    still gives, [more] whether rows remain behind the current one. *)
Fixpoint page_loop (q : AuditQuery) (count : nat) (raws : list RawAuditRow) (events : list AuditRecord) (page_bytes : Z)
  : result AuthorityError (list AuditRecord * option Z) :=
  match count, raws with
  | S count, raw :: rest =>
      event ← record_from_raw raw;
      let more := negb (bool_decide (rest = [])) in
      let scan_end (events : list AuditRecord) page_bytes :=
        match count with
        | O => Ok (events, if more then Some (sequence event) else None)
        | _ => page_loop q count rest events page_bytes
        end in
      if query_matches q event then
        record ← as_integrity (record_to_vec event);
        let next_bytes := page_bytes + llen record + (if bool_decide (events = []) then 0 else 1) in
        if RESPONSE_BODY_MAX_BYTES <? next_bytes then
          if bool_decide (events = []) then Err (Authority.Domain ResponseTooLarge)
          else Ok (events, Some (sequence event + 1))
        else
          let events := events ++ [event] in
          if llen events =? q_limit q then Ok (events, if more then Some (sequence event) else None)
          else scan_end events next_bytes
      else scan_end events page_bytes
  | _, _ => Ok (events, None)
  end.
Definition page_of (q : AuditQuery) (snapshot : Z) (d : Database) : result AuthorityError AuditPage :=
  let from := match q_before_sequence q with Some before => before - 1 | None => snapshot end in
  let raw := scan_rows (u64_as_i64 from) d in
  empty ← as_integrity (page_to_vec (mkAuditPage AUDIT_SCHEMA_V2 snapshot [] (Some u64_max)));
  found ← page_loop q (Z.to_nat AUDIT_SCAN_MAX_ROWS) raw [] (llen empty);
  let page := mkAuditPage AUDIT_SCHEMA_V2 snapshot found.1 found.2 in
  _ ← integrity (page_validate_for page q);
  Ok page.
Definition audit_query (q : AuditQuery) : V AuditPage :=
  _ ← domain (query_validate q);
  marker ← select_db (fun d => max_sequence (retain is_prune_marker (audit_events d)));
  latest_prune ← vlift (transpose positive_u64 marker);
  _ ← vreject (exceeds latest_prune (q_snapshot_max_sequence q)) Authority.AuditSnapshotExpired;
  snapshot ← (match q_snapshot_max_sequence q with
    | Some value => mret value
    | None =>
        value ← select_db (fun d => max_sequence (audit_events d));
        vlift (value ← as_integrity value; positive_u64 value)
    end);
  page ← select_db (page_of q snapshot);
  vlift page.

(** ** Pruning *)

Record ExecutionGroup := mkExecutionGroup {
  g_sequences : list Z;
  g_start : option Z;
  g_terminal : option Z;
  g_retained : bool;
}.
Definition empty_group : ExecutionGroup := mkExecutionGroup [] None None false.
Definition may_prune_type (event_type : string) : bool :=
  str_eqb event_type event_type.GITHUB_CONNECTOR_AUTHORIZED || str_eqb event_type event_type.GITHUB_TOKEN_REVOKED
  || str_eqb event_type event_type.VAULT_LEASE_ISSUED || str_eqb event_type event_type.VAULT_LEASE_REVOKED.
Definition group_event (before_ms : Z) (event : AuditRecord) (g : ExecutionGroup) : ExecutionGroup :=
  let retained := g_retained g || (before_ms <=? r_created_at_ms event) || is_some (r_approval_request_id event)
                  || is_some (r_approval_id event) || is_some (r_approver_id event) in
  let sequences := g_sequences g ++ [sequence event] in
  if str_eqb (r_event_type event) event_type.EXECUTION_STARTED
  then mkExecutionGroup sequences (Some (sequence event)) (g_terminal g) (retained || is_some (g_start g))
  else if is_terminal_type (r_event_type event)
  then mkExecutionGroup sequences (g_start g) (Some (sequence event)) (retained || is_some (g_terminal g))
  else mkExecutionGroup sequences (g_start g) (g_terminal g) (retained || negb (may_prune_type (r_event_type event))).
(** [entry(id).or_default()] of a map in key order. *)
Fixpoint update_group (id : RequestId) (f : ExecutionGroup -> ExecutionGroup) (groups : list (RequestId * ExecutionGroup))
  : list (RequestId * ExecutionGroup) :=
  match groups with
  | [] => [(id, f empty_group)]
  | (k, g) :: rest =>
      if id =? k then (k, f g) :: rest
      else if id <? k then (id, f empty_group) :: groups
      else (k, g) :: update_group id f rest
  end.
Definition group_record (before_ms : Z) (groups : list (RequestId * ExecutionGroup)) (event : AuditRecord)
  : list (RequestId * ExecutionGroup) :=
  match r_request_id event with
  | None => groups
  | Some id => update_group id (group_event before_ms event) groups
  end.
Fixpoint group_rows (before_ms : Z) (not_after : option Instant) (rows : list RawAuditRow)
    (groups : list (RequestId * ExecutionGroup)) : V (list (RequestId * ExecutionGroup)) :=
  match rows with
  | [] => mret groups
  | raw :: rest =>
      _ ← ensure_current not_after;
      event ← vlift (record_from_raw raw);
      group_rows before_ms not_after rest (group_record before_ms groups event)
  end.
Definition prunable (g : ExecutionGroup) : bool :=
  negb (g_retained g)
  && match g_start g, g_terminal g with Some start, Some terminal => start <? terminal | _, _ => false end.
Definition delete_sequence (seq : Z) : V unit :=
  removed ← exec_count Authority.StorageUnavailable (fun d =>
    Some (set_audit_events (retain (fun r => negb (raw_sequence r =? u64_as_i64 seq)) (audit_events d)) (audit_sequence d) d,
          llen (retain (fun r => raw_sequence r =? u64_as_i64 seq) (audit_events d))));
  one removed.
Definition delete_group (not_after : option Instant) (g : ExecutionGroup) : V unit :=
  veach (fun seq => _ ← ensure_current not_after; delete_sequence seq) (g_sequences g).
Definition audit_prune (request : AuditPruneRequest) (marker : AuditEvent) (not_after : option Instant) : V AuditPruneReceipt :=
  _ ← begin_tx Authority.StorageUnavailable;
  rows ← select audit_events;
  groups ← group_rows (pr_before_ms request) not_after rows [];
  let doomed := retain prunable (map snd groups) in
  _ ← veach (delete_group not_after) doomed;
  let rows := llen (concat (map g_sequences doomed)) in
  if 0 <? rows then
    _ ← audit_insert marker;
    rowid ← vreads (fun s => audit_sequence (v_tx s));
    _ ← vreject (rowid <=? 0) Authority.StorageIntegrityFailed;
    _ ← ensure_current not_after;
    _ ← commit_audited;
    mret (mkAuditPruneReceipt (pr_before_ms request) rows (llen doomed) (Some rowid))
  else
    _ ← ensure_current not_after;
    mret (mkAuditPruneReceipt (pr_before_ms request) rows (llen doomed) None).

End WithLibraries.

(** * The audit commands of the worker

    [rekey-vault/src/authority/audit.rs] after the proof is verified, and the query of
    dispatch.rs: recording a local approval decision, pruning, and answering pages,
    where a page that does not validate closes the vault. *)

Section WithLibraries.
Context {H : Host} {CC : Codecs} {SJ : Serde} {VW : ValueWriter} {RC : RecordCodec}.

(** ** Local decisions *)

Definition proof_reason (kind : ProofKind) : result AuthorityError string :=
  match kind with
  | Presence => Ok "local-presence"
  | Password => Ok "local-password"
  | Recovery => Err Authority.InvalidUnlockCredential
  end.
Definition valid_decision (draft : AuditDraft) : bool :=
  match d_approval draft with
  | Some evidence =>
      if str_eqb (d_event_type draft) event_type.APPROVAL_APPROVED
      then is_some (ev_approval_id evidence) && is_none (ev_approver_id evidence)
      else str_eqb (d_event_type draft) event_type.APPROVAL_REJECTED
           && is_none (ev_approval_id evidence) && is_none (ev_approver_id evidence)
  | None => false
  end.
Definition decision_invalid (reason : string) (draft : AuditDraft) : bool :=
  negb (valid_decision draft)
  || negb (str_eqb (d_outcome draft) outcome.SUCCESS)
  || negb (str_eqb (d_reason_code draft) reason)
  || is_none (d_session_id draft) || is_none (d_action_id draft)
  || is_none_or (d_action_version draft) (fun version => version =? 0)
  || is_none_or (d_authorization draft) (fun evidence =>
       (au_policy_version evidence =? 0) || is_none (au_policy_rule_id evidence))
  || is_some (d_credential_id draft) || is_some (d_credential_version draft)
  || is_some (d_upstream_status draft) || is_some (d_latency_ms draft) || is_some (d_usage draft).
(** [authorize_local_approval], once the proof of this kind is verified. *)
Definition authorize_verified_approval (kind : ProofKind) (draft : AuditDraft) (not_after : Instant)
    (wall_not_after_ms : Z) : V unit :=
  reason ← vlift (proof_reason kind);
  _ ← vreject (decision_invalid reason draft) (invalid_usage "invalid local approval audit");
  _ ← ensure_current (Some not_after);
  now ← now_ms;
  _ ← vreject (wall_not_after_ms <=? now) Authority.AuthorityBusy;
  event ← audit_event_or_fault draft;
  fault_on_audit_failure (append_local_approval_audit event not_after wall_not_after_ms).

(** ** Pruning and queries *)

(** [audit_prune], once the proof is verified. *)
Definition prune_verified (request : AuditPruneRequest) (not_after : option Instant) : V AuditPruneReceipt :=
  now ← now_ms;
  _ ← domain (prune_validate_at request now);
  _ ← ensure_current not_after;
  marker ← audit_event_or_fault (unlock_audit event_type.AUDIT_PRUNED outcome.SUCCESS "explicit-execution-prune");
  fault_on_audit_failure (fault_on_integrity (audit_prune request marker not_after)).
(** The answer to [AuthorityCommand::AuditQuery]. *)
Definition answer_query (q : AuditQuery) : V AuditPage :=
  faulted ← vreads is_faulted;
  if faulted : bool then vfail Authority.Faulted
  else fault_on_integrity (audit_query q).

End WithLibraries.
