(* ===== verification/VaultUnlock.v ===== *)
(** * VaultUnlock: proofs of authority, opening and closing the vault

    [rekey-vault/src/authority.rs], lines 299-602, with [authenticate_restore] of
    bootstrap.rs and the presence grant of authority/desktop.rs. A proof unwraps the
    root; before the vault opens, every table that the root authenticates is verified
    and the generation is compared with its anchors. Failed proofs are audited, and
    after three of them a delay doubles up to half a minute. *)

From S2P Require Import Prelude Strings Bytes Errors Domain Codec Json Decimal Action FixedAction SessionState Approval Signed AuditRecords.
From S2P Require Import VaultModel VaultTables VaultStore Usage VaultRows KeyWrap LifecycleSeals VaultContent VaultWorker Generation.

(** [AuthorityConfig::unlock_backoff_base]. *)
Class UnlockConfig := { unlock_backoff_base : Z }.

Section WithLibraries.
Context {H : Host} {AH : AnchorHost} {CC : Codecs} {SG : Signatures} {SJ : Serde} {VW : ValueWriter} {RC : RecordCodec}.
Context {AE : Aead} {KD : Kdf} {LC : LeaseCodec} {JS : JsonSchema} {AC : ActionCodec} {UC : UnlockConfig}.

Definition FREE_UNLOCK_FAILURES : Z := 3.
Definition UNLOCK_BACKOFF_CAP : Z := from_millis 30000.

(** ** The back-off *)

Definition failed_unlocks (s : Vault) : Z := g_failed_unlocks (v_guard s).
Definition next_unlock_at (s : Vault) : Instant := g_next_unlock_at (v_guard s).
Definition set_failed (n : Z) (s : Vault) : Vault := set_v_guard (set_g_failed n (v_guard s)) s.
Definition set_next (t : Instant) (s : Vault) : Vault := set_v_guard (set_g_next t (v_guard s)) s.
Definition rate_limit : V unit :=
  now ← instant_now;
  next ← vreads next_unlock_at;
  vreject (now <? next) Authority.UnlockRateLimited.
Definition clear_failures : V unit :=
  _ ← vmodify (set_failed 0);
  now ← instant_now;
  vmodify (set_next now).
Definition backoff_delay (failed : Z) : Z :=
  Z.min (unlock_backoff_base * 2 ^ Z.min (failed - FREE_UNLOCK_FAILURES) 16) UNLOCK_BACKOFF_CAP.
Definition advance_unlock_backoff : V unit :=
  _ ← vmodify (fun s => set_failed (Z.min (failed_unlocks s + 1) u32_max) s);
  failed ← vreads failed_unlocks;
  if FREE_UNLOCK_FAILURES <=? failed then
    now ← instant_now;
    vmodify (set_next (now + backoff_delay failed))
  else mret tt.
Definition record_unlock_failure : V unit :=
  _ ← advance_unlock_backoff;
  append_audit (unlock_audit event_type.VAULT_UNLOCK_FAILED outcome.DENIED "invalid-credential").

(** ** Proofs *)

Definition is_presence_byte (b : Z) : bool := is_digit_b b || ((97 <=? b) && (b <=? 102)).
Definition decode_presence_key (input : list Z) : result AuthorityError (list Z) :=
  reject_if negb (llen input =? 64) || negb (forallb is_presence_byte input) with Authority.InvalidUnlockCredential ;;
  ok_or Authority.InvalidUnlockCredential (hexlower_decode (text_of input)).
(** [PresenceGrant::verify_at]. *)
Definition verify_at (g : PresenceGrant) (key : list Z) (wall : Z) (mono : Instant) : result AuthorityError unit :=
  reject_if (wall <? pg_issued_at_ms g) || (pg_expires_at_ms g <=? wall) || (pg_monotonic_deadline g <=? mono)
            || negb (bool_decide (sha256 key = pg_key_hash g))
    with Authority.InvalidUnlockCredential ;;
  Ok tt.
Definition verify_presence (proof : list Z) : V unit :=
  _ ← require_unlocked;
  key ← vlift (decode_presence_key proof);
  presence ← vreads v_presence;
  match presence with
  | Some (PresenceActive grant) =>
      if pg_step_up grant then
        wall ← now_ms;
        mono ← instant_now;
        vlift (verify_at grant key wall mono)
      else vfail Authority.InvalidUnlockCredential
  | _ => vfail Authority.InvalidUnlockCredential
  end.
(** The root that a secret unwraps, with the errors of each stage. *)
Definition unwrap_with (kind : WrapperKind) (secret : list Z) : V (list Z) :=
  wrapper ← active_wrapper kind;
  kek ← vlift (map_err (fun _ => Authority.InvalidUnlockCredential) (kek_for_wrapper wrapper secret));
  vault ← vreads v_vault_id;
  vlift (unwrap_vrk vault wrapper kek).
Definition invalid_proof {A} (m : V A) : V A := vmap_err (fun _ => Authority.InvalidUnlockCredential) m.
Definition verify_secret (kind : WrapperKind) (secret : list Z) : V unit :=
  current ← require_unlocked;
  candidate ← invalid_proof (unwrap_with kind secret);
  vreject (negb (bool_decide (candidate = current))) Authority.InvalidUnlockCredential.
Definition verify_proof_inner (proof : UnlockProof) : V unit :=
  match proof with
  | PasswordProof secret => verify_secret WrapperPassword secret
  | RecoveryProof secret => verify_secret WrapperRecovery secret
  | PresenceProof secret => verify_presence secret
  end.
Definition is_presence (proof : UnlockProof) : bool := match proof with PresenceProof _ => true | _ => false end.
Definition verify_proof (proof : UnlockProof) : V unit :=
  _ ← require_unlocked;
  _ ← rate_limit;
  attempt ← vtry (verify_proof_inner proof);
  _ ← match attempt with
      | Ok _ => if is_presence proof then mret tt else clear_failures
      | Err e => if bool_decide (e = Authority.InvalidUnlockCredential) then record_unlock_failure else mret tt
      end;
  vlift attempt.
Definition wrapper_and_secret (proof : UnlockProof) : result AuthorityError (WrapperKind * list Z) :=
  match proof with
  | PasswordProof secret => Ok (WrapperPassword, secret)
  | RecoveryProof secret => Ok (WrapperRecovery, secret)
  | PresenceProof _ => Err Authority.InvalidUnlockCredential
  end.
Definition verify_shutdown_proof (proof : UnlockProof) : V unit :=
  state ← vreads v_state;
  match state with
  | VFaulted => vfail Authority.Faulted
  | VUnlocked _ => verify_proof proof
  | VLocked | VRollbackSuspected _ =>
      _ ← rate_limit;
      chosen ← vlift (wrapper_and_secret proof);
      wrapper ← active_wrapper chosen.1;
      vault ← vreads v_vault_id;
      let attempt := kek ← map_err (fun _ => Authority.InvalidUnlockCredential) (kek_for_wrapper wrapper chosen.2);
                     unwrap_vrk vault wrapper kek in
      match attempt with
      | Ok _ => clear_failures
      | Err e => _ ← record_unlock_failure; vfail e
      end
  end.

(** ** Opening *)

Definition is_locked (s : Vault) : bool := match v_state s with VLocked => true | _ => false end.
Definition suspend (s : Vault) : Vault := set_v_presence (DeadlineOnly ∘ into_grant <$> v_presence s) s.
Definition authenticated_header (vrk : list Z) : V VaultHeaderRecord :=
  header ← load_header;
  _ ← vlift (prove_integrity header vrk);
  mret header.
(** What [unlock] verifies with the candidate root. *)
Definition verify_content (vrk : list Z) (header : VaultHeaderRecord) : V unit :=
  _ ← or_fault "persisted-policy-integrity-failed" (verified_policy_material vrk (hd_vault_id header));
  _ ← or_fault "audit-retention-integrity-failed" (verified_audit_retention vrk (hd_vault_id header));
  _ ← or_fault "lease-journal-integrity-failed" (verify_journal vrk (hd_vault_id header));
  _ ← fault_on_integrity (verified_certificates header);
  mret tt.
Definition verify_ledger (recover : bool) (vrk : list Z) (vault : Uuid) : V unit :=
  if recover then recover_profile_usage vrk vault
  else _ ← verified_usage vrk vault; mret tt.
Definition publish_unlocked (vrk : list Z) (header : VaultHeaderRecord) : V unit :=
  _ ← vmodify (set_v_header header);
  _ ← vmodify suspend;
  _ ← clear_failures;
  vmodify (set_v_state (VUnlocked vrk)).
Definition unlock (proof : UnlockProof) : V unit :=
  recover_usage ← vreads is_locked;
  faulted ← vreads is_faulted;
  _ ← vreject faulted Authority.Faulted;
  _ ← rate_limit;
  chosen ← vlift (wrapper_and_secret proof);
  attempt ← vtry (unwrap_with chosen.1 chosen.2);
  match attempt with
  | Ok vrk =>
      header ← or_fault "vault-header-integrity-failed" (authenticated_header vrk);
      _ ← verify_content vrk header;
      _ ← check_generation header;
      _ ← or_fault "profile-usage-recovery-failed" (verify_ledger recover_usage vrk (hd_vault_id header));
      _ ← append_audit (unlock_audit event_type.VAULT_UNLOCKED outcome.SUCCESS "unlock");
      publish_unlocked vrk header
  | Err _ =>
      _ ← vtry record_unlock_failure;
      vfail Authority.InvalidUnlockCredential
  end.

(** ** Closing *)

Definition set_locked (reason : string) (preserve_desktop : bool) : V unit :=
  state ← vreads v_state;
  match state with
  | VFaulted => vfail Authority.Faulted
  | VRollbackSuspected _ => mret tt
  | _ =>
      _ ← vmodify suspend;
      _ ← (if preserve_desktop then mret tt else or_fault "desktop-revocation-failed" forget_desktop);
      _ ← vmodify (set_v_state VLocked);
      append_audit (unlock_audit event_type.VAULT_LOCKED outcome.SUCCESS reason)
  end.
Definition lock (reason : string) : V unit := set_locked reason false.

(** ** An operator at the machine accepts an older database *)

Definition list_credentials : V (list CredentialRecord) :=
  query_db Authority.StorageUnavailable (fun t =>
    integrity (collect credential_of_raw (sort_by (by_key rc_created_at_ms) (credentials t)))).
Definition version_before (a b : RawVersion) : bool :=
  (rv_created_at_ms a <? rv_created_at_ms b)
  || ((rv_created_at_ms a =? rv_created_at_ms b) && (rv_version a <=? rv_version b)).
(** The LEFT JOIN with [credentials]; a missing kind is a failed query. *)
Definition versioned_row (t : Tables) (r : RawVersion) : result AuthorityError (string * RawVersion) :=
  c ← ok_or Authority.StorageUnavailable
    (find_first (fun c => bool_decide (rc_credential_id c = rv_credential_id r)) (credentials t));
  _ ← query_u16 (rv_aad_version r);
  Ok (rc_kind c, r).
Definition versioned (row : string * RawVersion) : result AuthorityError (CredentialKind * CredentialVersionRecord) :=
  version ← version_of_raw row.2;
  kind ← integrity (kind_parse row.1);
  Ok (kind, version).
Definition list_all_versions : V (list (CredentialKind * CredentialVersionRecord)) :=
  query_db Authority.StorageUnavailable (fun t =>
    rows ← collect (versioned_row t) (sort_by version_before (credential_versions t));
    collect versioned rows).
Definition prove_all_credential_states (vault : Uuid) (vrk : list Z) : V unit :=
  _ ← validate_credential_version_invariants;
  records ← list_credentials;
  veach (fun record => vlift (verify_credential vrk vault record)) records.
Definition prove_all_payloads (vault : Uuid) (vrk : list Z) : V unit :=
  versions ← list_all_versions;
  veach (fun kv => _ ← vlift (open_version Authority.CryptoFailure vrk vault kv.1 kv.2); mret tt) versions.
(** [snapshot_cut]: the last audit row and the active policy, with its digest in hex. *)
Definition policy_cut (row : Z * list Z) : result AuthorityError (Z * string) :=
  version ← positive_u64 row.1;
  digest ← blob 32 row.2;
  Ok (version, hexlower_encode digest).
Definition snapshot_cut : V (Z * option (Z * string)) :=
  sequence ← select_db (fun d => raw_sequence <$> last (audit_events d));
  sequence ← vlift (transpose positive_u64 sequence);
  bundle ← select_db (fun d => policy_bundle (vault_tables d));
  policy ← vlift (transpose policy_cut ((fun r => (rpb_version r, rpb_bundle_digest r)) <$> bundle));
  mret (default 0 sequence, policy).
Definition authenticate_restore (header : VaultHeaderRecord) (proof : RestoreProof) : V (list Z) :=
  let '(kind, secret) := match proof with
    | RestorePassword secret => (WrapperPassword, secret)
    | RestoreRecoveryKey secret => (WrapperRecovery, secret)
    end in
  wrapper ← active_wrapper kind;
  kek ← vlift (kek_for_wrapper wrapper secret);
  vrk ← vlift (unwrap_vrk (hd_vault_id header) wrapper kek);
  _ ← vlift (prove_integrity header vrk);
  _ ← verified_certificates header;
  _ ← prove_all_credential_states (hd_vault_id header) vrk;
  _ ← prove_all_payloads (hd_vault_id header) vrk;
  actions ← all_actions false;
  _ ← veach (fun record => _ ← vlift (verified_record_to_action record vrk (hd_vault_id header)); mret tt) actions;
  _ ← verified_policy_material vrk (hd_vault_id header);
  _ ← verified_audit_retention vrk (hd_vault_id header);
  _ ← verify_journal vrk (hd_vault_id header);
  _ ← verified_usage vrk (hd_vault_id header);
  _ ← snapshot_cut;
  mret vrk.
Definition accepted (header : VaultHeaderRecord) (a : GenerationAttempt) : VaultHeaderRecord :=
  mkVaultHeaderRecord (hd_vault_id header) (hd_format_version header) (at_generation a) (at_mac a) (hd_pki_digest header)
    (hd_crypto_suite header) (hd_created_at_ms header) (hd_schema_digest header) (hd_integrity_nonce header)
    (hd_integrity_ciphertext header).
Definition confirm_rollback_inner (expected : RollbackContext) (proof : RestoreProof) (not_after : Instant) : V unit :=
  _ ← ensure_current (Some not_after);
  state ← vreads v_state;
  _ ← match state with
      | VRollbackSuspected context => vreject (negb (bool_decide (context = expected))) Authority.RollbackSuspected
      | VFaulted => vfail Authority.Faulted
      | _ => vfail Authority.RollbackSuspected
      end;
  _ ← rate_limit;
  header ← load_header;
  authenticated ← vtry (authenticate_restore header proof);
  root ← match authenticated with
         | Ok root => mret root
         | Err Authority.InvalidUnlockCredential => _ ← advance_unlock_backoff; vfail Authority.InvalidUnlockCredential
         | Err e => vfail e
         end;
  observed ← observe;
  _ ← vreject (negb (bool_decide (rollback_context header observed = expected))) Authority.RollbackSuspected;
  next ← vlift (ok_or Authority.StorageIntegrityFailed
    (u64_checked_add (Z.max (hd_generation header) (default 0 (high_water expected))) 1));
  audit ← audit_event_or_fault (unlock_audit event_type.RESTORE_COMPLETED outcome.SUCCESS "rollback-confirmed");
  attempt ← vlift (attempt_new header observed root next (Some not_after) None);
  outcome ← confirm_generation audit attempt;
  a ← complete_generation outcome;
  _ ← vmodify (set_v_header (accepted header a));
  _ ← vmodify (set_v_state VLocked);
  clear_failures.
Definition confirm_rollback (expected : RollbackContext) (proof : RestoreProof) (not_after : Instant) : V unit :=
  fault_on_audit_failure (fault_on_integrity (confirm_rollback_inner expected proof not_after)).

End WithLibraries.
