(* ===== verification/VaultMutations.v ===== *)
(** * VaultMutations: administrative changes that raise the generation

    [rekey-vault/src/authority/wrapper.rs], credential.rs, policy.rs and the retention
    of audit.rs, each with its transaction in [store/]. Every one verifies a proof,
    prepares its records under the root, observes the anchors, and commits through
    [commit_with]. The checks of certificate and AWS material (private_material.rs,
    tokens.rs), which parse with third-party code, are the class [Materials]; the
    build is one without the feature [lab]. *)

From S2P Require Import Prelude Strings Bytes Errors Domain Codec Json Action FixedAction SessionState Approval Signed AuditRecords.
From S2P Require Import VaultModel VaultTables VaultStore Usage VaultRows KeyWrap LifecycleSeals VaultContent VaultWorker Generation.
From S2P Require Import AuditLog VaultUnlock.

Class Materials := {
  validate_mtls : string -> result AuthorityError unit;
  validate_ca : string -> result AuthorityError unit;
  validate_aws : list Z -> result AuthorityError unit;
}.

Record PreparedCredential := mkPreparedCredential {
  pp_payload : list Z;
  pp_credential_id : CredentialId;
  pp_kind : CredentialKind;
  pp_version : Z;
}.
Record PolicyTrustInput := mkPolicyTrustInput { ti_signer_id : Uuid; ti_key : PolicyVerificationKey }.
Record PolicyBundleInput := mkPolicyBundleInput {
  bi_expected_vault_id : Uuid;
  bi_expected_trust_sha256 : Digest;
  bi_signer_id : Uuid;
  bi_version : Z;
  bi_expires_at_ms : Z;
  bi_policy_digest : Digest;
  bi_bundle_digest : Digest;
  bi_bundle_json : list Z;
}.

Section WithLibraries.
Context {H : Host} {AH : AnchorHost} {CC : Codecs} {SG : Signatures} {SJ : Serde} {VW : ValueWriter} {RC : RecordCodec}.
Context {AE : Aead} {KD : Kdf} {LC : LeaseCodec} {JS : JsonSchema} {AC : ActionCodec} {UC : UnlockConfig} {MT : Materials} {DC : Documents}.

(** ** The shared steps *)

Definition invalid_action (message : string) : AuthorityError := Authority.Domain (InvalidActionDefinition message).
(** The attempt at the next generation, under the root in use. *)
Definition next_attempt (not_after : option Instant) (wall : option Z) : V GenerationAttempt :=
  observed ← mutation_observation;
  key ← require_unlocked;
  header ← vreads v_header;
  next ← vlift (ok_or Authority.StorageIntegrityFailed (u64_checked_add (hd_generation header) 1));
  vlift (attempt_new header observed key next not_after wall).
Definition committed (work : V GenerationAttempt) : V unit :=
  outcome ← commit_with work;
  _ ← complete_generation outcome;
  mret tt.
(** A proof whose refusal is audited a second time. *)
Definition step_up (failed_event : string) (proof : UnlockProof) : V unit :=
  verified ← vtry (verify_proof proof);
  match verified with
  | Ok _ => mret tt
  | Err e =>
      _ ← (if bool_decide (e = Authority.InvalidUnlockCredential)
           then append_audit (unlock_audit failed_event outcome.DENIED "invalid-step-up") else mret tt);
      vfail e
  end.

(** ** Wrappers (authority/wrapper.rs) *)

Definition SECRET_INPUT_MAX_BYTES : Z := 64 * 1024.
Definition replace_wrapper (kind : WrapperKind) (replacement : KeyWrapperRecord) (disabled_at_ms : Z) (audit : AuditEvent)
    (a : GenerationAttempt) : V GenerationAttempt :=
  _ ← begin_tx Authority.StorageUnavailable;
  replaced ← write_tables (disable_wrappers kind disabled_at_ms);
  _ ← one replaced;
  _ ← insert_wrapper replacement;
  _ ← audit_insert audit;
  mret a.
Definition step_up_reason (proof : UnlockProof) : result AuthorityError string :=
  match proof with
  | PasswordProof _ => Ok "password-step-up"
  | RecoveryProof _ => Ok "recovery-step-up"
  | PresenceProof _ => Err Authority.InvalidUnlockCredential
  end.
(** A wrapper of the root under [kek], and its replacement of the active one. *)
Definition rewrap (kind : WrapperKind) (algorithm params : string) (wrapper_id : Uuid) (salt kek : list Z)
    (event reason : string) (not_after : option Instant) : V unit :=
  vrk ← require_unlocked;
  vault ← vreads v_vault_id;
  wrapped ← wrap_vrk vault wrapper_id kek vrk;
  now ← now_ms;
  let replacement := mkKeyWrapperRecord wrapper_id kind WrapperActive algorithm params salt wrapped.1 wrapped.2 now None in
  audit ← audit_event_or_fault (unlock_audit event outcome.SUCCESS reason);
  _ ← ensure_current not_after;
  _ ← forget_desktop;
  a ← next_attempt not_after None;
  fault_on_audit_failure (fault_on_integrity (committed (replace_wrapper kind replacement now audit a))).
Definition password_change (proof : UnlockProof) (new_password : list Z) (not_after : option Instant) : V unit :=
  _ ← require_unlocked;
  reason ← vlift (step_up_reason proof);
  _ ← step_up event_type.VAULT_PASSWORD_CHANGE_FAILED proof;
  _ ← vreject (bool_decide (new_password = []) || (SECRET_INPUT_MAX_BYTES <? llen new_password))
        (invalid_action "new password must be between 1 byte and 64 KiB");
  id ← random_array 16;
  salt ← random_array SALT_LEN;
  kek ← vlift (derive_password_kek new_password salt RFC9106_LOW_MEMORY);
  rewrap WrapperPassword KDF_ALGORITHM_ARGON2ID (to_json RFC9106_LOW_MEMORY) (id_from_random_bytes id) salt kek
    event_type.VAULT_PASSWORD_CHANGED reason not_after.
Definition recovery_rotate (proof : UnlockProof) (not_after : option Instant) : V string :=
  reason ← match proof with
    | PasswordProof _ => mret "password-step-up"
    | PresenceProof _ => _ ← require_unlocked; vfail Authority.InvalidUnlockCredential
    | RecoveryProof _ => vfail (invalid_action "recovery rotation requires password proof")
    end;
  _ ← require_unlocked;
  _ ← step_up event_type.VAULT_RECOVERY_ROTATION_FAILED proof;
  recovery_key ← random_array KEY_LEN;
  id ← random_array 16;
  salt ← random_array SALT_LEN;
  kek ← vlift (derive_recovery_kek recovery_key salt);
  _ ← rewrap WrapperRecovery KDF_ALGORITHM_HKDF_SHA256 "{}" (id_from_random_bytes id) salt kek
        event_type.VAULT_RECOVERY_ROTATED reason not_after;
  mret (encode_recovery_key recovery_key).

(** ** Credentials (authority/credential.rs) *)

Definition set_credential_seal (seal : list Z * list Z) (r : CredentialRecord) : CredentialRecord :=
  mkCredentialRecord (cr_credential_id r) (cr_label r) (cr_kind r) (cr_state r) (cr_current_version r)
    (cr_created_at_ms r) (cr_updated_at_ms r) (cr_revoked_at_ms r) seal.1 seal.2.
Definition refresh_state_seal (r : CredentialRecord) : V CredentialRecord :=
  vrk ← require_unlocked;
  vault ← vreads v_vault_id;
  seal ← seal_credential vrk vault r;
  mret (set_credential_seal seal r).
Definition load_verified_credential (id : CredentialId) : V CredentialRecord :=
  fault_on_integrity (
    _ ← require_unlocked;
    _ ← validate_credential_version_invariants;
    record ← get_credential id;
    vrk ← require_unlocked;
    vault ← vreads v_vault_id;
    _ ← vlift (verify_credential vrk vault record);
    mret record).
Definition encrypt_new_version (id : CredentialId) (version : Z) (kind : CredentialKind) (secret : list Z) (created_at_ms : Z)
    : V CredentialVersionRecord :=
  vrk ← require_unlocked;
  dek ← random_array KEY_LEN;
  vault ← vreads v_vault_id;
  payload ← aead_seal dek (payload_aad vault id version kind) secret;
  wrapped ← aead_seal vrk (dek_aad vault id version) dek;
  mret (mkCredentialVersionRecord id version VerActive AAD_VERSION_V1 CRYPTO_SUITE_V1 wrapped.1 wrapped.2
          payload.1 payload.2 created_at_ms None).
Definition credential_audit (event : string) (id : CredentialId) (version : Z) (reason : string) : AuditDraft :=
  mkAuditDraft None None None None (Some id) (Some version) None None None None event outcome.SUCCESS reason None None.
Definition invalid_material : AuthorityError := invalid_action "invalid private credential material".
Definition material_validate (kind : CredentialKind) (bytes : list Z) : result AuthorityError unit :=
  let checked (f : string -> result AuthorityError unit) :=
    reject_if bool_decide (bytes = []) || (64 * 1024 <? llen bytes) with invalid_material ;;
    reject_if negb (utf8_valid bytes) with invalid_material ;;
    f (Decimal.text_of bytes) in
  match kind with
  | MtlsIdentity => checked validate_mtls
  | PkiCaSigner => checked validate_ca
  | _ => Ok tt
  end.
Definition is_ssh (k : CredentialKind) : bool :=
  match k with SshEd25519 | SshP256 | SshSecureEnclaveP256 => true | _ => false end.
Definition is_private (k : CredentialKind) : bool := match k with MtlsIdentity | PkiCaSigner => true | _ => false end.
Definition insert_credential_tx (record : CredentialRecord) (version : CredentialVersionRecord) (audit : AuditEvent)
    (a : GenerationAttempt) : V GenerationAttempt :=
  _ ← begin_tx Authority.StorageUnavailable;
  inserted ← write_tables (insert_credential_row (raw_of_credential record));
  _ ← vreject (inserted =? 0) Authority.CredentialConflict;
  _ ← insert_version version;
  _ ← audit_insert audit;
  mret a.
Definition insert_credential (label : string) (kind : CredentialKind) (secret : list Z) (not_after : option Instant)
    : V CredentialMetadata :=
  _ ← vlift (material_validate kind secret);
  _ ← vreject (bool_decide (secret = [])) (Authority.Domain InvalidCapability);
  id ← random_array 16;
  let credential_id := id_from_random_bytes id in
  now ← now_ms;
  version ← encrypt_new_version credential_id 1 kind secret now;
  record ← refresh_state_seal (mkCredentialRecord credential_id label kind CredActive 1 now now None (zeros 12) (zeros 16));
  audit ← audit_event_or_fault (credential_audit event_type.CREDENTIAL_CREATED credential_id 1 "add");
  _ ← ensure_current not_after;
  a ← next_attempt not_after None;
  _ ← fault_on_audit_failure (committed (insert_credential_tx record version audit a));
  vlift (record_to_metadata record).
Definition credential_add (label : string) (kind : CredentialKind) (secret : list Z) (proof : UnlockProof)
    (not_after : option Instant) : V CredentialMetadata :=
  _ ← require_unlocked;
  _ ← verify_proof proof;
  _ ← vreject (is_ssh kind || bool_decide (kind = OAuthGrant)) Authority.CredentialSourceUnavailable;
  _ ← vlift (if bool_decide (kind = AwsStatic) then validate_aws secret else Ok tt);
  insert_credential label kind secret not_after.

Definition rotated_row (record : CredentialRecord) (r : RawCredential) : RawCredential :=
  mkRawCredential (rc_credential_id r) (rc_label r) (rc_kind r) (rc_state r) (u64_as_i64 (cr_current_version record))
    (rc_created_at_ms r) (cr_updated_at_ms record) (rc_revoked_at_ms r) (cr_state_nonce record) (cr_state_ciphertext record).
Definition rotate_credential_tx (record : CredentialRecord) (version : CredentialVersionRecord) (now : Z) (audit : AuditEvent)
    (a : GenerationAttempt) : V GenerationAttempt :=
  _ ← begin_tx Authority.StorageUnavailable;
  _ ← write_tables (retire_versions (cr_credential_id record) VerRetired now);
  _ ← insert_version version;
  updated ← write_tables (update_credentials (rotated_row record) (cr_credential_id record));
  _ ← vreject (updated =? 0) Authority.CredentialNotFound;
  _ ← audit_insert audit;
  mret a.
Definition set_current_version (version now : Z) (r : CredentialRecord) : CredentialRecord :=
  mkCredentialRecord (cr_credential_id r) (cr_label r) (cr_kind r) (cr_state r) version (cr_created_at_ms r) now
    (cr_revoked_at_ms r) (cr_state_nonce r) (cr_state_ciphertext r).
Definition rotation_reason (audit_type : string) : string :=
  if str_eqb audit_type "oauth.refreshed" then "oauth-refresh"
  else if str_eqb audit_type "oauth.authorized" then "oauth-authorization" else "rotate".
(** What a rotation refuses, given the stored record. *)
Definition rotation_check (record : CredentialRecord) (expected_kind : CredentialKind) (expected_version : option Z)
    (secret : list Z) : result AuthorityError unit :=
  reject_if negb (bool_decide (cr_state record = CredActive)) with Authority.CredentialRevoked ;;
  reject_if negb (bool_decide (cr_kind record = expected_kind))
    with invalid_action "credential kind does not match rotation command" ;;
  reject_if is_ssh expected_kind with Authority.CredentialSourceUnavailable ;;
  reject_if is_some_and expected_version (fun v => negb (v =? cr_current_version record))
    with invalid_action "credential version does not match expected version" ;;
  reject_if is_private expected_kind && is_none expected_version
    with invalid_action "private rotation requires an expected version" ;;
  _ ← material_validate expected_kind secret;
  if bool_decide (expected_kind = AwsStatic) then validate_aws secret else Ok tt.
Definition rotate_credential_inner (id : CredentialId) (expected_kind : CredentialKind) (expected_version : option Z)
    (secret : list Z) (not_after : option Instant) (audit_type : string) : V CredentialMetadata :=
  _ ← require_unlocked;
  _ ← vreject (bool_decide (secret = [])) (Authority.Domain InvalidCapability);
  record ← load_verified_credential id;
  _ ← vlift (rotation_check record expected_kind expected_version secret);
  next ← vlift (ok_or Authority.StorageIntegrityFailed
    (v ← u64_checked_add (cr_current_version record) 1; if v <=? i64_max then Some v else None));
  now ← now_ms;
  version ← encrypt_new_version id next expected_kind secret now;
  updated ← refresh_state_seal (set_current_version next now record);
  audit ← audit_event_or_fault (credential_audit audit_type id next (rotation_reason audit_type));
  _ ← ensure_current not_after;
  a ← next_attempt not_after None;
  _ ← fault_on_audit_failure (committed (rotate_credential_tx updated version now audit a));
  vlift (record_to_metadata updated).
Definition credential_rotate_typed (id : CredentialId) (expected_kind : CredentialKind) (expected_version : option Z)
    (secret : list Z) (proof : UnlockProof) (not_after : option Instant) : V CredentialMetadata :=
  _ ← require_unlocked;
  _ ← verify_proof proof;
  _ ← vreject (bool_decide (expected_kind = OAuthGrant)) Authority.CredentialSourceUnavailable;
  rotate_credential_inner id expected_kind expected_version secret not_after event_type.CREDENTIAL_ROTATED.
Definition credential_rotate (id : CredentialId) (secret : list Z) (proof : UnlockProof) (not_after : option Instant)
    : V CredentialMetadata :=
  credential_rotate_typed id OpaqueToken None secret proof not_after.

Definition revoked_row (record : CredentialRecord) (r : RawCredential) : RawCredential :=
  mkRawCredential (rc_credential_id r) (rc_label r) (rc_kind r) "revoked" (rc_current_version r)
    (rc_created_at_ms r) (cr_updated_at_ms record) (cr_revoked_at_ms record) (cr_state_nonce record) (cr_state_ciphertext record).
Definition revoke_credential_tx (record : CredentialRecord) (now : Z) (audit : AuditEvent) (a : GenerationAttempt)
    : V GenerationAttempt :=
  _ ← begin_tx Authority.StorageUnavailable;
  updated ← write_tables (update_credentials (revoked_row record) (cr_credential_id record));
  _ ← vreject (updated =? 0) Authority.CredentialNotFound;
  _ ← write_tables (retire_versions (cr_credential_id record) VerRevoked now);
  _ ← audit_insert audit;
  mret a.
Definition set_revoked (now : Z) (r : CredentialRecord) : CredentialRecord :=
  mkCredentialRecord (cr_credential_id r) (cr_label r) (cr_kind r) CredRevoked (cr_current_version r)
    (cr_created_at_ms r) now (Some now) (cr_state_nonce r) (cr_state_ciphertext r).
Definition credential_revoke (id : CredentialId) (proof : UnlockProof) (not_after : option Instant) : V CredentialMetadata :=
  _ ← require_unlocked;
  _ ← verify_proof proof;
  record ← load_verified_credential id;
  now ← now_ms;
  updated ← refresh_state_seal (set_revoked now record);
  audit ← audit_event_or_fault (credential_audit event_type.CREDENTIAL_REVOKED id (cr_current_version updated) "revoke");
  _ ← ensure_current not_after;
  a ← next_attempt not_after None;
  _ ← fault_on_audit_failure (committed (revoke_credential_tx updated now audit a));
  vlift (record_to_metadata updated).

Definition is_service_material (k : CredentialKind) : bool :=
  is_ssh k || match k with OAuthGrant | AwsStatic => true | _ => false end.
Definition decrypt_credential_payload (c : CredentialRecord) (v : CredentialVersionRecord) : V (list Z) :=
  vrk ← require_unlocked;
  vault ← vreads v_vault_id;
  vlift (open_version Authority.CryptoFailure vrk vault (cr_kind c) v).
Definition prepare_credential_inner (id : CredentialId) (allow_service_material : bool) : V PreparedCredential :=
  credential ← load_verified_credential id;
  _ ← vreject (is_private (cr_kind credential)) Authority.CredentialSourceUnavailable;
  _ ← vreject (negb allow_service_material && is_service_material (cr_kind credential)) Authority.CredentialSourceUnavailable;
  _ ← vreject (bool_decide (cr_kind credential = MacosKeychainSource)) Authority.CredentialSourceUnavailable;
  _ ← vreject (negb (bool_decide (cr_state credential = CredActive))) Authority.CredentialRevoked;
  version ← get_version id (cr_current_version credential);
  _ ← vreject (negb (bool_decide (cv_state version = VerActive))) Authority.CredentialRevoked;
  payload ← decrypt_credential_payload credential version;
  mret (mkPreparedCredential payload id (cr_kind credential) (cv_version version)).
Definition is_broken {A} (r : result AuthorityError A) : bool :=
  match r with Err Authority.CryptoFailure | Err Authority.StorageIntegrityFailed => true | _ => false end.
Definition prepare_credential (id : CredentialId) : V PreparedCredential :=
  r ← vtry (prepare_credential_inner id false);
  faulted ← vreads is_faulted;
  _ ← (if is_broken r && negb faulted then fault "credential-integrity-failed" else mret tt);
  vlift r.
(** [prepare_execution_credential]; what it is given besides goes to the key chain. *)
Definition prepare_execution_credential (id : CredentialId) : V PreparedCredential :=
  r ← vtry (prepare_credential_inner id false);
  _ ← (if is_broken r then fault "credential-integrity-failed" else mret tt);
  vlift r.
Definition prepare_internal_credential (id : CredentialId) : V PreparedCredential :=
  fault_on_integrity (prepare_credential_inner id true).

(** ** Policies (authority/policy.rs) *)

Definition policy_material : V PolicyMaterial :=
  key ← require_unlocked;
  vault ← vreads v_vault_id;
  verified_policy_material key vault.
Definition update_policy_state (s : PolicyStateRecord) (t : Tables) : option (Tables * Z) :=
  match policy_state t with
  | Some r => if str_eqb (rps_mode r) (mode_name (pst_mode s))
              then Some (set_policy_state (Some (raw_of_policy_state s)) t, 1) else Some (t, 0)
  | None => Some (t, 0)
  end.
Definition update_state (s : PolicyStateRecord) : V unit := changed ← write_tables (update_policy_state s); one changed.
Definition insert_trust_row (p : PolicyTrustRecord) (t : Tables) : option (Tables * Z) :=
  if is_none (policy_trust t) then Some (set_policy_trust (Some (raw_of_policy_trust p)) t, 1) else None.
Definition install_policy_trust (s : PolicyStateRecord) (trust : PolicyTrustRecord) (event : AuditEvent) (a : GenerationAttempt)
    : V GenerationAttempt :=
  _ ← begin_tx Authority.StorageUnavailable;
  _ ← write_tables (insert_trust_row trust);
  _ ← update_state s;
  _ ← audit_insert event;
  mret a.
(** The new bundle, and [DELETE FROM workload_token_uses]. *)
Definition replace_bundle_row (b : PolicyBundleRecord) (t : Tables) : option (Tables * Z) :=
  Some (set_policy_bundle (Some (raw_of_policy_bundle b)) (workload_token_uses t) t, 1).
Definition forget_token_uses (t : Tables) : option (Tables * Z) :=
  Some (set_policy_bundle (policy_bundle t) [] t, llen (workload_token_uses t)).
Definition activate_bundle_tx (s : PolicyStateRecord) (bundle : PolicyBundleRecord) (event : AuditEvent) (a : GenerationAttempt)
    : V GenerationAttempt :=
  _ ← begin_tx Authority.StorageUnavailable;
  _ ← write_tables (replace_bundle_row bundle);
  _ ← write_tables forget_token_uses;
  _ ← update_state s;
  _ ← audit_insert event;
  mret a.
Definition set_state_seal (seal : list Z * list Z) (s : PolicyStateRecord) : PolicyStateRecord :=
  mkPolicyStateRecord (pst_mode s) (pst_trust_installed s) (pst_bundle_activated s) (pst_signer_id s) (pst_highest_version s)
    (pst_policy_digest s) (pst_bundle_digest s) (pst_updated_at_ms s) seal.1 seal.2.
Definition policy_trust_install (input : PolicyTrustInput) (proof : UnlockProof) (not_after : option Instant) : V PolicyMaterial :=
  _ ← verify_proof proof;
  material ← policy_material;
  _ ← vreject (negb (mode_accepts (pst_mode (pm_state material)) (pk_algorithm (ti_key input)))) Authority.PolicyTrustConflict;
  match pm_trust material with
  | Some trust =>
      if (ptr_signer_id trust =? ti_signer_id input) && bool_decide (ptr_key trust = ti_key input)
      then policy_material else vfail Authority.PolicyTrustConflict
  | None =>
      _ ← ensure_current not_after;
      key ← require_unlocked;
      now ← now_ms;
      vault ← vreads v_vault_id;
      seal ← seal_trust key vault (mkPolicyTrustRecord (ti_signer_id input) (ti_key input) now (zeros 12) (zeros 16));
      let trust := mkPolicyTrustRecord (ti_signer_id input) (ti_key input) now seal.1 seal.2 in
      let state := mkPolicyStateRecord (pst_mode (pm_state material)) true false (Some (ti_signer_id input)) None None None now
                     (zeros 12) (zeros 16) in
      seal ← seal_state key vault state;
      event ← audit_event_or_fault (unlock_audit event_type.POLICY_TRUST_INSTALLED outcome.SUCCESS "policy-trust-installed");
      _ ← ensure_current not_after;
      a ← next_attempt not_after None;
      _ ← fault_on_audit_failure (committed (install_policy_trust (set_state_seal seal state) trust event a));
      policy_material
  end.
Definition bundle_invalid (vault : Uuid) (trust : PolicyTrustRecord) (trust_digest : Digest) (input : PolicyBundleInput) : bool :=
  negb (vault =? bi_expected_vault_id input) || negb (bool_decide (trust_digest = bi_expected_trust_sha256 input))
  || negb (ptr_signer_id trust =? bi_signer_id input) || (bi_version input =? 0) || (i64_max <=? bi_version input)
  || (bi_expires_at_ms input <? 0) || (64 * 1024 <? llen (bi_bundle_json input))
  || negb (bool_decide (sha256 (bi_bundle_json input) = bi_bundle_digest input)).
(** Whether this bundle follows the active one: [Ok false] when it is the same. *)
Definition bundle_follows (existing : option PolicyBundleRecord) (input : PolicyBundleInput) : result AuthorityError bool :=
  match existing with
  | Some b =>
      if (pbr_version b =? bi_version input) && bool_decide (pbr_bundle_digest b = bi_bundle_digest input) then Ok false
      else
        reject_if i64_max - 1 <=? pbr_version b with Authority.PolicyVersionExhausted ;;
        reject_if negb (bi_version input =? pbr_version b + 1) with Authority.PolicyVersionConflict ;;
        Ok true
  | None =>
      reject_if negb (bi_version input =? 1) with Authority.PolicyVersionConflict ;;
      Ok true
  end.
Definition activation_reason (input : PolicyBundleInput) : string :=
  ("policy-activated:" ++ dec (bi_version input) ++ ":" ++ hexlower_encode (bi_bundle_digest input))%string.
Definition policy_bundle_activate (input : PolicyBundleInput) (proof : UnlockProof) (not_after : option Instant) : V PolicyMaterial :=
  _ ← verify_proof proof;
  material ← policy_material;
  trust ← vlift (ok_or Authority.PolicyUnavailable (pm_trust material));
  trust_digest ← vlift (map_err (fun _ => Authority.PolicyVersionConflict)
    (policy_trust_sha256 (ptr_signer_id trust) (ptr_key trust)));
  vault ← vreads v_vault_id;
  _ ← vreject (bundle_invalid vault trust trust_digest input) Authority.PolicyVersionConflict;
  follows ← vlift (bundle_follows (pm_bundle material) input);
  if follows : bool then
    _ ← ensure_current not_after;
    key ← require_unlocked;
    now ← now_ms;
    let sealed_with nonce ciphertext :=
      mkPolicyBundleRecord (bi_signer_id input) (bi_version input) (bi_expires_at_ms input) (bi_policy_digest input)
        (bi_bundle_digest input) (bi_bundle_json input) now nonce ciphertext in
    seal ← seal_bundle key vault (sealed_with (zeros 12) (zeros 16));
    let bundle := sealed_with seal.1 seal.2 in
    let state := mkPolicyStateRecord (pst_mode (pm_state material)) true true (Some (bi_signer_id input))
                   (Some (bi_version input)) (Some (bi_policy_digest input)) (Some (bi_bundle_digest input)) now
                   (zeros 12) (zeros 16) in
    seal ← seal_state key vault state;
    event ← audit_event_or_fault (unlock_audit event_type.POLICY_ACTIVATED outcome.SUCCESS (activation_reason input));
    _ ← ensure_current not_after;
    now ← now_ms;
    _ ← vreject (pbr_expires_at_ms bundle <=? now) Authority.PolicyVersionConflict;
    a ← next_attempt not_after (Some (pbr_expires_at_ms bundle));
    _ ← fault_on_audit_failure (committed (activate_bundle_tx (set_state_seal seal state) bundle event a));
    policy_material
  else policy_material.

(** ** Retention (authority/audit.rs) *)

Definition retention_record : V AuditRetentionRecord :=
  key ← require_unlocked;
  vault ← vreads v_vault_id;
  fault_on_integrity (verified_audit_retention key vault).
Definition status_of (r : AuditRetentionRecord) : AuditRetentionStatus := mkAuditRetentionStatus (ar_days r) (ar_updated_at_ms r).
Definition audit_retention_status : V AuditRetentionStatus := r ← retention_record; mret (status_of r).
Definition observe_retention_clock (updated_at_ms now : Z) : V unit :=
  last ← vreads v_retention_clock;
  _ ← vreject ((now <? updated_at_ms) || is_some_and last (fun last => now <? last)) Authority.ClockUnavailable;
  vmodify (set_v_clock (Some now)).
(** [UPDATE audit_retention .. WHERE singleton=1]; the table has at most one row. *)
Definition update_retention (r : AuditRetentionRecord) (t : Tables) : option (Tables * Z) :=
  Some (set_retention (map (fun _ => raw_of_retention r) (audit_retention t)) t, llen (audit_retention t)).
Definition set_audit_retention (r : AuditRetentionRecord) (audit : AuditEvent) (not_after : option Instant) (a : GenerationAttempt)
    : V GenerationAttempt :=
  _ ← ensure_current not_after;
  _ ← begin_tx Authority.StorageUnavailable;
  changed ← write_tables (update_retention r);
  _ ← one changed;
  _ ← audit_insert audit;
  _ ← ensure_current not_after;
  mret a.
Definition audit_retention_set (request : AuditRetentionSet) (proof : UnlockProof) (not_after : option Instant)
    : V AuditRetentionStatus :=
  _ ← require_unlocked;
  _ ← verify_proof proof;
  prior ← retention_record;
  now ← now_ms;
  _ ← observe_retention_clock (ar_updated_at_ms prior) now;
  _ ← domain (retention_validate_at request now);
  _ ← ensure_current not_after;
  if bool_decide (ar_days prior = rs_days request) then mret (status_of prior)
  else
    key ← require_unlocked;
    vault ← vreads v_vault_id;
    seal ← seal_retention key vault (mkAuditRetentionRecord (rs_days request) now (zeros 12) (zeros 16));
    let record := mkAuditRetentionRecord (rs_days request) now seal.1 seal.2 in
    marker ← audit_event_at (unlock_audit event_type.AUDIT_RETENTION_CHANGED outcome.SUCCESS "retention-policy") now;
    a ← next_attempt not_after None;
    _ ← fault_on_audit_failure (fault_on_integrity (committed (set_audit_retention record marker not_after a)));
    mret (status_of record).
Definition retention_maintenance_at (record : AuditRetentionRecord) (now : Z) (not_after : Instant) : V (option AuditPruneReceipt) :=
  _ ← observe_retention_clock (ar_updated_at_ms record) now;
  cutoff ← vlift (map_err (fun _ => Authority.ClockUnavailable) (cutoff_at (mkAuditRetentionSet (ar_days record)) now));
  before_ms ← vlift (ok_or Authority.StorageIntegrityFailed cutoff);
  marker ← audit_event_at (unlock_audit event_type.AUDIT_PRUNED outcome.SUCCESS "retention-policy") now;
  receipt ← fault_on_audit_failure (fault_on_integrity (audit_prune (mkAuditPruneRequest before_ms) marker (Some not_after)));
  mret (Some receipt).
Definition audit_retention_maintenance (not_after : Instant) : V (option AuditPruneReceipt) :=
  _ ← ensure_current (Some not_after);
  state ← vreads v_state;
  match state with
  | VLocked => mret None
  | VFaulted => vfail Authority.Faulted
  | VRollbackSuspected _ => vfail Authority.RollbackSuspected
  | VUnlocked _ =>
      record ← retention_record;
      if is_none (ar_days record) then mret None
      else now ← now_ms; retention_maintenance_at record now not_after
  end.

End WithLibraries.
