(* ===== verification/Bootstrap.v ===== *)
(** * Bootstrap: a new vault, and the checks of a store that is opened

    [init_vault] of rekey-vault/src/bootstrap.rs with [initialize] of store/sqlite.rs,
    and [SqliteRecordStore::open] with store/integrity.rs. The directory, its lock and
    its markers are files around it and stay outside; so do the pragmas and the layout
    of the schema, which the tables have by their types. The text of the schema is not
    reproduced: its digest is the class [Layout]. *)

From S2P Require Import Prelude Strings Bytes Errors Domain Codec Json SessionState Approval Signed AuditRecords.
From S2P Require Import VaultModel VaultTables VaultStore Usage VaultRows KeyWrap LifecycleSeals VaultContent VaultWorker Generation.

(** [schema_digest()]. *)
Class Layout := { schema_digest : Digest }.
Definition FORMAT_VERSION : Z := 27.
Definition VAULT_INTEGRITY_CIPHERTEXT_LEN : Z := 40.

Record InitOutcome := mkInitOutcome {
  io_vault_id : Uuid;
  io_recovery_key_display : string;
}.

Section WithLibraries.
Context {H : Host} {AH : AnchorHost} {CC : Codecs} {SG : Signatures} {SJ : Serde} {VW : ValueWriter} {RC : RecordCodec}.
Context {AE : Aead} {KD : Kdf} {LC : LeaseCodec} {LY : Layout}.

(** ** Discriminators and lengths (store/integrity.rs) *)

Definition has_length (n : Z) (b : list Z) : bool := llen b =? n.
Definition unknown_header (r : RawHeader) : bool :=
  negb (rh_format_version r =? FORMAT_VERSION) || negb (str_eqb (rh_crypto_suite r) CRYPTO_SUITE_V1).
Definition unknown_wrapper (r : RawWrapper) : bool :=
  let password := str_eqb (rw_kind r) "password" in
  let recovery := str_eqb (rw_kind r) "recovery" in
  (password && negb (str_eqb (rw_kdf_algorithm r) KDF_ALGORITHM_ARGON2ID))
  || (recovery && negb (str_eqb (rw_kdf_algorithm r) KDF_ALGORITHM_HKDF_SHA256))
  || (negb password && negb recovery).
Definition unknown_version (r : RawVersion) : bool :=
  negb (rv_aad_version r =? AAD_VERSION_V1) || negb (str_eqb (rv_crypto_suite r) CRYPTO_SUITE_V1).
(** The lengths that the schema demands too. *)
Definition header_lengths_bad (r : RawHeader) : bool :=
  negb (has_length 16 (rh_vault_id r)) || negb (has_length 8 (rh_generation r)) || bool_decide (rh_generation r = repeat 0 8)
  || negb (has_length 32 (rh_generation_mac r)) || negb (has_length 32 (rh_pki_digest r))
  || negb (has_length 32 (rh_schema_digest r)) || negb (has_length 12 (rh_integrity_nonce r)).
Definition malformed_header (r : RawHeader) : bool :=
  header_lengths_bad r || negb (has_length VAULT_INTEGRITY_CIPHERTEXT_LEN (rh_integrity_ciphertext r)).
Definition malformed_wrapper (r : RawWrapper) : bool :=
  negb (has_length 16 (rw_wrapper_id r)) || negb (has_length 16 (rw_salt r)) || negb (has_length 12 (rw_nonce r))
  || negb (has_length 48 (rw_wrapped_vrk r)).
Definition known_params (r : RawWrapper) : result AuthorityError unit :=
  if str_eqb (rw_kind r) "password" then integrity (_ ← params_from_json (rw_kdf_params_json r); Ok tt)
  else if str_eqb (rw_kind r) "recovery" && str_eqb (rw_kdf_params_json r) "{}" then Ok tt
  else corrupt.
Definition active_count (kind : WrapperKind) (t : Tables) : Z := llen (retain (is_active_wrapper kind) (key_wrappers t)).
(** [SELECT EXISTS(..)]. *)
Definition exists_row (f : Tables -> bool) : V bool := query_db Authority.StorageIntegrityFailed (fun t => Ok (f t)).
Definition validate_format_discriminators : V unit :=
  header ← exists_row (fun t => is_some_and (vault_header t) unknown_header);
  wrappers ← exists_row (fun t => existsb unknown_wrapper (key_wrappers t));
  versions ← exists_row (fun t => existsb unknown_version (credential_versions t));
  _ ← vreject (header || wrappers || versions) Authority.UnsupportedFormatVersion;
  header ← exists_row (fun t => is_some_and (vault_header t) malformed_header);
  _ ← vreject header Authority.StorageIntegrityFailed;
  wrappers ← exists_row (fun t => existsb malformed_wrapper (key_wrappers t));
  _ ← vreject wrappers Authority.StorageIntegrityFailed;
  one_each ← exists_row (fun t => (active_count WrapperPassword t =? 1) && (active_count WrapperRecovery t =? 1));
  _ ← vreject (negb one_each) Authority.StorageIntegrityFailed;
  query_db Authority.StorageIntegrityFailed (fun t => _ ← collect known_params (key_wrappers t); Ok tt).
Definition malformed_use (u : list Z * Z * Z) : bool :=
  let '(digest, expires_at_ms, created_at_ms) := u in
  negb (has_length 32 digest) || (created_at_ms <? 0) || (expires_at_ms <=? created_at_ms).
Definition validate_workload_replay_invariants : V unit :=
  malformed ← exists_row (fun t => existsb malformed_use (workload_token_uses t));
  vreject malformed Authority.StorageIntegrityFailed.

(** [SqliteRecordStore::open]. *)
Definition open_store : V unit :=
  _ ← vmap_err (fun _ => Authority.StorageIntegrityFailed) (select_db (fun _ => tt));
  _ ← validate_format_discriminators;
  _ ← foreign_key_check;
  _ ← validate_credential_version_invariants;
  _ ← validate_workload_replay_invariants;
  _ ← load_lease_state;
  _ ← load_audit_retention;
  _ ← list_lease_records;
  policy ← load_policy_state;
  trust ← load_policy_trust;
  _ ← vreject (xorb (pst_trust_installed policy) (is_some trust)) Authority.StorageIntegrityFailed;
  bundle ← load_policy_bundle;
  _ ← vreject (xorb (pst_bundle_activated policy) (is_some bundle)) Authority.StorageIntegrityFailed;
  header ← load_header;
  vreject (negb (bool_decide (hd_schema_digest header = schema_digest))) Authority.StorageIntegrityFailed.

(** ** The first rows *)

Definition header_checks (r : RawHeader) : bool := negb (unknown_header r) && negb (header_lengths_bad r).
Definition insert_header_row (r : RawHeader) (t : Tables) : option (Tables * Z) :=
  if header_checks r && is_none (vault_header t) then Some (set_header (Some r) t, 1) else None.
(** The CHECK constraints of [policy_state]. *)
Definition policy_state_checks (r : RawPolicyState) : bool :=
  blob_width 16 (rps_signer_id r) && blob_width 32 (rps_policy_digest r) && blob_width 32 (rps_bundle_digest r)
  && has_length 12 (rps_seal_nonce r) && has_length 16 (rps_seal_ciphertext r)
  && Bool.eqb (rps_trust_installed r) (is_some (rps_signer_id r))
  && (if rps_bundle_activated r
      then rps_trust_installed r && is_some_and (rps_highest_version r) (fun v => 1 <=? v)
           && is_some (rps_policy_digest r) && is_some (rps_bundle_digest r)
      else is_none (rps_highest_version r) && is_none (rps_policy_digest r) && is_none (rps_bundle_digest r)).
Definition insert_initial_state (s : PolicyStateRecord) : V unit :=
  _ ← write_tables (fun t =>
    if policy_state_checks (raw_of_policy_state s) && is_none (policy_state t)
    then Some (set_policy_state (Some (raw_of_policy_state s)) t, 1) else None);
  mret tt.
Definition retention_checks (r : RawRetention) : bool :=
  is_none_or (rr_days r) (fun d => 0 <? d) && (0 <=? rr_updated_at_ms r)
  && has_length 12 (rr_seal_nonce r) && has_length 16 (rr_seal_ciphertext r).
Definition insert_initial_retention (r : AuditRetentionRecord) : V unit :=
  changed ← write_tables (fun t =>
    if retention_checks (raw_of_retention r) && bool_decide (audit_retention t = [])
    then Some (set_retention [raw_of_retention r] t, 1) else None);
  one changed.
Definition lease_state_checks (r : RawLeaseState) : bool :=
  (0 <=? rls_revision r) && (0 <=? rls_record_count r) && has_length 32 (rls_records_digest r)
  && has_length 12 (rls_seal_nonce r) && has_length 16 (rls_seal_ciphertext r) && blob_width 16 (rls_last_audit_event_id r).
Definition initial_lease_state (s : LeaseJournalState) : V unit :=
  changed ← write_tables (fun t =>
    if lease_state_checks (raw_of_lease_state s) && is_none (vault_lease_journal_state t)
    then Some (set_lease_state (Some (raw_of_lease_state s)) t, 1) else None);
  one changed.

(** What [init_vault] writes. *)
Record InitialRecords := mkInitialRecords {
  in_header : VaultHeaderRecord;
  in_wrappers : list KeyWrapperRecord;
  in_policy : PolicyStateRecord;
  in_retention : AuditRetentionRecord;
  in_leases : LeaseJournalState;
  in_usage : UsageState;
  in_audit : AuditEvent;
}.
(** [SqliteRecordStore::initialize]: the result, and the flag [may_have_reserved]. *)
Definition initialize (r : InitialRecords) : V (result AuthorityError unit * bool) :=
  prepared ← vtry (
    _ ← begin_tx Authority.StorageUnavailable;
    _ ← write_tables (insert_header_row (raw_of_header (in_header r)));
    _ ← veach insert_wrapper (in_wrappers r);
    _ ← insert_initial_state (in_policy r);
    _ ← insert_initial_retention (in_retention r);
    _ ← initial_lease_state (in_leases r);
    _ ← initial_state (in_usage r);
    audit_insert (in_audit r));
  match prepared with
  | Err e => mret (Err e, false)
  | Ok _ =>
      reserved ← create_new (hd_generation (in_header r));
      match reserved.1 with
      | Err e => mret (Err e, reserved.2)
      | Ok _ => committed ← vtry commit_audited; mret (committed, reserved.2)
      end
  end.

(** ** A new vault (bootstrap.rs) *)

Definition initial_wrapper (kind : WrapperKind) (algorithm params : string) (id : Uuid) (salt : list Z)
    (wrapped : list Z * list Z) (now : Z) : KeyWrapperRecord :=
  mkKeyWrapperRecord id kind WrapperActive algorithm params salt wrapped.1 wrapped.2 now None.
Definition initial_policy (mode : PolicyMode) (now : Z) (seal : list Z * list Z) : PolicyStateRecord :=
  mkPolicyStateRecord mode false false None None None None now seal.1 seal.2.
Definition initialized_event (id : list Z) (now : Z) : AuditEvent :=
  mkAuditEvent id None None None None None None None None None None event_type.VAULT_INITIALIZED outcome.SUCCESS "init" None None now.
(** [GenerationAnchors::open] is for the new vault. *)
Definition open_anchors (vault : Uuid) (s : Vault) : Vault :=
  let g := v_guard s in set_v_guard (mkGuard vault (g_file g) (g_protected g) (g_failed_unlocks g) (g_next_unlock_at g)) s.
Definition initial_records (password : list Z) (params : Argon2Params) (mode : PolicyMode)
    : V (list Z * list Z * InitialRecords) :=
  id ← random_array 16;
  let vault := id_from_random_bytes id in
  vrk ← random_array KEY_LEN;
  recovery_key ← random_array KEY_LEN;
  password_salt ← random_array SALT_LEN;
  recovery_salt ← random_array SALT_LEN;
  password_id ← random_array 16;
  recovery_id ← random_array 16;
  now ← now_ms;
  password_kek ← vlift (derive_password_kek password password_salt params);
  recovery_kek ← vlift (derive_recovery_kek recovery_key recovery_salt);
  pw ← wrap_vrk vault (id_from_random_bytes password_id) password_kek vrk;
  rk ← wrap_vrk vault (id_from_random_bytes recovery_id) recovery_kek vrk;
  mark ← seal_integrity vault vrk;
  mac ← vlift (generation_seal vrk vault FORMAT_VERSION 1 empty_digest);
  let header := mkVaultHeaderRecord vault FORMAT_VERSION 1 mac empty_digest CRYPTO_SUITE_V1 now schema_digest mark.1 mark.2 in
  policy ← seal_state vrk vault (initial_policy mode now (zeros 12, zeros 16));
  retention ← seal_retention vrk vault (mkAuditRetentionRecord None now (zeros 12) (zeros 16));
  _ ← vmodify (open_anchors vault);
  leases ← seal_lease_state vrk vault [] 0 None;
  usage ← usage_seal vrk vault [] 0;
  event ← random_array 16;
  mret (vrk, recovery_key, mkInitialRecords header
    [initial_wrapper WrapperPassword KDF_ALGORITHM_ARGON2ID (to_json params) (id_from_random_bytes password_id) password_salt pw now;
     initial_wrapper WrapperRecovery KDF_ALGORITHM_HKDF_SHA256 "{}" (id_from_random_bytes recovery_id) recovery_salt rk now]
    (initial_policy mode now policy) (mkAuditRetentionRecord None now retention.1 retention.2) leases usage
    (initialized_event event now)).
(** The store is opened again, and both wrappers give the root back. *)
Definition root_from (vault : Uuid) (w : KeyWrapperRecord) (secret : list Z) : V (list Z) :=
  kek ← vlift (kek_for_wrapper w secret);
  vlift (unwrap_vrk vault w kek).
Definition prove_reopened (vault : Uuid) (vrk recovery_key password : list Z) : V InitOutcome :=
  _ ← open_store;
  pw ← active_wrapper WrapperPassword;
  rk ← active_wrapper WrapperRecovery;
  let display := encode_recovery_key recovery_key in
  a ← root_from vault pw password;
  b ← root_from vault rk (bytes_of display);
  _ ← vreject (negb (bool_decide (a = vrk)) || negb (bool_decide (b = vrk))) Authority.CryptoFailure;
  mret (mkInitOutcome vault display).
Definition initialize_vault_records (password : list Z) (params : Argon2Params) (mode : PolicyMode)
    : V (result AuthorityError InitOutcome * bool) :=
  prepared ← vtry (initial_records password params mode);
  match prepared with
  | Err e => mret (Err e, false)
  | Ok (vrk, recovery_key, records) =>
      stored ← initialize records;
      match stored.1 with
      | Err e => mret (Err e, stored.2)
      | Ok _ =>
          proved ← vtry (prove_reopened (hd_vault_id (in_header records)) vrk recovery_key password);
          mret (proved, stored.2)
      end
  end.
(** [init_vault] without the files. *)
Definition init_vault (password : list Z) (params : Argon2Params) (mode : PolicyMode)
    : V (result AuthorityError InitOutcome * bool) :=
  checked ← vtry (_ ← vlift (params_validate params);
                  vreject (bool_decide (password = [])) Authority.InvalidUnlockCredential);
  match checked with
  | Err e => mret (Err e, false)
  | Ok _ => initialize_vault_records password params mode
  end.

End WithLibraries.
