(* ===== verification/VaultRules.v ===== *)
(** * VaultRules: reasoning about the vault's operations

    A rule per construct of the monad [V]; [same] and [frame], what an operation
    leaves alone; and the exact effect of writing audit events. *)

From S2P Require Import Prelude Errors Domain Codec Json SessionState Approval AuditRecords VaultModel VaultStore Usage VaultWorker.

(** Run on [s], [m] returns in [Q] or stops with an error in [E]. *)
Definition vwp {A} (m : V A) (Q : A -> Vault -> Prop) (E : AuthorityError -> Vault -> Prop) (s : Vault) : Prop :=
  match m s with
  | (Ok a, s') => Q a s'
  | (Err e, s') => E e s'
  end.
Lemma vwp_mono {A} (m : V A) (Q Q' : A -> Vault -> Prop) (E E' : AuthorityError -> Vault -> Prop) s :
  vwp m Q E s -> (forall a s', Q a s' -> Q' a s') -> (forall e s', E e s' -> E' e s') -> vwp m Q' E' s.
Proof. unfold vwp. destruct (m s) as [[a|e] s']; auto. Qed.
Lemma vwp_bind {A B} (m : V A) (f : A -> V B) Q E s :
  vwp m (fun a s' => vwp (f a) Q E s') E s -> vwp (x ← m; f x) Q E s.
Proof. unfold vwp, mbind, V_bind. by destruct (m s) as [[a|e] s']. Qed.
Lemma vwp_ret {A} (a : A) (Q : A -> Vault -> Prop) E s : Q a s -> vwp (mret a) Q E s.
Proof. done. Qed.
Lemma vwp_fail {A} e (Q : A -> Vault -> Prop) (E : AuthorityError -> Vault -> Prop) s : E e s -> vwp (vfail e) Q E s.
Proof. done. Qed.
Lemma vwp_reads {A} (f : Vault -> A) (Q : A -> Vault -> Prop) E s : Q (f s) s -> vwp (vreads f) Q E s.
Proof. done. Qed.
Lemma vwp_modify f (Q : unit -> Vault -> Prop) E s : Q tt (f s) -> vwp (vmodify f) Q E s.
Proof. done. Qed.
Lemma vwp_lift {A} (r : result AuthorityError A) (Q : A -> Vault -> Prop) (E : AuthorityError -> Vault -> Prop) s :
  (forall a, r = Ok a -> Q a s) -> (forall e, r = Err e -> E e s) -> vwp (vlift r) Q E s.
Proof. unfold vwp, vlift. destruct r; auto. Qed.
Lemma vwp_reject b e (Q : unit -> Vault -> Prop) (E : AuthorityError -> Vault -> Prop) s :
  (b = true -> E e s) -> (b = false -> Q tt s) -> vwp (vreject b e) Q E s.
Proof. unfold vreject. destruct b; intros H1 H2; [by apply H1|by apply H2]. Qed.
Lemma vwp_try {A} (m : V A) (Q : result AuthorityError A -> Vault -> Prop) E s :
  vwp m (fun a => Q (Ok a)) (fun e => Q (Err e)) s -> vwp (vtry m) Q E s.
Proof. unfold vwp, vtry. by destruct (m s) as [[a|e] s']. Qed.
Lemma vwp_map_err {A} f (m : V A) (Q : A -> Vault -> Prop) (E : AuthorityError -> Vault -> Prop) s :
  vwp m Q (fun e => E (f e)) s -> vwp (vmap_err f m) Q E s.
Proof. unfold vwp, vmap_err. by destruct (m s) as [[a|e] s']. Qed.

(** ** Frames *)

(** Everything outside the transaction: the durable tables and the worker's state. *)
Record frame (s s' : Vault) : Prop := {
  fr_state : v_state s' = v_state s; fr_header : v_header s' = v_header s;
  fr_presence : v_presence s' = v_presence s; fr_desktop : v_desktop s' = v_desktop s;
  fr_clock : v_retention_clock s' = v_retention_clock s; fr_guard : v_guard s' = v_guard s;
  fr_tick : (v_tick s <= v_tick s')%nat }.
Lemma fr_id s s' : frame s s' -> v_vault_id s' = v_vault_id s.
Proof. intros Hf. unfold v_vault_id. by rewrite (fr_header _ _ Hf). Qed.
Record kept (s s' : Vault) : Prop := { kp_frame : frame s s'; kp_db : v_db s' = v_db s }.
Record same (s s' : Vault) : Prop := { sm_kept : kept s s'; sm_tx : v_tx s' = v_tx s }.
#[export] Instance frame_preorder : PreOrder frame.
Proof. split; [by split|]. intros s1 s2 s3 [] []. split; congruence || lia. Qed.
#[export] Instance kept_preorder : PreOrder kept.
Proof. split; [by split|]. intros s1 s2 s3 [] []. split; [by etrans|congruence]. Qed.
#[export] Instance same_preorder : PreOrder same.
Proof. split; [by split|]. intros s1 s2 s3 [] []. split; [by etrans|congruence]. Qed.
Lemma same_v_ticked s : same s (v_ticked s).
Proof. do 2 (split; try done). split; cbn; (done || lia). Qed.
Lemma kept_tx s t : kept s (v_ticked (set_v_tx t s)).
Proof. split; [|done]. split; cbn; (done || lia). Qed.
Lemma frame_db s d : frame s (v_ticked (set_v_db d s)).
Proof. split; cbn; (done || lia). Qed.
#[export] Hint Resolve same_v_ticked kept_tx frame_db kp_frame sm_kept : vault.
#[export] Hint Extern 1 (frame ?s ?s) => reflexivity : vault.
#[export] Hint Extern 1 (kept ?s ?s) => reflexivity : vault.
#[export] Hint Extern 1 (same ?s ?s) => reflexivity : vault.

(** An operation that only reads, and one that only works in its transaction. *)
Definition reader {A} (m : V A) : Prop := forall s, vwp m (fun _ s' => same s s') (fun _ s' => same s s') s.
Definition worker {A} (m : V A) : Prop := forall s, vwp m (fun _ s' => kept s s') (fun _ s' => kept s s') s.

Lemma vreader_worker {A} (m : V A) : reader m -> worker m.
Proof. intros Hm s. eapply vwp_mono; [apply Hm| |]; cbn; auto with vault. Qed.
Lemma vreader_ret {A} (a : A) : reader (mret a).
Proof. intros s. cbn. reflexivity. Qed.
Lemma vreader_lift {A} (r : result AuthorityError A) : reader (vlift r).
Proof. intros s. apply vwp_lift; intros; reflexivity. Qed.
Lemma vreader_reject b e : reader (vreject b e).
Proof. intros s. apply vwp_reject; intros; reflexivity. Qed.
Lemma vreader_reads {A} (f : Vault -> A) : reader (vreads f).
Proof. intros s. cbn. reflexivity. Qed.
Lemma vreader_bind {A B} (m : V A) (f : A -> V B) : reader m -> (forall a, reader (f a)) -> reader (x ← m; f x).
Proof.
  intros Hm Hf s. apply vwp_bind. eapply vwp_mono; [apply Hm| |done]. cbn. intros a s' Hs.
  eapply vwp_mono; [apply Hf| |]; cbn; intros; by etrans.
Qed.
Lemma worker_bind {A B} (m : V A) (f : A -> V B) : worker m -> (forall a, worker (f a)) -> worker (x ← m; f x).
Proof.
  intros Hm Hf s. apply vwp_bind. eapply vwp_mono; [apply Hm| |done]. cbn. intros a s' Hs.
  eapply vwp_mono; [apply Hf| |]; cbn; intros; by etrans.
Qed.
Lemma worker_each {A} (f : A -> V unit) l : (forall a, worker (f a)) -> worker (veach f l).
Proof. intros Hf. induction l as [|x l IH]; [apply vreader_worker, vreader_ret|]. by apply worker_bind. Qed.
Lemma worker_map_err {A} f (m : V A) : worker m -> worker (vmap_err f m).
Proof. intros Hm s. apply vwp_map_err, Hm. Qed.
Lemma worker_try {A} (m : V A) : worker m -> worker (vtry m).
Proof. intros Hm s. apply vwp_try, Hm. Qed.

(** Reading before something else. *)
Lemma vwp_read {A B} (m : V A) (f : A -> V B) Q (E : AuthorityError -> Vault -> Prop) s :
  reader m -> (forall e s', same s s' -> E e s') ->
  (forall a s', same s s' -> vwp (f a) Q E s') -> vwp (x ← m; f x) Q E s.
Proof.
  intros Hm HE Hf. apply vwp_bind. eapply vwp_mono; [apply Hm| |]; cbn; [intros a s' Hs; by apply Hf|by apply HE].
Qed.

Section WithHost.
Context {H : Host}.

Lemma vreader_now : reader now_ms.
Proof. intros s. unfold vwp, now_ms. destruct (millis_at _); apply same_v_ticked. Qed.
Lemma vreader_instant : reader instant_now.
Proof. intros s. apply same_v_ticked. Qed.
Lemma vreader_random n : reader (random_array n).
Proof. intros s. unfold vwp, random_array. destruct (entropy _ _); apply same_v_ticked. Qed.
Lemma vreader_select {A} (f : Database -> A) : reader (select f).
Proof. intros s. unfold vwp, select. destruct (db_works _); apply same_v_ticked. Qed.
Lemma vreader_select_db {A} (f : Database -> A) : reader (select_db f).
Proof. intros s. unfold vwp, select_db. destruct (db_works _); apply same_v_ticked. Qed.
Lemma vreader_current deadline : reader (ensure_current deadline).
Proof.
  destruct deadline; [|apply vreader_ret]. apply vreader_bind; [apply vreader_instant|]. intros. apply vreader_reject.
Qed.
Lemma worker_exec e f : worker (exec e f).
Proof.
  intros s. unfold vwp, exec. destruct (db_works _); [destruct (f _)|]; auto with vault.
Qed.
Lemma worker_exec_count e f : worker (exec_count e f).
Proof.
  intros s. unfold vwp, exec_count. destruct (db_works _); [destruct (f _) as [[]|]|]; auto with vault.
Qed.

Lemma vwp_now (Q : Z -> Vault -> Prop) E s :
  (forall v, millis_at (since_epoch (v_tick s)) = Ok v -> Q v (v_ticked s)) ->
  (forall e, millis_at (since_epoch (v_tick s)) = Err e -> E e (v_ticked s)) -> vwp now_ms Q E s.
Proof. unfold vwp, now_ms. destruct (millis_at _); auto. Qed.
Lemma vwp_select {A} (f : Database -> A) (Q : A -> Vault -> Prop) (E : AuthorityError -> Vault -> Prop) s :
  E Authority.StorageUnavailable (v_ticked s) -> Q (f (v_tx s)) (v_ticked s) -> vwp (select f) Q E s.
Proof. unfold vwp, select. by destruct (db_works _). Qed.
Lemma vwp_select_db {A} (f : Database -> A) (Q : A -> Vault -> Prop) (E : AuthorityError -> Vault -> Prop) s :
  E Authority.StorageUnavailable (v_ticked s) -> Q (f (v_db s)) (v_ticked s) -> vwp (select_db f) Q E s.
Proof. unfold vwp, select_db. by destruct (db_works _). Qed.
Lemma vwp_exec e f (Q : unit -> Vault -> Prop) (E : AuthorityError -> Vault -> Prop) s :
  E e (v_ticked s) -> (forall t, f (v_tx s) = Some t -> Q tt (v_ticked (set_v_tx t s))) -> vwp (exec e f) Q E s.
Proof. unfold vwp, exec. intros H1 H2. destruct (db_works _); [|done]. destruct (f (v_tx s)); [by apply H2|done]. Qed.
Lemma vwp_exec_count e f (Q : Z -> Vault -> Prop) (E : AuthorityError -> Vault -> Prop) s :
  E e (v_ticked s) -> (forall t n, f (v_tx s) = Some (t, n) -> Q n (v_ticked (set_v_tx t s))) -> vwp (exec_count e f) Q E s.
Proof.
  unfold vwp, exec_count. intros H1 H2. destruct (db_works _); [|done]. destruct (f (v_tx s)) as [[]|]; [by apply H2|done].
Qed.
Lemma vwp_begin e (Q : unit -> Vault -> Prop) (E : AuthorityError -> Vault -> Prop) s :
  E e (v_ticked s) -> Q tt (v_ticked (set_v_tx (v_db s) s)) -> vwp (begin_tx e) Q E s.
Proof. unfold vwp, begin_tx. by destruct (db_works _). Qed.
Lemma vwp_commit (Q : unit -> Vault -> Prop) (E : AuthorityError -> Vault -> Prop) s :
  E Authority.AuditCommitFailed (v_ticked s) -> Q tt (v_ticked (set_v_db (v_tx s) s)) -> vwp commit_audited Q E s.
Proof. unfold vwp, commit_audited. by destruct (db_works _). Qed.

(** A transaction: the work may fail, and leaves the durable tables alone; after it
    only the commit, which makes the working copy durable, and a return. *)
Definition settles {A} (m : V A) (D : A -> Vault -> Database -> Prop) : Prop := forall s,
  vwp m (fun a s' => frame s s' /\ D a s (v_db s')) (fun _ s' => kept s s') s.

Section WithValues.
Context {CC : Codecs} {SJ : Serde} {VW : ValueWriter} {RC : RecordCodec}.

(** ** Writing events *)

Definition metadata_text (e : AuditEvent) : option (option string) :=
  if is_some (e_request_context e) || is_some (e_usage e)
  then Some <$> metadata_to_string (mkAuditMetadata (e_request_context e) (e_usage e))
  else Some None.
(** The tables with the event in them. *)
Definition add_event (e : AuditEvent) (d : Database) : option Database :=
  text ← metadata_text e; insert_audit_row (raw_of_event e text) d.
Fixpoint add_events (l : list AuditEvent) (d : Database) : option Database :=
  match l with
  | [] => Some d
  | e :: rest => d ← add_event e d; add_events rest d
  end.
Lemma audit_insert_wp e s :
  vwp (audit_insert e) (fun _ s' => kept s s' /\ add_event e (v_tx s) = Some (v_tx s'))
    (fun err s' => err = Authority.AuditCommitFailed /\ kept s s') s.
Proof.
  assert (Hm : vwp (metadata_of e) (fun m s' => metadata_text e = Some m /\ same s s')
                 (fun err s' => err = Authority.AuditCommitFailed /\ same s s') s).
  { unfold metadata_of, metadata_text. destruct (_ || _); [|by apply vwp_ret].
    apply vwp_bind, vwp_lift; destruct (metadata_to_string _); cbn; intros; simplify_eq; by split. }
  unfold audit_insert. apply vwp_bind. eapply vwp_mono; [exact Hm| |]; cbn.
  - intros m s1 [Em H1]. apply vwp_exec.
    + split; [done|]. etrans; [apply (sm_kept _ _ H1)|apply sm_kept, same_v_ticked].
    + intros t Ht. split; [etrans; [apply (sm_kept _ _ H1)|apply kept_tx]|]. unfold add_event. rewrite Em. cbn.
      by rewrite <- (sm_tx _ _ H1).
  - intros err s1 [-> H1]. auto with vault.
Qed.
Lemma veach_insert_wp f l s :
  (forall e s, vwp (f e) (fun _ s' => kept s s' /\ add_event e (v_tx s) = Some (v_tx s'))
    (fun err s' => err = Authority.AuditCommitFailed /\ kept s s') s) ->
  vwp (veach f l) (fun _ s' => kept s s' /\ add_events l (v_tx s) = Some (v_tx s'))
    (fun err s' => err = Authority.AuditCommitFailed /\ kept s s') s.
Proof.
  intros Hf. revert s. induction l as [|e l IH]; intros s; cbn [veach add_events]; [by apply vwp_ret|].
  apply vwp_bind. eapply vwp_mono; [apply Hf| |done]. cbn. intros _ s1 [H1 E1].
  eapply vwp_mono; [apply IH| |]; cbn.
  - intros _ s2 [H2 E2]. split; [by etrans|]. by rewrite E1.
  - intros err s2 [-> H2]. split; [done|]. by etrans.
Qed.

Lemma append_audit_row_wp e : settles (append_audit_row e) (fun _ s d => is_some (e_usage e) = false /\ add_event e (v_db s) = Some d).
Proof.
  intros s. unfold append_audit_row. apply vwp_bind, vwp_reject; intros Hu; [reflexivity|].
  apply vwp_bind, vwp_begin; [auto with vault|]. apply vwp_bind, vwp_map_err.
  eapply vwp_mono; [apply audit_insert_wp| |]; cbn.
  - intros _ s1 [H1 E1]. apply vwp_commit.
    + etrans; [apply kept_tx|]. etrans; [exact H1|auto with vault].
    + split; [|done]. etrans; [apply (kp_frame _ _ (kept_tx s (v_db s)))|].
      etrans; [apply (kp_frame _ _ H1)|auto with vault].
  - intros err s1 [_ H1]. etrans; [apply kept_tx|exact H1].
Qed.
Lemma append_audit_rows_wp l :
  settles (append_audit_rows l) (fun _ s d => existsb (fun e => is_some (e_usage e)) l = false /\ add_events l (v_db s) = Some d).
Proof.
  intros s. unfold append_audit_rows. apply vwp_bind, vwp_reject; intros Hu; [reflexivity|].
  apply vwp_bind, vwp_begin; [auto with vault|]. apply vwp_bind.
  eapply vwp_mono; [apply veach_insert_wp; intros; apply vwp_map_err; eapply vwp_mono; [apply audit_insert_wp|done|]; cbn; tauto| |]; cbn.
  - intros _ s1 [H1 E1]. apply vwp_commit.
    + etrans; [apply kept_tx|]. etrans; [exact H1|auto with vault].
    + split; [|done]. etrans; [apply (kp_frame _ _ (kept_tx s (v_db s)))|].
      etrans; [apply (kp_frame _ _ H1)|auto with vault].
  - intros err s1 [_ H1]. etrans; [apply kept_tx|exact H1].
Qed.

End WithValues.
End WithHost.
