(* ===== verification/VaultMoves.v ===== *)
(** * VaultMoves: what an operation may do to the vault's tables and anchors

    [quiet], what most operations are: the tables of the vault and its anchors stay,
    and the vault does not open. [steady] and [tidy] are the operations of that kind,
    outside a transaction and in one. A [move] is one of the few things besides: a
    reservation, the commit of an administrative change, and opening. *)

From stdpp Require Import relations.
From S2P Require Import Prelude Strings Bytes Errors Domain Codec SessionState Approval Action FixedAction Decimal Json Signed AuditRecords.
From S2P Require Import VaultModel VaultTables VaultStore Usage VaultRows KeyWrap LifecycleSeals VaultContent VaultWorker Generation AuditLog.
From S2P Require Import VaultUnlock VaultMutations VaultRules.

(** ** Views *)

Definition is_open (s : Vault) : bool := match v_state s with VUnlocked _ => true | _ => false end.
Definition tables (s : Vault) : Tables := vault_tables (v_db s).
(** The generations outside the database. *)
Definition file_mark (g : Guard) : option Z := (fun b => be_value (drop 24 b)) <$> g_file g.
Definition protected_mark (g : Guard) : option Z := v ← g_protected g; v.
Definition marks (g : Guard) : list Z := option_list (file_mark g) ++ option_list (protected_mark g).
(** The generation of the database. *)
Definition db_generation (t : Tables) : option Z := (fun r => be_value (rh_generation r)) <$> vault_header t.

(** ** Operations that leave tables and anchors alone *)

Record same_anchors (g g' : Guard) : Prop := {
  sa_vault : g_vault_id g' = g_vault_id g; sa_file : g_file g' = g_file g; sa_protected : g_protected g' = g_protected g }.
Record quiet (s s' : Vault) : Prop := {
  qt_tables : tables s' = tables s;
  qt_anchors : same_anchors (v_guard s) (v_guard s');
  qt_state : v_state s' = v_state s \/ is_open s' = false;
  qt_id : v_vault_id s' = v_vault_id s;
}.
#[export] Instance same_anchors_preorder : PreOrder same_anchors.
Proof. split; [by split|]. intros g1 g2 g3 [] []. split; congruence. Qed.
Lemma is_open_state s s' : v_state s' = v_state s -> is_open s' = is_open s.
Proof. unfold is_open. by intros ->. Qed.
Lemma closes_trans s1 s2 s3 :
  v_state s2 = v_state s1 \/ is_open s2 = false -> v_state s3 = v_state s2 \/ is_open s3 = false ->
  v_state s3 = v_state s1 \/ is_open s3 = false.
Proof. intros [H1|H1] [H2|H2]; [left; congruence|by right|right; by rewrite (is_open_state _ _ H2)|by right]. Qed.
#[export] Instance quiet_preorder : PreOrder quiet.
Proof.
  split; [intros s; split; [done|reflexivity|by left|done]|]. intros s1 s2 s3 [T1 A1 S1 I1] [T2 A2 S2 I2].
  split; [congruence|by etrans|by eapply closes_trans|congruence].
Qed.
Lemma marks_anchors g g' : same_anchors g g' -> marks g' = marks g.
Proof. intros [_ Hf Hp]. unfold marks, file_mark, protected_mark. by rewrite Hf, Hp. Qed.
Lemma kept_quiet s s' : kept s s' -> quiet s s'.
Proof.
  intros [Hf Hd]. split; [unfold tables; by rewrite Hd|rewrite (fr_guard _ _ Hf); reflexivity|left; apply Hf|by apply fr_id].
Qed.
Lemma frame_quiet s s' : frame s s' -> tables s' = tables s -> quiet s s'.
Proof. intros Hf Ht. split; [done|rewrite (fr_guard _ _ Hf); reflexivity|left; apply Hf|by apply fr_id]. Qed.
Lemma same_quiet s s' : same s s' -> quiet s s'.
Proof. intros Hs. apply kept_quiet, Hs. Qed.

Definition steady {A} (m : V A) : Prop := forall s, vwp m (fun _ s' => quiet s s') (fun _ s' => quiet s s') s.
Lemma steady_step {A} (m : V A) s : steady m -> quiet s (m s).2.
Proof. intros Hm. specialize (Hm s). unfold vwp in Hm. by destruct (m s) as [[a|e] s']. Qed.
Lemma steady_bind {A B} (m : V A) (f : A -> V B) : steady m -> (forall a, steady (f a)) -> steady (x ← m; f x).
Proof.
  intros Hm Hf s. apply vwp_bind. eapply vwp_mono; [apply Hm| |done]. cbn. intros a s' Hs.
  eapply vwp_mono; [apply Hf| |]; cbn; intros; by etrans.
Qed.
Lemma steady_try {A} (m : V A) : steady m -> steady (vtry m).
Proof. intros Hm s. apply vwp_try, Hm. Qed.
Lemma steady_map_err {A} f (m : V A) : steady m -> steady (vmap_err f m).
Proof. intros Hm s. apply vwp_map_err, Hm. Qed.
Lemma steady_worker {A} (m : V A) : worker m -> steady m.
Proof. intros Hm s. eapply vwp_mono; [apply Hm| |]; cbn; intros; by apply kept_quiet. Qed.
Lemma steady_reader {A} (m : V A) : reader m -> steady m.
Proof. intros Hm. by apply steady_worker, vreader_worker. Qed.
Lemma steady_modify f : (forall s, quiet s (f s)) -> steady (vmodify f).
Proof. intros Hf s. apply vwp_modify, Hf. Qed.
Lemma steady_each {A} (f : A -> V unit) l : (forall a, steady (f a)) -> steady (veach f l).
Proof. intros Hf. induction l as [|x l IH]; [apply steady_reader, vreader_ret|]. by apply steady_bind. Qed.
Lemma steady_map {A B} (f : A -> V B) l : (forall a, steady (f a)) -> steady (vmap f l).
Proof.
  intros Hf. induction l as [|x l IH]; [apply steady_reader, vreader_ret|]. cbn [vmap].
  apply steady_bind; [done|]. intros. apply steady_bind; [done|]. intros. apply steady_reader, vreader_ret.
Qed.
Lemma steady_ret {A} (a : A) : steady (mret a).
Proof. apply steady_reader, vreader_ret. Qed.
Lemma steady_fail {A} e : steady (A:=A) (vfail e).
Proof. intros s. apply vwp_fail. reflexivity. Qed.
Lemma steady_lift {A} (r : result AuthorityError A) : steady (vlift r).
Proof. apply steady_reader, vreader_lift. Qed.
Lemma steady_reject b e : steady (vreject b e).
Proof. apply steady_reader, vreader_reject. Qed.
Lemma steady_reads {A} (f : Vault -> A) : steady (vreads f).
Proof. apply steady_reader, vreader_reads. Qed.

(** In a transaction: a work that leaves these tables as [t] in both copies. *)
Definition tidy {A} (m : V A) : Prop := forall t s, tables s = t -> vault_tables (v_tx s) = t ->
  let post s' := vault_tables (v_tx s') = t /\ quiet s s' in vwp m (fun _ s' => post s') (fun _ s' => post s') s.
Lemma tidy_bind {A B} (m : V A) (f : A -> V B) : tidy m -> (forall a, tidy (f a)) -> tidy (x ← m; f x).
Proof.
  intros Hm Hf t s Ht Hx. cbn zeta. apply vwp_bind. eapply vwp_mono; [by apply (Hm t)| |done]. cbn. intros a s' [Hx' Hq].
  eapply vwp_mono; [apply (Hf a t); [rewrite (qt_tables _ _ Hq)|]; done| |]; cbn; intros ? ? [? ?]; (split; [done|by etrans]).
Qed.
Lemma tidy_reader {A} (m : V A) : reader m -> tidy m.
Proof.
  intros Hm t s Ht Hx. eapply vwp_mono; [apply Hm| |]; cbn; intros _ s' Hs; (split; [|by apply same_quiet]);
    by rewrite (sm_tx _ _ Hs).
Qed.
Lemma tidy_map_err {A} f (m : V A) : tidy m -> tidy (vmap_err f m).
Proof. intros Hm t s Ht Hx. apply vwp_map_err, (Hm t); done. Qed.
Lemma tidy_each {A} (f : A -> V unit) l : (forall a, tidy (f a)) -> tidy (veach f l).
Proof. intros Hf. induction l as [|x l IH]; [apply tidy_reader, vreader_ret|]. by apply tidy_bind. Qed.

Section WithHost.
Context {H : Host}.

Lemma tidy_exec e f : (forall d d', f d = Some d' -> vault_tables d' = vault_tables d) -> tidy (exec e f).
Proof.
  intros Hf t s Ht Hx. cbn zeta. apply vwp_exec.
  - split; [done|apply same_quiet, same_v_ticked].
  - intros d Ed. split; [cbn; by rewrite (Hf _ _ Ed)|apply kept_quiet, kept_tx].
Qed.
Lemma tidy_exec_count e f : (forall d d' n, f d = Some (d', n) -> vault_tables d' = vault_tables d) -> tidy (exec_count e f).
Proof.
  intros Hf t s Ht Hx. cbn zeta. apply vwp_exec_count.
  - split; [done|apply same_quiet, same_v_ticked].
  - intros d n Ed. split; [cbn; by rewrite (Hf _ _ _ Ed)|apply kept_quiet, kept_tx].
Qed.
Lemma tidy_commit : tidy commit_audited.
Proof.
  intros t s Ht Hx. cbn zeta. apply vwp_commit; (split; [done|]); [apply same_quiet, same_v_ticked|].
  split; [unfold tables; cbn; by rewrite Hx|reflexivity|by left|done].
Qed.
Lemma steady_tx {A} e (m : V A) : tidy m -> steady (_ ← begin_tx e; m).
Proof.
  intros Hm s. apply vwp_bind, vwp_begin; [apply same_quiet, same_v_ticked|].
  assert (Hq : quiet s (v_ticked (set_v_tx (v_db s) s))) by apply kept_quiet, kept_tx.
  eapply vwp_mono; [apply (Hm (tables s)); done| |]; cbn; intros _ s' [_ Hs]; by etrans.
Qed.
Lemma steady_now : steady now_ms.
Proof. apply steady_reader, vreader_now. Qed.
Lemma steady_instant : steady instant_now.
Proof. apply steady_reader, vreader_instant. Qed.
Lemma steady_random n : steady (random_array n).
Proof. apply steady_reader, vreader_random. Qed.
Lemma steady_current deadline : steady (ensure_current deadline).
Proof. apply steady_reader, vreader_current. Qed.
Lemma steady_select {A} (f : Database -> A) : steady (select f).
Proof. apply steady_reader, vreader_select. Qed.
Lemma steady_select_db {A} (f : Database -> A) : steady (select_db f).
Proof. apply steady_reader, vreader_select_db. Qed.
Lemma steady_forget : steady forget_desktop.
Proof.
  unfold forget_desktop. apply steady_bind; [apply steady_modify; intros s; split; [done|reflexivity|by left|done]|].
  intros _. apply steady_bind.
  - intros s. unfold vwp, remove_desktop_file. destruct (fs_works _); cbn; (split; [done|reflexivity|by left|done]).
  - intros []; [|apply steady_ret]. intros s. unfold vwp, sync_directory. destruct (fs_works _); (split; [done|reflexivity|by left|done]).
Qed.
End WithHost.

#[export] Hint Resolve steady_ret steady_fail steady_lift steady_reject steady_reads steady_now steady_instant steady_random
  steady_current steady_select steady_select_db steady_forget : steady.
(** Through the constructs of the monad, down to the operations of the database. *)
Ltac steady :=
  repeat (first
    [ match goal with |- forall _, _ => intro end | solve [auto 2 with steady nocore]
    | apply steady_bind | apply steady_try | apply steady_map_err | apply steady_each | apply steady_map
    | case_match | progress cbn zeta ]).
#[export] Hint Extern 2 (tidy (mret _)) => apply tidy_reader, vreader_ret : tidy.
#[export] Hint Extern 2 (tidy (vlift _)) => apply tidy_reader, vreader_lift : tidy.
#[export] Hint Extern 2 (tidy (vreject _ _)) => apply tidy_reader, vreader_reject : tidy.
#[export] Hint Extern 2 (tidy (vreads _)) => apply tidy_reader, vreader_reads : tidy.
#[export] Hint Extern 2 (tidy now_ms) => apply tidy_reader, vreader_now : tidy.
#[export] Hint Extern 2 (tidy (random_array _)) => apply tidy_reader, vreader_random : tidy.
#[export] Hint Extern 2 (tidy (ensure_current _)) => apply tidy_reader, vreader_current : tidy.
#[export] Hint Extern 2 (tidy (select _)) => apply tidy_reader, vreader_select : tidy.
#[export] Hint Resolve tidy_commit : tidy.
Ltac tidy :=
  repeat (first
    [ match goal with |- forall _, _ => intro end | solve [auto 2 with tidy nocore] | apply tidy_bind | apply tidy_map_err | apply tidy_each | case_match | progress cbn zeta ]).

(** * The operations that leave the vault's tables and anchors alone

    Auditing, charging, pruning, reading and verifying, refusing a proof, faulting and
    closing: each is [steady], whatever it finds and whatever the host answers. *)

Section WithLibraries.
Context {H : Host} {AH : AnchorHost} {CC : Codecs} {SG : Signatures} {SJ : Serde} {VW : ValueWriter} {RC : RecordCodec}.
Context {AE : Aead} {KD : Kdf} {LC : LeaseCodec} {JS : JsonSchema} {AC : ActionCodec} {UC : UnlockConfig} {MT : Materials} {DC : Documents}.

(** ** The audit and the ledger *)

Lemma insert_row_tables make d d' : insert_audit_row make d = Some d' -> vault_tables d' = vault_tables d.
Proof. unfold insert_audit_row. case_match; [|done]. by intros [= <-]. Qed.
Lemma tidy_insert e : tidy (audit_insert e).
Proof.
  unfold audit_insert, metadata_of. apply tidy_bind; [|intros; apply tidy_exec, insert_row_tables]. tidy.
Qed.
Hint Resolve tidy_insert : tidy.
Lemma tidy_inserts l : tidy (veach audit_insert l).
Proof. tidy. Qed.
Hint Resolve tidy_inserts : tidy.
Lemma tidy_write row insert : tidy (write row insert).
Proof.
  unfold write, one. apply tidy_bind; [|tidy]. apply tidy_exec_count. intros d d' n.
  destruct insert; unfold insert_usage_row, update_usage_row; (case_match; [|done]); by intros [= <- _].
Qed.
Lemma tidy_replace st : tidy (replace_state st).
Proof.
  unfold replace_state, one. apply tidy_bind; [|tidy]. apply tidy_exec_count. intros d d' n. unfold update_state.
  repeat case_match; try done; by intros [= <- _].
Qed.
Lemma vreader_seal key aad plain : reader (aead_seal key aad plain).
Proof. unfold aead_seal. apply vreader_bind; [apply vreader_random|]. intros. apply vreader_bind; intros; [apply vreader_lift|apply vreader_ret]. Qed.
Lemma tidy_verified key vault : tidy (verified key vault).
Proof. unfold verified, load. tidy. Qed.
Lemma tidy_next key vault rows st : tidy (next_state key vault rows st).
Proof.
  unfold next_state, usage_seal. tidy.
Qed.
Lemma tidy_usage_current not_after wall : tidy (current not_after wall).
Proof. unfold current. apply tidy_bind; [apply tidy_reader, vreader_instant|]. tidy. Qed.
Lemma tidy_map {A B} (f : A -> V B) l : (forall a, tidy (f a)) -> tidy (vmap f l).
Proof.
  intros Hf. induction l as [|x l IH]; cbn [vmap]; [by auto with tidy|].
  apply tidy_bind; [done|]. intros. apply tidy_bind; [done|]. by auto with tidy.
Qed.
Hint Resolve tidy_write tidy_replace tidy_verified tidy_next tidy_usage_current : tidy.

Lemma steady_append_row e : steady (append_audit_row e).
Proof. unfold append_audit_row. apply steady_bind; [steady|]. intros _. apply steady_tx. tidy. Qed.
Lemma steady_append_rows l : steady (append_audit_rows l).
Proof. unfold append_audit_rows. apply steady_bind; [steady|]. intros _. apply steady_tx. tidy. Qed.
Lemma steady_local e na wall : steady (append_local_approval_audit e na wall).
Proof. unfold append_local_approval_audit. apply steady_tx. tidy. Qed.
Lemma steady_begin_execution key vault row usage events na wall :
  steady (begin_profile_execution key vault row usage events na wall).
Proof.
  unfold begin_profile_execution. apply steady_bind; [|intros _; apply steady_tx; tidy].
  unfold current. steady.
Qed.
Lemma steady_settle key vault request measured event : steady (settle_profile_execution key vault request measured event).
Proof. unfold settle_profile_execution. apply steady_tx. tidy. Qed.
Lemma steady_recover key vault : steady (recover_profile_usage key vault).
Proof.
  unfold recover_profile_usage. apply steady_tx. tidy. apply tidy_map. unfold recover_row. tidy.
Qed.
Lemma steady_verified_usage key vault : steady (verified_usage key vault).
Proof. unfold verified_usage. apply steady_tx. tidy. Qed.
Lemma tidy_group_rows before na rows groups : tidy (group_rows before na rows groups).
Proof. revert groups. induction rows as [|r rows IH]; intros groups; cbn [group_rows]; tidy. Qed.
Lemma tidy_delete_group na g : tidy (delete_group na g).
Proof.
  unfold delete_group, delete_sequence, one. tidy. apply tidy_exec_count. intros d d' n. by intros [= <- _].
Qed.
Hint Resolve tidy_group_rows tidy_delete_group : tidy.
Lemma steady_prune request marker na : steady (audit_prune request marker na).
Proof. unfold audit_prune. apply steady_tx. tidy. Qed.
Hint Resolve steady_append_row steady_append_rows steady_local steady_begin_execution steady_settle steady_recover
  steady_verified_usage steady_prune : steady.

(** ** Faults *)

Lemma steady_fault reason : steady (fault reason).
Proof.
  unfold fault. do 2 (apply steady_bind; [apply steady_modify; intros s; split; [done|reflexivity|by (left + right)|done]|intros _]).
  steady.
Qed.
Lemma fault_closes reason s : is_open (fault reason s).2 = false.
Proof.
  unfold fault, mbind, V_bind, vmodify. cbn zeta beta.
  set (s0 := set_v_state VFaulted _).
  match goal with |- is_open (snd (match ?m s0 with _ => _ end)) = _ => idtac | |- _ => idtac end.
  assert (Ho : is_open s0 = false) by done. clearbody s0.
  match goal with |- is_open (snd ?x) = _ =>
    let f := eval pattern s0 in x in match f with ?m s0 => assert (Hm : steady m); [|pose proof (steady_step m s0 Hm) as Hq] end end.
  - steady.
  - destruct (qt_state _ _ Hq) as [E|E]; [|done]. by rewrite <- Ho; apply is_open_state.
Qed.
Hint Resolve steady_fault : steady.
Lemma steady_fault_on {A} e reason (m : V A) : steady m -> steady (fault_on e reason m).
Proof. intros Hm. unfold fault_on. apply steady_bind; [by apply steady_try|]. steady. Qed.
Lemma steady_or_fault {A} reason (m : V A) : steady m -> steady (or_fault reason m).
Proof. intros Hm. unfold or_fault. apply steady_bind; [by apply steady_try|]. steady. Qed.
(** A success passes through; a failure may have closed the vault. *)
Lemma vwp_fault_on {A} e reason (m : V A) (Q : A -> Vault -> Prop) s0 s :
  vwp m Q (fun _ s' => quiet s0 s') s -> vwp (fault_on e reason m) Q (fun _ s' => quiet s0 s') s.
Proof.
  unfold vwp, fault_on, mbind, V_bind, vtry, vreads, vlift. destruct (m s) as [[a|err] s1]; cbn; [done|]. intros Hs.
  destruct (_ && _); cbn; [|done]. pose proof (steady_step (fault reason) s1 (steady_fault reason)) as Hf.
  destruct (fault reason s1) as [[[]|] s2]; cbn in *; by etrans.
Qed.
Lemma vwp_or_fault {A} reason (m : V A) (Q : A -> Vault -> Prop) s0 s :
  vwp m Q (fun _ s' => quiet s0 s') s -> vwp (or_fault reason m) Q (fun _ s' => quiet s0 s') s.
Proof.
  unfold or_fault, vwp, vtry, mbind, V_bind. destruct (m s) as [[a|err] s1]; cbn; [done|]. intros Hs.
  pose proof (steady_step (fault reason) s1 (steady_fault reason)) as Hf.
  destruct (fault reason s1) as [[[]|] s2]; cbn in *; by etrans.
Qed.
(** A steady operation in a sequence. *)
Lemma vwp_quiet {A B} (m : V A) (f : A -> V B) (Q : B -> Vault -> Prop) s0 s :
  steady m -> quiet s0 s -> (forall a s', quiet s0 s' -> vwp (f a) Q (fun _ s' => quiet s0 s') s') ->
  vwp (x ← m; f x) Q (fun _ s' => quiet s0 s') s.
Proof.
  intros Hm Hs Hf. apply vwp_bind. eapply vwp_mono; [apply Hm| |]; cbn; intros; [apply Hf|]; by etrans.
Qed.
Lemma steady_unlocked : steady require_unlocked.
Proof. apply steady_reader. intros s. unfold vwp, require_unlocked. destruct (v_state s); reflexivity. Qed.
Lemma steady_key : steady vault_key.
Proof. apply steady_reader. intros s. unfold vwp, vault_key. destruct (v_state s); reflexivity. Qed.
Hint Resolve steady_unlocked steady_key : steady.
Lemma steady_event_at draft now : steady (audit_event_at draft now).
Proof. unfold audit_event_at. steady. Qed.
Hint Resolve steady_event_at : steady.
Lemma steady_event draft : steady (audit_event_or_fault draft).
Proof. unfold audit_event_or_fault, domain. steady. Qed.
Hint Resolve steady_event : steady.
Lemma steady_append draft : steady (append_audit draft).
Proof. unfold append_audit. steady. Qed.
Lemma steady_appends drafts : steady (append_audits drafts).
Proof. unfold append_audits. steady. Qed.
Hint Resolve steady_append steady_appends : steady.

(** ** The worker's commands on audit and ledger *)

Lemma steady_begin usage preceding started na wall : steady (begin_execution usage preceding started na wall).
Proof. unfold begin_execution, domain, fault_on_audit_failure, fault_on_integrity. steady. Qed.
Lemma steady_settle_execution request measured terminal : steady (settle_execution request measured terminal).
Proof. unfold settle_execution, fault_on_audit_failure, fault_on_integrity. steady. Qed.
Lemma steady_query principal instance day : steady (query_usage principal instance day).
Proof. unfold query_usage, domain, fault_on_integrity, profile_usage_totals. steady. Qed.
Lemma steady_approval kind draft na wall : steady (authorize_verified_approval kind draft na wall).
Proof. unfold authorize_verified_approval, fault_on_audit_failure. steady. Qed.
Lemma steady_prune_verified request na : steady (prune_verified request na).
Proof. unfold prune_verified, domain, fault_on_audit_failure, fault_on_integrity. steady. Qed.
Lemma steady_answer q : steady (answer_query q).
Proof. unfold answer_query, audit_query, domain, fault_on_integrity. steady. Qed.

(** ** Reading and verifying *)

Lemma steady_query_db {A} e (f : Tables -> result AuthorityError A) : steady (query_db e f).
Proof. unfold query_db. steady. Qed.
Lemma steady_query_tx {A} e (f : Tables -> result AuthorityError A) : steady (query_tx e f).
Proof. unfold query_tx. steady. Qed.
Hint Resolve steady_query_db steady_query_tx : steady.
Lemma steady_set tx expected : steady (verified_set tx expected).
Proof. unfold verified_set, pki_records, crl_records, all_actions, query. steady. Qed.
Hint Resolve steady_set : steady.
Lemma steady_certificates header : steady (verified_certificates header).
Proof. unfold verified_certificates. steady. Qed.
Lemma steady_material key vault : steady (verified_policy_material key vault).
Proof. unfold verified_policy_material, check_some. steady. Qed.
Lemma steady_retention key vault : steady (verified_audit_retention key vault).
Proof. unfold verified_audit_retention, load_audit_retention. steady. Qed.
Lemma steady_journal root vault : steady (verify_journal root vault).
Proof. unfold verify_journal, foreign_key_check, latest_lease_audit_id, historical. steady. Qed.
Hint Resolve steady_certificates steady_material steady_retention steady_journal : steady.
Lemma steady_policy_material : steady policy_material.
Proof. unfold policy_material. steady. Qed.
Lemma steady_retention_record : steady retention_record.
Proof. unfold retention_record. steady. Qed.
Hint Resolve steady_policy_material steady_retention_record : steady.
Lemma steady_observe : steady observe.
Proof.
  unfold observe, read_file, protected_read. steady.
  - intros s. unfold vwp, fs_step. destruct (fs_works _); apply same_quiet, same_v_ticked.
  - intros s. unfold vwp, validate_file. destruct (file_is_ours _); apply same_quiet, same_v_ticked.
  - intros s. unfold vwp, fs_step. destruct (fs_works _); apply same_quiet, same_v_ticked.
  - intros s. unfold vwp, fs_step. destruct (fs_works _); apply same_quiet, same_v_ticked.
Qed.
Hint Resolve steady_observe : steady.
Lemma steady_suspect h o : steady (suspect_rollback h o).
Proof. unfold suspect_rollback. steady. apply steady_modify. intros s. split; [done|reflexivity|by right|done]. Qed.
Hint Resolve steady_suspect : steady.
Lemma steady_check_generation h : steady (check_generation h).
Proof. unfold check_generation. steady. Qed.
Hint Resolve steady_check_generation : steady.
Lemma steady_mutation_observation : steady mutation_observation.
Proof. unfold mutation_observation. steady. Qed.
Hint Resolve steady_mutation_observation : steady.

(** ** Proofs, closing *)

Lemma steady_clear : steady clear_failures.
Proof. unfold clear_failures. steady; apply steady_modify; intros s; (split; [done|by split|by left|done]). Qed.
Lemma steady_advance : steady advance_unlock_backoff.
Proof.
  unfold advance_unlock_backoff. steady; apply steady_modify; intros s0; (split; [done|by split|by left|done]).
Qed.
Hint Resolve steady_clear steady_advance : steady.
Lemma steady_unwrap kind secret : steady (unwrap_with kind secret).
Proof. unfold unwrap_with, active_wrapper. steady. Qed.
Hint Resolve steady_unwrap : steady.
Lemma steady_proof proof : steady (verify_proof proof).
Proof.
  unfold verify_proof, rate_limit, verify_proof_inner, verify_secret, verify_presence, record_unlock_failure, invalid_proof. steady.
Qed.
Hint Resolve steady_proof : steady.
Lemma steady_shutdown proof : steady (verify_shutdown_proof proof).
Proof. unfold verify_shutdown_proof, rate_limit, record_unlock_failure, active_wrapper. steady. Qed.
Lemma steady_lock reason preserve : steady (set_locked reason preserve).
Proof.
  unfold set_locked. steady; apply steady_modify; intros s0; (split; [done|reflexivity| |done]); by (left + right).
Qed.
Lemma steady_step_up event proof : steady (step_up event proof).
Proof. unfold step_up. steady. Qed.
(** What a query answers. *)
Lemma query_wp {A} e (f : Tables -> result AuthorityError A) s :
  vwp (query_db e f) (fun a s' => same s s' /\ f (tables s) = Ok a) (fun _ s' => same s s') s.
Proof.
  unfold query_db. apply vwp_bind, vwp_map_err, vwp_select_db; [auto with vault|]. apply vwp_lift; intros; [|auto with vault].
  by auto with vault.
Qed.
Lemma query_quiet {A} e (f : Tables -> result AuthorityError A) s0 s : quiet s0 s ->
  vwp (query_db e f) (fun a s' => quiet s0 s' /\ f (tables s0) = Ok a) (fun _ s' => quiet s0 s') s.
Proof.
  intros Hq. eapply vwp_mono; [apply query_wp| |]; cbn.
  - intros a s' [Hs Hf]. rewrite (qt_tables _ _ Hq) in Hf. split; [|done]. etrans; [done|by apply same_quiet].
  - intros _ s' Hs. etrans; [done|by apply same_quiet].
Qed.
(** The credential of an id, in tables whose versions agree. *)
Record loaded (t : Tables) (id : CredentialId) (r : CredentialRecord) : Prop := {
  ld_consistent : versions_consistent t = true;
  ld_row : exists raw, find_first (fun c => bool_decide (rc_credential_id c = id_as_bytes id)) (credentials t) = Some raw /\
    credential_of_raw raw = Ok r;
  ld_seal : exists key vault, verify_credential key vault r = Ok tt;
}.
Lemma load_credential_wp id s :
  vwp (load_verified_credential id) (fun r s' => quiet s s' /\ loaded (tables s) id r) (fun _ s' => quiet s s') s.
Proof.
  unfold load_verified_credential. apply vwp_fault_on.
  apply vwp_quiet; [by auto with steady|reflexivity|]. intros _ s1 H1. apply vwp_bind.
  eapply vwp_mono; [by apply query_quiet| |done]. cbn. intros [] s2 [H2 E2]. destruct (versions_consistent (tables s)) eqn:Ec; [|done].
  apply vwp_bind. eapply vwp_mono; [by apply query_quiet| |done]. cbn. intros r s3 [H3 E3].
  destruct (find_first _ _) as [raw|] eqn:Er; [cbn in E3|done].
  apply vwp_quiet; [by auto with steady|done|]. intros key s4 H4. apply vwp_bind, vwp_reads, vwp_bind, vwp_lift; [intros [] Ev|done].
  apply vwp_ret. split; [done|]. split; [done| |eauto]. exists raw. split; [done|]. unfold integrity, map_err in E3.
  by destruct (credential_of_raw raw).
Qed.
Lemma id_of_blob_bytes b u : Forall is_byte b -> id_of_blob b = Ok u -> id_as_bytes u = b.
Proof.
  intros Hb. unfold id_of_blob, blob. case_bool_decide as Hl; cbn; [|done]. unfold id_from_bytes.
  destruct (be_value b =? 0); cbn; [done|]. intros [= <-]. change (be_bytes 16 (be_value b) = b). rewrite <- Hl. by apply be_bytes_value.
Qed.
Lemma loaded_id t id r : loaded t id r -> id_as_bytes (cr_credential_id r) = id_as_bytes id.
Proof.
  intros [_ (raw & Hf & Hr) _]. apply find_first_Some in Hf as [_ Hp]. apply bool_decide_eq_true in Hp.
  unfold credential_of_raw in Hr. rewrite Hp in Hr. destruct (id_of_blob (id_as_bytes id)) as [u|] eqn:Eu; [|done].
  apply id_of_blob_bytes in Eu; [|apply be_bytes_is_byte]. cbn in Hr. bind_inv Hr. by subst r.
Qed.
Lemma steady_load_credential id : steady (load_verified_credential id).
Proof. unfold load_verified_credential. steady. Qed.
Hint Resolve steady_load_credential steady_step_up : steady.
Lemma steady_prepare id allow : steady (prepare_credential_inner id allow).
Proof. unfold prepare_credential_inner, decrypt_credential_payload, get_version. steady. Qed.
Lemma steady_maintenance na : steady (audit_retention_maintenance na).
Proof.
  unfold audit_retention_maintenance, retention_maintenance_at, observe_retention_clock. steady.
  apply steady_modify. intros s0. split; [done|reflexivity|by left|done].
Qed.
Lemma steady_observe_clock at_ms now : steady (observe_retention_clock at_ms now).
Proof. unfold observe_retention_clock. steady. apply steady_modify. intros s0. split; [done|reflexivity|by left|done]. Qed.
Lemma steady_authenticate h proof : steady (authenticate_restore h proof).
Proof.
  unfold authenticate_restore, active_wrapper, prove_all_credential_states, prove_all_payloads, list_all_versions,
    list_credentials, all_actions, query, snapshot_cut. steady.
Qed.
Lemma steady_verify_content vrk h : steady (verify_content vrk h).
Proof. unfold verify_content. steady. Qed.
Lemma steady_verify_ledger recover vrk vault : steady (verify_ledger recover vrk vault).
Proof. unfold verify_ledger. steady. Qed.

End WithLibraries.

#[export] Hint Resolve steady_append_row steady_append_rows steady_local steady_begin_execution steady_settle steady_recover
  steady_verified_usage steady_prune steady_fault steady_unlocked steady_key steady_event_at steady_event steady_append
  steady_appends steady_begin steady_settle_execution steady_query steady_approval steady_prune_verified steady_answer : steady.
#[export] Hint Extern 1 (steady (fault_on _ _ _)) => apply steady_fault_on; steady : steady.
#[export] Hint Extern 1 (steady (fault_on_integrity _)) => apply steady_fault_on; steady : steady.
#[export] Hint Extern 1 (steady (fault_on_audit_failure _)) => apply steady_fault_on; steady : steady.
#[export] Hint Extern 1 (steady (or_fault _ _)) => apply steady_or_fault; steady : steady.
#[export] Hint Resolve tidy_insert : tidy.
#[export] Hint Resolve steady_query_db steady_query_tx steady_set steady_certificates steady_material steady_retention
  steady_journal steady_policy_material steady_retention_record steady_observe steady_suspect steady_check_generation
  steady_mutation_observation steady_clear steady_advance steady_unwrap steady_proof steady_shutdown steady_lock
  steady_step_up steady_load_credential steady_prepare steady_maintenance steady_observe_clock steady_authenticate
  steady_verify_content steady_verify_ledger : steady.
