(* ===== verification/VaultCommit.v ===== *)
(** * VaultCommit: reserving a generation, and committing under it

    The exact effect of the anchors' operations and of [commit_with]: a reservation
    exceeds every mark there is, a commit carries the reserved generation, and a
    failure after the reservation leaves the higher marks. *)

From S2P Require Import Prelude Strings Bytes Errors Domain Codec SessionState Approval Action FixedAction Decimal Json Signed AuditRecords.
From S2P Require Import VaultModel VaultTables VaultStore Usage VaultRows KeyWrap LifecycleSeals VaultContent VaultWorker Generation AuditLog.
From S2P Require Import VaultUnlock VaultMutations VaultRules VaultMoves.

#[local] Arguments be_bytes : simpl never.
#[local] Arguments be_value : simpl never.

(** The generation as eight bytes hold it. *)
Lemma be_value_at_least n : n <= u64_max -> n <= be_value (be_bytes 8 n).
Proof.
  intros Hn. destruct (Z.leb_spec 0 n) as [Hp|Hp].
  - rewrite be_value_bytes; [lia|]. unfold u64_max in Hn. cbn. lia.
  - pose proof (be_value_range (be_bytes 8 n) (be_bytes_is_byte 8 n)). lia.
Qed.

Section WithLibraries.
Context {H : Host} {AH : AnchorHost} {CC : Codecs} {SG : Signatures} {SJ : Serde} {VW : ValueWriter} {RC : RecordCodec}.
Context {AE : Aead} {KD : Kdf} {LC : LeaseCodec}.

(** ** Observing *)

Lemma vreader_fs : reader fs_step.
Proof. intros s. unfold vwp, fs_step. destruct (fs_works _); apply same_v_ticked. Qed.
Lemma vreader_validate : reader validate_file.
Proof. intros s. unfold vwp, validate_file. destruct (file_is_ours _); apply same_v_ticked. Qed.
Lemma vreader_lock : reader anchor_lock.
Proof. intros s. unfold vwp, anchor_lock. destruct (lock_answers _); apply same_v_ticked. Qed.
Record observed_of (g : Guard) (o : AnchorObservation) : Prop := {
  ob_file : ao_file o = file_mark g;
  ob_protected : ao_protected o = protected_mark g;
  ob_required : ao_protected_required o = is_some (g_protected g);
}.
Lemma seen_marks g o : observed_of g o -> seen o = marks g.
Proof. intros [Hf Hp _]. unfold seen, marks. by rewrite Hf, Hp. Qed.
Lemma anchor_decode_value vault bytes n : anchor_decode vault bytes = Ok n -> n = be_value (drop 24 bytes).
Proof. unfold anchor_decode. repeat (case_match; [done|]). by intros [= <-]. Qed.
Lemma read_file_wp s :
  vwp read_file (fun o s' => same s s' /\ o = file_mark (v_guard s)) (fun _ s' => same s s') s.
Proof.
  unfold read_file. apply vwp_read; [apply vreader_fs|done|]. intros _ s1 H1. apply vwp_bind, vwp_reads, vwp_bind, vwp_reads.
  assert (Eg : v_guard s1 = v_guard s) by apply (fr_guard _ _ (kp_frame _ _ (sm_kept _ _ H1))). rewrite Eg. unfold file_mark.
  destruct (g_file (v_guard s)) as [bytes|]; [|by apply vwp_ret]. cbn.
  apply vwp_read; [apply vreader_validate|intros; by etrans|]. intros _ s2 H2.
  apply vwp_read; [apply vreader_fs|intros; etrans; [exact H1|by etrans]|]. intros _ s3 H3.
  assert (H3' : same s s3) by (etrans; [exact H1|by etrans]).
  apply vwp_bind, vwp_lift; [intros n En|by intros]. apply vwp_ret. split; [done|]. f_equal. by eapply anchor_decode_value.
Qed.
Lemma observe_wp s : vwp observe (fun o s' => same s s' /\ observed_of (v_guard s) o) (fun _ s' => same s s') s.
Proof.
  unfold observe. apply vwp_bind. eapply vwp_mono; [apply read_file_wp| |done]. cbn. intros file s1 [H1 ->].
  assert (Hg : forall s', same s s' -> v_guard s' = v_guard s) by (intros s' Hs; apply (fr_guard _ _ (kp_frame _ _ (sm_kept _ _ Hs)))).
  apply vwp_bind. unfold protected_read. apply vwp_bind, vwp_reads. rewrite (Hg _ H1).
  destruct (g_protected (v_guard s)) as [v|] eqn:Ep.
  - apply vwp_read; [apply vreader_fs|intros; by etrans|]. intros _ s2 H2. assert (H2' : same s s2) by by etrans.
    apply vwp_bind, vwp_reject; intros _; [done|]. apply vwp_ret, vwp_bind, vwp_reads, vwp_ret. split; [done|].
    rewrite (Hg _ H2'), Ep. split; cbn; [done| |by rewrite Ep]. unfold protected_mark. by rewrite Ep.
  - apply vwp_ret, vwp_bind, vwp_reads, vwp_ret. split; [done|]. rewrite (Hg _ H1), Ep.
    split; cbn; [done| |by rewrite Ep]. unfold protected_mark. by rewrite Ep.
Qed.

(** ** Reserving *)

(** The guard with the protected item advanced, and with the file too. *)
Definition advance_protected (n : Z) (g : Guard) : Guard :=
  match g_protected g with None => g | Some _ => set_g_protected (Some (Some n)) g end.
Definition advance_guard (n : Z) (g : Guard) : Guard :=
  set_g_file (Some (anchor_bytes (g_vault_id g) n)) (advance_protected n g).
(** What a reservation of [n] may leave, when it fails on its way. *)
Definition raised (n : Z) (g g' : Guard) : Prop := g' = g \/ g' = advance_protected n g \/ g' = advance_guard n g.
(** Everything but the guard. *)
Record aside (s s' : Vault) : Prop := {
  as_db : v_db s' = v_db s; as_tx : v_tx s' = v_tx s; as_state : v_state s' = v_state s; as_header : v_header s' = v_header s;
  as_presence : v_presence s' = v_presence s; as_desktop : v_desktop s' = v_desktop s;
  as_clock : v_retention_clock s' = v_retention_clock s; as_tick : (v_tick s <= v_tick s')%nat }.
#[export] Instance aside_preorder : PreOrder aside.
Proof. split; [by split|]. intros s1 s2 s3 [] []. split; congruence || lia. Qed.
Lemma same_aside s s' : same s s' -> aside s s' /\ v_guard s' = v_guard s.
Proof. intros [[[] ?] ?]. by split. Qed.
Lemma aside_same s s' : aside s s' -> v_guard s' = v_guard s -> same s s'.
Proof. by intros [] ?. Qed.

Lemma file_mark_anchor vault n g : file_mark (set_g_file (Some (anchor_bytes vault n)) g) = Some (be_value (be_bytes 8 n)).
Proof.
  reflexivity.
Qed.
Lemma advance_guard_marks n g m :
  m ∈ marks (advance_guard n g) <-> m = be_value (be_bytes 8 n) \/ (m = n /\ is_some (g_protected g) = true).
Proof.
  unfold marks, advance_guard. rewrite file_mark_anchor. unfold protected_mark, advance_protected, option_list. cbn.
  destruct (g_protected g) as [v|] eqn:Ep; cbn; rewrite ?Ep; cbn; rewrite !elem_of_cons, ?elem_of_nil; intuition congruence.
Qed.
Lemma advance_protected_marks n g m :
  m ∈ marks (advance_protected n g) <->
  m ∈ option_list (file_mark g) \/ (if g_protected g is Some _ then m = n else m ∈ option_list (protected_mark g)).
Proof.
  unfold advance_protected. destruct (g_protected g) as [v|] eqn:Ep; unfold marks; rewrite elem_of_app; [|done].
  unfold protected_mark. cbn. rewrite elem_of_cons, elem_of_nil. intuition.
Qed.
(** No mark goes down. *)
Lemma raised_up n g g' m : n <= u64_max -> Forall (fun m => m < n) (marks g) -> raised n g g' -> m ∈ marks g ->
  exists m', m' ∈ marks g' /\ m <= m'.
Proof.
  intros Hn Hf Hr Hm. rewrite Forall_forall in Hf. pose proof (Hf _ Hm). pose proof (be_value_at_least n Hn).
  destruct Hr as [->|[->| ->]]; [by exists m| |].
  - setoid_rewrite advance_protected_marks. unfold marks in Hm. rewrite elem_of_app in Hm.
    destruct Hm as [Hm|Hm]; [exists m; split; [by left|done]|]. destruct (g_protected g) as [v|] eqn:Ep.
    + exists n. split; [by right|lia].
    + exists m. split; [by right|done].
  - exists (be_value (be_bytes 8 n)). rewrite advance_guard_marks. split; [by left|lia].
Qed.
Lemma protected_advance_wp expected n s :
  let post s' := aside s s' /\ (v_guard s' = v_guard s \/ v_guard s' = advance_protected n (v_guard s)) in
  vwp (protected_advance expected n) (fun _ s' => aside s s' /\ v_guard s' = advance_protected n (v_guard s)) (fun _ => post) s.
Proof.
  cbn zeta. unfold protected_advance. apply vwp_bind, vwp_reads. unfold advance_protected.
  destruct (g_protected (v_guard s)) as [v|] eqn:Ep; [|by apply vwp_ret].
  apply vwp_read; [apply vreader_fs|intros e s' []%same_aside; auto|]. intros _ s1 [H1 E1]%same_aside.
  apply vwp_bind, vwp_reject; intros _; [auto|]. apply vwp_bind, vwp_modify.
  assert (H2 : aside s (set_protected n s1) /\ v_guard (set_protected n s1) = set_g_protected (Some (Some n)) (v_guard s)).
  { split; [destruct H1; by split|]. cbn. by rewrite E1. }
  destruct H2 as [H2 E2]. eapply vwp_mono; [apply vreader_fs| |]; cbn; intros _ s' [H3 E3]%same_aside; rewrite E3, E2;
    (split; [by etrans|auto]).
Qed.
Lemma write_anchor_aside n s : aside s (write_anchor n s) /\
  v_guard (write_anchor n s) = set_g_file (Some (anchor_bytes (g_vault_id (v_guard s)) n)) (v_guard s).
Proof. done. Qed.
Lemma install_file_wp n missing s :
  let full := set_g_file (Some (anchor_bytes (g_vault_id (v_guard s)) n)) (v_guard s) in
  vwp (install_file n missing) (fun _ s' => aside s s' /\ v_guard s' = full)
    (fun _ s' => aside s s' /\ (v_guard s' = v_guard s \/ v_guard s' = full)) s.
Proof.
  cbn zeta. unfold install_file. set (full := set_g_file _ _).
  assert (He : forall s', same s s' -> aside s s' /\ (v_guard s' = v_guard s \/ v_guard s' = full)) by (intros s' []%same_aside; auto).
  apply vwp_read; [apply vreader_random|by auto|]. intros _ s1 H1.
  apply vwp_read; [apply vreader_fs|intros; apply He; by etrans|]. intros _ s2 H2.
  apply vwp_read; [apply vreader_fs|intros; apply He; etrans; [exact H1|by etrans]|]. intros _ s3 H3.
  assert (H3' : same s s3) by (etrans; [exact H1|by etrans]). clear H1 H2 H3.
  apply vwp_bind. eapply (vwp_mono _ (fun _ s' => aside s s' /\ v_guard s' = full) _
    (fun _ s' => aside s s' /\ (v_guard s' = v_guard s \/ v_guard s' = full))); [|intros _ s4 [Hs Eg]|done].
  - assert (Hw : forall s', same s s' -> aside s (write_anchor n s') /\ v_guard (write_anchor n s') = full).
    { intros s' [Hs Eg]%same_aside. split; [etrans; [exact Hs|apply write_anchor_aside]|]. cbn. by rewrite Eg. }
    destruct missing.
    + apply vwp_read; [apply vreader_fs|intros; apply He; by etrans|]. intros _ s4 H4. assert (H4' : same s s4) by by etrans.
      apply vwp_bind, vwp_reads, vwp_bind, vwp_reject; intros _; [by apply He|]. apply vwp_bind, vwp_modify.
      destruct (Hw _ H4') as [Hs Eg]. eapply vwp_mono; [apply vreader_fs| |]; cbn; intros _ s' [H5 E5]%same_aside;
        rewrite E5, Eg; (split; [by etrans|auto]).
    + apply vwp_read; [apply vreader_fs|intros; apply He; by etrans|]. intros _ s4 H4. apply vwp_modify, Hw. by etrans.
  - eapply vwp_mono; [apply vreader_fs| |]; cbn; intros _ s' [H5 E5]%same_aside;
      rewrite E5, Eg; (split; [by etrans|auto]).
Qed.
Lemma anchor_advance_wp o n s :
  vwp (anchor_advance o n) (fun _ s' => aside s s' /\ v_guard s' = advance_guard n (v_guard s))
    (fun _ s' => aside s s' /\ raised n (v_guard s) (v_guard s')) s.
Proof.
  unfold anchor_advance. apply vwp_bind. eapply vwp_mono; [apply protected_advance_wp| |]; cbn.
  - intros _ s1 [H1 E1]. assert (Ei : g_vault_id (v_guard s1) = g_vault_id (v_guard s)).
    { rewrite E1. unfold advance_protected. by destruct (g_protected (v_guard s)). }
    eapply vwp_mono; [apply install_file_wp| |]; cbn; rewrite Ei, E1.
    + intros _ s2 [H2 E2]. split; [by etrans|done].
    + intros _ s2 [H2 E2]. split; [by etrans|]. unfold raised, advance_guard. tauto.
  - intros _ s1 [H1 E1]. split; [done|]. unfold raised. tauto.
Qed.
(** An error before the flag is set changes nothing; after it, the marks were all
    below [n]. *)
Lemma reserve_wp expected n s :
  vwp (reserve expected n) (fun out s' => aside s s' /\
    match out with
    | (Ok _, b) => b = true /\ Forall (fun m => m < n) (marks (v_guard s)) /\ v_guard s' = advance_guard n (v_guard s)
    | (Err _, true) => Forall (fun m => m < n) (marks (v_guard s)) /\ raised n (v_guard s) (v_guard s')
    | (Err _, false) => v_guard s' = v_guard s
    end) (fun _ _ => False) s.
Proof.
  unfold reserve, reserving. apply vwp_bind, vwp_try. set (checks := (_ ← anchor_lock; _)).
  assert (Hc : vwp checks (fun _ s' => same s s' /\ Forall (fun m => m < n) (marks (v_guard s))) (fun _ s' => same s s') s).
  { unfold checks. apply vwp_read; [apply vreader_lock|done|]. intros _ s1 H1. apply vwp_bind.
    eapply vwp_mono; [apply observe_wp| |]; cbn; [|intros; by etrans]. intros o s2 [H2 Ho].
    assert (H2' : same s s2) by by etrans. apply vwp_reject; intros Hr; [done|]. split; [done|]. reflect_bools.
    rewrite <- (proj2 (same_aside _ _ H1)), <- (seen_marks _ _ Ho), Forall_forall. intros m Hm.
    destruct (Z.ltb_spec m n) as [?|Hle]; [done|]. exfalso. enough (existsb (fun s => n <=? s) (seen o) = true) by congruence.
    apply existsb_exists. exists m. split; [by apply list_elem_of_In|by apply Z.leb_le]. }
  clearbody checks. eapply vwp_mono; [exact Hc| |]; cbn.
  - intros _ s1 [[H1 E1]%same_aside Hf]. apply vwp_bind, vwp_try. eapply vwp_mono; [apply anchor_advance_wp| |]; cbn; rewrite E1.
    + intros [] s2 [H2 E2]. split; [by etrans|done].
    + intros e s2 [H2 E2]. split; [by etrans|done].
  - intros e s1 [H1 E1]%same_aside. done.
Qed.

(** ** Committing *)

Lemma vreader_map_err {A} f (m : V A) : reader m -> reader (vmap_err f m).
Proof. intros Hm s. apply vwp_map_err, Hm. Qed.
Lemma vreader_query {A} tx e (f : Tables -> result AuthorityError A) : reader (query tx e f).
Proof.
  unfold query, query_tx, query_db. destruct tx; apply vreader_bind; intros; try apply vreader_lift; apply vreader_map_err.
  - apply vreader_select.
  - apply vreader_select_db.
Qed.
Lemma vreader_set tx expected : reader (verified_set tx expected).
Proof.
  unfold verified_set, pki_records, crl_records, all_actions.
  repeat (apply vreader_bind; [apply vreader_query|intros]). apply vreader_bind; intros; [apply vreader_reject|apply vreader_ret].
Qed.
Lemma vreader_deadline a : reader (check_deadline a).
Proof.
  unfold check_deadline. apply vreader_bind; [apply vreader_current|]. intros _. destruct (at_wall_not_after_ms a); [|apply vreader_ret].
  apply vreader_bind; intros; [apply vreader_now|apply vreader_reject].
Qed.
(** What the UPDATE of the header makes of a database. *)
Definition with_header (a : GenerationAttempt) (r : RawHeader) (d : Database) : Database :=
  set_tables (fun _ => set_header (Some (advanced_header a r)) (vault_tables d)) d.
Definition prior_header (a : GenerationAttempt) (d : Database) (r : RawHeader) : Prop :=
  vault_header (vault_tables d) = Some r /\
  header_matches a (at_prior_generation a) (at_prior_mac a) (at_prior_pki_digest a) r = true.
Lemma prepare_wp a s :
  vwp (prepare_generation a) (fun _ s' => kept s s' /\ exists r, prior_header a (v_tx s) r /\ v_tx s' = with_header a r (v_tx s))
    (fun _ s' => kept s s') s.
Proof.
  unfold prepare_generation. apply vwp_bind. unfold write_tables. apply vwp_exec_count; [auto with vault|]. intros d n Ed.
  set (s1 := v_ticked (set_v_tx d s)). assert (H1 : kept s s1) by apply kept_tx.
  apply vwp_bind, vwp_reject; intros Hn; [done|]. reflect_bools. subst n.
  unfold advance_header in Ed. destruct (vault_header (vault_tables (v_tx s))) as [r|] eqn:Eh; [|done].
  destruct (header_matches _ _ _ _ r) eqn:Em; [|done]. injection Ed as Ed.
  assert (E1 : v_tx s1 = with_header a r (v_tx s)) by (unfold with_header; by rewrite Ed). clearbody s1.
  assert (Hk : forall s', same s1 s' -> kept s s') by (intros s' Hs; etrans; [exact H1|apply Hs]).
  apply vwp_read; [apply (vreader_query true)|auto|]. intros m s2 H2.
  apply vwp_bind, vwp_reject; intros _; [by apply Hk|].
  apply vwp_read; [apply vreader_set|intros; apply Hk; by etrans|]. intros _ s3 H3.
  assert (H3' : same s1 s3) by by etrans.
  eapply vwp_mono; [apply vreader_deadline| |]; cbn; [|intros; apply Hk; by etrans]. intros _ s4 H4.
  assert (H4' : same s1 s4) by by etrans. split; [by apply Hk|]. exists r. split; [done|]. by rewrite (sm_tx _ _ H4').
Qed.

(** A transaction's work, which leaves in the working copy what [W] says. *)
Definition works (work : V GenerationAttempt) (a : GenerationAttempt) (W : Database -> Database -> Prop) : Prop := forall s,
  vwp work (fun a' s' => a' = a /\ kept s s' /\ W (v_db s) (v_tx s')) (fun _ s' => kept s s') s.
Record committed_as (a : GenerationAttempt) (W : Database -> Database -> Prop) (s s' : Vault) : Prop := {
  ca_db : exists d r, W (v_db s) d /\ prior_header a d r /\ v_db s' = with_header a r d;
  ca_guard : v_guard s' = advance_guard (at_generation a) (v_guard s);
  ca_marks : Forall (fun m => m < at_generation a) (marks (v_guard s));
  ca_state : v_state s' = v_state s;
  ca_header : v_header s' = v_header s;
}.
(** A reservation whose commit failed. *)
Record reserved_only (n : Z) (s s' : Vault) : Prop := {
  ro_db : v_db s' = v_db s;
  ro_guard : raised n (v_guard s) (v_guard s');
  ro_marks : Forall (fun m => m < n) (marks (v_guard s));
  ro_state : v_state s' = v_state s;
}.
Lemma commit_with_wp work a W s : works work a W ->
  vwp (commit_with work) (fun out s' =>
    match out with
    | (Ok a', _) => a' = a /\ committed_as a W s s'
    | (Err _, true) => reserved_only (at_generation a) s s'
    | (Err _, false) => kept s s'
    end) (fun _ _ => False) s.
Proof.
  intros Hw. unfold commit_with. apply vwp_bind, vwp_try.
  assert (Hp : vwp (a0 ← work; _ ← prepare_generation a0; mret a0) (fun a' s' => a' = a /\ kept s s' /\
      exists d r, W (v_db s) d /\ prior_header a d r /\ v_tx s' = with_header a r d) (fun _ s' => kept s s') s).
  { apply vwp_bind. eapply vwp_mono; [apply Hw| |done]. cbn. intros a' s1 (-> & H1 & HW). apply vwp_bind.
    eapply vwp_mono; [apply prepare_wp| |]; cbn; [|intros; by etrans]. intros _ s2 [H2 (r & Hr & E2)].
    split; [done|]. split; [by etrans|]. by exists (v_tx s1), r. }
  eapply vwp_mono; [exact Hp| |]; cbn [fst snd].
  2: { intros e s1 H1. cbv beta iota. by apply (vwp_ret (Err e, false)). }
  intros a' s1 (-> & H1 & d & r & HW & Hr & E1). pose proof (kp_frame _ _ H1) as F1.
  apply vwp_bind. eapply vwp_mono; [apply reserve_wp| |done]. intros [[[]|e] b] s2 [A2 Ho]; rewrite (fr_guard _ _ F1) in Ho; cbn [fst snd].
  - destruct Ho as (-> & Hf & Eg). apply vwp_bind, vwp_try, vwp_bind.
    assert (He : forall s', aside s2 s' -> v_guard s' = v_guard s2 -> reserved_only (at_generation a) s s').
    { intros s' A' G. destruct A2, A'. split; [etrans; [|apply H1]; congruence|rewrite G, Eg; by right; right|done|].
      etrans; [|apply F1]. congruence. }
    eapply vwp_mono; [apply vreader_deadline| |].
    2: { intros e s3 [A3 G3]%same_aside. cbv beta iota. by apply (vwp_ret (Err e, true)), He. }
    intros _ s3 [A3 G3]%same_aside. cbn [fst snd]. apply vwp_bind, vwp_commit; [by apply vwp_ret, He; [destruct A3; split; cbn; (done || lia)|]|].
    apply vwp_ret, vwp_ret. split; [done|]. destruct A2, A3. split; cbn.
    + exists d, r. split_and!; [done..|congruence].
    + congruence.
    + done.
    + etrans; [|apply F1]. congruence.
    + etrans; [|apply F1]. congruence.
  - apply vwp_ret. destruct b.
    + destruct Ho as [Hf Hg]. destruct A2. split; [etrans; [|apply H1]; congruence|done..|]. etrans; [|apply F1]. congruence.
    + etrans; [exact H1|]. apply sm_kept, aside_same; [done|]. rewrite Ho. symmetry. apply F1.
Qed.

End WithLibraries.

(** * What the vault has verified when it opens

    The facts that the tables satisfied when each verification of [unlock] succeeded,
    as statements about the rows, and what an unlocking that succeeds has done. *)

Section WithLibraries.
Context {H : Host} {AH : AnchorHost} {CC : Codecs} {SG : Signatures} {SJ : Serde} {VW : ValueWriter} {RC : RecordCodec}.
Context {AE : Aead} {KD : Kdf} {LC : LeaseCodec} {JS : JsonSchema} {AC : ActionCodec} {UC : UnlockConfig} {MT : Materials} {DC : Documents}.

(** The root that a secret unwraps through the active wrapper of its kind. *)
Definition root_of (t : Tables) (vault : Uuid) (kind : WrapperKind) (secret vrk : list Z) : Prop :=
  exists raw w kek, find_first (is_active_wrapper kind) (key_wrappers t) = Some raw /\ wrapper_of_raw raw = Ok w /\
    kek_for_wrapper w secret = Ok kek /\ unwrap_vrk vault w kek = Ok vrk.
(** The bundle that is active, as it reads back. *)
Definition active_bundle (t : Tables) : result AuthorityError (option PolicyBundleRecord) :=
  transpose policy_bundle_of_raw (policy_bundle t).
Record policy_authentic (key : list Z) (vault : Uuid) (t : Tables) (m : PolicyMaterial) : Prop := {
  pa_state : exists raw, policy_state t = Some raw /\ policy_state_of_raw raw = Ok (pm_state m);
  pa_state_seal : verify_state key vault (pm_state m) = Ok tt;
  pa_trust : transpose policy_trust_of_raw (policy_trust t) = Ok (pm_trust m);
  pa_bundle : active_bundle t = Ok (pm_bundle m);
  pa_trust_seal : forall x, pm_trust m = Some x -> trust_check key vault (pm_state m) x = Ok tt;
  pa_bundle_seal : forall x, pm_bundle m = Some x -> bundle_check key vault (pm_state m) x = Ok tt;
}.
Definition retention_authentic (key : list Z) (vault : Uuid) (t : Tables) : Prop :=
  exists raw r, audit_retention t = [raw] /\ retention_of_raw raw = Ok r /\ verify_retention key vault r = Ok tt.
Definition set_authentic (t : Tables) (digest : Digest) : Prop := exists certificates crls actions h,
  collect certificate_of_raw (sort_by (by_key (fun r => be_value (rct_serial r))) (pki_certificates t)) = Ok certificates /\
  collect crl_of_raw (sort_by (by_key (fun r => be_value (rcl_number r))) (pki_crls t)) = Ok crls /\
  collect action_of_raw (sort_by action_row_before (action_rows t)) = Ok actions /\
  header_of t = Ok h /\ set_digest (mkMetadataSet certificates crls actions (hd_vault_id h)) = digest.
Record journal_authentic (root : list Z) (vault : Uuid) (t : Tables) : Prop := {
  ja_consistent : versions_consistent t = true;
  ja_records : exists records st raw,
    collect listed_lease (sort_by (by_key (fun r => be_value (rl_registration_id r))) (vault_lease_journal t)) = Ok records /\
    vault_lease_journal_state t = Some raw /\ lease_state_of_raw raw = Ok st /\
    verify_lease_state root vault records st = Ok tt /\ Forall (fun r => is_ok (lease_open root vault r) = true) records;
}.

Lemma ok_or_ok {E A} (e : E) (o : option A) a : ok_or e o = Ok a -> o = Some a.
Proof. destruct o; cbn; [by intros [= ->]|done]. Qed.
(** A query, in a sequence that started at [s0]. *)
Lemma vwp_query {A B} e (f : Tables -> result AuthorityError A) (g : A -> V B) (Q : B -> Vault -> Prop) s0 s :
  quiet s0 s -> (forall a s', quiet s0 s' -> f (tables s0) = Ok a -> vwp (g a) Q (fun _ s' => quiet s0 s') s') ->
  vwp (x ← query_db e f; g x) Q (fun _ s' => quiet s0 s') s.
Proof.
  intros Hq Hg. apply vwp_bind. eapply vwp_mono; [by apply query_quiet| |done]. cbn. intros a s' [? ?]. by apply Hg.
Qed.
Lemma vwp_lifted {A B} (r : result AuthorityError A) (g : A -> V B) (Q : B -> Vault -> Prop) s0 s :
  quiet s0 s -> (forall a, r = Ok a -> vwp (g a) Q (fun _ s' => quiet s0 s') s) ->
  vwp (x ← vlift r; g x) Q (fun _ s' => quiet s0 s') s.
Proof. intros Hq Hg. apply vwp_bind, vwp_lift; [done|by intros]. Qed.
Lemma vwp_rejected {B} b e (g : unit -> V B) (Q : B -> Vault -> Prop) s0 s :
  quiet s0 s -> (b = false -> vwp (g tt) Q (fun _ s' => quiet s0 s') s) ->
  vwp (x ← vreject b e; g x) Q (fun _ s' => quiet s0 s') s.
Proof. intros Hq Hg. apply vwp_bind, vwp_reject; [by intros|done]. Qed.

Lemma unwrap_wp kind secret s :
  vwp (unwrap_with kind secret) (fun vrk s' => quiet s s' /\ root_of (tables s) (v_vault_id s) kind secret vrk)
    (fun _ s' => quiet s s') s.
Proof.
  unfold unwrap_with, active_wrapper. apply vwp_bind. eapply vwp_mono; [apply query_wp| |by intros; apply same_quiet].
  cbn. intros w s1 [H1 Ew]. assert (Ev : v_vault_id s1 = v_vault_id s) by apply fr_id, H1. pose proof (same_quiet _ _ H1) as Q1.
  destruct (find_first _ _) as [raw|] eqn:Er; [cbn in Ew|done]. unfold integrity, map_err in Ew. destruct (wrapper_of_raw raw) eqn:Eraw; [|done].
  injection Ew as ->. apply vwp_lifted; [done|]. intros kek Ek. unfold map_err in Ek. destruct (kek_for_wrapper w secret) eqn:Ekek; [|done].
  injection Ek as ->. apply vwp_bind, vwp_reads, vwp_lift; [|done]. intros vrk Evrk. rewrite Ev in Evrk. split; [done|]. by exists raw, w, kek.
Qed.
Lemma material_wp key vault s :
  vwp (verified_policy_material key vault) (fun m s' => quiet s s' /\ policy_authentic key vault (tables s) m) (fun _ s' => quiet s s') s.
Proof.
  unfold verified_policy_material, load_policy_state, load_policy_trust, load_policy_bundle.
  apply vwp_query; [reflexivity|]. intros st s1 H1 Es. destruct (policy_state (tables s)) as [raw|] eqn:Er; [cbn in Es|done].
  apply vwp_lifted; [done|]. intros [] Ev. apply vwp_query; [done|]. intros trust s2 H2 Et. apply vwp_query; [done|]. intros bundle s3 H3 Eb.
  apply vwp_rejected; [done|]. intros _.
  assert (Hc : forall {A B} (f : A -> result AuthorityError unit) (o : option A) (g : unit -> V B) Q s',
    quiet s s' -> ((forall x, o = Some x -> f x = Ok tt) -> vwp (g tt) Q (fun _ s' => quiet s s') s') ->
    vwp (x ← check_some f o; g x) Q (fun _ s' => quiet s s') s').
  { intros A B f o g Q s' Hs Hg. unfold check_some. destruct o as [x|]; [|by apply vwp_bind, vwp_ret, Hg].
    apply vwp_lifted; [done|]. intros [] Ex. apply Hg. by intros ? [= <-]. }
  apply Hc; [done|]. intros Ht. apply Hc; [done|]. intros Hb. apply vwp_ret. split; [done|]. split; cbn; [eauto|done..].
Qed.
Lemma retention_wp key vault s :
  vwp (verified_audit_retention key vault) (fun _ s' => quiet s s' /\ retention_authentic key vault (tables s)) (fun _ s' => quiet s s') s.
Proof.
  unfold verified_audit_retention, load_audit_retention. apply vwp_bind, vwp_query; [reflexivity|]. intros [] s1 H1 E1.
  eapply vwp_mono; [by apply query_quiet| |done]. cbn. intros r s2 [H2 E2]. apply vwp_lifted; [done|]. intros [] Ev. apply vwp_ret.
  split; [done|]. destruct (llen (audit_retention (tables s)) =? 1) eqn:El; [|done]. apply Z.eqb_eq in El.
  unfold retention_authentic. destruct (audit_retention (tables s)) as [|raw [|? ?]]; cbn in *; [done|eauto|unfold llen in El; cbn in El; lia].
Qed.
Lemma set_wp digest s :
  vwp (verified_set false digest) (fun _ s' => quiet s s' /\ set_authentic (tables s) digest) (fun _ s' => quiet s s') s.
Proof.
  unfold verified_set, pki_records, crl_records, all_actions, query. apply vwp_query; [reflexivity|]. intros certs s1 H1 E1.
  apply vwp_query; [done|]. intros crls s2 H2 E2. apply vwp_query; [done|]. intros actions s3 H3 E3.
  apply vwp_query; [done|]. intros h s4 H4 E4. apply vwp_rejected; [done|]. intros Hd. apply vwp_ret. reflect_bools.
  split; [done|]. by exists certs, crls, actions, h.
Qed.
Lemma journal_wp root vault s :
  vwp (verify_journal root vault) (fun _ s' => quiet s s' /\ journal_authentic root vault (tables s)) (fun _ s' => quiet s s') s.
Proof.
  unfold verify_journal, validate_credential_version_invariants, list_lease_records, load_lease_state.
  apply vwp_query; [reflexivity|]. intros [] s1 H1 Ec. destruct (versions_consistent _) eqn:Hc; [|done].
  apply vwp_quiet; [unfold foreign_key_check; steady|done|]. intros _ s2 H2. apply vwp_query; [done|]. intros records s3 H3 Er.
  apply vwp_query; [done|]. intros st s4 H4 Es. destruct (vault_lease_journal_state (tables s)) as [raw|] eqn:Eraw; [cbn in Es|done].
  apply vwp_lifted; [done|]. intros [] Ev. apply vwp_quiet; [unfold latest_lease_audit_id; steady|done|]. intros latest s5 H5.
  apply vwp_rejected; [done|]. intros _. apply vwp_bind.
  eapply (vwp_mono _ (fun _ s' => quiet s s' /\ Forall (fun r => is_ok (lease_open root vault r) = true) records) _ (fun _ s' => quiet s s')).
  - clear -H5 SG. revert s5 H5. induction records as [|r records IH]; intros s5 H5; cbn [veach]; [by apply vwp_ret|].
    apply vwp_bind, vwp_lifted; [done|]. intros p Ep. apply vwp_quiet; [unfold historical; steady|done|]. intros _ s6 H6. apply vwp_ret.
    eapply vwp_mono; [by apply IH| |done]. cbn. intros _ s7 [H7 Hf]. split; [done|]. constructor; [by rewrite Ep|done].
  - cbn. intros _ s6 [H6 Hf]. split; [done|]. split; [done|]. by exists records, st, raw.
  - done.
Qed.

(** ** The generation *)

(** The marks are those of this generation: none is missing, none is another. *)
Definition current_at (g : Guard) (n : Z) : Prop :=
  file_mark g = Some n /\ (g_protected g <> None -> protected_mark g = Some n).
Lemma is_current_at g o h : observed_of g o -> is_current h o = true -> current_at g (hd_generation h).
Proof.
  intros [Hf Hp Hr] Hc. unfold is_current in Hc. rewrite Hf, Hp, Hr in Hc. apply andb_prop in Hc as [H1 H2].
  apply bool_decide_eq_true in H1. split; [done|]. intros Hn. destruct (g_protected g); [|done]. cbn in H2. by apply bool_decide_eq_true in H2.
Qed.
Lemma suspect_wp h o s : vwp (suspect_rollback h o) (fun _ _ => False) (fun _ s' => quiet s s') s.
Proof.
  unfold suspect_rollback. apply vwp_quiet; [apply steady_modify; intros s0; split; [done|reflexivity|by right|done]|reflexivity|].
  intros _ s1 H1. apply vwp_quiet; [by auto with steady|done|]. intros _ s2 H2. by apply vwp_fail.
Qed.
Lemma check_generation_wp h s :
  vwp (check_generation h) (fun o s' => same s s' /\ is_current h o = true /\ observed_of (v_guard s) o) (fun _ s' => quiet s s') s.
Proof.
  unfold check_generation. apply vwp_bind. eapply (vwp_mono _ (fun o s' => same s s' /\ observed_of (v_guard s) o) _ (fun _ s' => quiet s s')); [| |done].
  - apply vwp_or_fault. eapply vwp_mono; [apply observe_wp|done|]. cbn. intros. by apply same_quiet.
  - intros o s1 [H1 Ho]. apply vwp_bind, vwp_reads.
    assert (Hs : forall g : unit -> V AnchorObservation, vwp (x ← suspect_rollback h o; g x)
      (fun o s' => same s s' /\ is_current h o = true /\ observed_of (v_guard s) o) (fun _ s' => quiet s s') s1).
    { intros g. apply vwp_bind. eapply vwp_mono; [apply suspect_wp|done|]. cbn. intros _ s2 H2. etrans; [by apply same_quiet|done]. }
    destruct (is_current h o) eqn:Hc; cbn [negb orb]; [|apply Hs]. destruct (is_suspected s1); [apply Hs|by apply vwp_ret].
Qed.

(** ** Opening *)

(** An unlocking with this secret that opened the vault. *)
Record opened (kind : WrapperKind) (secret : list Z) (s s' : Vault) (vrk : list Z) (h : VaultHeaderRecord) : Prop := {
  op_root : root_of (tables s) (v_vault_id s) kind secret vrk;
  op_header : header_of (tables s) = Ok h;
  op_proved : prove_integrity h vrk = Ok tt;
  op_policy : exists m, policy_authentic vrk (hd_vault_id h) (tables s) m;
  op_retention : retention_authentic vrk (hd_vault_id h) (tables s);
  op_journal : journal_authentic vrk (hd_vault_id h) (tables s);
  op_set : set_authentic (tables s) (hd_pki_digest h);
  op_current : current_at (v_guard s) (hd_generation h);
  op_tables : tables s' = tables s;
  op_anchors : same_anchors (v_guard s) (v_guard s');
  op_state : v_state s' = VUnlocked vrk;
  op_published : v_header s' = h;
  op_failures : failed_unlocks s' = 0;
  op_audited : exists row, last (audit_events (v_db s')) = Some row /\ raw_event_type row = event_type.VAULT_UNLOCKED;
}.
Lemma append_audit_wp {HL : HostLaws} draft s :
  vwp (append_audit draft) (fun _ s' => quiet s s' /\
    exists row, last (audit_events (v_db s')) = Some row /\ raw_event_type row = d_event_type draft) (fun _ s' => quiet s s') s.
Proof.
  unfold append_audit. apply vwp_bind.
  eapply (vwp_mono _ (fun e s' => quiet s s' /\ e_event_type e = d_event_type draft) _ (fun _ s' => quiet s s')); [| |done].
  - unfold audit_event_or_fault. apply vwp_rejected; [reflexivity|]. intros _.
    apply vwp_quiet; [unfold domain; steady|reflexivity|]. intros _ s1 H1.
    apply vwp_quiet; [by auto with steady|done|]. intros now s2 H2. apply vwp_rejected; [done|]. intros _. apply vwp_or_fault.
    unfold audit_event_at. apply vwp_quiet; [by auto with steady|done|]. intros id s3 H3. by apply vwp_ret.
  - intros e s1 [H1 He]. apply vwp_or_fault. eapply vwp_mono; [apply append_audit_row_wp| |]; cbn.
    + intros _ s2 [Hf [_ Hd]]. unfold add_event in Hd. destruct (metadata_text e) as [text|]; [cbn in Hd|done].
      assert (Ht : tables s2 = tables s1) by (by apply insert_row_tables in Hd).
      split; [etrans; [done|by apply frame_quiet]|]. unfold insert_audit_row in Hd. case_match; [|done]. injection Hd as Hd.
      rewrite <- Hd. cbn. rewrite last_snoc. by eexists.
    + intros _ s2 H2. etrans; [done|by apply kept_quiet].
Qed.
Lemma unlock_wp {HL : HostLaws} proof s :
  vwp (unlock proof) (fun _ s' => exists kind secret vrk h, wrapper_and_secret proof = Ok (kind, secret) /\ opened kind secret s s' vrk h)
    (fun _ s' => quiet s s') s.
Proof.
  unfold unlock. apply vwp_bind, vwp_reads, vwp_bind, vwp_reads. apply vwp_rejected; [reflexivity|]. intros _.
  apply vwp_bind. unfold rate_limit. apply (vwp_mono _ (fun _ s' => same s s') _ (fun _ s' => quiet s s')); [| |done].
  { apply vwp_read; [apply vreader_instant|by intros; apply same_quiet|]. intros now s1 H1. apply vwp_bind, vwp_reads.
    apply vwp_reject; intros; [by apply same_quiet|done]. }
  intros _ s1 H1. pose proof (same_quiet _ _ H1) as Q1. apply vwp_lifted; [done|]. intros [kind secret] Ew. cbn [fst snd].
  assert (Ev : v_vault_id s1 = v_vault_id s) by apply fr_id, H1.
  apply vwp_bind, vwp_try. eapply vwp_mono; [apply unwrap_wp| |].
  2: { intros e s2 H2. cbv beta iota. apply vwp_quiet; [unfold record_unlock_failure; steady|by etrans|]. intros _ s3 H3. by apply vwp_fail. }
  intros vrk s2 [H2 Hroot]. assert (Q2 : quiet s s2) by by etrans. rewrite (qt_tables _ _ Q1), Ev in Hroot. cbv beta iota. clear H1 Q1 H2 Ev s1.
  apply vwp_bind. eapply (vwp_mono _ (fun h s' => quiet s s' /\ header_of (tables s) = Ok h /\ prove_integrity h vrk = Ok tt) _ (fun _ s' => quiet s s')); [| |done].
  { apply vwp_or_fault. unfold authenticated_header, load_header. apply vwp_query; [done|]. intros h s3 H3 Eh.
    apply vwp_lifted; [done|]. intros [] Ep. by apply vwp_ret. }
  intros h s3 (Q3 & Eh & Ep).
  assert (Hs : forall {A} (m : V A) (P : A -> Tables -> Prop) reason s', quiet s s' ->
    (forall s, vwp m (fun a s' => quiet s s' /\ P a (tables s)) (fun _ s' => quiet s s') s) ->
    vwp (or_fault reason m) (fun a s' => quiet s s' /\ P a (tables s)) (fun _ s' => quiet s s') s').
  { intros A m P reason s' Hq Hm. apply vwp_or_fault. eapply vwp_mono; [apply Hm| |]; cbn; [|intros; by etrans].
    intros a s'' [Hq' HP]. rewrite (qt_tables _ _ Hq) in HP. split; [by etrans|done]. }
  unfold verify_content. apply vwp_bind, vwp_bind. eapply vwp_mono; [apply (Hs _ _ (fun m t => policy_authentic vrk (hd_vault_id h) t m) _ _ Q3), material_wp| |done]. intros m s4 [Q4 Hm].
  apply vwp_bind. eapply vwp_mono; [apply (Hs _ _ (fun _ t => retention_authentic vrk (hd_vault_id h) t) _ _ Q4), retention_wp| |done]. intros _ s5 [Q5 Hret].
  apply vwp_bind. eapply vwp_mono; [apply (Hs _ _ (fun _ t => journal_authentic vrk (hd_vault_id h) t) _ _ Q5), journal_wp| |done]. intros _ s6 [Q6 Hj].
  apply vwp_bind. eapply (vwp_mono _ (fun _ s' => quiet s s' /\ set_authentic (tables s) (hd_pki_digest h)) _ (fun _ s' => quiet s s')); [| |done].
  { apply vwp_fault_on. unfold verified_certificates. apply vwp_bind. eapply vwp_mono; [apply set_wp| |]; cbn; [|intros; by etrans].
    intros _ s7 [H7 Hset]. rewrite (qt_tables _ _ Q6) in Hset. split; [by etrans|done]. }
  intros _ s7 [Q7 Hset]. apply vwp_ret. apply vwp_bind. eapply vwp_mono; [apply check_generation_wp| |]; cbn beta; [|intros; by etrans].
  intros o s8 (H8 & Hc & Ho). pose proof (is_current_at _ _ _ Ho Hc) as Hcur. assert (Q8 : quiet s s8) by (etrans; [exact Q7|by apply same_quiet]).
  apply vwp_quiet; [by auto with steady|done|]. intros _ s9 Q9. apply vwp_bind.
  eapply vwp_mono; [apply append_audit_wp| |]; cbn beta; [|intros; by etrans]. intros _ s10 [Q10 Haud].
  assert (Q : quiet s s10) by by etrans. cbn in Haud.
  unfold publish_unlocked, clear_failures, vwp, vmodify, instant_now, mbind, V_bind. cbn.
  exists kind, secret, vrk, h. split; [done|]. destruct Q as [T A _ _]. destruct Haud as [row Haud]. split; try done; [by exists m| | |by exists row].
  - unfold current_at in *. destruct (qt_anchors _ _ Q7) as [_ F P]. unfold file_mark, protected_mark in *. by rewrite <- F, <- P.
  - destruct A as [? ? ?]. by split.
Qed.

End WithLibraries.
