(* ===== verification/VaultOperations.v ===== *)
(** * VaultOperations: the vault's administration as a transition system

    [change] is what one administrative transaction does to the tables. A [move] is a
    quiet step, a reservation, a change committed under a generation above every mark,
    or opening with the tables that the marks are for. Every operation of
    VaultUnlock.v and VaultMutations.v is a sequence of moves. *)

From stdpp Require Import relations.
From S2P Require Import Prelude Strings Bytes Errors Domain Codec SessionState Approval Action FixedAction Decimal Json Signed AuditRecords.
From S2P Require Import VaultModel VaultTables VaultStore Usage VaultRows KeyWrap LifecycleSeals VaultContent VaultWorker Generation AuditLog.
From S2P Require Import VaultUnlock VaultMutations VaultRules VaultMoves VaultCommit.

Section WithLibraries.
Context {H : Host} {AH : AnchorHost} {CC : Codecs} {SG : Signatures} {SJ : Serde} {VW : ValueWriter} {RC : RecordCodec}.
Context {AE : Aead} {KD : Kdf} {LC : LeaseCodec} {JS : JsonSchema} {AC : ActionCodec} {UC : UnlockConfig} {MT : Materials} {DC : Documents}.

(** ** Changes of the tables *)

Inductive change : Tables -> Tables -> Prop :=
  | change_nothing t : change t t
  | change_wrapper kind at_ms w t t1 t2 :
      kw_kind w = kind -> disable_wrappers kind at_ms t = Some (t1, 1) ->
      insert_wrapper_row (raw_of_wrapper w) t1 = Some (t2, 1) -> change t t2
  | change_insert c v n m t t1 t2 :
      cv_credential_id v = cr_credential_id c -> cr_state c = CredActive -> cr_current_version c = 1 -> cv_version v = 1 ->
      cv_state v = VerActive -> insert_credential_row (raw_of_credential c) t = Some (t1, n) -> n <> 0 ->
      insert_version_row (raw_of_version v) t1 = Some (t2, m) -> change t t2
  | change_rotate c v now n m k t t1 t2 t3 :
      id_as_bytes (cv_credential_id v) = id_as_bytes (cr_credential_id c) -> cv_version v = cr_current_version c -> cv_state v = VerActive ->
      retire_versions (cr_credential_id c) VerRetired now t = Some (t1, n) ->
      insert_version_row (raw_of_version v) t1 = Some (t2, m) ->
      update_credentials (rotated_row c) (cr_credential_id c) t2 = Some (t3, k) -> k <> 0 -> change t t3
  | change_revoke c now n m t t1 t2 :
      update_credentials (revoked_row c) (cr_credential_id c) t = Some (t1, n) -> n <> 0 ->
      retire_versions (cr_credential_id c) VerRevoked now t1 = Some (t2, m) -> change t t2
  | change_trust st trust n t t1 t2 :
      insert_trust_row trust t = Some (t1, n) -> VaultMutations.update_policy_state st t1 = Some (t2, 1) -> change t t2
  | change_bundle st bundle t u :
      (exists old, active_bundle t = Ok old /\ pbr_version bundle = default 0 (pbr_version <$> old) + 1) -> pbr_version bundle <= i64_max ->
      u = set_policy_state (Some (raw_of_policy_state st)) (set_policy_bundle (Some (raw_of_policy_bundle bundle)) [] t) ->
      change t u
  | change_retention r t t1 : update_retention r t = Some (t1, 1) -> change t t1.

(** ** Moves *)

(** Whether a step may commit: the vault is open, or an operator accepts a rollback. *)
Context (accept : bool).
Definition may_commit (s : Vault) : bool := accept || is_open s.
Definition closes (s s' : Vault) : Prop := v_state s' = v_state s \/ is_open s' = false.
Inductive move : Vault -> Vault -> Prop :=
  | move_quiet s s' : quiet s s' -> move s s'
  | move_publish s s' :
      accept = true -> tables s' = tables s -> same_anchors (v_guard s) (v_guard s') -> closes s s' -> move s s'
  | move_reserve n s s' :
      may_commit s = true -> tables s' = tables s -> closes s s' -> n <= u64_max ->
      Forall (fun m => m < n) (marks (v_guard s)) -> raised n (v_guard s) (v_guard s') -> move s s'
  | move_commit n t h s s' :
      may_commit s = true -> change (tables s) t -> tables s' = set_header (Some h) t -> closes s s' -> n <= u64_max ->
      rh_generation h = be_bytes 8 n -> Forall (fun m => m < n) (marks (v_guard s)) ->
      v_guard s' = advance_guard n (v_guard s) -> move s s'
  | move_open vrk g s s' :
      tables s' = tables s -> same_anchors (v_guard s) (v_guard s') -> v_state s' = VUnlocked vrk ->
      db_generation (tables s) = Some g -> file_mark (v_guard s) = Some g ->
      (g_protected (v_guard s) <> None -> protected_mark (v_guard s) = Some g) -> move s s'.
Definition moves : Vault -> Vault -> Prop := rtc move.
Lemma quiet_moves s s' : quiet s s' -> moves s s'.
Proof. intros Hq. by apply rtc_once, move_quiet. Qed.

Definition mover {A} (m : V A) : Prop := forall s, vwp m (fun _ s' => moves s s') (fun _ s' => moves s s') s.
Lemma mover_steady {A} (m : V A) : steady m -> mover m.
Proof. intros Hm s. eapply vwp_mono; [apply Hm| |]; cbn; intros; by apply quiet_moves. Qed.
Lemma mover_bind {A B} (m : V A) (f : A -> V B) : mover m -> (forall a, mover (f a)) -> mover (x ← m; f x).
Proof.
  intros Hm Hf s. apply vwp_bind. eapply vwp_mono; [apply Hm| |done]. cbn. intros a s' Hs.
  eapply vwp_mono; [apply Hf| |]; cbn; intros; by etrans.
Qed.
Lemma mover_step {A} (m : V A) s : mover m -> moves s (m s).2.
Proof. intros Hm. specialize (Hm s). unfold vwp in Hm. by destruct (m s) as [[a|e] s']. Qed.
(** Something steady first, in a proof about moves from [s0]. *)
Lemma vwp_moves {A B} (m : V A) (f : A -> V B) s0 s :
  steady m -> moves s0 s ->
  (forall a s', quiet s s' -> moves s0 s' -> vwp (f a) (fun _ s' => moves s0 s') (fun _ s' => moves s0 s') s') ->
  vwp (x ← m; f x) (fun _ s' => moves s0 s') (fun _ s' => moves s0 s') s.
Proof.
  intros Hm Hs Hf. apply vwp_bind. eapply vwp_mono; [apply Hm| |]; cbn; intros ? s' Hq;
    assert (moves s0 s') by (etrans; [done|by apply quiet_moves]); [by apply Hf|done].
Qed.
Lemma moves_after {A B} (m : V A) (f : A -> V B) s0 s :
  vwp m (fun _ s' => moves s0 s') (fun _ s' => moves s0 s') s -> (forall a, mover (f a)) ->
  vwp (x ← m; f x) (fun _ s' => moves s0 s') (fun _ s' => moves s0 s') s.
Proof.
  intros Hm Hf. apply vwp_bind. eapply vwp_mono; [exact Hm| |done]. cbn. intros a s' Hs.
  eapply vwp_mono; [apply Hf| |]; cbn; intros; by etrans.
Qed.
Lemma fault_on_moves {A} e reason (m : V A) s0 s :
  vwp m (fun _ s' => moves s0 s') (fun _ s' => moves s0 s') s ->
  vwp (fault_on e reason m) (fun _ s' => moves s0 s') (fun _ s' => moves s0 s') s.
Proof.
  intros Hm. unfold fault_on. apply moves_after; [by apply vwp_try|]. intros r. apply mover_steady. steady.
Qed.

(** ** The commit of a work *)

Lemma steady_complete outcome : steady (complete_generation outcome).
Proof. unfold complete_generation. steady. apply steady_modify. intros s1. split; [done|reflexivity|by left|done]. Qed.
Lemma commit_with_moves work a W s0 s :
  works work a W -> at_generation a <= u64_max -> may_commit s = true -> moves s0 s ->
  (forall d, W (v_db s) d -> change (tables s) (vault_tables d)) ->
  vwp (commit_with work) (fun _ s' => moves s0 s') (fun _ s' => moves s0 s') s.
Proof.
  intros Hw Hn Hm Hs HC. eapply vwp_mono; [by apply commit_with_wp| |done]. intros [[a'|e] b] s1; cbn.
  - intros [-> [(d & r & HW & Hr & Ed) Eg Hf Es _]]. etrans; [exact Hs|].
    eapply rtc_once, (move_commit (at_generation a) (vault_tables d) (advanced_header a r)); try done; [by apply HC| |by left].
    unfold tables. by rewrite Ed.
  - destruct b; intros Ho.
    + etrans; [exact Hs|]. destruct Ho as [Ed Eg Hf Es]. eapply rtc_once, (move_reserve (at_generation a)); try done; [|by left].
      unfold tables. by rewrite Ed.
    + etrans; [exact Hs|]. by apply quiet_moves, kept_quiet.
Qed.
Lemma commit_moves work a W s0 s :
  works work a W -> at_generation a <= u64_max -> may_commit s = true -> moves s0 s ->
  (forall d, W (v_db s) d -> change (tables s) (vault_tables d)) ->
  vwp (committed work) (fun _ s' => moves s0 s') (fun _ s' => moves s0 s') s.
Proof.
  intros Hw Hn Hm Hs HC. unfold committed. apply moves_after; [by eapply commit_with_moves|].
  intros out. apply mover_steady. pose proof steady_complete. steady.
Qed.
Lemma attempt_new_generation h o key n na wall a : attempt_new h o key n na wall = Ok a -> at_generation a = n.
Proof. unfold attempt_new. case_match; [done|]. destruct (generation_seal _ _ _ _ _); [|done]. by intros [= <-]. Qed.
(** An attempt is only made at an open vault. *)
Lemma next_attempt_wp na wall s :
  vwp (next_attempt na wall) (fun a s' => quiet s s' /\ is_open s' = true /\ at_generation a <= u64_max) (fun _ s' => quiet s s') s.
Proof.
  unfold next_attempt. apply vwp_bind. eapply vwp_mono; [apply steady_mutation_observation| |done]. cbn. intros o s1 H1.
  apply vwp_bind. unfold require_unlocked at 1, vwp at 1. destruct (v_state s1) as [|k| |] eqn:Es; cbn; try done.
  apply vwp_bind, vwp_reads, vwp_bind, vwp_lift; [intros n En|done]. apply vwp_lift; [intros a Ea|done].
  split; [done|]. split; [unfold is_open; by rewrite Es|]. rewrite (attempt_new_generation _ _ _ _ _ _ _ Ea).
  unfold u64_checked_add in En. destruct (Z.leb_spec (hd_generation (v_header s1) + 1) u64_max); cbn in En; [|done]. by injection En as <-.
Qed.
Lemma vwp_attempt {B} na wall (f : GenerationAttempt -> V B) s0 s :
  moves s0 s ->
  (forall a s', quiet s s' -> moves s0 s' -> may_commit s' = true -> at_generation a <= u64_max ->
     vwp (f a) (fun _ s' => moves s0 s') (fun _ s' => moves s0 s') s') ->
  vwp (a ← next_attempt na wall; f a) (fun _ s' => moves s0 s') (fun _ s' => moves s0 s') s.
Proof.
  intros Hs Hf. apply vwp_bind. eapply vwp_mono; [apply next_attempt_wp| |]; cbn.
  - intros a s' (Hq & Ho & Hn). apply Hf; [done|etrans; [done|by apply quiet_moves]|unfold may_commit; by rewrite Ho, orb_true_r|done].
  - intros e s' Hq. etrans; [done|by apply quiet_moves].
Qed.

(** ** What the works do *)

(** Statements in the transaction: what they make of the tables. *)
Definition writes {A} (m : V A) (R : A -> Tables -> Tables -> Prop) : Prop := forall s,
  vwp m (fun x s' => kept s s' /\ R x (vault_tables (v_tx s)) (vault_tables (v_tx s'))) (fun _ s' => kept s s') s.
Lemma writes_bind {A B} (m : V A) (f : A -> V B) R R' :
  writes m R -> (forall x, writes (f x) (R' x)) ->
  writes (x ← m; f x) (fun y t t' => exists x u, R x t u /\ R' x y u t').
Proof.
  intros Hm Hf s. apply vwp_bind. eapply vwp_mono; [apply Hm| |done]. cbn. intros x s1 [H1 R1].
  eapply vwp_mono; [apply Hf| |]; cbn; [|intros; by etrans]. intros y s2 [H2 R2]. split; [by etrans|]. eauto.
Qed.
Lemma writes_tables f : writes (write_tables f) (fun n t t' => f t = Some (t', n)).
Proof.
  intros s. unfold write_tables. apply vwp_exec_count; [auto with vault|]. intros d n.
  destruct (f (vault_tables (v_tx s))) as [[t k]|] eqn:Ef; [|done]. intros [= <- <-]. split; [apply kept_tx|done].
Qed.
Lemma writes_reject b e : writes (vreject b e) (fun _ t t' => b = false /\ t' = t).
Proof. intros s. apply vwp_reject; intros; [reflexivity|]. by split. Qed.
Lemma writes_ret {A} (a : A) : writes (mret a) (fun x t t' => x = a /\ t' = t).
Proof. intros s. by apply vwp_ret. Qed.
Lemma writes_insert e : writes (audit_insert e) (fun _ t t' => t' = t).
Proof.
  intros s. eapply vwp_mono; [apply audit_insert_wp| |]; cbn; [|by intros ? ? []]. intros _ s' [Hk Ha]. split; [done|].
  unfold add_event in Ha. destruct (metadata_text e); [cbn in Ha|done]. by apply insert_row_tables in Ha.
Qed.
Lemma writes_reader {A} (m : V A) : reader m -> writes m (fun _ t t' => t' = t).
Proof. intros Hm s. eapply vwp_mono; [apply Hm| |]; cbn; intros ? s' Hs; [split; [|by rewrite (sm_tx _ _ Hs)]|]; apply Hs. Qed.
Lemma writes_version v : writes (insert_version v) (fun _ t t' => exists n, insert_version_row (raw_of_version v) t = Some (t', n)).
Proof.
  unfold insert_version. intros s. eapply vwp_mono; [apply (writes_bind _ _ _ _ (writes_tables _) (fun _ => writes_ret tt))| |done].
  cbn. intros _ s' (Hk & n & u & Hr & _ & ->). eauto.
Qed.
Lemma writes_wrapper w : writes (insert_wrapper w) (fun _ t t' => insert_wrapper_row (raw_of_wrapper w) t = Some (t', 1)).
Proof.
  unfold insert_wrapper, one. intros s. eapply vwp_mono; [apply (writes_bind _ _ _ _ (writes_tables _) (fun _ => writes_reject _ _))| |done].
  cbn. intros _ s' (Hk & n & u & Hr & Hn & ->). split; [done|]. reflect_bools. by subst n.
Qed.
Lemma works_begin e m a R :
  writes m (fun a' t t' => a' = a /\ R t t') -> works (_ ← begin_tx e; m) a (fun d d' => R (vault_tables d) (vault_tables d')).
Proof.
  intros Hm s. apply vwp_bind, vwp_begin; [auto with vault|]. assert (Hk : kept s (v_ticked (set_v_tx (v_db s) s))) by apply kept_tx.
  eapply vwp_mono; [apply Hm| |]; cbn; [|intros; by etrans]. intros a' s' (H' & -> & HR). split; [done|]. split; [by etrans|done].
Qed.
Lemma works_mono work a (W W' : Database -> Database -> Prop) : (forall d d', W d d' -> W' d d') -> works work a W -> works work a W'.
Proof. intros HW Hw s. eapply vwp_mono; [apply Hw| |done]. cbn. intros a' s' (? & ? & ?). auto. Qed.

End WithLibraries.

(** * Every operation of the administration is a sequence of moves

    For each handler of VaultUnlock.v and VaultMutations.v, with [step] the calls in
    any order: what the moves allow is all that a history of calls can do. *)

Section WithLibraries.
Context {H : Host} {AH : AnchorHost} {CC : Codecs} {SG : Signatures} {SJ : Serde} {VW : ValueWriter} {RC : RecordCodec}.
Context {AE : Aead} {KD : Kdf} {LC : LeaseCodec} {JS : JsonSchema} {AC : ActionCodec} {UC : UnlockConfig} {MT : Materials} {DC : Documents}.

(** ** The works *)

Lemma writes_mono {A} (m : V A) (R R' : A -> Tables -> Tables -> Prop) :
  writes m R -> (forall x t t', R x t t' -> R' x t t') -> writes m R'.
Proof. intros Hm HR s. eapply vwp_mono; [apply Hm| |done]. cbn. intros x s' [? ?]. auto. Qed.
(** The effect of a sequence of statements, and its conclusion. *)
Ltac writes :=
  repeat first
    [ apply writes_tables | apply writes_version | apply writes_wrapper | apply writes_insert | apply writes_ret
    | apply writes_reject | apply writes_reader; solve [apply vreader_current] | apply writes_bind; [|intros ?] ].

Lemma works_replace kind w at_ms audit a : kw_kind w = kind ->
  works (replace_wrapper kind w at_ms audit a) a (fun d d' => change (vault_tables d) (vault_tables d')).
Proof.
  intros Hk. unfold replace_wrapper, one. apply works_begin. eapply writes_mono; [writes|].
  intros x t t' (n & t1 & Hd & _ & ? & (Hn & ->) & _ & t2 & Hi & _ & ? & -> & -> & ->). split; [done|]. reflect_bools. subst n.
  by eapply change_wrapper.
Qed.
Lemma works_insert c v audit a :
  cv_credential_id v = cr_credential_id c -> cr_state c = CredActive -> cr_current_version c = 1 -> cv_version v = 1 ->
  cv_state v = VerActive ->
  works (insert_credential_tx c v audit a) a (fun d d' => change (vault_tables d) (vault_tables d')).
Proof.
  intros H1 H2 H3 H4 H5. unfold insert_credential_tx. apply works_begin. eapply writes_mono; [writes|].
  intros x t t' (n & t1 & Hc & _ & ? & (Hn & ->) & _ & t2 & (m & Hv) & _ & ? & -> & -> & ->). split; [done|]. reflect_bools.
  by eapply change_insert.
Qed.
Lemma works_rotate c v now audit a :
  id_as_bytes (cv_credential_id v) = id_as_bytes (cr_credential_id c) -> cv_version v = cr_current_version c -> cv_state v = VerActive ->
  works (rotate_credential_tx c v now audit a) a (fun d d' => change (vault_tables d) (vault_tables d')).
Proof.
  intros H1 H2 H3. unfold rotate_credential_tx. apply works_begin. eapply writes_mono; [writes|].
  intros x t t' (n & t1 & Hr & _ & t2 & (m & Hv) & k & t3 & Hu & _ & ? & (Hk & ->) & _ & ? & -> & -> & ->). split; [done|]. reflect_bools.
  by eapply change_rotate.
Qed.
Lemma works_revoke c now audit a :
  works (revoke_credential_tx c now audit a) a (fun d d' => change (vault_tables d) (vault_tables d')).
Proof.
  unfold revoke_credential_tx. apply works_begin. eapply writes_mono; [writes|].
  intros x t t' (n & t1 & Hu & _ & ? & (Hn & ->) & m & t2 & Hr & _ & ? & -> & -> & ->). split; [done|]. reflect_bools.
  by eapply change_revoke.
Qed.
Lemma writes_state st : writes (VaultMutations.update_state st) (fun _ t t' => VaultMutations.update_policy_state st t = Some (t', 1)).
Proof.
  unfold VaultMutations.update_state, one. eapply writes_mono; [writes|]. intros x t t' (n & ? & Hu & Hn & ->). reflect_bools. by subst n.
Qed.
Lemma works_trust st trust event a :
  works (install_policy_trust st trust event a) a (fun d d' => change (vault_tables d) (vault_tables d')).
Proof.
  unfold install_policy_trust. apply works_begin. eapply writes_mono.
  { apply writes_bind; [apply writes_tables|intros n]. apply writes_bind; [apply writes_state|intros ?]. writes. }
  intros x t t' (n & t1 & Ht & _ & t2 & Hs & _ & ? & -> & -> & ->). split; [done|]. by eapply change_trust.
Qed.
(** The bundle's place among the versions is the caller's to show. *)
Lemma works_bundle st bundle event a : pbr_version bundle <= i64_max ->
  works (activate_bundle_tx st bundle event a) a (fun d d' =>
    (exists old, active_bundle (vault_tables d) = Ok old /\ pbr_version bundle = default 0 (pbr_version <$> old) + 1) ->
    change (vault_tables d) (vault_tables d')).
Proof.
  intros Hmax. unfold activate_bundle_tx. apply (works_begin _ _ _ (fun t t' =>
    (exists old, active_bundle t = Ok old /\ pbr_version bundle = default 0 (pbr_version <$> old) + 1) -> change t t')).
  eapply writes_mono.
  { apply writes_bind; [apply writes_tables|intros n]. apply writes_bind; [apply writes_tables|intros m].
    apply writes_bind; [apply writes_state|intros ?]. writes. }
  intros x t t' (n & t1 & [= <- <-] & m & t2 & [= <- <-] & _ & t3 & Hs & _ & ? & -> & -> & ->). split; [done|]. intros Hf.
  apply (change_bundle st bundle); [done..|]. unfold VaultMutations.update_policy_state in Hs. cbn in Hs.
  destruct (policy_state t) as [r|]; [|done]. case_match; [|done]. by injection Hs as <-.
Qed.
Lemma works_retention r audit na a :
  works (set_audit_retention r audit na a) a (fun d d' => change (vault_tables d) (vault_tables d')).
Proof.
  unfold set_audit_retention, one. intros s. apply vwp_read; [apply vreader_current|by intros ? ? []|]. intros _ s1 H1.
  assert (Hw : works (_ ← begin_tx Authority.StorageUnavailable; changed ← write_tables (update_retention r);
    _ ← vreject (negb (changed =? 1)) Authority.StorageIntegrityFailed; _ ← audit_insert audit; _ ← ensure_current na; mret a) a
    (fun d d' => change (vault_tables d) (vault_tables d'))).
  { apply works_begin. eapply writes_mono; [writes|].
    intros x t t' (n & t1 & Hu & _ & ? & (Hn & ->) & _ & ? & -> & _ & ? & -> & -> & ->). split; [done|]. reflect_bools. subst n.
    by eapply change_retention. }
  eapply vwp_mono; [apply Hw| |]; cbn.
  - intros a' s2 (-> & H2 & Hc). split; [done|]. split; [by etrans; [apply H1|]|]. by rewrite <- (kp_db _ _ (sm_kept _ _ H1)).
  - intros e s2 H2. by etrans; [apply H1|].
Qed.

(** ** The handlers *)

Context (accept : bool).
Lemma mover_attempt {B} na wall (f : GenerationAttempt -> V B) :
  (forall a s0 s, moves accept s0 s -> may_commit accept s = true -> at_generation a <= u64_max ->
     vwp (f a) (fun _ s' => moves accept s0 s') (fun _ s' => moves accept s0 s') s) ->
  mover accept (a ← next_attempt na wall; f a).
Proof. intros Hf s. apply vwp_attempt; [reflexivity|]. intros a s' _ Hs Hm Hn. by apply Hf. Qed.
Lemma mover_reject b e : mover accept (vreject b e).
Proof. apply mover_steady, steady_reject. Qed.
(** A steady operation of whose result something is known. *)
Lemma mover_with {A B} (P : A -> Prop) (m : V A) (f : A -> V B) :
  (forall s, vwp m (fun a s' => quiet s s' /\ P a) (fun _ s' => quiet s s') s) -> (forall a, P a -> mover accept (f a)) ->
  mover accept (x ← m; f x).
Proof.
  intros Hm Hf s. apply vwp_bind. eapply vwp_mono; [apply Hm| |]; cbn; [|intros; by apply quiet_moves]. intros a s' [Hs Ha].
  eapply vwp_mono; [by apply Hf| |]; cbn; intros; (etrans; [by apply quiet_moves|done]).
Qed.

Record version_for (id : CredentialId) (version : Z) (v : CredentialVersionRecord) : Prop := {
  vf_id : cv_credential_id v = id; vf_version : cv_version v = version; vf_state : cv_state v = VerActive }.
Lemma encrypt_wp id version kind secret now s :
  vwp (encrypt_new_version id version kind secret now) (fun v s' => quiet s s' /\ version_for id version v) (fun _ s' => quiet s s') s.
Proof.
  unfold encrypt_new_version.
  repeat (apply vwp_bind; eapply vwp_mono; [match goal with |- vwp ?m _ _ ?s0 => assert (Hm : steady m); [unfold aead_seal; steady|apply Hm] end
    | |intros ? ? ?; cbn beta; done || by etrans]; intros ? ? ?; cbn beta in *;
    try (match goal with H1 : quiet s ?x, H2 : quiet ?x ?y |- _ => assert (quiet s y) by (by etrans); clear H1 H2 end)).
  by apply vwp_ret.
Qed.
Definition sealed_version (r r' : CredentialRecord) : Prop := exists seal, r' = set_credential_seal seal r.
Lemma refresh_wp r s :
  vwp (refresh_state_seal r) (fun r' s' => quiet s s' /\ sealed_version r r') (fun _ s' => quiet s s') s.
Proof.
  unfold refresh_state_seal. apply vwp_bind. eapply vwp_mono; [apply steady_unlocked| |done]. cbn. intros k s1 H1.
  apply vwp_bind, vwp_reads, vwp_bind. unfold seal_credential. eapply vwp_mono.
  - assert (Hs : steady (aad ← vlift (credential_aad (v_vault_id s1) r); seal_aad k aad)) by (unfold seal_aad, aead_seal; steady). apply Hs.
  - cbn. intros seal s2 H2. split; [by etrans|]. by exists seal.
  - cbn. intros. by etrans.
Qed.
(** Steady operations up to the attempt; then the commit, and what follows it. *)
Ltac moving :=
  repeat first
    [ lazymatch goal with
      | |- mover _ (next_attempt _ _ ≫= _) => apply mover_attempt; intros ? ? ? ? ? ?
      | |- mover _ (encrypt_new_version _ _ _ _ _ ≫= _) => eapply mover_with; [intros; apply encrypt_wp|intros ? []]
      | |- mover _ (refresh_state_seal _ ≫= _) => eapply mover_with; [intros; apply refresh_wp|intros ? [? ->]]
      | |- mover _ (_ ≫= _) => apply mover_bind; [solve [apply mover_steady; steady]|intros ?]
      end
    | solve [apply mover_steady; steady] | progress cbn zeta | case_match ].
Ltac committing W :=
  repeat lazymatch goal with
    | |- vwp (fault_on_audit_failure _) _ _ _ => apply fault_on_moves
    | |- vwp (fault_on_integrity _) _ _ _ => apply fault_on_moves
    | |- vwp (committed _) _ _ _ => eapply commit_moves; [apply W; done|done|done|done|by auto]
    | |- vwp (_ ≫= _) _ _ _ => apply moves_after; [|intros ?; apply mover_steady; solve [steady]]
    end.
Lemma mover_rewrap kind algorithm params id salt kek event reason na :
  mover accept (rewrap kind algorithm params id salt kek event reason na).
Proof. unfold rewrap, wrap_vrk, aead_seal. moving. committing works_replace. Qed.
Lemma mover_password_change proof new na : mover accept (password_change proof new na).
Proof. unfold password_change. moving. apply mover_rewrap. Qed.
Lemma mover_recovery_rotate proof na : mover accept (recovery_rotate proof na).
Proof.
  unfold recovery_rotate. apply mover_bind; [apply mover_steady; steady|intros reason]. moving.
  apply mover_bind; [apply mover_rewrap|intros]. moving.
Qed.
Lemma mover_insert label kind secret na : mover accept (insert_credential label kind secret na).
Proof.
  unfold insert_credential. moving. committing works_insert.
Qed.
Lemma mover_add label kind secret proof na : mover accept (credential_add label kind secret proof na).
Proof. unfold credential_add. moving; apply mover_insert. Qed.
Lemma mover_rotate_inner id kind expected secret na event : mover accept (rotate_credential_inner id kind expected secret na event).
Proof.
  unfold rotate_credential_inner. apply mover_bind; [apply mover_steady; steady|intros _]. apply mover_bind; [apply mover_steady; steady|intros _].
  eapply mover_with; [intros; eapply vwp_mono; [apply load_credential_wp|intros r s' [Hq Hl]; exact (conj Hq (loaded_id _ _ _ Hl))|done]|].
  intros r Hr. moving. rename vf_id0 into Hv. rewrite <- Hv in Hr. committing works_rotate.
Qed.
Lemma mover_rotate id kind expected secret proof na : mover accept (credential_rotate_typed id kind expected secret proof na).
Proof. unfold credential_rotate_typed. moving. apply mover_rotate_inner. Qed.
Lemma mover_revoke id proof na : mover accept (credential_revoke id proof na).
Proof.
  unfold credential_revoke. moving. committing works_revoke.
Qed.
Lemma mover_trust input proof na : mover accept (policy_trust_install input proof na).
Proof. unfold policy_trust_install, seal_trust, seal_state, seal_aad, aead_seal. moving. committing works_trust. Qed.
Lemma mover_retention request proof na : mover accept (audit_retention_set request proof na).
Proof. unfold audit_retention_set, domain, seal_retention, seal_aad, aead_seal. moving. committing works_retention. Qed.

(** The bundle that is active stays what [policy_material] read. *)
Lemma material_bundle_wp s :
  vwp policy_material (fun m s' => quiet s s' /\ active_bundle (tables s') = Ok (pm_bundle m)) (fun _ s' => quiet s s') s.
Proof.
  unfold policy_material. apply vwp_quiet; [by apply steady_unlocked|reflexivity|]. intros key s1 H1. apply vwp_bind, vwp_reads.
  eapply vwp_mono; [apply material_wp| |]; cbn; [|intros; by etrans]. intros m s2 [H2 Hm].
  split; [by etrans|]. rewrite (qt_tables _ _ H2). by apply Hm.
Qed.
Lemma follows_version existing input : bundle_follows existing input = Ok true ->
  bi_version input = default 0 (pbr_version <$> existing) + 1 /\ bi_version input <= i64_max.
Proof.
  unfold bundle_follows. destruct existing as [b|]; cbn; repeat case_match; try done; intros _; reflect_bools; unfold i64_max in *; cbn in *; lia.
Qed.
Lemma mover_bundle input proof na : mover accept (policy_bundle_activate input proof na).
Proof.
  unfold policy_bundle_activate. apply mover_bind; [apply mover_steady; steady|intros _ s].
  apply vwp_bind. eapply vwp_mono; [apply material_bundle_wp| |]; cbn beta; [|intros; by apply quiet_moves].
  intros m s1 [H1 Hb]. apply quiet_moves with (accept := accept) in H1.
  apply vwp_moves; [steady|done|intros trust s2 Q2 M2]. apply vwp_moves; [steady|done|intros digest s3 Q3 M3].
  apply vwp_moves; [steady|done|intros vault s4 Q4 M4]. apply vwp_moves; [steady|done|intros _ s5 Q5 M5].
  apply vwp_bind, vwp_lift; [intros [] Hf|done].
  2: { eapply vwp_mono; [apply steady_policy_material| |]; cbn; intros; (etrans; [done|by apply quiet_moves]). }
  destruct (follows_version _ _ Hf) as [Hv Hmax]. assert (Q : quiet s1 s5) by (etrans; [exact Q2|]; etrans; [exact Q3|]; by etrans).
  clear Q2 Q3 Q4 Q5 M2 M3 M4 s2 s3 s4. cbn zeta.
  assert (Hb' : active_bundle (tables s5) = Ok (pm_bundle m)) by (by rewrite (qt_tables _ _ Q)). clear Q Hb H1 s1.
  repeat (lazymatch goal with
    | |- vwp (next_attempt _ _ ≫= _) _ _ _ => fail
    | |- _ => apply vwp_moves; [solve [unfold seal_bundle, seal_state, seal_aad, aead_seal; steady]|done|]
    end; let Q := fresh "Q" in let M := fresh "M" in let s := fresh "s" in intros ? s Q M; rewrite <- (qt_tables _ _ Q) in Hb'; clear Q).
  apply vwp_attempt; [done|]. intros a9 sa Q Ma Hc Hn. rewrite <- (qt_tables _ _ Q) in Hb'.
  apply moves_after; [|intros ?; apply mover_steady, steady_policy_material]. apply fault_on_moves.
  eapply commit_moves; [by apply works_bundle|done..|]. intros d Hd. apply Hd. by exists (pm_bundle m).
Qed.
Lemma header_generation t h : header_of t = Ok h -> db_generation t = Some (hd_generation h).
Proof.
  unfold header_of, header_of_raw, db_generation. destruct (vault_header t) as [r|]; cbn; [|done].
  intros Hh. bind_inv Hh. subst h. cbn.
  match goal with Hb : blob 8 _ = Ok _ |- _ => unfold blob in Hb; case_bool_decide; [injection Hb as ->; done|done] end.
Qed.
Lemma mover_unlock {HL : HostLaws} proof : mover accept (unlock proof).
Proof.
  intros s. eapply vwp_mono; [apply unlock_wp| |]; cbv beta; [|intros; by apply quiet_moves].
  intros _ s' (kind & secret & vrk & h & _ & [_ Hh _ _ _ _ _ [Hf Hp] Ht Ha Hs _ _ _]). apply header_generation in Hh.
  apply rtc_once. by apply (move_open _ vrk (hd_generation h)).
Qed.
Lemma checked_next n m (e : AuthorityError) : ok_or e (u64_checked_add n 1) = Ok m -> m <= u64_max.
Proof. unfold u64_checked_add. destruct (Z.leb_spec (n + 1) u64_max); cbn; [|done]. by intros [= <-]. Qed.
(** An operator's confirmation: the one operation that commits at a closed vault. *)
Lemma works_confirm audit a : works (_ ← begin_tx Authority.StorageUnavailable; _ ← audit_insert audit; mret a) a
  (fun d d' => change (vault_tables d) (vault_tables d')).
Proof.
  apply works_begin. eapply writes_mono; [writes|]. intros x t t' (_ & ? & -> & -> & ->). split; [done|apply change_nothing].
Qed.
Lemma mover_confirm expected proof na : accept = true -> mover accept (confirm_rollback expected proof na).
Proof.
  intros Ha s. unfold confirm_rollback. do 2 apply fault_on_moves. unfold confirm_rollback_inner.
  do 9 (apply vwp_moves; [solve [steady]|first [done|reflexivity]|]; intros ? ? _ ?).
  apply vwp_bind, vwp_lift; [intros n En|done]. apply vwp_moves; [steady|done|intros event s11 _ M11].
  apply vwp_bind, vwp_lift; [intros at_ Ea|done]. apply moves_after.
  - eapply commit_with_moves; [apply works_confirm| |by unfold may_commit; rewrite Ha|done|by auto].
    rewrite (attempt_new_generation _ _ _ _ _ _ _ Ea). by eapply checked_next.
  - intros out. apply mover_bind; [apply mover_steady, steady_complete|intros a8].
    apply mover_bind; [intros s0; apply vwp_modify, rtc_once, move_publish; [done|done|reflexivity|by left]|intros _].
    apply mover_steady. steady. apply steady_modify. intros s0. split; [done|reflexivity|by right|done].
Qed.

(** ** All the calls *)

Inductive Call :=
  | CallUnlock (proof : UnlockProof)
  | CallLock (reason : string) (preserve_desktop : bool)
  | CallVerify (proof : UnlockProof)
  | CallShutdown (proof : UnlockProof)
  | CallConfirm (expected : RollbackContext) (proof : RestoreProof) (not_after : Instant)
  | CallPasswordChange (proof : UnlockProof) (new_password : list Z) (not_after : option Instant)
  | CallRecoveryRotate (proof : UnlockProof) (not_after : option Instant)
  | CallCredentialAdd (label : string) (kind : CredentialKind) (secret : list Z) (proof : UnlockProof) (not_after : option Instant)
  | CallCredentialRotate (id : CredentialId) (kind : CredentialKind) (expected : option Z) (secret : list Z) (proof : UnlockProof)
      (not_after : option Instant)
  | CallCredentialRevoke (id : CredentialId) (proof : UnlockProof) (not_after : option Instant)
  | CallPrepare (id : CredentialId)
  | CallPrepareExecution (id : CredentialId)
  | CallPrepareInternal (id : CredentialId)
  | CallTrustInstall (input : PolicyTrustInput) (proof : UnlockProof) (not_after : option Instant)
  | CallBundleActivate (input : PolicyBundleInput) (proof : UnlockProof) (not_after : option Instant)
  | CallPolicyMaterial
  | CallRetentionSet (request : AuditRetentionSet) (proof : UnlockProof) (not_after : option Instant)
  | CallRetentionStatus
  | CallMaintenance (not_after : Instant)
  | CallBegin (usage : ProfileUsageStart) (preceding : list AuditDraft) (started : AuditDraft) (not_after : Instant) (wall : option Z)
  | CallSettle (request : RequestId) (measured : option Z) (terminal : AuditDraft)
  | CallUsage (principal : PrincipalId) (instance : string) (day : Z)
  | CallAppend (draft : AuditDraft)
  | CallAppends (drafts : list AuditDraft).
Definition discard {A} (m : V A) : V unit := _ ← m; mret tt.
Definition perform (c : Call) : V unit :=
  match c with
  | CallUnlock proof => unlock proof
  | CallLock reason preserve => set_locked reason preserve
  | CallVerify proof => verify_proof proof
  | CallShutdown proof => verify_shutdown_proof proof
  | CallConfirm expected proof na => confirm_rollback expected proof na
  | CallPasswordChange proof new na => password_change proof new na
  | CallRecoveryRotate proof na => discard (recovery_rotate proof na)
  | CallCredentialAdd label kind secret proof na => discard (credential_add label kind secret proof na)
  | CallCredentialRotate id kind expected secret proof na => discard (credential_rotate_typed id kind expected secret proof na)
  | CallCredentialRevoke id proof na => discard (credential_revoke id proof na)
  | CallPrepare id => discard (prepare_credential id)
  | CallPrepareExecution id => discard (prepare_execution_credential id)
  | CallPrepareInternal id => discard (prepare_internal_credential id)
  | CallTrustInstall input proof na => discard (policy_trust_install input proof na)
  | CallBundleActivate input proof na => discard (policy_bundle_activate input proof na)
  | CallPolicyMaterial => discard policy_material
  | CallRetentionSet request proof na => discard (audit_retention_set request proof na)
  | CallRetentionStatus => discard audit_retention_status
  | CallMaintenance na => discard (audit_retention_maintenance na)
  | CallBegin usage preceding started na wall => discard (begin_execution usage preceding started na wall)
  | CallSettle request measured terminal => settle_execution request measured terminal
  | CallUsage principal instance day => discard (query_usage principal instance day)
  | CallAppend draft => append_audit draft
  | CallAppends drafts => append_audits drafts
  end.
Definition accepts_rollback (c : Call) : bool := match c with CallConfirm _ _ _ => true | _ => false end.
Definition history : list Call -> V unit := veach perform.

Lemma mover_discard {A} (m : V A) : mover accept m -> mover accept (discard m).
Proof. intros Hm. apply mover_bind; [done|]. intros _. apply mover_steady, steady_ret. Qed.
Lemma mover_perform {HL : HostLaws} c : accept || negb (accepts_rollback c) = true -> mover accept (perform c).
Proof.
  destruct c; cbn [perform accepts_rollback negb]; intros Ha; try apply mover_discard; try (apply mover_steady; solve [unfold audit_retention_status,
    prepare_credential, prepare_execution_credential, prepare_internal_credential; steady; apply steady_prepare]).
  - apply mover_unlock.
  - apply mover_confirm. by rewrite orb_false_r in Ha.
  - apply mover_password_change.
  - apply mover_recovery_rotate.
  - apply mover_add.
  - apply mover_rotate.
  - apply mover_revoke.
  - apply mover_trust.
  - apply mover_bundle.
  - apply mover_retention.
Qed.

End WithLibraries.
