(* ===== verification/VaultHistory.v ===== *)
(** * VaultHistory: what the changes keep of the tables

    The rows of the credentials stay consistent with their versions, a revoked
    credential stays revoked, and the active bundle's version only rises, to the next
    one. *)

From stdpp Require Import relations.
From S2P Require Import Prelude Strings Bytes Errors Domain Codec SessionState Approval Action FixedAction Decimal Json Signed AuditRecords.
From S2P Require Import VaultModel VaultTables VaultStore Usage VaultRows KeyWrap LifecycleSeals VaultContent VaultWorker Generation AuditLog.
From S2P Require Import VaultUnlock VaultMutations VaultRules VaultMoves VaultCommit VaultOperations.

(** What the schema enforces of these rows: keys, the foreign key, and the states. *)
Record constrained (t : Tables) : Prop := {
  cn_ids : forall c c', c ∈ credentials t -> c' ∈ credentials t -> rc_credential_id c = rc_credential_id c' -> c = c';
  cn_keys : forall v v', v ∈ credential_versions t -> v' ∈ credential_versions t ->
    rv_credential_id v = rv_credential_id v' -> rv_version v = rv_version v' -> v = v';
  cn_owner : forall v, v ∈ credential_versions t -> exists c, c ∈ credentials t /\ rc_credential_id c = rv_credential_id v;
  cn_states : forall c, c ∈ credentials t -> rc_state c = "active" \/ rc_state c = "revoked";
}.
(** What [versions_consistent] says of them. *)
Record rows_ok (t : Tables) : Prop := {
  ro_rows : constrained t;
  ro_current : forall c, c ∈ credentials t -> exists v, v ∈ credential_versions t /\
    rv_credential_id v = rc_credential_id c /\ rv_version v = rc_current_version c /\ rv_state v = rc_state c;
  ro_active : forall v, v ∈ credential_versions t -> rv_state v = "active" -> exists c, c ∈ credentials t /\
    rc_credential_id c = rv_credential_id v /\ rc_state c = "active" /\ rc_current_version c = rv_version v;
}.
(** The one row of a list with the property is the first. *)
Lemma find_first_unique {A} (p : A -> bool) l x :
  x ∈ l -> p x = true -> (forall y, y ∈ l -> p y = true -> y = x) -> find_first p l = Some x.
Proof.
  intros Hx Hp Hu. destruct (find_first p l) as [y|] eqn:Ey.
  - apply find_first_Some in Ey as [Hy Hpy]. by rewrite (Hu y Hy Hpy).
  - rewrite find_first_None in Ey. by rewrite Ey in Hp.
Qed.
Lemma rows_ok_consistent t : rows_ok t <-> constrained t /\ versions_consistent t = true.
Proof.
  unfold versions_consistent. rewrite andb_true_iff, !forallb_forall.
  setoid_rewrite <- list_elem_of_In. split.
  - intros [Hc Hcur Hact]. split; [done|]. split.
    + intros c Hin. destruct (Hcur c Hin) as (v & Hv & Hi & Hn & Hs). unfold credential_consistent, current_row.
      erewrite find_first_unique; [|exact Hv|..].
      * rewrite Hs. by destruct (cn_states _ Hc c Hin) as [-> | ->].
      * rewrite Hi, Hn, Z.eqb_refl, andb_true_r. by apply bool_decide_eq_true.
      * intros y Hy Hp. reflect_bools. apply (cn_keys _ Hc y v Hy Hv); congruence.
    + intros v Hv. unfold version_consistent. destruct (str_eqb (rv_state v) "active") eqn:Es; [|done]. apply bool_decide_eq_true in Es.
      destruct (Hact v Hv Es) as (c & Hin & Hi & Hst & Hn). erewrite find_first_unique; [|exact Hin|..].
      * by rewrite Hst, Hn, Z.eqb_refl.
      * by apply bool_decide_eq_true.
      * intros y Hy Hp. reflect_bools. apply (cn_ids _ Hc y c Hy Hin); congruence.
  - intros [Hc [Hcur Hact]]. split; [done| |].
    + intros c Hin. specialize (Hcur c Hin). unfold credential_consistent, current_row in Hcur.
      destruct (find_first _ _) as [v|] eqn:Ev; [|done]. apply find_first_Some in Ev as [Hv Hp]. reflect_bools.
      exists v. split_and!; try done. destruct (cn_states _ Hc c Hin) as [Hs|Hs]; rewrite Hs in *;
        match goal with |- _ = ?x => destruct (str_eqb (rv_state v) x) eqn:E; [by apply bool_decide_eq_true in E|done] end.
    + intros v Hv Hs. specialize (Hact v Hv). unfold version_consistent in Hact. rewrite Hs in Hact. cbn in Hact.
      destruct (find_first _ _) as [c|] eqn:Ec; [|done]. apply find_first_Some in Ec as [Hin Hp]. reflect_bools.
      change (str_eqb (rc_state c) "active" && (rc_current_version c =? rv_version v) = true) in Hact. unfold str_eqb in Hact.
      exists c. by reflect_bools.
Qed.

(** ** Rows that only move *)

Section WithLibraries.
Context {H : Host} {AH : AnchorHost} {CC : Codecs} {SG : Signatures} {SJ : Serde} {VW : ValueWriter} {RC : RecordCodec} {AE : Aead}.

(** Updates that keep the keys. *)
Definition keeps_credential (g : RawCredential -> RawCredential) : Prop := forall c,
  rc_credential_id (g c) = rc_credential_id c /\ (rc_state (g c) = rc_state c \/ rc_state (g c) = "revoked").
Definition keeps_version (f : RawVersion -> RawVersion) : Prop := forall v,
  rv_credential_id (f v) = rv_credential_id v /\ rv_version (f v) = rv_version v.
Lemma constrained_map f g t t' :
  keeps_version f -> keeps_credential g -> credentials t' = map g (credentials t) -> credential_versions t' = map f (credential_versions t) ->
  constrained t -> constrained t'.
Proof.
  intros Hf Hg Ec Ev [Hi Hk Ho Hs]. split; rewrite ?Ec, ?Ev.
  - intros x x' (c & -> & Hc)%list_elem_of_fmap (c' & -> & Hc')%list_elem_of_fmap Hid.
    destruct (Hg c) as [Hgc _], (Hg c') as [Hgc' _]. by rewrite (Hi c c') by congruence.
  - intros x x' (v & -> & Hv)%list_elem_of_fmap (v' & -> & Hv')%list_elem_of_fmap Hid Hn.
    destruct (Hf v), (Hf v'). by rewrite (Hk v v') by congruence.
  - intros x (v & -> & Hv)%list_elem_of_fmap. destruct (Ho v Hv) as (c & Hc & Hid). exists (g c).
    split; [by apply list_elem_of_fmap_2|]. destruct (Hg c) as [-> _], (Hf v) as [-> _]. done.
  - intros x (c & -> & Hc)%list_elem_of_fmap. destruct (Hg c) as [_ [-> | ->]]; [by apply Hs|by right].
Qed.
(** A new version of a credential that is there. *)
Lemma constrained_version v t t' n : insert_version_row v t = Some (t', n) -> constrained t ->
  constrained t' /\ credentials t' = credentials t /\ credential_versions t' = credential_versions t ++ [v] /\
  (forall v', v' ∈ credential_versions t -> rv_credential_id v' = rv_credential_id v -> rv_version v' <> rv_version v).
Proof.
  unfold insert_version_row. case_match eqn:Eb; [|done]. intros [= <- _] [Hi Hk Ho Hs]. reflect_bools.
  assert (Hnew : forall v', v' ∈ credential_versions t -> rv_credential_id v' = rv_credential_id v -> rv_version v' <> rv_version v).
  { intros v' Hv' Hid Hn. match goal with Hx : existsb (version_collides v) _ = false |- _ => rewrite <- not_true_iff_false in Hx; apply Hx end.
    apply existsb_exists. exists v'. split; [by apply list_elem_of_In|]. unfold version_collides. rewrite Hn, Z.eqb_refl, andb_true_r.
    by apply bool_decide_eq_true. }
  split; [|done]. split; cbn; [done| | |done].
  - intros x x' [Hx| ->%list_elem_of_singleton]%elem_of_app [Hx'| ->%list_elem_of_singleton]%elem_of_app Hid Hn; try done; [by apply Hk|exfalso..].
    + by apply (Hnew x).
    + by apply (Hnew x').
  - intros x [Hx| ->%list_elem_of_singleton]%elem_of_app; [by apply Ho|].
    match goal with Hx : existsb (fun c => bool_decide _) _ = true |- _ => apply existsb_exists in Hx as (c & Hc%list_elem_of_In & Hb) end.
    exists c. by reflect_bools.
Qed.
(** ** The three changes *)

Lemma insert_rows_ok rc rv t t1 t2 n m :
  insert_credential_row rc t = Some (t1, n) -> n <> 0 -> insert_version_row rv t1 = Some (t2, m) ->
  rv_credential_id rv = rc_credential_id rc -> rv_version rv = rc_current_version rc -> rv_state rv = "active" -> rc_state rc = "active" ->
  rows_ok t -> rows_ok t2.
Proof.
  unfold insert_credential_row. case_match eqn:Eb; [by intros [= <- <-]|]. intros [= <- _] _ Hv Hid Hn Hs Hst [Hc Hcur Hact].
  assert (Hnew : forall c, c ∈ credentials t -> rc_credential_id c <> rc_credential_id rc).
  { intros c Hin Heq. apply orb_false_iff in Eb as [_ Eb]. rewrite <- not_true_iff_false in Eb. apply Eb, existsb_exists. exists c.
    split; [by apply list_elem_of_In|]. rewrite bool_decide_eq_true_2; done. }
  destruct Hc as [Hi Hk Ho Hss]. apply constrained_version in Hv as (Hc2 & Ec & Ev & _).
  2: { split; cbn; [| done| |].
    - intros x x' [Hx| ->%list_elem_of_singleton]%elem_of_app [Hx'| ->%list_elem_of_singleton]%elem_of_app Heq; try done; [by apply Hi|exfalso..].
      + by apply (Hnew x).
      + by apply (Hnew x').
    - intros v Hin. destruct (Ho v Hin) as (c & Hc & ?). exists c. split; [|done]. apply elem_of_app. by left.
    - intros c [Hc| ->%list_elem_of_singleton]%elem_of_app; [by apply Hss|by left]. }
  cbn in Ec, Ev. split; [done|rewrite Ec, Ev..].
  - intros c [Hin| ->%list_elem_of_singleton]%elem_of_app.
    + destruct (Hcur c Hin) as (v & Hv & ?). exists v. split; [|done]. apply elem_of_app. by left.
    + exists rv. split; [apply elem_of_app; right; by apply list_elem_of_singleton|]. split_and!; congruence.
  - intros v [Hin| ->%list_elem_of_singleton]%elem_of_app Ha.
    + destruct (Hact v Hin Ha) as (c & Hc & ?). exists c. split; [|done]. apply elem_of_app. by left.
    + exists rc. split; [apply elem_of_app; right; by apply list_elem_of_singleton|]. split_and!; congruence.
Qed.
Lemma is_active_version_spec id v : is_active_version id v = true <-> rv_credential_id v = id_as_bytes id /\ rv_state v = "active".
Proof. unfold is_active_version, str_eqb. by rewrite andb_true_iff, !bool_decide_eq_true. Qed.
Lemma is_active_credential_spec id c : is_active_credential id c = true <-> rc_credential_id c = id_as_bytes id /\ rc_state c = "active".
Proof. unfold is_active_credential, str_eqb. by rewrite andb_true_iff, !bool_decide_eq_true. Qed.
(** Beside the credential, nothing that a retirement touches. *)
Lemma other_rows id t c v : rows_ok t -> c ∈ credentials t -> is_active_credential id c = false -> v ∈ credential_versions t ->
  rv_credential_id v = rc_credential_id c -> is_active_version id v = false.
Proof.
  intros [Hc _ Hact] Hin Ha Hv Hid. rewrite <- not_true_iff_false in *. intros [Hvi Hvs]%is_active_version_spec. apply Ha.
  apply is_active_credential_spec. destruct (Hact v Hv Hvs) as (c' & Hin' & Hid' & Hs' & _).
  assert (c' = c) by (by apply (cn_ids _ Hc); congruence). subst c'. split; [congruence|done].
Qed.
Lemma retired_keeps state at_ms id : keeps_version (fun r => if is_active_version id r then retire_row state at_ms r else r).
Proof. intros v. by destruct (is_active_version id v). Qed.
Lemma updated_keeps f id : keeps_credential f -> keeps_credential (fun r => if is_active_credential id r then f r else r).
Proof. intros Hf c. destruct (is_active_credential id c); [apply Hf|]. split; [done|by left]. Qed.
Lemma retain_nonempty {A} (p : A -> bool) l : llen (retain p l) <> 0 -> exists x, x ∈ l /\ p x = true.
Proof.
  destruct (retain p l) as [|x r] eqn:Er; [done|]. intros _. exists x. apply elem_of_retain. rewrite Er. left.
Qed.
Lemma rotate_rows_ok f id rv now t t1 t2 t3 n m k :
  retire_versions id VerRetired now t = Some (t1, n) -> insert_version_row rv t1 = Some (t2, m) ->
  update_credentials f id t2 = Some (t3, k) -> k <> 0 ->
  keeps_credential f -> (forall c, rc_state (f c) = rc_state c /\ rc_current_version (f c) = rv_version rv) ->
  rv_credential_id rv = id_as_bytes id -> rv_state rv = "active" -> rows_ok t -> rows_ok t3.
Proof.
  intros [= <- _] Hv [= <- <-] Hk Hf Hfc Hid Hs Hok. destruct Hok as [Hc Hcur Hact] eqn:Eok. clear Eok.
  apply constrained_version in Hv as (Hc2 & Ec & Ev & Hnew).
  2: { eapply (constrained_map _ (fun c => c) t); [apply retired_keeps|by intros c; split; [|left]|by rewrite map_id|reflexivity|done]. }
  cbn in Ec, Ev, Hnew. rewrite Ec in Hk. apply retain_nonempty in Hk as (c0 & Hin0 & [Hid0 Hs0]%is_active_credential_spec).
  split; cbn; rewrite ?Ec, ?Ev.
  - eapply (constrained_map (fun v => v) _ t2); [by intros v; split|by apply updated_keeps|cbn; by rewrite Ec|cbn; by rewrite map_id|done].
  - intros x (c & -> & Hin)%list_elem_of_fmap. destruct (is_active_credential id c) eqn:Ea.
    + exists rv. split; [apply elem_of_app; right; by apply list_elem_of_singleton|]. apply is_active_credential_spec in Ea as [Hidc Hsc].
      destruct (Hf c) as [-> _], (Hfc c) as [-> ->]. split_and!; congruence.
    + destruct (Hcur c Hin) as (v & Hv & Hvi & Hvn & Hvs). exists v. split; [|done]. apply elem_of_app. left. apply list_elem_of_fmap.
      exists v. by rewrite (other_rows id t c v Hok Hin Ea Hv Hvi).
  - intros x [(v & -> & Hv)%list_elem_of_fmap| ->%list_elem_of_singleton]%elem_of_app.
    + destruct (is_active_version id v) eqn:Ea; [done|]. intros Ha. destruct (Hact v Hv Ha) as (c & Hin & Hci & Hcs & Hcn). exists c.
      split; [|done]. apply list_elem_of_fmap. exists c. split; [|done]. destruct (is_active_credential id c) eqn:Eac; [|done].
      apply is_active_credential_spec in Eac as [Hci' _]. rewrite <- not_true_iff_false, is_active_version_spec in Ea. destruct Ea. split; congruence.
    + intros _. exists (f c0). destruct (Hf c0) as [Hfi _], (Hfc c0) as [Hfs Hfn]. split_and!; try congruence.
      apply list_elem_of_fmap. exists c0. split; [|done]. by rewrite (proj2 (is_active_credential_spec id c0)).
Qed.
Lemma revoke_rows_ok f id now t t1 t2 n m :
  update_credentials f id t = Some (t1, n) -> retire_versions id VerRevoked now t1 = Some (t2, m) ->
  keeps_credential f -> (forall c, rc_state (f c) = "revoked" /\ rc_current_version (f c) = rc_current_version c) ->
  rows_ok t -> rows_ok t2.
Proof.
  intros [= <- _] [= <- _] Hf Hfc Hok. destruct Hok as [Hc Hcur Hact] eqn:Eok. clear Eok. split; cbn.
  - eapply constrained_map; [apply retired_keeps|by apply updated_keeps|reflexivity..|done].
  - intros x (c & -> & Hin)%list_elem_of_fmap. destruct (Hcur c Hin) as (v & Hv & Hvi & Hvn & Hvs).
    eexists. split; [by apply list_elem_of_fmap_2|]. cbn. destruct (is_active_credential id c) eqn:Ea.
    + apply is_active_credential_spec in Ea as [Hidc Hsc]. rewrite (proj2 (is_active_version_spec id v)) by (split; congruence).
      destruct (Hf c) as [-> _], (Hfc c) as [-> ->]. cbn. split_and!; congruence.
    + by rewrite (other_rows id t c v Hok Hin Ea Hv Hvi).
  - intros x (v & -> & Hv)%list_elem_of_fmap. destruct (is_active_version id v) eqn:Ea; [done|]. intros Ha.
    destruct (Hact v Hv Ha) as (c & Hin & Hci & Hcs & Hcn). exists c. split; [|done]. apply list_elem_of_fmap. exists c. split; [|done].
    destruct (is_active_credential id c) eqn:Eac; [|done]. apply is_active_credential_spec in Eac as [Hci' _].
    rewrite <- not_true_iff_false, is_active_version_spec in Ea. destruct Ea. split; congruence.
Qed.

(** ** All the changes *)

Lemma rows_ok_same t t' : credentials t' = credentials t -> credential_versions t' = credential_versions t -> rows_ok t -> rows_ok t'.
Proof. intros Ec Ev [[] ? ?]. split; [split|..]; by rewrite ?Ec, ?Ev. Qed.
Lemma wrapper_frame w kind at_ms t t1 t2 n m :
  disable_wrappers kind at_ms t = Some (t1, n) -> insert_wrapper_row w t1 = Some (t2, m) ->
  credentials t2 = credentials t /\ credential_versions t2 = credential_versions t /\ policy_bundle t2 = policy_bundle t.
Proof. intros [= <- _]. unfold insert_wrapper_row. case_match; [|done]. by intros [= <- _]. Qed.
Lemma trust_frame trust st t t1 t2 n m :
  insert_trust_row trust t = Some (t1, n) -> VaultMutations.update_policy_state st t1 = Some (t2, m) ->
  credentials t2 = credentials t /\ credential_versions t2 = credential_versions t /\ policy_bundle t2 = policy_bundle t.
Proof.
  unfold insert_trust_row, VaultMutations.update_policy_state. case_match; [|done]. intros [= <- _]. cbn.
  destruct (policy_state t); [case_match|]; by intros [= <- _].
Qed.
Lemma version_frame rv t t' n : insert_version_row rv t = Some (t', n) -> credentials t' = credentials t /\ policy_bundle t' = policy_bundle t.
Proof. unfold insert_version_row. case_match; [|done]. by intros [= <- _]. Qed.
Lemma change_rows t t' : change t t' -> rows_ok t -> rows_ok t'.
Proof.
  intros [t0|kind at_ms w t0 t1 t2 Hk Hd Hi|c v n m t0 t1 t2 Hid Hst Hcur Hver Hact Hc Hn Hv|c v now n m k t0 t1 t2 t3 Hid Hver Hact Hr Hv Hu Hk
    |c now n m t0 t1 t2 Hu Hn Hr|st trust n t0 t1 t2 Ht Hs|st bundle t0 u Ho Hmax Hu|r t0 t1 Hu].
  - done.
  - destruct (wrapper_frame _ _ _ _ _ _ _ _ Hd Hi) as (? & ? & _). by apply rows_ok_same.
  - eapply insert_rows_ok; [exact Hc|exact Hn|exact Hv|..]; unfold raw_of_version, raw_of_credential;
      cbn [rv_credential_id rc_credential_id rv_version rc_current_version rv_state rc_state];
      [by rewrite Hid|by rewrite Hver, Hcur|by rewrite Hact|by rewrite Hst].
  - eapply rotate_rows_ok; [exact Hr|exact Hv|exact Hu|exact Hk|..]; unfold raw_of_version, rotated_row;
      cbn [rv_credential_id rc_credential_id rv_version rc_current_version rv_state rc_state];
      [by split; [|left]|by rewrite Hver|done|by rewrite Hact].
  - eapply revoke_rows_ok; [exact Hu|exact Hr|..]; [by split; [|right]|done].
  - destruct (trust_frame _ _ _ _ _ _ _ Ht Hs) as (? & ? & _). by apply rows_ok_same.
  - subst u. by apply rows_ok_same.
  - injection Hu as <-. by apply rows_ok_same.
Qed.

(** ** Revocation *)

Definition revoked (id : CredentialId) (t : Tables) : Prop := exists r,
  find_first (fun c => bool_decide (rc_credential_id c = id_as_bytes id)) (credentials t) = Some r /\ rc_state r = "revoked".
Lemma revoked_same id t t' : credentials t' = credentials t -> revoked id t -> revoked id t'.
Proof. unfold revoked. by intros ->. Qed.
Lemma revoked_update f id0 id t t' n : (forall c, rc_credential_id (f c) = rc_credential_id c) ->
  update_credentials f id0 t = Some (t', n) -> revoked id t -> revoked id t'.
Proof.
  intros Hf [= <- _] (r & Hr & Hs). exists r. split; [|done]. unfold set_credentials. cbn [credentials]. rewrite find_first_map.
  - rewrite Hr. cbn. destruct (is_active_credential id0 r) eqn:Ea; [|done]. apply is_active_credential_spec in Ea. destruct Ea. congruence.
  - intros c. destruct (is_active_credential id0 c); [by rewrite Hf|done].
Qed.
Lemma change_revoked id t t' : change t t' -> revoked id t -> revoked id t'.
Proof.
  intros [t0|kind at_ms w t0 t1 t2 Hk Hd Hi|c v n m t0 t1 t2 Hid Hst Hcur Hver Hact Hc Hn Hv|c v now n m k t0 t1 t2 t3 Hid Hver Hact Hr Hv Hu Hk
    |c now n m t0 t1 t2 Hu Hn Hr|st trust n t0 t1 t2 Ht Hs|st bundle t0 u Ho Hmax Hu|r t0 t1 Hu].
  - done.
  - apply revoked_same, (wrapper_frame _ _ _ _ _ _ _ _ Hd Hi).
  - intros (r & Hr & Hs). apply (revoked_same _ t1); [by eapply version_frame|]. unfold insert_credential_row in Hc. exists r. split; [|done].
    case_match; injection Hc as <- _; [done|]. unfold set_credentials. cbn [credentials]. by rewrite find_first_app, Hr.
  - intros Hrv. eapply (revoked_update (rotated_row c)); [done|exact Hu|]. apply (revoked_same _ t1); [by eapply version_frame|]. by injection Hr as <- _.
  - intros Hrv. injection Hr as <- _. apply (revoked_same _ t1); [done|]. by eapply (revoked_update (revoked_row c)).
  - apply revoked_same, (trust_frame _ _ _ _ _ _ _ Ht Hs).
  - subst u. by apply revoked_same.
  - injection Hu as <-. by apply revoked_same.
Qed.

(** ** The active bundle *)

(** The versions of the active bundle never go down, and no version is used twice. *)
Definition bundle_rises (t t' : Tables) : Prop := forall r, policy_bundle t = Some r -> exists r', policy_bundle t' = Some r' /\
  rpb_version r <= rpb_version r' /\ (rpb_version r' = rpb_version r -> r' = r).
#[export] Instance bundle_rises_preorder : PreOrder bundle_rises.
Proof.
  split; [intros t r Hr; by exists r|]. intros t1 t2 t3 H12 H23 r1 H1. destruct (H12 r1 H1) as (r2 & H2 & Hle & He).
  destruct (H23 r2 H2) as (r3 & H3 & Hle' & He'). exists r3. split; [done|]. split; [lia|]. intros Heq.
  rewrite He' by lia. apply He. lia.
Qed.
Lemma bundle_rises_same t t' : policy_bundle t' = policy_bundle t -> bundle_rises t t'.
Proof. intros Hb r Hr. exists r. by rewrite Hb. Qed.
Lemma bundle_version r b : policy_bundle_of_raw r = Ok b -> pbr_version b = rpb_version r.
Proof.
  unfold policy_bundle_of_raw. intros Hb. bind_inv Hb. subst b. cbn.
  match goal with Hp : positive_u64 _ = Ok _ |- _ => unfold positive_u64 in Hp; case_match; by simplify_eq end.
Qed.
Lemma change_bundle_rises t t' : change t t' -> bundle_rises t t'.
Proof.
  intros [t0|kind at_ms w t0 t1 t2 Hk Hd Hi|c v n m t0 t1 t2 Hid Hst Hcur Hver Hact Hc Hn Hv|c v now n m k t0 t1 t2 t3 Hid Hver Hact Hr Hv Hu Hk
    |c now n m t0 t1 t2 Hu Hn Hr|st trust n t0 t1 t2 Ht Hs|st bundle t0 u Ho Hmax Hu|r t0 t1 Hu].
  - reflexivity.
  - apply bundle_rises_same, (wrapper_frame _ _ _ _ _ _ _ _ Hd Hi).
  - apply bundle_rises_same. destruct (version_frame _ _ _ _ Hv) as [_ ->]. unfold insert_credential_row in Hc. by case_match; injection Hc as <- _.
  - injection Hu as <- _. apply bundle_rises_same. cbn. destruct (version_frame _ _ _ _ Hv) as [_ ->]. by injection Hr as <- _.
  - injection Hu as <- _. injection Hr as <- _. by apply bundle_rises_same.
  - apply bundle_rises_same, (trust_frame _ _ _ _ _ _ _ Ht Hs).
  - subst u. intros r Hr. destruct Ho as (old & Ho & Hv). unfold active_bundle in Ho. rewrite Hr in Ho. cbn in Ho.
    destruct (policy_bundle_of_raw r) as [b|] eqn:Eb; [cbn in Ho|done]. injection Ho as <-. apply bundle_version in Eb.
    eexists. split; [reflexivity|]. cbn [raw_of_policy_bundle rpb_version]. unfold u64_as_i64. rewrite (proj2 (Z.leb_le _ _) Hmax), Hv. cbn. rewrite Eb. lia.
  - injection Hu as <-. by apply bundle_rises_same.
Qed.

End WithLibraries.

(** * What a history of calls can do

    Consequences of VaultOperations.v for calls in any order: the generations outside
    the database only rise and stay ahead of it, an older database stays closed, a
    revoked credential stays revoked, and the versions of the active policy bundle
    rise one by one. *)

Section WithLibraries.
Context {H : Host} {AH : AnchorHost} {CC : Codecs} {SG : Signatures} {SJ : Serde} {VW : ValueWriter} {RC : RecordCodec}.
Context {AE : Aead} {KD : Kdf} {LC : LeaseCodec} {JS : JsonSchema} {AC : ActionCodec} {UC : UnlockConfig} {MT : Materials} {DC : Documents}.

Lemma mover_each {A} accept (f : A -> V unit) l : (forall a, a ∈ l -> mover accept (f a)) -> mover accept (veach f l).
Proof.
  induction l as [|x l IH]; cbn [veach]; intros Hf; [apply mover_steady, steady_ret|].
  apply mover_bind; [apply Hf; left|]. intros _. apply IH. intros a Ha. apply Hf. by right.
Qed.
Lemma mover_history {HL : HostLaws} calls : mover (existsb accepts_rollback calls) (history calls).
Proof.
  apply mover_each. intros c Hc. apply (mover_perform _ c). destruct (existsb accepts_rollback calls) eqn:Ex; [done|].
  destruct (accepts_rollback c) eqn:Ea; [|done]. change (false = true). rewrite <- Ex. apply existsb_exists. exists c. by rewrite <- list_elem_of_In.
Qed.

(** ** The marks *)

(** Every mark of [g] is reached in [g']. *)
Definition marks_rise (g g' : Guard) : Prop := forall m, m ∈ marks g -> exists m', m' ∈ marks g' /\ m <= m'.
#[export] Instance marks_rise_preorder : PreOrder marks_rise.
Proof.
  split; [intros g m Hm; by exists m|]. intros g1 g2 g3 H12 H23 m Hm. destruct (H12 m Hm) as (m2 & Hm2 & ?).
  destruct (H23 m2 Hm2) as (m3 & Hm3 & ?). exists m3. split; [done|lia].
Qed.
Lemma marks_rise_same g g' : same_anchors g g' -> marks_rise g g'.
Proof. intros Hs m Hm. exists m. by rewrite (marks_anchors _ _ Hs). Qed.
Lemma marks_rise_raised n g g' : n <= u64_max -> Forall (fun m => m < n) (marks g) -> raised n g g' -> marks_rise g g'.
Proof. intros Hn Hf Hr m Hm. by eapply raised_up. Qed.
Lemma move_marks accept s s' : move accept s s' -> marks_rise (v_guard s) (v_guard s').
Proof.
  intros [? ? Hq|? ? _ _ Ha _|n ? ? _ _ _ Hn Hf Hr|n t h ? ? _ _ _ _ Hn _ Hf Hg|vrk g ? ? _ Ha _ _ _ _];
    [apply marks_rise_same, Hq|by apply marks_rise_same|by eapply marks_rise_raised|eapply marks_rise_raised; [done..|by right; right]|by apply marks_rise_same].
Qed.
Lemma moves_marks accept s s' : moves accept s s' -> marks_rise (v_guard s) (v_guard s').
Proof. induction 1 as [|s1 s2 s3 Hm _ IH]; [reflexivity|]. etrans; [by eapply move_marks|done]. Qed.
Definition above (n : Z) (g : Guard) : Prop := Forall (fun m => m < n) (marks g).
Lemma above_rise n g g' : marks_rise g g' -> above n g' -> above n g.
Proof.
  unfold above. rewrite !Forall_forall. intros Hr Hf m Hm. destruct (Hr m Hm) as (m' & Hm' & ?). specialize (Hf m' Hm'). lia.
Qed.
Lemma db_generation_header h t n : rh_generation h = be_bytes 8 n -> n <= u64_max ->
  exists g, db_generation (set_header (Some h) t) = Some g /\ n <= g.
Proof. intros Hh Hn. unfold db_generation. cbn. rewrite Hh. eexists. split; [done|by apply be_value_at_least]. Qed.
Lemma moves_tables accept s s' : moves accept s s' ->
  tables s' = tables s \/ exists n, db_generation (tables s') = Some n /\ above n (v_guard s).
Proof.
  induction 1 as [|s1 s2 s3 Hm Hr IH]; [by left|]. pose proof (move_marks _ _ _ Hm) as Hr1.
  destruct IH as [IH|(n & Hn & Ha)]; [|right; exists n; split; [done|by eapply above_rise]].
  rewrite IH. destruct Hm as [? ? Hq|? ? _ Ht _ _|? ? ? _ Ht _ _ _ _|n t h ? ? _ _ Ht _ Hn Hh Hf _|? ? ? ? Ht _ _ _ _ _];
    [left; apply Hq|by left|by left| |by left].
  right. rewrite Ht. destruct (db_generation_header h t n Hh Hn) as (g & Hg & Hle). exists g. split; [done|].
  eapply Forall_impl; [exact Hf|]. cbn. lia.
Qed.

(** ** An older database *)

(** The vault is closed, over a database that is older than a mark. *)
Definition rolled_back (s : Vault) : Prop :=
  is_open s = false /\ exists g m, db_generation (tables s) = Some g /\ m ∈ marks (v_guard s) /\ g < m.
Lemma current_marks g n : file_mark g = Some n -> (g_protected g <> None -> protected_mark g = Some n) -> Forall (fun m => m = n) (marks g).
Proof.
  intros Hf Hp. unfold marks. rewrite Hf. constructor; [done|]. unfold protected_mark in *. destruct (g_protected g) as [v|]; [|constructor].
  rewrite Hp; [by repeat constructor|done].
Qed.
Lemma move_rolled_back s s' : move false s s' -> rolled_back s -> rolled_back s' /\ tables s' = tables s.
Proof.
  intros Hm [Hc (g & m & Hg & Hin & Hlt)].
  destruct Hm as [? ? [Ht Ha Hs _]|? ? Hac _ _ _|n ? ? Hmay _ _ _ _ _|n t h ? ? Hmay _ _ _ _ _ _ _|vrk n s s' _ _ _ Hn Hf Hp];
    [|done|by unfold may_commit in Hmay; rewrite Hc in Hmay..|].
  - split; [|done]. split; [destruct Hs as [Hs|]; [by rewrite (is_open_state _ _ Hs)|done]|]. exists g, m.
    rewrite Ht, (marks_anchors _ _ Ha). done.
  - pose proof (current_marks _ _ Hf Hp) as Hall. rewrite Forall_forall in Hall. specialize (Hall _ Hin). assert (g = n) by congruence. lia.
Qed.
Lemma moves_rolled_back s s' : moves false s s' -> rolled_back s -> rolled_back s' /\ tables s' = tables s.
Proof.
  induction 1 as [|s1 s2 s3 Hm _ IH]; [done|]. intros Hb. destruct (move_rolled_back _ _ Hm Hb) as [Hb2 Ht].
  destruct (IH Hb2) as [Hb3 Ht3]. split; [done|congruence].
Qed.

(** ** What holds of the tables throughout *)

(** The database's part of an invariant: what every change keeps. *)
Lemma moves_invariant (I : Tables -> Prop) accept s s' :
  (forall t t', change t t' -> I t -> I t') -> (forall h t, I t -> I (set_header h t)) ->
  moves accept s s' -> I (tables s) -> I (tables s').
Proof.
  intros HC Hh. induction 1 as [|s1 s2 s3 Hm _ IH]; [done|]. intros Hi. apply IH.
  destruct Hm as [? ? Hq|? ? _ Ht _ _|? ? ? _ Ht _ _ _ _|n t h ? ? _ Hc Ht _ _ _ _ _|? ? ? ? Ht _ _ _ _ _];
    [by rewrite (qt_tables _ _ Hq)|by rewrite Ht|by rewrite Ht| |by rewrite Ht].
  rewrite Ht. by apply Hh, (HC (tables s)).
Qed.
Lemma moves_rows accept s s' : moves accept s s' -> rows_ok (tables s) -> rows_ok (tables s').
Proof. apply moves_invariant; [apply change_rows|]. intros h t. by apply rows_ok_same. Qed.
Lemma moves_revoked accept id s s' : moves accept s s' -> revoked id (tables s) -> revoked id (tables s').
Proof. apply moves_invariant; [apply change_revoked|]. intros h t. by apply revoked_same. Qed.
Lemma moves_bundle accept s s' : moves accept s s' -> bundle_rises (tables s) (tables s').
Proof.
  intros Hm. apply (moves_invariant (bundle_rises (tables s)) accept s); [| |done|reflexivity].
  - intros t t' Hc Hb. etrans; [exact Hb|by apply change_bundle_rises].
  - intros h t Hb. etrans; [exact Hb|]. by apply bundle_rises_same.
Qed.

(** ** A revoked credential is not prepared *)

Lemma revoked_state id t r : revoked id t -> loaded t id r -> cr_state r = CredRevoked.
Proof.
  intros (raw & Hf & Hs) [_ (raw' & Hf' & Hr) _]. rewrite Hf in Hf'. injection Hf' as <-.
  unfold credential_of_raw in Hr. rewrite Hs in Hr. bind_inv Hr. subst r. cbn in *.
  match goal with Hp : integrity (credential_state_parse "revoked") = Ok _ |- _ => vm_compute in Hp; by injection Hp as <- end.
Qed.
Lemma prepare_revoked_wp id allow s : revoked id (tables s) ->
  vwp (prepare_credential_inner id allow) (fun _ _ => False) (fun _ s' => quiet s s') s.
Proof.
  intros Hr. unfold prepare_credential_inner. apply vwp_bind. eapply vwp_mono; [apply load_credential_wp| |done].
  cbn beta. intros c s1 [Q1 Hl]. rewrite (revoked_state _ _ _ Hr Hl).
  do 3 (apply vwp_rejected; [done|intros _]). by apply vwp_rejected.
Qed.
Definition refuses {A} (m : V A) (s : Vault) : Prop := forall a, (m s).1 <> Ok a.
Lemma refuses_wp {A} (m : V A) E s : vwp m (fun _ _ => False) E s -> refuses m s.
Proof. unfold vwp, refuses. intros Hm a. destruct (m s) as [[x|e] s']; [done|]. cbn. by intros [=]. Qed.
Lemma prepare_revoked id s : revoked id (tables s) ->
  refuses (prepare_credential id) s /\ refuses (prepare_execution_credential id) s /\ refuses (prepare_internal_credential id) s.
Proof.
  intros Hr. split_and!; apply (refuses_wp _ (fun _ _ => True)).
  - unfold prepare_credential. apply vwp_bind, vwp_try. eapply vwp_mono; [by apply prepare_revoked_wp|done|]. cbn beta. intros e s1 _.
    apply vwp_bind, vwp_reads, vwp_bind. destruct (is_broken _ && _); [|by apply vwp_ret, vwp_lift].
    eapply vwp_mono; [apply steady_fault| |done]. cbn beta. intros _ s2 _. by apply vwp_lift.
  - unfold prepare_execution_credential. apply vwp_bind, vwp_try. eapply vwp_mono; [by apply prepare_revoked_wp|done|]. cbn beta. intros e s1 _.
    apply vwp_bind. destruct (is_broken _); [|by apply vwp_ret, vwp_lift].
    eapply vwp_mono; [apply steady_fault| |done]. cbn beta. intros _ s2 _. by apply vwp_lift.
  - unfold prepare_internal_credential, fault_on_integrity. eapply vwp_mono; [apply (vwp_fault_on _ _ _ (fun _ _ => False) s); by apply prepare_revoked_wp|done|done].
Qed.

End WithLibraries.
