(* ===== verification/VaultRoundtrips.v ===== *)
(** * VaultRoundtrips: what is stored under the root comes back

    Successful runs: a wrapper that was written unwraps the root, a credential that
    was added is prepared with its secret, a vault that was created opens. *)

From S2P Require Import Prelude Strings Bytes Errors Domain Codec SessionState Approval Action FixedAction Decimal Json Signed AuditRecords.
From S2P Require Import VaultModel VaultTables VaultStore Usage VaultRows KeyWrap LifecycleSeals VaultContent VaultWorker Generation AuditLog.
From S2P Require Import VaultUnlock VaultMutations Bootstrap VaultRules VaultMoves VaultCommit VaultOperations VaultHistory.

(** ** Ids *)

Lemma random_id_blob b : length b = 16%nat -> Forall is_byte b -> id_of_blob (id_as_bytes (id_from_random_bytes b)) = Ok (id_from_random_bytes b).
Proof.
  intros Hl Hb. destruct (version_byte _ (Forall_nth_byte 6 _ Hb)) as [V6 S6]. destruct (variant_byte _ (Forall_nth_byte 8 _ Hb)) as [V8 _].
  set (bs := <[8%nat := set_variant (nth 8 b 0)]> (<[6%nat := set_version (nth 6 b 0)]> b)).
  assert (Hbs : Forall is_byte bs) by (unfold bs; repeat apply Forall_insert; assumption).
  assert (Hlb : length bs = 16%nat) by (unfold bs; by rewrite !length_insert).
  change (id_from_random_bytes b) with (be_value bs).
  assert (E : id_as_bytes (be_value bs) = bs) by (unfold id_as_bytes; rewrite <- Hlb; by apply be_bytes_value).
  rewrite E. unfold id_of_blob, blob. rewrite bool_decide_eq_true_2 by done. cbn. unfold id_from_bytes.
  destruct (Z.eqb_spec (be_value bs) 0) as [Hz|Hz]; [|done]. exfalso. rewrite Hz in E.
  apply (f_equal (fun l => nth 6 l 0)) in E. change (nth 6 (id_as_bytes 0) 0) with 0 in E. unfold bs in E.
  do 16 (destruct b as [|? b]; [discriminate|]). cbn in E, S6. rewrite <- E in S6. discriminate.
Qed.

Section WithLibraries.
Context {H : Host} {HL : HostLaws} {AH : AnchorHost} {CC : Codecs} {CL : CodecLaws} {SG : Signatures} {SJ : Serde} {VW : ValueWriter} {RC : RecordCodec}.
Context {AE : Aead} {AL : AeadLaws} {KD : Kdf} {KL : KdfLaws} {LC : LeaseCodec} {JS : JsonSchema} {AC : ActionCodec} {UC : UnlockConfig}.
Context {MT : Materials} {DC : Documents}.

(** ** Runs that succeed *)

Definition ok {A} (m : V A) (Q : A -> Vault -> Prop) (s : Vault) : Prop := vwp m Q (fun _ _ => True) s.
Lemma ok_run {A} (m : V A) Q s a s' : ok m Q s -> m s = (Ok a, s') -> Q a s'.
Proof. unfold ok, vwp. intros Ho E. by rewrite E in Ho. Qed.
Lemma ok_mono {A} (m : V A) (Q Q' : A -> Vault -> Prop) s : ok m Q s -> (forall a s', Q a s' -> Q' a s') -> ok m Q' s.
Proof. intros Hm HQ. eapply vwp_mono; [apply Hm|done|done]. Qed.
Lemma ok_bind {A B} (m : V A) (f : A -> V B) Q s : ok m (fun a s' => ok (f a) Q s') s -> ok (x ← m; f x) Q s.
Proof. apply vwp_bind. Qed.
Lemma ok_fault_on {A} e reason (m : V A) Q s : ok m Q s -> ok (fault_on e reason m) Q s.
Proof.
  unfold ok, vwp, fault_on, mbind, V_bind, vtry, vreads, vlift. destruct (m s) as [[a|err] s1]; cbn; [done|]. intros _.
  destruct (_ && _); cbn; [|done]. by destruct (fault reason s1) as [[[]|] s2].
Qed.
Lemma ok_steady {A B} (m : V A) (f : A -> V B) Q s0 s :
  steady m -> quiet s0 s -> (forall a s', quiet s0 s' -> ok (f a) Q s') -> ok (x ← m; f x) Q s.
Proof. intros Hm Hs Hf. apply ok_bind. eapply vwp_mono; [apply Hm| |done]. cbn. intros a s' Hq. apply Hf. by etrans. Qed.
Lemma ok_lift {A B} (r : result AuthorityError A) (f : A -> V B) Q s : (forall a, r = Ok a -> ok (f a) Q s) -> ok (x ← vlift r; f x) Q s.
Proof. intros Hf. apply ok_bind, vwp_lift; [exact Hf|done]. Qed.
(** What is known of a steady operation's result, besides. *)
Definition yields {A} (m : V A) (P : A -> Prop) : Prop := forall s, ok m (fun a s' => quiet s s' /\ P a) s.
Lemma ok_yields {A B} (m : V A) (P : A -> Prop) (f : A -> V B) Q s0 s :
  yields m P -> quiet s0 s -> (forall a s', P a -> quiet s0 s' -> ok (f a) Q s') -> ok (x ← m; f x) Q s.
Proof. intros Hm Hs Hf. apply ok_bind. eapply vwp_mono; [apply Hm| |done]. cbn. intros a s' [Hq Ha]. apply Hf; [done|]. by etrans. Qed.
Lemma yields_random n : yields (random_array n) (fun b => length b = n /\ Forall is_byte b).
Proof.
  intros s. unfold ok, vwp, random_array. destruct (entropy (v_tick s) n) as [b|] eqn:E; cbn; [|done].
  split; [apply same_quiet, same_v_ticked|by eapply entropy_length].
Qed.
Lemma yields_seal key aad plain :
  yields (aead_seal key aad plain) (fun p => length p.1 = 12%nat /\ aead_open key aad p.1 p.2 = Ok plain).
Proof.
  intros s. unfold aead_seal. eapply ok_yields; [apply yields_random|reflexivity|]. intros n s1 [Hn _] H1.
  apply ok_lift. intros c Hc. apply vwp_ret. split; [done|]. split; [done|]. cbn. unfold aead_open.
  destruct (gcm_encrypt key n aad plain) as [c'|] eqn:E; [|done]. injection Hc as ->. by rewrite (gcm_roundtrip _ _ _ _ _ E).
Qed.
(** The root in use stays the root while the vault is open. *)
Lemma quiet_open s s' vrk : quiet s s' -> v_state s = VUnlocked vrk -> is_open s' = true -> v_state s' = VUnlocked vrk.
Proof. intros [_ _ [->|Hc] _]; [done|congruence]. Qed.
Lemma ok_root {B} (f : list Z -> V B) Q s0 s vrk :
  quiet s0 s -> v_state s0 = VUnlocked vrk -> (v_state s = VUnlocked vrk -> ok (f vrk) Q s) -> ok (x ← require_unlocked; f x) Q s.
Proof.
  intros Hq Hs Hf. apply ok_bind. unfold ok, vwp, require_unlocked. destruct (v_state s) as [|k| |] eqn:E; try done.
  assert (Hk : v_state s = VUnlocked vrk) by (apply (quiet_open s0); [done|done|]; unfold is_open; by rewrite E). rewrite E in Hk.
  injection Hk as ->. by apply Hf.
Qed.
Lemma committed_wp work a (W : Database -> Database -> Prop) s : works work a W ->
  ok (committed work) (fun _ s' => (exists d r, W (v_db s) d /\ prior_header a d r /\ v_db s' = with_header a r d) /\
    v_state s' = v_state s /\ v_vault_id s' = v_vault_id s) s.
Proof.
  intros Hw. unfold committed. apply ok_bind. eapply vwp_mono; [by apply commit_with_wp| |done]. intros [[a'|e] b] s1; cbn.
  - intros [-> [(d & r & HW & Hr & Ed) _ _ Es Eh]]. unfold ok, vwp, complete_generation, fault_on_integrity, fault_on, mbind, V_bind, vreads, vmodify, vtry, vlift.
    cbn. split; [by exists d, r|]. split; [done|]. unfold v_vault_id. cbn. by rewrite Eh.
  - intros _. unfold ok, vwp, complete_generation, fault_on_integrity, fault_on, mbind, V_bind, vreads, vtry, vlift. cbn.
    repeat (case_match; cbn; try done).
Qed.

(** ** A wrapper that replaces another *)

Definition replaced (kind : WrapperKind) (at_ms : Z) (w : KeyWrapperRecord) (l : list RawWrapper) : list RawWrapper :=
  map (fun r => if is_active_wrapper kind r then disabled_row at_ms r else r) l ++ [raw_of_wrapper w].
Lemma wrapper_raw w : id_of_blob (id_as_bytes (kw_wrapper_id w)) = Ok (kw_wrapper_id w) -> length (kw_salt w) = 16%nat ->
  length (kw_nonce w) = 12%nat -> wrapper_of_raw (raw_of_wrapper w) = Ok w.
Proof.
  intros Hi Hs Hn. unfold wrapper_of_raw, raw_of_wrapper. cbn [rw_wrapper_id rw_kind rw_state rw_salt rw_nonce rw_kdf_algorithm
    rw_kdf_params_json rw_wrapped_vrk rw_created_at_ms rw_disabled_at_ms]. rewrite Hi. cbn [mbind result_bind].
  assert (wrapper_kind_parse (wrapper_kind_as_str (kw_kind w)) = Some (kw_kind w)) as -> by by destruct (kw_kind w).
  assert (wrapper_state_parse (wrapper_state_as_str (kw_state w)) = Some (kw_state w)) as -> by by destruct (kw_state w).
  unfold blob. cbn [ok_or mbind result_bind]. rewrite !bool_decide_eq_true_2 by done. by destruct w.
Qed.
Lemma replaced_active kind at_ms w l : kw_kind w = kind -> kw_state w = WrapperActive ->
  find_first (is_active_wrapper kind) (replaced kind at_ms w l) = Some (raw_of_wrapper w).
Proof.
  intros Hk Hs. unfold replaced. rewrite find_first_app.
  assert (find_first (is_active_wrapper kind) (map (fun r => if is_active_wrapper kind r then disabled_row at_ms r else r) l) = None) as ->.
  { apply find_first_None. intros x (r & -> & _)%list_elem_of_fmap. destruct (is_active_wrapper kind r) eqn:E; [|done].
    unfold is_active_wrapper. cbn. by rewrite andb_false_r. }
  assert (E : is_active_wrapper kind (raw_of_wrapper w) = true) by (unfold is_active_wrapper; cbn; rewrite Hk, Hs; by destruct kind).
  unfold find_first. cbn -[is_active_wrapper raw_of_wrapper]. by rewrite E.
Qed.
Lemma works_replace_rows kind w at_ms audit a : works (replace_wrapper kind w at_ms audit a) a (fun d d' =>
  key_wrappers (vault_tables d') = replaced kind at_ms w (key_wrappers (vault_tables d))).
Proof.
  unfold replace_wrapper, one. apply (works_begin _ _ _ (fun t t' => key_wrappers t' = replaced kind at_ms w (key_wrappers t))).
  eapply writes_mono.
  { apply writes_bind; [apply writes_tables|intros n]. apply writes_bind; [apply writes_reject|intros ?].
    apply writes_bind; [apply writes_wrapper|intros ?]. apply writes_bind; [apply writes_insert|intros ?]. apply writes_ret. }
  intros x t t' (n & t1 & [= <- _] & _ & ? & (_ & ->) & _ & t2 & Hi & _ & ? & -> & -> & ->). split; [done|].
  unfold insert_wrapper_row in Hi. case_match; [|done]. by injection Hi as <-.
Qed.
(** The wrapper opens with the secret, and the old one is empty. *)
Record rewrapped (kind : WrapperKind) (secret vrk : list Z) (s s' : Vault) : Prop := {
  rw_root : root_of (tables s') (v_vault_id s) kind secret vrk;
  rw_rows : exists at_ms w, key_wrappers (tables s') = replaced kind at_ms w (key_wrappers (tables s)) /\ kw_kind w = kind;
  rw_open : v_state s' = VUnlocked vrk;
}.
Lemma wrapped_root kind w vault secret kek vrk at_ms t t' :
  id_of_blob (id_as_bytes (kw_wrapper_id w)) = Ok (kw_wrapper_id w) -> length (kw_salt w) = 16%nat -> length (kw_nonce w) = 12%nat ->
  kw_kind w = kind -> kw_state w = WrapperActive -> kek_for_wrapper w secret = Ok kek -> length vrk = 32%nat ->
  aead_open kek (vrk_aad vault (kw_wrapper_id w)) (kw_nonce w) (kw_wrapped_vrk w) = Ok vrk ->
  key_wrappers t' = replaced kind at_ms w (key_wrappers t) -> root_of t' vault kind secret vrk.
Proof.
  intros Hi Hs Hn Hk Ha Hkek Hv Ho Ht. exists (raw_of_wrapper w), w, kek. split_and!; [|by apply wrapper_raw|done|].
  - rewrite Ht. by apply replaced_active.
  - unfold unwrap_vrk. rewrite Ho. cbn. unfold key_of. by rewrite bool_decide_eq_true_2.
Qed.
Lemma rewrap_ok kind algorithm params id salt kek event reason na secret vrk s0 s :
  quiet s0 s -> v_state s0 = VUnlocked vrk -> length vrk = 32%nat ->
  id_of_blob (id_as_bytes id) = Ok id -> length salt = 16%nat ->
  (forall nonce ct now, kek_for_wrapper (mkKeyWrapperRecord id kind WrapperActive algorithm params salt nonce ct now None) secret = Ok kek) ->
  ok (rewrap kind algorithm params id salt kek event reason na) (fun _ s' => rewrapped kind secret vrk s0 s') s.
Proof.
  intros Hq Hs Hv Hi Hsalt Hkek. unfold rewrap, wrap_vrk. eapply ok_root; [done..|]. intros Es. apply ok_bind, vwp_reads.
  eapply ok_yields; [apply yields_seal|done|]. intros [nonce ct] s1 [Hn Ho] Q1. rewrite (qt_id _ _ Hq) in Ho. cbn [fst snd] in *.
  eapply ok_steady; [steady|done|]. intros now s2 Q2. cbn zeta. do 3 (eapply ok_steady; [solve [steady]|eassumption|]; intros ? ? ?).
  apply ok_bind. eapply vwp_mono; [apply next_attempt_wp| |done]. cbn beta. intros att s6 (Q6 & Ho6 & _).
  assert (Q : quiet s0 s6) by (etrans; [eassumption|done]). apply ok_fault_on, ok_fault_on.
  eapply ok_mono; [apply committed_wp, works_replace_rows|]. cbn beta. intros _ s7 [(d & r & Hd & _ & Ed) [E7 _]].
  set (w := mkKeyWrapperRecord id kind WrapperActive algorithm params salt nonce ct now None) in *.
  assert (Ht : key_wrappers (tables s7) = replaced kind now w (key_wrappers (tables s0))).
  { unfold tables at 1. rewrite Ed. cbn. rewrite Hd. change (vault_tables (v_db s6)) with (tables s6). by rewrite (qt_tables _ _ Q). }
  split; [apply (wrapped_root kind w _ secret kek vrk now (tables s0)); try done; apply Hkek|by exists now, w|]. rewrite E7. by apply (quiet_open s0).
Qed.
Lemma password_change_ok proof new na vrk s : v_state s = VUnlocked vrk -> length vrk = 32%nat ->
  ok (password_change proof new na) (fun _ s' => rewrapped WrapperPassword new vrk s s') s.
Proof.
  intros Hs Hv. unfold password_change. do 4 (eapply ok_steady; [solve [steady]|first [eassumption|reflexivity]|]; intros ? ? ?).
  eapply ok_yields; [apply yields_random|eassumption|]. intros idb s5 [Hl Hb] Q5.
  eapply ok_yields; [apply yields_random|eassumption|]. intros salt s6 [Hsalt _] Q6.
  apply ok_lift. intros kek Hkek. eapply rewrap_ok; [exact Q6|done|done|by apply random_id_blob|done|]. intros nonce ct now.
  unfold kek_for_wrapper. cbn. unfold params_from_json. by rewrite params_roundtrip.
Qed.
Lemma recovery_rotate_ok proof na vrk s : v_state s = VUnlocked vrk -> length vrk = 32%nat ->
  ok (recovery_rotate proof na) (fun text s' => rewrapped WrapperRecovery (bytes_of text) vrk s s') s.
Proof.
  intros Hs Hv. unfold recovery_rotate. do 3 (eapply ok_steady; [solve [steady]|first [eassumption|reflexivity]|]; intros ? ? ?).
  eapply ok_yields; [apply yields_random|eassumption|]. intros key s4 [Hkl Hkb] Q4.
  eapply ok_yields; [apply yields_random|eassumption|]. intros idb s5 [Hl Hb] Q5.
  eapply ok_yields; [apply yields_random|eassumption|]. intros salt s6 [Hsalt _] Q6.
  apply ok_lift. intros kek Hkek. apply ok_bind. eapply ok_mono.
  - eapply (rewrap_ok _ _ _ _ _ _ _ _ _ (bytes_of (encode_recovery_key key))); [exact Q6|done|done|by apply random_id_blob|done|].
    intros nonce ct now. unfold kek_for_wrapper. cbn. rewrite visible_utf8 by apply recovery_visible. cbn.
    by rewrite text_of_bytes, recovery_text.
  - cbn beta. intros _ s7 Hr. by apply vwp_ret.
Qed.

(** ** A credential *)

Lemma works_and work a W W' : works work a W -> works work a W' -> works work a (fun d d' => W d d' /\ W' d d').
Proof.
  intros H1 H2 s. specialize (H1 s). specialize (H2 s). unfold vwp in *. destruct (work s) as [[x|e] s']; [|done].
  destruct H1 as (? & ? & ?), H2 as (_ & _ & ?). done.
Qed.
(** The rows of a credential, and what its first version opens to. *)
Record stored (t : Tables) (c : CredentialRecord) (v : CredentialVersionRecord) : Prop := {
  so_credential : find_first (fun r => bool_decide (rc_credential_id r = id_as_bytes (cr_credential_id c))) (credentials t)
    = Some (raw_of_credential c);
  so_version : find_first (is_version (cr_credential_id c) 1) (credential_versions t) = Some (raw_of_version v);
}.
Lemma works_insert_rows c v audit a : cv_credential_id v = cr_credential_id c -> cv_version v = 1 ->
  works (insert_credential_tx c v audit a) a (fun d d' => stored (vault_tables d') c v).
Proof.
  intros Hi Hn. unfold insert_credential_tx. apply (works_begin _ _ _ (fun t t' => stored t' c v)).
  eapply writes_mono.
  { apply writes_bind; [apply writes_tables|intros n]. apply writes_bind; [apply writes_reject|intros ?].
    apply writes_bind; [apply writes_version|intros ?]. apply writes_bind; [apply writes_insert|intros ?]. apply writes_ret. }
  intros x t t' (n & t1 & Hc & _ & ? & (Hz & ->) & _ & t2 & (m & Hv) & _ & ? & -> & -> & ->). split; [done|].
  unfold insert_credential_row in Hc. case_match eqn:Eb; [injection Hc as <- <-; done|]. injection Hc as <- _.
  apply orb_false_iff in Eb as [_ Eb]. unfold insert_version_row in Hv. case_match eqn:Ev; [|done]. injection Hv as <- _. reflect_bools.
  split; unfold set_versions, set_credentials; cbn [credentials credential_versions]; rewrite find_first_app.
  - assert (find_first (fun r => bool_decide (rc_credential_id r = id_as_bytes (cr_credential_id c))) (credentials t) = None) as ->.
    { apply find_first_None. intros r Hr. apply bool_decide_eq_false. intros Heq. rewrite <- not_true_iff_false in Eb. apply Eb, existsb_exists.
      exists r. split; [by apply list_elem_of_In|]. by rewrite bool_decide_eq_true_2. }
    unfold find_first. cbn -[raw_of_credential]. by rewrite bool_decide_eq_true_2.
  - assert (find_first (is_version (cr_credential_id c) 1) (credential_versions t) = None) as ->.
    { apply find_first_None. intros r Hr. apply not_true_iff_false. unfold is_version. intros Heq. reflect_bools.
      match goal with Hx : existsb (version_collides _) _ = false |- _ => rewrite <- not_true_iff_false in Hx; apply Hx end.
      apply existsb_exists. exists r. split; [by apply list_elem_of_In|]. unfold version_collides, raw_of_version. cbn.
      rewrite Hi, Hn, bool_decide_eq_true_2 by done. cbn. apply orb_true_iff. left. apply Z.eqb_eq. done. }
    unfold find_first. cbn -[raw_of_version is_version]. assert (is_version (cr_credential_id c) 1 (raw_of_version v) = true) as ->; [|done].
    unfold is_version, raw_of_version. cbn. rewrite Hi, Hn, bool_decide_eq_true_2; done.
Qed.
(** What [encrypt_new_version] and [refresh_state_seal] make of a new credential. *)
Record version_opens (vrk : list Z) (vault : Uuid) (id : CredentialId) (kind : CredentialKind) (secret : list Z) (v : CredentialVersionRecord)
    : Prop := {
  vo_id : cv_credential_id v = id; vo_version : cv_version v = 1; vo_state : cv_state v = VerActive;
  vo_aad : cv_aad_version v = AAD_VERSION_V1;
  vo_dek_nonce : length (cv_dek_nonce v) = 12%nat; vo_payload_nonce : length (cv_payload_nonce v) = 12%nat;
  vo_opens : open_version Authority.CryptoFailure vrk vault kind v = Ok secret;
}.
Lemma encrypt_ok id kind secret now vrk s0 s : quiet s0 s -> v_state s0 = VUnlocked vrk ->
  ok (encrypt_new_version id 1 kind secret now) (fun v s' => quiet s0 s' /\ version_opens vrk (v_vault_id s0) id kind secret v) s.
Proof.
  intros Hq Hs. unfold encrypt_new_version. eapply ok_root; [done..|]. intros _.
  eapply ok_yields; [apply yields_random|done|]. intros dek s1 [Hl _] Q1. apply ok_bind, vwp_reads. rewrite (qt_id _ _ Q1).
  eapply ok_yields; [apply yields_seal|done|]. intros [pn pc] s2 [Hp Eo] Q2.
  eapply ok_yields; [apply yields_seal|done|]. intros [wn wc] s3 [Hw Ew] Q3. apply vwp_ret. cbn [fst snd] in *.
  split; [done|]. split; try done. unfold open_version.
  cbn [cv_credential_id cv_version cv_dek_nonce cv_wrapped_dek cv_payload_nonce cv_encrypted_payload]. rewrite Ew.
  cbn [map_err mbind result_bind]. unfold key_of. rewrite bool_decide_eq_true_2 by done. cbn [mbind result_bind]. by rewrite Eo.
Qed.
Record sealed_with (vrk : list Z) (vault : Uuid) (c c' : CredentialRecord) : Prop := {
  sw_record : exists seal, c' = set_credential_seal seal c;
  sw_nonce : length (cr_state_nonce c') = 12%nat; sw_ciphertext : length (cr_state_ciphertext c') = 16%nat;
  sw_verifies : verify_credential vrk vault c' = Ok tt;
}.
Lemma refresh_ok c vrk s0 s : quiet s0 s -> v_state s0 = VUnlocked vrk ->
  ok (refresh_state_seal c) (fun c' s' => quiet s0 s' /\ sealed_with vrk (v_vault_id s0) c c') s.
Proof.
  intros Hq Hs. unfold refresh_state_seal, seal_credential, seal_aad. eapply ok_root; [done..|]. intros _.
  apply ok_bind, vwp_reads, ok_bind, ok_lift. rewrite (qt_id _ _ Hq). intros aad Ea.
  eapply ok_yields; [apply yields_seal|done|]. intros [n ct] s1 [Hn Eo] Q1. cbn [fst snd] in *.
  apply ok_bind. unfold ok at 1. apply vwp_reject; [done|]. intros Hr. reflect_bools. apply vwp_ret, vwp_ret. split; [done|].
  split; [by eexists|done|done|]. unfold verify_credential.
  change (credential_aad (v_vault_id s0) (set_credential_seal (n, ct) c)) with (credential_aad (v_vault_id s0) c). rewrite Ea. cbn.
  unfold verify_aad. rewrite Eo. cbn. done.
Qed.
(** A credential of the first version that the vault holds. *)
Record held (vrk : list Z) (id : CredentialId) (kind : CredentialKind) (secret : list Z) (s : Vault) : Prop := {
  he_open : v_state s = VUnlocked vrk;
  he_id : id_of_blob (id_as_bytes id) = Ok id;
  he_rows : exists c v, stored (tables s) c v /\ version_opens vrk (v_vault_id s) id kind secret v /\
    cr_credential_id c = id /\ cr_kind c = kind /\ cr_state c = CredActive /\ cr_current_version c = 1 /\
    length (cr_state_nonce c) = 12%nat /\ length (cr_state_ciphertext c) = 16%nat /\ verify_credential vrk (v_vault_id s) c = Ok tt;
}.
Lemma stored_header h t c v : stored t c v -> stored (set_header h t) c v.
Proof. by intros []. Qed.
Lemma insert_credential_ok label kind secret na vrk s0 s : quiet s0 s -> v_state s0 = VUnlocked vrk ->
  ok (insert_credential label kind secret na) (fun m s' =>
    held vrk (mt_id m) kind secret s' /\ (rows_ok (tables s0) -> rows_ok (tables s'))) s.
Proof.
  intros Hq Hs. unfold insert_credential. do 2 (eapply ok_steady; [solve [steady]|eassumption|]; intros ? ? ?).
  eapply ok_yields; [apply yields_random|eassumption|]. intros idb s3 [Hl Hb] Q3. cbn zeta.
  assert (Hid := random_id_blob idb Hl Hb). set (id := id_from_random_bytes idb) in *. clearbody id. clear idb Hl Hb.
  eapply ok_steady; [steady|exact Q3|]. intros now s4 Q4. apply ok_bind. eapply ok_mono; [by apply (encrypt_ok _ _ _ _ vrk s0)|].
  cbn beta. intros v s5 [Q5 Hv]. apply ok_bind. eapply ok_mono; [by apply (refresh_ok _ vrk s0)|]. cbn beta.
  intros c s6 [Q6 [[seal Ec] Hn Hct Hver]]. eapply ok_steady; [steady|exact Q6|]. intros event s7 Q7.
  eapply ok_steady; [steady|exact Q7|]. intros _ s8 Q8. apply ok_bind. eapply vwp_mono; [apply next_attempt_wp| |done].
  cbn beta. intros att s9 (Q9 & Ho & _). assert (Q : quiet s0 s9) by (etrans; [exact Q8|done]).
  apply ok_bind, ok_fault_on. eapply ok_mono.
  { apply committed_wp, works_and; [apply (works_insert_rows c v)|apply (works_insert c v)]; subst c; by destruct Hv. }
  cbn beta. intros _ s10 [(d & r & [Hd Hch] & _ & Ed) [Es Ei]].
  assert (Et : tables s10 = set_header (Some (advanced_header att r)) (vault_tables d)) by (unfold tables; by rewrite Ed).
  change (vault_tables (v_db s9)) with (tables s9) in Hch. rewrite (qt_tables _ _ Q) in Hch.
  apply vwp_lift; [|done]. intros m Hm. unfold record_to_metadata in Hm.
  destruct (integrity (CredentialLabel_new (cr_label c))); [|done]. injection Hm as <-. cbn [mt_id].
  assert (Evid : v_vault_id s10 = v_vault_id s0) by (rewrite Ei; apply (qt_id _ _ Q)).
  split.
  - split; [rewrite Es; by apply (quiet_open s0)|by subst c|]. exists c, v. rewrite Et, Evid. subst c. cbn in *.
    split; [by apply stored_header|done].
  - intros Hr. rewrite Et. apply (rows_ok_same (vault_tables d)); [reflexivity..|]. exact (change_rows _ _ Hch Hr).
Qed.
Lemma credential_add_ok label kind secret proof na vrk s : v_state s = VUnlocked vrk ->
  ok (credential_add label kind secret proof na) (fun m s' =>
    held vrk (mt_id m) kind secret s' /\ (rows_ok (tables s) -> rows_ok (tables s'))) s.
Proof.
  intros Hs. unfold credential_add. do 4 (eapply ok_steady; [solve [steady]|first [eassumption|reflexivity]|]; intros ? ? ?).
  by apply insert_credential_ok.
Qed.

(** ** A host whose database works answers *)

Definition works_always : Prop := forall t, db_works t = true.
(** An answer that leaves the database, the state and the header. *)
Record still (s s' : Vault) : Prop := { st_db : v_db s' = v_db s; st_vault : v_state s' = v_state s; st_head : v_header s' = v_header s }.
#[local] Instance still_preorder : PreOrder still.
Proof. split; [by split|]. intros s1 s2 s3 [] []. split; congruence. Qed.
Definition answers {A} (m : V A) (s : Vault) (a : A) : Prop := exists s', m s = (Ok a, s') /\ still s s'.
Lemma answers_bind {A B} (m : V A) (f : A -> V B) s a b :
  answers m s a -> (forall s', still s s' -> answers (f a) s' b) -> answers (x ← m; f x) s b.
Proof.
  intros (s1 & E1 & H1) Hf. destruct (Hf s1 H1) as (s2 & E2 & H2). exists s2. unfold mbind, V_bind. rewrite E1, E2.
  split; [done|]. destruct H1, H2. split; congruence.
Qed.
(** In a sequence of answers that started at [s0]. *)
Lemma answers_next {A B} (m : V A) (f : A -> V B) s0 s a b :
  still s0 s -> (forall s, still s0 s -> answers m s a) -> (forall s', still s0 s' -> answers (f a) s' b) -> answers (x ← m; f x) s b.
Proof. intros Hs Hm Hf. eapply answers_bind; [by apply Hm|]. intros s' Hs'. apply Hf. by etrans. Qed.
Lemma answers_ret {A} (a : A) s : answers (mret a) s a.
Proof. by exists s. Qed.
Lemma answers_lift {A} (r : result AuthorityError A) s a : r = Ok a -> answers (vlift r) s a.
Proof. intros ->. by exists s. Qed.
Lemma answers_reject b e s : b = false -> answers (vreject b e) s tt.
Proof. intros ->. by exists s. Qed.
Lemma answers_root s vrk : v_state s = VUnlocked vrk -> answers require_unlocked s vrk.
Proof. intros Hs. exists s. unfold require_unlocked. by rewrite Hs. Qed.
Lemma answers_reads {A} (f : Vault -> A) s : answers (vreads f) s (f s).
Proof. by exists s. Qed.
Lemma answers_query {A} e (f : Tables -> result AuthorityError A) s a : works_always -> f (tables s) = Ok a -> answers (query_db e f) s a.
Proof.
  intros Hw Hf. exists (v_ticked s). unfold query_db, select_db, mbind, V_bind, vmap_err. rewrite Hw.
  change (vault_tables (v_db s)) with (tables s). by rewrite Hf.
Qed.
Lemma answers_fault_on {A} e reason (m : V A) s a : answers m s a -> answers (fault_on e reason m) s a.
Proof. intros (s' & E & Hs). exists s'. unfold fault_on, mbind, V_bind, vtry. rewrite E. cbn. done. Qed.
Lemma credential_raw c : id_of_blob (id_as_bytes (cr_credential_id c)) = Ok (cr_credential_id c) -> cr_current_version c = 1 ->
  length (cr_state_nonce c) = 12%nat -> length (cr_state_ciphertext c) = 16%nat -> credential_of_raw (raw_of_credential c) = Ok c.
Proof.
  intros Hi Hv Hn Hc. unfold credential_of_raw, raw_of_credential.
  cbn [rc_credential_id rc_kind rc_state rc_current_version rc_state_nonce rc_state_ciphertext rc_label rc_created_at_ms rc_updated_at_ms rc_revoked_at_ms].
  rewrite Hi. cbn [mbind result_bind].
  assert (kind_parse (kind_as_str (cr_kind c)) = Ok (cr_kind c)) as -> by by destruct (cr_kind c).
  assert (credential_state_parse (credential_state_as_str (cr_state c)) = Ok (cr_state c)) as -> by by destruct (cr_state c).
  rewrite Hv. change (positive_u64 (u64_as_i64 1)) with (@Ok AuthorityError Z 1). unfold blob. cbn [integrity map_err mbind result_bind].
  rewrite !bool_decide_eq_true_2 by done. cbn [mbind result_bind]. destruct c; cbn in *; by subst.
Qed.
Lemma version_raw v : id_of_blob (id_as_bytes (cv_credential_id v)) = Ok (cv_credential_id v) -> cv_version v = 1 ->
  length (cv_dek_nonce v) = 12%nat -> length (cv_payload_nonce v) = 12%nat -> version_of_raw (raw_of_version v) = Ok v.
Proof.
  intros Hi Hv Hn Hc. unfold version_of_raw, raw_of_version.
  cbn [rv_credential_id rv_version rv_state rv_dek_nonce rv_payload_nonce rv_aad_version rv_crypto_suite rv_wrapped_dek rv_encrypted_payload rv_created_at_ms rv_retired_at_ms].
  rewrite Hi. cbn [mbind result_bind].
  assert (version_state_parse (version_state_as_str (cv_state v)) = Ok (cv_state v)) as -> by by destruct (cv_state v).
  rewrite Hv. change (positive_u64 (u64_as_i64 1)) with (@Ok AuthorityError Z 1). unfold blob. cbn [integrity map_err mbind result_bind].
  rewrite !bool_decide_eq_true_2 by done. cbn [mbind result_bind]. destruct v; cbn in *; by subst.
Qed.
Definition is_plain (kind : CredentialKind) : bool :=
  negb (is_private kind) && negb (is_service_material kind) && negb (bool_decide (kind = MacosKeychainSource)).
Lemma prepare_held vrk id kind secret s : works_always -> held vrk id kind secret s -> rows_ok (tables s) -> is_plain kind = true ->
  (prepare_credential id s).1 = Ok (mkPreparedCredential secret id kind 1).
Proof.
  intros Hw [Ho Hi (c & v & [Hc Hv] & [Evi Evn Evs Eva Hd Hpn Hopen] & Ei & Ek & Es & En & Hn & Hct & Hver)] Hr Hp.
  assert (Hcr : credential_of_raw (raw_of_credential c) = Ok c) by (apply credential_raw; rewrite ?Ei; done).
  assert (Hvr : version_of_raw (raw_of_version v) = Ok v) by (apply version_raw; rewrite ?Evi; done).
  unfold is_plain in Hp. reflect_bools.
  assert (Ha : answers (prepare_credential id) s (mkPreparedCredential secret id kind 1)).
  2: { destruct Ha as (s' & -> & _). done. }
  unfold prepare_credential. eapply (answers_bind _ _ _ (Ok (mkPreparedCredential secret id kind 1))).
  - assert (Hin : answers (prepare_credential_inner id false) s (mkPreparedCredential secret id kind 1)).
    2: { destruct Hin as (s' & E & Hs'). exists s'. unfold vtry. by rewrite E. }
    assert (Hst : forall s', still s s' -> v_state s' = VUnlocked vrk /\ tables s' = tables s /\ v_vault_id s' = v_vault_id s).
    { intros s' [Ed Es' Eh]. unfold tables, v_vault_id. by rewrite Ed, Es', Eh. }
    assert (Hroot : forall s', still s s' -> answers require_unlocked s' vrk) by (intros s' Hs'; apply answers_root, (Hst s' Hs')).
    assert (Hq : forall A e (f : Tables -> result AuthorityError A) a, f (tables s) = Ok a -> forall s', still s s' -> answers (query_db e f) s' a).
    { intros A e f a Hf s' Hs'. apply answers_query; [done|]. by destruct (Hst s' Hs') as (_ & -> & _). }
    assert (Hvault : forall s', still s s' -> answers (vreads v_vault_id) s' (v_vault_id s)).
    { intros s' Hs'. destruct (Hst s' Hs') as (_ & _ & <-). apply answers_reads. }
    assert (Hload : answers (load_verified_credential id) s c).
    { unfold load_verified_credential, validate_credential_version_invariants, get_credential. apply answers_fault_on.
      eapply answers_next; [reflexivity|exact Hroot|]. intros s1 L1.
      eapply answers_next; [exact L1|apply Hq; by rewrite (proj2 (proj1 (rows_ok_consistent _) Hr))|]. intros s2 L2.
      eapply answers_next; [exact L2|apply Hq; rewrite <- Ei, Hc; cbn [ok_or mbind result_bind]; by rewrite Hcr|]. intros s3 L3.
      eapply answers_next; [exact L3|exact Hroot|]. intros s4 L4. eapply answers_next; [exact L4|exact Hvault|]. intros s5 L5.
      eapply answers_next; [exact L5|intros; by apply answers_lift|]. intros s6 L6. apply answers_ret. }
    unfold prepare_credential_inner, get_version, decrypt_credential_payload. eapply answers_bind; [exact Hload|]. intros s1 L1.
    rewrite Ek, Es, En. do 4 (eapply answers_next; [eassumption|intros; apply answers_reject|]; [rewrite ?H0; by repeat case_bool_decide|intros ? ?]).
    eapply answers_next; [eassumption|apply Hq|intros ? ?].
    { rewrite <- Ei, Hv. cbn [ok_or mbind result_bind]. change (rv_aad_version (raw_of_version v)) with (cv_aad_version v). rewrite Eva.
      cbn [query_u16 mbind result_bind]. by rewrite Hvr. }
    eapply answers_next; [eassumption|intros; apply answers_reject; by rewrite Evs|intros ? ?].
    eapply answers_next; [eassumption| |intros s9 L9; rewrite Evn; apply answers_ret].
    intros s8 L8. eapply answers_next; [exact L8|exact Hroot|]. intros s9 L9. eapply answers_next; [exact L9|exact Hvault|]. intros s10 L10.
    by apply answers_lift.
  - intros s1 L1. eapply answers_bind; [apply answers_reads|]. intros s2 L2. cbn [is_broken andb].
    eapply answers_bind; [apply answers_ret|]. intros s3 L3. by apply answers_lift.
Qed.

(** ** A revocation *)

Lemma works_revoke_rows c now audit a : works (revoke_credential_tx c now audit a) a (fun d d' => exists t1 n,
  update_credentials (revoked_row c) (cr_credential_id c) (vault_tables d) = Some (t1, n) /\ n <> 0 /\ credentials (vault_tables d') = credentials t1).
Proof.
  unfold revoke_credential_tx. apply (works_begin _ _ _ (fun t t' => exists t1 n,
    update_credentials (revoked_row c) (cr_credential_id c) t = Some (t1, n) /\ n <> 0 /\ credentials t' = credentials t1)).
  eapply writes_mono.
  { apply writes_bind; [apply writes_tables|intros n]. apply writes_bind; [apply writes_reject|intros ?].
    apply writes_bind; [apply writes_tables|intros ?]. apply writes_bind; [apply writes_insert|intros ?]. apply writes_ret. }
  intros x t t' (n & t1 & Hu & _ & ? & (Hn & ->) & m & t2 & Hr & _ & ? & -> & -> & ->). split; [done|]. exists t1, n.
  split; [done|]. reflect_bools. split; [done|]. by injection Hr as <- _.
Qed.
Lemma update_revoked c id t t1 n : constrained t -> id_as_bytes (cr_credential_id c) = id_as_bytes id ->
  update_credentials (revoked_row c) (cr_credential_id c) t = Some (t1, n) -> n <> 0 -> revoked id t1.
Proof.
  intros Hc Hid [= <- <-] (r & Hr & Ha)%retain_nonempty. unfold revoked, set_credentials. cbn [credentials].
  apply is_active_credential_spec in Ha as [Hri Hrs]. rewrite find_first_map.
  - rewrite (find_first_unique _ _ r); [|done|rewrite Hri, Hid; by apply bool_decide_eq_true|].
    + eexists. split; [reflexivity|]. by rewrite (proj2 (is_active_credential_spec _ r)).
    + intros y Hy Hp. reflect_bools. apply (cn_ids _ Hc y r Hy Hr). congruence.
  - intros y. by destruct (is_active_credential _ y).
Qed.
Lemma credential_revoke_ok id proof na s : rows_ok (tables s) ->
  ok (credential_revoke id proof na) (fun _ s' => revoked id (tables s')) s.
Proof.
  intros [Hc _ _]. unfold credential_revoke. do 2 (eapply ok_steady; [solve [steady]|first [eassumption|reflexivity]|]; intros ? ? ?).
  apply ok_bind. eapply vwp_mono; [apply load_credential_wp| |done]. cbn beta. intros c s3 [Q3 Hl%loaded_id].
  assert (Q : quiet s s3) by (etrans; [eassumption|done]). eapply ok_steady; [steady|exact Q|]. intros now s4 Q4.
  apply ok_bind. eapply vwp_mono; [apply refresh_wp| |done]. cbn beta. intros c' s5 [Q5 [seal ->]].
  assert (Q' : quiet s s5) by (by etrans). do 2 (eapply ok_steady; [solve [steady]|eassumption|]; intros ? ? ?).
  apply ok_bind. eapply vwp_mono; [apply next_attempt_wp| |done]. cbn beta. intros att s8 (Q8 & _ & _).
  assert (Q'' : quiet s s8) by (etrans; [eassumption|done]). apply ok_bind, ok_fault_on. eapply ok_mono; [apply committed_wp, works_revoke_rows|].
  cbn beta. intros _ s9 [(d & r & (t1 & n & Hu & Hn & Ed') & _ & Ed) _]. apply vwp_lift; [|done]. intros _ _.
  change (vault_tables (v_db s8)) with (tables s8) in Hu. rewrite (qt_tables _ _ Q'') in Hu.
  apply (revoked_same _ t1); [|exact (update_revoked (set_credential_seal seal (VaultMutations.set_revoked now c)) id _ _ _ Hc Hl Hu Hn)]. unfold tables. by rewrite Ed.
Qed.

End WithLibraries.

(** * What creating a vault leaves behind

    The new vault opens with either secret, and an attempt that may not have reserved a
    generation has left nothing. *)

Section WithLibraries.
Context {H : Host} {AH : AnchorHost} {CC : Codecs} {SG : Signatures} {SJ : Serde} {VW : ValueWriter} {RC : RecordCodec}.
Context {AE : Aead} {KD : Kdf} {LC : LeaseCodec} {LY : Layout} {UC : UnlockConfig} {JS : JsonSchema} {AC : ActionCodec} {MT : Materials}.

(** Database and anchors as they were; only the anchors' vault may be named anew. *)
Record untouched (s s' : Vault) : Prop := {
  un_db : v_db s' = v_db s; un_file : g_file (v_guard s') = g_file (v_guard s); un_protected : g_protected (v_guard s') = g_protected (v_guard s) }.
#[local] Instance untouched_preorder : PreOrder untouched.
Proof. split; [by split|]. intros s1 s2 s3 [] []. split; congruence. Qed.
Lemma kept_untouched s s' : kept s s' -> untouched s s'.
Proof. intros [Hf Hd]. split; [done|by rewrite (fr_guard _ _ Hf)..]. Qed.
Definition harmless {A} (m : V A) : Prop := forall s, vwp m (fun _ s' => untouched s s') (fun _ s' => untouched s s') s.
Lemma harmless_worker {A} (m : V A) : worker m -> harmless m.
Proof. intros Hm s. eapply vwp_mono; [apply Hm| |]; cbn; intros; by apply kept_untouched. Qed.
Lemma harmless_reader {A} (m : V A) : reader m -> harmless m.
Proof. intros Hm. by apply harmless_worker, vreader_worker. Qed.
Lemma harmless_bind {A B} (m : V A) (f : A -> V B) : harmless m -> (forall a, harmless (f a)) -> harmless (x ← m; f x).
Proof.
  intros Hm Hf s. apply vwp_bind. eapply vwp_mono; [apply Hm| |done]. cbn. intros a s' Hs.
  eapply vwp_mono; [apply Hf| |]; cbn; intros; by etrans.
Qed.
Ltac harmless := repeat (first [apply harmless_bind; [|intros ?] | apply harmless_reader; first
  [apply vreader_random | apply vreader_now | apply vreader_lift | apply vreader_seal | apply vreader_ret | apply vreader_reject] | progress cbn zeta]).
Lemma harmless_records password params mode : harmless (initial_records password params mode).
Proof.
  unfold initial_records, wrap_vrk, seal_integrity, seal_state, seal_retention, seal_lease_state, usage_seal, seal_aad. harmless.
  intros s. apply vwp_modify. by split.
Qed.

(** ** Storing the first rows *)

Lemma create_new_wp n s :
  vwp (create_new n) (fun out s' => aside s s' /\
    match out with
    | (Ok _, b) => b = true /\ marks (v_guard s) = [] /\ v_guard s' = advance_guard n (v_guard s)
    | (Err _, true) => True
    | (Err _, false) => v_guard s' = v_guard s
    end) (fun _ _ => False) s.
Proof.
  unfold create_new. apply vwp_bind, vwp_try.
  eapply (vwp_mono _ (fun _ s' => same s s' /\ marks (v_guard s) = []) _ (fun _ s' => same s s')).
  - apply vwp_bind, vwp_reject; intros _; [reflexivity|]. apply vwp_read; [apply vreader_lock|done|]. intros _ s1 H1. apply vwp_bind.
    eapply vwp_mono; [apply observe_wp| |]; cbn; [|intros; by etrans]. intros o s2 [H2 Ho].
    assert (H2' : same s s2) by by etrans. apply vwp_bind, vwp_reject; intros Hr; [done|]. apply vwp_ret. split; [done|].
    rewrite <- (proj2 (same_aside _ _ H1)), <- (seen_marks _ _ Ho). unfold seen. apply orb_false_iff in Hr as [? ?].
    by destruct (ao_file o), (ao_protected o).
  - cbn beta. intros o s1 [[H1 E1]%same_aside Hm]. apply vwp_bind, vwp_try. eapply vwp_mono; [apply anchor_advance_wp| |]; cbn; rewrite E1.
    + intros [] s2 [H2 E2]. split; [by etrans|done].
    + intros e s2 [H2 E2]. split; [by etrans|done].
  - cbn. by intros e s1 [H1 E1]%same_aside.
Qed.
Lemma worker_tables f : worker (write_tables f).
Proof. apply worker_exec_count. Qed.
Lemma worker_insert e : worker (audit_insert e).
Proof. intros s1. eapply vwp_mono; [apply audit_insert_wp| |]; cbn; by intros ? ? []. Qed.
Lemma initialize_wp r s :
  vwp (initialize r) (fun out s' =>
    match out with
    | (Ok _, b) => b = true /\ marks (v_guard s) = [] /\ v_guard s' = advance_guard (hd_generation (in_header r)) (v_guard s)
    | (Err _, true) => True
    | (Err _, false) => untouched s s'
    end) (fun _ _ => False) s.
Proof.
  unfold initialize. apply vwp_bind, vwp_try.
  eapply (vwp_mono _ (fun _ s' => kept s s') _ (fun _ s' => kept s s')).
  - apply vwp_bind, vwp_begin; [apply same_v_ticked|]. set (s0 := v_ticked _). assert (H0 : kept s s0) by apply kept_tx. clearbody s0.
    match goal with |- vwp ?m _ _ _ => assert (Hw : worker m) end.
    { repeat first [match goal with |- worker (audit_insert _) => apply worker_insert end|apply worker_bind; [|intros ?]|apply worker_each; intros ?|apply worker_tables
        |apply vreader_worker, vreader_ret|apply vreader_worker, vreader_reject
        |apply worker_exec_count|unfold insert_wrapper, insert_initial_state, insert_initial_retention, initial_lease_state, initial_state, one]. }
    eapply vwp_mono; [apply Hw| |]; cbn; intros; by etrans.
  - cbn beta. intros [] s1 H1. apply vwp_bind. eapply vwp_mono; [apply create_new_wp| |done].
    intros [[[]|e] b] s2 [A2 Ho]; cbn [fst snd]; rewrite (fr_guard _ _ (kp_frame _ _ H1)) in Ho.
    + destruct Ho as (-> & Hm & Eg). apply vwp_bind, vwp_try, vwp_commit; by apply vwp_ret.
    + apply vwp_ret. destruct b; [done|]. destruct A2. split; [|by rewrite Ho..]. etrans; [|apply H1]. congruence.
  - cbn. intros e s1 H1. by apply kept_untouched.
Qed.
(** What the last checks have read. *)
Record proved_vault (password : list Z) (vrk : list Z) (o : InitOutcome) (t : Tables) : Prop := {
  pv_password : root_of t (io_vault_id o) WrapperPassword password vrk;
  pv_recovery : root_of t (io_vault_id o) WrapperRecovery (bytes_of (io_recovery_key_display o)) vrk;
  pv_consistent : versions_consistent t = true;
  pv_header : exists h, header_of t = Ok h /\ hd_schema_digest h = schema_digest;
}.
Lemma steady_formats : steady validate_format_discriminators.
Proof. unfold validate_format_discriminators, exists_row. steady. Qed.
Lemma open_store_wp s :
  vwp open_store (fun _ s' => quiet s s' /\ versions_consistent (tables s) = true /\
    exists h, header_of (tables s) = Ok h /\ hd_schema_digest h = schema_digest) (fun _ s' => quiet s s') s.
Proof.
  unfold open_store, validate_credential_version_invariants, load_header. apply vwp_quiet; [steady|reflexivity|]. intros _ s1 Q1.
  apply vwp_quiet; [apply steady_formats|done|]. intros _ s2 Q2. apply vwp_quiet; [unfold foreign_key_check; steady|done|]. intros _ s3 Q3.
  apply vwp_query; [done|]. intros [] s4 Q4 Ec. destruct (versions_consistent (tables s)) eqn:Hc; [|done].
  apply vwp_quiet; [unfold validate_workload_replay_invariants, exists_row; steady|done|]. intros _ s5 Q5.
  apply vwp_quiet; [unfold load_lease_state; steady|done|]. intros _ s6 Q6. apply vwp_quiet; [unfold load_audit_retention; steady|done|]. intros _ s7 Q7.
  apply vwp_quiet; [unfold list_lease_records; steady|done|]. intros _ s8 Q8. apply vwp_quiet; [unfold load_policy_state; steady|done|]. intros st s9 Q9.
  apply vwp_quiet; [unfold load_policy_trust; steady|done|]. intros trust s10 Q10. apply vwp_rejected; [done|]. intros _.
  apply vwp_quiet; [unfold load_policy_bundle; steady|done|]. intros bundle s11 Q11. apply vwp_rejected; [done|]. intros _.
  apply vwp_query; [done|]. intros h s12 Q12 Eh. apply vwp_reject; intros Hs; [done|]. reflect_bools. split; [done|]. split; [done|]. by exists h.
Qed.
Lemma active_wrapper_wp kind s :
  vwp (active_wrapper kind) (fun w s' => quiet s s' /\ exists raw, find_first (is_active_wrapper kind) (key_wrappers (tables s)) = Some raw /\
    wrapper_of_raw raw = Ok w) (fun _ s' => quiet s s') s.
Proof.
  unfold active_wrapper. eapply vwp_mono; [apply query_wp| |]; cbn; [|intros; by apply same_quiet]. intros w s' [Hs Ew].
  split; [by apply same_quiet|]. destruct (find_first _ _) as [raw|]; [cbn in Ew|done]. exists raw. split; [done|].
  unfold integrity, map_err in Ew. by destruct (wrapper_of_raw raw).
Qed.
Lemma prove_reopened_wp vault vrk key password s :
  vwp (prove_reopened vault vrk key password) (fun o s' => quiet s s' /\ io_vault_id o = vault /\ proved_vault password vrk o (tables s'))
    (fun _ s' => quiet s s') s.
Proof.
  unfold prove_reopened. apply vwp_bind. eapply vwp_mono; [apply open_store_wp| |done]. cbn beta. intros _ s1 (Q1 & Hc & Hh).
  apply vwp_bind. eapply vwp_mono; [apply active_wrapper_wp| |]; cbn beta; [|intros; by etrans]. intros pw s2 (H2 & raw & Hr & Hw).
  assert (Q2 : quiet s s2) by by etrans. apply vwp_bind. eapply vwp_mono; [apply active_wrapper_wp| |]; cbn beta; [|intros; by etrans].
  intros rk s3 (H3 & raw' & Hr' & Hw'). assert (Q3 : quiet s s3) by by etrans. cbn zeta. unfold root_from.
  apply vwp_bind, vwp_lifted; [done|]. intros kek Hk. apply vwp_lift; [intros a Ha|done].
  apply vwp_bind, vwp_lifted; [done|]. intros kek' Hk'. apply vwp_lift; [intros b Hb|done].
  apply vwp_rejected; [done|]. intros Hv. reflect_bools. subst a b. apply vwp_ret. split; [done|]. split; [done|].
  rewrite (qt_tables _ _ H3), (qt_tables _ _ H2), (qt_tables _ _ Q1) in *. split; [exists raw, pw, kek; split_and!; assumption|exists raw', rk, kek'; split_and!; assumption|assumption|assumption].
Qed.
Lemma initialize_records_wp password params mode s :
  vwp (initialize_vault_records password params mode) (fun out s' =>
    match out with
    | (Ok o, b) => b = true /\ exists vrk, proved_vault password vrk o (tables s')
    | (Err _, true) => True
    | (Err _, false) => untouched s s'
    end) (fun _ _ => False) s.
Proof.
  unfold initialize_vault_records. apply vwp_bind, vwp_try. eapply vwp_mono; [apply harmless_records| |]; cbn beta.
  - intros [[vrk key] records] s1 U1. apply vwp_bind. eapply vwp_mono; [apply initialize_wp| |done]. intros [[[]|e] b] s2; cbn [fst snd].
    + intros (-> & _). apply vwp_bind, vwp_try. eapply vwp_mono; [apply prove_reopened_wp| |]; cbn beta.
      * intros o s3 (_ & _ & Hp). apply vwp_ret. split; [done|]. by exists vrk.
      * intros e s3 _. by apply (vwp_ret (Err e, true)).
    + intros Ho. apply vwp_ret. destruct b; [done|]. by etrans.
  - cbn. by intros e s1 U1.
Qed.
Lemma init_vault_wp password params mode s :
  vwp (init_vault password params mode) (fun out s' =>
    match out with
    | (Ok o, b) => b = true /\ exists vrk, proved_vault password vrk o (tables s')
    | (Err _, true) => True
    | (Err _, false) => untouched s s'
    end) (fun _ _ => False) s.
Proof.
  unfold init_vault. apply vwp_bind, vwp_try, vwp_bind, vwp_lift; [intros [] _|by intros].
  apply vwp_reject; intros _; [done|]. apply initialize_records_wp.
Qed.

End WithLibraries.
