(* ===== verification/UsageTheorems.v ===== *)
(** * UsageTheorems: what the sealed ledger says

    Facts about usage.rs that need no state: the hashed bytes determine the rows,
    a seal verifies, rows read back as they were written, and an insertion or an
    update keeps the table a picture of the ordered rows. *)

From S2P Require Import Prelude Errors Domain Codec SessionState Approval Json Parameters AuditRecords VaultModel VaultStore Usage VaultWorker.
From S2P Require Import VaultRules.

(** ** Rows *)

(** The ranges of the fields' types; ids are never nil. *)
Record row_typed (r : UsageRecord) : Prop := {
  rt_request : 0 < u_request_id r < 2 ^ 128;
  rt_principal : 0 < u_principal_id r < 2 ^ 128;
  rt_slug : slen (u_instance_slug r) < 2 ^ 64;
  rt_day : in_i64 (u_utc_day r);
  rt_started : in_i64 (u_started_at_ms r);
  rt_context : slen (u_context_json r) < 2 ^ 64;
  rt_maximum : forall v, u_generation_max_output r = Some v -> in_u64 v;
  rt_output : forall v, u_output_tokens r = Some v -> in_u64 v;
  rt_source : forall s, u_source r = Some s -> slen s < 2 ^ 64;
  rt_terminal : forall s, u_terminal_json r = Some s -> slen s < 2 ^ 64;
  rt_settled : forall v, u_settled_at_ms r = Some v -> in_i64 v;
}.
(** A row as the table holds it: its constraints are met as well. *)
Definition row_ok (r : UsageRecord) : Prop := row_typed r /\ usage_row_checks (raw_of_usage r) = true.
Definition increasing (rows : list UsageRecord) : Prop :=
  StronglySorted (fun a b => u_request_id a < u_request_id b) rows.

Lemma u64_as_i64_nonneg v : in_u64 v -> 0 <= u64_as_i64 v -> u64_as_i64 v = v.
Proof. unfold in_u64, u64_as_i64, u64_max, i64_max. intros Hv. case_match; lia. Qed.
Lemma u64_as_i64_small v : v <= i64_max -> u64_as_i64 v = v.
Proof. unfold u64_as_i64. intros Hv. destruct (Z.leb_spec v i64_max); [done|lia]. Qed.
Lemma i64_as_u64_inj v w : in_i64 v -> in_i64 w -> i64_as_u64 v = i64_as_u64 w -> v = w.
Proof.
  unfold in_i64, i64_as_u64, i64_min, i64_max. intros Hv Hw E.
  pose proof (Z.div_mod v (2 ^ 64) ltac:(done)). pose proof (Z.div_mod w (2 ^ 64) ltac:(done)).
  assert (v / 2 ^ 64 = w / 2 ^ 64 \/ v / 2 ^ 64 < w / 2 ^ 64 \/ w / 2 ^ 64 < v / 2 ^ 64) as [|[|]] by lia; lia.
Qed.

(** ** The hashed bytes determine the rows *)

Lemma i64_bytes_inj v w x y : in_i64 v -> in_i64 w -> i64_to_be_bytes v ++ x = i64_to_be_bytes w ++ y -> v = w /\ x = y.
Proof.
  intros Hv Hw E. apply app_inj_1 in E as [E ->]; [|unfold i64_to_be_bytes; by rewrite !length_be_bytes].
  split; [|done]. apply be_bytes_inj in E; [by apply i64_as_u64_inj|..]; apply Z.mod_pos_bound; lia.
Qed.
Lemma text_bytes_inj a b x y :
  slen a < 2 ^ 64 -> slen b < 2 ^ 64 ->
  usage_bytes (bytes_of a) ++ x = usage_bytes (bytes_of b) ++ y -> a = b /\ x = y.
Proof.
  unfold usage_bytes. intros Ha Hb E. rewrite <- !app_assoc in E.
  assert (Hl : forall s, llen (bytes_of s) = slen s) by (intros; unfold slen, llen; by rewrite bytes_of_length).
  rewrite !Hl in E. by apply (text_field_inj 8) in E.
Qed.
(** An optional field, given that its encoding is separated from what follows. *)
Lemma optional_inj {A} (enc : A -> list Z) (P : A -> Prop) (a b : option A) x y :
  (forall v w x y, P v -> P w -> usage_bytes (enc v) ++ x = usage_bytes (enc w) ++ y -> v = w /\ x = y) ->
  (forall v, a = Some v -> P v) -> (forall v, b = Some v -> P v) ->
  usage_optional (enc <$> a) ++ x = usage_optional (enc <$> b) ++ y -> a = b /\ x = y.
Proof.
  intros Henc Ha Hb. destruct a as [v|], b as [w|]; intros E.
  - destruct (Henc v w x y) as [-> ->]; [by apply Ha|by apply Hb|exact (f_equal tail E)|done].
  - by apply (f_equal head) in E.
  - by apply (f_equal head) in E.
  - split; [done|exact (f_equal tail E)].
Qed.
Lemma fixed_bytes_inj (enc : Z -> list Z) (P : Z -> Prop) :
  (forall v, length (enc v) = 8%nat) -> (forall v w, P v -> P w -> enc v = enc w -> v = w) ->
  forall v w x y, P v -> P w -> usage_bytes (enc v) ++ x = usage_bytes (enc w) ++ y -> v = w /\ x = y.
Proof.
  intros Hl Hi v w x y Hv Hw E. unfold usage_bytes, llen in E. rewrite <- !app_assoc, !Hl in E.
  apply app_inv_head in E. apply app_inj_1 in E as [E ->]; [|by rewrite !Hl]. split; [by apply Hi|done].
Qed.
Lemma row_bytes_inj r r' x y :
  row_typed r -> row_typed r' -> usage_row_bytes r ++ x = usage_row_bytes r' ++ y -> r = r' /\ x = y.
Proof.
  intros [] [] E. unfold usage_row_bytes, id_as_bytes in E. rewrite <- !app_assoc in E.
  apply app_inj_1 in E as [E1 E]; [|by rewrite !length_be_bytes].
  apply app_inj_1 in E as [E2 E]; [|by rewrite !length_be_bytes].
  apply be_bytes_inj in E1; [|lia..]. apply be_bytes_inj in E2; [|lia..].
  apply text_bytes_inj in E as [E3 E]; [|done..]. apply i64_bytes_inj in E as [E4 E]; [|done..].
  apply i64_bytes_inj in E as [E5 E]; [|done..]. apply text_bytes_inj in E as [E6 E]; [|done..].
  assert (Hu : forall v w, in_u64 v -> in_u64 w -> be_bytes 8 v = be_bytes 8 w -> v = w).
  { intros v w Hv Hw. unfold in_u64, u64_max in *. apply be_bytes_inj; lia. }
  assert (Hi : forall v w, in_i64 v -> in_i64 w -> i64_to_be_bytes v = i64_to_be_bytes w -> v = w).
  { intros v w Hv Hw E'. eapply (i64_bytes_inj v w [] []) in Hw; [|done|by rewrite !app_nil_r]. tauto. }
  apply (optional_inj (be_bytes 8) in_u64) in E as [E7 E];
    [|apply fixed_bytes_inj; [by intros; rewrite length_be_bytes|exact Hu]|done..].
  apply (optional_inj (be_bytes 8) in_u64) in E as [E8 E];
    [|apply fixed_bytes_inj; [by intros; rewrite length_be_bytes|exact Hu]|done..].
  apply (optional_inj bytes_of (fun s => slen s < 2 ^ 64)) in E as [E9 E]; [|intros ????; apply text_bytes_inj|done..].
  apply (optional_inj bytes_of (fun s => slen s < 2 ^ 64)) in E as [E10 E]; [|intros ????; apply text_bytes_inj|done..].
  apply (optional_inj i64_to_be_bytes in_i64) in E as [E11 ->];
    [|apply fixed_bytes_inj; [by intros; unfold i64_to_be_bytes; rewrite length_be_bytes|exact Hi]|done..].
  split; [|done]. destruct r, r'; cbn in *. by subst.
Qed.
Lemma row_bytes_nonempty r : usage_row_bytes r <> [].
Proof.
  intros E. apply (f_equal length) in E. unfold usage_row_bytes, id_as_bytes in E.
  rewrite !length_app, length_be_bytes in E. cbn in E. lia.
Qed.
Lemma ok_inj {E A} (a b : A) : @Ok E A a = Ok b -> a = b.
Proof. congruence. Qed.
Lemma rows_bytes_cons previous r rows b :
  usage_rows_bytes previous (r :: rows) = Ok b ->
  exists t, b = usage_row_bytes r ++ t /\ usage_rows_bytes (Some (u_request_id r)) rows = Ok t.
Proof.
  cbn [usage_rows_bytes]. destruct (is_some_and _ _); [done|].
  destruct (usage_rows_bytes _ rows) as [t|]; cbn -[usage_row_bytes]; [|done]. intros [= <-]. by eexists.
Qed.
Lemma rows_bytes_inj previous previous' rows rows' b :
  Forall row_typed rows -> Forall row_typed rows' ->
  usage_rows_bytes previous rows = Ok b -> usage_rows_bytes previous' rows' = Ok b -> rows = rows'.
Proof.
  intros Hr. revert previous previous' rows' b. induction Hr as [|r rows Hr _ IH]; intros previous previous' rows' b Hr' E E'.
  - destruct Hr' as [|r' rows' _ _]; [done|]. apply rows_bytes_cons in E' as (t & -> & _).
    apply ok_inj in E. symmetry in E. apply app_eq_nil in E as [E _]. by apply row_bytes_nonempty in E.
  - apply rows_bytes_cons in E as (t & -> & E). destruct Hr' as [|r' rows' Hr' Hrs'].
    + apply ok_inj in E'. symmetry in E'. apply app_eq_nil in E' as [E' _]. by apply row_bytes_nonempty in E'.
    + apply rows_bytes_cons in E' as (t' & Eb & E'). apply row_bytes_inj in Eb as [-> ->]; [|done..].
      f_equal. by eapply IH.
Qed.

(** ** Order *)

Lemma rows_bytes_increasing previous rows b :
  usage_rows_bytes previous rows = Ok b ->
  increasing rows /\ forall p, previous = Some p -> Forall (fun r => p < u_request_id r) rows.
Proof.
  revert previous b. induction rows as [|r rows IH]; intros previous b; cbn; [by repeat constructor|].
  destruct (is_some_and _ _) eqn:Ep; [done|]. destruct (usage_rows_bytes _ rows) as [t|] eqn:Et; cbn; [|done].
  intros _. destruct (IH _ _ Et) as [Hs Hf]. specialize (Hf _ eq_refl). split; [by constructor|].
  intros p ->. cbn in Ep. apply Z.leb_gt in Ep. constructor; [done|]. eapply Forall_impl; [exact Hf|]. cbn. lia.
Qed.
Lemma increasing_rows_bytes previous rows :
  increasing rows -> (forall p, previous = Some p -> Forall (fun r => p < u_request_id r) rows) ->
  exists b, usage_rows_bytes previous rows = Ok b.
Proof.
  intros Hs. revert previous. induction Hs as [|r rows Hs IH Hr]; intros previous Hp; [by eexists|]. cbn.
  destruct (is_some_and _ _) eqn:E.
  - destruct previous as [p|]; [|done]. cbn in E. specialize (Hp _ eq_refl). inversion Hp; subst. reflect_bools. lia.
  - destruct (IH (Some (u_request_id r))) as [b ->]; [by intros ? [= <-]|]. by eexists.
Qed.

(** The position a search answers. *)
Lemma binary_search_found id rows p :
  binary_search id rows = inl p -> exists r, rows !! p = Some r /\ u_request_id r = id.
Proof.
  revert p. induction rows as [|r rows IH]; intros p; cbn; [done|].
  destruct (Z.eqb_spec (u_request_id r) id); [intros [= <-]; by exists r|].
  destruct (_ <? _); [done|]. destruct (binary_search id rows) as [i|]; [|done]. intros [= <-]. by apply IH.
Qed.
Lemma binary_search_absent id rows p :
  increasing rows -> binary_search id rows = inr p ->
  Forall (fun r => u_request_id r < id) (take p rows) /\ Forall (fun r => id < u_request_id r) (drop p rows).
Proof.
  intros Hs. revert p. induction Hs as [|r rows Hs IH Hr]; intros p; cbn; [intros [= <-]; by split|].
  destruct (Z.eqb_spec (u_request_id r) id); [done|]. destruct (Z.ltb_spec id (u_request_id r)).
  - intros [= <-]. cbn. split; [done|]. constructor; [done|]. eapply Forall_impl; [exact Hr|]. cbn. lia.
  - destruct (binary_search id rows) as [|i]; [done|]. intros [= <-]. destruct (IH _ eq_refl). cbn.
    split; [|done]. constructor; [lia|done].
Qed.
Lemma increasing_app l1 l2 :
  increasing (l1 ++ l2) <->
  increasing l1 /\ increasing l2 /\ forall a b, a ∈ l1 -> b ∈ l2 -> u_request_id a < u_request_id b.
Proof.
  unfold increasing. induction l1 as [|x l1 IH]; cbn.
  - split; [intros Hs; split_and!; [constructor|done|by intros a b ?%not_elem_of_nil]|tauto].
  - split.
    + intros Hs. apply StronglySorted_inv in Hs as [Hs Hf]. apply IH in Hs as (H1 & H2 & H3).
      apply Forall_app in Hf as [Hf1 Hf2]. split_and!; [by constructor|done|].
      intros a b [->|Ha]%elem_of_cons Hb; [|by apply H3]. by eapply (proj1 (Forall_forall _ _) Hf2).
    + intros (H1 & H2 & H3). apply StronglySorted_inv in H1 as [H1 Hf]. constructor.
      * apply IH. split_and!; [done|done|]. intros a b Ha Hb. apply H3; [by right|done].
      * apply Forall_app. split; [done|]. apply Forall_forall. intros b Hb. apply H3; [left|done].
Qed.
Lemma increasing_insert rows p r :
  increasing rows -> binary_search (u_request_id r) rows = inr p -> increasing (insert_at p r rows).
Proof.
  intros Hs Hb. destruct (binary_search_absent _ _ _ Hs Hb) as [H1 H2]. unfold insert_at.
  rewrite <- (take_drop p rows) in Hs. apply increasing_app in Hs as (Hs1 & Hs2 & Hs3).
  rewrite Forall_forall in H1, H2. apply increasing_app. split_and!; [done| |].
  - constructor; [done|]. apply Forall_forall. auto.
  - intros a b Ha [->|Hb']%elem_of_cons; [by apply H1|by apply Hs3].
Qed.
Lemma increasing_update rows p r r' :
  increasing rows -> rows !! p = Some r -> u_request_id r' = u_request_id r -> increasing (<[p := r']> rows).
Proof.
  intros Hs Hp He. revert p Hp. induction Hs as [|x rows Hs IH Hf]; intros [|p] Hp; cbn in *; simplify_eq.
  - constructor; [done|]. by rewrite He.
  - constructor; [by apply IH|]. apply Forall_insert; [done|]. rewrite He.
    by eapply (proj1 (Forall_forall _ _) Hf), list_elem_of_lookup_2.
Qed.
Lemma increasing_keys rows : increasing rows -> NoDup (map u_request_id rows).
Proof.
  induction 1 as [|r rows Hs IH Hf]; cbn; constructor; [|done]. intros (x & E & Hx)%list_elem_of_fmap.
  rewrite Forall_forall in Hf. specialize (Hf _ Hx). lia.
Qed.

(** ** The table as a picture of the rows *)

Lemma insert_by_key_perm r l : insert_by_key r l ≡ₚ r :: l.
Proof.
  induction l as [|x l IH]; cbn; [done|]. destruct (_ <=? _); [done|]. rewrite IH. apply Permutation_swap.
Qed.
Lemma order_perm l : order_by_request l ≡ₚ l.
Proof. unfold order_by_request. induction l as [|x l IH]; cbn; [done|]. by rewrite insert_by_key_perm, IH. Qed.
Lemma insert_by_key_sorted r l :
  StronglySorted (fun a b => row_key a <= row_key b) l ->
  StronglySorted (fun a b => row_key a <= row_key b) (insert_by_key r l).
Proof.
  induction 1 as [|x l Hs IH Hf]; cbn; [by repeat constructor|]. destruct (Z.leb_spec (row_key r) (row_key x)).
  - constructor; [by constructor|]. constructor; [done|]. eapply Forall_impl; [exact Hf|]. cbn. lia.
  - constructor; [done|]. rewrite insert_by_key_perm. constructor; [lia|done].
Qed.
Lemma order_sorted l : StronglySorted (fun a b => row_key a <= row_key b) (order_by_request l).
Proof. unfold order_by_request. induction l; cbn; [constructor|]. by apply insert_by_key_sorted. Qed.
(** Rows whose keys increase are the order of any list that holds the same rows. *)
Lemma order_unique l l' :
  l ≡ₚ l' -> StronglySorted (fun a b => row_key a < row_key b) l' -> order_by_request l = l'.
Proof.
  intros Hp Hs. pose proof (order_sorted l) as Ho. assert (Hq : order_by_request l ≡ₚ l') by (by rewrite order_perm).
  clear Hp. revert Ho Hq. generalize (order_by_request l). clear l. intros l Ho. revert l' Hs.
  induction Ho as [|x l Ho IH Hf]; intros l' Hs Hq; [by apply Permutation_nil in Hq|].
  destruct Hs as [|y l' Hs Hf']; [by apply Permutation_nil_r in Hq|].
  assert (x = y) as <-.
  { assert (Hx : x ∈ y :: l') by (rewrite <- Hq; left). assert (Hy : y ∈ x :: l) by (rewrite Hq; left).
    apply elem_of_cons in Hx as [->|Hx]; [done|]. apply elem_of_cons in Hy as [->|Hy]; [done|].
    rewrite Forall_forall in Hf, Hf'. specialize (Hf _ Hy). specialize (Hf' _ Hx). cbn in *. lia. }
  f_equal. apply IH; [done|]. by apply Permutation_cons_inv in Hq.
Qed.

Lemma row_key_of r : row_typed r -> row_key (raw_of_usage r) = u_request_id r.
Proof. intros []. unfold row_key, raw_of_usage, id_as_bytes. cbn [ru_request_id]. apply be_value_bytes. lia. Qed.
Lemma increasing_raw rows :
  Forall row_typed rows -> increasing rows ->
  StronglySorted (fun a b => row_key a < row_key b) (map raw_of_usage rows).
Proof.
  intros Ht Hs. induction Hs as [|r rows Hs IH Hf]; cbn; [constructor|]. inversion Ht; subst.
  constructor; [auto|]. apply Forall_fmap, Forall_forall. intros x Hx. unfold compose. rewrite !row_key_of; [|by eapply Forall_forall|done].
  by eapply (proj1 (Forall_forall _ _) Hf).
Qed.
Lemma raw_same_key r r' : row_typed r -> row_typed r' ->
  same_key (raw_of_usage r) (raw_of_usage r') = true <-> u_request_id r = u_request_id r'.
Proof.
  intros [] []. unfold same_key, raw_of_usage, id_as_bytes. cbn [ru_request_id]. rewrite bool_decide_eq_true.
  split; [|congruence]. intros E. symmetry in E. apply be_bytes_inj in E; lia.
Qed.

(** A row reads back as it was written. *)
Lemma id_of_blob_of id : 0 < id < 2 ^ 128 -> id_of_blob (id_as_bytes id) = Ok id.
Proof.
  intros Hid. unfold id_of_blob, blob, id_as_bytes. rewrite bool_decide_eq_true_2 by apply length_be_bytes.
  unfold mbind, result_bind, integrity, id_from_bytes. rewrite be_value_bytes by lia.
  destruct (Z.eqb_spec id 0); [lia|done].
Qed.
Lemma transpose_u64 v : (forall n, v = Some n -> in_u64 n) -> is_none_or (u64_as_i64 <$> v) (fun n => 0 <=? n) = true ->
  transpose get_u64 (u64_as_i64 <$> v) = Ok v.
Proof.
  intros Ht Hc. destruct v as [n|]; [|done]. cbn in *. apply Z.leb_le in Hc.
  rewrite u64_as_i64_nonneg in * by auto. unfold get_u64. by rewrite (proj2 (Z.leb_le 0 n)).
Qed.
Lemma usage_of_raw_of r : row_ok r -> usage_of_raw (raw_of_usage r) = Ok r.
Proof.
  intros [Ht Hc]. pose proof Ht as []. unfold usage_row_checks in Hc. reflect_bools. unfold usage_of_raw, raw_of_usage in *.
  cbn -[id_of_blob transpose id_as_bytes] in *. rewrite !id_of_blob_of by lia.
  rewrite !transpose_u64; [cbn; by destruct r|done| |done|done].
  destruct (u_generation_max_output r) as [v|]; [|done]. cbn in *. apply Z.leb_le. reflect_bools. lia.
Qed.
Lemma collect_map {A B} (f : A -> result AuthorityError B) (g : B -> A) l :
  (forall x, x ∈ l -> f (g x) = Ok x) -> collect f (map g l) = Ok l.
Proof.
  induction l as [|x l IH]; intros Hf; cbn; [done|]. rewrite Hf by left. cbn. rewrite IH; [done|].
  intros y Hy. apply Hf. by right.
Qed.

(** ** The state row *)

Record state_ok (st : UsageState) : Prop := {
  so_revision : 0 <= st_revision st <= i64_max;
  so_count : 0 <= st_record_count st <= i64_max;
  so_digest : length (st_records_digest st) = 32%nat;
  so_nonce : length (st_seal_nonce st) = 12%nat;
  so_tag : length (st_seal_ciphertext st) = 16%nat;
}.
Lemma state_of_raw_of st : state_ok st -> state_of_raw (raw_of_state st) = Ok st.
Proof.
  intros [Hr Hc Hd Hn Ht]. unfold state_of_raw, raw_of_state, get_u64, blob. cbn -[Z.leb].
  rewrite !u64_as_i64_small by lia. rewrite !(proj2 (Z.leb_le _ _)) by lia. cbn.
  rewrite !bool_decide_eq_true_2 by done. cbn. by destruct st.
Qed.
Lemma state_checks_ok st : state_ok st -> state_checks (raw_of_state st) = true.
Proof.
  intros [Hr Hc Hd Hn Ht]. unfold state_checks, raw_of_state. cbn -[Z.leb]. rewrite !u64_as_i64_small by lia.
  rewrite !(proj2 (Z.leb_le _ _)) by lia. by rewrite !bool_decide_eq_true_2.
Qed.

(** * What an admission, a settlement and a recovery change

    The effect of every operation of store/usage.rs on the durable tables: the rows
    it read were authentic, the tables it leaves are sealed again, and a failure
    leaves them alone. *)

#[local] Arguments be_bytes : simpl never.
#[local] Arguments aad_encode : simpl never.
#[local] Arguments usage_aad : simpl never.
#[local] Arguments usage_row_bytes : simpl never.

Section WithLibraries.
Context {H : Host} {HL : HostLaws} {CC : Codecs} {CL : CodecLaws} {SJ : Serde} {VW : ValueWriter}.
Context {RC : RecordCodec} {AE : Aead} {AL : AeadLaws}.
Context (key : list Z) (vault : Uuid).

(** A step of the work of a transaction that began in [s0]. *)
Lemma vwp_step {A B} (m : V A) (f : A -> V B) (P : A -> Vault -> Prop) Q (E : AuthorityError -> Vault -> Prop) s0 s :
  kept s0 s -> (forall e s', kept s0 s' -> E e s') ->
  vwp m (fun a s' => kept s s' /\ P a s') (fun _ s' => kept s s') s ->
  (forall a s', kept s0 s' -> P a s' -> vwp (f a) Q E s') -> vwp (x ← m; f x) Q E s.
Proof.
  intros H0 HE Hm Hf. apply vwp_bind. eapply vwp_mono; [exact Hm| |]; cbn.
  - intros a s' [Hs HP]. apply Hf; [by etrans|done].
  - intros e s' Hs. apply HE. by etrans.
Qed.
Lemma vreader_tx {A} (m : V A) s :
  reader m -> vwp m (fun _ s' => kept s s' /\ v_tx s' = v_tx s) (fun _ s' => kept s s') s.
Proof. intros Hm. eapply vwp_mono; [apply Hm| |]; cbn; [intros a s' []|intros e s' []]; auto. Qed.
Lemma lift_tx {A} (r : result AuthorityError A) s :
  vwp (vlift r) (fun a s' => kept s s' /\ (v_tx s' = v_tx s /\ r = Ok a)) (fun _ s' => kept s s') s.
Proof. apply vwp_lift; intros; [split_and!; done || reflexivity|reflexivity]. Qed.

Lemma event_tx e s :
  vwp (audit_insert e) (fun _ s' => kept s s' /\ add_event e (v_tx s) = Some (v_tx s')) (fun _ s' => kept s s') s.
Proof. eapply vwp_mono; [apply audit_insert_wp|done|]. cbn. by intros err s' [_ ?]. Qed.
Lemma events_tx l s :
  vwp (veach audit_insert l) (fun _ s' => kept s s' /\ add_events l (v_tx s) = Some (v_tx s')) (fun _ s' => kept s s') s.
Proof. eapply vwp_mono; [apply veach_insert_wp, audit_insert_wp|done|]. cbn. by intros err s' [_ ?]. Qed.

(** ** The seal *)

Record sealed (rows : list UsageRecord) (revision : Z) (st : UsageState) : Prop := {
  sl_verify : usage_verify key vault rows st = Ok tt;
  sl_revision : st_revision st = revision;
  sl_bound : revision <= i64_max;
  sl_count : st_record_count st = llen rows;
  sl_digest : length (st_records_digest st) = 32%nat;
  sl_nonce : length (st_seal_nonce st) = 12%nat;
  sl_tag : length (st_seal_ciphertext st) = 16%nat;
}.
Lemma sealed_ok rows revision st : 0 <= revision -> llen rows <= i64_max -> sealed rows revision st -> state_ok st.
Proof. intros Hr Hl []. pose proof (llen_nonneg rows). split; (done || lia). Qed.

Lemma usage_seal_tx rows revision s :
  vwp (usage_seal key vault rows revision)
    (fun st s' => kept s s' /\ (v_tx s' = v_tx s /\ sealed rows revision st)) (fun _ s' => kept s s') s.
Proof.
  unfold usage_seal. apply vwp_bind, vwp_reject; intros Hrev; [reflexivity|]. apply Z.ltb_ge in Hrev.
  apply vwp_bind, vwp_lift; [|intros; reflexivity]. intros digest Hd. unfold aead_seal.
  apply vwp_bind, vwp_bind. unfold vwp at 1, random_array.
  destruct (entropy (v_tick s) 12) as [nonce|] eqn:En; [|by cbn; auto with vault].
  destruct (entropy_length _ _ _ En) as [Hn _].
  apply vwp_bind, vwp_lift; [|by auto with vault]. intros c Hc. apply vwp_ret.
  apply vwp_bind, vwp_reject; intros Hl; [by auto with vault|]. apply vwp_ret. reflect_bools. cbn [fst snd] in *.
  split_and!; [by auto with vault|done|]. destruct (gcm_encrypt _ _ _ _) as [c'|] eqn:Ec; [|done]. cbn in Hc. simplify_eq.
  apply gcm_roundtrip in Ec. unfold usage_digest in Hd. destruct (usage_rows_bytes None rows) as [body|] eqn:Eb; [|done].
  apply ok_inj in Hd. subst digest.
  split; try done; [|apply sha256_length].
  unfold usage_verify, usage_digest, aead_open. cbn [st_record_count st_records_digest st_seal_nonce st_seal_ciphertext].
  rewrite Z.eqb_refl, Eb. cbn -[usage_aad]. rewrite bool_decide_eq_true_2 by done. cbn -[usage_aad].
  set (st := mkUsageState revision _ _ nonce c). assert (Ed : gcm_decrypt key nonce (usage_aad vault st) c = Some []) by exact Ec.
  by rewrite Ed.
Qed.
Lemma next_state_tx rows st s :
  vwp (next_state key vault rows st)
    (fun next s' => kept s s' /\ (v_tx s' = v_tx s /\ sealed rows (st_revision st + 1) next)) (fun _ s' => kept s s') s.
Proof.
  unfold next_state. eapply vwp_step; [reflexivity|done|apply lift_tx|]. cbn. intros revision s1 H1 [Etx Er].
  unfold u64_checked_add in Er. destruct (_ <=? _); [|done]. cbn in Er. simplify_eq.
  eapply vwp_mono; [apply usage_seal_tx| |]; cbn.
  - intros next s2 (H2 & Etx2 & Hs). split; [by etrans|]. split; [congruence|done].
  - intros e s2 H2. by etrans.
Qed.
(** The state row replaces the one that is there. *)
Definition state_replaced (next : UsageState) (d d' : Database) : Prop :=
  is_some (profile_usage_state d) = true /\ state_checks (raw_of_state next) = true /\
  d' = set_usage_state (raw_of_state next) d.
Lemma replace_state_tx next s :
  vwp (replace_state next) (fun _ s' => kept s s' /\ state_replaced next (v_tx s) (v_tx s')) (fun _ s' => kept s s') s.
Proof.
  unfold replace_state. apply vwp_bind, vwp_exec_count; [auto with vault|]. intros t n Et.
  apply vwp_reject; intros Hn; [apply kept_tx|]. split; [apply kept_tx|]. reflect_bools. subst n. cbn.
  destruct (profile_usage_state (v_tx s)) eqn:Es; [|by simplify_eq]. destruct (state_checks _) eqn:Ec; [|done].
  simplify_eq. unfold state_replaced. by rewrite Es.
Qed.
Lemma write_tx row insert s :
  vwp (write row insert)
    (fun _ s' => kept s s' /\ (if insert then insert_usage_row else update_usage_row) (raw_of_usage row) (v_tx s) = Some (v_tx s', 1))
    (fun _ s' => kept s s') s.
Proof.
  unfold write. apply vwp_bind, vwp_exec_count; [auto with vault|]. intros t n Et.
  apply vwp_reject; intros Hn; [apply kept_tx|]. split; [apply kept_tx|]. reflect_bools. subst n. cbn. by rewrite Et.
Qed.
Lemma vreader_usage_current not_after wall : reader (current not_after wall).
Proof.
  apply vreader_bind; [apply vreader_instant|]. intros now. apply vreader_bind; [apply vreader_reject|]. intros _.
  destruct wall; [|apply vreader_ret]. apply vreader_bind; [apply vreader_now|]. intros. apply vreader_reject.
Qed.

(** ** Authentic ledgers *)

Record authentic (d : Database) (rows : list UsageRecord) (st : UsageState) : Prop := {
  ath_ledger : ledger d = Ok (rows, st);
  ath_verify : usage_verify key vault rows st = Ok tt;
  ath_context : forall r, r ∈ rows -> context_check r = Ok tt;
}.
Lemma authentic_unique d rows st rows' st' :
  authentic d rows st -> authentic d rows' st' -> rows' = rows /\ st' = st.
Proof. intros [E _ _] [E' _ _]. rewrite E in E'. by simplify_eq. Qed.

(** The read verifies the whole ledger; on a ledger that is authentic only the
    database itself can fail it. *)
Lemma verified_wp s :
  vwp (verified key vault)
    (fun a s' => same s s' /\ authentic (v_tx s) a.1 a.2)
    (fun e s' => same s s' /\ forall rows st, authentic (v_tx s) rows st -> e = Authority.StorageUnavailable) s.
Proof.
  unfold verified. apply vwp_bind. unfold load.
  apply vwp_bind, vwp_select; [split; [auto with vault|done]|].
  apply vwp_bind, vwp_lift; [intros rows Er|intros e Er; split; [auto with vault|]].
  2: { intros rows st [El _ _]. unfold ledger in El. by rewrite Er in El. }
  apply vwp_bind, vwp_select; [split; [etrans; apply same_v_ticked|done]|].
  apply vwp_bind, vwp_lift; [intros raw Ew|intros e Ew; split; [etrans; apply same_v_ticked|]].
  2: { intros rows' st [El _ _]. unfold ledger in El. rewrite Er in El. cbn in El, Ew. by rewrite Ew in El. }
  apply vwp_bind, vwp_lift; [intros st Est|intros e Est; split; [etrans; apply same_v_ticked|]].
  2: { intros rows' st' [El _ _]. unfold ledger in El. rewrite Er in El. cbn in El, Ew. rewrite Ew in El. cbn in El. by rewrite Est in El. }
  apply vwp_ret. cbn [fst snd].
  assert (El : ledger (v_tx s) = Ok (rows, st)).
  { unfold ledger. rewrite Er. cbn in Ew |- *. rewrite Ew. cbn. by rewrite Est. }
  apply vwp_bind, vwp_lift; [intros [] Ev|intros e Ev; split; [etrans; apply same_v_ticked|]].
  2: { intros rows' st' [El' Ev' _]. rewrite El in El'. simplify_eq. by rewrite Ev in Ev'. }
  apply vwp_bind, vwp_lift; [intros [] Ec|intros e Ec; split; [etrans; apply same_v_ticked|]].
  2: { intros rows' st' [El' _ Ec']. rewrite El in El'. simplify_eq. apply try_each_Ok in Ec'. congruence. }
  apply vwp_ret. split; [etrans; apply same_v_ticked|]. split; [done..|]. by apply try_each_Ok.
Qed.
Lemma verified_tx s :
  vwp (verified key vault) (fun a s' => kept s s' /\ (v_tx s' = v_tx s /\ authentic (v_tx s) a.1 a.2)) (fun _ s' => kept s s') s.
Proof. eapply vwp_mono; [apply verified_wp| |]; cbn; [intros a s' [[] ?]|intros e s' [[] _]]; auto. Qed.

(** ** Admission *)

(** How an admission that returned changed the tables [d] into [d']. *)
Inductive begun (row : UsageRecord) (usage : ProfileUsageStart) (events : list AuditEvent) (d : Database)
  : UsageAdmission -> Database -> Prop :=
  | begun_started rows st position t now sum next d1 d2 d' :
      authentic d rows st ->
      binary_search (u_request_id row) rows = inr position ->
      millis_at (since_epoch t) = Ok now ->
      totals rows (u_principal_id row) (u_instance_slug row) (day_of now) = Ok sum ->
      ut_requests sum < ps_max_requests_per_day usage ->
      ut_output_tokens sum < ps_max_output_tokens_per_day usage ->
      insert_usage_row (raw_of_usage (set_started now row)) d = Some (d1, 1) ->
      sealed (insert_at position (set_started now row) rows) (st_revision st + 1) next ->
      state_replaced next d1 d2 ->
      add_events events d2 = Some d' ->
      begun row usage events d Started d'
  | begun_denied rows st t now sum e d' :
      authentic d rows st ->
      millis_at (since_epoch t) = Ok now ->
      totals rows (u_principal_id row) (u_instance_slug row) (day_of now) = Ok sum ->
      ps_max_requests_per_day usage <= ut_requests sum \/ ps_max_output_tokens_per_day usage <= ut_output_tokens sum ->
      last events = Some e ->
      add_event (as_blocked e) d = Some d' ->
      begun row usage events d BudgetDenied d'.

Lemma commit_ret {A} (a : A) (D : Database -> Prop) s0 s :
  kept s0 s -> D (v_tx s) ->
  vwp (_ ← commit_audited; mret a) (fun x s' => frame s0 s' /\ (x = a /\ D (v_db s'))) (fun _ s' => kept s0 s') s.
Proof.
  intros H0 HD. apply vwp_bind, vwp_commit; [etrans; [exact H0|auto with vault]|]. apply vwp_ret.
  split; [|done]. etrans; [exact (kp_frame _ _ H0)|apply frame_db].
Qed.

Lemma begin_profile_execution_wp row usage events not_after wall s :
  vwp (begin_profile_execution key vault row usage events not_after wall)
    (fun a s' => frame s s' /\ begun row usage events (v_db s) a (v_db s')) (fun _ s' => kept s s') s.
Proof.
  unfold begin_profile_execution.
  eapply vwp_step; [reflexivity|done|apply vreader_tx, vreader_usage_current|]. cbn. intros _ s1 H1 _.
  apply vwp_bind, vwp_begin; [etrans; [exact H1|auto with vault]|].
  assert (H1' : kept s (v_ticked (set_v_tx (v_db s1) s1))) by (etrans; [exact H1|apply kept_tx]).
  eapply vwp_step; [exact H1'|done|apply verified_tx|]. cbn [v_tx v_ticked set_v_tx].
  rewrite (kp_db _ _ H1). intros [rows st] s2 H2 [Et2 Ha]. cbn [fst snd] in *.
  eapply vwp_step; [exact H2|done|apply lift_tx|]. cbn. intros position s3 H3 [Et3 Ep].
  destruct (binary_search _ rows) as [|p] eqn:Eb; [done|]. simplify_eq.
  apply vwp_bind, vwp_now; [|intros; etrans; [exact H3|auto with vault]]. intros now Enow.
  assert (H3' : kept s (v_ticked s3)) by (etrans; [exact H3|auto with vault]).
  eapply vwp_step; [exact H3'|done|apply lift_tx|]. cbn. intros sum s4 H4 [Et4 Es].
  destruct (_ && _) eqn:Eadm.
  - apply andb_true_iff in Eadm as [Ereq Etok]. apply Z.ltb_lt in Ereq, Etok.
    eapply vwp_step; [exact H4|done|apply write_tx|]. cbn. intros _ s5 H5 Ew.
    eapply vwp_step; [exact H5|done|apply next_state_tx|]. cbn. intros next s6 H6 [Et6 Hn].
    eapply vwp_step; [exact H6|done|apply replace_state_tx|]. cbn. intros _ s7 H7 Hr.
    eapply vwp_step; [exact H7|done|apply events_tx|]. cbn. intros _ s8 H8 Ee.
    eapply vwp_step; [exact H8|done|apply vreader_tx, vreader_usage_current|]. cbn. intros _ s9 H9 Et9.
    eapply vwp_mono; [eapply (commit_ret Started (fun d' => begun row usage events (v_db s) Started d')); [exact H9|]| |];
      cbn; [|intros a s' (? & -> & ?); done|done].
    rewrite Et9. eapply begun_started; try done; cbn in *; try congruence.
  - apply andb_false_iff in Eadm. rewrite !Z.ltb_ge in Eadm.
    eapply vwp_step; [exact H4|done|apply lift_tx|]. cbn. intros e s5 H5 [Et5 El].
    eapply vwp_step; [exact H5|done|apply event_tx|]. cbn. intros _ s6 H6 Ee.
    eapply vwp_step; [exact H6|done|apply vreader_tx, vreader_usage_current|]. cbn. intros _ s7 H7 Et7.
    eapply vwp_mono; [eapply (commit_ret BudgetDenied (fun d' => begun row usage events (v_db s) BudgetDenied d')); [exact H7|]| |];
      cbn; [|intros a s' (? & -> & ?); done|done].
    rewrite Et7. destruct (last events) as [e'|] eqn:Ele; [|done]. cbn in El. simplify_eq.
    eapply begun_denied; try done. cbn in *. rewrite <- Ee, Et5, Et4, Et3, Et2. done.
Qed.

(** ** Settlement *)

Inductive settled (request : RequestId) (measured : option Z) (event : AuditEvent) (d : Database) : Database -> Prop :=
  | settled_again rows st r :
      authentic d rows st -> r ∈ rows -> u_request_id r = request ->
      settle_row r measured event = Ok None ->
      settled request measured event d d
  | settled_once rows st position r r' e next d1 d2 d' :
      authentic d rows st -> rows !! position = Some r -> u_request_id r = request ->
      settle_row r measured event = Ok (Some (r', e)) ->
      update_usage_row (raw_of_usage r') d = Some (d1, 1) ->
      sealed (<[position := r']> rows) (st_revision st + 1) next ->
      state_replaced next d1 d2 ->
      add_event e d2 = Some d' ->
      settled request measured event d d'.
Lemma settle_profile_execution_wp request measured event s :
  vwp (settle_profile_execution key vault request measured event)
    (fun _ s' => frame s s' /\ settled request measured event (v_db s) (v_db s')) (fun _ s' => kept s s') s.
Proof.
  unfold settle_profile_execution. apply vwp_bind, vwp_begin; [by auto with vault|].
  eapply vwp_step; [apply kept_tx|done|apply verified_tx|]. cbn [v_tx v_ticked set_v_tx].
  intros [rows st] s1 H1 [Et1 Ha]. cbn [fst snd] in *.
  eapply vwp_step; [exact H1|done|apply lift_tx|]. cbn. intros position s2 H2 [Et2 Ep].
  destruct (binary_search request rows) as [p|] eqn:Eb; [|done]. simplify_eq.
  destruct (binary_search_found _ _ _ Eb) as (r & Er & Eid).
  eapply vwp_step; [exact H2|done|apply lift_tx|]. rewrite Er. cbn. intros r' s3 H3 [Et3 Er']. simplify_eq.
  eapply vwp_step; [exact H3|done|apply lift_tx|]. cbn. intros [[r'' e]|] s4 H4 [Et4 Es].
  - eapply vwp_step; [exact H4|done|apply write_tx|]. cbn. intros _ s5 H5 Ew.
    eapply vwp_step; [exact H5|done|apply next_state_tx|]. cbn. intros next s6 H6 [Et6 Hn].
    eapply vwp_step; [exact H6|done|apply replace_state_tx|]. cbn. intros _ s7 H7 Hr.
    eapply vwp_step; [exact H7|done|apply event_tx|]. cbn. intros _ s8 H8 Ee.
    apply vwp_commit; [etrans; [exact H8|auto with vault]|]. split; [etrans; [exact (kp_frame _ _ H8)|apply frame_db]|].
    cbn. eapply settled_once; try done; congruence.
  - apply vwp_ret. split; [exact (kp_frame _ _ H4)|]. rewrite (kp_db _ _ H4).
    eapply settled_again; try done. by eapply list_elem_of_lookup_2.
Qed.

(** ** Recovery *)

(** The open rows, in order, each settled as abandoned. *)
Inductive abandoned : list UsageRecord -> Database -> list UsageRecord -> Database -> Prop :=
  | abandoned_none d : abandoned [] d [] d
  | abandoned_skip r rows d rows' d' :
      is_some (u_output_tokens r) = true -> abandoned rows d rows' d' -> abandoned (r :: rows) d (r :: rows') d'
  | abandoned_row r r' e event_id now ctx rows d d1 d2 rows' d' :
      is_some (u_output_tokens r) = false ->
      context_from_str (u_context_json r) = Some ctx -> 0 <= now <= i64_max ->
      settle_row r None (abandoned_event event_id now (u_request_id r) ctx) = Ok (Some (r', e)) ->
      update_usage_row (raw_of_usage r') d = Some (d1, 1) -> add_event e d1 = Some d2 ->
      abandoned rows d2 rows' d' -> abandoned (r :: rows) d (r' :: rows') d'.
Inductive recovered (d : Database) : Database -> Prop :=
  | recovered_nothing rows st :
      authentic d rows st -> forallb (fun r => is_some (u_output_tokens r)) rows = true -> recovered d d
  | recovered_open rows st rows' d1 next d' :
      authentic d rows st -> abandoned rows d rows' d1 ->
      sealed rows' (st_revision st + 1) next -> state_replaced next d1 d' -> recovered d d'.

Lemma millis_at_range o now : millis_at o = Ok now -> 0 <= now <= i64_max.
Proof. unfold millis_at. destruct o as [d|]; [|done]. destruct (Z.leb_spec (Z.of_N d) i64_max); [|done]. intros [= <-]. lia. Qed.
(** An open row is settled, never found settled. *)
Lemma settle_row_open r measured e x : settle_row r measured e = Ok x -> is_some (u_output_tokens r) = false -> exists p, x = Some p.
Proof.
  intros Es Ho. unfold settle_row in Es. rewrite Ho in Es. destruct (context_from_str _); [|done]. cbn in Es.
  destruct (event_context e); [|done]. cbn in Es. case_match; [done|]. destruct (charge _ _); [|done]. cbn in Es.
  destruct (terminal_to_string _); [|done]. cbn in Es. simplify_eq. by eexists.
Qed.
Lemma recover_row_tx r s : is_some (u_output_tokens r) = false ->
  vwp (recover_row r) (fun r' s' => kept s s' /\ exists event_id now ctx e d1,
    context_from_str (u_context_json r) = Some ctx /\ 0 <= now <= i64_max /\
    settle_row r None (abandoned_event event_id now (u_request_id r) ctx) = Ok (Some (r', e)) /\
    update_usage_row (raw_of_usage r') (v_tx s) = Some (d1, 1) /\ add_event e d1 = Some (v_tx s'))
    (fun _ s' => kept s s') s.
Proof.
  intros Ho. unfold recover_row. eapply vwp_step; [reflexivity|done|apply lift_tx|]. cbn. intros ctx s1 H1 [Et1 Ec].
  eapply vwp_step; [exact H1|done|apply vreader_tx, vreader_random|]. cbn. intros event_id s2 H2 Et2.
  apply vwp_bind, vwp_now; [|intros; etrans; [exact H2|auto with vault]]. intros now Enow.
  assert (H2' : kept s (v_ticked s2)) by (etrans; [exact H2|auto with vault]).
  eapply vwp_step; [exact H2'|done|apply lift_tx|]. cbn. intros x s3 H3 [Et3 Es].
  destruct (settle_row_open _ _ _ _ Es Ho) as [[r' e] ->]. cbn.
  eapply vwp_step; [exact H3|done|apply write_tx|]. cbn. intros _ s4 H4 Ew.
  eapply vwp_step; [exact H4|done|apply event_tx|]. cbn. intros _ s5 H5 Ee. split; [done|].
  destruct (context_from_str (u_context_json r)) as [ctx'|] eqn:Ex; [|done]. cbn in Ec. simplify_eq.
  exists event_id, now, ctx, e, (v_tx s4). split_and!; try done; [..|congruence].
  - by eapply millis_at_range.
  - by eapply millis_at_range.
Qed.
Lemma recover_rows_tx rows s :
  vwp (vmap (fun row => if is_none (u_output_tokens row) then recover_row row else mret row) rows)
    (fun rows' s' => kept s s' /\ abandoned rows (v_tx s) rows' (v_tx s')) (fun _ s' => kept s s') s.
Proof.
  revert s. induction rows as [|r rows IH]; intros s; cbn [vmap]; [apply vwp_ret; split; [reflexivity|constructor]|].
  unfold is_none. destruct (is_some (u_output_tokens r)) eqn:Eo; cbn [negb].
  - apply vwp_bind, vwp_ret. eapply vwp_step; [reflexivity|done|apply IH|]. cbn. intros rows' s1 H1 Ha.
    split; [done|by constructor].
  - eapply vwp_step; [reflexivity|done|by apply recover_row_tx|]. cbn.
    intros r' s1 H1 (event_id & now & ctx & e & d1 & E1 & E2 & E3 & E4 & E5).
    eapply vwp_step; [exact H1|done|apply IH|]. cbn. intros rows' s2 H2 Ha. split; [done|].
    by eapply abandoned_row.
Qed.
Lemma recover_profile_usage_wp s :
  vwp (recover_profile_usage key vault) (fun _ s' => frame s s' /\ recovered (v_db s) (v_db s')) (fun _ s' => kept s s') s.
Proof.
  unfold recover_profile_usage. apply vwp_bind, vwp_begin; [by auto with vault|].
  eapply vwp_step; [apply kept_tx|done|apply verified_tx|]. cbn [v_tx v_ticked set_v_tx].
  intros [rows st] s1 H1 [Et1 Ha]. cbn [fst snd] in *.
  eapply vwp_step; [exact H1|done|apply recover_rows_tx|]. cbn. intros rows' s2 H2 Hab.
  destruct (forallb _ rows) eqn:Eall.
  - apply vwp_ret. split; [exact (kp_frame _ _ H2)|]. rewrite (kp_db _ _ H2). by eapply recovered_nothing.
  - eapply vwp_step; [exact H2|done|apply next_state_tx|]. cbn. intros next s3 H3 [Et3 Hn].
    eapply vwp_step; [exact H3|done|apply replace_state_tx|]. cbn. intros _ s4 H4 Hr.
    apply vwp_commit; [etrans; [exact H4|auto with vault]|]. split; [etrans; [exact (kp_frame _ _ H4)|apply frame_db]|].
    cbn. eapply recovered_open; try done; congruence.
Qed.
Lemma verified_usage_wp s :
  vwp (verified_usage key vault) (fun a s' => kept s s' /\ authentic (v_db s) a.1 a.2) (fun _ s' => kept s s') s.
Proof.
  unfold verified_usage. apply vwp_bind, vwp_begin; [by auto with vault|].
  eapply vwp_mono; [apply verified_tx| |]; cbn.
  - intros a s' (Hk & _ & Ha). split; [|done]. etrans; [apply kept_tx|exact Hk].
  - intros e s' Hk. etrans; [apply kept_tx|exact Hk].
Qed.

End WithLibraries.
