(* ===== verification/VaultEvolution.v ===== *)
(** * VaultEvolution: what pruning deletes, and how tables change

    A pruning that commits deletes exactly the rows of some finished requests, all of
    them older than the cutoff and without an approval, and appends its marker; any
    other outcome leaves the audit alone. *)

From stdpp Require Import relations.
From S2P Require Import Prelude Errors Domain Codec SessionState Approval Json Parameters AuditRecords VaultModel VaultStore Usage VaultWorker.
From S2P Require Import AuditLog VaultRules UsageTheorems.

Section WithLibraries.
Context {H : Host} {HL : HostLaws} {CC : Codecs} {SJ : Serde} {VW : ValueWriter} {RC : RecordCodec}.

(** ** Keys *)

(** The rows in the order of their keys, and the counter above them. *)
Record log_ok (d : Database) : Prop := {
  lo_sorted : StronglySorted (fun a b => raw_sequence a < raw_sequence b) (audit_events d);
  lo_range : forall a, a ∈ audit_events d -> 0 < raw_sequence a <= audit_sequence d;
  lo_bound : 0 <= audit_sequence d <= i64_max;
}.
Lemma sorted_keys l : StronglySorted (fun a b => raw_sequence a < raw_sequence b) l ->
  forall a b, a ∈ l -> b ∈ l -> raw_sequence a = raw_sequence b -> a = b.
Proof.
  induction 1 as [|x l Hs IH Hf]; intros a b Ha Hb E; [by apply not_elem_of_nil in Ha|].
  rewrite Forall_forall in Hf. apply elem_of_cons in Ha as [->|Ha], Hb as [->|Hb]; [done|..].
  - specialize (Hf _ Hb). cbn in Hf. lia.
  - specialize (Hf _ Ha). cbn in Hf. lia.
  - by apply IH.
Qed.
Lemma retain_sorted {A} (R : A -> A -> Prop) p l : StronglySorted R l -> StronglySorted R (retain p l).
Proof.
  unfold retain. induction 1 as [|x l Hs IH Hf]; cbn; [constructor|]. destruct (p x); [|done]. constructor; [done|].
  rewrite Forall_forall in Hf |- *. intros y Hy. apply Hf. apply elem_of_retain in Hy. tauto.
Qed.
Lemma log_ok_retain p d : log_ok d -> log_ok (set_audit_events (retain p (audit_events d)) (audit_sequence d) d).
Proof.
  intros [Hs Hr Hb]. split; cbn; [by apply retain_sorted| |done]. intros a [Ha _]%elem_of_retain. by apply Hr.
Qed.
(** What a record keeps of its row. *)
Lemma record_fields r e : record_from_raw r = Ok e ->
  0 < raw_sequence r /\ sequence e = raw_sequence r /\ r_event_type e = raw_event_type r /\
  r_reason_code e = raw_reason_code r /\ r_outcome e = raw_outcome r /\ r_created_at_ms e = raw_created_at_ms r /\
  is_some (r_request_id e) = is_some (raw_request_id r) /\
  is_some (r_approval_request_id e) = is_some (raw_approval_request_id r) /\
  is_some (r_approval_id e) = is_some (raw_approval_id r) /\ is_some (r_approver_id e) = is_some (raw_approver_id r).
Proof.
  assert (Ht : forall A B (f : A -> result AuthorityError B) o x, transpose f o = Ok x -> is_some x = is_some o).
  { intros A B f [v|] x; cbn; [|by intros [= <-]]. destruct (f v); cbn; [|done]. by intros [= <-]. }
  unfold record_from_raw. intros Hr. bind_inv Hr. subst e. cbn. unfold positive_u64 in *.
  destruct (Z.ltb_spec 0 (raw_sequence r)); [|done]. simplify_eq. split_and!; try done; by eapply Ht.
Qed.

(** ** Groups *)

Definition of_request (id : RequestId) (e : AuditRecord) : bool := bool_decide (r_request_id e = Some id).
(** The group of a request, from all of its records. *)
Definition group_for (before : Z) (id : RequestId) (events : list AuditRecord) : ExecutionGroup :=
  fold_left (fun g e => group_event before e g) (retain (of_request id) events) empty_group.
Record groups_ok (before : Z) (events : list AuditRecord) (groups : list (RequestId * ExecutionGroup)) : Prop := {
  gk_sorted : StronglySorted Z.lt (map fst groups);
  gk_group : forall id g, (id, g) ∈ groups -> g = group_for before id events;
  gk_all : forall e id, e ∈ events -> r_request_id e = Some id -> id ∈ map fst groups;
}.

Lemma retain_retain {A} (p q : A -> bool) l : retain q (retain p l) = retain (fun x => p x && q x) l.
Proof. unfold retain. induction l as [|x l IH]; cbn; [done|]. destruct (p x); cbn; [destruct (q x); by rewrite IH|done]. Qed.
Lemma retain_app {A} (p : A -> bool) l l' : retain p (l ++ l') = retain p l ++ retain p l'.
Proof. apply List.filter_app. Qed.
Lemma update_group_keys id f groups k : k ∈ map fst (update_group id f groups) <-> k = id \/ k ∈ map fst groups.
Proof.
  induction groups as [|[k' g] groups IH]; cbn; [rewrite list_elem_of_singleton, elem_of_nil; tauto|].
  destruct (Z.eqb_spec id k') as [->|Hne]; cbn; [rewrite !elem_of_cons; tauto|]. destruct (id <? k'); cbn; rewrite !elem_of_cons; [tauto|].
  rewrite IH. tauto.
Qed.
Lemma update_group_sorted id f groups :
  StronglySorted Z.lt (map fst groups) -> StronglySorted Z.lt (map fst (update_group id f groups)).
Proof.
  induction groups as [|[k g] groups IH]; cbn; [by repeat constructor|]. intros Hs. destruct (Z.eqb_spec id k) as [->|Hne]; [done|].
  inversion Hs as [|? ? Hs' Hf]; subst. rewrite Forall_forall in Hf. destruct (Z.ltb_spec id k); cbn.
  - constructor; [done|]. constructor; [done|]. apply Forall_forall. intros x Hx. specialize (Hf _ Hx). lia.
  - constructor; [by apply IH|]. apply Forall_forall. intros x [->|Hx]%update_group_keys; [lia|by apply Hf].
Qed.
Lemma update_group_elem id f groups k g :
  StronglySorted Z.lt (map fst groups) -> (k, g) ∈ update_group id f groups ->
  (k <> id /\ (k, g) ∈ groups) \/ (k = id /\ ((exists g0, (id, g0) ∈ groups /\ g = f g0) \/ (id ∉ map fst groups /\ g = f empty_group))).
Proof.
  induction groups as [|[k' g'] groups IH]; cbn; intros Hs Hk.
  - apply list_elem_of_singleton in Hk. simplify_eq. right. split; [done|]. right. split; [apply not_elem_of_nil|done].
  - inversion Hs as [|? ? Hs' Hf]; subst. rewrite Forall_forall in Hf. destruct (Z.eqb_spec id k') as [->|Hne].
    + apply elem_of_cons in Hk as [[= -> ->]|Hk]; [right; split; [done|]; left; exists g'; by split; [left|]|].
      left. split; [|by right]. intros ->. apply (list_elem_of_fmap_2 fst) in Hk. specialize (Hf _ Hk). cbn in Hf. lia.
    + destruct (Z.ltb_spec id k').
      * apply elem_of_cons in Hk as [[= -> ->]|Hk].
        -- right. split; [done|]. right. split; [|done]. intros [->|Hi]%elem_of_cons; [done|]. specialize (Hf _ Hi). lia.
        -- left. split; [|done]. intros ->. apply (list_elem_of_fmap_2 fst) in Hk. cbn in Hk.
           apply elem_of_cons in Hk as [->|Hk]; [done|]. specialize (Hf _ Hk). lia.
      * apply elem_of_cons in Hk as [[= -> ->]|Hk]; [left; split; [done|left]|].
        destruct (IH Hs' Hk) as [[? ?]|[-> [(g0 & ? & ?)|[? ->]]]]; [left; split; [done|by right]|right..]; (split; [done|]).
        -- left. exists g0. by split; [right|].
        -- right. split; [|done]. intros [->|?]%elem_of_cons; done.
Qed.
Lemma groups_step before events groups e :
  groups_ok before events groups -> groups_ok before (events ++ [e]) (group_record before groups e).
Proof.
  intros [Hs Hg Ha]. unfold group_record. destruct (r_request_id e) as [id|] eqn:Ei.
  - split; [by apply update_group_sorted| |].
    + intros k g Hk. unfold group_for. rewrite retain_app, fold_left_app. fold (group_for before k events).
      unfold retain at 1, of_request. cbn. destruct (update_group_elem _ _ _ _ _ Hs Hk) as [[Hne Hk']|[-> [(g0 & Hg0 & ->)|[Hno ->]]]].
      * rewrite bool_decide_eq_false_2 by congruence. by apply Hg.
      * rewrite bool_decide_eq_true_2 by done. cbn. by rewrite (Hg _ _ Hg0).
      * rewrite bool_decide_eq_true_2 by done. cbn. f_equal. unfold group_for.
        replace (retain (of_request id) events) with (@nil AuditRecord); [done|]. symmetry.
        destruct (retain (of_request id) events) as [|x l] eqn:Er; [done|]. exfalso. apply Hno.
        assert (Hx : x ∈ retain (of_request id) events) by (rewrite Er; left). apply elem_of_retain in Hx as [Hx Hr].
        apply bool_decide_eq_true in Hr. by eapply Ha.
    + intros x k [Hx| ->%list_elem_of_singleton]%elem_of_app Hk; apply update_group_keys; [right; by eapply Ha|left; congruence].
  - split; [done| |].
    + intros k g Hk. unfold group_for. rewrite retain_app, fold_left_app. unfold retain at 1, of_request. cbn.
      rewrite bool_decide_eq_false_2 by congruence. by apply Hg.
    + intros x k [Hx| ->%list_elem_of_singleton]%elem_of_app Hk; [by eapply Ha|congruence].
Qed.

(** A record that pruning may delete: old, and no evidence of an approval. *)
Definition clean (before : Z) (e : AuditRecord) : Prop :=
  r_created_at_ms e < before /\ r_approval_request_id e = None /\ r_approval_id e = None /\ r_approver_id e = None.

(** ** Deletion *)

Definition request_of (r : RawAuditRow) : option RequestId :=
  match record_from_raw r with Ok e => r_request_id e | Err _ => None end.
Definition in_requests (doomed : list RequestId) (r : RawAuditRow) : bool :=
  match request_of r with Some id => bool_decide (id ∈ doomed) | None => false end.
Definition decodes (rows : list RawAuditRow) (events : list AuditRecord) : Prop :=
  Forall2 (fun r e => record_from_raw r = Ok e) rows events.
Lemma decodes_row rows events e : decodes rows events -> e ∈ events -> exists r, r ∈ rows /\ record_from_raw r = Ok e.
Proof.
  induction 1 as [|r x rows events Hr _ IH]; [by intros ?%not_elem_of_nil|].
  intros [->|He]%elem_of_cons; [exists r; by split; [left|]|]. destruct (IH He) as (r' & ? & ?). exists r'. by split; [right|].
Qed.
Lemma decodes_event rows events r : decodes rows events -> r ∈ rows -> exists e, e ∈ events /\ record_from_raw r = Ok e.
Proof.
  induction 1 as [|r' x rows events Hr _ IH]; [by intros ?%not_elem_of_nil|].
  intros [->|He]%elem_of_cons; [exists x; by split; [left|]|]. destruct (IH He) as (e & ? & ?). exists e. by split; [right|].
Qed.
(** ** What may go, said without groups *)

(** The types of an execution's own events, and of those that end it. *)
Definition end_types : list string :=
  [event_type.EXECUTION_FINISHED; event_type.EXECUTION_BLOCKED; event_type.EXECUTION_INDETERMINATE].
Definition execution_types : list string :=
  event_type.EXECUTION_STARTED :: end_types ++
  [event_type.GITHUB_CONNECTOR_AUTHORIZED; event_type.GITHUB_TOKEN_REVOKED;
   event_type.VAULT_LEASE_ISSUED; event_type.VAULT_LEASE_REVOKED].
Definition typed_rows (types : list string) (id : RequestId) (rows : list RawAuditRow) : list RawAuditRow :=
  retain (fun r => bool_decide (request_of r = Some id) && bool_decide (raw_event_type r ∈ types)) rows.
(** A finished execution: every row of the request is old, without trace of an approval
    and of an execution's types; exactly one starts it, exactly one ends it, later. *)
Record eligible (before : Z) (rows : list RawAuditRow) (id : RequestId) : Prop := {
  el_rows : forall r, r ∈ rows -> request_of r = Some id ->
    exists e, record_from_raw r = Ok e /\ clean before e /\ raw_event_type r ∈ execution_types;
  el_ends : exists start terminal, typed_rows [event_type.EXECUTION_STARTED] id rows = [start] /\
    typed_rows end_types id rows = [terminal] /\ raw_sequence start < raw_sequence terminal;
}.

Definition of_types (types : list string) (e : AuditRecord) : bool := bool_decide (r_event_type e ∈ types).
Notation starts := (retain (of_types [event_type.EXECUTION_STARTED])).
Notation ends := (retain (of_types end_types)).
Definition may_go (before : Z) (e : AuditRecord) : Prop := clean before e /\ r_event_type e ∈ execution_types.

Lemma of_types_started e : of_types [event_type.EXECUTION_STARTED] e = str_eqb (r_event_type e) event_type.EXECUTION_STARTED.
Proof. unfold of_types, str_eqb. apply bool_decide_ext. by rewrite list_elem_of_singleton. Qed.
Lemma of_types_ended e : of_types end_types e = is_terminal_type (r_event_type e).
Proof.
  unfold of_types, is_terminal_type, end_types, str_eqb. apply eq_true_iff_eq.
  rewrite bool_decide_eq_true, !orb_true_iff, !bool_decide_eq_true, !elem_of_cons, elem_of_nil. tauto.
Qed.
Lemma execution_type_cases e :
  r_event_type e ∈ execution_types <->
  of_types [event_type.EXECUTION_STARTED] e = true \/ of_types end_types e = true \/ may_prune_type (r_event_type e) = true.
Proof.
  unfold of_types, may_prune_type, execution_types, str_eqb.
  rewrite !orb_true_iff, !bool_decide_eq_true, elem_of_cons, elem_of_app, !elem_of_cons, !elem_of_nil. tauto.
Qed.
Lemma started_not_ended e : of_types [event_type.EXECUTION_STARTED] e = true -> of_types end_types e = false.
Proof.
  unfold of_types. rewrite bool_decide_eq_true, bool_decide_eq_false, list_elem_of_singleton. intros ->.
  unfold end_types. rewrite !elem_of_cons, elem_of_nil. intros [|[|[|]]]; done.
Qed.
Lemma none_of {A} (o : option A) : is_some o = false <-> o = None.
Proof. by destruct o. Qed.
Lemma clean_spec before e :
  (before <=? r_created_at_ms e) || is_some (r_approval_request_id e) || is_some (r_approval_id e) || is_some (r_approver_id e) = false
  <-> clean before e.
Proof.
  unfold clean. rewrite !orb_false_iff, Z.leb_gt.
  rewrite !none_of. tauto.
Qed.
(** One record: what it does to the flag and to the ends. *)
Lemma group_event_exact before e g :
  let g' := group_event before e g in
  (g_retained g' = false <->
     g_retained g = false /\ may_go before e /\
     (of_types [event_type.EXECUTION_STARTED] e = true -> g_start g = None) /\ (of_types end_types e = true -> g_terminal g = None)) /\
  g_start g' = (if of_types [event_type.EXECUTION_STARTED] e then Some (sequence e) else g_start g) /\
  g_terminal g' = (if of_types end_types e then Some (sequence e) else g_terminal g).
Proof.
  cbv zeta. unfold group_event, may_go. rewrite execution_type_cases, <- clean_spec, <- of_types_started, <- of_types_ended.
  pose proof (started_not_ended e) as Hd.
  destruct (of_types [_] e); [|destruct (of_types end_types e)]; cbn; rewrite ?Hd by done;
    (split; [|done]); rewrite ?orb_false_iff, ?none_of; [intuition congruence..|].
  rewrite negb_false_iff. intuition congruence.
Qed.
Lemma group_fold_exact before l g0 :
  let g := fold_left (fun g e => group_event before e g) l g0 in
  (g_retained g = false <->
     g_retained g0 = false /\ Forall (may_go before) l /\
     (length (option_list (g_start g0) ++ map sequence (starts l)) <= 1)%nat /\
     (length (option_list (g_terminal g0) ++ map sequence (ends l)) <= 1)%nat) /\
  (g_retained g = false ->
     option_list (g_start g) = option_list (g_start g0) ++ map sequence (starts l) /\
     option_list (g_terminal g) = option_list (g_terminal g0) ++ map sequence (ends l)).
Proof.
  revert g0. induction l as [|e l IH]; intros g0; cbn [fold_left].
  - cbv zeta. unfold retain. cbn. rewrite !app_nil_r. split; [|done]. split; [|tauto].
    intros Hr. split_and!; [done|constructor|destruct (g_start g0)|destruct (g_terminal g0)]; cbn; lia.
  - destruct (IH (group_event before e g0)) as [IH1 IH2]. clear IH.
    destruct (group_event_exact before e g0) as (He & Es & Et).
    rewrite Forall_cons. unfold retain in *. cbn [List.filter].
    rewrite He, Es, Et in IH1. rewrite Es, Et in IH2.
    destruct (of_types [_] e), (of_types end_types e), (g_start g0), (g_terminal g0); cbn in *;
      (split; [rewrite IH1; intuition (congruence || lia)|]); intros Hr; specialize (IH2 Hr);
      apply IH1 in Hr; intuition congruence.
Qed.
Lemma group_sequences before id events : g_sequences (group_for before id events) = map sequence (retain (of_request id) events).
Proof.
  unfold group_for. assert (Hg : forall l g, g_sequences (fold_left (fun g e => group_event before e g) l g) = g_sequences g ++ map sequence l).
  { induction l as [|e l IH]; intros g; cbn; [by rewrite app_nil_r|]. rewrite IH. unfold group_event.
    destruct (str_eqb _ _); [|destruct (is_terminal_type _)]; cbn; by rewrite <- app_assoc. }
  apply Hg.
Qed.
Lemma at_most_one {A B} (f : A -> B) l x : map f l = [x] <-> exists a, l = [a] /\ f a = x.
Proof.
  split; [|by intros (a & -> & <-)]. destruct l as [|a [|b l]]; cbn; intros E; try done. exists a. split; [done|congruence].
Qed.
Lemma option_list_one {A} (o : option A) x : option_list o = [x] <-> o = Some x.
Proof. destruct o; cbn; split; congruence. Qed.
(** The group of a request may be pruned, in terms of its records. *)
Lemma prunable_exact before id events :
  let l := retain (of_request id) events in
  prunable (group_for before id events) = true <->
  Forall (may_go before) l /\ exists a b, starts l = [a] /\ ends l = [b] /\ sequence a < sequence b.
Proof.
  pose proof (group_fold_exact before (retain (of_request id) events) empty_group) as Hf. cbv zeta in Hf |- *.
  fold (group_for before id events) in Hf. destruct Hf as [Hr He]. set (l := retain (of_request id) events) in *. cbn [empty_group g_retained g_start g_terminal option_list app] in Hr, He.
  unfold prunable. rewrite andb_true_iff, negb_true_iff. split.
  - intros [Hg Hp]. destruct (He Hg) as [E1 E2]. apply Hr in Hg as (_ & Hl & _). split; [done|].
    destruct (g_start _) as [m|]; [|done]. destruct (g_terminal _) as [n|]; [|done]. apply Z.ltb_lt in Hp. symmetry in E1, E2.
    apply at_most_one in E1 as (a & Ea & <-). apply at_most_one in E2 as (b & Eb & <-). by exists a, b.
  - intros (Hl & a & b & Ea & Eb & Hlt).
    assert (Hg : g_retained (group_for before id events) = false) by (apply Hr; rewrite Ea, Eb; split_and!; (done || cbn; lia)).
    split; [done|]. destruct (He Hg) as [E1 E2]. rewrite Ea in E1. rewrite Eb in E2. apply option_list_one in E1, E2.
    rewrite E1, E2. by apply Z.ltb_lt.
Qed.
Lemma decodes_retain p q rows events :
  decodes rows events -> (forall r e, record_from_raw r = Ok e -> p r = q e) -> decodes (retain p rows) (retain q events).
Proof.
  intros Hd Hp. unfold retain. induction Hd as [|r e rows events Hr _ IH]; cbn; [constructor|].
  rewrite (Hp _ _ Hr). destruct (q e); [by constructor|done].
Qed.
Lemma typed_rows_decode types id rows events :
  decodes rows events -> decodes (typed_rows types id rows) (retain (of_types types) (retain (of_request id) events)).
Proof.
  intros Hd. rewrite retain_retain. eapply decodes_retain; [exact Hd|]. intros r e Hr. unfold of_request, of_types, request_of.
  rewrite Hr. destruct (record_fields _ _ Hr) as (_ & _ & -> & _). done.
Qed.
Lemma decodes_one rows events e : decodes rows events -> events = [e] -> exists r, rows = [r] /\ record_from_raw r = Ok e.
Proof. intros Hd ->. inversion Hd as [|r ? ? ? Hr Hn]; subst. inversion Hn; subst. by exists r. Qed.
Lemma decodes_one_row rows events r : decodes rows events -> rows = [r] -> exists e, events = [e] /\ record_from_raw r = Ok e.
Proof. intros Hd ->. inversion Hd as [|? e ? ? Hr Hn]; subst. inversion Hn; subst. by exists e. Qed.
Lemma prunable_eligible before rows events id :
  decodes rows events -> prunable (group_for before id events) = true <-> eligible before rows id.
Proof.
  intros Hd. rewrite prunable_exact.
  pose proof (typed_rows_decode [event_type.EXECUTION_STARTED] id _ _ Hd) as Hs. pose proof (typed_rows_decode end_types id _ _ Hd) as He.
  assert (Hseq : forall r e, record_from_raw r = Ok e -> raw_sequence r = sequence e).
  { intros r e Hr. by destruct (record_fields _ _ Hr) as (_ & -> & _). }
  split.
  - intros (Hl & a & b & Ea & Eb & Hlt). rewrite Forall_forall in Hl. split.
    + intros r Hr Hq. destruct (decodes_event _ _ _ Hd Hr) as (e & Hin & Er). exists e. split; [done|].
      destruct (record_fields _ _ Er) as (_ & _ & Et & _). rewrite <- Et. apply Hl, elem_of_retain. split; [done|].
      unfold of_request. unfold request_of in Hq. rewrite Er in Hq. by apply bool_decide_eq_true.
    + destruct (decodes_one _ _ _ Hs Ea) as (ra & -> & Ra). destruct (decodes_one _ _ _ He Eb) as (rb & -> & Rb).
      exists ra, rb. by rewrite (Hseq _ _ Ra), (Hseq _ _ Rb).
  - intros [Hl (ra & rb & Ea & Eb & Hlt)]. split.
    + apply Forall_forall. intros e [He' Hq]%elem_of_retain. destruct (decodes_row _ _ _ Hd He') as (r & Hr & Er).
      apply bool_decide_eq_true in Hq. destruct (Hl r Hr) as (e' & Er' & Hc & Ht); [unfold request_of; by rewrite Er|].
      rewrite Er in Er'. injection Er' as <-. destruct (record_fields _ _ Er) as (_ & _ & Et & _). by rewrite <- Et in Ht.
    + destruct (decodes_one_row _ _ _ Hs Ea) as (a & -> & Ra). destruct (decodes_one_row _ _ _ He Eb) as (b & -> & Rb).
      exists a, b. by rewrite <- (Hseq _ _ Ra), <- (Hseq _ _ Rb).
Qed.

(** The rows whose key is among the sequences. *)
Definition in_sequences (seqs : list Z) (r : RawAuditRow) : bool := existsb (fun seq => raw_sequence r =? u64_as_i64 seq) seqs.
Lemma deletion_exact before d events groups r :
  log_ok d -> decodes (audit_events d) events -> groups_ok before events groups -> r ∈ audit_events d ->
  let doomed := retain (fun p => prunable (snd p)) groups in
  in_sequences (concat (map (fun p => g_sequences (snd p)) doomed)) r = in_requests (map fst doomed) r.
Proof.
  intros Hl Hd Hg Hr doomed. destruct (decodes_event _ _ _ Hd Hr) as (e & He & Er).
  assert (Hsmall : forall x, x ∈ events -> u64_as_i64 (sequence x) = sequence x).
  { intros x Hx. destruct (decodes_row _ _ _ Hd Hx) as (rx & Hrx & Erx). destruct (record_fields _ _ Erx) as (_ & Sx & _).
    pose proof (lo_range _ Hl _ Hrx). pose proof (lo_bound _ Hl). apply u64_as_i64_small. lia. }
  unfold in_requests, request_of. rewrite Er. apply eq_true_iff_eq. unfold in_sequences. rewrite existsb_exists.
  split.
  - intros (seq & Hin & Eq). apply Z.eqb_eq in Eq. apply in_concat in Hin as (l & Hl' & Hin).
    apply in_map_iff in Hl' as ([id g] & <- & Hp). apply list_elem_of_In in Hp. assert (Hp' := Hp).
    apply elem_of_retain in Hp' as [Hp' _]. cbn in Hin. rewrite (gk_group _ _ _ Hg _ _ Hp'), group_sequences in Hin.
    apply in_map_iff in Hin as (x & <- & Hx). apply list_elem_of_In, elem_of_retain in Hx as [Hx Ix].
    apply bool_decide_eq_true in Ix. rewrite Hsmall in Eq by done. destruct (decodes_row _ _ _ Hd Hx) as (rx & Hrx & Erx).
    destruct (record_fields _ _ Erx) as (_ & Sx & _). assert (r = rx) as -> by (eapply sorted_keys; [apply Hl|..]; (done || lia)).
    rewrite Er in Erx. simplify_eq. rewrite Ix. apply bool_decide_eq_true. by apply (list_elem_of_fmap_2 fst) in Hp.
  - destruct (r_request_id e) as [id|] eqn:Ei; [|done]. rewrite bool_decide_eq_true. intros Hin.
    apply list_elem_of_fmap in Hin as ([id' g] & -> & Hp). exists (sequence e). destruct (record_fields _ _ Er) as (_ & Se & _).
    rewrite Hsmall, Se, Z.eqb_refl by done. split; [|done]. apply in_concat. exists (g_sequences g). split.
    + apply in_map_iff. exists (id', g). split; [done|by apply list_elem_of_In].
    + apply elem_of_retain in Hp as [Hp _]. rewrite (gk_group _ _ _ Hg _ _ Hp), group_sequences. cbn in Ei.
      apply in_map_iff. exists e. rewrite <- Se. split; [done|]. apply list_elem_of_In, elem_of_retain. split; [done|].
      by apply bool_decide_eq_true.
Qed.

(** ** The transaction *)

Lemma group_rows_wp before not_after rows seen groups s :
  groups_ok before seen groups ->
  vwp (group_rows before not_after rows groups)
    (fun gs s' => same s s' /\ exists events, decodes rows events /\ groups_ok before (seen ++ events) gs)
    (fun _ s' => same s s') s.
Proof.
  revert seen groups s. induction rows as [|r rows IH]; intros seen groups s Hg; cbn [group_rows].
  - apply vwp_ret. split; [reflexivity|]. exists []. split; [constructor|by rewrite app_nil_r].
  - apply vwp_read; [apply vreader_current|done|]. intros _ s1 H1. apply vwp_bind, vwp_lift; [|by intros].
    intros e Er. eapply vwp_mono; [apply (IH (seen ++ [e])); by apply groups_step| |].
    + cbn. intros gs s2 (H2 & events & Hd & Hgs). split; [by etrans|]. exists (e :: events). rewrite <- app_assoc in Hgs.
      split; [by constructor|done].
    + cbn. intros err s2 H2. by etrans.
Qed.
(** The rows without those whose keys are given. *)
Definition without (seqs : list Z) (d : Database) : Database :=
  set_audit_events (retain (fun r => negb (in_sequences seqs r)) (audit_events d)) (audit_sequence d) d.
Lemma retain_ext {A} (p q : A -> bool) l : (forall x, x ∈ l -> p x = q x) -> retain p l = retain q l.
Proof.
  unfold retain. induction l as [|x l IH]; intros Hp; cbn; [done|]. rewrite (Hp x) by left. rewrite IH; [done|]. intros y Hy. apply Hp. by right.
Qed.
Lemma without_app s1 s2 d : without s2 (without s1 d) = without (s1 ++ s2) d.
Proof.
  unfold without. cbn. rewrite retain_retain. unfold set_audit_events. cbn. f_equal. apply retain_ext. intros x _.
  unfold in_sequences. by rewrite existsb_app, negb_orb.
Qed.
Lemma without_nil d : without [] d = d.
Proof. unfold without, in_sequences, retain. cbn. assert (E : forall l : list RawAuditRow, List.filter (fun _ => true) l = l) by (induction l; cbn; congruence). rewrite E. by destruct d. Qed.
Lemma delete_sequence_tx seq s :
  vwp (delete_sequence seq) (fun _ s' => kept s s' /\ v_tx s' = without [seq] (v_tx s)) (fun _ s' => kept s s') s.
Proof.
  unfold delete_sequence. apply vwp_bind, vwp_exec_count; [by auto with vault|]. intros t n [= <- <-].
  apply vwp_reject; intros Hn; [apply kept_tx|]. split; [apply kept_tx|]. cbn. unfold without. f_equal.
  apply retain_ext. intros x _. unfold in_sequences. cbn. by rewrite orb_false_r.
Qed.
Lemma deletes_wp {A} (f : A -> V unit) (keys : A -> list Z) l s :
  (forall a s, vwp (f a) (fun _ s' => kept s s' /\ v_tx s' = without (keys a) (v_tx s)) (fun _ s' => kept s s') s) ->
  vwp (veach f l) (fun _ s' => kept s s' /\ v_tx s' = without (concat (map keys l)) (v_tx s)) (fun _ s' => kept s s') s.
Proof.
  intros Hf. revert s. induction l as [|a l IH]; intros s; cbn [veach map concat]; [apply vwp_ret; split; [reflexivity|by rewrite without_nil]|].
  eapply vwp_step; [reflexivity|done|apply Hf|]. cbn. intros _ s1 H1 T1.
  eapply vwp_mono; [apply IH| |]; cbn; [|intros e s2 H2; by etrans].
  intros _ s2 [H2 T2]. split; [by etrans|]. by rewrite T2, T1, without_app.
Qed.
Lemma delete_group_tx not_after g s :
  vwp (delete_group not_after g) (fun _ s' => kept s s' /\ v_tx s' = without (g_sequences g) (v_tx s)) (fun _ s' => kept s s') s.
Proof.
  unfold delete_group. eapply vwp_mono; [apply (deletes_wp _ (fun seq => [seq]))| |done]; cbn.
  - intros seq s1. eapply vwp_step; [reflexivity|done|apply vreader_tx, vreader_current|]. cbn. intros _ s2 H2 E2.
    eapply vwp_mono; [apply delete_sequence_tx| |]; cbn; [|intros e s3 H3; by etrans].
    intros _ s3 [H3 T3]. split; [by etrans|]. by rewrite T3, E2.
  - intros _ s1 [H1 T1]. split; [done|]. rewrite T1. f_equal. clear. induction (g_sequences g); cbn; congruence.
Qed.

(** A chosen group has a start, so it has a row. *)
Lemma chosen_nonempty before events groups chosen :
  groups_ok before events groups -> chosen = retain (fun p => prunable (snd p)) groups ->
  llen (concat (map (fun p => g_sequences (snd p)) chosen)) <= 0 -> chosen = [].
Proof.
  intros Hg -> Hno. destruct (retain _ groups) as [|[id g] l] eqn:Ec; [done|]. exfalso.
  assert (Hin : (id, g) ∈ retain (fun p => prunable (snd p)) groups) by (rewrite Ec; left).
  apply elem_of_retain in Hin as [Hin Hp]. cbn in Hp. rewrite (gk_group _ _ _ Hg _ _ Hin) in Hp.
  apply prunable_exact in Hp as (_ & e & _ & Ee & _). assert (He : e ∈ starts (retain (of_request id) events)) by (rewrite Ee; left).
  apply elem_of_retain in He as [He _]. cbn in Hno. rewrite (gk_group _ _ _ Hg _ _ Hin), group_sequences in Hno.
  destruct (retain _ events) as [|x l']; [by apply not_elem_of_nil in He|]. cbn in Hno. unfold llen in Hno. cbn in Hno. lia.
Qed.
Lemma retain_disjoint {A} (p q : A -> bool) l :
  (forall x, x ∈ l -> p x = true -> q x = false) ->
  length (retain (fun x => p x || q x) l) = (length (retain p l) + length (retain q l))%nat.
Proof.
  unfold retain. induction l as [|x l IH]; intros Hd; cbn; [done|].
  specialize (IH (fun y Hy => Hd y (list_elem_of_further _ _ _ Hy))). assert (Hx := Hd x (list_elem_of_here _ _)).
  destruct (p x); [rewrite Hx by done|destruct (q x)]; cbn; lia.
Qed.
Lemma deletion_count before rows events groups :
  decodes rows events -> NoDup (map fst groups) -> (forall id g, (id, g) ∈ groups -> g = group_for before id events) ->
  length (concat (map (fun p => g_sequences (snd p)) groups)) = length (retain (in_requests (map fst groups)) rows).
Proof.
  intros Hd. induction groups as [|[id g] groups IH]; intros Hn Hg.
  - cbn. symmetry. apply length_zero_iff_nil. unfold retain. clear. induction rows as [|r rows IH]; cbn; [done|].
    unfold in_requests at 1. destruct (request_of r) as [id|]; [rewrite bool_decide_eq_false_2 by apply not_elem_of_nil|]; done.
  - cbn [map] in *. apply NoDup_cons in Hn as [Hnew Hn]. cbn [concat snd fst]. rewrite length_app, IH; [|done|].
    2: { intros id' g' Hin. apply Hg. by right. }
    rewrite (Hg id g) by left. rewrite group_sequences, length_map.
    rewrite (retain_ext (in_requests (id :: map fst groups)) (fun r => bool_decide (request_of r = Some id) || in_requests (map fst groups) r)).
    + rewrite retain_disjoint.
      * f_equal. symmetry. eapply Forall2_length, decodes_retain; [exact Hd|]. intros r e Hr. unfold request_of. by rewrite Hr.
      * intros r _ Hr%bool_decide_eq_true. unfold in_requests. rewrite Hr. by apply bool_decide_eq_false_2.
    + intros r _. unfold in_requests. destruct (request_of r) as [id'|]; [|by rewrite bool_decide_eq_false_2].
      apply eq_true_iff_eq. rewrite orb_true_iff, !bool_decide_eq_true, elem_of_cons.
      split; (intros [H1|H1]; [left; congruence|by right]).
Qed.
Lemma sorted_distinct l : StronglySorted Z.lt l -> NoDup l.
Proof.
  induction 1 as [|x l _ IH Hf]; constructor; [|done]. rewrite Forall_forall in Hf. intros Hx. specialize (Hf _ Hx). lia.
Qed.
Lemma chosen_groups before events groups :
  groups_ok before events groups ->
  let chosen := retain (fun p => prunable (snd p)) groups in
  NoDup (map fst chosen) /\ (forall id g, (id, g) ∈ chosen -> g = group_for before id events) /\
  (forall rows id, decodes rows events -> id ∈ map fst chosen <-> eligible before rows id).
Proof.
  intros [Hs Hg Ha]. cbv zeta. split; [|split].
  - apply NoDup_map_retain. by apply sorted_distinct.
  - intros id g [Hin _]%elem_of_retain. by apply Hg.
  - intros rows id Hd. rewrite <- prunable_eligible by done. split.
    + intros ([k g] & -> & [Hin Hp]%elem_of_retain)%list_elem_of_fmap. cbn in *. by rewrite <- (Hg _ _ Hin).
    + intros Hp. assert (Hp' := Hp). apply prunable_exact in Hp' as (_ & e & _ & Ee & _).
      assert (He : e ∈ starts (retain (of_request id) events)) by (rewrite Ee; left).
      apply elem_of_retain in He as [[He Hi]%elem_of_retain _]. apply bool_decide_eq_true in Hi.
      destruct (proj1 (list_elem_of_fmap _ _ _) (Ha e id He Hi)) as ([k g] & -> & Hin). cbn in *.
      apply list_elem_of_fmap. exists (k, g). split; [done|]. apply elem_of_retain. split; [done|]. cbn. by rewrite (Hg _ _ Hin).
Qed.
(** What a pruning may do to the tables. *)
Record pruned (before : Z) (marker : AuditEvent) (doomed : list RequestId) (d d' : Database) : Prop := {
  pn_distinct : NoDup doomed;
  pn_exact : forall id, id ∈ doomed <-> eligible before (audit_events d) id;
  pn_marked : add_event marker (set_audit_events (retain (fun r => negb (in_requests doomed r)) (audit_events d)) (audit_sequence d) d) = Some d';
}.
Lemma audit_prune_wp request marker not_after s :
  vwp (audit_prune request marker not_after)
    (fun receipt s' => frame s s' /\ (log_ok (v_db s) ->
       (forall r, r ∈ audit_events (v_db s) -> is_ok (record_from_raw r) = true) /\
       ((v_db s' = v_db s /\ receipt = mkAuditPruneReceipt (pr_before_ms request) 0 0 None /\
         forall id, ~ eligible (pr_before_ms request) (audit_events (v_db s)) id) \/
        (0 < deleted_rows receipt /\
         exists doomed, pruned (pr_before_ms request) marker doomed (v_db s) (v_db s') /\
           receipt = mkAuditPruneReceipt (pr_before_ms request) (llen (retain (in_requests doomed) (audit_events (v_db s))))
             (llen doomed) (Some (audit_sequence (v_db s')))))))
    (fun _ s' => kept s s') s.
Proof.
  unfold audit_prune. apply vwp_bind, vwp_begin; [by auto with vault|].
  apply vwp_bind, vwp_select; [etrans; [apply kept_tx|auto with vault]|]. cbn [v_tx v_ticked set_v_tx].
  set (s1 := v_ticked _). assert (H1 : kept s s1) by (etrans; [apply kept_tx|apply sm_kept, same_v_ticked]).
  assert (E1 : v_tx s1 = v_db s) by done. clearbody s1.
  apply vwp_bind. eapply vwp_mono; [apply (group_rows_wp _ _ _ [] []); split; [constructor|by intros ?? ?%not_elem_of_nil..]| |].
  2: { cbn. intros e s2 H2. etrans; [exact H1|by apply sm_kept]. }
  cbn. intros groups s2 (H2 & events & Hd & Hg). assert (H2' : kept s s2) by (etrans; [exact H1|by apply sm_kept]).
  assert (E2 : v_tx s2 = v_db s) by (rewrite (sm_tx _ _ H2); done). clear H1 H2 E1 s1.
  set (chosen := retain (fun p => prunable (snd p)) groups).
  assert (Ec : retain prunable (map snd groups) = map snd chosen).
  { unfold chosen, retain. clear. induction groups as [|[k g] l IH]; cbn; [done|]. destruct (prunable g); cbn; by rewrite IH. }
  destruct (chosen_groups _ _ _ Hg) as (Hcn & Hcg & Hce). fold chosen in Hcn, Hcg, Hce.
  assert (Hall : forall r, r ∈ audit_events (v_db s) -> is_ok (record_from_raw r) = true).
  { intros r Hr. by destruct (decodes_event _ _ _ Hd Hr) as (e & _ & ->). }
  rewrite Ec. eapply vwp_step; [exact H2'|done|apply (deletes_wp _ g_sequences); intros; apply delete_group_tx|].
  cbn. intros _ s3 H3 T3. rewrite E2 in T3. rewrite map_map in T3 |- *.
  destruct (Z.ltb_spec 0 (llen (concat (map (fun p => g_sequences (snd p)) chosen)))) as [Hpos|Hno].
  - eapply vwp_step; [exact H3|done|apply event_tx|]. cbn. intros _ s4 H4 Ee.
    apply vwp_bind, vwp_reads, vwp_bind, vwp_reject; intros _; [exact H4|].
    eapply vwp_step; [exact H4|done|apply vreader_tx, vreader_current|]. cbn. intros _ s5 H5 Et5.
    apply vwp_bind, vwp_commit; [etrans; [exact H5|by auto with vault]|]. apply vwp_ret.
    split; [etrans; [exact (kp_frame _ _ H5)|apply frame_db]|]. intros Hl. split; [exact Hall|right]. cbn. rewrite Et5.
    split; [done|]. exists (map fst chosen). split; [split; [done|by intros; apply Hce|]|].
    + rewrite T3 in Ee. unfold without in Ee. rewrite (retain_ext _ (fun r => negb (in_requests (map fst chosen) r))) in Ee; [done|].
      intros r Hr. f_equal. by eapply deletion_exact.
    + f_equal; unfold llen; [by rewrite (deletion_count _ _ _ _ Hd Hcn Hcg)|by rewrite !length_map].
  - eapply vwp_step; [exact H3|done|apply vreader_tx, vreader_current|]. cbn. intros _ s4 H4 _.
    split; [exact (kp_frame _ _ H4)|]. intros _. split; [exact Hall|left]. split; [exact (kp_db _ _ H4)|].
    assert (Hc : chosen = []) by (by apply (chosen_nonempty _ _ _ _ Hg)). rewrite Hc in Hce |- *. split; [done|].
    intros id He. by apply (Hce _ _ Hd), not_elem_of_nil in He.
Qed.

End WithLibraries.

(** * The tables of the vault as a transition system

    [change] is what one committed transaction may do to the tables; every worker
    operation of VaultWorker.v moves them by a sequence of changes, whatever the
    host answers, and never opens the vault. *)

Section WithLibraries.
Context {H : Host} {HL : HostLaws} {CC : Codecs} {CL : CodecLaws} {SJ : Serde} {VW : ValueWriter}.
Context {RC : RecordCodec} {RL : RecordCodecLaws} {AE : Aead} {AL : AeadLaws}.
(** ** Inputs *)

Definition id_typed (id : Uuid) : Prop := 0 < id < 2 ^ 128.
(** The types of a draft's fields, as far as the ledger stores them. *)
Record draft_typed (d : AuditDraft) : Prop := {
  dt_request : forall id, d_request_id d = Some id -> id_typed id;
  dt_principal : forall a, d_authorization d = Some a -> id_typed (au_principal_id a);
}.
Record start_typed (u : ProfileUsageStart) : Prop := {
  sty_requests : in_u64 (ps_max_requests_per_day u);
  sty_tokens : in_u64 (ps_max_output_tokens_per_day u);
  sty_maximum : forall v, ps_generation_max_output u = Some v -> in_u64 v;
}.
(** A row as the worker hands it to the store. *)
Record row_fresh (row : UsageRecord) : Prop := {
  rf_typed : row_typed row;
  rf_maximum : forall v, u_generation_max_output row = Some v -> 0 < v <= i64_max;
  rf_open : u_output_tokens row = None /\ u_source row = None /\ u_terminal_json row = None /\ u_settled_at_ms row = None;
  rf_context : exists ctx, context_from_str (u_context_json row) = Some ctx /\
    au_principal_id (uc_authorization ctx) = u_principal_id row;
  rf_slug : is_ok (usage_validate (mkUsageEvidence (u_instance_slug row) 0 0 NotApplicable)) = true;
}.
Definition no_usage (e : AuditEvent) : Prop := e_usage e = None.
Definition starts (e : AuditEvent) (request : RequestId) : Prop :=
  e_request_id e = Some request /\ e_event_type e = event_type.EXECUTION_STARTED.
Definition ends (e : AuditEvent) (request : RequestId) : Prop :=
  e_request_id e = Some request /\ is_terminal_type (e_event_type e) = true.

(** More of the audit, without usage evidence. *)
Definition appended (d d' : Database) : Prop :=
  (exists e, no_usage e /\ add_event e d = Some d') \/ (exists l, Forall no_usage l /\ add_events l d = Some d').

(** ** The log *)

(** What a change of the tables is to the audit alone. *)
Inductive log_step : Database -> Database -> Prop :=
  | log_same d d' : audit_events d' = audit_events d -> audit_sequence d' = audit_sequence d -> log_step d d'
  | log_event e d d' : add_event e d = Some d' -> log_step d d'
  | log_prune before marker doomed d d' :
      e_event_type marker = event_type.AUDIT_PRUNED -> pruned before marker doomed d d' -> log_step d d'.
Lemma log_events l d d' : add_events l d = Some d' -> rtc log_step d d'.
Proof.
  revert d. induction l as [|e l IH]; intros d; cbn; [by intros [= <-]|].
  destruct (add_event e d) as [d1|] eqn:Ee; cbn; [|done]. intros Hl. eapply rtc_l; [by eapply log_event|by apply IH].
Qed.
Lemma update_usage_log raw d d' n : update_usage_row raw d = Some (d', n) -> log_step d d'.
Proof. unfold update_usage_row. destruct (_ || _); [|done]. intros [= <- _]. by apply log_same. Qed.
Lemma state_log next d d' : state_replaced next d d' -> log_step d d'.
Proof. intros (_ & _ & ->). by apply log_same. Qed.
Lemma abandoned_log rows d rows' d' : abandoned rows d rows' d' -> rtc log_step d d'.
Proof.
  induction 1 as [|r rows d rows' d' Ho _ IH|r r' e id now ctx rows d d1 d2 rows' d' Ho Hc Hn Hs Hu Hadd _ IH]; [reflexivity|done|].
  eapply rtc_l; [by eapply update_usage_log|]. eapply rtc_l; [by eapply log_event|done].
Qed.
Lemma add_event_row e d d' : add_event e d = Some d' ->
  exists a, audit_events d' = audit_events d ++ [a] /\ audit_sequence d' = audit_sequence d + 1 /\
    raw_sequence a = audit_sequence d + 1 /\ raw_event_type a = e_event_type e /\ audit_sequence d < i64_max.
Proof.
  unfold add_event. destruct (metadata_text e) as [text|]; cbn; [|done]. unfold insert_audit_row.
  destruct (audit_sequence d <? i64_max) eqn:El; [|done]. apply Z.ltb_lt in El. destruct (_ && _); [|done]. intros [= <-].
  by eexists.
Qed.
Lemma add_event_log e d d' : add_event e d = Some d' -> log_ok d -> log_ok d'.
Proof.
  intros (a & Ea & En & Es & _ & Hl)%add_event_row [Hs Hr Hb]. split; rewrite ?Ea, ?En; [| |lia].
  - clear -Hs Hr Es. induction (audit_events d) as [|x l IH]; cbn; [by repeat constructor|]. inversion Hs as [|? ? Hs' Hf]; subst.
    constructor; [apply IH; [done|]; intros y Hy; apply Hr; by right|]. apply Forall_app. split; [done|]. constructor; [|done].
    specialize (Hr x). rewrite elem_of_cons in Hr. specialize (Hr (or_introl eq_refl)). lia.
  - intros x. rewrite elem_of_app, list_elem_of_singleton. intros [Hx| ->]; [specialize (Hr _ Hx); lia|].
    lia.
Qed.
Lemma log_step_ok d d' : log_step d d' -> log_ok d -> log_ok d'.
Proof.
  intros [d1 d2 E1 E2|e d1 d2 Ha|before marker doomed d1 d2 _ Hp] Hl.
  - destruct Hl as [Hs Hr Hb]. split; by rewrite ?E1, ?E2.
  - by eapply add_event_log.
  - eapply add_event_log; [apply Hp|]. by apply log_ok_retain.
Qed.
Lemma log_steps_ok d d' : rtc log_step d d' -> log_ok d -> log_ok d'.
Proof. induction 1; [done|]. intros Hl. eauto using log_step_ok. Qed.

(** ** The worker *)

(** The tables moved by [R], and the vault did not open. *)
Record evolves (R : relation Database) (s s' : Vault) : Prop := {
  ev_id : v_vault_id s' = v_vault_id s;
  ev_state : v_state s' = v_state s \/ v_state s' = VFaulted;
  ev_db : rtc R (v_db s) (v_db s');
}.
#[export] Instance evolves_preorder R : PreOrder (evolves R).
Proof.
  split; [intros s; split; [done|by left|reflexivity]|]. intros s1 s2 s3 [Hi1 Hs1 Hd1] [Hi2 Hs2 Hd2].
  split; [congruence| |by etrans]. destruct Hs2 as [->|]; [done|by right].
Qed.
Lemma kept_evolves R s s' : kept s s' -> evolves R s s'.
Proof. intros [Hf Hd]. split; [by apply fr_id|left; apply Hf|]. by rewrite Hd. Qed.
Lemma frame_evolves R s s' : frame s s' -> rtc R (v_db s) (v_db s') -> evolves R s s'.
Proof. intros Hf Hd. split; [by apply fr_id|left; apply Hf|done]. Qed.
Lemma evolves_mono (R R' : relation Database) s s' : (forall d d', R d d' -> R' d d') -> evolves R s s' -> evolves R' s s'.
Proof. intros HR [Hi Hs Hd]. split; [done..|]. clear -HR Hd. induction Hd; [reflexivity|]. by econstructor; eauto. Qed.
Hint Resolve kept_evolves : vault.

Section WithRelation.
Context (R : relation Database) (HR : forall d d', appended d d' -> R d d').
Notation evolves := (evolves R).

Definition evolver {A} (m : V A) : Prop := forall s, vwp m (fun _ s' => evolves s s') (fun _ s' => evolves s s') s.
Lemma evolver_ret {A} (a : A) : evolver (mret a).
Proof. intros s. apply vwp_ret. reflexivity. Qed.
Lemma evolver_fail {A} e : evolver (A:=A) (vfail e).
Proof. intros s. apply vwp_fail. reflexivity. Qed.
Lemma evolver_bind {A B} (m : V A) (f : A -> V B) : evolver m -> (forall a, evolver (f a)) -> evolver (x ← m; f x).
Proof.
  intros Hm Hf s. apply vwp_bind. eapply vwp_mono; [apply Hm| |done]. cbn. intros a s' Hs.
  eapply vwp_mono; [apply Hf| |]; cbn; intros; by etrans.
Qed.
Lemma evolver_try {A} (m : V A) : evolver m -> evolver (vtry m).
Proof. intros Hm s. apply vwp_try, Hm. Qed.
Lemma evolver_reader {A} (m : V A) : reader m -> evolver m.
Proof. intros Hm s. eapply vwp_mono; [apply Hm| |]; cbn; auto with vault. Qed.
Lemma evolver_modify f : (forall s, evolves s (f s)) -> evolver (vmodify f).
Proof. intros Hf s. apply vwp_modify, Hf. Qed.
Lemma evolver_settles {A} (m : V A) D :
  settles m D -> (forall a s d, D a s d -> rtc R (v_db s) d) -> evolver m.
Proof.
  intros Hm HD s. eapply vwp_mono; [apply Hm| |]; cbn; [|auto with vault].
  intros a s' [Hf Ha]. apply frame_evolves; [done|by eapply HD].
Qed.

Lemma evolver_append e : evolver (append_audit_row e).
Proof.
  eapply evolver_settles; [apply append_audit_row_wp|]. cbn. intros _ s d [Hu Hd]. apply rtc_once, HR.
  left. exists e. split; [|exact Hd]. unfold no_usage. by destruct (e_usage e).
Qed.
Lemma evolver_append_rows l : evolver (append_audit_rows l).
Proof.
  eapply evolver_settles; [apply append_audit_rows_wp|]. cbn. intros _ s d [Hu Hd]. apply rtc_once, HR.
  right. exists l. split; [|exact Hd]. apply Forall_forall. intros e He. unfold no_usage.
  destruct (e_usage e) eqn:Ee; [|done]. enough (existsb (fun e => is_some (e_usage e)) l = true) by congruence.
  apply existsb_exists. exists e. split; [by apply list_elem_of_In|by rewrite Ee].
Qed.
Lemma evolver_forget : evolver forget_desktop.
Proof.
  unfold forget_desktop. apply evolver_bind; [apply evolver_modify; intros s; split; [done|by left|reflexivity]|].
  intros _. apply evolver_bind.
  - intros s. unfold vwp, remove_desktop_file. destruct (fs_works _); cbn; (split; [done|by left|reflexivity]).
  - intros []; [|apply evolver_ret]. intros s. unfold vwp, sync_directory. destruct (fs_works _); (split; [done|by left|reflexivity]).
Qed.
(** The vault ends closed, whatever else fails. *)
Lemma fault_wp reason s :
  vwp (fault reason) (fun _ s' => evolves s s' /\ v_state s' = VFaulted) (fun _ s' => evolves s s' /\ v_state s' = VFaulted) s.
Proof.
  unfold fault. apply vwp_bind, vwp_modify, vwp_bind, vwp_modify.
  set (s0 := set_v_state VFaulted (set_v_presence None s)).
  assert (H0 : evolves s s0) by (split; [done|by right|reflexivity]).
  assert (Ht : forall s', evolves s0 s' -> evolves s s' /\ v_state s' = VFaulted).
  { intros s' H1. split; [by etrans|]. by destruct (ev_state _ _ _ H1). }
  match goal with |- vwp ?m _ _ _ => assert (Hm : evolver m) end.
  { repeat (apply evolver_bind; [apply evolver_try|intros ?]); [apply evolver_forget|apply evolver_reader, vreader_random
      |apply evolver_reader, vreader_now|].
    repeat case_match; try apply evolver_ret. apply evolver_bind; [apply evolver_try, evolver_append|intros; apply evolver_ret]. }
  eapply vwp_mono; [apply Hm| |]; cbn; auto.
Qed.
Lemma evolver_fault reason : evolver (fault reason).
Proof. intros s. eapply vwp_mono; [apply fault_wp| |]; cbn; tauto. Qed.
(** A success passes through; a failure may have closed the vault. *)
Lemma fault_on_wp {A} e reason (m : V A) (Q : A -> Vault -> Prop) s :
  vwp m Q (fun _ s' => evolves s s') s -> vwp (fault_on e reason m) Q (fun _ s' => evolves s s') s.
Proof.
  unfold vwp, fault_on, mbind, V_bind, vtry, vreads, vlift. destruct (m s) as [[a|err] s1]; cbn; [done|]. intros Hs.
  destruct (_ && _); cbn; [|done]. pose proof (evolver_fault reason s1) as Hf. unfold vwp in Hf.
  destruct (fault reason s1) as [[[]|] s2]; cbn; by etrans.
Qed.
Lemma or_fault_wp {A} reason (m : V A) (Q : A -> Vault -> Prop) s :
  vwp m Q (fun _ s' => evolves s s') s -> vwp (or_fault reason m) Q (fun _ s' => evolves s s') s.
Proof.
  unfold or_fault, vwp, vtry, mbind, V_bind. destruct (m s) as [[a|err] s1]; cbn; [done|]. intros Hs.
  pose proof (evolver_fault reason s1) as Hf. unfold vwp in Hf. destruct (fault reason s1) as [[[]|] s2]; cbn; by etrans.
Qed.
Lemma evolver_fault_on {A} e reason (m : V A) : evolver m -> evolver (fault_on e reason m).
Proof. intros Hm s. apply fault_on_wp, Hm. Qed.
Lemma evolver_or_fault {A} reason (m : V A) : evolver m -> evolver (or_fault reason m).
Proof. intros Hm s. apply or_fault_wp, Hm. Qed.

(** ** Events *)

(** The event of a draft. *)
Definition event_of (draft : AuditDraft) (e : AuditEvent) : Prop :=
  exists event_id now, (length event_id = 16%nat /\ 0 <= now <= i64_max) /\
    e = mkAuditEvent event_id (d_request_id draft) (d_session_id draft) (d_action_id draft) (d_action_version draft)
      (d_credential_id draft) (d_credential_version draft) (d_authorization draft) (d_approval draft) None
      (d_request_context draft) (d_event_type draft) (d_outcome draft) (d_reason_code draft)
      (d_upstream_status draft) (d_latency_ms draft) now.
Lemma audit_event_wp draft s :
  vwp (audit_event_or_fault draft) (fun e s' => kept s s' /\ event_of draft e) (fun _ s' => evolves s s') s.
Proof.
  unfold audit_event_or_fault. apply vwp_bind, vwp_reject; intros Hu; [reflexivity|].
  apply vwp_read; [..|intros _ s1 H1]; [|intros e s' []; by auto with vault|].
  { destruct (d_request_context draft); [|apply vreader_ret]. apply vreader_bind; intros; apply vreader_lift. }
  apply vwp_bind. eapply vwp_mono; [apply (or_fault_wp _ _ (fun now s' => kept s s' /\ 0 <= now <= i64_max))| |].
  - apply vwp_now; [|by auto with vault]. intros now En. split; [|by eapply millis_at_range]. etrans; [apply H1|by auto with vault].
  - intros now s2 [H2 Hnow]. apply vwp_bind, vwp_reject; intros He; [by auto with vault|].
    eapply vwp_mono; [apply (or_fault_wp _ _ (fun e s' => kept s s' /\ event_of draft e))| |].
    + unfold audit_event_at. apply vwp_bind. unfold vwp at 1, random_array.
      destruct (entropy _ _) as [id|] eqn:En; cbn; [|by auto with vault]. destruct (entropy_length _ _ _ En). split; [etrans; [exact H2|by auto with vault]|]. exists id, now. split; [done|]. by destruct (d_usage draft).
    + done.
    + intros e s' H3. etrans; [by apply kept_evolves|done].
  - intros e s2 H2. etrans; [apply kept_evolves, H1|done].
Qed.
Lemma event_no_usage draft e : event_of draft e -> no_usage e.
Proof. by intros (id & now & _ & ->). Qed.
Lemma audit_events_wp drafts s :
  vwp (vmap audit_event_or_fault drafts) (fun l s' => kept s s' /\ Forall2 event_of drafts l) (fun _ s' => evolves s s') s.
Proof.
  revert s. induction drafts as [|d drafts IH]; intros s; cbn [vmap]; [apply vwp_ret; split; [reflexivity|constructor]|].
  apply vwp_bind. eapply vwp_mono; [apply audit_event_wp| |done]. cbn. intros e s1 [H1 He].
  apply vwp_bind. eapply vwp_mono; [apply IH| |]; cbn.
  - intros l s2 [H2 Hl]. split; [by etrans|by constructor].
  - intros err s2 H2. etrans; [by apply kept_evolves|done].
Qed.
Lemma evolver_event draft : evolver (audit_event_or_fault draft).
Proof. intros s. eapply vwp_mono; [apply audit_event_wp| |done]; cbn. intros e s' [? _]. by auto with vault. Qed.
Lemma evolver_events drafts : evolver (vmap audit_event_or_fault drafts).
Proof. intros s. eapply vwp_mono; [apply audit_events_wp| |done]; cbn. intros e s' [? _]. by auto with vault. Qed.
Lemma evolver_append_audit draft : evolver (append_audit draft).
Proof. apply evolver_bind; [apply evolver_event|]. intros. apply evolver_or_fault, evolver_append. Qed.
Lemma evolver_append_audits drafts : evolver (append_audits drafts).
Proof. apply evolver_bind; [apply evolver_events|]. intros. apply evolver_or_fault, evolver_append_rows. Qed.

Lemma evolver_query_usage principal instance day : evolver (query_usage principal instance day).
Proof.
  unfold query_usage. apply evolver_bind.
  { apply evolver_reader. intros s. unfold vwp, require_unlocked. destruct (v_state s); reflexivity. }
  intros k. apply evolver_bind; [apply evolver_reader, vreader_lift|]. intros _.
  apply evolver_bind; [apply evolver_reader, vreader_reads|]. intros v. apply evolver_fault_on.
  unfold profile_usage_totals. apply evolver_bind; [|intros; apply evolver_reader, vreader_lift].
  intros s. eapply vwp_mono; [apply verified_usage_wp| |]; cbn; [intros a s' []|intros e s']; by auto with vault.
Qed.

End WithRelation.

Context (key : list Z) (vault : Uuid).

(** ** Executions *)

Lemma day_of_range now : 0 <= now <= i64_max -> 0 <= day_of now <= i64_max /\ in_i64 (day_of now).
Proof.
  unfold day_of, DAY_MS, in_i64, i64_min, i64_max. intros Hn. rewrite Z.quot_div_nonneg by lia.
  assert (0 <= now / 86400000 <= now) by (split; [apply Z.div_pos|apply Z.div_le_upper_bound]; lia). lia.
Qed.
Lemma draft_context_ok draft ctx :
  draft_context draft = Ok ctx -> d_authorization draft = Some (uc_authorization ctx) /\
  d_request_context draft = uc_request_context ctx.
Proof.
  unfold draft_context. destruct (d_session_id draft); [cbn|done]. destruct (d_action_id draft); [cbn|done].
  destruct (v ← d_action_version draft; _); [cbn|done]. destruct (d_credential_id draft); [cbn|done].
  destruct (d_authorization draft); [cbn|done]. case_match; [done|]. by intros [= <-].
Qed.
Lemma usage_validate_slug slug day day' source output source' :
  0 <= day' -> is_ok (usage_validate (mkUsageEvidence slug day 0 source)) = true ->
  output <= i64_max -> (source' = NotApplicable -> output = 0) ->
  usage_validate (mkUsageEvidence slug day' output source') = Ok tt.
Proof.
  intros Hd Hv Ho Hs. unfold usage_validate in *. cbn in *.
  destruct (is_empty_str slug || (64 <? slen slug) || _ || _ || _) eqn:E; [done|]. cbn.
  rewrite (proj2 (Z.ltb_ge day' 0)), (proj2 (Z.ltb_ge i64_max output)) by lia. cbn.
  destruct (bool_decide (source' = NotApplicable)) eqn:Es; [|done]. apply bool_decide_eq_true in Es. by rewrite Hs.
Qed.
Lemma usage_validate_length slug day output source :
  is_ok (usage_validate (mkUsageEvidence slug day output source)) = true -> slen slug <= 64.
Proof.
  unfold usage_validate. cbn. destruct (64 <? slen slug) eqn:E; [|intros _; by apply Z.ltb_ge in E].
  by rewrite orb_true_r.
Qed.
Lemma out_of_range_ok v : in_u64 v -> out_of_range v = false -> 0 < v <= i64_max.
Proof. unfold in_u64, out_of_range. intros Hv Ho. reflect_bools. lia. Qed.

(** The row of a started execution. *)
Definition row_of_start (usage : ProfileUsageStart) (started : AuditDraft) (row : UsageRecord) : Prop :=
  exists request ctx now json, d_request_id started = Some request /\ draft_context started = Ok ctx /\
    context_to_string ctx = Some json /\ 0 <= now <= i64_max /\ row = fresh_row request ctx usage now json.
Lemma fresh_row_ok usage started request ctx now json day :
  draft_typed started -> start_typed usage ->
  d_request_id started = Some request -> draft_context started = Ok ctx -> context_to_string ctx = Some json ->
  0 <= now <= i64_max -> start_invalid usage started = false ->
  is_ok (usage_validate (mkUsageEvidence (ps_instance_slug usage) day 0 NotApplicable)) = true ->
  row_fresh (fresh_row request ctx usage now json).
Proof.
  intros [Hq Hp] [_ _ Hm] Er Ec Ej Hn Hi Hv. destruct (draft_context_ok _ _ Ec) as [Ea _].
  destruct (day_of_range now Hn) as [Hd Hd']. pose proof (context_length _ _ Ej) as Hl.
  pose proof (usage_validate_length _ _ _ _ Hv) as Hs.
  unfold start_invalid in Hi. cbn [existsb] in Hi. reflect_bools.
  assert (Hmax : forall v, ps_generation_max_output usage = Some v -> 0 < v <= i64_max).
  { intros v Ev. apply out_of_range_ok; [by apply Hm|]. rewrite Ev in *. done. }
  unfold i64_max in *. split.
  - split; cbn; [by apply Hq|by apply Hp|lia|done|unfold in_i64, i64_min, i64_max; lia|lia|exact Hm|done..].
  - exact Hmax.
  - done.
  - exists ctx. cbn. split; [by apply context_roundtrip|done].
  - cbn. rewrite (usage_validate_slug _ day 0 NotApplicable 0 NotApplicable); (done || lia).
Qed.

Lemma begin_execution_wp usage preceding started not_after wall s :
  draft_typed started -> start_typed usage ->
  (forall k, v_state s = VUnlocked k -> k = key) -> v_vault_id s = vault ->
  vwp (begin_execution usage preceding started not_after wall)
    (fun a s' => frame s s' /\ exists row events, row_of_start usage started row /\ row_fresh row /\
       Forall no_usage events /\ (exists e, last events = Some e /\ event_of started e /\ starts e (u_request_id row)) /\
       begun key vault row usage events (v_db s) a (v_db s'))
    (fun _ s' => evolves appended s s') s.
Proof.
  intros Hd Hu Hk Hid. unfold begin_execution.
  assert (HE : forall s', same s s' -> evolves appended s s') by (intros s' []; by auto with vault).
  apply vwp_read; [intros s0; unfold vwp, require_unlocked; destruct (v_state s0); reflexivity|by intros; apply HE|]. intros _ s1 H1.
  apply vwp_read; [apply vreader_current|intros e s' H'; apply HE; by etrans|]. intros _ s2 H2.
  assert (H2' : same s s2) by (by etrans). clear H1 H2.
  apply vwp_bind, vwp_now; [|intros; apply HE; etrans; [exact H2'|apply same_v_ticked]]. intros now En.
  apply millis_at_range in En. assert (H3 : same s (v_ticked s2)) by (etrans; [exact H2'|apply same_v_ticked]).
  apply vwp_bind, vwp_reject; intros _; [by apply HE|].
  apply vwp_bind, vwp_lift; [intros ctx Ec|by intros; apply HE].
  apply vwp_bind, vwp_reject; intros Hmis; [by apply HE|].
  apply vwp_bind, vwp_lift; [intros request Er|by intros; apply HE].
  apply vwp_bind, vwp_lift; [intros [] Ev|by intros; apply HE].
  apply vwp_bind, vwp_reject; intros Hinv; [by apply HE|].
  apply vwp_bind, vwp_lift; [intros [] _|by intros; apply HE].
  apply vwp_bind, vwp_lift; [intros json Ej|by intros; apply HE].
  apply vwp_bind. eapply vwp_mono; [apply (audit_events_wp appended (fun _ _ a => a))| |]; cbn.
  2: { intros e s4 H4. etrans; [by apply HE|exact H4]. }
  intros events s4 [H4 Hevs]. apply vwp_bind. eapply vwp_mono; [apply (audit_event_wp appended (fun _ _ a => a))| |]; cbn.
  2: { intros e s5 H5. etrans; [by apply HE|]. etrans; [apply kept_evolves; exact H4|exact H5]. }
  intros start s5 [H5 Hst].
  assert (H5' : kept s s5) by (etrans; [exact (sm_kept _ _ H3)|by etrans]). clear H4 H5.
  apply vwp_bind. unfold vwp at 1, vault_key. destruct (v_state s5) as [|k| |] eqn:Es5; cbn; try by apply kept_evolves.
  assert (k = key) as ->.
  { apply Hk. rewrite <- Es5. symmetry. apply (fr_state _ _ (kp_frame _ _ H5')). }
  assert (Eid : v_vault_id s5 = vault) by (rewrite <- Hid; apply (fr_id _ _ (kp_frame _ _ H5'))).
  apply vwp_bind, vwp_reads. rewrite Eid.
  destruct (d_request_id started) as [request'|] eqn:Erq; [|done]. cbn in Er. apply ok_inj in Er. subst request'.
  destruct (context_to_string ctx) as [json'|] eqn:Ejs; [|done]. cbn in Ej. apply ok_inj in Ej. subst json'.
  set (row := fresh_row request ctx usage now json).
  assert (Hrow : row_fresh row).
  { eapply (fresh_row_ok usage started request ctx now json (day_of now)); try done.
    destruct (usage_validate _) as [[]|]; done. }
  assert (Hstart : exists e, last (events ++ [start]) = Some e /\ event_of started e /\ starts e (u_request_id row)).
  { exists start. rewrite last_snoc. split_and!; try done. destruct Hst as (id & at_ & _ & ->). split; [done|].
    unfold start_invalid in Hinv. reflect_bools. unfold str_eqb in *. by reflect_bools. }
  assert (Hno : Forall no_usage (events ++ [start])).
  { apply Forall_app. split; [|repeat constructor; by eapply event_no_usage].
    clear -Hevs. induction Hevs; constructor; [by eapply event_no_usage|done]. }
  pose proof (begin_profile_execution_wp key vault row usage (events ++ [start]) not_after wall) as Hb.
  eapply vwp_mono; [apply (fault_on_wp appended (fun _ _ a => a)), (fault_on_wp appended (fun _ _ a => a))| |].
  - eapply vwp_mono; [apply Hb|intros a s6 Hq; exact Hq|intros e s6; by apply kept_evolves].
  - cbn. intros a s6 [Hf Hd6]. split; [etrans; [exact (kp_frame _ _ H5')|done]|]. rewrite (kp_db _ _ H5') in Hd6.
    exists row, (events ++ [start]). split_and!; try done. by exists request, ctx, now, json.
  - intros e s6 H6. etrans; [apply kept_evolves; exact H5'|exact H6].
Qed.

Lemma terminal_checks request measured terminal event :
  (forall n, measured = Some n -> in_u64 n) ->
  terminal_invalid request measured terminal = false -> event_of terminal event ->
  no_usage event /\ ends event request /\ (forall n, measured = Some n -> 0 <= n <= i64_max) /\
  0 <= e_created_at_ms event <= i64_max.
Proof.
  intros Hm Hi (id & now & [_ Hnow] & ->). unfold terminal_invalid in Hi. reflect_bools. split_and!; [done| | |cbn; lia..].
  - split; [done|]. by destruct (is_terminal_type _).
  - intros n ->. cbn in *. specialize (Hm _ eq_refl). unfold in_u64 in Hm. reflect_bools. lia.
Qed.
Lemma settle_execution_wp request measured terminal s :
  (forall n, measured = Some n -> in_u64 n) ->
  (forall k, v_state s = VUnlocked k -> k = key) -> v_vault_id s = vault ->
  vwp (settle_execution request measured terminal)
    (fun _ s' => frame s s' /\ exists event, event_of terminal event /\
       (no_usage event /\ ends event request /\ (forall n, measured = Some n -> 0 <= n <= i64_max) /\ 0 <= e_created_at_ms event <= i64_max) /\
       settled key vault request measured event (v_db s) (v_db s'))
    (fun _ s' => evolves appended s s') s.
Proof.
  intros Hm Hk Hid. unfold settle_execution.
  assert (HE : forall s', same s s' -> evolves appended s s') by (intros s' []; by auto with vault).
  apply vwp_read; [intros s0; unfold vwp, require_unlocked; destruct (v_state s0); reflexivity|by intros; apply HE|]. intros _ s1 H1.
  apply vwp_bind, vwp_lift; [intros ctx Ec|by intros; apply HE].
  apply vwp_bind, vwp_reject; intros Hinv; [by apply HE|].
  apply vwp_bind. eapply vwp_mono; [apply (audit_event_wp appended (fun _ _ a => a))| |]; cbn.
  2: { intros e s4 H4. etrans; [by apply HE|exact H4]. }
  intros event s2 [H2 Hev]. destruct (terminal_checks _ _ _ _ Hm Hinv Hev) as (He1 & He2 & He3 & He4).
  assert (H2' : kept s s2) by (etrans; [exact (sm_kept _ _ H1)|done]). clear H1 H2.
  apply vwp_bind. unfold vwp at 1, vault_key. destruct (v_state s2) as [|k| |] eqn:Es2; cbn; try by apply kept_evolves.
  assert (k = key) as ->.
  { apply Hk. rewrite <- Es2. symmetry. apply (fr_state _ _ (kp_frame _ _ H2')). }
  assert (Eid : v_vault_id s2 = vault) by (rewrite <- Hid; apply (fr_id _ _ (kp_frame _ _ H2'))).
  apply vwp_bind, vwp_reads. rewrite Eid.
  pose proof (settle_profile_execution_wp key vault request measured event) as Hb.
  eapply vwp_mono; [apply (fault_on_wp appended (fun _ _ a => a)), (fault_on_wp appended (fun _ _ a => a))| |].
  - eapply vwp_mono; [apply Hb|intros a s3 Hq; exact Hq|intros e s3; by apply kept_evolves].
  - cbn. intros _ s3 [Hf Hd]. split; [etrans; [exact (kp_frame _ _ H2')|done]|]. rewrite (kp_db _ _ H2') in Hd. by exists event.
  - intros e s3 H3. etrans; [apply kept_evolves; exact H2'|exact H3].
Qed.

(** The requests that every profile allows a principal on an instance per day. *)
Context (limit : PrincipalId -> string -> Z).

(** ** Changes *)

(** [prunes] says whether pruning happens. *)
Inductive change (prunes : bool) : Database -> Database -> Prop :=
  | change_append d d' : appended d d' -> change prunes d d'
  | change_begin row usage events a d d' :
      row_fresh row -> Forall no_usage events -> (exists e, last events = Some e /\ starts e (u_request_id row)) ->
      ps_max_requests_per_day usage <= limit (u_principal_id row) (u_instance_slug row) ->
      begun key vault row usage events d a d' -> change prunes d d'
  | change_settle request measured event d d' :
      no_usage event -> ends event request -> (forall n, measured = Some n -> 0 <= n <= i64_max) ->
      0 <= e_created_at_ms event <= i64_max ->
      settled key vault request measured event d d' -> change prunes d d'
  | change_recover d d' : recovered key vault d d' -> change prunes d d'
  | change_prune before marker doomed d d' :
      prunes = true -> no_usage marker -> e_event_type marker = event_type.AUDIT_PRUNED ->
      pruned before marker doomed d d' -> change prunes d d'.
Lemma change_log prunes d d' : change prunes d d' -> rtc log_step d d'.
Proof.
  intros [d1 d2 [(e & _ & Ha)|(l & _ & Ha)]|row usage events a d1 d2 _ _ _ _ Hb|request measured event d1 d2 _ _ _ _ Hs|d1 d2 Hr|before marker doomed d1 d2 _ _ Hm Hp].
  - eapply rtc_once. by eapply log_event.
  - by eapply log_events.
  - destruct Hb as [rows st p t now sum next d3 d4 d5 _ _ _ _ _ _ Hi _ Hre Ha|rows st t now sum e d5 _ _ _ _ _ Ha].
    + eapply rtc_l; [|eapply rtc_l; [by eapply state_log|by eapply log_events]].
      unfold insert_usage_row in Hi. destruct (_ && _); [|done]. injection Hi as <-. by apply log_same.
    + eapply rtc_once. by eapply log_event.
  - destruct Hs as [|rows st p r r' e next d3 d4 d5 _ _ _ _ Hu _ Hre Ha]; [reflexivity|].
    eapply rtc_l; [by eapply update_usage_log|]. eapply rtc_l; [by eapply state_log|]. eapply rtc_once. by eapply log_event.
  - destruct Hr as [|rows st rows' d3 next d4 _ Hab _ Hre]; [reflexivity|].
    eapply rtc_r; [by eapply abandoned_log|by eapply state_log].
  - eapply rtc_once. by eapply log_prune.
Qed.
Lemma changes_log prunes d d' : rtc (change prunes) d d' -> rtc log_step d d'.
Proof. induction 1; [reflexivity|]. etrans; [by eapply change_log|done]. Qed.

(** ** Steps *)

(** Calls in any order, with what the host answers as it will. The other operations
    of the worker change its state and their own tables; of these tables, they only
    append to the audit. *)
Context (prunes : bool).
Inductive step : Vault -> Vault -> Prop :=
  | step_begin usage preceding started not_after wall s :
      draft_typed started -> start_typed usage ->
      (forall a, d_authorization started = Some a ->
         ps_max_requests_per_day usage <= limit (au_principal_id a) (ps_instance_slug usage)) ->
      step s (begin_execution usage preceding started not_after wall s).2
  | step_settle request measured terminal s :
      (forall n, measured = Some n -> in_u64 n) -> step s (settle_execution request measured terminal s).2
  | step_query principal instance day s : step s (query_usage principal instance day s).2
  | step_append draft s : step s (append_audit draft s).2
  | step_appends drafts s : step s (append_audits drafts s).2
  | step_record e s : step s (append_audit_row e s).2
  | step_recover s : v_state s = VLocked -> step s (recover_profile_usage key vault s).2
  | step_prune request marker not_after s :
      prunes = true -> no_usage marker -> e_event_type marker = event_type.AUDIT_PRUNED ->
      step s (audit_prune request marker not_after s).2
  | step_other s s' :
      rtc appended (v_db s) (v_db s') -> v_vault_id s' = v_vault_id s -> (forall k, v_state s' = VUnlocked k -> k = key) -> step s s'.

(** The vault is this one, when it is open its key is the key, and its log is in
    order. *)
Record well_keyed (s : Vault) : Prop := {
  wk_id : v_vault_id s = vault;
  wk_key : forall k, v_state s = VUnlocked k -> k = key;
  wk_log : log_ok (v_db s);
}.
Lemma evolves_keyed s s' : well_keyed s -> evolves (change prunes) s s' -> well_keyed s'.
Proof.
  intros [Hi Hk Hl] [Hi' Hs Hd]. split; [congruence| |by eapply log_steps_ok, Hl; eapply changes_log].
  intros k E. destruct Hs as [Hs|Hs]; [apply Hk; congruence|by rewrite Hs in E].
Qed.
Lemma evolver_step {A} R (m : V A) s : evolver R m -> evolves R s (m s).2.
Proof. intros Hm. pose proof (Hm s) as Hs. unfold vwp in Hs. by destruct (m s) as [[a|e] s']. Qed.
Lemma appended_change d d' : appended d d' -> change prunes d d'.
Proof. apply change_append. Qed.
Lemma step_changes s s' : well_keyed s -> step s s' -> well_keyed s' /\ rtc (change prunes) (v_db s) (v_db s').
Proof.
  intros Hk Hs. assert (HE : evolves (change prunes) s s' -> well_keyed s' /\ rtc (change prunes) (v_db s) (v_db s')).
  { intros He. split; [by eapply evolves_keyed|apply He]. }
  destruct Hs as [usage preceding started na wall s Hd Hu Hl|request measured terminal s Hm|p i day s|d s|ds s|e s|s Hl
    |request marker na s Hp Hn Hm|s s' Hd Hi Hk'].
  - apply HE. pose proof (begin_execution_wp usage preceding started na wall s Hd Hu (wk_key _ Hk) (wk_id _ Hk)) as Hw.
    unfold vwp in Hw. destruct (begin_execution _ _ _ _ _ s) as [[a|err] s']; cbn;
      [|by eapply evolves_mono; [apply appended_change|]].
    destruct Hw as (Hf & row & events & Hrow & Hfr & Hno & (e & He & _ & Hst) & Hb). apply frame_evolves; [done|].
    apply rtc_once. eapply change_begin; [exact Hfr|exact Hno|by exists e| |exact Hb].
    destruct Hrow as (rq & ctx & now & json & _ & Ec & _ & _ & ->). cbn. apply Hl. by apply (draft_context_ok _ _ Ec).
  - apply HE. pose proof (settle_execution_wp request measured terminal s Hm (wk_key _ Hk) (wk_id _ Hk)) as Hw.
    unfold vwp in Hw. destruct (settle_execution _ _ _ s) as [[a|err] s']; cbn;
      [|by eapply evolves_mono; [apply appended_change|]].
    destruct Hw as (Hf & e & _ & (Hno & Hen & Hn & Hat) & Hse). apply frame_evolves; [done|]. apply rtc_once. by eapply change_settle.
  - by apply HE, evolver_step, evolver_query_usage, appended_change.
  - by apply HE, evolver_step, evolver_append_audit, appended_change.
  - by apply HE, evolver_step, evolver_append_audits, appended_change.
  - by apply HE, evolver_step, evolver_append, appended_change.
  - apply HE, evolver_step. eapply (evolver_settles _ _ (fun _ s d => recovered key vault (v_db s) d)); [intros s0; apply recover_profile_usage_wp|]. cbn.
    intros _ s0 d Hr. by apply rtc_once, change_recover.
  - apply HE. pose proof (audit_prune_wp request marker na s) as Hw. unfold vwp in Hw.
    destruct (audit_prune request marker na s) as [[receipt|e] s']; cbn; [|by apply kept_evolves].
    destruct Hw as [Hf Hw]. apply frame_evolves; [done|]. destruct (Hw (wk_log _ Hk)) as [_ [(-> & _)|(_ & doomed & Hpr & _)]]; [reflexivity|].
    apply rtc_once. by eapply change_prune.
  - assert (Hd' : rtc (change prunes) (v_db s) (v_db s')).
    { clear -Hd. induction Hd; [reflexivity|]. eapply rtc_l; [by apply appended_change|done]. }
    split; [|done]. split; [rewrite Hi; apply Hk|done|]. eapply log_steps_ok; [by eapply changes_log|apply Hk].
Qed.

End WithLibraries.
