(* ===== verification/UsageSafety.v ===== *)
(** * UsageSafety: the ledger in every history

    The invariant of the tables ([book], and [sealed_by] for the seal over them) and
    its preservation by every change of VaultEvolution.v. *)

From stdpp Require Import relations.
From S2P Require Import Prelude Errors Domain Codec Json Parameters SessionState Approval AuditRecords VaultModel.
From S2P Require Import VaultStore Usage VaultWorker AuditLog VaultRules UsageTheorems VaultEvolution.

Section WithLibraries.
Context {H : Host} {HL : HostLaws} {CC : Codecs} {CL : CodecLaws} {SJ : Serde} {VW : ValueWriter}.
Context {RC : RecordCodec} {RL : RecordCodecLaws} {AE : Aead} {AL : AeadLaws}.
Context (key : list Z) (vault : Uuid) (limit : PrincipalId -> string -> Z) (prunes : bool).

(** ** The invariant *)

(** The usage evidence that an audit row carries. *)
Definition evidence_of (a : RawAuditRow) : option UsageEvidence :=
  m ← (raw_metadata_json a ≫= metadata_from_str); md_usage m.
Definition about (a : RawAuditRow) (r : UsageRecord) : Prop := raw_request_id a = Some (id_as_bytes (u_request_id r)).
(** A row that is settled as the evidence says. *)
Definition settled_with (r : UsageRecord) (u : UsageEvidence) : Prop :=
  us_instance_slug u = u_instance_slug r /\ us_utc_day u = u_utc_day r /\
  u_output_tokens r = Some (us_output_tokens u) /\ u_source r = Some (source_text (us_source u)).
(** What a row is charged: what was measured; the maximum, when nothing was; nothing,
    when there is no maximum. *)
Definition charged (r : UsageRecord) : Prop :=
  u_output_tokens r = None \/
  exists measured output source, charge (u_generation_max_output r) measured = Ok (output, source) /\
    output <= i64_max /\ u_output_tokens r = Some output /\ u_source r = Some (source_text source).
Definition bucket (rows : list UsageRecord) (p : PrincipalId) (i : string) (day : Z) : Z :=
  llen (retain (in_bucket p i day) rows).
Definition slug_ok (r : UsageRecord) : Prop :=
  is_ok (usage_validate (mkUsageEvidence (u_instance_slug r) 0 0 NotApplicable)) = true.

Record row_inv (r : UsageRecord) : Prop := {
  ri_ok : row_ok r; ri_charged : charged r; ri_slug : slug_ok r; ri_context : context_check r = Ok tt }.
Record book (d : Database) (rows : list UsageRecord) : Prop := {
  bk_table : profile_usage d ≡ₚ map raw_of_usage rows;
  bk_rows : Forall row_inv rows;
  bk_order : increasing rows;
  bk_count : llen rows <= i64_max;
  bk_budget : forall p i day, bucket rows p i day <= Z.max 0 (limit p i);
  bk_evidence : forall a u, a ∈ audit_events d -> evidence_of a = Some u ->
    exists r, r ∈ rows /\ about a r /\ settled_with r u /\ usage_validate u = Ok tt;
  bk_started : prunes = false -> forall r, r ∈ rows -> exists a, a ∈ audit_events d /\ about a r /\ is_started_row a = true;
  bk_ended : prunes = false -> forall r, r ∈ rows -> is_some (u_output_tokens r) = true ->
    exists a u, a ∈ audit_events d /\ about a r /\ is_terminal_row a = true /\ evidence_of a = Some u /\ settled_with r u;
}.
Record sealed_by (d : Database) (rows : list UsageRecord) (st : UsageState) : Prop := {
  sb_state : profile_usage_state d = Some (raw_of_state st);
  sb_ok : state_ok st;
  sb_verify : usage_verify key vault rows st = Ok tt;
}.

(** Rows stay; an open one may be settled, keeping its admission. *)
Definition follows_row (r r' : UsageRecord) : Prop :=
  r' = r \/ (u_output_tokens r = None /\ exists output source terminal at_ms, r' = set_settled output source terminal at_ms r).
Definition follows (rows rows' : list UsageRecord) : Prop :=
  forall r, r ∈ rows -> exists r', r' ∈ rows' /\ follows_row r r'.
#[export] Instance follows_preorder : PreOrder follows.
Proof.
  split; [intros rows r Hr; exists r; split; [done|by left]|].
  intros l1 l2 l3 H1 H2 r Hr. destruct (H1 r Hr) as (r' & Hr' & F1). destruct (H2 r' Hr') as (r'' & Hr'' & F2).
  exists r''. split; [done|]. destruct F1 as [->|(Ho & o & s & t & a & ->)]; [done|].
  destruct F2 as [->|(Ho' & _)]; [|done]. right. split; [done|]. by exists o, s, t, a.
Qed.

(** ** Reading *)

Lemma book_ledger d rows st : book d rows -> sealed_by d rows st -> authentic key vault d rows st.
Proof.
  intros Hb [Es Ho Hv]. destruct Hb as [Ht Hr Hi _ _ _ _ _].
  assert (Hok : Forall row_ok rows) by (eapply Forall_impl; [exact Hr|apply ri_ok]).
  assert (Hty : Forall row_typed rows) by (eapply Forall_impl; [exact Hok|by intros ? []]).
  split; [|done|].
  - unfold ledger. rewrite (order_unique _ _ Ht) by (by apply increasing_raw).
    rewrite (collect_map usage_of_raw raw_of_usage rows).
    + cbn. rewrite Es. cbn. by rewrite state_of_raw_of.
    + intros r Hr'. apply usage_of_raw_of. by eapply Forall_forall.
  - intros r Hr'. apply ri_context. by eapply Forall_forall.
Qed.

(** ** Events *)

Lemma evidence_of_event e text seq : metadata_text e = Some text -> evidence_of (raw_of_event e text seq) = e_usage e.
Proof.
  unfold metadata_text, evidence_of. cbn. destruct (is_some _ || is_some _) eqn:E.
  - destruct (metadata_to_string _) as [s|] eqn:Es; cbn; [|done]. intros [= <-]. cbn.
    by rewrite (metadata_roundtrip _ _ Es).
  - intros [= <-]. cbn. apply orb_false_iff in E as [_ E]. by destruct (e_usage e).
Qed.
Lemma add_event_spec e d d' : add_event e d = Some d' ->
  exists a, d' = set_audit_events (audit_events d ++ [a]) (audit_sequence d + 1) d /\
    evidence_of a = e_usage e /\ raw_request_id a = id_as_bytes <$> e_request_id e /\
    raw_event_type a = e_event_type e /\ raw_sequence a = audit_sequence d + 1.
Proof.
  unfold add_event. destruct (metadata_text e) as [text|] eqn:Em; cbn; [|done]. unfold insert_audit_row.
  case_match; [|done]. intros [= <-]. eexists. split; [done|]. split; [by apply evidence_of_event|done].
Qed.
Lemma add_events_spec l d d' : add_events l d = Some d' -> Forall no_usage l ->
  profile_usage d' = profile_usage d /\ profile_usage_state d' = profile_usage_state d /\
  exists extra, audit_events d' = audit_events d ++ extra /\ Forall (fun a => evidence_of a = None) extra /\
    forall e, e ∈ l -> exists a, a ∈ extra /\ raw_request_id a = id_as_bytes <$> e_request_id e /\ raw_event_type a = e_event_type e.
Proof.
  revert d. induction l as [|e l IH]; intros d; cbn.
  - intros [= <-] _. split_and!; [done..|]. exists []. rewrite app_nil_r. split_and!; [done..|]. by intros e ?%not_elem_of_nil.
  - destruct (add_event e d) as [d1|] eqn:Ee; cbn; [|done]. intros Hl Hn. inversion Hn as [|? ? Hn1 Hn2]; subst.
    apply add_event_spec in Ee as (a & -> & Ev & Er & Ety & _). destruct (IH _ Hl Hn2) as (E1 & E2 & extra & E3 & E4 & E5).
    cbn in *. split_and!; [done..|]. exists (a :: extra). rewrite E3, <- app_assoc. split_and!; [done| |].
    + constructor; [by rewrite Ev|done].
    + intros e' [->|He']%elem_of_cons; [exists a; split; [left|done]|].
      destruct (E5 _ He') as (a' & Ha' & ?). exists a'. split; [by right|done].
Qed.

(** More of the audit, without usage evidence. *)
Lemma book_events d d' rows extra :
  book d rows -> profile_usage d' = profile_usage d -> audit_events d' = audit_events d ++ extra ->
  Forall (fun a => evidence_of a = None) extra -> book d' rows.
Proof.
  intros [] Et Ea He. split; try done.
  - by rewrite Et.
  - intros a u. rewrite Ea, elem_of_app. intros [Ha|Ha] Hu; [by eapply bk_evidence0|].
    rewrite Forall_forall in He. rewrite He in Hu; done.
  - intros Hp r Hr. destruct (bk_started0 Hp r Hr) as (a & Ha & ?). exists a. rewrite Ea, elem_of_app. tauto.
  - intros Hp r Hr Ho. destruct (bk_ended0 Hp r Hr Ho) as (a & u & Ha & ?). exists a, u. rewrite Ea, elem_of_app. tauto.
Qed.
Lemma sealed_by_same d d' rows st : sealed_by d rows st -> profile_usage_state d' = profile_usage_state d -> sealed_by d' rows st.
Proof. intros [] E. split; [by rewrite E|done..]. Qed.
Lemma sealed_by_new d d' d'' rows rows' st next :
  sealed_by d rows st -> llen rows' <= i64_max -> sealed key vault rows' (st_revision st + 1) next ->
  state_replaced next d' d'' -> sealed_by d'' rows' next.
Proof.
  intros [_ [] _] Hl Hs (_ & _ & ->). split; [done| |apply Hs]. eapply sealed_ok; [|exact Hl|exact Hs]. lia.
Qed.

(** ** A new row *)

Lemma insert_at_perm {A} p (x : A) l : insert_at p x l ≡ₚ x :: l.
Proof. unfold insert_at. by rewrite <- (Permutation_middle (take p l) (drop p l) x), take_drop. Qed.
Lemma retain_perm {A} (p : A -> bool) l l' : l ≡ₚ l' -> retain p l ≡ₚ retain p l'.
Proof.
  unfold retain. induction 1 as [|x l l' _ IH|x y l|l1 l2 l3 _ IH1 _ IH2]; cbn; [done| | |by etrans].
  - destruct (p x); [by constructor|done].
  - destruct (p x), (p y); try done. apply Permutation_swap.
Qed.
Lemma bucket_perm rows rows' p i day : rows ≡ₚ rows' -> bucket rows p i day = bucket rows' p i day.
Proof. intros Hp. unfold bucket, llen. by rewrite (retain_perm _ _ _ Hp). Qed.
Lemma bucket_cons r rows p i day :
  bucket (r :: rows) p i day = (if in_bucket p i day r then 1 else 0) + bucket rows p i day.
Proof. unfold bucket, retain, llen. cbn. destruct (in_bucket p i day r); cbn; lia. Qed.
Lemma totals_requests rows p i day sum : totals rows p i day = Ok sum -> ut_requests sum = bucket rows p i day.
Proof.
  unfold totals, bucket. assert (Hf : forall l acc sum, try_fold acc l = Ok sum -> ut_requests sum = ut_requests acc + llen l).
  { induction l as [|r l IH]; intros acc s; cbn [try_fold].
    - intros [= <-]. unfold llen. cbn. lia.
    - unfold mbind, result_bind. destruct (add_usage acc r) as [acc'|] eqn:Ea; [|done]. intros Hs. apply IH in Hs. rewrite Hs.
      unfold add_usage, u64_checked_add in Ea. destruct (ut_requests acc + 1 <=? _); cbn in Ea; [|done].
      destruct (ut_output_tokens acc + _ <=? _); cbn in Ea; [|done].
      simplify_eq. unfold llen. cbn. lia. }
  intros Hs. apply Hf in Hs. cbn in Hs. lia.
Qed.

Lemma set_started_ok now row :
  0 <= now <= i64_max -> row_fresh row -> usage_row_checks (raw_of_usage (set_started now row)) = true ->
  row_inv (set_started now row).
Proof.
  intros Hn [Ht Hm (Eo & Es & Ete & Est) (ctx & Ec & Ep) Hs] Hc. destruct (day_of_range now Hn) as [Hd Hd'].
  split.
  - split; [|done]. destruct Ht. split; cbn; try done. unfold in_i64, i64_min. unfold i64_max in *. lia.
  - by left.
  - exact Hs.
  - unfold context_check. cbn. rewrite Ec. cbn. rewrite Ep, bool_decide_eq_true_2 by done. cbn. by rewrite Z.eqb_refl.
Qed.
Lemma book_insert d rows row usage events position now sum d1 d2 d' next :
  book d rows -> row_fresh row -> Forall no_usage events -> (exists e, last events = Some e /\ starts e (u_request_id row)) ->
  ps_max_requests_per_day usage <= limit (u_principal_id row) (u_instance_slug row) ->
  binary_search (u_request_id row) rows = inr position -> 0 <= now <= i64_max ->
  totals rows (u_principal_id row) (u_instance_slug row) (day_of now) = Ok sum ->
  ut_requests sum < ps_max_requests_per_day usage ->
  insert_usage_row (raw_of_usage (set_started now row)) d = Some (d1, 1) -> state_replaced next d1 d2 ->
  add_events events d2 = Some d' -> book d' (insert_at position (set_started now row) rows).
Proof.
  intros Hb Hf Hno (e0 & Hlast & Hst) Hlim Hbs Hn Hsum Hmax Hins (_ & _ & ->) Hadd.
  unfold insert_usage_row in Hins. destruct (_ && _ && _) eqn:Ec; [|done]. simplify_eq. apply andb_true_iff in Ec as [Ec Efresh].
  apply andb_true_iff in Ec as [Ecount Ec]. apply Z.ltb_lt in Ecount.
  apply add_events_spec in Hadd as (Et & _ & extra & Ea & He & Hin); [|done]. cbn in Et, Ea.
  set (row' := set_started now row) in *. destruct Hb as [Ht Hr Ho Hcn Hbud Hev Hsta Hend].
  assert (Hperm := insert_at_perm position row' rows).
  split.
  - rewrite Et, Hperm. cbn. rewrite Ht. by rewrite <- Permutation_cons_append.
  - rewrite Hperm. constructor; [by apply set_started_ok|done].
  - by apply increasing_insert.
  - unfold llen in *. rewrite Hperm. rewrite Ht, length_map in Ecount. cbn [length]. lia.
  - intros p i day. rewrite (bucket_perm _ _ p i day Hperm), bucket_cons. specialize (Hbud p i day).
    destruct (in_bucket p i day row') eqn:Ein; [|exact Hbud].
    unfold in_bucket, row' in Ein. cbn in Ein. unfold str_eqb in Ein. reflect_bools. subst p i day.
    apply totals_requests in Hsum. lia.
  - intros a u. rewrite Ea, elem_of_app. intros [Ha|Ha] Hu.
    + destruct (Hev a u Ha Hu) as (r & Hr' & ?). exists r. rewrite Hperm. split; [by right|done].
    + rewrite Forall_forall in He. rewrite He in Hu; done.
  - intros Hp r. rewrite Hperm. intros [->|Hr']%elem_of_cons.
    + apply last_Some_elem_of in Hlast. destruct (Hin _ Hlast) as (a & Ha & Erq & Ety). destruct Hst as [Eq Es].
      exists a. rewrite Ea, elem_of_app. split_and!; [by right| |].
      * unfold about. by rewrite Erq, Eq.
      * unfold is_started_row, str_eqb. by rewrite Ety, Es.
    + destruct (Hsta Hp r Hr') as (a & Ha & ?). exists a. rewrite Ea, elem_of_app. tauto.
  - intros Hp r. rewrite Hperm. intros [->|Hr']%elem_of_cons Ho'.
    + destruct Hf as [_ _ (Eo & _) _ _]. unfold row' in Ho'. cbn in Ho'. by rewrite Eo in Ho'.
    + destruct (Hend Hp r Hr' Ho') as (a & u & Ha & ?). exists a, u. rewrite Ea, elem_of_app. tauto.
Qed.

(** ** A settled row *)

Lemma settle_row_some r measured e r' e' :
  settle_row r measured e = Ok (Some (r', e')) ->
  u_output_tokens r = None /\ e_request_id e = Some (u_request_id r) /\
  exists output source terminal, charge (u_generation_max_output r) measured = Ok (output, source) /\
    terminal_to_string (terminal_of e) = Some terminal /\
    r' = set_settled output (source_text source) terminal (e_created_at_ms e) r /\
    e' = with_usage (mkUsageEvidence (u_instance_slug r) (u_utc_day r) output source) e.
Proof.
  unfold settle_row. destruct (context_from_str _); [cbn|done]. destruct (event_context e); [cbn|done].
  destruct (_ || _) eqn:Ec; [done|]. destruct (charge _ _) as [[output source]|]; [cbn|done].
  destruct (terminal_to_string (terminal_of e)) as [terminal|] eqn:Ete; [cbn|done].
  destruct (u_output_tokens r); cbn; [by destruct (_ && _)|]. intros [= <- <-]. apply orb_false_iff in Ec as [Ec _]. reflect_bools.
  split_and!; [done|done|]. by exists output, source, terminal.
Qed.
Lemma source_text_known s : known_source (source_text s) = true /\ slen (source_text s) < 2 ^ 64.
Proof. by destruct s. Qed.
Lemma charge_range maximum measured output source :
  charge maximum measured = Ok (output, source) ->
  (forall v, maximum = Some v -> 0 < v <= i64_max) -> (forall n, measured = Some n -> 0 <= n <= i64_max) ->
  0 <= output <= i64_max /\ (source = NotApplicable -> output = 0).
Proof.
  unfold charge, i64_max. destruct maximum, measured; intros Hc Hm Hn; simplify_eq; try (split; [|done]).
  - by apply Hn.
  - specialize (Hm _ eq_refl). lia.
  - split; [lia|done].
Qed.

Lemma row_maximum r : row_ok r -> forall v, u_generation_max_output r = Some v -> 0 < v <= i64_max.
Proof.
  intros [Ht Hc] v Ev. unfold usage_row_checks in Hc. reflect_bools. cbn in *. rewrite Ev in *. cbn in *. reflect_bools.
  destruct Ht as [_ _ _ _ _ _ Hm _ _ _ _]. specialize (Hm _ Ev). unfold u64_as_i64, in_u64, u64_max in *.
  destruct (Z.leb_spec v i64_max); lia.
Qed.
Lemma update_map rows position r r' :
  Forall row_typed rows -> row_typed r' -> increasing rows -> rows !! position = Some r -> u_request_id r' = u_request_id r ->
  map (fun x => if same_key (raw_of_usage r') x then raw_of_usage r' else x) (map raw_of_usage rows)
  = map raw_of_usage (<[position := r']> rows).
Proof.
  intros Ht Ht' Hi Hp He. apply list_eq. intros i. rewrite !list_lookup_fmap.
  assert (Hnd := increasing_keys _ Hi). destruct (decide (i = position)) as [->|Hne].
  - rewrite list_lookup_insert_eq by (by eapply lookup_lt_Some). rewrite Hp. cbn [fmap option_fmap option_map].
    assert (Hs : same_key (raw_of_usage r') (raw_of_usage r) = true).
    { apply raw_same_key; [done| |done]. eapply Forall_lookup_1; eauto. }
    by rewrite Hs.
  - rewrite list_lookup_insert_ne by done. destruct (rows !! i) as [x|] eqn:Ei; [|done]. cbn [fmap option_fmap option_map].
    destruct (same_key (raw_of_usage r') (raw_of_usage x)) eqn:Es; [|done]. exfalso. apply Hne.
    apply raw_same_key in Es; [|done|eapply Forall_lookup_1; eauto].
    eapply (NoDup_lookup _ i position (u_request_id r)); [exact Hnd|..]; rewrite list_lookup_fmap; [rewrite Ei|rewrite Hp]; cbn; congruence.
Qed.
Lemma insert_bucket rows position r r' p i day :
  rows !! position = Some r -> in_bucket p i day r' = in_bucket p i day r ->
  bucket (<[position := r']> rows) p i day = bucket rows p i day.
Proof.
  revert position. induction rows as [|x rows IH]; intros [|position] Hp He; cbn in Hp; simplify_eq;
    (etrans; [apply bucket_cons|]); rewrite bucket_cons; [by rewrite He|]. by rewrite <- (IH position Hp He).
Qed.

Lemma settled_row_inv r r' measured e output source terminal :
  row_inv r -> u_output_tokens r = None -> (forall n, measured = Some n -> 0 <= n <= i64_max) ->
  0 <= e_created_at_ms e <= i64_max ->
  charge (u_generation_max_output r) measured = Ok (output, source) -> terminal_to_string (terminal_of e) = Some terminal ->
  r' = set_settled output (source_text source) terminal (e_created_at_ms e) r ->
  usage_row_checks (raw_of_usage r') = true -> row_inv r'.
Proof.
  intros [[Ht Hc] Hch Hs Hx] Ho Hm Ha Ec Ete -> Hc'. pose proof (row_maximum r (conj Ht Hc)) as Hmax.
  destruct (charge_range _ _ _ _ Ec Hmax Hm) as [Hr Hna]. destruct (source_text_known source) as [_ Hsl].
  pose proof (terminal_length _ _ Ete) as Htl. unfold i64_max in *.
  split; [split; [|done]| |done|done].
  - destruct Ht. split; cbn; try done; intros ? [= <-]; unfold in_u64, in_i64, u64_max, i64_min, i64_max in *; (done || lia).
  - right. exists measured, output, source. split_and!; (done || (unfold i64_max; lia)).
Qed.
Lemma update_usage_row_one raw d d' :
  update_usage_row raw d = Some (d', 1) -> usage_row_checks raw = true /\
  d' = set_profile_usage (map (fun x => if same_key raw x then raw else x) (profile_usage d)) d.
Proof.
  unfold update_usage_row. destruct (usage_row_checks raw); cbn [orb]; [by intros [= <- _]|].
  destruct (_ =? 0) eqn:E0; [|done]. intros [= <- E1]. by rewrite E1 in E0.
Qed.
Lemma book_settle d rows position r r' measured e e' d1 d2 d' :
  book d rows -> rows !! position = Some r -> settle_row r measured e = Ok (Some (r', e')) ->
  is_terminal_type (e_event_type e) = true ->
  (forall n, measured = Some n -> 0 <= n <= i64_max) -> 0 <= e_created_at_ms e <= i64_max ->
  update_usage_row (raw_of_usage r') d = Some (d1, 1) ->
  profile_usage d2 = profile_usage d1 -> audit_events d2 = audit_events d1 ->
  add_event e' d2 = Some d' ->
  book d' (<[position := r']> rows) /\ profile_usage_state d' = profile_usage_state d2.
Proof.
  intros [Ht Hr Ho Hcn Hbud Hev Hsta Hend] Hp Hs Hty Hm Hat Hu E1 E2 Hadd.
  destruct (settle_row_some _ _ _ _ _ Hs) as (Hopen & Erq & output & source & terminal & Ech & Ete & Er' & Ee').
  assert (Hri : row_inv r) by (eapply Forall_lookup_1; eauto).
  apply update_usage_row_one in Hu as [Ec ->]. cbn in E1, E2. subst r' e'.
  set (r' := set_settled output (source_text source) terminal (e_created_at_ms e) r) in *.
  assert (Hri' : row_inv r') by (by eapply settled_row_inv).
  assert (Htyped : Forall row_typed rows) by (eapply Forall_impl; [exact Hr|by intros ? [[] _ _ _]]).
  assert (Hin : (position < length rows)%nat) by (by eapply lookup_lt_Some).
  apply add_event_spec in Hadd as (a & -> & Eva & Era & Ety & _). cbn in Eva, Era, Ety. split; [|done].
  assert (Hu : settled_with r' (mkUsageEvidence (u_instance_slug r) (u_utc_day r) output source)) by done.
  assert (Hv : usage_validate (mkUsageEvidence (u_instance_slug r) (u_utc_day r) output source) = Ok tt).
  { destruct Hri as [Hok _ Hsl _]. destruct (charge_range _ _ _ _ Ech (row_maximum r Hok) Hm) as [Hrg Hna].
    eapply (usage_validate_slug _ 0 _ NotApplicable); [|exact Hsl|lia|exact Hna].
    destruct Hok as [_ Hck]. unfold usage_row_checks in Hck. reflect_bools. cbn in *. lia. }
  assert (Hab : about a r') by (unfold about; by rewrite Era, Erq).
  assert (Hmem : r' ∈ <[position:=r']> rows).
  { apply (list_elem_of_lookup_2 _ position). by apply list_lookup_insert_eq. }
  assert (Hold : forall x, x ∈ rows -> x <> r -> x ∈ <[position:=r']> rows).
  { intros x Hx Hne. apply list_elem_of_lookup_1 in Hx as [i Hi]. apply (list_elem_of_lookup_2 _ i).
    rewrite list_lookup_insert_ne; [done|]. intros ->. congruence. }
  assert (Hnew : forall x, x ∈ <[position:=r']> rows -> x = r' \/ x ∈ rows).
  { intros x Hx. apply list_elem_of_lookup_1 in Hx as [i Hi]. apply list_lookup_insert_Some in Hi as [(_ & -> & _)|[_ Hi]]; [by left|].
    right. by eapply list_elem_of_lookup_2. }
  split; cbn.
  - rewrite E1, <- (update_map rows position r r'); try done; [|apply Hri'].
    by apply Permutation_map.
  - by apply Forall_insert.
  - by eapply increasing_update.
  - unfold llen in *. by rewrite length_insert.
  - intros p i day. rewrite (insert_bucket rows position r r'); [apply Hbud|done|done].
  - intros b u. rewrite E2, elem_of_app, list_elem_of_singleton. intros [Hb| ->] Hbu.
    + destruct (Hev b u Hb Hbu) as (x & Hx & Habx & Hsx & Hvx). exists x. split_and!; try done. apply Hold; [done|].
      intros ->. destruct Hsx as (_ & _ & Hsx & _). congruence.
    + rewrite Eva in Hbu. simplify_eq. by exists r'.
  - intros Hpr x Hx. destruct (Hnew x Hx) as [->|Hx'].
    + destruct (Hsta Hpr r) as (b & Hb & ?); [by eapply list_elem_of_lookup_2|]. exists b. rewrite E2, elem_of_app. tauto.
    + destruct (Hsta Hpr x Hx') as (b & Hb & ?). exists b. rewrite E2, elem_of_app. tauto.
  - intros Hpr x Hx Hxo. destruct (Hnew x Hx) as [->|Hx'].
    + exists a. eexists. rewrite E2, elem_of_app, list_elem_of_singleton. split_and!; [by right|exact Hab| |exact Eva|exact Hu].
      unfold is_terminal_row. by rewrite Ety.
    + destruct (Hend Hpr x Hx' Hxo) as (b & u & Hb & ?). exists b, u. rewrite E2, elem_of_app. tauto.
Qed.

(** ** Preservation *)

(** The rows that the tables hold, and the seal over them. *)
Definition held (d : Database) (rows : list UsageRecord) : Prop := book d rows /\ exists st, sealed_by d rows st.

Lemma held_authentic d rows a : held d rows -> authentic key vault d a.1 a.2 -> a.1 = rows /\ sealed_by d rows a.2.
Proof.
  intros [Hb [st Hs]] Ha. destruct (authentic_unique key vault d rows st a.1 a.2) as [-> ->]; [by apply book_ledger|done|done].
Qed.
Lemma follows_update rows position r r' measured e e' :
  rows !! position = Some r -> settle_row r measured e = Ok (Some (r', e')) -> follows rows (<[position := r']> rows).
Proof.
  intros Hp Hs x Hx. destruct (settle_row_some _ _ _ _ _ Hs) as (Ho & _ & o & src & t & _ & _ & -> & _).
  assert (Hl : (position < length rows)%nat) by (by eapply lookup_lt_Some).
  apply list_elem_of_lookup_1 in Hx as [i Hi]. destruct (decide (i = position)) as [->|Hne].
  - simplify_eq. eexists. split; [eapply (list_elem_of_lookup_2 _ position); by apply list_lookup_insert_eq|].
    right. split; [done|]. by do 4 eexists.
  - exists x. split; [|by left]. apply (list_elem_of_lookup_2 _ i). by rewrite list_lookup_insert_ne.
Qed.
Lemma held_events d d' rows extra :
  held d rows -> profile_usage d' = profile_usage d -> profile_usage_state d' = profile_usage_state d ->
  audit_events d' = audit_events d ++ extra -> Forall (fun a => evidence_of a = None) extra -> held d' rows.
Proof. intros [Hb [st Hs]] E1 E2 E3 E4. split; [by eapply book_events|]. exists st. by eapply sealed_by_same. Qed.
Lemma held_event e d d' rows : held d rows -> no_usage e -> add_event e d = Some d' -> held d' rows.
Proof.
  intros Hh Hn Hadd. apply add_event_spec in Hadd as (a & -> & Ev & _). eapply held_events; [exact Hh|done..|].
  constructor; [by rewrite Ev|done].
Qed.
(** Both kinds of change to the rows end in a new seal. *)
Lemma held_sealed d0 d1 d2 d' rows rows' st next :
  sealed_by d0 rows st -> book d' rows' -> sealed key vault rows' (st_revision st + 1) next ->
  state_replaced next d1 d2 -> profile_usage_state d' = profile_usage_state d2 -> held d' rows'.
Proof.
  intros Hs Hb Hn Hr E. split; [done|]. exists next. eapply sealed_by_same; [|exact E].
  eapply sealed_by_new; [exact Hs|apply Hb|exact Hn|exact Hr].
Qed.

Lemma held_update d rows st position r r' measured event e next d1 d2 d' :
  book d rows -> sealed_by d rows st -> rows !! position = Some r -> settle_row r measured event = Ok (Some (r', e)) ->
  is_terminal_type (e_event_type event) = true -> (forall n, measured = Some n -> 0 <= n <= i64_max) ->
  0 <= e_created_at_ms event <= i64_max -> update_usage_row (raw_of_usage r') d = Some (d1, 1) ->
  sealed key vault (<[position := r']> rows) (st_revision st + 1) next -> state_replaced next d1 d2 ->
  add_event e d2 = Some d' -> held d' (<[position := r']> rows).
Proof.
  intros Hb Hst Hp Hs Hty Hm Hat Hu Hse Hre Hadd. assert (Hre' := Hre). destruct Hre' as (_ & _ & ->).
  destruct (book_settle _ _ _ _ _ _ _ _ _ (set_usage_state (raw_of_state next) d1) _ Hb Hp Hs Hty Hm Hat Hu eq_refl eq_refl Hadd) as [Hb' Es].
  by eapply held_sealed.
Qed.
Lemma held_settle d d' rows request measured event :
  held d rows -> ends event request -> (forall n, measured = Some n -> 0 <= n <= i64_max) ->
  0 <= e_created_at_ms event <= i64_max -> settled key vault request measured event d d' ->
  exists rows', held d' rows' /\ follows rows rows'.
Proof.
  intros Hh [_ Hty] Hm Hat [rows0 st r Ha|rows0 st position r r' e next d1 d2 d'' Ha Hp _ Hs Hu Hse Hre Hadd].
  - exists rows. by split.
  - destruct (held_authentic _ _ (rows0, st) Hh Ha) as [E Hst]. cbn in E, Hst. subst rows0.
    exists (<[position := r']> rows). split; [|by eapply follows_update]. eapply held_update; eauto. apply Hh.
Qed.

(** Recovery settles row after row. *)
Lemma book_abandoned rows d rows' d' : abandoned rows d rows' d' -> forall pre,
  book d (pre ++ rows) -> book d' (pre ++ rows') /\ follows (pre ++ rows) (pre ++ rows') /\
    profile_usage_state d' = profile_usage_state d.
Proof.
  induction 1 as [d|r rows d rows' d' Ho _ IH|r r' e id now ctx rows d d1 d2 rows' d' Ho Hc Hn Hs Hu Hadd _ IH]; intros pre Hb.
  - split_and!; [done|reflexivity|done].
  - specialize (IH (pre ++ [r])). rewrite <- !app_assoc in IH. by apply IH.
  - assert (Hp : (pre ++ r :: rows) !! length pre = Some r) by (by apply list_lookup_middle).
    assert (Ei : <[length pre := r']> (pre ++ r :: rows) = (pre ++ [r']) ++ rows).
    { rewrite <- (Nat.add_0_r (length pre)), insert_app_r. cbn. by rewrite <- app_assoc. }
    assert (Hm : forall n, @None Z = Some n -> 0 <= n <= i64_max) by done.
    destruct (book_settle _ _ _ _ _ _ _ _ _ d1 _ Hb Hp Hs eq_refl Hm Hn Hu eq_refl eq_refl Hadd) as [Hb' Es].
    assert (Hf := follows_update _ _ _ _ _ _ _ Hp Hs). rewrite Ei in Hb', Hf.
    destruct (IH _ Hb') as (Hb'' & Hf' & Es'). rewrite <- !app_assoc in *. cbn in Hb'', Hf', Hf.
    split_and!; [done|etrans; [exact Hf|exact Hf']|]. rewrite Es', Es. apply update_usage_row_one in Hu as [_ ->]. done.
Qed.
(** What recovery makes of a row. *)
Definition closed_row (r r' : UsageRecord) : Prop :=
  is_some (u_output_tokens r') = true /\
  (r' = r \/ (u_output_tokens r = None /\ exists source terminal at_ms,
     r' = set_settled (default 0 (u_generation_max_output r)) source terminal at_ms r)).
Lemma abandoned_closed rows d rows' d' : abandoned rows d rows' d' -> Forall2 closed_row rows rows'.
Proof.
  induction 1 as [d|r rows d rows' d' Ho _ IH|r r' e id now ctx rows d d1 d2 rows' d' Ho Hc Hn Hs Hu Hadd _ IH]; constructor; try done.
  - split; [done|by left].
  - destruct (settle_row_some _ _ _ _ _ Hs) as (Hop & _ & output & source & terminal & Hch & _ & -> & _).
    split; [done|]. right. split; [done|]. exists (source_text source), terminal, now. f_equal.
    destruct (u_generation_max_output r); cbn in Hch; by simplify_eq.
Qed.
Lemma held_recover d d' rows :
  held d rows -> recovered key vault d d' -> exists rows', held d' rows' /\ follows rows rows' /\ Forall2 closed_row rows rows'.
Proof.
  intros Hh [rows0 st Ha Hall|rows0 st rows' d1 next d'' Ha Hab Hse Hre];
    destruct (held_authentic _ _ (rows0, st) Hh Ha) as [E Hst]; cbn in E, Hst; subst rows0.
  - exists rows. split_and!; [done..|]. rewrite forallb_forall in Hall. apply Forall_Forall2_diag, Forall_forall.
    intros r Hr. split; [|by left]. by apply Hall, list_elem_of_In.
  - destruct (book_abandoned _ _ _ _ Hab [] (proj1 Hh)) as (Hb & Hf & Es). exists rows'.
    split_and!; [|done|by eapply abandoned_closed]. eapply held_sealed; [exact Hst| |exact Hse|exact Hre|done].
    destruct Hre as (_ & _ & ->). by eapply (book_events d1 _ _ []); [exact Hb|done|cbn; by rewrite app_nil_r|constructor].
Qed.

Lemma held_begin d d' rows row usage events a :
  held d rows -> row_fresh row -> Forall no_usage events -> (exists e, last events = Some e /\ starts e (u_request_id row)) ->
  ps_max_requests_per_day usage <= limit (u_principal_id row) (u_instance_slug row) ->
  begun key vault row usage events d a d' -> exists rows', held d' rows' /\ follows rows rows'.
Proof.
  intros Hh Hf Hno Hst Hlim [rows0 st p t now sum next d1 d2 d'' Ha Hb Hn Ht Hr _ Hi Hse Hre Hadd|rows0 st t now sum e d'' Ha _ _ _ Hl Hadd].
  - destruct (held_authentic _ _ (rows0, st) Hh Ha) as [E Hs]. cbn in E, Hs. subst rows0.
    exists (insert_at p (set_started now row) rows). split.
    + destruct (add_events_spec _ _ _ Hadd Hno) as (_ & Es & _). apply millis_at_range in Hn.
      eapply held_sealed; [exact Hs| |exact Hse|exact Hre|exact Es]. eapply book_insert; eauto. apply Hh.
    + intros r Hr'. exists r. split; [|by left]. rewrite insert_at_perm. by right.
  - exists rows. split; [|done]. eapply held_event; [exact Hh| |exact Hadd].
    apply last_Some_elem_of in Hl. rewrite Forall_forall in Hno. exact (Hno _ Hl).
Qed.
Lemma held_prune before marker doomed d d' rows :
  prunes = true -> no_usage marker -> held d rows -> pruned before marker doomed d d' -> held d' rows.
Proof.
  intros Hp Hn [[] [st Hs]] [_ _ Hadd].
  eapply held_event; [|exact Hn|exact Hadd]. split; [|exists st; by eapply sealed_by_same].
  split; cbn; try done; [|by rewrite Hp..]. intros a u [Ha _]%elem_of_retain. by apply bk_evidence0.
Qed.
Lemma change_held d d' rows : change key vault limit prunes d d' -> held d rows -> exists rows', held d' rows' /\ follows rows rows'.
Proof.
  intros [d1 d2 [(e & Hn & Hadd)|(l & Hn & Hadd)]|row usage events a d1 d2|request measured event d1 d2 _|d1 d2 Hr|before marker doomed d1 d2 Hp Hn Hm Hpr] Hh.
  - exists rows. split; [by eapply held_event|done].
  - exists rows. split; [|done]. destruct (add_events_spec _ _ _ Hadd Hn) as (E1 & E2 & extra & E3 & E4 & _). by eapply held_events.
  - by eapply held_begin.
  - by eapply held_settle.
  - destruct (held_recover _ _ _ Hh Hr) as (rows' & ? & ? & _). by exists rows'.
  - exists rows. split; [by eapply held_prune|done].
Qed.
Lemma changes_held d d' rows : rtc (change key vault limit prunes) d d' -> held d rows -> exists rows', held d' rows' /\ follows rows rows'.
Proof.
  intros Hr. revert rows. induction Hr as [d|d d1 d' Hc _ IH]; intros rows Hh; [by exists rows|].
  destruct (change_held _ _ _ Hc Hh) as (rows1 & Hh1 & Hf1). destruct (IH _ Hh1) as (rows2 & Hh2 & Hf2).
  exists rows2. split; [done|by etrans].
Qed.

(** ** Histories *)

Notation steps := (rtc (step key vault limit prunes)).

Lemma steps_held s s' rows :
  steps s s' -> well_keyed key vault s -> held (v_db s) rows ->
  well_keyed key vault s' /\ exists rows', held (v_db s') rows' /\ follows rows rows'.
Proof.
  intros Hr. revert rows. induction Hr as [s|s s1 s' Hc _ IH]; intros rows Hk Hh; [split; [done|by exists rows]|].
  destruct (step_changes _ _ _ _ _ _ Hk Hc) as [Hk1 Hd]. destruct (changes_held _ _ _ Hd Hh) as (rows1 & Hh1 & Hf1).
  destruct (IH _ Hk1 Hh1) as (Hk2 & rows2 & Hh2 & Hf2). split; [done|]. exists rows2. split; [done|by etrans].
Qed.

(** A vault as [create] leaves it: no executions, the seal over none of them, and no
    usage evidence. *)
Record new_vault (s : Vault) : Prop := {
  nv_keyed : well_keyed key vault s;
  nv_rows : profile_usage (v_db s) = [];
  nv_evidence : Forall (fun a => evidence_of a = None) (audit_events (v_db s));
  nv_sealed : exists st, sealed_by (v_db s) [] st;
}.
Lemma new_vault_held s : new_vault s -> held (v_db s) [].
Proof.
  intros [_ Hr He Hs]. split; [|done]. split; try done; [by rewrite Hr|constructor|..].
  - intros p i day. unfold bucket, retain, llen. cbn. lia.
  - intros a u Ha Hu. rewrite Forall_forall in He. by rewrite He in Hu.
  - by intros _ r ?%not_elem_of_nil.
  - by intros _ r ?%not_elem_of_nil.
Qed.

End WithLibraries.
