(* ===== verification/VaultDemo.v ===== *)
(** * VaultDemo: a small vault to run

    A cipher with a tag, codecs that read the few records of the example, and a host
    on which everything works: the concrete instances of the vault's classes. *)

From S2P Require Import Prelude Strings Bytes Errors Domain Codec SessionState Approval Action FixedAction Decimal Json Signed AuditRecords.
From S2P Require Import VaultModel VaultTables VaultStore Usage VaultRows KeyWrap LifecycleSeals VaultContent VaultWorker Generation AuditLog.
From S2P Require Import VaultUnlock VaultMutations Bootstrap.

Module VaultDemo.

#[export] Instance vault_serde : Serde := table_serde (fun _ => None).
#[export] Instance vault_values : ValueWriter := {
  value_to_vec := fun _ => Some []; number_eq_dec := Z.eq_dec;
}.
#[export] Instance vault_host : Host := {
  since_epoch := fun t => Some (N.of_nat t + 1000)%N; monotonic := fun t => Z.of_nat t;
  entropy := fun t n => Some (be_bytes n (Z.of_nat t)); db_works := fun _ => true; fs_works := fun _ => true;
}.
#[export] Instance vault_host_laws : HostLaws.
Proof. split. intros t n b [= <-]. split; [apply length_be_bytes|apply be_bytes_is_byte]. Qed.

(** ** The cipher *)

(** A stand-in for a keyed hash: a polynomial of the input, on 32 bytes. *)
Definition mix (l : list Z) : list Z := be_bytes 32 (fold_left (fun a b => (a * 263 + b + 1) mod (2 ^ 255 - 19)) l 0).
Lemma mix_length l : length (mix l) = 32%nat.
Proof. apply length_be_bytes. Qed.
Definition tag (k n a m : list Z) : list Z := take 16 (mix (llen k :: k ++ n ++ llen a :: a ++ m)).
Lemma tag_length k n a m : length (tag k n a m) = 16%nat.
Proof. unfold tag. rewrite length_take, mix_length. lia. Qed.
#[export] Instance vault_aead : Aead := {
  gcm_encrypt := fun k n a m => Some (m ++ tag k n a m);
  gcm_decrypt := fun k n a c =>
    let m := take (length c - 16) c in
    if bool_decide (c = m ++ tag k n a m) then Some m else None;
}.
#[export] Instance vault_aead_laws : AeadLaws.
Proof.
  split; cbn [gcm_encrypt gcm_decrypt vault_aead].
  - intros k n a m c [= <-]. rewrite length_app, tag_length, Nat.add_sub, take_app_length. by rewrite bool_decide_eq_true_2.
  - intros k n a m c. case_bool_decide as Hc; [|done]. intros [= <-]. by rewrite <- Hc.
  - intros k n a m c [= <-]. unfold llen. rewrite length_app, tag_length. lia.
Qed.

(** ** The records *)

Definition authorization : AuthorizationEvidence :=
  mkAuthorizationEvidence 7 1 (repeat 1 32) (Some 9) "action" "chat" (repeat 2 32).
Definition draft (request : RequestId) (event outcome reason : string) : AuditDraft :=
  mkAuditDraft (Some request) (Some 1) (Some 2) (Some 3) (Some 4) None (Some authorization) None None None
    event outcome reason None None.
Definition context : UsageContext := mkUsageContext None 1 2 3 4 None authorization.
Definition start (request : RequestId) : AuditDraft := draft request event_type.EXECUTION_STARTED outcome.SUCCESS "profile".
Definition finish (request : RequestId) : AuditDraft := draft request event_type.EXECUTION_FINISHED outcome.SUCCESS "done".
Definition finished : Terminal := mkTerminal event_type.EXECUTION_FINISHED outcome.SUCCESS "done" None None None.
Definition abandoned : Terminal :=
  mkTerminal event_type.EXECUTION_INDETERMINATE outcome.UNKNOWN "profile-abandoned-on-unlock" None None None.
Definition charge_of (output : Z) (source : UsageSource) : AuditMetadata :=
  mkAuditMetadata None (Some (mkUsageEvidence "openai" 0 output source)).

(** A codec that knows the records of a table. *)
Definition table_write {A} `{EqDecision A} (t : list (A * string)) (a : A) : option string :=
  snd <$> head (filter (fun p => a = fst p) t).
Definition table_read {A} (t : list (A * string)) (s : string) : option A :=
  fst <$> head (filter (fun p => s = snd p) t).
Lemma table_roundtrip {A} `{EqDecision A} (t : list (A * string)) a s :
  NoDup (map snd t) -> table_write t a = Some s -> table_read t s = Some a.
Proof.
  unfold table_write, table_read. induction t as [|[b u] t IH]; [done|]. cbn [map snd]. intros [Hu Ht]%NoDup_cons.
  rewrite !filter_cons. cbn. destruct (decide (a = b)) as [->|Hne]; cbn.
  - intros [= <-]. by rewrite decide_True.
  - intros Hs. rewrite decide_False; [by apply IH|]. intros ->. apply Hu.
    destruct (filter _ t) as [|[c v] l] eqn:Ef; [done|]. cbn in Hs. injection Hs as ->.
    assert (Hin : (c, u) ∈ filter (fun p : A * string => a = p.1) t) by (rewrite Ef; left).
    apply list_elem_of_filter in Hin as [_ Hin]. by apply (list_elem_of_fmap_2 snd) in Hin.
Qed.
Lemma table_value {A} `{EqDecision A} (t : list (A * string)) a s : table_write t a = Some s -> s ∈ map snd t.
Proof.
  unfold table_write. destruct (filter _ t) as [|p l] eqn:Ef; [done|]. intros [= <-].
  assert (Hin : p ∈ filter (fun p : A * string => a = p.1) t) by (rewrite Ef; left).
  apply list_elem_of_filter in Hin as [_ Hin]. by apply list_elem_of_fmap_2.
Qed.
#[export] Instance AuditMetadata_eq_dec : EqDecision AuditMetadata.
Proof. solve_decision. Defined.
#[export] Instance Terminal_eq_dec : EqDecision Terminal.
Proof. solve_decision. Defined.
Definition metadata_table : list (AuditMetadata * string) :=
  [(charge_of 7 Measured, "7 measured"); (charge_of 50 Indeterminate, "50 indeterminate")].
Definition context_table : list (UsageContext * string) := [(context, "chat")].
Definition terminal_table : list (Terminal * string) := [(finished, "finished"); (abandoned, "abandoned")].
#[export] Instance vault_records : RecordCodec := {
  metadata_to_string := table_write metadata_table; metadata_from_str := table_read metadata_table;
  context_to_string := table_write context_table; context_from_str := table_read context_table;
  terminal_to_string := table_write terminal_table;
  record_to_vec := fun _ => Some (repeat 0 100); page_to_vec := fun _ => Some (repeat 0 50);
}.
#[export] Instance vault_record_laws : RecordCodecLaws.
Proof.
  assert (Hs : forall l s, forallb (fun s => slen s <=? i64_max) l = true -> s ∈ l -> slen s <= i64_max).
  { intros l s Hl Hi. rewrite forallb_forall in Hl. by apply Z.leb_le, Hl, list_elem_of_In. }
  split; cbn [metadata_to_string metadata_from_str context_to_string context_from_str terminal_to_string vault_records].
  - intros m s. apply table_roundtrip. apply (bool_decide_unpack _); vm_compute; exact I.
  - intros c s. apply table_roundtrip. apply (bool_decide_unpack _); vm_compute; exact I.
  - intros t t' s H1 H2. apply table_roundtrip in H1, H2; [|apply (bool_decide_unpack _); vm_compute; exact I..]. congruence.
  - intros c s H1%table_value. by apply (Hs (map snd context_table)).

  - intros t s H1%table_value. by apply (Hs (map snd terminal_table)).
Qed.

(** ** The vault *)

Definition key : list Z := repeat 5 32.
Definition vault_id : Uuid := 77.
Definition usage : ProfileUsageStart := mkProfileUsageStart "openai" 2 100 (Some 50).
Definition limit (p : PrincipalId) (i : string) : Z := 2.
Definition vault_header : VaultHeaderRecord :=
  mkVaultHeaderRecord vault_id 27 1 [] [] "" 0 [] [] [].
Definition empty_vault : Vault :=
  mkVault (mkDatabase [] 0 [] None no_tables) (mkDatabase [] 0 [] None no_tables) (VUnlocked key) vault_header None false None
    (mkGuard vault_id None None 0 0) 0.
Definition fresh_state : UsageState :=
  match usage_seal key vault_id [] 0 empty_vault with
  | (Ok st, _) => st
  | _ => mkUsageState 0 0 [] [] []
  end.
(** As [create] leaves it. *)
Definition fresh : Vault :=
  snd ((st ← usage_seal key vault_id [] 0; _ ← begin_tx Authority.StorageUnavailable;
        _ ← initial_state st; commit_audited) empty_vault).
(** One execution, its end, another one, and one more than the day allows. *)
Definition begun : Vault := snd (begin_execution usage [] (start 100) 100000 None fresh).
Definition settled : Vault := snd (settle_execution 100 (Some 7) (finish 100) begun).
Definition full : Vault := snd (begin_execution usage [] (start 50) 100000 None settled).
Definition ledger_of (s : Vault) : list UsageRecord * UsageState :=
  match ledger (v_db s) with Ok l => l | Err _ => ([], fresh_state) end.

Definition row (request at_ms : Z) : UsageRecord :=
  mkUsageRecord request 7 "openai" 0 at_ms "chat" (Some 50) None None None None.
Definition paid : UsageRecord := set_settled 7 "measured" "finished" 1019 (row 100 1012).

Example run :
  fst (begin_execution usage [] (start 100) 100000 None fresh) = Ok Started
  /\ fst (settle_execution 100 (Some 7) (finish 100) begun) = Ok tt
  /\ fst (begin_execution usage [] (start 50) 100000 None settled) = Ok Started
  /\ fst (begin_execution usage [] (start 60) 100000 None full) = Ok BudgetDenied
  /\ fst (query_usage 7 "openai" 0 full) = Ok (mkUsageTotals 2 7).
Proof. vm_compute. repeat split. Qed.

End VaultDemo.

(** * A vault that is created, opened and administered

    The rest of the vault's classes, concrete, and a vault made by [init_vault] on the
    host of VaultDemo.v. *)

Module VaultGuardDemo.
Import VaultDemo.

(** ** Keys *)

(** Two characters a byte: three bits, and five. *)
Definition digit32 (n : Z) : ascii := let m := n mod 32 in byte_char (if m <? 26 then 65 + m else 24 + m).
Definition value32 (c : ascii) : Z := let b := byte_of c in if 65 <=? b then b - 65 else b - 24.
Fixpoint encode32 (l : list Z) : string :=
  match l with
  | [] => EmptyString
  | b :: rest => String (digit32 (b / 32)) (String (digit32 (b mod 32)) (encode32 rest))
  end.
Fixpoint decode32 (s : string) : option (list Z) :=
  match s with
  | EmptyString => Some []
  | String h (String l rest) => cons (value32 h * 32 + value32 l) <$> decode32 rest
  | String _ EmptyString => None
  end.
#[export] Instance guard_kdf : Kdf := {
  argon2id := fun _ p s => Some (mix (llen p :: p ++ s)); hkdf_sha256 := fun s k i => Some (mix (llen s :: s ++ llen k :: k ++ i));
  hmac_sign := fun k m => mix (llen k :: k ++ m); hmac_verify := fun k m t => bool_decide (t = mix (llen k :: k ++ m));
  base32_encode := encode32; base32_decode := decode32;
  params_from_str := fun s => if str_eqb s (to_json RFC9106_LOW_MEMORY) then Some RFC9106_LOW_MEMORY else None;
}.
Lemma digit32_value n : 0 <= n < 32 -> value32 (digit32 n) = n /\ is_base32 (digit32 n) = true.
Proof.
  intros Hn. assert (Hall : forallb (fun n => (value32 (digit32 n) =? n) && is_base32 (digit32 n)) (map Z.of_nat (seq 0 32)) = true) by by vm_compute.
  rewrite forallb_forall in Hall. specialize (Hall n). rewrite in_map_iff in Hall.
  assert (Hi : exists x : nat, Z.of_nat x = n /\ In x (seq 0 32)) by (exists (Z.to_nat n); split; [lia|apply in_seq; lia]).
  specialize (Hall Hi). by reflect_bools.
Qed.
Lemma digit32_alphabet n : is_base32 (digit32 n) = true.
Proof.
  replace (digit32 n) with (digit32 (n mod 32)) by (unfold digit32; by rewrite Z.mod_mod).
  apply digit32_value, Z.mod_pos_bound. lia.
Qed.
Lemma byte_digits b : is_byte b -> 0 <= b / 32 < 32 /\ 0 <= b mod 32 < 32 /\ b / 32 * 32 + b mod 32 = b.
Proof.
  unfold is_byte. intros Hb. split; [|split; [apply Z.mod_pos_bound; lia|]].
  - split; [apply Z.div_pos; lia|apply Z.div_lt_upper_bound; lia].
  - rewrite Z.mul_comm. symmetry. apply Z.div_mod. lia.
Qed.
#[export] Instance guard_kdf_laws : KdfLaws.
Proof.
  split; cbn [argon2id hkdf_sha256 hmac_sign hmac_verify base32_encode base32_decode params_from_str guard_kdf].
  - intros p m s k [= <-]. apply mix_length.
  - intros s k i o [= <-]. apply mix_length.
  - intros k m. apply mix_length.
  - intros k m t. by rewrite bool_decide_eq_true.
  - intros b. induction b as [|x l IH]; [done|]. cbn [encode32 str_all]. by rewrite !digit32_alphabet, IH.
  - intros b Hb. induction Hb as [|x l Hx _ IH]; [done|]. cbn [encode32 decode32]. rewrite IH. cbn.
    destruct (byte_digits x Hx) as (H1 & H2 & H3). destruct (digit32_value _ H1) as [-> _], (digit32_value _ H2) as [-> _]. by rewrite H3.
  - by vm_compute.
Qed.

(** ** The other classes *)

#[export] Instance guard_anchors : AnchorHost := { lock_answers := fun _ => Ok tt; file_is_ours := fun _ => true }.
#[export] Instance guard_config : UnlockConfig := { unlock_backoff_base := from_millis 1000 }.
#[export] Instance guard_leases : LeaseCodec := { profile_source_from_slice := fun _ => None }.
#[export] Instance guard_schema : JsonSchema := { JsonValue := unit; is_object := fun _ => true; is_boolean := fun _ => false }.
#[export] Instance guard_actions : ActionCodec := {
  plugin_to_string := fun _ => None; plugin_from_str := fun _ => None; stream_to_string := fun _ => None;
  stream_from_str := fun _ => None; target_to_string := fun _ => None; target_from_str := fun _ => None;
  names_to_string := fun _ => None; names_from_str := fun _ => None;
}.
#[export] Instance guard_materials : Materials := {
  validate_mtls := fun _ => Ok tt; validate_ca := fun _ => Ok tt; validate_aws := fun _ => Ok tt;
}.
#[export] Instance guard_signatures : Signatures := {
  curve_point_ok := fun _ => true; p256_point_ok := fun _ => true;
  ed25519_verify := fun _ _ _ => true; p256_verify := fun _ _ _ => true;
}.
#[export] Instance guard_documents : Documents := {
  grant_from_value := fun _ => None; grant_from_slice := fun _ => None; trust_from_value := fun _ => None;
  envelope_from_value := fun _ => None; challenge_jcs := fun _ => None; trust_jcs := fun t => Some (bytes_of (tf_public_key t));
}.
#[export] Instance guard_layout : Layout := { schema_digest := repeat 27 32 }.

(** ** The vault *)

Definition password : list Z := bytes_of "correct horse".
Definition blank : Vault :=
  mkVault (mkDatabase [] 0 [] None no_tables) (mkDatabase [] 0 [] None no_tables) VLocked vault_header None false None
    (mkGuard 0 None (Some None) 0 0) 0.
Definition created : Vault := (init_vault password RFC9106_LOW_MEMORY Personal blank).2.
(** The broker starts: the worker takes the header of the database. *)
Definition started (s : Vault) : Vault := set_v_header (match header_of (vault_tables (v_db s)) with Ok h => h | Err _ => v_header s end) s.
Definition locked : Vault := started created.
Definition by_password : UnlockProof := PasswordProof password.
Definition opened_vault : Vault := (unlock by_password locked).2.
Definition secret : list Z := bytes_of "sk-secret".
Definition adding : result AuthorityError CredentialMetadata * Vault := credential_add "api" OpaqueToken secret by_password None opened_vault.
Definition credential : CredentialId := match adding.1 with Ok m => mt_id m | Err _ => 0 end.
Definition stocked : Vault := adding.2.
Definition new_password : list Z := bytes_of "battery staple".
Definition changed : Vault := (password_change by_password new_password None stocked).2.
Definition rotating : result AuthorityError string * Vault := recovery_rotate (PasswordProof new_password) None changed.
Definition revoked_vault : Vault := (credential_revoke credential (PasswordProof new_password) None rotating.2).2.

End VaultGuardDemo.
