(* ===== verification/VaultProperties.v ===== *)
(** * VaultProperties: what the vault's administration guarantees

    The properties of the vault's life from its creation on, each with a run of the
    vault of VaultDemo.v to which it applies. *)

From stdpp Require Import relations.
From S2P Require Import Prelude Strings Bytes Errors Domain Codec Json Decimal Action FixedAction SessionState Approval Signed AuditRecords.
From S2P Require Import VaultModel VaultTables VaultStore Usage VaultRows KeyWrap LifecycleSeals VaultContent VaultWorker Generation.
From S2P Require Import AuditLog VaultUnlock VaultMutations Bootstrap VaultRules VaultMoves VaultCommit VaultOperations.
From S2P Require Import VaultHistory VaultRoundtrips VaultDemo.

(** What every group of theorems is about: any instances of the classes. *)
Section WithLibraries.
Context {H : Host} {HL : HostLaws} {AH : AnchorHost} {CC : Codecs} {SG : Signatures} {SJ : Serde} {VW : ValueWriter} {RC : RecordCodec}.
Context {AE : Aead} {KD : Kdf} {LC : LeaseCodec} {JS : JsonSchema} {AC : ActionCodec} {UC : UnlockConfig} {MT : Materials} {DC : Documents}.

(** C4: an unlocking that succeeds has unwrapped the root with the secret, verified
    header, policies, retention, leases and collections under it, and compared the
    generation with every mark; it is audited, and opens with that root. One that fails
    leaves tables and anchors and opens nothing. *)
Theorem unlock_verifies proof s :
  match unlock proof s with
  | (Ok _, s') => exists kind secret vrk h, wrapper_and_secret proof = Ok (kind, secret) /\ opened kind secret s s' vrk h
  | (Err _, s') => tables s' = tables s /\ same_anchors (v_guard s) (v_guard s') /\ (is_open s' = true -> v_state s' = v_state s)
  end.
Proof.
  pose proof (unlock_wp proof s) as Hu. unfold vwp in Hu. destruct (unlock proof s) as [[[]|e] s']; [exact Hu|].
  destruct Hu as [Ht Ha [Hs|Hs] _]; (split; [done|split; [done|]]); [done|congruence].
Qed.
(** C6: rows that satisfy the schema and on which credentials and versions agree stay so
    in every history, so the vault's own check of them never fails. *)
Theorem credentials_stay_consistent calls s :
  constrained (tables s) -> versions_consistent (tables s) = true ->
  let t := tables (history calls s).2 in constrained t /\ versions_consistent t = true.
Proof.
  intros Hc Hv. apply rows_ok_consistent. eapply moves_rows; [apply mover_step, mover_history|]. by apply rows_ok_consistent.
Qed.

(** ** Under the laws of the ciphers *)

Context {CL : CodecLaws} {AL : AeadLaws} {KL : KdfLaws}.

(** C9: after a change of the password, the new password unwraps the root in use through
    the one active wrapper of its kind and the old wrappers hold nothing; so does the
    text that a rotation of the recovery key answers. *)
Theorem new_secrets_open proof password na s vrk :
  v_state s = VUnlocked vrk -> length vrk = 32%nat ->
  (forall s', password_change proof password na s = (Ok tt, s') -> rewrapped WrapperPassword password vrk s s') /\
  (forall text s', recovery_rotate proof na s = (Ok text, s') -> rewrapped WrapperRecovery (bytes_of text) vrk s s').
Proof.
  intros Hs Hv. split.
  - intros s'. by apply (ok_run _ (fun _ => rewrapped WrapperPassword password vrk s)), password_change_ok.
  - intros text s'. by apply (ok_run _ (fun text => rewrapped WrapperRecovery (bytes_of text) vrk s)), recovery_rotate_ok.
Qed.
(** C11: a vault whose creation succeeded has a generation reserved, and password and
    recovery text unwrap one root through its wrappers; a creation that failed without
    the mark of a possible reservation has left database and anchors as they were. *)
Theorem init_vault_outcome {LY : Layout} password params mode s :
  match init_vault password params mode s with
  | (Ok (Ok o, reserved), s') => reserved = true /\ exists vrk, proved_vault password vrk o (tables s')
  | (Ok (Err _, reserved), s') => reserved = false -> untouched s s'
  | (Err _, _) => False
  end.
Proof.
  pose proof (init_vault_wp password params mode s) as Hi. unfold vwp in Hi.
  destruct (init_vault password params mode s) as [[[[o|e] [|]]|e] s']; try done; by destruct Hi.
Qed.

End WithLibraries.

(** ** The demonstration *)

Module VaultWitnesses.
Import VaultDemo VaultGuardDemo.

Definition calls : list Call :=
  [CallVerify by_password; CallCredentialAdd "web" OpaqueToken secret by_password None; CallCredentialRevoke credential by_password None;
   CallPrepare credential; CallLock "done" false; CallUnlock by_password].
(** The database of yesterday, under the anchors of today. *)
Definition restored : Vault := set_v_db (v_db locked) (set_v_header (v_header locked) (set_v_state VLocked stocked)).
Definition context : RollbackContext :=
  match v_state (unlock by_password restored).2 with VRollbackSuspected c => c | _ => mkRollbackContext 0 0 None false end.
(** It does not open; after an operator's confirmation it does, above the marks. *)
Definition confirmed : Vault := (confirm_rollback context (RestorePassword password) 100000 (unlock by_password restored).2).2.
Example run_restored :
  (unlock by_password restored).1 = Err Authority.RollbackSuspected /\ (unlock by_password confirmed).1 = Ok tt
  /\ db_generation (tables locked) = Some 1 /\ db_generation (tables stocked) = Some 2 /\ db_generation (tables confirmed) = Some 3
  /\ (unlock (PasswordProof new_password) locked).1 = Err Authority.InvalidUnlockCredential
  /\ (prepare_credential credential revoked_vault).1 = Err Authority.CredentialRevoked.
Proof. vm_compute. repeat split. Qed.
Definition rows_check (t : Tables) : bool := bool_decide (credentials t = []) && bool_decide (credential_versions t = []).
Lemma no_rows t : rows_check t = true -> rows_ok t.
Proof. unfold rows_check. intros Hc. reflect_bools. split; [split|..]; rewrite ?H, ?H0; by intros ? ?%elem_of_nil || intros ? ? ?%elem_of_nil. Qed.
Lemma opened_rows : rows_ok (tables opened_vault).
Proof. apply no_rows. by vm_compute. Qed.
Lemma stocked_rows : rows_ok (tables stocked).
Proof. unfold stocked, adding. eapply (moves_rows false); [apply mover_step, mover_add|apply opened_rows]. Qed.
Lemma ok_result {E A} (x : result E A * Vault) : is_ok x.1 = true -> exists a s, x = (Ok a, s) /\ x.2 = s.
Proof. destruct x as [[a|e] s]; [by exists a, s|done]. Qed.
Lemma done_result {E F A B} (x : result F (result E A * B) * Vault) :
  match x.1 with Ok r => is_ok r.1 | _ => false end = true -> exists a b s, x = (Ok (Ok a, b), s) /\ x.2 = s.
Proof. destruct x as [[[[a|e] b]|e] s]; [by exists a, b, s|done..]. Qed.
Definition root_in_use (s : Vault) : list Z := match v_state s with VUnlocked k => k | _ => [] end.
Definition root : list Z := root_in_use stocked.

End VaultWitnesses.

Import VaultDemo VaultGuardDemo VaultWitnesses.
Lemma unlock_verifies_witness : exists kind s vrk h, opened kind s locked (unlock by_password locked).2 vrk h.
Proof.
  destruct (ok_result (unlock by_password locked)) as (m & s1 & E & E2); [vm_compute; reflexivity|].
  rewrite E2. pose proof (unlock_verifies by_password locked) as Hu. rewrite E in Hu.
  destruct Hu as (kind & s & vrk & h & _ & Hu). exists kind, s, vrk, h. exact Hu.
Defined.
Lemma credentials_stay_consistent_witness : versions_consistent (tables (history calls stocked).2) = true.
Proof. destruct (proj1 (rows_ok_consistent _) stocked_rows) as [Hc Hv]. apply (credentials_stay_consistent calls stocked Hc Hv). Defined.
Lemma new_secrets_open_witness : rewrapped WrapperPassword new_password root stocked (password_change by_password new_password None stocked).2.
Proof.
  destruct (ok_result (password_change by_password new_password None stocked)) as ([] & s1 & E & E2); [vm_compute; reflexivity|]. rewrite E2.
  refine (proj1 (new_secrets_open by_password new_password None stocked root _ _) s1 E); vm_compute; reflexivity.
Defined.
Lemma init_vault_outcome_witness : exists o vrk, proved_vault password vrk o (tables (init_vault password RFC9106_LOW_MEMORY Personal blank).2).
Proof.
  destruct (done_result (init_vault password RFC9106_LOW_MEMORY Personal blank)) as (o & b & s1 & E & E2); [vm_compute; reflexivity|]. rewrite E2.
  pose proof (init_vault_outcome password RFC9106_LOW_MEMORY Personal blank) as Hi. rewrite E in Hi.
  destruct Hi as [_ [vrk Hp]]. exists o, vrk. exact Hp.
Defined.
