(* ===== verification/UsageProperties.v ===== *)
(** * UsageProperties: what the ledger of executions guarantees

    Theorems over every history of the worker, from a vault as it is created, on any
    host. The witnesses run the vault of VaultDemo.v. *)

From stdpp Require Import relations.
From S2P Require Import Prelude Errors Domain Codec Json Parameters SessionState Approval AuditRecords VaultModel.
From S2P Require Import VaultStore Usage VaultWorker AuditLog VaultRules UsageTheorems VaultEvolution UsageSafety VaultDemo.

#[local] Arguments be_bytes : simpl never.
#[local] Arguments aad_encode : simpl never.
#[local] Arguments usage_aad : simpl never.

Section WithLibraries.
Context {H : Host} {HL : HostLaws} {CC : Codecs} {CL : CodecLaws} {SJ : Serde} {VW : ValueWriter}.
Context {RC : RecordCodec} {RL : RecordCodecLaws} {AE : Aead} {AL : AeadLaws}.
Context (key : list Z) (vault : Uuid) (limit : PrincipalId -> string -> Z) (prunes : bool).
Notation steps := (rtc (step key vault limit prunes)).

Lemma reachable s0 s :
  new_vault key vault s0 -> steps s0 s ->
  well_keyed key vault s /\ exists rows st, book limit prunes (v_db s) rows /\ sealed_by key vault (v_db s) rows st.
Proof.
  intros Hn Hs. destruct (steps_held key vault limit prunes s0 s []) as (Hk & rows & (Hb & st & Hse) & _); [done|apply Hn|by apply new_vault_held|].
  split; [done|]. by exists rows, st.
Qed.
Lemma book_of_ledger d rows st rows' st' :
  book limit prunes d rows -> sealed_by key vault d rows st -> ledger d = Ok (rows', st') -> rows' = rows /\ st' = st.
Proof. intros Hb Hs E. destruct (book_ledger _ _ _ _ _ _ _ Hb Hs) as [E' _ _]. rewrite E in E'. by simplify_eq. Qed.
Lemma reachable_ledger s0 s rows st :
  new_vault key vault s0 -> steps s0 s -> ledger (v_db s) = Ok (rows, st) ->
  held key vault limit prunes (v_db s) rows /\ sealed_by key vault (v_db s) rows st.
Proof.
  intros Hn Hs E. destruct (reachable s0 s Hn Hs) as (_ & rows' & st' & Hb & Hse).
  destruct (book_of_ledger _ _ _ _ _ Hb Hse E) as [-> ->]. split; [|done]. split; [done|by exists st'].
Qed.
Lemma verified_usage_exact s rows st :
  book limit prunes (v_db s) rows -> sealed_by key vault (v_db s) rows st ->
  (verified_usage key vault s).1 = Ok (rows, st) \/ (verified_usage key vault s).1 = Err Authority.StorageUnavailable.
Proof.
  intros Hb Hs. pose proof (book_ledger _ _ _ _ _ _ _ Hb Hs) as Ha.
  assert (Hv : vwp (verified_usage key vault) (fun a _ => a = (rows, st)) (fun e _ => e = Authority.StorageUnavailable) s).
  { unfold verified_usage. apply vwp_bind, vwp_begin; [done|]. eapply vwp_mono; [apply verified_wp| |]; cbn.
    - intros [rows' st'] s' [_ Ha']. cbn in Ha'. by destruct (authentic_unique key vault _ _ _ _ _ Ha Ha') as [-> ->].
    - intros e s' [_ He]. by apply (He rows st). }
  unfold vwp in Hv. destruct (verified_usage key vault s) as [[a|e] s']; [left|right]; cbn; congruence.
Qed.

Lemma fault_on_Ok {A} e reason (m : V A) s a s' : fault_on e reason m s = (Ok a, s') -> m s = (Ok a, s').
Proof.
  unfold fault_on, mbind, V_bind, vtry, vreads, vlift. destruct (m s) as [[x|err] s1]; cbn; [done|].
  destruct (_ && _); cbn; [|done]. by destruct (fault _ _) as [[[]|] ?].
Qed.

(** C18: in every history the ledger reads back, its seal verifies over all of it, its
    rows are ordered by request, each is charged what was measured, or its maximum when
    nothing was; a trusted read answers exactly these rows, unless the database
    itself fails. *)
Theorem usage_ledger_intact s0 s :
  new_vault key vault s0 -> steps s0 s ->
  exists rows st, ledger (v_db s) = Ok (rows, st) /\ usage_verify key vault rows st = Ok tt /\
    increasing rows /\ Forall charged rows /\ Forall (fun r => context_check r = Ok tt) rows /\
    ((verified_usage key vault s).1 = Ok (rows, st) \/ (verified_usage key vault s).1 = Err Authority.StorageUnavailable).
Proof.
  intros Hn Hs. destruct (reachable s0 s Hn Hs) as (_ & rows & st & Hb & Hse). exists rows, st.
  destruct (book_ledger _ _ _ _ _ _ _ Hb Hse) as [E Ev _]. split_and!; try done.
  - apply Hb.
  - eapply Forall_impl; [apply (bk_rows _ _ _ _ Hb)|by intros r []].
  - eapply Forall_impl; [apply (bk_rows _ _ _ _ Hb)|by intros r []].
  - by apply verified_usage_exact.
Qed.

(** C19: the requests that the vault reports for a principal, an instance and a day are
    never more than the profiles of that principal on that instance allow per day. *)
Theorem usage_budget_holds s0 s principal instance day sum s' :
  new_vault key vault s0 -> steps s0 s ->
  query_usage principal instance day s = (Ok sum, s') ->
  0 <= ut_requests sum <= Z.max 0 (limit principal instance).
Proof.
  intros Hn Hs Hq. destruct (reachable s0 s Hn Hs) as ([Hid Hk _] & rows & st & Hb & Hse).
  assert (Hv : vwp (query_usage principal instance day) (fun sum _ => totals rows principal instance day = Ok sum) (fun _ _ => True) s).
  { unfold query_usage. apply vwp_bind. unfold vwp at 1, require_unlocked. destruct (v_state s) as [|k| |] eqn:Est; try done.
    cbn. rewrite (Hk _ eq_refl). apply vwp_bind, vwp_lift; [intros _ _|done]. apply vwp_bind, vwp_reads. rewrite Hid.
    unfold vwp. destruct (fault_on_integrity _ s) as [[t|e] s1] eqn:Ef; [|done]. apply fault_on_Ok in Ef.
    pose proof (verified_usage_exact s rows st Hb Hse) as Hx. unfold profile_usage_totals, mbind, V_bind, vlift in Ef.
    destruct (verified_usage key vault s) as [[a|e] s2]; [|done]. cbn in Hx. destruct Hx as [[= ->]|Hx]; [|done].
    by injection Ef. }
  unfold vwp in Hv. rewrite Hq in Hv. apply totals_requests in Hv. rewrite Hv.
  split; [apply llen_nonneg|]. apply (bk_budget _ _ _ _ Hb).
Qed.

(** an execution in the ledger stays there under its admission; once it is settled
    it never changes again. *)
Theorem usage_settled_once s0 s1 s2 rows1 st1 rows2 st2 r :
  new_vault key vault s0 -> steps s0 s1 -> steps s1 s2 ->
  ledger (v_db s1) = Ok (rows1, st1) -> ledger (v_db s2) = Ok (rows2, st2) -> r ∈ rows1 ->
  exists r', r' ∈ rows2 /\ (r' = r \/ (u_output_tokens r = None /\ charged r' /\
    exists output source terminal at_ms, r' = set_settled output source terminal at_ms r)).
Proof.
  intros Hn H1 H2 E1 E2 Hr. destruct (reachable s0 s1 Hn H1) as (Hk & _).
  destruct (reachable_ledger s0 s1 rows1 st1 Hn H1 E1) as [Hh _].
  destruct (steps_held _ _ _ _ _ _ _ H2 Hk Hh) as (_ & rows & (Hb & st & Hse) & Hf).
  destruct (book_of_ledger _ _ _ _ _ Hb Hse E2) as [-> _]. destruct (Hf r Hr) as (r' & Hr' & Hx). exists r'.
  split; [done|]. destruct Hx as [->|[Ho Hx]]; [by left|]. right. split_and!; [done| |done].
  by destruct (proj1 (Forall_forall _ _) (bk_rows _ _ _ _ Hb) _ Hr').
Qed.

(** C20: the audit and the ledger agree. Whatever usage an audit row carries is that of
    a row of the ledger, settled exactly so; and as long as nothing is pruned, every
    row has its start in the audit, and every settled row its end, with its charge. *)
Theorem usage_audit_exact s0 s rows st :
  new_vault key vault s0 -> steps s0 s -> ledger (v_db s) = Ok (rows, st) ->
  (forall a u, a ∈ audit_events (v_db s) -> evidence_of a = Some u ->
     exists r, r ∈ rows /\ about a r /\ settled_with r u /\ usage_validate u = Ok tt) /\
  (prunes = false -> forall r, r ∈ rows ->
     (exists a, a ∈ audit_events (v_db s) /\ about a r /\ is_started_row a = true) /\
     (is_some (u_output_tokens r) = true <-> exists a u, a ∈ audit_events (v_db s) /\ about a r /\
        is_terminal_row a = true /\ evidence_of a = Some u /\ settled_with r u)).
Proof.
  intros Hn Hs E. destruct (reachable_ledger s0 s rows st Hn Hs E) as [[[] _] _].
  split; [done|]. intros Hp r Hr. split; [by apply bk_started|]. split; [by apply bk_ended|].
  intros (a & u & _ & _ & _ & _ & (_ & _ & -> & _)). done.
Qed.

(** ** Admission *)

Lemma add_event_last e d d' : add_event e d = Some d' ->
  exists a, last (audit_events d') = Some a /\ raw_request_id a = id_as_bytes <$> e_request_id e /\
    raw_event_type a = e_event_type e /\ raw_reason_code a = e_reason_code e /\ profile_usage d' = profile_usage d.
Proof.
  unfold add_event. destruct (metadata_text e) as [text|]; cbn; [|done]. unfold insert_audit_row.
  destruct (_ && _); [|done]. intros [= <-]. eexists. cbn. by rewrite last_snoc.
Qed.
Lemma add_events_last l d d' e : add_events l d = Some d' -> last l = Some e ->
  exists a, last (audit_events d') = Some a /\ raw_request_id a = id_as_bytes <$> e_request_id e /\
    raw_event_type a = e_event_type e.
Proof.
  revert d. induction l as [|x l IH]; intros d; [done|]. cbn [add_events mbind option_bind].
  destruct (add_event x d) as [d1|] eqn:Ex; cbn; [|done]. destruct l as [|y l]; intros Ha Hl; [|by eapply IH].
  cbn in Ha, Hl. simplify_eq. destruct (add_event_last _ _ _ Ex) as (a & ? & ? & ? & _). by exists a.
Qed.
Lemma appended_rows d d' : rtc appended d d' -> profile_usage d' = profile_usage d.
Proof.
  induction 1 as [d|d d1 d' [(e & Hn & Ha)|(l & Hn & Ha)] _ ->]; [done|..].
  - by destruct (add_event_last _ _ _ Ha) as (a & _ & _ & _ & _ & ->).
  - by destruct (add_events_spec _ _ _ Ha Hn) as [-> _].
Qed.
(** What an admission by the store is, on tables that hold [rows]. *)
Lemma begun_outcome d rows st row usage events a d' e0 :
  book limit prunes d rows -> sealed_by key vault d rows st ->
  row_fresh row -> Forall no_usage events -> last events = Some e0 -> starts e0 (u_request_id row) ->
  ps_max_requests_per_day usage <= limit (u_principal_id row) (u_instance_slug row) ->
  begun key vault row usage events d a d' ->
  exists now sum, let row' := set_started now row in
    totals rows (u_principal_id row) (u_instance_slug row) (day_of now) = Ok sum /\
    let below := ut_requests sum < ps_max_requests_per_day usage /\
                 ut_output_tokens sum < ps_max_output_tokens_per_day usage in
    match a with
    | Started => below /\ exists position st', binary_search (u_request_id row) rows = inr position /\
        ledger d' = Ok (insert_at position row' rows, st') /\
        exists a, last (audit_events d') = Some a /\ about a row /\ is_started_row a = true
    | BudgetDenied => ~ below /\ profile_usage d' = profile_usage d /\
        exists a, last (audit_events d') = Some a /\ about a row /\
          raw_event_type a = event_type.EXECUTION_BLOCKED /\ raw_reason_code a = "profile-daily-budget"
    end.
Proof.
  intros Hb Hs Hf Hno Hl [Erq Ety] Hlim [rows0 st0 p t now sum next d1 d2 d'' Ha Hp Hn Ht Hr Htok Hi Hse Hre Hadd
    |rows0 st0 t now sum e d'' Ha Hn Ht Hmax Hl' Hadd];
    destruct (authentic_unique key vault _ _ _ _ _ (book_ledger _ _ _ _ _ _ _ Hb Hs) Ha) as [-> ->];
    apply millis_at_range in Hn; exists now, sum; (split; [done|]).
  - split; [done|]. exists p, next. split_and!; [done| |].
    + assert (Hb' : book limit prunes d'' (insert_at p (set_started now row) rows)) by (eapply book_insert; try done; by exists e0).
      eapply ath_ledger, book_ledger; [exact Hb'|]. destruct (add_events_spec _ _ _ Hadd Hno) as (_ & Es & _).
      eapply sealed_by_same; [|exact Es]. eapply sealed_by_new; [exact Hs|apply Hb'|exact Hse|exact Hre].
    + destruct (add_events_last _ _ _ _ Hadd Hl) as (b & Ela & Era & Eta). exists b. split_and!; [done| |].
      * unfold about. by rewrite Era, Erq.
      * unfold is_started_row. by rewrite Eta, Ety.
  - split; [lia|]. destruct (add_event_last _ _ _ Hadd) as (b & Ela & Era & Eta & Erc & Ep). split; [done|]. exists b.
    split_and!; [done| |by rewrite Eta|by rewrite Erc]. unfold about. rewrite Era. cbn. assert (e = e0) as -> by congruence. by rewrite Erq.
Qed.

(** C22: an execution is admitted only below both maxima of its profile; it then has one
    open row at its place in the ledger and its start in the audit, committed together.
    A denial leaves every row as it is, and the audit says so; an error leaves every row
    as it is. *)
Theorem execution_admission s0 s usage preceding started not_after wall :
  new_vault key vault s0 -> steps s0 s -> draft_typed started -> start_typed usage ->
  (forall a, d_authorization started = Some a ->
     ps_max_requests_per_day usage <= limit (au_principal_id a) (ps_instance_slug usage)) ->
  match begin_execution usage preceding started not_after wall s with
  | (Ok admission, s') =>
      exists rows st row sum, ledger (v_db s) = Ok (rows, st) /\
        totals rows (u_principal_id row) (u_instance_slug row) (u_utc_day row) = Ok sum /\
        d_request_id started = Some (u_request_id row) /\ u_instance_slug row = ps_instance_slug usage /\
        u_output_tokens row = None /\
        let below := ut_requests sum < ps_max_requests_per_day usage /\
                     ut_output_tokens sum < ps_max_output_tokens_per_day usage in
        match admission with
        | Started => below /\ exists position st', binary_search (u_request_id row) rows = inr position /\
            ledger (v_db s') = Ok (insert_at position row rows, st') /\
            exists a, last (audit_events (v_db s')) = Some a /\ about a row /\ is_started_row a = true
        | BudgetDenied => ~ below /\ profile_usage (v_db s') = profile_usage (v_db s) /\
            exists a, last (audit_events (v_db s')) = Some a /\ about a row /\
              raw_event_type a = event_type.EXECUTION_BLOCKED /\ raw_reason_code a = "profile-daily-budget"
        end
  | (Err _, s') => profile_usage (v_db s') = profile_usage (v_db s)
  end.
Proof.
  intros Hn Hs Hd Hu Hlim. destruct (reachable s0 s Hn Hs) as ([Hid Hk _] & rows & st & Hb & Hse).
  pose proof (begin_execution_wp key vault usage preceding started not_after wall s Hd Hu Hk Hid) as Hw.
  unfold vwp in Hw. destruct (begin_execution _ _ _ _ _ s) as [[a|e] s']; [|by apply appended_rows, (ev_db _ _ _ Hw)].
  destruct Hw as (_ & row & events & (rq & ctx & now0 & json & Erq & Ec & _ & _ & Erow) & Hf & Hno & (e0 & Hl & _ & Hst) & Hbg).
  assert (Hlim' : ps_max_requests_per_day usage <= limit (u_principal_id row) (u_instance_slug row)).
  { rewrite Erow. cbn. apply Hlim, (draft_context_ok _ _ Ec). }
  destruct (begun_outcome _ _ _ _ _ _ _ _ _ Hb Hse Hf Hno Hl Hst Hlim' Hbg) as (now & sum & Ht & Hx).
  exists rows, st, (set_started now row), sum. pose proof (book_ledger _ _ _ _ _ _ _ Hb Hse) as [El _ _].
  split_and!; try done; rewrite Erow; done.
Qed.

(** ** Settlement and recovery *)

(** A row carries the charge and the terminal that an event settles it with. *)
Definition carries (r : UsageRecord) (maximum measured : option Z) (terminal : Terminal) : Prop :=
  exists output source, charge maximum measured = Ok (output, source) /\ u_output_tokens r = Some output /\
    u_source r = Some (source_text source) /\ u_terminal_json r = terminal_to_string terminal.
Definition draft_terminal (d : AuditDraft) : Terminal :=
  mkTerminal (d_event_type d) (d_outcome d) (d_reason_code d) (d_upstream_status d) (d_latency_ms d) (d_credential_version d).
Lemma terminal_of_draft draft e : event_of draft e -> terminal_of e = draft_terminal draft.
Proof. by intros (id & now & _ & ->). Qed.
Lemma settle_row_again r measured e :
  settle_row r measured e = Ok None -> carries r (u_generation_max_output r) measured (terminal_of e).
Proof.
  unfold settle_row, carries. destruct (context_from_str _); [cbn|done]. destruct (event_context e); [cbn|done].
  destruct (_ || _); [done|]. destruct (charge _ _) as [[output source]|]; [cbn|done].
  destruct (terminal_to_string (terminal_of e)) as [t|]; [cbn|done]. destruct (u_output_tokens r); cbn; [|done].
  destruct (_ && _) eqn:E; [|done]. intros _. exists output, source. reflect_bools. done.
Qed.

(** C23: a settlement that succeeds leaves its row with what was measured, or with the
    maximum when nothing was, and with its end; the others stay. On a row that is
    already settled it succeeds only when it says the same, and then changes nothing;
    when it fails, every row stays. *)
Theorem settlement_final s0 s request measured terminal :
  new_vault key vault s0 -> steps s0 s -> (forall n, measured = Some n -> in_u64 n) ->
  match settle_execution request measured terminal s with
  | (Ok _, s') =>
      exists rows st st' position r r', ledger (v_db s) = Ok (rows, st) /\
        ledger (v_db s') = Ok (<[position := r']> rows, st') /\
        rows !! position = Some r /\ u_request_id r = request /\
        carries r' (u_generation_max_output r) measured (draft_terminal terminal) /\
        (is_some (u_output_tokens r) = true -> v_db s' = v_db s) /\
        (u_output_tokens r = None -> exists output source at_ms terminal_json,
           r' = set_settled output source terminal_json at_ms r)
  | (Err _, s') => profile_usage (v_db s') = profile_usage (v_db s)
  end.
Proof.
  intros Hn Hs Hm. destruct (reachable s0 s Hn Hs) as ([Hid Hk _] & rows & st & Hb & Hse).
  pose proof (settle_execution_wp key vault request measured terminal s Hm Hk Hid) as Hw. unfold vwp in Hw.
  destruct (settle_execution _ _ _ s) as [[a|e] s']; [|by apply appended_rows, (ev_db _ _ _ Hw)].
  destruct Hw as (_ & event & Hev & (_ & [_ Hty] & Hmm & Hat) & Hset). pose proof (terminal_of_draft _ _ Hev) as Et.
  pose proof (book_ledger _ _ _ _ _ _ _ Hb Hse) as Ha. assert (El := ath_ledger _ _ _ _ _ Ha).
  destruct Hset as [rows0 st0 r Ha' Hr Erq Hrow|rows0 st0 position r r' e next d1 d2 d'' Ha' Hp Erq Hrow Hu Hsl Hre Hadd];
    destruct (authentic_unique key vault _ _ _ _ _ Ha Ha') as [-> ->]; exists rows, st.
  - apply list_elem_of_lookup_1 in Hr as [position Hp]. exists st, position, r, r. pose proof (settle_row_again _ _ _ Hrow) as Hc.
    rewrite Et in Hc. rewrite list_insert_id by done. split_and!; try done. destruct Hc as (o & src & _ & E1 & _). congruence.
  - destruct (held_update _ _ _ _ _ _ _ _ _ _ _ _ _ _ _ _ _ Hb Hse Hp Hrow Hty Hmm Hat Hu Hsl Hre Hadd) as [Hb' [st' Hse']].
    destruct (settle_row_some _ _ _ _ _ Hrow) as (Ho & _ & o & src & t & Ec & Ete & Er' & _).
    exists st', position, r, r'. split_and!; try done.
    + by eapply ath_ledger, book_ledger.
    + subst r'. exists o, src. by rewrite <- Et, Ete.
    + by rewrite Ho.
    + intros _. by exists o, (source_text src), (e_created_at_ms event), t.
Qed.

(** recovery leaves no execution open: the open ones are charged the maximum they
    reserved, as the audit then says, and the settled ones stay; when it fails, the
    tables stay. *)
Theorem recovery_settles_all s0 s :
  new_vault key vault s0 -> steps s0 s ->
  match recover_profile_usage key vault s with
  | (Ok _, s') =>
      exists rows st rows' st', ledger (v_db s) = Ok (rows, st) /\ ledger (v_db s') = Ok (rows', st') /\
        Forall2 closed_row rows rows'
  | (Err _, s') => v_db s' = v_db s
  end.
Proof.
  intros Hn Hs. destruct (reachable s0 s Hn Hs) as (_ & rows & st & Hb & Hse).
  pose proof (recover_profile_usage_wp key vault s) as Hw. unfold vwp in Hw.
  destruct (recover_profile_usage key vault s) as [[a|e] s']; [|by apply kp_db].
  destruct Hw as [_ Hr]. assert (Hh : held key vault limit prunes (v_db s) rows) by (split; [done|by exists st]).
  destruct (held_recover _ _ _ _ _ _ _ Hh Hr) as (rows' & [Hb' [st' Hse']] & _ & Hc). exists rows, st, rows', st'.
  split_and!; [..|done]; by eapply ath_ledger, book_ledger.
Qed.

(** ** The seal *)

Lemma usage_verified rows st :
  usage_verify key vault rows st = Ok tt ->
  exists body, usage_rows_bytes None rows = Ok body /\ st_records_digest st = sha256 (USAGE_PREFIX ++ body) /\
    gcm_encrypt key (st_seal_nonce st) (usage_aad vault st) [] = Some (st_seal_ciphertext st).
Proof.
  unfold usage_verify, usage_digest, aead_open. destruct (st_record_count st =? llen rows); cbn -[usage_aad]; [|done].
  destruct (usage_rows_bytes None rows) as [body|]; cbn -[usage_aad]; [|done]. case_bool_decide as Hd; cbn -[usage_aad]; [|done].
  destruct (gcm_decrypt _ _ _ _) as [m|] eqn:Em; cbn; [|done]. destruct m as [|x m]; [|done].
  intros _. exists body. split_and!; [done..|]. by apply gcm_recomputes.
Qed.
(** Two texts with one digest are one text, or collide. *)
Definition collide (x y : list Z) : Prop := x <> y /\ sha256 x = sha256 y.
Lemma sha256_same x y : sha256 x = sha256 y -> x = y \/ collide x y.
Proof. intros E. destruct (decide (x = y)); [by left|]. by right. Qed.
(** What the two digests of a seal are taken of: the rows, and the state they give. *)
Definition rows_text (rows : list UsageRecord) : list Z :=
  match usage_rows_bytes None rows with Ok body => USAGE_PREFIX ++ body | Err _ => [] end.
Definition state_text (st : UsageState) : list Z :=
  USAGE_STATE_PREFIX ++ be_bytes 8 (st_record_count st) ++ st_records_digest st.

(** C21: a seal fits one ledger at one revision. If two ledgers verify under one nonce
    and tag, they are the same at the same revision, or their very texts collide under
    SHA-256, or the cipher gives their two states one tag. *)
Theorem usage_seal_binds rows st rows' st' :
  0 <= vault < 2 ^ 128 -> Forall row_typed rows -> Forall row_typed rows' ->
  in_u64 (st_revision st) -> in_u64 (st_revision st') ->
  usage_verify key vault rows st = Ok tt -> usage_verify key vault rows' st' = Ok tt ->
  st_seal_nonce st' = st_seal_nonce st -> st_seal_ciphertext st' = st_seal_ciphertext st ->
  (rows' = rows /\ st_revision st' = st_revision st) \/
  collide (rows_text rows) (rows_text rows') \/ collide (state_text st) (state_text st') \/
  (usage_aad vault st <> usage_aad vault st' /\
   gcm_encrypt key (st_seal_nonce st) (usage_aad vault st) [] = gcm_encrypt key (st_seal_nonce st) (usage_aad vault st') []).
Proof.
  intros Hv Ht Ht' Hr Hr' (body & Eb & Ed & Ec)%usage_verified (body' & Eb' & Ed' & Ec')%usage_verified En Et.
  rewrite En, Et in Ec'. destruct (decide (usage_aad vault st = usage_aad vault st')) as [Ea|Hne].
  2: { right. right. right. split; [done|congruence]. }
  apply aad_binds in Ea; [|split; cbn; (done || apply sha256_length)..].
  pose proof (f_equal object_version Ea) as Erev. pose proof (f_equal constraints_hash Ea) as Eh. cbn in Erev. unfold usage_aad in Eh. cbn [constraints_hash] in Eh.
  destruct (sha256_same _ _ Eh) as [Es|]; [|by right; right; left]. apply app_inv_head in Es.
  apply app_inj_1 in Es as [_ Es]; [|by rewrite !length_be_bytes]. rewrite Ed, Ed' in Es.
  destruct (sha256_same _ _ Es) as [Ebody|Hc]; [|right; left; unfold rows_text; by rewrite Eb, Eb'].
  apply app_inv_head in Ebody. subst body'.
  left. split; [|done]. exact (rows_bytes_inj _ _ _ _ _ Ht' Ht Eb' Eb).
Qed.

End WithLibraries.

(** ** On a concrete vault *)

Import VaultDemo.

Lemma demo_state : state_ok VaultDemo.fresh_state.
Proof. split; vm_compute; (done || (split; discriminate)). Qed.
Lemma demo_new : new_vault VaultDemo.key VaultDemo.vault_id VaultDemo.fresh.
Proof.
  split.
  - split; [reflexivity|intros k E; by injection E|].
    assert (Er : audit_events (v_db VaultDemo.fresh) = []) by (vm_compute; reflexivity).
    assert (En : audit_sequence (v_db VaultDemo.fresh) = 0) by (vm_compute; reflexivity).
    split; rewrite ?Er, ?En; [constructor|by intros a ?%not_elem_of_nil|done].
  - vm_compute. reflexivity.
  - replace (audit_events (v_db VaultDemo.fresh)) with (@nil RawAuditRow) by (vm_compute; reflexivity). constructor.
  - exists VaultDemo.fresh_state. split; [vm_compute; reflexivity|apply demo_state|vm_compute; reflexivity].
Qed.
Lemma demo_draft request event outcome reason :
  id_typed request -> draft_typed (VaultDemo.draft request event outcome reason).
Proof. intros Hr. split; [by intros id [= <-]|]. intros a [= <-]. done. Qed.
Lemma demo_start : start_typed VaultDemo.usage.
Proof. split; [done..|]. by intros v [= <-]. Qed.
Lemma demo_limit a : d_authorization (VaultDemo.start 50) = Some a -> 2 <= VaultDemo.limit (au_principal_id a) "openai".
Proof. done. Qed.
Lemma demo_measured n : Some 7 = Some n -> in_u64 n.
Proof. by intros [= <-]. Qed.
Notation demo_steps := (rtc (step VaultDemo.key VaultDemo.vault_id VaultDemo.limit false)).
Lemma demo_begin request s : id_typed request ->
  demo_steps s (begin_execution VaultDemo.usage [] (VaultDemo.start request) 100000 None s).2.
Proof. intros Hr. apply rtc_once, step_begin; [by apply demo_draft|apply demo_start|done]. Qed.
Lemma demo_settle s : demo_steps s (settle_execution 100 (Some 7) (VaultDemo.finish 100) s).2.
Proof. apply rtc_once, step_settle, demo_measured. Qed.
Lemma demo_settled : demo_steps VaultDemo.fresh VaultDemo.settled.
Proof. transitivity VaultDemo.begun; [exact (demo_begin 100 VaultDemo.fresh (conj eq_refl eq_refl))|exact (demo_settle VaultDemo.begun)]. Qed.
Lemma demo_full : demo_steps VaultDemo.settled VaultDemo.full.
Proof. exact (demo_begin 50 VaultDemo.settled (conj eq_refl eq_refl)). Qed.
Lemma ledger_rows d l st rows st' : ledger d = Ok (l, st) -> ledger d = Ok (rows, st') -> rows = l.
Proof. congruence. Qed.
Lemma ledger_begun : ledger (v_db VaultDemo.begun) = Ok ([VaultDemo.row 100 1012], (VaultDemo.ledger_of VaultDemo.begun).2).
Proof. vm_compute. reflexivity. Qed.
Lemma ledger_settled : ledger (v_db VaultDemo.settled) = Ok ([VaultDemo.paid], (VaultDemo.ledger_of VaultDemo.settled).2).
Proof. vm_compute. reflexivity. Qed.
Lemma ledger_full :
  ledger (v_db VaultDemo.full) = Ok ([VaultDemo.row 50 1037; VaultDemo.paid], (VaultDemo.ledger_of VaultDemo.full).2).
Proof. vm_compute. reflexivity. Qed.
Lemma demo_history : demo_steps VaultDemo.fresh VaultDemo.full.
Proof. etrans; [apply demo_settled|apply demo_full]. Qed.

Lemma usage_ledger_intact_witness :
  exists rows st, ledger (v_db VaultDemo.full) = Ok (rows, st) /\
    usage_verify VaultDemo.key VaultDemo.vault_id rows st = Ok tt /\
    increasing rows /\ Forall charged rows /\ Forall (fun r => context_check r = Ok tt) rows /\
    ((verified_usage VaultDemo.key VaultDemo.vault_id VaultDemo.full).1 = Ok (rows, st)
     \/ (verified_usage VaultDemo.key VaultDemo.vault_id VaultDemo.full).1 = Err Authority.StorageUnavailable).
Proof.
  apply (usage_ledger_intact VaultDemo.key VaultDemo.vault_id VaultDemo.limit false VaultDemo.fresh);
    [apply demo_new|apply demo_history].
Defined.
Lemma usage_budget_holds_witness : 0 <= 2 <= Z.max 0 (VaultDemo.limit 7 "openai").
Proof.
  apply (usage_budget_holds VaultDemo.key VaultDemo.vault_id VaultDemo.limit false VaultDemo.fresh VaultDemo.full
    7 "openai" 0 (mkUsageTotals 2 7) (query_usage 7 "openai" 0 VaultDemo.full).2);
    [apply demo_new|apply demo_history|vm_compute; reflexivity].
Defined.
Lemma usage_settled_once_witness :
  exists r', r' ∈ [VaultDemo.row 50 1037; VaultDemo.paid] /\
    (r' = VaultDemo.paid \/ (u_output_tokens VaultDemo.paid = None /\ charged r' /\
      exists output source terminal at_ms, r' = set_settled output source terminal at_ms VaultDemo.paid)).
Proof.
  apply (usage_settled_once VaultDemo.key VaultDemo.vault_id VaultDemo.limit false VaultDemo.fresh VaultDemo.settled VaultDemo.full
    [VaultDemo.paid] (VaultDemo.ledger_of VaultDemo.settled).2 _ (VaultDemo.ledger_of VaultDemo.full).2);
    [apply demo_new|apply demo_settled|apply demo_full|apply ledger_settled|apply ledger_full|left].
Defined.
Lemma usage_audit_exact_witness :
  exists a u, a ∈ audit_events (v_db VaultDemo.full) /\ about a VaultDemo.paid /\
    is_terminal_row a = true /\ evidence_of a = Some u /\ settled_with VaultDemo.paid u.
Proof.
  destruct (usage_audit_exact VaultDemo.key VaultDemo.vault_id VaultDemo.limit false VaultDemo.fresh VaultDemo.full
    _ _ demo_new demo_history ledger_full) as [_ Hx].
  apply (Hx eq_refl); [right; left|reflexivity].
Defined.
Lemma execution_admission_witness :
  exists s', begin_execution VaultDemo.usage [] (VaultDemo.start 50) 100000 None VaultDemo.settled = (Ok Started, s') /\
    exists position st' row, ledger (v_db s') = Ok (insert_at position row [VaultDemo.paid], st').
Proof.
  pose proof (execution_admission VaultDemo.key VaultDemo.vault_id VaultDemo.limit false VaultDemo.fresh VaultDemo.settled
    VaultDemo.usage [] (VaultDemo.start 50) 100000 None demo_new demo_settled (demo_draft 50 _ _ _ (conj eq_refl eq_refl)) demo_start
    demo_limit) as Hx.
  assert (E : fst (begin_execution VaultDemo.usage [] (VaultDemo.start 50) 100000 None VaultDemo.settled) = Ok Started)
    by (vm_compute; reflexivity).
  revert Hx E. destruct (begin_execution _ _ _ _ _ _) as [[a|e] s']; cbn [fst]; intros Hx E; [|discriminate E].
  injection E as ->. exists s'. split; [reflexivity|].
  destruct Hx as (rows & st & row & sum & El & _ & _ & _ & _ & _ & position & st' & _ & El' & _).
  rewrite (ledger_rows _ _ _ _ _ ledger_settled El) in *. by exists position, st', row.
Defined.
Lemma settlement_final_witness :
  exists s', settle_execution 100 (Some 7) (VaultDemo.finish 100) VaultDemo.begun = (Ok tt, s') /\
    exists position r' st', ledger (v_db s') = Ok (<[position := r']> [VaultDemo.row 100 1012], st') /\
      carries r' (Some 50) (Some 7) (draft_terminal (VaultDemo.finish 100)).
Proof.
  pose proof (settlement_final VaultDemo.key VaultDemo.vault_id VaultDemo.limit false VaultDemo.fresh VaultDemo.begun
    100 (Some 7) (VaultDemo.finish 100) demo_new (demo_begin 100 _ (conj eq_refl eq_refl)) demo_measured) as Hx.
  assert (E : fst (settle_execution 100 (Some 7) (VaultDemo.finish 100) VaultDemo.begun) = Ok tt) by (vm_compute; reflexivity).
  revert Hx E. destruct (settle_execution _ _ _ _) as [[a|e] s']; cbn [fst]; intros Hx E; [|discriminate E].
  injection E as ->. exists s'. split; [reflexivity|].
  destruct Hx as (rows & st & st' & position & r & r' & El & El' & Hp & _ & Hc & _).
  rewrite (ledger_rows _ _ _ _ _ ledger_begun El) in *. exists position, r', st'. split; [done|].
  apply list_elem_of_lookup_2, list_elem_of_singleton in Hp. by subst r.
Defined.
Lemma recovery_settles_all_witness :
  exists s' rows' st', recover_profile_usage VaultDemo.key VaultDemo.vault_id VaultDemo.full = (Ok tt, s') /\
    ledger (v_db s') = Ok (rows', st') /\ Forall2 closed_row [VaultDemo.row 50 1037; VaultDemo.paid] rows'.
Proof.
  pose proof (recovery_settles_all VaultDemo.key VaultDemo.vault_id VaultDemo.limit false VaultDemo.fresh VaultDemo.full
    demo_new demo_history) as Hx.
  assert (E : fst (recover_profile_usage VaultDemo.key VaultDemo.vault_id VaultDemo.full) = Ok tt) by (vm_compute; reflexivity).
  revert Hx E. destruct (recover_profile_usage _ _ _) as [[a|e] s']; cbn [fst]; intros Hx E; [|discriminate E].
  injection E as ->. destruct Hx as (rows & st & rows' & st' & El & El' & Hc).
  rewrite (ledger_rows _ _ _ _ _ ledger_full El) in *. exists s', rows', st'. exact (conj eq_refl (conj El' Hc)).
Defined.
Lemma usage_seal_binds_witness :
  let rows := [VaultDemo.row 50 1037; VaultDemo.paid] in
  let st := (VaultDemo.ledger_of VaultDemo.full).2 in
  usage_verify VaultDemo.key VaultDemo.vault_id rows st = Ok tt /\
  ((rows = rows /\ st_revision st = st_revision st) \/
   collide (rows_text rows) (rows_text rows) \/ collide (state_text st) (state_text st) \/
   (usage_aad VaultDemo.vault_id st <> usage_aad VaultDemo.vault_id st /\
    gcm_encrypt VaultDemo.key (st_seal_nonce st) (usage_aad VaultDemo.vault_id st) [] =
    gcm_encrypt VaultDemo.key (st_seal_nonce st) (usage_aad VaultDemo.vault_id st) [])).
Proof.
  intros rows st. assert (Hv : usage_verify VaultDemo.key VaultDemo.vault_id rows st = Ok tt) by (vm_compute; reflexivity).
  destruct (reachable_ledger VaultDemo.key VaultDemo.vault_id VaultDemo.limit false _ _ _ _ demo_new demo_history ledger_full)
    as [[[] _] [_ [Hr _ _ _ _] _]].
  assert (Ht : Forall row_typed rows) by (eapply Forall_impl; [exact bk_rows|by intros r [[] _ _ _]]).
  assert (Hu : in_u64 (st_revision st)) by (unfold in_u64, u64_max; unfold i64_max in Hr; fold st in Hr; lia).
  refine (conj Hv _). apply (usage_seal_binds VaultDemo.key VaultDemo.vault_id); try assumption; try reflexivity. split; [discriminate|reflexivity].
Defined.
