(* ===== verification/AuditExport.v ===== *)
(** * AuditExport: exporting the audit to a file

    [rekey-cli/src/commands/audit.rs], with the errors of client.rs: the cutoffs of
    pruning by age, and [audit_export], which pages through one snapshot of the audit
    and writes a line per record between a header and a trailer. What the terminal
    and the connection to the vault answer is the class [Console]. *)

From S2P Require Import Prelude Strings Errors Domain Json Action AuditRecords.

(** ** Errors (client.rs) *)

Record CliError := mkCliError {
  ce_code : string;
  ce_message : string;
  ce_next : option string;
  ce_approval : option ApprovalRequired;
  ce_request_id : option RequestId;
  ce_retryable : bool;
}.
Definition local_next (code : string) : string :=
  if str_eqb code "IPC_UNAVAILABLE" then
    "Open Rekey or start rekeyd serve; wait for unlock before issuing a new call. Do not replay a write whose outcome is unknown."
  else if str_eqb code "USAGE" || str_eqb code "INVALID_INPUT" then
    "Check the command arguments; use describe for the named operation's parameters."
  else if str_eqb code "UPSTREAM_ERROR" then
    "Inspect the returned status and sealed response body. Do not automatically repeat a write."
  else "Review the error and Rekey status before taking another action. Do not automatically repeat a write.".
Definition cli_local (code message : string) : CliError :=
  mkCliError code message (Some (local_next code)) None None false.
Definition exit_code (e : CliError) : Z :=
  let among := fun l => existsb (str_eqb (ce_code e)) l in
  if among ["INVALID_INPUT"; "INVALID_FRAME"; "POLICY_INVALID"; "USAGE"; "UNSUPPORTED_PLATFORM"] then 2
  else if among ["INVALID_UNLOCK_CREDENTIAL"; "UNLOCK_RATE_LIMITED"; "AUTHENTICATION_FAILED"; "LOCKED"] then 3
  else if among ["LEAK_DETECTED"; "NOT_CONFIGURED"; "DENIED"; "BUDGET_EXCEEDED"; "RATE_LIMITED"; "APPROVAL_REQUIRED";
                 "ACTION_DENIED"; "ACTION_DISABLED"; "ACTION_NOT_FOUND"; "INVALID_CAPABILITY"; "CAPABILITY_EXPIRED";
                 "CAPABILITY_EXHAUSTED"; "REQUEST_DENIED"; "REQUEST_TOO_LARGE"; "CREDENTIAL_UNAVAILABLE";
                 "CREDENTIAL_CONFLICT"; "WORKLOAD_IDENTITY_INVALID"] then 4
  else if among ["STORAGE_UNAVAILABLE"; "STORAGE_INTEGRITY_FAILED"; "CRYPTO_FAILURE"; "NOT_INITIALIZED";
                 "ALREADY_INITIALIZED"; "STATE_DIRECTORY_NOT_EMPTY"; "UNSUPPORTED_VAULT_LAYOUT";
                 "UNSUPPORTED_FORMAT_VERSION"; "INSECURE_STATE_PERMISSIONS"; "AUDIT_COMMIT_FAILED"; "BACKUP_FAILED";
                 "RESTORE_FAILED"; "ENTROPY_UNAVAILABLE"; "CLOCK_UNAVAILABLE"; "FAULTED"; "LAUNCHER_UNAVAILABLE"] then 5
  else if among ["UPSTREAM_ERROR"; "UPSTREAM_ADDRESS_BLOCKED"; "UPSTREAM_FAILED"; "RESPONSE_TOO_LARGE"; "STREAM_INCOMPLETE"] then 6
  else if among ["RESPONSE_BLOCKED"; "RESPONSE_SECURITY_VIOLATION"; "STREAM_FAILED"; "AUDIT_COMMIT_FAILED_AFTER_EXECUTION";
                 "UPSTREAM_INDETERMINATE"] then 8
  else 7.

(** ** Cutoffs *)

Definition retention_age_ms (days : Z) : result CliError Z :=
  ok_or (cli_local "USAGE" "audit retention age is out of range")
    (if (days <=? i64_max) && (0 <? days) && (days * 86400000 <=? i64_max) then Some (days * 86400000) else None).
Definition retention_cutoff_ms (age_ms now_ms : Z) : result CliError Z :=
  ok_or (cli_local "USAGE" "audit retention age precedes Unix epoch")
    (cutoff ← i64_checked_sub now_ms age_ms; if 0 <=? cutoff then Some cutoff else None).

Section WithValues.
Context {SJ : Serde} {VW : ValueWriter}.

(** ** The export *)

Record ExportHeader := mkExportHeader {
  h_record_type : string;
  h_schema : string;
  h_created_at_ms : Z;
  h_snapshot_max_sequence : Z;
  h_request_id : option string;
  h_session_id : option string;
  h_action_id : option string;
  h_credential_id : option string;
  h_outcome : option string;
  h_since_ms : option Z;
  h_until_ms : option Z;
}.
(** A line of the file; a failed write may leave part of one. *)
Inductive ExportLine : Type :=
  | HeaderLine (h : ExportHeader)
  | EventLine (event : AuditRecord)
  | TrailerLine (record_type : string) (row_count : Z)
  | TornLine.
(** A response of the vault: its metadata, if that is JSON, and whether it is the
    empty object; the page that its body is. *)
Record PageAnswer := mkPageAnswer { an_metadata : option bool; an_page : option AuditPage }.

(** The n-th answer of the connection, of the disk and of the clock; the texts of the
    libraries' errors and ids. *)
Class Console := {
  admin_call : nat -> AuditQuery -> result CliError PageAnswer;
  io_works : nat -> bool;
  io_error : nat -> string;
  system_clock : nat -> option N;
  domain_text : DomainError -> string;
  id_text : Uuid -> string;
}.
Context {CO : Console}.

Record Export := mkExport { x_file : option (list ExportLine); x_stdout : bool; x_tick : nat }.
Definition X (A : Type) : Type := Export -> result CliError A * Export.
#[export] Instance X_ret : MRet X := fun A a x => (Ok a, x).
#[export] Instance X_bind : MBind X := fun A B f m x =>
  match m x with
  | (Ok a, x) => f a x
  | (Err e, x) => (Err e, x)
  end.
Definition xfail {A} (e : CliError) : X A := fun x => (Err e, x).
Definition xlift {A} (r : result CliError A) : X A := fun x => (r, x).
Definition xmodify (f : Export -> Export) : X unit := fun x => (Ok tt, f x).
Definition x_ticked (x : Export) : Export := mkExport (x_file x) (x_stdout x) (S (x_tick x)).
Definition output_error (detail : string) : CliError := cli_local "OUTPUT_FAILED" ("audit export failed: " +:+ detail).
Definition io : X unit := fun x =>
  (if io_works (x_tick x) then Ok tt else Err (output_error (io_error (x_tick x))), x_ticked x).

Definition invalid_frame (message : string) : CliError := cli_local "INVALID_FRAME" message.
Definition call_page (q : AuditQuery) : X PageAnswer := fun x => (admin_call (x_tick x) q, x_ticked x).
Definition fetch_page (q : AuditQuery) : X AuditPage :=
  answer ← call_page q;
  empty ← xlift (ok_or (invalid_frame "broker returned invalid response") (an_metadata answer));
  _ ← (if empty : bool then mret tt else xfail (invalid_frame "audit response metadata must be empty"));
  page ← xlift (ok_or (invalid_frame "broker returned invalid audit page") (an_page answer));
  _ ← xlift (map_err (fun _ => invalid_frame "broker returned invalid audit page") (page_validate_for page q));
  mret page.
Definition cli_now_ms : X Z := fun x =>
  (match system_clock (x_tick x) with
   | Some d => if Z.of_N d <=? i64_max then Ok (Z.of_N d)
               else Err (cli_local "OUTPUT_FAILED" "system clock exceeds audit range")
   | None => Err (cli_local "OUTPUT_FAILED" "system clock is before Unix epoch")
   end, x_ticked x).
(** [create_new]: the file is new and empty. *)
Definition create_export_file : X unit :=
  _ ← io;
  xmodify (fun x => mkExport (Some []) (x_stdout x) (x_tick x)).
Definition append_line (l : ExportLine) (x : Export) : Export :=
  mkExport (Some (default [] (x_file x) ++ [l])) (x_stdout x) (S (x_tick x)).
Definition write_json_line (l : ExportLine) : X unit := fun x =>
  if io_works (x_tick x) then (Ok tt, append_line l x)
  else (Err (output_error (io_error (x_tick x))), append_line TornLine x).
Fixpoint write_events (events : list AuditRecord) (row_count : Z) : X Z :=
  match events with
  | [] => mret row_count
  | event :: rest =>
      _ ← write_json_line (EventLine event);
      row_count ← xlift (ok_or (cli_local "OUTPUT_FAILED" "audit export row count overflow") (u64_checked_add row_count 1));
      write_events rest row_count
  end.
Definition with_cursor (q : AuditQuery) (snapshot before : Z) : AuditQuery :=
  mkAuditQuery (q_request_id q) (q_session_id q) (q_action_id q) (q_credential_id q) (q_outcome q)
    (q_since_ms q) (q_until_ms q) (Some snapshot) (Some before) (q_limit q).
(** The loop over the pages; [None] when the fuel ran out. *)
Fixpoint export_pages (fuel : nat) (q : AuditQuery) (snapshot : Z) (page : AuditPage) (row_count : Z) : X (option Z) :=
  match fuel with
  | O => mret None
  | S fuel =>
      row_count ← write_events (pg_events page) row_count;
      match pg_next_before_sequence page with
      | None => mret (Some row_count)
      | Some before =>
          let q := with_cursor q snapshot before in
          page ← fetch_page q;
          export_pages fuel q snapshot page row_count
      end
  end.
Record ExportReceipt := mkExportReceipt { er_output_path : string; er_snapshot_max_sequence : Z; er_row_count : Z }.
Definition export_header (q : AuditQuery) (created_at_ms snapshot : Z) : ExportHeader :=
  mkExportHeader "rekey.audit.export.v2" AUDIT_SCHEMA_V2 created_at_ms snapshot
    (id_text <$> q_request_id q) (id_text <$> q_session_id q) (id_text <$> q_action_id q)
    (id_text <$> q_credential_id q) (q_outcome q) (q_since_ms q) (q_until_ms q).
Definition EXPORT_COMPLETE : string := "rekey.audit.export.complete.v2".
Definition print_receipt : X unit := fun x =>
  (if io_works (x_tick x) then Ok tt
   else Err (cli_local "OUTPUT_FAILED" ("cannot write output: " +:+ io_error (x_tick x))),
   mkExport (x_file x) (io_works (x_tick x)) (S (x_tick x))).
(** The trailer, and then the file is flushed, synced and found in its place. *)
Definition close_export (output_text : string) (snapshot row_count : Z) : X ExportReceipt :=
  _ ← write_json_line (TrailerLine EXPORT_COMPLETE row_count);
  _ ← io;
  _ ← io;
  _ ← io;
  _ ← print_receipt;
  mret (mkExportReceipt output_text snapshot row_count).
(** [output] is the path, when it is text. *)
Definition audit_export (output : option string) (q : AuditQuery) : X (option ExportReceipt) :=
  _ ← xlift (map_err (fun e => cli_local "USAGE" (domain_text e)) (query_validate q));
  first ← fetch_page q;
  let snapshot := pg_snapshot_max_sequence first in
  created_at_ms ← cli_now_ms;
  output_text ← xlift (ok_or (cli_local "USAGE" "audit output path must be valid UTF-8") output);
  _ ← create_export_file;
  _ ← write_json_line (HeaderLine (export_header q created_at_ms snapshot));
  rows ← export_pages (S (Z.to_nat snapshot)) q snapshot first 0;
  match rows with
  | None => mret None
  | Some row_count => receipt ← close_export output_text snapshot row_count; mret (Some receipt)
  end.

End WithValues.
