(* ===== verification/AuditPages.v ===== *)
(** * AuditPages: a snapshot of the audit, page by page

    A page holds exactly the matching records between its cursors; while the log grows
    a snapshot stays what it was, and pruning expires it. So an export that ends holds
    the whole snapshot, once and in order. *)

From stdpp Require Import relations.
From S2P Require Import Prelude Errors Domain Codec Json Parameters SessionState Approval AuditRecords VaultModel Frame.
From S2P Require Import VaultStore Usage VaultWorker AuditLog VaultRules UsageTheorems VaultEvolution.
From S2P Require Import AuditExport UsageSafety VaultDemo UsageProperties.

Section WithLibraries.
Context {H : Host} {HL : HostLaws} {CC : Codecs} {CL : CodecLaws} {SJ : Serde} {VW : ValueWriter}.
Context {RC : RecordCodec} {RL : RecordCodecLaws} {AE : Aead} {AL : AeadLaws}.

(** ** One page *)

(** The matching records of some rows, and those of the log up to a key, descending. *)
Definition matching (q : AuditQuery) (rows : list RawAuditRow) : list AuditRecord :=
  omap (fun r => match record_from_raw r with
                 | Ok e => if query_matches q e then Some e else None
                 | Err _ => None
                 end) rows.
Definition rows_to (upto : Z) (d : Database) : list RawAuditRow :=
  rev (retain (fun r => raw_sequence r <=? upto) (audit_events d)).
Definition descending (rows : list RawAuditRow) : Prop := StronglySorted (fun a b => raw_sequence b < raw_sequence a) rows.

(** What remains behind a cursor. *)
Definition behind (next : option Z) (rows : list RawAuditRow) : list RawAuditRow :=
  match next with
  | None => []
  | Some n => retain (fun r => raw_sequence r <=? n - 1) rows
  end.
Lemma retain_all {A} (p : A -> bool) l : (forall x, x ∈ l -> p x = true) -> retain p l = l.
Proof.
  unfold retain. induction l as [|x l IH]; intros Hp; cbn; [done|]. rewrite (Hp x) by left. rewrite IH; [done|].
  intros y Hy. apply Hp. by right.
Qed.
Lemma retain_below n r rest :
  descending (r :: rest) -> n <= raw_sequence r -> retain (fun x => raw_sequence x <=? n - 1) (r :: rest)
  = retain (fun x => raw_sequence x <=? n - 1) rest.
Proof. intros _ Hn. unfold retain. cbn. destruct (Z.leb_spec (raw_sequence r) (n - 1)); [lia|done]. Qed.
Lemma behind_head r rest : descending (r :: rest) -> behind (Some (raw_sequence r)) (r :: rest) = rest.
Proof.
  intros Hd. inversion Hd as [|? ? Hs Hf]; subst. unfold behind. rewrite (retain_below _ _ _ Hd) by lia. apply retain_all.
  intros x Hx. rewrite Forall_forall in Hf. specialize (Hf _ Hx). apply Z.leb_le. lia.
Qed.
Lemma matching_cons q r rest e :
  record_from_raw r = Ok e -> matching q (r :: rest) = (if query_matches q e then [e] else []) ++ matching q rest.
Proof. intros Er. unfold matching. cbn. rewrite Er. by destruct (query_matches q e). Qed.

(** One turn of the loop: the page is full, or it ends here, or the loop goes on. *)
Lemma page_loop_step q count r rest events bytes found next :
  page_loop q (S count) (r :: rest) events bytes = Ok (found, next) ->
  exists e, record_from_raw r = Ok e /\
    let events' := events ++ (if query_matches q e then [e] else []) in
    (found = events /\ next = Some (sequence e + 1)) \/
    (found = events' /\ next = if bool_decide (rest = []) then None else Some (sequence e)) \/
    (exists c bytes', count = S c /\ page_loop q (S c) rest events' bytes' = Ok (found, next)).
Proof.
  cbn [page_loop]. destruct (record_from_raw r) as [e|]; cbn [mbind result_bind]; [|done]. intros Hp. exists e. split; [done|].
  assert (Hm : forall b : bool, (if negb b then Some (sequence e) else None) = if b then None else Some (sequence e)) by (by intros []).
  destruct (query_matches q e).
  - destruct (as_integrity _) as [record|]; cbn [mbind result_bind] in Hp; [|done]. destruct (RESPONSE_BODY_MAX_BYTES <? _).
    + destruct (bool_decide _); [done|]. left. by injection Hp as <- <-.
    + rewrite Hm in Hp. right. destruct (_ =? q_limit q); [left; by injection Hp as <- <-|].
      destruct count as [|c]; [left; by injection Hp as <- <-|]. right. eexists c, _. split; [done|exact Hp].
  - rewrite Hm in Hp. right. rewrite app_nil_r. destruct count as [|c]; [left; by injection Hp as <- <-|]. right. eexists c, _. split; [done|exact Hp].
Qed.
(** A loop that stopped at a row leaves what is behind it. *)
Lemma stop_behind (n : nat) r rest k :
  descending (r :: rest) -> k = raw_sequence r ->
  let next := if bool_decide (take (S n) rest = []) then None else Some k in
  behind next (r :: rest) = rest /\ (forall m, next = Some m -> m - 1 <= raw_sequence r).
Proof.
  intros Hd -> next. subst next. case_bool_decide as Ht.
  - destruct rest; [|done]. done.
  - split; [by apply behind_head|]. intros m [= <-]. lia.
Qed.
(** What was found, and what is behind the cursor, are all the matches there are. *)
Definition complete (q : AuditQuery) (events : list AuditRecord) (rows : list RawAuditRow) (found : list AuditRecord) (next : option Z) : Prop :=
  events ++ matching q rows = found ++ matching q (behind next rows) /\
  (forall n, next = Some n -> exists r, r ∈ rows /\ n - 1 <= raw_sequence r).
Lemma turn_ends q n r rest events e found next :
  descending (r :: rest) -> record_from_raw r = Ok e ->
  (found = events /\ next = Some (sequence e + 1)) \/
  (found = events ++ (if query_matches q e then [e] else []) /\
   next = if bool_decide (take (S n) rest = []) then None else Some (sequence e)) ->
  complete q events (r :: rest) found next.
Proof.
  intros Hd Er [[-> ->]|[-> En]]; destruct (record_fields _ _ Er) as (_ & Es & _).
  - split; [|intros n' [= <-]; exists r; split; [left|lia]]. unfold behind. rewrite retain_all; [done|].
    inversion Hd as [|? ? _ Hf]; subst. rewrite Forall_forall in Hf. intros x [->|Hx]%elem_of_cons; apply Z.leb_le; [lia|].
    specialize (Hf _ Hx). lia.
  - destruct (stop_behind n _ _ _ Hd Es) as [Eb Hb]. rewrite <- En in Eb, Hb. split.
    + by rewrite Eb, (matching_cons _ _ _ _ Er), app_assoc.
    + intros m Hm. exists r. split; [left|by apply Hb].
Qed.
Lemma turn_goes q r rest events e found next :
  descending (r :: rest) -> record_from_raw r = Ok e ->
  complete q (events ++ (if query_matches q e then [e] else [])) rest found next -> complete q events (r :: rest) found next.
Proof.
  intros Hd Er [Hc Hb]. rewrite <- app_assoc, <- (matching_cons _ _ _ _ Er) in Hc. split.
  - destruct next as [n|]; [|done]. destruct (Hb n eq_refl) as (x & Hx & Hn). inversion Hd as [|? ? _ Hf]; subst.
    rewrite Forall_forall in Hf. specialize (Hf _ Hx). unfold behind in *. rewrite (retain_below _ _ _ Hd); [done|lia].
  - intros n Hn. destruct (Hb n Hn) as (x & Hx & ?). exists x. by split; [right|].
Qed.
Lemma page_loop_complete q count all events bytes found next :
  descending all -> page_loop q (S count) (take (S (S count)) all) events bytes = Ok (found, next) ->
  complete q events all found next.
Proof.
  revert all events bytes. induction count as [|count IH]; intros [|r rest] events bytes Hd Hp;
    try (cbn in Hp; simplify_eq; split; [by rewrite !app_nil_r|done]);
    cbn [take] in Hp; apply page_loop_step in Hp as (e & Er & [Hp|[Hp|(c & bytes' & Hc & Hp)]]); try done.
  - eapply (turn_ends _ 0); eauto.
  - eapply (turn_ends _ 0); eauto.
  - eapply (turn_ends _ (S count)); eauto.
  - eapply (turn_ends _ (S count)); eauto.
  - injection Hc as ->. eapply turn_goes; [done..|]. eapply IH; [by inversion Hd|exact Hp].
Qed.

Definition start_of (q : AuditQuery) (snapshot : Z) : Z :=
  match q_before_sequence q with Some before => before - 1 | None => snapshot end.
Lemma rev_sorted l :
  StronglySorted (fun a b => raw_sequence a < raw_sequence b) l -> descending (rev l).
Proof.
  unfold descending. induction 1 as [|x l Hs IH Hf]; cbn; [constructor|]. revert IH.
  assert (Hx : Forall (fun y => raw_sequence x < raw_sequence y) (rev l)) by (by rewrite <- Permutation_rev).
  revert Hx. generalize (rev l). clear. induction l as [|y l IH]; intros Hx Hs; cbn; [by repeat constructor|].
  inversion Hs as [|? ? Hs' Hf]; subst. inversion Hx; subst. constructor; [by apply IH|]. apply Forall_app. split; [done|by constructor].
Qed.
Lemma rows_to_descending upto d : log_ok d -> descending (rows_to upto d).
Proof. intros Hl. apply rev_sorted, retain_sorted, Hl. Qed.
Lemma retain_rev {A} (p : A -> bool) l : retain p (rev l) = rev (retain p l).
Proof.
  unfold retain. induction l as [|x l IH]; cbn; [done|]. rewrite List.filter_app, IH. cbn. destruct (p x); cbn; [done|by rewrite app_nil_r].
Qed.
Lemma rows_to_to upto upto' d : upto' <= upto -> retain (fun r => raw_sequence r <=? upto') (rows_to upto d) = rows_to upto' d.
Proof.
  intros Hle. unfold rows_to. rewrite retain_rev, retain_retain. f_equal. apply retain_ext. intros x _.
  destruct (Z.leb_spec (raw_sequence x) upto'), (Z.leb_spec (raw_sequence x) upto); (done || lia).
Qed.
Lemma elem_of_rows_to r upto d : r ∈ rows_to upto d -> raw_sequence r <= upto /\ r ∈ audit_events d.
Proof.
  unfold rows_to. rewrite list_elem_of_In, <- in_rev, <- list_elem_of_In. intros [Hr Hle]%elem_of_retain. split; [by apply Z.leb_le|done].
Qed.
Lemma page_of_complete q snapshot d p :
  log_ok d -> start_of q snapshot <= i64_max -> page_of q snapshot d = Ok p ->
  pg_snapshot_max_sequence p = snapshot /\ page_validate_for p q = Ok tt /\
  matching q (rows_to (start_of q snapshot) d)
    = pg_events p ++ matching q (match pg_next_before_sequence p with None => [] | Some n => rows_to (n - 1) d end) /\
  (forall n, pg_next_before_sequence p = Some n -> n - 1 <= start_of q snapshot).
Proof.
  intros Hl Hs Hp. unfold page_of in Hp. fold (start_of q snapshot) in Hp.
  destruct (as_integrity (page_to_vec _)) as [empty|]; cbn [mbind result_bind] in Hp; [|done].
  destruct (page_loop _ _ _ _ _) as [[found next]|] eqn:El; cbn [mbind result_bind fst snd] in Hp; [|done].
  destruct (page_validate_for _ q) as [[]|] eqn:Ev; cbn [integrity map_err mbind result_bind] in Hp; [|done].
  injection Hp as <-. cbn [pg_snapshot_max_sequence pg_events pg_next_before_sequence].
  assert (En : exists c, Z.to_nat AUDIT_SCAN_MAX_ROWS = S c /\ Z.to_nat (AUDIT_SCAN_MAX_ROWS + 1) = S (S c)).
  { exists (Z.to_nat 999). unfold AUDIT_SCAN_MAX_ROWS. lia. }
  destruct En as (c & E1 & E2). unfold scan_rows in El. rewrite E1, E2, u64_as_i64_small in El by done.
  fold (rows_to (start_of q snapshot) d) in El.
  apply page_loop_complete in El as [Hc Hb]; [|by apply rows_to_descending]. cbn [app] in Hc.
  assert (Hb' : forall n, next = Some n -> n - 1 <= start_of q snapshot).
  { intros n Hn. destruct (Hb n Hn) as (r & Hr & Hle). apply elem_of_rows_to in Hr as [Hr _]. lia. }
  split_and!; [done|done| |done]. rewrite Hc. f_equal. destruct next as [n|]; [|done]. cbn [behind]. by rewrite rows_to_to by auto.
Qed.

(** ** Growth and expiry *)

Definition expired (upto : Z) (d : Database) : Prop :=
  exists a, a ∈ audit_events d /\ is_prune_marker a = true /\ upto < raw_sequence a.
Lemma log_step_epoch upto d d' :
  log_step d d' -> log_ok d -> upto <= audit_sequence d ->
  audit_sequence d <= audit_sequence d' /\ (rows_to upto d' = rows_to upto d \/ expired upto d') /\ (expired upto d -> expired upto d').
Proof.
  intros [d1 d2 E1 E2|e d1 d2 Ha|before marker doomed d1 d2 Hm [_ _ Hp]] Hl Hu.
  - unfold rows_to, expired. rewrite E1, E2. split_and!; [lia|by left|done].
  - apply add_event_row in Ha as (a & Ea & En & Es & _ & _). unfold rows_to, expired. rewrite Ea, En. split_and!; [lia| |].
    + left. rewrite retain_app. unfold retain at 2. cbn. destruct (Z.leb_spec (raw_sequence a) upto); [lia|]. by rewrite app_nil_r.
    + intros (b & Hb & ?). exists b. rewrite elem_of_app. tauto.
  - apply add_event_row in Hp as (a & Ea & En & Es & Et & _). cbn in Ea, En, Es.
    assert (He : expired upto d2).
    { exists a. rewrite Ea, elem_of_app, list_elem_of_singleton. split_and!; [by right| |lia].
      unfold is_prune_marker, str_eqb. by rewrite Et, Hm. }
    split_and!; [lia|by right|done].
Qed.
Lemma log_steps_epoch upto d d' :
  rtc log_step d d' -> log_ok d -> upto <= audit_sequence d -> rows_to upto d' = rows_to upto d \/ expired upto d'.
Proof.
  intros Hr Hl Hu. assert (Hx : (rows_to upto d' = rows_to upto d \/ expired upto d') /\ (expired upto d -> expired upto d')); [|tauto].
  induction Hr as [d|d d1 d' Hs _ IH]; [split; [by left|done]|].
  destruct (log_step_epoch upto _ _ Hs Hl Hu) as (Hn & Ho & He). destruct IH as [IH1 IH2]; [by eapply log_step_ok|lia|].
  split; [|by auto]. destruct Ho as [Ho|Ho]; [|right; auto]. destruct IH1 as [IH1|]; [left; congruence|by right].
Qed.

(** ** A query *)

Lemma max_sequence_spec rows :
  match max_sequence rows with
  | None => rows = []
  | Some m => (exists r, r ∈ rows /\ raw_sequence r = m) /\ forall r, r ∈ rows -> raw_sequence r <= m
  end.
Proof.
  unfold max_sequence.
  assert (Hf : forall l acc, match fold_left (fun acc r => Some (match acc with None => raw_sequence r | Some m => Z.max m (raw_sequence r) end)) l acc with
    | None => acc = None /\ l = []
    | Some m => (acc = Some m \/ exists r, r ∈ l /\ raw_sequence r = m) /\ (forall r, r ∈ l -> raw_sequence r <= m) /\
                (forall a, acc = Some a -> a <= m) end).
  { induction l as [|x l IH]; intros acc; cbn.
    - destruct acc; split_and!; try done; [by left|by intros r ?%not_elem_of_nil|intros a [= ->]; lia].
    - specialize (IH (Some (match acc with None => raw_sequence x | Some m => Z.max m (raw_sequence x) end))).
      destruct (fold_left _ _ _) as [m|]; [|by destruct IH]. destruct IH as (Hm & Hl & Ha). specialize (Ha _ eq_refl). split_and!.
      + destruct Hm as [[= Hm]|(r & Hr & Hm)]; [|right; exists r; by split; [right|]].
        destruct acc as [a|]; [|right; exists x; by split; [left|]]. destruct (Z.max_spec a (raw_sequence x)) as [[_ E]|[_ E]];
          rewrite E in Hm; [right; exists x; by split; [left|]|left; by subst].
      + intros r [->|Hr]%elem_of_cons; [destruct acc; lia|by apply Hl].
      + intros a ->. lia. }
  specialize (Hf rows None). destruct (fold_left _ rows None) as [m|]; [|tauto]. destruct Hf as ([Hm|Hm] & Hl & _); [done|by split].
Qed.
(** What a query that returned has read. *)
Lemma audit_query_ok q s p s' :
  audit_query q s = (Ok p, s') -> log_ok (v_db s) ->
  exists snapshot, page_of q snapshot (v_db s) = Ok p /\ query_validate q = Ok tt /\
    match q_snapshot_max_sequence q with
    | Some n => snapshot = n /\ ~ expired n (v_db s)
    | None => snapshot <= audit_sequence (v_db s) /\ forall r, r ∈ audit_events (v_db s) -> raw_sequence r <= snapshot
    end.
Proof.
  intros Hq Hl. assert (Hv : vwp (audit_query q) (fun p _ => exists snapshot, page_of q snapshot (v_db s) = Ok p /\ query_validate q = Ok tt /\
    match q_snapshot_max_sequence q with
    | Some n => snapshot = n /\ ~ expired n (v_db s)
    | None => snapshot <= audit_sequence (v_db s) /\ forall r, r ∈ audit_events (v_db s) -> raw_sequence r <= snapshot
    end) (fun _ _ => True) s); [|unfold vwp in Hv; by rewrite Hq in Hv].
  unfold audit_query. apply vwp_bind, vwp_lift; [intros [] Hval|done].
  destruct (query_validate q) as [[]|]; [|done]. clear Hval.
  apply vwp_bind, vwp_select_db; [done|]. apply vwp_bind, vwp_lift; [intros latest Hlat|done].
  apply vwp_bind, vwp_reject; intros Hex; [done|].
  pose proof (max_sequence_spec (retain is_prune_marker (audit_events (v_db s)))) as Hmax.
  assert (Hno : forall n, q_snapshot_max_sequence q = Some n -> ~ expired n (v_db s)).
  { intros n Hn (a & Ha & Hm & Hlt). rewrite Hn in Hex.
    assert (Hin : a ∈ retain is_prune_marker (audit_events (v_db s))) by (by apply elem_of_retain).
    destruct (max_sequence _) as [m|]; [|rewrite Hmax in Hin; by apply not_elem_of_nil in Hin].
    destruct Hmax as [_ Hmax]. specialize (Hmax _ Hin). cbn in Hlat. unfold positive_u64 in Hlat. destruct (0 <? m); [|done].
    cbn in Hlat. injection Hlat as <-. cbn in Hex. apply Z.ltb_ge in Hex. lia. }
  apply vwp_bind. destruct (q_snapshot_max_sequence q) as [n|].
  - apply vwp_ret, vwp_bind, vwp_select_db; [done|]. cbn [v_db v_ticked]. apply vwp_lift; [|done]. intros p' Hp. exists n. split_and!; try done. by apply Hno.
  - apply vwp_bind, vwp_select_db; [done|]. cbn [v_db v_ticked]. apply vwp_lift; [intros value Hval|done].
    apply vwp_bind, vwp_select_db; [done|]. cbn [v_db v_ticked]. apply vwp_lift; [|done]. intros p' Hp. exists value. split; [done|]. split; [done|].
    pose proof (max_sequence_spec (audit_events (v_db s))) as Hm. destruct (max_sequence (audit_events (v_db s))) as [m|]; [|done].
    cbn in Hval. unfold positive_u64 in Hval. destruct (0 <? m); [|done]. injection Hval as <-. destruct Hm as [(r & Hr & <-) Hm].
    split; [|done]. apply (lo_range _ Hl _ Hr).
Qed.

(** ** The export *)

Definition xwp `{Console} {A} (m : X A) (Q : A -> Export -> Prop) (E : Export -> Prop) (x : Export) : Prop :=
  match m x with
  | (Ok a, x') => Q a x'
  | (Err _, x') => E x'
  end.
Lemma page_cursor p q n :
  page_validate_for p q = Ok tt -> pg_next_before_sequence p = Some n ->
  0 < n <= pg_snapshot_max_sequence p /\ (forall b, q_before_sequence q = Some b -> n < b).
Proof.
  unfold page_validate_for. intros Hv Hn. rewrite Hn in Hv. destruct (query_validate q); cbn [mbind result_bind] in Hv; [|done].
  repeat (match type of Hv with (if ?b then _ else _) = _ => destruct b; [done|] end).
  destruct (records_validate _ _ _ _); cbn [mbind result_bind] in Hv; [|done]. destruct (cursor_valid p q n) eqn:Ec; [|done].
  unfold cursor_valid in Ec. reflect_bools. split; [lia|]. intros b Hb. rewrite Hb in *. cbn in *. by reflect_bools.
Qed.

Section WithConsole.
Context {CO : Console} (vaults : nat -> Vault).
(** The vault at the n-th call: its log moves on, and the connection delivers what it
    answers. *)
Hypothesis vaults_log : log_ok (v_db (vaults 0)).
Hypothesis vaults_step : forall n, rtc log_step (v_db (vaults n)) (v_db (vaults (S n))).
Hypothesis vaults_answer : forall n q a p,
  admin_call n q = Ok a -> an_page a = Some p -> exists s', audit_query q (vaults n) = (Ok p, s').

Lemma vaults_steps m n : (m <= n)%nat -> rtc log_step (v_db (vaults m)) (v_db (vaults n)).
Proof. induction 1 as [|n _ IH]; [reflexivity|]. etrans; [exact IH|apply vaults_step]. Qed.
Lemma vaults_ok n : log_ok (v_db (vaults n)).
Proof. eapply log_steps_ok; [apply (vaults_steps 0); lia|done]. Qed.

Lemma xwp_mono {A} (m : X A) (Q Q' : A -> Export -> Prop) (E E' : Export -> Prop) x :
  xwp m Q E x -> (forall a x', Q a x' -> Q' a x') -> (forall x', E x' -> E' x') -> xwp m Q' E' x.
Proof. unfold xwp. destruct (m x) as [[a|e] x']; auto. Qed.
Lemma xwp_bind {A B} (m : X A) (f : A -> X B) Q E x :
  xwp m (fun a x' => xwp (f a) Q E x') E x -> xwp (a ← m; f a) Q E x.
Proof. unfold xwp, mbind, X_bind. by destruct (m x) as [[a|e] x']. Qed.
Lemma xwp_ret {A} (a : A) (Q : A -> Export -> Prop) E x : Q a x -> xwp (mret a) Q E x.
Proof. done. Qed.
Lemma xwp_lift {A} (r : result CliError A) (Q : A -> Export -> Prop) (E : Export -> Prop) x :
  (forall a, r = Ok a -> Q a x) -> E x -> xwp (xlift r) Q E x.
Proof. unfold xwp, xlift. destruct r; auto. Qed.
Lemma xwp_now (Q : Z -> Export -> Prop) (E : Export -> Prop) x :
  E (x_ticked x) -> (forall n, Q n (x_ticked x)) -> xwp cli_now_ms Q E x.
Proof. unfold xwp, cli_now_ms. destruct (system_clock _); [destruct (_ <=? _)|]; auto. Qed.
Lemma xwp_io (Q : unit -> Export -> Prop) (E : Export -> Prop) x : E (x_ticked x) -> Q tt (x_ticked x) -> xwp io Q E x.
Proof. unfold xwp, io. by destruct (io_works _). Qed.

Lemma fetch_page_wp q (Q : AuditPage -> Export -> Prop) (E : Export -> Prop) x :
  E (x_ticked x) ->
  (forall p s', page_validate_for p q = Ok tt -> audit_query q (vaults (x_tick x)) = (Ok p, s') -> Q p (x_ticked x)) ->
  xwp (fetch_page q) Q E x.
Proof.
  intros HE HQ. unfold fetch_page. apply xwp_bind. unfold xwp at 1, call_page.
  destruct (admin_call (x_tick x) q) as [a|] eqn:Ea; [|done].
  apply xwp_bind, xwp_lift; [intros b _|done]. apply xwp_bind. destruct b; [apply xwp_ret|done].
  apply xwp_bind, xwp_lift; [intros p Hp|done]. apply xwp_bind, xwp_lift; [intros [] Hv|done]. apply xwp_ret.
  destruct (an_page a) as [p'|] eqn:Ep; [|done]. cbn in Hp. injection Hp as <-.
  destruct (page_validate_for p' q) as [[]|] eqn:Ev; [|done]. destruct (vaults_answer _ _ _ _ Ea Ep) as [s' Hs']. by eapply HQ.
Qed.

(** A file without a trailer is not complete. *)
Definition open_lines (lines : list ExportLine) : Prop := forall t n, TrailerLine t n ∉ lines.
Definition unfinished (x : Export) : Prop := forall lines, x_file x = Some lines -> open_lines lines.
Lemma open_snoc lines l : open_lines lines -> (forall t n, l <> TrailerLine t n) -> open_lines (lines ++ [l]).
Proof. intros Ho Hl t n [?|E%list_elem_of_singleton]%elem_of_app; [by eapply Ho|by eapply Hl]. Qed.
Lemma write_line_wp l lines (Q : unit -> Export -> Prop) (E : Export -> Prop) x :
  x_file x = Some lines -> open_lines lines -> (forall x', unfinished x' -> E x') ->
  Q tt (append_line l x) -> xwp (write_json_line l) Q E x.
Proof.
  intros Hf Ho HE HQ. unfold xwp, write_json_line. destruct (io_works _); [done|]. apply HE. intros lines' E'.
  cbn in E'. rewrite Hf in E'. injection E' as <-. by apply open_snoc.
Qed.
Lemma write_events_wp events c lines x :
  x_file x = Some lines -> open_lines lines ->
  xwp (write_events events c) (fun c' x' => x_file x' = Some (lines ++ map EventLine events) /\ c' = c + llen events
      /\ open_lines (lines ++ map EventLine events) /\ (x_tick x <= x_tick x')%nat) unfinished x.
Proof.
  revert c lines x. induction events as [|e events IH]; intros c lines x Hf Ho; cbn [write_events].
  - apply xwp_ret. cbn. rewrite app_nil_r. unfold llen. cbn. split_and!; (done || lia).
  - apply xwp_bind. eapply write_line_wp; [exact Hf|exact Ho|done|]. apply xwp_bind, xwp_lift.
    + intros c1 Hc. unfold u64_checked_add in Hc. destruct (_ <=? _); [|done]. cbn in Hc. injection Hc as <-.
      eapply xwp_mono; [apply (IH _ (lines ++ [EventLine e]))| |done]; [cbn; by rewrite Hf|by apply open_snoc|].
      cbn. intros c' x' (E1 & -> & E3 & E4). rewrite <- app_assoc in E1, E3. split_and!; [done|unfold llen; cbn; lia|done|lia].
    + intros lines' E'. cbn in E'. rewrite Hf in E'. injection E' as <-. by apply open_snoc.
Qed.

(** The pages from here on hold what is left of the snapshot. *)
Lemma export_pages_wp fuel q0 q snapshot n0 page c lines x :
  let d := v_db (vaults n0) in
  let all := pg_events page ++ matching q0 (match pg_next_before_sequence page with None => [] | Some n => rows_to (n - 1) d end) in
  (n0 <= x_tick x)%nat -> snapshot <= audit_sequence d -> (forall s b, with_cursor q s b = with_cursor q0 s b) ->
  (forall n, pg_next_before_sequence page = Some n -> 0 < n < Z.of_nat fuel /\ n - 1 <= snapshot) -> (0 < fuel)%nat ->
  x_file x = Some lines -> open_lines lines ->
  xwp (export_pages fuel q snapshot page c)
    (fun r x' => r = Some (c + llen all) /\ x_file x' = Some (lines ++ map EventLine all) /\ open_lines (lines ++ map EventLine all))
    unfinished x.
Proof.
  intros d all. subst all. revert q page c lines x. induction fuel as [|fuel IH]; intros q page c lines x Ht Hs Hq Hn Hfu Hf Ho; [lia|].
  cbn [export_pages]. apply xwp_bind. eapply xwp_mono; [by apply write_events_wp| |done].
  cbn. intros c1 x1 (F1 & -> & O1 & T1). destruct (pg_next_before_sequence page) as [b|].
  2: { apply xwp_ret. by rewrite app_nil_r. }
  destruct (Hn b eq_refl) as [Hb Hb']. apply xwp_bind. apply fetch_page_wp.
  { intros l Hl. cbn in Hl. rewrite F1 in Hl. by injection Hl as <-. }
  intros p2 s' Hv Ha. destruct (audit_query_ok _ _ _ _ Ha (vaults_ok _)) as (sn & Hp & _ & Hsn). cbn in Hsn. destruct Hsn as [-> Hne].
  set (dt := v_db (vaults (x_tick x1))) in *.
  assert (Er : rows_to snapshot dt = rows_to snapshot d).
  { destruct (log_steps_epoch snapshot d dt) as [|]; [apply vaults_steps; lia|apply vaults_ok|done|done|done]. }
  assert (Eto : forall u, u <= snapshot -> rows_to u dt = rows_to u d).
  { intros u Hu. by rewrite <- (rows_to_to snapshot u dt), <- (rows_to_to snapshot u d), Er. }
  pose proof (lo_bound _ (vaults_ok n0)) as Hbnd. fold d in Hbnd.
  assert (Hst : start_of (with_cursor q snapshot b) snapshot <= i64_max) by (unfold start_of; cbn [with_cursor q_before_sequence]; lia).
  destruct (page_of_complete _ _ _ _ (vaults_ok (x_tick x1)) Hst Hp) as (Es & _ & Hm & Hle). cbn [start_of with_cursor q_before_sequence] in Hm, Hle.
  fold dt in Hm. rewrite (Eto (b - 1)) in Hm by lia. rewrite Hq in Hm.
  change (matching (with_cursor q0 snapshot b)) with (matching q0) in Hm.
  assert (Hn2 : forall n, pg_next_before_sequence p2 = Some n -> 0 < n < b).
  { intros n E2. destruct (page_cursor _ _ _ Hv E2) as [H1 H2]. specialize (H2 b eq_refl). lia. }
  eapply xwp_mono; [eapply (IH (with_cursor q snapshot b) p2 _ (lines ++ map EventLine (pg_events page)))| |done].
  - cbn. lia.
  - done.
  - intros s1 b1. unfold with_cursor. cbn. specialize (Hq s1 b1). unfold with_cursor in Hq. exact Hq.
  - intros n E2. specialize (Hn2 n E2). lia.
  - lia.
  - exact F1.
  - exact O1.
  - assert (Hall : pg_events p2 ++ matching q0 (match pg_next_before_sequence p2 with None => [] | Some n => rows_to (n - 1) d end)
      = matching q0 (rows_to (b - 1) d)).
    { rewrite Hm. f_equal. destruct (pg_next_before_sequence p2) as [n|] eqn:E2; [|done]. rewrite Eto; [done|]. specialize (Hn2 n eq_refl). lia. }
    cbn. intros r x' (-> & E2 & E3). fold d in E2, E3 |- *. rewrite Hall in *. rewrite map_app, app_assoc. split_and!; [|done|done].
    f_equal. unfold llen. rewrite length_app. lia.
Qed.

(** The lines of a complete export. *)
Definition exported (q : AuditQuery) (snapshot created_at_ms : Z) (rows : list AuditRecord) : list ExportLine :=
  HeaderLine (export_header q created_at_ms snapshot) :: map EventLine rows ++ [TrailerLine EXPORT_COMPLETE (llen rows)].
Lemma close_export_wp text snapshot c lines (Q : ExportReceipt -> Export -> Prop) (E : Export -> Prop) x :
  x_file x = Some lines -> open_lines lines ->
  (forall x', unfinished x' \/ x_file x' = Some (lines ++ [TrailerLine EXPORT_COMPLETE c]) -> E x') ->
  (forall x', x_file x' = Some (lines ++ [TrailerLine EXPORT_COMPLETE c]) -> Q (mkExportReceipt text snapshot c) x') ->
  xwp (close_export text snapshot c) Q E x.
Proof.
  intros Hf Ho HE HQ. unfold close_export. apply xwp_bind. eapply write_line_wp; [exact Hf|exact Ho|by intros; apply HE; left|].
  set (x1 := append_line _ x). assert (F1 : x_file x1 = Some (lines ++ [TrailerLine EXPORT_COMPLETE c])) by (cbn; by rewrite Hf).
  clearbody x1. do 3 (apply xwp_bind, xwp_io; [apply HE; by right|]).
  apply xwp_bind. unfold xwp at 1, print_receipt. destruct (io_works _); [|apply HE; by right]. apply xwp_ret, HQ. exact F1.
Qed.
Lemma rows_to_all snapshot d :
  (forall r, r ∈ audit_events d -> raw_sequence r <= snapshot) -> rows_to snapshot d = rev (audit_events d).
Proof. intros Hs. unfold rows_to. rewrite retain_all; [done|]. intros r Hr. by apply Z.leb_le, Hs. Qed.

(** C24: an export that ends has written, between its header and its trailer, every
    matching record that the audit held at the first call, newest first, and counted
    them; and no other file carries a trailer, whatever is written to the audit or
    pruned from it meanwhile, and wherever the export fails. *)
Theorem audit_export_complete output q x :
  q_snapshot_max_sequence q = None -> x_file x = None ->
  let rows := matching q (rev (audit_events (v_db (vaults (x_tick x))))) in
  let '(r, x') := audit_export output q x in
  (forall lines t n, x_file x' = Some lines -> TrailerLine t n ∈ lines ->
     exists snapshot created_at_ms, lines = exported q snapshot created_at_ms rows) /\
  (forall a, r = Ok a -> exists receipt snapshot created_at_ms, a = Some receipt /\
     x_file x' = Some (exported q snapshot created_at_ms rows) /\ er_row_count receipt = llen rows).
Proof.
  intros Hq Hx rows. set (complete_file := fun x' => exists snapshot created_at_ms, x_file x' = Some (exported q snapshot created_at_ms rows)).
  assert (Hw : xwp (audit_export output q)
    (fun a x' => exists receipt, a = Some receipt /\ complete_file x' /\ er_row_count receipt = llen rows)
    (fun x' => unfinished x' \/ complete_file x') x).
  { assert (Hnone : forall x', x_file x' = None -> unfinished x') by (intros x' E l; by rewrite E).
    unfold audit_export. apply xwp_bind, xwp_lift; [intros [] Hval|by left; apply Hnone].
    destruct (query_validate q) as [[]|] eqn:Hqv; [|done]. clear Hval.
    apply xwp_bind, fetch_page_wp; [by left; apply Hnone|]. intros p s' Hv Ha. cbv zeta.
    destruct (audit_query_ok _ _ _ _ Ha (vaults_ok _)) as (snapshot & Hp & _ & Hsn). rewrite Hq in Hsn. destruct Hsn as [Hs1 Hs2].
    assert (Hb : q_before_sequence q = None).
    { unfold query_validate in Hqv. rewrite Hq in Hqv. destruct (q_before_sequence q); [|done]. exfalso. clear -Hqv.
      repeat (match type of Hqv with (if ?b then _ else _) = _ => destruct b eqn:?; [done|] end). done. }
    set (d := v_db (vaults (x_tick x))) in *. pose proof (lo_bound _ (vaults_ok (x_tick x))) as Hbnd. fold d in Hbnd.
    assert (Hst : start_of q snapshot = snapshot) by (unfold start_of; by rewrite Hb).
    destruct (page_of_complete _ _ _ _ (vaults_ok _) ltac:(rewrite Hst; lia) Hp) as (Es & _ & Hm & Hle). fold d in Hm.
    rewrite Hst in Hm, Hle. rewrite rows_to_all in Hm by done. rewrite Es.
    apply xwp_bind, xwp_now; [by left; apply Hnone|]. intros now.
    apply xwp_bind, xwp_lift; [intros text _|by left; apply Hnone].
    apply xwp_bind. unfold create_export_file. apply xwp_bind, xwp_io; [by left; apply Hnone|]. unfold xwp at 1, xmodify.
    apply xwp_bind. eapply (write_line_wp _ []); [done|by intros ?? ?%not_elem_of_nil|by left|].
    apply xwp_bind. eapply xwp_mono; [eapply (export_pages_wp _ q q snapshot (x_tick x) p 0 [HeaderLine _])| |by left].
    - cbn. lia.
    - fold d. exact Hs1.
    - done.
    - intros n Hn. destruct (page_cursor _ _ _ Hv Hn) as [H1 _]. specialize (Hle n Hn). rewrite Es in H1. lia.
    - lia.
    - done.
    - intros t n E%list_elem_of_singleton. done.
    - cbn beta. fold d. rewrite <- Hm. fold rows. cbn. intros r x1 (-> & F1 & O1).
      apply xwp_bind. eapply close_export_wp; [exact F1|exact O1| |].
      + intros x2 [Hu|F2]; [by left|right]. exists snapshot, now. exact F2.
      + intros x2 F2. apply xwp_ret. eexists. split; [done|]. split; [exists snapshot, now; exact F2|done]. }
  unfold xwp in Hw. destruct (audit_export output q x) as [[a|e] x'].
  - destruct Hw as (receipt & -> & (snapshot & created & F) & Er). split.
    + intros lines t n F' _. rewrite F in F'. injection F' as <-. by exists snapshot, created.
    + intros a [= <-]. by exists receipt, snapshot, created.
  - split; [|done]. intros lines t n F Ht. destruct Hw as [Hu|(snapshot & created & F')]; [by apply (Hu _ F) in Ht|].
    rewrite F in F'. injection F' as ->. by exists snapshot, created.
Qed.

End WithConsole.
End WithLibraries.

(** ** A concrete export *)

Import VaultDemo.

(** The connection to the demo's vault, and a disk that writes. *)
#[export] Instance demo_console : Console := {
  admin_call := fun _ q =>
    match audit_query q VaultDemo.full with
    | (Ok p, _) => Ok (mkPageAnswer (Some true) (Some p))
    | (Err e, _) => Err (cli_local (authority_code e) "")
    end;
  io_works := fun _ => true; io_error := fun _ => ""; system_clock := fun _ => Some 5000%N;
  domain_text := fun _ => ""; id_text := fun _ => "";
}.
Definition everything : AuditQuery := mkAuditQuery None None None None None None None None None 2.
Lemma demo_full_log : log_ok (v_db VaultDemo.full).
Proof. exact (wk_log _ _ _ (proj1 (reachable _ _ _ _ _ _ demo_new demo_history))). Qed.
Lemma demo_answers n q a p :
  admin_call n q = Ok a -> an_page a = Some p -> exists s', audit_query q VaultDemo.full = (Ok p, s').
Proof.
  cbn [admin_call demo_console]. destruct (audit_query q VaultDemo.full) as [[p'|e] s']; [|done].
  intros [= <-] [= <-]. by exists s'.
Qed.
(** Three records, two to a page. *)
Lemma audit_export_complete_witness :
  let rows := matching everything (rev (audit_events (v_db VaultDemo.full))) in
  exists receipt x', audit_export (Some "audit.jsonl") everything (mkExport None false 0) = (Ok (Some receipt), x') /\
    er_row_count receipt = 3 /\ exists snapshot created_at_ms, x_file x' = Some (exported everything snapshot created_at_ms rows).
Proof.
  intros rows. pose proof (audit_export_complete (fun _ => VaultDemo.full) demo_full_log (fun _ => rtc_refl _ _) demo_answers
    (Some "audit.jsonl") everything (mkExport None false 0) eq_refl eq_refl) as Hx. cbv zeta in Hx. fold rows in Hx.
  assert (E : exists receipt, fst (audit_export (Some "audit.jsonl") everything (mkExport None false 0)) = Ok (Some receipt)
    /\ er_row_count receipt = 3) by (eexists; split; [vm_compute; reflexivity|reflexivity]).
  destruct E as (receipt & E & E3). revert Hx E. generalize (audit_export (Some "audit.jsonl") everything (mkExport None false 0)).
  intros [r x'] [_ Hx]. cbn [fst]. intros ->. exists receipt, x'. split; [reflexivity|]. split; [exact E3|].
  destruct (Hx _ eq_refl) as (receipt' & snapshot & created & _ & F & _). by exists snapshot, created.
Defined.
