(* ===== verification/AuditProperties.v ===== *)
(** * AuditProperties: what a reader of the audit may rely on

    An event reads back as the record of its fields; pruning deletes exactly the rows of
    finished old requests; and a local decision that the password proved is recorded,
    but no page can show it. *)

From stdpp Require Import relations.
From S2P Require Import Prelude Errors Domain Codec Json Parameters SessionState Approval AuditRecords VaultModel Frame.
From S2P Require Import VaultStore Usage VaultWorker AuditLog VaultRules UsageTheorems VaultEvolution.
From S2P Require Import UsageSafety AuditExport VaultDemo UsageProperties AuditPages.

Section WithLibraries.
Context {H : Host} {HL : HostLaws} {CC : Codecs} {CL : CodecLaws} {SJ : Serde} {VW : ValueWriter}.
Context {RC : RecordCodec} {RL : RecordCodecLaws} {AE : Aead} {AL : AeadLaws}.

(** ** Round trip *)

Definition version_typed (v : Z) : Prop := 0 < v <= i64_max.
Record authorization_typed (a : AuthorizationEvidence) : Prop := {
  at_principal : id_typed (au_principal_id a);
  at_version : version_typed (au_policy_version a);
  at_digest : length (au_policy_digest a) = 32%nat;
  at_rule : forall id, au_policy_rule_id a = Some id -> id_typed id;
  at_hash : length (au_parameter_hash a) = 32%nat;
}.
Record approval_typed (a : ApprovalEvidence) : Prop := {
  ap_request : id_typed (ev_approval_request_id a);
  ap_approval : forall id, ev_approval_id a = Some id -> id_typed id;
  ap_approver : forall id, ev_approver_id a = Some id -> id_typed id;
}.
(** An event with values of its fields' types, as the worker makes them. *)
Record event_typed (e : AuditEvent) : Prop := {
  et_event : length (e_event_id e) = 16%nat;
  et_request : forall id, e_request_id e = Some id -> id_typed id;
  et_session : forall id, e_session_id e = Some id -> id_typed id;
  et_action : forall id, e_action_id e = Some id -> id_typed id;
  et_action_version : forall v, e_action_version e = Some v -> version_typed v;
  et_credential : forall id, e_credential_id e = Some id -> id_typed id;
  et_credential_version : forall v, e_credential_version e = Some v -> version_typed v;
  et_authorization : forall a, e_authorization e = Some a -> authorization_typed a;
  et_approval : forall a, e_approval e = Some a -> approval_typed a;
  et_usage : forall u, e_usage e = Some u -> usage_validate u = Ok tt;
  et_context : forall c, e_request_context e = Some c -> context_validate c = Ok tt;
  et_texts : is_empty_str (e_event_type e) || is_empty_str (e_outcome e) || is_empty_str (e_reason_code e) = false;
  et_status : forall v, e_upstream_status e = Some v -> 0 <= v < 2 ^ 16;
  et_latency : forall v, e_latency_ms e = Some v -> 0 <= v;
  et_created : 0 <= e_created_at_ms e;
}.
(** The record of an event at a key. *)
Definition record_of (e : AuditEvent) (seq : Z) : AuditRecord :=
  mkAuditRecord AUDIT_SCHEMA_V2 seq (hexlower_encode (e_event_id e)) (e_request_id e) (e_session_id e) (e_action_id e)
    (e_action_version e) (e_credential_id e) (e_credential_version e)
    (au_principal_id <$> e_authorization e) (au_policy_version <$> e_authorization e)
    (hexlower_encode ∘ au_policy_digest <$> e_authorization e) (e_authorization e ≫= au_policy_rule_id)
    (ev_approval_request_id <$> e_approval e) (e_approval e ≫= ev_approval_id) (e_approval e ≫= ev_approver_id)
    (e_usage e) (e_request_context e) (e_event_type e) (e_outcome e) (e_reason_code e)
    (e_upstream_status e) (e_latency_ms e) (e_created_at_ms e).

Lemma optional_id_of o : (forall id, o = Some id -> id_typed id) -> optional_id (id_as_bytes <$> o) = Ok o.
Proof.
  destruct o as [id|]; [|done]. intros Hid. unfold optional_id. cbn -[id_of_blob id_as_bytes].
  by rewrite id_of_blob_of by (by apply Hid).
Qed.
Lemma optional_version_of o : (forall v, o = Some v -> version_typed v) -> optional_version (u64_as_i64 <$> o) = Ok o.
Proof.
  destruct o as [v|]; [|done]. intros Hv. destruct (Hv v eq_refl) as [H0 H1]. unfold optional_version. cbn -[Z.ltb].
  rewrite u64_as_i64_small by done. unfold positive_u64. by rewrite (proj2 (Z.ltb_lt _ _)).
Qed.
Lemma blob_of n b : length b = n -> blob n b = Ok b.
Proof. intros Hn. unfold blob. by rewrite bool_decide_eq_true_2. Qed.
Lemma metadata_of_text e text :
  event_typed e -> metadata_text e = Some text ->
  decode_metadata text = Ok (mkAuditMetadata (e_request_context e) (e_usage e)).
Proof.
  intros He. unfold metadata_text, decode_metadata.
  assert (Hc : transpose (fun context => integrity (context_validate context)) (e_request_context e) = Ok (const tt <$> e_request_context e)).
  { destruct (e_request_context e) as [c|] eqn:Ec; [|done]. cbn. by rewrite (et_context _ He _ Ec). }
  assert (Hu : transpose (fun usage => integrity (usage_validate usage)) (e_usage e) = Ok (const tt <$> e_usage e)).
  { destruct (e_usage e) as [u|] eqn:Eu; [|done]. cbn. by rewrite (et_usage _ He _ Eu). }
  destruct (is_some _ || is_some _) eqn:E.
  - destruct (metadata_to_string _) as [s|] eqn:Es; [|done]. intros [= <-]. rewrite (metadata_roundtrip _ _ Es).
    cbn [ok_or mbind result_bind md_request_context md_usage]. rewrite Hc. cbn [mbind result_bind]. by rewrite Hu.
  - intros [= <-]. apply orb_false_iff in E as [E1%none_of E2%none_of]. by rewrite E1, E2.
Qed.
Lemma authorization_of_columns e text seq :
  event_typed e -> authorization_from_columns (raw_of_event e text seq) = Ok (e_authorization e).
Proof.
  intros He. unfold authorization_from_columns. cbn -[id_of_blob id_as_bytes optional_id Z.leb blob].
  destruct (e_authorization e) as [a|] eqn:Ea; [|done]. destruct (et_authorization _ He _ Ea) as [Hp [Hv1 Hv2] Hd Hr Hh].
  cbn -[id_of_blob id_as_bytes optional_id Z.leb blob]. rewrite u64_as_i64_small by done.
  rewrite (proj2 (Z.leb_gt _ _)) by lia. rewrite id_of_blob_of by done. cbn -[id_as_bytes optional_id blob].
  rewrite !blob_of by done. cbn -[id_as_bytes optional_id]. rewrite optional_id_of by done. cbn. by destruct a.
Qed.

Lemma record_from_event e text seq :
  event_typed e -> metadata_text e = Some text -> version_typed seq ->
  record_from_raw (raw_of_event e text seq) = Ok (record_of e seq).
Proof.
  intros He Ht [Hs1 Hs2]. unfold record_from_raw. set (r := raw_of_event e text seq).
  rewrite (metadata_of_text _ _ He Ht : decode_metadata (raw_metadata_json r) = _),
    (authorization_of_columns e text seq He : authorization_from_columns r = _),
    (blob_of 16 (e_event_id e) (et_event _ He) : blob 16 (raw_event_id r) = _).
  rewrite (optional_id_of _ (et_request _ He) : optional_id (raw_request_id r) = _),
    (optional_id_of _ (et_session _ He) : optional_id (raw_session_id r) = _),
    (optional_id_of _ (et_action _ He) : optional_id (raw_action_id r) = _),
    (optional_id_of _ (et_credential _ He) : optional_id (raw_credential_id r) = _),
    (optional_version_of _ (et_action_version _ He) : optional_version (raw_action_version r) = _),
    (optional_version_of _ (et_credential_version _ He) : optional_version (raw_credential_version r) = _).
  assert (Ea : optional_id (raw_approval_request_id r) = Ok (ev_approval_request_id <$> e_approval e) /\
    optional_id (raw_approval_id r) = Ok (e_approval e ≫= ev_approval_id) /\
    optional_id (raw_approver_id r) = Ok (e_approval e ≫= ev_approver_id)).
  { subst r. unfold raw_of_event. cbn [raw_approval_request_id raw_approval_id raw_approver_id].
    destruct (e_approval e) as [a|] eqn:E; [|done]. destruct (et_approval _ He _ E) as [Hq Ha Hp].
    split_and!; [apply (optional_id_of (Some (ev_approval_request_id a))); by intros ? [= <-]|by apply optional_id_of|by apply optional_id_of]. }
  destruct Ea as (-> & -> & ->).
  assert (Est : transpose upstream_status_of (raw_upstream_status r) = Ok (e_upstream_status e)).
  { subst r. cbn -[Z.leb Z.ltb]. pose proof (et_status _ He) as Hst. destruct (e_upstream_status e) as [v|]; [|done]. cbn -[Z.leb Z.ltb].
    destruct (Hst v eq_refl). unfold upstream_status_of. rewrite (proj2 (Z.leb_le _ _)), (proj2 (Z.ltb_lt _ _)) by lia. done. }
  assert (Elat : is_some_and (raw_latency_ms r) (fun v => v <? 0) = false).
  { subst r. cbn -[Z.ltb]. pose proof (et_latency _ He) as Hlt. destruct (e_latency_ms e) as [v|]; [|done]. cbn -[Z.ltb]. apply Z.ltb_ge. auto. }
  rewrite Est, Elat. pose proof (et_texts _ He) as Htx. pose proof (et_created _ He) as Hcr.
  change (raw_event_type r) with (e_event_type e). change (raw_outcome r) with (e_outcome e). change (raw_reason_code r) with (e_reason_code e).
  change (raw_created_at_ms r) with (e_created_at_ms e). change (raw_sequence r) with seq.
  unfold positive_u64. cbn [mbind result_bind]. rewrite Htx, (proj2 (Z.ltb_ge _ _)), (proj2 (Z.ltb_lt 0 seq)) by done. reflexivity.
Qed.

(** ** Decisions *)

Lemma decision_facts reason draft e seq :
  decision_invalid reason draft = false -> event_of draft e ->
  let r := record_of e seq in
  r_reason_code r = reason /\ is_some (r_approval_request_id r) = true /\ r_approver_id r = None /\
  ((r_event_type r = event_type.APPROVAL_APPROVED /\ is_some (r_approval_id r) = true) \/
   (r_event_type r = event_type.APPROVAL_REJECTED /\ r_approval_id r = None)).
Proof.
  intros Hv (id & now & _ & ->). unfold decision_invalid in Hv. rewrite !orb_false_iff in Hv.
  destruct Hv as [[[[[[[[[[[Hd _] Hr] _] _] _] _] _] _] _] _] _]. unfold str_eqb in Hr. reflect_bools. cbn.
  unfold valid_decision in Hd. destruct (d_approval draft) as [ev|]; [|done]. cbn.
  unfold str_eqb in Hd. case_bool_decide as Ht.
  - apply andb_true_iff in Hd as [H1 H2]. apply negb_true_iff, none_of in H2. split_and!; try done. left. done.
  - rewrite !andb_true_iff in Hd. destruct Hd as [[H1%bool_decide_eq_true H2%negb_true_iff%none_of] H3%negb_true_iff%none_of].
    split_and!; try done. by right.
Qed.
(** A reader accepts no record of a decision that the password proved. *)
Lemma password_decision_refused snapshot q previous draft e seq :
  decision_invalid "local-password" draft = false -> event_of draft e ->
  record_refused snapshot q previous (record_of e seq) = true.
Proof.
  intros Hv He. destruct (decision_facts _ _ _ seq Hv He) as (Hr & Hq & Hp & Ht). set (r := record_of e seq) in *.
  assert (Hf : approval_fields_match_event r = false).
  { unfold approval_fields_match_event. rewrite Hr, Hq, Hp. destruct Ht as [[Ht Ha]|[Ht Ha]]; rewrite Ht, Ha; destruct (has_authorization r); vm_compute; reflexivity. }
  unfold record_refused. rewrite Hf. cbn. by rewrite !orb_true_r.
Qed.

Lemma append_local_approval_wp e not_after wall :
  settles (append_local_approval_audit e not_after wall) (fun _ s d => add_event e (v_db s) = Some d).
Proof.
  intros s. unfold append_local_approval_audit. apply vwp_bind, vwp_begin; [by auto with vault|].
  assert (Hi : vwp (vmap_err as_commit_failure (audit_insert e)) (fun _ s' => kept (v_ticked (set_v_tx (v_db s) s)) s' /\ add_event e (v_db s) = Some (v_tx s'))
    (fun _ s' => kept (v_ticked (set_v_tx (v_db s) s)) s') (v_ticked (set_v_tx (v_db s) s))).
  { apply vwp_map_err. apply event_tx. }
  eapply vwp_step; [apply kept_tx|done|exact Hi|]. cbn. intros _ s1 H1 E1.
  eapply vwp_step; [exact H1|done|apply vreader_tx, (vreader_current (Some not_after))|]. cbn. intros _ s2 H2 E2.
  eapply vwp_step; [exact H2|done|apply vreader_tx, vreader_now|]. cbn. intros now s3 H3 E3.
  apply vwp_bind, vwp_reject; intros _; [exact H3|]. apply vwp_commit; [etrans; [exact H3|by auto with vault]|].
  split; [etrans; [exact (kp_frame _ _ H3)|apply frame_db]|]. cbn. by rewrite E3, E2.
Qed.
(** What an authorization that succeeded has recorded. *)
Lemma authorize_wp kind draft not_after wall s :
  vwp (authorize_verified_approval kind draft not_after wall)
    (fun _ s' => exists reason e, proof_reason kind = Ok reason /\ decision_invalid reason draft = false /\ event_of draft e /\
       add_event e (v_db s) = Some (v_db s')) (fun _ _ => True) s.
Proof.
  unfold authorize_verified_approval. apply vwp_bind, vwp_lift; [intros reason Er|done].
  apply vwp_bind, vwp_reject; intros Hi; [done|]. apply vwp_read; [apply (vreader_current (Some not_after))|done|]. intros _ s1 H1.
  apply vwp_read; [apply vreader_now|done|]. intros now s2 H2. apply vwp_bind, vwp_reject; intros _; [done|].
  apply vwp_bind. eapply vwp_mono; [apply (audit_event_wp appended (fun _ _ a => a))| |done]. cbn. intros e s3 [H3 He].
  assert (Ed : v_db s3 = v_db s) by (rewrite (kp_db _ _ H3), (kp_db _ _ (sm_kept _ _ H2)); apply (kp_db _ _ (sm_kept _ _ H1))).
  unfold vwp. destruct (fault_on_audit_failure _ s3) as [[[]|] s4] eqn:Ef; [|done]. apply fault_on_Ok in Ef.
  pose proof (append_local_approval_wp e not_after wall s3) as Hw. unfold vwp in Hw. rewrite Ef in Hw. destruct Hw as [_ Hw].
  exists reason, e. by rewrite <- Ed.
Qed.
Lemma fault_on_faults {A} e reason (m : V A) s s' : fault_on e reason m s = (Err e, s') -> v_state s' = VFaulted.
Proof.
  unfold fault_on, mbind, V_bind, vtry, vreads, vlift. destruct (m s) as [[x|err] s1]; cbn; [done|].
  destruct (is_faulted s1) eqn:Ef; cbn.
  - rewrite andb_false_r. cbn. intros [= _ <-]. unfold is_faulted in Ef. by destruct (v_state s1).
  - rewrite andb_true_r. case_bool_decide as He; cbn; [|by intros [= ? _]].
    pose proof (fault_wp appended (fun _ _ a => a) reason s1) as Hw. unfold vwp in Hw.
    destruct (fault reason s1) as [[[]|] s2]; cbn; (intros [= _ <-]; apply Hw) || (intros [= _ <-]; apply Hw).
Qed.

(** C25: a local decision that the password proved is recorded, and from then on a reader
    who asks for the newest records is refused every page: the answer is never a
    page, and when the store says what is wrong the vault is closed. *)
Theorem password_decision_unreadable s draft not_after wall s1 q :
  authorize_verified_approval Password draft not_after wall s = (Ok tt, s1) -> log_ok (v_db s) ->
  (forall e, event_of draft e -> event_typed e /\ forall n, query_matches q (record_of e n) = true) ->
  q_before_sequence q = None -> q_snapshot_max_sequence q = None ->
  let '(r, s2) := answer_query q s1 in
  (forall p, r <> Ok p) /\ (r = Err Authority.StorageIntegrityFailed -> v_state s2 = VFaulted).
Proof.
  intros Ha Hl Hd Hb Hsn. pose proof (authorize_wp Password draft not_after wall s) as Hw. unfold vwp in Hw. rewrite Ha in Hw.
  destruct Hw as (reason & e & [= <-] & Hi & He & Hadd). destruct (Hd e He) as [Het Hm].
  assert (Hl1 : log_ok (v_db s1)) by (by eapply add_event_log).
  destruct (answer_query q s1) as [r s2] eqn:Eq. unfold answer_query, mbind, V_bind, vreads in Eq.
  destruct (is_faulted s1); [injection Eq as <- <-; done|]. split; [|intros ->; by eapply fault_on_faults].
  intros p ->. apply fault_on_Ok in Eq. destruct (audit_query_ok _ _ _ _ Eq Hl1) as (snapshot & Hp & _ & Hs). rewrite Hsn in Hs.
  destruct Hs as [Hs1 Hs2]. pose proof (lo_bound _ Hl1) as Hbnd.
  destruct (page_of_complete q snapshot (v_db s1) p Hl1 ltac:(unfold start_of; rewrite Hb; lia) Hp) as (Es & Hv & Hmat & Hle).
  unfold start_of in Hmat, Hle. rewrite Hb in Hmat, Hle. rewrite rows_to_all in Hmat by done.
  unfold add_event in Hadd. destruct (metadata_text e) as [text|] eqn:Et; [|done]. cbn in Hadd. unfold insert_audit_row in Hadd.
  set (n := audit_sequence (v_db s) + 1) in *. destruct (_ && _); [|done]. injection Hadd as Ed.
  assert (Hn : version_typed n) by (unfold n, version_typed in *; rewrite <- Ed in Hbnd; cbn in Hbnd; pose proof (lo_bound _ Hl); lia).
  pose proof (record_from_event e text n Het Et Hn) as Er.
  assert (Erows : audit_events (v_db s1) = audit_events (v_db s) ++ [raw_of_event e text n]) by (by rewrite <- Ed).
  assert (Eseq : audit_sequence (v_db s1) = n) by (by rewrite <- Ed). rewrite Eseq in Hs1. rewrite Erows in Hmat.
  rewrite rev_app_distr in Hmat. cbn [rev app] in Hmat. rewrite (matching_cons _ _ _ _ Er), (Hm n) in Hmat. cbn [app] in Hmat.
  destruct (pg_events p) as [|x l] eqn:Ep; cbn [app] in Hmat.
  - destruct (pg_next_before_sequence p) as [k|] eqn:Ek; [|done].
    destruct (page_cursor _ _ _ Hv Ek) as [Hk _]. rewrite Es in Hk.
    assert (Hx : rows_to (k - 1) (v_db s1) = rows_to (k - 1) (v_db s)).
    { unfold rows_to. rewrite Erows, retain_app. unfold retain at 2. cbn.
      destruct (Z.leb_spec n (k - 1)); [unfold n in *; lia|]. by rewrite app_nil_r. }
    assert (Hin : record_of e n ∈ matching q (rows_to (k - 1) (v_db s))) by (rewrite <- Hx, <- Hmat; left).
    apply list_elem_of_omap in Hin as (r0 & Hr & Hr0). apply elem_of_rows_to in Hr as [_ Hr].
    destruct (record_from_raw r0) as [e0|] eqn:E0; [|done]. destruct (query_matches q e0); [|done]. injection Hr0 as ->.
    destruct (record_fields _ _ E0) as (_ & Es0 & _). pose proof (lo_range _ Hl _ Hr). cbn in Es0. unfold n in *. lia.
  - injection Hmat as <- _. unfold page_validate_for in Hv. rewrite Ep in Hv. cbn [records_validate] in Hv.
    rewrite (password_decision_refused _ q None draft e n Hi He) in Hv.
    destruct (query_validate q); cbn [mbind result_bind] in Hv; [|done].
    repeat (match type of Hv with (if ?b then _ else _) = _ => destruct b; [done|] end). done.
Qed.

(** ** Appending and pruning *)

Lemma or_fault_faults {A} reason (m : V A) (Q : A -> Vault -> Prop) s :
  vwp m Q (fun _ _ => True) s -> vwp (or_fault reason m) Q (fun _ s' => v_state s' = VFaulted) s.
Proof.
  unfold or_fault, vwp, vtry, mbind, V_bind. destruct (m s) as [[a|err] s1]; cbn; [done|]. intros _.
  pose proof (fault_wp appended (fun _ _ a => a) reason s1) as Hf. unfold vwp in Hf. by destruct (fault reason s1) as [[[]|] s2]; cbn; destruct Hf.
Qed.
Lemma audit_event_fails draft s :
  vwp (audit_event_or_fault draft) (fun _ _ => True) (fun _ s' => kept s s' \/ v_state s' = VFaulted) s.
Proof.
  assert (HE : forall s', same s s' -> kept s s' \/ v_state s' = VFaulted) by (intros s' []; by left).
  assert (HF : forall A reason (m : V A) s', vwp (or_fault reason m) (fun _ _ => True) (fun _ s'' => kept s s'' \/ v_state s'' = VFaulted) s').
  { intros A reason m s'. eapply vwp_mono; [apply (or_fault_faults _ _ (fun _ _ => True)); unfold vwp; by destruct (m s') as [[]]|done|by right]. }
  unfold audit_event_or_fault. apply vwp_bind, vwp_reject; intros _; [by apply HE|].
  apply vwp_read; [|by intros; apply HE|intros _ s1 H1].
  { destruct (d_request_context draft); [|apply vreader_ret]. apply vreader_bind; intros; apply vreader_lift. }
  apply vwp_bind. pose proof (or_fault_faults "audit-event-construction-failed" now_ms (fun _ s' => same s s') s1) as Hn.
  eapply vwp_mono; [apply Hn; apply vwp_now; [intros; etrans; [exact H1|apply same_v_ticked]|done]| |by right].
  cbn. intros now s2 H2. apply vwp_bind, vwp_reject; intros _; [by apply HE|]. apply HF.
Qed.
(** C26: an event that the worker appends is the newest row of the audit, under the next
    key, and reads back as the record of its draft; the rows before it stay. An append
    that fails leaves the tables as they were, or the vault closed. *)
Theorem audit_append_reads_back draft s :
  log_ok (v_db s) -> (forall e, event_of draft e -> event_typed e) ->
  match append_audit draft s with
  | (Ok _, s') =>
      exists e row, event_of draft e /\ audit_events (v_db s') = audit_events (v_db s) ++ [row] /\
        record_from_raw row = Ok (record_of e (audit_sequence (v_db s) + 1)) /\ audit_sequence (v_db s') = audit_sequence (v_db s) + 1
  | (Err _, s') => v_db s' = v_db s \/ v_state s' = VFaulted
  end.
Proof.
  intros Hl Hd. pose proof (audit_event_wp appended (fun _ _ a => a) draft s) as Hw. pose proof (audit_event_fails draft s) as Hf.
  unfold append_audit, mbind, V_bind. unfold vwp in Hw, Hf. destruct (audit_event_or_fault draft s) as [[e|err] s1].
  2: { destruct Hf as [Hf|Hf]; [left; by apply kp_db|by right]. }
  destruct Hw as [H1 He]. pose proof (append_audit_row_wp e s1) as Hw2.
  pose proof (or_fault_faults "audit-commit-failed" (append_audit_row e) (fun _ s' => add_event e (v_db s1) = Some (v_db s')) s1) as Hw.
  unfold vwp in Hw. destruct (or_fault _ _ s1) as [[[]|err] s2].
  2: { right. apply Hw. unfold vwp in Hw2. destruct (append_audit_row e s1) as [[a|] s3]; [apply Hw2|done]. }
  assert (Hadd : add_event e (v_db s1) = Some (v_db s2)).
  { apply Hw. unfold vwp in Hw2. destruct (append_audit_row e s1) as [[a|] s3]; [apply Hw2|done]. }
  rewrite (kp_db _ _ H1) in Hadd. unfold add_event in Hadd. destruct (metadata_text e) as [text|] eqn:Et; [|done]. cbn in Hadd.
  unfold insert_audit_row in Hadd. set (n := audit_sequence (v_db s) + 1) in *.
  destruct (audit_sequence (v_db s) <? i64_max) eqn:El; [|done]. apply Z.ltb_lt in El. destruct (_ && _); [|done]. injection Hadd as Ed.
  exists e, (raw_of_event e text n). split; [done|]. split; [by rewrite <- Ed|]. split; [|by rewrite <- Ed].
  apply record_from_event; [by apply Hd|done|]. pose proof (lo_bound _ Hl). unfold version_typed, n. lia.
Qed.

Lemma retain_no_requests rows : retain (in_requests []) rows = [].
Proof.
  unfold retain. induction rows as [|r rows IH]; cbn; [done|]. unfold in_requests at 1.
  by destruct (request_of r); [rewrite bool_decide_eq_false_2 by apply not_elem_of_nil|].
Qed.
(** C27: a pruning that succeeds has read every row of the audit, deleted all rows of
    exactly the finished executions older than the cutoff ([eligible]) and counted them;
    the marker it leaves expires every snapshot before it. It writes nothing when no
    execution is eligible, and when it fails. *)
Theorem audit_prune_exact request marker not_after s :
  log_ok (v_db s) -> e_event_type marker = event_type.AUDIT_PRUNED ->
  let rows := audit_events (v_db s) in
  match audit_prune request marker not_after s with
  | (Ok receipt, s') =>
      (forall r, r ∈ rows -> is_ok (record_from_raw r) = true) /\
      exists doomed, NoDup doomed /\ (forall id, id ∈ doomed <-> eligible (pr_before_ms request) rows id) /\
        pc_before_ms receipt = pr_before_ms request /\
        deleted_groups receipt = llen doomed /\ deleted_rows receipt = llen (retain (in_requests doomed) rows) /\
        if bool_decide (doomed = []) then v_db s' = v_db s /\ prune_sequence receipt = None
        else exists row, audit_events (v_db s') = retain (fun r => negb (in_requests doomed r)) rows ++ [row] /\
          prune_sequence receipt = Some (raw_sequence row) /\ raw_event_type row = event_type.AUDIT_PRUNED /\
          profile_usage (v_db s') = profile_usage (v_db s) /\ profile_usage_state (v_db s') = profile_usage_state (v_db s) /\
          (forall upto, upto <= audit_sequence (v_db s) -> expired upto (v_db s'))
  | (Err _, s') => v_db s' = v_db s
  end.
Proof.
  intros Hl Hm. cbv zeta. pose proof (audit_prune_wp request marker not_after s) as Hw. unfold vwp in Hw.
  destruct (audit_prune request marker not_after s) as [[receipt|e] s']; [|by apply kp_db].
  destruct Hw as [_ Hw]. destruct (Hw Hl) as [Hall Hcase]. split; [done|].
  destruct Hcase as [(Hdb & -> & Hno)|(Hpos & doomed & [Hnd Hex Hadd] & ->)].
  - exists []. split; [constructor|]. split; [intros id; split; [by intros ?%not_elem_of_nil|by intros ?%Hno]|].
    rewrite bool_decide_eq_true_2 by done. cbn. split_and!; try done. by rewrite retain_no_requests.
  - exists doomed. do 2 (split; [done|]). cbn in *. rewrite bool_decide_eq_false_2.
    2: { intros ->. by rewrite retain_no_requests in Hpos. }
    split_and!; try done. assert (Hadd' := Hadd). apply add_event_row in Hadd' as (row & Er & En & Es & Et & _). cbn in Er, En, Es.
    exists row. unfold add_event in Hadd. destruct (metadata_text marker) as [text|]; [|done]. cbn in Hadd. unfold insert_audit_row in Hadd.
    destruct (_ && _); [|done]. injection Hadd as Ed. split_and!; [done|congruence|by rewrite Et|by rewrite <- Ed|by rewrite <- Ed|].
    intros upto Hu. exists row. rewrite Er, elem_of_app, list_elem_of_singleton. split_and!; [by right| |lia].
    unfold is_prune_marker, str_eqb. by rewrite Et, Hm.
Qed.

End WithLibraries.

(** ** On the demo's vault *)

Import VaultDemo.

Lemma demo_event_typed request event out reason e :
  id_typed request -> is_empty_str event || is_empty_str out || is_empty_str reason = false ->
  event_of (VaultDemo.draft request event out reason) e -> event_typed e.
Proof.
  intros Hr Ht (id & now & [Hl [Hn _]] & ->). split; cbn; try done.
  - by intros ? [= <-].
  - by intros ? [= <-].
  - by intros ? [= <-].
  - by intros ? [= <-].
  - by intros ? [= <-].
  - intros a [= <-]. split; try done. by intros ? [= <-].
Qed.
Lemma audit_append_reads_back_witness :
  exists s' row, append_audit (VaultDemo.start 9) VaultDemo.full = (Ok tt, s') /\
    audit_events (v_db s') = audit_events (v_db VaultDemo.full) ++ [row].
Proof.
  pose proof (audit_append_reads_back (VaultDemo.start 9) VaultDemo.full demo_full_log
    (fun e => demo_event_typed 9 event_type.EXECUTION_STARTED outcome.SUCCESS "profile" e (conj eq_refl eq_refl) eq_refl)) as Hx.
  assert (E : fst (append_audit (VaultDemo.start 9) VaultDemo.full) = Ok tt) by (vm_compute; reflexivity).
  revert Hx E. destruct (append_audit _ _) as [[[]|err] s']; cbn [fst]; intros Hx E; [|discriminate E].
  destruct Hx as (e & row & _ & Hr & _). exists s', row. exact (conj eq_refl Hr).
Defined.

(** The finished execution goes, the open one stays. *)
Definition marker : AuditEvent :=
  plain_event (repeat 3 16) event_type.AUDIT_PRUNED outcome.SUCCESS "explicit-execution-prune" 4000.
Lemma audit_prune_exact_witness :
  exists receipt s' doomed row, audit_prune (mkAuditPruneRequest 3000) marker None VaultDemo.full = (Ok receipt, s') /\
    deleted_rows receipt = 2 /\ deleted_groups receipt = 1 /\
    audit_events (v_db s') = retain (fun r => negb (in_requests doomed r)) (audit_events (v_db VaultDemo.full)) ++ [row] /\
    forall id, id ∈ doomed <-> eligible 3000 (audit_events (v_db VaultDemo.full)) id.
Proof.
  pose proof (audit_prune_exact (mkAuditPruneRequest 3000) marker None VaultDemo.full demo_full_log eq_refl) as Hx. cbv zeta in Hx.
  assert (E : exists receipt, fst (audit_prune (mkAuditPruneRequest 3000) marker None VaultDemo.full) = Ok receipt
    /\ deleted_rows receipt = 2 /\ deleted_groups receipt = 1) by (eexists; split; [vm_compute; reflexivity|split; reflexivity]).
  revert Hx E. destruct (audit_prune _ _ _ _) as [[receipt|err] s']; cbn [fst]; intros Hx (receipt' & E & E2 & E3); [|discriminate E].
  injection E as ->. destruct Hx as (_ & doomed & _ & Hf & _ & Hg & _ & Hrow). rewrite E3 in Hg.
  destruct doomed as [|id doomed]; [discriminate Hg|]. rewrite bool_decide_eq_false_2 in Hrow by discriminate.
  destruct Hrow as (row & Hr & _). exists receipt', s', (id :: doomed), row. exact (conj eq_refl (conj E2 (conj E3 (conj Hr Hf)))).
Defined.

(** A password approval of request 100, and the next look at the audit. *)
Definition decision : AuditDraft :=
  mkAuditDraft (Some 100) (Some 1) (Some 2) (Some 3) None None (Some VaultDemo.authorization)
    (Some (mkApprovalEvidence 21 (Some 22) None)) None None event_type.APPROVAL_APPROVED outcome.SUCCESS "local-password" None None.
Lemma decision_typed e : event_of decision e -> event_typed e /\ forall n, query_matches everything (record_of e n) = true.
Proof.
  intros (id & now & [Hl [Hn _]] & ->). split; [|done]. split; cbn; try done.
  - by intros ? [= <-].
  - by intros ? [= <-].
  - by intros ? [= <-].
  - by intros ? [= <-].
  - intros a [= <-]. split; try done. by intros ? [= <-].
  - intros a [= <-]. split; cbn; try done. by intros ? [= <-].
Qed.
Definition decided : Vault := snd (authorize_verified_approval Password decision 100000 100000 VaultDemo.full).
Lemma pair_split {A B} (p : A * B) a : fst p = a -> p = (a, snd p).
Proof. destruct p. cbn. congruence. Qed.
Lemma password_decision_unreadable_witness :
  exists s2, answer_query everything decided = (Err Authority.StorageIntegrityFailed, s2) /\ v_state s2 = VFaulted.
Proof.
  assert (E : fst (authorize_verified_approval Password decision 100000 100000 VaultDemo.full) = Ok tt) by (vm_compute; reflexivity).
  pose proof (password_decision_unreadable VaultDemo.full decision 100000 100000 decided everything (pair_split _ _ E)
    demo_full_log decision_typed eq_refl eq_refl) as Hx.
  assert (E2 : fst (answer_query everything decided) = Err Authority.StorageIntegrityFailed) by (vm_compute; reflexivity).
  revert Hx E2. destruct (answer_query everything decided) as [r s2]. cbn [fst]. intros [_ Hx] ->. exists s2. exact (conj eq_refl (Hx eq_refl)).
Defined.
